(* ===== verification/_CoqProject ===== *)
-Q . S2P
Prelude.v
PyText.v
TenantIds.v
Json.v
IsoTime.v
Manifest.v
RepeatingUnit.v
Capability.v
AuthorQuota.v
Checkpoints.v
JobStore.v
JobSystem.v
Jobs.v
JobDemo.v
Callbacks.v
BrokerStore.v
BrokerSystem.v
BrokerBounds.v
BrokerDemo.v
BrokerExtract.v
Entitlements.v
Concurrent.v
AgentPolicy.v
AgentDefaults.v
AgentCalls.v
AgentStore.v
AgentFiles.v
AgentGate.v
AgentSystem.v
AgentFilesSystem.v
AgentBudget.v
AgentDemo.v
ProjectContext.v
RequestJournal.v
JournalSystem.v
OperatorPolicy.v
OperatorStore.v
OperatorRunbooks.v
OperatorSystem.v
OperatorDemo.v
OperatorSessions.v
CustomStore.v
CustomPublish.v
CustomSystem.v
CustomSafety.v
CustomService.v
CustomDemo.v
Migrations.v
Backend.v
StoreKeys.v
PosixPath.v
FileSystem.v
FsBackend.v
LockFiles.v
DrawingStore.v
StoreInv.v
StoreProofs.v
StoreTheorems.v
IntakeCache.v
Bootstrap.v
CheckoutRoutes.v
RouteSafety.v
StoreDemo.v
FsDemo.v
RouteDemo.v
PgStore.v
LockSpec.v
PgSystem.v
HeadMoves.v
FairGate.v
FairQueue.v
ExecStore.v
ExecSystem.v
ExecReclaim.v
ExecAccounting.v
ExecService.v
ExecMemory.v
ExecDemo.v
GuestUploads.v
UploadSystem.v
