(* ===== verification/Prelude.v ===== *)
(** * LEAF: a verification of the drawing store, the job and broker spine, the agent
    gate, uploads, tool customization, schema migrations, the operator and the
    instant-execution control planes

    LEAF is a multi-tenant web application for CAD drawings.  Tenants upload
    drawings, tools derive new versions of them, sessions take a checkout lock to
    write, jobs and a broker run paid work at the CAD service under quotas, a
    conversational agent proposes actions that a gate allows or holds for a human,
    operators change tenants and releases through audited one-use approvals, tenants
    change their tool catalog by staged and independently approved change sets, and
    small tools run on warm executor slots that a control plane leases out.
    This library models the parts that carry those promises and proves them.

    ** Parts and files

    Shared ground.  [Prelude] (this file): results, a state-and-exception monad in
    which a raise keeps what was already written, weakest preconditions,
    reachability, sums over maps, tactics.  [PyText]: the operations of [str] the
    code uses, exact on the code points 0..255.  [Json]: JSON values, [json.dumps]
    with compact separators and a reader for it.  [IsoTime]: [datetime.isoformat]
    and its parser.  [Concurrent]: request handlers as sequences of atomic sections,
    pools of them, and the rely-guarantee rule for every interleaving.

    Identity.  [TenantIds]: [da/tenant.py], [server/tenant_id_validator.py] and the
    key functions of [da/store.py] ([sanitize_id], [drawing_prefix],
    [drawing_version_key], ...).  [Entitlements]: [server/entitlements.py] and
    [server/roles.py].

    Drawing store, legacy authority ([da/store.py]).  [Manifest]: the manifest
    document and its text.  [Backend]: the [StorageBackend] contract as a class whose
    operations may fail before or after their effect, and [InMemoryBackend] as an
    instance.  [PosixPath], [FileSystem], [FsBackend]: the path barrier, the system
    calls and [FilesystemBackend] as another instance.  [LockFiles]: the lock file
    protocol of processes and the reference-counted locks of threads.  [StoreKeys]:
    keys as data.  [DrawingStore]: [ingest_drawing], [put_drawing], [undo], [redo],
    [acquire_checkout_fence], [release_checkout], [authorize_checkout],
    [resolve_version] and the guard they run in.  [StoreInv], [StoreProofs],
    [StoreTheorems]: the invariant, a specification per operation, histories of
    calls.  [StoreDemo], [FsDemo]: concrete runs.

    Drawing store, PostgreSQL authority ([da/store.py] with
    [platform/migrations/0016_drawing_upload_authority.sql]).  [PgStore]: the
    transactions of [_pg_ingest], [_pg_put], [undo], [redo], acquire and release.
    [PgSystem]: any number of publishers interleaving reserve, blob write and
    finalize, with crashes.  [LockSpec]: an abstract fenced lock, that both
    authorities implement it, [authorize_checkout] against the commit, and the plan
    note codec.  [HeadMoves]: undo and redo.

    On top of the store.  [RepeatingUnit], [Capability]: the checkout capability
    tokens of [server/checkout_capability.py] and the strength check of their secret.
    [IntakeCache], [Bootstrap], [CheckoutRoutes], [RouteSafety]: [server/write_loop.py]
    and the checkout, undo and redo routes of [server/routers/drawings.py], with
    other requests between their store calls.  [Checkpoints]: [server/checkpoints.py]
    and its dual-write mirror.  [RouteDemo]: concrete runs.

    Quotas and callbacks.  [AuthorQuota]: [server/author_quota.py] and
    [platform/counters.py].  [Callbacks]: [server/da/callbacks.py].

    Jobs.  [JobStore]: the transactions of [server/job_pg_store.py].  [JobSystem]:
    their interleavings.  [Jobs]: leases, the terminal callback, retry and the orphan
    reaper of [server/jobs.py].  [JobDemo]: concrete runs.

    Broker.  [BrokerStore]: admission, start, staging, settlement and reconciliation
    of [server/broker_pg_store.py], and [run_transaction] of [platform/db.py].
    [BrokerSystem], [BrokerBounds]: any brokers and operators, and the caps.
    [BrokerExtract]: the extraction route of [server/broker.py].  [BrokerDemo]:
    concrete runs.

    Agent.  [AgentPolicy], [AgentDefaults]: the action catalog of
    [server/agent_policy.py], its strict parser, tier overrides, tenant overlays, and
    the built-in document.  [AgentCalls]: how a call is hashed and keyed.
    [AgentStore]: the PostgreSQL authority, [server/agent_pg_store.py].
    [AgentFiles]: the file authority.  [AgentGate]: the gate chain of
    [server/agent_gate.py] over both.  [AgentSystem], [AgentFilesSystem]: concurrent
    requests.  [AgentBudget]: hourly budgets and session grants.  [AgentDemo]:
    concrete runs.

    Message requests.  [ProjectContext]: the project binding of a request,
    [server/project_execution_context.py].  [RequestJournal]: the transactions of
    [server/request_journal.py] on [app_session_requests] and the turn lock of a
    session.  [JournalSystem]: their interleavings, claims of queued
    requests, concrete runs.

    Operators.  [OperatorPolicy]: the policy catalog, the registries of secrets and
    destinations and the stager's answers ([server/operator_policy.py],
    [operator_secret_broker.py], [operator_external_adapters.py],
    [operator_release_stager.py]).  [OperatorStore]: grants
    ([operator_principals.py], [scripts/operator_principal_admin.py]), budgets, and
    the mint and redemption of one-use authorities ([operator_authority.py]).
    [OperatorRunbooks]: the proposals and executions of the five runbooks.
    [OperatorSystem]: any operators, administrators and the ops
    surface at once, where any commit or answer may be lost.  [OperatorSessions]:
    [operator_session_store.py].  [OperatorDemo]: concrete runs.

    Customization.  [CustomStore]: change sets, audit events, confirmations, publication
    requests, catalog pointers and deployment snapshots of
    [server/customization_store.py], which [customization_postgres_store.py] runs over
    PostgreSQL, with [customization_models.py] and the catalog record fields of
    [tool_record_fields.py].  [CustomPublish]: the approvals of
    [customization_authority.py] and [_publish] of [customization_service.py].
    [CustomSystem]: every operation as moves of rows, pointers and confirmations.
    [CustomSafety], [CustomService]: the invariant the moves keep, in groups, and every
    interleaving of requests, workers and deployments.  [CustomDemo]: concrete runs.

    Uploads.  [GuestUploads]: [server/guest_uploads.py] under its PostgreSQL authority
    with the upload branches of [server/routers/uploads.py] and [_pg_ingest_guarded] of
    [da/store.py]: attempts, extraction leases, the ready commit, resets, purges and
    their receipts; guest session tokens and the daily caps.  [UploadSystem]: any uploads,
    workers, status views and sweeps at once, and concrete runs.

    Schema migrations.  [Migrations]: the statement lexer, the ledger, the runner and
    the readiness proof of [platform/db.py], run by any number of deployments at once.

    Submit path ([da/queue.py]).  [FairGate]: [admit], [fair_admit] and the
    dispatcher.  [FairQueue]: the batch queue.

    Instant execution ([executor/control_plane]).  [ExecStore]: [models.py] and the
    transactions of [PostgresStore].  [ExecSystem]: their interleavings.
    [ExecReclaim]: [reaper.py] and the release path of [service.py].
    [ExecAccounting]: [record_invocation], [recover_stale_invocations] and the bounds
    of [accounting.py].  [ExecService]: [ControlPlane] of [service.py].
    [ExecMemory]: [InMemoryStore].  [ExecDemo]: concrete runs.

    ** How the code is represented

    A function that can raise returns a [result]; one that also writes returns the
    state it leaves, on both paths.  A PostgreSQL transaction is an atomic function
    of the database that changes nothing on an exception where the code runs it
    serializable or first takes the row or advisory locks that cover what it reads.
    The instant-execution store does neither: it runs at READ COMMITTED, and its
    [rc_step] interleaves the statements of [register_host] with other transactions and
    lets the unlocked reads of the others see an older snapshot.  A migration file that
    is not tracked takes no lock in the code and is taken to run alone.  How retries and
    lost connections compose with a transaction is a theorem of [BrokerSystem].  Threads, processes and requests are step
    relations whose steps are the critical sections of the code: the sections under
    a lock, one database transaction, one backend or system call.  Times and clock
    readings are arguments; every call reads the clock anew, and nothing assumes that
    clocks agree or advance unless a theorem says so.  Integers of Python are [Z];
    money is whole nano-dollars and rate stamps are whole microseconds, so sums and
    differences are exact, where the broker's columns are DOUBLE PRECISION and round.

    Parameters stand for code outside the repository: SHA-256 and the MACs (nothing
    assumes a hash injective), the clock, fresh UUIDs and tokens (distinct within a
    run where a theorem needs it), [jsonschema], the executor's and the CAD service's
    answers, the minter, rotator, adapters and stager a deployment registers,
    Redis, the effect of one SQL statement of a migration, and for the drawing store
    the graph-bundle adapter and reader, which are assumed only to read.

    ** What is proved

    Legacy store: every history of calls, over every backend that keeps the storage
    contract and with any failures the contract allows, keeps
    the manifest well formed and every listed version backed by its bytes; version
    blobs are immutable; fences strictly increase; an active lock excludes other
    writers; drawings do not affect one another; a published version stays.  The
    contract has [exists] never deny an object that is there: the file system backend
    keeps it except when the [stat] behind [exists] fails, and then an upload can
    overwrite a drawing ([FsDemo]).  The lock files exclude, and a caller is in after
    at most five acts of its own once the holder has died.
    Keys: an object key determines tenant, drawing and object.  PostgreSQL store:
    publication is a compare-and-set on head and lease, a takeover fences earlier
    reservations out, ready versions form a tree and never change, under any
    interleaving.  Both authorities refine one abstract lock; redo inverts undo; the
    pre-flight agrees with the commit.  Routes: a capability proves the lease it was
    minted for, heads move only with that proof or when the gate saw no lease, a served intake is bound to its
    bytes, checkpoints stay within their cap and are mirrored.

    Jobs: an outcome is final and of its own attempt, the platform's linked row never
    contradicts it, an attempt has one worker, a
    closed job never resumes, submissions are idempotent; a callback is consumed
    once and its signature covers every field.  Broker: a run executes at most once,
    a staged success settles as staged, a retried transaction is applied at most once and
    its answer tells whether; spending (while no start outwaits its lease), slots and
    daily runs stay within their caps.  Author quota: bounded, fails closed, and the same in both stores.

    Agent: a catalog that loads is well formed; overlays only tighten and pinned
    actions never loosen; without a file the built-in catalog keeps the guardrail; an
    allowed call passed every guard and, where a confirmation is due, redeemed an
    approval a person granted for exactly this call, which no second request can use,
    over PostgreSQL and over files; an hour never holds more calls than the budget.

    Message requests: a request gets at most one turn, an ended one is final, retries
    are answered alike, a session has one executing and one queued request, and what
    waits in the queue holds no credentials.  Operators: an authority is used once, for
    what it was minted for, and audited; a paid write or a deploy is made at most once
    for it; a candidate is staged once and only to staging; a withdrawn grant
    consumes no further authority; budgets hold; a runbook applies to the state that was approved and
    an overlay only tightens; resumed event reads are complete.

    Customization: the catalog a tenant runs on is that of a published change set, whose
    content another subject than its author approved in a confirmation spent on it alone;
    the audit events of a change set are its moves and the rollbacks noted on it; a tenant has one publication
    under way; a change set is staged once, by the worker that claimed it last; a
    snapshot of the catalogs is put back exactly, whatever happened in between.

    Uploads: the manifest row of a drawing has a head exactly when the marker that is
    served says ready (its bytes may be gone: [late_reset_deletes_ready_bytes]); an
    attempt ends once, by the worker that claimed it last while its lease runs; a purge
    is receipted only when the retention was due and leaves no row; a session that
    verifies was signed for its tenant and expiry; the daily caps hold.

    Migrations: the lexer splits a file as its quoting says; a database is what its
    ledger replays to, under any interleaving of runners and crashes; a deployment
    that returned left its image fully applied; a file that changed after it ran is
    refused and runs nothing; one image runs in order.

    Gate of the submit path: the ceiling, work conservation, bounded bypass.  Batch
    queue: ceiling, fairness of a batch.  Control plane: of two
    sessions on one slot at most one has an active claim, and the other can neither be
    activated nor renewed; ended bindings stay fenced, reclamation is exact, assignment is all or nothing,
    invocations are charged at most once and settle for good.  Entitlements: a
    capability is granted for exactly the documented reasons.

    The demo files also hold the executions behind behaviours the code should not
    have: slots that leak, leases that outlive their claims, a start that overruns
    the cap, approvals rewritten after they were spent, purged bytes that come back, and
    others.

    ** Bounds

    Loops of the code that are not structural run on fuel that is enough: the redo
    walk visits each version at most once and gets [|versions| + 2]; the slot search
    has the code's own bound of 1000; the pickers of the queue rotate at most once
    round the ring ([|ring| + 1]); the dispatcher takes one slot per round
    ([free + 1]); the JSON reader consumes a character per step; [run_transaction]
    has its own number of attempts; the lexer of migrations takes at least one
    character per round and gets one more round than characters.  A run of the file
    authority of the agent draws at most [token_supply] tokens, since only boundedly
    many can be distinct.
    [serve_all], which builds the concrete pools of the demo files, runs at most eight
    sections of each request; no theorem about all runs uses it.

    ** What is not modelled

    [OSSBackend] beyond the contract it implements; copy-on-ingest, purge and listing
    of drawings.  The SQLite authority and the execution paths of jobs; the run, plan
    and reconciliation routes of the broker; the stale-job reaper of the CAD client.
    For the agent: the validation of the rate snapshot's JSON, the projection of
    audited arguments, the file audit log, sessions and metering.  For the operators:
    the worker dispatch, the egress guard and the routes.  For customization: staging
    through the harness, the checks of git repositories, and the views.  For uploads:
    the file authority of the markers, the extraction engines and the validation of the
    uploaded bytes.  The field, credential and UUID checks of accounting records.
    Rebuilding the submit gate when its ceiling changes.  Floating-point code (usage sums, cost meter, solvers),
    the remaining HTTP routers, the front end, the harness, CI and operator scripts,
    vendored code.

    Planned next, in this order: the agent's session store and decision route; the
    broker's run route; the operators' worker dispatch; the file authority of uploads. *)

From stdpp Require Export base tactics numbers list gmap strings fin_maps sets.
From Stdlib Require Export Lia.

#[export] Set Warnings "-clear-no-such-hyp".

(** * Results of code that can raise *)

Declare Scope py_scope.
Delimit Scope py_scope with py.

(** A call of fallible code: a value, or the exception it raised. *)
Inductive result (E A : Type) : Type :=
| Ok (a : A)
| Err (e : E).
Arguments Ok {E A} a.
Arguments Err {E A} e.

#[export] Instance result_mret E : MRet (result E) := λ A a, Ok a.
#[export] Instance result_mbind E : MBind (result E) :=
  λ A B f m, match m with Ok a => f a | Err e => Err e end.
#[export] Instance result_fmap E : FMap (result E) :=
  λ A B f m, match m with Ok a => Ok (f a) | Err e => Err e end.
#[export] Instance result_eq_dec E A `{EqDecision E} `{EqDecision A} :
  EqDecision (result E A).
Proof. solve_decision. Defined.

(** [is_ok r] holds when the call returned. *)
Definition is_ok {E A} (r : result E A) : bool :=
  match r with Ok _ => true | Err _ => false end.

(** [guard_or b e]: a Python [if not b: raise e]. *)
Definition guard_or {E} (b : bool) (e : E) : result E unit :=
  if b then Ok tt else Err e.

(** [from_opt o e]: the value of an optional, or the exception [e]. *)
Definition from_opt {E A} (o : option A) (e : E) : result E A :=
  match o with Some a => Ok a | None => Err e end.

#[export] Instance Ok_inj {E A} : Inj (=) (=) (@Ok E A).
Proof. by intros a b [=]. Qed.

Lemma result_bind_Ok {E A B} (m : result E A) (f : A → result E B) b :
  (m ≫= f) = Ok b ↔ ∃ a, m = Ok a ∧ f a = Ok b.
Proof. destruct m; simpl; naive_solver. Qed.

Lemma guard_or_Ok {E} b (e : E) : guard_or b e = Ok tt ↔ b = true.
Proof. destruct b; naive_solver. Qed.

Lemma from_opt_Ok {E A} (o : option A) (e : E) a : from_opt o e = Ok a ↔ o = Some a.
Proof. destruct o; naive_solver. Qed.

(** * Code that mutates a store and can raise

    Python does not roll back on an exception: what was written before the
    [raise] stays written.  A stateful call therefore returns its outcome
    together with the state it leaves behind, on both paths. *)

Definition io (S E A : Type) : Type := S → result E A * S.

#[export] Instance io_mret S E : MRet (io S E) := λ A a s, (Ok a, s).
#[export] Instance io_mbind S E : MBind (io S E) :=
  λ A B f m s,
    match m s with
    | (Ok a, s') => f a s'
    | (Err e, s') => (Err e, s')
    end.

Definition raise {S E A} (e : E) : io S E A := λ s, (Err e, s).
Definition lift {S E A} (r : result E A) : io S E A := λ s, (r, s).

(** [try_except m h]: Python [try: m; except: h], the handler running on the
    state the body left. *)
Definition try_except {S E A} (m : io S E A) (h : E → io S E A) : io S E A :=
  λ s, match m s with (Ok a, s') => (Ok a, s') | (Err e, s') => h e s' end.

(** [run m s]: outcome and final state, named so that goals stay readable. *)
Definition outcome {S E A} (m : io S E A) (s : S) : result E A := fst (m s).
Definition final {S E A} (m : io S E A) (s : S) : S := snd (m s).

Lemma io_bind_inv {S E A B} (m : io S E A) (f : A → io S E B) s b s' :
  (m ≫= f) s = (Ok b, s') ↔ ∃ a s1, m s = (Ok a, s1) ∧ f a s1 = (Ok b, s').
Proof.
  unfold mbind, io_mbind. destruct (m s) as [[a|e] s1]; naive_solver.
Qed.

(** A property of the state that [m] keeps on every path, raising or not. *)
Definition preserves {S E A} (P : S → Prop) (m : io S E A) : Prop :=
  ∀ s, P s → P (final m s).

Create HintDb py.

Lemma preserves_ret {S E A} (P : S → Prop) (a : A) : preserves P (mret a : io S E A).
Proof. by intros s. Qed.

Lemma preserves_raise {S E A} (P : S → Prop) (e : E) : preserves P (raise e : io S E A).
Proof. by intros s. Qed.

Lemma preserves_lift {S E A} (P : S → Prop) (r : result E A) : preserves P (lift r : io S E A).
Proof. by intros s. Qed.

Lemma preserves_bind {S E A B} (P : S → Prop) (m : io S E A) (f : A → io S E B) :
  preserves P m → (∀ a, preserves P (f a)) → preserves P (m ≫= f).
Proof.
  intros Hm Hf s Hs. specialize (Hm s Hs). unfold preserves, final in *.
  unfold mbind, io_mbind. destruct (m s) as [[a|e] s1]; simpl in *; [|done].
  by apply (Hf a).
Qed.

Lemma preserves_try {S E A} (P : S → Prop) (m : io S E A) h :
  preserves P m → (∀ e, preserves P (h e)) → preserves P (try_except m h).
Proof.
  intros Hm Hh s Hs. specialize (Hm s Hs). unfold final, try_except in *.
  destruct (m s) as [[a|e] s1]; simpl in *; [done|]. by apply (Hh e).
Qed.

#[export] Hint Resolve preserves_ret preserves_raise preserves_lift
  preserves_bind preserves_try : py.

(** ** Weakest preconditions

    [wp m Φ s]: running [m] from [s] ends with an outcome and a state that
    satisfy [Φ].  A theorem about a handler is proved by walking its body one
    call at a time with [wp_bind] and the specification of each call. *)

Definition wp {S E A} (m : io S E A) (Φ : result E A → S → Prop) (s : S) : Prop :=
  Φ (outcome m s) (final m s).

Lemma wp_ret {S E A} (a : A) (Φ : result E A → S → Prop) s : Φ (Ok a) s → wp (mret a) Φ s.
Proof. done. Qed.

Lemma wp_raise {S E A} (e : E) (Φ : result E A → S → Prop) s : Φ (Err e) s → wp (raise e) Φ s.
Proof. done. Qed.

Lemma wp_lift {S E A} (r : result E A) (Φ : result E A → S → Prop) s : Φ r s → wp (lift r) Φ s.
Proof. done. Qed.

Lemma wp_bind {S E A B} (m : io S E A) (f : A → io S E B) Φ s :
  wp m (λ r s', match r with Ok a => wp (f a) Φ s' | Err e => Φ (Err e) s' end) s →
  wp (m ≫= f) Φ s.
Proof.
  unfold wp, outcome, final, mbind, io_mbind. by destruct (m s) as [[a|e] s1].
Qed.

Lemma wp_try {S E A} (m : io S E A) h Φ s :
  wp m (λ r s', match r with Ok a => Φ (Ok a) s' | Err e => wp (h e) Φ s' end) s →
  wp (try_except m h) Φ s.
Proof.
  unfold wp, outcome, final, try_except. by destruct (m s) as [[a|e] s1].
Qed.

Lemma wp_mono {S E A} (m : io S E A) (Φ Ψ : result E A → S → Prop) s :
  wp m Φ s → (∀ r s', Φ r s' → Ψ r s') → wp m Ψ s.
Proof. unfold wp. auto. Qed.

Lemma wp_intro {S E A} (m : io S E A) (Φ : result E A → S → Prop) s r s' :
  m s = (r, s') → wp m Φ s → Φ r s'.
Proof. unfold wp, outcome, final. by intros ->. Qed.

(** * Reachability *)

(** Reflexive-transitive closure of a step relation, with the invariant rule. *)
Inductive star {A} (R : A → A → Prop) : A → A → Prop :=
| star_refl a : star R a a
| star_step a b c : R a b → star R b c → star R a c.
#[export] Hint Constructors star : py.

Lemma star_invariant {A} (R : A → A → Prop) (P : A → Prop) a b :
  (∀ x y, P x → R x y → P y) → star R a b → P a → P b.
Proof. intros Hstep. induction 1; eauto. Qed.

Lemma star_one {A} (R : A → A → Prop) a b : R a b → star R a b.
Proof. eauto with py. Qed.

Lemma star_trans {A} (R : A → A → Prop) a b c : star R a b → star R b c → star R a c.
Proof. induction 1; eauto with py. Qed.

(** * Tactics *)

(** Case on the scrutinee of the outermost [match] or [if] of the goal. *)
Ltac case_goal :=
  match goal with
  | |- context [match ?x with _ => _ end] => destruct x eqn:?
  end.

(** The same in a hypothesis. *)
Ltac case_in H :=
  match type of H with
  | context [match ?x with _ => _ end] => destruct x eqn:?
  end.

(** Case on the test a monadic body branches on. *)
Ltac case_wp :=
  match goal with
  | |- wp (match ?x with _ => _ end) _ _ => destruct x eqn:?
  end.

(** Split every test of a hypothesis and discard the impossible branches. *)
Ltac split_in H := repeat (case_in H; simplify_eq/=; try done).

(** Turn boolean tests over integers and strings into propositions. *)
Ltac bool_prop :=
  repeat match goal with
  | H : (_ && _)%bool = true |- _ => apply andb_true_iff in H; destruct H
  | H : (_ || _)%bool = false |- _ => apply orb_false_iff in H; destruct H
  | H : negb _ = true |- _ => apply negb_true_iff in H
  | H : negb _ = false |- _ => apply negb_false_iff in H
  | H : bool_decide _ = true |- _ => apply bool_decide_eq_true in H
  | H : bool_decide _ = false |- _ => apply bool_decide_eq_false in H
  | H : Z.leb _ _ = true |- _ => apply Z.leb_le in H
  | H : Z.leb _ _ = false |- _ => apply Z.leb_gt in H
  | H : Z.ltb _ _ = true |- _ => apply Z.ltb_lt in H
  | H : Z.ltb _ _ = false |- _ => apply Z.ltb_ge in H
  | H : Z.eqb _ _ = true |- _ => apply Z.eqb_eq in H
  | H : Z.eqb _ _ = false |- _ => apply Z.eqb_neq in H
  end.

(** Prove that a monadic body keeps a state predicate, one call at a time. *)
Ltac keep := intros; repeat first
  [ progress eauto with py nocore
  | progress intros
  | apply preserves_bind
  | apply preserves_try
  | case_goal ].

(** * Sums over the rows of a table *)

(** [SELECT SUM(w) FROM m] *)
Definition msum `{Countable K} {A} (w : K → A → Z) (m : gmap K A) : Z :=
  map_fold (λ k a acc, w k a + acc)%Z 0%Z m.

Section Msum.
Local Open Scope Z_scope.
Context `{Countable K} {A : Type}.
Implicit Types (w : K → A → Z) (m : gmap K A).
Lemma msum_empty w : msum w ∅ = 0.
Proof. apply map_fold_empty. Qed.

Lemma msum_insert_fresh w m k a : m !! k = None → msum w (<[k := a]> m) = w k a + msum w m.
Proof. intros Hk. unfold msum. rewrite map_fold_insert_L; [done|intros; lia|done]. Qed.

Lemma msum_insert w m k a : msum w (<[k := a]> m) = w k a - from_option (w k) 0 (m !! k) + msum w m.
Proof.
  destruct (m !! k) as [b|] eqn:Hk; cbn.
  - rewrite <- insert_delete_eq. rewrite msum_insert_fresh by apply lookup_delete_eq.
    rewrite <- (insert_delete_id m k b Hk) at 2. rewrite msum_insert_fresh by apply lookup_delete_eq. lia.
  - rewrite msum_insert_fresh by done. lia.
Qed.

Lemma msum_le w w' m : (∀ k a, m !! k = Some a → w k a <= w' k a) → msum w m <= msum w' m.
Proof.
  induction m as [|k a m Hk IH] using map_ind; intros Hw; [done|].
  rewrite !msum_insert_fresh by done. specialize (Hw k a (lookup_insert_eq _ _ _)) as Hka.
  assert (msum w m <= msum w' m); [|lia]. apply IH. intros k' a' Hk'. apply Hw. rewrite lookup_insert_ne; [done|]. intros ->. congruence.
Qed.

Lemma msum_ext w w' m : (∀ k a, m !! k = Some a → w k a = w' k a) → msum w m = msum w' m.
Proof. intros Hw. apply Z.le_antisymm; apply msum_le; intros k a Hk; rewrite (Hw k a Hk); lia. Qed.

Lemma msum_nonneg w m : (∀ k a, m !! k = Some a → 0 <= w k a) → 0 <= msum w m.
Proof.
  intros Hw. transitivity (msum (λ _ _, 0) m); [|by apply msum_le].
  clear Hw. induction m as [|k a m Hk IH] using map_ind; [done|]. rewrite msum_insert_fresh by done. lia.
Qed.

Lemma msum_delete w m k : msum w m = from_option (w k) 0 (m !! k) + msum w (delete k m).
Proof.
  destruct (m !! k) as [a|] eqn:Hk; cbn.
  - rewrite <- (insert_delete_id m k a Hk) at 1. by rewrite msum_insert_fresh by apply lookup_delete_eq.
  - by rewrite delete_id.
Qed.

(** Two tables that differ in one row, summed with weights that shrink elsewhere. *)
Lemma msum_step w w' m m' k :
  (∀ k', k' ≠ k → m' !! k' = m !! k') → (∀ k' a, k' ≠ k → m !! k' = Some a → w' k' a <= w k' a) →
  msum w' m' - from_option (w' k) 0 (m' !! k) <= msum w m - from_option (w k) 0 (m !! k).
Proof.
  intros Hm Hw. rewrite (msum_delete w' m' k), (msum_delete w m k).
  assert (delete k m' = delete k m) as ->.
  { apply map_eq. intros k'. destruct (decide (k' = k)) as [->|]; [by rewrite !lookup_delete_eq|rewrite !lookup_delete_ne by done; auto]. }
  assert (msum w' (delete k m) <= msum w (delete k m)); [|lia].
  apply msum_le. intros k' a [? ?]%lookup_delete_Some. by apply Hw.
Qed.
End Msum.
