(* ===== verification/PyText.v ===== *)
(** * Python text

    The operations of [str] the modelled code uses: [strip], [lower], the
    character classes of its regular expressions, decimal formatting.  A [str]
    is a [string] whose characters are read as the code points 0..255 (Latin-1);
    the definitions below are exact on that range. *)

From S2P Require Import Prelude.
From Stdlib Require Import Ascii.
From Stdlib Require String.
Local Open Scope Z_scope.

(** ** Characters *)

Abbreviation chars := String.list_ascii_of_string.
Abbreviation of_chars := String.string_of_list_ascii.

Definition code (c : ascii) : Z := Z.of_N (N_of_ascii c).

Definition in_range (lo hi : Z) (c : ascii) : bool := (lo <=? code c) && (code c <=? hi).

(** [[a-z0-9]], [[a-z0-9-]] and [[a-z0-9_-]]. *)
Definition is_alnum_lower (c : ascii) : bool := in_range 97 122 c || in_range 48 57 c.
Definition is_slug_char (c : ascii) : bool := is_alnum_lower c || (code c =? 45).
Definition is_id_char (c : ascii) : bool := is_slug_char c || (code c =? 95).
Definition is_digit (c : ascii) : bool := in_range 48 57 c.
Definition is_hex_lower (c : ascii) : bool := in_range 97 102 c || is_digit c.

(** [str.isspace] on the Latin-1 range, the characters [strip()] removes. *)
Definition is_space (c : ascii) : bool :=
  in_range 9 13 c || in_range 28 32 c || (code c =? 133) || (code c =? 160).

Definition slash : ascii := "/"%char.
Definition newline : ascii := "010"%char.

(** [str.lower] on one Latin-1 character. *)
Definition lower_char (c : ascii) : ascii :=
  if in_range 65 90 c || in_range 192 214 c || in_range 216 222 c
  then ascii_of_N (Z.to_N (code c + 32)) else c.

(** ** Strings *)

Fixpoint drop_space (l : list ascii) : list ascii :=
  match l with
  | c :: l' => if is_space c then drop_space l' else l
  | [] => []
  end.

Definition strip_chars (l : list ascii) : list ascii :=
  reverse (drop_space (reverse (drop_space l))).

Definition strip (s : string) : string := of_chars (strip_chars (chars s)).
Definition lower (s : string) : string := of_chars (lower_char <$> chars s).

(** [re.fullmatch(r"[a-z0-9][<p>]{0,62}", s)]. *)
Definition fullmatch_segment (p : ascii → bool) (l : list ascii) : bool :=
  match l with
  | c :: rest => is_alnum_lower c && forallb p rest && bool_decide (length rest ≤ 62)%nat
  | [] => false
  end.

(** [re.match(r"^[a-z0-9][<p>]{0,62}$", s)].  Python's [$] matches at the end
    and also just before a newline that ends the string. *)
Definition match_segment (p : ascii → bool) (l : list ascii) : bool :=
  fullmatch_segment p l ||
  match last l with
  | Some c => (code c =? 10) && fullmatch_segment p (take (length l - 1) l)
  | None => false
  end.

Definition startswith (pre s : string) : bool :=
  bool_decide (take (length (chars pre)) (chars s) = chars pre).

(** ** Decimal text *)

Definition digit_char (d : Z) : ascii := ascii_of_N (Z.to_N (48 + d)).
Definition digit_val (c : ascii) : Z := code c - 48.

Fixpoint dec_digits (fuel : nat) (n : Z) (acc : list Z) : list Z :=
  match fuel with
  | O => acc
  | S f => if n <? 10 then n :: acc else dec_digits f (n / 10) (n mod 10 :: acc)
  end.

(** Digits of [n >= 0], most significant first; [log2 n + 1] divisions by ten
    always reach zero. *)
Definition digits_of (n : Z) : list Z := dec_digits (S (Z.to_nat (Z.log2 n))) n [].

Definition print_nat (n : Z) : list ascii := digit_char <$> digits_of n.

(** [str(z)] and [f"{z:0<w>d}"] of a natural number. *)
Definition print_Z (z : Z) : list ascii :=
  if z <? 0 then "-"%char :: print_nat (- z) else print_nat z.
Definition zero_pad (w : nat) (n : Z) : list ascii :=
  let ds := print_nat n in replicate (w - length ds) "0"%char ++ ds.

Definition digits_value (l : list ascii) : Z :=
  foldl (λ acc c, 10 * acc + digit_val c) 0 l.

(** ** Facts *)

Lemma code_range c : 0 <= code c < 256.
Proof. unfold code. pose proof (N_ascii_bounded c). lia. Qed.

Lemma code_ascii n : 0 <= n < 256 → code (ascii_of_N (Z.to_N n)) = n.
Proof. intros. unfold code. rewrite N_ascii_embedding; lia. Qed.

Lemma code_inj c d : code c = code d → c = d.
Proof.
  unfold code. intros H. apply N2Z.inj in H.
  rewrite <- (ascii_N_embedding c), <- (ascii_N_embedding d). by rewrite H.
Qed.

Lemma chars_inj s t : chars s = chars t → s = t.
Proof.
  intros H. rewrite <- (String.string_of_list_ascii_of_string s), H.
  apply String.string_of_list_ascii_of_string.
Qed.

Lemma of_chars_inj l k : of_chars l = of_chars k → l = k.
Proof.
  intros H. rewrite <- (String.list_ascii_of_string_of_list_ascii l), H.
  apply String.list_ascii_of_string_of_list_ascii.
Qed.

Lemma chars_of_chars l : chars (of_chars l) = l.
Proof. apply String.list_ascii_of_string_of_list_ascii. Qed.

Lemma of_chars_chars s : of_chars (chars s) = s.
Proof. apply String.string_of_list_ascii_of_string. Qed.

Lemma chars_app s t : chars (s +:+ t) = chars s ++ chars t.
Proof. induction s; simpl; [done|]. by f_equal. Qed.

Lemma digit_char_digit d : 0 <= d < 10 → is_digit (digit_char d) = true.
Proof.
  intros. unfold is_digit, in_range, digit_char. rewrite code_ascii by lia. lia.
Qed.

Lemma digit_val_char d : 0 <= d < 10 → digit_val (digit_char d) = d.
Proof. intros. unfold digit_val, digit_char. rewrite code_ascii; lia. Qed.

Lemma dec_digits_value fuel n acc :
  0 <= n < 10 ^ Z.of_nat fuel →
  foldl (λ a d, 10 * a + d) 0 (dec_digits fuel n acc) = foldl (λ a d, 10 * a + d) n acc.
Proof.
  revert n acc. induction fuel as [|f IH]; intros n acc Hn; cbn [dec_digits].
  { simpl in Hn. by assert (n = 0) as -> by lia. }
  destruct (Z.ltb_spec n 10); [done|].
  rewrite Nat2Z.inj_succ, Z.pow_succ_r in Hn by lia. rewrite IH.
  - simpl. f_equal. pose proof (Z.div_mod n 10). lia.
  - split; [apply Z.div_pos; lia|]. apply Z.div_lt_upper_bound; lia.
Qed.

Lemma dec_digits_Forall fuel n acc :
  0 <= n → Forall (λ d, 0 <= d < 10) acc → Forall (λ d, 0 <= d < 10) (dec_digits fuel n acc).
Proof.
  revert n acc. induction fuel as [|f IH]; intros n acc Hn Hacc; simpl; [done|].
  destruct (Z.ltb_spec n 10); [constructor; [lia|done]|].
  apply IH; [apply Z.div_pos; lia|]. constructor; [|done]. apply Z.mod_pos_bound. lia.
Qed.

Lemma dec_digits_length fuel n acc (k : nat) :
  0 <= n < 10 ^ Z.of_nat k → (0 < k)%nat →
  (length (dec_digits fuel n acc) ≤ k + length acc)%nat.
Proof.
  revert n acc k. induction fuel as [|f IH]; intros n acc k Hn Hk; simpl; [lia|].
  destruct (Z.ltb_spec n 10); [simpl; lia|].
  destruct k as [|[|k]]; [lia|simpl in Hn; lia|].
  rewrite Nat2Z.inj_succ, Z.pow_succ_r in Hn by lia.
  etrans; [apply (IH _ _ (S k))|simpl; lia]; [|lia].
  split; [apply Z.div_pos; lia|apply Z.div_lt_upper_bound; lia].
Qed.

Lemma digits_fuel n : 0 <= n → n < 10 ^ Z.of_nat (S (Z.to_nat (Z.log2 n))).
Proof.
  intros Hn. destruct (decide (n = 0)) as [->|]; [simpl; lia|].
  rewrite Nat2Z.inj_succ, Z2Nat.id by apply Z.log2_nonneg.
  pose proof (Z.log2_spec n). eapply Z.lt_le_trans; [apply H; lia|].
  apply Z.pow_le_mono_l. lia.
Qed.

Lemma digits_value_map ds start :
  Forall (λ d, 0 <= d < 10) ds →
  foldl (λ acc c, 10 * acc + digit_val c) start (digit_char <$> ds) =
  foldl (λ a d, 10 * a + d) start ds.
Proof.
  intros H. revert start. induction H as [|d ds Hd _ IH]; intros start; simpl; [done|].
  rewrite digit_val_char by lia. apply IH.
Qed.

(** Reading back the decimal text of a natural number. *)
Lemma digits_value_print n : 0 <= n → digits_value (print_nat n) = n.
Proof.
  intros Hn. unfold digits_value, print_nat, digits_of.
  rewrite digits_value_map by (apply dec_digits_Forall; [lia|constructor]).
  rewrite dec_digits_value; [done|]. split; [lia|by apply digits_fuel].
Qed.

Lemma print_nat_digits n : 0 <= n → Forall (λ c, is_digit c = true) (print_nat n).
Proof.
  intros. unfold print_nat. apply Forall_fmap.
  eapply Forall_impl; [apply dec_digits_Forall; [done|constructor]|].
  intros d Hd. by apply digit_char_digit.
Qed.

Lemma print_nat_inj n m : 0 <= n → 0 <= m → print_nat n = print_nat m → n = m.
Proof. intros Hn Hm H%(f_equal digits_value). by rewrite !digits_value_print in H. Qed.

Lemma print_nat_first n c l : 0 <= n → print_nat n = c :: l → is_digit c = true.
Proof. intros Hn H. pose proof (print_nat_digits n Hn) as Hd. rewrite H in Hd. by inversion Hd. Qed.

Lemma print_Z_inj z1 z2 : print_Z z1 = print_Z z2 → z1 = z2.
Proof.
  unfold print_Z. destruct (Z.ltb_spec z1 0), (Z.ltb_spec z2 0); intros H'.
  - injection H' as H'. apply print_nat_inj in H'; lia.
  - symmetry in H'. by apply print_nat_first in H'.
  - by apply print_nat_first in H'.
  - apply print_nat_inj in H'; lia.
Qed.

Lemma digits_value_zeros k l : digits_value (replicate k "0"%char ++ l) = digits_value l.
Proof.
  unfold digits_value. rewrite foldl_app. f_equal.
  induction k as [|k IH]; [done|]. exact IH.
Qed.

Lemma zero_pad_value w n : 0 <= n → digits_value (zero_pad w n) = n.
Proof.
  intros. unfold zero_pad. rewrite digits_value_zeros. by apply digits_value_print.
Qed.

(** Fixed-width text of a number that fits is exactly that wide. *)
Lemma zero_pad_length (w : nat) n :
  0 <= n < 10 ^ Z.of_nat w → (0 < w)%nat → length (zero_pad w n) = w.
Proof.
  intros Hn Hw. unfold zero_pad. rewrite length_app, length_replicate.
  enough (length (print_nat n) ≤ w)%nat by lia.
  unfold print_nat, digits_of. rewrite length_fmap.
  etrans; [by apply dec_digits_length|simpl; lia].
Qed.

Lemma zero_pad_digits w n : 0 <= n → Forall (λ c, is_digit c = true) (zero_pad w n).
Proof.
  intros. unfold zero_pad. apply Forall_app. split; [|by apply print_nat_digits].
  by apply Forall_replicate.
Qed.

Lemma zero_pad_inj w n m : 0 <= n → 0 <= m → zero_pad w n = zero_pad w m → n = m.
Proof.
  intros Hn Hm H. by rewrite <- (zero_pad_value w n), <- (zero_pad_value w m), H.
Qed.

(** ** Splitting at a separator *)

(** Two texts that agree up to the first separator agree on both sides of it. *)
Lemma app_sep_inj {A} (c : A) (a1 b1 a2 b2 : list A) :
  c ∉ a1 → c ∉ a2 → a1 ++ c :: b1 = a2 ++ c :: b2 → a1 = a2 ∧ b1 = b2.
Proof.
  revert a2. induction a1 as [|x a1 IH]; intros [|y a2] H1 H2 Heq; simplify_eq/=.
  - done.
  - set_solver.
  - set_solver.
  - destruct (IH a2) as [-> ->]; [set_solver..|done|done].
Qed.

Lemma app_sep_prefix {A} (c : A) (a1 b1 a2 b2 : list A) :
  c ∉ a1 → c ∉ a2 → a1 ++ c :: b1 `prefix_of` a2 ++ c :: b2 → a1 = a2 ∧ b1 `prefix_of` b2.
Proof.
  intros H1 H2 [k Hk]. rewrite <- app_assoc in Hk. simpl in Hk.
  symmetry in Hk. apply app_sep_inj in Hk as [-> <-]; [|done..].
  split; [done|]. by exists k.
Qed.

Lemma id_char_not_slash c : is_id_char c = true → c ≠ slash.
Proof. intros H ->. by vm_compute in H. Qed.

Lemma alnum_id_char c : is_alnum_lower c = true → is_id_char c = true.
Proof. unfold is_id_char, is_slug_char. by intros ->. Qed.

Lemma slug_id_char c : is_slug_char c = true → is_id_char c = true.
Proof. unfold is_id_char. by intros ->. Qed.

Lemma fullmatch_segment_spec p l :
  fullmatch_segment p l = true ↔
  ∃ c rest, l = c :: rest ∧ is_alnum_lower c = true ∧
            Forall (λ x, p x = true) rest ∧ (length rest ≤ 62)%nat.
Proof.
  destruct l as [|c rest]; simpl; [naive_solver|].
  rewrite !andb_true_iff, bool_decide_eq_true, forallb_forall.
  setoid_rewrite Forall_forall. setoid_rewrite list_elem_of_In. naive_solver.
Qed.

Lemma fullmatch_segment_chars p l :
  (∀ c, is_alnum_lower c = true → p c = true) →
  fullmatch_segment p l = true → Forall (λ x, p x = true) l.
Proof.
  intros Hp (c & rest & -> & Hc & Hrest & _)%fullmatch_segment_spec.
  constructor; auto.
Qed.
