(* ===== verification/TenantIds.v ===== *)
(** * Tenant and drawing identifiers, and the object-key scheme

    [da/tenant.py] (tenant context and the per-run scratch namespace),
    [server/tenant_id_validator.py] (the shared id rule) and the key scheme of
    [da/store.py].  Two facts carry the isolation of tenants: an accepted id is
    one path segment, and every key is built from validated segments. *)

From S2P Require Import Prelude PyText.
From Stdlib Require Import Ascii.
Local Open Scope Z_scope.

(** ** Arguments and exceptions *)

(** A Python argument as the validators see it: [None], a [str], or any other
    object together with what [str()] makes of it. *)
Inductive pyarg :=
| PNone
| PStr (s : string)
| PObj (repr : string).

Definition py_str (a : pyarg) : string :=
  match a with PNone => "None" | PStr s => s | PObj r => r end.

Inductive id_error :=
| InvalidTenantId      (** da/tenant.py *)
| ValueError           (** tenant_id_validator, sanitize_id *)
| VersionRange         (** drawing_version_key: version < 1 or > 99999999 *)
| BadDigest            (** _graph_bundle_key *)
| AssertionError.

#[export] Instance id_error_eq_dec : EqDecision id_error.
Proof. solve_decision. Defined.

Module Tenant.

Definition DEFAULT_TENANT : string := "demo-tenant".

(** [_TENANT_RE.match(s)], pattern [^[a-z0-9][a-z0-9-]{0,62}$]. *)
Definition TENANT_RE (s : string) : bool := match_segment is_slug_char (chars s).

Definition validate_tenant_id (tenant_id : pyarg) : result id_error string :=
  match tenant_id with
  | PNone => Err InvalidTenantId
  | _ =>
      let s := lower (strip (py_str tenant_id)) in
      if TENANT_RE s then Ok s else Err InvalidTenantId
  end.

Definition is_valid_tenant_id (tenant_id : pyarg) : bool := is_ok (validate_tenant_id tenant_id).

(** The context variable [_current]; the token of [set] is the value it replaced. *)
Definition context := option string.

Definition set_current_tenant (tenant_id : pyarg) : io context id_error context :=
  λ cur, match validate_tenant_id tenant_id with
         | Ok t => (Ok cur, Some t)
         | Err e => (Err e, cur)
         end.

Definition reset_current_tenant (token : context) : io context id_error unit :=
  λ _, (Ok tt, token).

(** [env] is [os.environ.get("LEAF_TENANT")]. *)
Definition current_tenant (cur : context) (env : option string)
    (explicit : pyarg) (default : option string) : result id_error string :=
  let of_opt o := match o with Some s => PStr s | None => PNone end in
  let raw := match explicit with PNone => of_opt cur | _ => explicit end in
  let raw := match raw with PNone => of_opt env | _ => raw end in
  let raw := match raw with PNone => of_opt default | _ => raw end in
  validate_tenant_id raw.

Definition tenant_key_prefix (tenant_id : pyarg) : result id_error string :=
  t ← validate_tenant_id tenant_id; Ok ("t/" +:+ t +:+ "/").

(** [base or env or stem]: Python's [or] skips the empty string too. *)
Definition first_nonempty (o : option string) (fallback : string) : string :=
  match o with Some s => if bool_decide (s = EmptyString) then fallback else s | None => fallback end.

Definition tenant_bucket (tenant_id : pyarg) (base env : option string) : result id_error string :=
  let b := lower (first_nonempty base (first_nonempty env "leaf-web-store")) in
  t ← validate_tenant_id tenant_id;
  Ok (of_chars (take 128 (chars (b +:+ "-t-" +:+ t)))).

End Tenant.

Module Validator.

(** [_TENANT_ID_RE.match(value)], pattern [^[a-z0-9][a-z0-9_-]{0,62}$]. *)
Definition is_valid_tenant_id (value : pyarg) : bool :=
  match value with
  | PStr s => match_segment is_id_char (chars s)
  | _ => false
  end.

Definition validate_tenant_id (value : pyarg) : result id_error string :=
  if is_valid_tenant_id value then Ok (py_str value) else Err ValueError.

End Validator.

Module Keys.

(** [sanitize_id]: a literal [fullmatch]; on a mismatch it calls the shared
    validator for its exception, and raises its own one if that returns. *)
Definition sanitize_id (raw : pyarg) : result id_error string :=
  match raw with
  | PStr s =>
      if fullmatch_segment is_id_char (chars s) then Ok s
      else _ ← Validator.validate_tenant_id raw; Err ValueError
  | _ => _ ← Validator.validate_tenant_id raw; Err ValueError
  end.

Definition drawing_prefix (tenant_id drawing_id : pyarg) : result id_error string :=
  t ← sanitize_id tenant_id;
  d ← sanitize_id drawing_id;
  Ok ("tenants/" +:+ t +:+ "/drawings/" +:+ d).

(** [VERSION_KEY_RE.match(key)].  The id classes contain no ['/'], so the match
    is decided segment by segment. *)
Fixpoint split_at (c : ascii) (l : list ascii) : list (list ascii) :=
  match l with
  | [] => [[]]
  | x :: l' =>
      if bool_decide (x = c) then [] :: split_at c l'
      else match split_at c l' with
           | seg :: segs => (x :: seg) :: segs
           | [] => [[x]]
           end
  end.

Definition plus_class (p : ascii → bool) (l : list ascii) : bool :=
  match l with [] => false | _ => forallb p l end.

Definition version_file_re (l : list ascii) : bool :=
  let body := take 12 l in
  bool_decide (length body = 12)%nat && forallb is_digit (take 8 body) &&
  bool_decide (drop 8 body = chars ".dwg") &&
  bool_decide (drop 12 l = [] ∨ drop 12 l = [newline]).

Definition VERSION_KEY_RE (key : string) : bool :=
  match split_at slash (chars key) with
  | [a; t; b; d; v; f] =>
      bool_decide (a = chars "tenants") && plus_class is_id_char t &&
      bool_decide (b = chars "drawings") && plus_class is_id_char d &&
      bool_decide (v = chars "v") && version_file_re f
  | _ => false
  end.

Definition drawing_version_key (tenant_id drawing_id : pyarg) (version : Z) : result id_error string :=
  if version <? 1 then Err VersionRange
  else if 99999999 <? version then Err VersionRange
  else
    prefix ← drawing_prefix tenant_id drawing_id;
    let key := prefix +:+ "/v/" +:+ of_chars (zero_pad 8 version) +:+ ".dwg" in
    if VERSION_KEY_RE key then Ok key else Err AssertionError.

Definition manifest_key (tenant_id drawing_id : pyarg) : result id_error string :=
  prefix ← drawing_prefix tenant_id drawing_id; Ok (prefix +:+ "/manifest.json").

(** [key[:-4] + ".plan.txt"]. *)
Definition version_plan_key (tenant_id drawing_id : pyarg) (version : Z) : result id_error string :=
  key ← drawing_version_key tenant_id drawing_id version;
  let l := chars key in
  Ok (of_chars (take (length l - 4) l) +:+ ".plan.txt").

Definition is_sha256_hex (digest : string) : bool :=
  bool_decide (length (chars digest) = 64)%nat && forallb is_hex_lower (chars digest).

Definition graph_bundle_key (tenant_id drawing_id : pyarg) (digest : string) : result id_error string :=
  if is_sha256_hex digest then
    prefix ← drawing_prefix tenant_id drawing_id;
    Ok (prefix +:+ "/bundles/" +:+ digest +:+ ".json")
  else Err BadDigest.

(** [checkout_lock_key]: named by the SHA-256 hex digest of ["tid/did"]. *)
Definition checkout_lock_key (sha256_hex : string → string)
    (tenant_id drawing_id : pyarg) : result id_error string :=
  t ← sanitize_id tenant_id;
  d ← sanitize_id drawing_id;
  let digest := sha256_hex (t +:+ "/" +:+ d) in
  Ok ("checkout-locks/" +:+ of_chars (take 2 (chars digest)) +:+ "/" +:+ digest +:+ ".lock").

End Keys.

(** ** Witnesses of the definitions *)

Example sanitize_ok : Keys.sanitize_id (PStr "org_acme_solar") = Ok "org_acme_solar"%string.
Proof. reflexivity. Qed.

Example version_key_ok :
  Keys.drawing_version_key (PStr "demo") (PStr "d1") 42
  = Ok "tenants/demo/drawings/d1/v/00000042.dwg"%string.
Proof. vm_compute. reflexivity. Qed.

Example plan_key_ok :
  Keys.version_plan_key (PStr "demo") (PStr "d1") 42
  = Ok "tenants/demo/drawings/d1/v/00000042.plan.txt"%string.
Proof. vm_compute. reflexivity. Qed.

Example tenant_normalises :
  Tenant.validate_tenant_id (PStr "  Demo-A ") = Ok "demo-a"%string.
Proof. vm_compute. reflexivity. Qed.

(** ** The id rules *)

Module IdFacts.
Import Keys.

Lemma validator_never_wider_than_match s :
  Validator.validate_tenant_id (PStr s) =
  if match_segment is_id_char (chars s) then Ok s else Err ValueError.
Proof. done. Qed.

Lemma sanitize_id_Ok raw s :
  sanitize_id raw = Ok s ↔ raw = PStr s ∧ fullmatch_segment is_id_char (chars s) = true.
Proof.
  destruct raw as [|r|r]; unfold sanitize_id; [naive_solver| |naive_solver].
  destruct (fullmatch_segment is_id_char (chars r)) eqn:Hf.
  - split; [by intros [= ->]|by intros [[= ->] _]].
  - rewrite validator_never_wider_than_match.
    split; [by destruct (match_segment _ _)|]. intros [[= ->] Hf']. congruence.
Qed.

Lemma sanitized_no_slash raw s : sanitize_id raw = Ok s → slash ∉ chars s.
Proof.
  intros [-> Hf]%sanitize_id_Ok. apply fullmatch_segment_chars in Hf; [|apply alnum_id_char].
  intros Hin. rewrite Forall_forall in Hf. by apply (id_char_not_slash slash (Hf _ Hin)).
Qed.

Lemma sanitized_plus raw s : sanitize_id raw = Ok s → plus_class is_id_char (chars s) = true.
Proof.
  intros [-> Hf]%sanitize_id_Ok. pose proof Hf as (c & rest & Heq & _)%fullmatch_segment_spec.
  apply fullmatch_segment_chars in Hf; [|apply alnum_id_char].
  rewrite Heq in *. unfold plus_class. apply forallb_forall. intros x Hx.
  rewrite Forall_forall in Hf. apply Hf. by apply list_elem_of_In.
Qed.

Lemma drawing_prefix_Ok t d p :
  drawing_prefix t d = Ok p ↔
  ∃ t' d', sanitize_id t = Ok t' ∧ sanitize_id d = Ok d' ∧
           p = ("tenants/" +:+ t' +:+ "/drawings/" +:+ d')%string.
Proof.
  unfold drawing_prefix. rewrite result_bind_Ok. setoid_rewrite result_bind_Ok. naive_solver.
Qed.

(** The text of every key of a drawing: its prefix, one ['/'], the rest. *)
Definition key_text (t d rest : string) : list ascii :=
  chars "tenants/" ++ chars t ++ slash :: chars "drawings/" ++ chars d ++ slash :: chars rest.

Lemma key_text_inj t1 d1 r1 t2 d2 r2 :
  slash ∉ chars t1 → slash ∉ chars d1 → slash ∉ chars t2 → slash ∉ chars d2 →
  key_text t1 d1 r1 = key_text t2 d2 r2 → t1 = t2 ∧ d1 = d2 ∧ r1 = r2.
Proof.
  unfold key_text. intros Ht1 Hd1 Ht2 Hd2 H. apply app_inv_head in H.
  apply app_sep_inj in H as [->%chars_inj H]; [|done..]. apply app_inv_head in H.
  by apply app_sep_inj in H as [->%chars_inj ->%chars_inj].
Qed.

Lemma split_at_sep c a b : c ∉ a → split_at c (a ++ c :: b) = a :: split_at c b.
Proof.
  induction a as [|x a IH]; intros Ha; simpl.
  - by rewrite bool_decide_eq_true_2.
  - rewrite bool_decide_eq_false_2 by set_solver. rewrite IH by set_solver. done.
Qed.

Lemma split_at_none c a : c ∉ a → split_at c a = [a].
Proof.
  induction a as [|x a IH]; intros Ha; simpl; [done|].
  rewrite bool_decide_eq_false_2 by set_solver. by rewrite IH by set_solver.
Qed.

Lemma zero_pad8 v : 1 <= v <= 99999999 → length (zero_pad 8 v) = 8%nat.
Proof. intros. apply zero_pad_length; simpl; lia. Qed.

Lemma zero_pad_no_slash v : 0 <= v → slash ∉ zero_pad 8 v.
Proof.
  intros Hv Hin. pose proof (zero_pad_digits 8 v Hv) as Hd. rewrite Forall_forall in Hd.
  specialize (Hd _ Hin). by vm_compute in Hd.
Qed.

Lemma version_file_re_ok v :
  1 <= v <= 99999999 → version_file_re (zero_pad 8 v ++ chars ".dwg") = true.
Proof.
  intros Hv. unfold version_file_re. pose proof (zero_pad8 v Hv) as Hl.
  pose proof (zero_pad_digits 8 v ltac:(lia)) as Hd.
  set (z := zero_pad 8 v) in *. clearbody z.
  do 8 (destruct z as [|? z]; [done|]). destruct z; [|done]. clear Hl.
  rewrite Forall_forall in Hd. rewrite !andb_true_iff. split_and!; [done| |done|done].
  apply forallb_forall. intros x Hx%list_elem_of_In. by apply Hd.
Qed.

(** The [assert] of [drawing_version_key] cannot fire. *)
Lemma version_key_assert t d v :
  1 <= v <= 99999999 → slash ∉ chars t → slash ∉ chars d →
  plus_class is_id_char (chars t) = true → plus_class is_id_char (chars d) = true →
  VERSION_KEY_RE (("tenants/" +:+ t +:+ "/drawings/" +:+ d) +:+ "/v/" +:+
                  of_chars (zero_pad 8 v) +:+ ".dwg") = true.
Proof.
  intros Hv Ht Hd Hpt Hpd. unfold VERSION_KEY_RE.
  assert (chars (("tenants/" +:+ t +:+ "/drawings/" +:+ d) +:+ "/v/" +:+
                  of_chars (zero_pad 8 v) +:+ ".dwg") =
    chars "tenants" ++ slash :: chars t ++ slash :: chars "drawings" ++ slash ::
    chars d ++ slash :: chars "v" ++ slash :: (zero_pad 8 v ++ chars ".dwg")) as ->.
  { rewrite !chars_app, chars_of_chars, <- !app_assoc. done. }
  rewrite (split_at_sep slash (chars "tenants")) by (vm_compute; set_solver).
  rewrite (split_at_sep slash (chars t)) by done.
  rewrite (split_at_sep slash (chars "drawings")) by (vm_compute; set_solver).
  rewrite (split_at_sep slash (chars d)) by done.
  rewrite (split_at_sep slash (chars "v")) by (vm_compute; set_solver).
  rewrite split_at_none.
  2:{ rewrite elem_of_app. intros [H|H]; [by apply zero_pad_no_slash in H; [|lia]|].
      vm_compute in H. set_solver. }
  by rewrite Hpt, Hpd, version_file_re_ok.
Qed.

(** The kinds of object the store keeps under one drawing. *)
Inductive object_kind :=
| OManifest
| OVersion (v : Z)
| OPlan (v : Z)
| OBundle (digest : string).

Definition object_key (t d : pyarg) (o : object_kind) : result id_error string :=
  match o with
  | OManifest => manifest_key t d
  | OVersion v => drawing_version_key t d v
  | OPlan v => version_plan_key t d v
  | OBundle digest => graph_bundle_key t d digest
  end.

(** What follows the drawing's prefix in each kind of key. *)
Definition object_rest (o : object_kind) : string :=
  match o with
  | OManifest => "manifest.json"
  | OVersion v => "v/" +:+ of_chars (zero_pad 8 v) +:+ ".dwg"
  | OPlan v => "v/" +:+ of_chars (zero_pad 8 v) +:+ ".plan.txt"
  | OBundle digest => "bundles/" +:+ digest +:+ ".json"
  end.

Definition object_ok (o : object_kind) : Prop :=
  match o with
  | OManifest => True
  | OVersion v | OPlan v => 1 <= v <= 99999999
  | OBundle digest => is_sha256_hex digest = true
  end.

Lemma version_key_Ok t d v k :
  drawing_version_key t d v = Ok k ↔
  ∃ t' d', sanitize_id t = Ok t' ∧ sanitize_id d = Ok d' ∧ 1 <= v <= 99999999 ∧
    k = (("tenants/" +:+ t' +:+ "/drawings/" +:+ d') +:+ "/v/" +:+
         of_chars (zero_pad 8 v) +:+ ".dwg")%string.
Proof.
  unfold drawing_version_key.
  destruct (Z.ltb_spec v 1); [split; [done|intros (?&?&?&?&?&?); lia]|].
  destruct (Z.ltb_spec 99999999 v); [split; [done|intros (?&?&?&?&?&?); lia]|].
  rewrite result_bind_Ok. setoid_rewrite drawing_prefix_Ok. split.
  - intros (p & (t' & d' & Ht & Hd & ->) & Hk). rewrite version_key_assert in Hk;
      eauto using sanitized_no_slash, sanitized_plus.
    exists t', d'. naive_solver lia.
  - intros (t' & d' & Ht & Hd & Hv & ->). eexists; split; [by eauto 6|].
    rewrite version_key_assert; eauto using sanitized_no_slash, sanitized_plus.
Qed.

Lemma object_key_Ok t d o k :
  object_key t d o = Ok k →
  ∃ t' d', sanitize_id t = Ok t' ∧ sanitize_id d = Ok d' ∧ object_ok o ∧
           chars k = key_text t' d' (object_rest o).
Proof.
  destruct o as [|v|v|dg]; unfold object_key, object_rest, object_ok, key_text.
  - unfold manifest_key. rewrite result_bind_Ok.
    intros (p & (t' & d' & Ht & Hd & ->)%drawing_prefix_Ok & <-%(inj Ok)).
    exists t', d'. by rewrite !chars_app, <- !app_assoc.
  - intros (t' & d' & Ht & Hd & Hv & ->)%version_key_Ok.
    exists t', d'. by rewrite !chars_app, <- !app_assoc.
  - unfold version_plan_key. rewrite result_bind_Ok.
    intros (p & (t' & d' & Ht & Hd & Hv & ->)%version_key_Ok & <-%(inj Ok)).
    exists t', d'. do 3 (split; [done|]). rewrite !chars_app, !chars_of_chars, <- !app_assoc.
    set (body := chars "tenants/" ++ _). 
    assert (body = (chars "tenants/" ++ chars t' ++ chars "/drawings/" ++ chars d' ++
              chars "/v/" ++ zero_pad 8 v) ++ chars ".dwg") as ->
      by (subst body; by rewrite <- !app_assoc).
    rewrite length_app, Nat.add_sub, take_app_length, <- !app_assoc. done.
  - unfold graph_bundle_key. destruct (is_sha256_hex dg) eqn:Hh; [|done].
    rewrite result_bind_Ok. intros (p & (t' & d' & Ht & Hd & ->)%drawing_prefix_Ok & <-%(inj Ok)).
    exists t', d'. by rewrite !chars_app, <- !app_assoc.
Qed.

Lemma object_rest_inj o1 o2 :
  object_ok o1 → object_ok o2 → object_rest o1 = object_rest o2 → o1 = o2.
Proof.
  intros H1 H2 Heq%(f_equal (λ s, chars s)).
  assert (Hz : ∀ v w e f, 1 <= v <= 99999999 → 1 <= w <= 99999999 →
    zero_pad 8 v ++ e = zero_pad 8 w ++ f → v = w ∧ e = f).
  { intros v w e f Hv Hw H. apply app_inj_1 in H as [H ->]; [|by rewrite !zero_pad8].
    apply zero_pad_inj in H as ->; [done|lia..]. }
  destruct o1 as [|v|v|d1], o2 as [|w|w|d2]; unfold object_rest in Heq;
    rewrite ?chars_app, ?chars_of_chars in Heq; try done; simpl in H1, H2.
  - by apply app_inv_head, Hz in Heq as [-> _].
  - by apply app_inv_head, Hz in Heq as [_ ?].
  - by apply app_inv_head, Hz in Heq as [_ ?].
  - by apply app_inv_head, Hz in Heq as [-> _].
  - by apply app_inv_head, app_inv_tail, chars_inj in Heq as ->.
Qed.

(** (C7) Object keys are unambiguous: a key determines the tenant, the drawing,
    the kind of object and its version or digest.  Two drawings (of one tenant
    or of two) never share an object, and inside a drawing a version blob is
    never the manifest, a plan or a bundle. *)
Theorem object_keys_unambiguous t1 d1 o1 t2 d2 o2 k :
  object_key t1 d1 o1 = Ok k → object_key t2 d2 o2 = Ok k →
  t1 = t2 ∧ d1 = d2 ∧ o1 = o2.
Proof.
  intros (t1' & d1' & Ht1 & Hd1 & Ho1 & Hk1)%object_key_Ok.
  intros (t2' & d2' & Ht2 & Hd2 & Ho2 & Hk2)%object_key_Ok.
  rewrite Hk1 in Hk2. apply key_text_inj in Hk2 as (<- & <- & Hr);
    [|by eapply sanitized_no_slash..].
  apply sanitize_id_Ok in Ht1 as [-> _], Hd1 as [-> _], Ht2 as [-> _], Hd2 as [-> _].
  split_and!; try done. by apply object_rest_inj.
Qed.

Lemma object_keys_unambiguous_witness :
  object_key (PStr "acme") (PStr "d-1") (OVersion 7)
    = Ok "tenants/acme/drawings/d-1/v/00000007.dwg"%string ∧
  PStr "acme" = PStr "acme" ∧ PStr "d-1" = PStr "d-1" ∧ OVersion 7 = OVersion 7.
Proof.
  split; [vm_compute; reflexivity|].
  apply (object_keys_unambiguous _ _ _ _ _ _ "tenants/acme/drawings/d-1/v/00000007.dwg");
    vm_compute; reflexivity.
Defined.

(** ** Agreement of the two tenant rules *)

Lemma last_drop_space l c : last (drop_space l) = Some c → last l = Some c.
Proof.
  induction l as [|x l IH]; simpl; [done|]. destruct (is_space x); [|done].
  intros H. specialize (IH H). by destruct l.
Qed.

Lemma head_drop_space l c : head (drop_space l) = Some c → is_space c = false.
Proof.
  induction l as [|x l IH]; simpl; [done|]. destruct (is_space x) eqn:Hx; [done|].
  by intros [= ->].
Qed.

Lemma strip_last l c : last (strip_chars l) = Some c → is_space c = false.
Proof.
  unfold strip_chars. rewrite last_reverse. apply head_drop_space.
Qed.

Lemma lower_char_newline c : code (lower_char c) = 10 → code c = 10.
Proof.
  unfold lower_char. destruct (in_range 65 90 c || in_range 192 214 c || in_range 216 222 c) eqn:H; [|done].
  unfold in_range in H. pose proof (code_range c). rewrite code_ascii; lia.
Qed.

(** Text that does not end in a newline: [^..$] and [fullmatch] agree. *)
Lemma match_segment_no_newline p l :
  (∀ c, last l = Some c → code c ≠ 10) → match_segment p l = fullmatch_segment p l.
Proof.
  intros Hl. unfold match_segment. destruct (last l) as [c|] eqn:Hc; [|by rewrite orb_false_r].
  destruct (Z.eqb_spec (code c) 10); [by destruct (Hl c eq_refl)|].
  simpl. by rewrite orb_false_r.
Qed.

Lemma validated_fullmatch a s :
  Tenant.validate_tenant_id a = Ok s → fullmatch_segment is_slug_char (chars s) = true.
Proof.
  assert (∀ x, (if Tenant.TENANT_RE (lower (strip x)) then Ok (lower (strip x))
                else Err InvalidTenantId) = Ok s →
               fullmatch_segment is_slug_char (chars s) = true) as Hgen.
  { intros x. unfold Tenant.TENANT_RE.
    destruct (match_segment is_slug_char (chars (lower (strip x)))) eqn:Hm; [|done].
    intros [= <-]. rewrite match_segment_no_newline in Hm; [done|].
    intros c. unfold lower, strip. rewrite !chars_of_chars, fmap_last.
    destruct (last (strip_chars (chars x))) as [c'|] eqn:Hc; simpl; [|done].
    intros [= <-] Hnl%lower_char_newline. apply strip_last in Hc.
    unfold is_space, in_range in Hc. lia. }
  destruct a; simpl; [done|apply Hgen|apply Hgen].
Qed.

(** The tenant context and the drawing store agree: an id the tenant
    context accepts and normalises is accepted by the store unchanged, so the
    scratch namespace and the versioned namespace name the same tenant; and
    normalising twice is normalising once. *)
Theorem validated_tenant_is_canonical a s :
  Tenant.validate_tenant_id a = Ok s →
  sanitize_id (PStr s) = Ok s ∧ (slash ∉ chars s) ∧ (1 ≤ length (chars s) ≤ 63)%nat.
Proof.
  intros Hf%validated_fullmatch. pose proof Hf as (c & rest & Heq & Hc & Hrest & Hlen)%fullmatch_segment_spec.
  assert (sanitize_id (PStr s) = Ok s) as Hs.
  { apply sanitize_id_Ok. split; [done|]. apply fullmatch_segment_spec. exists c, rest.
    split_and!; try done. eapply Forall_impl; [exact Hrest|]. apply slug_id_char. }
  split_and!; [done|by eapply sanitized_no_slash|rewrite Heq; simpl; lia..].
Qed.

Lemma validated_tenant_is_canonical_witness :
  Tenant.validate_tenant_id (PStr " Demo-A") = Ok "demo-a"%string ∧
  sanitize_id (PStr "demo-a") = Ok "demo-a"%string.
Proof.
  split; [vm_compute; reflexivity|].
  apply (validated_tenant_is_canonical (PStr " Demo-A")). vm_compute. reflexivity.
Defined.

(** Reject-don't-collapse, and where the shared validator falls short of it.
    The store's [sanitize_id] accepts an id only unchanged and never one that
    ends in a newline; [tenant_id_validator] also accepts every accepted id with
    a newline appended, because its pattern ends in [$] and is applied with
    [match].  The fallback raise of [sanitize_id] is therefore reachable. *)
Theorem validator_accepts_trailing_newline s :
  sanitize_id (PStr s) = Ok s →
  let t := (s +:+ (String newline EmptyString))%string in
  Validator.is_valid_tenant_id (PStr t) = true ∧
  Validator.validate_tenant_id (PStr t) = Ok t ∧
  sanitize_id (PStr t) = Err ValueError.
Proof.
  intros [_ Hf]%sanitize_id_Ok t.
  assert (Hct : chars t = chars s ++ [newline]) by (subst t; by rewrite chars_app).
  assert (Hv : Validator.is_valid_tenant_id (PStr t) = true).
  { simpl. unfold match_segment. rewrite Hct, last_snoc, length_app. simpl.
    rewrite Nat.add_sub, take_app_length, Hf. apply orb_true_r. }
  split_and!; [done|unfold Validator.validate_tenant_id; by rewrite Hv|].
  unfold sanitize_id. destruct (fullmatch_segment is_id_char (chars t)) eqn:Ht.
  - apply fullmatch_segment_chars in Ht; [|apply alnum_id_char]. rewrite Hct in Ht.
    apply Forall_app in Ht as [_ Ht]. inversion Ht as [|? ? Hn]; subst. by vm_compute in Hn.
  - unfold Validator.validate_tenant_id. by rewrite Hv.
Qed.

Lemma validator_accepts_trailing_newline_witness :
  sanitize_id (PStr "demo-tenant") = Ok "demo-tenant"%string ∧
  Validator.is_valid_tenant_id (PStr ("demo-tenant" +:+ (String newline EmptyString))) = true.
Proof.
  split; [reflexivity|].
  apply (validator_accepts_trailing_newline "demo-tenant"). vm_compute. reflexivity.
Defined.

End IdFacts.
