(* ===== verification/Json.v ===== *)
(** * JSON documents

    The subset of Python's [json] the store uses for its manifests:
    [json.dumps(v, separators=(",", ":"))] with the default [ensure_ascii], and
    [json.loads].  Numbers are integers; a number with a fraction or an exponent,
    and an escape of a code point above 255, are outside the modelled range and
    [loads] answers [None] on them, as it does on malformed text. *)

From S2P Require Import Prelude PyText.
From Stdlib Require Import Ascii.
Local Open Scope Z_scope.
Local Set Warnings "-register-all".

Inductive json :=
| JNull
| JBool (b : bool)
| JInt (z : Z)
| JStr (s : string)
| JArr (l : list json)
| JObj (kvs : list (string * json)).

(** ** Printing *)

Definition quote : ascii := "034"%char.
Definition backslash : ascii := "092"%char.

Definition hex_digit (d : Z) : ascii :=
  if d <? 10 then digit_char d else ascii_of_N (Z.to_N (87 + d)).

Definition escape (c : ascii) : list ascii :=
  let n := code c in
  if n =? 34 then [backslash; quote]
  else if n =? 92 then [backslash; backslash]
  else if n =? 10 then [backslash; "n"%char]
  else if n =? 13 then [backslash; "r"%char]
  else if n =? 9 then [backslash; "t"%char]
  else if n =? 8 then [backslash; "b"%char]
  else if n =? 12 then [backslash; "f"%char]
  else if (n <? 32) || (126 <? n) then
    [backslash; "u"%char; "0"%char; "0"%char; hex_digit (n / 16); hex_digit (n mod 16)]
  else [c].

Definition print_string (s : string) : list ascii :=
  quote :: (chars s ≫= escape) ++ [quote].

Fixpoint join (sep : ascii) (ls : list (list ascii)) : list ascii :=
  match ls with
  | [] => []
  | [l] => l
  | l :: ls' => l ++ sep :: join sep ls'
  end.

Fixpoint print (j : json) : list ascii :=
  match j with
  | JNull => chars "null"
  | JBool true => chars "true"
  | JBool false => chars "false"
  | JInt z => print_Z z
  | JStr s => print_string s
  | JArr l => "["%char :: join ","%char (map print l) ++ ["]"%char]
  | JObj kvs =>
      "{"%char ::
      join ","%char (map (λ kv, print_string kv.1 ++ ":"%char :: print kv.2) kvs) ++ ["}"%char]
  end.

Definition dumps (j : json) : string := of_chars (print j).

(** ** Parsing *)

Definition is_ws (c : ascii) : bool :=
  (code c =? 32) || (code c =? 9) || (code c =? 10) || (code c =? 13).

Fixpoint skip_ws (l : list ascii) : list ascii :=
  match l with
  | c :: l' => if is_ws c then skip_ws l' else l
  | [] => []
  end.

Definition hex_val (c : ascii) : option Z :=
  if is_digit c then Some (digit_val c)
  else if in_range 97 102 c then Some (code c - 87)
  else if in_range 65 70 c then Some (code c - 55)
  else None.

Definition simple_escape (c : ascii) : option ascii :=
  let n := code c in
  if n =? 34 then Some quote
  else if n =? 92 then Some backslash
  else if n =? 47 then Some slash
  else if n =? 110 then Some "010"%char
  else if n =? 114 then Some "013"%char
  else if n =? 116 then Some "009"%char
  else if n =? 98 then Some "008"%char
  else if n =? 102 then Some "012"%char
  else None.

(** The characters of a string literal, from after the opening quote. *)
Fixpoint parse_chars (l : list ascii) : option (list ascii * list ascii) :=
  match l with
  | [] => None
  | c :: l1 =>
      if code c =? 34 then Some ([], l1)
      else if code c =? 92 then
        match l1 with
        | u :: l2 =>
            if code u =? 117 then
              match l2 with
              | h3 :: h2 :: h1 :: h0 :: l3 =>
                  x3 ← hex_val h3; x2 ← hex_val h2; x1 ← hex_val h1; x0 ← hex_val h0;
                  if (x3 =? 0) && (x2 =? 0) then
                    '(cs, r) ← parse_chars l3;
                    Some (ascii_of_N (Z.to_N (16 * x1 + x0)) :: cs, r)
                  else None
              | _ => None
              end
            else
              e ← simple_escape u;
              '(cs, r) ← parse_chars l2;
              Some (e :: cs, r)
        | [] => None
        end
      else if (code c <? 32) || (127 <? code c) then None
      else '(cs, r) ← parse_chars l1; Some (c :: cs, r)
  end.

Fixpoint take_digits (l : list ascii) : list ascii * list ascii :=
  match l with
  | c :: l' => if is_digit c then let '(d, r) := take_digits l' in (c :: d, r) else ([], l)
  | [] => ([], [])
  end.

(** [-?(0|[1-9][0-9]* )], not followed by a fraction or an exponent. *)
Definition parse_nat (l : list ascii) : option (Z * list ascii) :=
  let '(ds, r) := take_digits l in
  match ds with
  | [] => None
  | d :: ds' =>
      if (code d =? 48) && negb (bool_decide (ds' = [])) then None
      else match r with
           | c :: _ => if (code c =? 46) || (code c =? 101) || (code c =? 69) then None
                       else Some (digits_value ds, r)
           | [] => Some (digits_value ds, r)
           end
  end.

Definition expect (word : string) (v : json) (l : list ascii) : option (json * list ascii) :=
  if bool_decide (take (length (chars word)) l = chars word)
  then Some (v, drop (length (chars word)) l) else None.

(** The dictionary a JSON object denotes: a repeated key keeps its first place
    and takes its last value. *)
Fixpoint dict_set (kvs : list (string * json)) (k : string) (v : json) : list (string * json) :=
  match kvs with
  | [] => [(k, v)]
  | (k', v') :: kvs' => if bool_decide (k = k') then (k, v) :: kvs' else (k', v') :: dict_set kvs' k v
  end.

Definition dict_of (kvs : list (string * json)) : list (string * json) :=
  foldl (λ d kv, dict_set d kv.1 kv.2) [] kvs.

(** What becomes of the members of an object: [object_pairs_hook]. *)
Section parser.
Variable build : list (string * json) → option json.

Fixpoint parse_value (fuel : nat) (l : list ascii) : option (json * list ascii) :=
  match fuel with
  | O => None
  | S f =>
      match l with
      | [] => None
      | c :: l1 =>
          let n := code c in
          if n =? 34 then '(cs, r) ← parse_chars l1; Some (JStr (of_chars cs), r)
          else if n =? 91 then
            match skip_ws l1 with
            | c2 :: l2 => if code c2 =? 93 then Some (JArr [], l2)
                          else '(vs, r) ← parse_elems f (c2 :: l2); Some (JArr vs, r)
            | [] => None
            end
          else if n =? 123 then
            match skip_ws l1 with
            | c2 :: l2 => if code c2 =? 125 then Some (JObj [], l2)
                          else '(kvs, r) ← parse_members f (c2 :: l2); v ← build kvs; Some (v, r)
            | [] => None
            end
          else if n =? 110 then expect "null" JNull l
          else if n =? 116 then expect "true" (JBool true) l
          else if n =? 102 then expect "false" (JBool false) l
          else if n =? 45 then '(z, r) ← parse_nat l1; Some (JInt (- z), r)
          else '(z, r) ← parse_nat l; Some (JInt z, r)
      end
  end
with parse_elems (fuel : nat) (l : list ascii) : option (list json * list ascii) :=
  match fuel with
  | O => None
  | S f =>
      '(v, r) ← parse_value f l;
      match skip_ws r with
      | c :: r1 => if code c =? 44 then '(vs, r2) ← parse_elems f (skip_ws r1); Some (v :: vs, r2)
                   else if code c =? 93 then Some ([v], r1) else None
      | [] => None
      end
  end
with parse_members (fuel : nat) (l : list ascii) : option (list (string * json) * list ascii) :=
  match fuel with
  | O => None
  | S f =>
      match l with
      | q :: l1 =>
          if code q =? 34 then
            '(cs, r) ← parse_chars l1;
            match skip_ws r with
            | c :: r1 =>
                if code c =? 58 then
                  '(v, r2) ← parse_value f (skip_ws r1);
                  match skip_ws r2 with
                  | c2 :: r3 =>
                      if code c2 =? 44 then
                        '(kvs, r4) ← parse_members f (skip_ws r3);
                        Some ((of_chars cs, v) :: kvs, r4)
                      else if code c2 =? 125 then Some ([(of_chars cs, v)], r3) else None
                  | [] => None
                  end
                else None
            | [] => None
            end
          else None
      | [] => None
      end
  end.

(** One value, surrounded by white space.  Every nested call
    consumes a character every second step, so twice the length is enough. *)
Definition loads_with (s : string) : option json :=
  let l := skip_ws (chars s) in
  '(v, r) ← parse_value (2 * length l) l;
  if bool_decide (skip_ws r = []) then Some v else None.

End parser.

(** [json.loads] *)
Definition loads : string → option json := loads_with (λ kvs, Some (JObj (dict_of kvs))).

(** [json.loads] with a hook that refuses a repeated key *)
Definition loads_strict : string → option json :=
  loads_with (λ kvs, if bool_decide (NoDup (map fst kvs)) then Some (JObj kvs) else None).

(** [d.get(k)] on a loaded object. *)
Fixpoint dict_get (kvs : list (string * json)) (k : string) : option json :=
  match kvs with
  | [] => None
  | (k', v) :: kvs' => if bool_decide (k = k') then Some v else dict_get kvs' k
  end.

Example loads_ex :
  loads (dumps (JObj [("v"%string, JInt 12); ("n"%string, JNull);
                      ("s"%string, JArr [JBool true; JInt (-3); JObj []])]))
  = Some (JObj [("v"%string, JInt 12); ("n"%string, JNull);
                ("s"%string, JArr [JBool true; JInt (-3); JObj []])]).
Proof. vm_compute. reflexivity. Qed.

(** ** Round trip *)

(** Objects hold each key once, as dictionaries do. *)
Fixpoint wf (j : json) : Prop :=
  match j with
  | JArr l => foldr (λ x P, wf x ∧ P) True l
  | JObj kvs => NoDup (map fst kvs) ∧ foldr (λ (kv : string * json) P, wf kv.2 ∧ P) True kvs
  | _ => True
  end.

Lemma wf_arr l : wf (JArr l) ↔ Forall wf l.
Proof. simpl. induction l; simpl; [by split; constructor|]. rewrite IHl, Forall_cons. done. Qed.

Lemma wf_members kvs : foldr (λ (kv : string * json) P, wf kv.2 ∧ P) True kvs ↔ Forall (λ kv : string * json, wf kv.2) kvs.
Proof. induction kvs; simpl; [by split; constructor|]. rewrite IHkvs, Forall_cons. done. Qed.

Section json_induction.
Variable P : json → Prop.
Hypothesis Hnull : P JNull.
Hypothesis Hbool : ∀ b, P (JBool b).
Hypothesis Hint : ∀ z, P (JInt z).
Hypothesis Hstr : ∀ s, P (JStr s).
Hypothesis Harr : ∀ l, Forall P l → P (JArr l).
Hypothesis Hobj : ∀ kvs, Forall (λ kv : string * json, P kv.2) kvs → P (JObj kvs).

Fixpoint json_nested_ind (j : json) : P j :=
  match j with
  | JNull => Hnull
  | JBool b => Hbool b
  | JInt z => Hint z
  | JStr s => Hstr s
  | JArr l => Harr l ((fix go l := match l return Forall P l with
                        | [] => Forall_nil_2 _
                        | x :: l' => Forall_cons_2 _ _ _ (json_nested_ind x) (go l')
                        end) l)
  | JObj kvs => Hobj kvs ((fix go l := match l return Forall (λ kv : string * json, P kv.2) l with
                        | [] => Forall_nil_2 _
                        | x :: l' => Forall_cons_2 _ _ _ (json_nested_ind x.2) (go l')
                        end) kvs)
  end.
End json_induction.

Lemma hex_val_digit d : 0 <= d < 16 → hex_val (hex_digit d) = Some d.
Proof.
  intros Hd. unfold hex_digit, hex_val. destruct (Z.ltb_spec d 10).
  - rewrite digit_char_digit by lia. by rewrite digit_val_char by lia.
  - unfold is_digit, in_range. rewrite code_ascii by lia.
    replace ((48 <=? 87 + d) && (87 + d <=? 57)) with false by lia.
    replace ((97 <=? 87 + d) && (87 + d <=? 102)) with true by lia. f_equal. lia.
Qed.

Lemma parse_unicode h1 h0 rest :
  parse_chars (backslash :: "u"%char :: "0"%char :: "0"%char :: h1 :: h0 :: rest) =
  x1 ← hex_val h1; x0 ← hex_val h0; '(cs, r) ← parse_chars rest;
  Some (ascii_of_N (Z.to_N (16 * x1 + x0)) :: cs, r).
Proof. reflexivity. Qed.

(** One character: its escape reads back as the character. *)
Lemma parse_escape c rest :
  parse_chars (escape c ++ rest) = '(cs, r) ← parse_chars rest; Some (c :: cs, r).
Proof.
  unfold escape. pose proof (code_range c) as Hr.
  repeat match goal with
  | |- context [code c =? ?n] => destruct (Z.eqb_spec (code c) n) as [Hn|];
      [by replace c with (ascii_of_N (Z.to_N n))
         by (apply code_inj; rewrite code_ascii; [by rewrite Hn|lia])|]
  end.
  destruct ((code c <? 32) || (126 <? code c)) eqn:Hb.
  - cbn [app]. rewrite parse_unicode, !hex_val_digit.
    + simpl. destruct (parse_chars rest) as [[cs r]|]; [|done]. simpl.
      do 3 f_equal. apply code_inj. pose proof (Z.div_mod (code c) 16).
      pose proof (Z.mod_pos_bound (code c) 16). rewrite code_ascii; lia.
    + split; [apply Z.div_pos; lia|apply Z.div_lt_upper_bound; lia].
    + apply Z.mod_pos_bound. lia.
  - cbn [app parse_chars].
    destruct (Z.eqb_spec (code c) 34); [done|]. destruct (Z.eqb_spec (code c) 92); [done|].
    by replace ((code c <? 32) || (127 <? code c)) with false by lia.
Qed.

Lemma parse_chars_print l rest :
  parse_chars ((l ≫= escape) ++ quote :: rest) = Some (l, rest).
Proof.
  induction l as [|c l IH]; [done|].
  rewrite bind_cons, <- app_assoc, parse_escape, IH. done.
Qed.

(** What may follow a value in a document. *)
Definition stops (rest : list ascii) : Prop :=
  match rest with
  | [] => True
  | c :: _ => is_digit c = false ∧ code c ≠ 46 ∧ code c ≠ 101 ∧ code c ≠ 69
  end.

Lemma take_digits_app ds rest :
  Forall (λ c, is_digit c = true) ds → stops rest → take_digits (ds ++ rest) = (ds, rest).
Proof.
  intros Hds Hrest. induction Hds as [|c ds Hc _ IH]; simpl.
  - destruct rest as [|c r]; simpl; [done|]. by destruct Hrest as [-> _].
  - by rewrite Hc, IH.
Qed.

Lemma dec_digits_head fuel n acc :
  0 <= n < 10 ^ Z.of_nat fuel → (0 < fuel)%nat → n ≠ 0 →
  ∃ d ds, dec_digits fuel n acc = d :: ds ∧ 0 < d < 10.
Proof.
  revert n acc. induction fuel as [|f IH]; intros n acc Hn Hf Hn0; [lia|]. cbn [dec_digits].
  destruct (Z.ltb_spec n 10); [exists n, acc; split; [done|lia]|].
  rewrite Nat2Z.inj_succ, Z.pow_succ_r in Hn by lia.
  destruct f as [|f]; [simpl in Hn; lia|]. apply IH; [split| |].
  - apply Z.div_pos; lia.
  - apply Z.div_lt_upper_bound; lia.
  - lia.
  - pose proof (Z.div_str_pos n 10). lia.
Qed.

(** The first digit of the text of [n] is ['0'] only for [n = 0], whose text is
    that single digit. *)
Lemma print_nat_head n :
  0 <= n → ∃ c l, print_nat n = c :: l ∧ is_digit c = true ∧ (code c = 48 → l = []).
Proof.
  intros Hn. destruct (decide (n = 0)) as [->|Hn0]; [by exists "0"%char, []|].
  destruct (dec_digits_head (S (Z.to_nat (Z.log2 n))) n []) as (d & ds & Hd & Hlt);
    [split; [lia|by apply digits_fuel]|lia|done|].
  exists (digit_char d), (digit_char <$> ds). unfold print_nat, digits_of. rewrite Hd.
  split; [done|]. split; [apply digit_char_digit; lia|].
  unfold digit_char. rewrite code_ascii; lia.
Qed.

Lemma parse_nat_print n rest :
  0 <= n → stops rest → parse_nat (print_nat n ++ rest) = Some (n, rest).
Proof.
  intros Hn Hrest. unfold parse_nat.
  rewrite take_digits_app by (done || by apply print_nat_digits).
  rewrite digits_value_print by done.
  destruct (print_nat_head n Hn) as (c & l & -> & Hc & H0).
  replace ((code c =? 48) && negb (bool_decide (l = []))) with false.
  - destruct rest as [|c' r]; [done|]. destruct Hrest as (_ & ? & ? & ?).
    by rewrite !(proj2 (Z.eqb_neq _ _)).
  - destruct (Z.eqb_spec (code c) 48); [|done]. by rewrite H0.
Qed.

Lemma dict_set_fresh kvs k v : k ∉ map fst kvs → dict_set kvs k v = kvs ++ [(k, v)].
Proof.
  induction kvs as [|[k' v'] kvs IH]; simpl; [done|]. intros Hk.
  rewrite bool_decide_eq_false_2 by set_solver. by rewrite IH by set_solver.
Qed.

Lemma dict_of_fresh acc kvs :
  NoDup (map fst acc ++ map fst kvs) →
  foldl (λ d kv, dict_set d kv.1 kv.2) acc kvs = acc ++ kvs.
Proof.
  revert acc. induction kvs as [|[k v] kvs IH]; intros acc Hnd; simpl.
  - by rewrite app_nil_r.
  - rewrite dict_set_fresh, IH.
    + by rewrite <- app_assoc.
    + rewrite map_app, <- app_assoc. exact Hnd.
    + apply NoDup_app in Hnd as (_ & Hd & _). intros Hin. apply (Hd _ Hin). simpl. set_solver.
Qed.

Lemma skip_ws_cons c l : is_ws c = false → skip_ws (c :: l) = c :: l.
Proof. simpl. by intros ->. Qed.

Lemma digit_not c n : is_digit c = true → ¬ (48 <= n <= 57) → (code c =? n) = false.
Proof. unfold is_digit, in_range. intros. apply Z.eqb_neq. lia. Qed.

Lemma is_digit_not_ws c : is_digit c = true → is_ws c = false.
Proof. intros. unfold is_ws. by rewrite !digit_not by (done || lia). Qed.

(** The first character of a printed value: no white space, no closing bracket. *)
Lemma print_head j :
  ∃ c l, print j = c :: l ∧ is_ws c = false ∧ (code c =? 93) = false ∧ (code c =? 125) = false.
Proof.
  destruct j as [|[]|z|s|l|kvs]; simpl; try (by do 2 eexists).
  unfold print_Z. destruct (Z.ltb_spec z 0); [by do 2 eexists|].
  destruct (print_nat_head z) as (c & l & -> & Hc & _); [lia|].
  exists c, l. split_and!; [done|by apply is_digit_not_ws|apply digit_not..]; done || lia.
Qed.

Lemma skip_ws_print j rest : skip_ws (print j ++ rest) = print j ++ rest.
Proof. destruct (print_head j) as (c & l & -> & Hc & _). by apply skip_ws_cons. Qed.

Lemma join_cons sep l ls :
  ls ≠ [] → join sep (l :: ls) = l ++ sep :: join sep ls.
Proof. by destruct ls. Qed.

(** A hook that keeps the members as they are when no key repeats. *)
Section round_trip.
Variable build : list (string * json) → option json.
Hypothesis build_fresh : ∀ kvs, NoDup (map fst kvs) → build kvs = Some (JObj kvs).

Local Abbreviation parse_value := (parse_value build).
Local Abbreviation parse_elems := (parse_elems build).
Local Abbreviation parse_members := (parse_members build).

Lemma parse_elems_step f v r :
  parse_value f (print v ++ r) = Some (v, r) →
  parse_elems (S f) (print v ++ r) =
  match skip_ws r with
  | c :: r1 => if code c =? 44 then '(vs, r2) ← parse_elems f (skip_ws r1); Some (v :: vs, r2)
               else if code c =? 93 then Some ([v], r1) else None
  | [] => None
  end.
Proof. intros H. cbn [parse_elems]. by rewrite H. Qed.

Definition reads (j : json) : Prop :=
  ∀ fuel rest, stops rest → (2 * length (print j) ≤ fuel)%nat →
  parse_value fuel (print j ++ rest) = Some (j, rest).

Lemma print_nonempty j : (1 ≤ length (print j))%nat.
Proof. destruct (print_head j) as (c & l & -> & _). simpl. lia. Qed.

Lemma parse_elems_print l fuel rest :
  Forall reads l → l ≠ [] →
  (2 * length (join ","%char (map print l)) + 2 ≤ fuel)%nat →
  parse_elems fuel (join ","%char (map print l) ++ "]"%char :: rest) = Some (l, rest).
Proof.
  revert fuel. induction l as [|v l IH]; intros fuel Hl Hne Hf; [done|].
  apply Forall_cons in Hl as [Hv Hl]. destruct fuel as [|f]; [lia|].
  destruct l as [|w l].
  - cbn [map join] in *. rewrite (parse_elems_step f v) by (apply Hv; [done|lia]). done.
  - cbn [map] in *. rewrite join_cons in Hf |- * by done. rewrite <- app_assoc.
    rewrite length_app in Hf. cbn [length] in Hf. rewrite parse_elems_step by (apply Hv; [done|lia]).
    cbn [app]. rewrite skip_ws_cons by done.
    assert (skip_ws (join ","%char (print w :: map print l) ++ "]"%char :: rest) =
            join ","%char (print w :: map print l) ++ "]"%char :: rest) as Hsk.
    { destruct l; cbn [map]; [apply skip_ws_print|]. rewrite join_cons by done.
      rewrite <- app_assoc. apply skip_ws_print. }
    rewrite Hsk. change (code "," =? 44) with true. cbn iota.
    rewrite IH; [done|done|done|simpl in *; lia].
Qed.

Definition print_member (kv : string * json) : list ascii :=
  print_string kv.1 ++ ":"%char :: print kv.2.

Lemma parse_members_step f k v r :
  parse_value f (print v ++ r) = Some (v, r) →
  parse_members (S f) (print_member (k, v) ++ r) =
  match skip_ws r with
  | c2 :: r3 =>
      if code c2 =? 44 then
        '(kvs, r4) ← parse_members f (skip_ws r3); Some ((k, v) :: kvs, r4)
      else if code c2 =? 125 then Some ([(k, v)], r3) else None
  | [] => None
  end.
Proof.
  intros H. unfold print_member, print_string. cbn [fst snd app parse_members].
  change (code quote =? 34) with true. cbn iota. rewrite <- !app_assoc. cbn [app].
  rewrite parse_chars_print. cbn [mbind option_bind]. rewrite skip_ws_cons by done.
  change (code ":" =? 58) with true. cbn iota. rewrite skip_ws_print, H.
  cbn [mbind option_bind]. by rewrite of_chars_chars.
Qed.

Lemma print_member_length kv : (length (print kv.2) + 3 ≤ length (print_member kv))%nat.
Proof.
  unfold print_member, print_string. rewrite length_app. cbn [length]. rewrite length_app. simpl. lia.
Qed.

Lemma parse_members_print kvs fuel rest :
  Forall (λ kv : string * json, reads kv.2) kvs → kvs ≠ [] →
  (2 * length (join ","%char (map print_member kvs)) + 2 ≤ fuel)%nat →
  parse_members fuel (join ","%char (map print_member kvs) ++ "}"%char :: rest) = Some (kvs, rest).
Proof.
  revert fuel. induction kvs as [|[k v] kvs IH]; intros fuel Hl Hne Hf; [done|].
  apply Forall_cons in Hl as [Hv Hl]. destruct fuel as [|f]; [lia|].
  pose proof (print_member_length (k, v)) as Hlen. cbn [snd] in *.
  destruct kvs as [|[k2 v2] kvs].
  - cbn [map join] in *. rewrite parse_members_step by (apply Hv; [done|lia]). done.
  - cbn [map] in *. rewrite join_cons in Hf |- * by done. rewrite <- app_assoc.
    rewrite length_app in Hf. cbn [length] in Hf.
    rewrite parse_members_step by (apply Hv; [done|lia]).
    cbn [app]. rewrite skip_ws_cons by done.
    assert (skip_ws (join ","%char (print_member (k2, v2) :: map print_member kvs) ++ "}"%char :: rest) =
            join ","%char (print_member (k2, v2) :: map print_member kvs) ++ "}"%char :: rest) as Hsk.
    { destruct kvs; cbn [map]; [done|]. rewrite join_cons by done. by rewrite <- app_assoc. }
    rewrite Hsk. change (code "," =? 44) with true. cbn iota.
    rewrite IH; [done|done|done|simpl in *; lia].
Qed.

(** The first character decides how [parse_value] goes on. *)
Lemma parse_value_int f l :
  (∃ c l', l = c :: l' ∧ is_digit c = true) →
  parse_value (S f) l = '(z, r) ← parse_nat l; Some (JInt z, r).
Proof.
  intros (c & l' & -> & Hc). cbn [parse_value]. by rewrite !digit_not by (done || lia).
Qed.

Lemma reads_int z : reads (JInt z).
Proof.
  intros fuel rest Hrest Hf. pose proof (print_nonempty (JInt z)). destruct fuel as [|f]; [lia|].
  cbn [print]. unfold print_Z. destruct (Z.ltb_spec z 0).
  - change (parse_value (S f) (("-"%char :: print_nat (- z)) ++ rest)) with
      ('(z, r) ← parse_nat (print_nat (- z) ++ rest); Some (JInt (- z), r)).
    rewrite parse_nat_print by (done || lia). simpl. do 3 f_equal. lia.
  - rewrite parse_value_int.
    + by rewrite parse_nat_print by (done || lia).
    + destruct (print_nat_head z) as (c & l & -> & Hc & _); [lia|]. by exists c, (l ++ rest).
Qed.

Lemma parse_value_arr f c2 l2 :
  is_ws c2 = false → (code c2 =? 93) = false →
  parse_value (S f) ("["%char :: c2 :: l2) = '(vs, r) ← parse_elems f (c2 :: l2); Some (JArr vs, r).
Proof.
  intros Hw Hc. cbn [parse_value]. rewrite skip_ws_cons by done. rewrite Hc. reflexivity.
Qed.

Lemma parse_value_obj f c2 l2 :
  is_ws c2 = false → (code c2 =? 125) = false →
  parse_value (S f) ("{"%char :: c2 :: l2) =
  '(kvs, r) ← parse_members f (c2 :: l2); v ← build kvs; Some (v, r).
Proof.
  intros Hw Hc. cbn [parse_value]. rewrite skip_ws_cons by done. rewrite Hc. reflexivity.
Qed.

Lemma reads_arr l : Forall reads l → reads (JArr l).
Proof.
  intros Hl fuel rest Hrest Hf. cbn [print length] in *. rewrite length_app in Hf. cbn [length] in Hf.
  destruct fuel as [|f]; [lia|]. cbn [app]. rewrite <- app_assoc. cbn [app].
  destruct l as [|v l]; [done|].
  assert (Hp : ∃ c2 l2, join ","%char (map print (v :: l)) ++ "]"%char :: rest = c2 :: l2 ∧
                is_ws c2 = false ∧ (code c2 =? 93) = false).
  { destruct (print_head v) as (c & w & Hpv & Hw & H93 & _).
    destruct l; cbn [map join]; rewrite Hpv; by do 2 eexists. }
  destruct Hp as (c2 & l2 & Hp & Hw & H93). rewrite Hp, parse_value_arr by done. rewrite <- Hp.
  rewrite parse_elems_print; [done|done|done|lia].
Qed.

Lemma reads_obj kvs :
  NoDup (map fst kvs) → Forall (λ kv : string * json, reads kv.2) kvs → reads (JObj kvs).
Proof.
  intros Hnd Hl fuel rest Hrest Hf. cbn [print length] in *. rewrite length_app in Hf. cbn [length] in Hf.
  change (map (λ kv : string * json, print_string kv.1 ++ ":"%char :: print kv.2) kvs)
    with (map print_member kvs) in *.
  destruct fuel as [|f]; [lia|]. cbn [app]. rewrite <- app_assoc. cbn [app].
  destruct kvs as [|kv kvs]; [done|].
  assert (Hp : ∃ c2 l2, join ","%char (map print_member (kv :: kvs)) ++ "}"%char :: rest = c2 :: l2 ∧
                is_ws c2 = false ∧ (code c2 =? 125) = false).
  { destruct kvs; cbn [map join]; by do 2 eexists. }
  destruct Hp as (c2 & l2 & Hp & Hw & H125). rewrite Hp, parse_value_obj by done. rewrite <- Hp.
  rewrite parse_members_print; [|done|done|lia]. simpl. by rewrite build_fresh.
Qed.

Lemma reads_wf j : wf j → reads j.
Proof.
  induction j as [|b|z|s|l IH|kvs IH] using json_nested_ind; intros Hwf.
  - intros [|f] rest _ Hf; [simpl in Hf; lia|reflexivity].
  - intros [|f] rest _ Hf; [destruct b; simpl in Hf; lia|]. by destruct b.
  - apply reads_int.
  - intros [|f] rest _ Hf; [simpl in Hf; lia|]. cbn [print]. unfold print_string.
    cbn [app]. rewrite <- app_assoc. cbn [app parse_value]. change (code quote =? 34) with true.
    cbn iota. rewrite parse_chars_print. cbn. by rewrite of_chars_chars.
  - apply wf_arr in Hwf. apply reads_arr. rewrite Forall_forall in *. eauto.
  - destruct Hwf as [Hnd Hwf%wf_members]. apply reads_obj; [done|].
    rewrite Forall_forall in *. eauto.
Qed.

Lemma loads_with_dumps j : wf j → loads_with build (dumps j) = Some j.
Proof.
  intros Hwf. unfold loads_with, dumps. rewrite chars_of_chars.
  pose proof (skip_ws_print j []) as Hsk. rewrite app_nil_r in Hsk. rewrite Hsk.
  pose proof (reads_wf j Hwf (2 * length (print j))%nat [] I) as Hr. rewrite app_nil_r in Hr.
  rewrite Hr by lia. done.
Qed.
End round_trip.

(** Loading a dumped document gives it back. *)
Lemma loads_dumps j : wf j → loads (dumps j) = Some j.
Proof. apply loads_with_dumps. intros kvs Hnd. unfold dict_of. by rewrite dict_of_fresh. Qed.

Lemma loads_strict_dumps j : wf j → loads_strict (dumps j) = Some j.
Proof. apply loads_with_dumps. intros kvs Hnd. by rewrite bool_decide_true. Qed.
