(* ===== verification/IsoTime.v ===== *)
(** * UTC datetimes and their ISO text

    An aware UTC [datetime] is its number of microseconds since 1970-01-01.
    [isoformat] and [fromisoformat] are modelled on the text the store itself
    writes, [YYYY-MM-DDTHH:MM:SS[.ffffff]+00:00]; [fromisoformat] answers [None]
    on any other text, which the store treats as a malformed lock. *)

From S2P Require Import Prelude PyText.
From Stdlib Require Import Ascii.
Local Open Scope Z_scope.

Definition instant := Z.

Definition US_PER_S : Z := 1000000.
Definition US_PER_DAY : Z := 86400 * US_PER_S.

(** ** Calendar (proleptic Gregorian; internally years start in March) *)

Definition civil_from_days (days : Z) : Z * Z * Z :=
  let z := days + 719468 in
  let era := z / 146097 in
  let doe := z mod 146097 in
  let c := Z.min 3 (doe / 36524) in
  let r := doe - 36524 * c in
  let q := Z.min 24 (r / 1461) in
  let r2 := r - 1461 * q in
  let a := Z.min 3 (r2 / 365) in
  let doy := r2 - 365 * a in
  let mp := (5 * doy + 2) / 153 in
  let d := doy - (153 * mp + 2) / 5 + 1 in
  let y := 400 * era + 100 * c + 4 * q + a in
  if mp <? 10 then (y, mp + 3, d) else (y + 1, mp - 9, d).

Definition days_from_civil (y m d : Z) : Z :=
  let y' := if m <=? 2 then y - 1 else y in
  let mp := if m <=? 2 then m + 9 else m - 3 in
  let era := y' / 400 in
  let yoe := y' mod 400 in
  let c := yoe / 100 in
  let q := (yoe mod 100) / 4 in
  let a := (yoe mod 100) mod 4 in
  let doy := (153 * mp + 2) / 5 + d - 1 in
  146097 * era + 36524 * c + 1461 * q + 365 * a + doy - 719468.

Example epoch : civil_from_days 0 = (1970, 1, 1).
Proof. reflexivity. Qed.
Example leap_day : civil_from_days 11016 = (2000, 2, 29) ∧ civil_from_days 11017 = (2000, 3, 1).
Proof. split; reflexivity. Qed.
Example last_day : civil_from_days 2932896 = (9999, 12, 31).
Proof. reflexivity. Qed.

(** The instants [datetime] can hold: years 1 to 9999. *)
Definition MIN_US : Z := -719162 * US_PER_DAY.
Definition MAX_US : Z := 2932897 * US_PER_DAY - 1.
Definition in_datetime_range (t : instant) : bool := (MIN_US <=? t) && (t <=? MAX_US).

(** ** Text *)

Definition colon : ascii := ":"%char.
Definition hyphen : ascii := "-"%char.

Definition isoformat_chars (t : instant) : list ascii :=
  let days := t / US_PER_DAY in
  let us := t mod US_PER_DAY in
  let '(y, m, d) := civil_from_days days in
  let s := us / US_PER_S in
  let frac := us mod US_PER_S in
  zero_pad 4 y ++ hyphen :: zero_pad 2 m ++ hyphen :: zero_pad 2 d ++ "T"%char ::
  zero_pad 2 (s / 3600) ++ colon :: zero_pad 2 (s mod 3600 / 60) ++ colon ::
  zero_pad 2 (s mod 60) ++
  (if frac =? 0 then [] else "."%char :: zero_pad 6 frac) ++ chars "+00:00".

Definition isoformat (t : instant) : string := of_chars (isoformat_chars t).

Definition take_num (w : nat) (l : list ascii) : option (Z * list ascii) :=
  let ds := take w l in
  if bool_decide (length ds = w) && forallb is_digit ds then Some (digits_value ds, drop w l)
  else None.

Definition take_char (c : ascii) (l : list ascii) : option (list ascii) :=
  match l with
  | x :: l' => if bool_decide (x = c) then Some l' else None
  | [] => None
  end.

Definition take_frac (l : list ascii) : option (Z * list ascii) :=
  match take_char "."%char l with
  | Some l' => take_num 6 l'
  | None => Some (0, l)
  end.

Definition fromisoformat (s : string) : option instant :=
  '(y, l) ← take_num 4 (chars s); l ← take_char hyphen l;
  '(m, l) ← take_num 2 l; l ← take_char hyphen l;
  '(d, l) ← take_num 2 l; l ← take_char "T"%char l;
  '(hh, l) ← take_num 2 l; l ← take_char colon l;
  '(mm, l) ← take_num 2 l; l ← take_char colon l;
  '(ss, l) ← take_num 2 l;
  '(frac, l) ← take_frac l;
  if bool_decide (l = chars "+00:00") && bool_decide (civil_from_days (days_from_civil y m d) = (y, m, d))
     && (1 <=? y) && (hh <? 24) && (mm <? 60) && (ss <? 60)
  then Some (days_from_civil y m d * US_PER_DAY + (hh * 3600 + mm * 60 + ss) * US_PER_S + frac)
  else None.

Example iso_ex : isoformat 1790000000123456 = "2026-09-21T14:13:20.123456+00:00"%string.
Proof. vm_compute. reflexivity. Qed.
Example iso_ex2 : fromisoformat "2026-09-21T14:13:20+00:00" = Some 1790000000000000.
Proof. vm_compute. reflexivity. Qed.

(** ** Facts *)

Ltac Zify.zify_post_hook ::= Z.to_euclidean_division_equations.

Lemma civil_doy doe :
  0 <= doe < 146097 →
  let c := Z.min 3 (doe / 36524) in
  let r := doe - 36524 * c in
  let q := Z.min 24 (r / 1461) in
  let r2 := r - 1461 * q in
  let a := Z.min 3 (r2 / 365) in
  let doy := r2 - 365 * a in
  0 <= c <= 3 ∧ 0 <= q <= 24 ∧ 0 <= a <= 3 ∧ 0 <= doy <= 365.
Proof.
  intros Hdoe. cbv zeta.
  assert (0 <= Z.min 3 (doe / 36524) <= 3 ∧ 0 <= doe - 36524 * Z.min 3 (doe / 36524) <= 36524) as [Hc Hr] by lia.
  set (r := doe - _) in *. clearbody r.
  assert (0 <= Z.min 24 (r / 1461) <= 24 ∧ 0 <= r - 1461 * Z.min 24 (r / 1461) <= 1460) as [Hq Hr2] by lia.
  set (r2 := r - _) in *. clearbody r2. lia.
Qed.

Lemma civil_month doy :
  0 <= doy <= 365 →
  let mp := (5 * doy + 2) / 153 in
  0 <= mp <= 11 ∧ 1 <= doy - (153 * mp + 2) / 5 + 1 <= 31.
Proof. intros. cbv zeta. lia. Qed.

(** Putting a March-based year and a month back together. *)
Lemma days_of_parts era c q a mp d :
  0 <= c <= 3 → 0 <= q <= 24 → 0 <= a <= 3 → 0 <= mp <= 11 →
  let y := 400 * era + 100 * c + 4 * q + a in
  let '(y', m) := if mp <? 10 then (y, mp + 3) else (y + 1, mp - 9) in
  days_from_civil y' m d =
  146097 * era + 36524 * c + 1461 * q + 365 * a + ((153 * mp + 2) / 5 + d - 1) - 719468.
Proof.
  intros Hc Hq Ha Hmp y. unfold days_from_civil.
  assert (y / 400 = era ∧ y mod 400 = 100 * c + 4 * q + a) as [He Hyoe] by (subst y; lia).
  assert ((100 * c + 4 * q + a) / 100 = c ∧ (100 * c + 4 * q + a) mod 100 = 4 * q + a) as [Hc' Hm'] by lia.
  assert ((4 * q + a) / 4 = q ∧ (4 * q + a) mod 4 = a) as [Hq' Ha'] by lia.
  destruct (Z.ltb_spec mp 10); cbv zeta.
  - destruct (Z.leb_spec (mp + 3) 2); [lia|].
    replace (mp + 3 - 3) with mp by lia. by rewrite He, Hyoe, Hc', Hm', Hq', Ha'.
  - destruct (Z.leb_spec (mp - 9) 2); [|lia].
    replace (mp - 9 + 9) with mp by lia. replace (y + 1 - 1) with y by lia.
    by rewrite He, Hyoe, Hc', Hm', Hq', Ha'.
Qed.

(** Calendar dates and day numbers are inverse, and the parts are in range. *)
Lemma civil_roundtrip days y m d :
  civil_from_days days = (y, m, d) →
  days_from_civil y m d = days ∧ 1 <= m <= 12 ∧ 1 <= d <= 31 ∧
  (-719162 <= days <= 2932896 → 1 <= y <= 9999).
Proof.
  unfold civil_from_days. set (z := days + 719468). set (doe := z mod 146097).
  assert (0 <= doe < 146097) as Hdoe by (apply Z.mod_pos_bound; lia).
  pose proof (civil_doy doe Hdoe) as Hb. cbv zeta in Hb |- *.
  set (c := Z.min 3 (doe / 36524)) in *. set (r := doe - 36524 * c) in *.
  set (q := Z.min 24 (r / 1461)) in *. set (r2 := r - 1461 * q) in *.
  set (a := Z.min 3 (r2 / 365)) in *. set (doy := r2 - 365 * a) in *.
  destruct Hb as (Hc & Hq & Ha & Hdoy).
  pose proof (civil_month doy Hdoy) as Hm. cbv zeta in Hm.
  set (mp := (5 * doy + 2) / 153) in *. destruct Hm as [Hmp Hd].
  pose proof (days_of_parts (z / 146097) c q a mp (doy - (153 * mp + 2) / 5 + 1) Hc Hq Ha Hmp) as Hp.
  cbv zeta in Hp.
  assert (z = 146097 * (z / 146097) + doe) as Hz by (subst doe; lia).
  assert (doe = 36524 * c + 1461 * q + 365 * a + doy) as Hdoe' by (subst doy r2 r; lia).
  assert (-719162 <= days <= 2932896 → 0 <= z / 146097 <= 24) as Hera by (subst z; lia).
  assert ((mp <? 10) = (doy <? 306)) as Hmp10 by (subst mp; lia).
  clearbody mp doy a r2 q r c doe.
  rewrite Hmp10 in *. destruct (Z.ltb_spec doy 306) as [Hlt|Hlt]; intros [= <- <- <-];
    (split; [rewrite Hp; subst z; lia|]); (split; [lia|]); (split; [lia|]); intros Hr; specialize (Hera Hr);
    subst z; lia.
Qed.

Lemma take_num_pad (w : nat) n rest :
  0 <= n < 10 ^ Z.of_nat w → (0 < w)%nat → take_num w (zero_pad w n ++ rest) = Some (n, rest).
Proof.
  intros Hn Hw. unfold take_num. pose proof (zero_pad_length w n Hn Hw) as Hl.
  rewrite take_app_length', drop_app_length' by done.
  rewrite bool_decide_eq_true_2 by done.
  assert (forallb is_digit (zero_pad w n) = true) as ->.
  { apply forallb_forall. intros x Hx%list_elem_of_In.
    apply (proj1 (Forall_forall _ _) (zero_pad_digits w n (proj1 Hn)) x Hx). }
  simpl. by rewrite zero_pad_value by lia.
Qed.

Lemma take_char_same c l : take_char c (c :: l) = Some l.
Proof. simpl. by rewrite bool_decide_eq_true_2. Qed.

Lemma take_frac_print frac rest :
  0 <= frac < US_PER_S → rest = chars "+00:00" →
  take_frac ((if frac =? 0 then [] else "."%char :: zero_pad 6 frac) ++ rest) = Some (frac, rest).
Proof.
  intros Hf ->. unfold take_frac. destruct (Z.eqb_spec frac 0) as [->|]; [done|].
  cbn [app]. rewrite take_char_same. apply take_num_pad; unfold US_PER_S in *; simpl; lia.
Qed.

(** Reading back the text of an instant [datetime] can hold. *)
Lemma fromisoformat_isoformat t :
  in_datetime_range t = true → fromisoformat (isoformat t) = Some t.
Proof.
  intros Hr. unfold in_datetime_range, MIN_US, MAX_US in Hr. unfold fromisoformat, isoformat.
  rewrite chars_of_chars. unfold isoformat_chars.
  destruct (civil_from_days (t / US_PER_DAY)) as [[y m] d] eqn:Hcivil.
  pose proof (civil_roundtrip _ _ _ _ Hcivil) as (Hdays & Hm & Hd & Hy).
  set (us := t mod US_PER_DAY). set (s := us / US_PER_S). set (frac := us mod US_PER_S).
  assert (0 <= us < US_PER_DAY) as Hus by (apply Z.mod_pos_bound; unfold US_PER_DAY, US_PER_S; lia).
  assert (0 <= frac < US_PER_S) as Hfrac by (apply Z.mod_pos_bound; unfold US_PER_S; lia).
  assert (0 <= s < 86400) as Hs by (subst s; unfold US_PER_DAY, US_PER_S in *; lia).
  assert (1 <= y <= 9999) as Hy' by (apply Hy; unfold US_PER_DAY, US_PER_S in *; lia).
  assert (0 <= s / 3600 < 24 ∧ 0 <= s mod 3600 / 60 < 60 ∧ 0 <= s mod 60 < 60) as (Hh & Hmi & Hse) by lia.
  assert (s / 3600 * 3600 + s mod 3600 / 60 * 60 + s mod 60 = s) as Hsum by lia.
  assert (t = t / US_PER_DAY * US_PER_DAY + s * US_PER_S + frac) as Ht
    by (subst s frac us; unfold US_PER_DAY, US_PER_S in *; lia).
  clearbody s frac us.
  rewrite take_num_pad by (simpl; lia). cbn [mbind option_bind]. rewrite take_char_same. cbn [mbind option_bind].
  rewrite take_num_pad by (simpl; lia). cbn [mbind option_bind]. rewrite take_char_same. cbn [mbind option_bind].
  rewrite take_num_pad by (simpl; lia). cbn [mbind option_bind]. rewrite take_char_same. cbn [mbind option_bind].
  rewrite take_num_pad by (simpl; lia). cbn [mbind option_bind]. rewrite take_char_same. cbn [mbind option_bind].
  rewrite take_num_pad by (simpl; lia). cbn [mbind option_bind]. rewrite take_char_same. cbn [mbind option_bind].
  rewrite take_num_pad by (simpl; lia). cbn [mbind option_bind].
  rewrite take_frac_print by done. cbn [mbind option_bind].
  rewrite Hdays, Hcivil, !bool_decide_eq_true_2 by done.
  replace (1 <=? y) with true by lia. replace (s / 3600 <? 24) with true by lia.
  replace (s mod 3600 / 60 <? 60) with true by lia. replace (s mod 60 <? 60) with true by lia.
  simpl. rewrite Hsum. by rewrite <- Ht.
Qed.
