(* ===== verification/Manifest.v ===== *)
(** * The drawing manifest

    [da/store.py] keeps one JSON document per drawing: the version list, the
    [head] and [latest] pointers, the checkout lock and the lock generation
    counter.  A manifest is a record here; [manifest_to_json] lays it out with
    the keys and the insertion order the writers use, and [load]/[save] go
    through the text that [json.dumps] produces and [json.loads] reads. *)

From S2P Require Import Prelude PyText Json IsoTime.
Local Open Scope Z_scope.

(** One row of [m["versions"]].  [ve_source_ref] is [None] when the row has no
    such key (the row of the initial ingest) and [Some None] when it is null;
    [ve_plan] holds [plan_sha256] and [parent_version] when a plan was kept. *)
Record version_entry := VersionEntry {
  ve_v : Z;
  ve_parent : option Z;
  ve_created : string;
  ve_bytes : Z;
  ve_sha256 : string;
  ve_workitem_id : option string;
  ve_tool : option string;
  ve_note : option string;
  ve_source_ref : option (option string);
  ve_plan : option (string * Z) }.

(** [m["checkout"]].  Locks of an earlier release carry no [fence]. *)
Record checkout := Checkout {
  co_holder : string;
  co_acquired : string;
  co_expires : string;
  co_fence : option Z }.

Record manifest := Manifest {
  m_tenant_id : string;
  m_drawing_id : string;
  m_head : Z;
  m_latest : Z;
  m_versions : list version_entry;
  m_checkout : option checkout;
  m_checkout_fence : option Z }.

Definition with_head (m : manifest) (h : Z) : manifest :=
  Manifest (m_tenant_id m) (m_drawing_id m) h (m_latest m) (m_versions m)
           (m_checkout m) (m_checkout_fence m).
Definition with_lock (m : manifest) (co : option checkout) (f : option Z) : manifest :=
  Manifest (m_tenant_id m) (m_drawing_id m) (m_head m) (m_latest m) (m_versions m) co f.

(** [_new_manifest]. *)
Definition _new_manifest (tenant_id drawing_id : string) : manifest :=
  Manifest tenant_id drawing_id 1 1 [] None None.

(** ** Layout *)

Definition opt_json {A} (f : A → json) (o : option A) : json :=
  match o with Some a => f a | None => JNull end.

Definition entry_to_json (e : version_entry) : json :=
  JObj ([("v"%string, JInt (ve_v e));
         ("parent"%string, opt_json JInt (ve_parent e));
         ("created"%string, JStr (ve_created e));
         ("bytes"%string, JInt (ve_bytes e));
         ("sha256"%string, JStr (ve_sha256 e));
         ("workitem_id"%string, opt_json JStr (ve_workitem_id e));
         ("tool"%string, opt_json JStr (ve_tool e));
         ("note"%string, opt_json JStr (ve_note e))] ++
        (match ve_source_ref e with
         | Some r => [("source_ref"%string, opt_json JStr r)] | None => [] end) ++
        (match ve_plan e with
         | Some (sha, parent) =>
             [("plan_sha256"%string, JStr sha); ("parent_version"%string, JInt parent)]
         | None => [] end)).

Definition checkout_to_json (co : checkout) : json :=
  JObj ([("holder"%string, JStr (co_holder co));
         ("acquired"%string, JStr (co_acquired co));
         ("expires"%string, JStr (co_expires co))] ++
        (match co_fence co with Some f => [("fence"%string, JInt f)] | None => [] end)).

Definition manifest_to_json (m : manifest) : json :=
  JObj ([("schema"%string, JInt 1);
         ("tenant_id"%string, JStr (m_tenant_id m));
         ("drawing_id"%string, JStr (m_drawing_id m));
         ("head"%string, JInt (m_head m));
         ("latest"%string, JInt (m_latest m));
         ("versions"%string, JArr (map entry_to_json (m_versions m)));
         ("checkout"%string, opt_json checkout_to_json (m_checkout m))] ++
        (match m_checkout_fence m with
         | Some f => [("checkout_fence"%string, JInt f)] | None => [] end)).

(** ** Reading *)

Definition as_int (j : json) : option Z := match j with JInt z => Some z | _ => None end.
Definition as_str (j : json) : option string := match j with JStr s => Some s | _ => None end.
Definition as_obj (j : json) : option (list (string * json)) :=
  match j with JObj kvs => Some kvs | _ => None end.
Definition as_arr (j : json) : option (list json) := match j with JArr l => Some l | _ => None end.

Definition nullable {A} (f : json → option A) (j : json) : option (option A) :=
  match j with JNull => Some None | _ => Some <$> f j end.

(** A key the readers fetch with [d.get]: absent is allowed. *)
Definition optional {A} (f : json → option A) (kvs : list (string * json)) (k : string)
  : option (option A) :=
  match dict_get kvs k with None => Some None | Some j => Some <$> f j end.

Definition field {A} (f : json → option A) (kvs : list (string * json)) (k : string) : option A :=
  dict_get kvs k ≫= f.

Definition entry_of_json (j : json) : option version_entry :=
  kvs ← as_obj j;
  v ← field as_int kvs "v";
  parent ← field (nullable as_int) kvs "parent";
  created ← field as_str kvs "created";
  bytes ← field as_int kvs "bytes";
  sha ← field as_str kvs "sha256";
  workitem ← field (nullable as_str) kvs "workitem_id";
  tool ← field (nullable as_str) kvs "tool";
  note ← field (nullable as_str) kvs "note";
  source_ref ← optional (nullable as_str) kvs "source_ref";
  plan_sha ← optional as_str kvs "plan_sha256";
  plan_parent ← optional as_int kvs "parent_version";
  Some (VersionEntry v parent created bytes sha workitem tool note source_ref
          (s ← plan_sha; p ← plan_parent; Some (s, p))).

Definition checkout_of_json (j : json) : option checkout :=
  kvs ← as_obj j;
  holder ← field as_str kvs "holder";
  acquired ← field as_str kvs "acquired";
  expires ← field as_str kvs "expires";
  fence ← optional as_int kvs "fence";
  Some (Checkout holder acquired expires fence).

Definition rows_of_json (rows : list json) : option (list version_entry) :=
  mapM entry_of_json rows.

Definition manifest_of_json (j : json) : option manifest :=
  kvs ← as_obj j;
  tenant ← field as_str kvs "tenant_id";
  drawing ← field as_str kvs "drawing_id";
  head ← field as_int kvs "head";
  latest ← field as_int kvs "latest";
  rows ← field as_arr kvs "versions";
  versions ← rows_of_json rows;
  co ← field (nullable checkout_of_json) kvs "checkout";
  fence ← optional as_int kvs "checkout_fence";
  Some (Manifest tenant drawing head latest versions co fence).

(** The text [save_manifest] writes and [load_manifest] reads. *)
Definition manifest_dumps (m : manifest) : string := dumps (manifest_to_json m).
Definition manifest_loads (text : string) : option manifest :=
  loads text ≫= manifest_of_json.

(** ** Lookups every reader uses *)

(** [next((e for e in m["versions"] if int(e["v"]) == v), None)]. *)
Definition find_version (vs : list version_entry) (v : Z) : option version_entry :=
  list_find (λ e, ve_v e = v) vs ≫= λ p, Some p.2.

(** [{int(e["v"]): parent ...}.get(cur)] with the dictionary's last-wins rule;
    the outer option is the missing key. *)
Definition parent_of (vs : list version_entry) (cur : Z) : option (option Z) :=
  foldl (λ acc e, if bool_decide (ve_v e = cur) then Some (ve_parent e) else acc) None vs.

(** ** Round trip *)

Lemma entry_roundtrip e : entry_of_json (entry_to_json e) = Some e.
Proof.
  destruct e as [v [p|] cr by_ sha [w|] [t|] [n|] [[r|]|] [[ps pp]|]]; reflexivity.
Qed.

Lemma checkout_roundtrip co : checkout_of_json (checkout_to_json co) = Some co.
Proof. by destruct co as [h a e [f|]]. Qed.

Lemma entries_roundtrip vs : rows_of_json (map entry_to_json vs) = Some vs.
Proof.
  unfold rows_of_json.
  induction vs as [|e vs IH]; [done|].
  cbn [map]. change (mapM entry_of_json (?x :: ?l)) with
    (y ← entry_of_json x; k ← mapM entry_of_json l; mret (y :: k)).
  by rewrite entry_roundtrip; simpl; rewrite IH.
Qed.

Lemma manifest_json_roundtrip m : manifest_of_json (manifest_to_json m) = Some m.
Proof.
  destruct m as [t d h l vs co f].
  unfold manifest_of_json, manifest_to_json, as_obj.
  assert (Hco : nullable checkout_of_json (opt_json checkout_to_json co) = Some co).
  { destruct co as [co|]; [|done]. unfold opt_json.
    change (nullable checkout_of_json (checkout_to_json co)) with
      (Some <$> checkout_of_json (checkout_to_json co)).
    by rewrite checkout_roundtrip. }
  assert (Hvs := entries_roundtrip vs).
  cbn [m_tenant_id m_drawing_id m_head m_latest m_versions m_checkout m_checkout_fence].
  generalize dependent (map entry_to_json vs). intros rows Hvs.
  generalize dependent (opt_json checkout_to_json co). intros jco Hco.
  transitivity (vs' ← rows_of_json rows; co' ← nullable checkout_of_json jco;
                Some (Manifest t d h l vs' co' f)).
  - destruct f; reflexivity.
  - by rewrite Hvs; simpl; rewrite Hco.
Qed.

Lemma keys_nodup (ks : list string) : bool_decide (NoDup ks) = true → NoDup ks.
Proof. apply bool_decide_eq_true_1. Qed.

Lemma entry_wf e : wf (entry_to_json e).
Proof.
  destruct e as [v [p|] cr by_ sha [w|] [t|] [n|] [[r|]|] [[ps pp]|]];
    (split; [apply keys_nodup; reflexivity | simpl; tauto]).
Qed.

Lemma checkout_wf co : wf (checkout_to_json co).
Proof.
  destruct co as [h a e [f|]];
    (split; [apply keys_nodup; reflexivity | simpl; tauto]).
Qed.

Lemma manifest_wf m : wf (manifest_to_json m).
Proof.
  assert (wf (JArr (map entry_to_json (m_versions m)))) as Hvs.
  { apply wf_arr, Forall_map, Forall_forall. intros e _. apply entry_wf. }
  assert (wf (opt_json checkout_to_json (m_checkout m))) as Hco.
  { destruct (m_checkout m); [apply checkout_wf|exact I]. }
  destruct m as [t d h l vs co [f|]]; cbn [m_versions m_checkout] in *; split.
  1,3: apply keys_nodup; reflexivity.
  all: cbn [foldr app m_checkout_fence]; cbn [snd]; repeat split; try exact I; assumption.
Qed.

Lemma manifest_loads_dumps m : manifest_loads (manifest_dumps m) = Some m.
Proof.
  unfold manifest_loads, manifest_dumps. rewrite loads_dumps by apply manifest_wf.
  apply manifest_json_roundtrip.
Qed.
