(* ===== verification/RepeatingUnit.v ===== *)
(** * The smallest repeating unit of a secret

    [_smallest_repeating_unit] of [server/checkout_capability.py]: the prefix
    function of Knuth, Morris and Pratt, used to see through a production secret
    that is a short block pasted several times.  The theorem relates it to its
    specification: the shortest text that gives the value by repetition. *)

From S2P Require Import Prelude.
From Stdlib Require Import Ascii.
From Stdlib Require String.

Section Unit.
Context {A : Type} `{EqDecision A}.
Implicit Types (v u w : list A) (i k m : nat).

(** [while matched and value[index] != value[matched]: matched = prefixes[matched - 1]] *)
Fixpoint fall_back (fuel : nat) (v : list A) (prefixes : list nat) (index matched : nat) : nat :=
  match fuel with
  | O => matched
  | S n =>
      if negb (bool_decide (matched = 0)) && negb (bool_decide (v !! index = v !! matched))
      then fall_back n v prefixes index (default 0 (prefixes !! (matched - 1)))
      else matched
  end.

(** one turn of the [for] loop *)
Definition prefix_step (v : list A) (st : list nat * nat) (index : nat) : list nat * nat :=
  let '(prefixes, matched) := st in
  let matched := fall_back (S matched) v prefixes index matched in
  if bool_decide (v !! index = v !! matched)
  then (<[index := S matched]> prefixes, S matched)
  else (prefixes, matched).

Definition prefix_function (v : list A) : list nat :=
  fst (foldl (prefix_step v) (replicate (length v) 0, 0) (seq 1 (length v - 1))).

Definition _smallest_repeating_unit (v : list A) : list A :=
  let len := length v in
  if bool_decide (len < 2) then v
  else
    let size := len - default 0 (last (prefix_function v)) in
    if bool_decide (size < len) && bool_decide (len mod size = 0) then take size v else v.

(** ** Borders *)

(** the first [k] and the last [k] of the first [i] elements agree *)
Definition border v i k : Prop := k < i ∧ ∀ j, j < k → v !! j = v !! (i - k + j).

Definition longest v i k : Prop := border v i k ∧ ∀ k', border v i k' → k' ≤ k.

Lemma border_0 v i : 0 < i → border v i 0.
Proof. intros Hi. split; [done|]. intros j Hj. lia. Qed.

Lemma border_S v i k : border v (S i) (S k) ↔ border v i k ∧ v !! k = v !! i.
Proof.
  unfold border. split.
  - intros [Hk Hj]. split; [split; [lia|]|].
    + intros j Hjk. rewrite (Hj j) by lia. f_equal; lia.
    + rewrite (Hj k) by lia. f_equal; lia.
  - intros [[Hk Hj] He]. split; [lia|]. intros j Hjk. destruct (decide (j = k)) as [->|].
    + rewrite He. f_equal; lia.
    + rewrite (Hj j) by lia. f_equal; lia.
Qed.

Lemma border_down v i m k : border v i m → border v i k → k < m → border v m k.
Proof.
  intros [Hm Hmj] [Hk Hkj] Hlt. split; [done|]. intros j Hj.
  rewrite (Hkj j) by done. rewrite (Hmj (m - k + j)) by lia. f_equal; lia.
Qed.

Lemma border_up v i m k : border v i m → border v m k → border v i k.
Proof.
  intros [Hm Hmj] [Hk Hkj]. split; [lia|]. intros j Hj.
  rewrite (Hkj j) by done. rewrite (Hmj (m - k + j)) by lia. f_equal; lia.
Qed.

(** ** The prefix function *)

(** the entries before [i] are right *)
Definition right_upto v (ps : list nat) i : Prop :=
  length ps = length v ∧ ∀ m, 1 ≤ m → m ≤ i → ∃ k, ps !! (m - 1) = Some k ∧ longest v m k.

(** every border that can be extended at [i] is at most [m] *)
Definition bounds v i m : Prop := ∀ k, border v i k → v !! k = v !! i → k ≤ m.

Lemma fall_back_spec fuel v ps i m :
  right_upto v ps i → border v i m → bounds v i m → m < fuel →
  let m' := fall_back fuel v ps i m in
  border v i m' ∧ bounds v i m' ∧ (m' = 0 ∨ v !! i = v !! m').
Proof.
  intros Hps. revert m. induction fuel as [|n IH]; intros m Hb Hbd Hlt; [lia|]. cbn [fall_back].
  destruct (bool_decide (m = 0)) eqn:E0; [bool_prop; auto|]. bool_prop.
  destruct (bool_decide (v !! i = v !! m)) eqn:Em; [bool_prop; auto|]. bool_prop. simpl.
  assert (Hmi : m < i) by apply Hb.
  destruct (proj2 Hps m) as (k & Hk & Hlong); [lia|lia|]. rewrite Hk. simpl. apply IH.
  - eapply border_up; [exact Hb|apply Hlong].
  - intros k' Hk' He. assert (k' ≤ m) by (by apply Hbd).
    assert (k' ≠ m) by (intros ->; congruence). apply Hlong. eapply border_down; [exact Hb|done|lia].
  - destruct Hlong as [[? _] _]. lia.
Qed.

Lemma prefix_step_spec v ps m i :
  right_upto v ps i → ps !! (i - 1) = Some m → 0 < i → i < length v → ps !! i = Some 0 →
  let '(ps', m') := prefix_step v (ps, m) i in
  right_upto v ps' (S i) ∧ ps' !! i = Some m' ∧ ∀ j, i < j → ps' !! j = ps !! j.
Proof.
  intros Hps Hm Hi Hlen Hzero. unfold prefix_step.
  assert (Hlong : longest v i m).
  { destruct (proj2 Hps i) as (k & Hk & Hl); [lia..|]. congruence. }
  destruct (fall_back_spec (S m) v ps i m) as (Hb & Hbd & Hexit).
  { done. } { apply Hlong. } { intros k Hk _. by apply Hlong. } { lia. }
  set (m' := fall_back (S m) v ps i m) in *. clearbody m'.
  assert (Hup : ∀ ps' x, length ps' = length v → (∀ j, j ≠ i → ps' !! j = ps !! j) → ps' !! i = Some x →
            longest v (S i) x → right_upto v ps' (S i)).
  { intros ps' x Hl Hsame Hx Hlx. split; [done|]. intros n Hn1 Hn2.
    destruct (decide (n = S i)) as [->|Hne].
    - exists x. split; [|done]. by replace (S i - 1) with i by lia.
    - destruct (proj2 Hps n) as (k & Hk & Hlk); [lia..|]. exists k. split; [|done]. rewrite Hsame by lia. done. }
  destruct (bool_decide (v !! i = v !! m')) eqn:E; bool_prop.
  - split; [|split].
    + apply (Hup _ (S m')).
      * rewrite length_insert. apply Hps.
      * intros j Hj. by rewrite list_lookup_insert_ne.
      * apply list_lookup_insert_eq. by rewrite (proj1 Hps).
      * split; [by apply border_S|]. intros [|k'] Hk'; [lia|]. apply border_S in Hk' as [Hk' He].
        assert (k' ≤ m') by (by apply Hbd). lia.
    + apply list_lookup_insert_eq. by rewrite (proj1 Hps).
    + intros j Hj. rewrite list_lookup_insert_ne; [done|lia].
  - destruct Hexit as [->|?]; [|done]. split; [|split; done].
    apply (Hup _ 0); [apply Hps|done|done|]. split; [apply border_0; lia|].
    intros [|k'] Hk'; [lia|]. apply border_S in Hk' as [Hk' He].
    assert (k' ≤ 0) by (by apply Hbd). assert (k' = 0) as -> by lia. congruence.
Qed.

Lemma prefix_function_spec v : 0 < length v → right_upto v (prefix_function v) (length v).
Proof.
  intros Hlen. unfold prefix_function.
  assert (Hgen : ∀ n i ps m, 0 < i → i + n = length v → right_upto v ps i → ps !! (i - 1) = Some m →
    (∀ j, i ≤ j → j < length v → ps !! j = Some 0) →
    right_upto v (fst (foldl (prefix_step v) (ps, m) (seq i n))) (length v)).
  { induction n as [|n IH]; intros i ps m Hi Hn Hps Hm Hz; simpl.
    - by replace (length v) with i by lia.
    - pose proof (prefix_step_spec v ps m i Hps Hm Hi ltac:(lia) (Hz i ltac:(lia) ltac:(lia))) as Hs.
      simpl in Hs. destruct (if bool_decide _ then _ else _) as [ps' m'] eqn:E in |- *; rewrite E in Hs.
      destruct Hs as (H1 & H2 & H3). apply (IH (S i)); [lia|lia|done| |].
      + by replace (S i - 1) with i by lia.
      + intros j Hj1 Hj2. rewrite H3 by lia. apply Hz; lia. }
  apply Hgen; [lia|lia| | |].
  - split; [by rewrite length_replicate|]. intros m H1 H2. assert (m = 1) as -> by lia.
    exists 0. split; [by apply lookup_replicate_2|]. split; [apply border_0; lia|].
    intros k' [Hk' _]. lia.
  - simpl. by apply lookup_replicate_2.
  - intros j _ Hj. by apply lookup_replicate_2.
Qed.

(** ** Periods *)

Definition period v d : Prop := ∀ j, j + d < length v → v !! j = v !! (j + d).

Lemma border_period v k : border v (length v) k ↔ k < length v ∧ period v (length v - k).
Proof.
  unfold border, period. split; intros [Hk Hj]; (split; [done|]); intros j Hlt.
  - rewrite (Hj j) by lia. f_equal; lia.
  - rewrite (Hj j) by lia. f_equal; lia.
Qed.

(** Two periods that fit in the text differ by a period. *)
Lemma period_diff v p q : period v p → period v q → p ≤ q → p + q ≤ length v → period v (q - p).
Proof.
  intros Hp Hq Hle Hlen j Hj. destruct (decide (p ≤ j)).
  - transitivity (v !! (j - p)).
    + rewrite (Hp (j - p)) by lia. f_equal; lia.
    + rewrite (Hq (j - p)) by lia. f_equal; lia.
  - transitivity (v !! (j + q)); [apply Hq; lia|].
    symmetry. rewrite (Hp (j + (q - p))) by lia. f_equal; lia.
Qed.

(** The least period divides every period that fits with it. *)
Lemma least_period_divides v p q :
  0 < p → period v p → (∀ d, 0 < d → d < p → ¬ period v d) →
  0 < q → period v q → p + q ≤ length v → (p | q).
Proof.
  intros Hp0 Hp Hmin. induction q as [q IH] using lt_wf_ind. intros Hq0 Hq Hlen.
  destruct (decide (q < p)) as [Hlt|Hge]; [by destruct (Hmin q)|].
  destruct (decide (q = p)) as [->|Hne]; [apply Nat.divide_refl|].
  replace q with (p + (q - p)) by lia. apply Nat.divide_add_r; [apply Nat.divide_refl|].
  apply IH; [lia|lia| |lia]. apply period_diff; [done|done|lia|lia].
Qed.

(** ** Repetition *)

Definition repeat_text (n : nat) (u : list A) : list A := mjoin (replicate n u).

Lemma repeat_length n u : length (repeat_text n u) = n * length u.
Proof. induction n; simpl; [done|]. unfold repeat_text in *. simpl. by rewrite length_app, IHn. Qed.

Lemma repeat_lookup n u j : j < n * length u → repeat_text n u !! j = u !! (j mod length u).
Proof.
  revert j. induction n as [|n IH]; intros j Hj; [lia|]. unfold repeat_text in *. simpl in *.
  destruct (decide (j < length u)) as [Hlt|Hge].
  - rewrite lookup_app_l by done. by rewrite Nat.mod_small.
  - rewrite lookup_app_r, IH by lia. f_equal.
    replace j with ((j - length u) + 1 * length u) at 2 by lia. rewrite Nat.Div0.mod_add. done.
Qed.

Lemma repeat_period n u : period (repeat_text n u) (length u).
Proof.
  intros j. rewrite repeat_length. intros Hj. rewrite !repeat_lookup by lia. f_equal.
  replace (j + length u) with (j + 1 * length u) by lia. by rewrite Nat.Div0.mod_add.
Qed.

Lemma period_mod v d j : 0 < d → period v d → j < length v → v !! j = v !! (j mod d).
Proof.
  intros Hd Hp. induction j as [j IH] using lt_wf_ind. intros Hj.
  destruct (decide (j < d)); [by rewrite Nat.mod_small|].
  replace j with ((j - d) + d) at 1 by lia. rewrite <- Hp by lia. rewrite IH by lia. f_equal.
  replace j with ((j - d) + 1 * d) at 2 by lia. by rewrite Nat.Div0.mod_add.
Qed.

Lemma period_repeats v d : 0 < d → period v d → d ≤ length v → length v mod d = 0 →
  v = repeat_text (length v / d) (take d v).
Proof.
  intros Hd Hp Hle Hm.
  assert (Hlen : length v = length v / d * d) by (pose proof (Nat.div_mod_eq (length v) d); lia).
  apply list_eq_same_length with (length v); [by rewrite repeat_length, length_take, Nat.min_l|done|].
  intros j x y Hj Hx Hy. rewrite repeat_lookup in Hy by (rewrite length_take, Nat.min_l by lia; lia).
  rewrite length_take, Nat.min_l in Hy by lia.
  rewrite lookup_take_lt in Hy by (apply Nat.mod_upper_bound; lia).
  rewrite (period_mod v d) in Hx by (done || lia). congruence.
Qed.

Lemma repeat_one u : repeat_text 1 u = u.
Proof. unfold repeat_text. simpl. by rewrite app_nil_r. Qed.

Lemma last_prefix v : 0 < length v → ∃ k, last (prefix_function v) = Some k ∧ longest v (length v) k.
Proof.
  intros Hlen. destruct (prefix_function_spec v Hlen) as [Hl Hps].
  destruct (Hps (length v)) as (k & Hk & Hlong); [lia..|]. exists k. split; [|done].
  rewrite last_lookup, Hl. by replace (pred (length v)) with (length v - 1) by lia.
Qed.

Lemma unit_spec v :
  (∃ n, v = repeat_text n (_smallest_repeating_unit v)) ∧
  ∀ n w, v = repeat_text n w → length (_smallest_repeating_unit v) ≤ length w.
Proof.
  unfold _smallest_repeating_unit. destruct (decide (length v < 2)) as [Hs|Hs].
  { rewrite bool_decide_eq_true_2 by done. split; [exists 1; by rewrite repeat_one|].
    intros n w Hv. pose proof (f_equal length Hv) as Hl. rewrite repeat_length in Hl.
    destruct n as [|n]; [simpl in Hl; lia|]. nia. }
  rewrite bool_decide_eq_false_2 by done.
  destruct (last_prefix v ltac:(lia)) as (k & -> & Hb & Hmax). simpl. set (size := length v - k).
  apply border_period in Hb as [Hk Hper]. fold size in Hper.
  assert (Hmin : ∀ d, 0 < d → d < size → ¬ period v d).
  { intros d Hd0 Hd Hp. assert (length v - d ≤ k); [|lia]. apply Hmax, border_period.
    split; [lia|]. by replace (length v - (length v - d)) with d by lia. }
  assert (Hblock : ∀ n w, v = repeat_text n w → length w < length v → (size | length w) ∧ (length w | length v)).
  { intros n w Hv Hlt. pose proof (f_equal length Hv) as Hl. rewrite repeat_length in Hl.
    split; [|exists n; lia]. assert (2 ≤ n) by (destruct n as [|[|n]]; lia).
    assert (0 < length w) by (destruct (length w); lia).
    apply (least_period_divides v); [lia|done|done|done| |].
    - rewrite Hv. apply repeat_period.
    - destruct (decide (size ≤ length w)); [nia|].
      exfalso. apply (Hmin (length w)); [done|lia|]. rewrite Hv. apply repeat_period. }
  destruct (bool_decide (size < length v) && bool_decide (length v mod size = 0)) eqn:E.
  - bool_prop. split; [eexists; apply (period_repeats v size); [lia|done|lia|done]|].
    intros n w Hv. rewrite length_take. destruct (decide (length w < length v)) as [Hlt|]; [|lia].
    destruct (Hblock n w Hv Hlt) as [[c Hc] _]. pose proof (f_equal length Hv) as Hl.
    rewrite repeat_length in Hl. destruct c; [lia|]. nia.
  - split; [exists 1; by rewrite repeat_one|]. intros n w Hv.
    destruct (decide (length w < length v)) as [Hlt|]; [|lia]. exfalso.
    destruct (Hblock n w Hv Hlt) as [H1 H2]. pose proof (Nat.divide_trans _ _ _ H1 H2) as Hd.
    apply andb_false_iff in E as [E|E]; bool_prop.
    + assert (size = length v) by lia. destruct H1 as [c Hc]. pose proof (f_equal length Hv) as Hl.
      rewrite repeat_length in Hl. destruct c; nia.
    + apply E. apply Nat.Lcm0.mod_divide. done.
Qed.
End Unit.

(** The linear prefix-function scan finds what it is meant to find: the value
    is a repetition of the unit it returns, and no text of which the value is a
    repetition is shorter. *)
Theorem smallest_repeating_unit_is_smallest (v : string) :
  let chars := String.list_ascii_of_string v in
  let u := _smallest_repeating_unit chars in
  (∃ n, chars = repeat_text n u) ∧ ∀ n w, chars = repeat_text n w → length u ≤ length w.
Proof. intros cs u. apply unit_spec. Qed.
