(* ===== verification/Capability.v ===== *)
(** * Checkout capabilities

    [server/checkout_capability.py]: the token that proves ownership of a
    drawing's checkout, [HMAC(secret, tenant | subject | drawing | fence)], with
    the choice of the signing secret and its strength check.  The HMAC is a
    parameter; the environment variables and the random source of a call are
    arguments. *)

From S2P Require Import Prelude PyText TenantIds Manifest RepeatingUnit.
From Stdlib Require Import Ascii.
From Stdlib Require String.
Local Open Scope Z_scope.

Inductive cap_error :=
| CapabilityRejected      (** the caller cannot prove ownership: HTTP 403 *)
| CapabilityUnavailable.  (** the deployment cannot mint or verify: HTTP 503 *)

#[export] Instance cap_error_eq_dec : EqDecision cap_error.
Proof. solve_decision. Defined.

Definition _SCHEME : string := "lco1".
Definition _BINDING_VERSION : string := "leaf.checkout.capability.v1".
Definition unit_separator : ascii := "031"%char.
Definition _FIELD_SEP : string := String.String unit_separator String.EmptyString.
Definition _MIN_PRODUCTION_SECRET_BYTES : Z := 32.
Definition _MIN_PRODUCTION_SECRET_ENTROPY_BITS : Z := 128.
Definition _TRIAL_FENCE : Z := 0.

(** ** The strength of a secret *)

(** [str.islower], [isupper], [isdigit], [isalnum] of one Latin-1 character *)
Definition is_lower (c : ascii) : bool :=
  in_range 97 122 c || (code c =? 170) || (code c =? 181) || (code c =? 186) ||
  in_range 223 246 c || in_range 248 255 c.
Definition is_upper (c : ascii) : bool := in_range 65 90 c || in_range 192 214 c || in_range 216 222 c.
Definition is_digit_char (c : ascii) : bool := in_range 48 57 c || in_range 178 179 c || (code c =? 185).
Definition is_alnum (c : ascii) : bool :=
  is_lower c || is_upper c || is_digit_char c || in_range 188 190 c.

(** [str.casefold] of one character; the micro sign folds to a Greek letter
    outside the range, which no other character of the range folds to, so it is
    kept as it is *)
Definition casefold_char (c : ascii) : list ascii :=
  if code c =? 223 then chars "ss" else if is_upper c then [lower_char c] else [c].

Definition is_other (c : ascii) : bool := negb (is_lower c || is_upper c || is_digit_char c).

Definition pool (u : list ascii) : Z :=
  (if existsb is_lower u then 26 else 0) + (if existsb is_upper u then 26 else 0) +
  (if existsb is_digit_char u then 10 else 0) +
  Z.of_nat (size (list_to_set (filter (λ c, is_other c = true) u) : gset ascii)).

(** [len(unit) * log2(pool) >= 128], the comparison made on integers *)
Definition shape_suffices (shape : list ascii) : bool :=
  let u := _smallest_repeating_unit shape in
  (1 <? pool u) && (2 ^ _MIN_PRODUCTION_SECRET_ENTROPY_BITS <=? pool u ^ Z.of_nat (length u)).

(** the case-folded alphanumeric view *)
Definition compact (value : list ascii) : list ascii :=
  mjoin (casefold_char <$> filter (λ c, is_alnum c = true) value).

(** [_estimated_entropy_bits(value) >= 128]: the least of the estimates reaches it *)
Definition entropy_suffices (value : list ascii) : bool :=
  shape_suffices value &&
  (let c := compact value in
   bool_decide (c = []) || bool_decide (c = value) || shape_suffices c).

(** [len(value.encode("utf-8"))] *)
Definition utf8_length (value : list ascii) : Z :=
  foldr (λ c n, (if code c <? 128 then 1 else 2) + n) 0 value.

(** ** The signing secret *)

(** What a call reads of its surroundings. *)
Record cap_env := CapEnv {
  e_secret : option string;        (** LEAF_CHECKOUT_CAP_SECRET *)
  e_runtime : option string;       (** LEAF_RUNTIME_ENV *)
  e_auth_live : option string;     (** LEAF_AUTH_LIVE *)
  e_token_hex : string }.          (** the next [secrets.token_hex(32)] *)

Definition getenv (o : option string) (fallback : string) : string := default fallback o.

Definition _production_posture (env : cap_env) : bool :=
  bool_decide (lower (strip (getenv (e_runtime env) "")) = "production"%string).

Definition _AUTH_LIVE_ON : list string := ["1"; "true"; "yes"; "on"]%string.

Definition auth_live (env : cap_env) : bool :=
  bool_decide (lower (strip (getenv (e_auth_live env) "0")) ∈ _AUTH_LIVE_ON).

(** the state of a process: [_EPHEMERAL_SECRET] *)
Abbreviation cap := (io (option string) cap_error).

Definition _secret (env : cap_env) : cap string :=
  let configured := strip (getenv (e_secret env) "") in
  if negb (bool_decide (configured = ""%string)) then
    if _production_posture env then
      if utf8_length (chars configured) <? _MIN_PRODUCTION_SECRET_BYTES then raise CapabilityUnavailable
      else if negb (entropy_suffices (chars configured)) then raise CapabilityUnavailable
      else mret configured
    else mret configured
  else if _production_posture env then raise CapabilityUnavailable
  else λ ephemeral,
    match ephemeral with
    | Some s => (Ok s, ephemeral)
    | None => (Ok (e_token_hex env), Some (e_token_hex env))
    end.

(** ** Tokens *)

(** [TenantContext]: the tenant id, with the authenticated subject if any *)
Record tenant_context := TenantContext { tc_id : string; tc_subject : option string }.

Definition _subject_of (env : cap_env) (tenant : tenant_context) : result cap_error string :=
  match tc_subject tenant with
  | Some s => if negb (bool_decide (s = ""%string)) then Ok s
              else if auth_live env then Err CapabilityUnavailable else Ok ""%string
  | None => if auth_live env then Err CapabilityUnavailable else Ok ""%string
  end.

Definition binding (tenant_id subject drawing_id : string) (fence : Z) : string :=
  _BINDING_VERSION +:+ _FIELD_SEP +:+ tenant_id +:+ _FIELD_SEP +:+ subject +:+ _FIELD_SEP +:+
  drawing_id +:+ _FIELD_SEP +:+ of_chars (print_Z fence).

Section Tokens.
(** [hmac.new(key, message, sha256).hexdigest()] *)
Variable hmac : string → string → string.

Definition mint (env : cap_env) (tenant : tenant_context) (drawing_id : string) (fence : Z) : cap string :=
  subject ← lift (_subject_of env tenant);
  secret ← _secret env;
  mret (_SCHEME +:+ "." +:+ hmac secret (binding (tc_id tenant) subject drawing_id fence)).

Definition ensure_mintable (env : cap_env) (tenant : tenant_context) (drawing_id : string) : cap unit :=
  _ ← mint env tenant drawing_id _TRIAL_FENCE; mret tt.

(** [text_matches] of two texts *)
Definition text_matches (candidate current : string) : bool := bool_decide (candidate = current).

Definition verify (env : cap_env) (presented : option string) (tenant : tenant_context)
    (drawing_id : string) (co : option checkout) : cap (string * Z) :=
  match co ≫= λ c, f ← co_fence c; Some (co_holder c, f) with
  | None => raise CapabilityRejected
  | Some (holder, fence) =>
      match presented with
      | None => raise CapabilityRejected
      | Some p =>
          if bool_decide (p = ""%string) then raise CapabilityRejected else
          expected ← mint env tenant drawing_id fence;
          if negb (text_matches (strip p) expected) then raise CapabilityRejected
          else mret (holder, fence)
      end
  end.
End Tokens.

(** ** What a token binds *)

Lemma app_sep_inj_r {A} (c : A) (a1 b1 a2 b2 : list A) :
  c ∉ b1 → c ∉ b2 → a1 ++ c :: b1 = a2 ++ c :: b2 → a1 = a2 ∧ b1 = b2.
Proof.
  intros H1 H2 H%(f_equal reverse). rewrite !reverse_app, !reverse_cons, <- !app_assoc in H.
  apply app_sep_inj in H as [Hb Ha]; [|by rewrite elem_of_reverse..].
  split; by apply (inj reverse).
Qed.

Lemma print_Z_no_sep z : unit_separator ∉ print_Z z.
Proof.
  assert (Hn : ∀ n, 0 <= n → unit_separator ∉ print_nat n).
  { intros n Hn Hin. pose proof (print_nat_digits n Hn) as Hd. rewrite Forall_forall in Hd.
    apply Hd in Hin. by vm_compute in Hin. }
  unfold print_Z. destruct (Z.ltb_spec z 0); [|by apply Hn].
  intros [Heq|Hin]%elem_of_cons; [by vm_compute in Heq|]. by apply Hn in Hin; [|lia].
Qed.

(** The text that is signed determines what it was made of, whatever the subject
    contains, when tenant and drawing id contain no separator. *)
Lemma binding_inj t s d f t' s' d' f' :
  unit_separator ∉ chars t → unit_separator ∉ chars t' →
  unit_separator ∉ chars d → unit_separator ∉ chars d' →
  binding t s d f = binding t' s' d' f' → t = t' ∧ s = s' ∧ d = d' ∧ f = f'.
Proof.
  intros Ht Ht' Hd Hd' H%(f_equal chars). unfold binding in H. rewrite !chars_app, !chars_of_chars in H.
  apply app_inv_head in H. change (chars _FIELD_SEP) with [unit_separator] in H.
  cbn [app] in H. injection H as H.
  apply app_sep_inj in H as [->%chars_inj H]; [|done..].
  change (?a ++ unit_separator :: ?b ++ unit_separator :: ?c) with (a ++ unit_separator :: (b ++ unit_separator :: c)) in H.
  rewrite !app_comm_cons, !app_assoc in H.
  apply app_sep_inj_r in H as [H Hf%print_Z_inj]; [|apply print_Z_no_sep..].
  rewrite <- ?app_assoc, <- ?app_comm_cons in H.
  apply app_sep_inj_r in H as [->%chars_inj ->%chars_inj]; done.
Qed.

Lemma strip_id l :
  (∀ c, head l = Some c → is_space c = false) → (∀ c, last l = Some c → is_space c = false) →
  strip_chars l = l.
Proof.
  intros Hh Hl. unfold strip_chars.
  assert (Hd : ∀ l : list ascii, (∀ c, head l = Some c → is_space c = false) → drop_space l = l).
  { intros [|c l'] H; [done|]. simpl. by rewrite (H c). }
  rewrite (Hd l) by done. rewrite (Hd (reverse l)); [by rewrite reverse_involutive|].
  intros c. rewrite head_reverse. apply Hl.
Qed.

Section Binding.
Variable hmac : string → string → string.
Hypothesis hmac_hex : ∀ k m, forallb is_hex_lower (chars (hmac k m)) = true.

Lemma hex_not_space c : is_hex_lower c = true → is_space c = false.
Proof.
  unfold is_hex_lower, is_space, is_digit, in_range. intros H. bool_prop.
  pose proof (code_range c). lia.
Qed.

Lemma token_strip k m : strip (_SCHEME +:+ "." +:+ hmac k m) = _SCHEME +:+ "." +:+ hmac k m.
Proof.
  unfold strip. rewrite strip_id; [apply of_chars_chars| |]; rewrite !chars_app.
  - by intros c [= <-].
  - intros c Hc. rewrite app_assoc, last_app in Hc. destruct (last (chars (hmac k m))) eqn:E.
    + injection Hc as <-. apply hex_not_space. eapply forallb_forall; [apply (hmac_hex k m)|].
      apply list_elem_of_In. apply last_Some in E as [l ->]. set_solver.
    + by injection Hc as <-.
Qed.

Lemma token_inj k m m' : _SCHEME +:+ "." +:+ hmac k m = _SCHEME +:+ "." +:+ hmac k m' → hmac k m = hmac k m'.
Proof. intros H%(f_equal chars). rewrite !chars_app in H. by do 2 apply app_inv_head in H; apply chars_inj. Qed.

(** The secret of a process: reading it again, in the same surroundings, gives the
    same one. *)
Lemma secret_stable env st k st' : _secret env st = (Ok k, st') → _secret env st' = (Ok k, st').
Proof.
  unfold _secret. destruct (negb (bool_decide _)), (_production_posture env).
  - destruct (_ <? _); [done|]. destruct (negb _); [done|]. intros [= -> ->]. done.
  - intros [= -> ->]. done.
  - done.
  - destruct st; intros [= -> <-]; done.
Qed.

Lemma mint_Ok env t d f st tok st' :
  mint hmac env t d f st = (Ok tok, st') →
  ∃ s k, _subject_of env t = Ok s ∧ _secret env st = (Ok k, st') ∧
    tok = _SCHEME +:+ "." +:+ hmac k (binding (tc_id t) s d f).
Proof.
  intros H. apply io_bind_inv in H as (s & s0 & Hs & H). unfold lift in Hs.
  apply pair_eq in Hs as [Hs <-]. apply io_bind_inv in H as (k & s1 & Hk & H).
  apply pair_eq in H as [H <-]. apply (inj Ok) in H as <-. eauto.
Qed.

Lemma verify_Ok env p t d co st h f st' :
  verify hmac env p t d co st = (Ok (h, f), st') →
  ∃ c tok, co = Some c ∧ co_holder c = h ∧ co_fence c = Some f ∧
    mint hmac env t d f st = (Ok tok, st') ∧ (strip <$> p) = Some tok.
Proof.
  unfold verify. destruct co as [c|]; [|done]. simpl. destruct (co_fence c) as [f'|] eqn:Hf; [|done]. simpl.
  destruct p as [p|]; [|done]. case_bool_decide; [done|]. intros H'.
  apply io_bind_inv in H' as (tok & s1 & Hm & H'). unfold text_matches in H'.
  case_bool_decide as Heq; [|done]. apply pair_eq in H' as [H' <-]. apply (inj Ok) in H'. simplify_eq.
  exists c, (strip p). auto.
Qed.

(** The core of the binding theorem, for any two calls of one process. *)
Lemma accepted_token_is_bound env t d f t' d' co st tok st1 h f' st2 :
  unit_separator ∉ chars (tc_id t) → unit_separator ∉ chars (tc_id t') →
  unit_separator ∉ chars d → unit_separator ∉ chars d' →
  mint hmac env t d f st = (Ok tok, st1) →
  verify hmac env (Some tok) t' d' co st1 = (Ok (h, f'), st2) →
  ∃ s s' k, _subject_of env t = Ok s ∧ _subject_of env t' = Ok s' ∧
    (tc_id t' = tc_id t ∧ s' = s ∧ d' = d ∧ f' = f ∨
     binding (tc_id t) s d f ≠ binding (tc_id t') s' d' f' ∧
     hmac k (binding (tc_id t) s d f) = hmac k (binding (tc_id t') s' d' f')).
Proof.
  intros Ht Ht' Hd Hd' Hm Hv. apply mint_Ok in Hm as (s & k & Hs & Hk & ->).
  apply verify_Ok in Hv as (c & tok' & _ & _ & _ & Hm' & Hp).
  change (Some (strip (_SCHEME +:+ "." +:+ hmac k (binding (tc_id t) s d f))) = Some tok') in Hp.
  rewrite token_strip in Hp.
  apply mint_Ok in Hm' as (s' & k' & Hs' & Hk' & Htok).
  apply (inj Some) in Hp. rewrite Htok in Hp.
  apply secret_stable in Hk. rewrite Hk in Hk'. injection Hk' as <- _.
  exists s, s', k. do 2 (split; [done|]).
  destruct (decide (binding (tc_id t) s d f = binding (tc_id t') s' d' f')) as [Heq|Hne].
  - left. apply binding_inj in Heq as (-> & -> & -> & ->); done.
  - right. split; [done|]. exact (token_inj _ _ _ Hp).
Qed.

(** (C10) A capability opens only what it was minted for.  If a token minted for a
    tenant, an authenticated subject, a drawing and a lock generation is later
    accepted by the same process, then the verifying call names the same tenant,
    subject and drawing and the lock has that very generation; otherwise two
    different signed texts have the same HMAC under the process's secret. *)
Theorem capability_binds_lease env t d f t' d' co st tok st1 h f' st2 :
  unit_separator ∉ chars (tc_id t) → unit_separator ∉ chars (tc_id t') →
  unit_separator ∉ chars d → unit_separator ∉ chars d' →
  mint hmac env t d f st = (Ok tok, st1) →
  verify hmac env (Some tok) t' d' co st1 = (Ok (h, f'), st2) →
  ∃ s s' k, _subject_of env t = Ok s ∧ _subject_of env t' = Ok s' ∧
    (tc_id t' = tc_id t ∧ s' = s ∧ d' = d ∧ f' = f ∨
     binding (tc_id t) s d f ≠ binding (tc_id t') s' d' f' ∧
     hmac k (binding (tc_id t) s d f) = hmac k (binding (tc_id t') s' d' f')).
Proof. apply accepted_token_is_bound. Qed.
End Binding.

(** ** The production secret *)

Lemma pool_same u w : (∀ c, c ∈ u ↔ c ∈ w) → pool u = pool w.
Proof.
  intros H. assert (He : ∀ p, existsb p u = existsb p w).
  { intros p. apply eq_true_iff_eq. rewrite !existsb_exists. by setoid_rewrite <- list_elem_of_In; setoid_rewrite H. }
  unfold pool. rewrite !He. do 3 f_equal. apply leibniz_equiv_iff. intros c.
  rewrite !elem_of_list_to_set, !list_elem_of_filter. by rewrite H.
Qed.

Lemma elem_of_repeat {A} n (u : list A) x : x ∈ repeat_text n u ↔ 0 < Z.of_nat n ∧ x ∈ u.
Proof.
  induction n as [|n IH]; [simpl; split; [by intros ?%not_elem_of_nil|lia]|].
  unfold repeat_text in *. simpl. rewrite elem_of_app, IH. split; [|tauto].
  intros [?|[_ ?]]; (split; [lia|done]).
Qed.

Lemma shape_suffices_repeat value n w :
  value ≠ [] → shape_suffices value = true → value = repeat_text n w →
  2 ^ 128 <= pool w ^ Z.of_nat (length w).
Proof.
  intros Hne Hs Hw. unfold shape_suffices in Hs. bool_prop.
  pose proof (unit_spec value) as [[m Hm] Hmin]. set (u := _smallest_repeating_unit value) in *.
  assert (Hp : pool u = pool w).
  { apply pool_same. intros c. destruct value as [|x value]; [done|].
    assert (Hx : x ∈ repeat_text m u) by (rewrite <- Hm; left).
    assert (Hx' : x ∈ repeat_text n w) by (rewrite <- Hw; left).
    apply elem_of_repeat in Hx as [Hm0 _]. apply elem_of_repeat in Hx' as [Hn0 _].
    transitivity (c ∈ repeat_text m u); [rewrite elem_of_repeat; tauto|].
    rewrite <- Hm, Hw, elem_of_repeat. tauto. }
  rewrite Hp in *. etrans; [eassumption|]. apply Z.pow_le_mono_r; [lia|].
  specialize (Hmin n w Hw). lia.
Qed.

(** In production the signing secret fails closed.  A call that obtains a
    secret there uses the configured one, never the per-process fallback (the
    process state is untouched), and the secret has at least 32 bytes and 128
    bits by its estimate; in particular, if it is a shorter block pasted several
    times, that block alone already reaches 128 bits. *)
Theorem production_secret_is_strong env st k st' :
  _production_posture env = true → _secret env st = (Ok k, st') →
  k = strip (getenv (e_secret env) "") ∧ st' = st ∧ 32 <= utf8_length (chars k) ∧
  entropy_suffices (chars k) = true ∧
  ∀ n w, chars k = repeat_text n w → 2 ^ 128 <= pool w ^ Z.of_nat (length w).
Proof.
  intros Hp. unfold _secret. rewrite Hp. case_bool_decide as He; cbn [negb]; [done|].
  destruct (Z.ltb_spec (utf8_length (chars (strip (getenv (e_secret env) "")))) _MIN_PRODUCTION_SECRET_BYTES) as [|Hlen]; [done|].
  destruct (entropy_suffices _) eqn:Hent; cbn [negb]; [|done]. intros [= <- <-].
  do 4 (split; [done|]). intros n w Hw. unfold entropy_suffices in Hent. apply andb_true_iff in Hent as [Hent _].
  eapply shape_suffices_repeat; [|exact Hent|exact Hw]. intros E. apply He. by apply chars_inj.
Qed.

(** ** Instances *)

(** A stand-in for the HMAC: the message in hexadecimal. *)
Definition hex_digit (n : Z) : ascii := ascii_of_N (Z.to_N (if n <? 10 then 48 + n else 87 + n)).
Definition demo_hmac (key message : string) : string :=
  of_chars (flat_map (λ c, [hex_digit (code c / 16); hex_digit (code c mod 16)]) (chars message)).

Lemma demo_hmac_hex k m : forallb is_hex_lower (chars (demo_hmac k m)) = true.
Proof.
  unfold demo_hmac. rewrite chars_of_chars. induction (chars m) as [|c l IH]; [done|].
  cbn [flat_map]. rewrite forallb_app. apply andb_true_intro. split; [|exact IH].
  by destruct c as [[] [] [] [] [] [] [] []].
Qed.

Definition demo_env : cap_env :=
  CapEnv (Some "kX3!vQ8zR2-mW7pT5_bN9cL4dH6gJ1fS"%string) (Some " Production "%string) (Some "1"%string) "".
Definition alice : tenant_context := TenantContext "acme" (Some "auth0|alice"%string).
Definition demo_lock : checkout := Checkout "alice" "2026-09-21T14:00:00+00:00" "2026-09-21T15:00:00+00:00" (Some 3).
Definition demo_token : string :=
  _SCHEME +:+ "." +:+ demo_hmac "" (binding "acme" "auth0|alice" "roof" 3).

Lemma capability_binds_lease_witness :
  ∃ s s' k, _subject_of demo_env alice = Ok s ∧ _subject_of demo_env alice = Ok s' ∧
    ("acme"%string = "acme"%string ∧ s' = s ∧ "roof"%string = "roof"%string ∧ 3 = 3 ∨
     binding "acme" s "roof" 3 ≠ binding "acme" s' "roof" 3 ∧
     demo_hmac k (binding "acme" s "roof" 3) = demo_hmac k (binding "acme" s' "roof" 3)).
Proof.
  apply (capability_binds_lease demo_hmac demo_hmac_hex demo_env alice "roof" 3 alice "roof" (Some demo_lock)
           None demo_token None "alice" 3 None).
  - apply (bool_decide_unpack _); vm_compute; exact I.
  - apply (bool_decide_unpack _); vm_compute; exact I.
  - apply (bool_decide_unpack _); vm_compute; exact I.
  - apply (bool_decide_unpack _); vm_compute; exact I.
  - vm_compute; reflexivity.
  - vm_compute; reflexivity.
Defined.

Lemma production_secret_is_strong_witness :
  "kX3!vQ8zR2-mW7pT5_bN9cL4dH6gJ1fS"%string = strip (getenv (e_secret demo_env) "") ∧
  2 ^ 128 <= pool (chars "kX3!vQ8zR2-mW7pT5_bN9cL4dH6gJ1fS") ^ 32.
Proof.
  assert (Hp : _production_posture demo_env = true) by (vm_compute; reflexivity).
  assert (Hs : _secret demo_env None = (Ok "kX3!vQ8zR2-mW7pT5_bN9cL4dH6gJ1fS"%string, None))
    by (vm_compute; reflexivity).
  split.
  - apply (production_secret_is_strong demo_env None _ None Hp Hs).
  - apply (production_secret_is_strong demo_env None _ None Hp Hs) with (n := 1%nat).
    vm_compute. reflexivity.
Defined.

(** A block of twelve characters pasted four times is long enough and refused. *)
Example pasted_block_refused :
  outcome (_secret (CapEnv (Some "correcthorseAcorrecthorseAcorrecthorseAcorrecthorseA"%string)
                      (Some "production"%string) None "")) None = Err CapabilityUnavailable.
Proof. vm_compute. reflexivity. Qed.
