(* ===== verification/AuthorQuota.v ===== *)
(** * The daily authoring quota

    [server/author_quota.py], its policy in [da/usage.py] and the counter it
    charges, [platform/counters.py]: one authoring attempt is charged per call,
    against a per-tenant counter keyed by the UTC day, in memory or in PostgreSQL;
    an attempt with an idempotency key is charged once.  A PostgreSQL call is one
    serializable transaction at a time; it works, or fails before or after its
    commit.

    Three readings of a clock take part, and they are three arguments: [now], which
    gives the UTC day of the attempt, [cut], the application's clock again when the
    transaction works out which rows are too old, and [dbnow], the database's
    [NOW()], which stamps the counter. *)

From stdpp Require Import sorting.
From Stdlib Require Import Ascii.
From S2P Require Import Prelude PyText IsoTime Capability.
Local Open Scope Z_scope.

(** ** Texts *)

(** [int(raw)] on a text: surrounding space, a sign, digits with single
    underscores between them. *)
Fixpoint int_digits (acc : Z) (last_digit : bool) (l : list ascii) : option Z :=
  match l with
  | [] => if last_digit then Some acc else None
  | c :: l' =>
      if is_digit c then int_digits (10 * acc + digit_val c) true l'
      else if (code c =? 95) && last_digit then int_digits acc false l'
      else None
  end.

Definition py_int (s : string) : option Z :=
  match strip_chars (chars s) with
  | c :: l => if code c =? 45 then Z.opp <$> int_digits 0 false l
              else if code c =? 43 then int_digits 0 false l
              else int_digits 0 false (c :: l)
  | [] => None
  end.

Definition blank (s : string) : bool := bool_decide (strip s = ""%string).

(** [moment.strftime("%Y-%m-%d")] of a day number *)
Definition day_text (day : Z) : list ascii :=
  let '(y, m, d) := civil_from_days day in
  zero_pad 4 y ++ hyphen :: zero_pad 2 m ++ hyphen :: zero_pad 2 d.

Definition day_of (now : instant) : Z := now / US_PER_DAY.
Definition author_quota_day (now : instant) : string := of_chars (day_text (day_of now)).

(** [LEAF_DAILY_AUTHOR_QUOTA]: off, or a limit; a typo is a limit of zero. *)
Definition daily_author_quota (raw : option string) : option Z :=
  match raw with
  | None => None
  | Some r => if blank r then None else
              match py_int r with Some v => if 0 <=? v then Some v else Some 0 | None => Some 0 end
  end.

(** ** Decisions and stores *)

Record decision := Decision_ {
  d_tenant : string; d_attempt : option string; d_counter : string; d_day : string;
  d_tier : string; d_limit : Z; d_accepted : bool; d_used : Z }.

#[export] Instance decision_eq_dec : EqDecision decision.
Proof. solve_decision. Defined.

Inductive quota_error :=
| StoreError                                  (** [AuthorQuotaStoreError] *)
| Exceeded (tier : string) (limit used : Z) (day : string).  (** [AuthorQuotaExceeded] *)

#[export] Instance quota_error_eq_dec : EqDecision quota_error.
Proof. solve_decision. Defined.

Definition counter_key (tenant day : string) : string := day +:+ ":" +:+ tenant.

(** A counter row: its value and [updated_at]. *)
Abbreviation counters := (gmap string (Z * instant)).
Abbreviation attempts := (gmap (string * string) decision).

Record qstate := QState {
  q_memory : gmap string Z; q_memory_attempts : attempts;
  q_pg : counters; q_pg_attempts : attempts }.

(** ** [SharedCounterStore.consume_in_transaction] *)

Record counter_result := CounterResult { c_accepted : bool; c_value : Z }.

(** The insert or update, and the second statement that reads the value when no
    row came back; [None]: [ValueError]. *)
Definition consume_in_transaction (t : counters) (key : string) (amount : Z) (limit : option Z) (dbnow : instant)
  : option (counter_result * counters) :=
  if blank key || (amount <? 1) || (match limit with Some l => l <? 0 | None => false end) then None else
  let fits v := match limit with None => true | Some l => v <=? l end in
  let current := match t !! key with Some (v, _) => v | None => 0 end in
  if fits amount && (bool_decide (t !! key = None) || fits (current + amount)) then
    Some (CounterResult true (current + amount), <[key := (current + amount, dbnow)]> t)
  else Some (CounterResult false current, t).

(** [_cleanup_old_counters]: at most a hundred of the expired rows, in the order
    the database lists them. *)
Definition _cleanup_old_counters (t : counters) (cut : instant) (retention : Z) (listing : list string) : counters :=
  let cutoff := cut - retention * US_PER_DAY in
  let expired k := match (t !! k : option (Z * instant)) with Some (_, u) => u <? cutoff | None => false end in
  foldr delete t (take 100 (List.filter expired listing)).

(** ** Charging *)

Inductive fate := Works | FailsBefore | FailsAfter.

(** The body of the transaction. *)
Definition consume (t : counters) (a : attempts) (tenant day tier : string) (limit : Z) (attempt : option string)
    (dbnow cut : instant) (retention : result quota_error Z) (listing : list string)
  : result quota_error decision * (counters * attempts) :=
  match attempt ≫= λ k, a !! (tenant, k) with
  | Some prior => (Ok prior, (t, a))
  | None =>
      match consume_in_transaction t (counter_key tenant day) 1 (Some limit) dbnow with
      | None => (Err StoreError, (t, a))
      | Some (r, t1) =>
          let d := Decision_ tenant attempt (counter_key tenant day) day tier limit (c_accepted r) (c_value r) in
          let a1 := match attempt with Some k => <[(tenant, k) := d]> a | None => a end in
          if c_accepted r then
            match retention with
            | Err e => (Err e, (t, a))   (* the transaction rolls back *)
            | Ok days => (Ok d, (_cleanup_old_counters t1 cut days listing, a1))
            end
          else (Ok d, (t1, a1))
      end
  end.

Definition _postgres_charge (f : fate) (tenant day tier : string) (limit : Z) (attempt : option string)
    (dbnow cut : instant) (retention : result quota_error Z) (listing : list string) : io qstate quota_error decision :=
  λ s, let '(r, (t, a)) := consume (q_pg s) (q_pg_attempts s) tenant day tier limit attempt dbnow cut retention listing in
       let s' := QState (q_memory s) (q_memory_attempts s) t a in
       match f with
       | Works => (r, s')
       | FailsBefore => (Err StoreError, s)
       | FailsAfter => (Err StoreError, s')
       end.

Definition _memory_charge (tenant day tier : string) (limit : Z) (attempt : option string)
  : io qstate quota_error decision :=
  λ s, match attempt ≫= λ k, q_memory_attempts s !! (tenant, k) with
       | Some prior => (Ok prior, s)
       | None =>
           let key := counter_key tenant day in
           let used := default 0 (q_memory s !! key) in
           let accepted := used + 1 <=? limit in
           let used' := if accepted then used + 1 else used in
           let m := if accepted then <[key := used']> (q_memory s) else q_memory s in
           let d := Decision_ tenant attempt key day tier limit accepted used' in
           let a := match attempt with Some k => <[(tenant, k) := d]> (q_memory_attempts s) | None => q_memory_attempts s end in
           (Ok d, QState m a (q_pg s) (q_pg_attempts s))
       end.

(** ** [enforce] *)

Record quota_env := QuotaEnv {
  qe_store : option string;       (** LEAF_AUTHOR_QUOTA_STORE *)
  qe_quota : option string;       (** LEAF_DAILY_AUTHOR_QUOTA *)
  qe_runtime : option string;     (** LEAF_RUNTIME_ENV *)
  qe_auth_live : bool;            (** [deps.auth_live()], true when it raises *)
  qe_exempt : option string;      (** LEAF_AUTHOR_QUOTA_EXEMPT_TENANTS *)
  qe_retention : option string;   (** LEAF_AUTHOR_QUOTA_RETENTION_DAYS *)
  qe_policy : bool }.             (** the policy module loads *)

Definition store_mode (e : quota_env) : result quota_error bool :=
  let mode := lower (strip (default "memory"%string (qe_store e))) in
  if bool_decide (mode = "memory"%string) then Ok false
  else if bool_decide (mode = "postgres"%string) then Ok true else Err StoreError.

Definition retention_days (e : quota_env) : result quota_error Z :=
  match py_int (default "8"%string (qe_retention e)) with
  | None => Err StoreError
  | Some d => if (2 <=? d) && (d <=? 366) then Ok d else Err StoreError
  end.

Definition _LOCAL_POSTURES : list string := ["development"; "test"; "local"]%string.

Definition durability_required (e : quota_env) : bool :=
  let posture := lower (strip (default ""%string (qe_runtime e))) in
  if negb (bool_decide (posture ∈ _LOCAL_POSTURES)) then true else qe_auth_live e.

Definition comma : ascii := ","%char.
Definition exempt_tenants (e : quota_env) : list string :=
  take 32 (List.filter (λ s, negb (bool_decide (s = ""%string)))
    ((λ seg, strip (of_chars seg)) <$> TenantIds.Keys.split_at comma (chars (default ""%string (qe_exempt e))))).

Definition lookup_attempt (e : quota_env) (f : fate) (tenant key : string) : io qstate quota_error (option decision) :=
  λ s, match store_mode e with
       | Err err => (Err err, s)
       | Ok true => (match f with Works => Ok (q_pg_attempts s !! (tenant, key)) | _ => Err StoreError end, s)
       | Ok false => (Ok (q_memory_attempts s !! (tenant, key)), s)
       end.

Definition _charge_decision (e : quota_env) (f : fate) (tenant day tier : string) (limit : Z)
    (require_durable : bool) (attempt : option string) (dbnow cut : instant) (listing : list string)
  : io qstate quota_error decision :=
  mode ← lift (store_mode e);
  if require_durable && negb mode then raise StoreError else
  if (mode : bool) then _postgres_charge f tenant day tier limit attempt dbnow cut (retention_days e) listing
  else _memory_charge tenant day tier limit attempt.

Definition refuse_unless (d : decision) : result quota_error unit :=
  if d_accepted d then Ok tt else Err (Exceeded (d_tier d) (d_limit d) (d_used d) (d_day d)).

Definition enforce (e : quota_env) (f1 f2 : fate) (tenant tier : string) (now dbnow cut : instant) (attempt : option string)
    (listing : list string) : io qstate quota_error unit :=
  if bool_decide (tenant ∈ exempt_tenants e) then mret tt else
  let durable := durability_required e in
  prior ← match attempt with Some k => lookup_attempt e f1 tenant k | None => mret None end;
  match prior with
  | Some d => lift (refuse_unless d)
  | None =>
      if negb (qe_policy e) then
        (if blank (default ""%string (qe_quota e)) then mret tt else raise StoreError)
      else match daily_author_quota (qe_quota e) with
           | None => mret tt
           | Some limit =>
               d ← _charge_decision e f2 tenant (author_quota_day now) tier limit durable attempt dbnow cut listing;
               lift (refuse_unless d)
           end
  end.

(** ** Counter keys *)

Definition in_days (d : Z) : Prop := -719162 <= d <= 2932896.

Lemma day_text_length d : in_days d → length (day_text d) = 10%nat.
Proof.
  intros Hd. unfold day_text. destruct (civil_from_days d) as [[y m] dd] eqn:E.
  apply civil_roundtrip in E as (_ & Hm & Hdd & Hy). specialize (Hy Hd).
  rewrite length_app. cbn [length]. rewrite length_app. cbn [length]. rewrite !zero_pad_length by (simpl; lia). done.
Qed.

Lemma day_text_inj d1 d2 : in_days d1 → in_days d2 → day_text d1 = day_text d2 → d1 = d2.
Proof.
  intros H1 H2. unfold day_text.
  destruct (civil_from_days d1) as [[y1 m1] dd1] eqn:E1, (civil_from_days d2) as [[y2 m2] dd2] eqn:E2.
  apply civil_roundtrip in E1 as (<- & Hm1 & Hd1 & Hy1), E2 as (<- & Hm2 & Hd2 & Hy2).
  specialize (Hy1 H1). specialize (Hy2 H2). intros H.
  apply app_inj_1 in H as [Hy H]; [|by rewrite !zero_pad_length by (simpl; lia)]. injection H as H.
  apply app_inj_1 in H as [Hm H]; [|by rewrite !zero_pad_length by (simpl; lia)]. injection H as H.
  apply zero_pad_inj in Hy, Hm, H; try lia. by subst.
Qed.

Lemma day_in_range now : in_datetime_range now = true → in_days (day_of now).
Proof. unfold in_datetime_range, MIN_US, MAX_US, in_days, day_of, US_PER_DAY, US_PER_S. intros H. bool_prop. lia. Qed.

(** The key of one tenant on one day. *)
Definition key_of (tenant : string) (day : Z) : string := counter_key tenant (of_chars (day_text day)).

Lemma key_of_inj t1 d1 t2 d2 : in_days d1 → in_days d2 → key_of t1 d1 = key_of t2 d2 → t1 = t2 ∧ d1 = d2.
Proof.
  intros H1 H2 H%(f_equal chars). unfold key_of, counter_key in H. rewrite !chars_app, !chars_of_chars in H.
  apply app_inj_1 in H as [Hd H]; [|by rewrite !day_text_length]. apply app_inv_head, chars_inj in H.
  split; [done|by apply day_text_inj].
Qed.

(** ** How often a tenant is admitted *)

(** The new attempt an answer admits; an answer replayed for an idempotency key
    admits none. *)
Definition new_admission (a : attempts) (tenant : string) (attempt : option string) (r : result quota_error decision)
  : option decision :=
  match r with
  | Ok d => if d_accepted d && bool_decide (attempt ≫= (λ k, a !! (tenant, k)) = None) then Some d else None
  | Err _ => None
  end.

(** The clocks of one charge: the database is at most half a day behind the
    application, and the transaction runs within half a day of the reading that gave
    the day. *)
Definition HALF_DAY : Z := US_PER_DAY / 2.
Definition clocks_close (now dbnow cut : instant) : Prop := now <= dbnow + HALF_DAY ∧ cut <= now + HALF_DAY.

(** The charges of a deployment, in the order their transactions ran, with the
    decisions that admitted a new attempt. *)
Inductive charged : instant → qstate → list decision → Prop :=
| ch_start now s : q_pg s = ∅ → charged now s []
| ch_charge now s ds now' dbnow cut e f tenant tier limit attempt listing r s' :
    charged now s ds → now <= now' → in_datetime_range now' = true → clocks_close now' dbnow cut →
    _postgres_charge f tenant (author_quota_day now') tier limit attempt dbnow cut (retention_days e) listing s = (r, s') →
    charged now' s' (option_list (new_admission (q_pg_attempts s) tenant attempt r) ++ ds).

Definition admitted (ds : list decision) (key : string) : list decision :=
  List.filter (λ d, bool_decide (d_counter d = key)) ds.

(** The counters account for the admissions, and are only dropped on later days. *)
Definition accounted (now : instant) (t : counters) (ds : list decision) : Prop :=
  ∀ tenant day, in_days day →
    match t !! key_of tenant day with
    | Some (v, u) => day * US_PER_DAY <= u + HALF_DAY ∧ Z.of_nat (length (admitted ds (key_of tenant day))) <= v
    | None => admitted ds (key_of tenant day) = [] ∨ day < day_of now
    end.

Lemma accounted_later now now' t ds : now <= now' → accounted now t ds → accounted now' t ds.
Proof.
  intros Hle HA tenant day Hd. specialize (HA tenant day Hd). destruct (t !! _) as [[v u]|]; [intuition lia|].
  assert (day_of now <= day_of now') by (unfold day_of; apply Z.div_le_mono; unfold US_PER_DAY, US_PER_S; lia).
  intuition lia.
Qed.

(** Dropping a row of an earlier day keeps the account. *)
Lemma accounted_delete now (t : counters) ds k :
  (∀ v (u : instant), t !! k = Some (v, u) → u + HALF_DAY < day_of now * US_PER_DAY) →
  accounted now t ds → accounted now (delete k t) ds.
Proof.
  intros Hk HA tenant day Hd. specialize (HA tenant day Hd).
  destruct (decide (k = key_of tenant day)) as [->|Hne]; [|by rewrite lookup_delete_ne].
  rewrite lookup_delete_eq. destruct (t !! key_of tenant day) as [[v u]|] eqn:E; [|done].
  right. destruct HA as (Hu & _). specialize (Hk v u eq_refl). unfold US_PER_DAY, US_PER_S in *. lia.
Qed.

Lemma accounted_drop now (t : counters) ds ks :
  (∀ k v (u : instant), k ∈ ks → t !! k = Some (v, u) → u + HALF_DAY < day_of now * US_PER_DAY) →
  accounted now t ds → accounted now (foldr delete t ks) ds.
Proof.
  intros Hks HA. induction ks as [|k ks IH]; [done|]. cbn [foldr].
  apply accounted_delete; [|apply IH; intros; eapply Hks; [by right|done]].
  intros v u Hvu. apply (Hks k v u); [left|]. clear - Hvu.
  induction ks as [|k' ks IHks]; [done|]. cbn [foldr] in Hvu.
  apply lookup_delete_Some in Hvu as [_ Hvu]. auto.
Qed.

Lemma accounted_cleanup now cut t ds days listing :
  2 <= days → cut <= now + HALF_DAY → accounted now t ds → accounted now (_cleanup_old_counters t cut days listing) ds.
Proof.
  intros Hdays Hcut HA. apply accounted_drop; [|done]. intros k v u Hk Hvu.
  apply elem_of_take in Hk as (i & Hi & _). apply list_elem_of_lookup_2 in Hi.
  apply list_elem_of_In, filter_In in Hi as [_ Hi]. cbv beta zeta in Hi. rewrite Hvu in Hi. bool_prop.
  unfold HALF_DAY, day_of, US_PER_DAY, US_PER_S in *. lia.
Qed.

(** The counter statement: the account with one more admission, or unchanged. *)
Lemma accounted_consume now dbnow t ds tenant limit r t1 d :
  in_days (day_of now) → now <= dbnow + HALF_DAY → accounted now t ds →
  consume_in_transaction t (key_of tenant (day_of now)) 1 (Some limit) dbnow = Some (r, t1) →
  d_counter d = key_of tenant (day_of now) →
  accounted now t1 (if c_accepted r then d :: ds else ds) ∧
  (c_accepted r = true → Z.of_nat (length (admitted (d :: ds) (key_of tenant (day_of now)))) <= c_value r <= limit).
Proof.
  intros Hday Hdb HA. unfold consume_in_transaction. destruct (_ || _ || _); [done|]. set (key := key_of _ _).
  pose proof (HA tenant (day_of now) Hday) as Hk. fold key in Hk.
  destruct (_ && _) eqn:Hfit; intros [= <- <-] Hd; cbn [c_accepted c_value]; [|done].
  assert (Hn : Z.of_nat (length (admitted ds key)) <= match t !! key with Some (v, _) => v | None => 0 end).
  { destruct (t !! key) as [[v u]|]; [tauto|]. destruct Hk as [->|Hk]; simpl; lia. }
  assert (Hc : length (admitted (d :: ds) key) = S (length (admitted ds key))).
  { unfold admitted. cbn [List.filter]. by rewrite bool_decide_true. }
  split; [|intros _; rewrite Hc; bool_prop; destruct (t !! key) as [[v u]|]; bool_prop; naive_solver lia].
  intros t' d' Hd'. destruct (decide (key_of t' d' = key)) as [He|He].
  - pose proof He as (-> & ->)%key_of_inj; [|done|done]. fold key. rewrite lookup_insert_eq, Hc.
    split; [unfold day_of, US_PER_DAY, US_PER_S in *; lia|lia].
  - rewrite lookup_insert_ne by done. specialize (HA t' d' Hd').
    replace (admitted (d :: ds) (key_of t' d')) with (admitted ds (key_of t' d')); [done|].
    unfold admitted. cbn [List.filter]. by rewrite bool_decide_false by congruence.
Qed.

Lemma retention_two e days : retention_days e = Ok days → 2 <= days.
Proof. unfold retention_days. destruct (py_int _); [|done]. destruct (_ && _) eqn:E; [|done]. intros [= <-]. bool_prop. lia. Qed.

Lemma consume_accounted now dbnow cut t a e tenant tier limit attempt listing ds r t' a' :
  in_datetime_range now = true → clocks_close now dbnow cut → accounted now t ds →
  consume t a tenant (author_quota_day now) tier limit attempt dbnow cut (retention_days e) listing = (r, (t', a')) →
  match new_admission a tenant attempt r with
  | Some d => accounted now t' (d :: ds) ∧ d_counter d = key_of tenant (day_of now) ∧ d_limit d = limit ∧
              Z.of_nat (length (admitted (d :: ds) (d_counter d))) <= limit
  | None => accounted now t' ds
  end.
Proof.
  intros Hnow [Hdb Hcut] HA. unfold consume, new_admission.
  destruct (attempt ≫= _) as [prior|] eqn:Hp.
  { intros [= <- <- <-]. by rewrite bool_decide_false, andb_false_r by done. }
  rewrite bool_decide_true by done.
  change (counter_key tenant (author_quota_day now)) with (key_of tenant (day_of now)).
  destruct (consume_in_transaction _ _ _ _ _) as [[c t1]|] eqn:Hc; [|by intros [= <- <- <-]].
  eapply (accounted_consume _ _ _ _ _ _ _ _ (Decision_ tenant attempt (key_of tenant (day_of now)) _ tier limit _ _)) in Hc
    as [H1 H2]; [|by apply day_in_range|exact Hdb|exact HA|reflexivity].
  destruct (c_accepted c) eqn:Hacc; [|intros [= <- <- <-]; exact H1].
  destruct (retention_days e) as [days|] eqn:Hr; intros [= <- <- <-]; [|done]. cbn [d_accepted d_counter d_limit andb].
  repeat split; [eapply accounted_cleanup; [by eapply retention_two|done..]|]. specialize (H2 eq_refl). lia.
Qed.

Lemma accounted_fewer now t d ds : accounted now t (d :: ds) → accounted now t ds.
Proof.
  intros HA tenant day Hd. specialize (HA tenant day Hd). revert HA. unfold admitted. cbn [List.filter].
  destruct (bool_decide _); [|done]. destruct (t !! _) as [[v u]|]; cbn [length]; [intuition lia|].
  intros [|]; [done|by right].
Qed.

(** The account, and the bound, of every run of charges. *)
Lemma charged_accounted now s ds :
  charged now s ds →
  accounted now (q_pg s) ds ∧
  ∀ d ds1 ds2, ds = ds1 ++ d :: ds2 → Z.of_nat (length (admitted (d :: ds2) (d_counter d))) <= d_limit d.
Proof.
  induction 1 as [now s Hs|now s ds now' dbnow cut e f tenant tier limit attempt listing r s' _ [HA HB] Hle Hr Hclose Hc].
  { split; [|by intros ? []]. intros tenant day _. rewrite Hs, lookup_empty. by left. }
  apply (accounted_later _ _ _ _ Hle) in HA. unfold _postgres_charge in Hc.
  destruct (consume _ _ _ _ _ _ _ _ _ _ _) as [r1 [t a]] eqn:Hcons.
  eapply consume_accounted in Hcons; [|done..].
  destruct f; injection Hc as <- <-; cbn [q_pg]; [|done|].
  - destruct (new_admission _ _ _ _) as [d|]; cbn [option_list app]; [|done]. destruct Hcons as (H1 & H2 & H3 & H4).
    split; [done|]. intros d' [|d1 ds1] ds2 [= -> ->]; [by rewrite H3|by eapply HB].
  - split; [|done]. destruct (new_admission _ _ _ _) as [d|]; [|done]. eapply accounted_fewer, Hcons.
Qed.

(** The newest admission of a counter. *)
Lemma newest_admitted ds key :
  admitted ds key = [] ∨
  ∃ d ds1 ds2, ds = ds1 ++ d :: ds2 ∧ d_counter d = key ∧ admitted ds key = admitted (d :: ds2) key.
Proof.
  induction ds as [|d ds IH]; [by left|]. destruct (decide (d_counter d = key)) as [He|He].
  { right. by exists d, [], ds. }
  assert (Hs : admitted (d :: ds) key = admitted ds key).
  { unfold admitted. cbn [List.filter]. by rewrite bool_decide_false. }
  rewrite Hs. destruct IH as [?|(d' & ds1 & ds2 & -> & ? & ?)]; [by left|]. right. by exists d', (d :: ds1), ds2.
Qed.

(** Whatever the order of the charges, whatever the tiers, the retries, the
    lost answers and the clean-ups in between, the authoring attempts a tenant is
    admitted on one UTC day never exceed the quota, while the application's clock
    does not run backwards and the clocks of each charge are close. *)
Theorem author_quota_bounds_attempts now s ds tenant day limit :
  charged now s ds →
  (∀ d, In d (admitted ds (key_of tenant day)) → d_limit d <= limit) → 0 <= limit →
  Z.of_nat (length (admitted ds (key_of tenant day))) <= limit.
Proof.
  intros [_ HB]%charged_accounted Hl H0.
  destruct (newest_admitted ds (key_of tenant day)) as [->|(d & ds1 & ds2 & -> & Hd & ->)]; [done|].
  specialize (HB _ _ _ eq_refl). rewrite Hd in HB. specialize (Hl d).
  assert (d_limit d <= limit); [|lia]. apply Hl. apply filter_In. split; [|by rewrite Hd, bool_decide_true].
  apply in_or_app. right. by left.
Qed.

(** ** The two stores agree *)

(** On the counters of a day, and on every attempt. *)
Definition stores_agree (day : Z) (s : qstate) : Prop :=
  q_memory_attempts s = q_pg_attempts s ∧
  ∀ tenant, match q_pg s !! key_of tenant day with
            | Some (v, u) => q_memory s !! key_of tenant day = Some v ∧ 0 <= v ∧ day * US_PER_DAY <= u + HALF_DAY
            | None => q_memory s !! key_of tenant day = None
            end.

Definition both_charged (tenant tier : string) (limit : Z) (attempt : option string) (now dbnow cut : instant)
    (retention : result quota_error Z) (listing : list string) (s : qstate)
  : result quota_error decision * result quota_error decision * qstate :=
  let '(m, s1) := _memory_charge tenant (author_quota_day now) tier limit attempt s in
  let '(p, s2) := _postgres_charge Works tenant (author_quota_day now) tier limit attempt dbnow cut retention listing s1 in
  (m, p, s2).

Lemma drop_space_keeps l c : c ∈ l → is_space c = false → c ∈ drop_space l.
Proof.
  induction l as [|x l IH]; [done|]. simpl. intros Hc Hs. destruct (is_space x) eqn:Hx; [|done].
  apply list_elem_of_In in Hc as [->|Hc]; [congruence|]. apply IH; [by apply list_elem_of_In|done].
Qed.

Lemma key_not_blank tenant day : blank (counter_key tenant day) = false.
Proof.
  apply bool_decide_false. unfold strip. intros H%(f_equal chars). rewrite chars_of_chars in H.
  assert (Hc : ":"%char ∈ strip_chars (chars (counter_key tenant day))); [|rewrite H in Hc; by apply not_elem_of_nil in Hc].
  unfold strip_chars. apply elem_of_reverse, drop_space_keeps; [|done].
  apply elem_of_reverse, drop_space_keeps; [|done]. unfold counter_key. rewrite !chars_app. set_solver.
Qed.

(** The clean-up leaves the rows that are less than two days old. *)
Lemma cleanup_keeps (t : counters) cut days listing k v (u : instant) :
  2 <= days → t !! k = Some (v, u) → cut <= u + 2 * US_PER_DAY →
  _cleanup_old_counters t cut days listing !! k = Some (v, u).
Proof.
  intros Hdays Hk Hu. unfold _cleanup_old_counters. set (victims := take 100 _).
  assert (Hv : k ∉ victims).
  { intros H. apply elem_of_take in H as (i & Hi & _). apply list_elem_of_lookup_2 in Hi.
    apply list_elem_of_In, filter_In in Hi as [_ Hi]. cbv beta zeta in Hi. rewrite Hk in Hi. bool_prop.
    unfold US_PER_DAY, US_PER_S in *. lia. }
  clearbody victims. induction victims as [|k' ks IH]; [done|]. cbn [foldr].
  apply not_elem_of_cons in Hv as [? ?]. rewrite lookup_delete_ne by done. auto.
Qed.

Lemma cleanup_adds_none t now days listing k :
  t !! k = None → _cleanup_old_counters t now days listing !! k = None.
Proof.
  intros Hk. unfold _cleanup_old_counters. induction (take 100 _) as [|k' ks IH]; [done|]. cbn [foldr].
  by apply lookup_delete_None; right.
Qed.

(** What both stores decide on a counter whose value is [v]. *)
Lemma consume_value t key limit now :
  blank key = false → 0 <= limit → 0 <= default 0 (fst <$> t !! key) →
  let used := default 0 (fst <$> t !! key) in
  consume_in_transaction t key 1 (Some limit) now =
    Some (if used + 1 <=? limit then (CounterResult true (used + 1), <[key := (used + 1, now)]> t)
          else (CounterResult false used, t)).
Proof.
  intros Hb Hl Hv used. unfold consume_in_transaction. rewrite Hb, (proj2 (Z.ltb_ge limit 0)) by done. simpl.
  replace (match t !! key with Some (v, _) => v | None => 0 end) with used by (subst used; by destruct (t !! key) as [[]|]).
  fold used in Hv. destruct (t !! key) as [[v u]|] eqn:Hk; simpl in used; subst used.
  - rewrite bool_decide_false by done. simpl.
    destruct (Z.leb_spec (v + 1) limit); [by rewrite (proj2 (Z.leb_le 1 limit)) by (simpl in *; lia)|].
    by rewrite andb_false_r.
  - rewrite bool_decide_true by done. rewrite orb_true_l, andb_true_r. change (0 + 1) with 1. by destruct (1 <=? limit).
Qed.

(** A row of the day of [now] is recent at the clean-up. *)
Lemma close_recent now cut u : cut <= now + HALF_DAY → day_of now * US_PER_DAY <= u + HALF_DAY → cut <= u + 2 * US_PER_DAY.
Proof. unfold HALF_DAY, day_of, US_PER_DAY, US_PER_S. lia. Qed.

Lemma stamp_recent now dbnow : now <= dbnow + HALF_DAY → day_of now * US_PER_DAY <= dbnow + HALF_DAY.
Proof. unfold HALF_DAY, day_of, US_PER_DAY, US_PER_S. lia. Qed.

Lemma agree_insert now dbnow cut t m a a' key v days listing tenant :
  clocks_close now dbnow cut → key = key_of tenant (day_of now) → 0 <= v → 2 <= days → a = a' →
  stores_agree (day_of now) (QState m a t a') →
  stores_agree (day_of now)
    (QState (<[key := v]> m) a (_cleanup_old_counters (<[key := (v, dbnow)]> t) cut days listing) a').
Proof.
  intros [Hdb%stamp_recent Hcut] -> Hv Hdays -> [_ Hag]. split; [done|]. intros tenant'. cbn in *. specialize (Hag tenant').
  destruct (decide (key_of tenant' (day_of now) = key_of tenant (day_of now))) as [He|He].
  - rewrite He in *. rewrite lookup_insert_eq. erewrite cleanup_keeps; [done|done|by rewrite lookup_insert_eq|by eapply close_recent].
  - rewrite lookup_insert_ne by done. destruct (t !! _) as [[v' u]|] eqn:Ht.
    + rewrite (cleanup_keeps _ _ _ _ _ v' u); [done|done|by rewrite lookup_insert_ne by done|eapply close_recent; [done|tauto]].
    + rewrite cleanup_adds_none; [done|by rewrite lookup_insert_ne by done].
Qed.

(** (C37) The per-process counter and the PostgreSQL counter decide alike: from
    stores that agree on today, the same charge gets the same decision from
    both and leaves them agreeing, whatever rows the clean-up drops.  The retention
    setting is valid, the database answers, and its clock is at most half a day
    behind the application's. *)
Theorem memory_charge_is_postgres_charge e tenant tier limit attempt now dbnow cut days listing s :
  clocks_close now dbnow cut → 0 <= limit → retention_days e = Ok days → stores_agree (day_of now) s →
  let '(m, p, s') := both_charged tenant tier limit attempt now dbnow cut (retention_days e) listing s in
  m = p ∧ stores_agree (day_of now) s'.
Proof.
  intros Hclose Hl Hd Hag. rewrite Hd. apply retention_two in Hd.
  destruct s as [m a t a']. pose proof Hag as [Ha Hag']. cbn in Ha. subst a'.
  unfold both_charged, _memory_charge, _postgres_charge, consume. cbn [q_memory_attempts q_pg_attempts q_memory q_pg].
  destruct (attempt ≫= _) as [prior|] eqn:Hp.
  { cbn [q_memory_attempts q_pg_attempts q_memory q_pg]. by rewrite Hp. }
  cbn [q_memory_attempts q_pg_attempts q_memory q_pg]. rewrite Hp.
  change (counter_key tenant (author_quota_day now)) with (key_of tenant (day_of now)).
  specialize (Hag' tenant). cbn in Hag'. set (key := key_of tenant (day_of now)) in *.
  assert (Hu : m !! key = fst <$> t !! key ∧ 0 <= default 0 (fst <$> t !! key)).
  { destruct (t !! key) as [[v u]|]; simpl; intuition (congruence || lia). }
  destruct Hu as [Hu H0]. rewrite consume_value by (done || apply key_not_blank). rewrite Hu.
  destruct (Z.leb_spec (default 0 (fst <$> t !! key) + 1) limit); cbn [c_accepted c_value]; (split; [done|]).
  - eapply agree_insert; [done|done|lia|done|done|]. split; [done|apply Hag].
  - split; [done|apply Hag].
Qed.

(** ** Nothing is admitted unmetered *)

(** The value of a tenant's counter in the store in use. *)
Definition spent (postgres : bool) (s : qstate) (key : string) : Z :=
  if postgres then default 0 (fst <$> q_pg s !! key) else default 0 (q_memory s !! key).

Definition recorded (postgres : bool) (s : qstate) : attempts :=
  if postgres then q_pg_attempts s else q_memory_attempts s.

Lemma charge_spends e f tenant now dbnow cut tier limit durable attempt listing s d s' mode :
  clocks_close now dbnow cut → store_mode e = Ok mode → attempt ≫= (λ k, recorded mode s !! (tenant, k)) = None →
  _charge_decision e f tenant (author_quota_day now) tier limit durable attempt dbnow cut listing s = (Ok d, s') →
  d_accepted d = true →
  let key := key_of tenant (day_of now) in
  (durable = true → mode = true) ∧ spent mode s' key = spent mode s key + 1 ∧ spent mode s' key <= limit.
Proof.
  intros [Hdb%stamp_recent Hcut] Hm Hno. unfold _charge_decision, mbind, io_mbind, lift. rewrite Hm.
  destruct mode; cbn [negb andb]; rewrite ?andb_false_r, ?andb_true_r; simpl in Hno.
  - unfold _postgres_charge. destruct (consume _ _ _ _ _ _ _ _ _ _ _) as [r [t a]] eqn:Hc. destruct f; [|done..].
    intros [= -> <-]. revert Hc. unfold consume. rewrite Hno.
    change (counter_key tenant (author_quota_day now)) with (key_of tenant (day_of now)). set (key := key_of _ _).
    unfold consume_in_transaction. destruct (_ || _ || _); [done|].
    destruct (_ && _) eqn:Hfit; cbn [c_accepted c_value]; [|by intros [= <- <- <-]].
    destruct (retention_days e) as [days|] eqn:Hr; [|done]. intros [= <- <- <-] _. apply retention_two in Hr.
    unfold spent. cbn [q_pg]. erewrite cleanup_keeps; [|done|apply lookup_insert_eq|by eapply close_recent].
    split; [done|]. bool_prop. destruct (q_pg s !! key) as [[v u]|]; simpl in *; bool_prop; naive_solver lia.
  - destruct durable; [done|]. unfold _memory_charge. rewrite Hno. intros [= <- <-] Hacc. cbn in Hacc.
    split; [done|]. unfold spent. cbn [q_memory]. rewrite Hacc, lookup_insert_eq. simpl. bool_prop. split; [done|exact Hacc].
Qed.

Lemma refuse_unless_Ok d : refuse_unless d = Ok tt → d_accepted d = true.
Proof. unfold refuse_unless. by destruct (d_accepted d). Qed.

Lemma lookup_attempt_Ok e f tenant k s o s' :
  lookup_attempt e f tenant k s = (Ok o, s') →
  s' = s ∧ ∃ mode, store_mode e = Ok mode ∧ o = recorded mode s !! (tenant, k).
Proof.
  unfold lookup_attempt. destruct (store_mode e) as [[]|]; [|intros [= <- <-]; split; [done|by exists false]|done].
  destruct f; [|done..]. intros [= <- <-]. split; [done|by exists true].
Qed.

(** (C35) The quota fails closed: an attempt goes ahead only for an exempt tenant,
    or where no quota is configured, or as the replay of an attempt that was
    admitted, or when the counter of the tenant and the UTC day went up by one
    and still fits the limit, in PostgreSQL wherever a per-process counter would
    not be a cap.  A mistyped quota, an unknown store, a store that cannot be
    reached and a policy that does not load admit nothing.  The database's clock is
    at most half a day behind the application's (a row stamped further back is dropped
    by the very transaction that wrote it: [slow_database_clock_forgets]). *)
Theorem quota_fails_closed e f1 f2 tenant tier now dbnow cut attempt listing s s' :
  clocks_close now dbnow cut →
  enforce e f1 f2 tenant tier now dbnow cut attempt listing s = (Ok tt, s') →
  tenant ∈ exempt_tenants e ∨
  blank (default ""%string (qe_quota e)) = true ∨
  (∃ k d mode, attempt = Some k ∧ store_mode e = Ok mode ∧ recorded mode s !! (tenant, k) = Some d ∧ d_accepted d = true) ∨
  (∃ limit mode, daily_author_quota (qe_quota e) = Some limit ∧ store_mode e = Ok mode ∧
     (durability_required e = true → mode = true) ∧
     let key := key_of tenant (day_of now) in
     spent mode s' key = spent mode s key + 1 ∧ spent mode s' key <= limit).
Proof.
  intros Hclose. unfold enforce. case_bool_decide as Hex; intros Hrun; [by left|]. right.
  apply io_bind_inv in Hrun as (prior & s1 & Hp & H).
  destruct prior as [d|].
  { destruct attempt as [k|]; [|done]. apply lookup_attempt_Ok in Hp as (-> & mode & Hm & Ho).
    injection H as Hr <-. apply refuse_unless_Ok in Hr. right. left. by exists k, d, mode. }
  assert (Hs : s1 = s ∧ ∀ mode, store_mode e = Ok mode → attempt ≫= (λ k, recorded mode s !! (tenant, k)) = None).
  { destruct attempt as [k|]; [|by injection Hp as <-]. apply lookup_attempt_Ok in Hp as (-> & mode & Hm & Ho).
    split; [done|]. intros mode' Hm'. rewrite Hm in Hm'. injection Hm' as <-. by simpl. }
  destruct Hs as [-> Hno]. destruct (qe_policy e); cbn [negb] in H.
  2:{ destruct (blank _); [by left|done]. }
  destruct (daily_author_quota (qe_quota e)) as [limit|] eqn:Hq.
  2:{ left. unfold daily_author_quota in Hq. destruct (qe_quota e) as [r|]; [|done]. simpl.
      destruct (blank r); [done|]. destruct (py_int r) as [v|]; [|done]. by destruct (0 <=? v). }
  apply io_bind_inv in H as (d & s2 & Hc & Ha). injection Ha as Hr <-. apply refuse_unless_Ok in Hr.
  destruct (store_mode e) as [mode|] eqn:Hm.
  - pose proof Hc as Hc'. eapply charge_spends in Hc' as (H1 & H2 & H3); [|done|done|by apply Hno|done].
    right. right. exists limit, mode. done.
  - unfold _charge_decision, mbind, io_mbind, lift in Hc. by rewrite Hm in Hc.
Qed.

(** ** Concrete charges *)

Definition demo_env : quota_env :=
  QuotaEnv (Some " Postgres ")%string (Some "2")%string (Some "production")%string true None (Some "8")%string true.
Definition demo_now : instant := 20000 * US_PER_DAY.
Lemma demo_close : clocks_close demo_now demo_now demo_now.
Proof. unfold clocks_close, HALF_DAY, US_PER_DAY, US_PER_S. lia. Qed.
Definition quiet : qstate := QState ∅ ∅ ∅ ∅.
Definition charge_once (attempt : option string) (s : qstate) : result quota_error decision * qstate :=
  _postgres_charge Works "acme" (author_quota_day demo_now) "pro" 2 attempt demo_now demo_now (retention_days demo_env) [] s.

(** Three attempts on a day of two: the third is refused, a replay is not charged. *)
Definition demo_run : qstate * list (result quota_error decision) :=
  let '(r1, s1) := charge_once (Some "k1"%string) quiet in
  let '(r2, s2) := charge_once (Some "k1"%string) s1 in
  let '(r3, s3) := charge_once None s2 in
  let '(r4, s4) := charge_once None s3 in (s4, [r1; r2; r3; r4]).

Example third_attempt_refused :
  (λ r, match r with Ok d => Some (d_accepted d, d_used d) | Err _ => None end) <$> snd demo_run =
  [Some (true, 1); Some (true, 1); Some (true, 2); Some (false, 2)].
Proof. vm_compute. reflexivity. Qed.

Example day_is_printed : author_quota_day demo_now = "2024-10-04"%string.
Proof. vm_compute. reflexivity. Qed.

(** A database whose clock is three days behind: the charge is admitted and its row
    dropped again, so the next one starts from nothing. *)
Example slow_database_clock_forgets :
  let key := counter_key "acme" (author_quota_day demo_now) in
  let '(r, s) := _postgres_charge Works "acme" (author_quota_day demo_now) "pro" 2 None
                   (demo_now - 3 * US_PER_DAY) demo_now (Ok 2) [key] quiet in
  (d_accepted <$> match r with Ok d => Some d | Err _ => None end) = Some true ∧ q_pg s !! key = None.
Proof. vm_compute. by split. Qed.

Lemma author_quota_bounds_attempts_witness :
  let '(r, s1) := charge_once None quiet in
  Z.of_nat (length (admitted (option_list (new_admission ∅ "acme" None r) ++ []) (key_of "acme" 20000))) <= 2.
Proof.
  apply (author_quota_bounds_attempts demo_now (snd (charge_once None quiet))); [|vm_compute|lia].
  - apply (ch_charge demo_now quiet [] demo_now demo_now demo_now demo_env Works "acme" "pro" 2 None []);
      [by apply ch_start|lia|vm_compute; reflexivity|apply demo_close|apply surjective_pairing].
  - intros d [<-|[]]. discriminate.
Defined.

Lemma memory_charge_is_postgres_charge_witness :
  let '(m, p, s') := both_charged "acme" "pro" 2 (Some "k1"%string) demo_now demo_now demo_now (retention_days demo_env) [] quiet in
  m = p ∧ stores_agree (day_of demo_now) s'.
Proof.
  apply (memory_charge_is_postgres_charge demo_env "acme" "pro" 2 (Some "k1"%string) demo_now demo_now demo_now 8 [] quiet);
    [apply demo_close|lia|vm_compute; reflexivity|].
  split; [done|]. intros tenant. done.
Defined.

Lemma quota_fails_closed_witness :
  let s' := snd (enforce demo_env Works Works "acme" "pro" demo_now demo_now demo_now None [] quiet) in
  "acme"%string ∈ exempt_tenants demo_env ∨
  blank (default ""%string (qe_quota demo_env)) = true ∨
  (∃ k d mode, None = Some k ∧ store_mode demo_env = Ok mode ∧ recorded mode quiet !! ("acme"%string, k) = Some d ∧ d_accepted d = true) ∨
  (∃ limit mode, daily_author_quota (qe_quota demo_env) = Some limit ∧ store_mode demo_env = Ok mode ∧
     (durability_required demo_env = true → mode = true) ∧
     let key := key_of "acme" (day_of demo_now) in
     spent mode s' key = spent mode quiet key + 1 ∧ spent mode s' key <= limit).
Proof.
  apply (quota_fails_closed demo_env Works Works "acme" "pro" demo_now demo_now demo_now None [] quiet);
    [apply demo_close|vm_compute; reflexivity].
Defined.
