(* ===== verification/Checkpoints.v ===== *)
(** * Session checkpoints and their mirror

    [server/checkpoints.py] with the mode selector of [server/session_annex.py]:
    checkpoint rows live in SQLite, in PostgreSQL, or in both while the annex is
    being moved.  A create in a dual-write mode is three transactions (the
    pre-check of the mirror, the legacy insert, the mirrored insert) between which
    other callers run; [step] executes one of them for one caller. *)

From stdpp Require Import sorting.
From Stdlib Require Import Ascii.
From Stdlib Require String.
From S2P Require Import Prelude PyText.
Local Open Scope Z_scope.

Inductive cp_error :=
| BadMode            (** an unknown [LEAF_SESSION_ANNEX_STORE] *)
| SchemaMissing
| MirrorFull         (** the mirror is at its cap while legacy is not *)
| ShadowMismatch
| Integrity          (** a primary key is taken *)
| Database.          (** any other failure of a PostgreSQL call *)

#[export] Instance cp_error_eq_dec : EqDecision cp_error.
Proof. solve_decision. Defined.

(** ** Modes *)

Inductive mode := Legacy | DualWrite | DualWriteShadow | Shadow | Postgres.

#[export] Instance mode_eq_dec : EqDecision mode.
Proof. solve_decision. Defined.

Definition STORE_MODES : list (string * mode) :=
  [("legacy", Legacy); ("dual_write", DualWrite); ("dual_write_shadow", DualWriteShadow);
   ("shadow", Shadow); ("postgres", Postgres)]%string.
Definition DUAL_WRITE_MODES (m : mode) : bool := bool_decide (m ∈ [DualWrite; DualWriteShadow]).
Definition SHADOW_READ_MODES (m : mode) : bool := bool_decide (m ∈ [Shadow; DualWriteShadow]).

Definition store_mode (env : option string) : result cp_error mode :=
  let value := lower (strip (default "legacy"%string env)) in
  from_opt (x ← list_find (λ kv, kv.1 = value) STORE_MODES; Some x.2.2) BadMode.

(** ** Tables *)

Record checkpoint := Checkpoint {
  cp_id : string; cp_session : string; cp_tenant : string; cp_drawing : string;
  cp_version : string; cp_seq : Z; cp_label : option string; cp_created : Z }.

#[export] Instance checkpoint_eq_dec : EqDecision checkpoint.
Proof. solve_decision. Defined.

(** Rows by primary key. *)
Abbreviation table := (gmap string checkpoint).

Definition CHECKPOINT_CAP : nat := 50.

Definition of_session (s : string) (t : table) : table := filter (λ kv, cp_session kv.2 = s) t.
Definition checkpoint_count (t : table) (session : string) : nat := size (of_session session t).

(** Both databases, and whether the PostgreSQL schema is there. *)
Record annex := Annex { a_legacy : table; a_pg : table; a_schema : bool }.

(** Count and insert in one critical section (the process's lock, or the advisory
    lock of the session); [admits] is the table's CHECK constraint. *)
Definition insert_capped (admits : checkpoint → bool) (t : table) (row : checkpoint)
  : result cp_error (option checkpoint) * table :=
  if bool_decide (CHECKPOINT_CAP ≤ checkpoint_count t (cp_session row))%nat then (Ok None, t)
  else if negb (admits row) then (Err Integrity, t)
  else match t !! cp_id row with
       | Some _ => (Err Integrity, t)
       | None => (Ok (Some row), <[cp_id row := row]> t)
       end.

Definition _legacy_create_checkpoint (row : checkpoint) : io annex cp_error (option checkpoint) :=
  λ a, let '(r, t) := insert_capped (λ _, true) (a_legacy a) row in (r, Annex t (a_pg a) (a_schema a)).

(** CHECK (transcript_seq >= 0) *)
Definition app_session_checkpoints (row : checkpoint) : bool := 0 <=? cp_seq row.

(** How a PostgreSQL call ends: it works, or it fails and its transaction took
    effect or did not (a connection lost during the commit). *)
Inductive pg_fate := Works | FailsBefore | FailsAfter.

Definition _pg_create_checkpoint (fate : pg_fate) (row : checkpoint) : io annex cp_error (option checkpoint) :=
  λ a, let '(r, t) := insert_capped app_session_checkpoints (a_pg a) row in
       match fate with
       | Works => (r, Annex (a_legacy a) t (a_schema a))
       | FailsBefore => (Err Database, a)
       | FailsAfter => (Err Database, Annex (a_legacy a) t (a_schema a))
       end.

(** ** Creating *)

Definition ensure_started : io annex cp_error unit :=
  λ a, (if a_schema a then Ok tt else Err SchemaMissing, a).

Definition _refuse_a_full_mirror (session : string) : io annex cp_error unit :=
  λ a, (if bool_decide (checkpoint_count (a_pg a) session < CHECKPOINT_CAP)%nat then Ok tt
        else if bool_decide (CHECKPOINT_CAP ≤ checkpoint_count (a_legacy a) session)%nat then Ok tt
        else Err MirrorFull, a).

(** The three transactions of a dual write.  The mirrored row carries the legacy
    row's id and time. *)
Definition precheck (row : checkpoint) : io annex cp_error unit :=
  _ ← ensure_started; _refuse_a_full_mirror (cp_session row).

Definition shadow_equal {A} `{EqDecision A} (legacy pg : A) : result cp_error unit :=
  guard_or (bool_decide (legacy = pg)) ShadowMismatch.

Definition mirror (fate : pg_fate) (m : mode) (legacy : checkpoint) : io annex cp_error checkpoint :=
  pg ← _pg_create_checkpoint fate legacy;
  match pg with
  | None => raise MirrorFull
  | Some pg =>
      _ ← lift (shadow_equal (cp_id legacy) (cp_id pg));
      _ ← (if SHADOW_READ_MODES m then lift (shadow_equal legacy pg) else mret tt);
      mret legacy
  end.

Definition create_checkpoint (m : mode) (fate : pg_fate) (row : checkpoint) : io annex cp_error (option checkpoint) :=
  if bool_decide (m = Postgres) then _pg_create_checkpoint fate row else
  _ ← (if DUAL_WRITE_MODES m then precheck row else mret tt);
  legacy ← _legacy_create_checkpoint row;
  match legacy with
  | None => mret None
  | Some row' =>
      if DUAL_WRITE_MODES m then _ ← mirror fate m row'; mret (Some row') else mret (Some row')
  end.

(** ** Reading *)

(** ORDER BY created_at ASC, checkpoint_id ASC; ids are UUID texts, which every
    collation orders as their characters *)
Definition row_le (a b : checkpoint) : Prop :=
  cp_created a < cp_created b ∨ cp_created a = cp_created b ∧ String.leb (cp_id a) (cp_id b) = true.

Definition select_list (t : table) (session tenant : string) : list checkpoint :=
  merge_sort row_le (filter (λ r, cp_session r = session ∧ cp_tenant r = tenant) (map_to_list t).*2).

Definition select_one (t : table) (session tenant id : string) : option checkpoint :=
  r ← t !! id; if bool_decide (cp_session r = session ∧ cp_tenant r = tenant) then Some r else None.

Definition list_checkpoints (m : mode) (session tenant : string) (a : annex) : result cp_error (list checkpoint) :=
  if bool_decide (m = Postgres) then Ok (select_list (a_pg a) session tenant) else
  let legacy := select_list (a_legacy a) session tenant in
  if SHADOW_READ_MODES m then
    _ ← shadow_equal legacy (select_list (a_pg a) session tenant); Ok legacy
  else Ok legacy.

Definition get_checkpoint (m : mode) (session tenant id : string) (a : annex) : result cp_error (option checkpoint) :=
  if bool_decide (m = Postgres) then Ok (select_one (a_pg a) session tenant id) else
  let legacy := select_one (a_legacy a) session tenant id in
  if SHADOW_READ_MODES m then
    _ ← shadow_equal legacy (select_one (a_pg a) session tenant id); Ok legacy
  else Ok legacy.

(** ** Concurrent callers of a dual write *)

Inductive pc :=
| PStart (row : checkpoint)                 (** entered [create_checkpoint] *)
| PFull (row : checkpoint)                  (** counted the mirror: at its cap *)
| PChecked (row : checkpoint)               (** passed [_refuse_a_full_mirror] *)
| PWritten (row : checkpoint)               (** the legacy insert is committed *)
| PReturned (r : option checkpoint)
| PRaised (written : option checkpoint).    (** with the legacy row it left, if any *)

Record sys := Sys { s_annex : annex; s_callers : gmap nat pc }.

(** Each transaction, as a function of the databases and the row. *)
Definition count_mirror (row : checkpoint) (a : annex) : pc :=
  if negb (a_schema a) then PRaised None
  else if bool_decide (checkpoint_count (a_pg a) (cp_session row) < CHECKPOINT_CAP)%nat then PChecked row
  else PFull row.
Definition count_legacy (row : checkpoint) (a : annex) : pc :=
  if bool_decide (CHECKPOINT_CAP ≤ checkpoint_count (a_legacy a) (cp_session row))%nat then PChecked row
  else PRaised None.
Definition after_legacy (r : result cp_error (option checkpoint)) : pc :=
  match r with
  | Ok None => PReturned None
  | Ok (Some row) => PWritten row
  | Err _ => PRaised None
  end.
Definition after_mirror (row : checkpoint) (r : result cp_error checkpoint) : pc :=
  match r with Ok row' => PReturned (Some row') | Err _ => PRaised (Some row) end.

Inductive step : sys → sys → Prop :=
| st_start a cs i row :
    cs !! i = None → step (Sys a cs) (Sys a (<[i := PStart row]> cs))
| st_count_mirror a cs i row :
    cs !! i = Some (PStart row) → step (Sys a cs) (Sys a (<[i := count_mirror row a]> cs))
| st_count_legacy a cs i row :
    cs !! i = Some (PFull row) → step (Sys a cs) (Sys a (<[i := count_legacy row a]> cs))
| st_legacy a cs i row :
    cs !! i = Some (PChecked row) →
    step (Sys a cs) (Sys (final (_legacy_create_checkpoint row) a)
                         (<[i := after_legacy (outcome (_legacy_create_checkpoint row) a)]> cs))
| st_mirror a cs i row fate m :
    cs !! i = Some (PWritten row) → DUAL_WRITE_MODES m = true →
    step (Sys a cs) (Sys (final (mirror fate m row) a)
                         (<[i := after_mirror row (outcome (mirror fate m row) a)]> cs)).

(** *** Counting *)

Lemma of_session_insert s (t : table) row :
  t !! cp_id row = None →
  checkpoint_count (<[cp_id row := row]> t) s =
  (checkpoint_count t s + if bool_decide (cp_session row = s) then 1 else 0)%nat.
Proof.
  intros Hn. unfold checkpoint_count, of_session. case_bool_decide as Hs.
  - rewrite map_filter_insert_True by done. rewrite map_size_insert_None; [lia|].
    apply map_lookup_filter_None. by left.
  - rewrite map_filter_insert_False by done. rewrite delete_id by done. lia.
Qed.

(** What [insert_capped] does to a table: nothing, or it adds the row below the
    cap. *)
Lemma insert_capped_spec admits t row r t' :
  insert_capped admits t row = (r, t') →
  (t' = t ∧ r ≠ Ok (Some row) ∧ ∀ row', r ≠ Ok (Some row')) ∨
  (t !! cp_id row = None ∧ t' = <[cp_id row := row]> t ∧ r = Ok (Some row) ∧
   (checkpoint_count t (cp_session row) < CHECKPOINT_CAP)%nat).
Proof.
  unfold insert_capped. case_bool_decide as Hc; [intros [= <- <-]; by left|].
  destruct (admits row); cbn [negb]; [|intros [= <- <-]; by left].
  destruct (t !! cp_id row) eqn:E; intros [= <- <-]; [by left|right]. do 3 (split; [done|]). lia.
Qed.

Definition capped (t : table) : Prop := ∀ s, (checkpoint_count t s ≤ CHECKPOINT_CAP)%nat.

Lemma insert_capped_keeps admits t row r t' : insert_capped admits t row = (r, t') → capped t → capped t'.
Proof.
  intros [(-> & _)|(Hn & -> & _ & Hlt)]%insert_capped_spec Hc s; [apply Hc|].
  rewrite of_session_insert by done. specialize (Hc s). case_bool_decide; subst; lia.
Qed.

Lemma mirror_final fate m row a :
  final (mirror fate m row) a = a ∨
  ∃ r t, insert_capped app_session_checkpoints (a_pg a) row = (r, t) ∧
    final (mirror fate m row) a = Annex (a_legacy a) t (a_schema a).
Proof.
  unfold mirror, final, mbind, io_mbind, _pg_create_checkpoint.
  destruct (insert_capped _ _ _) as [r t] eqn:E.
  destruct fate; [|by left|right; by eauto]. right. exists r, t. split; [done|].
  destruct r as [[pg|]|e]; try done. unfold lift. destruct (shadow_equal _ _); [|done].
  destruct (SHADOW_READ_MODES m); [|done]. by destruct (shadow_equal _ _).
Qed.

Lemma legacy_final row a :
  ∃ r t, insert_capped (λ _, true) (a_legacy a) row = (r, t) ∧
    outcome (_legacy_create_checkpoint row) a = r ∧
    final (_legacy_create_checkpoint row) a = Annex t (a_pg a) (a_schema a).
Proof. unfold outcome, final, _legacy_create_checkpoint. destruct (insert_capped _ _ _) as [r t]. eauto. Qed.

(** The cap holds under concurrency.  However many callers interleave their
    transactions, and however PostgreSQL calls fail, no session ever has more than
    50 checkpoints in either database. *)
Theorem checkpoint_cap_holds s s' :
  star step s s' → capped (a_legacy (s_annex s)) → capped (a_pg (s_annex s)) →
  capped (a_legacy (s_annex s')) ∧ capped (a_pg (s_annex s')).
Proof.
  intros Hs Hl Hp. refine (star_invariant step (λ s, capped (a_legacy (s_annex s)) ∧ capped (a_pg (s_annex s))) _ _ _ Hs _);
    [|done]. clear. intros x y [Hl Hp] Hstep. destruct Hstep; cbn [s_annex] in *; try done.
  - destruct (legacy_final row a) as (r & t & Hi & _ & ->). split; [by eapply insert_capped_keeps|done].
  - destruct (mirror_final fate m row a) as [->|(r & t & Hi & ->)]; [done|].
    split; [done|by eapply insert_capped_keeps].
Qed.

(** *** Mirroring *)

Lemma insert_capped_grows admits t row r t' : insert_capped admits t row = (r, t') → t ⊆ t'.
Proof. intros [(-> & _)|(Hn & -> & _)]%insert_capped_spec; [done|by apply insert_subseteq]. Qed.

Lemma insert_capped_new admits t row r t' id row' :
  insert_capped admits t row = (r, t') → t' !! id = Some row' → t !! id = Some row' ∨ id = cp_id row ∧ row' = row.
Proof.
  intros [(-> & _)|(Hn & -> & _)]%insert_capped_spec; [by left|].
  destruct (decide (id = cp_id row)) as [->|Hne].
  - rewrite lookup_insert_eq. intros [= <-]. by right.
  - rewrite lookup_insert_ne by done. by left.
Qed.

Lemma mirror_Ok fate m row a row' :
  outcome (mirror fate m row) a = Ok row' →
  row' = row ∧ a_pg (final (mirror fate m row) a) !! cp_id row = Some row.
Proof.
  unfold mirror, outcome, final, mbind, io_mbind, _pg_create_checkpoint.
  destruct (insert_capped _ _ _) as [r t] eqn:E. destruct fate; [|done..].
  apply insert_capped_spec in E as [(_ & _ & Hr)|(_ & -> & -> & _)].
  - destruct r as [[pg|]|e]; [by destruct (Hr pg)|done..].
  - unfold lift. destruct (shadow_equal _ _); [|done].
    destruct (SHADOW_READ_MODES m); [destruct (shadow_equal _ _); [|done]|];
      intros [= <-]; (split; [done|]; apply lookup_insert_eq).
Qed.

Lemma mirror_grows fate m row a :
  let a' := final (mirror fate m row) a in
  a_legacy a' = a_legacy a ∧ a_pg a ⊆ a_pg a' ∧
  ∀ id row', a_pg a' !! id = Some row' → a_pg a !! id = Some row' ∨ id = cp_id row ∧ row' = row.
Proof.
  intros a'. subst a'. destruct (mirror_final fate m row a) as [->|(r & t & Hi & ->)]; [by auto|].
  cbn [a_legacy a_pg]. split; [done|]. split; [by eapply insert_capped_grows|]. intros id row'. by eapply insert_capped_new.
Qed.

(** Who owes the mirror a row. *)
Definition owes (p : pc) (row : checkpoint) : Prop := p = PWritten row ∨ p = PRaised (Some row).

Record mirrored (l0 p0 : table) (s : sys) : Prop := {
  mi_owed i p row : s_callers s !! i = Some p → owes p row → a_legacy (s_annex s) !! cp_id row = Some row;
  mi_done i row : s_callers s !! i = Some (PReturned (Some row)) →
    a_legacy (s_annex s) !! cp_id row = Some row ∧ a_pg (s_annex s) !! cp_id row = Some row;
  mi_legacy id row : a_legacy (s_annex s) !! id = Some row →
    l0 !! id = Some row ∨ a_pg (s_annex s) !! id = Some row ∨
    id = cp_id row ∧ ∃ i p, s_callers s !! i = Some p ∧ owes p row;
  mi_pg id row : a_pg (s_annex s) !! id = Some row → p0 !! id = Some row ∨ a_legacy (s_annex s) !! id = Some row }.

(** A step of one caller that leaves the databases alone. *)
Lemma mirrored_quiet l0 p0 a cs i p :
  (∀ q row, cs !! i = Some q → ¬ owes q row) → (∀ row, ¬ owes p row ∧ p ≠ PReturned (Some row)) →
  mirrored l0 p0 (Sys a cs) → mirrored l0 p0 (Sys a (<[i := p]> cs)).
Proof.
  intros Hold Hnew [H1 H2 H3 H4]. split; cbn [s_annex s_callers] in *; [| | |done].
  - intros j q row [[<- <-]|[_ Hq]]%lookup_insert_Some Ho; [by destruct (Hnew row)|eauto].
  - intros j row [[<- ->]|[_ Hq]]%lookup_insert_Some; [by destruct (Hnew row)|eauto].
  - intros id row [?|[?|(Hid & j & q & Hq & Ho)]]%H3; [by left|by right; left|right; right].
    split; [done|]. exists j, q. split; [|done]. rewrite lookup_insert_ne; [done|]. intros <-. by eapply Hold.
Qed.

Lemma mirrored_write l0 p0 a cs i row :
  cs !! i = Some (PChecked row) → a_legacy a !! cp_id row = None →
  mirrored l0 p0 (Sys a cs) →
  mirrored l0 p0 (Sys (Annex (<[cp_id row := row]> (a_legacy a)) (a_pg a) (a_schema a)) (<[i := PWritten row]> cs)).
Proof.
  intros Hi Hn [H1 H2 H3 H4].
  assert (Hkeep : ∀ id r, a_legacy a !! id = Some r → <[cp_id row := row]> (a_legacy a) !! id = Some r).
  { intros id r Hr. rewrite lookup_insert_ne; [done|]. intros <-. congruence. }
  split; cbn [s_annex s_callers a_legacy a_pg] in *.
  - intros j q r [[<- <-]|[_ Hq]]%lookup_insert_Some Ho; [|by eapply Hkeep, H1].
    destruct Ho as [[= <-]|]; [|done]. apply lookup_insert_eq.
  - intros j r [[_ ?]|[_ Hq]]%lookup_insert_Some; [done|]. destruct (H2 _ _ Hq). auto.
  - intros id r [[<- <-]|[_ Hr]]%lookup_insert_Some.
    { right; right. split; [done|]. exists i, (PWritten row). split; [apply lookup_insert_eq|by left]. }
    destruct (H3 _ _ Hr) as [?|[?|(Hid & j & q & Hq & Ho)]]; [by left|by right; left|right; right].
    split; [done|]. exists j, q. split; [|done]. rewrite lookup_insert_ne; [done|]. intros <-.
    rewrite Hi in Hq. injection Hq as <-. by destruct Ho.
  - intros id r Hr. destruct (H4 _ _ Hr); auto.
Qed.

Lemma mirrored_mirror l0 p0 a cs i row fate m :
  cs !! i = Some (PWritten row) → mirrored l0 p0 (Sys a cs) →
  mirrored l0 p0 (Sys (final (mirror fate m row) a) (<[i := after_mirror row (outcome (mirror fate m row) a)]> cs)).
Proof.
  intros Hi [H1 H2 H3 H4]. cbn [s_annex s_callers] in *.
  pose proof (mirror_grows fate m row a) as (Hl & Hp & Hnew). pose proof (mirror_Ok fate m row a) as Hok.
  assert (Hrow : a_legacy a !! cp_id row = Some row) by (eapply H1; [exact Hi|by left]).
  set (a' := final (mirror fate m row) a) in *. clearbody a'.
  split; cbn [s_annex s_callers]; rewrite ?Hl.
  - intros j q r [[<- <-]|[_ Hq]]%lookup_insert_Some Ho; [|by eapply H1].
    destruct (outcome _ a) as [row'|e]; cbn [after_mirror] in Ho; [by destruct Ho|].
    destruct Ho as [|[= <-]]; done.
  - intros j r [[<- Hr]|[_ Hq]]%lookup_insert_Some.
    + destruct (outcome _ a) as [row'|e]; [|done]. injection Hr as ->. by destruct (Hok r eq_refl) as [-> ?].
    + destruct (H2 _ _ Hq). split; [done|]. by eapply lookup_weaken.
  - intros id r Hr. destruct (H3 _ _ Hr) as [?|[?|(-> & j & q & Hq & Ho)]];
      [by left|right; left; by eapply lookup_weaken|].
    destruct (decide (j = i)) as [->|Hne].
    + rewrite Hi in Hq. injection Hq as <-. destruct Ho as [[= ->]|]; [|done].
      destruct (outcome _ a) as [row'|e]; [right; left; by destruct (Hok row' eq_refl)|right; right].
      split; [done|]. exists i, (PRaised (Some r)). split; [apply lookup_insert_eq|by right].
    + right; right. split; [done|]. exists j, q. by rewrite lookup_insert_ne.
  - intros id r Hr. destruct (Hnew id r Hr) as [?|[-> ->]]; [by apply H4|by right].
Qed.

Lemma mirrored_step l0 p0 s s' : mirrored l0 p0 s → step s s' → mirrored l0 p0 s'.
Proof.
  intros HM Hstep. destruct Hstep as [a cs i row Hi|a cs i row Hi|a cs i row Hi|a cs i row Hi|a cs i row fate m Hi _].
  - apply mirrored_quiet; [congruence|by split; [intros [|]|]|done].
  - apply mirrored_quiet; [intros q row' Hq [|]; congruence| |done].
    intros row'. unfold count_mirror, owes.
    by destruct (a_schema a); cbn [negb]; [case_bool_decide|]; split; [intros [|]| |intros [|]| |intros [|]|].
  - apply mirrored_quiet; [intros q row' Hq [|]; congruence| |done].
    intros row'. unfold count_legacy, owes. by case_bool_decide; split; [intros [|]| |intros [|]|].
  - destruct (legacy_final row a) as (r & t & Hins & -> & ->).
    apply insert_capped_spec in Hins as [(-> & _ & Hr)|(Hn & -> & -> & _)]; [|by apply mirrored_write].
    replace (Annex (a_legacy a) (a_pg a) (a_schema a)) with a by (by destruct a).
    apply mirrored_quiet; [intros q row' Hq [|]; congruence| |done]. intros row'. unfold owes.
    destruct r as [[row''|]|e]; [by destruct (Hr row'')|by split; [intros [|]|]..].
  - by apply mirrored_mirror.
Qed.

(** Success means mirrored.  In the dual-write modes, however callers
    interleave and PostgreSQL fails: a create that returned a checkpoint left the
    same row in both databases for good; a legacy row written since the start that
    is not in PostgreSQL belongs to a caller that is still between its two inserts
    or has raised, at most one row per caller; and PostgreSQL gained only rows that
    legacy has. *)
Theorem created_checkpoints_are_mirrored a s :
  star step (Sys a ∅) s →
  (∀ i row, s_callers s !! i = Some (PReturned (Some row)) →
     a_legacy (s_annex s) !! cp_id row = Some row ∧ a_pg (s_annex s) !! cp_id row = Some row) ∧
  (∀ id row, a_legacy (s_annex s) !! id = Some row → a_legacy a !! id = Some row ∨
     a_pg (s_annex s) !! id = Some row ∨
     ∃ i, s_callers s !! i = Some (PWritten row) ∨ s_callers s !! i = Some (PRaised (Some row))) ∧
  (∀ id row, a_pg (s_annex s) !! id = Some row → a_pg a !! id = Some row ∨ a_legacy (s_annex s) !! id = Some row).
Proof.
  intros Hs.
  assert (HM : mirrored (a_legacy a) (a_pg a) s).
  { refine (star_invariant step _ _ _ (mirrored_step _ _) Hs _).
    split; cbn; [intros ???; by rewrite lookup_empty|intros ??; by rewrite lookup_empty|auto..]. }
  destruct HM as [H1 H2 H3 H4]. split; [exact H2|]. split; [|exact H4].
  intros id row [?|[?|(_ & i & p & Hp & [->| ->])]]%H3; eauto.
Qed.

(** *** A full mirror *)

Definition past_check (p : pc) (session : string) : Prop :=
  ∃ row, p = PChecked row ∧ cp_session row = session.

Lemma count_grows t t' s : t ⊆ t' → (checkpoint_count t s ≤ checkpoint_count t' s)%nat.
Proof.
  intros Hsub. apply map_subseteq_size. unfold of_session. apply map_subseteq_spec. intros id row.
  rewrite !map_lookup_filter_Some. intros [Hr ?]. split; [by eapply lookup_weaken|done].
Qed.

Record shut (session : string) (rows : table) (s : sys) : Prop := {
  sh_full : (CHECKPOINT_CAP ≤ checkpoint_count (a_pg (s_annex s)) session)%nat;
  sh_rows : of_session session (a_legacy (s_annex s)) = rows;
  sh_pc i p : s_callers s !! i = Some p → ¬ past_check p session }.

Lemma shut_caller session rows a cs i p :
  ¬ past_check p session → shut session rows (Sys a cs) → shut session rows (Sys a (<[i := p]> cs)).
Proof.
  intros Hp [H1 H2 H3]. split; [done..|]. cbn [s_callers] in *.
  intros j q [[_ <-]|[_ Hq]]%lookup_insert_Some; [done|eauto].
Qed.

Lemma shut_step session rows s s' :
  (size rows < CHECKPOINT_CAP)%nat → shut session rows s → step s s' → shut session rows s'.
Proof.
  intros Hlt HS Hstep. destruct Hstep as [a cs i row Hi|a cs i row Hi|a cs i row Hi|a cs i row Hi|a cs i row fate m Hi _].
  - apply shut_caller; [|done]. by intros (? & ? & _).
  - apply shut_caller; [|done]. intros (row' & Hp & Hs). unfold count_mirror in Hp.
    destruct (a_schema a); [|done]. cbn [negb] in Hp. case_bool_decide as Hc; [|done]. injection Hp as ->.
    destruct HS as [Hf _ _]. cbn in Hf. rewrite Hs in Hc. lia.
  - apply shut_caller; [|done]. intros (row' & Hp & Hs). unfold count_legacy in Hp.
    case_bool_decide as Hc; [|done]. injection Hp as ->.
    destruct HS as [_ Hr _]. cbn in Hr. rewrite Hs in Hc. unfold checkpoint_count in Hc. rewrite Hr in Hc. lia.
  - assert (Hs : cp_session row ≠ session) by (intros Hs; destruct HS as [_ _ H3]; apply (H3 _ _ Hi); by exists row).
    destruct (legacy_final row a) as (r & t & Hins & -> & ->).
    assert (Hpc : ¬ past_check (after_legacy r) session) by (intros (? & Hp & _); by destruct r as [[]|]).
    apply shut_caller; [done|]. destruct HS as [H1 H2 H3]. split; [done| |done]. cbn [s_annex a_legacy] in *.
    apply insert_capped_spec in Hins as [(-> & _)|(Hn & -> & _)]; [done|].
    unfold of_session in *. rewrite map_filter_insert_False by done. by rewrite delete_id.
  - pose proof (mirror_grows fate m row a) as (Hl & Hp & _).
    apply shut_caller; [intros (? & Hpc & _); by destruct (outcome _ a)|].
    destruct HS as [H1 H2 H3]. cbn [s_annex] in *. split; cbn [s_annex s_callers]; [|by rewrite Hl|done].
    etrans; [exact H1|by apply count_grows].
Qed.

(** A full mirror makes every retry a refusal.  Once a session's rows fill the
    mirror while legacy has room, and no caller is past the pre-check, no further
    caller, retry or not, adds a legacy row to the session. *)
Theorem full_mirror_stops_writes session s s' :
  (CHECKPOINT_CAP ≤ checkpoint_count (a_pg (s_annex s)) session)%nat →
  (checkpoint_count (a_legacy (s_annex s)) session < CHECKPOINT_CAP)%nat →
  (∀ i row, s_callers s !! i = Some (PChecked row) → cp_session row ≠ session) →
  star step s s' →
  of_session session (a_legacy (s_annex s')) = of_session session (a_legacy (s_annex s)).
Proof.
  intros Hf Hl Hpc Hs.
  assert (HS : shut session (of_session session (a_legacy (s_annex s))) s').
  { refine (star_invariant step _ _ _ (λ x y, shut_step session _ x y Hl) Hs _).
    split; [done..|]. intros i p Hp (row & -> & Hrow). by eapply Hpc. }
  apply HS.
Qed.

(** ** Reading *)

#[export] Instance row_le_total : Total row_le.
Proof.
  intros a b. unfold row_le. destruct (Z.lt_trichotomy (cp_created a) (cp_created b)) as [|[Heq|]]; [by left; left| |by right; left].
  destruct (String.leb_total (cp_id a) (cp_id b)); [left|right]; right; (split; [done|]); done.
Qed.

(** The database a mode reads from. *)
Definition authority (m : mode) (a : annex) : table :=
  match m with Postgres => a_pg a | _ => a_legacy a end.

Lemma select_list_elem t session tenant r :
  r ∈ select_list t session tenant ↔ (∃ id, t !! id = Some r) ∧ cp_session r = session ∧ cp_tenant r = tenant.
Proof.
  unfold select_list. rewrite merge_sort_Permutation, list_elem_of_filter, list_elem_of_fmap.
  split.
  - intros [? ([id r'] & -> & Hin)]. split; [|done]. exists id. by apply elem_of_map_to_list in Hin.
  - intros [[id Hid] ?]. split; [done|]. exists (id, r). split; [done|]. by apply elem_of_map_to_list.
Qed.

(** Reads are scoped and fail closed.  A listing is sorted by time and id and
    holds exactly the authority's rows of that session and tenant; fetching by id
    finds exactly such a row; and in a shadow mode both raise rather than answer
    when the other database disagrees. *)
Theorem checkpoint_reads_are_scoped m session tenant a :
  match list_checkpoints m session tenant a with
  | Ok l => Sorted row_le l ∧
      ∀ r, r ∈ l ↔ (∃ id, authority m a !! id = Some r) ∧ cp_session r = session ∧ cp_tenant r = tenant
  | Err e => SHADOW_READ_MODES m = true ∧ e = ShadowMismatch ∧ a_legacy a ≠ a_pg a
  end ∧
  ∀ id, match get_checkpoint m session tenant id a with
        | Ok o => ∀ r, o = Some r ↔ authority m a !! id = Some r ∧ cp_session r = session ∧ cp_tenant r = tenant
        | Err e => SHADOW_READ_MODES m = true ∧ e = ShadowMismatch ∧ a_legacy a ≠ a_pg a
        end.
Proof.
  assert (Hsort : ∀ t, Sorted row_le (select_list t session tenant)) by (intros t; apply (Sorted_merge_sort row_le)).
  assert (Hone : ∀ t id r, select_one t session tenant id = Some r ↔
    t !! id = Some r ∧ cp_session r = session ∧ cp_tenant r = tenant).
  { intros t id r. unfold select_one. destruct (t !! id) as [r'|]; simpl; [|naive_solver].
    case_bool_decide; naive_solver. }
  unfold list_checkpoints, get_checkpoint, shadow_equal, guard_or. split.
  - case_bool_decide as Hm; [subst; split; [done|apply select_list_elem]|].
    assert (authority m a = a_legacy a) as -> by (by destruct m).
    destruct (SHADOW_READ_MODES m); [case_bool_decide as He; cbn|]; [..|split; [done|apply select_list_elem]].
    + split; [done|apply select_list_elem].
    + do 2 (split; [done|]). intros Heq. by rewrite Heq in He.
  - intros id. case_bool_decide as Hm; [subst; apply Hone|].
    assert (authority m a = a_legacy a) as -> by (by destruct m).
    destruct (SHADOW_READ_MODES m); [case_bool_decide as He; cbn|]; [apply Hone| |apply Hone].
    do 2 (split; [done|]). intros Heq. by rewrite Heq in He.
Qed.

(** ** The steps are the code's *)

(** What a finished caller answered. *)
Definition answers (p : pc) (r : result cp_error (option checkpoint)) : Prop :=
  match p, r with
  | PReturned o, Ok o' => o = o'
  | PRaised _, Err _ => True
  | _, _ => False
  end.

Lemma run_legacy m fate row a i :
  DUAL_WRITE_MODES m = true →
  let run := (legacy ← _legacy_create_checkpoint row;
              match legacy with
              | None => mret None
              | Some row' => if DUAL_WRITE_MODES m then _ ← mirror fate m row'; mret (Some row') else mret (Some row')
              end) in
  ∃ p, star step (Sys a {[i := PChecked row]}) (Sys (final run a) {[i := p]}) ∧ answers p (outcome run a).
Proof.
  intros Hm run. subst run. rewrite Hm.
  assert (Hins : ∀ p q : pc, <[i := q]> ({[i := p]} : gmap nat pc) = {[i := q]})
    by (intros; apply insert_singleton_eq).
  pose proof (st_legacy a {[i := PChecked row]} i row (lookup_singleton_eq _ _)) as H1. rewrite Hins in H1.
  destruct (_legacy_create_checkpoint row a) as [r a1] eqn:E1.
  assert (Ho : outcome (_legacy_create_checkpoint row) a = r) by (unfold outcome; by rewrite E1).
  assert (Hf : final (_legacy_create_checkpoint row) a = a1) by (unfold final; by rewrite E1).
  rewrite Ho, Hf in H1. unfold outcome, final, mbind, io_mbind. rewrite E1.
  destruct r as [[row'|]|e]; cbn [after_legacy] in H1; [|exists (PReturned None)|exists (PRaised None)];
    [|by split; [apply star_one|]..].
  pose proof (st_mirror a1 {[i := PWritten row']} i row' fate m (lookup_singleton_eq _ _) Hm) as H2.
  rewrite Hins in H2. unfold outcome, final in H2. pose proof (mirror_Ok fate m row' a1) as Hok. unfold outcome in Hok.
  destruct (mirror fate m row' a1) as [[row''|e] a2]; cbn [fst snd after_mirror] in *.
  - destruct (Hok row'' eq_refl) as [-> _]. exists (PReturned (Some row')). split; [|done].
    eapply star_step; [exact H1|]. by apply star_one.
  - exists (PRaised (Some row')). split; [|done]. eapply star_step; [exact H1|]. by apply star_one.
Qed.

(** The step relation is the code.  A dual-write [create_checkpoint] that runs
    without interruption is a run of the step relation: the same databases, the
    same answer. *)
Theorem create_checkpoint_is_steps m fate row a i :
  DUAL_WRITE_MODES m = true →
  ∃ p, star step (Sys a {[i := PStart row]}) (Sys (final (create_checkpoint m fate row) a) {[i := p]}) ∧
       answers p (outcome (create_checkpoint m fate row) a).
Proof.
  intros Hm. unfold create_checkpoint. rewrite bool_decide_eq_false_2 by (by intros ->).
  assert (Hins : ∀ p q : pc, <[i := q]> ({[i := p]} : gmap nat pc) = {[i := q]})
    by (intros; apply insert_singleton_eq).
  pose proof (run_legacy m fate row a i Hm) as Hrun. cbn zeta in Hrun. set (run := _ ≫= _) in Hrun at 1 2.
  fold run. rewrite Hm. destruct Hrun as (p & Hrun & Hans).
  assert (Hgo : ∀ pc0, star step (Sys a {[i := PStart row]}) (Sys a {[i := pc0]}) →
    (precheck row a = (Ok tt, a) ∧ pc0 = PChecked row) ∨ (∃ e, precheck row a = (Err e, a) ∧ pc0 = PRaised None) →
    ∃ p, star step (Sys a {[i := PStart row]}) (Sys (final (_ ← precheck row; run) a) {[i := p]}) ∧
       answers p (outcome (_ ← precheck row; run) a)).
  { intros pc0 Hst [[Hp ->]|(e & Hp & ->)].
    - assert (Hb : (_ ← precheck row; run) a = run a) by (unfold mbind at 1, io_mbind at 1; by rewrite Hp).
      unfold outcome, final. rewrite Hb. exists p. split; [by eapply star_trans|done].
    - assert (Hb : (_ ← precheck row; run) a = (Err e, a)) by (unfold mbind at 1, io_mbind at 1; by rewrite Hp).
      unfold outcome, final. rewrite Hb. exists (PRaised None). by split. }
  pose proof (st_count_mirror a {[i := PStart row]} i row (lookup_singleton_eq _ _)) as H1. rewrite Hins in H1.
  unfold precheck, ensure_started, _refuse_a_full_mirror, mbind, io_mbind in *. unfold count_mirror in H1.
  destruct (a_schema a); cbn [negb] in H1; [|apply (Hgo (PRaised None)); [by apply star_one|eauto]].
  case_bool_decide; [apply (Hgo (PChecked row)); [by apply star_one|auto]|].
  pose proof (st_count_legacy a {[i := PFull row]} i row (lookup_singleton_eq _ _)) as H2. rewrite Hins in H2.
  unfold count_legacy in H2. case_bool_decide.
  - apply (Hgo (PChecked row)); [eapply star_step; [exact H1|by apply star_one]|auto].
  - apply (Hgo (PRaised None)); [eapply star_step; [exact H1|by apply star_one]|eauto].
Qed.

(** ** Instances *)

Definition demo_row (id : string) : checkpoint :=
  Checkpoint id "sess-1" "acme" "roof" "3" 12 (Some "before the array move"%string) 1790000000.
Definition empty_annex : annex := Annex ∅ ∅ true.

Lemma demo_run :
  ∃ s, star step (Sys empty_annex ∅) s ∧ s_callers s !! 0%nat = Some (PReturned (Some (demo_row "cp-a"))).
Proof.
  eexists. split.
  - eapply star_step; [apply (st_start empty_annex ∅ 0 (demo_row "cp-a")); reflexivity|].
    eapply star_step; [apply (st_count_mirror _ _ 0 (demo_row "cp-a")), lookup_insert_eq|].
    eapply star_step; [apply (st_legacy _ _ 0 (demo_row "cp-a")), lookup_insert_eq|].
    eapply star_step; [apply (st_mirror _ _ 0 (demo_row "cp-a") Works DualWriteShadow); [apply lookup_insert_eq|reflexivity]|].
    apply star_refl.
  - apply lookup_insert_eq.
Qed.

Lemma empty_capped : capped ∅.
Proof. intros s. unfold checkpoint_count, of_session. rewrite map_filter_empty, map_size_empty. unfold CHECKPOINT_CAP. lia. Qed.

Lemma checkpoint_cap_holds_witness :
  ∃ s, s_callers s !! 0%nat = Some (PReturned (Some (demo_row "cp-a"))) ∧
    capped (a_legacy (s_annex s)) ∧ capped (a_pg (s_annex s)).
Proof.
  destruct demo_run as (s & Hs & Hc). exists s. split; [exact Hc|].
  apply (checkpoint_cap_holds _ _ Hs); apply empty_capped.
Defined.

Lemma created_checkpoints_are_mirrored_witness :
  ∃ s, a_legacy (s_annex s) !! "cp-a"%string = Some (demo_row "cp-a") ∧
       a_pg (s_annex s) !! "cp-a"%string = Some (demo_row "cp-a").
Proof.
  destruct demo_run as (s & Hs & Hc). exists s.
  exact (proj1 (created_checkpoints_are_mirrored _ _ Hs) 0%nat (demo_row "cp-a") Hc).
Defined.

(** A mirror that kept fifty rows of the session while legacy started empty. *)
Definition full_rows : table :=
  list_to_map ((λ n, let id := "old-" +:+ of_chars (print_nat (Z.of_nat n)) in (id, demo_row id)) <$> seq 0 50).

Lemma full_mirror_stops_writes_witness :
  ∃ s, star step (Sys (Annex ∅ full_rows true) {[0%nat := PStart (demo_row "cp-b")]}) s ∧
       s_callers s !! 0%nat = Some (PRaised None) ∧ of_session "sess-1" (a_legacy (s_annex s)) = of_session "sess-1" ∅.
Proof.
  assert (H : ∃ s, star step (Sys (Annex ∅ full_rows true) {[0%nat := PStart (demo_row "cp-b")]}) s ∧
       s_callers s !! 0%nat = Some (PRaised None)).
  { eexists. split.
    - eapply star_step; [apply (st_count_mirror _ _ 0 (demo_row "cp-b")), lookup_singleton_eq|].
      eapply star_step; [apply (st_count_legacy _ _ 0 (demo_row "cp-b")); rewrite lookup_insert_eq; vm_compute; reflexivity|].
      apply star_refl.
    - cbn [s_callers]. rewrite lookup_insert_eq. vm_compute. reflexivity. }
  destruct H as (s & Hs & Hc). exists s. split; [exact Hs|]. split; [exact Hc|].
  apply (full_mirror_stops_writes "sess-1" (Sys (Annex ∅ full_rows true) {[0%nat := PStart (demo_row "cp-b")]}) s).
  - apply (bool_decide_unpack _). vm_compute. exact I.
  - apply (bool_decide_unpack _). vm_compute. exact I.
  - intros i row Hr. cbn [s_callers] in Hr. apply lookup_singleton_Some in Hr as [_ Hr]. discriminate.
  - exact Hs.
Defined.

Lemma create_checkpoint_is_steps_witness :
  outcome (create_checkpoint DualWriteShadow Works (demo_row "cp-a")) empty_annex = Ok (Some (demo_row "cp-a")) ∧
  ∃ p, star step (Sys empty_annex {[7%nat := PStart (demo_row "cp-a")]})
         (Sys (final (create_checkpoint DualWriteShadow Works (demo_row "cp-a")) empty_annex) {[7%nat := p]}) ∧
       answers p (outcome (create_checkpoint DualWriteShadow Works (demo_row "cp-a")) empty_annex).
Proof.
  split; [vm_compute; reflexivity|]. apply (create_checkpoint_is_steps DualWriteShadow Works (demo_row "cp-a") empty_annex 7).
  reflexivity.
Defined.

Example lost_connection_leaves_one_row :
  let r := create_checkpoint DualWrite FailsBefore (demo_row "cp-a") empty_annex in
  r.1 = Err Database ∧ a_legacy r.2 !! "cp-a"%string = Some (demo_row "cp-a") ∧ a_pg r.2 = ∅.
Proof. vm_compute. auto. Qed.
