(* ===== verification/JobStore.v ===== *)
(** * The job spine

    [server/job_pg_store.py] ([PostgresJobStore], [PostgresCallbackReplayStore]) over
    the tables of [0011_jobs_callbacks.sql] and [0070_aps_completion_receipts.sql]:
    every method is one transaction.  Times are whole ticks of an arbitrary clock;
    [now], [stamp] and [expires] are the caller's, [clock] is the database's.
    Columns no statement reads ([tool], [params_json], [dwg], [elapsed_ms], ...) are
    left out.  [(lease_owner, lease_expires_at)] is one column here: the table's
    CHECK makes them null together. *)

From S2P Require Import Prelude PyText.
Local Open Scope Z_scope.

Inductive status := Submitted | Running | Complete | Failed.

#[export] Instance status_eq_dec : EqDecision status.
Proof. solve_decision. Defined.

(** [status NOT IN ('complete', 'failed')] is [status IN ('submitted', 'running')] *)
Definition in_flight (s : status) : bool :=
  match s with Submitted | Running => true | _ => false end.

(** ** Documents *)

(** [cloud_failure] of a fallback: its attempt, its path, and whether it says
    what failed. *)
Record cloud_failure := CloudFailure {
  cf_attempt : option Z; cf_path : option string; cf_meaningful : bool }.

(** The provenance document: the keys the code reads, and the rest as text. *)
Record provenance := Provenance {
  pv_attempt : option Z;             (** an integer, not a boolean *)
  pv_path : option string;
  pv_fallback : option (option bool);  (** [Some None]: present, not a boolean *)
  pv_reason : option string;         (** [fallback_reason] *)
  pv_cloud_failure : option cloud_failure;
  pv_delivered : option Z;           (** [client_delivered_at] *)
  pv_rest : string }.

#[export] Instance cloud_failure_eq_dec : EqDecision cloud_failure.
Proof. solve_decision. Defined.
#[export] Instance provenance_eq_dec : EqDecision provenance.
Proof. solve_decision. Defined.

(** The result envelope: [ok is True], [execution_provenance], the rest. *)
Record envelope := Envelope { en_ok : bool; en_provenance : option provenance; en_rest : string }.

#[export] Instance envelope_eq_dec : EqDecision envelope.
Proof. solve_decision. Defined.

(** The error object of a job: [retryable] and the rest. *)
Record error_obj := ErrorObj { eo_retryable : bool; eo_rest : string }.

#[export] Instance error_obj_eq_dec : EqDecision error_obj.
Proof. solve_decision. Defined.

Record evidence := Evidence {
  ev_status : status; ev_result : option envelope; ev_error : option error_obj;
  ev_provenance : option provenance; ev_received : Z }.

(** ** Rows *)

(** What a submission fixes for good. *)
Record submission := Submission {
  su_tenant : string; su_project : option string; su_key : option string;
  su_fingerprint : string;
  su_aps_live : bool;              (** [execution_json.aps_live] *)
  su_remote : option Z }.          (** the budget, when the execution context is a remote native preview *)

Record job := Job {
  j_sub : submission; j_status : status; j_progress : string;
  j_updated : Z; j_started : option Z; j_finished : option Z;
  j_attempt : Z; j_lease : option (string * Z); j_heartbeat : option Z;
  j_result : option envelope; j_error : option error_obj; j_provenance : option provenance;
  j_terminal : option string;      (** [terminal_fingerprint] *)
  j_conflict : option evidence;
  j_workitem : option (string * Z) }.   (** [(aps_workitem_id, aps_workitem_attempt)] *)

(** A signed completion: the guard its body carries, and the bytes. *)
Record completion := Completion {
  cm_guard : option (string * Z * string); cm_body : string; cm_timestamp : string; cm_nonce : string; cm_signature : string }.

Record receipt := Receipt { rc_workitem : string; rc_completion : completion }.

(** The row of the platform's own [jobs] table that [spine_ref] links to a job:
    its status and its [result]. *)
Inductive platform_status := PlQueued | PlRunning | PlSucceeded | PlFailed | PlCancelled.

#[export] Instance platform_status_eq_dec : EqDecision platform_status.
Proof. solve_decision. Defined.

Record platform_job := PlatformJob { pj_status : platform_status; pj_result : option envelope }.

(** [status IN ('succeeded', 'failed', 'cancelled')] *)
Definition platform_terminal (st : platform_status) : bool :=
  match st with PlQueued | PlRunning => false | _ => true end.

Record jdb := Jdb {
  jobs : gmap string job;
  conflicts : gmap (string * string) evidence;
  receipts : gmap (string * Z) receipt;
  mirror : gmap string platform_job;       (** the linked platform rows, by [spine_ref] *)
  nonces : gmap (string * string) Z }.

Inductive job_error :=
| KeyReused                                   (** ValueError: key with different run input *)
| CapExceeded (limit in_flight : Z)           (** [TenantInflightCapExceeded] *)
| UniqueViolation
| MirrorFailed                                (** [terminal_in_transaction] raised *)
| Refused (reason : string).                  (** [ValueError(reason)] *)

#[export] Instance job_error_eq_dec : EqDecision job_error.
Proof. solve_decision. Defined.

Abbreviation jx := (io jdb job_error).

Definition get_jobs : jx (gmap string job) := λ s, (Ok (jobs s), s).
Definition put_job (id : string) (r : job) : jx unit :=
  λ s, (Ok tt, Jdb (<[id := r]> (jobs s)) (conflicts s) (receipts s) (mirror s) (nonces s)).
Definition find_job (id : string) : jx (option job) := js ← get_jobs; mret (js !! id).

(** [progress <> 'closed'] *)
Definition CLOSED_PROGRESS : string := "closed".
Definition open_progress (r : job) : bool := negb (bool_decide (j_progress r = CLOSED_PROGRESS)).

(** [lease_owner = w AND lease_expires_at >= t] *)
Definition lease_live (r : job) (w : string) (t : Z) : bool :=
  match j_lease r with Some (o, e) => bool_decide (o = w) && (t <=? e) | None => false end.

(** ** Submitting *)

Record job_row := JobRow { jr_id : string; jr_sub : submission; jr_created : Z }.

Definition same_key (su su' : submission) : bool :=
  bool_decide (su_tenant su = su_tenant su' ∧ su_project su = su_project su' ∧ su_key su = su_key su').

(** [SELECT job_id, submission_fingerprint ... WHERE tenant_id, project_id, idempotency_key] *)
Definition find_key (js : gmap string job) (su : submission) : option (string * job) :=
  head (filter (λ '(_, r), same_key (j_sub r) su = true) (map_to_list js)).

(** [SELECT count( * ) ... status IN ('submitted','running')] *)
Definition inflight (js : gmap string job) (tenant : string) : Z :=
  Z.of_nat (size (filter (λ '(_, r), su_tenant (j_sub r) = tenant ∧ in_flight (j_status r) = true) js)).

(** the row the INSERT writes *)
Definition fresh_job (row : job_row) : job :=
  Job (jr_sub row) Submitted "queued" (jr_created row) None None 0 None None None None None None None None.

Definition existing_job (e : string * job) (row : job_row) : jx (string * bool) :=
  if bool_decide (su_fingerprint (j_sub (snd e)) = su_fingerprint (jr_sub row))
  then mret (fst e, false) else raise KeyReused.

(** the cap, then the INSERT; [job_id] is the primary key *)
Definition insert_capped_row (row : job_row) (max_inflight : Z) : jx (string * bool) :=
  js ← get_jobs;
  let n := inflight js (su_tenant (jr_sub row)) in
  if max_inflight <=? n then raise (CapExceeded max_inflight n)
  else match js !! jr_id row with
       | Some _ => raise UniqueViolation
       | None => _ ← put_job (jr_id row) (fresh_job row); mret (jr_id row, true)
       end.

Definition has_project_key (su : submission) : bool :=
  negb (bool_decide (su_project su = None)) && negb (bool_decide (su_key su = None)).

(** [PostgresJobStore.submit]; the tenant's advisory lock makes it one step, and
    with it the branch after [ON CONFLICT DO NOTHING] is never taken. *)
Definition submit (row : job_row) (max_inflight : Z) : jx (string * bool) :=
  js ← get_jobs;
  match (if has_project_key (jr_sub row) then find_key js (jr_sub row) else None) with
  | Some e => existing_job e row
  | None => insert_capped_row row max_inflight
  end.

(** [_submit_bound_postgres] of [server/jobs.py]: the key counts without a project too *)
Definition _submit_bound_postgres (row : job_row) (max_inflight : Z) : jx (string * bool) :=
  if bool_decide (default ""%string (su_key (jr_sub row)) = ""%string) then submit row max_inflight else
  js ← get_jobs;
  match find_key js (jr_sub row) with
  | Some e => existing_job e row
  | None => insert_capped_row row max_inflight
  end.

(** ** Leases *)

(** [claim] *)
Definition claimable (r : job) (stamp max_attempts : Z) : bool :=
  open_progress r &&
  match j_status r with
  | Submitted => true
  | Running => match j_lease r with None => true | Some (_, e) => e <=? stamp end
  | _ => false
  end && (j_attempt r <? max_attempts).

Definition claimed_job (r : job) (w : string) (stamp expires : Z) : job :=
  Job (j_sub r) Running "running" stamp (Some (default stamp (j_started r))) (j_finished r) (j_attempt r + 1)
      (Some (w, expires)) (Some stamp) (j_result r) (j_error r) (j_provenance r) (j_terminal r) (j_conflict r) (j_workitem r).

Definition claim (id w : string) (stamp expires max_attempts : Z) : jx (option Z) :=
  o ← find_job id;
  match o with
  | Some r =>
      if claimable r stamp max_attempts then
        _ ← put_job id (claimed_job r w stamp expires);
        mret (Some (j_attempt r + 1))
      else mret None
  | None => mret None
  end.

(** [heartbeat]; [attempt] is given by the remote workers only *)
Definition beats (r : job) (w : string) (now expires clock : Z) (attempt : option Z) : bool :=
  bool_decide (j_status r = Running) && lease_live r w now &&
  match attempt with
  | None => true
  | Some a => open_progress r && (j_attempt r =? a) &&
              match j_lease r with Some (_, e) => clock <? e | None => false end && (clock <? expires)
  end.

Definition beaten_job (r : job) (w : string) (now expires : Z) (progress : option string) : job :=
  Job (j_sub r) (j_status r) (default (j_progress r) progress) now (j_started r) (j_finished r) (j_attempt r)
      (Some (w, expires)) (Some now) (j_result r) (j_error r) (j_provenance r) (j_terminal r) (j_conflict r) (j_workitem r).

Definition heartbeat (id w : string) (now expires clock : Z) (progress : option string) (attempt : option Z) : jx bool :=
  o ← find_job id;
  match o with
  | Some r =>
      if beats r w now expires clock attempt then
        _ ← put_job id (beaten_job r w now expires progress);
        mret true
      else mret false
  | None => mret false
  end.

Definition retried_job (r : job) (now : Z) (err : error_obj) (prov : provenance) : job :=
  Job (j_sub r) Submitted "retrying" now (j_started r) (j_finished r) (j_attempt r) None None
      (j_result r) (Some err) (Some prov) (j_terminal r) (j_conflict r) (j_workitem r).

Definition release_for_retry (id w : string) (attempt now : Z) (err : error_obj) (prov : provenance) : jx bool :=
  o ← find_job id;
  match o with
  | Some r =>
      if bool_decide (j_status r = Running) && (j_attempt r =? attempt) && lease_live r w now && open_progress r then
        _ ← put_job id (retried_job r now err prov);
        mret true
      else mret false
  | None => mret false
  end.

(** ** Closing *)

Definition closed_job (r : job) (now : Z) : job :=
  Job (j_sub r) (j_status r) CLOSED_PROGRESS now (j_started r) (j_finished r) (j_attempt r) None None
      (j_result r) (j_error r) (j_provenance r) (j_terminal r) (j_conflict r) (j_workitem r).

Definition mark_closed (id : string) (now : Z) : jx bool :=
  o ← find_job id;
  match o with
  | Some r => if in_flight (j_status r) then _ ← put_job id (closed_job r now); mret true else mret false
  | None => mret false
  end.

Definition of_tenant (tenant : string) (r : job) : bool :=
  bool_decide (su_tenant (j_sub r) = tenant) && in_flight (j_status r).

Definition close_tenant (tenant : string) (now : Z) : jx Z :=
  λ s, (Ok (Z.of_nat (size (filter (λ '(_, r), of_tenant tenant r = true) (jobs s)))),
        Jdb ((λ r, if of_tenant tenant r then closed_job r now else r) <$> jobs s)
            (conflicts s) (receipts s) (mirror s) (nonces s)).

(** ** Terminal outcomes *)

Inductive answer := Applied | Duplicate | Conflict | NotOwner | Missing.

#[export] Instance answer_eq_dec : EqDecision answer.
Proof. solve_decision. Defined.

(** the outcome a caller reports *)
Record report := Report {
  rp_status : status; rp_result : option envelope; rp_error : option error_obj;
  rp_provenance : option provenance; rp_fingerprint : string }.

Definition settled_job (r : job) (p : report) (now : Z) : job :=
  Job (j_sub r) (rp_status p) (if bool_decide (rp_status p = Complete) then "done" else "error") now
      (j_started r) (Some now) (j_attempt r) None (j_heartbeat r) (rp_result p) (rp_error p) (rp_provenance p)
      (Some (rp_fingerprint p)) (j_conflict r) (j_workitem r).

(** [platform_link._terminal_fields] *)
Definition _terminal_fields (st : status) (result_env : option envelope) : platform_status * option envelope :=
  if bool_decide (st = Complete) then (PlSucceeded, result_env) else (PlFailed, None).

(** the row [_update_by_spine] leaves: the status set, the result only when one is given *)
Definition updated_platform_job (m : platform_job) (st : platform_status) (result : option envelope) : platform_job :=
  PlatformJob st (match result with Some e => Some e | None => pj_result m end).

(** [UPDATE jobs ... WHERE spine_ref AND status NOT IN ('succeeded', 'failed', 'cancelled')]:
    no row, or a terminal one, and the statement changes nothing *)
Definition update_linked (id : string) (st : platform_status) (result : option envelope)
    (rows : gmap string platform_job) : gmap string platform_job :=
  match rows !! id with
  | Some m => if platform_terminal (pj_status m) then rows else <[id := updated_platform_job m st result]> rows
  | None => rows
  end.

Definition _update_by_spine (id : string) (st : platform_status) (result : option envelope) : jx unit :=
  λ s, (Ok tt, Jdb (jobs s) (conflicts s) (receipts s) (update_linked id st result (mirror s)) (nonces s)).

(** [platform_link.terminal_in_transaction]: the linked row on the same connection;
    when it raises, the whole transaction rolls back *)
Definition terminal_in_transaction (fails : bool) (id : string) (p : report) : jx unit :=
  if fails then raise MirrorFailed
  else let '(st, result) := _terminal_fields (rp_status p) (rp_result p) in _update_by_spine id st result.

(** [platform_link.on_submit]: the linked row, queued; [spine_ref] is unique, and an
    error is swallowed *)
Definition on_submit (id : string) : jx unit :=
  λ s, (Ok tt, match mirror s !! id with
               | Some _ => s
               | None => Jdb (jobs s) (conflicts s) (receipts s) (<[id := PlatformJob PlQueued None]> (mirror s)) (nonces s)
               end).

(** [platform_link.on_running] *)
Definition on_running (id : string) : jx unit := _update_by_spine id PlRunning None.

(** the platform's own cancellation of a queued or running row ([arlo_lab.job_view]) *)
Definition cancel_linked (id : string) : jx unit := _update_by_spine id PlCancelled None.

(** clean exit commits, an exception rolls back *)
Definition transaction {A} (m : jx A) : jx A :=
  λ s, match m s with (Ok a, s') => (Ok a, s') | (Err e, _) => (Err e, s) end.

Definition may_complete (r : job) (attempt : Z) (w : option string) (now clock : Z)
    (allow_closed : bool) (deadline : option Z) : bool :=
  (j_attempt r =? attempt) && in_flight (j_status r) && (allow_closed || open_progress r) &&
  match deadline with
  | None => true
  | Some d => (clock <? d) && match j_lease r with Some (_, e) => clock <? e | None => false end
  end &&
  match w with None => true | Some w => lease_live r w now end.

Definition conflicted_job (r : job) (ev : evidence) : job :=
  Job (j_sub r) (j_status r) (j_progress r) (ev_received ev) (j_started r) (j_finished r) (j_attempt r)
      (j_lease r) (j_heartbeat r) (j_result r) (j_error r) (j_provenance r) (j_terminal r) (Some ev) (j_workitem r).

Definition complete (mirror_fails : bool) (id : string) (attempt : Z) (p : report) (w : option string)
    (now clock : Z) (allow_closed : bool) (deadline : option Z) : jx answer :=
  transaction (
  o ← find_job id;
  match o with
  | None => mret Missing
  | Some r =>
      if may_complete r attempt w now clock allow_closed deadline then
        _ ← put_job id (settled_job r p now);
        _ ← terminal_in_transaction mirror_fails id p;
        mret Applied
      else if in_flight (j_status r) then mret NotOwner
      else if bool_decide (j_terminal r = Some (rp_fingerprint p)) then mret Duplicate
      else
        let ev := Evidence (rp_status p) (rp_result p) (rp_error p) (rp_provenance p) now in
        λ s, (Ok Conflict,
              Jdb (<[id := conflicted_job r ev]> (jobs s))
                  (match conflicts s !! (id, rp_fingerprint p) with
                   | Some _ => conflicts s
                   | None => <[(id, rp_fingerprint p) := ev]> (conflicts s)
                   end) (receipts s) (mirror s) (nonces s))
  end).

(** [_terminal_fingerprint]: the SHA-256 of the report's canonical JSON *)
Section Expire.
Variable _terminal_fingerprint : status → option envelope → option error_obj → option provenance → string.

Definition make_report (st : status) (result : option envelope) (err : option error_obj) (prov : option provenance) : report :=
  Report st result err prov (_terminal_fingerprint st result err prov).

(** [expire_native_remote]: the reaper's settlement, on the database clock *)
Definition expire_native_remote (mirror_fails : bool) (id : string) (expected clock : Z) : jx answer :=
  transaction (
  o ← find_job id;
  match o with
  | None => mret Missing
  | Some r =>
      if negb (in_flight (j_status r) && open_progress r && (j_attempt r =? expected)) then mret NotOwner else
      match su_remote (j_sub r), j_started r with
      | Some budget, Some start =>
          if clock <? start + budget then mret NotOwner else
          let p := make_report Failed None (Some (ErrorObj false "native preview execution budget expired"))
                     (Some (Provenance (Some expected) (Some "native-worker"%string) None None None None "")) in
          _ ← put_job id (settled_job r p clock);
          _ ← terminal_in_transaction mirror_fails id p;
          mret Applied
      | _, _ => mret NotOwner
      end
  end).
End Expire.

(** [record_first_delivery] *)
Definition delivered (p : option provenance) (now : Z) : provenance :=
  let p := default (Provenance None None None None None None "") p in
  Provenance (pv_attempt p) (pv_path p) (pv_fallback p) (pv_reason p) (pv_cloud_failure p) (Some now) (pv_rest p).

Definition delivered_job (r : job) (now : Z) : job :=
  Job (j_sub r) (j_status r) (j_progress r) (j_updated r) (j_started r) (j_finished r) (j_attempt r)
      (j_lease r) (j_heartbeat r) (j_result r) (j_error r) (Some (delivered (j_provenance r) now))
      (j_terminal r) (j_conflict r) (j_workitem r).

Definition record_first_delivery (id : string) (now : Z) : jx (option Z) :=
  o ← find_job id;
  match o with
  | Some r =>
      if in_flight (j_status r) then mret None else
      match j_provenance r ≫= pv_delivered with
      | Some t => mret (Some t)
      | None => _ ← put_job id (delivered_job r now); mret (Some now)
      end
  | None => mret None
  end.

(** ** Signed completions of APS work items *)

Definition bindable (r : job) (attempt : Z) (w workitem : string) (clock : Z) : bool :=
  (j_attempt r =? attempt) && bool_decide (j_status r = Running) && open_progress r &&
  match j_lease r with Some (o, e) => bool_decide (o = w) && (clock <? e) | None => false end &&
  match j_workitem r with
  | Some (wi, a) => negb (a =? j_attempt r) || bool_decide (wi = workitem)
  | None => true
  end.

Definition bound_job (r : job) (attempt : Z) (workitem : string) : job :=
  Job (j_sub r) (j_status r) (j_progress r) (j_updated r) (j_started r) (j_finished r) (j_attempt r)
      (j_lease r) (j_heartbeat r) (j_result r) (j_error r) (j_provenance r) (j_terminal r) (j_conflict r)
      (Some (workitem, attempt)).

Definition bind_aps_workitem (id : string) (attempt : Z) (w workitem : string) (clock : Z) : jx bool :=
  if attempt <? 1 then raise (Refused "wrong_attempt") else
  if bool_decide (strip workitem = ""%string) || (512 <? Z.of_nat (String.length workitem))
  then raise (Refused "invalid APS WorkItem identity") else
  o ← find_job id;
  match o with
  | Some r =>
      if bindable r attempt w workitem clock then
        _ ← put_job id (bound_job r attempt workitem);
        mret true
      else mret false
  | None => mret false
  end.

Definition reserve_aps_completion (id : string) (attempt : Z) (workitem : string) (c : completion) (clock : Z) : jx receipt :=
  o ← find_job id;
  match o with
  | None => raise (Refused "missing_job")
  | Some r =>
      if (attempt <? 1) || negb (j_attempt r =? attempt) then raise (Refused "wrong_attempt") else
      if negb (bool_decide (j_workitem r = Some (workitem, attempt))) then raise (Refused "wrong_workitem") else
      λ s, match receipts s !! (id, attempt) with
           | Some rc => (Ok rc, s)
           | None =>
               if negb (bool_decide (j_status r = Running) && open_progress r) then (Err (Refused "not_running"), s) else
               if negb (match j_lease r with
                        | Some (o, e) => negb (bool_decide (o = ""%string)) && (clock <? e)
                        | None => false end)
               then (Err (Refused "expired_lease"), s) else
               if negb (bool_decide (cm_guard c = Some (id, attempt, workitem))) then (Err (Refused "bad_completion_guard"), s) else
               (Ok (Receipt workitem c),
                Jdb (jobs s) (conflicts s) (<[(id, attempt) := Receipt workitem c]> (receipts s)) (mirror s) (nonces s))
           end
  end.

(** [PostgresCallbackReplayStore.consume] *)
Definition consume_nonce (id nonce : string) (expires now : Z) : jx bool :=
  λ s, let kept := filter (λ '(_, e), now <= e) (nonces s) in
       let put n := Jdb (jobs s) (conflicts s) (receipts s) (mirror s) n in
       match kept !! (id, nonce) with
       | Some _ => (Ok false, put kept)
       | None => (Ok true, put (<[(id, nonce) := expires]> kept))
       end.

(** ** The reaper's reads *)

Definition stale (r : job) (stale_before now : Z) : bool :=
  in_flight (j_status r) &&
  ((j_updated r <? stale_before) || negb (open_progress r) ||
   match j_lease r with Some (_, e) => e <? now | None => false end ||
   match su_remote (j_sub r), j_started r with Some b, Some start => start + b <=? now | _, _ => false end).

Definition reclaimable (stale_before now : Z) : jx (list (string * string)) :=
  js ← get_jobs;
  mret ((λ '(id, r), (id, j_progress r)) <$> filter (λ '(_, r), stale r stale_before now = true) (map_to_list js)).
