(* ===== verification/JobSystem.v ===== *)
(** * The job spine under any clients

    Any number of routes, workers, reapers and callbacks call the transactions of
    [JobStore] in any order, with any arguments and any clocks.  The log records
    what they were answered: claims, accepted actions of workers, applied
    outcomes, bound work items.  [linked_step] adds what the platform does to the
    rows it links to jobs. *)

From S2P Require Import Prelude PyText JobStore.
Local Open Scope Z_scope.

Inductive call :=
| CSubmit (row : job_row) (cap : Z)
| CSubmitBound (row : job_row) (cap : Z)
| CClaim (id w : string) (stamp expires max_attempts : Z)
| CHeartbeat (id w : string) (now expires clock : Z) (progress : option string) (attempt : option Z)
| CRetry (id w : string) (attempt now : Z) (err : error_obj) (prov : provenance)
| CComplete (mirror_fails : bool) (id : string) (attempt : Z) (p : report) (w : option string) (now clock : Z)
    (allow_closed : bool) (deadline : option Z)
| CExpire (mirror_fails : bool) (id : string) (expected clock : Z)
| CClose (id : string) (now : Z)
| CCloseTenant (tenant : string) (now : Z)
| CDeliver (id : string) (now : Z)
| CBind (id : string) (attempt : Z) (w workitem : string) (clock : Z)
| CReserve (id : string) (attempt : Z) (workitem : string) (c : completion) (clock : Z)
| CNonce (id nonce : string) (expires now : Z).

Inductive event :=
| Claimed (id w : string) (attempt : Z)
| Acted (id w : string)                    (** a heartbeat, retry, completion or binding of [w] was accepted *)
| Ended (id : string) (st : status)        (** an outcome was applied *)
| Bound (id : string) (attempt : Z) (workitem : string)
| Linked (id : string)                     (** the platform row of the job was created *)
| Withdrawn (id : string).                 (** ... was cancelled on the platform's side *)

Definition event_job (e : event) : string :=
  match e with Claimed id _ _ | Acted id _ | Ended id _ | Bound id _ _ | Linked id | Withdrawn id => id end.

Section System.
Variable fingerprint : status → option envelope → option error_obj → option provenance → string.

(** One call: what the log gains, and the tables after it. *)
Definition exec (c : call) (s : jdb) : list event * jdb :=
  match c with
  | CSubmit row cap => ([], final (submit row cap) s)
  | CSubmitBound row cap => ([], final (_submit_bound_postgres row cap) s)
  | CClaim id w stamp expires max_attempts =>
      let '(r, s') := claim id w stamp expires max_attempts s in
      (match r with Ok (Some a) => [Claimed id w a] | _ => [] end, s')
  | CHeartbeat id w now expires clock progress attempt =>
      let '(r, s') := heartbeat id w now expires clock progress attempt s in
      (match r with Ok true => [Acted id w] | _ => [] end, s')
  | CRetry id w attempt now err prov =>
      let '(r, s') := release_for_retry id w attempt now err prov s in
      (match r with Ok true => [Acted id w] | _ => [] end, s')
  | CComplete fails id attempt p w now clock allow_closed deadline =>
      let '(r, s') := complete fails id attempt p w now clock allow_closed deadline s in
      (match r with
       | Ok Applied => Ended id (rp_status p) :: match w with Some w => [Acted id w] | None => [] end
       | _ => [] end, s')
  | CExpire fails id expected clock =>
      let '(r, s') := expire_native_remote fingerprint fails id expected clock s in
      (match r with Ok Applied => [Ended id Failed] | _ => [] end, s')
  | CClose id now => ([], final (mark_closed id now) s)
  | CCloseTenant tenant now => ([], final (close_tenant tenant now) s)
  | CDeliver id now => ([], final (record_first_delivery id now) s)
  | CBind id attempt w workitem clock =>
      let '(r, s') := bind_aps_workitem id attempt w workitem clock s in
      (match r with Ok true => [Bound id attempt workitem; Acted id w] | _ => [] end, s')
  | CReserve id attempt workitem c clock => ([], final (reserve_aps_completion id attempt workitem c clock) s)
  | CNonce id nonce expires now => ([], final (consume_nonce id nonce expires now) s)
  end.

(** The terminal statuses are the only ones a caller may report, no phase of a run
    is called [closed], and the deployment's cap and attempt limit bound the
    arguments. *)
Definition lawful (cap max_attempts : Z) (c : call) : Prop :=
  match c with
  | CSubmit _ n | CSubmitBound _ n => n <= cap
  | CClaim _ _ _ _ m => m <= max_attempts
  | CHeartbeat _ _ _ _ _ progress _ => progress ≠ Some CLOSED_PROGRESS
  | CComplete _ _ _ p _ _ _ _ _ => in_flight (rp_status p) = false
  | _ => True
  end.

Record sys := Sys { s_db : jdb; s_log : list event }.

Inductive step (cap max_attempts : Z) : sys → sys → Prop :=
| step_call c s : lawful cap max_attempts c →
    step cap max_attempts s (Sys (snd (exec c (s_db s))) (fst (exec c (s_db s)) ++ s_log s)).

Definition empty_db : jdb := Jdb ∅ ∅ ∅ ∅ ∅.
Definition init : sys := Sys empty_db [].

(** ** What one call does to one row *)

Definition mine (id : string) (es : list event) : list event :=
  List.filter (λ e, bool_decide (event_job e = id)) es.

(** the row and its linked platform row *)
Definition linked := (job * option platform_job)%type.

(** the linked rows after an outcome *)
Definition settled_links (id : string) (p : report) : gmap string platform_job → gmap string platform_job :=
  let '(st, result) := _terminal_fields (rp_status p) (rp_result p) in update_linked id st result.

Definition mirrored (p : report) (m : option platform_job) : option platform_job :=
  (λ m, if platform_terminal (pj_status m) then m
        else let '(st, result) := _terminal_fields (rp_status p) (rp_result p) in updated_platform_job m st result) <$> m.

Inductive row_step (M : Z) (id : string) : list event → linked → linked → Prop :=
| rs_same l : row_step M id [] l l
| rs_claim r m w stamp expires n : n <= M → claimable r stamp n = true →
    row_step M id [Claimed id w (j_attempt r + 1)] (r, m) (claimed_job r w stamp expires, m)
| rs_beat r m w now expires clock progress attempt : beats r w now expires clock attempt = true →
    progress ≠ Some CLOSED_PROGRESS →
    row_step M id [Acted id w] (r, m) (beaten_job r w now expires progress, m)
| rs_retry r m w now err prov : j_status r = Running → lease_live r w now = true → open_progress r = true →
    row_step M id [Acted id w] (r, m) (retried_job r now err prov, m)
| rs_close r m now : in_flight (j_status r) = true → row_step M id [] (r, m) (closed_job r now, m)
| rs_settle r m p now es : in_flight (j_status r) = true → in_flight (rp_status p) = false →
    (∀ w, Acted id w ∈ es → lease_live r w now = true) →
    es = [Ended id (rp_status p)] ∨ (∃ w, es = [Ended id (rp_status p); Acted id w]) →
    row_step M id es (r, m) (settled_job r p now, mirrored p m)
| rs_conflict r m ev : in_flight (j_status r) = false → row_step M id [] (r, m) (conflicted_job r ev, m)
| rs_deliver r m now : in_flight (j_status r) = false → j_provenance r ≫= pv_delivered = None →
    row_step M id [] (r, m) (delivered_job r now, m)
| rs_bind r m attempt w workitem clock : bindable r attempt w workitem clock = true →
    row_step M id [Bound id attempt workitem; Acted id w] (r, m) (bound_job r attempt workitem, m).

Ltac run := unfold final, outcome, transaction, find_job, get_jobs, put_job, terminal_in_transaction, raise, mret, io_mret, mbind, io_mbind in *;
  cbn [fst snd jobs mirror receipts nonces conflicts] in *.

(** A row after a call on [id0]. *)
Ltac at_row id id0 :=
  destruct (decide (id = id0)) as [->|?];
  [ eexists; split; [apply lookup_insert_eq|]; rewrite ?lookup_insert_eq
  | eexists; split; [by rewrite lookup_insert_ne by done|]; rewrite ?(lookup_insert_ne _ id0 id) by done ].

Lemma mine_other id es : (∀ e, e ∈ es → event_job e ≠ id) → mine id es = [].
Proof.
  induction es as [|e es IH]; [done|]. intros H. unfold mine. cbn [List.filter].
  rewrite bool_decide_false by (apply H; left). apply IH. intros e' He'. apply H. by right.
Qed.

Lemma mine_self id es : (∀ e, e ∈ es → event_job e = id) → mine id es = es.
Proof.
  induction es as [|e es IH]; [done|]. intros H. unfold mine. cbn [List.filter].
  rewrite bool_decide_true by (apply H; left). f_equal. apply IH. intros e' He'. apply H. by right.
Qed.

(** A call that touches one row, or none. *)
Lemma one_row M id0 es0 s s' id r :
  jobs s !! id = Some r →
  (∀ e, e ∈ es0 → event_job e = id0) →
  (∀ id', id' ≠ id0 → jobs s' !! id' = jobs s !! id' ∧ mirror s' !! id' = mirror s !! id') →
  (∀ r0, jobs s !! id0 = Some r0 →
     ∃ r1, jobs s' !! id0 = Some r1 ∧ row_step M id0 es0 (r0, mirror s !! id0) (r1, mirror s' !! id0)) →
  ∃ r', jobs s' !! id = Some r' ∧ row_step M id (mine id es0) (r, mirror s !! id) (r', mirror s' !! id).
Proof.
  intros Hr He Ho Hs. destruct (decide (id = id0)) as [->|Hne].
  - destruct (Hs r Hr) as (r1 & H1 & H2). exists r1. split; [done|]. by rewrite mine_self.
  - destruct (Ho id Hne) as [H1 H2]. exists r. rewrite H1, H2. split; [done|].
    rewrite mine_other; [constructor|]. intros e Hin. rewrite (He e Hin). done.
Qed.

Lemma rows_same M s s' id r :
  jobs s !! id = Some r → jobs s' !! id = jobs s !! id → mirror s' = mirror s →
  ∃ r', jobs s' !! id = Some r' ∧ row_step M id [] (r, mirror s !! id) (r', mirror s' !! id).
Proof. intros Hr -> ->. exists r. split; [done|constructor]. Qed.

Ltac other_rows := intros id' ?; unfold mret, io_mret; cbn [jobs mirror fst snd]; rewrite ?lookup_insert_ne by done; done.
Ltac no_event := intros ? ?%not_elem_of_nil; done.


(** The state after [put_job], once the row is known. *)
Lemma put_job_run {A} id r (k : jx A) s :
  (_ ← put_job id r; k) s = k (Jdb (<[id := r]> (jobs s)) (conflicts s) (receipts s) (mirror s) (nonces s)).
Proof. done. Qed.

Lemma find_job_run {A} id (k : option job → jx A) s : (o ← find_job id; k o) s = k (jobs s !! id) s.
Proof. done. Qed.

Lemma claim_row M id0 w stamp expires n s id r :
  n <= M → jobs s !! id = Some r →
  let '(es, s') := exec (CClaim id0 w stamp expires n) s in
  ∃ r', jobs s' !! id = Some r' ∧ row_step M id (mine id es) (r, mirror s !! id) (r', mirror s' !! id).
Proof.
  intros Hn Hr. unfold exec, claim. rewrite find_job_run.
  destruct (jobs s !! id0) as [r0|] eqn:H0; [|by apply rows_same].
  destruct (claimable r0 stamp n) eqn:Hc; [rewrite put_job_run|by apply rows_same].
  apply (one_row M id0); [done|intros ? ->%list_elem_of_singleton; done|other_rows|].
  intros r1. rewrite H0. intros [= <-]. eexists. split; [by apply lookup_insert_eq|]. by econstructor.
Qed.

Lemma beat_row M id0 w now expires clock progress attempt s id r :
  progress ≠ Some CLOSED_PROGRESS → jobs s !! id = Some r →
  let '(es, s') := exec (CHeartbeat id0 w now expires clock progress attempt) s in
  ∃ r', jobs s' !! id = Some r' ∧ row_step M id (mine id es) (r, mirror s !! id) (r', mirror s' !! id).
Proof.
  intros Hp Hr. unfold exec, heartbeat. rewrite find_job_run.
  destruct (jobs s !! id0) as [r0|] eqn:H0; [|by apply rows_same].
  destruct (beats _ _ _ _ _ _) eqn:Hc; [rewrite put_job_run|by apply rows_same].
  apply (one_row M id0); [done|intros ? ->%list_elem_of_singleton; done|other_rows|].
  intros r1. rewrite H0. intros [= <-]. eexists. split; [by apply lookup_insert_eq|]. by econstructor.
Qed.

Lemma retry_row M id0 w attempt now err prov s id r :
  jobs s !! id = Some r →
  let '(es, s') := exec (CRetry id0 w attempt now err prov) s in
  ∃ r', jobs s' !! id = Some r' ∧ row_step M id (mine id es) (r, mirror s !! id) (r', mirror s' !! id).
Proof.
  intros Hr. unfold exec, release_for_retry. rewrite find_job_run.
  destruct (jobs s !! id0) as [r0|] eqn:H0; [|by apply rows_same].
  destruct (_ && _ && _ && _) eqn:Hc; [rewrite put_job_run|by apply rows_same]. bool_prop.
  apply (one_row M id0); [done|intros ? ->%list_elem_of_singleton; done|other_rows|].
  intros r1. rewrite H0. intros [= <-]. eexists. split; [apply lookup_insert_eq|]. apply rs_retry; intuition.
Qed.

Lemma bind_row M id0 attempt w workitem clock s id r :
  jobs s !! id = Some r →
  let '(es, s') := exec (CBind id0 attempt w workitem clock) s in
  ∃ r', jobs s' !! id = Some r' ∧ row_step M id (mine id es) (r, mirror s !! id) (r', mirror s' !! id).
Proof.
  intros Hr. unfold exec, bind_aps_workitem. destruct (attempt <? 1); [by apply rows_same|].
  destruct (_ || _); [by apply rows_same|]. rewrite find_job_run.
  destruct (jobs s !! id0) as [r0|] eqn:H0; [|by apply rows_same].
  destruct (bindable _ _ _ _ _) eqn:Hc; [rewrite put_job_run|by apply rows_same].
  apply (one_row M id0); [done|intros e He; set_solver|other_rows|].
  intros r1. rewrite H0. intros [= <-]. eexists. split; [by apply lookup_insert_eq|]. by econstructor.
Qed.

Lemma update_linked_at id st result rows :
  update_linked id st result rows !! id =
  (λ m, if platform_terminal (pj_status m) then m else updated_platform_job m st result) <$> rows !! id.
Proof.
  unfold update_linked. destruct (rows !! id) as [m|] eqn:Hm; [|by rewrite Hm]. cbn.
  destruct (platform_terminal _); [by rewrite Hm|by rewrite lookup_insert_eq].
Qed.

Lemma settled_links_at id p rows : settled_links id p rows !! id = mirrored p (rows !! id).
Proof. unfold settled_links, mirrored. destruct (_terminal_fields _ _). apply update_linked_at. Qed.

Lemma update_linked_ne id id' st result rows : id' ≠ id → update_linked id st result rows !! id' = rows !! id'.
Proof.
  intros Hne. unfold update_linked. destruct (rows !! id) as [m|]; [|done].
  destruct (platform_terminal _); [done|by rewrite lookup_insert_ne].
Qed.

Lemma settled_links_ne id id' p rows : id' ≠ id → settled_links id p rows !! id' = rows !! id'.
Proof. unfold settled_links. destruct (_terminal_fields _ _). apply update_linked_ne. Qed.

Ltac other_settled := intros id' ?; cbn [jobs mirror fst snd]; rewrite ?lookup_insert_ne, ?settled_links_ne by done; done.

Lemma settle_run fails id r p now s :
  (_ ← put_job id (settled_job r p now); _ ← terminal_in_transaction fails id p; mret Applied : jx answer) s =
  if fails then (Err MirrorFailed, Jdb (<[id := settled_job r p now]> (jobs s)) (conflicts s) (receipts s) (mirror s) (nonces s))
  else (Ok Applied, Jdb (<[id := settled_job r p now]> (jobs s)) (conflicts s) (receipts s) (settled_links id p (mirror s)) (nonces s)).
Proof. unfold settled_links, terminal_in_transaction. destruct fails; [done|]. by destruct (_terminal_fields _ _). Qed.

Lemma complete_row M fails id0 attempt p w now clock allow deadline s id r :
  in_flight (rp_status p) = false → jobs s !! id = Some r →
  let '(es, s') := exec (CComplete fails id0 attempt p w now clock allow deadline) s in
  ∃ r', jobs s' !! id = Some r' ∧ row_step M id (mine id es) (r, mirror s !! id) (r', mirror s' !! id).
Proof.
  intros Hp Hr. unfold exec, complete, transaction. rewrite find_job_run.
  destruct (jobs s !! id0) as [r0|] eqn:H0; [|by apply rows_same].
  destruct (may_complete _ _ _ _ _ _ _) eqn:Hc.
  - rewrite settle_run. destruct fails; [by apply rows_same|]. unfold may_complete in Hc. bool_prop.
    apply (one_row M id0); [done|intros e He; destruct w; set_solver|other_settled|].
    intros r1. rewrite H0. intros [= <-]. eexists. split; [apply lookup_insert_eq|].
    cbn [mirror]. rewrite settled_links_at. apply rs_settle; [tauto|done| |].
    + intros w' Hw. destruct w as [w|]; [|by exfalso; set_solver]. assert (w' = w) as -> by set_solver. tauto.
    + destruct w as [w|]; [right; by exists w|by left].
  - destruct (in_flight (j_status r0)) eqn:Hi; [by apply rows_same|].
    destruct (bool_decide _); [by apply rows_same|].
    apply (one_row M id0 []); [done|no_event|other_rows|].
    intros r1. rewrite H0. intros [= <-]. eexists. split; [by apply lookup_insert_eq|]. by econstructor.
Qed.


Lemma expire_row M fails id0 expected clock s id r :
  jobs s !! id = Some r →
  let '(es, s') := exec (CExpire fails id0 expected clock) s in
  ∃ r', jobs s' !! id = Some r' ∧ row_step M id (mine id es) (r, mirror s !! id) (r', mirror s' !! id).
Proof.
  intros Hr. unfold exec, expire_native_remote, transaction. rewrite find_job_run.
  destruct (jobs s !! id0) as [r0|] eqn:H0; [|by apply rows_same].
  destruct (negb _) eqn:Hc; [by apply rows_same|]. bool_prop.
  destruct (su_remote _) as [budget|]; [|by apply rows_same].
  destruct (j_started r0) as [start|]; [|by apply rows_same].
  destruct (clock <? _); [by apply rows_same|]. rewrite settle_run. destruct fails; [by apply rows_same|].
  apply (one_row M id0); [done|intros ? ->%list_elem_of_singleton; done|other_settled|].
  intros r1. rewrite H0. intros [= <-]. eexists. split; [apply lookup_insert_eq|].
  cbn [mirror]. rewrite settled_links_at. apply rs_settle; [tauto|done| |by left]. intros w Hw. set_solver.
Qed.

Lemma close_row M id0 now s id r :
  jobs s !! id = Some r →
  let '(es, s') := exec (CClose id0 now) s in
  ∃ r', jobs s' !! id = Some r' ∧ row_step M id (mine id es) (r, mirror s !! id) (r', mirror s' !! id).
Proof.
  intros Hr. unfold exec, final, mark_closed. rewrite find_job_run.
  destruct (jobs s !! id0) as [r0|] eqn:H0; [|by apply rows_same].
  destruct (in_flight _) eqn:Hi; [rewrite put_job_run|by apply rows_same].
  apply (one_row M id0 []); [done|no_event|other_rows|].
  intros r1. rewrite H0. intros [= <-]. eexists. split; [by apply lookup_insert_eq|]. by econstructor.
Qed.

Lemma deliver_row M id0 now s id r :
  jobs s !! id = Some r →
  let '(es, s') := exec (CDeliver id0 now) s in
  ∃ r', jobs s' !! id = Some r' ∧ row_step M id (mine id es) (r, mirror s !! id) (r', mirror s' !! id).
Proof.
  intros Hr. unfold exec, final, record_first_delivery. rewrite find_job_run.
  destruct (jobs s !! id0) as [r0|] eqn:H0; [|by apply rows_same].
  destruct (in_flight _) eqn:Hi; [by apply rows_same|].
  destruct (j_provenance r0 ≫= pv_delivered) eqn:Hd; [by apply rows_same|rewrite put_job_run].
  apply (one_row M id0 []); [done|no_event|other_rows|].
  intros r1. rewrite H0. intros [= <-]. eexists. split; [by apply lookup_insert_eq|]. by econstructor.
Qed.

(** A submission: the rows as they were, or one more. *)
Lemma submit_spec row n s :
  let s' := final (submit row n) s in
  s' = s ∨ (jobs s !! jr_id row = None ∧ inflight (jobs s) (su_tenant (jr_sub row)) < n ∧
            (has_project_key (jr_sub row) = true → find_key (jobs s) (jr_sub row) = None) ∧
            s' = Jdb (<[jr_id row := fresh_job row]> (jobs s)) (conflicts s) (receipts s) (mirror s) (nonces s)).
Proof.
  unfold submit, existing_job, insert_capped_row, final. run.
  destruct (if has_project_key _ then _ else _) as [e|] eqn:Hk.
  { left. by destruct (bool_decide _). }
  destruct (Z.leb_spec n (inflight (jobs s) (su_tenant (jr_sub row)))) as [|Hl]; [by left|].
  destruct (jobs s !! jr_id row) eqn:Hid; [by left|]. right. cbn. repeat split; [done|].
  intros Hp. by rewrite Hp in Hk.
Qed.

Lemma submit_bound_spec row n s :
  let s' := final (_submit_bound_postgres row n) s in
  s' = s ∨ (jobs s !! jr_id row = None ∧ inflight (jobs s) (su_tenant (jr_sub row)) < n ∧
            (has_project_key (jr_sub row) = true → find_key (jobs s) (jr_sub row) = None) ∧
            s' = Jdb (<[jr_id row := fresh_job row]> (jobs s)) (conflicts s) (receipts s) (mirror s) (nonces s)).
Proof.
  unfold _submit_bound_postgres. destruct (bool_decide _); [apply submit_spec|].
  unfold existing_job, insert_capped_row, final. run.
  destruct (find_key _ _) as [e|] eqn:Hk. { left. by destruct (bool_decide _). }
  destruct (Z.leb_spec n (inflight (jobs s) (su_tenant (jr_sub row)))) as [|Hl]; [by left|].
  destruct (jobs s !! jr_id row) eqn:Hid; [by left|]. right. cbn. done.
Qed.

Lemma reserve_jobs id attempt workitem c clock s :
  let s' := final (reserve_aps_completion id attempt workitem c clock) s in
  jobs s' = jobs s ∧ mirror s' = mirror s.
Proof.
  unfold final, reserve_aps_completion. rewrite find_job_run. destruct (jobs s !! id) as [r|]; [|done].
  destruct (_ || _); [done|]. destruct (negb _); [done|]. destruct (receipts s !! _); [done|].
  destruct (negb _); [done|]. destruct (negb _); [done|]. by destruct (negb _).
Qed.

Lemma nonce_jobs id nonce expires now s :
  let s' := final (consume_nonce id nonce expires now) s in jobs s' = jobs s ∧ mirror s' = mirror s.
Proof. unfold final, consume_nonce. by destruct (_ !! _). Qed.

(** Every call, on a row there is. *)
Lemma exec_row cap M c s id r :
  lawful cap M c → jobs s !! id = Some r →
  let '(es, s') := exec c s in
  ∃ r', jobs s' !! id = Some r' ∧ row_step M id (mine id es) (r, mirror s !! id) (r', mirror s' !! id).
Proof.
  intros Hl Hr. destruct c;
    [|
    |by apply claim_row|by apply beat_row|by apply retry_row|by apply complete_row|by apply expire_row
    |by apply close_row| |by apply deliver_row|by apply bind_row| | ]; unfold exec; cbn [mine List.filter].
  - destruct (submit_spec row cap0 s) as [->|(Hn & _ & _ & ->)]; [by apply rows_same|].
    apply rows_same; [done| |done]. cbn. rewrite lookup_insert_ne by congruence. done.
  - destruct (submit_bound_spec row cap0 s) as [->|(Hn & _ & _ & ->)]; [by apply rows_same|].
    apply rows_same; [done| |done]. cbn. rewrite lookup_insert_ne by congruence. done.
  - unfold final, close_tenant. cbn. rewrite lookup_fmap, Hr. cbn. eexists. split; [done|].
    destruct (of_tenant tenant r) eqn:Ht; [|constructor]. unfold of_tenant in Ht. bool_prop. by constructor.
  - apply rows_same; [done| |apply reserve_jobs]. by rewrite (proj1 (reserve_jobs _ _ _ _ _ _)).
  - apply rows_same; [done| |apply nonce_jobs]. by rewrite (proj1 (nonce_jobs _ _ _ _ _)).
Qed.


(** ** Rows that are not there *)

Definition unborn (id : string) (es : list event) (s s' : jdb) : Prop :=
  mine id es = [] ∧ jobs s' !! id = None ∧ mirror s' !! id = mirror s !! id.

(** One new row, admitted under the cap. *)
Definition admitted (cap : Z) (row : job_row) (s s' : jdb) : Prop :=
  jobs s !! jr_id row = None ∧ inflight (jobs s) (su_tenant (jr_sub row)) < cap ∧
  (has_project_key (jr_sub row) = true → find_key (jobs s) (jr_sub row) = None) ∧
  s' = Jdb (<[jr_id row := fresh_job row]> (jobs s)) (conflicts s) (receipts s) (mirror s) (nonces s).

Definition born (cap : Z) (id : string) (es : list event) (s s' : jdb) : Prop :=
  ∃ row, id = jr_id row ∧ es = [] ∧ admitted cap row s s'.

Lemma put_unborn id id0 es r0 r1 s m :
  jobs s !! id = None → jobs s !! id0 = Some r0 → (∀ e, e ∈ es → event_job e = id0) →
  (∀ id', id' ≠ id0 → m !! id' = mirror s !! id') →
  ∀ cs rs ns, unborn id es s (Jdb (<[id0 := r1]> (jobs s)) cs rs m ns).
Proof.
  intros Hn H0 He Hm cs rs ns. assert (id ≠ id0) by congruence. split; [|split; cbn; [by rewrite lookup_insert_ne|by apply Hm]].
  apply mine_other. intros e Hin. by rewrite (He e Hin).
Qed.

Lemma same_unborn id s : jobs s !! id = None → unborn id [] s s.
Proof. done. Qed.

Definition is_submit (c : call) : bool := match c with CSubmit _ _ | CSubmitBound _ _ => true | _ => false end.

Lemma exec_unborn c s id :
  is_submit c = false → jobs s !! id = None → unborn id (fst (exec c s)) s (snd (exec c s)).
Proof.
  intros Hc Hn. destruct c; try done; unfold exec.
  - unfold claim. rewrite find_job_run. destruct (jobs s !! id0) as [r|] eqn:H0; [|done].
    destruct (claimable _ _ _); [|done]. eapply put_unborn; [done|exact H0|set_solver|done].
  - unfold heartbeat. rewrite find_job_run. destruct (jobs s !! id0) as [r|] eqn:H0; [|done].
    destruct (beats _ _ _ _ _ _); [|done]. eapply put_unborn; [done|exact H0|set_solver|done].
  - unfold release_for_retry. rewrite find_job_run. destruct (jobs s !! id0) as [r|] eqn:H0; [|done].
    destruct (_ && _ && _ && _); [|done]. eapply put_unborn; [done|exact H0|set_solver|done].
  - unfold complete, transaction. rewrite find_job_run. destruct (jobs s !! id0) as [r|] eqn:H0; [|done].
    destruct (may_complete _ _ _ _ _ _ _).
    + rewrite settle_run. destruct mirror_fails; [done|].
      eapply put_unborn; [done|exact H0|destruct w; set_solver|intros; by rewrite settled_links_ne].
    + destruct (in_flight _); [done|]. destruct (bool_decide _); [done|].
      eapply put_unborn; [done|exact H0|set_solver|done].
  - unfold expire_native_remote, transaction. rewrite find_job_run. destruct (jobs s !! id0) as [r|] eqn:H0; [|done].
    destruct (negb _); [done|]. destruct (su_remote _); [|done]. destruct (j_started r); [|done].
    destruct (clock <? _); [done|]. rewrite settle_run. destruct mirror_fails; [done|].
    eapply put_unborn; [done|exact H0|set_solver|intros; by rewrite settled_links_ne].
  - unfold final, mark_closed. rewrite find_job_run. destruct (jobs s !! id0) as [r|] eqn:H0; [|done].
    destruct (in_flight _); [|done]. eapply put_unborn; [done|exact H0|set_solver|done].
  - split_and!; [done| |done]. cbn. by rewrite lookup_fmap, Hn.
  - unfold final, record_first_delivery. rewrite find_job_run. destruct (jobs s !! id0) as [r|] eqn:H0; [|done].
    destruct (in_flight _); [done|]. destruct (_ ≫= _); [done|]. eapply put_unborn; [done|exact H0|set_solver|done].
  - unfold bind_aps_workitem. destruct (_ <? _); [done|]. destruct (_ || _); [done|].
    rewrite find_job_run. destruct (jobs s !! id0) as [r|] eqn:H0; [|done].
    destruct (bindable _ _ _ _ _); [|done]. eapply put_unborn; [done|exact H0|set_solver|done].
  - cbn. destruct (reserve_jobs id0 attempt workitem c clock s) as [H1 H2]. split_and!; [done|by rewrite H1|by rewrite H2].
  - cbn. destruct (nonce_jobs id0 nonce expires now s) as [H1 H2]. split_and!; [done|by rewrite H1|by rewrite H2].
Qed.


(** A call adds no row, or admits one. *)
Lemma exec_shape cap M c s :
  lawful cap M c →
  (∀ id, jobs s !! id = None → unborn id (fst (exec c s)) s (snd (exec c s))) ∨
  ∃ row, fst (exec c s) = [] ∧ admitted cap row s (snd (exec c s)).
Proof.
  intros Hl. destruct (is_submit c) eqn:Hc; [|left; intros; by apply exec_unborn].
  destruct c; try done; cbn [exec fst snd].
  1: destruct (submit_spec row cap0 s) as [->|(H1 & H2 & H3 & H4)].
  3: destruct (submit_bound_spec row cap0 s) as [->|(H1 & H2 & H3 & H4)].
  1,3: left; intros; by apply same_unborn.
  all: right; exists row; split; [done|]; split_and!; [done|cbn in Hl; lia|done|done].
Qed.

Lemma exec_none cap M c s id :
  lawful cap M c → jobs s !! id = None →
  unborn id (fst (exec c s)) s (snd (exec c s)) ∨ born cap id (fst (exec c s)) s (snd (exec c s)).
Proof.
  intros Hl Hn. destruct (exec_shape cap M c s Hl) as [H|(row & He & Ha)]; [left; by apply H|].
  destruct (decide (id = jr_id row)) as [->|Hne]; [right; by exists row|].
  left. destruct Ha as (_ & _ & _ & ->). rewrite He. split_and!; [done|cbn; by rewrite lookup_insert_ne|done].
Qed.

(** ** The history of a row *)

Fixpoint claims (L : list event) : list (string * Z) :=
  match L with
  | [] => []
  | Claimed _ w a :: L' => (w, a) :: claims L'
  | _ :: L' => claims L'
  end.

(** the n-th claim was answered n *)
Fixpoint numbered (cl : list (string * Z)) : Prop :=
  match cl with
  | [] => True
  | (_, a) :: cl' => a = Z.of_nat (length cl) ∧ numbered cl'
  end.

(** a worker acts only while the latest claim is its own *)
Fixpoint acted_ok (L : list event) : Prop :=
  match L with
  | [] => True
  | Acted _ w :: L' => fst <$> head (claims L') = Some w ∧ acted_ok L'
  | _ :: L' => acted_ok L'
  end.

Definition is_ended (e : event) : bool := match e with Ended _ _ => true | _ => false end.
Definition ended (L : list event) : list event := List.filter is_ended L.

(** *** The linked row of the platform *)

Definition is_link (e : event) : bool := match e with Linked _ | Withdrawn _ => true | _ => false end.
Definition links (L : list event) : list event := List.filter is_link L.

(** what created the linked row, and what cancelled it *)
Definition links_ok (id : string) (L : list event) (m : option platform_job) : Prop :=
  match m with
  | None => Linked id ∉ links L
  | Some m => Linked id ∈ links L ∧ (pj_status m = PlCancelled → Withdrawn id ∈ links L)
  end.

(** the row was created when the job had already ended *)
Definition linked_late (id : string) (L : list event) : Prop :=
  ∃ L1 L2 st, L = L1 ++ Linked id :: L2 ∧ Ended id st ∈ L2.

(** while the job is in flight the linked row gives no verdict *)
Definition no_verdict (m : option platform_job) : Prop :=
  ∀ pj, m = Some pj → pj_result pj = None ∧ pj_status pj ≠ PlSucceeded ∧ pj_status pj ≠ PlFailed.

(** and once it has ended the verdict, if there is one, is the job's *)
Definition verdict_agrees (id : string) (L : list event) (r : job) (m : option platform_job) : Prop :=
  ∀ pj, m = Some pj →
    match pj_status pj with
    | PlSucceeded => j_status r = Complete ∧ pj_result pj = j_result r
    | PlFailed => j_status r = Failed ∧ pj_result pj = None
    | PlCancelled => pj_result pj = None
    | PlQueued | PlRunning => pj_result pj = None ∧ linked_late id L
    end.

Record row_ok (M : Z) (id : string) (L : list event) (l : linked) : Prop := {
  ok_attempt : j_attempt l.1 = Z.of_nat (length (claims L));
  ok_bound : j_attempt l.1 <= Z.max 0 M;
  ok_numbered : numbered (claims L);
  ok_lease : ∀ o e, j_lease l.1 = Some (o, e) → fst <$> head (claims L) = Some o;
  ok_acted : acted_ok L;
  ok_flight : in_flight (j_status l.1) = true → ended L = [] ∧ no_verdict l.2 ∧ j_terminal l.1 = None;
  ok_ended : in_flight (j_status l.1) = false →
    ended L = [Ended id (j_status l.1)] ∧ j_lease l.1 = None ∧ verdict_agrees id L l.1 l.2;
  ok_links : links_ok id L l.2;
  ok_closed : open_progress l.1 = false → j_lease l.1 = None;
  ok_workitem : ∀ wi a, j_workitem l.1 = Some (wi, a) → a <= j_attempt l.1 ∧ Bound id a wi ∈ L;
  ok_bindings : ∀ wi a, Bound id a wi ∈ L →
    ∃ wi' a', j_workitem l.1 = Some (wi', a') ∧ a <= a' ∧ (a = a' → wi = wi');
  ok_once : ∀ wi wi' a, Bound id a wi ∈ L → Bound id a wi' ∈ L → wi = wi' }.

Lemma lease_live_Some r w now : lease_live r w now = true → ∃ e, j_lease r = Some (w, e).
Proof. unfold lease_live. destruct (j_lease r) as [[o e]|]; [|done]. intros H. bool_prop. subst. by exists e. Qed.

Lemma fresh_ok M id row : row_ok M id [] (fresh_job row, None).
Proof.
  split; cbn; try done; [lia|apply not_elem_of_nil|by intros ? ? ?%not_elem_of_nil|by intros ? ? ? ?%not_elem_of_nil].
Qed.

Lemma beats_Some r w now expires clock attempt :
  beats r w now expires clock attempt = true → j_status r = Running ∧ ∃ e, j_lease r = Some (w, e).
Proof. unfold beats. intros H. bool_prop. split; [done|]. by eapply lease_live_Some. Qed.

Lemma bindable_Some r attempt w workitem clock :
  bindable r attempt w workitem clock = true →
  j_attempt r = attempt ∧ j_status r = Running ∧ open_progress r = true ∧ (∃ e, j_lease r = Some (w, e)) ∧
  ∀ wi a, j_workitem r = Some (wi, a) → a = attempt → wi = workitem.
Proof.
  unfold bindable. intros H. bool_prop. destruct (j_lease r) as [[o e]|]; [|done]. bool_prop. subst.
  split_and!; [done|done|done|by exists e|].
  intros wi a Hw ->. match goal with H : match j_workitem r with _ => _ end = true |- _ => rewrite Hw, Z.eqb_refl in H; cbn in H; by bool_prop end.
Qed.


Ltac elem_log := match goal with
  | H : _ ∈ _ :: _ |- _ => apply elem_of_cons in H as [H|H]; [discriminate H|]
  end.

Lemma claim_ok M id L r m w stamp expires n :
  n <= M → claimable r stamp n = true → row_ok M id L (r, m) →
  row_ok M id (Claimed id w (j_attempt r + 1) :: L) (claimed_job r w stamp expires, m).
Proof.
  intros Hn Hc [H1 H2 H3 H4 H5 H6 H7 H12 H8 H9 H10 H11]. unfold claimable in Hc. cbn in *. bool_prop.
  assert (Hf : in_flight (j_status r) = true) by (destruct (j_status r); done).
  split; cbn; try done; try lia.
  - split; [|done]. rewrite H1. lia.
  - intros o e [= <- <-]. done.
  - intros _. by apply H6.
  - intros wi a Hw. destruct (H9 wi a Hw). split; [lia|by right].
  - intros wi a Hb. elem_log. by apply H10.
  - intros wi wi' a Hb Hb'. do 2 elem_log. by eapply H11.
Qed.

Lemma act_ok M id L r r' m w :
  row_ok M id L (r, m) → (∃ e, j_lease r = Some (w, e)) → in_flight (j_status r) = true →
  j_attempt r' = j_attempt r → in_flight (j_status r') = true → j_terminal r' = j_terminal r →
  (∀ o e, j_lease r' = Some (o, e) → o = w) → (open_progress r' = false → j_lease r' = None) →
  j_workitem r' = j_workitem r →
  row_ok M id (Acted id w :: L) (r', m).
Proof.
  intros [H1 H2 H3 H4 H5 H6 H7 H12 H8 H9 H10 H11] [e He] Hf Ha Hf' Ht Hl Hc Hw. cbn in *.
  split; cbn; try rewrite Ha; try rewrite Hw; try done.
  - intros o e' Ho. rewrite (Hl _ _ Ho). by eapply H4.
  - split; [by eapply H4|done].
  - intros _. rewrite Ht. by apply H6.
  - congruence.
  - intros wi a Hwi. destruct (H9 wi a Hwi). split; [done|by right].
  - intros wi a Hb. elem_log. by apply H10.
  - intros wi wi' a Hb Hb'. do 2 elem_log. by eapply H11.
Qed.

(** The outcome on the linked row: a row in progress takes the verdict, a cancelled
    one stays as it is. *)
Lemma mirrored_agrees id L r p now m :
  in_flight (rp_status p) = false → no_verdict m → verdict_agrees id L (settled_job r p now) (mirrored p m).
Proof.
  intros Hp Hv pj Hpj. destruct m as [m|]; [|done]. destruct (Hv m eq_refl) as (Hr & Hs & Hf). injection Hpj as <-.
  unfold _terminal_fields. destruct m as [[] res], p as [[] res' err prov fp]; cbn in *; try done; subst;
    rewrite ?bool_decide_true, ?bool_decide_false by done; cbn; split; try done; by destruct res'.
Qed.

Lemma mirrored_links id es p m :
  links_ok id es m → links_ok id es (mirrored p m).
Proof.
  destruct m as [m|]; [|done]. unfold links_ok, mirrored, _terminal_fields. cbn. intros [Hl Hw]. split; [done|].
  destruct m as [[] res], p as [[] res' err prov fp]; cbn in *; done.
Qed.

Lemma settle_ok M id L r m p now es :
  in_flight (j_status r) = true → in_flight (rp_status p) = false →
  (∀ w, Acted id w ∈ es → lease_live r w now = true) →
  es = [Ended id (rp_status p)] ∨ (∃ w, es = [Ended id (rp_status p); Acted id w]) →
  row_ok M id L (r, m) → row_ok M id (es ++ L) (settled_job r p now, mirrored p m).
Proof.
  intros Hf Hp Hact Hes [H1 H2 H3 H4 H5 H6 H7 H12 H8 H9 H10 H11]. cbn in *. destruct (H6 Hf) as (He & Hv & Ht).
  assert (Hcl : claims (es ++ L) = claims L) by (destruct Hes as [->|[w ->]]; done).
  assert (Hend : ended (es ++ L) = [Ended id (rp_status p)]) by (destruct Hes as [->|[w ->]]; cbn; by rewrite <- ?He).
  assert (Hbd : ∀ wi a, Bound id a wi ∈ es ++ L ↔ Bound id a wi ∈ L).
  { intros wi a. destruct Hes as [->|[w ->]]; set_solver. }
  assert (Hln : links (es ++ L) = links L) by (destruct Hes as [->|[w ->]]; done).
  split; cbn; rewrite ?Hcl; try done.
  - destruct Hes as [->|[w ->]]; [done|]. cbn. split; [|done].
    destruct (lease_live_Some r w now) as [e Hlive]; [apply Hact; set_solver|]. by eapply H4.
  - congruence.
  - intros _. split_and!; [done..|]. by apply mirrored_agrees.
  - unfold links_ok in *. rewrite Hln. by apply mirrored_links.
  - intros wi a Hwi. destruct (H9 wi a Hwi). split; [done|]. by apply Hbd.
  - intros wi a Hb. apply H10. by apply Hbd.
  - intros wi wi' a Hb%Hbd Hb'%Hbd. by eapply H11.
Qed.

Lemma quiet_ok M id L r r' m :
  row_ok M id L (r, m) → j_attempt r' = j_attempt r → j_status r' = j_status r → j_result r' = j_result r →
  j_terminal r' = j_terminal r → (j_lease r' = j_lease r ∨ j_lease r' = None) →
  (open_progress r' = open_progress r ∨ j_lease r' = None) → j_workitem r' = j_workitem r →
  row_ok M id L (r', m).
Proof.
  intros [H1 H2 H3 H4 H5 H6 H7 H12 H8 H9 H10 H11] Ha Hs Hr Ht Hl Hc Hw. cbn in *.
  split; cbn; rewrite ?Ha, ?Hs, ?Ht, ?Hw; try done.
  - intros o e Ho. destruct Hl as [Hl|Hl]; [rewrite Hl in Ho; by eapply H4|congruence].
  - intros Hf. destruct (H7 Hf) as (? & ? & Hv). split_and!; [done|by destruct Hl as [->| ->]|].
    unfold verdict_agrees in *. by rewrite Hs, Hr.
  - intros Ho. destruct Hc as [Hc|]; [|done]. rewrite Hc in Ho. specialize (H8 Ho). by destruct Hl as [->| ->].
Qed.

Lemma bind_ok M id L r m attempt w workitem clock :
  bindable r attempt w workitem clock = true → row_ok M id L (r, m) →
  row_ok M id (Bound id attempt workitem :: Acted id w :: L) (bound_job r attempt workitem, m).
Proof.
  intros Hb [H1 H2 H3 H4 H5 H6 H7 H12 H8 H9 H10 H11]. cbn in *.
  apply bindable_Some in Hb as (Ha & Hst & Hop & [e He] & Hwi).
  assert (Hold : ∀ wi, Bound id attempt wi ∈ L → wi = workitem).
  { intros wi Hb. destruct (H10 wi attempt Hb) as (wi' & a' & Hw' & Hle & Heq).
    destruct (H9 _ _ Hw') as [Hle' _]. assert (a' = attempt) as -> by lia. rewrite Heq by done. by eapply Hwi. }
  split; cbn; try done.
  - split; [by eapply H4|done].
  - by rewrite Hst.
  - intros wi a [= <- <-]. split; [lia|left].
  - intros wi a Hb. exists workitem, attempt. split; [done|].
    apply elem_of_cons in Hb as [[= -> ->]|Hb]; [done|]. elem_log.
    destruct (H10 wi a Hb) as (wi' & a' & Hw' & Hle & _). destruct (H9 _ _ Hw') as [Hle' _].
    split; [lia|]. intros ->. by apply Hold.
  - intros wi wi' a Hb Hb'.
    apply elem_of_cons in Hb as [[= -> ->]|Hb]; apply elem_of_cons in Hb' as [Hb'|Hb']; repeat elem_log.
    + by injection Hb' as ->.
    + symmetry. by apply Hold.
    + injection Hb' as -> ->. by apply Hold.
    + by eapply H11.
Qed.

Lemma job_row_step_ok M id es l l' L : row_step M id es l l' → row_ok M id L l → row_ok M id (es ++ L) l'.
Proof.
  destruct 1; intros Hok; cbn [app].
  - done.
  - by eapply claim_ok.
  - apply beats_Some in H as [Hs Hl]. eapply act_ok; cbn; try done; [by rewrite Hs|by rewrite Hs|by intros ? ? [= <- <-]|].
    intros Hc. exfalso. assert (Ho : open_progress r = false).
    { unfold open_progress in *. cbn in Hc. destruct progress as [p|]; [|done]. cbn in Hc. bool_prop. congruence. }
    destruct Hl as [e He]. apply (ok_closed _ _ _ _ Hok) in Ho. cbn in Ho. congruence.
  - eapply act_ok; cbn; try done; [by eapply lease_live_Some|by rewrite H].
  - eapply quiet_ok; try done; by right.
  - by eapply settle_ok.
  - eapply quiet_ok; try done; by left.
  - eapply quiet_ok; try done; by left.
  - by eapply bind_ok.
Qed.


(** ** Every reachable state *)

Definition rows_ok (M : Z) (s : sys) : Prop :=
  ∀ id, match jobs (s_db s) !! id with
        | Some r => row_ok M id (mine id (s_log s)) (r, mirror (s_db s) !! id)
        | None => mine id (s_log s) = [] ∧ mirror (s_db s) !! id = None
        end.

Lemma exec_row' cap M c s id r :
  lawful cap M c → jobs s !! id = Some r →
  ∃ r', jobs (snd (exec c s)) !! id = Some r' ∧
        row_step M id (mine id (fst (exec c s))) (r, mirror s !! id) (r', mirror (snd (exec c s)) !! id).
Proof. intros Hl Hr. pose proof (exec_row cap M c s id r Hl Hr) as H. by destruct (exec c s). Qed.

Lemma mine_app id l1 l2 : mine id (l1 ++ l2) = mine id l1 ++ mine id l2.
Proof. apply List.filter_app. Qed.

Lemma init_rows M : rows_ok M init.
Proof. intros id. cbn. by rewrite !lookup_empty. Qed.

Lemma step_rows cap M s s' : step cap M s s' → rows_ok M s → rows_ok M s'.
Proof.
  intros [c s0 Hl] Hok id. specialize (Hok id). cbn [s_db s_log]. rewrite mine_app.
  destruct (jobs (s_db s0) !! id) as [r|] eqn:Hr.
  - destruct (exec_row' cap M c _ id r Hl Hr) as (r' & -> & Hst). by eapply job_row_step_ok.
  - destruct Hok as [Hm Hn]. destruct (exec_none cap M c _ id Hl Hr) as [(He & -> & ->)|(row & -> & -> & _ & _ & _ & ->)].
    + by rewrite He, Hm.
    + cbn. rewrite lookup_insert_eq, Hm, Hn. apply fresh_ok.
Qed.

(** *** The platform's side of the link *)

(** What happens to the linked row outside the transactions of the spine: the
    submitting route creates it ([on_submit], best effort, after the job row is
    there), the worker marks it running ([on_running]), a project member cancels
    it on the platform ([arlo_lab.job_view]). *)
Inductive platform_call := PSubmit (id : string) | PRun (id : string) | PCancel (id : string).

Definition open_link (id : string) (s : jdb) : bool :=
  match mirror s !! id with Some m => negb (platform_terminal (pj_status m)) | None => false end.

Definition platform_exec (c : platform_call) (s : jdb) : list event * jdb :=
  match c with
  | PSubmit id =>
      match jobs s !! id with
      | Some _ => (match mirror s !! id with None => [Linked id] | Some _ => [] end, final (on_submit id) s)
      | None => ([], s)
      end
  | PRun id => ([], final (on_running id) s)
  | PCancel id => (if open_link id s then [Withdrawn id] else [], final (cancel_linked id) s)
  end.

(** The spine and the platform together. *)
Inductive linked_step (cap max_attempts : Z) : sys → sys → Prop :=
| ls_spine s s' : step cap max_attempts s s' → linked_step cap max_attempts s s'
| ls_platform c s :
    linked_step cap max_attempts s (Sys (snd (platform_exec c (s_db s))) (fst (platform_exec c (s_db s)) ++ s_log s)).

Inductive link_step (id : string) : list event → option platform_job → option platform_job → Prop :=
| lk_same m : link_step id [] m m
| lk_link : link_step id [Linked id] None (Some (PlatformJob PlQueued None))
| lk_run m : platform_terminal (pj_status m) = false →
    link_step id [] (Some m) (Some (updated_platform_job m PlRunning None))
| lk_cancel m : platform_terminal (pj_status m) = false →
    link_step id [Withdrawn id] (Some m) (Some (updated_platform_job m PlCancelled None)).

(** A change of the linked row alone. *)
Lemma relink_ok M id es L r m m' :
  es = [] ∨ (∃ e, es = [e] ∧ is_link e = true) → row_ok M id L (r, m) →
  (no_verdict m → no_verdict m') →
  (ended L = [Ended id (j_status r)] → verdict_agrees id L r m → verdict_agrees id (es ++ L) r m') →
  links_ok id (es ++ L) m' → row_ok M id (es ++ L) (r, m').
Proof.
  intros Hes [H1 H2 H3 H4 H5 H6 H7 H12 H8 H9 H10 H11] Hv Ha Hl. cbn in *.
  assert (Hcl : claims (es ++ L) = claims L) by (destruct Hes as [->|([] & -> & ?)]; done).
  assert (Hend : ended (es ++ L) = ended L) by (destruct Hes as [->|([] & -> & ?)]; done).
  assert (Hac : acted_ok (es ++ L)) by (destruct Hes as [->|([] & -> & ?)]; done).
  assert (Hbd : ∀ wi a, Bound id a wi ∈ es ++ L ↔ Bound id a wi ∈ L).
  { intros wi a. destruct Hes as [->|([] & -> & ?)]; set_solver. }
  split; cbn; rewrite ?Hcl, ?Hend; try done; [naive_solver..| | |].
  - intros wi a Hw. rewrite Hbd. by apply H9.
  - intros wi a. rewrite Hbd. apply H10.
  - intros wi wi' a. rewrite !Hbd. apply H11.
Qed.

Lemma ended_elem id st L : ended L = [Ended id st] → Ended id st ∈ L.
Proof.
  intros He. apply list_elem_of_In, (proj1 (List.filter_In is_ended _ L)).
  change (List.In (Ended id st) (ended L)). rewrite He. by left.
Qed.

Lemma link_step_ok M id es m m' L r :
  link_step id es m m' → row_ok M id L (r, m) → row_ok M id (es ++ L) (r, m').
Proof.
  destruct 1 as [|  |m Hm|m Hm]; intros Hok; [done|..];
    (eapply relink_ok; [eauto|exact Hok|..]); pose proof (ok_links _ _ _ _ Hok) as Hl; cbn in *.
  - by intros _ pj [= <-].
  - intros He _ pj [= <-]. split; [done|]. exists [], L, (j_status r). split; [done|by apply ended_elem].
  - split; [left|done].
  - intros Hv pj [= <-]. by destruct (Hv m eq_refl) as (? & _).
  - intros _ Hv pj [= <-]. specialize (Hv m eq_refl). cbn. by destruct (pj_status m).
  - by split; [apply Hl|].
  - intros Hv pj [= <-]. by destruct (Hv m eq_refl) as (? & _).
  - intros _ Hv pj [= <-]. specialize (Hv m eq_refl). cbn. by destruct (pj_status m); try apply Hv.
  - split; [right; apply Hl|left].
Qed.

(** A call of the platform, on every linked row: [id0] is the one it is about. *)
Lemma one_link id0 es0 s s' id :
  jobs s' = jobs s → (∀ e, e ∈ es0 → event_job e = id0) →
  (∀ id', id' ≠ id0 → mirror s' !! id' = mirror s !! id') →
  link_step id0 es0 (mirror s !! id0) (mirror s' !! id0) →
  (jobs s !! id0 = None → mirror s !! id0 = None → es0 = [] ∧ mirror s' !! id0 = None) →
  jobs s' = jobs s ∧ link_step id (mine id es0) (mirror s !! id) (mirror s' !! id) ∧
  (jobs s !! id = None → mirror s !! id = None → mine id es0 = [] ∧ mirror s' !! id = None).
Proof.
  intros Hj He Ho Hl Hn. split; [done|]. destruct (decide (id = id0)) as [->|Hne].
  - by rewrite mine_self.
  - rewrite (Ho id Hne), mine_other; [split; [constructor|done]|]. intros e Hin. by rewrite (He e Hin).
Qed.

Lemma platform_exec_row c s id :
  let '(es, s') := platform_exec c s in
  jobs s' = jobs s ∧ link_step id (mine id es) (mirror s !! id) (mirror s' !! id) ∧
  (jobs s !! id = None → mirror s !! id = None → mine id es = [] ∧ mirror s' !! id = None).
Proof.
  destruct c as [id0|id0|id0]; unfold platform_exec; [destruct (jobs s !! id0) eqn:Hr|..]; apply (one_link id0); try done.
  all: unfold final, on_submit, on_running, cancel_linked, _update_by_spine, open_link; cbn [fst snd jobs mirror];
    rewrite ?update_linked_at.
  all: try (intros id' ?; by rewrite update_linked_ne).
  all: destruct (mirror s !! id0) as [m|] eqn:Hm; rewrite ?Hm; cbn [fst snd jobs mirror fmap option_fmap option_map];
    rewrite ?lookup_insert_eq; try destruct (platform_terminal _) eqn:Ht; cbn [negb]; try done; try congruence; try by constructor.
  all: try (by intros ? ->%list_elem_of_singleton); try (by intros ? ?%not_elem_of_nil).
  all: by intros id' ?; rewrite lookup_insert_ne.
Qed.

Lemma linked_step_rows cap M s s' : linked_step cap M s s' → rows_ok M s → rows_ok M s'.
Proof.
  intros [s0 s1 Hst|c s0] Hok; [by eapply step_rows|]. intros id. specialize (Hok id).
  pose proof (platform_exec_row c (s_db s0) id) as Hc. destruct (platform_exec c (s_db s0)) as [es db].
  destruct Hc as (Hj & Hl & Hn). cbn [s_db s_log fst snd]. rewrite mine_app, Hj.
  destruct (jobs (s_db s0) !! id) as [r|]; [by eapply link_step_ok|].
  destruct Hok as [Hm Hmi]. destruct (Hn eq_refl Hmi) as [-> ->]. done.
Qed.

Lemma linked_rows cap M s : star (linked_step cap M) init s → rows_ok M s.
Proof. intros H. eapply star_invariant; [|exact H|apply init_rows]. intros ? ? Hok Hst. by eapply linked_step_rows. Qed.

Lemma reachable_rows cap M s : star (step cap M) init s → rows_ok M s.
Proof. intros H. eapply star_invariant; [|exact H|apply init_rows]. intros ? ? Hok Hst. by eapply step_rows. Qed.


Lemma job_step_inv cap M s s' :
  step cap M s s' → ∃ c, lawful cap M c ∧ s' = Sys (snd (exec c (s_db s))) (fst (exec c (s_db s)) ++ s_log s).
Proof. destruct 1. eauto. Qed.

(** ** Outcomes are final *)

(** What a later call may still change of a terminal row: the delivery stamp, once. *)
Definition stamped (p p' : option provenance) : Prop :=
  p' = p ∨ (p ≫= pv_delivered = None ∧ ∃ t, p' = Some (delivered p t)).

Record settled (r r' : job) : Prop := {
  se_status : j_status r' = j_status r; se_attempt : j_attempt r' = j_attempt r;
  se_result : j_result r' = j_result r; se_error : j_error r' = j_error r;
  se_finished : j_finished r' = j_finished r; se_terminal : j_terminal r' = j_terminal r;
  se_lease : j_lease r' = j_lease r; se_provenance : stamped (j_provenance r) (j_provenance r') }.

Lemma stamped_trans p1 p2 p3 : stamped p1 p2 → stamped p2 p3 → stamped p1 p3.
Proof.
  intros [->|[H [t ->]]] H2; [done|]. destruct H2 as [->|[H' _]]; [by right; eauto|done].
Qed.

Lemma settled_trans r1 r2 r3 : settled r1 r2 → settled r2 r3 → settled r1 r3.
Proof. intros [] []. split; try congruence. by eapply stamped_trans. Qed.

Lemma settled_refl r : settled r r.
Proof. split; try done. by left. Qed.

Lemma settled_step M id es r m r' m' :
  row_step M id es (r, m) (r', m') → in_flight (j_status r) = false →
  settled r r' ∧ m' = m ∧ es = [].
Proof.
  inversion 1; subst; intros Hf; try (split_and!; [apply settled_refl|done|done]); try congruence.
  - unfold claimable in *. bool_prop. by destruct (j_status r).
  - match goal with H : beats _ _ _ _ _ _ = true |- _ => apply beats_Some in H as [Hs _]; by rewrite Hs in Hf end.
  - match goal with H : j_status r = Running |- _ => by rewrite H in Hf end.
  - split_and!; [|done|done]. split; try done. by left.
  - split_and!; [|done|done]. split; try done. right. eauto.
  - match goal with H : bindable _ _ _ _ _ = true |- _ => apply bindable_Some in H as (_ & Hs & _); by rewrite Hs in Hf end.
Qed.

(** (C16) A terminal outcome is immutable: once a job is complete or failed, no
    call of any client of the spine, on any clock, changes its status, attempt,
    result, error, finish time or fingerprint, gives it a lease, changes its linked
    platform row or is logged for it; its provenance gains at most the delivery stamp, once. *)
Theorem job_outcome_is_final cap M s s' id r :
  star (step cap M) s s' → jobs (s_db s) !! id = Some r → in_flight (j_status r) = false →
  ∃ r', jobs (s_db s') !! id = Some r' ∧ settled r r' ∧
        mirror (s_db s') !! id = mirror (s_db s) !! id ∧ mine id (s_log s') = mine id (s_log s).
Proof.
  intros Hst Hr Hf.
  eapply (star_invariant (step cap M) (λ s', ∃ r', jobs (s_db s') !! id = Some r' ∧ settled r r' ∧
    mirror (s_db s') !! id = mirror (s_db s) !! id ∧ mine id (s_log s') = mine id (s_log s))); [|exact Hst|].
  2:{ exists r. split_and!; [done|apply settled_refl|done|done]. }
  intros s1 s2 (r1 & H1 & Hs1 & Hm1 & Hl1) (c & Hl & ->)%job_step_inv. cbn [s_db s_log].
  destruct (exec_row' cap M c _ id r1 Hl H1) as (r2 & H2 & Hrs).
  apply settled_step in Hrs as (Hs2 & Hm2 & He); [|by rewrite (se_status _ _ Hs1)].
  exists r2. split_and!; [done|by eapply settled_trans|congruence|]. by rewrite mine_app, He.
Qed.

(** (C18) Exactly one outcome is applied to a job that ends, and the linked row of
    the platform never contradicts it, with the route that links the row, the
    worker that marks it running and members who cancel it all interleaved.  A job
    in flight has no outcome in the log and its linked row gives no verdict.  A job
    that ended has one outcome in the log, its row's; its linked row says succeeded
    only if the job is complete, and then with the job's result, failed only if the
    job failed; a linked row that gives no verdict was cancelled on the platform, or
    was created after the job had ended; and there is none only if none was
    created. *)
Theorem outcome_applied_once cap M s id :
  star (linked_step cap M) init s →
  match jobs (s_db s) !! id with
  | Some r =>
      if in_flight (j_status r) then ended (mine id (s_log s)) = [] ∧ no_verdict (mirror (s_db s) !! id)
      else ended (mine id (s_log s)) = [Ended id (j_status r)] ∧
           verdict_agrees id (mine id (s_log s)) r (mirror (s_db s) !! id) ∧
           links_ok id (mine id (s_log s)) (mirror (s_db s) !! id)
  | None => mine id (s_log s) = [] ∧ mirror (s_db s) !! id = None
  end.
Proof.
  intros H%linked_rows. specialize (H id). destruct (jobs (s_db s) !! id) as [r|]; [|done].
  destruct (in_flight (j_status r)) eqn:Hf.
  - by destruct (ok_flight _ _ _ _ H Hf) as (? & ? & _).
  - destruct (ok_ended _ _ _ _ H Hf) as (? & _ & ?). split_and!; [done..|apply (ok_links _ _ _ _ H)].
Qed.

(** ** One worker per attempt *)

Lemma numbered_unique cl1 cl2 w1 w2 a : numbered (cl1 ++ (w1, a) :: cl2) → (w2, a) ∉ cl2.
Proof.
  induction cl1 as [|[w a'] cl1 IH]; cbn; [|naive_solver].
  intros [Ha Hn] Hin. apply list_elem_of_split in Hin as (l1 & l2 & ->).
  assert (a = Z.of_nat (S (length l2))); [|rewrite length_app in Ha; cbn in Ha; lia].
  clear Ha. induction l1 as [|[w' a''] l1 IH']; cbn in Hn; [by destruct Hn|]. apply IH'. by destruct Hn.
Qed.

Lemma claims_app l1 l2 : claims (l1 ++ l2) = claims l1 ++ claims l2.
Proof. induction l1 as [|[] l1 IH]; cbn; [done|by rewrite IH|done..]. Qed.

Lemma mine_cons id e es : event_job e = id → mine id (e :: es) = e :: mine id es.
Proof. intros He. unfold mine. cbn [List.filter]. by rewrite bool_decide_true. Qed.

Lemma claims_mine id w a l : Claimed id w a ∈ l → (w, a) ∈ claims (mine id l).
Proof.
  intros Hin. apply list_elem_of_split in Hin as (l1 & l2 & ->).
  rewrite mine_app, mine_cons, claims_app by done. cbn. set_solver.
Qed.

Lemma acted_app l1 id w l2 : acted_ok (l1 ++ Acted id w :: l2) → fst <$> head (claims l2) = Some w.
Proof. induction l1 as [|[] l1 IH]; cbn; naive_solver. Qed.


(** An attempt belongs to one worker: two claims of a job never get the same
    attempt number, no job is claimed more often than the limit allows, and a
    heartbeat, a retry, a binding or a completion that names a worker is accepted
    only while the latest claim of the job is that worker's, so a worker whose
    lease was taken over never acts again. *)
Theorem attempt_has_one_worker cap M s id :
  star (step cap M) init s →
  (∀ l1 l2 w1 w2 a, s_log s = l1 ++ Claimed id w1 a :: l2 → Claimed id w2 a ∉ l2) ∧
  Z.of_nat (length (claims (mine id (s_log s)))) <= Z.max 0 M ∧
  (∀ l1 l2 w, s_log s = l1 ++ Acted id w :: l2 → fst <$> head (claims (mine id l2)) = Some w).
Proof.
  intros H%reachable_rows. specialize (H id). destruct (jobs (s_db s) !! id) as [r|].
  - split_and!.
    + intros l1 l2 w1 w2 a Hlog Hin%claims_mine. pose proof (ok_numbered _ _ _ _ H) as Hn.
      rewrite Hlog, mine_app, mine_cons, claims_app in Hn by done. cbn [claims] in Hn.
      by eapply numbered_unique in Hn.
    + rewrite <- (ok_attempt _ _ _ _ H). apply (ok_bound _ _ _ _ H).
    + intros l1 l2 w Hlog. pose proof (ok_acted _ _ _ _ H) as Ha.
      rewrite Hlog, mine_app, mine_cons in Ha by done. by eapply acted_app.
  - destruct H as [H _]. split_and!.
    + intros l1 l2 w1 w2 a Hlog. rewrite Hlog, mine_app, mine_cons in H by done. by destruct (mine id l1).
    + rewrite H. cbn. lia.
    + intros l1 l2 w Hlog. rewrite Hlog, mine_app, mine_cons in H by done. by destruct (mine id l1).
Qed.

(** ** Closed jobs *)

(** In flight and closed, or ended. *)
Definition shut (r : job) : Prop := in_flight (j_status r) = false ∨ (open_progress r = false ∧ j_lease r = None).

Lemma job_shut_step M id es r m r' m' :
  row_step M id es (r, m) (r', m') → shut r → shut r' ∧ ∀ e, e ∈ es → is_ended e = true.
Proof.
  intros Hst [Hf|[Ho Hl]].
  { pose proof (settled_step _ _ _ _ _ _ _ Hst Hf) as (Hs & _ & ->). split; [|intros ? ?%not_elem_of_nil; done].
    left. by rewrite (se_status _ _ Hs). }
  inversion Hst; subst.
  - split; [by right|intros ? ?%not_elem_of_nil; done].
  - unfold claimable in *. bool_prop. congruence.
  - match goal with H : beats _ _ _ _ _ _ = true |- _ => apply beats_Some in H as [_ [e He]]; congruence end.
  - congruence.
  - split; [right; by split|intros ? ?%not_elem_of_nil; done].
  - split; [by left|]. intros e He. match goal with H : _ ∨ _ |- _ => destruct H as [->|[w ->]] end; [set_solver|].
    exfalso. destruct (lease_live_Some r w now) as [? ?]; [|congruence].
    match goal with H : ∀ w, _ → lease_live _ _ _ = true |- _ => apply H end. set_solver.
  - split; [left; done|intros ? ?%not_elem_of_nil; done].
  - split; [left; done|intros ? ?%not_elem_of_nil; done].
  - match goal with H : bindable _ _ _ _ _ = true |- _ => apply bindable_Some in H as (_ & _ & Hop & _); congruence end.
Qed.

(** A closed job never runs again: from the moment its row says [closed], no
    claim, heartbeat, retry, binding or completion by a worker is accepted for it,
    whatever the clients do; all that can still happen to it is its terminal
    outcome. *)
Theorem closed_job_never_resumes cap M s s' id r :
  star (step cap M) init s → star (step cap M) s s' →
  jobs (s_db s) !! id = Some r → open_progress r = false →
  ∃ new, mine id (s_log s') = new ++ mine id (s_log s) ∧ ∀ e, e ∈ new → ∃ st, e = Ended id st.
Proof.
  intros Hreach Hst Hr Ho. apply reachable_rows in Hreach. specialize (Hreach id). rewrite Hr in Hreach.
  assert (Hshut : shut r) by (right; split; [done|by apply (ok_closed _ _ _ _ Hreach)]).
  assert (∃ r' new, jobs (s_db s') !! id = Some r' ∧ shut r' ∧ mine id (s_log s') = new ++ mine id (s_log s) ∧
    ∀ e, e ∈ new → is_ended e = true ∧ event_job e = id) as (_ & new & _ & _ & Hn & He).
  2:{ exists new. split; [done|]. intros e [H1 H2]%He. destruct e; try done. cbn in H2. subst. eauto. }
  eapply (star_invariant (step cap M) (λ s', ∃ r' new, jobs (s_db s') !! id = Some r' ∧ shut r' ∧
    mine id (s_log s') = new ++ mine id (s_log s) ∧ ∀ e, e ∈ new → is_ended e = true ∧ event_job e = id)); [|exact Hst|].
  2:{ exists r, []. split_and!; [done|done|done|intros ? ?%not_elem_of_nil; done]. }
  intros s1 s2 (r1 & new & H1 & Hs1 & Hn & He) (c & Hl & ->)%job_step_inv. cbn [s_db s_log].
  destruct (exec_row' cap M c _ id r1 Hl H1) as (r2 & H2 & Hrs). apply job_shut_step in Hrs as [Hs2 He2]; [|done].
  exists r2, (mine id (fst (exec c (s_db s1))) ++ new). split_and!; [done|done|by rewrite mine_app, Hn, app_assoc|].
  intros e [Hin|Hin]%elem_of_app; [|by apply He]. split; [by apply He2|].
  apply list_elem_of_In, filter_In in Hin as [_ Hin]. by bool_prop.
Qed.


(** ** The in-flight cap *)

Lemma inflight_le js js' tenant (extra : gset string) :
  (∀ id r', js' !! id = Some r' → su_tenant (j_sub r') = tenant → in_flight (j_status r') = true →
     id ∈ extra ∨ ∃ r, js !! id = Some r ∧ su_tenant (j_sub r) = tenant ∧ in_flight (j_status r) = true) →
  inflight js' tenant <= inflight js tenant + Z.of_nat (size extra).
Proof.
  intros H. unfold inflight. rewrite <- !(size_dom (D := gset string)).
  match goal with |- Z.of_nat (size ?a) <= Z.of_nat (size ?b) + _ => assert (Hsub : a ⊆ b ∪ extra) end.
  { intros id. rewrite elem_of_union, !elem_of_dom. intros [r' Hr']. apply map_lookup_filter_Some in Hr' as [Hr' [Ht Hf]].
    destruct (H id r' Hr' Ht Hf) as [Hx|(r & Hr & Ht' & Hf')]; [by right|]. left. exists r.
    apply map_lookup_filter_Some. done. }
  apply subseteq_size in Hsub. rewrite size_union_alt in Hsub.
  match type of Hsub with (_ <= _ + size (?e ∖ ?b))%nat => pose proof (subseteq_size (e ∖ b) e ltac:(set_solver)) end. lia.
Qed.

Lemma inflight_mono js js' tenant :
  (∀ id r', js' !! id = Some r' → su_tenant (j_sub r') = tenant → in_flight (j_status r') = true →
     ∃ r, js !! id = Some r ∧ su_tenant (j_sub r) = tenant ∧ in_flight (j_status r) = true) →
  inflight js' tenant <= inflight js tenant.
Proof.
  intros H. pose proof (inflight_le js js' tenant ∅) as Hle. rewrite size_empty, Z.add_0_r in Hle. apply Hle. eauto.
Qed.

Lemma row_step_flight M id es r m r' m' :
  row_step M id es (r, m) (r', m') →
  j_sub r' = j_sub r ∧ (in_flight (j_status r') = true → in_flight (j_status r) = true).
Proof.
  inversion 1; subst; cbn; split; try done; try congruence.
  - intros _. unfold claimable in *. bool_prop. by destruct (j_status r).
  - match goal with H : j_status r = Running |- _ => by rewrite H end.
Qed.

Lemma step_inflight cap M s s' :
  step cap M s s' → (∀ t, inflight (jobs (s_db s)) t <= Z.max 0 cap) → ∀ t, inflight (jobs (s_db s')) t <= Z.max 0 cap.
Proof.
  intros (c & Hl & ->)%job_step_inv Hcap t. cbn [s_db].
  destruct (exec_shape cap M c (s_db s) Hl) as [Hnone|(row & _ & Ha)].
  - etrans; [apply inflight_mono|apply (Hcap t)]. intros id r' Hr' Ht Hf.
    destruct (jobs (s_db s) !! id) as [r|] eqn:Hr; [|by destruct (Hnone id Hr) as (_ & Hn & _); congruence].
    destruct (exec_row' cap M c _ id r Hl Hr) as (r1 & H1 & Hst). assert (r1 = r') as -> by congruence.
    apply row_step_flight in Hst as [Hsub Hfl]. exists r. rewrite <- Hsub. auto.
  - destruct Ha as (Hn & Hc & _ & ->). cbn [jobs].
    destruct (decide (t = su_tenant (jr_sub row))) as [->|Hne].
    + etrans; [apply (inflight_le (jobs (s_db s)) _ _ {[jr_id row]})|rewrite size_singleton; lia].
      intros id r'. destruct (decide (id = jr_id row)) as [->|Hid]; [left; set_solver|].
      rewrite lookup_insert_ne by done. intros. right. eauto.
    + etrans; [apply inflight_mono|apply (Hcap t)]. intros id r'. destruct (decide (id = jr_id row)) as [->|Hid].
      { rewrite lookup_insert_eq. intros [= <-] Ht. cbn in Ht. congruence. }
      rewrite lookup_insert_ne by done. eauto.
Qed.

(** However submissions interleave with everything else, a tenant never has
    more jobs queued or running than the cap. *)
Theorem tenant_inflight_bounded cap M s tenant :
  star (step cap M) init s → inflight (jobs (s_db s)) tenant <= Z.max 0 cap.
Proof.
  intros H. revert tenant.
  eapply (star_invariant (step cap M) (λ s, ∀ t, inflight (jobs (s_db s)) t <= Z.max 0 cap)); [|exact H|].
  - intros s1 s2 Hc Hst. exact (step_inflight cap M s1 s2 Hst Hc).
  - intros t. unfold inflight. change (jobs (s_db init)) with (∅ : gmap string job). rewrite map_filter_empty, map_size_empty. lia.
Qed.


(** ** Idempotent submission *)

Definition keys_unique (js : gmap string job) : Prop :=
  ∀ id1 id2 r1 r2, js !! id1 = Some r1 → js !! id2 = Some r2 →
    has_project_key (j_sub r1) = true → same_key (j_sub r1) (j_sub r2) = true → id1 = id2.

Lemma same_key_spec a b :
  same_key a b = true ↔ su_tenant a = su_tenant b ∧ su_project a = su_project b ∧ su_key a = su_key b.
Proof. unfold same_key. apply bool_decide_eq_true. Qed.

Lemma same_key_project a b : same_key a b = true → has_project_key a = has_project_key b.
Proof. intros (_ & Hp & Hk)%same_key_spec. unfold has_project_key. by rewrite Hp, Hk. Qed.

Lemma find_key_Some js su e : find_key js su = Some e → js !! fst e = Some (snd e) ∧ same_key (j_sub (snd e)) su = true.
Proof.
  unfold find_key. intros H. destruct e as [id r].
  assert (Hin : (id, r) ∈ filter (λ '(_, r), same_key (j_sub r) su = true) (map_to_list js)).
  { destruct (filter _ _) as [|e l]; [done|]. injection H as ->. left. }
  apply list_elem_of_filter in Hin as [Hk Hin]. by apply elem_of_map_to_list in Hin.
Qed.

Lemma find_key_exists js su id r : js !! id = Some r → same_key (j_sub r) su = true → ∃ e, find_key js su = Some e.
Proof.
  intros Hr Hk. unfold find_key.
  assert (Hin : (id, r) ∈ filter (λ '(_, r), same_key (j_sub r) su = true) (map_to_list js)).
  { apply list_elem_of_filter. split; [done|]. by apply elem_of_map_to_list. }
  destruct (filter _ _) as [|e l]; [by apply not_elem_of_nil in Hin|]. by exists e.
Qed.

Lemma exec_subs cap M c s id r :
  lawful cap M c → jobs s !! id = Some r → ∃ r', jobs (snd (exec c s)) !! id = Some r' ∧ j_sub r' = j_sub r.
Proof.
  intros Hl Hr. destruct (exec_row' cap M c s id r Hl Hr) as (r' & H1 & H2).
  exists r'. split; [done|]. by apply row_step_flight in H2 as [? _].
Qed.

Lemma admitted_unique cap row s s' : admitted cap row s s' → keys_unique (jobs s) → keys_unique (jobs s').
Proof.
  intros (Hn & _ & Hk & ->) Hu id1 id2 r1 r2. cbn [jobs].
  assert (Hnew : ∀ id r, jobs s !! id = Some r → has_project_key (jr_sub row) = true → same_key (j_sub r) (jr_sub row) = true → False).
  { intros id r Hr Hp Hs. destruct (find_key_exists _ _ _ _ Hr Hs) as [e He]. by rewrite Hk in He. }
  destruct (decide (id1 = jr_id row)) as [->|H1], (decide (id2 = jr_id row)) as [->|H2];
    rewrite ?lookup_insert_eq, ?lookup_insert_ne by done; intros Hr1 Hr2 Hp Hs; [done|..].
  - injection Hr1 as <-. cbn in *. exfalso. eapply Hnew; [exact Hr2|done|].
    apply same_key_spec. apply same_key_spec in Hs as (? & ? & ?). auto.
  - injection Hr2 as <-. cbn in *. exfalso. eapply Hnew; [exact Hr1| |done]. by rewrite <- (same_key_project _ _ Hs).
  - by eapply Hu.
Qed.

Lemma step_unique cap M s s' : step cap M s s' → keys_unique (jobs (s_db s)) → keys_unique (jobs (s_db s')).
Proof.
  intros (c & Hl & ->)%job_step_inv Hu. cbn [s_db].
  destruct (exec_shape cap M c (s_db s) Hl) as [Hnone|(row & _ & Ha)]; [|by eapply admitted_unique].
  assert (Hback : ∀ id r', jobs (snd (exec c (s_db s))) !! id = Some r' → ∃ r, jobs (s_db s) !! id = Some r ∧ j_sub r' = j_sub r).
  { intros id r' Hr'. destruct (jobs (s_db s) !! id) as [r|] eqn:Hr; [|by destruct (Hnone id Hr) as (_ & ? & _); congruence].
    destruct (exec_subs cap M c _ _ _ Hl Hr) as (r1 & H1 & H2). assert (r1 = r') as -> by congruence. eauto. }
  intros id1 id2 r1 r2 (r1' & H1 & E1)%Hback (r2' & H2 & E2)%Hback. rewrite E1, E2. by apply Hu.
Qed.

Lemma reachable_unique cap M s : star (step cap M) init s → keys_unique (jobs (s_db s)).
Proof.
  intros H. eapply (star_invariant (step cap M) (λ s, keys_unique (jobs (s_db s)))); [|exact H|].
  - intros s1 s2 Hu Hst. by eapply step_unique.
  - intros id1 id2 r1 r2. cbn. by rewrite lookup_empty.
Qed.

Lemma star_subs cap M s s' id r :
  star (step cap M) s s' → jobs (s_db s) !! id = Some r → ∃ r', jobs (s_db s') !! id = Some r' ∧ j_sub r' = j_sub r.
Proof.
  intros Hst Hr.
  eapply (star_invariant (step cap M) (λ s', ∃ r', jobs (s_db s') !! id = Some r' ∧ j_sub r' = j_sub r)); [|exact Hst|eauto].
  intros s1 s2 (r1 & H1 & H2) (c & Hl & ->)%job_step_inv. cbn [s_db].
  destruct (exec_subs cap M c _ _ _ Hl H1) as (r2 & H3 & H4). exists r2. split; [done|congruence].
Qed.

(** The row a submission answers with. *)
Lemma submit_Ok row n s id b s' :
  submit row n s = (Ok (id, b), s') → has_project_key (jr_sub row) = true →
  ∃ r, jobs s' !! id = Some r ∧ same_key (j_sub r) (jr_sub row) = true ∧
       su_fingerprint (j_sub r) = su_fingerprint (jr_sub row).
Proof.
  intros H Hp. unfold submit, existing_job, insert_capped_row in H. run. rewrite Hp in H.
  destruct (find_key _ _) as [e|] eqn:Hk.
  - destruct (bool_decide _) eqn:Hf; [|done]. injection H as <- <- <-. apply find_key_Some in Hk as [Hr Hs].
    bool_prop. eauto.
  - destruct (_ <=? _); [done|]. destruct (jobs s !! jr_id row); [done|]. injection H as <- <- <-. cbn.
    exists (fresh_job row). rewrite lookup_insert_eq. split_and!; [done|by apply same_key_spec|done].
Qed.

(** (C30) Submission is idempotent: once a project-scoped submission has answered
    a job, every later submission with the same tenant, project and key gets that
    same job back without a new row, however much happened in between and even at
    the cap, or is refused when its input differs; it never starts a second run. *)
Theorem submission_is_idempotent cap M s s' row n id b db row' n' :
  star (step cap M) init s → n <= cap → submit row n (s_db s) = (Ok (id, b), db) →
  has_project_key (jr_sub row) = true →
  star (step cap M) (Sys db (s_log s)) s' → same_key (jr_sub row') (jr_sub row) = true →
  submit row' n' (s_db s') =
    ((if bool_decide (su_fingerprint (jr_sub row) = su_fingerprint (jr_sub row')) then Ok (id, false) else Err KeyReused),
     s_db s').
Proof.
  intros Hreach Hn Hsub Hp Hst Hkey.
  assert (Hstep : step cap M s (Sys db (s_log s))).
  { pose proof (step_call cap M (CSubmit row n) s Hn) as Hc. unfold exec, final in Hc. cbn [fst snd app] in Hc.
    by rewrite Hsub in Hc. }
  assert (Hu : keys_unique (jobs (s_db s'))).
  { eapply (reachable_unique cap M). eapply star_trans; [exact Hreach|]. eapply star_trans; [by apply star_one|done]. }
  apply submit_Ok in Hsub as (r & Hr & Hs & Hf); [|done].
  destruct (star_subs cap M _ _ id r Hst Hr) as (r' & Hr' & Hsub'). rewrite <- Hsub' in *.
  unfold submit, existing_job. run. rewrite (same_key_project _ _ Hkey), Hp.
  assert (Hk : same_key (j_sub r') (jr_sub row') = true).
  { apply same_key_spec in Hs as (? & ? & ?), Hkey as (? & ? & ?). apply same_key_spec. split_and!; congruence. }
  destruct (find_key_exists _ _ _ _ Hr' Hk) as [[id1 r1] He]. rewrite He. apply find_key_Some in He as [Hr1 Hk1]. cbn in *.
  assert (id = id1) as <-.
  { apply (Hu id id1 r' r1); [done|done| |].
    - by rewrite (same_key_project _ _ Hs).
    - apply same_key_spec in Hk as (? & ? & ?), Hk1 as (? & ? & ?). apply same_key_spec. split_and!; congruence. }
  assert (r1 = r') as -> by congruence. rewrite Hf. by destruct (bool_decide _).
Qed.


(** ** Signed completions *)

Lemma settle_receipts fails id r p now s :
  receipts (snd ((_ ← put_job id (settled_job r p now); _ ← terminal_in_transaction fails id p; mret Applied : jx answer) s)) = receipts s.
Proof. rewrite settle_run. by destruct fails. Qed.

Lemma exec_receipts c s :
  receipts (snd (exec c s)) = receipts s ∨
  ∃ id attempt workitem cm clock r,
    c = CReserve id attempt workitem cm clock ∧ jobs s !! id = Some r ∧ j_workitem r = Some (workitem, attempt) ∧
    cm_guard cm = Some (id, attempt, workitem) ∧ receipts s !! (id, attempt) = None ∧
    receipts (snd (exec c s)) = <[(id, attempt) := Receipt workitem cm]> (receipts s).
Proof.
  destruct c; unfold exec; [left|left|left|left|left|left|left|left|left|left|left| |left].
  - destruct (submit_spec row cap s) as [->|(_ & _ & _ & ->)]; done.
  - destruct (submit_bound_spec row cap s) as [->|(_ & _ & _ & ->)]; done.
  - unfold claim. rewrite find_job_run. destruct (jobs s !! id); [|done]. by destruct (claimable _ _ _).
  - unfold heartbeat. rewrite find_job_run. destruct (jobs s !! id); [|done]. by destruct (beats _ _ _ _ _ _).
  - unfold release_for_retry. rewrite find_job_run. destruct (jobs s !! id); [|done]. by destruct (_ && _ && _ && _).
  - unfold complete, transaction. rewrite find_job_run. destruct (jobs s !! id) as [r|]; [|done].
    destruct (may_complete _ _ _ _ _ _ _); [rewrite settle_run; by destruct mirror_fails|].
    destruct (in_flight _); [done|]. by destruct (bool_decide _).
  - unfold expire_native_remote, transaction. rewrite find_job_run. destruct (jobs s !! id) as [r|]; [|done].
    destruct (negb _); [done|]. destruct (su_remote _); [|done]. destruct (j_started r); [|done].
    destruct (clock <? _); [done|]. rewrite settle_run. by destruct mirror_fails.
  - unfold final, mark_closed. rewrite find_job_run. destruct (jobs s !! id); [|done]. by destruct (in_flight _).
  - done.
  - unfold final, record_first_delivery. rewrite find_job_run. destruct (jobs s !! id); [|done].
    destruct (in_flight _); [done|]. by destruct (_ ≫= _).
  - unfold bind_aps_workitem. destruct (_ <? _); [done|]. destruct (_ || _); [done|].
    rewrite find_job_run. destruct (jobs s !! id); [|done]. by destruct (bindable _ _ _ _ _).
  - cbn [snd]. unfold final, reserve_aps_completion. rewrite find_job_run.
    destruct (jobs s !! id) as [r|] eqn:Hr; [|by left]. destruct (_ || _); [by left|].
    destruct (decide (j_workitem r = Some (workitem, attempt))) as [Hw|Hw]; [|rewrite bool_decide_false by done; by left].
    rewrite bool_decide_true by done. cbn [negb]. destruct (receipts s !! _) eqn:Hx; [by left|].
    destruct (negb (_ && open_progress r)); [by left|]. destruct (j_lease r) as [[o e]|]; [|by left]. destruct (_ && (clock <? e)); cbn [negb]; [|by left].
    destruct (decide (cm_guard c = Some (id, attempt, workitem))) as [Hg|Hg]; [|rewrite bool_decide_false by done; by left].
    rewrite bool_decide_true by done.
    right. by exists id, attempt, workitem, c, clock, r.
  - unfold final, consume_nonce. by destruct (_ !! _).
Qed.

Definition receipts_ok (s : sys) : Prop :=
  ∀ id a rc, receipts (s_db s) !! (id, a) = Some rc →
    Bound id a (rc_workitem rc) ∈ s_log s ∧ cm_guard (rc_completion rc) = Some (id, a, rc_workitem rc).

Lemma mine_elem id e l : e ∈ mine id l → e ∈ l.
Proof. intros H. apply list_elem_of_In, filter_In in H as [H _]. by apply list_elem_of_In. Qed.

Lemma step_receipts cap M s s' : step cap M s s' → rows_ok M s → receipts_ok s → receipts_ok s'.
Proof.
  intros (c & Hl & ->)%job_step_inv Hrows Hok id a rc. cbn [s_db s_log].
  destruct (exec_receipts c (s_db s)) as [->|(id0 & a0 & wi & cm & clock & r & -> & Hr & Hw & Hg & _ & ->)].
  - intros (H1 & H2)%Hok. split; [|done]. apply elem_of_app. by right.
  - destruct (decide ((id, a) = (id0, a0))) as [[= -> ->]|Hne].
    + rewrite lookup_insert_eq. intros [= <-]. cbn. split; [|done].
      specialize (Hrows id0). rewrite Hr in Hrows. apply (ok_workitem _ _ _ _ Hrows) in Hw as [_ Hw]. by eapply mine_elem.
    + rewrite lookup_insert_ne by done. intros (H1 & H2)%Hok. split; [|done]. apply elem_of_app. by right.
Qed.

(** The completion receipt of an attempt is bound for good: a work item is
    bound to an attempt once, by the worker that holds it; a stored receipt carries
    the guard of exactly that job, attempt and work item, and nothing later, no
    retry, no other envelope, no newer attempt, replaces or removes it. *)
Theorem completion_receipt_is_bound cap M s s' id a rc :
  star (step cap M) init s → star (step cap M) s s' → receipts (s_db s) !! (id, a) = Some rc →
  receipts (s_db s') !! (id, a) = Some rc ∧
  cm_guard (rc_completion rc) = Some (id, a, rc_workitem rc) ∧
  Bound id a (rc_workitem rc) ∈ s_log s ∧
  ∀ wi, Bound id a wi ∈ s_log s' → wi = rc_workitem rc.
Proof.
  intros Hr0 Hst Hrc.
  assert (Hok : ∀ s, star (step cap M) init s → rows_ok M s ∧ receipts_ok s).
  { intros s0 H0. eapply (star_invariant (step cap M) (λ s, rows_ok M s ∧ receipts_ok s)); [|exact H0|].
    - intros s1 s2 [H1 H2] H3. split; [by eapply step_rows|by eapply step_receipts].
    - split; [apply init_rows|]. intros ? ? ?. cbn. by rewrite lookup_empty. }
  destruct (Hok s Hr0) as [_ Hrec]. destruct (Hrec id a rc Hrc) as [Hb Hg].
  assert (Hrc' : receipts (s_db s') !! (id, a) = Some rc).
  { eapply (star_invariant (step cap M) (λ s', receipts (s_db s') !! (id, a) = Some rc)); [|exact Hst|done].
    intros s1 s2 H1 (c & Hl & ->)%job_step_inv. cbn [s_db].
    destruct (exec_receipts c (s_db s1)) as [->|(id0 & a0 & wi & cm & clock & r & -> & _ & _ & _ & Hn & ->)]; [done|].
    rewrite lookup_insert_ne; [done|]. intros [= -> ->]. congruence. }
  split_and!; [done|done|done|]. intros wi Hwi.
  destruct (Hok s') as [Hrows' Hrec']; [by eapply star_trans|]. destruct (Hrec' id a rc Hrc') as [Hb' _].
  specialize (Hrows' id). assert (Hmine : ∀ x, Bound id a x ∈ s_log s' → Bound id a x ∈ mine id (s_log s')).
  { intros x Hx. apply list_elem_of_In, filter_In. split; [by apply list_elem_of_In|]. by apply bool_decide_eq_true. }
  destruct (jobs (s_db s') !! id) as [r|].
  - apply (ok_once _ _ _ _ Hrows' wi _ a); by apply Hmine.
  - destruct Hrows' as [Hm _]. apply Hmine in Hwi. rewrite Hm in Hwi. by apply not_elem_of_nil in Hwi.
Qed.

End System.
