(* ===== verification/Jobs.v ===== *)
(** * The job service

    [server/jobs.py] on the PostgreSQL authority: claiming and renewing leases, the
    terminal callback with its validation, the retry decision and the orphan
    reaper.  [complete_callback] reads the durable attempt in one transaction and
    commits in another; what other clients do in between is an argument.  The
    jobs are ordinary tool runs: the adapters of campaign, corpus and native-preview
    jobs add refusals of their own and are not modelled. *)

From S2P Require Import Prelude PyText JobStore.
Local Open Scope Z_scope.

Record job_config := JobConfig {
  jc_lease : Z;          (** [lease_duration_s()] *)
  jc_max : Z;            (** [max_attempts()] *)
  jc_stale : Z }.        (** [heartbeat_stale_s()] *)

Definition claim_lease (cfg : job_config) (id w : string) (now : Z) : jx (option Z) :=
  claim id w now (now + jc_lease cfg) (jc_max cfg).

Definition heartbeat_lease (cfg : job_config) (id w : string) (now clock : Z) (progress : option string) : jx bool :=
  heartbeat id w now (now + jc_lease cfg) clock progress None.

(** ** The terminal callback *)

Record callback := Callback {
  cb_status : status; cb_result : option envelope; cb_error : option error_obj; cb_provenance : option provenance }.

Definition refuse_if (b : bool) (why : string) : result job_error unit := if b then Err (Refused why) else Ok tt.

(** the checks before the job is read *)
Definition check_success (cb : callback) : result job_error unit :=
  match cb_result cb with
  | None => Err (Refused "requires result.ok true")
  | Some env =>
      _ ← refuse_if (negb (en_ok env)) "requires result.ok true";
      _ ← refuse_if (negb (bool_decide (cb_error cb = None))) "cannot include terminal error";
      match cb_provenance cb with
      | None => Err (Refused "requires provenance")
      | Some p =>
          _ ← refuse_if (match pv_attempt p with Some a => a <? 1 | None => true end) "requires a positive attempt";
          _ ← refuse_if (negb (bool_decide (pv_path p = Some "cloud"%string ∨ pv_path p = Some "local"%string)))
                "requires cloud or local execution_path";
          _ ← refuse_if (bool_decide (pv_fallback p = Some None)) "fallback flag must be boolean";
          refuse_if (match en_provenance env with Some q => negb (bool_decide (q = p)) | None => false end)
            "execution_provenance contradicts terminal provenance"
      end
  end.

Definition check_callback (cb : callback) : result job_error unit :=
  if in_flight (cb_status cb) then Err (Refused "terminal status must be complete or failed")
  else if bool_decide (cb_status cb = Complete) then check_success cb else Ok tt.

(** [_validate_terminal_context] of an ordinary tool run *)
Definition falls_back (p : provenance) : bool := bool_decide (pv_fallback p = Some (Some true)).
Definition takes_path (p : provenance) (path : string) : bool := bool_decide (pv_path p = Some path).

Definition fallback_justified (p : provenance) (durable_attempt : Z) : bool :=
  match pv_reason p, pv_cloud_failure p with
  | Some reason, Some cf =>
      negb (bool_decide (strip reason = ""%string)) &&
      bool_decide (cf_attempt cf = Some durable_attempt) && bool_decide (cf_path cf = Some "cloud"%string) && cf_meaningful cf
  | _, _ => false
  end.

Definition _validate_terminal_context (cb : callback) (durable_attempt : Z) (aps_live : bool) : result job_error unit :=
  if negb (bool_decide (cb_status cb = Complete)) then
    match cb_provenance cb ≫= pv_attempt with
    | Some a => refuse_if (negb (a =? durable_attempt)) "failure attempt does not match durable attempt"
    | None => Ok tt
    end
  else match cb_provenance cb with
  | None => Err (Refused "AssertionError")
  | Some p =>
      _ ← refuse_if (negb (bool_decide (pv_attempt p = Some durable_attempt))) "attempt does not match durable attempt";
      _ ← refuse_if (aps_live && takes_path p "local" && negb (falls_back p)) "APS-live local success must declare fallback";
      _ ← refuse_if (aps_live && takes_path p "cloud" && falls_back p) "cloud success cannot declare local fallback";
      _ ← refuse_if (negb aps_live && (negb (takes_path p "local") || falls_back p)) "requires a non-fallback local execution_path";
      refuse_if (falls_back p && negb (fallback_justified p durable_attempt)) "requires a matching meaningful cloud_failure"
  end.

(** [durable_context] *)
Definition durable_context (id : string) : jx (option (Z * bool)) :=
  o ← find_job id; mret ((λ r, (j_attempt r, su_aps_live (j_sub r))) <$> o).

Section Callback.
Variable fingerprint : status → option envelope → option error_obj → option provenance → string.

Definition complete_callback (mirror_fails : bool) (between : jx unit) (id : string) (cb : callback)
    (w : option string) (now clock : Z) (allow_closed : bool) : jx answer :=
  _ ← lift (check_callback cb);
  durable ← durable_context id;
  match durable with
  | None => mret Missing
  | Some (attempt, aps_live) =>
      _ ← lift (_validate_terminal_context cb attempt aps_live);
      _ ← between;
      complete mirror_fails id attempt
        (make_report fingerprint (cb_status cb) (cb_result cb) (cb_error cb) (cb_provenance cb)) w now clock allow_closed None
  end.

(** ** Retrying *)

(** what [_retry_or_finish] hands to the executor: the job again, or nothing *)
Definition _retry_or_finish (mirror_fails : bool) (between : jx unit) (cfg : job_config) (id w : string)
    (now clock : Z) (err : error_obj) (prov : provenance) : jx bool :=
  o ← find_job id;
  match o ≫= j_lease with
  | Some (owner, expires) =>
      if negb (bool_decide (owner = w)) || (expires <? now) then mret false else
      let attempt := from_option j_attempt 0 o in
      if eo_retryable err && (attempt <? jc_max cfg) then
        _ ← between; release_for_retry id w attempt now err prov
      else
        _ ← complete_callback mirror_fails between id (Callback Failed None (Some err) (Some prov)) (Some w) now clock false;
        mret false
  | None => mret false
  end.

(** ** The orphan reaper *)

Definition closed_error : error_obj := ErrorObj true "orphaned: session closed (tab-close)".
Definition exhausted_error : error_obj := ErrorObj false "job exhausted its delivery attempts".

(** [_redispatch_record] of an ordinary run whose execution context is intact:
    [true] and the executor runs it again, or it is settled *)
Definition _redispatch_record (mirror_fails : bool) (between : jx unit) (cfg : job_config) (id : string)
    (now clock : Z) : jx (bool * list string) :=
  o ← find_job id;
  match o with
  | None => mret (false, [])
  | Some r =>
      if negb (in_flight (j_status r)) then mret (false, []) else
      match su_remote (j_sub r) with
      | Some _ =>
          a ← expire_native_remote fingerprint mirror_fails id (j_attempt r) clock;
          mret (bool_decide (a = Applied), [])
      | None =>
          if jc_max cfg <=? j_attempt r then
            _ ← complete_callback mirror_fails between id
                  (Callback Failed None (Some exhausted_error)
                     (Some (Provenance (Some (j_attempt r)) (Some "unknown"%string) None None None None "attempt limit exhausted")))
                  None now clock false;
            mret (true, [])
          else mret (true, [id])
      end
  end.

Definition reap_one (mirror_fails : bool) (between : jx unit) (cfg : job_config) (now clock : Z) (row : string * string)
  : jx (bool * list string) :=
  if bool_decide (snd row = CLOSED_PROGRESS) then
    _ ← complete_callback mirror_fails between (fst row) (Callback Failed None (Some closed_error) None) None now clock true;
    mret (true, [])
  else _redispatch_record mirror_fails between cfg (fst row) now clock.

Fixpoint reap_rows (mirror_fails : bool) (between : jx unit) (cfg : job_config) (now clock : Z) (rows : list (string * string))
  : jx (Z * list string) :=
  match rows with
  | [] => mret (0, [])
  | row :: rest =>
      reap_one mirror_fails between cfg now clock row ≫= λ x : bool * list string,
      reap_rows mirror_fails between cfg now clock rest ≫= λ y : Z * list string,
      mret ((if fst x then 1 else 0) + fst y, snd x ++ snd y)
  end.

Definition _reap_orphans_once (mirror_fails : bool) (between : jx unit) (cfg : job_config) (now clock : Z) : jx (Z * list string) :=
  rows ← reclaimable (now - jc_stale cfg) now;
  reap_rows mirror_fails between cfg now clock rows.
End Callback.

(** ** An accepted success *)

Section Facts.
Variable fingerprint : status → option envelope → option error_obj → option provenance → string.

Lemma refuse_if_Ok b why : refuse_if b why = Ok tt → b = false.
Proof. by destruct b. Qed.

(** How a run may say it was executed. *)
Definition truthful (p : provenance) (attempt : Z) (aps_live : bool) : Prop :=
  if aps_live then
    (pv_path p = Some "cloud"%string ∧ falls_back p = false) ∨
    (pv_path p = Some "local"%string ∧ falls_back p = true ∧ fallback_justified p attempt = true)
  else pv_path p = Some "local"%string ∧ falls_back p = false.

Lemma success_checked cb : cb_status cb = Complete → check_callback cb = Ok tt →
  ∃ env p a, cb_result cb = Some env ∧ en_ok env = true ∧ cb_error cb = None ∧ cb_provenance cb = Some p ∧
    pv_attempt p = Some a ∧ 1 <= a ∧ (pv_path p = Some "cloud"%string ∨ pv_path p = Some "local"%string).
Proof.
  intros Hst. unfold check_callback. rewrite Hst. cbn [in_flight]. rewrite bool_decide_true by done.
  unfold check_success. destruct (cb_result cb) as [env|]; [|done].
  intros ([] & H1%refuse_if_Ok & H)%result_bind_Ok. apply result_bind_Ok in H as ([] & H2%refuse_if_Ok & H).
  destruct (cb_provenance cb) as [p|]; [|done].
  apply result_bind_Ok in H as ([] & H3%refuse_if_Ok & H). apply result_bind_Ok in H as ([] & H4%refuse_if_Ok & _).
  bool_prop. destruct (pv_attempt p) as [a|] eqn:Ha; [|done]. bool_prop.
  exists env, p, a. split_and!; try done.
Qed.

Lemma success_validated cb p attempt aps_live :
  cb_status cb = Complete → cb_provenance cb = Some p →
  (pv_path p = Some "cloud"%string ∨ pv_path p = Some "local"%string) →
  _validate_terminal_context cb attempt aps_live = Ok tt →
  pv_attempt p = Some attempt ∧ truthful p attempt aps_live.
Proof.
  intros Hst Hp Hpath. unfold _validate_terminal_context. rewrite Hst, bool_decide_true, Hp by done. cbn [negb].
  intros ([] & H1%refuse_if_Ok & H)%result_bind_Ok. apply result_bind_Ok in H as ([] & H2%refuse_if_Ok & H).
  apply result_bind_Ok in H as ([] & H3%refuse_if_Ok & H). apply result_bind_Ok in H as ([] & H4%refuse_if_Ok & H5%refuse_if_Ok).
  bool_prop. split; [done|]. unfold truthful, takes_path in *.
  destruct aps_live; cbn [andb negb] in *.
  - destruct Hpath as [Hc|Hc]; rewrite Hc in *; [left|right].
    + rewrite bool_decide_true in H3 by done. done.
    + rewrite bool_decide_true in H2 by done. cbn in H2. bool_prop. rewrite H2 in *. cbn in H5. bool_prop. done.
  - bool_prop. done.
Qed.

(** A recorded success is the success of the attempt that is current when it
    is recorded: whatever other clients do between the check and the commit, an
    applied [complete] carries a result that says [ok], no error, and a provenance
    that names exactly the row's attempt and says truthfully where the run was
    executed; a local run of an APS job is accepted only as a fallback that shows
    the cloud failure of that very attempt. *)
Theorem applied_success_is_of_its_attempt mirror_fails between id cb w now clock allow_closed s s' :
  cb_status cb = Complete →
  complete_callback fingerprint mirror_fails between id cb w now clock allow_closed s = (Ok Applied, s') →
  ∃ r0 r env p, jobs s !! id = Some r0 ∧ jobs s' !! id = Some r ∧
    j_status r = Complete ∧ j_result r = Some env ∧ en_ok env = true ∧ j_error r = None ∧ j_provenance r = Some p ∧
    pv_attempt p = Some (j_attempt r) ∧ 1 <= j_attempt r ∧ j_attempt r = j_attempt r0 ∧
    truthful p (j_attempt r) (su_aps_live (j_sub r0)).
Proof.
  intros Hst H. unfold complete_callback in H.
  apply io_bind_inv in H as ([] & s1 & H1 & H). injection H1 as Hchk <-.
  apply io_bind_inv in H as (dur & s1 & H1 & H). injection H1 as <- <-.
  destruct (jobs s !! id) as [r0|] eqn:Hr0; [|done]. cbn in H.
  apply io_bind_inv in H as ([] & s1 & H1 & H). injection H1 as Hval <-.
  apply io_bind_inv in H as ([] & s1 & _ & H).
  destruct (success_checked cb Hst Hchk) as (env & p & a & He & Hok & Herr & Hp & Ha & Ha1 & Hpath).
  destruct (success_validated cb p _ _ Hst Hp Hpath Hval) as [Hatt Htrue].
  unfold complete, transaction in H. change (find_job id) with (λ s, (Ok (E := job_error) (jobs s !! id), s)) in H.
  unfold mbind, io_mbind in H. destruct (jobs s1 !! id) as [r1|] eqn:Hr1; [|done].
  destruct (may_complete _ _ _ _ _ _ _) eqn:Hmay.
  2:{ destruct (in_flight _); [done|]. by destruct (bool_decide _). }
  unfold may_complete in Hmay. bool_prop. unfold put_job, terminal_in_transaction in H. destruct mirror_fails; [done|].
  destruct (_terminal_fields _ _). unfold _update_by_spine in H.
  injection H as <-. cbn [jobs]. exists r0, (settled_job r1 (make_report fingerprint (cb_status cb) (cb_result cb) (cb_error cb) (cb_provenance cb)) now), env, p.
  cbn. rewrite lookup_insert_eq. assert (a = j_attempt r0) as -> by congruence.
  split_and!; try done; congruence.
Qed.
(** ** A sweep that nobody disturbs *)

Definition quiet : jx unit := mret tt.

(** the failure [complete_callback] records without a worker *)
Definition failure (err : error_obj) (prov : option provenance) : report :=
  make_report fingerprint Failed None (Some err) prov.

Definition exhausted_provenance (r : job) : provenance :=
  Provenance (Some (j_attempt r)) (Some "unknown"%string) None None None None "attempt limit exhausted".

(** What the sweep owes a stale job. *)
Definition handled (cfg : job_config) (now clock : Z) (id : string) (r r' : job) (ids : list string) : Prop :=
  if negb (open_progress r) then r' = settled_job r (failure closed_error None) now
  else match su_remote (j_sub r) with
  | Some budget =>
      match j_started r with
      | Some start => if clock <? start + budget then r' = r else j_status r' = Failed
      | None => r' = r
      end
  | None => if jc_max cfg <=? j_attempt r then r' = settled_job r (failure exhausted_error (Some (exhausted_provenance r))) now
            else r' = r ∧ id ∈ ids
  end.

Lemma quiet_failure id r err prov allow now clock s :
  jobs s !! id = Some r → in_flight (j_status r) = true → (allow = true ∨ open_progress r = true) →
  (∀ p a, prov = Some p → pv_attempt p = Some a → a = j_attempt r) →
  complete_callback fingerprint false quiet id (Callback Failed None (Some err) prov) None now clock allow s =
  (Ok Applied, Jdb (<[id := settled_job r (failure err prov) now]> (jobs s)) (conflicts s) (receipts s)
                 (update_linked id PlFailed None (mirror s)) (nonces s)).
Proof.
  intros Hr Hf Ha Hp. unfold complete_callback, durable_context, find_job, get_jobs, quiet, lift, mret, io_mret, mbind, io_mbind.
  cbn. rewrite Hr. cbn.
  assert (Hv : _validate_terminal_context (Callback Failed None (Some err) prov) (j_attempt r) (su_aps_live (j_sub r)) = Ok tt).
  { unfold _validate_terminal_context. cbn. destruct prov as [p|]; [|done]. cbn.
    destruct (pv_attempt p) as [a|] eqn:Hpa; [|done]. rewrite (Hp p a eq_refl Hpa), Z.eqb_refl. done. }
  rewrite Hv. unfold complete, transaction, find_job, get_jobs, mret, io_mret, mbind, io_mbind. rewrite Hr.
  assert (may_complete r (j_attempt r) None now clock allow None = true) as ->.
  { unfold may_complete. rewrite Z.eqb_refl, Hf. cbn. by destruct Ha as [->| ->]; rewrite ?orb_true_r. }
  done.
Qed.

Lemma reap_one_spec cfg now clock id r s :
  jobs s !! id = Some r → in_flight (j_status r) = true →
  ∃ b ids s' r', reap_one fingerprint false quiet cfg now clock (id, j_progress r) s = (Ok (b, ids), s') ∧
    (∀ id', id' ≠ id → jobs s' !! id' = jobs s !! id') ∧ jobs s' !! id = Some r' ∧ handled cfg now clock id r r' ids.
Proof.
  intros Hr Hf. unfold reap_one, handled. cbn [fst snd].
  replace (bool_decide (j_progress r = CLOSED_PROGRESS)) with (negb (open_progress r))
    by (unfold open_progress; by rewrite negb_involutive). destruct (open_progress r) eqn:Ho; cbn [negb].
  - unfold _redispatch_record. change (find_job id) with (λ s, (Ok (E := job_error) (jobs s !! id), s)).
    unfold mbind at 1, io_mbind at 1. rewrite Hr, Hf. cbn [negb].
    destruct (su_remote (j_sub r)) as [budget|] eqn:Hrem.
    + unfold expire_native_remote, transaction, find_job, get_jobs, mret, io_mret, mbind, io_mbind. rewrite Hr, Hf, Ho, Z.eqb_refl, Hrem.
      cbn. destruct (j_started r) as [start|]; [|by eauto 10]. destruct (clock <? start + budget); [by eauto 10|].
      cbn. eexists _, _, _, _. split; [reflexivity|]. split; [intros; cbn; by rewrite lookup_insert_ne|].
      cbn. rewrite lookup_insert_eq. done.
    + destruct (jc_max cfg <=? j_attempt r).
      * unfold mbind at 1, io_mbind at 1. rewrite (quiet_failure id r); [|done|done|by right|by intros ? ? [= <-] [= <-]].
        eexists _, _, _, _. split; [reflexivity|]. split; [intros; cbn; by rewrite lookup_insert_ne|].
        cbn. rewrite lookup_insert_eq. done.
      * eexists _, _, _, r. split; [reflexivity|]. split_and!; [done|done|done|left].
  - unfold mbind at 1, io_mbind at 1. rewrite (quiet_failure id r); [|done|done|by left|done].
    eexists _, _, _, _. split; [reflexivity|]. split; [intros; cbn; by rewrite lookup_insert_ne|].
    cbn. rewrite lookup_insert_eq. done.
Qed.

Lemma handled_more cfg now clock id r r' ids ids' :
  handled cfg now clock id r r' ids → (∀ x, x ∈ ids → x ∈ ids') → handled cfg now clock id r r' ids'.
Proof.
  unfold handled. intros H Hin. destruct (negb _); [done|]. destruct (su_remote _); [done|].
  destruct (_ <=? _); [done|]. destruct H. auto.
Qed.

Lemma reap_rows_spec cfg now clock rows s :
  NoDup (fst <$> rows) →
  (∀ id p, (id, p) ∈ rows → ∃ r, jobs s !! id = Some r ∧ in_flight (j_status r) = true ∧ j_progress r = p) →
  ∃ n ids s', reap_rows fingerprint false quiet cfg now clock rows s = (Ok (n, ids), s') ∧
    (∀ id, id ∉ fst <$> rows → jobs s' !! id = jobs s !! id) ∧
    ∀ id r, id ∈ fst <$> rows → jobs s !! id = Some r → ∃ r', jobs s' !! id = Some r' ∧ handled cfg now clock id r r' ids.
Proof.
  revert s. induction rows as [|[id p] rows IH]; intros s Hnd Hrows.
  { exists 0, [], s. split_and!; [done|done|]. intros ? ? ?%not_elem_of_nil. done. }
  cbn [fmap list_fmap] in Hnd. apply NoDup_cons in Hnd as [Hni Hnd].
  destruct (Hrows id p) as (r & Hr & Hf & <-); [left|].
  destruct (reap_one_spec cfg now clock id r s Hr Hf) as (b & ids1 & s1 & r1 & Hrun & Hoth & Hr1 & Hh).
  destruct (IH s1 Hnd) as (n & ids2 & s2 & Hrun2 & Hoth2 & Hh2).
  { intros id' p' Hin. destruct (Hrows id' p') as (r' & ? & ? & ?); [by right|]. exists r'. rewrite Hoth; [done|].
    intros ->. apply Hni. apply list_elem_of_fmap. by exists (id, p'). }
  cbn [reap_rows]. unfold mbind, io_mbind. rewrite Hrun, Hrun2. eexists _, _, s2. split; [reflexivity|].
  cbn [fmap list_fmap]. split.
  - intros id' Hni'. apply not_elem_of_cons in Hni' as [Hne Hni']. rewrite Hoth2 by done. by apply Hoth.
  - intros id' r' Hin Hr'. apply elem_of_cons in Hin as [->|Hin].
    + assert (r' = r) as -> by (cbn in *; congruence). exists r1. rewrite Hoth2 by done. split; [done|].
      eapply handled_more; [done|]. cbn. set_solver.
    + destruct (Hh2 id' r' Hin) as (r2 & H2 & H3); [|exists r2; split; [done|eapply handled_more; [done|cbn; set_solver]]].
      rewrite Hoth; [done|]. intros ->. done.
Qed.

(** One sweep of the orphan reaper that nobody disturbs does for every job
    exactly what it owes it: a job whose session closed is failed with the
    tab-close error, a stale job that has used its last attempt is failed as
    exhausted, a stale one with attempts left goes back to the executor with its
    row untouched, an overdue remote preview is failed on the database clock, and
    every other row stays as it is. *)
Theorem sweep_handles_every_orphan cfg now clock s :
  ∃ n ids s', _reap_orphans_once fingerprint false quiet cfg now clock s = (Ok (n, ids), s') ∧
    ∀ id, match jobs s !! id with
          | None => jobs s' !! id = None
          | Some r => if stale r (now - jc_stale cfg) now
                      then ∃ r', jobs s' !! id = Some r' ∧ handled cfg now clock id r r' ids
                      else jobs s' !! id = Some r
          end.
Proof.
  unfold _reap_orphans_once, reclaimable, get_jobs, mret, io_mret. unfold mbind at 1 2, io_mbind at 1 2.
  set (P := λ '(_, r), stale r (now - jc_stale cfg) now = true).
  set (rows := (λ '(id, r), (id, j_progress r)) <$> filter P (map_to_list (jobs s))).
  assert (Hfst : fst <$> rows = fst <$> filter P (map_to_list (jobs s))).
  { unfold rows. rewrite <- list_fmap_compose. apply list_fmap_ext. by intros ? [id r] _. }
  assert (Hin : ∀ id r, jobs s !! id = Some r → (id ∈ fst <$> rows ↔ stale r (now - jc_stale cfg) now = true)).
  { intros id r Hr. rewrite Hfst, list_elem_of_fmap. split.
    - intros ([id' r'] & -> & Hx). apply list_elem_of_filter in Hx as [Hx Hm]. apply elem_of_map_to_list in Hm. cbn in *. congruence.
    - intros Hst. exists (id, r). split; [done|]. apply list_elem_of_filter. split; [done|]. by apply elem_of_map_to_list. }
  destruct (reap_rows_spec cfg now clock rows s) as (n & ids & s' & Hrun & Hoth & Hh).
  - rewrite Hfst. eapply sublist_NoDup; [apply (NoDup_fst_map_to_list (jobs s))|]. by apply fmap_sublist, sublist_filter.
  - intros id p Hx. unfold rows in Hx. apply list_elem_of_fmap in Hx as ([id' r] & [= -> ->] & Hx).
    apply list_elem_of_filter in Hx as [Hx Hm]. apply elem_of_map_to_list in Hm. exists r. split_and!; [done| |done].
    unfold P, stale in Hx. by bool_prop.
  - exists n, ids, s'. split; [done|]. intros id. destruct (jobs s !! id) as [r|] eqn:Hr.
    + destruct (stale r _ now) eqn:Hst; [apply Hh; [by apply (Hin id r Hr)|done]|].
      rewrite Hoth; [done|]. intros Hx. apply (Hin id r Hr) in Hx. congruence.
    + rewrite Hoth; [done|]. rewrite Hfst, list_elem_of_fmap. intros ([id' r] & -> & Hx).
      apply list_elem_of_filter in Hx as [_ Hm]. apply elem_of_map_to_list in Hm. cbn in *. congruence.
Qed.
End Facts.
