(* ===== verification/JobDemo.v ===== *)
(** * Job runs on concrete inputs

    Histories at which the theorems on the job spine apply, and a race between the
    orphan reaper and the worker of a last attempt. *)

From S2P Require Import Prelude PyText JobStore JobSystem Jobs.
Local Open Scope Z_scope.

(** a stand-in for the SHA-256 of the report *)
Definition demo_fingerprint (st : status) (r : option envelope) (e : option error_obj) (p : option provenance) : string :=
  (if bool_decide (st = Complete) then "complete:" else "failed:") +:+
  from_option en_rest "-" r +:+ "|" +:+ from_option eo_rest "-" e +:+ "|" +:+ from_option pv_rest "-" p.

Fixpoint run_calls (cs : list call) (s : sys) : sys :=
  match cs with
  | [] => s
  | c :: cs' =>
      run_calls cs' (Sys (snd (exec demo_fingerprint c (s_db s))) (fst (exec demo_fingerprint c (s_db s)) ++ s_log s))
  end.

Lemma run_calls_star cap M cs s :
  Forall (lawful cap M) cs → star (step demo_fingerprint cap M) s (run_calls cs s).
Proof.
  intros H. revert s. induction H as [|c cs Hc _ IH]; intros s; cbn [run_calls]; [constructor|].
  eapply star_trans; [apply star_one; by constructor|apply IH].
Qed.

Definition demo_sub : submission := Submission "acme" (Some "p1"%string) (Some "k1"%string) "sha-of-input" false None.
Definition demo_row : job_row := JobRow "j1" demo_sub 90.
Definition demo_provenance : provenance := Provenance (Some 1) (Some "local"%string) None None None None "".
Definition demo_env : envelope := Envelope true None "result".
Definition demo_report : report := make_report demo_fingerprint Complete (Some demo_env) None (Some demo_provenance).
Definition demo_completion : completion := Completion (Some ("j1"%string, 1, "wi-1"%string)) "body" "130" "n1" "sig".

(** submitted, claimed by [w1], bound to a work item, its receipt stored *)
Definition demo_calls : list call :=
  [CSubmit demo_row 32; CClaim "j1" "w1" 100 160 3; CHeartbeat "j1" "w1" 110 170 110 (Some "executing"%string) None;
   CBind "j1" 1 "w1" "wi-1" 120; CReserve "j1" 1 "wi-1" demo_completion 130].
Definition demo_sys : sys := run_calls demo_calls init.
Definition demo_end : list call := [CComplete false "j1" 1 demo_report (Some "w1"%string) 140 140 false None].
Definition ended_sys : sys := run_calls demo_end demo_sys.
(** a second outcome, a late heartbeat and a delivery *)
Definition demo_after : list call :=
  [CComplete false "j1" 1 (make_report demo_fingerprint Failed None (Some (ErrorObj false "late")) None) None 150 150 true None;
   CHeartbeat "j1" "w1" 150 210 150 None None; CClaim "j1" "w2" 400 460 3; CDeliver "j1" 160; CDeliver "j1" 170].
Definition after_sys : sys := run_calls demo_after ended_sys.

Lemma demo_reachable : star (step demo_fingerprint 32 3) init demo_sys.
Proof. apply run_calls_star. repeat constructor; cbn; try lia; done. Qed.
Lemma ended_reached : star (step demo_fingerprint 32 3) demo_sys ended_sys.
Proof. apply run_calls_star. repeat constructor. Qed.
Lemma after_reached : star (step demo_fingerprint 32 3) ended_sys after_sys.
Proof. apply run_calls_star. repeat constructor; cbn; try lia; done. Qed.

Example demo_log :
  s_log after_sys = [Ended "j1" Complete; Acted "j1" "w1"; Bound "j1" 1 "wi-1"; Acted "j1" "w1"; Acted "j1" "w1"; Claimed "j1" "w1" 1].
Proof. vm_compute. reflexivity. Qed.

Definition demo_job : job := Eval vm_compute in default (fresh_job demo_row) (jobs (s_db ended_sys) !! "j1"%string).

Lemma job_outcome_is_final_witness :
  ∃ r', jobs (s_db after_sys) !! "j1"%string = Some r' ∧ settled demo_job r' ∧
        mirror (s_db after_sys) !! "j1"%string = mirror (s_db ended_sys) !! "j1"%string ∧
        mine "j1" (s_log after_sys) = mine "j1" (s_log ended_sys).
Proof.
  apply (job_outcome_is_final demo_fingerprint 32 3 ended_sys after_sys "j1" demo_job after_reached);
    vm_compute; reflexivity.
Defined.

(** ** The linked row of the platform *)

Definition run_platform (c : platform_call) (s : sys) : sys :=
  Sys (snd (platform_exec c (s_db s))) (fst (platform_exec c (s_db s)) ++ s_log s).

Lemma run_calls_linked cap M cs s :
  Forall (lawful cap M) cs → star (linked_step demo_fingerprint cap M) s (run_calls cs s).
Proof.
  intros H. revert s. induction H as [|c cs Hc _ IH]; intros s; cbn [run_calls]; [constructor|].
  eapply star_trans; [apply star_one, ls_spine; by constructor|apply IH].
Qed.

(** the route links the row, the worker marks it running, the outcome is applied *)
Definition linked_sys : sys :=
  run_calls (demo_end ++ demo_after) (run_platform (PRun "j1") (run_calls (tail demo_calls)
    (run_platform (PSubmit "j1") (run_calls [CSubmit demo_row 32] init)))).

Lemma linked_reached : star (linked_step demo_fingerprint 32 3) init linked_sys.
Proof.
  unfold linked_sys. eapply star_trans; [|apply run_calls_linked; repeat constructor; cbn; try lia; done].
  eapply star_trans; [|apply star_one, ls_platform].
  eapply star_trans; [|apply run_calls_linked; repeat constructor; cbn; try lia; done].
  eapply star_trans; [|apply star_one, ls_platform].
  apply run_calls_linked. repeat constructor; cbn; lia.
Qed.

Definition linked_job : job := Eval vm_compute in default (fresh_job demo_row) (jobs (s_db linked_sys) !! "j1"%string).

Lemma linked_rows_are :
  jobs (s_db linked_sys) !! "j1"%string = Some linked_job ∧
  mirror (s_db linked_sys) !! "j1"%string = Some (PlatformJob PlSucceeded (Some demo_env)).
Proof. split; vm_compute; reflexivity. Qed.

Lemma outcome_applied_once_witness :
  ended (mine "j1" (s_log linked_sys)) = [Ended "j1" Complete] ∧
  verdict_agrees "j1" (mine "j1" (s_log linked_sys)) linked_job (Some (PlatformJob PlSucceeded (Some demo_env))).
Proof.
  pose proof (outcome_applied_once demo_fingerprint 32 3 linked_sys "j1" linked_reached) as Hw.
  rewrite (proj1 linked_rows_are), (proj2 linked_rows_are) in Hw.
  split; [exact (proj1 Hw)|exact (proj1 (proj2 Hw))].
Defined.

(** A member cancels the linked row while the worker runs: the job completes, and
    the platform goes on saying cancelled. *)
Example cancelled_link_keeps_its_status :
  let s := run_calls demo_end (run_platform (PCancel "j1") (run_calls (tail demo_calls)
             (run_platform (PSubmit "j1") (run_calls [CSubmit demo_row 32] init)))) in
  j_status <$> jobs (s_db s) !! "j1"%string = Some Complete ∧
  mirror (s_db s) !! "j1"%string = Some (PlatformJob PlCancelled None).
Proof. split; vm_compute; reflexivity. Qed.

(** The row is linked only after the job has ended: it stays queued for good. *)
Example late_link_stays_queued :
  let s := run_platform (PSubmit "j1") ended_sys in
  j_status <$> jobs (s_db s) !! "j1"%string = Some Complete ∧
  mirror (s_db (run_calls demo_after s)) !! "j1"%string = Some (PlatformJob PlQueued None).
Proof. split; vm_compute; reflexivity. Qed.

Lemma attempt_has_one_worker_witness :
  (∀ l1 l2 w1 w2 a, s_log demo_sys = l1 ++ Claimed "j1" w1 a :: l2 → Claimed "j1" w2 a ∉ l2) ∧
  Z.of_nat (length (claims (mine "j1" (s_log demo_sys)))) <= Z.max 0 3 ∧
  (∀ l1 l2 w, s_log demo_sys = l1 ++ Acted "j1" w :: l2 → fst <$> head (claims (mine "j1" l2)) = Some w).
Proof. apply (attempt_has_one_worker demo_fingerprint 32 3 demo_sys "j1" demo_reachable). Defined.

Lemma tenant_inflight_bounded_witness : inflight (jobs (s_db demo_sys)) "acme" <= Z.max 0 32.
Proof. apply (tenant_inflight_bounded demo_fingerprint 32 3 demo_sys "acme" demo_reachable). Defined.

(** the session of a running job is closed; its worker goes on trying *)
Definition closed_sys : sys := run_calls [CClose "j1" 145] demo_sys.
Definition closed_after : sys :=
  run_calls [CHeartbeat "j1" "w1" 150 210 150 None None; CClaim "j1" "w2" 400 460 3;
             CComplete false "j1" 1 demo_report (Some "w1"%string) 150 150 false None;
             CComplete false "j1" 1 (make_report demo_fingerprint Failed None (Some closed_error) None) None 160 160 true None] closed_sys.
Definition closed_row : job := Eval vm_compute in default (fresh_job demo_row) (jobs (s_db closed_sys) !! "j1"%string).

Lemma closed_job_never_resumes_witness :
  ∃ new, mine "j1" (s_log closed_after) = new ++ mine "j1" (s_log closed_sys) ∧ ∀ e, e ∈ new → ∃ st, e = Ended "j1" st.
Proof.
  apply (closed_job_never_resumes demo_fingerprint 32 3 closed_sys closed_after "j1" closed_row);
    [eapply star_trans; [exact demo_reachable|]; apply run_calls_star; repeat constructor
    |apply run_calls_star; repeat constructor; cbn; try lia; done
    |vm_compute; reflexivity|vm_compute; reflexivity].
Defined.

Lemma completion_receipt_is_bound_witness :
  let rc := Receipt "wi-1" demo_completion in
  receipts (s_db after_sys) !! ("j1"%string, 1) = Some rc ∧
  cm_guard (rc_completion rc) = Some ("j1"%string, 1, rc_workitem rc) ∧
  Bound "j1" 1 (rc_workitem rc) ∈ s_log demo_sys ∧
  ∀ wi, Bound "j1" 1 wi ∈ s_log after_sys → wi = rc_workitem rc.
Proof.
  apply (completion_receipt_is_bound demo_fingerprint 32 3 demo_sys after_sys "j1" 1);
    [exact demo_reachable|eapply star_trans; [exact ended_reached|exact after_reached]|vm_compute; reflexivity].
Defined.

(** the same key again, from a fresh row, after the job has ended *)
Definition again_row : job_row := JobRow "j2" demo_sub 500.

Lemma submission_is_idempotent_witness :
  submit again_row 32 (s_db (run_calls (tail demo_calls) (Sys (final (submit demo_row 32) empty_db) []))) =
  (Ok ("j1"%string, false), s_db (run_calls (tail demo_calls) (Sys (final (submit demo_row 32) empty_db) []))).
Proof.
  refine (submission_is_idempotent demo_fingerprint 32 3 init _ demo_row 32 "j1" true
            (final (submit demo_row 32) empty_db) again_row 32 (star_refl _ _) _ _ _ _ _);
    [lia|vm_compute; reflexivity|reflexivity| |vm_compute; reflexivity].
  apply run_calls_star. repeat constructor; cbn; try lia; done.
Defined.

Lemma applied_success_is_of_its_attempt_witness :
  let cb := Callback Complete (Some demo_env) None (Some demo_provenance) in
  let run := complete_callback demo_fingerprint false (mret tt) "j1" cb (Some "w1"%string) 140 140 false (s_db demo_sys) in
  outcome (complete_callback demo_fingerprint false (mret tt) "j1" cb (Some "w1"%string) 140 140 false) (s_db demo_sys) = Ok Applied ∧
  ∃ r0 r env p, jobs (s_db demo_sys) !! "j1"%string = Some r0 ∧ jobs (snd run) !! "j1"%string = Some r ∧
    j_status r = Complete ∧ j_result r = Some env ∧ en_ok env = true ∧ j_error r = None ∧ j_provenance r = Some p ∧
    pv_attempt p = Some (j_attempt r) ∧ 1 <= j_attempt r ∧ j_attempt r = j_attempt r0 ∧
    truthful p (j_attempt r) (su_aps_live (j_sub r0)).
Proof.
  intros cb run. split; [vm_compute; reflexivity|].
  apply (applied_success_is_of_its_attempt demo_fingerprint false (mret tt) "j1" cb (Some "w1"%string) 140 140 false);
    [reflexivity|]. vm_compute. reflexivity.
Defined.

(** ** The reaper and a last attempt *)

Definition demo_cfg : job_config := JobConfig 60 3 60.

(** two attempts failed; the job waits for a worker, its row untouched for a while *)
Definition waiting_calls : list call :=
  [CSubmit demo_row 32;
   CClaim "j1" "w1" 100 160 3; CRetry "j1" "w1" 1 110 (ErrorObj true "broker unreachable") demo_provenance;
   CClaim "j1" "w2" 120 180 3; CRetry "j1" "w2" 2 130 (ErrorObj true "broker unreachable") demo_provenance].
Definition waiting : sys := run_calls waiting_calls init.

(** the reaper lists it at 200, a worker claims the last attempt, the reaper goes on *)
Definition listed : result job_error (list (string * string)) := outcome (reclaimable (200 - jc_stale demo_cfg) 200) (s_db waiting).
Definition claimed : result job_error (option Z) * jdb := claim_lease demo_cfg "j1" "w3" 200 (s_db waiting).
Definition reaped : result job_error (Z * list string) * jdb :=
  reap_rows demo_fingerprint false (mret tt) demo_cfg 201 201 [("j1"%string, "retrying"%string)] (snd claimed).
Definition finished : result job_error answer * jdb :=
  complete_callback demo_fingerprint false (mret tt) "j1"
    (Callback Complete (Some demo_env) None (Some (Provenance (Some 3) (Some "local"%string) None None None None "")))
    (Some "w3"%string) 202 202 false (snd reaped).

(** The sweep can fail a job whose last attempt has just started: the reaper
    reads the list of stale rows first and each row again later, and a row that has
    reached the attempt limit by then is failed as exhausted without a look at its
    lease.  Here a job waiting for its third attempt is listed, a worker claims the
    attempt with a lease to 260, and the reaper fails the job at 201; the worker's
    success, one tick later and well within its lease, is turned away as a
    conflict. *)
Theorem reaper_fails_live_last_attempt :
  listed = Ok [("j1"%string, "retrying"%string)] ∧
  fst claimed = Ok (Some 3) ∧ j_lease <$> jobs (snd claimed) !! "j1"%string = Some (Some ("w3"%string, 260)) ∧
  j_status <$> jobs (snd reaped) !! "j1"%string = Some Failed ∧
  j_error <$> jobs (snd reaped) !! "j1"%string = Some (Some exhausted_error) ∧
  fst finished = Ok Conflict.
Proof. repeat split; vm_compute; reflexivity. Qed.
