(* ===== verification/Callbacks.v ===== *)
(** * Signed completion callbacks

    [server/da/callbacks.py]: the canonical payload a callback signs, its
    verification, and the nonce store that lets one envelope through once.  Texts
    are their UTF-8 bytes.  The clock and the window are whole ticks. *)

From Stdlib Require Import Ascii.
From S2P Require Import Prelude PyText Json Capability JobStore.
Local Open Scope Z_scope.

Inductive refusal := NotConfigured | BadSignature | BadNonce | StaleCallback | BadBody | Replay.

#[export] Instance refusal_eq_dec : EqDecision refusal.
Proof. solve_decision. Defined.

(** [str(len(field)).encode("ascii") + b":" + field] *)
Definition framed (field : string) : list ascii :=
  print_nat (Z.of_nat (length (chars field))) ++ ":"%char :: chars field.

Definition _canonical_payload (body timestamp nonce : string) : string :=
  of_chars (framed timestamp ++ framed nonce ++ framed body).

(** [payload.get("job_id") or payload.get("workitem_id") or payload.get("id")] *)
Definition falsy (j : option json) : bool :=
  match j with
  | None | Some JNull | Some (JBool false) | Some (JArr []) | Some (JObj []) => true
  | Some (JInt z) => z =? 0
  | Some (JStr s) => bool_decide (s = ""%string)
  | _ => false
  end.

Definition _callback_job_id (payload : list (string * json)) : option string :=
  let get := dict_get payload in
  let value := if negb (falsy (get "job_id"%string)) then get "job_id"%string
               else if negb (falsy (get "workitem_id"%string)) then get "workitem_id"%string
               else get "id"%string in
  match value with Some (JStr s) => if bool_decide (s = ""%string) then None else Some s | _ => None end.

Section Callbacks.
(** [hmac.new(key, message, sha256).hexdigest()], [json.loads] of a UTF-8 body,
    and [float(timestamp)] where it is finite *)
Variable hmac : string → string → string.
Variable loads : string → option json.
Variable parse_time : string → option Z.

Definition sign_payload (body timestamp nonce key : string) : string :=
  "sha256=" +:+ hmac key (_canonical_payload body timestamp nonce).

Definition verify_signature (body : string) (timestamp nonce signature : option string) (key : option string) : bool :=
  match key, signature, timestamp, nonce with
  | Some k, Some sig, Some ts, Some n =>
      negb (bool_decide (k = ""%string)) && negb (bool_decide (sig = ""%string)) &&
      bool_decide (sign_payload body ts n k = sig)
  | _, _, _, _ => false
  end.

Record callback_env := CallbackEnv { ce_secret : option string; ce_max_age : Z }.

(** [_secret()]: unset or empty is not configured *)
Definition _secret (e : callback_env) : option string :=
  match ce_secret e with Some k => if bool_decide (k = ""%string) then None else Some k | None => None end.

Definition DEFAULT_MAX_AGE_S : Z := 300.
Definition _max_age_s (e : callback_env) : Z := if 0 <? ce_max_age e then ce_max_age e else DEFAULT_MAX_AGE_S.

(** the job named by the body, when it is a JSON object that names one *)
Definition body_job (body : string) : option string :=
  match loads body with Some (JObj payload) => _callback_job_id payload | _ => None end.

Definition consume_callback (e : callback_env) (body : string) (signature timestamp nonce : option string) (now : Z)
  : jdb → result refusal string * jdb :=
  λ s, match _secret e with
  | None => (Err NotConfigured, s)
  | Some key =>
      if negb (verify_signature body timestamp nonce signature (Some key)) then (Err BadSignature, s) else
      match nonce with
      | None => (Err BadNonce, s)
      | Some n =>
          if bool_decide (strip n = ""%string) then (Err BadNonce, s) else
          match timestamp ≫= parse_time with
          | None => (Err StaleCallback, s)
          | Some sent_at =>
              if _max_age_s e <? Z.abs (now - sent_at) then (Err StaleCallback, s) else
              match body_job body with
              | None => (Err BadBody, s)
              | Some id =>
                  match consume_nonce id n (sent_at + _max_age_s e) now s with
                  | (Ok true, s') => (Ok id, s')
                  | (_, s') => (Err Replay, s')
                  end
              end
          end
      end
  end.
End Callbacks.

(** ** The signature covers every field *)

Lemma print_nat_no_colon n : 0 <= n → ":"%char ∉ print_nat n.
Proof.
  intros Hn Hin. pose proof (print_nat_digits n Hn) as Hd. rewrite Forall_forall in Hd.
  specialize (Hd _ Hin). done.
Qed.

Lemma framed_inj a b ra rb : framed a ++ ra = framed b ++ rb → a = b ∧ ra = rb.
Proof.
  unfold framed. rewrite <- !app_assoc, <- !app_comm_cons. intros H.
  apply app_sep_inj in H as [Hl H]; [|apply print_nat_no_colon; lia..].
  apply print_nat_inj in Hl; [|lia..]. apply app_inj_1 in H as [Ha Hr]; [|lia]. split; [by apply chars_inj|done].
Qed.

Lemma canonical_payload_inj b t n b' t' n' :
  _canonical_payload b t n = _canonical_payload b' t' n' → b = b' ∧ t = t' ∧ n = n'.
Proof.
  intros H%(f_equal chars). unfold _canonical_payload in H. rewrite !chars_of_chars in H.
  apply framed_inj in H as [-> H]. apply framed_inj in H as [-> H].
  rewrite <- (app_nil_r (framed b)), <- (app_nil_r (framed b')) in H. by apply framed_inj in H as [-> _].
Qed.

Section Signed.
Variable hmac : string → string → string.

Lemma verify_signed body ts n sig k :
  verify_signature hmac body (Some ts) (Some n) (Some sig) (Some k) = true →
  sig = "sha256=" +:+ hmac k (_canonical_payload body ts n).
Proof. unfold verify_signature, sign_payload. intros H. by bool_prop. Qed.

(** One signature verifies one envelope: if the same signature is accepted for
    two requests under one key, they have the same body, timestamp and nonce;
    otherwise two different payloads have the same HMAC.  No two different requests
    have the same signed payload, however their fields are cut. *)
Theorem signature_covers_every_field body ts n body' ts' n' sig k :
  verify_signature hmac body (Some ts) (Some n) (Some sig) (Some k) = true →
  verify_signature hmac body' (Some ts') (Some n') (Some sig) (Some k) = true →
  (body = body' ∧ ts = ts' ∧ n = n') ∨
  (_canonical_payload body ts n ≠ _canonical_payload body' ts' n' ∧
   hmac k (_canonical_payload body ts n) = hmac k (_canonical_payload body' ts' n')).
Proof.
  intros H1%verify_signed H2%verify_signed.
  destruct (decide (_canonical_payload body ts n = _canonical_payload body' ts' n')) as [He|Hne].
  - left. by apply canonical_payload_inj.
  - right. split; [done|]. rewrite H1 in H2. apply (f_equal chars) in H2. rewrite !chars_app in H2.
    by apply app_inv_head, chars_inj in H2.
Qed.
End Signed.

(** ** Accepted once *)

Section Once.
Variable hmac : string → string → string.
Variable loads : string → option json.
Variable parse_time : string → option Z.
Variable e : callback_env.

(** an envelope as it was accepted *)
Record accepted := Accepted { ac_body : string; ac_timestamp : string; ac_nonce : string }.

(** the expiry of its nonce, and the key it is filed under *)
Definition expiry (a : accepted) : option Z := (λ t, t + _max_age_s e) <$> parse_time (ac_timestamp a).
Definition filed (a : accepted) : option (string * string) := (λ id, (id, ac_nonce a)) <$> body_job loads (ac_body a).

(** Requests of any senders, served one after the other, each at a clock not
    earlier than the one before; other transactions of the database in between
    leave the nonces alone. *)
Inductive served : Z → jdb → list accepted → Prop :=
| sv_start now s : nonces s = ∅ → served now s []
| sv_other now s s' log : served now s log → nonces s' = nonces s → served now s' log
| sv_call now now' s s' log body sig ts n r :
    served now s log → now <= now' →
    consume_callback hmac loads parse_time e body sig ts n now' s = (r, s') →
    served now' s' (match r with Ok _ => Accepted body (default ""%string ts) (default ""%string n) :: log | Err _ => log end).

(** Every accepted envelope is past its window or still on file. *)
Definition on_file (now : Z) (s : jdb) (log : list accepted) : Prop :=
  ∀ a, In a log → ∃ x k, expiry a = Some x ∧ filed a = Some k ∧ (x < now ∨ nonces s !! k = Some x).

Lemma on_file_later now now' s log : now <= now' → on_file now s log → on_file now' s log.
Proof. intros Hle H a Ha. destruct (H a Ha) as (x & k & H1 & H2 & H3). exists x, k. intuition lia. Qed.

(** The nonce store keeps what has not expired. *)
Lemma consume_keeps id n x now s b s' k y :
  consume_nonce id n x now s = (Ok b, s') → nonces s !! k = Some y → now <= y → nonces s' !! k = Some y.
Proof.
  unfold consume_nonce. intros H Hk Hy.
  assert (Hkept : filter (λ '(_, e), now <= e) (nonces s) !! k = Some y) by (by apply map_lookup_filter_Some).
  destruct (filter _ _ !! (id, n)) as [z|] eqn:Hz; injection H as <- <-; cbn; [done|].
  rewrite lookup_insert_ne; [done|]. intros <-. congruence.
Qed.

Lemma consume_new id n x now s s' :
  consume_nonce id n x now s = (Ok true, s') →
  nonces s' !! (id, n) = Some x ∧ ∀ y, nonces s !! (id, n) = Some y → y < now.
Proof.
  unfold consume_nonce. destruct (filter _ _ !! (id, n)) as [z|] eqn:Hz; [done|]. intros [= <-]. cbn.
  rewrite lookup_insert_eq. split; [done|]. intros y Hy. apply map_lookup_filter_None in Hz as [Hz|Hz]; [congruence|].
  specialize (Hz y Hy). cbn in Hz. lia.
Qed.

Lemma consume_total id n x now s : ∃ b s', consume_nonce id n x now s = (Ok b, s').
Proof. unfold consume_nonce. destruct (_ !! _); eauto. Qed.

Lemma consume_callback_inv body sig ts n now s r s' :
  consume_callback hmac loads parse_time e body sig ts n now s = (r, s') →
  (s' = s ∧ ∃ why, r = Err why) ∨
  ∃ t nn sent id b, ts = Some t ∧ n = Some nn ∧ parse_time t = Some sent ∧ now <= sent + _max_age_s e ∧
    body_job loads body = Some id ∧ consume_nonce id nn (sent + _max_age_s e) now s = (Ok b, s') ∧
    r = if b then Ok id else Err Replay.
Proof.
  unfold consume_callback. destruct (_secret e) as [key|]; [|intros [= <- <-]; eauto].
  destruct (negb _); [intros [= <- <-]; eauto|]. destruct n as [nn|]; [|intros [= <- <-]; eauto].
  destruct (bool_decide _); [intros [= <- <-]; eauto|].
  destruct ts as [t|]; [|intros [= <- <-]; eauto]. cbn. destruct (parse_time t) as [sent|] eqn:Ht; [|intros [= <- <-]; eauto].
  destruct (Z.ltb_spec (_max_age_s e) (Z.abs (now - sent))) as [|Hage]; [intros [= <- <-]; eauto|].
  destruct (body_job loads body) as [id|] eqn:Hb; [|intros [= <- <-]; eauto].
  destruct (consume_total id nn (sent + _max_age_s e) now s) as (b & s1 & Hc). rewrite Hc. intros H. right.
  exists t, nn, sent, id, b. destruct b; injection H as <- <-; split_and!; try done; lia.
Qed.

Lemma served_on_file now s log : served now s log → on_file now s log ∧ NoDup log.
Proof.
  induction 1 as [now s|now s s' log _ [IH Hn] Hs|now now' s s' log body sig ts n r _ [IH Hnd] Hle Hc].
  - split; [by intros ? []|constructor].
  - split; [|done]. intros a Ha. rewrite Hs. by apply IH.
  - apply (on_file_later _ _ _ _ Hle) in IH.
    apply consume_callback_inv in Hc as [(-> & why & ->)|(t & nn & sent & id & b & -> & -> & Ht & Hage & Hb & Hc & ->)]; [done|].
    assert (Hkeep : on_file now' s' log).
    { intros a Ha. destruct (IH a Ha) as (x & k & H1 & H2 & [H3|H3]); exists x, k; (split_and!; [done|done|]); [by left|].
      destruct (Z.lt_ge_cases x now') as [|Hge]; [by left|right]. by eapply consume_keeps. }
    destruct b; [|done]. apply consume_new in Hc as [Hnew Hold]. cbn [default from_option]. split.
    + intros a [<-|Ha]; [|by apply Hkeep]. exists (sent + _max_age_s e), (id, nn).
      unfold expiry, filed. cbn. rewrite Ht, Hb. auto.
    + constructor; [|done]. intros Hin. apply list_elem_of_In in Hin. destruct (IH _ Hin) as (x & k & H1 & H2 & H3).
      unfold expiry, filed in *. cbn in H1, H2. rewrite Ht in H1. rewrite Hb in H2. injection H1 as <-. injection H2 as <-.
      destruct H3 as [H3|H3]; [lia|]. specialize (Hold _ H3). lia.
Qed.

(** A signed callback is consumed exactly once: over any history of requests,
    replays and forgeries included, on a clock that does not run backwards, no
    envelope (body, timestamp and nonce) is accepted twice, although the store
    forgets nonces whose window has passed. *)
Theorem callback_consumed_once now s log : served now s log → NoDup log.
Proof. intros H. by apply served_on_file in H as [_ H]. Qed.
End Once.

(** ** Two brokers *)

Definition demo_loads (body : string) : option json := Some (JObj [("job_id"%string, JStr body)]).
Definition demo_time (ts : string) : option Z := if bool_decide (ts = "1000"%string) then Some 1000 else None.
Definition demo_env : callback_env := CallbackEnv (Some "secret"%string) 300.
Definition demo_request (now : Z) : jdb → result refusal string * jdb :=
  consume_callback demo_hmac demo_loads demo_time demo_env "j1"
    (Some (sign_payload demo_hmac "j1" "1000" "n1" "secret")) (Some "1000"%string) (Some "n1"%string) now.
Definition no_jobs : jdb := Jdb ∅ ∅ ∅ ∅ ∅.

Example callback_accepted_then_replayed :
  fst (demo_request 1010 no_jobs) = Ok "j1"%string ∧ fst (demo_request 1020 (snd (demo_request 1010 no_jobs))) = Err Replay.
Proof. split; vm_compute; reflexivity. Qed.

Lemma callback_consumed_once_witness :
  NoDup [Accepted "j1" "1000" "n1"].
Proof.
  apply (callback_consumed_once demo_hmac demo_loads demo_time demo_env 1020 (snd (demo_request 1020 (snd (demo_request 1010 no_jobs))))).
  apply (sv_call _ _ _ _ 1010 1020 (snd (demo_request 1010 no_jobs)) _ [Accepted "j1" "1000" "n1"] "j1"
    (Some (sign_payload demo_hmac "j1" "1000" "n1" "secret")) (Some "1000"%string) (Some "n1"%string) (Err Replay));
    [|lia|vm_compute; reflexivity].
  apply (sv_call _ _ _ _ 1010 1010 no_jobs _ [] "j1"
    (Some (sign_payload demo_hmac "j1" "1000" "n1" "secret")) (Some "1000"%string) (Some "n1"%string) (Ok "j1"%string));
    [by apply sv_start|lia|vm_compute; reflexivity].
Defined.

Lemma signature_covers_every_field_witness :
  let sig := sign_payload demo_hmac "j1" "1000" "n1" "secret" in
  ("j1" = "j1" ∧ "1000" = "1000" ∧ "n1" = "n1")%string ∨
  (_canonical_payload "j1" "1000" "n1" ≠ _canonical_payload "j1" "1000" "n1" ∧
   demo_hmac "secret" (_canonical_payload "j1" "1000" "n1") = demo_hmac "secret" (_canonical_payload "j1" "1000" "n1")).
Proof.
  intros sig. apply (signature_covers_every_field demo_hmac "j1" "1000" "n1" "j1" "1000" "n1" sig "secret");
    vm_compute; reflexivity.
Defined.

(** With two clocks it is not: the nonce of an accepted envelope expires at
    1300; a request served by a broker whose clock says 1301 deletes it, and a broker
    one tick behind then accepts the first envelope again. *)
Theorem skewed_clocks_replay_a_callback :
  let s1 := snd (demo_request 1010 no_jobs) in
  let s2 := snd (consume_nonce "other" "n2" 1500 1301 s1) in
  fst (demo_request 1010 no_jobs) = Ok "j1"%string ∧ fst (demo_request 1300 s1) = Err Replay ∧
  fst (demo_request 1300 s2) = Ok "j1"%string.
Proof. repeat split; vm_compute; reflexivity. Qed.
