(* ===== verification/BrokerStore.v ===== *)
(** * The broker's admission store

    [server/broker_pg_store.py] ([PostgresBrokerStore]) over the tables of
    [0014_broker.sql] and [0082]: admitting a run against the tenant's quotas,
    starting it, staging the evidence of a paid success, settling, completing and
    reconciling it.  Every method is one serializable transaction, retried by
    [run_transaction]; [now] is the transaction's NOW().

    Money is counted in whole nano-dollars and durations in whole nanoseconds, and
    sums are exact, so the [1e-12] tolerance of the cap comparison is below one
    unit and the [1e-9] of [math.isclose] is one unit.  Columns that no statement
    reads back ([updated_at], [execution_started_at], the lease of a slot) are left
    out.  The table's CHECK on the shape of a state is the type [run_state]. *)

From Stdlib Require Import Ascii.
From S2P Require Import Prelude PyText.
Local Open Scope Z_scope.

(** ** Rows *)

(** The nine frozen fields of a ledger line, and the job it belongs to. *)
Record ledger_entry := LedgerEntry {
  le_ts : Z; le_tenant : string; le_tool : option string; le_op : string; le_endpoint : string;
  le_live : bool; le_seconds : option Z; le_usd : option Z; le_status : string; le_job : option string }.

(** The result document: [ok is True], [degraded_mode], the two numbers of [cost],
    and the rest. *)
Record run_result := RunResult {
  rr_ok : bool; rr_degraded : option bool; rr_cost : option (option Z * option Z); rr_rest : string }.

(** The evidence of a paid success. *)
Record intent := Intent {
  in_version : Z; in_key : string; in_tenant : string; in_fingerprint : string; in_job : string;
  in_workitem : string; in_entry : ledger_entry; in_result : run_result; in_http : Z }.

Inductive run_state := Leased (expires : Z) | Executing | Terminal (r : run_result) (http : Z).

Record admission := Admission {
  a_tenant : string; a_fingerprint : string; a_state : run_state; a_token : string; a_live : bool;
  a_accounted : bool; a_reserved : Z; a_created : Z; a_intent : option intent }.

Inductive resolution := ConfirmedFailedNoCharge | VerifiedTerminal.
Inductive release_reason := KnownTerminal | Resolved (r : resolution).

(** a row of [broker_aps_slots]: [None] while held *)
Record slot := Slot { sl_tenant : string; sl_released : option release_reason }.
Definition sl_held (sl : slot) : bool := match sl_released sl with None => true | Some _ => false end.

Record audit := Audit {
  au_key : string; au_tenant : string; au_resolution : resolution; au_operator : string;
  au_reason : string; au_evidence : string; au_http : Z }.

Record bdb := Bdb {
  admissions : gmap string admission; ledger : gmap string ledger_entry;
  slots : gmap string slot; audits : gmap string audit }.

#[export] Instance ledger_entry_eq_dec : EqDecision ledger_entry.
Proof. solve_decision. Defined.
#[export] Instance run_result_eq_dec : EqDecision run_result.
Proof. solve_decision. Defined.
#[export] Instance intent_eq_dec : EqDecision intent.
Proof. solve_decision. Defined.
#[export] Instance resolution_eq_dec : EqDecision resolution.
Proof. solve_decision. Defined.
#[export] Instance run_state_eq_dec : EqDecision run_state.
Proof. solve_decision. Defined.

Inductive broker_error :=
| BadValue (why : string)              (** ValueError *)
| Broken (why : string)                (** RuntimeError *)
| UniqueViolation
| ForeignKeyViolation
| SerializationFailure                 (** or DeadlockDetected: rolled back by the server *)
| ConnectionLost                       (** OperationalError *)
| RetriesExhausted.                    (** AssertionError after the loop *)

#[export] Instance broker_error_eq_dec : EqDecision broker_error.
Proof. solve_decision. Defined.

Abbreviation bx := (io bdb broker_error).

Definition refuse_if {S} (b : bool) (e : broker_error) : io S broker_error unit := if b then raise e else mret tt.

Definition find_admission (key : string) : bx (option admission) := λ s, (Ok (admissions s !! key), s).
Definition put_admission (key : string) (a : admission) : bx unit :=
  λ s, (Ok tt, Bdb (<[key := a]> (admissions s)) (ledger s) (slots s) (audits s)).
Definition find_ledger (key : string) : bx (option ledger_entry) := λ s, (Ok (ledger s !! key), s).

(** INSERT INTO broker_usage_ledger: primary key, and the reference to the admission *)
Definition insert_ledger (key : string) (e : ledger_entry) : bx unit :=
  λ s, match ledger s !! key with
       | Some _ => (Err UniqueViolation, s)
       | None =>
           if bool_decide (a_tenant <$> admissions s !! key = Some (le_tenant e))
           then (Ok tt, Bdb (admissions s) (<[key := e]> (ledger s)) (slots s) (audits s))
           else (Err ForeignKeyViolation, s)
       end.

(** the same with ON CONFLICT (event_key) DO NOTHING *)
Definition insert_ledger_once (key : string) (e : ledger_entry) : bx unit :=
  o ← find_ledger key; match o with Some _ => mret tt | None => insert_ledger key e end.

Definition insert_slot (key : string) (sl : slot) : bx unit :=
  λ s, match slots s !! key with
       | Some _ => (Err UniqueViolation, s)
       | None => (Ok tt, Bdb (admissions s) (ledger s) (<[key := sl]> (slots s)) (audits s))
       end.

(** UPDATE broker_aps_slots SET state = 'released' ... WHERE event_key AND state = 'held' *)
Definition release_slot (key : string) (why : release_reason) : bx unit :=
  λ s, match slots s !! key with
       | Some sl =>
           if sl_held sl
           then (Ok tt, Bdb (admissions s) (ledger s) (<[key := Slot (sl_tenant sl) (Some why)]> (slots s)) (audits s))
           else (Ok tt, s)
       | None => (Ok tt, s)
       end.

Definition insert_audit (id : string) (u : audit) : bx unit :=
  λ s, match audits s !! id with
       | Some _ => (Err UniqueViolation, s)
       | None => (Ok tt, Bdb (admissions s) (ledger s) (slots s) (<[id := u]> (audits s)))
       end.

(** ** Transactions *)

(** clean exit commits, an exception rolls back *)
Definition transaction {A} (op : bx A) : bx A :=
  λ s, match op s with (Ok a, s') => (Ok a, s') | (Err e, _) => (Err e, s) end.

(** What becomes of an attempt: its COMMIT is answered; the server aborts it, during
    the operation or at the COMMIT; the connection breaks before the COMMIT is
    applied, or after it, with the answer lost. *)
Inductive fate := Answered | Clashed | BrokenBefore | BrokenAfter.

Definition attempt_once {A} (f : fate) (op : bx A) : bx A :=
  match f with
  | Answered => transaction op
  | Clashed => raise SerializationFailure
  | BrokenBefore => raise ConnectionLost
  | BrokenAfter => _ ← transaction op; raise ConnectionLost
  end.

(** [except (SerializationFailure, DeadlockDetected)] *)
Definition retried (e : broker_error) : bool := bool_decide (e = SerializationFailure).

(** Attempt [i] starts at [now i], after other clients have committed [others i], and
    meets [fates i]; the sleeps between attempts take no part. *)
Fixpoint attempts {A} (left i : nat) (now : nat → Z) (fates : nat → fate) (others : nat → bdb → bdb) (op : Z → bx A) : bx A :=
  match left with
  | O => raise RetriesExhausted
  | S left' => λ s,
      match attempt_once (fates i) (op (now i)) (others i s) with
      | (Ok a, s') => (Ok a, s')
      | (Err e, s') =>
          if retried e then (if bool_decide (left' = 0)%nat then (Err e, s') else attempts left' (S i) now fates others op s')
          else (Err e, s')
      end
  end.

(** [run_transaction] *)
Definition run_transaction {A} (max_attempts : nat) (retry_delay : Z) (now : nat → Z) (fates : nat → fate)
    (others : nat → bdb → bdb) (op : Z → bx A) : bx A :=
  _ ← refuse_if (bool_decide (max_attempts < 1)%nat) (BadValue "max_attempts must be at least 1");
  _ ← refuse_if (retry_delay <? 0) (BadValue "retry_delay_seconds must not be negative");
  attempts max_attempts 0 now fates others op.

(** ** Validation *)

(** [JOB_ID_RE] and [normalize_ledger_job_id] *)
Definition is_job_char (c : ascii) : bool :=
  is_alnum_lower c || in_range 65 90 c || bool_decide (c ∈ ["."%char; "_"%char; ":"%char; "-"%char]).

Definition normalize_ledger_job_id (value : option string) : option string :=
  match value with
  | Some v => if forallb is_job_char (chars v) && (1 <=? Z.of_nat (String.length v)) && (Z.of_nat (String.length v) <=? 128)
              then Some v else None
  | None => None
  end.

Definition with_job (e : ledger_entry) (job : option string) : ledger_entry :=
  LedgerEntry (le_ts e) (le_tenant e) (le_tool e) (le_op e) (le_endpoint e) (le_live e) (le_seconds e) (le_usd e) (le_status e) job.

Definition nonnegative (v : option Z) : bool := match v with Some x => 0 <=? x | None => true end.

Definition _validate_ledger_numbers (e : ledger_entry) : bx unit :=
  _ ← refuse_if (negb (nonnegative (le_seconds e))) (BadValue "broker ledger engine_seconds must be finite and nonnegative");
  refuse_if (negb (nonnegative (le_usd e))) (BadValue "broker ledger usd_est must be finite and nonnegative").

(** [JOB_EVENT_RE.fullmatch(event_key)], its job id *)
Definition event_job (key : string) : option string :=
  let job := take 36 (chars key) in
  let rest := of_chars (drop 36 (chars key)) in
  if (Z.of_nat (length job) =? 36) && forallb (λ c, is_hex_lower c || bool_decide (c = "-"%char)) job &&
     (bool_decide (rest = ":broker-run"%string) || bool_decide (rest = ":broker-fallback"%string))
  then Some (of_chars job) else None.

(** [math.isclose(a, b, rel_tol=1e-9, abs_tol=1e-9)] on nano-units *)
Definition isclose (a b : Z) : bool := Z.abs (a - b) * 10 ^ 9 <=? Z.max (Z.max (Z.abs a) (Z.abs b)) (10 ^ 9).

(** a number in both the ledger entry and the cost block, and the two agree *)
Definition agree (entry cost : option Z) : bool :=
  match entry, cost with
  | Some a, Some b => (0 <=? a) && (0 <=? b) && isclose a b
  | _, _ => false
  end.

Definition validate_success_intent (i : intent) (a : admission) (key tenant : string) : bool :=
  bool_decide (in_version i = 1) && bool_decide (in_key i = key) && bool_decide (in_tenant i = tenant) &&
  bool_decide (in_fingerprint i = a_fingerprint a) && bool_decide (a_tenant a = tenant) && a_live a &&
  bool_decide (event_job key = Some (in_job i)) && negb (bool_decide (strip (in_workitem i) = ""%string)) &&
  (let e := in_entry i in
   bool_decide (le_tenant e = tenant) && le_live e && bool_decide (le_job e = Some (in_job i)) &&
   bool_decide (le_status e = "ok"%string) && rr_ok (in_result i) && negb (bool_decide (rr_degraded (in_result i) = None)) &&
   (200 <=? in_http i) && (in_http i <? 300) && negb (bool_decide (le_endpoint e = ""%string)) && (0 <=? le_ts e) &&
   match rr_cost (in_result i) with
   | Some (seconds, usd) => agree (le_seconds e) seconds && agree (le_usd e) usd
   | None => false
   end).

(** ** Admission *)

Inductive decision :=
| Collision | Mismatch
| Replay (r : run_result) (http : Z)
| AlreadyExecuting | AlreadyLeased
| SpendQuota (spent reserved estimate cap : Z)
| DailyQuota (used limit : Z)
| Acquired (reclaimed : bool).

(** status NOT IN ('quota_exceeded', 'TENANT_DISABLED') *)
Definition charged (e : ledger_entry) : Z :=
  if bool_decide (le_status e = "quota_exceeded"%string ∨ le_status e = "TENANT_DISABLED"%string) then 0
  else default 0 (le_usd e).

Definition spent (led : gmap string ledger_entry) (tenant : string) : Z :=
  msum (λ _ e, if bool_decide (le_tenant e = tenant) then charged e else 0) led.

Definition lease_active (a : admission) (now : Z) : bool :=
  match a_state a with Leased expires => now <? expires | _ => false end.

(** state = 'executing' OR (state = 'leased' AND lease_expires_at > NOW()) *)
Definition held (a : admission) (now : Z) : Z :=
  match a_state a with
  | Executing => a_reserved a
  | Leased expires => if now <? expires then a_reserved a else 0
  | Terminal _ _ => 0
  end.

Definition reserved (adms : gmap string admission) (tenant : string) (now : Z) : Z :=
  msum (λ _ a, if bool_decide (a_tenant a = tenant) then held a now else 0) adms.

(** date_trunc('day', NOW() AT TIME ZONE 'UTC') AT TIME ZONE 'UTC' *)
Definition day_start (now : Z) : Z := now / 86400 * 86400.

Definition counted_today (tenant : string) (now : Z) (a : admission) : bool :=
  bool_decide (a_tenant a = tenant) && a_live a && (day_start now <=? a_created a) && (a_accounted a || lease_active a now).

Definition used_today (adms : gmap string admission) (tenant : string) (now : Z) : Z :=
  msum (λ _ a, if counted_today tenant now a then 1 else 0) adms.

(** [publish_lease] *)
Definition leased_row (existing : option admission) (tenant fingerprint token : string) (live : bool)
    (amount now lease_seconds : Z) : admission :=
  match existing with
  | Some a => Admission (a_tenant a) (a_fingerprint a) (Leased (now + lease_seconds)) token live (a_accounted a) amount now (a_intent a)
  | None => Admission tenant fingerprint (Leased (now + lease_seconds)) token live false amount now None
  end.

(** what an existing admission answers, unless its lease has lapsed *)
Definition answer_of (a : admission) (tenant fingerprint : string) (now : Z) : option decision :=
  if negb (bool_decide (a_tenant a = tenant)) then Some Collision else
  if negb (bool_decide (a_fingerprint a = fingerprint)) then Some Mismatch else
  match a_state a with
  | Terminal r http => Some (Replay r http)
  | Executing => Some AlreadyExecuting
  | Leased expires => if now <? expires then Some AlreadyLeased else None
  end.

(** the spend cap, then the daily limit of live runs *)
Definition quota (s : bdb) (tenant : string) (live : bool) (estimate : Z) (spend_cap daily_limit : option Z) (now : Z)
  : option decision :=
  let sp := spent (ledger s) tenant in
  let re := reserved (admissions s) tenant now in
  let used := used_today (admissions s) tenant now in
  let daily := match daily_limit with
               | Some limit => if live && (limit <=? used) then Some (DailyQuota used limit) else None
               | None => None
               end in
  match spend_cap with
  | Some cap => if cap <? sp + re + estimate then Some (SpendQuota sp re estimate cap) else daily
  | None => daily
  end.

Definition admit_run (event_key tenant : string) (live : bool) (estimated_usd : Z) (spend_cap daily_limit : option Z)
    (fingerprint : string) (lease_seconds : Z) (token : string) (now : Z) : bx decision :=
  let key := strip event_key in
  _ ← refuse_if (bool_decide (key = ""%string)) (BadValue "broker run event_key must not be empty");
  _ ← refuse_if ((lease_seconds <? 1) || (300 <? lease_seconds)) (BadValue "broker admission lease must be between 1 and 300 seconds");
  let estimate := Z.max 0 estimated_usd in
  transaction (
  existing ← find_admission key;
  match from_option (λ a, answer_of a tenant fingerprint now) None existing with
  | Some d => mret d
  | None =>
      let publish amount := put_admission key (leased_row existing tenant fingerprint token live amount now lease_seconds) in
      λ s, (match quota s tenant live estimate spend_cap daily_limit now with
            | Some d => _ ← publish 0; mret d
            | None => _ ← publish estimate; mret (Acquired (negb (bool_decide (existing = None))))
            end) s
  end).

(** ** Starting *)

Definition with_state (a : admission) (st : run_state) (accounted : bool) (amount : Z) : admission :=
  Admission (a_tenant a) (a_fingerprint a) st (a_token a) (a_live a) accounted amount (a_created a) (a_intent a).

Definition held_slots (sls : gmap string slot) : Z := msum (λ _ sl, if sl_held sl then 1 else 0) sls.

(** WHERE event_key AND tenant_id AND state = 'leased' AND lease_token: the lease's expiry *)
Definition owned_lease (o : option admission) (tenant token : string) : option (admission * Z) :=
  match o with
  | Some a =>
      match a_state a with
      | Leased expires => if bool_decide (a_tenant a = tenant) && bool_decide (a_token a = token) then Some (a, expires) else None
      | _ => None
      end
  | None => None
  end.

Definition start_row (key tenant token : string) (live : bool) (now : Z) : bx bool :=
  o ← find_admission key;
  match owned_lease o tenant token with
  | Some (a, expires) =>
      if now <? expires then
        _ ← put_admission key (with_state a Executing live (a_reserved a));
        _ ← (if live then insert_slot key (Slot tenant None) else mret tt);
        mret true
      else raise (Broken "broker execution lease is missing, expired, or not owned")
  | None => raise (Broken "broker execution lease is missing, expired, or not owned")
  end.

(** give the lease back: it expires now *)
Definition yield_lease (key tenant token : string) (now : Z) : bx bool :=
  o ← find_admission key;
  match owned_lease o tenant token with
  | Some (a, _) => _ ← put_admission key (with_state a (Leased now) (a_accounted a) (a_reserved a)); mret false
  | None => mret false
  end.

Definition mark_execution_started (key tenant token : string) (live : bool) (max_concurrency now : Z) : bx bool :=
  _ ← refuse_if (max_concurrency <? 1) (BadValue "APS_MAX_CONCURRENCY must be at least 1");
  transaction (λ s,
    if live && (max_concurrency <=? held_slots (slots s)) then yield_lease key tenant token now s
    else start_row key tenant token live now s).

(** ** Staged evidence of a paid success *)

Definition _lock_intent_admission (key tenant : string) : bx admission :=
  o ← find_admission key;
  match o with
  | Some a => if bool_decide (a_tenant a = tenant) then mret a
              else raise (BadValue "terminal intent admission identity mismatch")
  | None => raise (BadValue "terminal intent admission identity mismatch")
  end.

(** [validate_success_intent] as a statement that raises *)
Definition validated (i : intent) (a : admission) (key tenant : string) : bx intent :=
  if validate_success_intent i a key tenant then mret i else raise (BadValue "invalid terminal intent").

Definition _intent (a : admission) (key tenant : string) : bx intent :=
  match a_intent a with
  | Some i => validated i a key tenant
  | None => raise (BadValue "invalid terminal intent shape")
  end.

Definition _check_intent_ledger (i : intent) : bx (option ledger_entry) :=
  row ← find_ledger (in_key i);
  match row with
  | Some e => if bool_decide (e = in_entry i) then mret row else raise (BadValue "existing ledger conflicts with terminal intent")
  | None => mret row
  end.

Definition with_intent (a : admission) (i : intent) : admission :=
  Admission (a_tenant a) (a_fingerprint a) (a_state a) (a_token a) (a_live a) (a_accounted a) (a_reserved a) (a_created a) (Some i).

Definition stage_success_intent (key tenant token : string) (i : intent) : bx unit :=
  transaction (
  a ← _lock_intent_admission key tenant;
  _ ← validated i a key tenant;
  _ ← refuse_if (negb (bool_decide (a_state a = Executing) && bool_decide (a_token a = token)))
        (BadValue "terminal intent requires current executing owner");
  _ ← _check_intent_ledger i;
  match a_intent a with
  | Some _ =>
      i' ← _intent a key tenant;
      refuse_if (negb (bool_decide (i' = i))) (BadValue "terminal intent is write once")
  | None => put_admission key (with_intent a i)
  end).

(** ** Settling *)

(** the row every settlement leaves *)
Definition settled_row (a : admission) (r : run_result) (http : Z) (accounted : bool) : admission :=
  with_state a (Terminal r http) accounted 0.

(** what the audit row of an operator or of the reconciler says *)
Record audit_note := AuditNote { an_operator : string; an_reason : string; an_evidence : string }.

Inductive actor := Foreground | Reconciler.
Inductive settlement := AlreadySettled | SettledNow (http : Z) (audit_id : option string).

Definition reconciler_note (key tenant : string) : audit_note :=
  AuditNote "reconciler" "committed paid-success terminal intent" ("terminal-intent:v1:" +:+ tenant +:+ ":" +:+ key).

Definition slot_free (o : option slot) : bool := match o with Some sl => negb (sl_held sl) | None => true end.

Definition _settle_intent (a : admission) (key tenant : string) (who : actor) (note : option audit_note) (audit_id : string)
  : bx settlement :=
  i ← _intent a key tenant;
  row ← _check_intent_ledger i;
  match a_state a with
  | Terminal r http =>
      λ s, if bool_decide (row = None) || negb (bool_decide (r = in_result i)) || negb (http =? in_http i) ||
              negb (a_reserved a =? 0) || negb (slot_free (slots s !! key))
           then (Err (BadValue "terminal state conflicts with terminal intent"), s)
           else (Ok AlreadySettled, s)
  | Leased _ => raise (BadValue "terminal intent admission is not executing")
  | Executing =>
      _ ← (if bool_decide (row = None) then insert_ledger key (in_entry i) else mret tt);
      _ ← put_admission key (settled_row a (in_result i) (in_http i) (a_accounted a));
      _ ← release_slot key KnownTerminal;
      match note, who with
      | None, Foreground => mret (SettledNow (in_http i) None)
      | _, _ =>
          let n := default (reconciler_note key tenant) note in
          _ ← insert_audit audit_id (Audit key tenant VerifiedTerminal (an_operator n) (an_reason n) (an_evidence n) (in_http i));
          mret (SettledNow (in_http i) (Some audit_id))
      end
  end.

Definition settle_success_intent (key tenant : string) (who : actor) (audit_id : string) : bx settlement :=
  transaction (
  a ← _lock_intent_admission key tenant;
  _settle_intent a key tenant who None audit_id).

(** the report agrees with the staged evidence *)
Definition as_staged (i : intent) (e : ledger_entry) (r : run_result) (http : Z) : bool :=
  bool_decide (e = in_entry i) && bool_decide (r = in_result i) && (http =? in_http i).

Definition is_terminal (a : admission) : bool := match a_state a with Terminal _ _ => true | _ => false end.

(** the statements of [complete_run] for a run without staged evidence *)
Definition settle_unstaged (key : string) (a : admission) (token : string) (values : ledger_entry) (r : run_result) (http : Z) : bx unit :=
  _ ← refuse_if (negb (bool_decide (a_token a = token))) (Broken "broker terminal write has a stale lease token");
  _ ← insert_ledger_once key values;
  _ ← refuse_if (negb (bool_decide (a_tenant a = le_tenant values))) (Broken "broker terminal state transition failed");
  _ ← put_admission key (settled_row a r http (a_accounted a));
  _ ← release_slot key KnownTerminal;
  mret tt.

Definition complete_run (event_key tenant token : string) (e : ledger_entry) (r : run_result) (http : Z) : bx unit :=
  let key := strip event_key in
  let values := with_job e (normalize_ledger_job_id (le_job e)) in
  _ ← _validate_ledger_numbers values;
  transaction (
  o ← find_admission key;
  match o with
  | None => raise (Broken "broker terminal write does not own this event")
  | Some a =>
      _ ← refuse_if (negb (bool_decide (a_tenant a = tenant))) (Broken "broker terminal write does not own this event");
      match a_intent a with
      | Some _ =>
          i ← _intent a key tenant;
          _ ← refuse_if (negb (bool_decide (le_tenant values = tenant) && as_staged i e r http && bool_decide (a_token a = token)))
                (BadValue "completion conflicts with terminal intent");
          _ ← _settle_intent a key tenant Foreground None ""; mret tt
      | None =>
          if is_terminal a then mret tt else settle_unstaged key a token values r http
      end
  end).

Definition reconcile_executing (key tenant : string) (res : resolution) (note : audit_note) (audit_id : string)
    (e : ledger_entry) (r : run_result) (http : Z) : bx (option settlement) :=
  let values := with_job e (normalize_ledger_job_id (le_job e)) in
  _ ← _validate_ledger_numbers values;
  transaction (
  o ← find_admission key;
  match o with
  | None => raise (Broken "executing broker admission was not found")
  | Some a =>
      _ ← refuse_if (negb (bool_decide (a_tenant a = tenant))) (Broken "executing broker admission was not found");
      match a_intent a with
      | Some _ =>
          i ← _intent a key tenant;
          _ ← refuse_if (negb (bool_decide (res = VerifiedTerminal) && as_staged i e r http))
                (BadValue "resolution conflicts with terminal intent");
          x ← _settle_intent a key tenant Foreground (Some note) audit_id; mret (Some x)
      | None =>
          _ ← refuse_if (negb (bool_decide (a_state a = Executing))) (Broken "broker admission is not executing");
          _ ← insert_ledger key values;
          _ ← refuse_if (negb (bool_decide (a_tenant a = le_tenant values))) (Broken "executing broker admission changed during resolution");
          _ ← put_admission key (settled_row a r http (negb (bool_decide (res = ConfirmedFailedNoCharge))));
          _ ← release_slot key (Resolved res);
          _ ← insert_audit audit_id (Audit key tenant res (an_operator note) (an_reason note) (an_evidence note) http);
          mret None
      end
  end).
