(* ===== verification/BrokerSystem.v ===== *)
(** * Brokers over one admission store

    Any number of broker tasks, the operator and the reconciler call
    [PostgresBrokerStore]; each call is one serializable transaction.  The step
    relation interleaves them in any order and keeps a log of the leases, starts and
    settlements.  [ordered] says whether NOW() is taken to advance with the
    serialization order; only the spend and daily bounds need it. *)

From S2P Require Import Prelude PyText BrokerStore.
Local Open Scope Z_scope.

Inductive call :=
| CAdmit (key tenant : string) (live : bool) (estimate : Z) (cap daily : option Z) (fingerprint : string) (lease : Z) (token : string)
| CStart (key tenant token : string) (live : bool) (max_concurrency : Z)
| CStage (key tenant token : string) (i : intent)
| CSettle (key tenant : string) (who : actor) (audit_id : string)
| CComplete (key tenant token : string) (e : ledger_entry) (r : run_result) (http : Z)
| CReconcile (key tenant : string) (res : resolution) (note : audit_note) (audit_id : string)
    (e : ledger_entry) (r : run_result) (http : Z).

(** What happened to an event key: a lease was published, for a granted run or for
    one a quota denies; the run was started; the run was settled when [held] of its reservation still counted, for [charge]. *)
Inductive event :=
| LeaseTaken (key token : string) (granted : bool)
| Began (key token : string) (live : bool)
| Ended (key tenant : string) (held charge : Z).

Definition event_key (e : event) : string :=
  match e with LeaseTaken k _ _ | Began k _ _ | Ended k _ _ _ => k end.

(** the settlement a transaction made, read off the row before and after *)
Definition ending (k : string) (now : Z) (s s' : bdb) : list event :=
  match admissions s !! k, admissions s' !! k, ledger s' !! k with
  | Some a, Some a', Some e =>
      if negb (is_terminal a) && is_terminal a' then [Ended k (a_tenant a) (held a now) (charged e)] else []
  | _, _, _ => []
  end.

Definition call_key (c : call) : string :=
  match c with
  | CAdmit k _ _ _ _ _ _ _ _ | CComplete k _ _ _ _ _ => strip k
  | CStart k _ _ _ _ | CStage k _ _ _ | CSettle k _ _ _ | CReconcile k _ _ _ _ _ _ _ => k
  end.

Definition exec (c : call) (now : Z) (s : bdb) : list event * bdb :=
  match c with
  | CAdmit key tenant live estimate cap daily fingerprint lease token =>
      let '(r, s') := admit_run key tenant live estimate cap daily fingerprint lease token now s in
      (match r with
       | Ok (Acquired _) => [LeaseTaken (strip key) token true]
       | Ok (SpendQuota _ _ _ _ | DailyQuota _ _) => [LeaseTaken (strip key) token false]
       | _ => [] end, s')
  | CStart key tenant token live max_concurrency =>
      let '(r, s') := mark_execution_started key tenant token live max_concurrency now s in
      (match r with Ok true => [Began key token live] | _ => [] end, s')
  | CStage key tenant token i => ([], final (stage_success_intent key tenant token i) s)
  | CSettle key tenant who audit_id =>
      let s' := final (settle_success_intent key tenant who audit_id) s in (ending key now s s', s')
  | CComplete key tenant token e r http =>
      let s' := final (complete_run key tenant token e r http) s in (ending (strip key) now s s', s')
  | CReconcile key tenant res note audit_id e r http =>
      let s' := final (reconcile_executing key tenant res note audit_id e r http) s in (ending key now s s', s')
  end.

(** The limits a deployment configures; [None] when it has none. *)
Record limits := Limits { l_spend : string → option Z; l_daily : string → option Z; l_slots : option Z }.

Definition within (configured passed : option Z) : Prop :=
  match configured with None => True | Some c => ∃ p, passed = Some p ∧ p <= c end.

(** The brokers pass the configured limits, and where a daily limit is configured
    they do not start a run they were denied. *)
Definition lawful (lim : limits) (log : list event) (c : call) : Prop :=
  match c with
  | CAdmit _ tenant live _ cap daily _ _ _ => within (l_spend lim tenant) cap ∧ (live = true → within (l_daily lim tenant) daily)
  | CStart key tenant token _ n =>
      within (l_slots lim) (Some n) ∧ (l_daily lim tenant ≠ None → LeaseTaken key token false ∉ log)
  | _ => True
  end.

Record sys := Sys { s_db : bdb; s_log : list event; s_now : Z }.

Inductive step (lim : limits) (ordered : bool) : sys → sys → Prop :=
| step_call c now s : lawful lim (s_log s) c → (ordered = true → s_now s <= now) →
    step lim ordered s (Sys (snd (exec c now (s_db s))) (fst (exec c now (s_db s)) ++ s_log s) now).

Definition empty_db : bdb := Bdb ∅ ∅ ∅ ∅.
Definition init (start : Z) : sys := Sys empty_db [] start.

(** ** What one call does to the rows of one key *)

Record view := View { v_adm : option admission; v_led : option ledger_entry; v_slot : option slot }.
Definition at_key (s : bdb) (k : string) : view := View (admissions s !! k) (ledger s !! k) (slots s !! k).

(** only a missing or a lapsed admission is leased anew *)
Definition lapsed (o : option admission) (tenant fingerprint : string) (now : Z) : Prop :=
  match o with
  | None => True
  | Some a => a_tenant a = tenant ∧ a_fingerprint a = fingerprint ∧ ∃ expires, a_state a = Leased expires ∧ expires <= now
  end.

Definition freed (o : option slot) (why : release_reason) : option slot :=
  match o with
  | Some sl => Some (if sl_held sl then Slot (sl_tenant sl) (Some why) else sl)
  | None => None
  end.

Inductive row_step (lim : limits) (log : list event) (s : bdb) (now : Z) (k : string) : list event → view → view → Prop :=
| rs_same v : row_step lim log s now k [] v v
| rs_lease o l sl tenant fingerprint token live amount lease cap daily (granted : bool) :
    lapsed o tenant fingerprint now → 0 <= amount →
    within (l_spend lim tenant) cap → (live = true → within (l_daily lim tenant) daily) →
    (if granted then quota s tenant live amount cap daily now = None else amount = 0) →
    row_step lim log s now k [LeaseTaken k token granted] (View o l sl)
      (View (Some (leased_row o tenant fingerprint token live amount now lease)) l sl)
| rs_yield a l sl expires : a_state a = Leased expires →
    row_step lim log s now k [] (View (Some a) l sl) (View (Some (with_state a (Leased now) (a_accounted a) (a_reserved a))) l sl)
| rs_start a l sl expires live n : a_state a = Leased expires → now < expires →
    (live = true → sl = None ∧ within (l_slots lim) (Some n) ∧ held_slots (slots s) < n) →
    (l_daily lim (a_tenant a) ≠ None → LeaseTaken k (a_token a) false ∉ log) →
    row_step lim log s now k [Began k (a_token a) live] (View (Some a) l sl)
      (View (Some (with_state a Executing live (a_reserved a))) l (if live then Some (Slot (a_tenant a) None) else sl))
| rs_stage a l sl i : a_state a = Executing → a_intent a = None → validate_success_intent i a k (a_tenant a) = true →
    (∀ e, l = Some e → e = in_entry i) →
    row_step lim log s now k [] (View (Some a) l sl) (View (Some (with_intent a i)) l sl)
| rs_settle a l sl e r http accounted why :
    is_terminal a = false → (l = None ∨ l = Some e) → le_tenant e = a_tenant a → 0 <= charged e →
    (∀ i, a_intent a = Some i → a_state a = Executing ∧ e = in_entry i ∧ r = in_result i ∧ http = in_http i) →
    (accounted = a_accounted a ∨ a_state a = Executing) →
    row_step lim log s now k [Ended k (a_tenant a) (held a now) (charged e)] (View (Some a) l sl)
      (View (Some (settled_row a r http accounted)) (Some e) (freed sl why)).

(** A call touches the rows of its own key only. *)
Record touches (lim : limits) (log : list event) (now : Z) (k : string) (es : list event) (s s' : bdb) : Prop := {
  to_events : ∀ e, e ∈ es → event_key e = k;
  to_row : row_step lim log s now k es (at_key s k) (at_key s' k);
  to_other : ∀ k', k' ≠ k → at_key s' k' = at_key s k' }.

Lemma touches_none lim log now k s s' :
  (∀ k', at_key s' k' = at_key s k') → touches lim log now k [] s s'.
Proof. intros H. split; [by intros ? ?%not_elem_of_nil|rewrite H; constructor|by intros]. Qed.

Lemma touches_intro lim log now k es v s s' :
  (∀ e, e ∈ es → event_key e = k) → at_key s' k = v → row_step lim log s now k es (at_key s k) v →
  (∀ k', k' ≠ k → at_key s' k' = at_key s k') → touches lim log now k es s s'.
Proof. intros ? <- ??. by split. Qed.

Ltac run := unfold final, transaction, refuse_if, find_admission, find_ledger, put_admission, raise, mret, io_mret, mbind, io_mbind in *;
  cbn [fst snd admissions ledger slots audits] in *.

(** Rows away from the key, and events of the key. *)
Ltac elsewhere := let k' := fresh "k" in intros k' ?; unfold at_key; cbn [admissions ledger slots]; rewrite ?lookup_insert_ne by done; done.
Ltac one_event := intros ? [->|[]%not_elem_of_nil]%elem_of_cons; done.

Lemma admit_touches lim log now key tenant live estimate cap daily fingerprint lease token s :
  within (l_spend lim tenant) cap → (live = true → within (l_daily lim tenant) daily) →
  touches lim log now (strip key) (fst (exec (CAdmit key tenant live estimate cap daily fingerprint lease token) now s))
    s (snd (exec (CAdmit key tenant live estimate cap daily fingerprint lease token) now s)).
Proof.
  intros Hc Hd. cbn [exec]. unfold admit_run. run.
  destruct (bool_decide _); [by apply touches_none|]. destruct (_ || _); [by apply touches_none|].
  set (k := strip key). destruct (from_option (λ a, answer_of a tenant fingerprint now) None (admissions s !! k)) as [d|] eqn:Ha.
  { assert (match d with Collision | Mismatch | Replay _ _ | AlreadyExecuting | AlreadyLeased => True | _ => False end).
    { destruct (admissions s !! k) as [a|]; [|done]. cbn in Ha. unfold answer_of in Ha. split_in Ha. }
    destruct d; try done; by apply touches_none. }
  assert (Hl : lapsed (admissions s !! k) tenant fingerprint now).
  { unfold lapsed. destruct (admissions s !! k) as [a|]; [|done]. cbn in Ha. unfold answer_of in Ha.
    split_in Ha. bool_prop. split_and!; eauto. }
  destruct (quota s tenant live (Z.max 0 estimate) cap daily now) as [d|] eqn:Hq.
  - assert (match d with SpendQuota _ _ _ _ | DailyQuota _ _ => True | _ => False end).
    { unfold quota in Hq. split_in Hq. }
    destruct d; try done; cbn [fst snd];
      (eapply touches_intro; [one_event|unfold at_key; cbn; by rewrite lookup_insert_eq| |elsewhere]);
      eapply (rs_lease lim log s now k _ _ _ tenant fingerprint token live 0 lease cap daily false); done || lia.
  - cbn [fst snd]. eapply touches_intro; [one_event|unfold at_key; cbn; by rewrite lookup_insert_eq| |elsewhere].
    eapply (rs_lease lim log s now k _ _ _ tenant fingerprint token live (Z.max 0 estimate) lease cap daily true); done || lia.
Qed.

Lemma owned_lease_Some o tenant token a expires :
  owned_lease o tenant token = Some (a, expires) →
  o = Some a ∧ a_state a = Leased expires ∧ a_tenant a = tenant ∧ a_token a = token.
Proof. unfold owned_lease. intros H. split_in H. bool_prop. by simplify_eq. Qed.

Lemma start_touches lim log now key tenant token live n s :
  within (l_slots lim) (Some n) → (l_daily lim tenant ≠ None → LeaseTaken key token false ∉ log) →
  touches lim log now key (fst (exec (CStart key tenant token live n) now s)) s (snd (exec (CStart key tenant token live n) now s)).
Proof.
  intros Hn Hd. cbn [exec]. unfold mark_execution_started, yield_lease, start_row. run.
  destruct (n <? 1); [by apply touches_none|].
  destruct (live && (n <=? held_slots (slots s))) eqn:Hfull.
  - destruct (owned_lease _ _ _) as [[a expires]|] eqn:Ho; [|by apply touches_none].
    apply owned_lease_Some in Ho as (Ha & Hst & _ & _). cbn [fst snd].
    eapply touches_intro; [by intros ? ?%not_elem_of_nil|unfold at_key; cbn; by rewrite lookup_insert_eq| |elsewhere].
    unfold at_key. rewrite Ha. by eapply rs_yield.
  - destruct (owned_lease _ _ _) as [[a expires]|] eqn:Ho; [|by apply touches_none].
    apply owned_lease_Some in Ho as (Ha & Hst & Ht & Hk). destruct (now <? expires) eqn:Hnow; [|by apply touches_none]. bool_prop.
    destruct live; cbn [fst snd andb] in *.
    + unfold insert_slot. cbn [slots]. destruct (slots s !! key) as [sl|] eqn:Hsl; [by apply touches_none|].
      cbn [fst snd]. bool_prop.
      eapply touches_intro; [one_event|unfold at_key; cbn; by rewrite !lookup_insert_eq| |elsewhere].
      unfold at_key. rewrite Ha, Hsl. subst. apply (rs_start lim log s now key a (ledger s !! key) None expires true n); done || eauto.
    + eapply touches_intro; [one_event|unfold at_key; cbn; by rewrite lookup_insert_eq| |elsewhere].
      unfold at_key. rewrite Ha. subst. apply (rs_start lim log s now key a (ledger s !! key) (slots s !! key) expires false n); done || eauto.
Qed.

(** the ledger check: it raises, or returns a row that agrees with the evidence *)
Lemma check_ledger_run i s :
  (∃ e, _check_intent_ledger i s = (Err e, s)) ∨
  (_check_intent_ledger i s = (Ok (ledger s !! in_key i), s) ∧ ∀ e, ledger s !! in_key i = Some e → e = in_entry i).
Proof.
  unfold _check_intent_ledger. run. destruct (ledger s !! in_key i) as [e|]; [|by right].
  destruct (bool_decide (e = in_entry i)) eqn:He; [|by left; eexists]. bool_prop. right. split; [done|]. by intros ? [= <-].
Qed.

Lemma valid_key i a key tenant : validate_success_intent i a key tenant = true → in_key i = key ∧ a_tenant a = tenant ∧ le_tenant (in_entry i) = tenant.
Proof. unfold validate_success_intent. intros H. bool_prop. by split_and!. Qed.

Lemma valid_charged i a key tenant : validate_success_intent i a key tenant = true → 0 <= charged (in_entry i).
Proof.
  unfold validate_success_intent, charged. intros H. bool_prop. destruct (bool_decide _); [done|].
  destruct (rr_cost _) as [[x y]|]; [|done]. bool_prop. unfold agree in *.
  destruct (le_usd (in_entry i)) as [u|]; [|done]. destruct y as [v|]; [|done]. bool_prop. done.
Qed.

Lemma stage_touches lim log now key tenant token i s :
  touches lim log now key [] s (final (stage_success_intent key tenant token i) s).
Proof.
  unfold stage_success_intent, _lock_intent_admission, validated, _intent. run.
  destruct (admissions s !! key) as [a|] eqn:Ha; [|by apply touches_none].
  destruct (bool_decide (a_tenant a = tenant)) eqn:Ht; [|by apply touches_none]. bool_prop. subst tenant.
  destruct (validate_success_intent i a key (a_tenant a)) eqn:Hv; [|by apply touches_none].
  destruct (negb _) eqn:Hs; [by apply touches_none|]. bool_prop.
  destruct (check_ledger_run i s) as [[e ->]|[-> Hl]]; [by apply touches_none|].
  destruct (valid_key _ _ _ _ Hv) as [Hk _]. rewrite Hk in Hl.
  destruct (a_intent a) as [i'|] eqn:Hi.
  { unfold validated. run. destruct (validate_success_intent i' a key (a_tenant a)); [|by apply touches_none].
    destruct (negb _); by apply touches_none. }
  cbn [fst snd]. eapply touches_intro; [by intros ? ?%not_elem_of_nil|unfold at_key; cbn; by rewrite lookup_insert_eq| |elsewhere].
  unfold at_key. rewrite Ha. by apply rs_stage.
Qed.

(** ** Settlements *)

Lemma ending_same k now s : ending k now s s = [].
Proof.
  unfold ending. destruct (admissions s !! k) as [a|]; [|done]. destruct (ledger s !! k); [|done].
  by destruct (is_terminal a).
Qed.

Lemma ending_settled k now s s' a r http accounted e :
  admissions s !! k = Some a → is_terminal a = false →
  admissions s' !! k = Some (settled_row a r http accounted) → ledger s' !! k = Some e →
  ending k now s s' = [Ended k (a_tenant a) (held a now) (charged e)].
Proof. intros H1 H2 H3 H4. unfold ending. by rewrite H1, H3, H4, H2. Qed.

Lemma idle_touches lim log now k s : touches lim log now k (ending k now s s) s s.
Proof. rewrite ending_same. by apply touches_none. Qed.

(** what every settlement leaves at its key *)
Record settles (key : string) (a : admission) (e : ledger_entry) (r : run_result) (http : Z) (accounted : bool) (s s' : bdb) : Prop := {
  st_row : admissions s !! key = Some a;
  st_open : is_terminal a = false;
  st_free : ledger s !! key = None ∨ ledger s !! key = Some e;
  st_after : ∃ why, at_key s' key = View (Some (settled_row a r http accounted)) (Some e) (freed (slots s !! key) why);
  st_others : ∀ k', k' ≠ key → at_key s' k' = at_key s k' }.

Lemma settles_touches lim log now key a e r http accounted s s' :
  settles key a e r http accounted s s' → le_tenant e = a_tenant a → 0 <= charged e →
  (∀ i, a_intent a = Some i → a_state a = Executing ∧ e = in_entry i ∧ r = in_result i ∧ http = in_http i) →
  (accounted = a_accounted a ∨ a_state a = Executing) →
  touches lim log now key (ending key now s s') s s'.
Proof.
  intros [Ha Ho Hf [why Hw] Hs] Ht Hc Hi Hacc. pose proof Hw as Hw'. injection Hw' as H1 H2 _.
  rewrite (ending_settled key now s s' a r http accounted e) by done.
  eapply touches_intro; [one_event|exact Hw| |done]. unfold at_key. rewrite Ha. by apply rs_settle.
Qed.

(** the rows a settlement writes, in the order the statements run *)
Definition settle_rows (key : string) (a : admission) (e : ledger_entry) (r : run_result) (http : Z) (accounted : bool)
    (why : release_reason) (s : bdb) : bdb :=
  final (release_slot key why) (Bdb (<[key := settled_row a r http accounted]> (admissions s)) (<[key := e]> (ledger s)) (slots s) (audits s)).

Lemma settle_rows_settles key a e r http accounted why s au :
  admissions s !! key = Some a → is_terminal a = false → (ledger s !! key = None ∨ ledger s !! key = Some e) →
  let s' := settle_rows key a e r http accounted why s in
  settles key a e r http accounted s (Bdb (admissions s') (ledger s') (slots s') au).
Proof.
  intros Ha Ho Hl. cbn. unfold settle_rows, final, release_slot. cbn [slots admissions ledger audits].
  destruct (slots s !! key) as [sl|] eqn:Hsl; [destruct (sl_held sl) eqn:Hh|]; cbn [fst snd admissions ledger slots];
    (split; [done|done|done|exists why; unfold at_key, freed; cbn; rewrite ?Hsl, ?Hh, ?lookup_insert_eq; done|elsewhere]).
Qed.

Lemma insert_ledger_run key e s :
  (∃ x, insert_ledger key e s = (Err x, s)) ∨
  (insert_ledger key e s = (Ok tt, Bdb (admissions s) (<[key := e]> (ledger s)) (slots s) (audits s)) ∧
   ledger s !! key = None ∧ a_tenant <$> admissions s !! key = Some (le_tenant e)).
Proof.
  unfold insert_ledger. destruct (ledger s !! key); [by left; eexists|].
  destruct (bool_decide _) eqn:H; [|by left; eexists]. bool_prop. by right.
Qed.

(** the last statements of a settlement *)
Lemma finish_run {A} key a e r http accounted why s (k : bx A) :
  (_ ← put_admission key (settled_row a r http accounted); _ ← release_slot key why; k)
    (Bdb (admissions s) (<[key := e]> (ledger s)) (slots s) (audits s)) = k (settle_rows key a e r http accounted why s).
Proof.
  unfold settle_rows, put_admission, release_slot, mbind, io_mbind, final. cbn [slots admissions ledger audits].
  destruct (slots s !! key) as [sl|]; [by destruct (sl_held sl)|done].
Qed.

Lemma insert_audit_run id u s x s' :
  insert_audit id u s = (Ok x, s') → s' = Bdb (admissions s) (ledger s) (slots s) (<[id := u]> (audits s)).
Proof. unfold insert_audit. destruct (audits s !! id); [done|]. by intros [= _ <-]. Qed.

Lemma settle_intent_run a key tenant who note id s x s' :
  admissions s !! key = Some a → _settle_intent a key tenant who note id s = (Ok x, s') →
  s' = s ∨ ∃ i, a_intent a = Some i ∧ a_state a = Executing ∧ validate_success_intent i a key tenant = true ∧
    settles key a (in_entry i) (in_result i) (in_http i) (a_accounted a) s s'.
Proof.
  intros Ha H. unfold _settle_intent, _intent in H. destruct (a_intent a) as [i|] eqn:Hi; [|done].
  unfold validated in H. destruct (validate_success_intent i a key tenant) eqn:Hv; [|done].
  destruct (valid_key _ _ _ _ Hv) as [Hk _]. unfold mbind at 1 2, io_mbind at 1 2 in H. cbn [mret io_mret] in H.
  unfold mret at 1, io_mret at 1 in H. destruct (check_ledger_run i s) as [[e Hc]|[Hc Hl]]; rewrite Hc in H; [done|].
  destruct (a_state a) as [expires| |r http] eqn:Hs; [done| |].
  - right. exists i. split_and!; [done|done|done|].
    assert (Hm : ∀ k : bx settlement,
      (_ ← (if bool_decide (ledger s !! in_key i = None) then insert_ledger key (in_entry i) else mret tt); k) s = (Ok x, s') →
      k (Bdb (admissions s) (<[key := in_entry i]> (ledger s)) (slots s) (audits s)) = (Ok x, s') ∧
      (ledger s !! key = None ∨ ledger s !! key = Some (in_entry i))).
    { intros k Hr. rewrite Hk in *. destruct (bool_decide _) eqn:Hn; bool_prop.
      - destruct (insert_ledger_run key (in_entry i) s) as [[y Hy]|(Hy & Hnone & _)]; unfold mbind, io_mbind in Hr; rewrite Hy in Hr; [done|].
        split; [done|by left].
      - destruct (ledger s !! key) as [e|] eqn:He; [|done]. assert (e = in_entry i) as -> by auto.
        rewrite insert_id by done. destruct s. split; [done|by right]. }
    apply Hm in H as [H Hfree]. rewrite finish_run in H.
    assert (Ht : is_terminal a = false) by (unfold is_terminal; by rewrite Hs).
    destruct note as [n|], who; try (apply io_bind_inv in H as (u & s1 & H1 & H); injection H as _ <-; apply insert_audit_run in H1 as ->;
      by apply settle_rows_settles).
    injection H as _ <-. pose proof (settle_rows_settles key a (in_entry i) (in_result i) (in_http i) (a_accounted a) KnownTerminal s
      (audits (settle_rows key a (in_entry i) (in_result i) (in_http i) (a_accounted a) KnownTerminal s)) Ha Ht Hfree) as Hset.
    by destruct (settle_rows _ _ _ _ _ _ _ _).
  - left. destruct (_ || _); [done|]. by injection H as _ <-.
Qed.

Lemma settle_intent_touches lim log now a key tenant who note id s x s' :
  admissions s !! key = Some a → _settle_intent a key tenant who note id s = (Ok x, s') →
  touches lim log now key (ending key now s s') s s'.
Proof.
  intros Ha [->|(i & Hi & Hs & Hv & Hset)]%settle_intent_run; [apply idle_touches| |done].
  destruct (valid_key _ _ _ _ Hv) as (_ & Ht & He).
  eapply settles_touches; [exact Hset|congruence|by eapply valid_charged| |by left].
  intros i' [= <-]%(eq_trans (eq_sym Hi)). done.
Qed.

(** A transaction that raises changes nothing. *)
Lemma transaction_touches {A} lim log now key (m : bx A) s :
  (∀ x s', m s = (Ok x, s') → touches lim log now key (ending key now s s') s s') →
  touches lim log now key (ending key now s (final (transaction m) s)) s (final (transaction m) s).
Proof.
  intros H. unfold final, transaction. destruct (m s) as [[x|e] s'] eqn:Hm; cbn [snd]; [by eapply H|apply idle_touches].
Qed.

Lemma settle_touches lim log now key tenant who id s :
  touches lim log now key (ending key now s (final (settle_success_intent key tenant who id) s)) s
    (final (settle_success_intent key tenant who id) s).
Proof.
  apply transaction_touches. intros x s' H. apply io_bind_inv in H as (a & s1 & H1 & H2).
  unfold _lock_intent_admission in H1. run. destruct (admissions s !! key) as [a'|] eqn:Ha; [|done].
  destruct (bool_decide _); [|done]. injection H1 as <- <-. by eapply settle_intent_touches.
Qed.

Lemma refuse_if_run {S} b e (s : S) x s' : refuse_if b e s = (Ok x, s') → b = false ∧ s' = s.
Proof. unfold refuse_if. destruct b; [done|]. by intros [= _ <-]. Qed.

Lemma numbers_run e s x s' : _validate_ledger_numbers e s = (Ok x, s') → s' = s ∧ nonnegative (le_usd e) = true.
Proof.
  unfold _validate_ledger_numbers. intros H. apply io_bind_inv in H as ([] & s1 & [_ ->]%refuse_if_run & [H ->]%refuse_if_run).
  by bool_prop.
Qed.

Lemma nonnegative_charged e : nonnegative (le_usd e) = true → 0 <= charged e.
Proof. unfold nonnegative, charged. intros H. destruct (bool_decide _); [done|]. destruct (le_usd e); cbn; bool_prop; done. Qed.

(** the checks outside the transaction raise before anything is written *)
Lemma numbers_touches {A} lim log now key e (m : bx A) s :
  (nonnegative (le_usd e) = true →
   touches lim log now key (ending key now s (final m s)) s (final m s)) →
  touches lim log now key (ending key now s (final (_ ← _validate_ledger_numbers e; m) s)) s
    (final (_ ← _validate_ledger_numbers e; m) s).
Proof.
  intros H. unfold final, mbind, io_mbind. destruct (_validate_ledger_numbers e s) as [[x|x] s'] eqn:Hn.
  - apply numbers_run in Hn as [-> Hn]. by apply H.
  - assert (s' = s) as ->; [|apply idle_touches]. unfold _validate_ledger_numbers in Hn. run.
    destruct (negb (nonnegative (le_seconds e))), (negb (nonnegative (le_usd e))); congruence.
Qed.

(** an unstaged settlement: the ledger row, then the admission and the slot *)
Lemma unstaged_touches lim log now key a e r http accounted why s au :
  admissions s !! key = Some a → a_intent a = None → is_terminal a = false → ledger s !! key = None →
  le_tenant e = a_tenant a → 0 <= charged e → (accounted = a_accounted a ∨ a_state a = Executing) →
  let s' := settle_rows key a e r http accounted why s in
  let s'' := Bdb (admissions s') (ledger s') (slots s') au in
  touches lim log now key (ending key now s s'') s s''.
Proof.
  intros Ha Hi Ho Hl Ht Hc Hacc. cbn. eapply settles_touches; [by apply settle_rows_settles; [..|left]|done|done|congruence|done].
Qed.

Lemma settle_unstaged_run key a token values r http s x s' :
  settle_unstaged key a token values r http s = (Ok x, s') → admissions s !! key = Some a → ledger s !! key = None →
  s' = settle_rows key a values r http (a_accounted a) KnownTerminal s ∧ le_tenant values = a_tenant a.
Proof.
  unfold settle_unstaged. intros H Ha Hl. apply io_bind_inv in H as ([] & s1 & [_ ->]%refuse_if_run & H).
  apply io_bind_inv in H as ([] & s1 & H1 & H). unfold insert_ledger_once in H1.
  apply io_bind_inv in H1 as (o & s2 & [= <- <-] & H1). rewrite Hl in H1.
  destruct (insert_ledger_run key values s) as [[y Hy]|(Hy & _ & Hfk)]; rewrite Hy in H1; [done|]. injection H1 as <-.
  rewrite Ha in Hfk. injection Hfk as Hfk. apply io_bind_inv in H as ([] & s1 & [_ ->]%refuse_if_run & H).
  rewrite finish_run in H. by injection H as _ <-.
Qed.

(** a run that has not ended has no ledger row yet *)
Definition unbilled (s : bdb) (key : string) : Prop :=
  ∀ a, admissions s !! key = Some a → is_terminal a = false → ledger s !! key = None.

Lemma complete_touches lim log now key tenant token e r http s :
  unbilled s (strip key) →
  touches lim log now (strip key) (ending (strip key) now s (final (complete_run key tenant token e r http) s)) s
    (final (complete_run key tenant token e r http) s).
Proof.
  intros Hopen. unfold complete_run. set (k := strip key) in *. set (values := with_job e _).
  apply numbers_touches. intros Hn. apply transaction_touches. intros x s' H.
  apply io_bind_inv in H as (o & s1 & [= <- <-] & H). destruct (admissions s !! k) as [a|] eqn:Ha; [|done].
  apply io_bind_inv in H as ([] & s1 & [Ht ->]%refuse_if_run & H). destruct (a_intent a) as [i|] eqn:Hi.
  - apply io_bind_inv in H as (i' & s1 & H1 & H). unfold _intent, validated in H1. rewrite Hi in H1.
    destruct (validate_success_intent i a k tenant) eqn:Hv; [|done]. injection H1 as <- <-.
    apply io_bind_inv in H as ([] & s1 & [_ ->]%refuse_if_run & H).
    apply io_bind_inv in H as (y & s1 & H1 & [= _ <-]). by eapply settle_intent_touches.
  - destruct (is_terminal a) eqn:Hterm; [injection H as _ <-; apply idle_touches|].
    pose proof (Hopen a Ha Hterm) as Hl. destruct (settle_unstaged_run _ _ _ _ _ _ _ _ _ H Ha Hl) as [-> Hfk].
    pose proof (unstaged_touches lim log now k a values r http (a_accounted a) KnownTerminal s
      (audits (settle_rows k a values r http (a_accounted a) KnownTerminal s)) Ha Hi Hterm Hl Hfk
      (nonnegative_charged _ Hn) (or_introl eq_refl)) as Htouch.
    by destruct (settle_rows _ _ _ _ _ _ _ _).
Qed.

Lemma reconcile_touches lim log now key tenant res note id e r http s :
  touches lim log now key (ending key now s (final (reconcile_executing key tenant res note id e r http) s)) s
    (final (reconcile_executing key tenant res note id e r http) s).
Proof.
  unfold reconcile_executing. set (values := with_job e _).
  apply numbers_touches. intros Hn. apply transaction_touches. intros x s' H.
  apply io_bind_inv in H as (o & s1 & [= <- <-] & H). destruct (admissions s !! key) as [a|] eqn:Ha; [|done].
  apply io_bind_inv in H as ([] & s1 & [Ht ->]%refuse_if_run & H). destruct (a_intent a) as [i|] eqn:Hi.
  - apply io_bind_inv in H as (i' & s1 & H1 & H). unfold _intent, validated in H1. rewrite Hi in H1.
    destruct (validate_success_intent i a key tenant) eqn:Hv; [|done]. injection H1 as <- <-.
    apply io_bind_inv in H as ([] & s1 & [_ ->]%refuse_if_run & H).
    apply io_bind_inv in H as (y & s1 & H1 & [= _ <-]). by eapply settle_intent_touches.
  - apply io_bind_inv in H as ([] & s1 & [Hs ->]%refuse_if_run & H). bool_prop.
    assert (Hterm : is_terminal a = false) by (unfold is_terminal; by rewrite Hs).
    apply io_bind_inv in H as ([] & s1 & H1 & H).
    destruct (insert_ledger_run key values s) as [[y Hy]|(Hy & Hl & Hfk)]; rewrite Hy in H1; [done|]. injection H1 as <-.
    rewrite Ha in Hfk. injection Hfk as Hfk. apply io_bind_inv in H as ([] & s1 & [_ ->]%refuse_if_run & H).
    rewrite finish_run in H. apply io_bind_inv in H as (u & s1 & ->%insert_audit_run & [= _ <-]).
    apply unstaged_touches; [done|done|done|done|done|by apply nonnegative_charged|by right].
Qed.

(** Every call touches the rows of its key, as [row_step] says. *)
Lemma exec_touches lim log c now s :
  lawful lim log c → unbilled s (call_key c) →
  touches lim log now (call_key c) (fst (exec c now s)) s (snd (exec c now s)).
Proof.
  intros Hl Ho. destruct c; cbn [call_key] in *.
  - destruct Hl. by apply admit_touches.
  - destruct Hl. by apply start_touches.
  - apply stage_touches.
  - apply settle_touches.
  - by apply complete_touches.
  - apply reconcile_touches.
Qed.

(** ** What holds of the rows of a key *)

Definition is_lease (e : event) : Prop := match e with LeaseTaken _ _ _ => True | _ => False end.

Definition leased_log (k token : string) (L : list event) : Prop :=
  ∃ granted l0, L = LeaseTaken k token granted :: l0 ∧ Forall is_lease l0.
Definition begun_log (k token : string) (L : list event) : Prop :=
  ∃ live l0, L = Began k token live :: l0 ∧ leased_log k token l0.

(** [L] is the log of the key, newest first. *)
Definition row_ok (k : string) (L : list event) (v : view) : Prop :=
  match v_adm v with
  | None => v_led v = None ∧ v_slot v = None ∧ L = []
  | Some a =>
      0 <= a_reserved a ∧ (∀ i, a_intent a = Some i → validate_success_intent i a k (a_tenant a) = true) ∧
      match a_state a with
      | Leased _ => v_led v = None ∧ v_slot v = None ∧ a_intent a = None ∧ a_accounted a = false ∧ leased_log k (a_token a) L
      | Executing =>
          v_led v = None ∧ begun_log k (a_token a) L ∧
          match v_slot v with Some sl => sl_held sl = true ∧ a_accounted a = true | None => True end
      | Terminal r http =>
          a_reserved a = 0 ∧ slot_free (v_slot v) = true ∧
          ∃ e h l0, v_led v = Some e ∧ le_tenant e = a_tenant a ∧ 0 <= charged e ∧
            L = Ended k (a_tenant a) h (charged e) :: l0 ∧ (leased_log k (a_token a) l0 ∨ begun_log k (a_token a) l0) ∧
            ∀ i, a_intent a = Some i → e = in_entry i ∧ r = in_result i ∧ http = in_http i
      end
  end.

Lemma freed_free o why : slot_free (freed o why) = true.
Proof. destruct o as [sl|]; [|done]. cbn. by destruct (sl_held sl) eqn:H; cbn; rewrite ?H. Qed.

Lemma lease_ok now k o l sl tenant fingerprint token live amount lease granted L :
  lapsed o tenant fingerprint now → 0 <= amount → row_ok k L (View o l sl) →
  row_ok k (LeaseTaken k token granted :: L) (View (Some (leased_row o tenant fingerprint token live amount now lease)) l sl).
Proof.
  intros Hl Ham Hok. destruct o as [a|]; cbn in *.
  - destruct Hl as (_ & _ & x & Hx & _). destruct Hok as (_ & _ & Hst). rewrite Hx in Hst.
    destruct Hst as (-> & -> & Hi & Hacc & g & l0 & -> & Hf). split_and!; try done; [intros i; congruence|].
    exists granted, (LeaseTaken k (a_token a) g :: l0). split; [done|by constructor].
  - destruct Hok as (-> & -> & ->). split_and!; try done. by exists granted, [].
Qed.

Lemma broker_row_step_ok lim log s now k es v v' L :
  row_step lim log s now k es v v' → row_ok k L v → row_ok k (es ++ L) v'.
Proof.
  intros Hst Hok. destruct Hst as [v|o l sl tenant fp token live amount lease cap daily granted Hl Ham _ _ _
    |a l sl x Hs|a l sl x live n Hs Hx Hlive _|a l sl i Hs Hi Hv Hl|a l sl e r http acc why Ho Hl Ht Hc Hi Hacc].
  - done.
  - by eapply lease_ok.
  - cbn in *. destruct Hok as (? & Hv & Hst). rewrite Hs in Hst. split; [done|]. split; [exact Hv|exact Hst].
  - cbn in *. destruct Hok as (? & Hv & Hst). rewrite Hs in Hst. destruct Hst as (-> & -> & Hi & Hacc & Hlog).
    split_and!; [done|intros i; congruence|done|by exists live, L|]. by destruct live.
  - cbn in *. destruct Hok as (? & _ & Hst). rewrite Hs in Hst. rewrite Hs. split; [done|]. split; [intros ? [= <-]; exact Hv|exact Hst].
  - cbn in *. destruct Hok as (? & Hv & Hst). split; [done|]. split; [exact Hv|]. split_and!; [done|apply freed_free|].
    exists e, (held a now), L. split_and!; [done|done|done|done| |intros i Hi'; by apply Hi].
    unfold is_terminal in Ho. destruct (a_state a); [left|right|done]; apply Hst.
Qed.

Definition mine (k : string) (es : list event) : list event := List.filter (λ e, bool_decide (event_key e = k)) es.

Lemma mine_eq k es es' : mine k (es ++ es') = mine k es ++ mine k es'.
Proof. apply List.filter_app. Qed.

Lemma mine_all k es : (∀ e, e ∈ es → event_key e = k) → mine k es = es.
Proof.
  induction es as [|e es IH]; [done|]. intros H. unfold mine. cbn [List.filter].
  rewrite bool_decide_true by (apply H; left). f_equal. apply IH. intros e' He'. apply H. by right.
Qed.

Lemma mine_none k k' es : k ≠ k' → (∀ e, e ∈ es → event_key e = k') → mine k es = [].
Proof.
  intros Hk. induction es as [|e es IH]; [done|]. intros H. unfold mine. cbn [List.filter].
  rewrite bool_decide_false by (rewrite (H e) by left; done). apply IH. intros e' He'. apply H. by right.
Qed.

Definition rows_ok (s : sys) : Prop := ∀ k, row_ok k (mine k (s_log s)) (at_key (s_db s) k).

Lemma rows_unbilled s k : rows_ok s → unbilled (s_db s) k.
Proof.
  intros H a Ha Ht. specialize (H k). unfold row_ok, at_key in H. cbn in H. rewrite Ha in H.
  unfold is_terminal in Ht. destruct H as (_ & _ & H). destruct (a_state a); [apply H|apply H|done].
Qed.

Lemma touches_row lim log now k0 es s s' k :
  touches lim log now k0 es s s' → row_step lim log s now k (mine k es) (at_key s k) (at_key s' k).
Proof.
  intros [He Hr Ho]. destruct (decide (k = k0)) as [->|Hk].
  - by rewrite mine_all.
  - rewrite (mine_none k k0), Ho by done. constructor.
Qed.

Lemma broker_step_inv lim ordered s s' : step lim ordered s s' →
  ∃ c now, lawful lim (s_log s) c ∧ (ordered = true → s_now s <= now) ∧
    s' = Sys (snd (exec c now (s_db s))) (fst (exec c now (s_db s)) ++ s_log s) now.
Proof. destruct 1. eauto 6. Qed.

Lemma step_rows_ok lim ordered s s' : rows_ok s → step lim ordered s s' → rows_ok s'.
Proof.
  intros Hok (c & now & Hl & _ & ->)%broker_step_inv k. cbn [s_db s_log]. rewrite mine_eq.
  eapply broker_row_step_ok; [|apply Hok]. eapply touches_row, exec_touches; [done|by apply rows_unbilled].
Qed.

Lemma init_rows_ok start : rows_ok (init start).
Proof. by intros k. Qed.

Lemma reachable_rows_ok lim ordered start s : star (step lim ordered) (init start) s → rows_ok s.
Proof.
  intros H. eapply (star_invariant (step lim ordered) rows_ok); [|exact H|apply init_rows_ok].
  intros s1 s2 H1 H2. by eapply step_rows_ok.
Qed.

(** ** A run is started at most once *)

Lemma leased_log_no k token L : leased_log k token L → Forall is_lease L.
Proof. intros (g & l0 & -> & H). by constructor. Qed.

Lemma lease_not_began L l1 e l2 : Forall is_lease L → L = l1 ++ e :: l2 → is_lease e.
Proof. intros H ->. apply Forall_app in H as [_ H]. by inversion H. Qed.

Lemma begun_at k tok L l1 tok' live l2 :
  begun_log k tok L → L = l1 ++ Began k tok' live :: l2 → l1 = [] ∧ leased_log k tok' l2.
Proof.
  intros (live0 & l0 & -> & Hl) H. destruct l1 as [|e l1]; [by injection H as -> -> ->|].
  injection H as _ H. exfalso. by apply (lease_not_began _ _ _ _ (leased_log_no _ _ _ Hl) H).
Qed.

(** (C11) The irreversible boundary is crossed once: in any interleaving of brokers,
    reconcilers and operators, with any clocks and crashes, the log of an event key
    has one start at most; it was made under the last lease published for the key,
    and after it nothing happens to the key but its settlement, which is the last
    entry of every log.  A second broker that retries the key never runs the work
    again. *)
Theorem run_executes_at_most_once lim ordered start s key :
  star (step lim ordered) (init start) s →
  (∀ l1 token live l2, mine key (s_log s) = l1 ++ Began key token live :: l2 →
     (l1 = [] ∨ ∃ tenant h c, l1 = [Ended key tenant h c]) ∧ leased_log key token l2) ∧
  (∀ l1 tenant h c l2, mine key (s_log s) = l1 ++ Ended key tenant h c :: l2 → l1 = []).
Proof.
  intros Hok%reachable_rows_ok. specialize (Hok key). unfold row_ok, at_key in Hok. cbn in Hok.
  destruct (admissions (s_db s) !! key) as [a|].
  2:{ destruct Hok as (_ & _ & ->). split; intros [] *; done. }
  destruct Hok as (_ & _ & Hst). destruct (a_state a) as [x| |r http].
  - destruct Hst as (_ & _ & _ & _ & Hl%leased_log_no).
    split; intros l1 * H; exfalso; exact (lease_not_began _ _ _ _ Hl H).
  - destruct Hst as (_ & Hb & _). split; intros l1 *.
    + intros [-> ?]%(begun_at _ _ _ _ _ _ _ Hb). by split; [left|].
    + intros H. destruct Hb as (live0 & l0 & Heq & Hl%leased_log_no). rewrite Heq in H.
      destruct l1 as [|e l1]; [done|]. injection H as _ H. exfalso. exact (lease_not_began _ _ _ _ Hl H).
  - destruct Hst as (_ & _ & e & h & l0 & _ & _ & _ & Heq & Hlog & _). rewrite Heq. split; intros l1 *.
    + destruct l1 as [|e' l1]; [done|]. intros [= <- H]. destruct Hlog as [Hl|Hb].
      * exfalso. exact (lease_not_began _ _ _ _ (leased_log_no _ _ _ Hl) H).
      * destruct (begun_at _ _ _ _ _ _ _ Hb H) as [-> ?]. split; [right; eauto|done].
    + destruct l1 as [|e' l1]; [done|]. intros [= _ H]. exfalso. destruct Hlog as [Hl|(live0 & l2' & -> & Hl)].
      * exact (lease_not_began _ _ _ _ (leased_log_no _ _ _ Hl) H).
      * destruct l1 as [|e'' l1]; [done|]. injection H as _ H. exact (lease_not_began _ _ _ _ (leased_log_no _ _ _ Hl) H).
Qed.

(** ** Settled runs *)

Lemma terminal_step lim log s now k es a l sl v' r http :
  row_step lim log s now k es (View (Some a) l sl) v' → a_state a = Terminal r http →
  v' = View (Some a) l sl ∧ es = [].
Proof.
  inversion 1; subst; intros Hs; try done; try congruence.
  - match goal with H : lapsed (Some a) _ _ _ |- _ => destruct H as (_ & _ & x & Hx & _); congruence end.
  - unfold is_terminal in *. by rewrite Hs in *.
Qed.

Lemma star_terminal lim ordered s s' key a r http :
  rows_ok s → star (step lim ordered) s s' → admissions (s_db s) !! key = Some a → a_state a = Terminal r http →
  at_key (s_db s') key = at_key (s_db s) key ∧ mine key (s_log s') = mine key (s_log s) ∧ rows_ok s'.
Proof.
  intros Hok Hst Ha Hs.
  eapply (star_invariant (step lim ordered) (λ s', at_key (s_db s') key = at_key (s_db s) key ∧
    mine key (s_log s') = mine key (s_log s) ∧ rows_ok s')); [|exact Hst|done].
  intros s1 s2 (H1 & H2 & Hok1) H. pose proof (step_rows_ok _ _ _ _ Hok1 H) as Hok2.
  apply broker_step_inv in H as (c & now & Hl & _ & ->). cbn [s_db s_log] in *.
  pose proof (touches_row _ _ _ _ _ _ _ key (exec_touches lim (s_log s1) c now (s_db s1) Hl (rows_unbilled s1 _ Hok1))) as Hr.
  rewrite H1 in Hr. unfold at_key at 1 in Hr. rewrite Ha in Hr.
  destruct (terminal_step _ _ _ _ _ _ _ _ _ _ _ _ Hr Hs) as [Hv He].
  rewrite mine_eq, He. cbn [app]. split_and!; [|done|done]. rewrite Hv. unfold at_key. by rewrite Ha.
Qed.

(** A settled run stays settled and is replayed: once the row of a key is
    terminal, every later admission of it, whatever happened in between, gets the
    stored result and status back and changes nothing; another tenant or another
    request under the key is told so; the ledger keeps the one row of the run, of
    the run's tenant, and the log its one settlement for that amount. *)
Theorem settled_run_is_replayed lim ordered start s s' key a r http tenant live estimate cap daily fingerprint lease token now :
  star (step lim ordered) (init start) s → star (step lim ordered) s s' →
  admissions (s_db s) !! strip key = Some a → a_state a = Terminal r http →
  strip key ≠ ""%string → 1 <= lease <= 300 →
  admit_run key tenant live estimate cap daily fingerprint lease token now (s_db s') =
    (Ok (if bool_decide (tenant = a_tenant a) then
           if bool_decide (fingerprint = a_fingerprint a) then Replay r http else Mismatch
         else Collision), s_db s') ∧
  ∃ e h l0, ledger (s_db s) !! strip key = Some e ∧ ledger (s_db s') !! strip key = Some e ∧ le_tenant e = a_tenant a ∧
    mine (strip key) (s_log s') = Ended (strip key) (a_tenant a) h (charged e) :: l0 ∧
    ∀ ev, ev ∈ l0 → match ev with Ended _ _ _ _ => False | _ => True end.
Proof.
  intros Hr%reachable_rows_ok Hst Ha Hs Hk Hlease.
  destruct (star_terminal _ _ _ _ _ _ _ _ Hr Hst Ha Hs) as (Hv & Hm & Hok').
  injection Hv as Hv1 Hv2 _. rewrite Ha in Hv1. split.
  - unfold admit_run. run. rewrite bool_decide_false by done.
    replace ((lease <? 1) || (300 <? lease)) with false by (symmetry; apply orb_false_iff; lia).
    rewrite Hv1. cbn [from_option]. unfold answer_of. rewrite Hs.
    destruct (decide (a_tenant a = tenant)) as [<-|]; destruct (decide (a_fingerprint a = fingerprint)) as [<-|];
      repeat first [rewrite bool_decide_true by done | rewrite bool_decide_false by congruence]; done.
  - specialize (Hr (strip key)). unfold row_ok, at_key in Hr. cbn in Hr. rewrite Ha, Hs in Hr.
    destruct Hr as (_ & _ & _ & _ & e & h & l0 & He & Ht & _ & Hlog & Hl & _). exists e, h, l0.
    split_and!; [done|by rewrite Hv2|done|by rewrite Hm|].
    intros ev Hin. assert (Hall : ∀ L, Forall is_lease L → ev ∈ L → match ev with Ended _ _ _ _ => False | _ => True end).
    { intros L HL Hin'. rewrite Forall_forall in HL. specialize (HL ev Hin'). by destruct ev. }
    destruct Hl as [Hl|(live0 & l2 & -> & Hl)]; [by apply (Hall l0); [eapply leased_log_no|]|].
    apply elem_of_cons in Hin as [->|Hin]; [done|]. by apply (Hall l2); [eapply leased_log_no|].
Qed.

(** ** Staged successes *)

Lemma intent_step lim log s now k es a l sl v' i :
  row_step lim log s now k es (View (Some a) l sl) v' → a_intent a = Some i →
  ∃ a', v_adm v' = Some a' ∧ a_intent a' = Some i ∧ a_tenant a' = a_tenant a.
Proof. inversion 1; subst; intros Hi; try (eexists; split_and!; done). congruence. Qed.

Lemma star_intent lim ordered s s' key a i :
  rows_ok s → star (step lim ordered) s s' → admissions (s_db s) !! key = Some a → a_intent a = Some i →
  rows_ok s' ∧ ∃ a', admissions (s_db s') !! key = Some a' ∧ a_intent a' = Some i ∧ a_tenant a' = a_tenant a.
Proof.
  intros Hok Hst Ha Hi.
  eapply (star_invariant (step lim ordered) (λ s', rows_ok s' ∧
    ∃ a', admissions (s_db s') !! key = Some a' ∧ a_intent a' = Some i ∧ a_tenant a' = a_tenant a)); [|exact Hst|by eauto].
  intros s1 s2 (Hok1 & a1 & H1 & Hi1 & Ht1) H. split; [by eapply step_rows_ok|].
  apply broker_step_inv in H as (c & now & Hl & _ & ->). cbn [s_db].
  pose proof (touches_row _ _ _ _ _ _ _ key (exec_touches lim (s_log s1) c now (s_db s1) Hl (rows_unbilled s1 _ Hok1))) as Hr.
  unfold at_key at 1 in Hr. rewrite H1 in Hr. apply intent_step with (i := i) in Hr as (a2 & H2 & Hi2 & Ht2); [|done].
  exists a2. cbn in H2. split_and!; congruence.
Qed.

(** The foreground settlement of a staged success succeeds. *)
Lemma settle_staged s key a i :
  admissions s !! key = Some a → a_intent a = Some i → a_state a = Executing → ledger s !! key = None →
  validate_success_intent i a key (a_tenant a) = true →
  settle_success_intent key (a_tenant a) Foreground "" s =
    (Ok (SettledNow (in_http i) None), settle_rows key a (in_entry i) (in_result i) (in_http i) (a_accounted a) KnownTerminal s).
Proof.
  intros Ha Hi Hs Hl Hv. destruct (valid_key _ _ _ _ Hv) as (Hk & _ & Ht).
  unfold settle_success_intent, _lock_intent_admission, _settle_intent, _intent, validated, _check_intent_ledger,
    insert_ledger, settle_rows, release_slot. run.
  rewrite Ha. rewrite bool_decide_true by done. rewrite Hi, Hv, Hk, Hl. rewrite Hs. cbn [admissions ledger slots audits].
  rewrite bool_decide_true by done. rewrite Hl, Ha. rewrite bool_decide_true by (cbn; by rewrite Ht).
  cbn [admissions ledger slots audits]. destruct (slots s !! key) as [sl|]; [by destruct (sl_held sl)|done].
Qed.

(** A paid success whose evidence was staged can only settle as staged, and can
    always be settled: from then on, whatever brokers, reconciler and operator do,
    the evidence stays, the run is never leased again, and either it is executing
    and the foreground settlement succeeds, recording exactly the staged ledger
    line, result and status, or it has been settled with exactly those, its slot is
    free, and settling it again changes nothing. *)
Theorem staged_success_settles_as_staged lim ordered start s s' key a i :
  star (step lim ordered) (init start) s → star (step lim ordered) s s' →
  admissions (s_db s) !! key = Some a → a_intent a = Some i →
  ∃ a', admissions (s_db s') !! key = Some a' ∧ a_intent a' = Some i ∧
    match a_state a' with
    | Leased _ => False
    | Executing =>
        ∃ db a'', settle_success_intent key (a_tenant a) Foreground "" (s_db s') = (Ok (SettledNow (in_http i) None), db) ∧
          admissions db !! key = Some a'' ∧ a_state a'' = Terminal (in_result i) (in_http i) ∧
          ledger db !! key = Some (in_entry i) ∧ slot_free (slots db !! key) = true
    | Terminal r http =>
        r = in_result i ∧ http = in_http i ∧ ledger (s_db s') !! key = Some (in_entry i) ∧
        slot_free (slots (s_db s') !! key) = true ∧
        settle_success_intent key (a_tenant a) Foreground "" (s_db s') = (Ok AlreadySettled, s_db s')
    end.
Proof.
  intros Hr%reachable_rows_ok Hst Ha Hi.
  destruct (star_intent _ _ _ _ _ _ _ Hr Hst Ha Hi) as (Hok & a' & Ha' & Hi' & Ht). exists a'. split_and!; [done|done|].
  specialize (Hok key). unfold row_ok, at_key in Hok. cbn in Hok. rewrite Ha' in Hok. destruct Hok as (_ & Hv & Hs).
  specialize (Hv i Hi'). destruct (a_state a') as [x| |r http] eqn:Hst'.
  - destruct Hs as (_ & _ & Hn & _). congruence.
  - destruct Hs as (Hl & _ & _). rewrite <- Ht, (settle_staged (s_db s') key a' i) by done.
    destruct (st_after _ _ _ _ _ _ _ _ (settle_rows_settles key a' (in_entry i) (in_result i) (in_http i) (a_accounted a') KnownTerminal (s_db s')
      (audits (s_db s')) Ha' ltac:(unfold is_terminal; by rewrite Hst') (or_introl Hl))) as [why [= H1 H2 H3]].
    eexists _, _. split_and!; [done|exact H1|done|exact H2|]. rewrite H3. apply freed_free.
  - destruct Hs as (Hres & Hf & e & h & l0 & Hl & _ & _ & _ & _ & Hm). destruct (Hm i Hi') as (-> & -> & ->).
    split_and!; [done|done|done|done|]. destruct (valid_key _ _ _ _ Hv) as (Hk & _).
    unfold settle_success_intent, _lock_intent_admission, _settle_intent, _intent, validated, _check_intent_ledger. run.
    rewrite Ha', <- Ht. rewrite bool_decide_true by done. rewrite Hi', Hv, Hk, Hl. rewrite bool_decide_true by done. rewrite Hst'.
    rewrite Hf, Hres, Z.eqb_refl. rewrite bool_decide_false, bool_decide_true by done. done.
Qed.

(** ** Retries *)

(** The tables that attempt [i] finds: what the other clients committed, and nothing
    of the attempts before it. *)
Fixpoint found_by (others : nat → bdb → bdb) (first n : nat) (s : bdb) : bdb :=
  match n with O => others first s | S n' => found_by others (S first) n' (others first s) end.

(** What an answer says of the tables: a success was applied, once; a broken
    connection leaves it open whether it was; any other error was not. *)
Definition answer_tells {A} (op : bx A) (before : bdb) (r : result broker_error A) (after : bdb) : Prop :=
  match r with
  | Ok a => op before = (Ok a, after)
  | Err ConnectionLost => after = before ∨ ∃ a, op before = (Ok a, after)
  | Err _ => after = before
  end.

Lemma attempt_tells {A} f (op : bx A) s r s' : attempt_once f op s = (r, s') → answer_tells op s r s'.
Proof.
  unfold attempt_once, transaction, mbind, io_mbind. destruct f; try (by intros [= <- <-]); [| by intros [= <- <-]; left|].
  - destruct (op s) as [[a|e] s1] eqn:Ho; intros [= <- <-]; cbn; [done|]. by destruct e; try left.
  - destruct (op s) as [[a|e] s1] eqn:Ho; intros [= <- <-]; cbn; [right; eauto|]. by destruct e; try left.
Qed.

Lemma attempts_tell {A} left first now fates others (op : Z → bx A) s r s' : (1 ≤ left)%nat →
  attempts left first now fates others op s = (r, s') →
  ∃ i, (i < left)%nat ∧ answer_tells (op (now (first + i)%nat)) (found_by others first i s) r s' ∧
       (retried <$> (match r with Ok _ => None | Err e => Some e end) = Some true → S i = left).
Proof.
  revert first s. induction left as [|left IH]; [lia|]. intros first s _. cbn [attempts].
  destruct (attempt_once _ _ _) as [[a|e] s1] eqn:Ha; pose proof (attempt_tells _ _ _ _ _ Ha) as Ht.
  - intros [= <- <-]. exists 0%nat. rewrite Nat.add_0_r. split_and!; [lia|done|done].
  - destruct (retried e) eqn:Hr.
    2:{ intros [= <- <-]. exists 0%nat. rewrite Nat.add_0_r. split_and!; [lia|done|]. cbn. rewrite Hr. done. }
    assert (s1 = others first s) as -> by (unfold retried in Hr; apply bool_decide_eq_true in Hr as ->; done).
    case_bool_decide as Hl.
    + intros [= <- <-]. exists 0%nat. rewrite Nat.add_0_r. split_and!; [lia|done|lia].
    + intros H. destruct (IH (S first) (others first s)) as (i & Hi & Ht' & Hx); [lia|done|].
      exists (S i). rewrite Nat.add_succ_r. split_and!; [lia|done|]. intros Hy. by rewrite Hx.
Qed.

(** (C34) A retried transaction is applied at most once, and the answer tells: whatever
    other clients commit between the attempts, however the server aborts them and
    wherever the connection breaks, [run_transaction] ends, and its tables are those
    that one of its attempts found, with the operation applied once to them when the
    answer is a success, not at all when it is an error, and either way when the
    connection broke, which is not retried; a serialization failure is the answer
    only after the last attempt. *)
Theorem retries_apply_once {A} (max_attempts : nat) retry_delay now fates others (op : Z → bx A) s r s' :
  (1 ≤ max_attempts)%nat → 0 <= retry_delay →
  run_transaction max_attempts retry_delay now fates others op s = (r, s') →
  ∃ i, (i < max_attempts)%nat ∧ answer_tells (op (now i)) (found_by others 0 i s) r s' ∧
       (r = Err SerializationFailure → S i = max_attempts).
Proof.
  intros H Hd. unfold run_transaction, refuse_if, mbind, io_mbind. rewrite bool_decide_false by lia.
  rewrite (proj2 (Z.ltb_ge _ _)) by lia. intros Hrun.
  destruct (attempts_tell _ _ _ _ _ _ _ _ _ H Hrun) as (i & Hi & Ht & Hx). exists i. split_and!; [done|done|].
  intros ->. by apply Hx.
Qed.
