(* ===== verification/BrokerBounds.v ===== *)
(** * The broker's limits

    What admission promises about money, daily runs and APS concurrency, over every
    interleaving of [BrokerSystem].  The spend and daily bounds take NOW() to advance
    with the serialization order; [BrokerDemo] shows a history in which it does not. *)

From S2P Require Import Prelude PyText BrokerStore BrokerSystem.
Local Open Scope Z_scope.

(** what runs cost beyond the reservation that was counted for them *)
Definition overrun_of (tenant : string) (e : event) : Z :=
  match e with Ended _ t h c => if bool_decide (t = tenant) then Z.max 0 (c - h) else 0 | _ => 0 end.
Definition overrun (tenant : string) (L : list event) : Z := foldr (λ e n, overrun_of tenant e + n) 0 L.

Lemma overrun_app tenant l1 l2 : overrun tenant (l1 ++ l2) = overrun tenant l1 + overrun tenant l2.
Proof. induction l1 as [|e l1 IH]; [done|]. cbn. fold (overrun tenant). unfold overrun in IH. rewrite IH. unfold overrun. lia. Qed.

(** the amounts of the rows of one key *)
Definition spent_at (tenant : string) (v : view) : Z :=
  from_option (λ e, if bool_decide (le_tenant e = tenant) then charged e else 0) 0 (v_led v).
Definition held_at (tenant : string) (now : Z) (v : view) : Z :=
  from_option (λ a, if bool_decide (a_tenant a = tenant) then held a now else 0) 0 (v_adm v).
Definition slots_at (v : view) : Z := from_option (λ sl, if sl_held sl then 1 else 0) 0 (v_slot v).

Lemma held_mono a now now' : 0 <= a_reserved a → now <= now' → held a now' <= held a now.
Proof. intros Hr Hn. unfold held. destruct (a_state a); [|done|done]. destruct (Z.ltb_spec now expires), (Z.ltb_spec now' expires); lia. Qed.

Lemma row_reserved s k a : rows_ok s → admissions (s_db s) !! k = Some a → 0 <= a_reserved a.
Proof. intros H Ha. specialize (H k). unfold row_ok, at_key in H. cbn in H. rewrite Ha in H. apply H. Qed.

Lemma held_nonneg a now : 0 <= a_reserved a → 0 <= held a now.
Proof. intros H. unfold held. destruct (a_state a); [|done|done]. destruct (_ <? _); lia. Qed.

Lemma reserved_mono s tenant now now' : rows_ok s → now <= now' →
  reserved (admissions (s_db s)) tenant now' <= reserved (admissions (s_db s)) tenant now.
Proof.
  intros Hok Hn. apply msum_le. intros k a Ha. destruct (bool_decide _); [|done].
  apply held_mono; [by eapply row_reserved|done].
Qed.

Section Step.
Context (lim : limits) (s : sys) (c : call) (now : Z).
Context (Hok : rows_ok s) (Hlaw : lawful lim (s_log s) c).
Let db' := snd (exec c now (s_db s)).
Let es := fst (exec c now (s_db s)).
Let k := call_key c.

Lemma step_touches : touches lim (s_log s) now k es (s_db s) db'.
Proof. apply exec_touches; [done|by apply rows_unbilled]. Qed.

Lemma spent_step tenant :
  spent (ledger db') tenant - spent_at tenant (at_key db' k) <= spent (ledger (s_db s)) tenant - spent_at tenant (at_key (s_db s) k).
Proof.
  apply (msum_step (λ _ e, _) (λ _ e, _)); [|done]. intros k' Hk'.
  pose proof (to_other _ _ _ _ _ _ _ step_touches k' Hk') as H. by injection H.
Qed.

Lemma reserved_step tenant :
  reserved (admissions db') tenant now - held_at tenant now (at_key db' k) <=
  reserved (admissions (s_db s)) tenant now - held_at tenant now (at_key (s_db s) k).
Proof.
  apply (msum_step (λ _ a, _) (λ _ a, _)); [|done]. intros k' Hk'.
  pose proof (to_other _ _ _ _ _ _ _ step_touches k' Hk') as H. by injection H.
Qed.

Lemma slots_step : held_slots (slots db') - slots_at (at_key db' k) <= held_slots (slots (s_db s)) - slots_at (at_key (s_db s) k).
Proof.
  apply (msum_step (λ _ sl, _) (λ _ sl, _)); [|done]. intros k' Hk'.
  pose proof (to_other _ _ _ _ _ _ _ step_touches k' Hk') as H. by injection H.
Qed.
End Step.

(** ** Spending *)

Lemma lapsed_held o tenant fingerprint now : lapsed o tenant fingerprint now → from_option (λ a, held a now) 0 o = 0.
Proof.
  destruct o as [a|]; [|done]. intros (_ & _ & x & Hx & Hn). cbn. unfold held. rewrite Hx.
  destruct (Z.ltb_spec now x); lia.
Qed.

Lemma leased_row_tenant o tenant fingerprint token live amount now lease :
  lapsed o tenant fingerprint now → a_tenant (leased_row o tenant fingerprint token live amount now lease) = tenant.
Proof. destruct o as [a|]; [|done]. by intros [? _]. Qed.

Lemma leased_row_held o tenant fingerprint token live amount now lease :
  0 <= amount → held (leased_row o tenant fingerprint token live amount now lease) now <= amount.
Proof. intros H. destruct o; unfold held; cbn; destruct (_ <? _); lia. Qed.

(** Every transaction but a granted lease keeps spending and reservations within
    what it adds to the overruns; a granted lease had room for its amount. *)
Lemma spend_row lim log s now k es v v' L tenant cap :
  row_step lim log s now k es v v' → row_ok k L v → l_spend lim tenant = Some cap →
  spent_at tenant v' + held_at tenant now v' <= spent_at tenant v + held_at tenant now v + overrun tenant es ∨
  ∃ amount, spent_at tenant v' = spent_at tenant v ∧ held_at tenant now v' <= held_at tenant now v + amount ∧
    overrun tenant es = 0 ∧ spent (ledger s) tenant + reserved (admissions s) tenant now + amount <= cap.
Proof.
  intros Hst Hok Hcap. destruct Hst as [v|o l sl t fp token live amount lease c daily granted Hl Ham Hc _ Hg
    |a l sl x Hs|a l sl x live n Hs Hx Hlive _|a l sl i Hs Hi Hv Hl|a l sl e r http acc why Ho Hl Ht Hch Hi Hacc];
    unfold spent_at, held_at; cbn [v_adm v_led from_option overrun foldr overrun_of].
  - left. lia.
  - rewrite leased_row_tenant by done.
    assert (Hold : from_option (λ a, if bool_decide (a_tenant a = tenant) then held a now else 0) 0 o = 0).
    { apply lapsed_held in Hl. destruct o as [a|]; [|done]. cbn in *. rewrite Hl. by destruct (bool_decide _). }
    rewrite Hold. pose proof (leased_row_held o t fp token live amount now lease Ham).
    destruct (bool_decide (t = tenant)) eqn:Htt; [|left; lia]. bool_prop. subst t.
    destruct granted; [|left; lia]. right. exists amount. split_and!; [done|lia|done|].
    unfold quota in Hg. rewrite Hcap in Hc. destruct Hc as (p & -> & Hp). destruct (p <? _) eqn:Hlt; [done|]. bool_prop. lia.
  - left. cbn [a_tenant with_state]. destruct (bool_decide (a_tenant a = tenant)); [|lia].
    pose proof (held_nonneg a now). unfold row_ok in Hok. cbn in Hok. destruct Hok as [Hr _].
    unfold held at 1. cbn. rewrite Z.ltb_irrefl. lia.
  - left. cbn [a_tenant with_state]. destruct (bool_decide (a_tenant a = tenant)); [|lia].
    unfold held. cbn. rewrite Hs. destruct (Z.ltb_spec now x); lia.
  - left. cbn [a_tenant with_intent]. destruct (bool_decide (a_tenant a = tenant)); [|lia]. unfold held. cbn. rewrite Hs. lia.
  - left. cbn [a_tenant settled_row with_state]. rewrite Ht. destruct (bool_decide (a_tenant a = tenant)) eqn:Htt.
    + unfold held at 1. cbn. destruct Hl as [->| ->]; cbn; rewrite ?Ht, ?Htt; lia.
    + destruct Hl as [->| ->]; cbn; rewrite ?Ht, ?Htt; lia.
Qed.

(** (C15) No tenant spends past its cap while NOW() follows the order of the
    transactions ([ordered] is true: no start waits for its locks past the end of its
    lease; [BrokerDemo.waiting_start_overruns_cap] shows one that does, and goes past
    the cap).  When every admission of the tenant passes a cap of at most [cap],
    what the ledger charges the tenant plus what its live leases and running work
    still reserve never exceeds the cap by more than what settled runs cost beyond
    their own counted reservation, whatever the brokers, retries, lapsed leases,
    denials and reconciliations.  Amounts are exact numbers, where the columns are
    DOUBLE PRECISION. *)
Theorem spend_stays_within_cap lim start s tenant cap :
  star (step lim true) (init start) s → l_spend lim tenant = Some cap →
  spent (ledger (s_db s)) tenant + reserved (admissions (s_db s)) tenant (s_now s) <=
  Z.max 0 cap + overrun tenant (s_log s).
Proof.
  intros Hst Hcap.
  assert (H : rows_ok s ∧ spent (ledger (s_db s)) tenant + reserved (admissions (s_db s)) tenant (s_now s) <=
    Z.max 0 cap + overrun tenant (s_log s)); [|apply H].
  eapply (star_invariant (step lim true) (λ s, rows_ok s ∧ spent (ledger (s_db s)) tenant +
    reserved (admissions (s_db s)) tenant (s_now s) <= Z.max 0 cap + overrun tenant (s_log s))); [|exact Hst|].
  2:{ split; [apply init_rows_ok|]. cbn. unfold spent, reserved. rewrite !msum_empty. lia. }
  intros s1 s2 [Hok Hb] H. split; [by eapply step_rows_ok|]. apply broker_step_inv in H as (c & now & Hl & Hn & ->).
  specialize (Hn eq_refl). cbn [s_db s_log s_now]. rewrite overrun_app.
  pose proof (spent_step lim s1 c now Hok Hl tenant) as H1. pose proof (reserved_step lim s1 c now Hok Hl tenant) as H2.
  pose proof (reserved_mono s1 tenant (s_now s1) now Hok Hn) as H3.
  destruct (spend_row _ _ _ _ _ _ _ _ _ tenant cap (to_row _ _ _ _ _ _ _ (step_touches lim s1 c now Hok Hl)) (Hok _) Hcap)
    as [H4|(amount & H4 & H5 & H6 & H7)]; [lia|].
  assert (0 <= overrun tenant (s_log s1)); [|lia].
  clear. induction (s_log s1) as [|e l IH]; [done|]. cbn. fold (overrun tenant l). unfold overrun_of.
  destruct e; try lia. destruct (bool_decide _); lia.
Qed.

(** ** APS concurrency *)

Lemma slots_row lim log s now k es v v' L n :
  row_step lim log s now k es v v' → row_ok k L v → l_slots lim = Some n →
  slots_at v' <= slots_at v ∨ (slots_at v = 0 ∧ slots_at v' = 1 ∧ held_slots (slots s) < n).
Proof.
  intros Hst Hok Hn. destruct Hst as [v|o l sl t fp token live amount lease c daily granted Hl Ham Hc _ Hg
    |a l sl x Hs|a l sl x live m Hs Hx Hlive _|a l sl i Hs Hi Hv Hl|a l sl e r http acc why Ho Hl Ht Hch Hi Hacc];
    unfold slots_at; cbn [v_slot]; try (left; lia).
  - destruct live; [|left; lia]. destruct (Hlive eq_refl) as (-> & Hw & Hlt). right. rewrite Hn in Hw.
    destruct Hw as (p & [= <-] & Hp). cbn. split_and!; [done|done|lia].
  - left. destruct sl as [sl|]; [|done]. cbn. destruct (sl_held sl) eqn:Hh; cbn; [|rewrite Hh]; lia.
Qed.

(** The APS fleet limit holds: with any number of brokers and any clocks, the
    slots that are held never exceed the configured concurrency; and a slot is
    held only for a run that is executing and accounted as live work, so a run that
    settles in any way gives its slot back. *)
Theorem aps_slots_bounded lim ordered start s n :
  star (step lim ordered) (init start) s → l_slots lim = Some n →
  held_slots (slots (s_db s)) <= Z.max 0 n ∧
  ∀ key sl, slots (s_db s) !! key = Some sl → sl_held sl = true →
    ∃ a, admissions (s_db s) !! key = Some a ∧ a_state a = Executing ∧ a_accounted a = true.
Proof.
  intros Hst Hn. split.
  - assert (H : rows_ok s ∧ held_slots (slots (s_db s)) <= Z.max 0 n); [|apply H].
    eapply (star_invariant (step lim ordered) (λ s, rows_ok s ∧ held_slots (slots (s_db s)) <= Z.max 0 n)); [|exact Hst|].
    2:{ split; [apply init_rows_ok|]. cbn. unfold held_slots. rewrite msum_empty. lia. }
    intros s1 s2 [Hok Hb] H. split; [by eapply step_rows_ok|]. apply broker_step_inv in H as (c & now & Hl & _ & ->). cbn [s_db].
    pose proof (slots_step lim s1 c now Hok Hl) as H1.
    destruct (slots_row _ _ _ _ _ _ _ _ _ n (to_row _ _ _ _ _ _ _ (step_touches lim s1 c now Hok Hl)) (Hok _) Hn) as [?|(? & ? & ?)]; lia.
  - intros key sl Hsl Hh. apply reachable_rows_ok in Hst. specialize (Hst key). unfold row_ok, at_key in Hst. cbn in Hst.
    rewrite Hsl in Hst. destruct (admissions (s_db s) !! key) as [a|]; [|by destruct Hst as (_ & ? & _)].
    exists a. destruct Hst as (_ & _ & Hst). destruct (a_state a).
    + by destruct Hst as (_ & ? & _).
    + destruct Hst as (_ & _ & _ & ?). done.
    + destruct Hst as (_ & Hf & _). cbn in Hf. by rewrite Hh in Hf.
Qed.

(** ** Daily live runs *)

(** the admission was opened on day [d], and asked for live work *)
Definition of_day (tenant : string) (d : Z) (a : admission) : bool :=
  bool_decide (a_tenant a = tenant) && a_live a && (a_created a / 86400 =? d).

(** a live run of the day that was started and, unless an operator confirmed that
    it cost nothing, still counts *)
Definition live_run (s : bdb) (tenant : string) (d : Z) (k : string) (a : admission) : Z :=
  if of_day tenant d a && negb (bool_decide (slots s !! k = None)) && a_accounted a then 1 else 0.
Definition live_runs (s : bdb) (tenant : string) (d : Z) : Z := msum (live_run s tenant d) (admissions s).

Definition granted_lease (L : list event) : bool := match L with LeaseTaken _ _ g :: _ => g | _ => false end.

(** ... or whose granted lease may still be started *)
Definition weight (tenant : string) (d now : Z) (L : list event) (a : admission) (sl : option slot) : Z :=
  if of_day tenant d a && ((negb (bool_decide (sl = None)) && a_accounted a) || (lease_active a now && granted_lease L)) then 1 else 0.
Definition weighed (s : sys) (tenant : string) (d now : Z) (k : string) (a : admission) : Z :=
  weight tenant d now (mine k (s_log s)) a (slots (s_db s) !! k).

Lemma weight_range tenant d now L a sl : 0 <= weight tenant d now L a sl <= 1.
Proof. unfold weight. destruct (_ && _); lia. Qed.

Lemma weighed_range s tenant d now k o : 0 <= from_option (weighed s tenant d now k) 0 o <= 1.
Proof. destruct o; cbn; [apply weight_range|lia]. Qed.

Lemma weight_mono tenant d now now' L a sl : now <= now' → weight tenant d now' L a sl <= weight tenant d now L a sl.
Proof.
  intros Hn. unfold weight, lease_active. destruct (of_day _ _ _); [|done]. destruct (negb _ && _); [done|].
  destruct (granted_lease L); [|by rewrite !andb_false_r]. destruct (a_state a); [|done|done].
  destruct (Z.ltb_spec now' expires), (Z.ltb_spec now expires); cbn; lia.
Qed.

Lemma weighed_used s tenant now : msum (weighed s tenant (now / 86400) now) (admissions (s_db s)) <= used_today (admissions (s_db s)) tenant now.
Proof.
  apply msum_le. intros k a _. unfold weighed, weight, counted_today, of_day, day_start.
  destruct (bool_decide _); [|done]. destruct (a_live a); [|done]. cbn [andb].
  destruct (Z.eqb_spec (a_created a / 86400) (now / 86400)) as [He|]; [|cbn; by destruct (_ && _)].
  assert ((now / 86400 * 86400 <=? a_created a) = true) as ->.
  { apply Z.leb_le. rewrite <- He. pose proof (Z.mul_div_le (a_created a) 86400). lia. }
  destruct (a_accounted a), (lease_active a now), (granted_lease _), (bool_decide (slots (s_db s) !! k = None)); cbn; lia.
Qed.

(** At one key only a granted lease adds to the day, and there was room for it. *)
Lemma weight_row lim s now k es v v' tenant limit d :
  row_step lim (s_log s) (s_db s) now k es v v' → row_ok k (mine k (s_log s)) v → s_now s <= now →
  l_daily lim tenant = Some limit →
  let W t L v := from_option (λ a, weight tenant d t L a (v_slot v)) 0 (v_adm v) in
  W now (es ++ mine k (s_log s)) v' <= W (s_now s) (mine k (s_log s)) v ∨
  (d = now / 86400 ∧ used_today (admissions (s_db s)) tenant now < limit).
Proof.
  intros Hst Hok Hn Hd. cbn zeta.
  destruct Hst as [v|o l sl t fp token live amount lease c daily granted Hl Ham _ Hdl Hg
    |a l sl x Hs|a l sl x live m Hs Hx Hlive Hden|a l sl i Hs Hi Hv Hl|a l sl e r http acc why Ho Hl Ht Hch Hi Hacc];
    cbn [v_adm v_slot from_option app].
  - left. destruct (v_adm v) as [a|]; [|done]. by apply weight_mono.
  - assert (sl = None) as ->.
    { destruct o as [a|]; cbn in Hok; [|by destruct Hok as (_ & ? & _)]. destruct Hl as (_ & _ & x & Hx & _).
      destruct Hok as (_ & _ & Hok). rewrite Hx in Hok. apply Hok. }
    assert (0 <= from_option (λ a, weight tenant d (s_now s) (mine k (s_log s)) a None) 0 o) as Hold.
    { destruct o; [apply weight_range|done]. }
    unfold weight at 1. cbn [negb andb orb granted_lease]. rewrite bool_decide_true by done. cbn [negb andb orb].
    destruct granted; [|left; rewrite andb_false_r, andb_false_r; lia].
    destruct (of_day tenant d _) eqn:Hday; [|left; done]. unfold of_day in Hday. rewrite leased_row_tenant in Hday by done. bool_prop.
    assert (live = true) as -> by (by destruct o). subst t. right. split; [by destruct o|].
    rewrite Hd in Hdl. destruct (Hdl eq_refl) as (p & -> & Hp). unfold quota in Hg. cbn [andb] in Hg.
    destruct (p <=? _) eqn:Hle; [by destruct c as [c|]; [destruct (_ <? _)|]|]. bool_prop. lia.
  - left. cbn in Hok. destruct Hok as (_ & _ & Hok). rewrite Hs in Hok. destruct Hok as (_ & -> & _).
    transitivity 0; [|apply weight_range]. unfold weight, lease_active. cbn. rewrite Z.ltb_irrefl, andb_false_l, andb_false_r. done.
  - left. cbn in Hok. destruct Hok as (_ & _ & Hok). rewrite Hs in Hok. destruct Hok as (_ & -> & _ & Hacc & g & l0 & HL & _).
    unfold weight, lease_active. rewrite HL, Hs. cbn [a_state with_state granted_lease]. change (of_day tenant d (with_state _ _ _ _)) with (of_day tenant d a).
    destruct (of_day tenant d a) eqn:Hday; [|done]. cbn [andb].
    assert (g = true) as ->.
    { destruct g; [done|]. exfalso. unfold of_day in Hday. bool_prop. subst tenant. apply Hden; [by rewrite Hd|].
      assert (LeaseTaken k (a_token a) false ∈ mine k (s_log s)) as Hin by (rewrite HL; left).
      by apply list_elem_of_In, filter_In in Hin as [?%list_elem_of_In _]. }
    destruct (Z.ltb_spec (s_now s) x); [|lia]. cbn. destruct live; cbn; destruct (a_accounted a); cbn; lia.
  - left. unfold weight, lease_active. cbn [a_state with_intent a_accounted]. rewrite Hs. exact (Z.le_refl _).
  - left. cbn in Hok. destruct Hok as (_ & _ & Hok). unfold weight, lease_active.
    change (of_day tenant d (settled_row a r http acc)) with (of_day tenant d a). cbn [a_state settled_row with_state a_accounted]. destruct (of_day tenant d a); [|done]. cbn [andb orb].
    unfold is_terminal in Ho. destruct (a_state a); [| |done].
    + destruct Hok as (_ & -> & _). cbn. destruct (_ && _); cbn; lia.
    + destruct Hok as (_ & _ & Hsl). destruct sl as [sl|]; [|cbn; lia]. destruct Hsl as [_ ->].
      cbn. destruct acc; cbn; lia.
Qed.

(** The daily limit holds: when NOW() follows the order of the transactions and
    brokers do not start what they were denied, the live APS runs a tenant starts
    under admissions of one UTC day never exceed the configured limit, apart from
    those an operator confirmed to have cost nothing; leases that lapse, retries
    and settlements never let one more through. *)
Theorem daily_live_runs_bounded lim start s tenant limit d :
  star (step lim true) (init start) s → l_daily lim tenant = Some limit →
  live_runs (s_db s) tenant d <= Z.max 0 limit.
Proof.
  intros Hst Hd.
  assert (H : rows_ok s ∧ msum (weighed s tenant d (s_now s)) (admissions (s_db s)) <= Z.max 0 limit).
  { eapply (star_invariant (step lim true) (λ s, rows_ok s ∧
      msum (weighed s tenant d (s_now s)) (admissions (s_db s)) <= Z.max 0 limit)); [|exact Hst|].
    2:{ split; [apply init_rows_ok|]. cbn. rewrite msum_empty. lia. }
    intros s1 s2 [Hok Hb] H. split; [by eapply step_rows_ok|]. apply broker_step_inv in H as (c & now & Hl & Hn & ->).
    specialize (Hn eq_refl). set (s2 := Sys _ _ _). pose proof (step_touches lim s1 c now Hok Hl) as Ht.
    assert (Hstep : ∀ t, s_now s1 <= t <= now →
      msum (weighed s2 tenant d now) (admissions (s_db s2)) -
        from_option (weighed s2 tenant d now (call_key c)) 0 (admissions (s_db s2) !! call_key c) <=
      msum (weighed s1 tenant d t) (admissions (s_db s1)) -
        from_option (weighed s1 tenant d t (call_key c)) 0 (admissions (s_db s1) !! call_key c)).
    { intros t Hrange. apply msum_step; cbn [s_db s2].
      - intros k' Hk'. pose proof (to_other _ _ _ _ _ _ _ Ht k' Hk') as H. by injection H.
      - intros k' a Hk' _. pose proof (to_other _ _ _ _ _ _ _ Ht k' Hk') as H. injection H as _ _ Hsl.
        unfold weighed. cbn [s_db s_log s2]. rewrite mine_eq, (mine_none k' (call_key c)), Hsl; [|done|apply (to_events _ _ _ _ _ _ _ Ht)].
        cbn [app]. apply weight_mono. lia. }
    destruct (weight_row lim s1 now (call_key c) _ _ _ tenant limit d (to_row _ _ _ _ _ _ _ Ht) (Hok _) Hn Hd) as [Hw|[-> Hused]].
    - specialize (Hstep (s_now s1) ltac:(lia)). cbn in Hw. unfold weighed at 2 4 in Hstep. cbn [s_db s_log s2] in Hstep.
      rewrite mine_eq, mine_all in Hstep by apply (to_events _ _ _ _ _ _ _ Ht). cbn [s_db s_now s2] in *. lia.
    - specialize (Hstep now ltac:(lia)). pose proof (weighed_used s1 tenant now).
      pose proof (weighed_range s2 tenant (now / 86400) now (call_key c) (admissions (s_db s2) !! call_key c)).
      pose proof (weighed_range s1 tenant (now / 86400) now (call_key c) (admissions (s_db s1) !! call_key c)).
      cbn [s_now s2] in *. lia. }
  transitivity (msum (weighed s tenant d (s_now s)) (admissions (s_db s))); [|apply H].
  apply msum_le. intros k a _. unfold live_run, weighed, weight. destruct (of_day _ _ _); [|done]. cbn [andb].
  destruct (negb _ && _); cbn; [lia|]. destruct (_ && _); lia.
Qed.
