(* ===== verification/BrokerDemo.v ===== *)
(** * Broker runs on concrete inputs

    Histories at which the theorems on the admission store apply, and one in which
    NOW() of a waiting start lies before the admission that already took its
    reservation for lapsed. *)

From S2P Require Import Prelude PyText BrokerStore BrokerSystem BrokerBounds.
Local Open Scope Z_scope.

Fixpoint run_calls (cs : list (Z * call)) (s : sys) : sys :=
  match cs with
  | [] => s
  | (now, c) :: cs' => run_calls cs' (Sys (snd (exec c now (s_db s))) (fst (exec c now (s_db s)) ++ s_log s) now)
  end.

Definition withinb (configured passed : option Z) : bool :=
  match configured, passed with None, _ => true | Some c, Some p => p <=? c | Some _, None => false end.

Definition not_denied (key token : string) (e : event) : bool :=
  match e with LeaseTaken k t g => g || negb (bool_decide (k = key ∧ t = token)) | _ => true end.

Definition lawfulb (lim : limits) (log : list event) (c : call) : bool :=
  match c with
  | CAdmit _ tenant live _ cap daily _ _ _ => withinb (l_spend lim tenant) cap && (negb live || withinb (l_daily lim tenant) daily)
  | CStart key tenant token _ n => withinb (l_slots lim) (Some n) && forallb (not_denied key token) log
  | _ => true
  end.

Lemma withinb_within c p : withinb c p = true → within c p.
Proof. destruct c as [c|]; [|done]. destruct p as [p|]; [|done]. intros H%Z.leb_le. by exists p. Qed.

Lemma lawfulb_lawful lim log c : lawfulb lim log c = true → lawful lim log c.
Proof.
  destruct c; cbn; intros H; try done; bool_prop.
  - split; [by apply withinb_within|]. intros ->. by apply withinb_within.
  - split; [by apply withinb_within|]. intros _ Hin%list_elem_of_In. rewrite forallb_forall in *.
    match goal with H : ∀ x, _ |- _ => specialize (H _ Hin) end. cbn in *. bool_prop. naive_solver.
Qed.

(** the calls are lawful, and in order when they have to be *)
Fixpoint runs (lim : limits) (ordered : bool) (cs : list (Z * call)) (s : sys) : bool :=
  match cs with
  | [] => true
  | (now, c) :: cs' => lawfulb lim (s_log s) c && (negb ordered || (s_now s <=? now)) &&
      runs lim ordered cs' (Sys (snd (exec c now (s_db s))) (fst (exec c now (s_db s)) ++ s_log s) now)
  end.

Lemma runs_star lim ordered cs s : runs lim ordered cs s = true → star (step lim ordered) s (run_calls cs s).
Proof.
  revert s. induction cs as [|[now c] cs IH]; intros s; cbn; [constructor|]. intros H. bool_prop.
  eapply star_trans; [apply star_one; constructor|by apply IH].
  - by apply lawfulb_lawful.
  - intros ->. cbn in *. by bool_prop.
Qed.

Definition acme_limits : limits :=
  Limits (λ t, if bool_decide (t = "acme"%string) then Some 100 else None)
         (λ t, if bool_decide (t = "acme"%string) then Some 2 else None) (Some 1).

Definition k1 : string := "0123abcd-0123-0123-0123-0123456789ab:broker-run".
Definition job1 : string := "0123abcd-0123-0123-0123-0123456789ab".
Definition k2 : string := "9876fedc-0123-0123-0123-0123456789ab:broker-run".

Definition demo_entry : ledger_entry :=
  LedgerEntry 10 "acme" (Some "pv-layout"%string) "layout" "aps" true (Some 5) (Some 30) "ok" (Some job1).
Definition demo_result : run_result := RunResult true (Some false) (Some (Some 5, Some 30)) "layers".
Definition demo_intent : intent := Intent 1 k1 "acme" "fp1" job1 "wi-1" demo_entry demo_result 200.

Definition admit1 : call := CAdmit k1 "acme" true 40 (Some 100) (Some 2) "fp1" 30 "t1".
Definition admit2 : call := CAdmit k2 "acme" true 40 (Some 100) (Some 2) "fp2" 30 "t2".
(** the first run starts, the second finds the fleet full; the first stages its evidence *)
Definition demo_calls : list (Z * call) :=
  [(0, admit1); (1, CStart k1 "acme" "t1" true 1); (2, admit2); (3, CStart k2 "acme" "t2" true 1); (9, CStage k1 "acme" "t1" demo_intent)].
Definition demo_sys : sys := run_calls demo_calls (init 0).
(** it settles; a late completion and a retry of its key change nothing; the second run gets its slot *)
Definition more_calls : list (Z * call) :=
  [(10, CSettle k1 "acme" Foreground ""); (11, CComplete k1 "acme" "t1" demo_entry demo_result 200);
   (12, admit1); (13, CAdmit k2 "acme" true 40 (Some 100) (Some 2) "fp2" 30 "t3"); (14, CStart k2 "acme" "t3" true 1)].
Definition more_sys : sys := run_calls more_calls demo_sys.

Lemma demo_reaches : star (step acme_limits true) (init 0) demo_sys.
Proof. apply runs_star. vm_compute. reflexivity. Qed.
Lemma more_reached : star (step acme_limits true) demo_sys more_sys.
Proof. apply runs_star. vm_compute. reflexivity. Qed.
Lemma more_reaches : star (step acme_limits true) (init 0) more_sys.
Proof. eapply star_trans; [apply demo_reaches|apply more_reached]. Qed.

Example more_log : s_log more_sys =
  [Began k2 "t3" true; LeaseTaken k2 "t3" true; Ended k1 "acme" 40 30; LeaseTaken k2 "t2" true; Began k1 "t1" true; LeaseTaken k1 "t1" true].
Proof. vm_compute. reflexivity. Qed.

Definition staged_row : admission := Admission "acme" "fp1" Executing "t1" true true 40 0 (Some demo_intent).
Definition ended_row : admission := settled_row staged_row demo_result 200 true.

Lemma run_executes_at_most_once_witness :
  (∀ l1 token live l2, mine k1 (s_log more_sys) = l1 ++ Began k1 token live :: l2 →
     (l1 = [] ∨ ∃ tenant h c, l1 = [Ended k1 tenant h c]) ∧ leased_log k1 token l2) ∧
  (∀ l1 tenant h c l2, mine k1 (s_log more_sys) = l1 ++ Ended k1 tenant h c :: l2 → l1 = []).
Proof. apply (run_executes_at_most_once acme_limits true 0). apply more_reaches. Defined.

Definition just_settled : sys := run_calls (take 1 more_calls) demo_sys.

Lemma settled_run_is_replayed_witness :
  admit_run k1 "acme" true 40 (Some 100) None "fp1" 30 "t9" 50 (s_db more_sys) = (Ok (Replay demo_result 200), s_db more_sys).
Proof.
  assert (H1 : star (step acme_limits true) (init 0) just_settled).
  { eapply star_trans; [apply demo_reaches|]. apply runs_star. vm_compute. reflexivity. }
  assert (H2 : star (step acme_limits true) just_settled more_sys).
  { change more_sys with (run_calls (drop 1 more_calls) just_settled). apply runs_star. vm_compute. reflexivity. }
  assert (H3 : admissions (s_db just_settled) !! strip k1 = Some ended_row) by (vm_compute; reflexivity).
  assert (H4 : strip k1 ≠ ""%string) by (vm_compute; discriminate).
  destruct (settled_run_is_replayed acme_limits true 0 just_settled more_sys k1 ended_row demo_result 200
    "acme" true 40 (Some 100) None "fp1" 30 "t9" 50 H1 H2 H3 eq_refl H4 ltac:(lia)) as [H _].
  etransitivity; [exact H|]. f_equal.
Defined.

Lemma staged_success_settles_as_staged_witness :
  ∃ a', admissions (s_db more_sys) !! k1 = Some a' ∧ a_intent a' = Some demo_intent.
Proof.
  assert (H3 : admissions (s_db demo_sys) !! k1 = Some staged_row) by (vm_compute; reflexivity).
  destruct (staged_success_settles_as_staged acme_limits true 0 demo_sys more_sys k1 staged_row demo_intent
    demo_reaches more_reached H3 eq_refl) as (a' & H1 & H2 & _).
  exact (ex_intro _ a' (conj H1 H2)).
Defined.

Lemma spend_stays_within_cap_witness :
  spent (ledger (s_db more_sys)) "acme" + reserved (admissions (s_db more_sys)) "acme" (s_now more_sys) <=
  Z.max 0 100 + overrun "acme" (s_log more_sys).
Proof. apply (spend_stays_within_cap acme_limits 0); [apply more_reaches|reflexivity]. Defined.

Lemma aps_slots_bounded_witness : held_slots (slots (s_db more_sys)) <= Z.max 0 1.
Proof. apply (aps_slots_bounded acme_limits true 0 more_sys 1); [apply more_reaches|reflexivity]. Defined.

Lemma daily_live_runs_bounded_witness : live_runs (s_db more_sys) "acme" 0 <= Z.max 0 2.
Proof. apply (daily_live_runs_bounded acme_limits 0); [apply more_reaches|reflexivity]. Defined.

(** a first attempt aborted, a second whose COMMIT is applied and never answered *)
Definition retry_op (now : Z) : bx _ := admit_run k1 "acme" true 40 (Some 100) (Some 2) "fp1" 30 "t1" now.
Definition retry_fates (i : nat) : fate := match i with O => Clashed | _ => BrokenAfter end.
Definition retry_run := run_transaction 3 0 (λ i, Z.of_nat i) retry_fates (λ _ s, s) retry_op empty_db.

Lemma retries_apply_once_witness :
  retry_run.1 = Err ConnectionLost ∧ is_Some (admissions retry_run.2 !! k1) ∧
  ∃ i, (i < 3)%nat ∧ answer_tells (retry_op (Z.of_nat i)) (found_by (λ _ s, s) 0 i empty_db) retry_run.1 retry_run.2 ∧
       (retry_run.1 = Err SerializationFailure → S i = 3%nat).
Proof.
  split; [vm_compute; reflexivity|]. split; [vm_compute; eexists; reflexivity|].
  apply (retries_apply_once 3 0 (λ i, Z.of_nat i) retry_fates (λ _ s, s) retry_op empty_db retry_run.1 retry_run.2); [lia|lia|].
  unfold retry_run. apply surjective_pairing.
Defined.

(** ** A start that waited *)

(** [k1] is leased until 30 for 60; a start of it begins at 29 and waits for the
    slots' advisory lock; at 30 another broker sees the lease lapsed, reserves 60
    for [k2] and starts it; the waiting start still compares the lease with its own
    NOW() and goes through. *)
Definition skewed_calls : list (Z * call) :=
  [(0, CAdmit k1 "acme" true 60 (Some 100) (Some 2) "fp1" 30 "t1"); (30, CAdmit k2 "acme" true 60 (Some 100) (Some 2) "fp2" 30 "t2");
   (29, CStart k1 "acme" "t1" false 1); (31, CStart k2 "acme" "t2" false 1)].
Definition skewed : sys := run_calls skewed_calls (init 0).

(** NOW() is the start of a transaction, not its place in the serialization
    order: a start that waits for a lock while its lease lapses goes through after
    another admission has already given the reservation away, and the tenant's
    running work reserves more than its cap although no run cost more than it
    reserved. *)
Theorem waiting_start_overruns_cap :
  star (step acme_limits false) (init 0) skewed ∧ l_spend acme_limits "acme" = Some 100 ∧
  overrun "acme" (s_log skewed) = 0 ∧
  spent (ledger (s_db skewed)) "acme" + reserved (admissions (s_db skewed)) "acme" (s_now skewed) = 120.
Proof. split; [apply runs_star; vm_compute; reflexivity|]. by vm_compute. Qed.
