(* ===== verification/BrokerExtract.v ===== *)
(** * Extracting a drawing through the broker

    The PostgreSQL lane of [_broker_extract] in [server/broker.py]: admission, the
    irreversible start, the paid APS call, the answer, and the settlement in the
    [finally] clause.  What the APS client answers and whether the upload fence
    closed meanwhile are arguments; an envelope keeps its [ok], [degraded_mode] and
    cost, and the rest of its JSON as text. *)

From S2P Require Import Prelude PyText BrokerStore BrokerSystem.
Local Open Scope Z_scope.

Definition response := (run_result * Z)%type.

(** what [da.extract] does *)
Inductive extraction :=
| Intake (body : string)
| EgressBlocked (message : string)
| FileNotFound (message : string)
| OtherError (text : string).          (** type name and message *)

Record extract_request := ExtractRequest { xr_key : string; xr_tenant : string; xr_fingerprint : string }.

Record extract_env := ExtractEnv {
  xe_estimate : Z; xe_cap : option Z; xe_daily : option Z; xe_max : Z; xe_endpoint : string; xe_ts : Z }.

Definition err_envelope (code message : string) (retryable : bool) : run_result :=
  RunResult false (Some false) None (code +:+ (if retryable then " (retryable): " else ": ") +:+ message).

(** [with_envelope_fields({"intake": intake})]: it has no [ok] *)
Definition intake_envelope (body : string) : run_result := RunResult false (Some false) None ("intake: " +:+ body).

Definition quota_envelope (kind : string) (numbers : list Z) : run_result :=
  RunResult false (Some false) None ("quota_exceeded: " +:+ kind +:+ foldr (λ n t, " " +:+ of_chars (print_Z n) +:+ t) "" numbers).

(** what the body of the [try] leaves for the [finally]: the answer, the ledger
    status, the charge, and whether APS was called *)
Record attempt := Attempt { at_response : response; at_status : string; at_usd : option Z; at_called : bool }.

Definition extract_entry (env : extract_env) (tenant : string) (a : attempt) : ledger_entry :=
  LedgerEntry (xe_ts env) tenant (Some "__extract__"%string) "extract" (xe_endpoint env) true None (at_usd a) (at_status a) None.

(** after [mark_execution_started] answered yes: the call, the fence, the except clauses *)
Definition paid_attempt (env : extract_env) (x : extraction) (commit_refusal : option response) : attempt :=
  match x with
  | Intake body =>
      match commit_refusal with
      | Some refusal => Attempt refusal "APS_UNAVAILABLE" (Some (xe_estimate env)) true
      | None => Attempt (intake_envelope body, 200) "ok" (Some (xe_estimate env)) true
      end
  | EgressBlocked m => Attempt (err_envelope "INTERNAL" m false, 500) "INTERNAL" None true
  | FileNotFound m => Attempt (err_envelope "APS_UNAVAILABLE" m false, 502) "APS_UNAVAILABLE" None true
  | OtherError t => Attempt (err_envelope "WORKITEM_FAILED" t true, 502) "WORKITEM_FAILED" None true
  end.

(** the type and message of what the store raises *)
Definition error_text (e : broker_error) : string :=
  match e with
  | BadValue why => "ValueError: " +:+ why
  | Broken why => "RuntimeError: " +:+ why
  | UniqueViolation => "UniqueViolation"
  | ForeignKeyViolation => "ForeignKeyViolation"
  | SerializationFailure => "SerializationFailure"
  | ConnectionLost => "OperationalError"
  | RetriesExhausted => "AssertionError"
  end.

(** [mark_execution_started] itself raised: the last except clause *)
Definition start_failed (e : broker_error) : attempt :=
  Attempt (err_envelope "WORKITEM_FAILED" (error_text e) true, 502) "WORKITEM_FAILED" None false.

(** the acquired branch of the [try]; [None] when the fleet is full *)
Definition try_extract (req : extract_request) (env : extract_env) (token : string) (x : extraction)
    (commit_refusal : option response) (now : Z) : bx (option attempt) :=
  try_except
    (started ← mark_execution_started (xr_key req) (xr_tenant req) token true (xe_max env) now;
     mret (if (started : bool) then Some (paid_attempt env x commit_refusal) else None))
    (λ e, mret (Some (start_failed e))).

(** the answer, whether it is the settled answer of the key, and whether APS was called *)
Record answer := Answer { an_response : response; an_settled : bool; an_called : bool }.

Definition settle_attempt (req : extract_request) (env : extract_env) (token : string) (a : attempt) : bx answer :=
  _ ← complete_run (xr_key req) (xr_tenant req) token (extract_entry env (xr_tenant req) a) (fst (at_response a)) (snd (at_response a));
  mret (Answer (at_response a) true (at_called a)).

Definition _broker_extract (req : extract_request) (env : extract_env) (token : string) (x : extraction)
    (commit_refusal : option response) (now now' : Z) : bx answer :=
  if bool_decide (xr_key req = ""%string)
  then mret (Answer (err_envelope "BAD_PARAMS" "ledger_event_key is required for PostgreSQL broker extraction" false, 400) false false) else
  d ← admit_run (xr_key req) (xr_tenant req) true (xe_estimate env) (xe_cap env) (xe_daily env) (xr_fingerprint req) 30 token now;
  match d with
  | Replay r http => mret (Answer (r, http) true false)
  | Collision | Mismatch =>
      mret (Answer (err_envelope "BAD_PARAMS" "broker extraction event key is not valid for this request" false, 400) false false)
  | AlreadyLeased => mret (Answer (err_envelope "turn_in_progress" "broker extraction event is already leased" true, 409) false false)
  | AlreadyExecuting =>
      mret (Answer (err_envelope "turn_in_progress" "broker extraction started; automatic retry is unsafe and operator reconciliation may be required" false, 409)
              false false)
  | SpendQuota spent reserved estimate cap =>
      settle_attempt req env token (Attempt (quota_envelope "spend" [spent + reserved; estimate; cap], 402) "quota_exceeded" None false)
  | DailyQuota used limit =>
      settle_attempt req env token (Attempt (quota_envelope "daily" [limit; used], 429) "quota_exceeded" None false)
  | Acquired _ =>
      o ← try_extract req env token x commit_refusal now';
      match o with
      | None => mret (Answer (err_envelope "APS_UNAVAILABLE" "APS fleet concurrency limit is currently full" true, 502) false false)
      | Some a => settle_attempt req env token a
      end
  end.

(** ** One answer per key *)

Definition no_limits : limits := Limits (λ _, None) (λ _, None) None.

(** the state after a call, as a step of the system *)
Lemma call_rows_ok s c now : rows_ok s → rows_ok (Sys (snd (exec c now (s_db s))) (fst (exec c now (s_db s)) ++ s_log s) now).
Proof.
  intros H. eapply (step_rows_ok no_limits false); [done|]. constructor; [|done].
  by destruct c.
Qed.

Lemma transaction_Ok {A} (m : bx A) s x s' : transaction m s = (Ok x, s') → m s = (Ok x, s').
Proof. unfold transaction. by destruct (m s) as [[]]. Qed.

(** [complete_run] on a run that is open and unstaged settles it as reported. *)
Lemma complete_settles key tenant token e r http s x s' a :
  complete_run key tenant token e r http s = (Ok x, s') → admissions s !! strip key = Some a →
  a_intent a = None → is_terminal a = false → ledger s !! strip key = None →
  admissions s' !! strip key = Some (settled_row a r http (a_accounted a)).
Proof.
  intros H Ha Hi Ht Hl. unfold complete_run in H. set (k := strip key) in *. set (values := with_job e _) in H.
  apply io_bind_inv in H as ([] & s1 & [-> _]%numbers_run & H).
  apply transaction_Ok in H. apply io_bind_inv in H as (o & s1 & [= <- <-] & H). rewrite Ha in H.
  apply io_bind_inv in H as ([] & s1 & [_ ->]%refuse_if_run & H). rewrite Hi, Ht in H.
  destruct (settle_unstaged_run _ _ _ _ _ _ _ _ _ H Ha Hl) as [-> _].
  destruct (st_after _ _ _ _ _ _ _ _ (settle_rows_settles k a values r http (a_accounted a) KnownTerminal s (audits s) Ha Ht (or_introl Hl)))
    as [why Hw]. by injection Hw.
Qed.

(** A key whose settled answer is [resp]. *)
Definition answered (db : bdb) (req : extract_request) (resp : response) : Prop :=
  ∃ a, admissions db !! strip (xr_key req) = Some a ∧ a_state a = Terminal (fst resp) (snd resp) ∧
    a_tenant a = xr_tenant req ∧ a_fingerprint a = xr_fingerprint req.

(** what [admit_run] leaves when it lets the caller go on *)
Lemma admit_goes_on key tenant live estimate cap daily fingerprint lease token now s d s' :
  admit_run key tenant live estimate cap daily fingerprint lease token now s = (Ok d, s') →
  match d with
  | Acquired _ | SpendQuota _ _ _ _ | DailyQuota _ _ =>
      ∃ amount o, lapsed o tenant fingerprint now ∧ o = admissions s !! strip key ∧
        s' = Bdb (<[strip key := leased_row o tenant fingerprint token live amount now lease]> (admissions s)) (ledger s) (slots s) (audits s)
  | Replay r http => s' = s ∧ ∃ a, admissions s !! strip key = Some a ∧ a_state a = Terminal r http ∧
      a_tenant a = tenant ∧ a_fingerprint a = fingerprint
  | _ => s' = s
  end.
Proof.
  unfold admit_run. run. destruct (bool_decide _); [done|]. destruct (_ || _); [done|].
  destruct (from_option (λ a, answer_of a tenant fingerprint now) None (admissions s !! strip key)) as [d'|] eqn:Ha.
  - intros [= <- <-]. destruct (admissions s !! strip key) as [a|] eqn:Hk; [|done]. cbn in Ha. unfold answer_of in Ha.
    split_in Ha. bool_prop. split_and!; eauto.
  - assert (Hl : lapsed (admissions s !! strip key) tenant fingerprint now).
    { unfold lapsed. destruct (admissions s !! strip key) as [a|]; [|done]. cbn in Ha. unfold answer_of in Ha.
      split_in Ha. bool_prop. split_and!; eauto. }
    destruct (quota s tenant live (Z.max 0 estimate) cap daily now) as [d'|] eqn:Hq; intros [= <- <-]; [|eauto].
    assert (match d' with SpendQuota _ _ _ _ | DailyQuota _ _ => True | _ => False end).
    { unfold quota in Hq. split_in Hq. }
    destruct d'; try done; eauto.
Qed.

Abbreviation steps := (star (step no_limits false)).

(** the state after one call of the system *)
Definition after (c : call) (now : Z) (s : sys) : sys := Sys (snd (exec c now (s_db s))) (fst (exec c now (s_db s)) ++ s_log s) now.

Lemma steps_after c now s : steps s (after c now s).
Proof. apply star_one. constructor; [|done]. by destruct c. Qed.

Lemma steps_rows_ok s s' : rows_ok s → steps s s' → rows_ok s'.
Proof. intros Hok H. eapply (star_invariant (step no_limits false) rows_ok); [|exact H|done]. intros s1 s2 H1 H2. by eapply step_rows_ok. Qed.

(** The second request for an answered key. *)
Lemma answered_replays s1 s2 req resp env token x refusal now now' :
  rows_ok s1 → answered (s_db s1) req resp → xr_key req ≠ ""%string → strip (xr_key req) = xr_key req → steps s1 s2 →
  _broker_extract req env token x refusal now now' (s_db s2) = (Ok (Answer resp true false), s_db s2).
Proof.
  intros Hok (a & Ha & Hs & Ht & Hf) Hne Hk Hst.
  destruct (star_terminal _ _ _ _ _ _ _ _ Hok Hst Ha Hs) as (Hv & _ & _). injection Hv as Hv _ _. rewrite Ha in Hv.
  unfold _broker_extract, admit_run. rewrite bool_decide_false by done. run.
  rewrite Hk in *. rewrite bool_decide_false by done. cbn [Z.ltb Z.compare Pos.compare Pos.compare_cont orb].
  rewrite Hv. cbn [from_option]. unfold answer_of. rewrite Hs, Ht, Hf. rewrite !bool_decide_true by done. by destruct resp.
Qed.

(** The [finally] clause settles the key with the answer that is returned. *)
Lemma settle_attempt_spec req env token at_ s a ans db :
  rows_ok s → admissions (s_db s) !! strip (xr_key req) = Some a → is_terminal a = false →
  a_intent a = None → a_tenant a = xr_tenant req → a_fingerprint a = xr_fingerprint req →
  settle_attempt req env token at_ (s_db s) = (Ok ans, db) →
  ∃ s1, steps s s1 ∧ s_db s1 = db ∧ answered db req (an_response ans) ∧ an_called ans = at_called at_ ∧
    ∀ e, e ∈ s_log s → e ∈ s_log s1.
Proof.
  intros Hok Ha Ht Hi Htn Hf H. unfold settle_attempt in H. apply io_bind_inv in H as (y & db' & Hc & [= <- <-]).
  exists (after (CComplete (xr_key req) (xr_tenant req) token (extract_entry env (xr_tenant req) at_) (fst (at_response at_)) (snd (at_response at_))) 0 s).
  split_and!; [apply steps_after|unfold after, exec, final; cbn [s_db snd]; by rewrite Hc| |done|intros e He; unfold after; cbn [s_log]; apply elem_of_app; by right].
  pose proof (complete_settles _ _ _ _ _ _ _ _ _ _ Hc Ha Hi Ht (rows_unbilled s _ Hok a Ha Ht)) as Hrow.
  eexists. by split_and!.
Qed.

(** The row a lease leaves is open, unstaged and the caller's. *)
Lemma leased_row_open s key tenant fingerprint token live amount now lease o :
  rows_ok s → o = admissions (s_db s) !! key → lapsed o tenant fingerprint now →
  let a := leased_row o tenant fingerprint token live amount now lease in
  is_terminal a = false ∧ a_intent a = None ∧ a_tenant a = tenant ∧ a_fingerprint a = fingerprint.
Proof.
  intros Hok -> Hl. specialize (Hok key). unfold row_ok, at_key in Hok. cbn in Hok.
  destruct (admissions (s_db s) !! key) as [b|]; [|done]. destruct Hl as (Ht & Hf & x & Hx & _).
  destruct Hok as (_ & _ & Hst). rewrite Hx in Hst. by destruct Hst as (_ & _ & Hi & _).
Qed.

(** what the start makes of the leased row, and what it logs *)
Lemma start_spec key tenant token n now s r a :
  fst (mark_execution_started key tenant token true n now (s_db s)) = r → admissions (s_db s) !! key = Some a →
  is_terminal a = false → a_intent a = None →
  let s' := after (CStart key tenant token true n) now s in
  s_db s' = snd (mark_execution_started key tenant token true n now (s_db s)) ∧
  (r = Ok true → Began key token true ∈ s_log s') ∧
  ∃ a', admissions (s_db s') !! key = Some a' ∧ is_terminal a' = false ∧ a_intent a' = None ∧
    a_tenant a' = a_tenant a ∧ a_fingerprint a' = a_fingerprint a.
Proof.
  intros Hr Ha Ht Hi. cbn [after exec s_db s_log]. unfold after. cbn [exec].
  destruct (mark_execution_started key tenant token true n now (s_db s)) as [r' db] eqn:Hm. cbn [fst snd] in *. subst r'.
  split_and!; [done|intros ->; cbn; left|]. cbn [s_db snd].
  unfold mark_execution_started, yield_lease, start_row, insert_slot in Hm. run.
  destruct (n <? 1); [injection Hm as _ <-; eauto 10|].
  destruct (_ && _).
  - destruct (owned_lease _ _ _) as [[b y]|] eqn:Ho; [|injection Hm as _ <-; eauto 10].
    apply owned_lease_Some in Ho as (Hb & _). rewrite Ha in Hb. injection Hb as <-. injection Hm as _ <-. cbn.
    rewrite lookup_insert_eq. eexists. by split_and!.
  - destruct (owned_lease _ _ _) as [[b y]|] eqn:Ho; [|injection Hm as _ <-; eauto 10].
    apply owned_lease_Some in Ho as (Hb & _). rewrite Ha in Hb. injection Hb as <-.
    destruct (now <? y); [|injection Hm as _ <-; eauto 10]. destruct (slots (s_db s) !! key); injection Hm as _ <-; [eauto 10|].
    cbn. rewrite lookup_insert_eq. eexists. by split_and!.
Qed.

(** One paid extraction, one answer: an extraction request that comes to a
    settled answer has called APS only after the start of its key was logged, which
    happens once in the life of a key; and from then on every request with its key,
    whatever brokers and operators do in between, gets exactly that answer and
    status back, without calling APS and without changing a row. *)
Theorem extraction_answers_once start s0 req env token x refusal now now' ans db :
  steps (init start) s0 → xr_key req ≠ ""%string → strip (xr_key req) = xr_key req →
  _broker_extract req env token x refusal now now' (s_db s0) = (Ok ans, db) → an_settled ans = true →
  ∃ s1, steps s0 s1 ∧ s_db s1 = db ∧ (an_called ans = true → Began (xr_key req) token true ∈ s_log s1) ∧
    ∀ s2 env' token' x' refusal' t t', steps s1 s2 →
      _broker_extract req env' token' x' refusal' t t' (s_db s2) = (Ok (Answer (an_response ans) true false), s_db s2).
Proof.
  intros Hreach Hne Hk H Hset. pose proof (reachable_rows_ok _ _ _ _ Hreach) as Hok.
  enough (∃ s1, steps s0 s1 ∧ s_db s1 = db ∧ answered db req (an_response ans) ∧
    (an_called ans = true → Began (xr_key req) token true ∈ s_log s1)) as (s1 & H1 & H2 & H3 & H4).
  { exists s1. split_and!; [done|done|done|]. intros s2 env' token' x' refusal' t t' H5.
    eapply answered_replays; [by eapply steps_rows_ok|by rewrite H2|done|done|done]. }
  unfold _broker_extract in H. rewrite bool_decide_false in H by done. apply io_bind_inv in H as (d & dbA & Ha & H).
  set (cA := CAdmit (xr_key req) (xr_tenant req) true (xe_estimate env) (xe_cap env) (xe_daily env) (xr_fingerprint req) 30 token).
  set (sA := after cA now s0). assert (HA : s_db sA = dbA) by (unfold sA, after, exec, cA; cbn [s_db snd]; by rewrite Ha).
  pose proof (steps_after cA now s0) as HstA. fold sA in HstA. pose proof (steps_rows_ok _ _ Hok HstA) as HokA.
  pose proof (admit_goes_on _ _ _ _ _ _ _ _ _ _ _ _ _ Ha) as Hgo. rewrite <- HA in H.
  assert (Hopen : ∀ amount o, lapsed o (xr_tenant req) (xr_fingerprint req) now → o = admissions (s_db s0) !! strip (xr_key req) →
    dbA = Bdb (<[strip (xr_key req) := leased_row o (xr_tenant req) (xr_fingerprint req) token true amount now 30]> (admissions (s_db s0)))
            (ledger (s_db s0)) (slots (s_db s0)) (audits (s_db s0)) →
    ∃ a, admissions (s_db sA) !! strip (xr_key req) = Some a ∧ is_terminal a = false ∧ a_intent a = None ∧
      a_tenant a = xr_tenant req ∧ a_fingerprint a = xr_fingerprint req).
  { intros amount o Hl Ho ->. rewrite HA. cbn. rewrite lookup_insert_eq. eexists. split; [done|].
    by apply (leased_row_open s0 (strip (xr_key req))). }
  destruct d; try (injection H as <- <-; discriminate Hset).
  - assert (ans = Answer (r, http) true false ∧ db = s_db sA) as [-> ->] by (by injection H as <- <-).
    destruct Hgo as (-> & a & H1 & H2 & H3 & H4). exists sA. split_and!; [done|done| |done]. rewrite HA. exists a. by split_and!.
  - destruct Hgo as (amount & o & Hl & Ho & Hdb). destruct (Hopen amount o Hl Ho Hdb) as (a & H1 & H2 & H3 & H4 & H5).
    destruct (settle_attempt_spec _ _ _ _ _ _ _ _ HokA H1 H2 H3 H4 H5 H) as (s1 & Hs1 & Hdb1 & Hans & Hc & _).
    exists s1. split_and!; [by eapply star_trans|done|done|by rewrite Hc].
  - destruct Hgo as (amount & o & Hl & Ho & Hdb). destruct (Hopen amount o Hl Ho Hdb) as (a & H1 & H2 & H3 & H4 & H5).
    destruct (settle_attempt_spec _ _ _ _ _ _ _ _ HokA H1 H2 H3 H4 H5 H) as (s1 & Hs1 & Hdb1 & Hans & Hc & _).
    exists s1. split_and!; [by eapply star_trans|done|done|by rewrite Hc].
  - destruct Hgo as (amount & o & Hl & Ho & Hdb). destruct (Hopen amount o Hl Ho Hdb) as (a & H1 & H2 & H3 & H4 & H5).
    rewrite Hk in H1. set (cB := CStart (xr_key req) (xr_tenant req) token true (xe_max env)). set (sB := after cB now' sA).
    destruct (start_spec (xr_key req) (xr_tenant req) token (xe_max env) now' sA _ a eq_refl H1 H2 H3)
      as (HB & Hbegan & b & B1 & B2 & B3 & B4 & B5). fold cB sB in HB, Hbegan, B1.
    pose proof (steps_after cB now' sA) as HstB. fold sB in HstB. pose proof (steps_rows_ok _ _ HokA HstB) as HokB.
    rewrite <- Hk in B1 at 1. rewrite H4 in B4. rewrite H5 in B5.
    apply io_bind_inv in H as (o' & dbB & Ht & H). unfold try_extract, try_except in Ht. unfold mbind, io_mbind in Ht.
    destruct (mark_execution_started _ _ _ _ _ _ _) as [[started|e] dbm] eqn:Hm; cbn [fst snd] in *.
    + destruct started; injection Ht as <- <-; [|injection H as <- <-; discriminate Hset].
      rewrite <- HB in H. destruct (settle_attempt_spec _ _ _ _ sB b _ _ HokB B1 B2 B3 B4 B5 H)
        as (s1 & Hs1 & Hdb1 & Hans & Hc & Hlog).
      exists s1. split_and!; [eapply star_trans; [exact HstA|by eapply star_trans]|done|done|]. intros _. apply Hlog. by apply Hbegan.
    + injection Ht as <- <-.
      rewrite <- HB in H. destruct (settle_attempt_spec _ _ _ _ sB b _ _ HokB B1 B2 B3 B4 B5 H)
        as (s1 & Hs1 & Hdb1 & Hans & Hc & Hlog).
      exists s1. split_and!; [eapply star_trans; [exact HstA|by eapply star_trans]|done|done|]. by rewrite Hc.
Qed.

Definition demo_request : extract_request := ExtractRequest "upload-7" "acme" "fp".
Definition demo_env : extract_env := ExtractEnv 40 (Some 100) (Some 2) 1 "aps" 10.
Definition demo_run : result broker_error answer * bdb :=
  _broker_extract demo_request demo_env "t1" (Intake "layers") None 0 1 (s_db (init 0)).

Lemma extraction_answers_once_witness :
  fst demo_run = Ok (Answer (intake_envelope "layers", 200) true true) ∧
  ∃ s1, steps (init 0) s1 ∧ s_db s1 = snd demo_run ∧ Began "upload-7" "t1" true ∈ s_log s1 ∧
    _broker_extract demo_request demo_env "t2" (OtherError "down") None 99 100 (s_db s1) =
      (Ok (Answer (intake_envelope "layers", 200) true false), s_db s1).
Proof.
  assert (H : fst demo_run = Ok (Answer (intake_envelope "layers", 200) true true)) by (vm_compute; reflexivity).
  split; [exact H|].
  destruct (extraction_answers_once 0 (init 0) demo_request demo_env "t1" (Intake "layers") None 0 1
    (Answer (intake_envelope "layers", 200) true true) (snd demo_run)) as (s1 & H1 & H2 & H3 & H4).
  - constructor.
  - discriminate.
  - vm_compute. reflexivity.
  - rewrite <- H. apply surjective_pairing.
  - reflexivity.
  - exists s1. split; [exact H1|]. split; [exact H2|]. split; [exact (H3 eq_refl)|].
    exact (H4 s1 demo_env "t2"%string (OtherError "down") None 99 100 (star_refl _ _)).
Defined.

(** A key with blanks around it is admitted under its stripped form but started
    under the form the caller sent, so the start never finds its lease: the request
    is settled as a retryable failure, without a call, and replayed as such. *)
Theorem padded_key_never_starts :
  fst (_broker_extract (ExtractRequest " upload-7" "acme" "fp") demo_env "t1" (Intake "layers") None 0 1 empty_db) =
    Ok (Answer (err_envelope "WORKITEM_FAILED" "RuntimeError: broker execution lease is missing, expired, or not owned" true, 502) true false).
Proof. vm_compute. reflexivity. Qed.
