(* ===== verification/Entitlements.v ===== *)
(** * Tier entitlements and the role overlay

    [server/entitlements.py] and [server/roles.py]: which capabilities a request
    has, from the tier of its tenant, the operator's policy file, and the roles of
    the verified identity.  A policy file is absent, unreadable, or read, with
    [None] for a text that is not JSON; the parser's other exceptions (an integer
    of thousands of digits, very deep nesting), which [load_policy] lets through,
    are not modelled.  JSON numbers that are not integers are outside [json], and
    every reader here treats them like any other unreadable value.  A tool's
    [name], when present, is not a list or an object. *)

From S2P Require Import Prelude PyText Json.
From stdpp Require Import sorting.
Local Open Scope Z_scope.

Inductive file_state := Absent | Unreadable | Contents (parsed : option json).

(** ** [entitlements.py] *)

Definition CAPABILITIES : list string :=
  ["run_read"; "run_write"; "solve"; "build"; "converse"; "agent_write_autopilot"; "deploy";
   "platform_customize"; "upload"; "link_service"].

Definition tier_row (values : list bool) : json := JObj (zip CAPABILITIES (JBool <$> values)).
Definition _HARDCODED_DEFAULTS : list (string * json) :=
  [("demo_live",      tier_row [false; false; false; false; false; false; false; false; false; false]);
   ("demo",           tier_row [true; true; true; true; true; true; true; false; true; false]);
   ("restricted",     tier_row [true; false; false; false; false; false; false; false; false; false]);
   ("self_hosted",    tier_row [true; true; true; true; true; true; true; false; true; true]);
   ("hosted_free",    tier_row [true; true; false; true; true; false; false; false; true; true]);
   ("hosted_starter", tier_row [true; true; false; true; true; false; false; false; true; true]);
   ("hosted_pro",     tier_row [true; true; true; true; true; true; true; false; true; true]);
   ("admin",          tier_row [true; true; true; true; true; true; true; true; true; true]);
   ("guest",          tier_row [false; false; false; false; false; false; false; false; true; false])].
Definition DEFAULT_TIER : string := "demo".
Definition RESTRICTED_TIER : string := "restricted".

Definition _TRUE_TOKENS : list string := ["true"; "yes"; "on"; "1"].
Definition _FALSE_TOKENS : list string := ["false"; "no"; "off"; "0"].

(** [security_flag]; [None] for the value is MISSING, [None] for the answer is
    [SecurityFlagError]. *)
Definition security_flag (value : option json) (default : bool) : option bool :=
  match value with
  | None => Some default
  | Some (JBool b) => Some b
  | Some (JInt z) => if z =? 0 then Some false else if z =? 1 then Some true else None
  | Some (JStr s) =>
      let token := lower (strip s) in
      if bool_decide (token ∈ _TRUE_TOKENS) then Some true
      else if bool_decide (token ∈ _FALSE_TOKENS) then Some false else None
  | Some _ => None
  end.

Inductive ent_error := EntitlementsError.

Definition as_object (v : json) : option (list (string * json)) :=
  match v with JObj kvs => Some (dict_of kvs) | _ => None end.

(** The tiers of a parsed file: documentation keys and non-objects are dropped. *)
Definition tiers_of (kvs : list (string * json)) : list (string * list (string * json)) :=
  omap (λ kv, if startswith "_" kv.1 then None else (λ o, (kv.1, o)) <$> as_object kv.2) (dict_of kvs).

Definition load_policy (f : file_state) : result ent_error (list (string * list (string * json))) :=
  match f with
  | Absent => Ok (tiers_of _HARDCODED_DEFAULTS)
  | Contents (Some (JObj kvs)) => Ok (tiers_of kvs)
  | _ => Err EntitlementsError
  end.

(** The [tier] attribute of a tenant: none on a plain string, or a claim. *)
Inductive tier_attr := NoTier | OddTier | StrTier (s : string).
Definition resolve_tier (t : tier_attr) : string :=
  match t with
  | NoTier => DEFAULT_TIER
  | OddTier => RESTRICTED_TIER
  | StrTier s => if bool_decide (strip s = ""%string) then RESTRICTED_TIER else s
  end.

(** ** [roles.py] *)

Definition MAX_ROLES : nat := 16.
Definition ELEVATED_ONLY_CAPABILITIES : list string := ["platform_customize"].
Definition role_name_ok (s : string) : bool := match_segment is_id_char (chars s).

Definition normalize_role_names (value : json) : list string :=
  match value with
  | JArr l =>
      let names := omap (λ v, match v with
                              | JStr s => let token := lower (strip s) in if role_name_ok token then Some token else None
                              | _ => None
                              end) l in
      take MAX_ROLES (merge_sort String.le (elements (list_to_set names : gset string)))
  | _ => []
  end.

(** [resolve_roles]: the role names and the elevation a tenant carries; a plain
    string carries neither attribute, and only the value [True] elevates. *)
Definition resolve_roles (roles elevated : option json) : list string * bool :=
  (match roles with Some v => normalize_role_names v | None => [] end,
   match elevated with Some (JBool b) => b | _ => false end).

(** The True grants of a block. *)
Definition _clean_grant_block (raw : option json) (allow_elevated_only : bool) : list string :=
  match raw with
  | Some (JObj kvs) =>
      filter (λ cap, (negb (bool_decide (cap ∈ ELEVATED_ONLY_CAPABILITIES)) || allow_elevated_only) &&
                     bool_decide (security_flag (dict_get (dict_of kvs) cap) false = Some true)) CAPABILITIES
  | _ => []
  end.

Record role_entry := RoleEntry { re_grants : list string; re_elevated : list string }.

Definition _HARDCODED_ROLE_DEFAULTS : list (string * json) :=
  [("platform_admin", JObj [("grants", tier_row [true; true; true; true; true; true; true; false; true; true]);
                            ("elevated_grants", JObj [("platform_customize", JBool true)])]);
   ("org_admin", JObj [("grants", JObj []); ("elevated_grants", JObj [])]);
   ("org_member", JObj [("grants", JObj []); ("elevated_grants", JObj [])])].

Definition add_role (policy : gmap string role_entry) (kv : string * json) : gmap string role_entry :=
  if startswith "_" kv.1 then policy
  else let key := lower (strip kv.1) in
       match role_name_ok key, as_object kv.2 with
       | true, Some entry =>
           <[key := RoleEntry (_clean_grant_block (dict_get entry "grants") false)
                              (_clean_grant_block (dict_get entry "elevated_grants") true)]> policy
       | _, _ => policy
       end.

(** [load_role_policy]: an absent file means the defaults only when no override
    names it. *)
Definition load_role_policy (override : bool) (f : file_state) : gmap string role_entry :=
  match f with
  | Absent => if override then ∅ else foldl add_role ∅ (dict_of _HARDCODED_ROLE_DEFAULTS)
  | Contents (Some (JObj kvs)) => foldl add_role ∅ (dict_of kvs)
  | _ => ∅
  end.

Definition role_grants (override : bool) (f : file_state) (roles : json) (elevated : bool) : gset string :=
  let policy := load_role_policy override f in
  ⋃ ((λ name, match policy !! name with
              | Some e => list_to_set (re_grants e) ∪ (if elevated then list_to_set (re_elevated e) else ∅)
              | None => ∅
              end) <$> normalize_role_names roles).

Definition apply_role_grants (base : gmap string bool) (grants : gset string) : gmap string bool :=
  set_fold (λ cap m, <[cap := true]> m) base grants.

(** ** [entitlements_for] *)

Definition policy_entry (policy : list (string * list (string * json))) (tier : string) : list (string * json) :=
  let find k := match list_find (λ kv, kv.1 = k) policy with Some (_, kv) => Some kv.2 | None => None end in
  match find tier with
  | Some e => e
  | None => match find RESTRICTED_TIER with
            | Some e => e
            | None => default [] (dict_get _HARDCODED_DEFAULTS RESTRICTED_TIER ≫= as_object)
            end
  end.

(** A capability the entry grants legibly; an unreadable value denies. *)
Definition tier_grants (entry : list (string * json)) (cap : string) : bool :=
  match security_flag (dict_get entry cap) false with Some b => b | None => false end.

Definition entitlements_for (tiers : file_state) (override : bool) (roles_file : file_state)
    (tier : string) (roles : json) (elevated : bool) : result ent_error (gmap string bool) :=
  if decide (tier = "demo_live") then Ok (list_to_map ((λ cap, (cap, false)) <$> CAPABILITIES))
  else
    policy ← load_policy tiers;
    let entry := policy_entry policy tier in
    let resolved := list_to_map ((λ cap, (cap, tier_grants entry cap)) <$> CAPABILITIES) in
    match roles with
    | JArr [] => Ok resolved
    | _ => Ok (apply_role_grants resolved (role_grants override roles_file roles elevated))
    end.

Definition mentions (s : string) (l : list json) : bool :=
  existsb (λ v, match v with JStr t => bool_decide (t = s) | _ => false end) l.

(** The capability a tool needs; [solar] is the entitlement column of the solar
    tool table, and a missing declaration is not a malformed one. *)
Definition tool_required_capability (solar : string → option string) (tool : list (string * json)) : string :=
  let declared :=
    match dict_get tool "capabilities" with
    | None => "run_read"
    | Some (JArr caps) =>
        if mentions "solve" caps then "solve"
        else if mentions "drawing.write" caps then "run_write" else "run_read"
    | Some _ => "run_write"
    end%string in
  match dict_get tool "name" with
  | Some (JStr name) => default declared (solar name)
  | _ => declared
  end.

(** ** Facts *)

Lemma lookup_apply_grants base grants cap :
  apply_role_grants base grants !! cap = if decide (cap ∈ grants) then Some true else base !! cap.
Proof.
  assert (H : (cap ∈ grants → apply_role_grants base grants !! cap = Some true) ∧
              (cap ∉ grants → apply_role_grants base grants !! cap = base !! cap)).
  { unfold apply_role_grants.
    apply (set_fold_ind_L (λ (m : gmap string bool) (X : gset string),
             (cap ∈ X → m !! cap = Some true) ∧ (cap ∉ X → m !! cap = base !! cap))); [set_solver|].
    intros x X m Hx [IH1 IH2]. destruct (decide (x = cap)) as [->|Hne].
    - rewrite lookup_insert_eq. set_solver.
    - rewrite lookup_insert_ne by done. set_solver. }
  destruct (decide (cap ∈ grants)); by apply H.
Qed.

Lemma lookup_resolved (f : string → bool) cap :
  (list_to_map ((λ c, (c, f c)) <$> CAPABILITIES) : gmap string bool) !! cap =
  if decide (cap ∈ CAPABILITIES) then Some (f cap) else None.
Proof.
  destruct (decide (cap ∈ CAPABILITIES)) as [Hin|Hni].
  - apply elem_of_list_to_map_1.
    + rewrite <- list_fmap_compose. apply (bool_decide_unpack _). vm_compute. exact I.
    + apply list_elem_of_fmap. eauto.
  - apply not_elem_of_list_to_map_1. rewrite <- list_fmap_compose. intros (c & -> & Hc)%list_elem_of_fmap. done.
Qed.

(** The blocks of a loaded role policy: known capabilities, and none of the
    elevated-only ones among the plain grants. *)
Definition role_policy_ok (policy : gmap string role_entry) : Prop :=
  ∀ name e, policy !! name = Some e →
    (∀ cap, cap ∈ re_grants e → cap ∈ CAPABILITIES ∧ (cap ∉ ELEVATED_ONLY_CAPABILITIES)) ∧
    (∀ cap, cap ∈ re_elevated e → cap ∈ CAPABILITIES).

Lemma clean_block_ok raw allow cap :
  cap ∈ _clean_grant_block raw allow →
  cap ∈ CAPABILITIES ∧ (allow = false → cap ∉ ELEVATED_ONLY_CAPABILITIES).
Proof.
  destruct raw as [[| | | | |kvs]|]; simpl; try by intros ?%elem_of_nil.
  intros [Hp Hin]%list_elem_of_filter. split; [done|]. intros ->. apply Is_true_true, andb_true_iff in Hp as [Hp _].
  rewrite orb_false_r in Hp. by bool_prop.
Qed.

Lemma add_role_ok policy kv : role_policy_ok policy → role_policy_ok (add_role policy kv).
Proof.
  intros Hok. unfold add_role. destruct (startswith "_" kv.1); [done|]. destruct (role_name_ok _); [|done].
  destruct (as_object kv.2) as [entry|]; [|done]. intros name e. destruct (decide (lower (strip kv.1) = name)) as [->|Hne].
  - rewrite lookup_insert_eq. intros [= <-]. simpl. split; intros cap Hc%clean_block_ok; naive_solver.
  - rewrite lookup_insert_ne by done. apply Hok.
Qed.

Lemma add_roles_ok l policy : role_policy_ok policy → role_policy_ok (foldl add_role policy l).
Proof. revert policy. induction l as [|kv l IH]; intros policy Hok; simpl; [done|]. by apply IH, add_role_ok. Qed.

Lemma load_role_policy_ok override f : role_policy_ok (load_role_policy override f).
Proof.
  assert (He : role_policy_ok ∅) by (intros ? ?; by rewrite lookup_empty).
  destruct f as [| |[[]|]]; cbn [load_role_policy]; try done; [destruct override; [done|]|]; by apply add_roles_ok.
Qed.

(** What it takes for a role to confer a capability. *)
Definition role_confers (override : bool) (f : file_state) (roles : json) (elevated : bool) (cap : string) : Prop :=
  ∃ name e, name ∈ normalize_role_names roles ∧ load_role_policy override f !! name = Some e ∧
    (cap ∈ re_grants e ∨ (elevated = true ∧ cap ∈ re_elevated e)).

Lemma elem_of_role_grants override f roles elevated cap :
  cap ∈ role_grants override f roles elevated ↔ role_confers override f roles elevated cap.
Proof.
  unfold role_grants, role_confers. rewrite elem_of_union_list. split.
  - intros (X & (name & -> & Hn)%list_elem_of_fmap & Hcap).
    destruct (load_role_policy override f !! name) as [e|] eqn:He; [|set_solver]. exists name, e. split; [done|]. split; [done|].
    apply elem_of_union in Hcap as [Hc|Hc]; [left; by apply elem_of_list_to_set in Hc|]. right.
    destruct elevated; [|set_solver]. split; [done|]. by apply elem_of_list_to_set in Hc.
  - intros (name & e & Hn & He & Hor). eexists. split; [apply list_elem_of_fmap; eauto|]. rewrite He.
    apply elem_of_union. destruct Hor as [Hc|[-> Hc]]; [left|right]; by apply elem_of_list_to_set.
Qed.

Lemma role_confers_known override f roles elevated cap :
  role_confers override f roles elevated cap →
  cap ∈ CAPABILITIES ∧ (cap ∈ ELEVATED_ONLY_CAPABILITIES → elevated = true).
Proof.
  intros (name & e & _ & He & Hor). destruct (load_role_policy_ok override f name e He) as [H1 H2].
  destruct Hor as [Hc|[-> Hc]]; [destruct (H1 cap Hc); naive_solver|split; [by apply H2|done]].
Qed.

(** The resolution in one equation. *)
Lemma entitlements_lookup tiers override f tier roles elevated m cap :
  entitlements_for tiers override f tier roles elevated = Ok m → tier ≠ "demo_live"%string →
  ∃ policy, load_policy tiers = Ok policy ∧
    (m !! cap = Some true ↔
     (cap ∈ CAPABILITIES ∧ tier_grants (policy_entry policy tier) cap = true) ∨
     role_confers override f roles elevated cap).
Proof.
  intros H Hne. unfold entitlements_for in H. rewrite decide_False in H by done.
  destruct (load_policy tiers) as [policy|]; [|done]. exists policy. split; [done|].
  cbv beta iota zeta delta [mbind result_mbind] in H.
  assert (Hm : m !! cap = if decide (cap ∈ role_grants override f roles elevated) then Some true
                          else if decide (cap ∈ CAPABILITIES) then Some (tier_grants (policy_entry policy tier) cap) else None).
  { assert (Hr : ∀ g, apply_role_grants (list_to_map ((λ c, (c, tier_grants (policy_entry policy tier) c)) <$> CAPABILITIES)) g !! cap =
      if decide (cap ∈ g) then Some true
      else if decide (cap ∈ CAPABILITIES) then Some (tier_grants (policy_entry policy tier) cap) else None).
    { intros g. by rewrite lookup_apply_grants, lookup_resolved. }
    destruct roles as [| | | |[|x l]|]; apply (inj Ok) in H; subst m; try apply Hr.
    rewrite lookup_resolved, (decide_False (P := cap ∈ role_grants _ _ _ _)); [done|]. rewrite elem_of_role_grants. intros (name & e & Hn & _). by apply elem_of_nil in Hn. }
  rewrite Hm. destruct (decide (cap ∈ role_grants _ _ _ _)) as [Hg|Hg]; rewrite elem_of_role_grants in Hg; [tauto|].
  destruct (decide (cap ∈ CAPABILITIES)); split.
  - intros [= ->]. tauto.
  - intros [[_ ->]|?]; [done|tauto].
  - done.
  - tauto.
Qed.

Lemma entitlements_spec tiers override f tier roles elevated :
  match entitlements_for tiers override f tier roles elevated with
  | Err _ => ∀ policy, load_policy tiers ≠ Ok policy
  | Ok m => ∀ cap, m !! cap = Some true ↔
      tier ≠ "demo_live"%string ∧ ∃ policy, load_policy tiers = Ok policy ∧
        ((cap ∈ CAPABILITIES ∧ tier_grants (policy_entry policy tier) cap = true) ∨
         role_confers override f roles elevated cap)
  end.
Proof.
  destruct (entitlements_for tiers override f tier roles elevated) as [m|e] eqn:H.
  - intros cap. destruct (decide (tier = "demo_live"%string)) as [->|Hne].
    + unfold entitlements_for in H. rewrite decide_True in H by done. apply (inj Ok) in H; subst m.
      rewrite (lookup_resolved (λ _, false)). destruct (decide (cap ∈ CAPABILITIES)); (split; [done|by intros [Hn _]]).
    + destruct (entitlements_lookup tiers override f tier roles elevated m cap H Hne) as (policy & Hp & Hiff).
      rewrite Hiff. split; [by eauto|]. intros (_ & policy' & Hp' & Hor). rewrite Hp in Hp'. by injection Hp' as <-.
  - unfold entitlements_for in H. destruct (decide _); [done|]. intros policy Hp. rewrite Hp in H.
    cbv beta iota zeta delta [mbind result_mbind] in H. by destruct roles as [| | | |[|x l]|].
Qed.

(** ** Guarantees *)

(** A capability is granted for a reason an operator wrote down, and only
    then.  For any policy files, tier claim, roles and elevation: the durable demo
    tier has nothing; otherwise a capability is granted exactly when the policy
    entry of the tier (of [restricted] for an unknown tier) reads as true for it,
    or one of the identity's roles confers it; a tier policy that is present but
    unreadable refuses the request. *)
Theorem capability_granted_iff tiers override f tier roles elevated :
  match entitlements_for tiers override f tier roles elevated with
  | Err _ => ∀ policy, load_policy tiers ≠ Ok policy
  | Ok m => ∀ cap, m !! cap = Some true ↔
      tier ≠ "demo_live"%string ∧ ∃ policy, load_policy tiers = Ok policy ∧
        ((cap ∈ CAPABILITIES ∧ tier_grants (policy_entry policy tier) cap = true) ∨
         role_confers override f roles elevated cap)
  end.
Proof. apply entitlements_spec. Qed.

(** Roles only add, and self-edit takes two factors.  Whatever the role file
    holds: every capability of the tier alone is kept; a role file that is
    unreadable, or named by an override and absent, adds nothing; and
    [platform_customize], when the tier's entry does not grant it, needs a role
    that confers it {e and} an elevated subject. *)
Theorem role_overlay_is_additive tiers override f tier roles elevated m0 m :
  entitlements_for tiers override f tier (JArr []) false = Ok m0 →
  entitlements_for tiers override f tier roles elevated = Ok m →
  (∀ cap, m0 !! cap = Some true → m !! cap = Some true) ∧
  (load_role_policy override f = ∅ → ∀ cap, m !! cap = Some true → m0 !! cap = Some true) ∧
  (m !! "platform_customize"%string = Some true → m0 !! "platform_customize"%string ≠ Some true → elevated = true).
Proof.
  intros H0 H. pose proof (entitlements_spec tiers override f tier (JArr []) false) as I0.
  pose proof (entitlements_spec tiers override f tier roles elevated) as I1. rewrite H0 in I0. rewrite H in I1.
  assert (Hno : ∀ cap, ¬ role_confers override f (JArr []) false cap).
  { intros cap (name & e & Hn & _). by apply elem_of_nil in Hn. }
  split; [|split].
  - intros cap. rewrite I0, I1. intros (Hne & policy & Hp & [Hc|Hc%Hno]); [|done]. eauto 10.
  - intros He cap. rewrite I0, I1. intros (Hne & policy & Hp & [Hc|Hc]); [eauto 10|].
    destruct Hc as (name & e & _ & Hl & _). by rewrite He, lookup_empty in Hl.
  - rewrite I0, I1. intros (Hne & policy & Hp & [Hc|Hc]) Hnot; [destruct Hnot; eauto 10|].
    apply role_confers_known in Hc as [_ Hel]. apply Hel. set_solver.
Qed.

(** A free-tier tenant whose identity carries the staff role, without and with the
    second factor. *)
Definition staff : json := JArr [JStr " Platform_Admin "].
Definition demo_ent (roles : json) (elevated : bool) : gmap string bool :=
  match entitlements_for Absent false Absent "hosted_free" roles elevated with Ok m => m | Err _ => ∅ end.

Example staff_without_factor :
  (demo_ent (JArr []) false !! "deploy", demo_ent staff false !! "deploy") = (Some false, Some true) ∧
  (demo_ent staff false !! "platform_customize", demo_ent staff true !! "platform_customize") = (Some false, Some true).
Proof. vm_compute. auto. Qed.

Lemma demo_ent_ok roles elevated :
  is_ok (entitlements_for Absent false Absent "hosted_free" roles elevated) = true →
  entitlements_for Absent false Absent "hosted_free" roles elevated = Ok (demo_ent roles elevated).
Proof. unfold demo_ent. by destruct (entitlements_for _ _ _ _ _ _). Qed.

Lemma role_overlay_is_additive_witness :
  demo_ent staff true !! "upload"%string = Some true.
Proof.
  apply (role_overlay_is_additive Absent false Absent "hosted_free" staff true (demo_ent (JArr []) false) (demo_ent staff true)).
  - apply demo_ent_ok. vm_compute. reflexivity.
  - apply demo_ent_ok. vm_compute. reflexivity.
  - vm_compute. reflexivity.
Defined.
