(* ===== verification/Concurrent.v ===== *)
(** * Requests that run at the same time

    A request handler that takes locks or runs transactions is a sequence of atomic
    sections, each reading and writing the shared state, with anything at all
    happening in between.  [prog] is such a handler; [pool_step] lets any request of
    a pool run its next section, and new requests arrive at any moment.

    [secured] is the proof rule: it carries a handler through its sections while the
    other requests may move the state along the relation [G].  [pool_sound] then
    gives what every finished request guarantees, under every interleaving. *)

From S2P Require Import Prelude.

(** A database transaction: it commits on a clean exit, and an exception rolls it
    back. *)
Definition atomically {S E A} (op : io S E A) : io S E A :=
  λ s, match op s with (Ok a, s') => (Ok a, s') | (Err e, _) => (Err e, s) end.

Lemma atomically_Ok {S E A} (op : io S E A) s a s' : atomically op s = (Ok a, s') ↔ op s = (Ok a, s').
Proof. unfold atomically. destruct (op s) as [[]]; naive_solver. Qed.

Lemma io_bind_run {S E A B} (m : io S E A) (f : A → io S E B) s a s' : m s = (Ok a, s') → (m ≫= f) s = f a s'.
Proof. intros H. unfold mbind, io_mbind. by rewrite H. Qed.

Lemma final_bind {S E A B} (m : io S E A) (f : A → io S E B) s a s' : m s = (Ok a, s') → final (m ≫= f) s = final (f a) s'.
Proof. intros H. unfold final, mbind, io_mbind. by rewrite H. Qed.

(** [steps R m]: whatever [m] does is a sequence of [R]s, on every path. *)
Definition steps {S E A} (R : S → S → Prop) (m : io S E A) : Prop := ∀ s, star R s (final m s).

Section steps.
Context {S E : Type} (R : S → S → Prop).

Lemma steps_ret {A} (a : A) : steps R (mret a : io S E A).
Proof. intros s. apply star_refl. Qed.

Lemma steps_raise {A} e : steps R (raise e : io S E A).
Proof. intros s. apply star_refl. Qed.

Lemma steps_lift {A} r : steps R (lift r : io S E A).
Proof. intros s. apply star_refl. Qed.

Lemma steps_bind {A B} (m : io S E A) (f : A → io S E B) : steps R m → (∀ a, steps R (f a)) → steps R (m ≫= f).
Proof.
  intros Hm Hf s. specialize (Hm s). unfold final, mbind, io_mbind in *.
  destruct (m s) as [[a|e] s1]; simpl in *; [|done]. eapply star_trans; [done|apply Hf].
Qed.

Lemma steps_atomically {A} (m : io S E A) : steps R m → steps R (atomically m).
Proof.
  intros Hm s. specialize (Hm s). unfold final, atomically in *. destruct (m s) as [[a|e] s1]; [done|apply star_refl].
Qed.

Lemma steps_try {A} (m : io S E A) h : steps R m → (∀ e, steps R (h e)) → steps R (try_except m h).
Proof.
  intros Hm Hh s. specialize (Hm s). unfold final, try_except in *.
  destruct (m s) as [[a|e] s1]; simpl in *; [done|]. eapply star_trans; [done|apply Hh].
Qed.
End steps.

(** In a history without repeated keys, an entry is determined by its key. *)
Lemma keyed_unique {K A} (l : list (K * A)) k a b : NoDup l.*1 → (k, a) ∈ l → (k, b) ∈ l → a = b.
Proof.
  induction l as [|[c x] l IH]; [by intros _ ?%elem_of_nil|]. simpl. inversion 1 as [|? ? Hn Hl]; subst. intros Ha Hb.
  apply elem_of_cons in Ha as [[= -> <-]|Ha]; apply elem_of_cons in Hb as [Hb|Hb].
  - by injection Hb.
  - destruct Hn. apply list_elem_of_fmap. by exists (c, b).
  - injection Hb as -> <-. destruct Hn. apply list_elem_of_fmap. by exists (c, a).
  - by apply IH.
Qed.

Lemma history_unique {K A B} (l : list (K * (A * B))) k a b a' b' :
  NoDup l.*1 → (k, (a, b)) ∈ l → (k, (a', b')) ∈ l → a = a' ∧ b = b'.
Proof. intros Hn H1 H2. pose proof (keyed_unique _ _ _ _ Hn H1 H2) as [= -> ->]. done. Qed.

Section concurrent.
Context {S R : Type}.

(** [Act op k] runs the atomic section [op] (given the number of the request, for
    histories) and goes on with [k] of its answer. *)
Inductive prog : Type :=
| Ret (r : R)
| Act {A : Type} (op : nat → S → A * S) (k : A → prog).

Record pool := Pool { shared : S; requests : gmap nat prog }.

(** One step: a request arrives, or one runs its next atomic section. *)
Inductive pool_step (arrives : prog → Prop) : pool → pool → Prop :=
| pool_arrive w i p : requests w !! i = None → arrives p →
    pool_step arrives w (Pool (shared w) (<[i := p]> (requests w)))
| pool_run w i A (op : nat → S → A * S) k a s' : requests w !! i = Some (Act op k) → op i (shared w) = (a, s') →
    pool_step arrives w (Pool s' (<[i := k a]> (requests w))).

(** A request alone: it runs its sections one after another. *)
Fixpoint run_alone (i : nat) (p : prog) (s : S) : R * S :=
  match p with
  | Ret r => (r, s)
  | Act op k => let '(a, s') := op i s in run_alone i (k a) s'
  end.

Context (Inv : S → Prop) (G : S → S → Prop) `{!PreOrder G}.
Context (Q : nat → R → S → Prop).

Fixpoint secured (i : nat) (p : prog) (s : S) : Prop :=
  match p with
  | Ret r => ∀ s', Inv s' → G s s' → Q i r s'
  | Act op k => ∀ s', Inv s' → G s s' →
      let '(a, s2) := op i s' in Inv s2 ∧ G s' s2 ∧ secured i (k a) s2
  end.

Lemma secured_stable i p s s' : G s s' → secured i p s → secured i p s'.
Proof.
  intros Hs. destruct p; simpl; intros H s1 Hinv H1; apply H; try done; by transitivity s'.
Qed.

Definition pool_ok (w : pool) : Prop :=
  Inv (shared w) ∧ ∀ i p, requests w !! i = Some p → secured i p (shared w).

Lemma pool_step_ok arrives w w' :
  (∀ i p s, arrives p → Inv s → secured i p s) →
  pool_step arrives w w' → pool_ok w → pool_ok w' ∧ G (shared w) (shared w').
Proof.
  intros Harr Hstep [Hinv Hall]. destruct Hstep as [w i p Hi Hp|w i A op k a s' Hi Hop]; simpl.
  - split; [|done]. split; [done|]. simpl. intros j q. rewrite lookup_insert_Some. naive_solver.
  - pose proof (Hall _ _ Hi) as Hsec. simpl in Hsec. specialize (Hsec (shared w) Hinv ltac:(done)).
    rewrite Hop in Hsec. destruct Hsec as (Hinv' & HG & Hk). split; [|done]. split; [done|]. simpl.
    intros j q. rewrite lookup_insert_Some. intros [[<- <-]|[_ Hq]]; [done|]. eapply secured_stable; eauto.
Qed.

(** Every interleaving keeps the invariant, moves along [G], and answers within [Q]. *)
Lemma pool_sound arrives w w' :
  (∀ i p s, arrives p → Inv s → secured i p s) →
  star (pool_step arrives) w w' → pool_ok w →
  pool_ok w' ∧ G (shared w) (shared w').
Proof.
  intros Harr. induction 1 as [w|w1 w2 w3 H1 _ IH]; intros Hok; [done|].
  destruct (pool_step_ok _ _ _ Harr H1 Hok) as [H2 HG]. destruct (IH H2) as [H3 HG']. split; [done|by etransitivity].
Qed.

Lemma pool_answers w i r : pool_ok w → requests w !! i = Some (Ret r) → Q i r (shared w).
Proof. intros [Hinv Hall] Hi. by apply (Hall _ _ Hi). Qed.
End concurrent.

Arguments prog : clear implicits.
Arguments pool : clear implicits.

(** ** Requests with something of their own

    A request may own a part of the state that no other touches.  [Rely i] is what
    request [i] may see the others do, and its own sections do no more than every
    other request may see.  [New i] holds of a request that has not arrived. *)

Section rely.
Context {S R : Type} (Inv : S → Prop) (Rely : nat → S → S → Prop) (Rely_pre : ∀ i, PreOrder (Rely i)) (New : nat → S → Prop).
Context (Q : nat → R → S → Prop).
Context (New_stable : ∀ i s s', Rely i s s' → New i s → New i s').

Fixpoint guarded (i : nat) (p : prog S R) (s : S) : Prop :=
  match p with
  | Ret r => ∀ s', Inv s' → Rely i s s' → Q i r s'
  | Act op k => ∀ s', Inv s' → Rely i s s' →
      let '(a, s2) := op i s' in Inv s2 ∧ (∀ j, j ≠ i → Rely j s' s2) ∧ guarded i (k a) s2
  end.

Lemma guarded_stable i p s s' : Rely i s s' → guarded i p s → guarded i p s'.
Proof. intros Hs. destruct p; simpl; intros Hp s1 Hinv H1; apply Hp; try done; by etransitivity. Qed.

Definition guarded_pool (w : pool S R) : Prop :=
  Inv (shared w) ∧ (∀ i p, requests w !! i = Some p → guarded i p (shared w)) ∧ ∀ i, requests w !! i = None → New i (shared w).

Lemma guarded_step arrives w w' : (∀ i p s, arrives p → Inv s → New i s → guarded i p s) →
  pool_step arrives w w' → guarded_pool w → guarded_pool w'.
Proof.
  intros Harr Hstep (Hinv & Hall & Hnew). destruct Hstep as [w i p Hi Hp|w i A op k a s' Hi Hop]; unfold guarded_pool; simpl.
  - split_and!; [done| |].
    + intros j q. rewrite lookup_insert_Some. intros [[<- <-]|[_ Hq]]; auto.
    + intros j [Hj _]%lookup_insert_None. auto.
  - pose proof (Hall _ _ Hi) as Hg. simpl in Hg. specialize (Hg (shared w) Hinv (reflexivity _)). rewrite Hop in Hg.
    destruct Hg as (Hinv' & Hrely & Hk). split_and!; [done| |].
    + intros j q. rewrite lookup_insert_Some. intros [[<- <-]|[Hne Hq]]; [done|]. eapply guarded_stable; eauto.
    + intros j [Hj Hne]%lookup_insert_None. eapply New_stable; [by apply Hrely|auto].
Qed.

Lemma guarded_sound arrives w w' : (∀ i p s, arrives p → Inv s → New i s → guarded i p s) →
  star (pool_step arrives) w w' → guarded_pool w → guarded_pool w'.
Proof. intros Harr. induction 1 as [w|w1 w2 w3 H1 _ IH]; intros Hok; [done|]. apply IH. by eapply guarded_step. Qed.

(** What every request may see the others do is how the whole evolves. *)
Lemma guarded_moves (G : S → S → Prop) (G_pre : PreOrder G) arrives w w' : (∀ i s s', Rely i s s' → G s s') →
  (∀ i p s, arrives p → Inv s → New i s → guarded i p s) →
  star (pool_step arrives) w w' → guarded_pool w → G (shared w) (shared w').
Proof.
  intros HG Harr. induction 1 as [w|w1 w2 w3 H1 _ IH]; intros Hok; [reflexivity|].
  transitivity (shared w2); [|apply IH; by eapply guarded_step]. destruct H1 as [w i p Hi Hp|w i A op k a s' Hi Hop]; simpl; [reflexivity|].
  destruct Hok as (Hinv & Hall & _). pose proof (Hall _ _ Hi) as Hg. simpl in Hg. specialize (Hg (shared w) Hinv (reflexivity _)).
  rewrite Hop in Hg. destruct Hg as (_ & Hrely & _). apply (HG (1 + i)%nat), Hrely. lia.
Qed.

Lemma guarded_answers w i r : guarded_pool w → requests w !! i = Some (Ret r) → Q i r (shared w).
Proof. intros (Hinv & Hall & _) Hi. apply (Hall _ _ Hi); [done|reflexivity]. Qed.
End rely.

Lemma secured_weaken {S R} (Inv : S → Prop) G (Q Q' : nat → R → S → Prop) i p s :
  (∀ r s, Inv s → Q i r s → Q' i r s) → secured Inv G Q i p s → secured Inv G Q' i p s.
Proof.
  intros HQ. revert s. induction p as [r|A op k IH]; simpl; intros s H s' Hinv HG; specialize (H s' Hinv HG); [by apply HQ|].
  destruct (op i s') as [a s2]. destruct H as (? & ? & ?). split_and!; auto.
Qed.

(** The same handler with another answer. *)
Fixpoint pmap {S R R'} (f : R → R') (p : prog S R) : prog S R' :=
  match p with Ret r => Ret (f r) | Act op k => Act op (λ a, pmap f (k a)) end.

Lemma secured_pmap {S R R'} Inv G (Q : nat → R' → S → Prop) (f : R → R') i p s :
  secured Inv G (λ i r, Q i (f r)) i p s → secured Inv G Q i (pmap f p) s.
Proof.
  revert s. induction p as [r|A op k IH]; simpl; intros s H; [done|]. intros s' Hinv HG. specialize (H s' Hinv HG).
  destruct (op i s') as [a s2]. destruct H as (? & ? & ?). split_and!; auto.
Qed.

Lemma guarded_pmap {S R R'} Inv Rely (Q : nat → R' → S → Prop) (f : R → R') i p s :
  guarded Inv Rely (λ i r, Q i (f r)) i p s → guarded Inv Rely Q i (pmap f p) s.
Proof.
  revert s. induction p as [r|A op k IH]; simpl; intros s H; [done|]. intros s' Hinv HG. specialize (H s' Hinv HG).
  destruct (op i s') as [a s2]. destruct H as (? & ? & ?). split_and!; auto.
Qed.

(** ** Running a pool *)

Section running.
Context {S R : Type} (arrives : prog S R → Prop).

Definition arrive (i : nat) (p : prog S R) (w : pool S R) : pool S R :=
  match requests w !! i with None => Pool (shared w) (<[i := p]> (requests w)) | Some _ => w end.

(** Request [i] runs its next section. *)
Definition run_section (i : nat) (w : pool S R) : pool S R :=
  match requests w !! i with
  | Some (Act op k) => let '(a, s') := op i (shared w) in Pool s' (<[i := k a]> (requests w))
  | _ => w
  end.

Lemma arrive_reaches i p w : arrives p → star (pool_step arrives) w (arrive i p w).
Proof.
  intros Hp. unfold arrive. destruct (requests w !! i) eqn:Hi; [apply star_refl|]. by apply star_one, pool_arrive.
Qed.

Lemma run_section_reaches i w : star (pool_step arrives) w (run_section i w).
Proof.
  unfold run_section. destruct (requests w !! i) as [[r|A op k]|] eqn:Hi; try apply star_refl.
  destruct (op i (shared w)) as [a s'] eqn:Ho. apply star_one. by eapply pool_run.
Qed.
End running.

(** Requests that arrive one after another and run alone, for up to eight sections each. *)
Definition serve {S R} (i : nat) (p : prog S R) (w : pool S R) : pool S R := Nat.iter 8 (run_section i) (arrive i p w).
Fixpoint serve_all {S R} (i : nat) (l : list (prog S R)) (w : pool S R) : pool S R :=
  match l with [] => w | p :: l' => serve_all (1 + i)%nat l' (serve i p w) end.

Lemma sections_reach {S R} (arrives : prog S R → Prop) n i w : star (pool_step arrives) w (Nat.iter n (run_section i) w).
Proof. induction n as [|n IH]; [apply star_refl|]. eapply star_trans; [exact IH|apply run_section_reaches]. Qed.

Lemma serve_reaches {S R} (arrives : prog S R → Prop) i p w : arrives p → star (pool_step arrives) w (serve i p w).
Proof. intros Hp. eapply star_trans; [by apply arrive_reaches|apply (sections_reach arrives 8)]. Qed.

Lemma serve_all_reaches {S R} (arrives : prog S R → Prop) i l w : Forall arrives l → star (pool_step arrives) w (serve_all i l w).
Proof.
  intros Hl. revert i w. induction Hl as [|p l Hp _ IH]; intros i w; simpl; [apply star_refl|]. eapply star_trans; [|apply IH].
  by apply serve_reaches.
Qed.
