(* ===== verification/AgentPolicy.v ===== *)
(** * The agent's action catalog

    [server/agent_policy.py]: the strict parser of the operator's catalog, the tier
    overrides and the tighten-only tenant overlays that [effective_action] merges,
    and the per-tenant state (kill flag and overlay).

    [PolicyError] is the module's own exception, [TypeError] the one Python raises
    when an unhashable JSON value (an array or an object) is looked up in a
    frozenset.  [jsonschema] is third-party code: [js] is [None] where it is not
    installed.  The description of an action is kept as the JSON value the source
    renders with [str]; nothing reads it.  JSON numbers that are not integers are
    outside [json] (every reader here refuses them). *)

From Stdlib Require Import Ascii.
From S2P Require Import Prelude PyText Json Entitlements.
Local Open Scope Z_scope.

Inductive policy_error := PolicyError | TypeError.

#[export] Instance policy_error_eq_dec : EqDecision policy_error.
Proof. solve_decision. Defined.

Abbreviation checked := (result policy_error).

(** What the catalog asks of [jsonschema]: whether a schema is valid, and the
    errors of an instance against it, each as its path and validator. *)
Record jsonschema := JsonSchema { check_schema : json → bool; iter_errors : json → json → list string }.

(** ** Data *)

Definition POLICY_ORDER (policy : string) : option Z :=
  if decide (policy = "auto") then Some 0
  else if decide (policy = "confirm-once") then Some 1
  else if decide (policy = "always-confirm") then Some 2 else None.

Definition _VALID_POLICIES : list string := ["auto"; "confirm-once"; "always-confirm"].
Definition _VALID_CATEGORIES : list string := ["low"; "medium"; "high"].
Definition _VALID_DISPATCH_KINDS : list string := ["app_api"; "harness"].
Definition _ACTION_REQUIRED_FIELDS : list string :=
  ["description"; "rung"; "required_capability"; "policy"; "dispatch"; "rate_limit_category"].
Definition _ACTION_KNOWN_FIELDS : list string :=
  _ACTION_REQUIRED_FIELDS ++ ["args_schema"; "timeout_s"; "audit_extra"; "enabled"; "tenant_tightenable"; "cost_class"].
Definition _TOP_LEVEL_KNOWN : list string := ["version"; "actions"; "rate_limits"; "approval_ttl_s"; "tier_overrides"].
Definition _OVERRIDE_KNOWN_FIELDS : list string := ["policy"; "enabled"].

Record agent_action := AgentAction {
  aa_name : string; aa_description : json; aa_rung : Z; aa_required_capability : string; aa_policy : string;
  aa_dispatch : string * list string; aa_args_schema : option json; aa_rate_limit_category : string;
  aa_timeout_s : Z; aa_audit_extra : list string; aa_enabled : bool; aa_tenant_tightenable : bool;
  aa_cost_class : option string }.

(** The fields of an override entry that are present. *)
Record override := Override { ov_policy : option string; ov_enabled : option bool }.

Record agent_policy := AgentPolicy {
  ap_actions : gmap string agent_action; ap_rate_limits : gmap string Z; ap_approval_ttl_s : Z;
  ap_tier_overrides : gmap string (gmap string override) }.

(** [dataclasses.replace(action, **fields)] *)
Definition replace (a : agent_action) (o : override) : agent_action :=
  AgentAction (aa_name a) (aa_description a) (aa_rung a) (aa_required_capability a)
    (default (aa_policy a) (ov_policy o)) (aa_dispatch a) (aa_args_schema a) (aa_rate_limit_category a)
    (aa_timeout_s a) (aa_audit_extra a) (default (aa_enabled a) (ov_enabled o)) (aa_tenant_tightenable a)
    (aa_cost_class a).

(** ** Security scalars *)

Definition security_bool (value : option json) (dflt : bool) : checked bool :=
  from_opt (security_flag value dflt) PolicyError.

Definition security_int (value : json) : checked Z :=
  match value with JInt z => Ok z | _ => Err PolicyError end.

(** [value not in <frozenset>] then [raise PolicyError] *)
Definition member_of (valid : list string) (value : json) : checked string :=
  match value with
  | JStr s => if bool_decide (s ∈ valid) then Ok s else Err PolicyError
  | JArr _ | JObj _ => Err TypeError
  | _ => Err PolicyError
  end.

Definition mapping (value : json) : checked (list (string * json)) :=
  match value with JObj kvs => Ok (dict_of kvs) | _ => Err PolicyError end.

(** [isinstance(value, list)] with only [str] elements *)
Definition string_list (value : json) : checked (list string) :=
  match value with
  | JArr l => mapM (λ v, match v with JStr s => Ok s | _ => Err PolicyError end) l
  | _ => Err PolicyError
  end.

(** [set(d) - known] is empty *)
Definition only_known (known : list string) (d : list (string * json)) : checked unit :=
  guard_or (forallb (λ kv, bool_decide (kv.1 ∈ known)) d) PolicyError.

Definition get (d : list (string * json)) (k : string) : json := default JNull (dict_get d k).

(** ** The catalog *)

Definition parse_args_schema (js : option jsonschema) (schema : option json) : checked (option json) :=
  match schema with
  | None => Ok None
  | Some (JObj kvs) =>
      match js with
      | Some j => guard_or (check_schema j (JObj kvs)) PolicyError;; Ok (Some (JObj kvs))
      | None => Ok (Some (JObj kvs))
      end
  | Some _ => Err PolicyError
  end.

Definition _parse_action (js : option jsonschema) (name : string) (record : json) : checked agent_action :=
  r ← mapping record;
  only_known _ACTION_KNOWN_FIELDS r;;
  guard_or (forallb (λ f, bool_decide (is_Some (dict_get r f))) _ACTION_REQUIRED_FIELDS) PolicyError;;
  policy ← member_of _VALID_POLICIES (get r "policy");
  rung ← security_int (get r "rung");
  guard_or ((0 <=? rung) && (rung <? 8)) PolicyError;;
  cap ← match get r "required_capability" with
        | JStr c => if bool_decide (c ∈ CAPABILITIES) then Ok c else Err PolicyError
        | _ => Err PolicyError
        end;
  dispatch ← mapping (get r "dispatch");
  kind ← member_of _VALID_DISPATCH_KINDS (get dispatch "kind");
  routes ← string_list (get dispatch "routes");
  rlc ← member_of _VALID_CATEGORIES (get r "rate_limit_category");
  audit_extra ← string_list (default (JArr []) (dict_get r "audit_extra"));
  args_schema ← parse_args_schema js (dict_get r "args_schema");
  timeout_s ← security_int (default (JInt 600) (dict_get r "timeout_s"));
  guard_or (0 <? timeout_s) PolicyError;;
  cost_class ← match get r "cost_class" with
               | JNull => Ok None | JStr c => Ok (Some c) | _ => Err PolicyError
               end;
  enabled ← security_bool (dict_get r "enabled") true;
  tightenable ← security_bool (dict_get r "tenant_tightenable") true;
  Ok (AgentAction name (get r "description") rung cap policy (kind, routes) args_schema rlc timeout_s
        audit_extra enabled tightenable cost_class).

Definition order (policy : string) : Z := default (-1) (POLICY_ORDER policy).

(** One entry of [tier_overrides]. *)
Definition parse_tier_entry (actions : gmap string agent_action) (action_name : string) (value : json)
  : checked override :=
  match actions !! action_name with
  | None => Err PolicyError
  | Some base =>
      fields ← mapping value;
      only_known _OVERRIDE_KNOWN_FIELDS fields;;
      policy ← match dict_get fields "policy" with
               | None => Ok None
               | Some v =>
                   new ← member_of _VALID_POLICIES v;
                   guard_or (aa_tenant_tightenable base || (order (aa_policy base) <=? order new)) PolicyError;;
                   Ok (Some new)
               end;
      enabled ← match dict_get fields "enabled" with
                | None => Ok None
                | Some v =>
                    b ← security_bool (Some v) false;
                    guard_or (negb b || aa_enabled base) PolicyError;;
                    Ok (Some b)
                end;
      Ok (Override policy enabled)
  end.

Definition _parse_tier_overrides (raw : json) (actions : gmap string agent_action)
  : checked (gmap string (gmap string override)) :=
  tiers ← mapping raw;
  out ← mapM (λ tier, per_action ← mapping tier.2;
                      entries ← mapM (λ kv, e ← parse_tier_entry actions kv.1 kv.2; Ok (kv.1, e)) per_action;
                      Ok (tier.1, list_to_map entries : gmap string override)) tiers;
  Ok (list_to_map out).

Definition endswith_strip (suffix s : string) : option string :=
  let n := (String.length s - String.length suffix)%nat in
  if bool_decide (drop n (chars s) = chars suffix) && (String.length suffix <=? String.length s)%nat
  then Some (of_chars (take n (chars s))) else None.

Definition parse_rate_limit (kv : string * json) : checked (string * Z) :=
  category ← from_opt (endswith_strip "_per_hour" kv.1) PolicyError;
  guard_or (bool_decide (category ∈ _VALID_CATEGORIES)) PolicyError;;
  limit ← security_int kv.2;
  guard_or (0 <? limit) PolicyError;;
  Ok (category, limit).

Definition parse_actions (js : option jsonschema) (d : list (string * json)) : checked (list (string * agent_action)) :=
  mapM (λ kv, a ← _parse_action js kv.1 kv.2; Ok (kv.1, a)) d.

Definition _parse (js : option jsonschema) (raw : list (string * json)) : checked agent_policy :=
  only_known _TOP_LEVEL_KNOWN (List.filter (λ kv, negb (startswith "_" kv.1)) raw);;
  version ← security_int (get raw "version");
  guard_or (version =? 1) PolicyError;;
  actions_raw ← mapping (get raw "actions");
  guard_or (negb (bool_decide (actions_raw = []))) PolicyError;;
  actions ← parse_actions js actions_raw;
  limits_raw ← mapping (default (JObj []) (dict_get raw "rate_limits"));
  limits ← mapM parse_rate_limit limits_raw;
  ttl ← security_int (default (JInt 300) (dict_get raw "approval_ttl_s"));
  guard_or (0 <? ttl) PolicyError;;
  tiers ← _parse_tier_overrides (default (JObj []) (dict_get raw "tier_overrides")) (list_to_map actions);
  Ok (AgentPolicy (list_to_map actions) (list_to_map limits) ttl tiers).

(** [load_policy]: [defaults] is the document [_HARDCODED_DEFAULTS]. *)
Definition load_policy (js : option jsonschema) (defaults : list (string * json)) (f : file_state)
  : checked agent_policy :=
  match f with
  | Absent => _parse js defaults
  | Contents (Some (JObj kvs)) => _parse js (dict_of kvs)
  | _ => Err PolicyError
  end.

(** ** Tier and tenant merge *)

Definition apply_tier_overrides (pol : agent_policy) (action : agent_action) (tier : option string) : agent_action :=
  match tier with
  | None => action
  | Some t =>
      if bool_decide (t = ""%string) then action else
      match (ap_tier_overrides pol !! t) ≫= λ m, m !! aa_name action with
      | Some fields => replace action fields
      | None => action
      end
  end.

(** One entry of a tenant overlay: tighten only. *)
Definition overlay_entry (action : agent_action) (entry : list (string * json)) : checked override :=
  only_known _OVERRIDE_KNOWN_FIELDS entry;;
  policy ← match dict_get entry "policy" with
           | None => Ok None
           | Some v =>
               new ← member_of _VALID_POLICIES v;
               guard_or (order (aa_policy action) <=? order new) PolicyError;;
               Ok (Some new)
           end;
  enabled ← match dict_get entry "enabled" with
            | None => Ok None
            | Some v =>
                b ← security_bool (Some v) false;
                guard_or (negb b || aa_enabled action) PolicyError;;
                Ok (Some b)
            end;
  Ok (Override policy enabled).

Definition apply_tenant_overlay (action : agent_action) (overlay : option json) : checked agent_action :=
  match overlay with
  | None => Ok action
  | Some v =>
      o ← mapping v;
      match dict_get o (aa_name action) with
      | None => Ok action
      | Some e => entry ← mapping e; fields ← overlay_entry action entry; Ok (replace action fields)
      end
  end.

Definition effective_action (pol : agent_policy) (action_name : string) (tier : option string)
    (tenant_overlay : option json) : checked (option agent_action) :=
  match ap_actions pol !! action_name with
  | None => Ok None
  | Some base => a ← apply_tenant_overlay (apply_tier_overrides pol base tier) tenant_overlay; Ok (Some a)
  end.

(** ** Per-tenant state *)

Record tenant_state := TenantState { ts_disabled : bool; ts_overlay : json; ts_revision : Z }.

(** [load_tenant_state] of the JSON file; the file carries no revision (0 here). *)
Definition load_tenant_file (f : file_state) (tenant : string) : checked tenant_state :=
  match f with
  | Absent => Ok (TenantState false (JObj []) 0)
  | Contents (Some (JObj kvs)) =>
      match dict_get (dict_of kvs) tenant with
      | None => Ok (TenantState false (JObj []) 0)
      | Some e =>
          entry ← mapping e;
          let disabled := default true (security_flag (dict_get entry "agent_disabled") false) in
          match dict_get entry "overlay" with
          | None => Ok (TenantState disabled (JObj []) 0)
          | Some (JObj o) => Ok (TenantState disabled (JObj o) 0)
          | Some _ => Err PolicyError
          end
      end
  | _ => Err PolicyError
  end.

(** [set_tenant_agent_disabled] of the JSON file: the document it writes. *)
Definition set_tenant_file (f : file_state) (tenant : string) (disabled : json) : checked file_state :=
  parsed ← security_bool (Some disabled) false;
  raw ← match f with
        | Absent => Ok []
        | Contents (Some (JObj kvs)) => Ok (dict_of kvs)
        | _ => Err PolicyError
        end;
  entry ← match dict_get raw tenant with None => Ok [] | Some e => mapping e end;
  Ok (Contents (Some (JObj (dict_set raw tenant (JObj (dict_set entry "agent_disabled" (JBool parsed))))))).

(** The table [agent_tenant_state]: its CHECKs make the overlay an object and the
    revision positive. *)
Abbreviation tenant_rows := (gmap string tenant_state).

(** [agent_pg_store.tenant_state] *)
Definition read_tenant_row (t : tenant_rows) (tenant : string) : tenant_state :=
  default (TenantState false (JObj []) 0) (t !! tenant).

(** [agent_pg_store.set_tenant_state]: [None] for a stale revision. *)
Definition set_tenant_state (tenant : string) (disabled : option bool) (overlay : option json)
    (expected_revision : option Z) : io tenant_rows policy_error (option tenant_state) :=
  λ t, let row := read_tenant_row t tenant in
       if match expected_revision with Some e => negb (e =? ts_revision row) | None => false end then (Ok None, t) else
       let next := TenantState (default (ts_disabled row) disabled) (default (ts_overlay row) overlay)
                     (match t !! tenant with Some r => ts_revision r + 1 | None => 1 end) in
       (Ok (Some next), <[tenant := next]> t).

Definition current {S E A} (o : option A) (e : E) : io S E A := lift (from_opt o e).

(** [set_tenant_agent_disabled] over PostgreSQL: enabling needs the revision. *)
Definition set_tenant_agent_disabled (tenant : string) (disabled : json) (expected_revision : option Z)
  : io tenant_rows policy_error tenant_state :=
  parsed ← lift (security_bool (Some disabled) false);
  lift (guard_or (parsed || bool_decide (is_Some expected_revision)) PolicyError);;
  entry ← set_tenant_state tenant (Some parsed) None expected_revision;
  current entry PolicyError.

(** The overlay is checked against the catalog, entry by entry. *)
Definition overlay_valid (pol : agent_policy) (overlay : list (string * json)) : checked unit :=
  mapM (λ kv, match ap_actions pol !! kv.1 with
              | None => Err PolicyError
              | Some a => apply_tenant_overlay a (Some (JObj [kv]))
              end) overlay;; Ok tt.

Definition set_tenant_overlay (policy : checked agent_policy) (tenant : string) (overlay : json)
    (expected_revision : option Z) : io tenant_rows policy_error tenant_state :=
  lift (guard_or (bool_decide (is_Some expected_revision)) PolicyError);;
  o ← lift (mapping overlay);
  pol ← lift policy;
  lift (overlay_valid pol o);;
  entry ← set_tenant_state tenant None (Some (JObj o)) expected_revision;
  current entry PolicyError.

(** ** What a merge may change *)

(** [b] differs from [a] at most in its policy and its [enabled] flag. *)
Definition same_call (a b : agent_action) : Prop :=
  b = replace a (Override (Some (aa_policy b)) (Some (aa_enabled b))).

(** [b] asks for at least the confirmation [a] asks for, and is not re-enabled. *)
Definition tightens (a b : agent_action) : Prop :=
  same_call a b ∧ order (aa_policy a) <= order (aa_policy b) ∧ (aa_enabled b = true → aa_enabled a = true).

(** What the parser guarantees of an action, and of a catalog. *)
Definition action_ok (a : agent_action) : Prop :=
  aa_policy a ∈ _VALID_POLICIES ∧ 0 <= aa_rung a < 8 ∧ aa_required_capability a ∈ CAPABILITIES ∧
  (aa_dispatch a).1 ∈ _VALID_DISPATCH_KINDS ∧ aa_rate_limit_category a ∈ _VALID_CATEGORIES ∧ 0 < aa_timeout_s a.

Definition override_ok (base : agent_action) (o : override) : Prop :=
  (∀ p, ov_policy o = Some p → p ∈ _VALID_POLICIES ∧
        (aa_tenant_tightenable base = false → order (aa_policy base) <= order p)) ∧
  (ov_enabled o = Some true → aa_enabled base = true).

Definition policy_ok (pol : agent_policy) : Prop :=
  (∀ n a, ap_actions pol !! n = Some a → aa_name a = n ∧ action_ok a) ∧
  (∀ c l, ap_rate_limits pol !! c = Some l → c ∈ _VALID_CATEGORIES ∧ 0 < l) ∧
  0 < ap_approval_ttl_s pol ∧
  (∀ t m n o, ap_tier_overrides pol !! t = Some m → m !! n = Some o →
              ∃ base, ap_actions pol !! n = Some base ∧ override_ok base o).

(** *** Inversion of the checks *)

Lemma guard_Ok {E B} b (e : E) (k : result E B) y : (guard_or b e ;; k) = Ok y ↔ b = true ∧ k = Ok y.
Proof. destruct b; simpl; naive_solver. Qed.

Lemma result_bind_ext {E A B} (m : result E A) (f g : A → result E B) :
  (∀ a, m = Ok a → f a = g a) → (m ≫= f) = (m ≫= g).
Proof. destruct m; simpl; auto. Qed.

Lemma mapM_Ok {E A B} (f : A → result E B) l k : mapM f l = Ok k ↔ Forall2 (λ x y, f x = Ok y) l k.
Proof.
  revert k. induction l as [|x l IH]; intros k; simpl.
  - split; [by intros [= <-]; constructor|]. by inversion 1.
  - split.
    + rewrite result_bind_Ok. intros (y & Hy & H). rewrite result_bind_Ok in H. destruct H as (ys & Hys & [= <-]).
      constructor; [done|by apply IH].
    + inversion 1 as [|? y ? ys Hy Hys]; subst. rewrite Hy. simpl. apply IH in Hys. by rewrite Hys.
Qed.

Lemma mapM_Ok_in {E A B} (f : A → result E B) l k y : mapM f l = Ok k → y ∈ k → ∃ x, x ∈ l ∧ f x = Ok y.
Proof.
  intros H%mapM_Ok Hy. apply list_elem_of_lookup in Hy as [i Hi].
  destruct (Forall2_lookup_r _ _ _ _ _ H Hi) as (x & Hx & Hf). exists x. eauto using list_elem_of_lookup_2.
Qed.

Lemma member_of_Ok valid v s : member_of valid v = Ok s → s ∈ valid.
Proof. destruct v; simpl; try done. case_bool_decide; naive_solver. Qed.

Ltac open_checks H :=
  repeat first
    [ rewrite guard_Ok in H; let B := fresh "Hb" in destruct H as [B H]
    | rewrite result_bind_Ok in H; let x := fresh "x" in let X := fresh "Hx" in destruct H as (x & X & H) ].

Lemma strictest_policy p : p ∈ _VALID_POLICIES → order "always-confirm" <= order p → p = "always-confirm"%string.
Proof. intros H Ho. repeat (apply elem_of_cons in H as [->|H]; [done|]). by apply elem_of_nil in H. Qed.

Lemma parse_action_ok js name record a : _parse_action js name record = Ok a → aa_name a = name ∧ action_ok a.
Proof.
  unfold _parse_action, only_known. intros H. open_checks H. injection H as <-. split; [done|].
  unfold action_ok; simpl.
  repeat match goal with M : member_of _ _ = Ok _ |- _ => apply member_of_Ok in M end.
  split_and!; try done; try (bool_prop; lia).
  repeat case_match; simplify_eq; by case_bool_decide.
Qed.

Lemma parse_tier_entry_ok actions n v o : parse_tier_entry actions n v = Ok o →
  ∃ base, actions !! n = Some base ∧ override_ok base o.
Proof.
  unfold parse_tier_entry, only_known. destruct (actions !! n) as [base|]; [|done]. intros H. open_checks H.
  injection H as <-. exists base. split; [done|]. split; simpl.
  - intros p ->. destruct (dict_get _ "policy"); [|done]. open_checks Hx0. simplify_eq.
    split; [by eapply member_of_Ok|]. intros Ht. rewrite Ht in Hb0. simpl in Hb0. bool_prop. lia.
  - intros ->. destruct (dict_get _ "enabled"); [|done]. open_checks Hx1. simplify_eq. by destruct (aa_enabled base).
Qed.

Lemma parse_tiers_ok raw actions out : _parse_tier_overrides raw actions = Ok out →
  ∀ t m n o, out !! t = Some m → m !! n = Some o → ∃ base, actions !! n = Some base ∧ override_ok base o.
Proof.
  unfold _parse_tier_overrides. intros H t m n o Ht Hn. open_checks H. injection H as <-.
  apply elem_of_list_to_map_2 in Ht. destruct (mapM_Ok_in _ _ _ _ Hx0 Ht) as (tier & _ & H). open_checks H.
  injection H as <- <-. apply elem_of_list_to_map_2 in Hn.
  destruct (mapM_Ok_in _ _ _ _ Hx2 Hn) as (kv & _ & H). open_checks H. injection H as <- <-.
  by eapply parse_tier_entry_ok.
Qed.

Lemma parse_ok js raw pol : _parse js raw = Ok pol → policy_ok pol.
Proof.
  unfold _parse, only_known. intros H. open_checks H. injection H as <-. split_and!; simpl.
  - intros n a Ha. apply elem_of_list_to_map_2 in Ha. destruct (mapM_Ok_in _ _ _ _ Hx1 Ha) as (kv & _ & H).
    open_checks H. injection H as <- <-. by eapply parse_action_ok.
  - intros c l Hl. apply elem_of_list_to_map_2 in Hl. destruct (mapM_Ok_in _ _ _ _ Hx3 Hl) as (kv & _ & H).
    unfold parse_rate_limit in H. open_checks H. injection H as <- <-. bool_prop. split; [done|lia].
  - bool_prop. lia.
  - by eapply parse_tiers_ok.
Qed.

Lemma load_policy_ok js defaults f pol : load_policy js defaults f = Ok pol → policy_ok pol.
Proof. unfold load_policy. destruct f as [| |[[]|]]; try done; apply parse_ok. Qed.

(** *** Merging *)

Lemma same_call_replace a o : same_call a (replace a o).
Proof. by destruct a. Qed.

Lemma same_call_trans a b c : same_call a b → same_call b c → same_call a c.
Proof. unfold same_call. intros -> ->. by destruct a. Qed.

#[export] Instance tightens_preorder : PreOrder tightens.
Proof.
  split.
  - intros a. split_and!; [by destruct a|lia|done].
  - intros a b c (S1 & O1 & E1) (S2 & O2 & E2). split_and!; [by eapply same_call_trans|lia|auto].
Qed.

Lemma overlay_entry_tightens a entry o : overlay_entry a entry = Ok o →
  tightens a (replace a o) ∧ (aa_policy a ∈ _VALID_POLICIES → aa_policy (replace a o) ∈ _VALID_POLICIES).
Proof.
  unfold overlay_entry, only_known. intros H. open_checks H. injection H as <-. unfold tightens; simpl.
  assert (Hp : (order (aa_policy a) <= order (default (aa_policy a) x)) ∧
               (aa_policy a ∈ _VALID_POLICIES → default (aa_policy a) x ∈ _VALID_POLICIES)).
  { destruct (dict_get entry "policy"); simplify_eq/=; [|by split; [lia|]]. open_checks Hx. simplify_eq/=.
    bool_prop. split; [lia|]. intros _. by eapply member_of_Ok. }
  split; [|apply Hp]. split_and!; [apply same_call_replace|apply Hp|].
  destruct (dict_get entry "enabled"); simplify_eq/=; [|done]. open_checks Hx0. simplify_eq/=.
  intros ->. by destruct (aa_enabled a).
Qed.

Lemma overlay_tightens a overlay b : apply_tenant_overlay a overlay = Ok b →
  tightens a b ∧ (aa_policy a ∈ _VALID_POLICIES → aa_policy b ∈ _VALID_POLICIES).
Proof.
  unfold apply_tenant_overlay. destruct overlay as [v|]; [|by intros [= <-]]. intros H. open_checks H.
  destruct (dict_get x (aa_name a)); [|by simplify_eq]. open_checks H. injection H as <-. by eapply overlay_entry_tightens.
Qed.

(** A tier may retune an action, but it cannot re-enable one, and it cannot loosen
    one the catalog pins. *)
Lemma tier_retune pol a t n : policy_ok pol → ap_actions pol !! n = Some a →
  let b := apply_tier_overrides pol a t in
  same_call a b ∧ (aa_enabled b = true → aa_enabled a = true) ∧ aa_policy b ∈ _VALID_POLICIES ∧
  (aa_tenant_tightenable a = false → order (aa_policy a) <= order (aa_policy b)).
Proof.
  intros (Ha & _ & _ & Ht) Hn. destruct (Ha _ _ Hn) as [Hname (Hv & _)]. unfold apply_tier_overrides.
  assert (Hrefl : same_call a a) by (by destruct a).
  destruct t as [t|]; [|split_and!; done || lia]. case_bool_decide; [split_and!; done || lia|].
  destruct (ap_tier_overrides pol !! t) as [m|] eqn:Hm; simpl; [|split_and!; done || lia].
  destruct (m !! aa_name a) as [o|] eqn:Ho; [|split_and!; done || lia].
  destruct (Ht _ _ _ _ Hm Ho) as (base & Hb & Hpol & Hen).
  rewrite Hname in Hb. rewrite Hn in Hb. injection Hb as <-.
  split_and!; simpl; [apply same_call_replace| | |].
  - destruct (ov_enabled o) as [[]|]; simpl; try done. intros _. by apply Hen.
  - destruct (ov_policy o) as [p|]; simpl; [by destruct (Hpol _ eq_refl)|done].
  - destruct (ov_policy o) as [p|]; simpl; [by destruct (Hpol _ eq_refl)|lia].
Qed.

Lemma effective_action_inv pol n tier ov a : effective_action pol n tier ov = Ok (Some a) →
  ∃ base, ap_actions pol !! n = Some base ∧ apply_tenant_overlay (apply_tier_overrides pol base tier) ov = Ok a.
Proof.
  unfold effective_action. destruct (ap_actions pol !! n) as [base|]; [|done]. intros H. open_checks H.
  simplify_eq. eauto.
Qed.

Lemma effective_action_ok pol n tier ov a base :
  policy_ok pol → ap_actions pol !! n = Some base → effective_action pol n tier ov = Ok (Some a) →
  same_call base a ∧ aa_policy a ∈ _VALID_POLICIES ∧ (aa_enabled a = true → aa_enabled base = true) ∧
  (aa_tenant_tightenable base = false → order (aa_policy base) <= order (aa_policy a)).
Proof.
  intros Hpol Hn (base' & Hn' & H)%effective_action_inv. simplify_eq.
  destruct (tier_retune pol base tier n Hpol Hn) as (S1 & E1 & V1 & O1).
  destruct (overlay_tightens _ _ _ H) as [(S2 & O2 & E2) V2].
  split_and!; [by eapply same_call_trans|auto|auto|]. intros Ht. specialize (O1 Ht). lia.
Qed.

(** The name an effective action carries is the name it was asked under. *)
Lemma effective_action_name pol n tier ov a : policy_ok pol → effective_action pol n tier ov = Ok (Some a) → aa_name a = n.
Proof.
  intros Hpol H. destruct (effective_action_inv _ _ _ _ _ H) as (base & Hn & _).
  destruct (effective_action_ok _ _ _ _ _ _ Hpol Hn H) as [Hs _].
  rewrite Hs. simpl. by apply (proj1 Hpol) in Hn as [-> _].
Qed.

(** *** The tenant file *)

Lemma dict_get_set d k v k' : dict_get (dict_set d k v) k' = if decide (k' = k) then Some v else dict_get d k'.
Proof.
  induction d as [|[k0 v0] d IH]; simpl.
  - case_decide; [by rewrite bool_decide_true|by rewrite bool_decide_false].
  - destruct (decide (k = k0)) as [->|Hk]; [rewrite bool_decide_true by done|rewrite bool_decide_false by done]; simpl.
    + case_decide; [by rewrite bool_decide_true|by rewrite !bool_decide_false].
    + destruct (decide (k' = k0)) as [->|]; [rewrite !bool_decide_true by done; by rewrite decide_False|].
      rewrite !bool_decide_false by done. apply IH.
Qed.

Lemma dict_set_keys d k v x : x ∈ (dict_set d k v).*1 ↔ x = k ∨ x ∈ d.*1.
Proof.
  induction d as [|[k0 v0] d IH]; simpl; [set_solver|].
  case_bool_decide; subst; simpl; rewrite !elem_of_cons; [naive_solver|]. rewrite IH. naive_solver.
Qed.

Lemma dict_set_nodup d k v : NoDup d.*1 → NoDup (dict_set d k v).*1.
Proof.
  induction d as [|[k0 v0] d IH]; simpl; [intros; constructor; [set_solver|constructor]|].
  inversion 1 as [|? ? Hk Hd]; subst. case_bool_decide; subst; simpl; constructor; auto.
  rewrite dict_set_keys. naive_solver.
Qed.

Lemma dict_of_nodup kvs : NoDup (dict_of kvs).*1.
Proof.
  unfold dict_of. assert (∀ acc : list (string * json), NoDup acc.*1 →
    NoDup (foldl (λ d kv, dict_set d kv.1 kv.2) acc kvs).*1) as H; [|apply H; constructor].
  induction kvs as [|[k v] kvs IH]; intros acc Hacc; simpl; [done|]. by apply IH, dict_set_nodup.
Qed.

Lemma dict_of_id d : NoDup d.*1 → dict_of d = d.
Proof. intros. unfold dict_of. by apply (dict_of_fresh []). Qed.

Lemma load_tenant_file_kept d tenant entry t :
  NoDup d.*1 → NoDup entry.*1 →
  load_tenant_file (Contents (Some (JObj (dict_set d tenant (JObj entry))))) t =
  if decide (t = tenant) then
    match dict_get entry "overlay" with
    | None => Ok (TenantState (default true (security_flag (dict_get entry "agent_disabled") false)) (JObj []) 0)
    | Some (JObj o) => Ok (TenantState (default true (security_flag (dict_get entry "agent_disabled") false)) (JObj o) 0)
    | Some _ => Err PolicyError
    end
  else load_tenant_file (Contents (Some (JObj d))) t.
Proof.
  intros Hd He. unfold load_tenant_file. rewrite dict_of_id by (by apply dict_set_nodup).
  rewrite dict_get_set. case_decide; [|by rewrite dict_of_id]. simpl. by rewrite dict_of_id.
Qed.

(** ** Properties *)

Section properties.
Variables (js : option jsonschema) (defaults : list (string * json)).

(** Whatever the overlay document is, an overlay that loads never loosens the
    tenant: the merged action keeps every field but its policy and its [enabled]
    flag, asks for at least the confirmation it asked for before, and is not
    enabled if it was not. *)
Theorem overlay_only_tightens a overlay b : apply_tenant_overlay a overlay = Ok b → tightens a b.
Proof. intros H. by apply overlay_tightens in H as [? _]. Qed.

(** An action the catalog pins ([tenant_tightenable: false]) keeps its
    confirmation at every tier and under every overlay, whatever file the catalog
    was read from; and no tier and no overlay re-enables a disabled action. *)
Theorem pinned_action_never_loosens f pol n base tier overlay a :
  load_policy js defaults f = Ok pol → ap_actions pol !! n = Some base →
  effective_action pol n tier overlay = Ok (Some a) →
  same_call base a ∧ (aa_enabled a = true → aa_enabled base = true) ∧
  (aa_tenant_tightenable base = false → order (aa_policy base) <= order (aa_policy a)).
Proof.
  intros Hpol%load_policy_ok Hn H. destruct (effective_action_ok _ _ _ _ _ _ Hpol Hn H) as (? & _ & ? & ?). done.
Qed.

(** (C24) A catalog that loads is well formed: every action carries a known policy,
    rung, capability, dispatch kind and rate category, every budget and the
    approval lifetime are positive, and every tier entry names a catalog action
    and respects its pin. *)
Theorem loaded_catalog_is_wellformed f pol : load_policy js defaults f = Ok pol → policy_ok pol.
Proof. apply load_policy_ok. Qed.
End properties.

(** Writing a tenant's kill flag to the file and reading it back answers the flag
    that was written and keeps the tenant's overlay, and no other tenant's state
    changes; a file that cannot be read is never overwritten. *)
Theorem kill_flag_write_is_local f tenant flag f' b :
  set_tenant_file f tenant flag = Ok f' → security_flag (Some flag) false = Some b →
  (∀ s, load_tenant_file f' tenant = Ok s → ts_disabled s = b) ∧
  (∀ s, load_tenant_file f tenant = Ok s → load_tenant_file f' tenant = Ok (TenantState b (ts_overlay s) 0)) ∧
  (∀ t, t ≠ tenant → load_tenant_file f' t = load_tenant_file f t).
Proof.
  intros H Hb. unfold set_tenant_file, security_bool in H. rewrite Hb in H. simpl in H. open_checks H.
  injection H as <-.
  assert (Hx' : ∃ d, x = d ∧ NoDup d.*1 ∧ (∀ t, load_tenant_file f t = load_tenant_file (Contents (Some (JObj d))) t)).
  { destruct f as [| |[[]|]]; simplify_eq/=; eexists; (split; [done|]).
    - split; [constructor|done].
    - split; [apply dict_of_nodup|]. intros t. unfold load_tenant_file. by rewrite (dict_of_id (dict_of _)) by apply dict_of_nodup. }
  destruct Hx' as (d & -> & Hd & Hf). clear Hx.
  assert (He : ∃ e, x0 = e ∧ NoDup e.*1).
  { destruct (dict_get d tenant) as [[]|]; simplify_eq/=; eexists; (split; [done|]); try constructor.
    apply dict_of_nodup. }
  destruct He as (e & -> & He).
  assert (Hk : ∀ t, load_tenant_file (Contents (Some (JObj (dict_set d tenant (JObj (dict_set e "agent_disabled" (JBool b))))))) t =
    if decide (t = tenant) then
      match dict_get e "overlay" with
      | None => Ok (TenantState b (JObj []) 0)
      | Some (JObj o) => Ok (TenantState b (JObj o) 0)
      | Some _ => Err PolicyError
      end
    else load_tenant_file f t).
  { intros t. rewrite load_tenant_file_kept by (done || by apply dict_set_nodup). rewrite !dict_get_set, <- Hf. done. }
  split_and!.
  - intros s. rewrite Hk, decide_True by done. repeat case_match; naive_solver.
  - intros s. rewrite Hk, decide_True, Hf by done. unfold load_tenant_file. rewrite dict_of_id by done.
    destruct (dict_get d tenant) as [[]|]; simplify_eq/=; try done.
    + repeat case_match; naive_solver.
    + naive_solver.
  - intros t Ht. by rewrite Hk, decide_False.
Qed.
