(* ===== verification/AgentDefaults.v ===== *)
(** * The built-in action catalog

    [_HARDCODED_DEFAULTS] of [server/agent_policy.py], the document [load_policy]
    parses where the catalog file is missing, and what it guarantees. *)

From S2P Require Import Prelude PyText Json Entitlements AgentPolicy.
Local Open Scope Z_scope.

Definition quote_text : string := String quote EmptyString.

(** ** Schemas *)

Definition _RUN_TOOL_SCHEMA : json :=
  JObj [
    ("type", JStr "object");
    ("properties",
     JObj [
       ("tool", JObj [("type", JStr "string")]); ("params", JObj [("type", JStr "object")]);
       ("dwg", JObj [("type", JStr "string")]); ("catalog_digest", JObj [("type", JStr "string")]);
       ("drawing_version", JObj [("type", JStr "integer")]);
       ("expected_drawing_head", JObj [("type", JStr "integer")]);
       ("catalog_commit", JObj [("type", JStr "string")]);
       ("effective_catalog_digest", JObj [("type", JStr "string")]);
       ("tool_manifest_sha256", JObj [("type", JStr "string")]); ("confirmation_id", JObj [("type", JStr "string")])]);
    ("required", JArr [JStr "tool"]); ("additionalProperties", JBool false)].

(** [{**a, **b}] *)
Definition spread (a b : list (string * json)) : list (string * json) := dict_of (a ++ b).
Definition members (v : json) : list (string * json) := match v with JObj kvs => kvs | _ => [] end.

Definition _SOLVE_TOOL_SCHEMA : json :=
  JObj (spread (members _RUN_TOOL_SCHEMA)
    [("properties", JObj (spread (members (get (members _RUN_TOOL_SCHEMA) "properties"))
       [("tool", JObj [("type", JStr "string"); ("const", JStr "solar-solve-proposal")]);
        ("solve_context", JObj [
          ("type", JStr "object");
          ("properties",
           JObj [
             ("frame_ref", JObj [("type", JStr "string"); ("minLength", JInt 1)]);
             ("expected_rev", JObj [("type", JStr "integer"); ("minimum", JInt 0)]);
             ("phase", JObj [("type", JStr "string"); ("enum", JArr [JStr "initial"; JStr "background"])])]);
          ("required", JArr [JStr "frame_ref"; JStr "expected_rev"; JStr "phase"]);
          ("additionalProperties", JBool false)])]));
     ("required", JArr [
        JStr "tool"; JStr "params"; JStr "dwg"; JStr "catalog_digest"; JStr "catalog_commit";
        JStr "effective_catalog_digest"; JStr "tool_manifest_sha256"; JStr "solve_context"])]).

(** ** Actions *)

Definition save_integration_element_DatasetElementV1 : json :=
  JObj [
    ("anyOf",
     JArr [
       JObj [
         ("type", JStr "object");
         ("properties",
          JObj [
            ("schema_version", JObj [("type", JStr "number"); ("const", JInt 1)]);
            ("id",
             JObj [
               ("type", JStr "string"); ("minLength", JInt 1); ("maxLength", JInt 128);
               ("pattern", JStr "^[a-z0-9]+(?:[-_][a-z0-9]+)*(?![\s\S])")]);
            ("title", JObj [("type", JStr "string"); ("minLength", JInt 1); ("maxLength", JInt 120)]);
            ("dataset_ref", JObj [("$ref", JStr "#/$defs/IntegrationRefV1")]);
            ("query", JObj [("$ref", JStr "#/$defs/DatasetQueryV1")]);
            ("kind", JObj [("type", JStr "string"); ("const", JStr "dataset.table")]);
            ("props",
             JObj [
               ("type", JStr "object");
               ("properties",
                JObj [
                  ("columns",
                   JObj [
                     ("minItems", JInt 1); ("maxItems", JInt 100); ("type", JStr "array");
                     ("items",
                      JObj [
                        ("type", JStr "string"); ("minLength", JInt 1); ("maxLength", JInt 128);
                        ("pattern", JStr "^[A-Za-z_][A-Za-z0-9_]*(?![\s\S])")])]);
                  ("row_limit", JObj [("type", JStr "integer"); ("minimum", JInt 1); ("maximum", JInt 1000)])]);
               ("required", JArr [JStr "columns"; JStr "row_limit"]); ("additionalProperties", JBool false)])]);
         ("required",
          JArr [
            JStr "schema_version"; JStr "id"; JStr "title"; JStr "dataset_ref"; JStr "query"; JStr "kind";
            JStr "props"]);
         ("additionalProperties", JBool false)];
       JObj [
         ("type", JStr "object");
         ("properties",
          JObj [
            ("schema_version", JObj [("type", JStr "number"); ("const", JInt 1)]);
            ("id",
             JObj [
               ("type", JStr "string"); ("minLength", JInt 1); ("maxLength", JInt 128);
               ("pattern", JStr "^[a-z0-9]+(?:[-_][a-z0-9]+)*(?![\s\S])")]);
            ("title", JObj [("type", JStr "string"); ("minLength", JInt 1); ("maxLength", JInt 120)]);
            ("dataset_ref", JObj [("$ref", JStr "#/$defs/IntegrationRefV1")]);
            ("query", JObj [("$ref", JStr "#/$defs/DatasetQueryV1")]);
            ("kind", JObj [("type", JStr "string"); ("const", JStr "dataset.line")]);
            ("props",
             JObj [
               ("type", JStr "object");
               ("properties",
                JObj [
                  ("x_field",
                   JObj [
                     ("type", JStr "string"); ("minLength", JInt 1); ("maxLength", JInt 128);
                     ("pattern", JStr "^[A-Za-z_][A-Za-z0-9_]*(?![\s\S])")]);
                  ("y_field",
                   JObj [
                     ("type", JStr "string"); ("minLength", JInt 1); ("maxLength", JInt 128);
                     ("pattern", JStr "^[A-Za-z_][A-Za-z0-9_]*(?![\s\S])")])]);
               ("required", JArr [JStr "x_field"; JStr "y_field"]); ("additionalProperties", JBool false)])]);
         ("required",
          JArr [
            JStr "schema_version"; JStr "id"; JStr "title"; JStr "dataset_ref"; JStr "query"; JStr "kind";
            JStr "props"]);
         ("additionalProperties", JBool false)]])].

Definition save_integration_element_DatasetQueryV1 : json :=
  JObj [
    ("type", JStr "object");
    ("properties",
     JObj [
       ("fields",
        JObj [
          ("minItems", JInt 1); ("maxItems", JInt 100); ("type", JStr "array");
          ("items",
           JObj [
             ("type", JStr "string"); ("minLength", JInt 1); ("maxLength", JInt 128);
             ("pattern", JStr "^[A-Za-z_][A-Za-z0-9_]*(?![\s\S])")])]);
       ("limit", JObj [("type", JStr "integer"); ("minimum", JInt 1); ("maximum", JInt 1000)]);
       ("cursor", JObj [("type", JStr "string"); ("maxLength", JInt 2048)]);
       ("filters",
        JObj [
          ("maxItems", JInt 20); ("type", JStr "array");
          ("items",
           JObj [
             ("anyOf",
              JArr [
                JObj [
                  ("type", JStr "object");
                  ("properties",
                   JObj [
                     ("field",
                      JObj [
                        ("type", JStr "string"); ("minLength", JInt 1); ("maxLength", JInt 128);
                        ("pattern", JStr "^[A-Za-z_][A-Za-z0-9_]*(?![\s\S])")]);
                     ("op",
                      JObj [
                        ("type", JStr "string");
                        ("enum", JArr [JStr "eq"; JStr "neq"; JStr "gt"; JStr "gte"; JStr "lt"; JStr "lte"])]);
                     ("value",
                      JObj [
                        ("anyOf",
                         JArr [
                           JObj [("type", JStr "string")]; JObj [("type", JStr "number")];
                           JObj [("type", JStr "boolean")]; JObj [("type", JStr "null")]])])]);
                  ("required", JArr [JStr "field"; JStr "op"; JStr "value"]); ("additionalProperties", JBool false)];
                JObj [
                  ("type", JStr "object");
                  ("properties",
                   JObj [
                     ("field",
                      JObj [
                        ("type", JStr "string"); ("minLength", JInt 1); ("maxLength", JInt 128);
                        ("pattern", JStr "^[A-Za-z_][A-Za-z0-9_]*(?![\s\S])")]);
                     ("op", JObj [("type", JStr "string"); ("const", JStr "is_null")])]);
                  ("required", JArr [JStr "field"; JStr "op"]); ("additionalProperties", JBool false)]])])]);
       ("sort",
        JObj [
          ("maxItems", JInt 4); ("type", JStr "array");
          ("items",
           JObj [
             ("type", JStr "object");
             ("properties",
              JObj [
                ("field",
                 JObj [
                   ("type", JStr "string"); ("minLength", JInt 1); ("maxLength", JInt 128);
                   ("pattern", JStr "^[A-Za-z_][A-Za-z0-9_]*(?![\s\S])")]);
                ("direction", JObj [("type", JStr "string"); ("enum", JArr [JStr "asc"; JStr "desc"])])]);
             ("required", JArr [JStr "field"; JStr "direction"]); ("additionalProperties", JBool false)])])]);
    ("required", JArr [JStr "fields"; JStr "limit"]); ("additionalProperties", JBool false)].

Definition save_integration_element_IntegrationActionElementV1 : json :=
  JObj [
    ("description",
     JStr "Inert action presentation bound to exact immutable connector and operation versions. The host resolves the current grant revision when submitting; this control grants no authority.");
    ("type", JStr "object");
    ("properties",
     JObj [
       ("schema_version", JObj [("type", JStr "number"); ("const", JInt 1)]);
       ("id",
        JObj [
          ("type", JStr "string"); ("minLength", JInt 1); ("maxLength", JInt 128);
          ("pattern", JStr "^[a-z0-9]+(?:[-_][a-z0-9]+)*(?![\s\S])")]);
       ("title", JObj [("type", JStr "string"); ("minLength", JInt 1); ("maxLength", JInt 120)]);
       ("kind", JObj [("type", JStr "string"); ("const", JStr "integration.action")]);
       ("connection_id",
        JObj [
          ("type", JStr "string"); ("minLength", JInt 1); ("maxLength", JInt 128);
          ("pattern", JStr "^[a-z0-9]+(?:[-_][a-z0-9]+)*(?![\s\S])")]);
       ("connector_ref", JObj [("$ref", JStr "#/$defs/IntegrationRefV1")]);
       ("operation_ref", JObj [("$ref", JStr "#/$defs/IntegrationRefV1")]);
       ("form", JObj [("$ref", JStr "#/$defs/IntegrationActionFormV1")])]);
    ("required",
     JArr [
       JStr "schema_version"; JStr "id"; JStr "title"; JStr "kind"; JStr "connection_id"; JStr "connector_ref";
       JStr "operation_ref"; JStr "form"]);
    ("additionalProperties", JBool false)].

Definition save_integration_element_IntegrationActionFieldV1 : json :=
  JObj [
    ("anyOf",
     JArr [
       JObj [
         ("type", JStr "object");
         ("properties",
          JObj [
            ("id",
             JObj [
               ("type", JStr "string"); ("minLength", JInt 1); ("maxLength", JInt 128);
               ("pattern",
                JStr "^(?!(?:__proto__|prototype|constructor)(?![\s\S]))[A-Za-z_][A-Za-z0-9_]*(?![\s\S])")]);
            ("label", JObj [("type", JStr "string"); ("minLength", JInt 1); ("maxLength", JInt 120)]);
            ("required", JObj [("type", JStr "boolean")]); ("nullable", JObj [("type", JStr "boolean")]);
            ("description", JObj [("type", JStr "string"); ("minLength", JInt 1); ("maxLength", JInt 500)]);
            ("kind", JObj [("type", JStr "string"); ("const", JStr "text")]);
            ("min_length", JObj [("type", JStr "integer"); ("minimum", JInt 0); ("maximum", JInt 4096)]);
            ("max_length", JObj [("type", JStr "integer"); ("minimum", JInt 0); ("maximum", JInt 4096)])]);
         ("required", JArr [JStr "id"; JStr "label"; JStr "required"; JStr "nullable"; JStr "kind"]);
         ("additionalProperties", JBool false)];
       JObj [
         ("type", JStr "object");
         ("properties",
          JObj [
            ("id",
             JObj [
               ("type", JStr "string"); ("minLength", JInt 1); ("maxLength", JInt 128);
               ("pattern",
                JStr "^(?!(?:__proto__|prototype|constructor)(?![\s\S]))[A-Za-z_][A-Za-z0-9_]*(?![\s\S])")]);
            ("label", JObj [("type", JStr "string"); ("minLength", JInt 1); ("maxLength", JInt 120)]);
            ("required", JObj [("type", JStr "boolean")]); ("nullable", JObj [("type", JStr "boolean")]);
            ("description", JObj [("type", JStr "string"); ("minLength", JInt 1); ("maxLength", JInt 500)]);
            ("kind", JObj [("type", JStr "string"); ("const", JStr "number")]);
            ("minimum", JObj [("type", JStr "number")]); ("maximum", JObj [("type", JStr "number")]);
            ("integer", JObj [("type", JStr "boolean")])]);
         ("required",
          JArr [JStr "id"; JStr "label"; JStr "required"; JStr "nullable"; JStr "kind"; JStr "integer"]);
         ("additionalProperties", JBool false)];
       JObj [
         ("type", JStr "object");
         ("properties",
          JObj [
            ("id",
             JObj [
               ("type", JStr "string"); ("minLength", JInt 1); ("maxLength", JInt 128);
               ("pattern",
                JStr "^(?!(?:__proto__|prototype|constructor)(?![\s\S]))[A-Za-z_][A-Za-z0-9_]*(?![\s\S])")]);
            ("label", JObj [("type", JStr "string"); ("minLength", JInt 1); ("maxLength", JInt 120)]);
            ("required", JObj [("type", JStr "boolean")]); ("nullable", JObj [("type", JStr "boolean")]);
            ("description", JObj [("type", JStr "string"); ("minLength", JInt 1); ("maxLength", JInt 500)]);
            ("kind", JObj [("type", JStr "string"); ("const", JStr "boolean")])]);
         ("required", JArr [JStr "id"; JStr "label"; JStr "required"; JStr "nullable"; JStr "kind"]);
         ("additionalProperties", JBool false)];
       JObj [
         ("type", JStr "object");
         ("properties",
          JObj [
            ("id",
             JObj [
               ("type", JStr "string"); ("minLength", JInt 1); ("maxLength", JInt 128);
               ("pattern",
                JStr "^(?!(?:__proto__|prototype|constructor)(?![\s\S]))[A-Za-z_][A-Za-z0-9_]*(?![\s\S])")]);
            ("label", JObj [("type", JStr "string"); ("minLength", JInt 1); ("maxLength", JInt 120)]);
            ("required", JObj [("type", JStr "boolean")]); ("nullable", JObj [("type", JStr "boolean")]);
            ("description", JObj [("type", JStr "string"); ("minLength", JInt 1); ("maxLength", JInt 500)]);
            ("kind", JObj [("type", JStr "string"); ("const", JStr "choice")]);
            ("choices",
             JObj [
               ("minItems", JInt 1); ("maxItems", JInt 100); ("type", JStr "array");
               ("items",
                JObj [
                  ("type", JStr "object");
                  ("properties",
                   JObj [
                     ("label", JObj [("type", JStr "string"); ("minLength", JInt 1); ("maxLength", JInt 120)]);
                     ("value", JObj [("type", JStr "string"); ("minLength", JInt 1); ("maxLength", JInt 4096)])]);
                  ("required", JArr [JStr "label"; JStr "value"]); ("additionalProperties", JBool false)])])]);
         ("required",
          JArr [JStr "id"; JStr "label"; JStr "required"; JStr "nullable"; JStr "kind"; JStr "choices"]);
         ("additionalProperties", JBool false)]])].

Definition save_integration_element_IntegrationActionFormV1 : json :=
  JObj [
    ("description",
     JStr "Presentation and client-validation hints, not business semantics or authority. The installed host adapter validates arguments again. Null, absent, false, zero and empty text remain distinct.");
    ("type", JStr "object");
    ("properties",
     JObj [
       ("fields",
        JObj [
          ("minItems", JInt 0); ("maxItems", JInt 100); ("type", JStr "array");
          ("items", JObj [("$ref", JStr "#/$defs/IntegrationActionFieldV1")])]);
       ("submit_label", JObj [("type", JStr "string"); ("minLength", JInt 1); ("maxLength", JInt 120)]);
       ("description", JObj [("type", JStr "string"); ("minLength", JInt 1); ("maxLength", JInt 1000)])]);
    ("required", JArr [JStr "fields"; JStr "submit_label"]); ("additionalProperties", JBool false)].

Definition save_integration_element_IntegrationElementV1 : json :=
  JObj [
    ("anyOf",
     JArr [
       JObj [("$ref", JStr "#/$defs/DatasetElementV1")]; JObj [("$ref", JStr "#/$defs/IntegrationActionElementV1")]])].

Definition save_integration_element_IntegrationRefV1 : json :=
  JObj [
    ("type", JStr "object");
    ("properties",
     JObj [
       ("id",
        JObj [
          ("type", JStr "string"); ("minLength", JInt 1); ("maxLength", JInt 128);
          ("pattern", JStr "^[a-z0-9]+(?:[-_][a-z0-9]+)*(?![\s\S])")]);
       ("version",
        JObj [("type", JStr "integer"); ("exclusiveMinimum", JInt 0); ("maximum", JInt 9007199254740991)]);
       ("digest", JObj [("type", JStr "string"); ("pattern", JStr "^[a-f0-9]{64}(?![\s\S])")])]);
    ("required", JArr [JStr "id"; JStr "version"; JStr "digest"]); ("additionalProperties", JBool false)].

Definition save_integration_element : json :=
  JObj [
    ("description",
     JStr "Create or replace a native table, line chart or inert action form in the current project using revision checks.");
    ("rung", JInt 3); ("required_capability", JStr "converse"); ("policy", JStr "auto"); ("enabled", JBool true);
    ("tenant_tightenable", JBool true);
    ("dispatch", JObj [("kind", JStr "app_api"); ("routes", JArr [JStr "POST /internal/integrations/elements"])]);
    ("rate_limit_category", JStr "medium"); ("timeout_s", JInt 10);
    ("audit_extra", JArr [JStr "expectedRevision"]);
    ("args_schema",
     JObj [
       ("$defs",
        JObj [
          ("DatasetElementV1", save_integration_element_DatasetElementV1);
          ("DatasetQueryV1", save_integration_element_DatasetQueryV1);
          ("IntegrationActionElementV1", save_integration_element_IntegrationActionElementV1);
          ("IntegrationActionFieldV1", save_integration_element_IntegrationActionFieldV1);
          ("IntegrationActionFormV1", save_integration_element_IntegrationActionFormV1);
          ("IntegrationElementV1", save_integration_element_IntegrationElementV1);
          ("IntegrationRefV1", save_integration_element_IntegrationRefV1)]);
       ("type", JStr "object");
       ("properties",
        JObj [
          ("recipe", JObj [("$ref", JStr "#/$defs/IntegrationElementV1")]);
          ("expectedRevision",
           JObj [("type", JStr "integer"); ("minimum", JInt 1); ("maximum", JInt 9007199254740991)]);
          ("confirmation_id", JObj [("type", JStr "string"); ("pattern", JStr "^[0-9a-f]{16}(?![\s\S])")])]);
       ("required", JArr [JStr "recipe"]); ("additionalProperties", JBool false)])].

Definition read_integration_data_IntegrationRefV1 : json :=
  JObj [
    ("type", JStr "object");
    ("properties",
     JObj [
       ("id",
        JObj [
          ("type", JStr "string"); ("minLength", JInt 1); ("maxLength", JInt 128);
          ("pattern", JStr "^[a-z0-9]+(?:[-_][a-z0-9]+)*(?![\s\S])")]);
       ("version",
        JObj [("type", JStr "integer"); ("exclusiveMinimum", JInt 0); ("maximum", JInt 9007199254740991)]);
       ("digest", JObj [("type", JStr "string"); ("pattern", JStr "^[a-f0-9]{64}(?![\s\S])")])]);
    ("required", JArr [JStr "id"; JStr "version"; JStr "digest"]); ("additionalProperties", JBool false)].

Definition read_integration_data_DatasetQueryV1 : json :=
  JObj [
    ("type", JStr "object");
    ("properties",
     JObj [
       ("fields",
        JObj [
          ("minItems", JInt 1); ("maxItems", JInt 100); ("type", JStr "array");
          ("items",
           JObj [
             ("type", JStr "string"); ("minLength", JInt 1); ("maxLength", JInt 128);
             ("pattern", JStr "^[A-Za-z_][A-Za-z0-9_]*(?![\s\S])")])]);
       ("limit", JObj [("type", JStr "integer"); ("minimum", JInt 1); ("maximum", JInt 1000)]);
       ("cursor", JObj [("type", JStr "string"); ("maxLength", JInt 2048)]);
       ("filters",
        JObj [
          ("maxItems", JInt 20); ("type", JStr "array");
          ("items",
           JObj [
             ("anyOf",
              JArr [
                JObj [
                  ("type", JStr "object");
                  ("properties",
                   JObj [
                     ("field",
                      JObj [
                        ("type", JStr "string"); ("minLength", JInt 1); ("maxLength", JInt 128);
                        ("pattern", JStr "^[A-Za-z_][A-Za-z0-9_]*(?![\s\S])")]);
                     ("op",
                      JObj [
                        ("type", JStr "string");
                        ("enum", JArr [JStr "eq"; JStr "neq"; JStr "gt"; JStr "gte"; JStr "lt"; JStr "lte"])]);
                     ("value",
                      JObj [
                        ("anyOf",
                         JArr [
                           JObj [("type", JStr "string")]; JObj [("type", JStr "number")];
                           JObj [("type", JStr "boolean")]; JObj [("type", JStr "null")]])])]);
                  ("required", JArr [JStr "field"; JStr "op"; JStr "value"]); ("additionalProperties", JBool false)];
                JObj [
                  ("type", JStr "object");
                  ("properties",
                   JObj [
                     ("field",
                      JObj [
                        ("type", JStr "string"); ("minLength", JInt 1); ("maxLength", JInt 128);
                        ("pattern", JStr "^[A-Za-z_][A-Za-z0-9_]*(?![\s\S])")]);
                     ("op", JObj [("type", JStr "string"); ("const", JStr "is_null")])]);
                  ("required", JArr [JStr "field"; JStr "op"]); ("additionalProperties", JBool false)]])])]);
       ("sort",
        JObj [
          ("maxItems", JInt 4); ("type", JStr "array");
          ("items",
           JObj [
             ("type", JStr "object");
             ("properties",
              JObj [
                ("field",
                 JObj [
                   ("type", JStr "string"); ("minLength", JInt 1); ("maxLength", JInt 128);
                   ("pattern", JStr "^[A-Za-z_][A-Za-z0-9_]*(?![\s\S])")]);
                ("direction", JObj [("type", JStr "string"); ("enum", JArr [JStr "asc"; JStr "desc"])])]);
             ("required", JArr [JStr "field"; JStr "direction"]); ("additionalProperties", JBool false)])])]);
    ("required", JArr [JStr "fields"; JStr "limit"]); ("additionalProperties", JBool false)].

Definition read_integration_data : json :=
  JObj [
    ("description", JStr "Discover project datasets and native action forms or query an existing materialization.");
    ("rung", JInt 1); ("required_capability", JStr "converse"); ("policy", JStr "auto"); ("enabled", JBool true);
    ("tenant_tightenable", JBool true);
    ("dispatch",
     JObj [
       ("kind", JStr "app_api");
       ("routes",
        JArr [
          JStr "POST /internal/integrations/datasets"; JStr "POST /internal/integrations/action-catalog";
          JStr "POST /internal/integrations/query"])]);
    ("rate_limit_category", JStr "low"); ("timeout_s", JInt 10); ("audit_extra", JArr [JStr "operation"]);
    ("args_schema",
     JObj [
       ("$defs",
        JObj [
          ("IntegrationRefV1", read_integration_data_IntegrationRefV1);
          ("DatasetQueryV1", read_integration_data_DatasetQueryV1)]);
       ("oneOf",
        JArr [
          JObj [
            ("type", JStr "object");
            ("properties",
             JObj [
               ("operation", JObj [("const", JStr "action_catalog")]);
               ("limit", JObj [("type", JStr "integer"); ("minimum", JInt 1); ("maximum", JInt 50)]);
               ("after",
                JObj [
                  ("type", JStr "string"); ("minLength", JInt 1); ("maxLength", JInt 1024);
                  ("pattern", JStr "^[A-Za-z0-9_-]+(?![\s\S])")]);
               ("confirmation_id", JObj [("type", JStr "string"); ("pattern", JStr "^[0-9a-f]{16}(?![\s\S])")])]);
            ("required", JArr [JStr "operation"; JStr "limit"]); ("additionalProperties", JBool false)];
          JObj [
            ("type", JStr "object");
            ("properties",
             JObj [
               ("operation", JObj [("const", JStr "datasets")]);
               ("limit", JObj [("type", JStr "integer"); ("minimum", JInt 1); ("maximum", JInt 50)]);
               ("after",
                JObj [
                  ("type", JStr "string"); ("minLength", JInt 1); ("maxLength", JInt 1024);
                  ("pattern", JStr "^[A-Za-z0-9_-]+(?![\s\S])")]);
               ("confirmation_id", JObj [("type", JStr "string"); ("pattern", JStr "^[0-9a-f]{16}(?![\s\S])")])]);
            ("required", JArr [JStr "operation"; JStr "limit"]); ("additionalProperties", JBool false)];
          JObj [
            ("type", JStr "object");
            ("properties",
             JObj [
               ("operation", JObj [("const", JStr "query")]);
               ("dataset_ref", JObj [("$ref", JStr "#/$defs/IntegrationRefV1")]);
               ("query", JObj [("$ref", JStr "#/$defs/DatasetQueryV1")]);
               ("confirmation_id", JObj [("type", JStr "string"); ("pattern", JStr "^[0-9a-f]{16}(?![\s\S])")])]);
            ("required", JArr [JStr "operation"; JStr "dataset_ref"; JStr "query"]);
            ("additionalProperties", JBool false)]])])].

Definition request_confirmation : json :=
  JObj [
    ("description",
     JStr "UI-only consent chip: ask the user to approve something before proceeding (R0; wire contract section 5). Dispatches nowhere — the gate mints the confirmation_id and the harness renders the card, then ends the turn. always-confirm is what MAKES the id: the app's pending store is the only authority allowed to mint one (section 6), so a self-issued harness id could never be redeemed.");
    ("rung", JInt 0); ("required_capability", JStr "converse"); ("policy", JStr "always-confirm");
    ("tenant_tightenable", JBool false); ("dispatch", JObj [("kind", JStr "app_api"); ("routes", JArr [])]);
    ("args_schema",
     JObj [
       ("type", JStr "object");
       ("properties",
        JObj [
          ("kind", JObj [("type", JStr "string")]); ("payload", JObj [("type", JStr "object")]);
          ("confirmation_id", JObj [("type", JStr "string")])]);
       ("required", JArr [JStr "kind"]); ("additionalProperties", JBool false)]);
    ("rate_limit_category", JStr "low"); ("timeout_s", JInt 30); ("audit_extra", JArr [JStr "kind"])].

Definition read_platform_state : json :=
  JObj [
    ("description",
     JStr "Read platform state: catalog, usage, jobs, versions, own audit (R1). Also the consult surface for the R7 READ side (change list, source file, source tree) - read-only GETs whose routes re-run the full admin admission chain server-side, so this auto policy widens reachability, never authority.");
    ("rung", JInt 1); ("required_capability", JStr "converse"); ("policy", JStr "auto");
    ("dispatch",
     JObj [
       ("kind", JStr "app_api");
       ("routes",
        JArr [
          JStr "GET /api/capabilities"; JStr "GET /api/usage"; JStr "GET /api/jobs"; JStr "GET /api/drawings/*";
          JStr "GET /api/agent/audit"; JStr "GET /api/platform/customize"; JStr "GET /api/platform/source";
          JStr "GET /api/platform/source/tree"; JStr "POST /api/campaigns/conversation/status"])]);
    ("args_schema",
     JObj [
       ("type", JStr "object"); ("properties", JObj [("what", JObj [("type", JStr "string")])]);
       ("additionalProperties", JBool false)]);
    ("rate_limit_category", JStr "low"); ("timeout_s", JInt 30); ("audit_extra", JArr [JStr "what"])].

Definition run_read_tool : json :=
  JObj [
    ("description", JStr "Dispatch a registered drawing.read tool via POST /api/run (R2)."); ("rung", JInt 2);
    ("required_capability", JStr "run_read"); ("policy", JStr "auto");
    ("dispatch", JObj [("kind", JStr "app_api"); ("routes", JArr [JStr "POST /api/run"])]);
    ("args_schema", _RUN_TOOL_SCHEMA); ("rate_limit_category", JStr "medium"); ("timeout_s", JInt 60);
    ("audit_extra", JArr [JStr "tool"; JStr "dwg"])].

Definition run_write_tool : json :=
  JObj [
    ("description",
     JStr "Dispatch a registered drawing.write tool via POST /api/run (R3; creates vN+1, undoable). Every execution requires a fresh approval.");
    ("rung", JInt 3); ("required_capability", JStr "run_write"); ("policy", JStr "always-confirm");
    ("tenant_tightenable", JBool false);
    ("dispatch", JObj [("kind", JStr "app_api"); ("routes", JArr [JStr "POST /api/run"])]);
    ("args_schema", _RUN_TOOL_SCHEMA); ("rate_limit_category", JStr "medium"); ("timeout_s", JInt 120);
    ("audit_extra", JArr [JStr "tool"; JStr "dwg"]); ("cost_class", JStr "write")].

Definition run_solve_tool : json :=
  JObj [
    ("description",
     JStr "Request a Leaf cloud Solar proposal for the selected project. Every solve requires a fresh approval; it does not change the drawing.");
    ("rung", JInt 4); ("required_capability", JStr "solve"); ("policy", JStr "always-confirm");
    ("tenant_tightenable", JBool false);
    ("dispatch", JObj [("kind", JStr "app_api"); ("routes", JArr [JStr "POST /api/run"])]);
    ("args_schema", _SOLVE_TOOL_SCHEMA); ("rate_limit_category", JStr "high"); ("timeout_s", JInt 600);
    ("audit_extra", JArr [JStr "tool"; JStr "dwg"]); ("cost_class", JStr "leaf_cloud_solve")].

Definition submit_live_solve : json :=
  JObj [
    ("description",
     JStr "Dispatch a live APS run (real USD; R4). Broker USD-cap preflight still fires underneath.");
    ("rung", JInt 4); ("required_capability", JStr "run_write"); ("policy", JStr "confirm-once");
    ("dispatch", JObj [("kind", JStr "app_api"); ("routes", JArr [JStr "POST /api/run"])]);
    ("args_schema", _RUN_TOOL_SCHEMA); ("rate_limit_category", JStr "high"); ("timeout_s", JInt 600);
    ("audit_extra", JArr [JStr "tool"; JStr "dwg"]); ("cost_class", JStr "aps_usd")].

Definition undo_drawing_version : json :=
  JObj [
    ("description",
     JStr "Undo: repoint the drawing head to a prior version (R3 safety valve — never harder than the write). DISABLED in Phase-1: no spine tool dispatches it and the wire contract §0 back-edge allowlist carries only GET /api/drawings/*, so POST /api/drawings/{dwg}/undo is unreachable from the harness and would 401. The user-facing undo is unaffected (the UI calls that route directly with a tenant token). Enabling this needs a contract revision adding the route to §0 plus a spine mapping — Phase-2.");
    ("rung", JInt 3); ("required_capability", JStr "run_write"); ("policy", JStr "auto"); ("enabled", JBool false);
    ("dispatch", JObj [("kind", JStr "app_api"); ("routes", JArr [])]);
    ("args_schema",
     JObj [
       ("type", JStr "object");
       ("properties",
        JObj [("dwg", JObj [("type", JStr "string")]); ("to_version", JObj [("type", JStr "integer")])]);
       ("additionalProperties", JBool false)]);
    ("rate_limit_category", JStr "medium"); ("timeout_s", JInt 30);
    ("audit_extra", JArr [JStr "dwg"; JStr "to_version"])].

Definition author_tool : json :=
  JObj [
    ("description",
     JStr "Author a new tool, or revise one explicitly named authored tool, in the design-time sandbox (R5; nothing registered until R6).");
    ("rung", JInt 5); ("required_capability", JStr "build"); ("policy", JStr "confirm-once");
    ("dispatch", JObj [("kind", JStr "harness"); ("routes", JArr [JStr "POST /author"])]);
    ("args_schema",
     JObj [
       ("type", JStr "object");
       ("properties",
        JObj [
          ("description", JObj [("type", JStr "string")]);
          ("mode", JObj [("type", JStr "string"); ("enum", JArr [JStr "build"; JStr "one_off"])]);
          ("target_tool_name", JObj [("type", JStr "string")]); ("confirmation_id", JObj [("type", JStr "string")])]);
       ("required", JArr [JStr "description"]); ("additionalProperties", JBool false)]);
    ("rate_limit_category", JStr "high"); ("timeout_s", JInt 600); ("audit_extra", JArr [])].

Definition request_publication : json :=
  JObj [
    ("description",
     JStr "Request or resume publication of one durable staged change. The request carries only change_set_id; the app loads all receipt fields and applies the current account publication policy before publication.");
    ("rung", JInt 6); ("required_capability", JStr "deploy"); ("policy", JStr "auto");
    ("tenant_tightenable", JBool false);
    ("dispatch", JObj [("kind", JStr "app_api"); ("routes", JArr [JStr "POST /api/author/publication-requests"])]);
    ("args_schema",
     JObj [
       ("type", JStr "object"); ("properties", JObj [("change_set_id", JObj [("type", JStr "string")])]);
       ("required", JArr [JStr "change_set_id"]); ("additionalProperties", JBool false)]);
    ("rate_limit_category", JStr "high"); ("timeout_s", JInt 120); ("audit_extra", JArr [JStr "change_set_id"])].

Definition register_tool : json :=
  JObj [
    ("description",
     JStr "Register/deploy an authored tool into the runnable catalog (R6; highest-leverage injection target).");
    ("rung", JInt 6); ("required_capability", JStr "deploy"); ("policy", JStr "always-confirm");
    ("tenant_tightenable", JBool false);
    ("dispatch", JObj [("kind", JStr "app_api"); ("routes", JArr [JStr "POST /api/author/register"])]);
    ("args_schema",
     JObj [
       ("type", JStr "object");
       ("properties",
        JObj [
          ("change_set_id", JObj [("type", JStr "string")]); ("staged_commit", JObj [("type", JStr "string")]);
          ("catalog_digest", JObj [("type", JStr "string")]); ("platform_release", JObj [("type", JStr "string")]);
          ("workspace_contract_digest", JObj [("type", JStr "string")]);
          ("confirmation_id", JObj [("type", JStr "string")]); ("idempotency_key", JObj [("type", JStr "string")])]);
       ("required",
        JArr [
          JStr "change_set_id"; JStr "staged_commit"; JStr "catalog_digest"; JStr "platform_release";
          JStr "workspace_contract_digest"; JStr "idempotency_key"]);
       ("additionalProperties", JBool false)]);
    ("rate_limit_category", JStr "high"); ("timeout_s", JInt 120);
    ("audit_extra", JArr [JStr "change_set_id"; JStr "catalog_digest"])].

Definition customize_platform : json :=
  JObj [
    ("description",
     JStr "Platform self-edit (R7, W14 admin lane): propose a BRANCH-ONLY change to the platform repo itself, then land it into the standing branch->PR->review->merge->staging-canary->prod pipeline. Reachable only by the operator-granted `admin` tier (the sole platform_customize grant), only when LEAF_CUSTOMIZATION_R7_MODE=internal lists the tenant, and every invocation takes a fresh approval. Fundamental paths (auth, billing, agent spine) additionally require the out-of-band co-sign secret before landing (docs/ADMIN-SELF-EDIT-LANE.md).");
    ("rung", JInt 7); ("required_capability", JStr "platform_customize"); ("policy", JStr "always-confirm");
    ("tenant_tightenable", JBool false);
    ("dispatch",
     JObj [
       ("kind", JStr "app_api");
       ("routes",
        JArr [
          JStr "POST /api/platform/customize"; JStr "GET /api/platform/customize/*";
          JStr "POST /api/platform/customize/*/land"])]);
    ("args_schema",
     JObj [
       ("type", JStr "object");
       ("properties",
        JObj [
          ("op", JObj [("type", JStr "string"); ("enum", JArr [JStr "propose"; JStr "land"])]);
          ("title", JObj [("type", JStr "string")]);
          ("edits",
           JObj [
             ("type", JStr "array");
             ("items",
              JObj [
                ("type", JStr "object");
                ("properties",
                 JObj [
                   ("path", JObj [("type", JStr "string")]); ("content", JObj [("type", JStr "string")]);
                   ("delete", JObj [("type", JStr "boolean")])]);
                ("required", JArr [JStr "path"]); ("additionalProperties", JBool false)])]);
          ("change_id", JObj [("type", JStr "string")]); ("commit_sha", JObj [("type", JStr "string")]);
          ("confirmation_id", JObj [("type", JStr "string")])]);
       ("required", JArr [JStr "op"]); ("additionalProperties", JBool false)]);
    ("rate_limit_category", JStr "high"); ("timeout_s", JInt 600);
    ("audit_extra", JArr [JStr "title"; JStr "change_id"])].

Definition inspect_project_photo : json :=
  JObj [
    ("description",
     JStr "Read catalog metadata and JPEG previews for the authenticated active project turn. No edits, saves or publication.");
    ("rung", JInt 0); ("required_capability", JStr "converse"); ("policy", JStr "auto");
    ("tenant_tightenable", JBool true);
    ("dispatch",
     JObj [("kind", JStr "app_api"); ("routes", JArr [JStr "POST /api/sessions/{session_id}/materials/inspect"])]);
    ("args_schema",
     JObj [
       ("type", JStr "object"); ("additionalProperties", JBool false);
       ("properties",
        JObj [
          ("op", JObj [("enum", JArr [JStr "catalog"; JStr "preview"])]);
          ("cursor",
           JObj [
             ("type", JStr "string");
             ("pattern",
              JStr "^(?!00000000-0000-0000-0000-000000000000$)[0-9a-f]{8}-[0-9a-f]{4}-[0-9a-f]{4}-[0-9a-f]{4}-[0-9a-f]{12}$")]);
          ("material_id",
           JObj [
             ("type", JStr "string");
             ("pattern",
              JStr "^(?!00000000-0000-0000-0000-000000000000$)[0-9a-f]{8}-[0-9a-f]{4}-[0-9a-f]{4}-[0-9a-f]{4}-[0-9a-f]{12}$")]);
          ("expected_revision", JObj [("type", JStr "integer"); ("minimum", JInt 0); ("maximum", JInt 2147483647)]);
          ("expected_digest",
           JObj [
             ("anyOf",
              JArr [
                JObj [("type", JStr "null")]; JObj [("type", JStr "string"); ("pattern", JStr "^[0-9a-f]{64}$")]])]);
          ("expected_preview_sha256", JObj [("type", JStr "string"); ("pattern", JStr "^[0-9a-f]{64}$")])]);
       ("required", JArr [JStr "op"]);
       ("allOf",
        JArr [
          JObj [
            ("if", JObj [("properties", JObj [("op", JObj [("const", JStr "catalog")])])]);
            ("then",
             JObj [
               ("not",
                JObj [
                  ("anyOf",
                   JArr [
                     JObj [("required", JArr [JStr "material_id"])];
                     JObj [("required", JArr [JStr "expected_preview_sha256"])]])])]);
            ("else",
             JObj [
               ("required",
                JArr [
                  JStr "material_id"; JStr "expected_preview_sha256"; JStr "expected_revision";
                  JStr "expected_digest"]);
               ("not", JObj [("required", JArr [JStr "cursor"])])])];
          JObj [
            ("if", JObj [("required", JArr [JStr "cursor"])]);
            ("then", JObj [("required", JArr [JStr "expected_revision"; JStr "expected_digest"])])];
          JObj [
            ("if",
             JObj [
               ("anyOf",
                JArr [
                  JObj [("required", JArr [JStr "expected_revision"])];
                  JObj [("required", JArr [JStr "expected_digest"])]])]);
            ("then",
             JObj [
               ("required", JArr [JStr "expected_revision"; JStr "expected_digest"]);
               ("if", JObj [("properties", JObj [("expected_revision", JObj [("const", JInt 0)])])]);
               ("then", JObj [("properties", JObj [("expected_digest", JObj [("type", JStr "null")])])]);
               ("else", JObj [("properties", JObj [("expected_digest", JObj [("type", JStr "string")])])])])]])]);
    ("rate_limit_category", JStr "low"); ("timeout_s", JInt 45); ("audit_extra", JArr [])].

Definition propose_project_page : json :=
  JObj [
    ("description",
     JStr "Propose saved portfolio text for private review in the active project conversation. Does not save or publish.");
    ("rung", JInt 2); ("required_capability", JStr "converse"); ("policy", JStr "auto");
    ("tenant_tightenable", JBool true);
    ("dispatch",
     JObj [("kind", JStr "app_api"); ("routes", JArr [JStr "POST /api/sessions/{session_id}/page/proposals"])]);
    ("args_schema",
     JObj [
       ("type", JStr "object");
       ("properties",
        JObj [
          ("instruction", JObj [("type", JStr "string"); ("minLength", JInt 1); ("maxLength", JInt 4000)]);
          ("expected_revision",
           JObj [("type", JStr "integer"); ("minimum", JInt 1); ("maximum", JInt 9007199254740991)]);
          ("expected_digest", JObj [("type", JStr "string"); ("pattern", JStr "^[0-9a-f]{64}$")])]);
       ("required", JArr [JStr "instruction"; JStr "expected_revision"; JStr "expected_digest"]);
       ("additionalProperties", JBool false)]);
    ("rate_limit_category", JStr "medium"); ("timeout_s", JInt 60); ("audit_extra", JArr [])].

Definition propose_project_photo_assignments : json :=
  JObj [
    ("description",
     JStr "Propose photo assignments for private review in the active project conversation. Does not save or publish; source, role and text validation remain with the producer.");
    ("rung", JInt 2); ("required_capability", JStr "converse"); ("policy", JStr "auto");
    ("tenant_tightenable", JBool true);
    ("dispatch",
     JObj [
       ("kind", JStr "app_api");
       ("routes", JArr [JStr "POST /api/sessions/{session_id}/page/photo-assignment-proposals"])]);
    ("args_schema",
     JObj [
       ("type", JStr "object"); ("additionalProperties", JBool false);
       ("properties",
        JObj [
          ("expected_revision", JObj [("type", JStr "integer"); ("minimum", JInt 1); ("maximum", JInt 2147483647)]);
          ("expected_digest", JObj [("type", JStr "string"); ("pattern", JStr "^[0-9a-f]{64}(?![\s\S])")]);
          ("operations",
           JObj [
             ("type", JStr "array"); ("minItems", JInt 1); ("maxItems", JInt 200);
             ("items",
              JObj [
                ("type", JStr "object"); ("additionalProperties", JBool false);
                ("properties",
                 JObj [
                   ("op", JObj [("const", JStr "assign")]);
                   ("material_id",
                    JObj [
                      ("type", JStr "string");
                      ("pattern",
                       JStr "^(?!00000000-0000-0000-0000-000000000000(?![\s\S]))[0-9a-f]{8}-[0-9a-f]{4}-[0-9a-f]{4}-[0-9a-f]{4}-[0-9a-f]{12}(?![\s\S])")]);
                   ("sha256", JObj [("type", JStr "string"); ("pattern", JStr "^[0-9a-f]{64}(?![\s\S])")]);
                   ("preview_sha256", JObj [("type", JStr "string"); ("pattern", JStr "^[0-9a-f]{64}(?![\s\S])")]);
                   ("gallery_slug",
                    JObj [("type", JStr "string"); ("pattern", JStr "^[a-z][a-z0-9-]{0,47}(?![\s\S])")]);
                   ("title", JObj [("type", JStr "string"); ("minLength", JInt 0); ("maxLength", JInt 200)]);
                   ("alt", JObj [("type", JStr "string"); ("minLength", JInt 1); ("maxLength", JInt 400)])]);
                ("required",
                 JArr [
                   JStr "op"; JStr "material_id"; JStr "sha256"; JStr "preview_sha256"; JStr "gallery_slug";
                   JStr "title"; JStr "alt"])])])]);
       ("required", JArr [JStr "expected_revision"; JStr "expected_digest"; JStr "operations"])]);
    ("rate_limit_category", JStr "medium"); ("timeout_s", JInt 60); ("audit_extra", JArr [])].

Definition propose_overlay : json :=
  JObj [
    ("description",
     JStr "T1 runtime overlay: open a PENDING colour/copy preview for THIS session (server/overlay_propose.py). Writes one session-scoped row, changes nothing another user can see, and expires by lease. Deliberately `auto`: the proposal is the cheap half, and the irreversible half is the operator tap that applies it to the tenant, which carries its own CAS witness and audit row. Requiring a confirmation here would buy nothing and cost the immediacy the tier exists for.");
    ("rung", JInt 2); ("required_capability", JStr "converse"); ("policy", JStr "auto");
    ("tenant_tightenable", JBool true);
    ("dispatch", JObj [("kind", JStr "app_api"); ("routes", JArr [JStr "POST /api/overlay/proposals"])]);
    ("args_schema",
     JObj [
       ("type", JStr "object");
       ("properties",
        JObj [
          ("tokens",
           JObj [
             ("type", JStr "object");
             ("description",
              JStr ("token id -> requested value, e.g. {" +:+ quote_text +:+ "color.canvas.bg" +:+ quote_text +:+ ": " +:+ quote_text +:+ "#ffffff" +:+ quote_text +:+ "}. Validated against the closed registry; unknown ids are refused."));
             ("additionalProperties", JObj [("type", JStr "string")])]);
          ("request_text",
           JObj [
             ("type", JStr "string"); ("description", JStr "the user's own words, echoed on the operator card")])]);
       ("required", JArr [JStr "tokens"]); ("additionalProperties", JBool false)]);
    ("rate_limit_category", JStr "medium"); ("timeout_s", JInt 20); ("audit_extra", JArr [JStr "request_text"])].

Definition finish_project : json :=
  JObj [
    ("description",
     JStr "Record a bounded release goal for THIS conversation's authenticated project through the completion engine, and drive its existing bounded engine operations. Args are declarative only (title, prompt, delivery_profile, intended_user, workflow, artifact_refs); the model can never supply org, project, grants, commands, source revision, authoritative checks, evidence, or completion flags, and the project is derived from the authenticated session, never from the request. Grants no new spending/provider/publication scope beyond the existing bounded release engine.");
    ("rung", JInt 2); ("required_capability", JStr "converse"); ("policy", JStr "auto");
    ("tenant_tightenable", JBool true);
    ("dispatch",
     JObj [("kind", JStr "app_api"); ("routes", JArr [JStr "POST /api/campaigns/conversation/finish"])]);
    ("args_schema",
     JObj [
       ("type", JStr "object");
       ("properties",
        JObj [
          ("title", JObj [("type", JStr "string")]); ("prompt", JObj [("type", JStr "string")]);
          ("delivery_profile", JObj [("type", JStr "string")]); ("intended_user", JObj [("type", JStr "string")]);
          ("workflow", JObj [("type", JStr "string")]);
          ("artifact_refs", JObj [("type", JStr "array"); ("items", JObj [("type", JStr "string")])])]);
       ("required",
        JArr [
          JStr "title"; JStr "prompt"; JStr "delivery_profile"; JStr "intended_user"; JStr "workflow";
          JStr "artifact_refs"]);
       ("additionalProperties", JBool false)]);
    ("rate_limit_category", JStr "medium"); ("timeout_s", JInt 30); ("audit_extra", JArr [JStr "delivery_profile"])].

(** ** The document *)

Definition _HARDCODED_DEFAULTS : list (string * json) :=
  [("version", JInt 1); ("approval_ttl_s", JInt 300); ("rate_limits", JObj [("low_per_hour", JInt 120); ("medium_per_hour", JInt 60); ("high_per_hour", JInt 10)]);
   ("actions", JObj
     [("save_integration_element", save_integration_element);
      ("read_integration_data", read_integration_data);
      ("request_confirmation", request_confirmation);
      ("read_platform_state", read_platform_state);
      ("run_read_tool", run_read_tool);
      ("run_write_tool", run_write_tool);
      ("run_solve_tool", run_solve_tool);
      ("submit_live_solve", submit_live_solve);
      ("undo_drawing_version", undo_drawing_version);
      ("author_tool", author_tool);
      ("request_publication", request_publication);
      ("register_tool", register_tool);
      ("customize_platform", customize_platform);
      ("inspect_project_photo", inspect_project_photo);
      ("propose_project_page", propose_project_page);
      ("propose_project_photo_assignments", propose_project_photo_assignments);
      ("propose_overlay", propose_overlay);
      ("finish_project", finish_project)]);
   ("tier_overrides", JObj [])].

(** ** The catalog without a file *)

(** The schemas [load_policy] asks [jsonschema] to check in the built-in document. *)
Definition default_schemas : list json :=
  omap (λ kv, dict_get (dict_of (members kv.2)) "args_schema") (members (get _HARDCODED_DEFAULTS "actions")).

Definition accepts_defaults (js : option jsonschema) : Prop :=
  ∀ j, js = Some j → Forall (λ s, check_schema j s = true) default_schemas.

Lemma parse_action_js j name record :
  (∀ s, dict_get (dict_of (members record)) "args_schema" = Some s → check_schema j s = true) →
  _parse_action (Some j) name record = _parse_action None name record.
Proof.
  intros Hs. destruct record as [| | | | |kvs]; try done. unfold _parse_action. simpl.
  assert (parse_args_schema (Some j) (dict_get (dict_of kvs) "args_schema") =
          parse_args_schema None (dict_get (dict_of kvs) "args_schema")) as ->; [|done].
  simpl in Hs. destruct (dict_get (dict_of kvs) "args_schema") as [[]|]; try done. simpl. by rewrite Hs.
Qed.

Lemma parse_actions_js j d :
  Forall (λ s, check_schema j s = true) (omap (λ kv, dict_get (dict_of (members kv.2)) "args_schema") d) →
  parse_actions (Some j) d = parse_actions None d.
Proof.
  unfold parse_actions. induction d as [|[k v] d IH]; [done|]. simpl. intros H.
  rewrite parse_action_js.
  - rewrite IH; [done|]. destruct (dict_get _ _); [by inversion H|done].
  - intros s Hs. rewrite Hs in H. by inversion H.
Qed.

Lemma parse_js js raw :
  (∀ d, mapping (get raw "actions") = Ok d → parse_actions js d = parse_actions None d) →
  _parse js raw = _parse None raw.
Proof.
  intros H. unfold _parse. do 3 (apply result_bind_ext; intros ? _). apply result_bind_ext. intros d Hd.
  apply result_bind_ext. intros ? _. by rewrite H.
Qed.

Lemma default_actions : mapping (get _HARDCODED_DEFAULTS "actions") = Ok (members (get _HARDCODED_DEFAULTS "actions")).
Proof. vm_compute. reflexivity. Qed.

Definition default_policy : agent_policy :=
  match load_policy None _HARDCODED_DEFAULTS Absent with Ok p => p | Err _ => AgentPolicy ∅ ∅ 0 ∅ end.

Lemma default_policy_loads : load_policy None _HARDCODED_DEFAULTS Absent = Ok default_policy.
Proof. vm_compute. reflexivity. Qed.

Lemma default_policy_any js : accepts_defaults js → load_policy js _HARDCODED_DEFAULTS Absent = Ok default_policy.
Proof.
  intros H. rewrite <- default_policy_loads. destruct js as [j|]; [|done]. apply parse_js. intros d Hd.
  rewrite default_actions in Hd. apply parse_actions_js. assert (d = members (get _HARDCODED_DEFAULTS "actions")) as ->
    by congruence. exact (H j eq_refl).
Qed.

(** The actions a missing file must not make easier. *)
Definition pinned_confirmations : list string :=
  ["request_confirmation"; "run_write_tool"; "run_solve_tool"; "register_tool"; "customize_platform"].

Lemma pinned_bases n : n ∈ pinned_confirmations →
  ∃ base, ap_actions default_policy !! n = Some base ∧ aa_policy base = "always-confirm"%string ∧
          aa_tenant_tightenable base = false.
Proof.
  intros H. repeat (apply elem_of_cons in H as [->|H]; [eexists; split_and!; vm_compute; reflexivity|]).
  by apply elem_of_nil in H.
Qed.

(** Deleting the catalog file never weakens the gate: the built-in document
    loads, wherever [jsonschema] accepts its schemas or is not installed, and under
    it, at every tier and for every tenant overlay, the write, solve, registration,
    customization and consent actions still ask for a fresh confirmation each time,
    and the disabled undo action stays disabled. *)
Theorem missing_catalog_keeps_guardrail js : accepts_defaults js →
  ∃ pol, load_policy js _HARDCODED_DEFAULTS Absent = Ok pol ∧
    (∀ n tier overlay a, n ∈ pinned_confirmations → effective_action pol n tier overlay = Ok (Some a) →
       aa_policy a = "always-confirm"%string) ∧
    (∀ tier overlay a, effective_action pol "undo_drawing_version" tier overlay = Ok (Some a) → aa_enabled a = false).
Proof.
  intros Hjs. exists default_policy. pose proof (default_policy_any _ Hjs) as Hload.
  pose proof (load_policy_ok _ _ _ _ Hload) as Hok. split_and!; [done| |].
  - intros n tier ov a Hn Ha. destruct (pinned_bases n Hn) as (base & Hb & Hp & Ht).
    destruct (effective_action_ok _ _ _ _ _ _ Hok Hb Ha) as (_ & Hv & _ & Ho). specialize (Ho Ht). rewrite Hp in Ho.
    by apply strictest_policy.
  - intros tier ov a Ha.
    destruct (ap_actions default_policy !! "undo_drawing_version"%string) as [base|] eqn:Hb;
      [|by vm_compute in Hb].
    destruct (effective_action_ok _ _ _ _ _ _ Hok Hb Ha) as (_ & _ & He & _).
    destruct (aa_enabled a); [|done]. specialize (He eq_refl). vm_compute in Hb. injection Hb as <-. done.
Qed.

Lemma missing_catalog_keeps_guardrail_witness :
  ∃ pol, load_policy None _HARDCODED_DEFAULTS Absent = Ok pol ∧
    ∀ tier overlay a, effective_action pol "register_tool" tier overlay = Ok (Some a) → aa_policy a = "always-confirm"%string.
Proof.
  assert (H : accepts_defaults None) by (intros j; discriminate).
  destruct (missing_catalog_keeps_guardrail None H) as (pol & Hl & Hp & _). exists pol. split; [exact Hl|].
  intros tier overlay a. apply Hp. right. right. right. left.
Defined.
