(* ===== verification/AgentCalls.v ===== *)
(** * Binding an agent call

    What both authorities of [server/agent_gate.py] share: the canonical hash an
    approval is bound to, the key of a session grant, the text of a rate answer, and
    the time stamps of approval documents. *)

From Stdlib Require Import Ascii.
From stdpp Require Import sorting.
From S2P Require Import Prelude PyText Json IsoTime.
Local Open Scope Z_scope.

(** What the module asks of the platform: the hex SHA-256 of a text, Python's [str]
    of an array or an object, and the draws of [secrets.token_hex(8)], of which a run
    makes at most [token_supply]: distinctness of random draws can only be asked of
    boundedly many. *)
Class Runtime := {
  sha256_hex : string → string; repr : json → string; token_hex : nat → string; token_supply : nat }.

(** ** Binding a call *)

Section calls.
Context `{Runtime}.

Definition py_str (v : json) : string :=
  match v with
  | JStr s => s
  | JInt z => of_chars (print_Z z)
  | JBool b => if b then "True" else "False"
  | JNull => "None"
  | _ => repr v
  end.

Definition key_le (a b : string * json) : Prop := String.le a.1 b.1.
#[export] Instance key_le_dec : RelDecision key_le.
Proof. intros a b. unfold key_le. apply _. Defined.

(** [sort_keys=True] *)
Fixpoint sort_keys (v : json) : json :=
  match v with
  | JArr l => JArr (map sort_keys l)
  | JObj kvs => JObj (merge_sort key_le (map (λ kv, (kv.1, sort_keys kv.2)) kvs))
  | _ => v
  end.

Definition stripped_args (args : list (string * json)) : list (string * json) :=
  List.filter (λ kv, negb (bool_decide (kv.1 = "confirmation_id"%string))) args.

Definition canonical_text (args : list (string * json)) : string := dumps (sort_keys (JObj (stripped_args args))).
Definition canonical_args_hash (args : list (string * json)) : string := "sha256:" +:+ sha256_hex (canonical_text args).

Definition grant_target (args : list (string * json)) (subject : option string) : list string :=
  match dict_get args "tool" with Some v => ["tool"; py_str v] | None => ["none"] end ++
  match subject with
  | Some u => if bool_decide (u = ""%string) then [] else ["subject"; u]
  | None => []
  end.
End calls.

Definition _grant_key (tenant session action : string) (target : list string) : string :=
  dumps (JArr [JStr tenant; JStr session; JStr action; JArr (JStr <$> target)]).

(** ** ISO time stamps *)

(** [isoformat(timespec="seconds")] with ["Z"] for the offset *)
Definition _iso (t : Z) : string := of_chars (take 19 (isoformat_chars (t / US_PER_S * US_PER_S)) ++ ["Z"%char]).

(** ["Z"] back to the offset, then [fromisoformat] *)
Definition _parse_iso (s : string) : option Z :=
  fromisoformat (of_chars (chars s ≫= λ c, if bool_decide (c = "Z"%char) then chars "+00:00" else [c])).

(** ** Rate answers *)

Definition rate_reason (kind category : string) (value limit : Z) : string :=
  kind +:+ ": " +:+ category +:+ " (" +:+ of_chars (print_Z value) +:+ "/" +:+ of_chars (print_Z limit) +:+ ")".
