(* ===== verification/AgentStore.v ===== *)
(** * The agent gate's PostgreSQL authority

    [server/agent_pg_store.py] over the tables of [0013_agent_state.sql], and the
    counter of [platform/counters.py]: approvals that are decided once and redeemed
    once, confirm-once session grants, hourly rate counters, and the audit events
    every decision writes in its own transaction.

    Every operation is one serializable transaction; [now] is its NOW() in
    microseconds.  [who] numbers the request that runs it: the field [db_redeemed]
    is a history of the redemptions and of the row each one read, which no operation
    reads.  An audit event keeps
    the fields the code looks at; [Jsonb] documents and [granted_at] are left out. *)

From Stdlib Require Import Ascii.
From S2P Require Import Prelude PyText Json IsoTime Concurrent AgentCalls.
Local Open Scope Z_scope.

(** ** Rows *)

Record approval := Approval {
  av_tenant : string; av_session : string; av_turn : string; av_action : string; av_args_hash : string;
  av_policy : string; av_rung : Z; av_created : Z; av_expires : Z; av_granted : bool; av_denied : bool;
  av_decided_at : option Z; av_decided_by : option string; av_reason : option string; av_consumed : option Z }.

Record event := Event {
  ev_kind : string; ev_tenant : string; ev_session : option string; ev_action : option string;
  ev_reason : option string; ev_confirmation : option string }.

Record adb := Adb {
  db_approvals : gmap string approval; db_grants : gset (string * string * string * string);
  db_counters : gmap (string * string) Z; db_audit : list event; db_redeemed : list (string * (nat * approval)) }.

Inductive agent_error := UniqueViolation | ValueError.

#[export] Instance approval_eq_dec : EqDecision approval.
Proof. solve_decision. Defined.
#[export] Instance event_eq_dec : EqDecision event.
Proof. solve_decision. Defined.
#[export] Instance agent_error_eq_dec : EqDecision agent_error.
Proof. solve_decision. Defined.

Abbreviation ax := (io adb agent_error).

Definition set_approvals (m : gmap string approval) (s : adb) : adb :=
  Adb m (db_grants s) (db_counters s) (db_audit s) (db_redeemed s).
Definition set_grants (g : gset (string * string * string * string)) (s : adb) : adb :=
  Adb (db_approvals s) g (db_counters s) (db_audit s) (db_redeemed s).
Definition set_counters (c : gmap (string * string) Z) (s : adb) : adb :=
  Adb (db_approvals s) (db_grants s) c (db_audit s) (db_redeemed s).
Definition note_redeemed (cid : string) (who : nat) (a : approval) (s : adb) : adb :=
  Adb (db_approvals s) (db_grants s) (db_counters s) (db_audit s) ((cid, (who, a)) :: db_redeemed s).

Definition write {A} (f : adb → adb) (a : A) : ax A := λ s, (Ok a, f s).

(** [_append_audit_in_transaction] *)
Definition append_audit (e : event) : ax unit :=
  write (λ s, Adb (db_approvals s) (db_grants s) (db_counters s) (db_audit s ++ [e]) (db_redeemed s)) tt.

Definition find_approval (cid : string) : ax (option approval) := λ s, (Ok (db_approvals s !! cid), s).
Definition put_approval (cid : string) (a : approval) : ax unit :=
  write (λ s, set_approvals (<[cid := a]> (db_approvals s)) s) tt.

(** INSERT INTO agent_approvals: the primary key *)
Definition _insert_pending_in_transaction (cid : string) (a : approval) : ax unit :=
  o ← find_approval cid;
  match o with
  | Some _ => raise UniqueViolation
  | None => put_approval cid (Approval (av_tenant a) (av_session a) (av_turn a) (av_action a) (av_args_hash a)
              (av_policy a) (av_rung a) (av_created a) (av_expires a) false false None None None None)
  end.

Definition create_pending (cid : string) (a : approval) : ax approval :=
  atomically (
    _insert_pending_in_transaction cid a;;
    append_audit (Event "approval_created" (av_tenant a) (Some (av_session a)) (Some (av_action a)) None (Some cid));;
    mret a).

(** ** Deciding *)

Definition is_expired (a : approval) (now : Z) : bool := av_expires a <=? now.

(** UPDATE agent_approvals SET granted, denied, decided_at, decided_by, reason *)
Definition decided (a : approval) (granted : bool) (now : Z) (by_ reason : string) : approval :=
  Approval (av_tenant a) (av_session a) (av_turn a) (av_action a) (av_args_hash a) (av_policy a) (av_rung a)
    (av_created a) (av_expires a) granted (negb granted) (Some now) (Some by_) (Some reason) (av_consumed a).

Definition decide_approval (cid : string) (granted : bool) (by_ reason : string) (now : Z)
  : ax (bool * option approval * string) :=
  atomically (
    o ← find_approval cid;
    match o with
    | None => mret (false, None, "not_found"%string)
    | Some a =>
        if av_granted a || av_denied a then mret (false, Some a, "already_decided"%string) else
        let expired := is_expired a now in
        let final_granted := granted && negb expired in
        let final_reason := if expired then "expired"%string else reason in
        let a' := decided a final_granted now by_ final_reason in
        let status := (if expired then "expired" else if granted then "granted" else "denied")%string in
        put_approval cid a';;
        append_audit (Event (if final_granted then "approval_granted" else "approval_denied")
          (av_tenant a) (Some (av_session a)) (Some (av_action a))
          (if final_granted then None else Some final_reason) (Some cid));;
        mret (negb expired, Some a', status)
    end).

(** ** Rate counters *)

(** [TO_CHAR(CURRENT_TIMESTAMP AT TIME ZONE 'UTC', 'YYYYMMDDHH')] *)
Definition hour_bucket (now : Z) : string :=
  let '(y, m, d) := civil_from_days (now / US_PER_DAY) in
  of_chars (zero_pad 4 y ++ zero_pad 2 m ++ zero_pad 2 d ++ zero_pad 2 (now mod US_PER_DAY / US_PER_S / 3600)).

Definition rate_namespace (category : string) : string := "agent_rate:" +:+ category.
Definition rate_key (tenant : string) (now : Z) : string := tenant +:+ ":" +:+ hour_bucket now.

(** [SharedCounterStore.consume_in_transaction] with the amount 1 and a limit: the
    INSERT ... ON CONFLICT DO UPDATE, and the SELECT after a refusal. *)
Definition consume_counter (ns key : string) (limit : Z) : ax (bool * Z) :=
  λ s, if bool_decide (strip ns = ""%string) || bool_decide (strip key = ""%string) || (limit <? 0) then (Err ValueError, s) else
       let value := default 0 (db_counters s !! (ns, key)) in
       let inserts := bool_decide (db_counters s !! (ns, key) = None) && (1 <=? limit) in
       let updates := bool_decide (is_Some (db_counters s !! (ns, key))) && (1 <=? limit) && (value + 1 <=? limit) in
       if inserts || updates
       then (Ok (true, value + 1), set_counters (<[(ns, key) := value + 1]> (db_counters s)) s)
       else (Ok (false, value), s).

Definition _consume_rate_in_transaction (tenant category : string) (limit now : Z) : ax (bool * Z) :=
  consume_counter (rate_namespace category) (rate_key tenant now) limit.

Definition with_reason (e : event) (reason : string) : event :=
  Event (ev_kind e) (ev_tenant e) (ev_session e) (ev_action e) (Some reason) (ev_confirmation e).

Definition consume_rate_and_audit (tenant category : string) (limit : Z) (accepted_event rejected_event : event)
    (now : Z) : ax (bool * string) :=
  atomically (
    r ← _consume_rate_in_transaction tenant category limit now;
    let '(accepted, value) := (r : bool * Z) in
    let reason := rate_reason (if accepted then "rate_limit_ok" else "rate_limit_exceeded") category value limit in
    append_audit (if accepted then accepted_event else with_reason rejected_event reason);;
    mret (accepted, reason)).

Definition consume_rate (tenant category : string) (limit now : Z) : ax (bool * string) :=
  consume_rate_and_audit tenant category limit
    (Event "rate_consumed" tenant None None None None) (Event "rate_rejected" tenant None None None None) now.

Definition create_pending_with_rate (cid : string) (a : approval) (category : string) (limit : Z)
    (accepted_event rejected_event : event) (now : Z) : ax (bool * option approval * string) :=
  atomically (
    r ← _consume_rate_in_transaction (av_tenant a) category limit now;
    let '(accepted, value) := (r : bool * Z) in
    let reason := rate_reason (if accepted then "rate_limit_ok" else "rate_limit_exceeded") category value limit in
    if negb accepted then
      append_audit (with_reason rejected_event reason);; mret (false, None, reason)
    else
      _insert_pending_in_transaction cid a;; append_audit accepted_event;; mret (true, Some a, reason)).

(** [split_part(counter_key, ':', 1)] *)
Fixpoint before_colon (l : list ascii) : list ascii :=
  match l with [] => [] | c :: l' => if bool_decide (c = ":"%char) then [] else c :: before_colon l' end.

Definition reset_tenant_rate (tenant by_ : string) : ax Z :=
  atomically (λ s,
    let doomed (k : string * string) :=
      startswith "agent_rate:" k.1 && bool_decide (of_chars (before_colon (chars k.2)) = tenant) in
    let kept := filter (λ kv : string * string * Z, doomed kv.1 = false) (db_counters s) in
    (append_audit (Event "rate_reset" tenant None None (Some by_) None);;
     mret (Z.of_nat (size (db_counters s)) - Z.of_nat (size kept))) (set_counters kept s)).

(** ** Session grants *)

Definition has_session_grant (tenant session action target : string) : ax bool :=
  λ s, (Ok (bool_decide ((tenant, session, action, target) ∈ db_grants s)), s).

(** INSERT ... ON CONFLICT DO UPDATE SET granted_at *)
Definition insert_grant (tenant session action target : string) : ax unit :=
  write (λ s, set_grants ({[(tenant, session, action, target)]} ∪ db_grants s) s) tt.

Definition record_session_grant (tenant session action target : string) : ax unit :=
  atomically (insert_grant tenant session action target;;
    append_audit (Event "session_grant_recorded" tenant (Some session) (Some action) None None)).

(** ** Redeeming *)

Record redemption := Redemption {
  rd_cid : string; rd_tenant : string; rd_session : string; rd_action : string; rd_args_hash : string;
  rd_subject : option string; rd_match_required : bool; rd_audit : option event;
  rd_grant_target : option string; rd_rate : option (string * Z * option event);
  rd_outcome : string → option event }.

(** The approval names this very call. *)
Definition binds (a : approval) (r : redemption) : bool :=
  bool_decide (av_tenant a = rd_tenant r) && bool_decide (av_session a = rd_session r) &&
  bool_decide (av_action a = rd_action r) && bool_decide (av_args_hash a = rd_args_hash r).

Definition subject_ok (r : redemption) (decided_by : option string) : bool :=
  negb (rd_match_required r) ||
  match rd_subject r with Some u => bool_decide (decided_by = Some u) | None => false end.

Definition reject (r : redemption) (a : option approval) (reason : string) : ax (bool * option approval * string) :=
  let expired := bool_decide (reason = "approval_expired"%string) in
  let e := match rd_outcome r reason with
           | Some e => Some e
           | None => if expired then Some (Event "approval_denied" (rd_tenant r) (Some (rd_session r))
                                             (Some (rd_action r)) (Some "approval_expired"%string) (Some (rd_cid r)))
                     else None
           end in
  if bool_decide (is_Some (rd_rate r)) || expired then
    match e with
    | None => raise ValueError
    | Some e => append_audit e;; mret (false, a, reason)
    end
  else mret (false, a, reason).

(** UPDATE agent_approvals SET consumed_at = NOW() WHERE consumed_at IS NULL *)
Definition consumed (a : approval) (now : Z) : approval :=
  Approval (av_tenant a) (av_session a) (av_turn a) (av_action a) (av_args_hash a) (av_policy a) (av_rung a)
    (av_created a) (av_expires a) (av_granted a) (av_denied a) (av_decided_at a) (av_decided_by a) (av_reason a)
    (Some now).

(** The approval is granted, live and unspent: spend it. *)
Definition spend (r : redemption) (a : approval) (now : Z) (who : nat) : ax (bool * option approval * string) :=
  put_approval (rd_cid r) (consumed a now);;
  write (note_redeemed (rd_cid r) who a) tt;;
  match rd_grant_target r with
  | Some target => insert_grant (rd_tenant r) (rd_session r) (rd_action r) target
  | None => mret tt
  end;;
  append_audit (default (Event "approval_redeemed" (rd_tenant r) (Some (rd_session r)) (Some (rd_action r))
                           None (Some (rd_cid r))) (rd_audit r));;
  mret (true, Some (consumed a now), "allow_via_approval"%string).

Definition redeem_row (r : redemption) (now : Z) (who : nat) : ax (bool * option approval * string) :=
  o ← find_approval (rd_cid r);
  match o with
  | None => reject r None "approval_not_found"
  | Some a =>
      if negb (binds a r) then reject r (Some a) "args_mismatch"
      else if av_denied a then reject r (Some a) "approval_denied"
      else if negb (subject_ok r (av_decided_by a)) then reject r (Some a) "approval_subject_mismatch"
      else if is_expired a now then
        put_approval (rd_cid r) (decided a false now "system" "expired");; reject r (Some a) "approval_expired"
      else if negb (av_granted a) then reject r (Some a) "awaiting_approval"
      else if bool_decide (is_Some (av_consumed a)) then reject r (Some a) "approval_consumed"
      else spend r a now who
  end.

Definition redeem (r : redemption) (now : Z) (who : nat) : ax (bool * option approval * string) :=
  atomically (
    match rd_rate r with
    | None => redeem_row r now who
    | Some (category, limit, rejected) =>
        rate ← _consume_rate_in_transaction (rd_tenant r) category limit now;
        let '(accepted, value) := (rate : bool * Z) in
        if accepted then redeem_row r now who else
        match rejected with
        | None => raise ValueError
        | Some e =>
            let reason := rate_reason "rate_limit_exceeded" category value limit in
            append_audit (with_reason e reason);; mret (false, None, reason)
        end
    end).

(** ** Listing *)

(** The rows of [list_pending]; their ORDER BY is left out. *)
Definition list_pending (s : adb) (tenant : option string) (now : Z) : gmap string approval :=
  filter (λ ca : string * approval, negb (av_granted ca.2) && negb (av_denied ca.2) && (now <? av_expires ca.2) &&
    match tenant with Some t => bool_decide (av_tenant ca.2 = t) | None => true end = true) (db_approvals s).
