(* ===== verification/AgentFiles.v ===== *)
(** * The agent gate's file authority

    The state [server/agent_gate.py] keeps where [LEAF_AGENT_STORE] is [legacy]: one
    JSON document per pending approval, the session grants file, and the rate
    snapshot.  Each definition below is one section the module runs under
    [_state_lock], or one atomic file operation outside it.

    A document is modelled by its parsed JSON (an unreadable or malformed text is a
    [file_state] of its own).  Time stamps of the rate snapshot are whole
    microseconds; a snapshot that does not validate is [RateUnusable].  [fault] says
    that the operating system refused the operation.  [fs_redeemed] is a history of
    the redemptions and of the document each one read, which no operation reads. *)

From Stdlib Require Import Ascii.
From S2P Require Import Prelude PyText Json IsoTime Entitlements AgentPolicy Concurrent AgentCalls.
Local Open Scope Z_scope.

(** ** State *)

Inductive rate_file := RateAbsent | RateUnusable (exception : string) | RateBuckets (b : gmap string (gmap string (list Z))).

Record files := Files {
  fs_approvals : gmap string file_state; fs_grants : file_state; fs_rate : rate_file;
  fs_drawn : nat; fs_redeemed : list (string * (nat * list (string * json))) }.

Inductive file_error := OSError | ValueError.

Abbreviation fx := (io files file_error).
Definition gets {A} (f : files → A) : fx A := λ s, (Ok (f s), s).
Definition modify (f : files → files) : fx unit := λ s, (Ok tt, f s).
Abbreviation record := (list (string * json)).

(** ** Approval documents *)

(** [str.isalnum] of one character *)
Definition isalnum (c : ascii) : bool :=
  in_range 48 57 c || in_range 65 90 c || in_range 97 122 c ||
  (code c =? 170) || (code c =? 178) || (code c =? 179) || (code c =? 181) || (code c =? 185) || (code c =? 186) ||
  in_range 188 190 c || in_range 192 214 c || in_range 216 246 c || in_range 248 255 c.

Definition ascii_alnum (c : ascii) : bool := in_range 48 57 c || in_range 65 90 c || in_range 97 122 c.

(** The stem of the file of an id. *)
Definition _approval_path (confirmation_id : string) : result file_error string :=
  let safe := take 64 (List.filter isalnum (chars confirmation_id)) in
  if forallb ascii_alnum safe then Ok (of_chars safe) else Err ValueError.

Definition is_str (v : option json) (s : string) : bool :=
  match v with Some (JStr t) => bool_decide (t = s) | _ => false end.
Definition is_bool (v : option json) (b : bool) : bool :=
  match v with Some (JBool c) => bool_decide (b = c) | _ => false end.

Definition _RECORD_STR_FIELDS : list string :=
  ["confirmation_id"; "tenant_id"; "session_id"; "action"; "args_hash"; "expires_at"].

Definition string_field (r : record) (f : string) : bool :=
  match dict_get r f with Some (JStr _) => true | _ => false end.
Definition bool_field (r : record) (f : string) : bool :=
  match dict_get r f with Some (JBool _) => true | _ => false end.

Definition _record_is_wellformed (r : record) (confirmation_id : string) : bool :=
  forallb (string_field r) _RECORD_STR_FIELDS && is_str (dict_get r "confirmation_id") confirmation_id &&
  forallb (bool_field r) ["granted"; "denied"] &&
  match dict_get r "consumed_at" with None | Some (JStr _) => true | Some _ => false end.

Inductive read_status := StOk | StAbsent | StCorrupt | StIoError.

Definition read_pending_strict (confirmation_id : string) : fx (option record * read_status) :=
  stem ← lift (_approval_path confirmation_id);
  gets (λ s, match fs_approvals s !! stem with
             | None | Some Absent => (None, StAbsent)
             | Some Unreadable => (None, StIoError)
             | Some (Contents (Some (JObj kvs))) =>
                 if _record_is_wellformed (dict_of kvs) confirmation_id then (Some (dict_of kvs), StOk)
                 else (None, StCorrupt)
             | Some (Contents _) => (None, StCorrupt)
             end).

Definition read_pending (confirmation_id : string) : fx (option record) :=
  r ← read_pending_strict confirmation_id; mret (fst (r : option record * read_status)).

Definition text_of (v : option json) : string := match v with Some (JStr s) => s | _ => "" end.

Definition set_approvals (m : gmap string file_state) (s : files) : files :=
  Files m (fs_grants s) (fs_rate s) (fs_drawn s) (fs_redeemed s).

(** [_write_pending]: a whole new document, or none *)
Definition _write_pending (fault : bool) (r : record) : fx unit :=
  stem ← lift (_approval_path (text_of (dict_get r "confirmation_id")));
  if fault then raise OSError
  else modify (λ s, set_approvals (<[stem := Contents (Some (JObj r))]> (fs_approvals s)) s).

Definition _is_expired (r : record) (now : Z) : bool :=
  match dict_get r "expires_at" with
  | Some (JStr t) => match _parse_iso t with Some e => e <=? now | None => true end
  | _ => true
  end.

Definition opt_json (o : option string) : json := match o with Some s => JStr s | None => JNull end.

Definition decided_record (r : record) (granted : bool) (by_ reason : string) (now : Z) : record :=
  dict_set (dict_set (dict_set (dict_set (dict_set r
    "granted" (JBool granted)) "denied" (JBool (negb granted))) "decided_at" (JStr (_iso now)))
    "decided_by" (JStr by_)) "reason" (JStr reason).

Definition _decide (fault : bool) (r : record) (granted : bool) (by_ reason : string) (now : Z) : fx record :=
  _write_pending fault (decided_record r granted by_ reason now);; mret (decided_record r granted by_ reason now).

Definition truthy_flag (r : record) (f : string) : bool := is_bool (dict_get r f) true.

(** [grant_approval] and [deny_approval]: one section under [_state_lock] *)
Definition grant_approval (fault : bool) (confirmation_id by_ : string) (now : Z) : fx (bool * option record * string) :=
  o ← read_pending confirmation_id;
  match o with
  | None => mret (false, None, "not_found"%string)
  | Some r =>
      if truthy_flag r "granted" || truthy_flag r "denied" then mret (false, Some r, "already_decided"%string)
      else if _is_expired r now then
        r' ← _decide fault r false by_ "expired" now; mret (false, Some r', "expired"%string)
      else r' ← _decide fault r true by_ "approved" now; mret (true, Some r', "granted"%string)
  end.

Definition deny_approval (fault : bool) (confirmation_id by_ reason : string) (now : Z)
  : fx (bool * option record * string) :=
  o ← read_pending confirmation_id;
  match o with
  | None => mret (false, None, "not_found"%string)
  | Some r =>
      if truthy_flag r "granted" || truthy_flag r "denied" then mret (false, Some r, "already_decided"%string)
      else r' ← _decide fault r false by_ reason now; mret (true, Some r', "denied"%string)
  end.

(** ** Filing an approval *)

Definition _new_pending_record `{Runtime} (cid tenant session turn : string) (action : agent_action) (args : record)
    (now ttl : Z) : record :=
  [("confirmation_id", JStr cid); ("tenant_id", JStr tenant); ("session_id", JStr session); ("turn_id", JStr turn);
   ("action", JStr (aa_name action)); ("args", JObj args); ("args_hash", JStr (canonical_args_hash args));
   ("policy", JStr (aa_policy action)); ("rung", JInt (aa_rung action)); ("created_at", JStr (_iso now));
   ("expires_at", JStr (_iso (now + ttl * US_PER_S))); ("granted", JBool false); ("denied", JBool false);
   ("decided_at", JNull); ("decided_by", JNull); ("reason", JNull)].

(** The next draw of [secrets.token_hex]; the model ends where the supply does. *)
Definition draw_token `{Runtime} : fx string :=
  λ s, if bool_decide (fs_drawn s < token_supply)%nat
       then (Ok (token_hex (fs_drawn s)), Files (fs_approvals s) (fs_grants s) (fs_rate s) (S (fs_drawn s)) (fs_redeemed s))
       else (Err OSError, s).

(** [create_pending], and the filing of [_create_and_await] *)
Definition create_pending `{Runtime} (fault : bool) (tenant session turn : string) (action : agent_action) (args : record)
    (now ttl : Z) : fx record :=
  cid ← draw_token;
  let r := _new_pending_record cid tenant session turn action args now ttl in
  _write_pending fault r;; mret r.

(** ** Redeeming, under [_state_lock] *)

Definition decided_by_subject (required : bool) (subject : option string) (r : record) : bool :=
  negb required || match subject with Some u => is_str (dict_get r "decided_by") u | None => false end.

Definition redeem_locked (fault : bool) (confirmation_id : string) (required : bool) (subject : option string)
    (now : Z) (who : nat) : fx string :=
  o ← read_pending confirmation_id;
  match o with
  | None => mret "approval_unreadable"%string
  | Some r =>
      if bool_decide (is_Some (dict_get r "consumed_at")) then mret "approval_consumed"%string
      else if negb (is_bool (dict_get r "granted") true) || negb (is_bool (dict_get r "denied") false)
      then mret "approval_denied"%string
      else if negb (decided_by_subject required subject r) then mret "approval_subject_mismatch"%string
      else if _is_expired r now then mret "approval_expired"%string
      else
        _write_pending fault (dict_set r "consumed_at" (JStr (_iso now)));;
        modify (λ s, Files (fs_approvals s) (fs_grants s) (fs_rate s) (fs_drawn s) ((confirmation_id, (who, r)) :: fs_redeemed s));;
        mret "allow_via_approval"%string
  end.

(** ** Session grants *)

Definition _GRANTS_VERSION : Z := 2.

(** One malformed entry rejects the whole snapshot. *)
Definition _load_grants (f : file_state) : record :=
  match f with
  | Contents (Some (JObj kvs)) =>
      match dict_get (dict_of kvs) "v", dict_get (dict_of kvs) "grants" with
      | Some (JInt v), Some (JObj g) =>
          if (v =? _GRANTS_VERSION) &&
             forallb (λ kv, match kv.2 with JStr t => bool_decide (is_Some (_parse_iso t)) | _ => false end) (dict_of g)
          then dict_of g else []
      | _, _ => []
      end
  | _ => []
  end.

Definition has_session_grant (tenant session action : string) (target : list string) : fx bool :=
  λ s, (Ok match dict_get (_load_grants (fs_grants s)) (_grant_key tenant session action target) with
           | Some (JStr t) => bool_decide (is_Some (_parse_iso t))
           | _ => false
           end, s).

Definition record_session_grant (fault : bool) (tenant session action : string) (target : list string) (now : Z) : fx unit :=
  λ s, if fault then (Err OSError, s) else
       let grants := dict_set (_load_grants (fs_grants s)) (_grant_key tenant session action target) (JStr (_iso now)) in
       (Ok tt, Files (fs_approvals s) (Contents (Some (JObj [("v", JInt _GRANTS_VERSION); ("grants", JObj grants)])))
                 (fs_rate s) (fs_drawn s) (fs_redeemed s)).

(** ** The rate snapshot *)

Definition _WINDOW : Z := 3600 * US_PER_S.

Definition set_rate (b : gmap string (gmap string (list Z))) (s : files) : files :=
  Files (fs_approvals s) (fs_grants s) (RateBuckets b) (fs_drawn s) (fs_redeemed s).

Definition buckets_of (f : rate_file) : option (gmap string (gmap string (list Z))) :=
  match f with RateAbsent => Some ∅ | RateUnusable _ => None | RateBuckets b => Some b end.

Definition bucket (b : gmap string (gmap string (list Z))) (tenant category : string) : list Z :=
  default [] (b !! tenant ≫= λ m, m !! category).

Definition _rate_check_and_record (fault : option string) (tenant category : string) (limits : gmap string Z) (now : Z)
  : fx (bool * string) :=
  λ s, let limit := default 0 (limits !! category) in
       if limit <=? 0 then (Ok (false, rate_reason "rate_limit_exceeded" category 0 0), s) else
       match fault, fs_rate s with
       | Some exc, _ => (Ok (false, "rate_state_unwritable: " +:+ exc), s)
       | None, RateUnusable exc => (Ok (false, "rate_state_unreadable: " +:+ exc), s)
       | None, f =>
           let b := default ∅ (buckets_of f) in
           let live := List.filter (λ t, now - t <? _WINDOW) (bucket b tenant category) in
           let count := Z.of_nat (length live) in
           if limit <=? count then (Ok (false, rate_reason "rate_limit_exceeded" category count limit), s)
           else (Ok (true, rate_reason "rate_limit_ok" category (count + 1) limit),
                 set_rate (<[tenant := <[category := live ++ [now]]> (default ∅ (b !! tenant))]> b) s)
       end.

Definition reset_tenant_rate_state (fault : bool) (tenant : string) : fx Z :=
  λ s, match buckets_of (fs_rate s) with
       | None => (Err ValueError, s)
       | Some b =>
           match b !! tenant with
           | None => (Ok 0, s)
           | Some m => if fault then (Err OSError, s)
                       else (Ok (Z.of_nat (size m)), set_rate (delete tenant b) s)
           end
       end.
