(* ===== verification/AgentGate.v ===== *)
(** * The agent gate

    [gate] of [server/agent_gate.py]: the chain every proposed agent action passes,
    over the file authority ([legacy_gate]) and over PostgreSQL ([postgres_gate]).

    A request reads its surroundings (the kill switch, the tenant's state, the
    catalog twice, the session's plan-first setting, its clock) at moments of its
    own: [surroundings] holds what each read answered, whatever happened in between.
    What it does to the shared authority is a [prog], one atomic section at a time.
    [exn] is an exception the gate lets through to its caller, which is no decision.
    The best-effort audit lines of the file authority have no effect on the gate and
    are left out; those of PostgreSQL are part of its transactions. *)

From S2P Require Import Prelude PyText Json Entitlements AgentPolicy Concurrent AgentCalls AgentStore AgentFiles.
Local Open Scope Z_scope.

Record call := Call {
  c_tenant : string; c_session : string; c_turn : string; c_action : string; c_args : record;
  c_caps : record; c_tier : option string; c_subject : option string; c_scope_refusal : option string }.

(** How the request's [n]-th use of the authority goes. *)
Inductive delivery := Delivered | LostBefore | LostAfter.

Record surroundings := Surroundings {
  o_kill : option (option string);       (** [None]: the read raised; an active switch has a reason *)
  o_tenant : checked tenant_state;
  o_policy : checked agent_policy;       (** the catalog read *)
  o_revalidated : checked agent_policy;  (** the second read *)
  o_jsonschema : option jsonschema;
  o_auth_live : bool;                    (** [deps.auth_live()], true when it raises *)
  o_plan_first : bool;                   (** [_plan_first_session], true when it raises *)
  o_clock : nat → Z;
  o_delivery : nat → delivery;
  o_rate_fault : option string;
  o_write_fault : bool;
  o_token : string }.

Inductive decision := Allow | Deny | AwaitingApproval.

Record answer := Answer {
  an_decision : decision; an_reason : string; an_policy : option string; an_rung : option Z;
  an_confirmation : option string }.

(** [inr tt]: an exception *)
Definition outcome_of := (answer + unit)%type.
Definition exn : outcome_of := inr tt.

Definition deny_with (reason : string) (act : option agent_action) : outcome_of :=
  inl (Answer Deny reason (aa_policy <$> act) (aa_rung <$> act) None).

(** ** The chain before the rate limit *)

Definition _has_capability (caps : record) (capability : string) : bool := is_bool (dict_get caps capability) true.

Definition join_errors (l : list string) : string :=
  match l with [] => "" | x :: xs => foldl (λ acc y, acc +:+ "; " +:+ y) x xs end.

(** [_validate_args]: [None] where the arguments pass *)
Definition _validate_args (js : option jsonschema) (act : agent_action) (args : record) : option string :=
  match aa_args_schema act, js with
  | Some schema, Some j =>
      match iter_errors j schema (JObj args) with [] => None | errors => Some (join_errors (take 3 errors)) end
  | _, _ => None
  end.

Inductive verdict :=
| Denied (reason : string) (act : option agent_action)
| Crashed
| Cleared (act : agent_action) (pol : agent_policy).

(** The catalog lookup of a policy that loaded. *)
Definition look_up (c : call) (overlay : json) (p : checked agent_policy) (k : agent_policy → option agent_action → verdict)
  : verdict :=
  match p with
  | Err PolicyError => Denied "policy_load_failed: PolicyError" None
  | Err TypeError => Crashed
  | Ok pol =>
      match effective_action pol (c_action c) (c_tier c) (Some overlay) with
      | Err PolicyError => Denied "policy_load_failed: PolicyError" None
      | Err TypeError => Crashed
      | Ok act => k pol act
      end
  end.

Definition entitlement_reason (act : agent_action) : string :=
  "entitlement_required: tier lacks '" +:+ aa_required_capability act +:+ "'".

(** The schema and the entitlement of an action, checked against each definition read. *)
Definition admissible (c : call) (o : surroundings) (act : agent_action) (k : verdict) : verdict :=
  match _validate_args (o_jsonschema o) act (c_args c) with
  | Some e => Denied ("invalid_args: " +:+ e) (Some act)
  | None => if _has_capability (c_caps c) (aa_required_capability act) then k
            else Denied (entitlement_reason act) (Some act)
  end.

(** Steps 1 to 5, and the budget of the action's category. *)
Definition gate_checks (c : call) (o : surroundings) : verdict :=
  match o_kill o with
  | None => Crashed
  | Some (Some reason) =>
      Denied ("kill_switch_active: " +:+ (if bool_decide (reason = "")%string then "(no reason)" else reason)) None
  | Some None =>
      match o_tenant o with
      | Err PolicyError => Denied "tenant_state_load_failed: PolicyError" None
      | Err TypeError => Crashed
      | Ok st =>
          if ts_disabled st then Denied "tenant_agent_disabled" None else
          look_up c (ts_overlay st) (o_policy o) (λ _ act1,
            match act1 with
            | None => Denied "unknown_action" None
            | Some act =>
                if negb (aa_enabled act) then Denied "action_disabled" (Some act) else
                match c_scope_refusal c with
                | Some refusal => Denied refusal (Some act)
                | None =>
                    admissible c o act (
                      look_up c (ts_overlay st) (o_revalidated o) (λ pol act2,
                        match act2 with
                        | None => Denied "action_disabled" None
                        | Some act' =>
                            if negb (aa_enabled act') then Denied "action_disabled" (Some act') else
                            admissible c o act' (
                              if default 0 (ap_rate_limits pol !! aa_rate_limit_category act') <=? 0
                              then Denied (rate_reason "rate_limit_exceeded" (aa_rate_limit_category act') 0 0) (Some act')
                              else Cleared act' pol)
                        end))
                end
            end)
      end
  end.

(** ** The policy tier *)

Definition truthy (v : json) : bool :=
  match v with
  | JNull => false | JBool b => b | JInt z => negb (z =? 0) | JStr s => negb (bool_decide (s = ""%string))
  | JArr l => negb (bool_decide (length l = 0%nat)) | JObj l => negb (bool_decide (length l = 0%nat))
  end.

Definition _subject_bound_grants_required (o : surroundings) (subject : option string) : bool :=
  match subject with
  | Some u => if bool_decide (u = ""%string) then o_auth_live o else false
  | None => o_auth_live o
  end.

Definition subject_match_required (c : call) (o : surroundings) : bool :=
  bool_decide (is_Some (c_subject c)) || _subject_bound_grants_required o (c_subject c).

(** An atomic use of the authority: an exception, or a lost connection, is no answer. *)
Definition sent {S E A} (d : delivery) (op : nat → io S E A) : nat → S → option A * S :=
  λ i s, match d with
         | LostBefore => (None, s)
         | LostAfter => (None, (op i s).2)
         | Delivered => match op i s with (Ok a, s') => (Some a, s') | (Err _, s') => (None, s') end
         end.

(** What the policy tier does with a cleared call that carries no confirmation. *)
Inductive course := RunIt (how : string) | AskFirst | LookForGrant | UnknownPolicy.

Definition course_of (c : call) (o : surroundings) (act : agent_action) : course :=
  if bool_decide (aa_policy act = "auto"%string) then if o_plan_first o then AskFirst else RunIt "allow"
  else if bool_decide (aa_policy act = "confirm-once"%string) then
    if _subject_bound_grants_required o (c_subject c) then AskFirst else LookForGrant
  else if bool_decide (aa_policy act = "always-confirm"%string) then AskFirst
  else UnknownPolicy.

Section gate.
Context `{Runtime}.

Definition confirmation (c : call) : option string :=
  match dict_get (c_args c) "confirmation_id" with
  | Some v => if truthy v then Some (py_str v) else None
  | None => None
  end.

Definition allow_with (how : string) (act : agent_action) (cid : option string) : outcome_of :=
  inl (Answer Allow how (Some (aa_policy act)) (Some (aa_rung act)) cid).

Definition awaiting (act : agent_action) (cid : string) : outcome_of :=
  inl (Answer AwaitingApproval ("action requires " +:+ aa_policy act +:+ " approval") (Some (aa_policy act))
         (Some (aa_rung act)) (Some cid)).

(** *** Over the files *)

Abbreviation fprog := (prog files outcome_of).

Definition use_files {A} (op : nat → fx A) (k : A → fprog) : fprog :=
  Act (sent Delivered op) (λ a, match a with Some a => k a | None => Ret exn end).

(** The approval of a document is for this very call. *)
Definition record_binds (c : call) (act : agent_action) (r : record) : bool :=
  is_str (dict_get r "tenant_id") (c_tenant c) && is_str (dict_get r "session_id") (c_session c) &&
  is_str (dict_get r "action") (aa_name act) && is_str (dict_get r "args_hash") (canonical_args_hash (c_args c)).

Definition create_and_await (c : call) (o : surroundings) (act : agent_action) (pol : agent_policy) : fprog :=
  use_files (λ _, create_pending (o_write_fault o) (c_tenant c) (c_session c) (c_turn c) act (c_args c)
                    (o_clock o 0) (ap_approval_ttl_s pol))
    (λ r, Ret (awaiting act (text_of (dict_get r "confirmation_id")))).

(** The stamp was written: persist a confirm-once grant, then allow. *)
Definition after_redeeming (c : call) (o : surroundings) (act : agent_action) (cid : string) : fprog :=
  if bool_decide (aa_policy act = "confirm-once"%string) && negb (_subject_bound_grants_required o (c_subject c))
  then use_files (λ _, AgentFiles.record_session_grant (o_write_fault o) (c_tenant c) (c_session c) (aa_name act)
                         (grant_target (c_args c) (c_subject c)) (o_clock o 3))
         (λ _, Ret (allow_with "allow_via_approval" act (Some cid)))
  else Ret (allow_with "allow_via_approval" act (Some cid)).

Definition redeem_files (c : call) (o : surroundings) (act : agent_action) (cid : string) : fprog :=
  let required := subject_match_required c o in
  use_files (λ _, read_pending cid) (λ found,
    match found with
    | None => Ret (deny_with "approval_not_found" (Some act))
    | Some r =>
        if negb (record_binds c act r) then Ret (deny_with "args_mismatch" (Some act))
        else if negb (is_bool (dict_get r "denied") false) then Ret (deny_with "approval_denied" (Some act))
        else if negb (decided_by_subject required (c_subject c) r)
        then Ret (deny_with "approval_subject_mismatch" (Some act))
        else if _is_expired r (o_clock o 1) then
          use_files (λ _, _decide (o_write_fault o) r false "system" "expired" (o_clock o 1))
            (λ _, Ret (deny_with "approval_expired" (Some act)))
        else if is_bool (dict_get r "granted") true then
          use_files (redeem_locked (o_write_fault o) cid required (c_subject c) (o_clock o 2)) (λ reason,
            if bool_decide (reason = "allow_via_approval"%string) then after_redeeming c o act cid
            else Ret (deny_with reason (Some act)))
        else Ret (awaiting act (text_of (dict_get r "confirmation_id")))
    end).

Definition legacy_gate (c : call) (o : surroundings) : fprog :=
  match gate_checks c o with
  | Crashed => Ret exn
  | Denied reason act => Ret (deny_with reason act)
  | Cleared act pol =>
      use_files (λ _, _rate_check_and_record (o_rate_fault o) (c_tenant c) (aa_rate_limit_category act)
                        (ap_rate_limits pol) (o_clock o 4))
        (λ rate, if negb rate.1 then Ret (deny_with rate.2 (Some act)) else
          match confirmation c with
          | Some cid => redeem_files c o act cid
          | None =>
              match course_of c o act with
              | RunIt how => Ret (allow_with how act None)
              | AskFirst => create_and_await c o act pol
              | LookForGrant =>
                  use_files (λ _, AgentFiles.has_session_grant (c_tenant c) (c_session c) (aa_name act)
                                    (grant_target (c_args c) (c_subject c)))
                    (λ granted, if granted then Ret (allow_with "allow_via_session_grant" act None)
                                else create_and_await c o act pol)
              | UnknownPolicy => Ret (deny_with ("unknown_policy: " +:+ aa_policy act) (Some act))
              end
          end)
  end.

(** *** Over PostgreSQL *)

Abbreviation pprog := (prog adb outcome_of).

Definition use_db {A} (d : delivery) (op : nat → ax A) (k : A → pprog) : pprog :=
  Act (sent d op) (λ a, match a with Some a => k a | None => Ret exn end).

Definition event_of (c : call) (kind : string) (reason cid : option string) : event :=
  Event kind (c_tenant c) (Some (c_session c)) (Some (c_action c)) reason cid.

(** [_deny]: the event is written before the answer *)
Definition audited_deny (c : call) (o : surroundings) (reason : string) (act : option agent_action) : pprog :=
  use_db (o_delivery o 0) (λ _, append_audit (event_of c "denied" (Some reason) None)) (λ _, Ret (deny_with reason act)).

Definition outcome_event (c : call) (cid reason : string) : option event :=
  if bool_decide (reason = "awaiting_approval"%string) then Some (event_of c "approval_requested" None (Some cid))
  else if bool_decide (reason ∈ ["approval_not_found"; "args_mismatch"; "approval_denied"; "approval_subject_mismatch";
                                 "approval_expired"; "approval_consumed"]%string)
  then Some (event_of c "denied" (Some reason) None) else None.

Definition redemption_of (c : call) (o : surroundings) (act : agent_action) (limit : Z) (cid : string) : redemption :=
  Redemption cid (c_tenant c) (c_session c) (aa_name act) (canonical_args_hash (c_args c)) (c_subject c)
    (subject_match_required c o) (Some (event_of c "allowed" None (Some cid)))
    (if bool_decide (aa_policy act = "confirm-once"%string) && negb (_subject_bound_grants_required o (c_subject c))
     then Some (dumps (JArr (JStr <$> grant_target (c_args c) (c_subject c)))) else None)
    (Some (aa_rate_limit_category act, limit, Some (event_of c "denied" None None)))
    (outcome_event c cid).

Definition pending_row (c : call) (act : agent_action) (now ttl : Z) : approval :=
  Approval (c_tenant c) (c_session c) (c_turn c) (aa_name act) (canonical_args_hash (c_args c)) (aa_policy act)
    (aa_rung act) now (now + ttl * 1000000) false false None None None None.

Definition charge (c : call) (o : surroundings) (act : agent_action) (limit : Z) (e : event) (k : bool → string → pprog) : pprog :=
  use_db (o_delivery o 1) (λ _, consume_rate_and_audit (c_tenant c) (aa_rate_limit_category act) limit e
                                  (event_of c "denied" None None) (o_clock o 1)) (λ r, k r.1 r.2).

Definition allow_charged (c : call) (o : surroundings) (act : agent_action) (limit : Z) (how : string) : pprog :=
  charge c o act limit (event_of c "allowed" None None) (λ accepted reason,
    Ret (if accepted then allow_with how act None else deny_with reason (Some act))).

Definition create_charged (c : call) (o : surroundings) (act : agent_action) (pol : agent_policy) (limit : Z) : pprog :=
  use_db (o_delivery o 1)
    (λ _, create_pending_with_rate (o_token o) (pending_row c act (o_clock o 0) (ap_approval_ttl_s pol))
            (aa_rate_limit_category act) limit (event_of c "approval_requested" None (Some (o_token o)))
            (event_of c "denied" None None) (o_clock o 1))
    (λ r, let '(accepted, _, reason) := r in
          Ret (if accepted : bool then awaiting act (o_token o) else deny_with reason (Some act))).

Definition postgres_gate (c : call) (o : surroundings) : pprog :=
  match gate_checks c o with
  | Crashed => Ret exn
  | Denied reason act => audited_deny c o reason act
  | Cleared act pol =>
      let limit := default 0 (ap_rate_limits pol !! aa_rate_limit_category act) in
      match confirmation c with
      | Some cid =>
          use_db (o_delivery o 1) (redeem (redemption_of c o act limit cid) (o_clock o 1)) (λ r,
            let '(redeemed, row, reason) := r in
            Ret (if redeemed : bool then allow_with "allow_via_approval" act (Some cid)
                 else if bool_decide (reason = "awaiting_approval"%string) && bool_decide (is_Some row)
                 then awaiting act cid else deny_with reason (Some act)))
      | None =>
          match course_of c o act with
          | RunIt how => allow_charged c o act limit how
          | AskFirst => create_charged c o act pol limit
          | LookForGrant =>
              use_db (o_delivery o 0)
                (λ _, AgentStore.has_session_grant (c_tenant c) (c_session c) (aa_name act)
                        (dumps (JArr (JStr <$> grant_target (c_args c) (c_subject c)))))
                (λ granted, if granted : bool then allow_charged c o act limit "allow_via_session_grant"
                            else create_charged c o act pol limit)
          | UnknownPolicy =>
              let reason := "unknown_policy: " +:+ aa_policy act in
              charge c o act limit (event_of c "denied" (Some reason) None) (λ accepted text,
                Ret (deny_with (if accepted then reason else text) (Some act)))
          end
      end
  end.
End gate.
