(* ===== verification/AgentSystem.v ===== *)
(** * Approvals under concurrency, PostgreSQL authority

    Gate requests, decisions and operator actions run against one database in any
    order.  Every transaction of the authority is a sequence of [agent_move]s; the
    moves keep [agent_inv] and only move rows along [agent_grows], which gives the
    guarantees of the gate by [pool_sound]. *)

From S2P Require Import Prelude PyText Json Entitlements AgentPolicy Concurrent AgentCalls AgentFiles AgentStore AgentGate.
Local Open Scope Z_scope.

(** ** Moves *)

Definition undecided (a : approval) : Prop := av_granted a = false ∧ av_denied a = false.

Definition granted_event (cid : string) (e : event) : Prop :=
  ev_kind e = "approval_granted"%string ∧ ev_confirmation e = Some cid.

Inductive agent_move : adb → adb → Prop :=
| move_side s s' :
    db_approvals s' = db_approvals s → db_redeemed s' = db_redeemed s → db_grants s ⊆ db_grants s' →
    db_audit s `prefix_of` db_audit s' → agent_move s s'
| move_file s s' cid a :
    db_approvals s !! cid = None → undecided a → av_consumed a = None →
    db_approvals s' = <[cid := a]> (db_approvals s) → db_redeemed s' = db_redeemed s →
    db_grants s ⊆ db_grants s' → db_audit s `prefix_of` db_audit s' → agent_move s s'
| move_decide s s' cid a granted now by_ reason :
    db_approvals s !! cid = Some a →
    (granted = true → undecided a ∧ ∃ e, e ∈ db_audit s' ∧ granted_event cid e) →
    db_approvals s' = <[cid := decided a granted now by_ reason]> (db_approvals s) → db_redeemed s' = db_redeemed s →
    db_grants s ⊆ db_grants s' → db_audit s `prefix_of` db_audit s' → agent_move s s'
| move_spend s s' cid who a now :
    db_approvals s !! cid = Some a → av_granted a = true → av_denied a = false → av_consumed a = None →
    db_approvals s' = <[cid := consumed a now]> (db_approvals s) →
    db_redeemed s' = (cid, (who, a)) :: db_redeemed s →
    db_grants s ⊆ db_grants s' → db_audit s `prefix_of` db_audit s' → agent_move s s'.

(** ** What every state satisfies *)

(** The columns an approval is bound to, which no statement updates. *)
Definition binding (a : approval) :=
  (av_tenant a, av_session a, av_turn a, av_action a, av_args_hash a, av_policy a, av_rung a, av_created a, av_expires a).

Record agent_inv (s : adb) : Prop := AgentInv {
  inv_spent : ∀ cid who a, (cid, (who, a)) ∈ db_redeemed s →
    ∃ a', db_approvals s !! cid = Some a' ∧ is_Some (av_consumed a') ∧ binding a' = binding a;
  inv_once : NoDup (db_redeemed s).*1;
  inv_history : ∀ cid who a, (cid, (who, a)) ∈ db_redeemed s →
    av_granted a = true ∧ av_denied a = false ∧ ∃ e, e ∈ db_audit s ∧ granted_event cid e;
  inv_granted : ∀ cid a, db_approvals s !! cid = Some a → av_granted a = true →
    ∃ e, e ∈ db_audit s ∧ granted_event cid e }.

(** How the database may evolve between two looks of a request. *)
Record agent_grows (s s' : adb) : Prop := AgentGrows {
  grows_history : db_redeemed s `suffix_of` db_redeemed s';
  grows_audit : db_audit s `prefix_of` db_audit s';
  grows_grants : db_grants s ⊆ db_grants s';
  grows_rows : ∀ cid a, db_approvals s !! cid = Some a →
    ∃ a', db_approvals s' !! cid = Some a' ∧ binding a' = binding a ∧
          (av_denied a = true → av_denied a' = true) ∧ (is_Some (av_consumed a) → is_Some (av_consumed a')) }.

#[export] Instance agent_grows_preorder : PreOrder agent_grows.
Proof.
  split.
  - intros s. split; try done. intros cid a Ha. exists a. done.
  - intros s1 s2 s3 [H1 A1 G1 R1] [H2 A2 G2 R2]. split; [by etransitivity|by etransitivity|by etransitivity|].
    intros cid a Ha. destruct (R1 _ _ Ha) as (a2 & Ha2 & B2 & D2 & C2).
    destruct (R2 _ _ Ha2) as (a3 & Ha3 & B3 & D3 & C3). exists a3. split_and!; auto; congruence.
Qed.

Lemma prefix_elem {A} (l l' : list A) x : l `prefix_of` l' → x ∈ l → x ∈ l'.
Proof. intros [k ->] Hx. apply elem_of_app. by left. Qed.

Lemma rows_grow_insert (m m' : gmap string approval) cid a a' :
  m !! cid = Some a → m' = <[cid := a']> m → binding a' = binding a →
  (av_denied a = true → av_denied a' = true) → (is_Some (av_consumed a) → is_Some (av_consumed a')) →
  ∀ c x, m !! c = Some x → ∃ x', m' !! c = Some x' ∧ binding x' = binding x ∧
         (av_denied x = true → av_denied x' = true) ∧ (is_Some (av_consumed x) → is_Some (av_consumed x')).
Proof.
  intros Ha -> Hb Hd Hc c x Hx. destruct (decide (c = cid)) as [->|Hne].
  - rewrite Ha in Hx. injection Hx as <-. exists a'. rewrite lookup_insert_eq. by split_and!.
  - exists x. rewrite lookup_insert_ne by done. by split_and!.
Qed.

Lemma agent_move_grows s s' : agent_move s s' → agent_grows s s'.
Proof.
  destruct 1 as [s s' Ha Hr Hg Hau|s s' cid a Hn Hu Hc Ha Hr Hg Hau|s s' cid a gr now by_ reason Hs He Ha Hr Hg Hau
                |s s' cid who a now Hs Hgr Hd Hc Ha Hr Hg Hau]; split; try done; try (by rewrite Hr).
  - rewrite Ha. eauto.
  - intros c x Hx. exists x. rewrite Ha, lookup_insert_ne by congruence. done.
  - eapply rows_grow_insert; [done|done|done| |done]. destruct gr; [|done]. destruct (He eq_refl) as [[_ ?] _]. congruence.
  - rewrite Hr. by apply suffix_cons_r.
  - eapply rows_grow_insert; [done|done|done|done|done].
Qed.

Lemma agent_move_inv s s' : agent_move s s' → agent_inv s → agent_inv s'.
Proof.
  intros Hmove [Hsp Hon Hhi Hgr]. pose proof (agent_move_grows _ _ Hmove) as [_ Haud _ Hrows].
  assert (Hold : ∀ cid who a, (cid, (who, a)) ∈ db_redeemed s →
    ∃ a', db_approvals s' !! cid = Some a' ∧ is_Some (av_consumed a') ∧ binding a' = binding a).
  { intros cid who a Hin. destruct (Hsp _ _ _ Hin) as (a' & Ha' & Hc & Hb).
    destruct (Hrows _ _ Ha') as (a2 & Ha2 & Hb2 & _ & Hc2). exists a2. split_and!; [done|auto|congruence]. }
  assert (Hev : ∀ cid e, e ∈ db_audit s ∧ granted_event cid e → e ∈ db_audit s' ∧ granted_event cid e).
  { intros cid e [He ?]. split; [by eapply prefix_elem|done]. }
  assert (Hhist : ∀ cid who a, (cid, (who, a)) ∈ db_redeemed s →
    av_granted a = true ∧ av_denied a = false ∧ ∃ e, e ∈ db_audit s' ∧ granted_event cid e).
  { intros cid who a Hin. destruct (Hhi _ _ _ Hin) as (? & ? & e & He). eauto 10. }
  destruct Hmove as [s s' Ha Hr Hg Hau|s s' cid a Hn Hu Hc Ha Hr Hg Hau|s s' cid a gr now by_ reason Hs He Ha Hr Hg Hau
                    |s s' cid who a now Hs Hgrant Hd Hc Ha Hr Hg Hau].
  - split; rewrite ?Hr; try done. intros cid a. rewrite Ha. intros Hx Hg'. destruct (Hgr _ _ Hx Hg') as [e ?]. eauto.
  - split; rewrite ?Hr; try done. intros c x. rewrite Ha, lookup_insert_Some. intros [[<- <-]|[_ Hx]] Hx'.
    + destruct Hu. congruence.
    + destruct (Hgr _ _ Hx Hx') as [e ?]. eauto.
  - split; rewrite ?Hr; try done. intros c x. rewrite Ha, lookup_insert_Some. intros [[<- <-]|[_ Hx]] Hx'.
    + simpl in Hx'. by apply He.
    + destruct (Hgr _ _ Hx Hx') as [e ?]. eauto.
  - split; rewrite ?Hr.
    + intros c w x [[= -> -> ->]|Hin]%elem_of_cons; [|eauto]. exists (consumed a now). rewrite Ha, lookup_insert_eq. eauto.
    + simpl. constructor; [|done]. intros [[c [w x]] [Heq Hin]]%list_elem_of_fmap. simpl in Heq. subst c.
      destruct (Hsp _ _ _ Hin) as (a' & Ha' & [t Ht] & _). rewrite Hs in Ha'. congruence.
    + intros c w x [[= -> -> ->]|Hin]%elem_of_cons; [|eauto]. split_and!; [done|done|].
      destruct (Hgr _ _ Hs Hgrant) as [e ?]. eauto.
    + intros c x. rewrite Ha, lookup_insert_Some. intros [[<- <-]|[_ Hx]] Hx'.
      * simpl in Hx'. destruct (Hgr _ _ Hs Hx') as [e ?]. eauto.
      * destruct (Hgr _ _ Hx Hx') as [e ?]. eauto.
Qed.

Lemma agent_moves_ok s s' : star agent_move s s' → agent_inv s → agent_inv s' ∧ agent_grows s s'.
Proof.
  induction 1 as [s|s1 s2 s3 H1 _ IH]; intros Hinv; [done|].
  destruct (IH (agent_move_inv _ _ H1 Hinv)) as [? ?]. split; [done|]. etransitivity; [by apply agent_move_grows|done].
Qed.

(** ** Every transaction is a sequence of moves *)

Abbreviation moves := (steps agent_move).

Lemma moves_side {A} (f : adb → adb) (a : A) :
  (∀ s, db_approvals (f s) = db_approvals s ∧ db_redeemed (f s) = db_redeemed s ∧ db_grants s ⊆ db_grants (f s) ∧
        db_audit s `prefix_of` db_audit (f s)) → moves (write f a).
Proof. intros H s. destruct (H s) as (? & ? & ? & ?). apply star_one. by apply move_side. Qed.

Lemma moves_audit e : moves (append_audit e).
Proof. apply moves_side. intros s. simpl. split_and!; try done. by apply prefix_app_r. Qed.

Lemma moves_grant t ss a k : moves (insert_grant t ss a k).
Proof. apply moves_side. intros s. simpl. split_and!; try done. set_solver. Qed.

Lemma moves_counter ns key limit : moves (consume_counter ns key limit).
Proof.
  intros s. unfold final, consume_counter. repeat case_match; simpl; try apply star_refl; apply star_one, move_side; done.
Qed.

Lemma moves_insert cid a : moves (_insert_pending_in_transaction cid a).
Proof.
  intros s. unfold _insert_pending_in_transaction, final, mbind, io_mbind, find_approval.
  destruct (db_approvals s !! cid) eqn:H; [apply star_refl|]. apply star_one. eapply (move_file s _ cid); [exact H| | |simpl; reflexivity| | |]; done.
Qed.

Ltac moves := repeat
  match goal with
  | |- moves (atomically _) => apply steps_atomically
  | |- moves (mbind _ _) => apply steps_bind; [|intros ?]
  | |- moves (append_audit _) => apply moves_audit
  | |- moves (mret _) => apply steps_ret
  | |- moves (raise _) => apply steps_raise
  | |- moves (insert_grant _ _ _ _) => apply moves_grant
  | |- moves (consume_counter _ _ _) => apply moves_counter
  | |- moves (_insert_pending_in_transaction _ _) => apply moves_insert
  | |- moves (match _ with _ => _ end) => case_match
  end.

Lemma moves_create cid a : moves (AgentStore.create_pending cid a).
Proof. unfold AgentStore.create_pending. moves. Qed.

Lemma moves_charge t c l e1 e2 now : moves (consume_rate_and_audit t c l e1 e2 now).
Proof. unfold consume_rate_and_audit, _consume_rate_in_transaction. moves. Qed.

Lemma moves_create_with_rate cid a c l e1 e2 now : moves (create_pending_with_rate cid a c l e1 e2 now).
Proof. unfold create_pending_with_rate, _consume_rate_in_transaction. moves. Qed.

Lemma moves_record_grant t ss a k : moves (AgentStore.record_session_grant t ss a k).
Proof. unfold AgentStore.record_session_grant. moves. Qed.

Lemma moves_reset t b : moves (reset_tenant_rate t b).
Proof.
  apply steps_atomically. intros s. apply star_one, move_side; simpl; try done. by apply prefix_app_r.
Qed.

Lemma moves_decide cid granted by_ reason now : moves (decide_approval cid granted by_ reason now).
Proof.
  apply steps_atomically. intros s. unfold final, find_approval, mbind at 1, io_mbind at 1.
  destruct (db_approvals s !! cid) as [a|] eqn:Ha; [|apply star_refl].
  destruct (av_granted a || av_denied a) eqn:Hd; [apply star_refl|]. apply orb_false_iff in Hd.
  apply star_one. eapply move_decide; [exact Ha| |done|done|done|by apply prefix_app_r]. intros Hg.
  split; [done|]. eexists. split; [apply elem_of_app; right; by apply list_elem_of_singleton|]. by rewrite Hg.
Qed.

Lemma moves_reject r a reason : moves (reject r a reason).
Proof. unfold reject. moves. Qed.

Lemma moves_spend r a now who s :
  db_approvals s !! rd_cid r = Some a → av_granted a = true → av_denied a = false → av_consumed a = None →
  star agent_move s (final (spend r a now who) s).
Proof.
  intros. apply star_one. unfold final, spend. destruct (rd_grant_target r); simpl;
  (eapply move_spend; [done|done|done|done|done|done|simpl; set_solver|by apply prefix_app_r]).
Qed.

Lemma moves_redeem_row r now who : moves (redeem_row r now who).
Proof.
  intros s. unfold redeem_row. erewrite final_bind by done.
  destruct (db_approvals s !! rd_cid r) as [a|] eqn:Ha; [|apply moves_reject].
  destruct (negb (binds a r)); [apply moves_reject|]. destruct (av_denied a) eqn:Hd; [apply moves_reject|].
  destruct (negb (subject_ok _ _)); [apply moves_reject|]. destruct (is_expired a now).
  { erewrite final_bind by done. eapply star_trans; [|apply moves_reject]. apply star_one.
    eapply move_decide; [exact Ha| |done|done|done|done]; done. }
  destruct (av_granted a) eqn:Hg; [simpl|apply moves_reject]. case_bool_decide as Hc; [apply moves_reject|].
  apply moves_spend; try done. by apply eq_None_not_Some.
Qed.

Lemma moves_redeem r now who : moves (redeem r now who).
Proof.
  unfold redeem, _consume_rate_in_transaction. apply steps_atomically. destruct (rd_rate r) as [[[c l] e]|]; [|apply moves_redeem_row].
  apply steps_bind; [apply moves_counter|]. intros [[] v]; [apply moves_redeem_row|]. moves.
Qed.

(** ** What an allowed call has passed *)

(** The guards of steps 1 to 6, each on what its own read answered. *)
Record passes (c : call) (o : surroundings) (act : agent_action) (pol : agent_policy) : Prop := Passes {
  pass_kill : o_kill o = Some None;
  pass_scope : c_scope_refusal c = None;
  pass_tenant : ∃ st, o_tenant o = Ok st ∧ ts_disabled st = false ∧
    (∃ pol1 act1, o_policy o = Ok pol1 ∧
       effective_action pol1 (c_action c) (c_tier c) (Some (ts_overlay st)) = Ok (Some act1) ∧ aa_enabled act1 = true) ∧
    o_revalidated o = Ok pol ∧ effective_action pol (c_action c) (c_tier c) (Some (ts_overlay st)) = Ok (Some act);
  pass_enabled : aa_enabled act = true;
  pass_schema : _validate_args (o_jsonschema o) act (c_args c) = None;
  pass_entitled : dict_get (c_caps c) (aa_required_capability act) = Some (JBool true);
  pass_budget : ∃ limit, ap_rate_limits pol !! aa_rate_limit_category act = Some limit ∧ 0 < limit }.

Lemma look_up_cleared c ov p k act pol : look_up c ov p k = Cleared act pol →
  ∃ pol' a, p = Ok pol' ∧ effective_action pol' (c_action c) (c_tier c) (Some ov) = Ok a ∧ k pol' a = Cleared act pol.
Proof. unfold look_up. intros H. repeat case_match; try done. eauto. Qed.

Lemma admissible_cleared c o a k act pol : admissible c o a k = Cleared act pol →
  k = Cleared act pol ∧ _validate_args (o_jsonschema o) a (c_args c) = None ∧
  dict_get (c_caps c) (aa_required_capability a) = Some (JBool true).
Proof.
  unfold admissible, _has_capability, is_bool. intros H. repeat case_match; try done; simplify_eq.
  split_and!; try done. bool_prop. by subst.
Qed.

Lemma gate_checks_cleared c o act pol : gate_checks c o = Cleared act pol → passes c o act pol.
Proof.
  unfold gate_checks. intros H. destruct (o_kill o) as [[r|]|] eqn:Hk; try done.
  destruct (o_tenant o) as [st|[]] eqn:Ht; try done. destruct (ts_disabled st) eqn:Hd; [done|].
  apply look_up_cleared in H as (pol1 & a1 & Hp1 & He1 & H). destruct a1 as [act1|]; [|done].
  destruct (aa_enabled act1) eqn:Hen1; [|done]. simpl in H. destruct (c_scope_refusal c) eqn:Hs; [done|].
  apply admissible_cleared in H as (H & _ & _). apply look_up_cleared in H as (pol2 & a2 & Hp2 & He2 & H).
  destruct a2 as [act2|]; [|done]. destruct (aa_enabled act2) eqn:Hen2; [|done]. simpl in H.
  apply admissible_cleared in H as (H & Hv & Hc). case_match eqn:Hl; [done|]. injection H as -> ->.
  split; try done; [eauto 15|]. destruct (_ !! _) as [limit|]; simpl in Hl; [|done]. exists limit. split; [done|lia].
Qed.

Lemma course_run c o act how : course_of c o act = RunIt how → aa_policy act = "auto"%string ∧ o_plan_first o = false.
Proof. unfold course_of. intros H. repeat case_match; try done. by case_bool_decide. Qed.

Lemma course_grant c o act : course_of c o act = LookForGrant →
  aa_policy act = "confirm-once"%string ∧ _subject_bound_grants_required o (c_subject c) = false.
Proof. unfold course_of. intros H. repeat case_match; try done. by case_bool_decide. Qed.

(** ** Answers of the gate *)

Section postgres.
Context `{Runtime}.

Definition request := option (call * surroundings * outcome_of).

Definition grant_row (c : call) (act : agent_action) : string * string * string * string :=
  (c_tenant c, c_session c, aa_name act, dumps (JArr (JStr <$> grant_target (c_args c) (c_subject c)))).

(** The approval row a call redeemed, as it was read. *)
Definition redeemed_for (c : call) (o : surroundings) (act : agent_action) (a : approval) : Prop :=
  av_tenant a = c_tenant c ∧ av_session a = c_session c ∧ av_action a = aa_name act ∧
  av_args_hash a = canonical_args_hash (c_args c) ∧ av_granted a = true ∧ av_denied a = false ∧
  o_clock o 1 < av_expires a ∧
  (subject_match_required c o = true → ∃ u, c_subject c = Some u ∧ av_decided_by a = Some u).

Definition authorized (i : nat) (c : call) (o : surroundings) (act : agent_action) (cid : option string) (s : adb) : Prop :=
  match cid with
  | Some cid => confirmation c = Some cid ∧ ∃ a, (cid, (i, a)) ∈ db_redeemed s ∧ redeemed_for c o act a
  | None => confirmation c = None ∧
            ((aa_policy act = "auto"%string ∧ o_plan_first o = false) ∨
             (aa_policy act = "confirm-once"%string ∧ _subject_bound_grants_required o (c_subject c) = false ∧
              grant_row c act ∈ db_grants s))
  end.

Definition answers (i : nat) (c : call) (o : surroundings) (r : outcome_of) (s : adb) : Prop :=
  match r with
  | inl an => an_decision an = Allow →
              ∃ act pol, passes c o act pol ∧ authorized i c o act (an_confirmation an) s
  | inr _ => True
  end.

Definition gate_promise (i : nat) (r : request) (s : adb) : Prop :=
  match r with Some (c, o, r) => answers i c o r s | None => True end.

(** The requests the authority serves. *)
Inductive pg_arrives : prog adb request → Prop :=
| arrive_gate c o : pg_arrives (pmap (λ r, Some (c, o, r)) (postgres_gate c o))
| arrive_decision d cid granted by_ reason now :
    pg_arrives (Act (sent d (λ _, decide_approval cid granted by_ reason now)) (λ _, Ret None))
| arrive_create d cid a : pg_arrives (Act (sent d (λ _, AgentStore.create_pending cid a)) (λ _, Ret None))
| arrive_grant d t ss a k : pg_arrives (Act (sent d (λ _, AgentStore.record_session_grant t ss a k)) (λ _, Ret None))
| arrive_charge d t ca l now : pg_arrives (Act (sent d (λ _, consume_rate t ca l now)) (λ _, Ret None))
| arrive_reset d t by_ : pg_arrives (Act (sent d (λ _, reset_tenant_rate t by_)) (λ _, Ret None)).

Lemma sent_moves {A} d (op : nat → ax A) i s : moves (op i) → star agent_move s (sent d op i s).2.
Proof.
  intros Hm. specialize (Hm s). unfold final in Hm. destruct d; simpl; [|apply star_refl|done].
  by destruct (op i s) as [[a|e] s'].
Qed.

Lemma secured_sent {A R} (Q : nat → R → adb → Prop) d (op : nat → ax A) k i s :
  moves (op i) →
  (∀ a s1 s2, agent_grows s s1 → sent d op i s1 = (a, s2) → agent_grows s1 s2 → secured agent_inv agent_grows Q i (k a) s2) →
  secured agent_inv agent_grows Q i (Act (sent d op) k) s.
Proof.
  intros Hm Hk s' Hinv Hs. destruct (agent_moves_ok _ _ (sent_moves d op i s' Hm) Hinv) as [Hi Hg].
  destruct (sent d op i s') as [a s2] eqn:Ha. simpl in *. split_and!; [done|done|]. by eapply Hk.
Qed.

Lemma secured_use {A} c o d (op : nat → ax A) k i s :
  moves (op i) →
  (∀ a s1 s2, agent_grows s s2 → op i s1 = (Ok a, s2) →
              secured agent_inv agent_grows (λ i r s, answers i c o r s) i (k a) s2) →
  secured agent_inv agent_grows (λ i r s, answers i c o r s) i (use_db d op k) s.
Proof.
  intros Hm Hk. apply secured_sent; [done|]. intros [a|] s1 s2 H1 Ha H2; [|done].
  apply (Hk a s1 s2); [by etransitivity|]. unfold sent in Ha. repeat case_match; simplify_eq; done.
Qed.

Lemma authorized_grows i c o act cid s s' : agent_grows s s' → authorized i c o act cid s → authorized i c o act cid s'.
Proof.
  intros [Hh _ Hg _]. destruct cid as [cid|]; simpl.
  - intros (? & a & Ha & Hr). split; [done|]. exists a. split; [|done]. destruct Hh as [l ->]. apply elem_of_app. by right.
  - intros [? [?|(? & ? & Hin)]]; (split; [done|]); [by left|]. right. split_and!; [done|done|]. by apply Hg.
Qed.

(** A redemption that answers yes spent the very row it read. *)
Lemma redeem_row_true r now who s row reason s' : redeem_row r now who s = (Ok (true, row, reason), s') →
  ∃ a, (rd_cid r, (who, a)) ∈ db_redeemed s' ∧ binds a r = true ∧ av_granted a = true ∧ av_denied a = false ∧
       is_expired a now = false ∧ subject_ok r (av_decided_by a) = true.
Proof.
  assert (Hno : ∀ a why s0 row reason s', reject r a why s0 = (Ok (true, row, reason), s') → False).
  { intros a why s0 ??? Hx. unfold reject in Hx. destruct (_ || _); [|done]. destruct (rd_outcome r why); [done|].
    by destruct (bool_decide (why = "approval_expired"%string)). }
  unfold redeem_row. rewrite io_bind_inv. intros (o & s1 & [= <- <-] & Hk).
  destruct (db_approvals s !! rd_cid r) as [a|]; [|by apply Hno in Hk].
  destruct (binds a r) eqn:Hb; [simpl in Hk|by apply Hno in Hk]. destruct (av_denied a) eqn:Hd; [by apply Hno in Hk|].
  destruct (subject_ok r (av_decided_by a)) eqn:Hs; [simpl in Hk|by apply Hno in Hk].
  destruct (is_expired a now) eqn:He.
  { rewrite io_bind_inv in Hk. destruct Hk as (? & ? & _ & Hk). by apply Hno in Hk. }
  destruct (av_granted a) eqn:Hg; [simpl in Hk|by apply Hno in Hk]. case_bool_decide; [by apply Hno in Hk|].
  exists a. split_and!; try done. unfold spend in Hk. destruct (rd_grant_target r); injection Hk as _ _ <-; simpl; left.
Qed.

Lemma redeem_true r now who s row reason s' : redeem r now who s = (Ok (true, row, reason), s') →
  ∃ a, (rd_cid r, (who, a)) ∈ db_redeemed s' ∧ binds a r = true ∧ av_granted a = true ∧ av_denied a = false ∧
       is_expired a now = false ∧ subject_ok r (av_decided_by a) = true.
Proof.
  unfold redeem. rewrite atomically_Ok. intros Hx.
  assert (∃ s0, redeem_row r now who s0 = (Ok (true, row, reason), s')) as [s0 H0]; [|by eapply redeem_row_true].
  destruct (rd_rate r) as [[[ca l] e]|].
  - rewrite io_bind_inv in Hx. destruct Hx as ([acc v] & s2 & _ & Hk). destruct acc; [by exists s2|]. by destruct e.
  - by exists s.
Qed.

Lemma redemption_binds c o act limit cid a : binds a (redemption_of c o act limit cid) = true →
  subject_ok (redemption_of c o act limit cid) (av_decided_by a) = true →
  av_granted a = true → av_denied a = false → is_expired a (o_clock o 1) = false → redeemed_for c o act a.
Proof.
  unfold binds, subject_ok, is_expired, redeemed_for; simpl. intros Hb Hs Hg Hd He. apply orb_true_iff in Hs. bool_prop. split_and!; try done; try lia.
  intros Hr. destruct Hs as [Hs|Hs]; [by rewrite Hr in Hs|]. destruct (c_subject c); [|done]. bool_prop. eauto.
Qed.

Lemma gate_secured i c o s :
  secured agent_inv agent_grows (λ i r s, answers i c o r s) i (postgres_gate c o) s.
Proof.
  assert (Hcharge : ∀ act e limit k s,
    (∀ b t s', agent_grows s s' → secured agent_inv agent_grows (λ i r s, answers i c o r s) i (k b t) s') →
    secured agent_inv agent_grows (λ i r s, answers i c o r s) i (charge c o act limit e k) s).
  { intros act e limit k s0 Hk. apply secured_use; [apply moves_charge|]. intros a s1 s2 Hg _. by apply Hk. }
  assert (Hcreate : ∀ act pol limit s,
    secured agent_inv agent_grows (λ i r s, answers i c o r s) i (create_charged c o act pol limit) s).
  { intros act pol limit s0. apply secured_use; [apply moves_create_with_rate|]. intros [[[] row] why] s1 s2 _ _; done. }
  unfold postgres_gate. destruct (gate_checks c o) as [reason act| |act pol] eqn:Hchk; [|done|].
  { apply secured_use; [apply moves_audit|]. done. }
  apply gate_checks_cleared in Hchk. destruct (confirmation c) as [cid|] eqn:Hcid.
  { apply secured_use; [apply moves_redeem|]. intros [[[] row] reason] s1 s2 _ Hred.
    - apply redeem_true in Hred as (a & Hin & Hb & Hg & Hd & He & Hs). intros s' _ Hgrow _. exists act, pol. split; [done|].
      eapply authorized_grows; [done|]. split; [done|]. exists a. split; [done|]. by eapply redemption_binds.
    - destruct (bool_decide (reason = _) && _); done. }
  destruct (course_of c o act) eqn:Hco.
  - apply course_run in Hco. apply Hcharge. intros [] t s0 _; [|done]. intros s' _ _ _. exists act, pol. split; [done|].
    split; [done|by left].
  - apply Hcreate.
  - apply course_grant in Hco as [Hp Hb]. apply secured_use; [intros s0; apply star_refl|].
    intros granted s1 s2 _ Hgr. injection Hgr as Hgr <-. destruct granted; [|apply Hcreate]. bool_prop.
    apply Hcharge. intros [] t s3 [_ _ Hg3 _]; [|done]. intros s4 _ [_ _ Hg4 _] _. exists act, pol. split; [done|].
    split; [done|]. right. split_and!; auto.
  - apply Hcharge. intros [] t s0 _; done.
Qed.

Lemma arrivals_secured i p s : pg_arrives p → agent_inv s → secured agent_inv agent_grows gate_promise i p s.
Proof.
  intros Harr _. destruct Harr.
  - apply secured_pmap, gate_secured.
  - apply secured_sent; [apply moves_decide|done].
  - apply secured_sent; [apply moves_create|done].
  - apply secured_sent; [apply moves_record_grant|done].
  - apply secured_sent; [apply moves_charge|done].
  - apply secured_sent; [apply moves_reset|done].
Qed.

Definition agent_start : pool adb request := Pool (Adb ∅ ∅ ∅ [] []) ∅.

Lemma agent_start_ok : pool_ok agent_inv agent_grows gate_promise agent_start.
Proof. split; [split; simpl; try done; [set_solver|constructor|set_solver]|done]. Qed.

Lemma agent_reachable_ok w : star (pool_step pg_arrives) agent_start w → pool_ok agent_inv agent_grows gate_promise w.
Proof. intros Hw. by apply (pool_sound _ _ _ _ _ _ arrivals_secured Hw agent_start_ok). Qed.

Lemma agent_answer w i c o an : star (pool_step pg_arrives) agent_start w →
  requests w !! i = Some (Ret (Some (c, o, inl an))) → an_decision an = Allow →
  ∃ act pol, passes c o act pol ∧ authorized i c o act (an_confirmation an) (shared w).
Proof. intros Hw%agent_reachable_ok Hi. exact (pool_answers _ _ _ _ _ _ Hw Hi). Qed.

Lemma history_one_owner s cid i j a b : agent_inv s →
  (cid, (i, a)) ∈ db_redeemed s → (cid, (j, b)) ∈ db_redeemed s → i = j ∧ a = b.
Proof.
  intros [_ Hnd _ _] Ha Hb. by eapply history_unique.
Qed.

(** (C12) One human click authorizes one call: however gate requests, decisions,
    retries and lost connections interleave, two requests that were both allowed
    through the same confirmation id are the same request. *)
Theorem approval_authorizes_one_call w i j cid ci oi ai cj oj aj :
  star (pool_step pg_arrives) agent_start w →
  requests w !! i = Some (Ret (Some (ci, oi, inl ai))) → requests w !! j = Some (Ret (Some (cj, oj, inl aj))) →
  an_decision ai = Allow → an_decision aj = Allow →
  an_confirmation ai = Some cid → an_confirmation aj = Some cid → i = j.
Proof.
  intros Hw Hi Hj Hai Haj Hci Hcj.
  destruct (agent_answer _ _ _ _ _ Hw Hi Hai) as (? & ? & _ & H1). destruct (agent_answer _ _ _ _ _ Hw Hj Haj) as (? & ? & _ & H2).
  rewrite Hci in H1. rewrite Hcj in H2. destruct H1 as (_ & a & Ha & _). destruct H2 as (_ & b & Hb & _).
  by apply (history_one_owner (shared w) cid i j a b (proj1 (agent_reachable_ok _ Hw))).
Qed.

(** (C13) An allowed call was authorized: every guard held on what the request read
    (no kill switch, tenant enabled, action in the catalog and enabled in both
    reads, arguments valid, tier entitled, a positive budget), and either the
    action runs without asking, or a session grant names this tenant, session,
    action and target, or the call redeemed, before its deadline, an approval that
    a person granted for this very tenant, session, action and argument hash. *)
Theorem allowed_call_was_authorized w i c o an :
  star (pool_step pg_arrives) agent_start w →
  requests w !! i = Some (Ret (Some (c, o, inl an))) → an_decision an = Allow →
  ∃ act pol, passes c o act pol ∧ authorized i c o act (an_confirmation an) (shared w) ∧
    (∀ cid, an_confirmation an = Some cid → ∃ e, e ∈ db_audit (shared w) ∧ granted_event cid e).
Proof.
  intros Hw Hi Ha. destruct (agent_answer _ _ _ _ _ Hw Hi Ha) as (act & pol & Hp & Hauth).
  exists act, pol. split_and!; [done|done|]. intros cid Hc. rewrite Hc in Hauth. destruct Hauth as (_ & a & Hin & _).
  by apply (inv_history _ (proj1 (agent_reachable_ok _ Hw))) in Hin as (_ & _ & He).
Qed.

(** (C14) An action the catalog pins to [always-confirm] never runs without a fresh
    human approval: at every tier and under every overlay, an allowed call of it
    redeemed an approval of its own. *)
Theorem pinned_action_needs_approval w i c o an js defaults f pol base :
  star (pool_step pg_arrives) agent_start w →
  requests w !! i = Some (Ret (Some (c, o, inl an))) → an_decision an = Allow →
  o_revalidated o = load_policy js defaults f → load_policy js defaults f = Ok pol →
  ap_actions pol !! c_action c = Some base → aa_policy base = "always-confirm"%string →
  aa_tenant_tightenable base = false →
  ∃ cid a act, an_confirmation an = Some cid ∧ (cid, (i, a)) ∈ db_redeemed (shared w) ∧ redeemed_for c o act a ∧
               aa_name act = c_action c ∧ aa_policy act = "always-confirm"%string.
Proof.
  intros Hw Hi Ha Hrev Hload Hbase Hpol Hpin. destruct (agent_answer _ _ _ _ _ Hw Hi Ha) as (act & pol' & Hp & Hauth).
  destruct (pass_tenant _ _ _ _ Hp) as (st & _ & _ & _ & Hr & He). rewrite Hrev, Hload in Hr. injection Hr as <-.
  pose proof (load_policy_ok _ _ _ _ Hload) as Hok.
  destruct (effective_action_ok _ _ _ _ _ _ Hok Hbase He) as (_ & Hv & _ & Ho). specialize (Ho Hpin). rewrite Hpol in Ho.
  pose proof (strictest_policy _ Hv Ho) as Hact. destruct (an_confirmation an) as [cid|].
  - destruct Hauth as (_ & a & Hin & Hfor). exists cid, a, act. split_and!; try done. by eapply effective_action_name.
  - destruct Hauth as (_ & [[Hx _]|[Hx _]]); rewrite Hact in Hx; done.
Qed.
End postgres.
