(* ===== verification/AgentFilesSystem.v ===== *)
(** * Approvals under concurrency, file authority

    The same guarantees over the JSON files: requests of one process interleave
    between the sections the gate runs under [_state_lock] and the file operations it
    runs outside of it, among them the write of an expired approval from a copy that
    was read earlier.  The tokens a run draws from [secrets.token_hex] are assumed
    distinct, and made of letters and digits; the approvals directory starts empty and only the
    module writes to it. *)

From Stdlib Require Import Ascii.
From S2P Require Import Prelude PyText Json IsoTime Entitlements AgentPolicy Concurrent AgentCalls AgentStore AgentFiles AgentGate AgentSystem.
Local Open Scope Z_scope.

Class TokenLaws `{Runtime} := {
  token_hex_inj n m : (n < token_supply)%nat → (m < token_supply)%nat → token_hex n = token_hex m → n = m;
  token_hex_path n : (n < token_supply)%nat → _approval_path (token_hex n) = Ok (token_hex n) }.

(** ** Documents *)

Definition record_at (s : files) (stem : string) (r : record) : Prop :=
  fs_approvals s !! stem = Some (Contents (Some (JObj r))).

(** What an approval is bound to. *)
Definition doc_binding (r : record) : list (option json) := dict_get r <$> _RECORD_STR_FIELDS.

(** The document can never be redeemed again. *)
Definition spent (r : record) : Prop :=
  is_Some (dict_get r "consumed_at") ∨ dict_get r "denied" = Some (JBool true).

Section files.
Context `{TokenLaws}.

Inductive file_move : files → files → Prop :=
| fmove_side s s' : fs_approvals s' = fs_approvals s → fs_redeemed s' = fs_redeemed s → (fs_drawn s <= fs_drawn s')%nat →
    file_move s s'
| fmove_file s s' r : (fs_drawn s < token_supply)%nat → NoDup r.*1 → dict_get r "confirmation_id" = Some (JStr (token_hex (fs_drawn s))) →
    fs_approvals s' = <[token_hex (fs_drawn s) := Contents (Some (JObj r))]> (fs_approvals s) →
    fs_redeemed s' = fs_redeemed s → fs_drawn s' = S (fs_drawn s) → file_move s s'
| fmove_rewrite s s' stem r r' : record_at s stem r → NoDup r'.*1 → doc_binding r' = doc_binding r → (spent r → spent r') →
    fs_approvals s' = <[stem := Contents (Some (JObj r'))]> (fs_approvals s) →
    fs_redeemed s' = fs_redeemed s → fs_drawn s' = fs_drawn s → file_move s s'
| fmove_spend s s' stem who r now : record_at s stem r →
    dict_get r "granted" = Some (JBool true) → dict_get r "denied" = Some (JBool false) → dict_get r "consumed_at" = None →
    fs_approvals s' = <[stem := Contents (Some (JObj (dict_set r "consumed_at" (JStr (_iso now)))))]> (fs_approvals s) →
    fs_redeemed s' = (stem, (who, r)) :: fs_redeemed s → fs_drawn s' = fs_drawn s → file_move s s'.

Record files_inv (s : files) : Prop := FilesInv {
  finv_docs : ∀ stem f, fs_approvals s !! stem = Some f → ∃ r n, f = Contents (Some (JObj r)) ∧ NoDup r.*1 ∧
    stem = token_hex n ∧ (n < fs_drawn s ∧ n < token_supply)%nat ∧ dict_get r "confirmation_id" = Some (JStr stem);
  finv_spent : ∀ cid who r, (cid, (who, r)) ∈ fs_redeemed s → ∃ r', record_at s cid r' ∧ spent r' ∧ doc_binding r' = doc_binding r;
  finv_once : NoDup (fs_redeemed s).*1;
  finv_history : ∀ cid who r, (cid, (who, r)) ∈ fs_redeemed s →
    dict_get r "granted" = Some (JBool true) ∧ dict_get r "denied" = Some (JBool false) }.

Record files_grow (s s' : files) : Prop := FilesGrow {
  fgrow_history : fs_redeemed s `suffix_of` fs_redeemed s';
  fgrow_docs : ∀ stem r, record_at s stem r → ∃ r', record_at s' stem r' ∧ doc_binding r' = doc_binding r ∧ (spent r → spent r') }.

#[export] Instance files_grow_preorder : PreOrder files_grow.
Proof.
  split.
  - intros s. split; [done|]. intros stem r Hr. by exists r.
  - intros s1 s2 s3 [H1 D1] [H2 D2]. split; [by etransitivity|]. intros stem r Hr.
    destruct (D1 _ _ Hr) as (r2 & Hr2 & B2 & S2). destruct (D2 _ _ Hr2) as (r3 & Hr3 & B3 & S3).
    exists r3. split_and!; [done|congruence|auto].
Qed.

Lemma doc_binding_set r k v : k ∉ _RECORD_STR_FIELDS → doc_binding (dict_set r k v) = doc_binding r.
Proof.
  intros Hk. unfold doc_binding. apply list_fmap_ext. intros i f Hf. rewrite dict_get_set, decide_False; [done|].
  intros ->. by apply list_elem_of_lookup_2 in Hf.
Qed.

Lemma docs_grow_insert s s' stem r r' :
  record_at s stem r → fs_approvals s' = <[stem := Contents (Some (JObj r'))]> (fs_approvals s) →
  doc_binding r' = doc_binding r → (spent r → spent r') →
  ∀ c x, record_at s c x → ∃ x', record_at s' c x' ∧ doc_binding x' = doc_binding x ∧ (spent x → spent x').
Proof.
  unfold record_at. intros Hr Hs Hb Hsp c x Hx. rewrite Hs. destruct (decide (c = stem)) as [->|Hne].
  - rewrite Hr in Hx. injection Hx as <-. exists r'. by rewrite lookup_insert_eq.
  - exists x. by rewrite lookup_insert_ne.
Qed.

Lemma spend_binding r now : doc_binding (dict_set r "consumed_at" (JStr (_iso now))) = doc_binding r.
Proof. apply doc_binding_set. set_solver. Qed.

Lemma spent_stamped r now : spent (dict_set r "consumed_at" (JStr (_iso now))).
Proof. left. rewrite dict_get_set. by eexists. Qed.

Lemma file_move_grows s s' : files_inv s → file_move s s' → files_grow s s'.
Proof.
  intros [Hdocs _ _ _] Hmove. destruct Hmove as [s s' Ha Hr Hn|s s' r Hlt Hnd Hc Ha Hr Hn|s s' stem r r' Hr0 Hnd Hb Hsp Ha Hr Hn
    |s s' stem who r now Hr0 Hg Hd Hc Ha Hr Hn]; split; try (by rewrite Hr).
  - unfold record_at. rewrite Ha. eauto.
  - intros stem x Hx. exists x. split_and!; [|done|done]. unfold record_at. rewrite Ha, lookup_insert_ne; [done|].
    intros <-. destruct (Hdocs _ _ Hx) as (? & n & _ & _ & Heq & [? ?] & _).
    apply token_hex_inj in Heq; [lia|done|done].
  - by eapply docs_grow_insert.
  - rewrite Hr. by apply suffix_cons_r.
  - eapply docs_grow_insert; [done|done|apply spend_binding|intros _; apply spent_stamped].
Qed.

Lemma file_move_inv s s' : file_move s s' → files_inv s → files_inv s'.
Proof.
  intros Hmove Hinv. pose proof (file_move_grows _ _ Hinv Hmove) as [_ Hgrow]. destruct Hinv as [Hdocs Hsp Hon Hhi].
  assert (Hold : ∀ cid who r, (cid, (who, r)) ∈ fs_redeemed s → ∃ r', record_at s' cid r' ∧ spent r' ∧ doc_binding r' = doc_binding r).
  { intros cid who r Hin. destruct (Hsp _ _ _ Hin) as (r1 & Hr1 & Hs1 & Hb1).
    destruct (Hgrow _ _ Hr1) as (r2 & ? & ? & ?). exists r2. split_and!; [done|auto|congruence]. }
  assert (Hdoc : ∀ stem r r', record_at s stem r → NoDup r'.*1 → doc_binding r' = doc_binding r → ∀ c f,
    <[stem := Contents (Some (JObj r'))]> (fs_approvals s) !! c = Some f → ∃ x n, f = Contents (Some (JObj x)) ∧ NoDup x.*1 ∧
      c = token_hex n ∧ (n < fs_drawn s ∧ n < token_supply)%nat ∧ dict_get x "confirmation_id" = Some (JStr c)).
  { intros stem r r' Hr Hnd Hb c f. rewrite lookup_insert_Some. intros [[<- <-]|[_ Hf]]; [|eauto].
    destruct (Hdocs _ _ Hr) as (x & n & [= <-] & _ & Hst & Hn & Hc). exists r', n. split_and!; try done; try apply Hn.
    unfold doc_binding in Hb. simpl in Hb. by injection Hb as -> _. }
  destruct Hmove as [s s' Ha Hr Hn|s s' r Hlt Hnd Hc Ha Hr Hn|s s' stem r r' Hr0 Hnd Hb Hspr Ha Hr Hn
    |s s' stem who r now Hr0 Hg Hd Hc Ha Hr Hn]; split; rewrite ?Hr, ?Hn, ?Ha; try done.
  - intros stem f Hf. destruct (Hdocs _ _ Hf) as (r & n & ? & ? & ? & ? & ?). exists r, n. split_and!; try done; lia.
  - intros stem f. rewrite lookup_insert_Some. intros [[<- <-]|[_ Hf]].
    + exists r, (fs_drawn s). split_and!; try done; lia.
    + destruct (Hdocs _ _ Hf) as (x & n & ? & ? & ? & ? & ?). exists x, n. split_and!; try done; lia.
  - by eapply Hdoc.
  - eapply Hdoc; [done| |apply spend_binding]. apply dict_set_nodup. by destruct (Hdocs _ _ Hr0) as (x & n & [= <-] & ? & _).
  - intros cid w x [[= -> -> ->]|Hin]%elem_of_cons; [|eauto].
    exists (dict_set r "consumed_at" (JStr (_iso now))). split_and!; [|apply spent_stamped|apply spend_binding].
    unfold record_at. by rewrite Ha, lookup_insert_eq.
  - simpl. constructor; [|done]. intros [[c [w x]] [Heq Hin]]%list_elem_of_fmap. simpl in Heq. subst c.
    destruct (Hsp _ _ _ Hin) as (r' & Hr' & Hs' & _). unfold record_at in *. rewrite Hr0 in Hr'. injection Hr' as <-.
    destruct Hs' as [[? ?]|?]; congruence.
  - intros cid w x [[= -> -> ->]|Hin]%elem_of_cons; eauto.
Qed.

Lemma file_moves_ok s s' : star file_move s s' → files_inv s → files_inv s' ∧ files_grow s s'.
Proof.
  induction 1 as [s|s1 s2 s3 H1 _ IH]; intros Hinv; [done|].
  pose proof (file_move_grows _ _ Hinv H1). destruct (IH (file_move_inv _ _ H1 Hinv)) as [? ?].
  split; [done|]. by etransitivity.
Qed.

(** ** The sections of the gate *)

Lemma dict_get_nodup r : NoDup r.*1 → dict_of r = r.
Proof. apply dict_of_id. Qed.

(** What a read finds, and where it lives: the id is the stem. *)
Lemma read_pending_found cid s r s' : files_inv s → read_pending cid s = (Ok (Some r), s') →
  s' = s ∧ record_at s cid r ∧ _record_is_wellformed r cid = true.
Proof.
  intros Hinv. unfold read_pending, read_pending_strict. rewrite io_bind_inv. intros ([o st] & s1 & Hrd & [= -> <-]).
  rewrite io_bind_inv in Hrd. destruct Hrd as (stem & s2 & Hst & Hk). injection Hst as Hpath <-. injection Hk as Hk <-.
  destruct (fs_approvals s !! stem) as [f|] eqn:Hf; [|done].
  destruct (finv_docs _ Hinv _ _ Hf) as (x & n & -> & Hnd & -> & Hn & Hcid). rewrite dict_of_id in Hk by done.
  destruct (_record_is_wellformed x cid) eqn:Hwf; [|done]. injection Hk as <-.
  assert (cid = token_hex n) as ->; [|done].
  unfold _record_is_wellformed, is_str in Hwf. rewrite Hcid in Hwf. bool_prop. naive_solver.
Qed.

Lemma read_pending_state cid s r s' : read_pending cid s = (r, s') → s' = s.
Proof.
  unfold read_pending, read_pending_strict, mbind, io_mbind, lift. unfold gets. destruct (_approval_path cid); simpl; intros Hx; by inversion Hx.
Qed.

Lemma write_at s stem r r' fault : files_inv s → record_at s stem r → dict_get r' "confirmation_id" = dict_get r "confirmation_id" →
  ∃ res, _write_pending fault r' s =
    (res, if fault then s else set_approvals (<[stem := Contents (Some (JObj r'))]> (fs_approvals s)) s) ∧
    res = if fault then Err OSError else Ok tt.
Proof.
  intros Hinv Hr Hc. destruct (finv_docs _ Hinv _ _ Hr) as (x & n & [= <-] & _ & -> & [_ Hlt] & Hcid).
  unfold _write_pending. rewrite Hc, Hcid. simpl. rewrite token_hex_path by done. simpl. destruct fault; eauto.
Qed.

Lemma decided_get r g b why now k : dict_get (decided_record r g b why now) k =
  if decide (k = "reason"%string) then Some (JStr why) else if decide (k = "decided_by"%string) then Some (JStr b)
  else if decide (k = "decided_at"%string) then Some (JStr (_iso now)) else if decide (k = "denied"%string) then Some (JBool (negb g))
  else if decide (k = "granted"%string) then Some (JBool g) else dict_get r k.
Proof. unfold decided_record. by rewrite !dict_get_set. Qed.

Lemma decided_binding r g b why now : doc_binding (decided_record r g b why now) = doc_binding r.
Proof. unfold decided_record. rewrite !doc_binding_set by set_solver. done. Qed.

Lemma decided_nodup r g b why now : NoDup r.*1 → NoDup (decided_record r g b why now).*1.
Proof. intros. unfold decided_record. by repeat apply dict_set_nodup. Qed.

Lemma decided_spent_false r b why now : spent (decided_record r false b why now).
Proof. right. by rewrite decided_get. Qed.

Lemma binding_cid r r' : doc_binding r' = doc_binding r → dict_get r' "confirmation_id" = dict_get r "confirmation_id".
Proof. unfold doc_binding. simpl. by intros [= -> _]. Qed.

Definition fmoves {A} (m : fx A) : Prop := ∀ s, files_inv s → star file_move s (final m s).

(** Rewriting a document under its own id, from whatever copy has its binding. *)
Lemma rewrite_moves s stem r r' fault :
  files_inv s → record_at s stem r → NoDup r'.*1 → doc_binding r' = doc_binding r → (spent r → spent r') →
  star file_move s (final (_write_pending fault r') s).
Proof.
  intros Hinv Hr Hnd Hb Hsp. destruct (write_at s stem r r' fault Hinv Hr (binding_cid _ _ Hb)) as (res & Hw & _).
  unfold final. rewrite Hw. simpl. destruct fault; [apply star_refl|]. apply star_one. by eapply fmove_rewrite.
Qed.

Lemma decide_moves s stem r0 r fault g b why now :
  files_inv s → record_at s stem r → NoDup r0.*1 → doc_binding r0 = doc_binding r →
  (spent r → spent (decided_record r0 g b why now)) →
  star file_move s (final (_decide fault r0 g b why now) s).
Proof.
  intros Hinv Hr Hnd Hb Hsp. unfold _decide.
  assert (Hw : star file_move s (final (_write_pending fault (decided_record r0 g b why now)) s)).
  { eapply rewrite_moves; [done|done|by apply decided_nodup| |done]. by rewrite decided_binding. }
  unfold final, mbind, io_mbind in *. by destruct (_write_pending _ _ s) as [[]].
Qed.

Lemma final_ret {A B} (m : fx A) (f : A → B) s : final (a ← m; mret (f a)) s = final m s.
Proof. unfold final, mbind, io_mbind. by destruct (m s) as [[]]. Qed.

Lemma undecided_spent r g b why now : truthy_flag r "granted" || truthy_flag r "denied" = false →
  spent r → spent (decided_record r g b why now).
Proof.
  unfold truthy_flag, is_bool. intros Hu [Hc|Hd]; [left; by rewrite decided_get|].
  rewrite Hd in Hu. simpl in Hu. by rewrite orb_true_r in Hu.
Qed.

Lemma fmoves_found {A} cid (k : option record → fx A) :
  (∀ s, files_inv s → star file_move s (final (k None) s)) →
  (∀ s r, files_inv s → record_at s cid r → NoDup r.*1 → star file_move s (final (k (Some r)) s)) →
  fmoves (read_pending cid ≫= k).
Proof.
  intros Hno Hyes s Hinv. destruct (read_pending cid s) as [[[r|]|e] s1] eqn:Hrd.
  - destruct (read_pending_found _ _ _ _ Hinv Hrd) as (-> & Hr & _). erewrite final_bind by done.
    apply Hyes; [done|done|]. by destruct (finv_docs _ Hinv _ _ Hr) as (x & n & [= <-] & ? & _).
  - pose proof (read_pending_state _ _ _ _ Hrd) as ->. erewrite final_bind by done. by apply Hno.
  - pose proof (read_pending_state _ _ _ _ Hrd) as ->. unfold final, mbind, io_mbind. rewrite Hrd. apply star_refl.
Qed.

Lemma fmoves_grant fault cid b now : fmoves (grant_approval fault cid b now).
Proof.
  apply fmoves_found; [intros; apply star_refl|]. intros s r Hinv Hr Hnd.
  destruct (_ || _) eqn:Hu; [apply star_refl|]. destruct (_is_expired r now); rewrite final_ret;
    (eapply decide_moves; [done|done|done|done|by apply undecided_spent]).
Qed.

Lemma fmoves_deny fault cid b why now : fmoves (deny_approval fault cid b why now).
Proof.
  apply fmoves_found; [intros; apply star_refl|]. intros s r Hinv Hr Hnd.
  destruct (_ || _) eqn:Hu; [apply star_refl|]. rewrite final_ret.
  eapply decide_moves; [done|done|done|done|by apply undecided_spent].
Qed.

Lemma new_record_nodup cid t ss tu act args now ttl : NoDup (_new_pending_record cid t ss tu act args now ttl).*1.
Proof. unfold _new_pending_record. simpl. apply (bool_decide_unpack _). vm_compute. done. Qed.

Lemma fmoves_create fault t ss tu act args now ttl : fmoves (AgentFiles.create_pending fault t ss tu act args now ttl).
Proof.
  intros s Hinv. unfold AgentFiles.create_pending. destruct (decide (fs_drawn s < token_supply)%nat) as [Hlt|Hge].
  - erewrite final_bind by (unfold draw_token; by rewrite bool_decide_true). cbv zeta. rewrite (final_ret _ (λ _, _)).
    unfold _write_pending. simpl. rewrite token_hex_path by done. unfold final. simpl. destruct fault; simpl.
    + apply star_one, fmove_side; simpl; [done|done|lia].
    + apply star_one. eapply fmove_file; [done|apply new_record_nodup|done|done|done|done].
  - unfold final, mbind, io_mbind, draw_token. rewrite bool_decide_false by done. apply star_refl.
Qed.

Lemma redeem_locked_moves fault cid req sub now who : fmoves (redeem_locked fault cid req sub now who).
Proof.
  apply fmoves_found; [intros; apply star_refl|]. intros s r Hinv Hr Hnd.
  case_bool_decide as Hc; [apply star_refl|]. destruct (_ || _) eqn:Hg; [apply star_refl|].
  destruct (decided_by_subject req sub r); [simpl|apply star_refl]. destruct (_is_expired r now); [apply star_refl|].
  destruct (write_at s cid r (dict_set r "consumed_at" (JStr (_iso now))) fault Hinv Hr) as (res & Hw & Hres).
  { by rewrite dict_get_set. }
  unfold final, mbind, io_mbind. rewrite Hw, Hres. destruct fault; simpl; [apply star_refl|].
  apply star_one. unfold is_bool in Hg. eapply fmove_spend; [exact Hr| | |by apply eq_None_not_Some|done|done|done];
    repeat case_match; bool_prop; naive_solver.
Qed.

Lemma fmoves_grant_key fault t ss a k now : fmoves (AgentFiles.record_session_grant fault t ss a k now).
Proof.
  intros s _. unfold final, AgentFiles.record_session_grant. destruct fault; [apply star_refl|].
  apply star_one, fmove_side; simpl; [done|done|lia].
Qed.

Lemma fmoves_rate fault t c l now : fmoves (_rate_check_and_record fault t c l now).
Proof.
  intros s _. unfold final, _rate_check_and_record. repeat case_match; simpl; try apply star_refl;
    apply star_one, fmove_side; simpl; done || lia.
Qed.

Lemma fmoves_reset fault t : fmoves (reset_tenant_rate_state fault t).
Proof.
  intros s _. unfold final, reset_tenant_rate_state. repeat case_match; simpl; try apply star_refl;
    apply star_one, fmove_side; simpl; done || lia.
Qed.

(** ** Answers of the gate *)

(** The document a call redeemed, as it was read under the lock. *)
Definition file_redeemed_for (c : call) (o : surroundings) (act : agent_action) (r : record) : Prop :=
  record_binds c act r = true ∧ dict_get r "granted" = Some (JBool true) ∧ dict_get r "denied" = Some (JBool false) ∧
  _is_expired r (o_clock o 2) = false ∧ decided_by_subject (subject_match_required c o) (c_subject c) r = true.

Definition file_authorized (i : nat) (c : call) (o : surroundings) (act : agent_action) (cid : option string) (s : files) : Prop :=
  match cid with
  | Some cid => confirmation c = Some cid ∧ ∃ r, (cid, (i, r)) ∈ fs_redeemed s ∧ file_redeemed_for c o act r
  | None => confirmation c = None ∧
            ((aa_policy act = "auto"%string ∧ o_plan_first o = false) ∨
             (aa_policy act = "confirm-once"%string ∧ _subject_bound_grants_required o (c_subject c) = false))
  end.

Definition file_answers (c : call) (o : surroundings) (i : nat) (r : outcome_of) (s : files) : Prop :=
  match r with
  | inl an => an_decision an = Allow → ∃ act pol, passes c o act pol ∧ file_authorized i c o act (an_confirmation an) s
  | inr _ => True
  end.

Definition file_promise (i : nat) (r : request) (s : files) : Prop :=
  match r with Some (c, o, r) => file_answers c o i r s | None => True end.

Inductive file_arrives : prog files request → Prop :=
| farrive_gate c o : file_arrives (pmap (λ r, Some (c, o, r)) (legacy_gate c o))
| farrive_grant fault cid b now : file_arrives (Act (sent Delivered (λ _, grant_approval fault cid b now)) (λ _, Ret None))
| farrive_deny fault cid b why now : file_arrives (Act (sent Delivered (λ _, deny_approval fault cid b why now)) (λ _, Ret None))
| farrive_create fault t ss tu act args now ttl :
    file_arrives (Act (sent Delivered (λ _, AgentFiles.create_pending fault t ss tu act args now ttl)) (λ _, Ret None))
| farrive_reset fault t : file_arrives (Act (sent Delivered (λ _, reset_tenant_rate_state fault t)) (λ _, Ret None)).

Abbreviation fsecured := (secured files_inv files_grow).

Lemma fsecured_sent {A R} (Q : nat → R → files → Prop) (op : nat → fx A) k i s :
  (∀ s1, files_inv s1 → files_grow s s1 → star file_move s1 (final (op i) s1)) →
  (∀ a s1 s2, files_inv s1 → files_grow s s1 → op i s1 = (Ok a, s2) → files_grow s s2 → fsecured Q i (k (Some a)) s2) →
  (∀ s2, fsecured Q i (k None) s2) →
  fsecured Q i (Act (sent Delivered op) k) s.
Proof.
  intros Hm Hk Hn s1 Hinv Hg. specialize (Hm s1 Hinv Hg). unfold final, sent in *.
  destruct (op i s1) as [[a|e] s2] eqn:Ho; simpl in *; destruct (file_moves_ok _ _ Hm Hinv) as [? ?]; split_and!; try done.
  eapply Hk; [exact Hinv|done|done|by etransitivity].
Qed.

Lemma fsecured_use {A} c o (op : nat → fx A) k i s :
  (∀ s1, files_inv s1 → files_grow s s1 → star file_move s1 (final (op i) s1)) →
  (∀ a s1 s2, files_inv s1 → files_grow s s1 → op i s1 = (Ok a, s2) → files_grow s s2 → fsecured (file_answers c o) i (k a) s2) →
  fsecured (file_answers c o) i (use_files op k) s.
Proof. intros Hm Hk. by apply fsecured_sent. Qed.

Lemma redeem_locked_allow fault cid req sub now who s s' : files_inv s →
  redeem_locked fault cid req sub now who s = (Ok "allow_via_approval"%string, s') →
  ∃ r, (cid, (who, r)) ∈ fs_redeemed s' ∧ record_at s cid r ∧ dict_get r "granted" = Some (JBool true) ∧
       dict_get r "denied" = Some (JBool false) ∧ decided_by_subject req sub r = true ∧ _is_expired r now = false.
Proof.
  intros Hinv. unfold redeem_locked. rewrite io_bind_inv. intros (o & s1 & Hrd & Hk). destruct o as [r|]; [|done].
  destruct (read_pending_found _ _ _ _ Hinv Hrd) as (-> & Hr & _).
  case_bool_decide; [done|]. destruct (_ || _) eqn:Hg; [done|]. destruct (decided_by_subject req sub r) eqn:Hs; [|done].
  simpl in Hk. destruct (_is_expired r now) eqn:He; [done|]. rewrite io_bind_inv in Hk. destruct Hk as ([] & s2 & _ & Hk).
  injection Hk as <-. exists r. split_and!; try done; [left| |]; unfold is_bool in Hg; repeat case_match; bool_prop; naive_solver.
Qed.

Lemma record_binds_same c act r r' : doc_binding r' = doc_binding r → record_binds c act r' = record_binds c act r.
Proof. unfold doc_binding, record_binds. simpl. by intros [= _ -> -> -> -> _]. Qed.

Lemma file_authorized_grows i c o act cid s s' : files_grow s s' → file_authorized i c o act cid s → file_authorized i c o act cid s'.
Proof.
  intros [[l Hh] _]. destruct cid as [cid|]; simpl; [|done]. intros (? & r & Hr & ?). split; [done|]. exists r.
  split; [|done]. rewrite Hh. apply elem_of_app. by right.
Qed.

Lemma file_allow i c o act pol how cid s : passes c o act pol → file_authorized i c o act cid s →
  fsecured (file_answers c o) i (Ret (allow_with how act cid)) s.
Proof. intros Hp Ha s' _ Hg _. exists act, pol. split; [done|]. by eapply file_authorized_grows. Qed.

(** After the pre-lock checks on a copy, the locked section spends the document of the
    same binding. *)
Lemma redeem_files_secured i c o act pol cid s : passes c o act pol → confirmation c = Some cid →
  fsecured (file_answers c o) i (redeem_files c o act cid) s.
Proof.
  intros Hp Hcid. apply fsecured_use.
  { intros s1 _ _. unfold final. destruct (read_pending cid s1) eqn:Hrd. apply read_pending_state in Hrd as ->. apply star_refl. }
  intros [r|] s1 s2 Hinv _ Hrd _; [|done]. destruct (read_pending_found _ _ _ _ Hinv Hrd) as (-> & Hr & _).
  destruct (record_binds c act r) eqn:Hb; [simpl|done]. destruct (is_bool (dict_get r "denied") false); [simpl|done].
  destruct (decided_by_subject _ _ r); [simpl|done]. destruct (_is_expired r (o_clock o 1)).
  - apply fsecured_use; [|done]. intros s2 Hinv2 [_ Hg]. destruct (Hg _ _ Hr) as (r2 & Hr2 & Hb2 & _).
    eapply decide_moves; [done|done| |done|intros _; apply decided_spent_false].
    by destruct (finv_docs _ Hinv _ _ Hr) as (x & n & [= <-] & ? & _).
  - destruct (is_bool (dict_get r "granted") true); [|done].
    apply fsecured_use; [intros; by apply redeem_locked_moves|]. intros why s2 s3 Hinv2 [_ Hg] Hred _.
    case_bool_decide as Hwhy; [subst why|done].
    destruct (redeem_locked_allow _ _ _ _ _ _ _ _ Hinv2 Hred) as (r2 & Hin & Hr2 & Hgr & Hd & Hs & He).
    assert (Hauth : file_authorized i c o act (Some cid) s3).
    { split; [done|]. exists r2. split; [done|]. split_and!; try done. destruct (Hg _ _ Hr) as (r2' & Hr2' & Hb2 & _).
      unfold record_at in *. rewrite Hr2 in Hr2'. injection Hr2' as <-. by rewrite (record_binds_same c act r). }
    unfold after_redeeming. destruct (_ && _); [|by eapply file_allow].
    apply fsecured_use; [intros; by apply fmoves_grant_key|]. intros [] s4 s5 _ _ _ Hg'.
    eapply file_allow; [done|]. by eapply file_authorized_grows.
Qed.

Lemma legacy_gate_secured i c o s : fsecured (file_answers c o) i (legacy_gate c o) s.
Proof.
  assert (Hcreate : ∀ act pol s, fsecured (file_answers c o) i (create_and_await c o act pol) s).
  { intros act pol s0. apply fsecured_use; [intros; by apply fmoves_create|]. done. }
  unfold legacy_gate. destruct (gate_checks c o) as [why act| |act pol] eqn:Hchk; [done|done|].
  apply gate_checks_cleared in Hchk. apply fsecured_use; [intros; by apply fmoves_rate|].
  intros [ok why] s1 s2 _ _ _ _. destruct ok; [simpl|done]. destruct (confirmation c) as [cid|] eqn:Hcid; [by eapply redeem_files_secured|].
  destruct (course_of c o act) eqn:Hco.
  - apply course_run in Hco. eapply file_allow; [done|]. split; [done|by left].
  - apply Hcreate.
  - apply course_grant in Hco. apply fsecured_use; [intros; apply star_refl|].
    intros [] s3 s4 _ _ _ _; [|apply Hcreate]. eapply file_allow; [done|]. split; [done|by right].
  - done.
Qed.

Lemma file_arrivals_secured i p s : file_arrives p → files_inv s → fsecured file_promise i p s.
Proof.
  intros Harr _. destruct Harr.
  - apply secured_pmap, legacy_gate_secured.
  - apply fsecured_sent; [intros; by apply fmoves_grant|done|done].
  - apply fsecured_sent; [intros; by apply fmoves_deny|done|done].
  - apply fsecured_sent; [intros; by apply fmoves_create|done|done].
  - apply fsecured_sent; [intros; by apply fmoves_reset|done|done].
Qed.

Definition files_start (grants : file_state) (rate : rate_file) : pool files request := Pool (Files ∅ grants rate 0 []) ∅.

Lemma files_start_ok grants rate : pool_ok files_inv files_grow file_promise (files_start grants rate).
Proof. split; [split; simpl; try done; [set_solver|constructor|set_solver]|done]. Qed.

Lemma files_reachable_ok grants rate w : star (pool_step file_arrives) (files_start grants rate) w →
  pool_ok files_inv files_grow file_promise w.
Proof. intros Hw. by apply (pool_sound _ _ _ _ _ _ file_arrivals_secured Hw (files_start_ok _ _)). Qed.

Lemma file_history_one_owner s cid i j a b : files_inv s →
  (cid, (i, a)) ∈ fs_redeemed s → (cid, (j, b)) ∈ fs_redeemed s → i = j ∧ a = b.
Proof. intros [_ _ Hnd _] Ha Hb. by eapply history_unique. Qed.

(** The file authority gives the same guarantee within one process: every allowed
    call passed every guard, and one allowed through a confirmation id redeemed the
    document of this very tenant, session, action and argument hash, granted by the
    right person and still live under the lock; no other request was allowed
    through that id, also when a stale copy of an expired approval is written back
    in between. *)
Theorem file_approval_authorizes_one_call grants rate w i c o an :
  star (pool_step file_arrives) (files_start grants rate) w →
  requests w !! i = Some (Ret (Some (c, o, inl an))) → an_decision an = Allow →
  (∃ act pol, passes c o act pol ∧ file_authorized i c o act (an_confirmation an) (shared w)) ∧
  (∀ cid j c' o' an', an_confirmation an = Some cid → requests w !! j = Some (Ret (Some (c', o', inl an'))) →
     an_decision an' = Allow → an_confirmation an' = Some cid → i = j).
Proof.
  intros Hw%files_reachable_ok Hi Ha. pose proof (pool_answers _ _ _ _ _ _ Hw Hi Ha) as Hans. split; [done|].
  intros cid j c' o' an' Hc Hj Ha' Hc'. pose proof (pool_answers _ _ _ _ _ _ Hw Hj Ha') as (? & ? & _ & H2).
  destruct Hans as (? & ? & _ & H1). rewrite Hc in H1. rewrite Hc' in H2.
  destruct H1 as (_ & a & H1 & _). destruct H2 as (_ & b & H2 & _).
  by apply (file_history_one_owner (shared w) cid i j a b (proj1 Hw)).
Qed.
End files.
