(* ===== verification/AgentBudget.v ===== *)
(** * Budgets and session grants of the file authority

    The rate snapshot as a sliding hour, and the grants file as a set of exact
    (tenant, session, action, target) keys. *)

From Stdlib Require Import Ascii.
From stdpp Require Import sorting.
From S2P Require Import Prelude PyText Json IsoTime Entitlements AgentPolicy Concurrent AgentCalls AgentFiles.
Local Open Scope Z_scope.

(** ** Time stamps read back *)

Definition no_Z (l : list ascii) : Prop := Forall (λ c, c ≠ "Z"%char) l.

Lemma no_Z_app l l' : no_Z l → no_Z l' → no_Z (l ++ l').
Proof. intros. by apply Forall_app_2. Qed.
Lemma no_Z_cons c l : c ≠ "Z"%char → no_Z l → no_Z (c :: l).
Proof. intros. by apply Forall_cons_2. Qed.

Lemma digits_no_Z w n : 0 <= n → no_Z (zero_pad w n).
Proof.
  intros Hn. eapply Forall_impl; [by apply zero_pad_digits|]. intros c Hc ->. by vm_compute in Hc.
Qed.

Lemma iso_shape t : in_datetime_range t = true → t mod US_PER_S = 0 →
  ∃ p, isoformat_chars t = p ++ chars "+00:00" ∧ length p = 19%nat ∧ no_Z p.
Proof.
  intros Hr Hmod. unfold in_datetime_range, MIN_US, MAX_US in Hr. unfold isoformat_chars.
  destruct (civil_from_days (t / US_PER_DAY)) as [[y m] d] eqn:Hcivil.
  pose proof (civil_roundtrip _ _ _ _ Hcivil) as (_ & Hm & Hd & Hy).
  assert (1 <= y <= 9999) as Hy' by (apply Hy; unfold US_PER_DAY, US_PER_S in *; lia).
  set (us := t mod US_PER_DAY).
  assert (0 <= us < US_PER_DAY ∧ us mod US_PER_S = 0) as [Hus Hf] by (subst us; unfold US_PER_DAY, US_PER_S in *; lia).
  rewrite Hf. simpl. set (s := us / US_PER_S).
  assert (0 <= s < 86400) as Hs by (subst s; unfold US_PER_DAY, US_PER_S in *; lia).
  assert (0 <= s / 3600 < 24 ∧ 0 <= s mod 3600 / 60 < 60 ∧ 0 <= s mod 60 < 60) as (Hh & Hmi & Hse) by lia.
  clearbody s us.
  exists (zero_pad 4 y ++ hyphen :: zero_pad 2 m ++ hyphen :: zero_pad 2 d ++ "T"%char ::
          zero_pad 2 (s / 3600) ++ colon :: zero_pad 2 (s mod 3600 / 60) ++ colon :: zero_pad 2 (s mod 60)).
  split_and!.
  - rewrite <- !app_assoc. simpl. do 2 f_equal. rewrite <- !app_assoc. simpl. do 2 f_equal. rewrite <- !app_assoc. simpl. do 2 f_equal.
    rewrite <- !app_assoc. simpl. do 2 f_equal. rewrite <- !app_assoc. done.
  - rewrite !length_app. simpl. rewrite !length_app. simpl. rewrite !length_app. simpl. rewrite !length_app. simpl. rewrite !length_app. simpl.
    rewrite !zero_pad_length by (simpl; lia). done.
  - repeat first [apply digits_no_Z; lia | apply no_Z_app | apply no_Z_cons; [done|]].
Qed.

Lemma put_back l : no_Z l → (l ≫= λ c, if bool_decide (c = "Z"%char) then chars "+00:00" else [c]) = l.
Proof.
  induction 1 as [|c l Hc _ IH]; [done|]. simpl. rewrite bool_decide_false by done. simpl. by f_equal.
Qed.

Lemma parse_iso_iso t : in_datetime_range (t / US_PER_S * US_PER_S) = true → _parse_iso (_iso t) = Some (t / US_PER_S * US_PER_S).
Proof.
  intros Hr. set (u := t / US_PER_S * US_PER_S) in *.
  assert (Hmod : u mod US_PER_S = 0) by (subst u; unfold US_PER_S; lia).
  destruct (iso_shape u Hr Hmod) as (p & Hp & Hl & Hz). unfold _parse_iso, _iso. fold u.
  rewrite chars_of_chars, Hp, take_app_length' by done. rewrite bind_app, put_back by done. simpl.
  pose proof (fromisoformat_isoformat u Hr) as Hf. unfold isoformat in Hf. by rewrite Hp in Hf.
Qed.

(** ** Session grants are exact *)

Lemma dumps_inj j j' : wf j → wf j' → dumps j = dumps j' → j = j'.
Proof. intros H H' Heq. apply loads_dumps in H, H'. congruence. Qed.

Lemma wf_strings (l : list string) : wf (JArr (JStr <$> l)).
Proof. apply wf_arr. apply Forall_fmap. by apply Forall_true. Qed.

Lemma strings_inj (l l' : list string) : JStr <$> l = JStr <$> l' → l = l'.
Proof. revert l'. induction l as [|x l IH]; intros [|y l']; simpl; try done. intros [= -> H]. f_equal. by apply IH. Qed.

(** A key names its four components. *)
Lemma grant_key_inj t s a k t' s' a' k' : _grant_key t s a k = _grant_key t' s' a' k' → t = t' ∧ s = s' ∧ a = a' ∧ k = k'.
Proof.
  unfold _grant_key. intros H. apply dumps_inj in H; [|simpl; split_and!; try done; apply wf_strings..].
  injection H as -> -> -> Hk. by apply strings_inj in Hk.
Qed.

Lemma load_written g : NoDup g.*1 → Forall (λ kv, match kv.2 with JStr t => is_Some (_parse_iso t) | _ => False end) g →
  _load_grants (Contents (Some (JObj [("v", JInt _GRANTS_VERSION); ("grants", JObj g)]))) = g.
Proof.
  intros Hnd Hall. unfold _load_grants. rewrite dict_of_id by (simpl; repeat constructor; set_solver). simpl.
  rewrite dict_of_id by done. replace (forallb _ g) with true; [done|]. symmetry. apply forallb_forall. intros [k v] Hin.
  rewrite Forall_forall in Hall. specialize (Hall (k, v)). simpl in *. rewrite <- list_elem_of_In in Hin. specialize (Hall Hin).
  destruct v; try done. by apply bool_decide_true.
Qed.

Lemma load_grants_valid f :
  NoDup (_load_grants f).*1 ∧
  Forall (λ kv, match kv.2 with JStr t => is_Some (_parse_iso t) | _ => False end) (_load_grants f).
Proof.
  assert (Hnil : NoDup (@nil (string * json)).*1 ∧ Forall (λ kv : string * json, match kv.2 with JStr t => is_Some (_parse_iso t) | _ => False end) [])
    by (split; constructor).
  unfold _load_grants. destruct f as [| |[[| | | | |kvs]|]]; try done.
  destruct (dict_get (dict_of kvs) "v") as [[]|], (dict_get (dict_of kvs) "grants") as [[| | | | |g]|]; try done.
  destruct (_ && _) eqn:Hb; [|done]. apply andb_true_iff in Hb as [_ Hb]. split; [apply dict_of_nodup|]. apply Forall_forall. intros [k v] Hin.
  rewrite forallb_forall in Hb. specialize (Hb (k, v)). rewrite <- list_elem_of_In in Hb. specialize (Hb Hin). simpl in Hb.
  destruct v; try done. by case_bool_decide.
Qed.

Lemma dict_set_forall (P : string * json → Prop) d k v : Forall P d → P (k, v) → Forall P (dict_set d k v).
Proof.
  intros Hd Hv. induction Hd as [|[k0 v0] d H0 Hd IH]; simpl; [by repeat constructor|].
  case_bool_decide; constructor; auto.
Qed.

(** Whether a grant stands for a call. *)
Definition granted (s : files) (t ss a : string) (k : list string) : bool :=
  match (AgentFiles.has_session_grant t ss a k s).1 with Ok b => b | Err _ => false end.

(** A confirm-once grant is exactly the one that was recorded: after
    [record_session_grant], a call rides a grant if and only if it names the same
    tenant, session, action and target, or a grant that already stood. *)
Theorem session_grant_is_exact s t ss a k now s' t' ss' a' k' :
  AgentFiles.record_session_grant false t ss a k now s = (Ok tt, s') →
  in_datetime_range (now / US_PER_S * US_PER_S) = true →
  granted s' t' ss' a' k' = true ↔ (t', ss', a', k') = (t, ss, a, k) ∨ granted s t' ss' a' k' = true.
Proof.
  intros [= <-] Hnow. unfold granted, AgentFiles.has_session_grant. cbn [fst fs_grants].
  destruct (load_grants_valid (fs_grants s)) as [Hnd Hall]. pose proof (parse_iso_iso now Hnow) as Hiso.
  rewrite load_written; [|by apply dict_set_nodup|apply dict_set_forall; [done|simpl; by rewrite Hiso]].
  rewrite dict_get_set. case_decide as Hk.
  - apply grant_key_inj in Hk as (-> & -> & -> & ->). rewrite Hiso, bool_decide_true by done. split; [by left|done].
  - split; [by right|]. intros [[= -> -> -> ->]|?]; done.
Qed.

(** ** The sliding hour *)

Record attempt := Attempt {
  at_tenant : string; at_category : string; at_limits : gmap string Z; at_fault : option string; at_now : Z }.

(** The stamps a sequence of checks accepts for one tenant and category. *)
Fixpoint accepted (t c : string) (l : list attempt) (s : files) : list Z :=
  match l with
  | [] => []
  | a :: l' =>
      let '(r, s') := _rate_check_and_record (at_fault a) (at_tenant a) (at_category a) (at_limits a) (at_now a) s in
      let ok := match r with Ok (b, _) => b | Err _ => false end in
      (if ok && bool_decide (at_tenant a = t) && bool_decide (at_category a = c) then [at_now a] else []) ++ accepted t c l' s'
  end.

(** The stamps of the hour that ends at [e]. *)
Definition in_hour (e : Z) (l : list Z) : list Z := List.filter (λ t, (e - _WINDOW <? t) && (t <=? e)) l.
Definition live_at (now : Z) (l : list Z) : list Z := List.filter (λ t, now - t <? _WINDOW) l.

Definition rate_bucket (s : files) (t c : string) : list Z := bucket (default ∅ (buckets_of (fs_rate s))) t c.

Lemma rate_bucket_set t c t' c' now live b s :
  rate_bucket (set_rate (<[t' := <[c' := live ++ [now]]> (default ∅ (b !! t'))]> b) s) t c =
  if bool_decide (t' = t) && bool_decide (c' = c) then live ++ [now] else bucket b t c.
Proof.
  unfold rate_bucket, bucket. simpl. destruct (decide (t' = t)) as [->|Ht].
  - rewrite lookup_insert_eq, (bool_decide_true (t = t)) by done. simpl. destruct (decide (c' = c)) as [->|Hc].
    + by rewrite lookup_insert_eq, bool_decide_true.
    + rewrite lookup_insert_ne, bool_decide_false by done. by destruct (b !! t).
  - by rewrite lookup_insert_ne, bool_decide_false.
Qed.

Lemma rate_step t c a s r s' :
  _rate_check_and_record (at_fault a) (at_tenant a) (at_category a) (at_limits a) (at_now a) s = (r, s') →
  (∃ why, r = Ok (true, why) ∧
     Z.of_nat (length (live_at (at_now a) (rate_bucket s (at_tenant a) (at_category a)))) < default 0 (at_limits a !! at_category a) ∧
     rate_bucket s' t c = if bool_decide (at_tenant a = t) && bool_decide (at_category a = c)
                          then live_at (at_now a) (rate_bucket s t c) ++ [at_now a] else rate_bucket s t c)
  ∨ ((∃ why, r = Ok (false, why)) ∧ s' = s).
Proof.
  unfold _rate_check_and_record. intros H. case_match; [right; by simplify_eq; eauto|].
  destruct (at_fault a); [right; by simplify_eq; eauto|].
  assert (Hb : ∀ b, b = default ∅ (buckets_of (fs_rate s)) → bucket b t c = rate_bucket s t c) by (by intros b ->).
  destruct (fs_rate s) as [|exc|b] eqn:Hs; [|right; by simplify_eq; eauto|];
    (case_match eqn:Hl; simplify_eq; [right; by eauto|]; left; eexists; split_and!; [done| |]);
    [unfold rate_bucket, live_at; rewrite Hs; simpl in *; lia| |unfold rate_bucket, live_at; rewrite Hs; simpl in *; lia|];
    rewrite rate_bucket_set; destruct (_ && _) eqn:Hbd; try (by apply Hb);
    apply andb_true_iff in Hbd as [->%bool_decide_eq_true ->%bool_decide_eq_true]; unfold live_at; f_equal; f_equal; by apply Hb.
Qed.

Lemma filter_length_le {A} (f g : A → bool) l : (∀ x, x ∈ l → f x = true → g x = true) →
  (length (List.filter f l) <= length (List.filter g l))%nat.
Proof.
  induction l as [|x l IH]; intros H; simpl; [done|].
  assert (IH' : (length (List.filter f l) <= length (List.filter g l))%nat) by (apply IH; intros; apply H; [by right|done]).
  destruct (f x) eqn:Hf; [rewrite H by (by left || done); simpl; lia|]. destruct (g x); simpl; lia.
Qed.

Lemma live_live now e l : now <= e → live_at e (live_at now l) = live_at e l.
Proof.
  intros He. unfold live_at. induction l as [|x l IH]; simpl; [done|]. destruct (now - x <? _WINDOW) eqn:H1; simpl.
  - destruct (e - x <? _WINDOW); by rewrite IH.
  - destruct (e - x <? _WINDOW) eqn:H2; [|done]. lia.
Qed.

(** The state of a run: what was accepted so far, the latest clock, the bucket. *)
Record hour_ok (limit last : Z) (log bkt : list Z) : Prop := HourOk {
  hour_past : ∀ x, x ∈ log → x <= last;
  hour_live : ∀ now, last <= now → live_at now bkt = live_at now log;
  hour_bound : ∀ e, Z.of_nat (length (in_hour e log)) <= limit }.

Lemma hour_step limit last now log bkt : 0 <= limit → last <= now → hour_ok limit last log bkt →
  Z.of_nat (length (live_at now bkt)) < limit → hour_ok limit now (log ++ [now]) (live_at now bkt ++ [now]).
Proof.
  intros Hpos Hle [Hp Hl Hb] Hlim. rewrite Hl in * by done. split.
  - intros x [Hx|Hx]%elem_of_app; [specialize (Hp _ Hx); lia|]. apply list_elem_of_singleton in Hx. lia.
  - intros e He. unfold live_at at 1 3. rewrite !List.filter_app. f_equal. fold (live_at e (live_at now log)) (live_at e log).
    by apply live_live.
  - intros e. unfold in_hour. rewrite List.filter_app, length_app. fold (in_hour e log). simpl.
    destruct ((e - _WINDOW <? now) && (now <=? e)) eqn:Hnow; simpl; [|specialize (Hb e); lia].
    assert ((length (in_hour e log) <= length (live_at now log))%nat); [|lia].
    apply filter_length_le. intros x _ Hx. lia.
Qed.

Lemma hour_idle limit last now log bkt : last <= now → hour_ok limit last log bkt → hour_ok limit now log bkt.
Proof. intros Hle [Hp Hl Hb]. split; [|intros; apply Hl; lia|done]. intros x Hx. specialize (Hp x Hx). lia. Qed.

Lemma accepted_hour t c limit l : ∀ s last log, 0 <= limit → Sorted Z.le (last :: (at_now <$> l)) →
  (∀ a, a ∈ l → at_category a = c → default 0 (at_limits a !! c) <= limit) →
  hour_ok limit last log (rate_bucket s t c) →
  ∀ e, Z.of_nat (length (in_hour e (log ++ accepted t c l s))) <= limit.
Proof.
  induction l as [|a l IH]; intros s last log Hpos Hsort Hlim Hok e; simpl; [rewrite app_nil_r; by apply Hok|].
  simpl in Hsort. apply Sorted_inv in Hsort as [Hsort Hhd]. inversion Hhd as [|? ? Hle]; subst.
  destruct (_rate_check_and_record _ _ _ _ _ s) as [r s'] eqn:Hr.
  assert (Hlim' : ∀ x, x ∈ l → at_category x = c → default 0 (at_limits x !! c) <= limit) by (intros; apply Hlim; [by right|done]).
  destruct (rate_step t c a s r s' Hr) as [(why & -> & Hlt & Hbk)|[[why ->] ->]]; simpl.
  - destruct (bool_decide (at_tenant a = t) && bool_decide (at_category a = c)) eqn:Hbd; simpl in *.
    + apply andb_true_iff in Hbd as [Ht%bool_decide_eq_true Hc%bool_decide_eq_true].
      rewrite cons_middle, app_assoc. apply (IH s' (at_now a)); [done|done|done|]. rewrite Hbk. eapply hour_step; [done|exact Hle|done|].
      rewrite Ht, Hc in Hlt. specialize (Hlim a ltac:(by left) Hc). lia.
    + apply (IH s' (at_now a)); [done|done|done|]. rewrite Hbk. by eapply hour_idle.
  - apply (IH s (at_now a)); [done|done|done|]. by eapply hour_idle.
Qed.

(** The budget is a sliding hour: whatever the requests of all tenants, the
    restarts and the write failures in between, as long as checks reach the snapshot
    in the order of their clocks, no hour holds more accepted calls of a tenant and
    category than the category's limit. *)
Theorem hourly_budget_never_exceeded t c limit l s e :
  fs_rate s = RateAbsent → 0 <= limit → Sorted Z.le (at_now <$> l) →
  (∀ a, a ∈ l → at_category a = c → default 0 (at_limits a !! c) <= limit) →
  Z.of_nat (length (in_hour e (accepted t c l s))) <= limit.
Proof.
  intros Hs Hpos Hsort Hlim. destruct l as [|a l]; [done|].
  apply (accepted_hour t c limit (a :: l) s (at_now a) []); [done| |done|].
  - simpl in *. apply Sorted_cons; [done|]. by constructor.
  - unfold rate_bucket. rewrite Hs. split; simpl; [set_solver|done|done].
Qed.
