(* ===== verification/AgentDemo.v ===== *)
(** * The agent gate on concrete runs

    Runs of both gates that the theorems apply to, and the executions behind the
    findings about the gate. *)

From Stdlib Require Import Ascii.
From stdpp Require Import sorting.
From S2P Require Import Prelude PyText Json IsoTime Entitlements AgentPolicy Concurrent AgentCalls AgentStore AgentFiles AgentGate AgentSystem AgentFilesSystem AgentBudget.
Local Open Scope Z_scope.

(** ** A platform and a catalog *)

#[export] Instance demo_runtime : Runtime :=
  {| sha256_hex := λ s, s; repr := λ _, "?"%string; token_hex := λ n, of_chars (replicate (S n) "a"%char); token_supply := 20 |}.

Definition catalog_entry (policy : string) (pinned : bool) : json :=
  JObj [("description", JStr "an action"); ("rung", JInt 6); ("required_capability", JStr "deploy"); ("policy", JStr policy);
        ("dispatch", JObj [("kind", JStr "app_api"); ("routes", JArr [])]); ("rate_limit_category", JStr "high");
        ("tenant_tightenable", JBool (negb pinned))].

Definition catalog : file_state :=
  Contents (Some (JObj [("version", JInt 1); ("approval_ttl_s", JInt 300); ("rate_limits", JObj [("high_per_hour", JInt 5)]);
    ("actions", JObj [("register_tool", catalog_entry "always-confirm" true); ("author_tool", catalog_entry "confirm-once" false)])])).

Definition demo_policy : checked agent_policy := load_policy None [] catalog.

Definition surroundings_at (t : Z) : surroundings :=
  Surroundings (Some None) (Ok (TenantState false (JObj []) 0)) demo_policy demo_policy None true false (λ _, t * US_PER_S)
    (λ _, Delivered) None false "c1".

Definition demo_args (cid : option string) : record :=
  ("tool", JStr "add-panel") :: match cid with Some c => [("confirmation_id", JStr c)] | None => [] end.

Definition demo_call (action : string) (cid : option string) : call :=
  Call "acme" "s1" "t1" action (demo_args cid) [("deploy", JBool true)] None (Some "alice"%string) None.

(** ** PostgreSQL: ask, approve, redeem *)

Definition gate_request (action : string) (cid : option string) (t : Z) : prog adb request :=
  pmap (λ r, Some (demo_call action cid, surroundings_at t, r)) (postgres_gate (demo_call action cid) (surroundings_at t)).
Definition approve (t : Z) : prog adb request :=
  Act (sent Delivered (λ _, decide_approval "c1" true "alice" "approved" (t * US_PER_S))) (λ _, Ret None).

Definition demo_pool : pool adb request :=
  run_section 2 (arrive 2 (gate_request "register_tool" (Some "c1"%string) 20)
    (run_section 1 (arrive 1 (approve 10) (run_section 0 (arrive 0 (gate_request "register_tool" None 0) agent_start))))).

Lemma demo_reached : star (pool_step pg_arrives) agent_start demo_pool.
Proof.
  unfold demo_pool.
  eapply star_trans; [|apply run_section_reaches]. eapply star_trans; [|apply arrive_reaches, arrive_gate].
  eapply star_trans; [|apply run_section_reaches]. eapply star_trans; [|apply arrive_reaches; exact (arrive_decision _ _ _ _ _ _)].
  eapply star_trans; [|apply run_section_reaches]. apply arrive_reaches, arrive_gate.
Qed.

Definition allowed_answer : answer :=
  Answer Allow "allow_via_approval" (Some "always-confirm"%string) (Some 6) (Some "c1"%string).

Lemma demo_allowed :
  requests demo_pool !! 2%nat =
  Some (Ret (Some (demo_call "register_tool" (Some "c1"%string), surroundings_at 20, inl allowed_answer))).
Proof. vm_compute. reflexivity. Qed.

Lemma approval_authorizes_one_call_witness : an_confirmation allowed_answer = Some "c1"%string ∧ 2%nat = 2%nat.
Proof.
  split; [reflexivity|].
  exact (approval_authorizes_one_call demo_pool 2 2 "c1" _ _ _ _ _ _ demo_reached demo_allowed demo_allowed eq_refl eq_refl eq_refl eq_refl).
Defined.

Lemma allowed_call_was_authorized_witness : ∃ act pol,
  passes (demo_call "register_tool" (Some "c1"%string)) (surroundings_at 20) act pol ∧
  authorized 2 (demo_call "register_tool" (Some "c1"%string)) (surroundings_at 20) act (Some "c1"%string) (shared demo_pool).
Proof.
  destruct (allowed_call_was_authorized demo_pool 2 _ _ _ demo_reached demo_allowed eq_refl) as (act & pol & Hp & Ha & _).
  exists act, pol. split; [exact Hp|exact Ha].
Defined.

Definition demo_catalog_policy : agent_policy := match demo_policy with Ok p => p | Err _ => AgentPolicy ∅ ∅ 0 ∅ end.
Definition demo_base : agent_action :=
  default (AgentAction "" JNull 0 "" "" ("", []) None "" 0 [] false false None) (ap_actions demo_catalog_policy !! "register_tool"%string).

Lemma demo_policy_loads : load_policy None [] catalog = Ok demo_catalog_policy.
Proof. vm_compute. reflexivity. Qed.
Lemma demo_base_found : ap_actions demo_catalog_policy !! "register_tool"%string = Some demo_base.
Proof. vm_compute. reflexivity. Qed.

Lemma pinned_action_needs_approval_witness : ∃ cid a act,
  an_confirmation allowed_answer = Some cid ∧ (cid, (2%nat, a)) ∈ db_redeemed (shared demo_pool) ∧
  redeemed_for (demo_call "register_tool" (Some "c1"%string)) (surroundings_at 20) act a.
Proof.
  destruct (pinned_action_needs_approval demo_pool 2 _ _ _ None [] catalog _ _ demo_reached demo_allowed eq_refl eq_refl
              demo_policy_loads demo_base_found eq_refl eq_refl) as (cid & a & act & H1 & H2 & H3 & _).
  exists cid, a, act. split; [exact H1|]. split; [exact H2|exact H3].
Defined.

(** ** Files: the same course *)

Lemma replicate_length_inj n m : of_chars (replicate (S n) "a"%char) = of_chars (replicate (S m) "a"%char) → n = m.
Proof.
  intros Heq. apply (f_equal chars) in Heq. rewrite !chars_of_chars in Heq. apply (f_equal length) in Heq.
  rewrite !length_replicate in Heq. by injection Heq.
Qed.

#[export] Instance demo_tokens : TokenLaws.
Proof.
  split.
  - intros n m _ _. apply replicate_length_inj.
  - intros n Hn. simpl in Hn. do 20 (destruct n as [|n]; [vm_compute; reflexivity|]). lia.
Qed.

Definition file_request (action : string) (cid : option string) (t : Z) : prog files request :=
  pmap (λ r, Some (demo_call action cid, surroundings_at t, r)) (legacy_gate (demo_call action cid) (surroundings_at t)).

Definition file_approve (t : Z) : prog files request :=
  Act (sent Delivered (λ _, grant_approval false "a" "alice" (t * US_PER_S))) (λ _, Ret None).

Definition file_pool : pool files request :=
  Nat.iter 3 (run_section 2) (arrive 2 (file_request "register_tool" (Some "a"%string) 20)
    (run_section 1 (arrive 1 (file_approve 10)
      (Nat.iter 2 (run_section 0) (arrive 0 (file_request "register_tool" None 0) (files_start Absent RateAbsent)))))).


Lemma file_reached : star (pool_step file_arrives) (files_start Absent RateAbsent) file_pool.
Proof.
  unfold file_pool.
  eapply star_trans; [|apply sections_reach]. eapply star_trans; [|apply arrive_reaches, farrive_gate].
  eapply star_trans; [|apply run_section_reaches]. eapply star_trans; [|apply arrive_reaches, farrive_grant].
  eapply star_trans; [|apply sections_reach]. apply arrive_reaches, farrive_gate.
Qed.

Definition file_answer : answer := Answer Allow "allow_via_approval" (Some "always-confirm"%string) (Some 6) (Some "a"%string).

Lemma file_allowed :
  requests file_pool !! 2%nat =
  Some (Ret (Some (demo_call "register_tool" (Some "a"%string), surroundings_at 20, inl file_answer))).
Proof. vm_compute. reflexivity. Qed.

Lemma file_approval_authorizes_one_call_witness : ∃ act pol,
  passes (demo_call "register_tool" (Some "a"%string)) (surroundings_at 20) act pol ∧
  file_authorized 2 (demo_call "register_tool" (Some "a"%string)) (surroundings_at 20) act (Some "a"%string) (shared file_pool).
Proof. exact (proj1 (file_approval_authorizes_one_call Absent RateAbsent file_pool 2 _ _ _ file_reached file_allowed eq_refl)). Defined.

(** ** Grants and budgets *)

Definition no_files : files := Files ∅ Absent RateAbsent 0 [].

Lemma session_grant_is_exact_witness :
  ∃ s', AgentFiles.record_session_grant false "acme" "s1" "author_tool" ["none"] 0 no_files = (Ok tt, s') ∧
        granted s' "acme" "s1" "author_tool" ["none"] = true ∧ granted s' "acme" "s2" "author_tool" ["none"] = false.
Proof.
  eexists. split; [reflexivity|]. split.
  - apply (proj2 (session_grant_is_exact no_files "acme" "s1" "author_tool" ["none"%string] 0 _ "acme" "s1" "author_tool" ["none"%string]
                    eq_refl eq_refl)). left. reflexivity.
  - vm_compute. reflexivity.
Defined.

Definition attempts_of (ts : list Z) : list attempt := (λ t, Attempt "acme" "high" {[ "high"%string := 2 ]} None (t * 100000)) <$> ts.

Lemma hourly_budget_never_exceeded_witness :
  Z.of_nat (length (in_hour 36005 (accepted "acme" "high" (attempts_of [0; 5; 6; 36006]) no_files))) <= 2.
Proof.
  apply (hourly_budget_never_exceeded "acme" "high" 2); [reflexivity|lia| |].
  - simpl. repeat constructor; lia.
  - intros a Ha _. unfold attempts_of in Ha. apply list_elem_of_fmap in Ha as (t & -> & _). vm_compute. discriminate.
Defined.

(** ** Findings *)

(** The clock is read before the lock is taken, so a check that waits behind a
    later one can be counted against an already emptied bucket: with a limit of two
    calls per hour, three calls stamped within one hour are accepted. *)
Theorem waiting_check_overspends_hour :
  length (in_hour 3599900000 (accepted "acme" "high" (attempts_of [0; 5; 36006; 35999]) no_files)) = 3%nat.
Proof. vm_compute. reflexivity. Qed.

Definition row_after (s : adb) : option approval := db_approvals s !! "c1"%string.

(** An approval that was granted and redeemed is rewritten when its id is presented
    again after the deadline: the row then says that the system denied it, although
    the call it authorized ran. *)
Theorem late_replay_rewrites_spent_approval :
  let replay := run_section 3 (arrive 3 (gate_request "register_tool" (Some "c1"%string) 400) demo_pool) in
  ((λ a, (av_granted a, av_decided_by a)) <$> row_after (shared demo_pool)) = Some (true, Some "alice"%string) ∧
  ((λ a, (av_granted a, av_denied a, av_decided_by a, bool_decide (is_Some (av_consumed a)))) <$> row_after (shared replay)) =
    Some (false, true, Some "system"%string, true).
Proof. split; vm_compute; reflexivity. Qed.

(** With a known subject, a call that comes back before the decision is denied as a
    subject mismatch instead of being told to wait: no one has decided yet, so the
    recorded decider is not the subject. *)
Theorem early_return_reads_as_mismatch :
  let asked := run_section 0 (arrive 0 (gate_request "register_tool" None 0) agent_start) in
  let early := run_section 2 (arrive 2 (gate_request "register_tool" (Some "c1"%string) 5) asked) in
  ∃ o, requests early !! 2%nat = Some (Ret (Some (demo_call "register_tool" (Some "c1"%string), surroundings_at 5, o))) ∧
       o = deny_with "approval_subject_mismatch" (Some demo_base).
Proof. eexists. split; vm_compute; reflexivity. Qed.

(** A confirmation id with an accented letter is not "unreachable": it passes
    [str.isalnum], fails the match, and the read raises instead of denying. *)
Theorem accented_id_raises :
  _approval_path (String (ascii_of_nat 233) EmptyString) = Err ValueError.
Proof. vm_compute. reflexivity. Qed.

(** A catalog whose policy field is a list does not raise [PolicyError] but
    [TypeError], which the gate does not turn into a decision. *)
Theorem unhashable_policy_escapes :
  let bad := Contents (Some (JObj [("version", JInt 1);
    ("actions", JObj [("register_tool", JObj [("description", JStr "x"); ("rung", JInt 1); ("required_capability", JStr "deploy");
      ("policy", JArr []); ("dispatch", JObj []); ("rate_limit_category", JStr "low")])])])) in
  load_policy None [] bad = Err TypeError ∧
  gate_checks (demo_call "register_tool" None)
    (Surroundings (Some None) (Ok (TenantState false (JObj []) 0)) (load_policy None [] bad) (load_policy None [] bad) None true false
       (λ _, 0) (λ _, Delivered) None false "c1") = Crashed.
Proof. split; vm_compute; reflexivity. Qed.

Lemma pinned_action_never_loosens_witness :
  order (aa_policy demo_base) <= order (aa_policy demo_base) ∧ aa_tenant_tightenable demo_base = false.
Proof.
  split; [|reflexivity].
  assert (He : effective_action demo_catalog_policy "register_tool" (Some "hosted_pro"%string) (Some (JObj [])) = Ok (Some demo_base))
    by (vm_compute; reflexivity).
  exact (proj2 (proj2 (pinned_action_never_loosens None [] catalog demo_catalog_policy "register_tool" demo_base
    (Some "hosted_pro"%string) (Some (JObj [])) demo_base demo_policy_loads demo_base_found He)) eq_refl).
Defined.

Lemma overlay_only_tightens_witness : tightens demo_base demo_base.
Proof. exact (overlay_only_tightens demo_base (Some (JObj [("register_tool", JObj [("policy", JStr "always-confirm")])])) demo_base eq_refl). Defined.

Lemma kill_flag_write_is_local_witness :
  ∃ f', set_tenant_file Absent "acme" (JStr "true") = Ok f' ∧ load_tenant_file f' "other" = load_tenant_file Absent "other".
Proof.
  eexists. split; [reflexivity|].
  apply (proj2 (proj2 (kill_flag_write_is_local Absent "acme" (JStr "true") _ true eq_refl eq_refl))). discriminate.
Defined.

Lemma loaded_catalog_is_wellformed_witness : policy_ok demo_catalog_policy.
Proof. exact (loaded_catalog_is_wellformed None [] catalog demo_catalog_policy demo_policy_loads). Defined.
