(* ===== verification/ProjectContext.v ===== *)
(** * Selected-version bindings

    The pure part of [server/project_execution_context.py]: the request a client may
    send for a project drawing, the binding a turn stores, and the payload of an
    approval, which carries the binding of its turn and nothing the client sent in its
    place.  [freeze] and [revalidate] ask the platform tables and are not modelled.

    [uuid.UUID] is the one of the Python library: it removes [urn:], [uuid:], braces
    and hyphens and reads what is left as a hexadecimal [int], whose leniency about
    spaces, a sign, a [0x] prefix and underscores it inherits. *)

From Stdlib Require Import Ascii.
From S2P Require Import Prelude PyText Json.
Local Open Scope Z_scope.
Ltac Zify.zify_post_hook ::= Z.to_euclidean_division_equations.

(** ** [uuid.UUID] *)

(** [str.replace(pat, "")] for a pattern that is not empty *)
Fixpoint remove_all (pat : list ascii) (skip : nat) (l : list ascii) : list ascii :=
  match l with
  | [] => []
  | c :: l' =>
      match skip with
      | S k => remove_all pat k l'
      | O => if bool_decide (take (length pat) l = pat) then remove_all pat (pred (length pat)) l'
             else c :: remove_all pat 0 l'
      end
  end.

Fixpoint drop_while (p : ascii → bool) (l : list ascii) : list ascii :=
  match l with c :: l' => if p c then drop_while p l' else l | [] => [] end.
Definition strip_by (p : ascii → bool) (l : list ascii) : list ascii :=
  reverse (drop_while p (reverse (drop_while p l))).

Definition is_brace (c : ascii) : bool := bool_decide (c = "{"%char) || bool_decide (c = "}"%char).
Definition not_hyphen (c : ascii) : bool := negb (bool_decide (c = "-"%char)).

(** The space [int] skips: C's in an ASCII string, Unicode's in another. *)
Definition int_space (l : list ascii) : ascii → bool :=
  if forallb (λ c, code c <? 128) l then λ c, in_range 9 13 c || (code c =? 32) else is_space.

Fixpoint hex_value (l : list ascii) (acc : Z) (after_digit : bool) : option Z :=
  match l with
  | [] => if after_digit then Some acc else None
  | c :: l' =>
      if bool_decide (c = "_"%char) then if after_digit then hex_value l' acc false else None
      else d ← hex_val c; hex_value l' (acc * 16 + d) true
  end.

Definition drop_prefix_0x (l : list ascii) : list ascii :=
  match l with
  | z :: x :: r =>
      if bool_decide (z = "0"%char) && (bool_decide (x = "x"%char) || bool_decide (x = "X"%char))
      then match r with u :: r' => if bool_decide (u = "_"%char) then r' else r | [] => r end
      else l
  | _ => l
  end.

(** [int(l, 16)], of a text without hyphens *)
Definition int_base16 (l : list ascii) : option Z :=
  let body := strip_by (int_space l) l in
  let body := match body with c :: r => if bool_decide (c = "+"%char) then r else body | [] => body end in
  hex_value (drop_prefix_0x body) 0 false.

Fixpoint hex_digits (n : nat) (v : Z) : list ascii :=
  match n with O => [] | S k => hex_digits k (v / 16) ++ [hex_digit (v mod 16)] end.

(** [str(UUID(int=v))], the digits in groups of 8, 4, 4, 4 and 12 *)
Definition dashed (h : list ascii) : string :=
  of_chars (take 8 h ++ "-"%char :: take 4 (drop 8 h) ++ "-"%char :: take 4 (drop 12 h) ++ "-"%char ::
            take 4 (drop 16 h) ++ "-"%char :: drop 20 h).
Definition uuid_str (v : Z) : string := dashed (hex_digits 32 v).

Definition uuid_hex (s : string) : list ascii :=
  List.filter not_hyphen (strip_by is_brace (remove_all (chars "uuid:") 0 (remove_all (chars "urn:") 0 (chars s)))).

(** [str(UUID(s))] *)
Definition canonical_uuid (s : string) : option string :=
  let h := uuid_hex s in
  if bool_decide (length h = 32%nat) then uuid_str <$> int_base16 h else None.

(** ** Requests and bindings *)

Inductive context_error := ContextError (code_ : string) (status : Z).

Definition SCHEMA : string := "leaf.project-execution-context.v1".
Definition KEY : string := "project_execution_context".
Definition UUID_FIELDS : list string := ["organization_id"; "project_id"; "drawing_id"; "input_version_id"].

Definition _uuid (v : option json) : option string := match v with Some (JStr s) => canonical_uuid s | _ => None end.

Definition keys_are (kvs : list (string * json)) (ks : list string) : bool :=
  bool_decide (list_to_set kvs.*1 =@{gset string} list_to_set ks).

Definition validate_request (v : json) : result context_error json :=
  let bad := Err (ContextError "project_context_invalid" 422) in
  match v with
  | JObj kvs =>
      if negb (keys_are kvs ["project_id"; "input_version_id"]) then bad else
      match _uuid (dict_get kvs "project_id"), _uuid (dict_get kvs "input_version_id") with
      | Some p, Some i => Ok (JObj [("project_id", JStr p); ("input_version_id", JStr i)])
      | _, _ => bad
      end
  | _ => bad
  end.

Definition intake_digest_ok (s : string) : bool := bool_decide (String.length s = 64%nat) && forallb is_hex_lower (chars s).

Definition field_ok (kvs : list (string * json)) (k : string) : bool :=
  match dict_get kvs k with
  | Some (JStr s) => bool_decide (canonical_uuid s = Some s)
  | _ => false
  end.

Definition binding_ok (v : json) : bool :=
  match v with
  | JObj kvs =>
      keys_are kvs ("schema"%string :: UUID_FIELDS ++ ["intake_sha256"%string]) &&
      match dict_get kvs "schema" with Some (JStr s) => bool_decide (s = SCHEMA) | _ => false end &&
      forallb (field_ok kvs) UUID_FIELDS &&
      match dict_get kvs "intake_sha256" with Some (JStr s) => intake_digest_ok s | _ => false end
  | _ => false
  end.

Definition validate_binding (v : json) : result context_error json :=
  if binding_ok v then Ok v else Err (ContextError "project_execution_context_invalid" 409).

Definition stored_binding (payload : json) : result context_error (option json) :=
  match payload with
  | JObj kvs => match dict_get kvs KEY with
                | Some b => v ← validate_binding b; Ok (Some v)
                | None => Ok None
                end
  | _ => Ok None
  end.

(** [d.pop(k, None)] *)
Definition dict_pop (kvs : list (string * json)) (k : string) : list (string * json) :=
  List.filter (λ kv : string * json, negb (bool_decide (kv.1 = k))) kvs.

Definition approval_payload (payload binding : option json) : result context_error (option json) :=
  let with_binding kvs :=
    match binding with
    | Some b => v ← validate_binding b; Ok (dict_set (dict_pop kvs KEY) KEY v)
    | None => Ok (dict_pop kvs KEY)
    end in
  match payload with
  | Some (JObj kvs) => r ← with_binding kvs; Ok (Some (JObj r))
  | None => r ← with_binding []; Ok (if bool_decide (r = []) then None else Some (JObj r))
  | Some v => match binding with
              | Some _ => Err (ContextError "project_approval_payload_invalid" 409)
              | None => Ok (Some v)
              end
  end.

(** ** Canonical identifiers *)

Lemma hex_digit_range d : 0 <= d < 16 → is_hex_lower (hex_digit d) = true.
Proof.
  intros H. assert (d = 0 ∨ d = 1 ∨ d = 2 ∨ d = 3 ∨ d = 4 ∨ d = 5 ∨ d = 6 ∨ d = 7 ∨ d = 8 ∨ d = 9 ∨ d = 10 ∨ d = 11 ∨ d = 12 ∨
    d = 13 ∨ d = 14 ∨ d = 15) as Hd by lia. by repeat destruct Hd as [->|Hd]; subst.
Qed.

Lemma nibble_lower v : is_hex_lower (hex_digit (v mod 16)) = true.
Proof. apply hex_digit_range. by apply Z.mod_pos_bound. Qed.

Lemma nibble_val v : hex_val (hex_digit (v mod 16)) = Some (v mod 16).
Proof. apply hex_val_digit. by apply Z.mod_pos_bound. Qed.

Lemma hex_digits_lower n v : Forall (λ c, is_hex_lower c = true) (hex_digits n v).
Proof.
  revert v. induction n as [|n IH]; intros v; simpl; [constructor|]. apply Forall_app_2; [apply IH|]. constructor; [apply nibble_lower|constructor].
Qed.

Lemma hex_digits_length n v : length (hex_digits n v) = n.
Proof. revert v. induction n as [|n IH]; intros v; simpl; [done|]. rewrite length_app, IH. simpl. lia. Qed.

Lemma hex_lower_not c d : is_hex_lower c = true → is_hex_lower d = false → c ≠ d.
Proof. congruence. Qed.

Lemma hex_value_app l l' acc b : Forall (λ c, is_hex_lower c = true) l → l ≠ [] →
  hex_value (l ++ l') acc b = hex_value l acc b ≫= λ v, hex_value l' v true.
Proof.
  intros Hl. revert acc b. induction Hl as [|c l Hc Hl IH]; intros acc b; [done|]. intros _. simpl.
  rewrite bool_decide_false by (eapply hex_lower_not; [done|reflexivity]).
  destruct (hex_val c) as [d|]; simpl; [|done]. destruct l as [|c' l]; [done|]. by apply IH.
Qed.

Lemma hex_value_digits n v : 0 <= v < 16 ^ Z.of_nat (S n) → hex_value (hex_digits (S n) v) 0 false = Some v.
Proof.
  revert v. induction n as [|n IH]; intros v Hv.
  - simpl. rewrite bool_decide_false by (eapply hex_lower_not; [apply nibble_lower|reflexivity]).
    rewrite nibble_val. simpl. f_equal. change (16 ^ Z.of_nat 1) with 16 in Hv. by apply Z.mod_small.
  - assert (0 <= v / 16 < 16 ^ Z.of_nat (S n)).
    { rewrite (Nat2Z.inj_succ (S n)), Z.pow_succ_r in Hv by lia. lia. }
    change (hex_digits (S (S n)) v) with (hex_digits (S n) (v / 16) ++ [hex_digit (v mod 16)]).
    rewrite hex_value_app; [|apply hex_digits_lower|intros Hn; apply (f_equal length) in Hn; rewrite hex_digits_length in Hn; done].
    rewrite IH by done. simpl. rewrite bool_decide_false by (eapply hex_lower_not; [apply nibble_lower|reflexivity]).
    rewrite nibble_val. cbn [mbind option_bind]. f_equal. pose proof (Z.div_mod v 16). lia.
Qed.

Lemma drop_while_none p l : Forall (λ c, p c = false) l → drop_while p l = l.
Proof. destruct 1 as [|c l H _]; simpl; [done|]. by rewrite H. Qed.

Lemma strip_by_none p l : Forall (λ c, p c = false) l → strip_by p l = l.
Proof.
  intros H. unfold strip_by. rewrite (drop_while_none p l) by done. rewrite drop_while_none by by apply Forall_reverse.
  apply reverse_involutive.
Qed.

Lemma remove_all_none p0 pat l : Forall (λ c, c ≠ p0) l → remove_all (p0 :: pat) 0 l = l.
Proof. induction 1 as [|c l H _ IH]; [done|]. simpl. rewrite bool_decide_false by congruence. by rewrite IH. Qed.

(** The characters of a canonical identifier. *)
Definition uuid_char (c : ascii) : bool := is_hex_lower c || bool_decide (c = "-"%char).

Lemma take_then_drop {A} n k j (h : list A) : (k + n)%nat = j → take n (drop k h) ++ drop j h = drop k h.
Proof. intros <-. by rewrite <- drop_drop, take_drop. Qed.

Lemma filter_split {A} (p : A → bool) l l' : List.filter p (l ++ l') = List.filter p l ++ List.filter p l'.
Proof. apply List.filter_app. Qed.

Lemma filter_hex l : Forall (λ c, is_hex_lower c = true) l → List.filter not_hyphen l = l.
Proof.
  induction 1 as [|c l H _ IH]; [done|]. simpl. unfold not_hyphen at 1.
  rewrite bool_decide_false by (eapply hex_lower_not; [done|reflexivity]). simpl. by rewrite IH.
Qed.

Lemma int_base16_hex l : Forall (λ c, is_hex_lower c = true) l → int_base16 l = hex_value l 0 false.
Proof.
  intros Hl. unfold int_base16. rewrite strip_by_none.
  2: { eapply Forall_impl; [exact Hl|]. intros c Hc. apply not_true_iff_false. intros Hs. unfold int_space in Hs.
       destruct (forallb _ l); unfold is_hex_lower, is_digit, is_space, in_range in *; lia. }
  destruct Hl as [|c l Hc Hl]; [done|]. rewrite bool_decide_false by (eapply hex_lower_not; [done|reflexivity]).
  destruct Hl as [|c' l Hc' Hl]; [done|]. simpl.
  rewrite (bool_decide_false (c' = "x"%char)), (bool_decide_false (c' = "X"%char)) by (eapply hex_lower_not; [done|reflexivity]).
  by rewrite andb_false_r.
Qed.

Lemma uuid_hex_dashed h : Forall (λ c, is_hex_lower c = true) h → uuid_hex (dashed h) = h.
Proof.
  intros Hh. unfold uuid_hex, dashed. rewrite chars_of_chars.
  set (l := take 8 h ++ _). assert (Hl : Forall (λ c, uuid_char c = true) l).
  { assert (Forall (λ c, uuid_char c = true) h).
    { eapply Forall_impl; [exact Hh|]. intros c Hc. unfold uuid_char. by rewrite Hc. }
    subst l. repeat first [apply Forall_app_2 | apply Forall_cons_2; [done|] | apply Forall_drop | apply Forall_take]; done. }
  assert (Hno : ∀ d, uuid_char d = false → Forall (λ c, c ≠ d) l) by (intros d Hd; eapply Forall_impl; [exact Hl|]; simpl; congruence).
  change (chars "urn:") with ("u"%char :: chars "rn:"). change (chars "uuid:") with ("u"%char :: chars "uid:").
  rewrite (remove_all_none _ (chars "rn:")), (remove_all_none _ (chars "uid:")) by by apply Hno.
  rewrite strip_by_none.
  2: { eapply Forall_impl; [exact Hl|]. intros c Hc. unfold is_brace. rewrite !bool_decide_false; [done|intros ->..]; done. }
  subst l. rewrite !filter_split. simpl. rewrite !filter_split. simpl. rewrite !filter_split. simpl. rewrite !filter_split. simpl.
  rewrite !filter_hex by (repeat first [apply Forall_take | apply Forall_drop]; done).
  rewrite (take_then_drop 4 16), (take_then_drop 4 12), (take_then_drop 4 8) by done. apply take_drop.
Qed.

Lemma hex_value_range l acc b v : 0 <= acc → hex_value l acc b = Some v → 0 <= v < (acc + 1) * 16 ^ Z.of_nat (length l).
Proof.
  revert acc b. induction l as [|c l IH]; intros acc b Hacc; simpl.
  - destruct b; intros [= <-]. lia.
  - replace (Z.of_nat (S (length l))) with (Z.succ (Z.of_nat (length l))) by lia. rewrite Z.pow_succ_r by lia.
    pose proof (Z.pow_pos_nonneg 16 (Z.of_nat (length l))). case_bool_decide.
    + destruct b; [|done]. intros ?%IH; [|done]. nia.
    + destruct (hex_val c) as [d|] eqn:Hd; [|done]. simpl. intros ?%IH; [|].
      * assert (0 <= d < 16) by (unfold hex_val, is_digit, digit_val, in_range in Hd; repeat case_match; simplify_eq; lia). nia.
      * assert (0 <= d < 16) by (unfold hex_val, is_digit, digit_val, in_range in Hd; repeat case_match; simplify_eq; lia). lia.
Qed.

(** How much of a text [int] reads is at most the text. *)
Lemma strip_by_length p l : (length (strip_by p l) ≤ length l)%nat.
Proof.
  assert (H : ∀ k, (length (drop_while p k) ≤ length k)%nat) by (induction k; simpl; [done|]; case_match; simpl; lia).
  unfold strip_by. rewrite length_reverse. etransitivity; [apply H|]. rewrite length_reverse. apply H.
Qed.

Lemma int_base16_range l v : int_base16 l = Some v → 0 <= v < 16 ^ Z.of_nat (length l).
Proof.
  unfold int_base16. set (b := strip_by _ _). assert (Hb : (length b ≤ length l)%nat) by apply strip_by_length. clearbody b.
  set (b2 := match b with c :: r => _ | [] => b end). assert (Hb2 : (length b2 ≤ length b)%nat).
  { subst b2. destruct b; simpl; [lia|]. case_bool_decide; simpl; lia. }
  clearbody b2. assert (Hb3 : (length (drop_prefix_0x b2) ≤ length b2)%nat).
  { destruct b2 as [|z [|x r]]; simpl; try lia. destruct (_ && _); [|simpl; lia]. destruct r; simpl; [lia|]. case_bool_decide; simpl; lia. }
  intros [H1 H2]%hex_value_range; [|done]. split; [done|]. rewrite Z.mul_1_l in H2. eapply Z.lt_le_trans; [exact H2|].
  apply Z.pow_le_mono_r; lia.
Qed.

Lemma canonical_uuid_str v : 0 <= v < 16 ^ Z.of_nat 32 → canonical_uuid (uuid_str v) = Some (uuid_str v).
Proof.
  intros Hv. unfold canonical_uuid, uuid_str. rewrite uuid_hex_dashed by apply hex_digits_lower.
  rewrite bool_decide_true by apply hex_digits_length. rewrite int_base16_hex by apply hex_digits_lower.
  rewrite hex_value_digits by done. done.
Qed.

(** A canonical identifier reads back as itself, however the first one was spelt. *)
Theorem canonical_uuid_stable s u : canonical_uuid s = Some u → canonical_uuid u = Some u.
Proof.
  unfold canonical_uuid at 1. case_bool_decide as Hl; [|done]. destruct (int_base16 (uuid_hex s)) as [v|] eqn:Hv; [|done].
  intros [= <-]. apply canonical_uuid_str. apply int_base16_range in Hv. by rewrite Hl in Hv.
Qed.

Lemma canonical_uuid_stable_witness :
  canonical_uuid "urn:uuid:{12345678-1234-1234-1234-1234567890AB}" = Some "12345678-1234-1234-1234-1234567890ab"%string ∧
  canonical_uuid "12345678-1234-1234-1234-1234567890ab" = Some "12345678-1234-1234-1234-1234567890ab"%string.
Proof.
  assert (H : canonical_uuid "urn:uuid:{12345678-1234-1234-1234-1234567890AB}" = Some "12345678-1234-1234-1234-1234567890ab"%string)
    by (vm_compute; reflexivity).
  split; [exact H|exact (canonical_uuid_stable _ _ H)].
Defined.

(** ** Approval payloads *)

Lemma dict_get_pop kvs k : dict_get (dict_pop kvs k) k = None.
Proof.
  induction kvs as [|[k' v] kvs IH]; [done|]. simpl. case_bool_decide; simpl; [done|]. by rewrite bool_decide_false.
Qed.

Lemma dict_get_pop_ne kvs k k' : k' ≠ k → dict_get (dict_pop kvs k) k' = dict_get kvs k'.
Proof.
  intros Hne. induction kvs as [|[k0 v] kvs IH]; [done|]. simpl. case_bool_decide as H0; simpl.
  - subst. by rewrite bool_decide_false.
  - by rewrite IH.
Qed.

Lemma dict_get_set_eq kvs k v : dict_get (dict_set kvs k v) k = Some v.
Proof.
  induction kvs as [|[k0 v0] kvs IH]; simpl; [by rewrite bool_decide_true|].
  case_bool_decide as Hk; simpl; [subst; by rewrite bool_decide_true|by rewrite bool_decide_false].
Qed.

Lemma dict_get_set_ne kvs k v k' : k' ≠ k → dict_get (dict_set kvs k v) k' = dict_get kvs k'.
Proof.
  intros Hne. induction kvs as [|[k0 v0] kvs IH]; simpl; [by rewrite bool_decide_false|].
  case_bool_decide as Hk; simpl; [subst; by rewrite !bool_decide_false|]. by rewrite IH.
Qed.

Definition field (v : json) (k : string) : option json := match v with JObj kvs => dict_get kvs k | _ => None end.

(** The approval of a call carries the binding of its turn, whatever binding the
    client put in the payload; every other field is the client's. *)
Theorem approval_carries_turn_binding payload binding kvs :
  approval_payload payload binding = Ok (Some (JObj kvs)) →
  dict_get kvs KEY = binding ∧ (∀ b, binding = Some b → binding_ok b = true) ∧
  ∀ k, k ≠ KEY → dict_get kvs k = payload ≫= λ p, field p k.
Proof.
  intros H. assert (Hgen : ∀ old, match binding with
      | Some b => v ← validate_binding b; Ok (dict_set (dict_pop old KEY) KEY v)
      | None => Ok (dict_pop old KEY) end = Ok kvs →
    dict_get kvs KEY = binding ∧ (∀ b, binding = Some b → binding_ok b = true) ∧ ∀ k, k ≠ KEY → dict_get kvs k = dict_get old k).
  { intros old. destruct binding as [b|].
    - unfold validate_binding. destruct (binding_ok b) eqn:Hb; [|done]. intros [= <-]. split_and!.
      + apply dict_get_set_eq.
      + by intros ? [= <-].
      + intros k Hk. by rewrite dict_get_set_ne, dict_get_pop_ne.
    - intros [= <-]. split_and!; [apply dict_get_pop|done|]. intros k Hk. by apply dict_get_pop_ne. }
  destruct payload as [[| | | | |old]|]; cbn [approval_payload] in H; try (by destruct binding).
  - apply result_bind_Ok in H as (r & Hr & [= ->]). by apply Hgen.
  - apply result_bind_Ok in H as (r & Hr & H). case_bool_decide; [done|]. injection H as ->. exact (Hgen [] Hr).
Qed.

Definition demo_binding : json :=
  JObj [("schema", JStr SCHEMA); ("organization_id", JStr "12345678-1234-1234-1234-1234567890ab");
        ("project_id", JStr "22345678-1234-1234-1234-1234567890ab"); ("drawing_id", JStr "32345678-1234-1234-1234-1234567890ab");
        ("input_version_id", JStr "42345678-1234-1234-1234-1234567890ab");
        ("intake_sha256", JStr "0123456789abcdef0123456789abcdef0123456789abcdef0123456789abcdef")].

Lemma approval_carries_turn_binding_witness : ∃ kvs,
  approval_payload (Some (JObj [("layer", JStr "E-CABLE"); (KEY, JStr "forged")])) (Some demo_binding) = Ok (Some (JObj kvs)) ∧
  dict_get kvs KEY = Some demo_binding ∧ dict_get kvs "layer" = Some (JStr "E-CABLE").
Proof.
  exists [("layer"%string, JStr "E-CABLE"); (KEY, demo_binding)].
  assert (H : approval_payload (Some (JObj [("layer"%string, JStr "E-CABLE"); (KEY, JStr "forged")])) (Some demo_binding) =
    Ok (Some (JObj [("layer"%string, JStr "E-CABLE"); (KEY, demo_binding)]))) by (vm_compute; reflexivity).
  split; [exact H|]. destruct (approval_carries_turn_binding _ _ _ H) as (H1 & _ & H3). split; [exact H1|]. by rewrite H3.
Defined.
