(* ===== verification/RequestJournal.v ===== *)
(** * The request journal

    [server/request_journal.py] over [0035_session_request_journal.sql] and the
    scope columns of [0039]: a message request is admitted under an id it is bound
    to for good, runs as the one executing turn of its session or waits as the one
    queued request, and ends with a response that every retry is answered with.
    [pg_try_begin_turn_in_transaction] and [_pg_end_turn] of [server/session_store.py]
    are the session rows it shares.

    Every method is one transaction, or two in [admit_request].  Times are whole
    microseconds of the clock the caller reads.  The CHECKs on the shape of a row are the
    type [rstate], and the two partial unique indexes are [conflicts].  The fresh
    UUIDs of turns and lease owners are arguments.  A JSON number that is not an
    integer is outside [json].  [jr_started] is a history of the executions that
    began, which no method reads. *)

From Stdlib Require Import Ascii.
From S2P Require Import Prelude PyText Json ProjectContext Concurrent.
Local Open Scope Z_scope.

(** ** Credential shapes *)

Definition _CREDENTIAL_KEYS : list string :=
  ["api_key"; "apikey"; "oauth_token"; "oauthtoken"; "access_token"; "accesstoken"; "refresh_token"; "refreshtoken";
   "client_secret"; "clientsecret"; "authorization"; "password"; "private_key"; "privatekey"; "secret"; "cookie"].

Definition key_char (c : ascii) : bool := in_range 97 122 c || in_range 48 57 c.

(** [re.sub(r"[^a-z0-9]+", "_", s)]: a run of other characters becomes one underscore *)
Fixpoint collapse (in_run : bool) (l : list ascii) : list ascii :=
  match l with
  | [] => []
  | c :: l' => if key_char c then c :: collapse false l'
               else if in_run then collapse true l' else "_"%char :: collapse true l'
  end.

Definition is_underscore (c : ascii) : bool := bool_decide (c = "_"%char).
Fixpoint drop_underscores (l : list ascii) : list ascii :=
  match l with c :: l' => if is_underscore c then drop_underscores l' else l | [] => [] end.

Definition normalized_key (k : string) : list ascii :=
  reverse (drop_underscores (reverse (drop_underscores (collapse false (chars (lower k)))))).

Definition credential_key (k : string) : bool :=
  bool_decide (of_chars (normalized_key k) ∈ _CREDENTIAL_KEYS) ||
  bool_decide (of_chars (List.filter (λ c, negb (is_underscore c)) (normalized_key k)) ∈ _CREDENTIAL_KEYS).

Definition alnum (c : ascii) : bool := in_range 48 57 c || in_range 65 90 c || in_range 97 122 c.
Definition jwt_char (c : ascii) : bool := alnum c || (code c =? 95) || (code c =? 45).
Definition token_char (c : ascii) : bool :=
  alnum c || existsb (λ d, bool_decide (c = d)) (chars "._~+/=-").

(** the longest prefix of characters in [p], and the rest *)
Fixpoint span (p : ascii → bool) (l : list ascii) : list ascii * list ascii :=
  match l with
  | c :: l' => if p c then let '(a, b) := span p l' in (c :: a, b) else ([], l)
  | [] => ([], [])
  end.

(** [_JWT_VALUE.fullmatch]: three runs of at least eight, joined by dots *)
Definition jwt_value (s : list ascii) : bool :=
  let '(a, r1) := span jwt_char s in
  match r1 with
  | c1 :: l1 =>
      let '(b, r2) := span jwt_char l1 in
      match r2 with
      | c2 :: l2 =>
          let '(d, r3) := span jwt_char l2 in
          bool_decide (c1 = "."%char) && bool_decide (c2 = "."%char) && bool_decide (r3 = []) &&
          (8 <=? length a)%nat && (8 <=? length b)%nat && (8 <=? length d)%nat
      | [] => false
      end
  | [] => false
  end.

Definition strip_word (w : string) (l : list ascii) : option (list ascii) :=
  if bool_decide (lower_char <$> take (String.length w) l = chars w) then Some (drop (String.length w) l) else None.

(** [authorization\s*:\s*], if it is there *)
Definition skip_header (l : list ascii) : list ascii :=
  match strip_word "authorization" l with
  | Some l1 => match (span is_space l1).2 with
               | c :: l2 => if bool_decide (c = ":"%char) then (span is_space l2).2 else l
               | [] => l
               end
  | None => l
  end.

Definition is_scheme (l : list ascii) : option (list ascii) :=
  match strip_word "bearer" l with Some r => Some r | None => strip_word "basic" l end.

(** [_AUTHORIZATION_VALUE.fullmatch] *)
Definition authorization_value (s : list ascii) : bool :=
  match is_scheme (skip_header (span is_space s).2) with
  | None => false
  | Some r =>
      let '(gap, r1) := span is_space r in
      let '(tok, r2) := span token_char r1 in
      (1 <=? length gap)%nat && (8 <=? length tok)%nat && forallb is_space r2
  end.

Fixpoint contains_credential_material (v : json) : bool :=
  match v with
  | JObj kvs =>
      existsb (λ kv : string * json,
        if credential_key kv.1
        then match kv.2 with JNull | JBool false => false | JStr s => negb (bool_decide (s = ""%string)) | _ => true end
        else contains_credential_material kv.2) kvs
  | JArr l => existsb contains_credential_material l
  | JStr s => authorization_value (chars s) || jwt_value (strip_chars (chars s))
  | _ => false
  end.

(** *** The size of [json.dumps(..., ensure_ascii=False)] in UTF-8 *)

Definition char_size (c : ascii) : Z :=
  let n := code c in
  if (n =? 34) || (n =? 92) || in_range 8 10 c || (n =? 12) || (n =? 13) then 2
  else if n <? 32 then 6 else if 127 <? n then 2 else 1.
Definition text_size (s : string) : Z := 2 + foldr (λ c n, char_size c + n) 0 (chars s).
Definition separators (n : nat) : Z := Z.of_nat (pred n).

Fixpoint dumps_size (v : json) : Z :=
  match v with
  | JNull => 4
  | JBool b => if b then 4 else 5
  | JInt z => Z.of_nat (length (print_Z z))
  | JStr s => text_size s
  | JArr l => 2 + separators (length l) + foldr (λ x n, dumps_size x + n) 0 l
  | JObj kvs => 2 + separators (length kvs) + foldr (λ (kv : string * json) n, text_size kv.1 + 1 + dumps_size kv.2 + n) 0 kvs
  end.

Definition _MAX_RESPONSE_BYTES : Z := 64 * 1024.
Definition _MAX_RECOVERABLE_BYTES : Z := 64 * 1024.

Inductive journal_error := ValueError | RequestConflict | CredentialMaterial | RuntimeError | UniqueViolation | CheckViolation
| ForeignKeyViolation.

#[export] Instance journal_error_eq_dec : EqDecision journal_error.
Proof. solve_decision. Defined.

Definition _json_object (maximum : Z) (v : json) : result journal_error json :=
  match v with
  | JObj kvs => if maximum <? dumps_size (JObj kvs) then Err ValueError else Ok (JObj kvs)
  | _ => Err ValueError
  end.

(** ** Rows *)

Inductive terminal := Completed | Failed | Abandoned.

Inductive rstate :=
| RAdmitted
| RQueued (recoverable : json)
| RExecuting (turn owner : string) (lease_expires : Z)
| RFinished (how : terminal) (turn : option string) (status : Z) (response : json) (at_ : Z).

(** The columns no statement updates. *)
Record identity := Identity {
  id_tenant : string; id_drawing : string; id_session : string; id_principal : string; id_digest : string;
  id_scope : option (string * string) }.

#[export] Instance identity_eq_dec : EqDecision identity.
Proof. solve_decision. Defined.

Record row := Row { rq_identity : identity; rq_created : Z; rq_state : rstate }.

Record session := Session { ss_turn : option string; ss_started : option Z; ss_tier : option json; ss_subject : option json }.

Record journal := Journal {
  jr_requests : gmap string row; jr_sessions : gmap string session; jr_started : list (string * (string * string)) }.

Abbreviation jx := (io journal journal_error).

Definition gets {A} (f : journal → A) : jx A := λ s, (Ok (f s), s).
Definition modify (f : journal → journal) : jx unit := λ s, (Ok tt, f s).
Definition refuse (b : bool) (e : journal_error) : jx unit := if b then raise e else mret tt.

Definition session_of (r : row) : string := id_session (rq_identity r).
Definition is_executing (r : row) : bool := match rq_state r with RExecuting _ _ _ => true | _ => false end.
Definition is_queued (r : row) : bool := match rq_state r with RQueued _ => true | _ => false end.
Definition is_admitted (r : row) : bool := match rq_state r with RAdmitted => true | _ => false end.

(** Whether some other row of [m] satisfies [p]. *)
Definition exists_row (p : string → row → bool) (m : gmap string row) : bool :=
  existsb (λ kr : string * row, p kr.1 kr.2) (map_to_list m).

(** The partial unique indexes: one executing and one queued request per session. *)
Definition conflicts (m : gmap string row) (id : string) (r : row) : bool :=
  exists_row (λ k x, negb (bool_decide (k = id)) && bool_decide (session_of x = session_of r) &&
                     ((is_executing r && is_executing x) || (is_queued r && is_queued x))) m.

(** UPDATE app_session_requests SET state ... WHERE request_id *)
Definition put_row (id : string) (r : row) : jx unit :=
  m ← gets jr_requests;
  if conflicts m id r then raise UniqueViolation
  else modify (λ s, Journal (<[id := r]> (jr_requests s)) (jr_sessions s) (jr_started s)).

Definition with_state (r : row) (st : rstate) : row := Row (rq_identity r) (rq_created r) st.

Definition put_session (id : string) (x : session) : jx unit :=
  modify (λ s, Journal (jr_requests s) (<[id := x]> (jr_sessions s)) (jr_started s)).

Definition note_started (id turn owner : string) : jx unit :=
  modify (λ s, Journal (jr_requests s) (jr_sessions s) ((id, (turn, owner)) :: jr_started s)).

(** ** Session turns *)

Definition SECOND : Z := 1000000.
Definition RESERVATION_STALE : Z := 3600 * SECOND.
Definition RESERVATION_PREFIX : string := "restore-".
Definition is_reservation_holder (turn : string) : bool := startswith RESERVATION_PREFIX turn.

Definition turn_free (x : session) (stale_after now : Z) : bool :=
  match ss_turn x with
  | None => true
  | Some active =>
      let window := if is_reservation_holder active then RESERVATION_STALE else stale_after in
      match ss_started x with None => true | Some t => window <? now - t end
  end.

Definition pg_try_begin_turn_in_transaction (sid turn : string) (stale_after : Z) (tier subject : option json) (now : Z) : jx bool :=
  m ← gets jr_sessions;
  match m !! sid with
  | None => mret false
  | Some x => if turn_free x stale_after now
              then put_session sid (Session (Some turn) (Some now) tier subject);; mret true
              else mret false
  end.

Definition _pg_end_turn (sid turn : string) : jx bool :=
  m ← gets jr_sessions;
  match m !! sid with
  | Some x => if bool_decide (ss_turn x = Some turn) then put_session sid (Session None None None None);; mret true else mret false
  | None => mret false
  end.

(** ** Settlement *)

Definition _abandoned_response : json :=
  JObj [("status", JStr "abandoned");
        ("error", JObj [("error_code", JStr "INTERNAL"); ("message", JStr "request interrupted by restart")])].

Definition abandoned (now : Z) (r : row) : row :=
  with_state r (RFinished Abandoned match rq_state r with RExecuting t _ _ => Some t | _ => None end 503 _abandoned_response now).

Definition expired (now : Z) (r : row) : bool := match rq_state r with RExecuting _ _ e => e <? now | _ => false end.

(** Close every row [p] selects, then release the turns of the closed executions. *)
Definition settle (p : string → row → bool) (now : Z) : jx Z :=
  λ s,
    let closed := filter (λ kr : string * row, p kr.1 kr.2 = true) (jr_requests s) in
    let requests := (abandoned now <$> closed) ∪ jr_requests s in
    let released := foldr (λ (kr : string * row) m,
      match rq_state kr.2, m !! session_of kr.2 with
      | RExecuting t _ _, Some x => if bool_decide (ss_turn x = Some t) then <[session_of kr.2 := Session None None None None]> m else m
      | _, _ => m
      end) (jr_sessions s) (map_to_list closed) in
    (Ok (Z.of_nat (size closed)), Journal requests released (jr_started s)).

(** The scope clauses of [_settle_expired_executions]. *)
Record scope := Scope {
  sc_request : option string; sc_tenant : option string; sc_drawing : option string;
  sc_project : option (string * string); sc_legacy_only : bool }.

Definition clause (o : option string) (v : string) : bool := match o with Some x => bool_decide (x = v) | None => true end.

Definition in_scope (sc : scope) (id : string) (r : row) : bool :=
  clause (sc_request sc) id && clause (sc_tenant sc) (id_tenant (rq_identity r)) &&
  clause (sc_drawing sc) (id_drawing (rq_identity r)) &&
  match sc_project sc with Some q => bool_decide (id_scope (rq_identity r) = Some q) | None => true end &&
  (negb (sc_legacy_only sc) || bool_decide (id_scope (rq_identity r) = None)).

Definition _settle_expired_executions (sc : scope) (now : Z) : jx Z := settle (λ id r, expired now r && in_scope sc id r) now.

Definition settle_abandoned (now admitted_after : Z) : jx Z :=
  settle (λ _ r, expired now r || (is_admitted r && (rq_created r <? now - admitted_after))) now.

Definition get_request (id : string) (now : Z) : jx (option row) :=
  atomically (_settle_expired_executions (Scope (Some id) None None None false) now;; gets (λ s, jr_requests s !! id)).

(** ** Admission *)

Definition hex_lower (c : ascii) : bool := in_range 97 102 c || in_range 48 57 c.
Definition all_hex (n : nat) (l : list ascii) : bool := bool_decide (length l = n) && forallb hex_lower l.

(** [_REQUEST_ID.fullmatch] *)
Definition request_id_ok (s : string) : bool :=
  let l := chars s in
  let part i n := take n (drop i l) in
  bool_decide (length l = 36%nat) && all_hex 8 (part 0 8)%nat && bool_decide (part 8 1 = ["-"%char])%nat &&
  all_hex 4 (part 9 4)%nat && bool_decide (part 13 1 = ["-"%char])%nat && forallb (in_range 49 53) (part 14 1)%nat &&
  all_hex 3 (part 15 3)%nat && bool_decide (part 18 1 = ["-"%char])%nat &&
  forallb (λ c, bool_decide (c ∈ chars "89ab")) (part 19 1)%nat && all_hex 3 (part 20 3)%nat &&
  bool_decide (part 23 1 = ["-"%char])%nat && all_hex 12 (part 24 12)%nat.

Definition digest_ok (s : string) : bool := all_hex 64 (chars s).

Definition _canonical_project_scope (tenant : string) (org project : option string)
  : result journal_error (option (string * string)) :=
  match org, project with
  | None, None => Ok None
  | Some o, Some p =>
      match canonical_uuid o, canonical_uuid p with
      | Some co, Some cp => if bool_decide (tenant = co) then Ok (Some (co, cp)) else Err ValueError
      | _, _ => Err ValueError
      end
  | _, _ => Err ValueError
  end.

Definition validate_recoverable_payload (v : json) : result journal_error json :=
  if contains_credential_material v then Err CredentialMaterial else
  r ← _json_object _MAX_RECOVERABLE_BYTES v;
  match r with
  | JObj kvs =>
      match dict_get kvs KEY with
      | None => Ok (JObj kvs)
      | Some b => match validate_binding b with
                  | Ok b' => Ok (JObj (dict_set kvs KEY b'))
                  | Err _ => Err ValueError
                  end
      end
  | _ => Err ValueError
  end.

(** What [admit_request] is asked for, with its checks. *)
Definition requested (id tenant drawing sid principal digest : string) (org project : option string)
  : result journal_error identity :=
  guard_or (request_id_ok id) ValueError;;
  guard_or (negb (bool_decide (tenant = ""%string)) && negb (bool_decide (drawing = ""%string)) &&
            negb (bool_decide (sid = ""%string)) && digest_ok digest) ValueError;;
  sc ← _canonical_project_scope tenant org project;
  Ok (Identity tenant drawing sid principal digest sc).

(** INSERT ... ON CONFLICT DO NOTHING, and the row under the id *)
Definition admit_row (id : string) (who : identity) (now : Z) : jx (row * bool) :=
  atomically (
    m ← gets jr_requests;
    match m !! id with
    | Some r => mret (r, false)
    | None =>
        ss ← gets jr_sessions;
        if bool_decide (is_Some (ss !! id_session who)) then
          put_row id (Row who now RAdmitted);; mret (Row who now RAdmitted, true)
        else raise ForeignKeyViolation
    end).

(** The answer of [admit_request], after its first transaction. *)
Definition check_binding (who : identity) (r : row) : result journal_error unit :=
  guard_or (bool_decide (rq_identity r = who)) RequestConflict.

Definition reported (ri : row * bool) (o : result journal_error (option row)) : result journal_error (row * bool) :=
  o' ← o; r ← from_opt o' RuntimeError; Ok (r, ri.2).

Definition admit_request (id tenant drawing sid principal digest : string) (org project : option string) (now later : Z)
  : prog journal (result journal_error (row * bool)) :=
  match requested id tenant drawing sid principal digest org project with
  | Err e => Ret (Err e)
  | Ok who =>
      Act (λ _, admit_row id who now) (λ a,
        match a with
        | Err e => Ret (Err e)
        | Ok ri =>
            match check_binding who ri.1 with
            | Err e => Ret (Err e)
            | Ok _ => if is_executing ri.1 then Act (λ _, get_request id later) (λ o, Ret (reported ri o)) else Ret (Ok ri)
            end
        end)
  end.

(** ** Execution *)

Definition begin_request_and_turn (id turn owner : string) (lease : Z) (sid : string) (stale_after : Z)
    (tier subject : option json) (now : Z) : jx bool :=
  refuse (lease <=? 0) ValueError;;
  try_except (atomically (
    m ← gets jr_requests;
    match m !! id with
    | None => mret false
    | Some r =>
        if negb (is_admitted r) || negb (bool_decide (session_of r = sid)) then mret false else
        if exists_row (λ k x, negb (bool_decide (k = id)) && bool_decide (session_of x = sid) && is_executing x) m
        then mret false else
        ok ← pg_try_begin_turn_in_transaction sid turn stale_after tier subject now;
        if negb ok then mret false else
        put_row id (with_state r (RExecuting turn owner (now + lease)));;
        note_started id turn owner;; mret true
    end)) (λ e, match e with UniqueViolation => mret false | _ => raise e end).

Definition queue_request (id : string) (recoverable : json) : jx bool :=
  safe ← lift (validate_recoverable_payload recoverable);
  try_except (atomically (
    m ← gets jr_requests;
    match m !! id with
    | None => mret false
    | Some r =>
        if negb (is_admitted r) || exists_row (λ _ x, bool_decide (session_of x = session_of r) && is_queued x) m
        then mret false
        else put_row id (with_state r (RQueued safe));; mret true
    end)) (λ e, match e with UniqueViolation => mret false | _ => raise e end).

(** The queued rows that may start, those another transaction has locked left out. *)
Definition eligible (m : gmap string row) (locked : gset string) (sid : option string) : list (string * row) :=
  List.filter (λ kr : string * row,
    is_queued kr.2 && clause sid (session_of kr.2) && negb (bool_decide (kr.1 ∈ locked)) &&
    negb (exists_row (λ _ x, bool_decide (session_of x = session_of kr.2) && is_executing x) m)) (map_to_list m).

(** ORDER BY created_at, request_id LIMIT 1 *)
Definition before (a b : string * row) : bool :=
  (rq_created a.2 <? rq_created b.2) || ((rq_created a.2 =? rq_created b.2) && bool_decide (String.le a.1 b.1)).
Definition oldest (l : list (string * row)) : option (string * row) :=
  foldr (λ a best, match best with None => Some a | Some b => Some (if before a b then a else b) end) None l.

(** [payload.get(k)], a null as an absent one *)
Definition payload_field (v : json) (k : string) : option json :=
  match v with JObj kvs => match dict_get kvs k with Some JNull => None | o => o end | _ => None end.

Definition claim_next_queued_and_turn (turn owner : string) (lease stale_after : Z) (sid : option string)
    (locked : gset string) (now : Z) : jx (option (string * row * json)) :=
  refuse (lease <=? 0) ValueError;;
  atomically (
    m ← gets jr_requests;
    match oldest (eligible m locked sid) with
    | None => mret None
    | Some (id, r) =>
        match rq_state r with
        | RQueued payload =>
            ok ← pg_try_begin_turn_in_transaction (session_of r) turn stale_after (payload_field payload "tier")
                   (payload_field payload "subject") now;
            if negb ok then mret None else
            let r' := with_state r (RExecuting turn owner (now + lease)) in
            put_row id r';; note_started id turn owner;; mret (Some (id, r', payload))
        | _ => mret None
        end
    end).

Definition queued_for_session (sid : string) : jx (option (string * row)) :=
  gets (λ s, match List.filter (λ kr : string * row, is_queued kr.2 && bool_decide (session_of kr.2 = sid)) (map_to_list (jr_requests s)) with
             | kr :: _ => Some kr
             | [] => None
             end).

Definition RECOVERY_FLOOR : Z := 50000.

(** The lease ends of the executions that keep a queued request waiting. *)
Definition blocking_leases (m : gmap string row) : list Z :=
  omap (λ kr : string * row,
    match rq_state kr.2 with
    | RExecuting _ _ e => if exists_row (λ _ x, is_queued x && bool_decide (session_of x = session_of kr.2)) m then Some e else None
    | _ => None
    end) (map_to_list m).

Definition next_queued_recovery_delay (now : Z) : jx (option Z) :=
  gets (λ s, match blocking_leases (jr_requests s) with
             | [] => None
             | e :: l => Some (Z.max RECOVERY_FLOOR (foldr Z.min e l - now))
             end).

(** What [try_enqueue_turn] of [server/turn_runner.py] queues. *)
Definition recoverable (text : string) (hint model project_context : option json) : json :=
  let or_null o := match o with Some v => v | None => JNull end in
  JObj ([("text", JStr text); ("classifier_hint", or_null hint); ("model", or_null model)] ++
        match project_context with Some b => [(KEY, b)] | None => [] end).

(** ** Endings *)

Definition status_ok (st : Z) : bool := (100 <=? st) && (st <=? 599).

(** Finish the execution of [turn], found by its request or by its session. *)
Definition finish_row (id turn : string) (how : terminal) (status : Z) (response : json) (now : Z) : jx bool :=
  m ← gets jr_requests;
  match m !! id with
  | Some r =>
      match rq_state r with
      | RExecuting t _ _ =>
          if bool_decide (t = turn) then put_row id (with_state r (RFinished how (Some t) status response now));; mret true
          else mret false
      | _ => mret false
      end
  | None => mret false
  end.

Definition finish_request (id turn : string) (how : terminal) (status : Z) (response : json) (now : Z) : jx bool :=
  refuse (negb (status_ok status)) ValueError;;
  safe ← lift (_json_object _MAX_RESPONSE_BYTES response);
  atomically (finish_row id turn how status safe now).

Definition executing_turn (sid turn : string) (m : gmap string row) : option string :=
  match list_find (λ kr : string * row, bool_decide (session_of kr.2 = sid) &&
          match rq_state kr.2 with RExecuting t _ _ => bool_decide (t = turn) | _ => false end = true) (map_to_list m) with
  | Some (_, kr) => Some kr.1
  | None => None
  end.

Definition finish_turn (sid turn : string) (how : terminal) (status : Z) (response : json) (now : Z) : jx bool :=
  safe ← lift (_json_object _MAX_RESPONSE_BYTES response);
  atomically (
    m ← gets jr_requests;
    match executing_turn sid turn m with
    | Some id => refuse (negb (status_ok status)) CheckViolation;; finish_row id turn how status safe now
    | None => mret false
    end).

Definition fail_from (waiting : row → bool) (id : string) (status : Z) (response : json) (now : Z) : jx bool :=
  safe ← lift (_json_object _MAX_RESPONSE_BYTES response);
  atomically (
    m ← gets jr_requests;
    match m !! id with
    | Some r => if waiting r then
                  refuse (negb (status_ok status)) CheckViolation;;
                  put_row id (with_state r (RFinished Failed None status safe now));; mret true
                else mret false
    | None => mret false
    end).

Definition fail_admitted := fail_from is_admitted.
Definition fail_queued := fail_from is_queued.

(** ** Counts *)

Definition count_rows (p : row → bool) (m : gmap string row) : Z :=
  Z.of_nat (size (filter (λ kr : string * row, p kr.2 = true) m)).

Definition active_counts (tenant drawing : string) (org project : option string) (now : Z) : jx (Z * Z * Z) :=
  sc ← lift (_canonical_project_scope tenant org project);
  let s := Scope None (Some tenant) (Some drawing) sc (bool_decide (sc = None)) in
  atomically (
    _settle_expired_executions s now;;
    gets (λ j, let queued := count_rows (λ r, is_queued r && in_scope s "" r) (jr_requests j) in
               let executing := count_rows (λ r, is_executing r && in_scope s "" r) (jr_requests j) in
               (queued, executing, queued + executing))).
