(* ===== verification/JournalSystem.v ===== *)
(** * The request journal under concurrency

    The methods of [server/request_journal.py] run against one database in any order,
    with anything else that writes the session rows in between.  Every transaction is
    a sequence of [journal_move]s; the moves keep [journal_inv] and take rows along
    [journal_grows].  A request executes at most once, a finished request never
    changes, and retries of one request are answered alike. *)

From S2P Require Import Prelude PyText Json ProjectContext Concurrent RequestJournal.
Local Open Scope Z_scope.

(** ** Rows found *)

Lemma exists_row_true p m : exists_row p m = true ↔ ∃ k x, m !! k = Some x ∧ p k x = true.
Proof.
  unfold exists_row. rewrite existsb_exists. split.
  - intros ([k x] & Hin & Hp). exists k, x. split; [|done]. by apply elem_of_map_to_list, list_elem_of_In.
  - intros (k & x & Hk & Hp). exists (k, x). split; [|done]. by apply list_elem_of_In, elem_of_map_to_list.
Qed.

Lemma exists_row_false p m : exists_row p m = false ↔ ∀ k x, m !! k = Some x → p k x = false.
Proof.
  rewrite <- not_true_iff_false, exists_row_true. split.
  - intros H k x Hk. apply not_true_iff_false. intros Hp. apply H. eauto.
  - intros H (k & x & Hk & Hp). by rewrite (H _ _ Hk) in Hp.
Qed.

Definition finished (r : row) : Prop := match rq_state r with RFinished _ _ _ _ _ => True | _ => False end.

(** What a queued payload may be. *)
Definition safe_payload (v : json) : Prop := contains_credential_material v = false ∧ dumps_size v <= _MAX_RECOVERABLE_BYTES.

(** [b] ends [a], or is [a]. *)
Definition ended (a b : row) : Prop :=
  b = a ∨ (¬ finished a ∧ ∃ how turn st resp at_, b = with_state a (RFinished how turn st resp at_) ∧
           (∀ t, turn = Some t → ∃ o e, rq_state a = RExecuting t o e)).

Inductive journal_move : journal → journal → Prop :=
| move_sessions s m : journal_move s (Journal (jr_requests s) m (jr_started s))
| move_new s id who now : jr_requests s !! id = None →
    journal_move s (Journal (<[id := Row who now RAdmitted]> (jr_requests s)) (jr_sessions s) (jr_started s))
| move_queue s id r v : jr_requests s !! id = Some r → rq_state r = RAdmitted → safe_payload v →
    (∀ k x, jr_requests s !! k = Some x → session_of x = session_of r → is_queued x = false) →
    journal_move s (Journal (<[id := with_state r (RQueued v)]> (jr_requests s)) (jr_sessions s) (jr_started s))
| move_start s id r turn owner e : jr_requests s !! id = Some r → is_admitted r || is_queued r = true →
    (∀ k x, jr_requests s !! k = Some x → session_of x = session_of r → is_executing x = false) →
    journal_move s (Journal (<[id := with_state r (RExecuting turn owner e)]> (jr_requests s)) (jr_sessions s)
                            ((id, (turn, owner)) :: jr_started s))
| move_end s m : (∀ id, option_relation ended (λ _, False) (λ _, False) (jr_requests s !! id) (m !! id)) →
    journal_move s (Journal m (jr_sessions s) (jr_started s)).

(** ** What every state satisfies *)

Record journal_inv (s : journal) : Prop := JournalInv {
  inv_once : NoDup (jr_started s).*1;
  inv_started : ∀ id t, (id, t) ∈ jr_started s → ∃ r, jr_requests s !! id = Some r ∧ (is_executing r = true ∨ finished r);
  inv_turn : ∀ id r t o e, jr_requests s !! id = Some r → rq_state r = RExecuting t o e → (id, (t, o)) ∈ jr_started s;
  inv_ended_turn : ∀ id r how t st resp at_, jr_requests s !! id = Some r → rq_state r = RFinished how (Some t) st resp at_ →
    ∃ o, (id, (t, o)) ∈ jr_started s;
  inv_payload : ∀ id r v, jr_requests s !! id = Some r → rq_state r = RQueued v → safe_payload v;
  inv_one_executing : ∀ i j a b, jr_requests s !! i = Some a → jr_requests s !! j = Some b → session_of a = session_of b →
    is_executing a = true → is_executing b = true → i = j;
  inv_one_queued : ∀ i j a b, jr_requests s !! i = Some a → jr_requests s !! j = Some b → session_of a = session_of b →
    is_queued a = true → is_queued b = true → i = j }.

Definition row_grows (a b : row) : Prop :=
  rq_identity b = rq_identity a ∧ rq_created b = rq_created a ∧ (finished a → b = a).

Record journal_grows (s s' : journal) : Prop := JournalGrows {
  grows_started : jr_started s `suffix_of` jr_started s';
  grows_rows : ∀ id a, jr_requests s !! id = Some a → ∃ b, jr_requests s' !! id = Some b ∧ row_grows a b }.

#[export] Instance journal_grows_preorder : PreOrder journal_grows.
Proof.
  split.
  - intros s. split; [done|]. intros id a Ha. exists a. by repeat split.
  - intros s1 s2 s3 [H1 R1] [H2 R2]. split; [by etransitivity|]. intros id a Ha.
    destruct (R1 _ _ Ha) as (b & Hb & I1 & C1 & F1). destruct (R2 _ _ Hb) as (c & Hc & I2 & C2 & F2).
    exists c. split; [done|]. split_and!; [congruence|congruence|]. intros Hf. pose proof (F1 Hf). subst b. auto.
Qed.

Lemma rows_insert (m : gmap string row) id a b : m !! id = Some a → row_grows a b →
  ∀ k x, m !! k = Some x → ∃ y, <[id := b]> m !! k = Some y ∧ row_grows x y.
Proof.
  intros Ha Hg k x Hx. destruct (decide (k = id)) as [->|Hne].
  - exists b. rewrite lookup_insert_eq. split; [done|]. congruence.
  - exists x. rewrite lookup_insert_ne by done. by repeat split.
Qed.

Lemma ended_grows a b : ended a b → row_grows a b.
Proof. intros [->|(Hf & how & t & st & resp & at_ & -> & _)]; by repeat split. Qed.

Lemma ended_lookup (m m' : gmap string row) id b :
  (∀ id, option_relation ended (λ _, False) (λ _, False) (m !! id) (m' !! id)) → m' !! id = Some b →
  ∃ a, m !! id = Some a ∧ ended a b.
Proof. intros H Hb. specialize (H id). rewrite Hb in H. destruct (m !! id) as [a|]; [by exists a|done]. Qed.

Lemma journal_move_grows s s' : journal_move s s' → journal_grows s s'.
Proof.
  destruct 1 as [s m|s id who now Hn|s id r v Hr Hs Hv Hq|s id r turn owner e Hr Hs Hx|s m Hm]; split; simpl; try done.
  - intros id a Ha. exists a. by repeat split.
  - intros k a Ha. exists a. rewrite lookup_insert_ne by congruence. by repeat split.
  - apply (rows_insert _ _ r); [done|]. repeat split. unfold finished. by rewrite Hs.
  - by apply suffix_cons_r.
  - apply (rows_insert _ _ r); [done|]. repeat split. unfold finished, is_admitted, is_queued in *. by destruct (rq_state r).
  - intros id a Ha. specialize (Hm id). rewrite Ha in Hm. destruct (m !! id) as [b|]; [|done]. exists b. split; [done|]. by apply ended_grows.
Qed.

(** ** The moves keep the invariant *)

(** Rows in which neither [p] nor a session changes keep what holds of pairs. *)
Lemma unique_insert (p : row → bool) (m : gmap string row) id r r' :
  m !! id = Some r → session_of r' = session_of r →
  (p r' = true → ∀ k x, m !! k = Some x → session_of x = session_of r → p x = false) →
  (∀ i j a b, m !! i = Some a → m !! j = Some b → session_of a = session_of b → p a = true → p b = true → i = j) →
  ∀ i j a b, <[id := r']> m !! i = Some a → <[id := r']> m !! j = Some b → session_of a = session_of b →
    p a = true → p b = true → i = j.
Proof.
  intros Hr Hs Hp Hall i j a b. rewrite !lookup_insert_Some.
  intros [[<- <-]|[Hi Ha]] [[<- <-]|[Hj Hb]] Hab Hpa Hpb; [done| | |eauto].
  - rewrite (Hp Hpa j b) in Hpb; [done|done|congruence].
  - rewrite (Hp Hpb i a) in Hpa; [done|done|congruence].
Qed.

Lemma ended_executing a b : ended a b → is_executing b = true → a = b.
Proof. by intros [->|(_ & ? & ? & ? & ? & ? & -> & _)]. Qed.
Lemma ended_queued a b : ended a b → is_queued b = true → a = b.
Proof. by intros [->|(_ & ? & ? & ? & ? & ? & -> & _)]. Qed.
Lemma ended_session a b : ended a b → session_of b = session_of a.
Proof. by intros [->|(_ & ? & ? & ? & ? & ? & -> & _)]. Qed.

Lemma move_new_inv s id who now : jr_requests s !! id = None → journal_inv s →
  journal_inv (Journal (<[id := Row who now RAdmitted]> (jr_requests s)) (jr_sessions s) (jr_started s)).
Proof.
  intros Hn [Ho Hs Ht He Hp Hx Hq]. split; simpl; try done.
  - intros k t Hin. destruct (Hs _ _ Hin) as (r & Hr & ?). exists r. rewrite lookup_insert_ne by congruence. done.
  - intros k r t o e. rewrite lookup_insert_Some. intros [[<- <-]|[_ ?]]; [done|eauto].
  - intros k r how t st resp at_. rewrite lookup_insert_Some. intros [[<- <-]|[_ ?]]; [done|eauto].
  - intros k r v. rewrite lookup_insert_Some. intros [[<- <-]|[_ ?]]; [done|eauto].
  - intros i j a b. rewrite !lookup_insert_Some. intros [[<- <-]|[? ?]] [[<- <-]|[? ?]]; try done. eauto.
  - intros i j a b. rewrite !lookup_insert_Some. intros [[<- <-]|[? ?]] [[<- <-]|[? ?]]; try done. eauto.
Qed.

Lemma move_queue_inv s id r v : jr_requests s !! id = Some r → rq_state r = RAdmitted → safe_payload v →
  (∀ k x, jr_requests s !! k = Some x → session_of x = session_of r → is_queued x = false) → journal_inv s →
  journal_inv (Journal (<[id := with_state r (RQueued v)]> (jr_requests s)) (jr_sessions s) (jr_started s)).
Proof.
  intros Hr Hst Hv Hfree [Ho Hs Ht He Hp Hx Hq]. split; simpl; try done.
  - intros k t Hin. destruct (Hs _ _ Hin) as (x & Hx' & Hwhat). exists x. rewrite lookup_insert_ne; [done|]. intros <-.
    rewrite Hr in Hx'. injection Hx' as <-. unfold is_executing, finished in Hwhat. rewrite Hst in Hwhat. by destruct Hwhat.
  - intros k x t o e. rewrite lookup_insert_Some. intros [[<- <-]|[_ ?]]; [done|eauto].
  - intros k x how t st resp at_. rewrite lookup_insert_Some. intros [[<- <-]|[_ ?]]; [done|eauto].
  - intros k x w. rewrite lookup_insert_Some. intros [[<- <-]|[_ ?]]; [|eauto]. by intros [= <-].
  - by apply (unique_insert is_executing _ _ r).
  - by apply (unique_insert is_queued _ _ r).
Qed.

Lemma move_start_inv s id r turn owner e : jr_requests s !! id = Some r → is_admitted r || is_queued r = true →
  (∀ k x, jr_requests s !! k = Some x → session_of x = session_of r → is_executing x = false) → journal_inv s →
  journal_inv (Journal (<[id := with_state r (RExecuting turn owner e)]> (jr_requests s)) (jr_sessions s)
                       ((id, (turn, owner)) :: jr_started s)).
Proof.
  intros Hr Hst Hfree [Ho Hs Ht He Hp Hx Hq].
  assert (Hnew : ∀ t, (id, t) ∉ jr_started s).
  { intros t Hin. destruct (Hs _ _ Hin) as (x & Hx' & Hwhat). rewrite Hr in Hx'. injection Hx' as <-.
    unfold is_executing, finished, is_admitted, is_queued in *. destruct (rq_state r); naive_solver. }
  split; simpl.
  - constructor; [|done]. intros ([k t] & -> & Hin)%list_elem_of_fmap. by apply (Hnew t).
  - intros k t [[= -> ->]|Hin]%elem_of_cons.
    + exists (with_state r (RExecuting turn owner e)). rewrite lookup_insert_eq. by split; [|left].
    + destruct (Hs _ _ Hin) as (x & ? & ?). exists x. rewrite lookup_insert_ne; [done|]. intros <-. by apply (Hnew t).
  - intros k x t o e'. rewrite lookup_insert_Some. intros [[<- <-]|[_ ?]] Hx'; [|right; eauto]. injection Hx' as <- <- <-. left.
  - intros k x how t st resp at_. rewrite lookup_insert_Some. intros [[<- <-]|[_ ?]] Hx'; [done|].
    edestruct He as [o ?]; [done|done|]. exists o. by right.
  - intros k x w. rewrite lookup_insert_Some. intros [[<- <-]|[_ ?]]; [done|eauto].
  - by apply (unique_insert is_executing _ _ r).
  - by apply (unique_insert is_queued _ _ r).
Qed.

Lemma move_end_inv s m : (∀ id, option_relation ended (λ _, False) (λ _, False) (jr_requests s !! id) (m !! id)) →
  journal_inv s → journal_inv (Journal m (jr_sessions s) (jr_started s)).
Proof.
  intros Hm [Ho Hs Ht He Hp Hx Hq]. split; simpl; try done.
  - intros k t Hin. destruct (Hs _ _ Hin) as (r & Hr & Hwhat). specialize (Hm k). rewrite Hr in Hm.
    destruct (m !! k) as [b|]; [|done]. exists b. split; [done|]. destruct Hm as [->|(_ & ? & ? & ? & ? & ? & -> & _)]; [done|by right].
  - intros k r t o e Hk Hst. destruct (ended_lookup _ _ _ _ Hm Hk) as (a & Ha & [->|(_ & ? & ? & ? & ? & ? & -> & _)]); [eauto|done].
  - intros k r how t st resp at_ Hk Hst. destruct (ended_lookup _ _ _ _ Hm Hk) as (a & Ha & [->|(_ & ? & tu & ? & ? & ? & -> & Htu)]); [eauto|].
    injection Hst as -> -> -> -> ->. destruct (Htu t eq_refl) as (o & e & Hst). exists o. eauto.
  - intros k r v Hk Hst. destruct (ended_lookup _ _ _ _ Hm Hk) as (a & Ha & [->|(_ & ? & ? & ? & ? & ? & -> & _)]); [eauto|done].
  - intros i j a b Hi Hj Hab Hea Heb. destruct (ended_lookup _ _ _ _ Hm Hi) as (a0 & ? & Ha0), (ended_lookup _ _ _ _ Hm Hj) as (b0 & ? & Hb0).
    apply ended_executing in Ha0, Hb0; [|done..]. subst. eauto.
  - intros i j a b Hi Hj Hab Hea Heb. destruct (ended_lookup _ _ _ _ Hm Hi) as (a0 & ? & Ha0), (ended_lookup _ _ _ _ Hm Hj) as (b0 & ? & Hb0).
    apply ended_queued in Ha0, Hb0; [|done..]. subst. eauto.
Qed.

Lemma journal_move_inv s s' : journal_move s s' → journal_inv s → journal_inv s'.
Proof.
  destruct 1 as [s m|s id who now Hn|s id r v Hr Hs Hv Hq|s id r turn owner e Hr Hs Hx|s m Hm].
  - by intros [].
  - by apply move_new_inv.
  - by apply move_queue_inv.
  - by apply move_start_inv.
  - by apply move_end_inv.
Qed.

Lemma journal_moves_ok s s' : star journal_move s s' → journal_inv s → journal_inv s' ∧ journal_grows s s'.
Proof.
  induction 1 as [s|s1 s2 s3 H1 _ IH]; intros Hinv; [done|].
  destruct (IH (journal_move_inv _ _ H1 Hinv)) as [? ?]. split; [done|]. etransitivity; [by apply journal_move_grows|done].
Qed.

(** ** Every transaction is a sequence of moves *)

Abbreviation moves := (steps journal_move).

Lemma jmoves_gets {A} (f : journal → A) : moves (gets f).
Proof. intros s. apply star_refl. Qed.

Lemma jmoves_refuse b e : moves (refuse b e).
Proof. destruct b; [apply steps_raise|apply steps_ret]. Qed.

Lemma jmoves_put_session sid x : moves (put_session sid x).
Proof. intros s. apply star_one, move_sessions. Qed.

Ltac jmoves := repeat
  match goal with
  | |- moves (atomically _) => apply steps_atomically
  | |- moves (try_except _ _) => apply steps_try; [|intros ?]
  | |- moves (mbind _ _) => apply steps_bind; [|intros ?]
  | |- moves (mret _) => apply steps_ret
  | |- moves (raise _) => apply steps_raise
  | |- moves (lift _) => apply steps_lift
  | |- moves (gets _) => apply jmoves_gets
  | |- moves (refuse _ _) => apply jmoves_refuse
  | |- moves (put_session _ _) => apply jmoves_put_session
  | |- moves (match _ with _ => _ end) => case_match
  end.

Lemma jmoves_begin_turn sid turn stale tier subject now : moves (pg_try_begin_turn_in_transaction sid turn stale tier subject now).
Proof. unfold pg_try_begin_turn_in_transaction. jmoves. Qed.

Lemma jmoves_end_turn sid turn : moves (_pg_end_turn sid turn).
Proof. unfold _pg_end_turn. jmoves. Qed.

(** A turn that begins touches no request. *)
Lemma begin_turn_requests sid turn stale tier subject now s r s' :
  pg_try_begin_turn_in_transaction sid turn stale tier subject now s = (r, s') →
  jr_requests s' = jr_requests s ∧ jr_started s' = jr_started s.
Proof.
  unfold pg_try_begin_turn_in_transaction. unfold mbind at 1, io_mbind at 1, gets. intros H.
  destruct (jr_sessions s !! sid) as [x|]; [|by injection H as _ <-].
  destruct (turn_free x stale now); by injection H as _ <-.
Qed.

Lemma move_end_one s id r how turn st resp at_ : jr_requests s !! id = Some r → ¬ finished r →
  (∀ t, turn = Some t → ∃ o e, rq_state r = RExecuting t o e) →
  journal_move s (Journal (<[id := with_state r (RFinished how turn st resp at_)]> (jr_requests s)) (jr_sessions s) (jr_started s)).
Proof.
  intros Hr Hf Ht. apply move_end. intros k. destruct (decide (k = id)) as [->|Hne].
  - rewrite Hr, lookup_insert_eq. right. split; [done|]. by exists how, turn, st, resp, at_.
  - rewrite lookup_insert_ne by done. destruct (jr_requests s !! k); [by left|done].
Qed.

Lemma put_row_ok id r s : conflicts (jr_requests s) id r = false →
  put_row id r s = (Ok tt, Journal (<[id := r]> (jr_requests s)) (jr_sessions s) (jr_started s)).
Proof. intros H. unfold put_row, mbind, io_mbind, gets, modify. by rewrite H. Qed.

Lemma put_row_conflict id r s : conflicts (jr_requests s) id r = true → put_row id r s = (Err UniqueViolation, s).
Proof. intros H. unfold put_row, mbind, io_mbind, gets, modify. by rewrite H. Qed.

(** A row that ends conflicts with nothing. *)
Lemma put_finished id r how turn st resp at_ s :
  put_row id (with_state r (RFinished how turn st resp at_)) s =
  (Ok tt, Journal (<[id := with_state r (RFinished how turn st resp at_)]> (jr_requests s)) (jr_sessions s) (jr_started s)).
Proof.
  apply put_row_ok,  exists_row_false. intros k x _. simpl. by rewrite !andb_false_r.
Qed.

Lemma jmoves_settle p now : (∀ id r, p id r = true → ¬ finished r) → moves (settle p now).
Proof.
  intros Hp s. unfold final, settle. cbn [snd]. set (closed := filter _ _). set (rel := foldr _ _ _). clearbody rel.
  set (m := (abandoned now <$> closed) ∪ jr_requests s).
  apply (star_step _ _ (Journal m (jr_sessions s) (jr_started s)));
    [|exact (star_one _ _ _ (move_sessions (Journal m (jr_sessions s) (jr_started s)) rel))].
  apply move_end. subst m. intros id. rewrite lookup_union, lookup_fmap. subst closed.
  destruct (jr_requests s !! id) as [r|] eqn:Hr.
  - destruct (p id r) eqn:Hb.
    + rewrite (map_lookup_filter_Some_2 _ _ _ r) by done. simpl. right. split; [by eapply Hp|].
      do 5 eexists. split; [reflexivity|]. intros t Ht. destruct (rq_state r) eqn:Hst; try done. injection Ht as <-. eauto.
    + rewrite map_lookup_filter_None_2; [by left|]. right. intros x Hx. rewrite Hr in Hx. injection Hx as <-. simpl. by rewrite Hb.
  - rewrite map_lookup_filter_None_2 by (by left). done.
Qed.

Lemma expired_unfinished now r : expired now r = true → ¬ finished r.
Proof. unfold expired, finished. destruct (rq_state r); naive_solver. Qed.
Lemma admitted_unfinished r : is_admitted r = true → ¬ finished r.
Proof. unfold is_admitted, finished. destruct (rq_state r); naive_solver. Qed.
Lemma queued_unfinished r : is_queued r = true → ¬ finished r.
Proof. unfold is_queued, finished. destruct (rq_state r); naive_solver. Qed.

Lemma jmoves_settle_expired sc now : moves (_settle_expired_executions sc now).
Proof. apply jmoves_settle. intros id r [H _]%andb_true_iff. by eapply expired_unfinished. Qed.

Lemma jmoves_settle_abandoned now after : moves (settle_abandoned now after).
Proof.
  apply jmoves_settle. intros id r [H|[H _]%andb_true_iff]%orb_true_iff; [by eapply expired_unfinished|by apply admitted_unfinished].
Qed.

Lemma jmoves_get_request id now : moves (get_request id now).
Proof. apply steps_atomically, steps_bind; [apply jmoves_settle_expired|intros ?; apply jmoves_gets]. Qed.

Lemma jmoves_active_counts t d o p now : moves (active_counts t d o p now).
Proof. unfold active_counts. jmoves. apply jmoves_settle_expired. Qed.

Lemma jmoves_admit_row id who now : moves (admit_row id who now).
Proof.
  apply steps_atomically. intros s. unfold gets at 1. erewrite final_bind by done.
  destruct (jr_requests s !! id) eqn:Hn; [apply star_refl|]. erewrite final_bind by done. case_bool_decide; [|apply star_refl].
  destruct (conflicts (jr_requests s) id (Row who now RAdmitted)) eqn:Hc.
  - unfold final, mbind, io_mbind. rewrite put_row_conflict by done. apply star_refl.
  - erewrite final_bind by by apply put_row_ok. by apply star_one, move_new.
Qed.

(** Starting a request: the row and the history, after the session took the turn. *)
Lemma jmoves_start id r turn owner e s {A} (k : unit → jx A) :
  jr_requests s !! id = Some r → is_admitted r || is_queued r = true →
  (∀ i x, jr_requests s !! i = Some x → session_of x = session_of r → is_executing x = false) →
  (∀ s', star journal_move s' (final (k tt) s')) →
  star journal_move s (final (put_row id (with_state r (RExecuting turn owner e));; note_started id turn owner;; k tt) s).
Proof.
  intros Hr Hst Hfree Hk. erewrite final_bind.
  2: { apply put_row_ok, exists_row_false. intros i x Hx. destruct (decide (session_of x = session_of r)) as [He|He].
       - rewrite (Hfree _ _ Hx He). simpl. by rewrite andb_false_r.
       - rewrite (bool_decide_false (session_of x = _)) by done. by rewrite andb_false_r. }
  erewrite final_bind by done. eapply star_step; [by eapply (move_start s id r turn owner e)|]. apply Hk.
Qed.

Lemma jmoves_begin id turn owner lease sid stale tier subject now :
  moves (begin_request_and_turn id turn owner lease sid stale tier subject now).
Proof.
  unfold begin_request_and_turn. apply steps_bind; [apply jmoves_refuse|intros _].
  apply steps_try; [|intros e; destruct e; jmoves]. apply steps_atomically. intros s. unfold gets at 1. erewrite final_bind by done.
  destruct (jr_requests s !! id) as [r|] eqn:Hr; [|apply star_refl].
  destruct (is_admitted r) eqn:Had; [simpl|apply star_refl]. case_bool_decide as Hsid; [simpl|apply star_refl].
  destruct (exists_row _ _) eqn:Hx; [apply star_refl|].
  destruct (pg_try_begin_turn_in_transaction sid turn stale tier subject now s) as [o s1] eqn:Ho.
  pose proof (jmoves_begin_turn sid turn stale tier subject now s) as Hm. unfold final in Hm. rewrite Ho in Hm. simpl in Hm.
  destruct (begin_turn_requests _ _ _ _ _ _ _ _ _ Ho) as [Hrq _].
  destruct o as [[]|er]; [| |unfold final, mbind, io_mbind; by rewrite Ho]; erewrite final_bind by done; [|done].
  eapply star_trans; [exact Hm|]. apply (jmoves_start _ _ _ _ _ _ (λ _, mret true)); [by rewrite Hrq|by rewrite Had| |intros; apply star_refl].
  rewrite Hrq. intros i x Hi Hs. destruct (decide (i = id)) as [->|Hne].
  - rewrite Hr in Hi. injection Hi as <-. unfold is_admitted, is_executing in *. by destruct (rq_state r).
  - rewrite exists_row_false in Hx. specialize (Hx _ _ Hi). simpl in Hx.
    rewrite bool_decide_false in Hx by done. rewrite bool_decide_true in Hx by congruence. done.
Qed.

(** *** The queue *)

Lemma dict_set_same kvs k v : dict_get kvs k = Some v → dict_set kvs k v = kvs.
Proof.
  induction kvs as [|[k0 v0] kvs IH]; [done|]. simpl. case_bool_decide as Hk; [by intros [= ->]; subst|].
  intros H. by rewrite IH.
Qed.

(** What is queued is the value that was checked. *)
Lemma validated_payload v w : validate_recoverable_payload v = Ok w → w = v ∧ safe_payload v.
Proof.
  unfold validate_recoverable_payload. destruct (contains_credential_material v) eqn:Hc; [done|].
  destruct v as [| | | | |kvs]; try done. unfold _json_object. destruct (Z.ltb_spec _MAX_RECOVERABLE_BYTES (dumps_size (JObj kvs))); [done|].
  cbn [mbind result_mbind]. destruct (dict_get kvs KEY) as [b|] eqn:Hb; [|by intros [= <-]].
  unfold validate_binding. destruct (binding_ok b); [|done]. intros [= <-]. by rewrite dict_set_same.
Qed.

Lemma jmoves_queue id v : moves (queue_request id v).
Proof.
  unfold queue_request. destruct (validate_recoverable_payload v) as [w|e] eqn:Hv; [|intros s; apply star_refl].
  apply validated_payload in Hv as [-> Hsafe]. intros s. erewrite final_bind by done. revert s.
  apply steps_try; [|intros e; destruct e; jmoves]. apply steps_atomically. intros s. unfold gets at 1. erewrite final_bind by done.
  destruct (jr_requests s !! id) as [r|] eqn:Hr; [|apply star_refl].
  destruct (is_admitted r) eqn:Had; [simpl|apply star_refl]. destruct (exists_row _ _) eqn:Hx; [apply star_refl|].
  assert (Hfree : ∀ k x, jr_requests s !! k = Some x → session_of x = session_of r → is_queued x = false).
  { intros k x Hk Hs. rewrite exists_row_false in Hx. specialize (Hx _ _ Hk). simpl in Hx. by rewrite bool_decide_true in Hx. }
  erewrite final_bind.
  2: { apply put_row_ok, exists_row_false. intros k x Hk. destruct (decide (session_of x = session_of r)) as [He|He].
       - rewrite (Hfree _ _ Hk He). simpl. by rewrite andb_false_r.
       - rewrite (bool_decide_false (session_of x = _)) by done. by rewrite andb_false_r. }
  apply star_one, move_queue; try done. unfold is_admitted in Had. by destruct (rq_state r).
Qed.

Lemma oldest_in l a : oldest l = Some a → a ∈ l.
Proof.
  revert a. induction l as [|b l IH]; [done|]. intros a. simpl. destruct (oldest l) as [c|] eqn:Hc.
  - intros [= <-]. destruct (before b c); [left|right; by apply IH].
  - intros [= <-]. left.
Qed.

Lemma eligible_in m locked sid id r : (id, r) ∈ eligible m locked sid →
  m !! id = Some r ∧ is_queued r = true ∧ clause sid (session_of r) = true ∧ (id ∉ locked) ∧
  ∀ k x, m !! k = Some x → session_of x = session_of r → is_executing x = false.
Proof.
  unfold eligible. rewrite list_elem_of_In, filter_In, <- list_elem_of_In, elem_of_map_to_list. intros [Hm H].
  cbn [fst snd] in H. rewrite !andb_true_iff, !negb_true_iff, bool_decide_eq_false, exists_row_false in H.
  destruct H as [[[Hq Hc] Hl] Hx]. split_and!; try done. intros k x Hk Hs. specialize (Hx _ _ Hk). simpl in Hx. by rewrite bool_decide_true in Hx.
Qed.

Lemma jmoves_claim turn owner lease stale sid locked now :
  moves (claim_next_queued_and_turn turn owner lease stale sid locked now).
Proof.
  unfold claim_next_queued_and_turn. apply steps_bind; [apply jmoves_refuse|intros _]. apply steps_atomically.
  intros s. unfold gets at 1. erewrite final_bind by done.
  destruct (oldest _) as [[id r]|] eqn:Hold; [|apply star_refl]. apply oldest_in, eligible_in in Hold as (Hr & Hq & _ & _ & Hfree).
  destruct (rq_state r) as [|payload| |] eqn:Hst; try apply star_refl.
  set (begin := pg_try_begin_turn_in_transaction _ _ _ _ _ _). pose proof (jmoves_begin_turn (session_of r) turn stale
    (payload_field payload "tier") (payload_field payload "subject") now s) as Hm.
  destruct (begin s) as [o s1] eqn:Ho. unfold begin in Ho. unfold final in Hm. rewrite Ho in Hm. simpl in Hm.
  destruct (begin_turn_requests _ _ _ _ _ _ _ _ _ Ho) as [Hrq _]. subst begin.
  destruct o as [[]|er]; [| |unfold final, mbind, io_mbind; by rewrite Ho]; erewrite final_bind by done; [|done].
  eapply star_trans; [exact Hm|].
  apply (jmoves_start _ _ _ _ _ _ (λ _, mret (Some (id, with_state r (RExecuting turn owner (now + lease)), payload)))).
  - by rewrite Hrq.
  - rewrite Hq. apply orb_true_r.
  - by rewrite Hrq.
  - intros. apply star_refl.
Qed.

(** *** Endings *)

Lemma jmoves_finish_row id turn how st resp now : moves (finish_row id turn how st resp now).
Proof.
  intros s. unfold finish_row, gets. erewrite final_bind by done. destruct (jr_requests s !! id) as [r|] eqn:Hr; [|apply star_refl].
  destruct (rq_state r) as [| |t o e|] eqn:Hst; try apply star_refl. case_bool_decide; [|apply star_refl].
  erewrite final_bind by apply put_finished. apply star_one, move_end_one; [done|unfold finished; rewrite Hst; tauto|].
  intros ? [= <-]. eauto.
Qed.

Lemma jmoves_finish_request id turn how st resp now : moves (finish_request id turn how st resp now).
Proof. unfold finish_request. jmoves. apply jmoves_finish_row. Qed.

Lemma jmoves_finish_turn sid turn how st resp now : moves (finish_turn sid turn how st resp now).
Proof. unfold finish_turn. jmoves. apply jmoves_finish_row. Qed.

Lemma jmoves_fail_from waiting id st resp now : (∀ r, waiting r = true → ¬ finished r) → moves (fail_from waiting id st resp now).
Proof.
  intros Hw. unfold fail_from. apply steps_bind; [apply steps_lift|intros safe]. apply steps_atomically. intros s.
  unfold gets. erewrite final_bind by done. destruct (jr_requests s !! id) as [r|] eqn:Hr; [|apply star_refl].
  destruct (waiting r) eqn:Hwr; [|apply star_refl]. unfold refuse. destruct (negb _); [apply star_refl|].
  erewrite final_bind by done. erewrite final_bind by apply put_finished. apply star_one, move_end_one; [done|auto|done].
Qed.

(** ** The system *)

(** What a request to the journal ends with: an admission with the id and identity it
    asked for, or something no other request depends on. *)
Definition answer : Type := option (string * result journal_error identity * result journal_error (row * bool)).

(** A request of one transaction. *)
Definition once {A} (op : jx A) : prog journal answer := Act (λ _, op) (λ _, Ret None).

Inductive journal_arrives : prog journal answer → Prop :=
| arrive_admit id t d sid p dg o pr now later :
    journal_arrives (pmap (λ r, Some (id, requested id t d sid p dg o pr, r)) (admit_request id t d sid p dg o pr now later))
| arrive_begin id turn owner lease sid stale tier subject now :
    journal_arrives (once (begin_request_and_turn id turn owner lease sid stale tier subject now))
| arrive_queue id v : journal_arrives (once (queue_request id v))
| arrive_claim turn owner lease stale sid locked now :
    journal_arrives (once (claim_next_queued_and_turn turn owner lease stale sid locked now))
| arrive_finish id turn how st resp now : journal_arrives (once (finish_request id turn how st resp now))
| arrive_finish_turn sid turn how st resp now : journal_arrives (once (finish_turn sid turn how st resp now))
| arrive_fail_admitted id st resp now : journal_arrives (once (fail_admitted id st resp now))
| arrive_fail_queued id st resp now : journal_arrives (once (fail_queued id st resp now))
| arrive_settle now after : journal_arrives (once (settle_abandoned now after))
| arrive_get id now : journal_arrives (once (get_request id now))
| arrive_counts t d o p now : journal_arrives (once (active_counts t d o p now))
| arrive_end_turn sid turn : journal_arrives (once (_pg_end_turn sid turn))
| arrive_begin_turn sid turn stale tier subject now :
    journal_arrives (once (atomically (pg_try_begin_turn_in_transaction sid turn stale tier subject now)))
| arrive_session_write (f : gmap string session → gmap string session) :
    journal_arrives (once (modify (λ s, Journal (jr_requests s) (f (jr_sessions s)) (jr_started s)))).

(** What an admission that succeeded guarantees for good. *)
Definition admission_kept (i : nat) (a : answer) (s : journal) : Prop :=
  match a with
  | Some (id, who, Ok (r, _)) =>
      who = Ok (rq_identity r) ∧
      ∃ cur, jr_requests s !! id = Some cur ∧ rq_identity cur = rq_identity r ∧ (finished r → cur = r)
  | _ => True
  end.

Lemma kept_grows i a s s' : journal_grows s s' → admission_kept i a s → admission_kept i a s'.
Proof.
  intros [_ Hrows]. destruct a as [[[id who] [[r ins]|e]]|]; try done. intros (Hw & cur & Hcur & Hid & Hf).
  split; [done|]. destruct (Hrows _ _ Hcur) as (b & Hb & I & _ & F). exists b. split_and!; [done|congruence|].
  intros Hfin. specialize (Hf Hfin). subst cur. auto.
Qed.

Lemma secured_last {R} Inv G `{!PreOrder G} (Q : nat → R → journal → Prop) i r s :
  (∀ i r s s', G s s' → Q i r s → Q i r s') → Q i r s → secured Inv G Q i (Ret r) s.
Proof. intros Hst HQ s' _ HG. eauto. Qed.

Lemma secured_once {A} (op : jx A) i s : moves op → secured journal_inv journal_grows admission_kept i (once op) s.
Proof.
  intros Hm s' Hinv _. destruct (journal_moves_ok _ _ (Hm s') Hinv) as [Hi Hg]. unfold final in *.
  destruct (op s') as [a s2]. split_and!; [done|done|]. by intros ???.
Qed.

(** The row an admission reads is the one stored under the id. *)
Lemma admit_row_read id who now s r ins s' : admit_row id who now s = (Ok (r, ins), s') → jr_requests s' !! id = Some r.
Proof.
  unfold admit_row. rewrite atomically_Ok, io_bind_inv. intros (m & s1 & [= <- <-] & H).
  destruct (jr_requests s !! id) as [x|] eqn:Hx; [by injection H as <- _ <-|].
  rewrite io_bind_inv in H. destruct H as (ss & s2 & [= <- <-] & H). case_bool_decide; [|done].
  rewrite io_bind_inv in H. destruct H as ([] & s3 & Hp & [= <- _ <-]).
  unfold put_row, mbind, io_mbind, gets, modify in Hp. case_match; [done|]. injection Hp as <-. apply lookup_insert_eq.
Qed.

Lemma get_request_read id now s o s' : get_request id now s = (Ok o, s') → o = jr_requests s' !! id.
Proof.
  unfold get_request. rewrite atomically_Ok, io_bind_inv. intros (n & s1 & _ & [= <- <-]). done.
Qed.

Lemma check_binding_Ok who r : check_binding who r = Ok tt → rq_identity r = who.
Proof. unfold check_binding. rewrite guard_or_Ok. by case_bool_decide. Qed.

Lemma secured_admit id t d sid p dg o pr now later i s :
  secured journal_inv journal_grows admission_kept i
    (pmap (λ r, Some (id, requested id t d sid p dg o pr, r)) (admit_request id t d sid p dg o pr now later)) s.
Proof.
  unfold admit_request. destruct (requested id t d sid p dg o pr) as [who|e]; [|by intros ???].
  intros s1 Hinv _. destruct (journal_moves_ok _ _ (jmoves_admit_row id who now s1) Hinv) as [Hi Hg]. unfold final in *.
  destruct (admit_row id who now s1) as [[[r ins]|e] s2] eqn:Ha; (split_and!; [done|done|]); [|by intros ???]. apply admit_row_read in Ha. simpl.
  destruct (check_binding who r) as [[]|e] eqn:Hb; [|by intros ???]. apply check_binding_Ok in Hb.
  assert (Hown : admission_kept i (Some (id, Ok who, Ok (r, ins))) s2).
  { split; [by rewrite Hb|]. by exists r. }
  destruct (is_executing r) eqn:He; [|by apply (secured_last _ _ _ _ _ _ kept_grows)].
  intros s3 Hinv3 Hg3. destruct (journal_moves_ok _ _ (jmoves_get_request id later s3) Hinv3) as [Hi4 Hg4]. unfold final in *.
  destruct (get_request id later s3) as [[o'|e] s4] eqn:Hget; (split_and!; [done|done|]); [|by intros ???].
  apply get_request_read in Hget. apply (secured_last _ _ _ _ _ _ kept_grows).
  destruct (kept_grows _ _ _ _ (transitivity Hg3 Hg4) Hown) as (_ & cur & Hcur & Hid & _). simpl in Hcur. subst o'. rewrite Hcur.
  split; [simpl; congruence|]. by exists cur.
Qed.

Lemma fail_admitted_moves id st resp now : moves (fail_admitted id st resp now).
Proof. apply jmoves_fail_from, admitted_unfinished. Qed.
Lemma fail_queued_moves id st resp now : moves (fail_queued id st resp now).
Proof. apply jmoves_fail_from, queued_unfinished. Qed.

Create HintDb journal.
#[export] Hint Resolve jmoves_begin jmoves_queue jmoves_claim jmoves_finish_request jmoves_finish_turn fail_admitted_moves
  fail_queued_moves jmoves_settle_abandoned jmoves_get_request jmoves_active_counts jmoves_end_turn : journal.

Lemma journal_arrivals_secured i p s : journal_arrives p → journal_inv s → secured journal_inv journal_grows admission_kept i p s.
Proof.
  intros Hp _. destruct Hp; match goal with |- secured _ _ _ _ (once _) _ => apply secured_once | _ => apply secured_admit end; auto with journal.
  - apply steps_atomically, jmoves_begin_turn.
  - intros s1. apply star_one, move_sessions.
Qed.

(** A journal without requests, over any sessions. *)
Definition fresh (sessions : gmap string session) : pool journal answer := Pool (Journal ∅ sessions []) ∅.

Lemma journal_fresh_ok sessions : pool_ok journal_inv journal_grows admission_kept (fresh sessions).
Proof. split; [|done]. split; simpl; try done; [constructor|]. by intros ???%elem_of_nil. Qed.

Abbreviation journal_reaches := (star (pool_step journal_arrives)).

Lemma journal_reach sessions w : journal_reaches (fresh sessions) w → pool_ok journal_inv journal_grows admission_kept w.
Proof. intros H. exact (proj1 (pool_sound _ _ _ _ _ _ journal_arrivals_secured H (journal_fresh_ok sessions))). Qed.

(** ** Guarantees *)

(** (C20) A request executes at most once: whatever requests, claims, retries and
    settlements interleave, the history has one turn for a request at most, and it is
    the turn of the row that executes or of the response that was recorded. *)
Theorem request_starts_at_most_once sessions w id r :
  journal_reaches (fresh sessions) w → jr_requests (shared w) !! id = Some r →
  (∀ t o t' o', (id, (t, o)) ∈ jr_started (shared w) → (id, (t', o')) ∈ jr_started (shared w) → t = t' ∧ o = o') ∧
  (∀ t o e, rq_state r = RExecuting t o e → (id, (t, o)) ∈ jr_started (shared w)) ∧
  (∀ how t st resp at_, rq_state r = RFinished how (Some t) st resp at_ → ∃ o, (id, (t, o)) ∈ jr_started (shared w)) ∧
  (is_admitted r || is_queued r = true → ∀ t, (id, t) ∉ jr_started (shared w)).
Proof.
  intros Hw Hr. destruct (journal_reach _ _ Hw) as [[Ho Hs Ht He _ _ _] _]. split_and!.
  - intros t o t' o'. by apply history_unique.
  - eauto.
  - eauto.
  - intros Hst t Hin. destruct (Hs _ _ Hin) as (x & Hx & Hwhat). rewrite Hr in Hx. injection Hx as <-.
    unfold is_admitted, is_queued, is_executing, finished in *. destruct (rq_state r); naive_solver.
Qed.

(** Retries of one request are answered alike: two admissions under the same id that
    both succeed were made with the same identity, and if both were told how the
    request ended, they were told the same. *)
Theorem retries_answered_alike sessions w i j id who1 who2 r1 r2 n1 n2 :
  journal_reaches (fresh sessions) w →
  requests w !! i = Some (Ret (Some (id, who1, Ok (r1, n1)))) →
  requests w !! j = Some (Ret (Some (id, who2, Ok (r2, n2)))) →
  who1 = who2 ∧ (finished r1 → finished r2 → r1 = r2).
Proof.
  intros Hw Hi Hj. pose proof (journal_reach _ _ Hw) as Hok.
  destruct (pool_answers _ _ _ _ _ _ Hok Hi) as (-> & c1 & H1 & I1 & F1).
  destruct (pool_answers _ _ _ _ _ _ Hok Hj) as (-> & c2 & H2 & I2 & F2).
  rewrite H1 in H2. injection H2 as <-. split; [congruence|]. intros Hf1 Hf2. by rewrite <- (F1 Hf1), <- (F2 Hf2).
Qed.

(** Between two moments of the system, a request keeps its identity, and one that has
    ended keeps its response and executes no more. *)
Theorem finished_request_is_final sessions w w' id r :
  journal_reaches (fresh sessions) w → journal_reaches w w' → jr_requests (shared w) !! id = Some r →
  ∃ r', jr_requests (shared w') !! id = Some r' ∧ rq_identity r' = rq_identity r ∧ (finished r → r' = r).
Proof.
  intros Hw Hw' Hr. destruct (pool_sound _ _ _ _ _ _ journal_arrivals_secured Hw' (journal_reach _ _ Hw)) as [_ [_ Hrows]].
  destruct (Hrows _ _ Hr) as (r' & Hr' & I & _ & F). exists r'. by split_and!.
Qed.

(** In every state of the system a session has at most one executing and one queued
    request, and what is queued holds no credential material and at most 64 KiB. *)
Theorem queue_is_safe sessions w i j a b :
  journal_reaches (fresh sessions) w →
  jr_requests (shared w) !! i = Some a → jr_requests (shared w) !! j = Some b → session_of a = session_of b →
  (is_executing a = true → is_executing b = true → i = j) ∧ (is_queued a = true → is_queued b = true → i = j) ∧
  (∀ v, rq_state a = RQueued v → contains_credential_material v = false ∧ dumps_size v <= 65536).
Proof.
  intros Hw Ha Hb Hs. destruct (journal_reach _ _ Hw) as [[_ _ _ _ Hp Hx Hq] _]. split_and!; [eauto|eauto|].
  intros v Hv. exact (Hp _ _ _ Ha Hv).
Qed.

(** ** The durable queue, and journals that run *)

(** ** The oldest request first *)

Lemma before_total a b : before a b = false → before b a = true.
Proof.
  unfold before. intros [H1 H2]%orb_false_iff. apply orb_true_iff. destruct (Z.ltb_spec (rq_created b.2) (rq_created a.2)); [by left|right].
  assert (rq_created a.2 = rq_created b.2) as Heq by lia. rewrite Heq, Z.eqb_refl in *. simpl in *. apply bool_decide_eq_true.
  apply bool_decide_eq_false in H2. by destruct (total String.le a.1 b.1).
Qed.

Lemma before_trans a b c : before a b = true → before b c = true → before a c = true.
Proof.
  unfold before. rewrite !orb_true_iff, !andb_true_iff, !Z.ltb_lt, !Z.eqb_eq, !bool_decide_eq_true.
  intros [?|[? ?]] [?|[? ?]]; [left; lia|left; lia|left; lia|right]. split; [congruence|by etransitivity].
Qed.

Lemma before_refl a : before a a = true.
Proof. unfold before. rewrite Z.eqb_refl, bool_decide_true by done. apply orb_true_r. Qed.

Lemma oldest_first l a : oldest l = Some a → ∀ b, b ∈ l → before a b = true.
Proof.
  revert a. induction l as [|c l IH]; [done|]. intros a. simpl. destruct (oldest l) as [d|] eqn:Hd.
  - intros [= <-] b [->|Hb]%elem_of_cons.
    + destruct (before c d) eqn:Hcd; [apply before_refl|by apply before_total].
    + destruct (before c d) eqn:Hcd; [eapply before_trans; [exact Hcd|]|]; by apply IH.
  - intros [= <-] b [->|Hb]%elem_of_cons; [apply before_refl|]. destruct l as [|x l]; [by apply elem_of_nil in Hb|].
    simpl in Hd. by destruct (oldest l).
Qed.

Lemma oldest_some l : l ≠ [] → is_Some (oldest l).
Proof. destruct l as [|a l]; [done|]. intros _. simpl. destruct (oldest l); eauto. Qed.

(** The session of the oldest request lets a turn begin. *)
Definition claimable (m : gmap string row) (sessions : gmap string session) (locked : gset string) (sid : option string) (stale now : Z)
    (id : string) (r : row) : Prop :=
  (id, r) ∈ eligible m locked sid ∧ (∀ kr, kr ∈ eligible m locked sid → before (id, r) kr = true) ∧
  ∃ x, sessions !! session_of r = Some x ∧ turn_free x stale now = true.

Lemma begin_turn_free sid turn stale tier subject now s x : jr_sessions s !! sid = Some x → turn_free x stale now = true →
  pg_try_begin_turn_in_transaction sid turn stale tier subject now s =
  (Ok true, Journal (jr_requests s) (<[sid := Session (Some turn) (Some now) tier subject]> (jr_sessions s)) (jr_started s)).
Proof. intros Hx Hf. unfold pg_try_begin_turn_in_transaction, mbind, io_mbind, gets. by rewrite Hx, Hf. Qed.

Lemma claim_run turn owner lease stale sid locked now s id r payload :
  0 < lease → claimable (jr_requests s) (jr_sessions s) locked sid stale now id r → rq_state r = RQueued payload →
  ∃ s', claim_next_queued_and_turn turn owner lease stale sid locked now s =
          (Ok (Some (id, with_state r (RExecuting turn owner (now + lease)), payload)), s') ∧
        jr_requests s' = <[id := with_state r (RExecuting turn owner (now + lease))]> (jr_requests s) ∧
        jr_sessions s' = <[session_of r := Session (Some turn) (Some now) (payload_field payload "tier")
                                                   (payload_field payload "subject")]> (jr_sessions s).
Proof.
  intros Hl (Hin & Hmin & x & Hx & Hfree) Hst.
  assert (oldest (eligible (jr_requests s) locked sid) = Some (id, r)) as Hold.
  { destruct (oldest_some (eligible (jr_requests s) locked sid)) as [[k y] Hk]; [by intros Hn; rewrite Hn in Hin; apply elem_of_nil in Hin|].
    pose proof (Hmin _ (oldest_in _ _ Hk)) as H1. pose proof (oldest_first _ _ Hk _ Hin) as H2.
    destruct (eligible_in _ _ _ _ _ (oldest_in _ _ Hk)) as (Hy & _). apply eligible_in in Hin as (Hr & _).
    unfold before in H1, H2. cbn [fst snd] in H1, H2.
    rewrite orb_true_iff, andb_true_iff, Z.ltb_lt, Z.eqb_eq, bool_decide_eq_true in H1, H2.
    assert (String.le id k ∧ String.le k id) as [] by (destruct H1 as [|[]], H2 as [|[]]; try lia; by split).
    assert (id = k) as <- by by apply (anti_symm String.le). rewrite Hr in Hy. by injection Hy as <-. }
  apply eligible_in in Hin as (Hr & Hq & _ & _ & Hx').
  unfold claim_next_queued_and_turn, refuse. rewrite (proj2 (Z.leb_gt _ _)) by lia. erewrite io_bind_run by done.
  unfold atomically, gets. erewrite io_bind_run by done. rewrite Hold, Hst.
  erewrite io_bind_run by (by apply (begin_turn_free _ _ _ _ _ _ _ x)). cbn [negb]. cbv zeta. erewrite io_bind_run; [erewrite io_bind_run by done|apply put_row_ok].
  - eexists. split; [reflexivity|]. done.
  - apply exists_row_false. intros k y Hk. simpl in Hk. destruct (decide (session_of y = session_of r)) as [He|He].
    + rewrite (Hx' _ _ Hk He). simpl. by rewrite andb_false_r.
    + rewrite (bool_decide_false (session_of y = _)) by done. by rewrite andb_false_r.
Qed.

(** A claim starts the oldest eligible request whenever its session lets a turn begin:
    the row executes with the new turn, the session holds that turn, and the caller
    is handed the payload that was queued. *)
Theorem claim_starts_the_oldest turn owner lease stale sid locked now s id r payload :
  0 < lease → claimable (jr_requests s) (jr_sessions s) locked sid stale now id r → rq_state r = RQueued payload →
  ∃ s', claim_next_queued_and_turn turn owner lease stale sid locked now s =
          (Ok (Some (id, with_state r (RExecuting turn owner (now + lease)), payload)), s') ∧
        jr_requests s' = <[id := with_state r (RExecuting turn owner (now + lease))]> (jr_requests s) ∧
        (ss_turn <$> jr_sessions s' !! session_of r) = Some (Some turn).
Proof.
  intros Hl Hc Hst. destruct (claim_run turn owner lease stale sid locked now s id r payload Hl Hc Hst) as (s' & H & Hr & Hs).
  exists s'. split_and!; [done|done|]. by rewrite Hs, lookup_insert_eq.
Qed.

(** A turn that [try_enqueue_turn] queued runs without an identity: the claim takes
    the tier and the subject from the payload, which since the identity moved to the
    columns of the row holds neither, so the session is left with none for the
    approvals of the turn to be matched with. *)
Theorem queued_turn_has_no_subject turn owner lease stale sid locked now s id r text hint model context :
  0 < lease → claimable (jr_requests s) (jr_sessions s) locked sid stale now id r →
  rq_state r = RQueued (recoverable text hint model context) →
  ∃ s' row' payload, claim_next_queued_and_turn turn owner lease stale sid locked now s = (Ok (Some (id, row', payload)), s') ∧
    jr_sessions s' !! session_of r = Some (Session (Some turn) (Some now) None None).
Proof.
  intros Hl Hc Hst. destruct (claim_run turn owner lease stale sid locked now s id r _ Hl Hc Hst) as (s' & H & _ & Hs).
  exists s'. eexists _, _. split; [exact H|]. rewrite Hs, lookup_insert_eq. by destruct context.
Qed.

(** ** A journal that runs *)

Definition req_a : string := "00000000-0000-4000-8000-00000000000a".
Definition req_b : string := "00000000-0000-4000-8000-00000000000b".
Definition demo_digest : string := "0123456789abcdef0123456789abcdef0123456789abcdef0123456789abcdef".
Definition demo_response : json := JObj [("status", JStr "completed")].
Definition demo_sessions : gmap string session := {["s1"%string := Session None None None None]}.

Definition demo_admit (id digest : string) (now : Z) : prog journal answer :=
  pmap (λ r, Some (id, requested id "acme" "plan" "s1" "user-1" digest None None, r))
       (admit_request id "acme" "plan" "s1" "user-1" digest None None now (now + 1)).

(** [req_a] executes while [req_b] is queued; then [req_a] ends, [req_b] is claimed. *)
Definition until_queued : list (prog journal answer) :=
  [demo_admit req_a demo_digest 10; once (begin_request_and_turn req_a "t1" "o1" 600 "s1" 600 (Some (JStr "pro")) (Some (JStr "user-1")) 20);
   demo_admit req_b demo_digest 30; once (queue_request req_b (recoverable "move the panel" None None None))].
Definition until_claimed : list (prog journal answer) :=
  [once (finish_request req_a "t1" Completed 200 demo_response 40); once (_pg_end_turn "s1" "t1");
   once (claim_next_queued_and_turn "t2" "o2" 600 600 None ∅ 50)].
Definition until_retried : list (prog journal answer) :=
  [once (finish_request req_b "t2" Completed 200 demo_response 60); demo_admit req_b demo_digest 70; demo_admit req_b demo_digest 80;
   demo_admit req_b "1123456789abcdef0123456789abcdef0123456789abcdef0123456789abcdef" 90].

Definition queued_pool := serve_all 0 until_queued (fresh demo_sessions).
Definition claimed_pool := serve_all 4 until_claimed queued_pool.
Definition retried_pool := serve_all 7 until_retried claimed_pool.

Lemma until_queued_arrive : Forall journal_arrives until_queued.
Proof. repeat apply Forall_cons_2; try apply Forall_nil_2; [apply arrive_admit|apply arrive_begin|apply arrive_admit|apply arrive_queue]. Qed.
Lemma until_claimed_arrive : Forall journal_arrives until_claimed.
Proof. repeat apply Forall_cons_2; try apply Forall_nil_2; [apply arrive_finish|apply arrive_end_turn|apply arrive_claim]. Qed.
Lemma until_retried_arrive : Forall journal_arrives until_retried.
Proof. repeat apply Forall_cons_2; try apply Forall_nil_2; [apply arrive_finish|apply arrive_admit..]. Qed.

Lemma queued_pool_reached : star (pool_step journal_arrives) (fresh demo_sessions) queued_pool.
Proof. apply serve_all_reaches, until_queued_arrive. Qed.
Lemma claimed_pool_reached : star (pool_step journal_arrives) (fresh demo_sessions) claimed_pool.
Proof. eapply star_trans; [apply queued_pool_reached|]. apply serve_all_reaches, until_claimed_arrive. Qed.
Lemma retried_from_claimed : star (pool_step journal_arrives) claimed_pool retried_pool.
Proof. apply serve_all_reaches, until_retried_arrive. Qed.
Lemma retried_pool_reached : star (pool_step journal_arrives) (fresh demo_sessions) retried_pool.
Proof. eapply star_trans; [apply claimed_pool_reached|apply retried_from_claimed]. Qed.

Definition demo_identity : identity := Identity "acme" "plan" "s1" "user-1" demo_digest None.
Definition row_a : row := Row demo_identity 10 (RFinished Completed (Some "t1"%string) 200 demo_response 40).
Definition running_a : row := Row demo_identity 10 (RExecuting "t1" "o1" 620).
Definition waiting_b : row := Row demo_identity 30 (RQueued (recoverable "move the panel" None None None)).
Definition row_b : row := Row demo_identity 30 (RFinished Completed (Some "t2"%string) 200 demo_response 60).

Lemma request_starts_at_most_once_witness :
  (req_b, ("t2"%string, "o2"%string)) ∈ jr_started (shared retried_pool) ∧
  ∀ t o, (req_b, (t, o)) ∈ jr_started (shared retried_pool) → t = "t2"%string ∧ o = "o2"%string.
Proof.
  assert (Hb : jr_requests (shared retried_pool) !! req_b = Some row_b) by (vm_compute; reflexivity).
  destruct (request_starts_at_most_once _ _ _ _ retried_pool_reached Hb) as (H1 & _ & H3 & _).
  assert (Hin : (req_b, ("t2"%string, "o2"%string)) ∈ jr_started (shared retried_pool)) by (vm_compute; left).
  split; [exact Hin|]. intros t o Ht. exact (H1 t o _ _ Ht Hin).
Defined.

Lemma retries_answered_alike_witness : ∃ who1 who2 r1 r2 n1 n2,
  requests retried_pool !! 8%nat = Some (Ret (Some (req_b, who1, Ok (r1, n1)))) ∧
  requests retried_pool !! 9%nat = Some (Ret (Some (req_b, who2, Ok (r2, n2)))) ∧ who1 = who2 ∧ r1 = r2.
Proof.
  assert (H8 : requests retried_pool !! 8%nat = Some (Ret (Some (req_b, Ok demo_identity, Ok (row_b, false))))) by (vm_compute; reflexivity).
  assert (H9 : requests retried_pool !! 9%nat = Some (Ret (Some (req_b, Ok demo_identity, Ok (row_b, false))))) by (vm_compute; reflexivity).
  destruct (retries_answered_alike _ _ _ _ _ _ _ _ _ _ _ retried_pool_reached H8 H9) as [Hw Hr].
  eexists _, _, _, _, _, _. split; [exact H8|]. split; [exact H9|]. split; [exact Hw|]. exact (Hr I I).
Defined.

Lemma finished_request_is_final_witness :
  jr_requests (shared claimed_pool) !! req_a = Some row_a ∧
  ∃ r', jr_requests (shared retried_pool) !! req_a = Some r' ∧ r' = row_a.
Proof.
  assert (Ha : jr_requests (shared claimed_pool) !! req_a = Some row_a) by (vm_compute; reflexivity).
  destruct (finished_request_is_final _ _ _ _ _ claimed_pool_reached retried_from_claimed Ha) as (r' & Hr' & _ & Hf).
  split; [exact Ha|]. exists r'. split; [exact Hr'|exact (Hf I)].
Defined.

Lemma queue_is_safe_witness :
  jr_requests (shared queued_pool) !! req_b = Some waiting_b ∧
  contains_credential_material (recoverable "move the panel" None None None) = false ∧
  dumps_size (recoverable "move the panel" None None None) <= 65536.
Proof.
  assert (Hb : jr_requests (shared queued_pool) !! req_b = Some waiting_b) by (vm_compute; reflexivity).
  destruct (queue_is_safe _ _ _ _ _ _ queued_pool_reached Hb Hb eq_refl) as (_ & _ & H).
  split; [exact Hb|]. exact (H _ eq_refl).
Defined.

(** The state the claim finds. *)
Definition before_claim : journal := shared (serve_all 4 (take 2 until_claimed) queued_pool).

Lemma before_claim_claimable : claimable (jr_requests before_claim) (jr_sessions before_claim) ∅ None 600 50 req_b waiting_b.
Proof.
  assert (He : eligible (jr_requests before_claim) ∅ None = [(req_b, waiting_b)]) by (vm_compute; reflexivity).
  split; [rewrite He; left|]. split.
  - rewrite He. intros kr ->%list_elem_of_singleton. apply before_refl.
  - exists (Session None None None None). split; vm_compute; reflexivity.
Qed.

Lemma claim_starts_the_oldest_witness : ∃ s',
  claim_next_queued_and_turn "t2" "o2" 600 600 None ∅ 50 before_claim =
    (Ok (Some (req_b, with_state waiting_b (RExecuting "t2" "o2" 650), recoverable "move the panel" None None None)), s') ∧
  (ss_turn <$> jr_sessions s' !! "s1"%string) = Some (Some "t2"%string).
Proof.
  destruct (claim_starts_the_oldest "t2" "o2" 600 600 None ∅ 50 before_claim req_b waiting_b _ ltac:(lia) before_claim_claimable eq_refl)
    as (s' & H & _ & Ht). exists s'. split; [exact H|exact Ht].
Defined.

Lemma queued_turn_has_no_subject_witness : ∃ s' r' p',
  claim_next_queued_and_turn "t2" "o2" 600 600 None ∅ 50 before_claim = (Ok (Some (req_b, r', p')), s') ∧
  jr_sessions s' !! "s1"%string = Some (Session (Some "t2"%string) (Some 50) None None).
Proof.
  destruct (queued_turn_has_no_subject "t2" "o2" 600 600 None ∅ 50 before_claim req_b waiting_b "move the panel" None None None
              ltac:(lia) before_claim_claimable eq_refl) as (s' & r' & p' & H & Hs).
  exists s', r', p'. split; [exact H|exact Hs].
Defined.

(** Payloads that are refused, and one that is not. *)
Example credential_examples :
  contains_credential_material (JObj [("Api-Key", JStr "x")]) = true ∧
  contains_credential_material (JObj [("notes", JArr [JStr "Authorization: Bearer abcdefgh"])]) = true ∧
  contains_credential_material (JStr " abcdefgh.ijklmnop.qrstuvwx ") = true ∧
  contains_credential_material (JObj [("password", JNull); ("text", JStr "bearer short")]) = false.
Proof. by vm_compute. Qed.
