(* ===== verification/OperatorPolicy.v ===== *)
(** * What configures the operator control plane

    The operator catalog ([server/operator_policy.py]), the registry of secret handles
    ([server/operator_secret_broker.py]), the allowlist of external destinations
    ([server/operator_external_adapters.py]) and what a release stager may answer
    ([server/operator_release_stager.py]).  All of it is metadata the server reads
    from files; what the deployment registers (minter, rotator, adapters, stager) is
    an argument of what uses it.

    A file that cannot be read is [Absent] or [Unreadable], and one that is not JSON
    is [Contents None].  A Python exception other than the module's own is [Raised]. *)

From Stdlib Require Import Ascii.
From stdpp Require Import sorting.
From S2P Require Import Prelude PyText Json Entitlements AgentCalls ProjectContext.
Local Open Scope Z_scope.

(** The exceptions of the operator modules that carry a reason, and any other. *)
Inductive failure := AuthorityDenied (reason : string) | RunbookError (reason : string) | SecretBrokerError (reason : string)
| ExternalWriteError (reason : string) | StageError (reason : string) | Raised.

#[export] Instance failure_eq_dec : EqDecision failure.
Proof. solve_decision. Defined.

Abbreviation outcome_of := (result failure).

(** ** Text *)

(** [re.match("^...$")] of a pattern that matches the whole text [p]: Python's [$] also
    matches before a final newline *)
Definition match_dollar (p : list ascii → bool) (l : list ascii) : bool :=
  p l || match last l with Some c => bool_decide (c = newline) && p (take (length l - 1) l) | None => false end.

Definition bounded (p : ascii → bool) (lo hi : nat) (l : list ascii) : bool :=
  (lo <=? length l)%nat && (length l <=? hi)%nat && forallb p l.

Definition ident_char (c : ascii) : bool := is_alnum_lower c || existsb (λ d, bool_decide (c = d)) (chars "_.:-").

(** [_IDENT_RE.match] *)
Definition _IDENT_RE (s : string) : bool := match_dollar (bounded ident_char 1 64) (chars s).

(** [pat in s] *)
Fixpoint contains (pat l : list ascii) : bool :=
  bool_decide (take (length pat) l = pat) || match l with [] => false | _ :: l' => contains pat l' end.

(** [int(s)] of a text: space around it, a sign, digits with single underscores between *)
Fixpoint dec_value (l : list ascii) (acc : Z) (after_digit : bool) : option Z :=
  match l with
  | [] => if after_digit then Some acc else None
  | c :: l' =>
      if bool_decide (c = "_"%char) then if after_digit then dec_value l' acc false else None
      else if is_digit c then dec_value l' (acc * 10 + digit_val c) true else None
  end.

Definition int_text (s : string) : option Z :=
  let body := strip_by (int_space (chars s)) (chars s) in
  match body with
  | c :: r => if bool_decide (c = "+"%char) then dec_value r 0 false
              else if bool_decide (c = "-"%char) then Z.opp <$> dec_value r 0 false
              else dec_value body 0 false
  | [] => None
  end.

Definition py_int (v : json) : outcome_of Z :=
  match v with
  | JInt z => Ok z
  | JBool b => Ok (if b then 1 else 0)
  | JStr s => from_opt (int_text s) Raised
  | _ => Err Raised
  end.

(** ** The catalog *)

Definition _ALLOWED_TOP : list string :=
  ["_note"; "version"; "authority_ttl_s"; "rate_limits_per_hour"; "budgets"; "spend_limits"; "actions"].
Definition _ALLOWED_ACTION : list string :=
  ["class"; "rung"; "policy"; "required"; "rate"; "timeout_s"; "handler"; "args_schema"; "enabled"; "spend"; "max_spend_cents"].
Definition _POLICIES : list string := ["auto"; "confirm-once"; "always-confirm"].
Definition _CLASSES : list string := ["O1"; "O2"; "O3"; "O4"; "O5"; "O6"].
Definition _SPEND_TYPES : list string := ["none"; "cost_tokens"; "usd"].

Abbreviation dict := (list (string * json)).

Definition known (ks : list string) (d : dict) : bool := forallb (λ kv, bool_decide (kv.1 ∈ ks)) d.
Definition one_of (valid : list string) (v : option json) : bool :=
  match v with Some (JStr s) => bool_decide (s ∈ valid) | _ => false end.

Definition STAGE_ACTION : string := "operator.stage_release_candidate".

(** The checks of one action, in the order of the source; every failure raises. *)
Definition action_ok (name : string) (entry : json) : bool :=
  startswith "operator." name &&
  match entry with
  | JObj e =>
      known _ALLOWED_ACTION e && one_of _POLICIES (dict_get e "policy") && one_of _CLASSES (dict_get e "class") &&
      match dict_get e "rung" with Some (JInt z) => (0 <=? z) && (z <=? 7) | Some (JBool _) => true | _ => false end &&
      match dict_get e "enabled" with None | Some (JBool _) => true | _ => false end &&
      match dict_get e "handler" with Some (JStr s) => negb (bool_decide (s = ""%string)) | _ => false end &&
      match dict_get e "args_schema" with Some (JObj _) => true | _ => false end &&
      one_of _SPEND_TYPES (dict_get e "spend") &&
      match dict_get e "max_spend_cents" with None => true | Some (JInt z) => 0 <=? z | _ => false end &&
      (bool_decide (name = STAGE_ACTION) ||
       negb (contains (chars "production") (lower_char <$> print entry) ||
             contains (chars "deploy-platform") (lower_char <$> print entry)))
  | _ => false
  end.

Definition load_catalog (f : file_state) : outcome_of (option dict) :=
  match f with
  | Absent | Unreadable => Ok None
  | Contents (Some (JObj data)) =>
      match dict_get data "actions" with
      | Some (JObj actions) =>
          if known _ALLOWED_TOP data && negb (bool_decide (actions = [])) && forallb (λ kv, action_ok kv.1 kv.2) actions
          then Ok (Some data) else Err Raised
      | _ => Err Raised
      end
  | Contents _ => Err Raised
  end.

Definition actions_of (catalog : dict) : dict := match dict_get catalog "actions" with Some (JObj a) => a | _ => [] end.

(** The entry of an action that is in the catalog and enabled. *)
Definition find_action (catalog : dict) (name : string) : option dict :=
  match dict_get (actions_of catalog) name with
  | Some (JObj e) => match dict_get e "enabled" with None | Some (JBool true) => Some e | _ => None end
  | _ => None
  end.

Definition get_action (f : file_state) (name : string) : outcome_of (option dict) :=
  c ← load_catalog f; Ok (match c with Some catalog => find_action catalog name | None => None end).

Section hashes.
Context `{Runtime}.

Definition revision_of (catalog : dict) : string := sha256_hex (dumps (sort_keys (JObj catalog))).

(** [policy_revision(catalog)]; without a catalog the file is read (again) *)
Definition policy_revision (catalog : option dict) (f : file_state) : outcome_of string :=
  match catalog with
  | Some c => Ok (revision_of c)
  | None => c ← load_catalog f; Ok (match c with Some c => revision_of c | None => "absent"%string end)
  end.

Definition canonical_args_hash (args : json) : string := sha256_hex (dumps (sort_keys args)).
End hashes.

(** [catalog.get(section, {}).get(key, 0)] as an integer *)
Definition limit_of (catalog : dict) (section : string) (key : json) : outcome_of Z :=
  match dict_get catalog section with
  | None => match key with JArr _ | JObj _ => Err Raised | _ => Ok 0 end
  | Some (JObj d) =>
      match key with
      | JStr k => match dict_get d k with Some v => py_int v | None => Ok 0 end
      | JArr _ | JObj _ => Err Raised
      | _ => Ok 0
      end
  | Some _ => Err Raised
  end.

(** ** Secret handles *)

Definition _NON_PRODUCTION : list string := ["staging"; "development"].
Definition non_production (e : string) : bool := bool_decide (e ∈ _NON_PRODUCTION).

Record secret_meta := SecretMeta { sm_scope : string; sm_environment : string; sm_kind : string; sm_ttl : Z }.

Definition string_of (v : option json) : option string := match v with Some (JStr s) => Some s | _ => None end.

Definition parse_handle (handle : string) (v : json) : outcome_of secret_meta :=
  let bad := Err (SecretBrokerError "secrets registry") in
  if negb (_IDENT_RE handle) then bad else
  match v with
  | JObj m =>
      if negb (keys_are m ["scope"; "environment"; "kind"; "ttl_s"]) then bad else
      match string_of (dict_get m "scope"), string_of (dict_get m "environment"), string_of (dict_get m "kind"), dict_get m "ttl_s" with
      | Some scope, Some env, Some kind, Some (JInt ttl) =>
          if negb (bool_decide (scope = ""%string)) && negb (bool_decide (env = ""%string)) && negb (bool_decide (kind = ""%string)) &&
             _IDENT_RE scope && _IDENT_RE kind && (1 <=? ttl) && (ttl <=? 86400) && non_production env
          then Ok (SecretMeta scope env kind ttl) else bad
      | _, _, _, _ => bad
      end
  | _ => bad
  end.

Definition _load_registry (f : file_state) : outcome_of (list (string * secret_meta)) :=
  match f with
  | Absent | Unreadable => Ok []
  | Contents (Some (JObj data)) =>
      match dict_get data "handles" with
      | None => Ok []
      | Some (JObj hs) => mapM (λ kv : string * json, m ← parse_handle kv.1 kv.2; Ok (kv.1, m)) hs
      | Some _ => Err (SecretBrokerError "secrets registry")
      end
  | Contents _ => Err Raised
  end.

Fixpoint assoc {A} (l : list (string * A)) (k : string) : option A :=
  match l with [] => None | (k', v) :: l' => if bool_decide (k = k') then Some v else assoc l' k end.

Definition describe (f : file_state) (handle : string) : outcome_of (option secret_meta) :=
  r ← _load_registry f; Ok (assoc r handle).

(** What [with_injected] and [rotate] check before they call what the deployment registered. *)
Definition broker_ready (f : file_state) (handle environment : string) (registered : bool) (missing : string) : outcome_of secret_meta :=
  o ← describe f handle;
  m ← from_opt o (SecretBrokerError "unknown_handle");
  guard_or (non_production (sm_environment m) && non_production environment) (SecretBrokerError "production_scope_refused");;
  guard_or (bool_decide (sm_environment m = environment)) (SecretBrokerError "environment_mismatch");;
  guard_or registered (SecretBrokerError missing);;
  Ok m.

(** ** External destinations *)

Record destination_meta := DestinationMeta { dm_environment : string; dm_adapter : string }.

Definition parse_destination (name : string) (v : json) : outcome_of destination_meta :=
  let bad := Err (ExternalWriteError "destinations allowlist") in
  if negb (_IDENT_RE name) then bad else
  match v with
  | JObj m =>
      if negb (keys_are m ["environment"; "adapter"]) then bad else
      match string_of (dict_get m "environment"), string_of (dict_get m "adapter") with
      | Some env, Some adapter =>
          if _IDENT_RE env && _IDENT_RE adapter && non_production env then Ok (DestinationMeta env adapter) else bad
      | _, _ => bad
      end
  | _ => bad
  end.

Definition _load_allowlist (f : file_state) : outcome_of (list (string * destination_meta)) :=
  match f with
  | Absent | Unreadable => Ok []
  | Contents (Some (JObj data)) =>
      match dict_get data "destinations" with
      | None => Ok []
      | Some (JObj ds) => mapM (λ kv : string * json, m ← parse_destination kv.1 kv.2; Ok (kv.1, m)) ds
      | Some _ => Err (ExternalWriteError "destinations allowlist")
      end
  | Contents _ => Err Raised
  end.

Definition describe_destination (f : file_state) (destination : string) : outcome_of (option destination_meta) :=
  l ← _load_allowlist f; Ok (assoc l destination).

Definition verify_allowed (f : file_state) (destination adapter environment : string) : outcome_of destination_meta :=
  guard_or (_IDENT_RE destination) (ExternalWriteError "destination_invalid");;
  guard_or (_IDENT_RE adapter) (ExternalWriteError "adapter_invalid");;
  l ← _load_allowlist f;
  m ← from_opt (assoc l destination) (ExternalWriteError "destination_not_allowlisted");
  guard_or (non_production (dm_environment m) && non_production environment) (ExternalWriteError "production_destination_refused");;
  guard_or (bool_decide (dm_environment m = environment)) (ExternalWriteError "environment_mismatch");;
  guard_or (bool_decide (dm_adapter m = adapter)) (ExternalWriteError "adapter_not_permitted_for_destination");;
  Ok m.

(** ** Stager answers *)

Definition revision_text (v : option json) : option string :=
  match v with
  | Some (JStr s) => if (1 <=? String.length s)%nat && (String.length s <=? 64)%nat then Some s else None
  | _ => None
  end.

(** What [stage] makes of the stager's answer ([None]: it raised). *)
Definition stage_answer (answer : option json) : outcome_of (string * string) :=
  match answer with
  | None => Err (StageError "stager_failed")
  | Some (JObj d) =>
      match revision_text (dict_get d "previous_revision"), revision_text (dict_get d "new_revision") with
      | Some previous, Some new => Ok (previous, new)
      | _, _ => Err (StageError "stager_result_invalid")
      end
  | Some _ => Err (StageError "stager_result_invalid")
  end.
