(* ===== verification/OperatorStore.v ===== *)
(** * Operator principals and one-use authorities

    [server/operator_authority.py] over the tables of
    [0032_operator_control_plane.sql]: an admission mints an authority bound to one
    operator, action, argument hash, policy and target, and a redemption consumes it.
    [scripts/operator_principal_admin.py] writes the principals, and
    [server/operator_principals.py] reads them.

    A handler is a [prog]: its transactions are sections, [section] runs one with what
    becomes of it ([fate]), and anything may happen in between.  [world] is the
    database together with the calls that left it ([w_effects]), which no rollback
    takes back.  [od_used] is a history of the consumptions that committed, with the
    number of the request and whether the consuming transaction held the principal's
    row, and [od_claims] one of the release candidates that were claimed; no statement
    reads them.  Clocks and drawn identifiers are arguments.  The key
    of an hourly budget is modelled for action names without a percent sign. *)

From Stdlib Require Import Ascii.
From stdpp Require Import sorting.
From S2P Require Import Prelude PyText Json IsoTime Entitlements AgentPolicy AgentCalls Concurrent ProjectContext OperatorPolicy.
Local Open Scope Z_scope.

(** ** Rows *)

Record principal := Principal {
  pr_role : string; pr_revision : Z; pr_status : string; pr_profiles : list string; pr_environment : string; pr_granted_by : string }.

Record authority := Authority {
  au_subject : string; au_revision : Z; au_profile : string; au_session : string; au_turn : option string; au_action : string;
  au_args : string; au_target : option string; au_policy : string; au_environment : string; au_expires : Z; au_nonce : string;
  au_max : Z; au_used : Z; au_idempotency : option string; au_status : string }.

Record audit := Audit {
  ad_subject : string; ad_session : option string; ad_turn : option string; ad_action : string; ad_decision : string;
  ad_reason : string; ad_authority : option string; ad_args : option string; ad_policy : option string;
  ad_environment : option string; ad_extra : json }.

Record candidate := Candidate { ca_status : string; ca_previous : option string; ca_staged : option string }.

(** What a redemption claims to be for. *)
Record use := Use {
  us_subject : string; us_revision : Z; us_environment : string; us_action : string; us_args : string; us_policy : string;
  us_target : option string }.

Record odb := Odb {
  od_principals : gmap string principal; od_authorities : gmap string authority; od_budgets : gmap (string * (string * string)) (Z * Z);
  od_audit : list audit; od_tenants : gmap string tenant_state; od_rotations : gmap string Z;
  od_candidates : gmap (string * string) candidate; od_used : list (string * (nat * (bool * use)));
  od_claims : list ((string * string) * nat) }.

(** A call that left the system, for an authority. *)
Inductive effect := Wrote (destination : string) (payload : json) | Staged (source_sha target : string) | Rotated (handle : string).

Record world := World { w_db : odb; w_effects : list (nat * (string * effect)) }.

Abbreviation ox := (io odb failure).

Definition reads {A} (f : odb → A) : ox A := λ s, (Ok (f s), s).
Definition writes (f : odb → odb) : ox unit := λ s, (Ok tt, f s).

Definition set_principals m s := Odb m (od_authorities s) (od_budgets s) (od_audit s) (od_tenants s) (od_rotations s) (od_candidates s) (od_used s) (od_claims s).
Definition set_authority id a s :=
  Odb (od_principals s) (<[id := a]> (od_authorities s)) (od_budgets s) (od_audit s) (od_tenants s) (od_rotations s) (od_candidates s) (od_used s) (od_claims s).
Definition set_budget k v s :=
  Odb (od_principals s) (od_authorities s) (<[k := v]> (od_budgets s)) (od_audit s) (od_tenants s) (od_rotations s) (od_candidates s) (od_used s) (od_claims s).
Definition add_audit e s :=
  Odb (od_principals s) (od_authorities s) (od_budgets s) (od_audit s ++ [e]) (od_tenants s) (od_rotations s) (od_candidates s) (od_used s) (od_claims s).
Definition set_tenant t x s :=
  Odb (od_principals s) (od_authorities s) (od_budgets s) (od_audit s) (<[t := x]> (od_tenants s)) (od_rotations s) (od_candidates s) (od_used s) (od_claims s).
Definition set_rotation h n s :=
  Odb (od_principals s) (od_authorities s) (od_budgets s) (od_audit s) (od_tenants s) (<[h := n]> (od_rotations s)) (od_candidates s) (od_used s) (od_claims s).
Definition set_candidate k c s :=
  Odb (od_principals s) (od_authorities s) (od_budgets s) (od_audit s) (od_tenants s) (od_rotations s) (<[k := c]> (od_candidates s)) (od_used s) (od_claims s).
Definition note_use id i locked u s :=
  Odb (od_principals s) (od_authorities s) (od_budgets s) (od_audit s) (od_tenants s) (od_rotations s) (od_candidates s)
      ((id, (i, (locked, u))) :: od_used s) (od_claims s).
Definition note_claim k i s :=
  Odb (od_principals s) (od_authorities s) (od_budgets s) (od_audit s) (od_tenants s) (od_rotations s) (od_candidates s) (od_used s)
      ((k, i) :: od_claims s).

(** ** Transactions *)

(** What becomes of a transaction: it commits and answers, the database is down, the
    commit fails, or the answer to the commit is lost. *)
Inductive fate := Works | DownBefore | CommitFails | AnswerLost.

(** [None] is an exception of the database. *)
Definition txn {A} (d : fate) (op : nat → ox A) (i : nat) (w : world) : option (outcome_of A) * world :=
  match d with
  | DownBefore => (None, w)
  | Works => match op i (w_db w) with (Ok a, s) => (Some (Ok a), World s (w_effects w)) | (Err e, _) => (Some (Err e), w) end
  | CommitFails => (match op i (w_db w) with (Err e, _) => Some (Err e) | (Ok _, _) => None end, w)
  | AnswerLost => match op i (w_db w) with (Ok _, s) => (None, World s (w_effects w)) | (Err e, _) => (Some (Err e), w) end
  end.

Abbreviation handler A := (prog world (outcome_of A)).

(** One transaction of a handler, whose other exceptions propagate. *)
Definition section {A B} (d : fate) (op : nat → ox A) (k : outcome_of A → handler B) : handler B :=
  Act (txn d op) (λ a, match a with Some r => k r | None => Ret (Err Raised) end).

(** A best-effort write: its failure is swallowed. *)
Definition best_effort {B} (d : fate) (op : ox unit) (k : bool → handler B) : handler B :=
  Act (txn d (λ _, op)) (λ a, k (match a with Some (Ok _) => true | _ => false end)).

(** ** Principals *)

Definition resolve_principal (subject : string) : ox (option principal) :=
  reads (λ s, if bool_decide (subject = ""%string) then None else od_principals s !! subject).

Definition holds (o : option principal) (revision : Z) : bool :=
  match o with Some p => bool_decide (pr_status p = "active"%string) && (pr_revision p =? revision) | None => false end.

Definition revalidate (subject : string) (revision : Z) : ox bool :=
  o ← resolve_principal subject; mret (holds o revision).

(** The locked re-check of the runbooks. *)
Definition lock_principal (subject : string) (revision : Z) : ox unit :=
  o ← reads (λ s, od_principals s !! subject);
  if holds o revision then mret tt else raise (RunbookError "principal_drift").

(** *** The admin tool *)

Inductive admin_answer := Done | Refused | NoPrincipal.

Definition cmd_grant (subject : string) (profiles : option (list string)) (environment : option string) (granted_by : string)
    (reactivate : bool) : ox admin_answer :=
  o ← reads (λ s, od_principals s !! subject);
  match o with
  | None =>
      writes (λ s, set_principals (<[subject := Principal "operator" 1 "active" (default ["default"%string] profiles)
                                                   (default "staging"%string environment) granted_by]> (od_principals s)) s);; mret Done
  | Some p =>
      if negb (bool_decide (pr_status p = "active"%string)) && negb reactivate then mret Refused else
      writes (λ s, set_principals (<[subject := Principal (pr_role p) (pr_revision p + 1) "active" (default (pr_profiles p) profiles)
                                                   (default (pr_environment p) environment) granted_by]> (od_principals s)) s);; mret Done
  end.

Inductive command := Suspend | Resume | Revoke.
(** [_TRANSITIONS]: from, to, and where the command has nothing to do *)
Definition _TRANSITIONS (c : command) : list string * string * list string :=
  match c with
  | Suspend => (["active"%string], "suspended"%string, [])
  | Resume => (["suspended"%string], "active"%string, [])
  | Revoke => (["active"%string; "suspended"%string], "revoked"%string, ["revoked"%string])
  end.

Definition _set_status (subject : string) (c : command) : ox admin_answer :=
  o ← reads (λ s, od_principals s !! subject);
  match o with
  | None => mret NoPrincipal
  | Some p =>
      let '(from, to, idle) := _TRANSITIONS c in
      if bool_decide (pr_status p ∈ idle) then mret Done else
      if negb (bool_decide (pr_status p ∈ from)) then mret Refused else
      writes (λ s, set_principals (<[subject := Principal (pr_role p) (pr_revision p + 1) to (pr_profiles p) (pr_environment p)
                                                  (pr_granted_by p)]> (od_principals s)) s);; mret Done
  end.

(** ** Budgets *)

Definition day_text (t : Z) : list ascii :=
  let '(y, m, d) := civil_from_days (t / US_PER_DAY) in zero_pad 4 y ++ zero_pad 2 m ++ zero_pad 2 d.
Definition hour_key (action : string) (t : Z) : string :=
  action +:+ "@" +:+ of_chars (day_text t ++ zero_pad 2 (t mod US_PER_DAY / (3600 * US_PER_S))).
Definition day_key (t : Z) : string := "usd@" +:+ of_chars (day_text t).

(** INSERT ... ON CONFLICT DO UPDATE SET used = used + amount WHERE ... RETURNING *)
Definition reserve (key : string * (string * string)) (amount ceiling : Z) : ox bool :=
  o ← reads (λ s, od_budgets s !! key);
  match o with
  | None => writes (set_budget key (amount, ceiling));; mret true
  | Some (used, _) =>
      if used + amount <=? ceiling then writes (set_budget key (used + amount, ceiling));; mret true else mret false
  end.

Definition _reserve_rate (subject action : string) (category : json) (catalog : dict) (now : Z) : ox bool :=
  ceiling ← lift (limit_of catalog "rate_limits_per_hour" category);
  if ceiling <=? 0 then mret false else reserve (subject, ("action_hour"%string, hour_key action now)) 1 ceiling.

(** [entry.get("spend") or "none"] is [none] or [cost_tokens] *)
Definition unpriced (spend : option json) : bool :=
  match spend with
  | None | Some JNull | Some (JBool false) | Some (JInt 0) | Some (JArr []) | Some (JObj []) => true
  | Some (JStr s) => bool_decide (s ∈ [""%string; "none"%string; "cost_tokens"%string])
  | _ => false
  end.

Definition _reserve_spend (subject : string) (entry catalog : dict) (now : Z) : ox (option string) :=
  if unpriced (dict_get entry "spend") then mret None else
  amount ← lift (match dict_get entry "max_spend_cents" with Some v => py_int v | None => Ok 0 end);
  ceiling ← lift (limit_of catalog "spend_limits" (JStr "usd_principal_day_cents"));
  if (amount <=? 0) || (ceiling <=? 0) || (ceiling <? amount) then mret (Some "spend_unconfigured"%string) else
  ok ← reserve (subject, ("spend_principal_day"%string, day_key now)) amount ceiling;
  mret (if ok : bool then None else Some "spend_exhausted"%string).

(** ** Minting *)

(** What a mint is asked for. *)
Record ask := Ask {
  ak_subject : string; ak_revision : Z; ak_profile : string; ak_environment : string; ak_session : string; ak_turn : option string;
  ak_action : string; ak_args : json; ak_target : option string; ak_idempotency : option string }.

(** What it finds outside the database; [sv_schema] is [None] where jsonschema is not
    installed, and the reads of the policy file come one after the other. *)
Record service := Service {
  sv_kill : bool; sv_policy : nat → file_state; sv_schema : option (json → json → bool); sv_now : Z; sv_authority : string;
  sv_nonce : string; sv_fate : nat → fate }.

Section authority.
Context `{Runtime}.

Definition mint_audit (k : ask) (policy decision reason : string) (authority_id : option string) : audit :=
  Audit (ak_subject k) (Some (ak_session k)) (ak_turn k) (ak_action k) decision reason authority_id
        (Some (canonical_args_hash (ak_args k))) (Some policy) (Some (ak_environment k)) (JObj []).

Definition mint_denied {A} (sv : service) (n : nat) (k : ask) (policy reason : string) : handler A :=
  section (sv_fate sv n) (λ _, writes (add_audit (mint_audit k policy "deny" reason None)))
    (λ r, Ret (match r with Ok _ => Err (AuthorityDenied reason) | Err e => Err e end)).

Definition minted_row (sv : service) (k : ask) (policy : string) (ttl : Z) : authority :=
  Authority (ak_subject k) (ak_revision k) (ak_profile k) (ak_session k) (ak_turn k) (ak_action k) (canonical_args_hash (ak_args k))
            (ak_target k) policy (ak_environment k) (sv_now sv + ttl * US_PER_S) (sv_nonce sv) 1 0 (ak_idempotency k) "granted".

(** The transaction of an admission: the budgets, the row and its audit.  A denial
    commits with what was reserved. *)
Definition mint_row (sv : service) (k : ask) (policy : string) (entry catalog : dict) : ox (string + authority) :=
  let denied reason := (writes (add_audit (mint_audit k policy "deny" reason None));; mret (inl reason)) in
  rate ← _reserve_rate (ak_subject k) (ak_action k) (default (JStr "high") (dict_get entry "rate")) catalog (sv_now sv);
  if negb rate then denied "rate_exhausted"%string else
  spend ← _reserve_spend (ak_subject k) entry catalog (sv_now sv);
  match spend with
  | Some reason => denied reason
  | None =>
      ttl ← lift (match dict_get catalog "authority_ttl_s" with Some v => py_int v | None => Ok 300 end);
      taken ← reads (λ s, bool_decide (is_Some (od_authorities s !! sv_authority sv)));
      if taken : bool then raise Raised else
      let row := minted_row sv k policy ttl in
      writes (set_authority (sv_authority sv) row);;
      writes (add_audit (mint_audit k policy "mint" "authority_minted" (Some (sv_authority sv))));;
      mret (inr row)
  end.

Definition mint (sv : service) (k : ask) : handler (string * authority) :=
  match load_catalog (sv_policy sv 0) with
  | Err e => Ret (Err e)
  | Ok catalog =>
      match policy_revision catalog (sv_policy sv 1) with
      | Err e => Ret (Err e)
      | Ok policy =>
          if sv_kill sv then mint_denied sv 0 k policy "kill_switch_active" else
          match catalog with
          | None => mint_denied sv 0 k policy "policy_catalog_absent"
          | Some c =>
              match find_action c (ak_action k) with
              | None => mint_denied sv 0 k policy "action_not_in_catalog"
              | Some entry =>
                  match sv_schema sv with
                  | None => mint_denied sv 0 k policy "schema_validator_unavailable"
                  | Some valid =>
                      if negb (valid (ak_args k) (default JNull (dict_get entry "args_schema")))
                      then mint_denied sv 0 k policy "args_schema_violation" else
                      section (sv_fate sv 0) (λ _, revalidate (ak_subject k) (ak_revision k)) (λ r,
                        match r with
                        | Err e => Ret (Err e)
                        | Ok false => mint_denied sv 1 k policy "principal_drift"
                        | Ok true =>
                            section (sv_fate sv 1) (λ _, mint_row sv k policy entry c) (λ r,
                              Ret (match r with
                                   | Ok (inl reason) => Err (AuthorityDenied reason)
                                   | Ok (inr row) => Ok (sv_authority sv, row)
                                   | Err e => Err e
                                   end))
                        end)
                  end
              end
          end
      end
  end.

(** ** Redemption *)

Definition coalesce (o : option string) : string := default ""%string o.

Definition binds_use (a : authority) (u : use) : bool :=
  bool_decide (au_subject a = us_subject u) && (au_revision a =? us_revision u) && bool_decide (au_action a = us_action u) &&
  bool_decide (au_args a = us_args u) && bool_decide (au_policy a = us_policy u) &&
  bool_decide (au_environment a = us_environment u) && bool_decide (coalesce (au_target a) = coalesce (us_target u)).

Definition usable (a : authority) (now : Z) : bool :=
  (au_used a <? au_max a) && bool_decide (au_status a = "granted"%string) && (now <? au_expires a).

Definition spent (a : authority) : authority :=
  Authority (au_subject a) (au_revision a) (au_profile a) (au_session a) (au_turn a) (au_action a) (au_args a) (au_target a)
            (au_policy a) (au_environment a) (au_expires a) (au_nonce a) (au_max a) (au_used a + 1) (au_idempotency a) "consumed".

(** Why the conditional UPDATE matched no row. *)
Definition classify (o : option authority) (u : use) (now : Z) : string :=
  match o with
  | None => "authority_absent"
  | Some a =>
      if negb (bool_decide (au_status a = "granted"%string)) || (au_max a <=? au_used a) then "authority_replayed"
      else if au_expires a <=? now then "authority_expired"
      else if negb (bool_decide (au_subject a = us_subject u)) then "subject_mismatch"
      else if negb (au_revision a =? us_revision u) then "role_revision_mismatch"
      else if negb (bool_decide (au_action a = us_action u)) then "action_mismatch"
      else if negb (bool_decide (au_args a = us_args u)) then "args_mismatch"
      else if negb (bool_decide (au_policy a = us_policy u)) then "policy_revision_drift"
      else if negb (bool_decide (au_environment a = us_environment u)) then "environment_mismatch"
      else "target_drift"
  end.

(** UPDATE operator_authorities ... WHERE every binding holds *)
Definition consume_row (i : nat) (locked : bool) (id : string) (u : use) (now : Z) : ox bool :=
  o ← reads (λ s, od_authorities s !! id);
  match o with
  | Some a => if usable a now && binds_use a u
              then writes (set_authority id (spent a));; writes (note_use id i locked u);; mret true
              else mret false
  | None => mret false
  end.

Definition consume_in_tx (i : nat) (id : string) (u : use) (now : Z) : ox unit :=
  ok ← consume_row i true id u now;
  if ok : bool then mret tt else
  o ← reads (λ s, od_authorities s !! id);
  raise (AuthorityDenied (classify o u now)).

Definition use_of (subject : string) (revision : Z) (environment action : string) (args : json) (policy : string)
    (target : option string) : use :=
  Use subject revision environment action (canonical_args_hash args) policy target.

Definition redeem_audit (id : string) (u : use) (decision reason : string) : audit :=
  Audit (us_subject u) None None (us_action u) decision reason (Some id) (Some (us_args u)) (Some (us_policy u))
        (Some (us_environment u)) (JObj []).

Definition redeem_denied {A} (sv : service) (n : nat) (id : string) (u : use) (reason : string) : handler A :=
  section (sv_fate sv n) (λ _, writes (add_audit (redeem_audit id u "deny" reason)))
    (λ r, Ret (match r with Ok _ => Err (AuthorityDenied reason) | Err e => Err e end)).

(** The UPDATE and its audit, or the probe that names the reason. *)
Definition redeem_row (i : nat) (id : string) (u : use) (now : Z) : ox (option string) :=
  ok ← consume_row i false id u now;
  if ok : bool then writes (add_audit (redeem_audit id u "redeem" "authority_consumed"));; mret None else
  o ← reads (λ s, od_authorities s !! id);
  writes (add_audit (redeem_audit id u "deny" (classify o u now)));;
  mret (Some (classify o u now)).

Definition redeem (sv : service) (id subject : string) (revision : Z) (environment action : string) (args : json)
    (target : option string) : handler unit :=
  match policy_revision None (sv_policy sv 0) with
  | Err e => Ret (Err e)
  | Ok policy =>
      let u := use_of subject revision environment action args policy target in
      if sv_kill sv then redeem_denied sv 0 id u "kill_switch_active" else
      section (sv_fate sv 0) (λ _, revalidate subject revision) (λ r,
        match r with
        | Err e => Ret (Err e)
        | Ok false => redeem_denied sv 1 id u "principal_drift"
        | Ok true =>
            section (sv_fate sv 1) (λ i, redeem_row i id u (sv_now sv)) (λ r,
              Ret (match r with Ok None => Ok tt | Ok (Some reason) => Err (AuthorityDenied reason) | Err e => Err e end))
        end)
  end.
End authority.
