(* ===== verification/OperatorRunbooks.v ===== *)
(** * Operator runbooks

    The split runbooks of the operator control plane: a proposal mints an authority
    bound to the state it found, and an execution redeems it.

    - [server/operator_runbooks.py]: pause and resume of a tenant's agent;
    - [server/operator_overlay_runbook.py] on [server/operator_runbook_tx.py]: a
      tighten-only overlay of a tenant's agent policy;
    - [server/operator_credential_rotate_runbook.py]: the rotation of a credential,
      whose external call runs inside the transaction;
    - [server/operator_stage_release_runbook.py] and
      [server/operator_external_write_runbook.py]: a staging deploy and a paid external
      write, each after the transaction that spends the authority.

    What the deployment registered answers with the arguments [rn_*].  The names that
    [_require_no_loosening] visits come in the order of the two overlays, which only
    decides among the reasons of a refusal. *)

From Stdlib Require Import Ascii.
From S2P Require Import Prelude PyText Json Entitlements AgentPolicy AgentCalls Concurrent ProjectContext OperatorPolicy OperatorStore.
Local Open Scope Z_scope.

(** The [OperatorContext] of a request. *)
Record operator := Operator { op_subject : string; op_revision : Z; op_profile : string; op_environment : string }.

(** What an execution finds outside the database. *)
Record running := Running {
  rn_kill : bool; rn_policy : file_state; rn_now : Z; rn_secrets : file_state; rn_destinations : file_state;
  rn_agent_policy : checked agent_policy;
  rn_minter : option bool;          (** [None]: no minter is registered; else whether it returns *)
  rn_rotator : option bool;
  rn_adapter : option (string * bool);   (** its reversal, and whether its write returns *)
  rn_stager : option (option json);      (** its answer, [None] where it raised *)
  rn_fate : nat → fate }.

Definition reason_of (e : failure) : string :=
  match e with
  | AuthorityDenied r | RunbookError r | SecretBrokerError r | ExternalWriteError r | StageError r => r
  | Raised => "denied"
  end.

Definition audit_row (op : operator) (action decision reason id : string) (extra : json) : audit :=
  Audit (op_subject op) None None action decision reason (Some id) None None (Some (op_environment op)) extra.

(** [audit_deny], then the exception *)
Definition audit_deny {A} (d : fate) (op : operator) (action : string) (e : failure) (id : string) : handler A :=
  best_effort d (writes (add_audit (audit_row op action "deny" (reason_of e) id (JObj [])))) (λ _, Ret (Err e)).

(** [except (AuthorityDenied, RunbookError)] around the transaction *)
Definition recorded {A B} (d : fate) (op : operator) (action id : string) (r : outcome_of A) (k : A → handler B) : handler B :=
  match r with
  | Ok a => k a
  | Err (AuthorityDenied reason) => audit_deny d op action (AuthorityDenied reason) id
  | Err (RunbookError reason) => audit_deny d op action (RunbookError reason) id
  | Err e => Ret (Err e)
  end.

(** The fast-fail admission every execution starts with. *)
Definition admitted {B} (rn : running) (op : operator) (action id : string) (k : handler B) : handler B :=
  if rn_kill rn then audit_deny (rn_fate rn 0) op action (RunbookError "kill_switch_active") id else
  section (rn_fate rn 0) (λ _, revalidate (op_subject op) (op_revision op)) (λ r,
    match r with
    | Err e => Ret (Err e)
    | Ok false => audit_deny (rn_fate rn 1) op action (RunbookError "principal_drift") id
    | Ok true => k
    end).

Section runbooks.
Context `{Runtime}.

Definition runbook_ask (op : operator) (action : string) (args : json) (target : option string) : ask :=
  Ask (op_subject op) (op_revision op) (op_profile op) (op_environment op) ("runbook:" +:+ op_subject op) None action args target None.

(** [operator_authority.consume_in_tx] with the policy revision of the file *)
Definition consume_for (rn : running) (i : nat) (op : operator) (action : string) (args : json) (target : option string) (id : string)
  : ox unit :=
  policy ← lift (policy_revision None (rn_policy rn));
  consume_in_tx i id (use_of (op_subject op) (op_revision op) (op_environment op) action args policy target) (rn_now rn).

Definition number (z : Z) : string := of_chars (print_Z z).

(** ** Tenant state *)

Definition tenant_row (tenant : string) : ox (option tenant_state) := reads (λ s, od_tenants s !! tenant).
Definition revision_at (row : option tenant_state) : Z := match row with Some r => ts_revision r | None => 0 end.

(** The extra of an applied audit, from the summaries of the two states. *)
Definition applied_extra (more : list (string * json)) (summary : tenant_state → json) (tenant subject : string)
    (before after : tenant_state) : json :=
  JObj ([("tenant_id", JStr tenant)] ++ more ++ [("approver", JStr subject); ("before", summary before); ("after", summary after)]).

(** [execute_atomic]: the transaction, around the caller's [apply] *)
Definition atomic_body (rn : running) (op : operator) (action tenant id : string) (args : json)
    (extra : tenant_state → tenant_state → json) (apply : option tenant_state → ox (tenant_state * tenant_state)) (i : nat) : ox (tenant_state * tenant_state) :=
  lock_principal (op_subject op) (op_revision op);;
  row ← tenant_row tenant;
  consume_for rn i op action args (Some (number (revision_at row))) id;;
  ba ← apply row;
  writes (add_audit (audit_row op action "execute" "runbook_applied" id (extra ba.1 ba.2)));;
  mret ba.

Definition execute_atomic (rn : running) (op : operator) (action tenant id : string) (args : json)
    (extra : tenant_state → tenant_state → json) (apply : option tenant_state → ox (tenant_state * tenant_state))
  : handler (tenant_state * tenant_state) :=
  admitted rn op action id
    (section (rn_fate rn 1) (atomic_body rn op action tenant id args extra apply) (λ r, recorded (rn_fate rn 2) op action id r (λ ba, Ret (Ok ba)))).

Definition _validate_tenant (tenant : string) : outcome_of unit :=
  guard_or (match_segment is_id_char (chars tenant)) (RunbookError "tenant_id_invalid").

(** *** Pause and resume *)

Definition PAUSE : string := "operator.tenant_agent_pause".
Definition RESUME : string := "operator.tenant_agent_resume".

Definition _WANT_DISABLED (action : string) : option bool :=
  if bool_decide (action = PAUSE) then Some true else if bool_decide (action = RESUME) then Some false else None.

Definition pause_args (want : bool) (tenant : string) : json :=
  JObj [("tenant_id", JStr tenant); ("expected_state", JStr (if want then "enabled" else "disabled"))].

Definition pause_extra (want : bool) (tenant subject : string) : tenant_state → tenant_state → json :=
  applied_extra [("reversal_action", JStr (if want then RESUME else PAUSE))]
    (λ st, JObj [("agent_disabled", JBool (ts_disabled st)); ("revision", JInt (ts_revision st))]) tenant subject.

(** The row the change starts from. *)
Definition row_or_new (row : option tenant_state) : tenant_state := default (TenantState false (JObj []) 0) row.

Definition apply_pause (tenant : string) (want : bool) (row : option tenant_state) : ox (tenant_state * tenant_state) :=
  let before := row_or_new row in
  if bool_decide (ts_disabled before = want) then raise (RunbookError "precondition_state_conflict") else
  let after := TenantState want (ts_overlay before) (ts_revision before + 1) in
  writes (set_tenant tenant after);; mret (before, after).

Definition propose_pause (sv : service) (d : fate) (revisioned : bool) (op : operator) (action tenant : string)
  : handler (string * authority) :=
  match _WANT_DISABLED action with
  | None => Ret (Err (RunbookError "unknown_runbook_action"))
  | Some want =>
      match _validate_tenant tenant with
      | Err e => Ret (Err e)
      | Ok _ =>
          if negb revisioned then Ret (Err (RunbookError "tenant_state_not_revisioned")) else
          section d (λ _, tenant_row tenant) (λ r,
            match r with
            | Err e => Ret (Err e)
            | Ok row =>
                if bool_decide (ts_disabled (row_or_new row) = want) then Ret (Err (RunbookError "precondition_state_conflict"))
                else mint sv (runbook_ask op action (pause_args want tenant) (Some (number (revision_at row))))
            end)
      end
  end.

Definition execute_pause (rn : running) (op : operator) (action tenant id : string) : handler (tenant_state * tenant_state) :=
  match _WANT_DISABLED action with
  | None => Ret (Err (RunbookError "unknown_runbook_action"))
  | Some want =>
      match _validate_tenant tenant with
      | Err e => Ret (Err e)
      | Ok _ => execute_atomic rn op action tenant id (pause_args want tenant) (pause_extra want tenant (op_subject op)) (apply_pause tenant want)
      end
  end.

(** *** Overlays *)

Definition OVERLAY_ACTION : string := "operator.tenant_overlay_set".

(** A [PolicyError] of the tenant gate, or another exception. *)
Definition gate_error {A} (why : failure) (r : checked A) : outcome_of A :=
  match r with Ok a => Ok a | Err PolicyError => Err why | Err TypeError => Err Raised end.

Definition _validate_overlay (policy : checked agent_policy) (overlay : json) : outcome_of unit :=
  match overlay with
  | JObj [] => Err (RunbookError "overlay_invalid")
  | JObj entries =>
      pol ← gate_error Raised policy;
      mapM (λ kv : string * json,
        a ← from_opt (ap_actions pol !! kv.1) (RunbookError "overlay_unknown_action");
        gate_error (RunbookError "overlay_not_tightening") (apply_tenant_overlay a (Some (JObj [kv])))) entries;;
      Ok tt
  | _ => Err (RunbookError "overlay_invalid")
  end.

Definition overlay_names (v : json) : outcome_of (list string) :=
  match v with JObj kvs => Ok kvs.*1 | _ => Err Raised end.

Definition loosens_not (pol : agent_policy) (old new : json) (name : string) : outcome_of unit :=
  a ← from_opt (ap_actions pol !! name) (RunbookError "overlay_unknown_action");
  cur ← gate_error Raised (apply_tenant_overlay a (Some old));
  nxt ← gate_error Raised (apply_tenant_overlay a (Some new));
  guard_or (order (aa_policy cur) <=? order (aa_policy nxt)) (RunbookError "overlay_would_loosen_policy");;
  guard_or (negb (aa_enabled nxt && negb (aa_enabled cur))) (RunbookError "overlay_would_reenable").

Definition _require_no_loosening (policy : checked agent_policy) (old new : json) : outcome_of unit :=
  pol ← gate_error Raised policy;
  ns ← overlay_names old;
  ms ← overlay_names new;
  mapM (loosens_not pol old new) (ns ++ ms);;
  Ok tt.

Definition overlay_args (tenant : string) (overlay : json) : json := JObj [("tenant_id", JStr tenant); ("overlay", overlay)].

Definition overlay_extra (tenant subject : string) : tenant_state → tenant_state → json :=
  applied_extra [] (λ st, JObj [("overlay", ts_overlay st); ("revision", JInt (ts_revision st))]) tenant subject.

Definition apply_overlay (policy : checked agent_policy) (tenant : string) (overlay : json) (row : option tenant_state)
  : ox (tenant_state * tenant_state) :=
  let before := row_or_new row in
  lift (_require_no_loosening policy (ts_overlay before) overlay);;
  let after := TenantState (ts_disabled before) overlay (ts_revision before + 1) in
  writes (set_tenant tenant after);; mret (before, after).

Definition propose_overlay (sv : service) (policy : checked agent_policy) (d : fate) (revisioned : bool) (op : operator) (tenant : string)
    (overlay : json) : handler (string * authority) :=
  match (_validate_tenant tenant;; _validate_overlay policy overlay) with
  | Err e => Ret (Err e)
  | Ok _ =>
      if negb revisioned then Ret (Err (RunbookError "tenant_state_not_revisioned")) else
      section d (λ _, tenant_row tenant) (λ r,
        match r with
        | Err e => Ret (Err e)
        | Ok row => mint sv (runbook_ask op OVERLAY_ACTION (overlay_args tenant overlay) (Some (number (revision_at row))))
        end)
  end.

Definition execute_overlay (rn : running) (op : operator) (tenant : string) (overlay : json) (id : string)
  : handler (tenant_state * tenant_state) :=
  match (_validate_tenant tenant;; _validate_overlay (rn_agent_policy rn) overlay) with
  | Err e => Ret (Err e)
  | Ok _ => execute_atomic rn op OVERLAY_ACTION tenant id (overlay_args tenant overlay) (overlay_extra tenant (op_subject op))
              (apply_overlay (rn_agent_policy rn) tenant overlay)
  end.

(** ** Credential rotation *)

Definition ROTATE_ACTION : string := "operator.worker_credential_rotate".

Definition _validate_handle (handle : string) : outcome_of unit :=
  guard_or (_IDENT_RE handle) (RunbookError "credential_handle_invalid").

(** [_broker_verify]; [unknown] is the reason for a handle that is not registered *)
Definition _broker_verify (secrets : file_state) (unknown handle environment : string) : outcome_of secret_meta :=
  o ← describe secrets handle;
  m ← from_opt o (RunbookError unknown);
  guard_or (non_production (sm_environment m) && non_production environment) (RunbookError "production_scope_refused");;
  guard_or (bool_decide (sm_environment m = environment)) (RunbookError "environment_mismatch");;
  Ok m.

Definition rotate_args (handle : string) : json := JObj [("credential_handle", JStr handle)].

Definition rotation_at (handle : string) : ox Z := reads (λ s, default 0 (od_rotations s !! handle)).

Definition propose_rotate (sv : service) (secrets : file_state) (d : fate) (op : operator) (handle : string) : handler (string * authority) :=
  match (_validate_handle handle;; _broker_verify secrets "credential_handle_unknown" handle (op_environment op)) with
  | Err e => Ret (Err e)
  | Ok _ =>
      section d (λ _, rotation_at handle) (λ r,
        match r with
        | Err e => Ret (Err e)
        | Ok rev => mint sv (runbook_ask op ROTATE_ACTION (rotate_args handle) (Some (number rev)))
        end)
  end.

(** The transaction up to the external rotation, and after it. *)
Definition rotate_claim (rn : running) (op : operator) (handle id : string) (i : nat) : ox Z :=
  lock_principal (op_subject op) (op_revision op);;
  rev ← rotation_at handle;
  consume_for rn i op ROTATE_ACTION (rotate_args handle) (Some (number rev)) id;;
  mret rev.

Definition rotate_audit (op : operator) (handle id scope : string) (rev : Z) : audit :=
  audit_row op ROTATE_ACTION "execute" "runbook_applied" id
    (JObj [("credential_handle", JStr handle); ("scope", JStr scope); ("approver", JStr (op_subject op));
           ("reversal", JStr "reissue_previous_scope"); ("before", JObj [("revision", JInt rev)]);
           ("after", JObj [("revision", JInt (rev + 1))])]).

Definition rotate_bump (op : operator) (handle id scope : string) (rev : Z) : ox (Z * Z) :=
  writes (set_rotation handle (rev + 1));;
  writes (add_audit (rotate_audit op handle id scope rev));;
  mret (rev, rev + 1).

(** The transaction with the external call in its middle: the call stays made when the
    transaction is rolled back. *)
Definition rotate_section (rn : running) (op : operator) (handle id scope : string) (i : nat) (w : world)
  : option (outcome_of (Z * Z)) * world :=
  let called := (i, (id, Rotated handle)) :: w_effects w in
  match rn_fate rn 1, rotate_claim rn op handle id i (w_db w) with
  | DownBefore, _ => (None, w)
  | _, (Err e, _) => (Some (Err e), w)
  | d, (Ok rev, s) =>
      match broker_ready (rn_secrets rn) handle (op_environment op) (bool_decide (is_Some (rn_rotator rn))) "no_rotator" with
      | Err (SecretBrokerError reason) => (Some (Err (RunbookError reason)), w)
      | Err e => (Some (Err e), w)
      | Ok _ =>
          if negb (default false (rn_rotator rn)) then (Some (Err (RunbookError "rotator_failed")), World (w_db w) called) else
          match d, rotate_bump op handle id scope rev s with
          | Works, (Ok revs, s') => (Some (Ok revs), World s' called)
          | AnswerLost, (Ok _, s') => (None, World s' called)
          | _, _ => (None, World (w_db w) called)
          end
      end
  end.

Definition execute_rotate (rn : running) (op : operator) (handle id : string) : handler (Z * Z) :=
  match (_validate_handle handle;; _broker_verify (rn_secrets rn) "credential_handle_unknown" handle (op_environment op)) with
  | Err e => Ret (Err e)
  | Ok m =>
      admitted rn op ROTATE_ACTION id
        (Act (rotate_section rn op handle id (sm_scope m)) (λ a,
          match a with
          | None => Ret (Err Raised)
          | Some r => recorded (rn_fate rn 2) op ROTATE_ACTION id r (λ revs, Ret (Ok revs))
          end))
  end.

(** ** Effects after the commit *)

(** The call leaves the system. *)
Definition call_out {B} (id : string) (e : effect) (k : handler B) : handler B :=
  Act (λ i w, (tt, World (w_db w) ((i, (id, e)) :: w_effects w))) (λ _, k).

(** *** Release candidates *)

Definition sha_char (c : ascii) : bool := in_range 97 102 c || is_digit c.
Definition _TARGETS : list string := ["staging"].

Definition _validate_release (source_sha target : string) : outcome_of unit :=
  guard_or (match_dollar (bounded sha_char 7 40) (chars source_sha)) (RunbookError "source_sha_invalid");;
  guard_or (bool_decide (target ∈ _TARGETS)) (RunbookError "target_not_staging").

Definition stage_args (source_sha target : string) : json := JObj [("source_sha", JStr source_sha); ("target", JStr target)].

Definition resolve_candidate (source_sha target : string) : ox (option candidate) := reads (λ s, od_candidates s !! (source_sha, target)).

Definition propose_stage (sv : service) (d : fate) (op : operator) (source_sha target : string) : handler (string * authority) :=
  match _validate_release source_sha target with
  | Err e => Ret (Err e)
  | Ok _ =>
      section d (λ _, resolve_candidate source_sha target) (λ r,
        match r with
        | Err e => Ret (Err e)
        | Ok (Some _) => Ret (Err (RunbookError "already_staged"))
        | Ok None => mint sv (runbook_ask op STAGE_ACTION (stage_args source_sha target) None)
        end)
  end.

Definition stage_claim (rn : running) (op : operator) (source_sha target id : string) (i : nat) : ox unit :=
  lock_principal (op_subject op) (op_revision op);;
  consume_for rn i op STAGE_ACTION (stage_args source_sha target) None id;;
  o ← resolve_candidate source_sha target;
  match o with
  | Some _ => raise (RunbookError "already_staged")
  | None =>
      writes (set_candidate (source_sha, target) (Candidate "staging" None None));;
      writes (note_claim (source_sha, target) i);;
      writes (add_audit (audit_row op STAGE_ACTION "execute" "authority_consumed" id
        (JObj [("source_sha", JStr source_sha); ("target", JStr target); ("approver", JStr (op_subject op))])))
  end.

Definition _mark_candidate (source_sha target status : string) (previous staged : option string) : ox unit :=
  o ← resolve_candidate source_sha target;
  match o with
  | Some c => writes (set_candidate (source_sha, target)
                (Candidate status (match previous with Some _ => previous | None => ca_previous c end)
                                  (match staged with Some _ => staged | None => ca_staged c end)))
  | None => mret tt
  end.

Definition stage_outcome (rn : running) (op : operator) (source_sha target id : string) (answer : option json)
  : handler (string * string) :=
  match stage_answer answer with
  | Err e =>
      best_effort (rn_fate rn 3) (_mark_candidate source_sha target "failed" None None) (λ _,
      best_effort (rn_fate rn 4) (writes (add_audit (audit_row op STAGE_ACTION "execute" ("stage_failed:" +:+ reason_of e) id
        (JObj [("source_sha", JStr source_sha); ("target", JStr target)])))) (λ _,
      Ret (Err (RunbookError (reason_of e)))))
  | Ok (previous, new) =>
      best_effort (rn_fate rn 3) (_mark_candidate source_sha target "staged" (Some previous) (Some new)) (λ _,
      best_effort (rn_fate rn 4) (writes (add_audit (audit_row op STAGE_ACTION "execute" "runbook_applied" id
        (JObj [("source_sha", JStr source_sha); ("target", JStr target); ("previous_taskdef_revision", JStr previous);
               ("staged_taskdef_revision", JStr new); ("reversal", JStr ("rollback_to_taskdef_revision:" +:+ previous))])))) (λ ok,
      Ret (if ok then Ok (previous, new) else Err (RunbookError "outcome_audit_unavailable"))))
  end.

Definition execute_stage (rn : running) (op : operator) (source_sha target id : string) : handler (string * string) :=
  match _validate_release source_sha target with
  | Err e => Ret (Err e)
  | Ok _ =>
      admitted rn op STAGE_ACTION id
        (match rn_stager rn with
         | None => audit_deny (rn_fate rn 1) op STAGE_ACTION (RunbookError "no_stager") id
         | Some answer =>
             section (rn_fate rn 1) (stage_claim rn op source_sha target id) (λ r,
               recorded (rn_fate rn 2) op STAGE_ACTION id r (λ _,
                 if non_production target then call_out id (Staged source_sha target) (stage_outcome rn op source_sha target id answer)
                 else Ret (Err (RunbookError "production_target_refused"))))
         end)
  end.

(** *** External writes *)

Definition WRITE_ACTION : string := "operator.external_write".

Definition write_args (destination token adapter : string) (payload : option json) : json :=
  JObj ([("destination", JStr destination); ("token_handle", JStr token); ("adapter", JStr adapter)] ++
        match payload with Some p => [("payload"%string, p)] | None => [] end).

Definition _verify (destinations secrets : file_state) (destination token adapter environment : string) : outcome_of destination_meta :=
  m ← match verify_allowed destinations destination adapter environment with
      | Err (ExternalWriteError reason) => Err (RunbookError reason)
      | r => r
      end;
  _broker_verify secrets "token_handle_unknown" token environment;;
  Ok m.

Definition propose_write (sv : service) (destinations secrets : file_state) (op : operator) (destination token adapter : string)
    (payload : option json) : handler (string * authority) :=
  match _verify destinations secrets destination token adapter (op_environment op) with
  | Err e => Ret (Err e)
  | Ok _ => mint sv (runbook_ask op WRITE_ACTION (write_args destination token adapter payload) None)
  end.

Definition write_claim (rn : running) (op : operator) (destination token adapter : string) (payload : option json) (reversal id : string)
    (i : nat) : ox unit :=
  lock_principal (op_subject op) (op_revision op);;
  consume_for rn i op WRITE_ACTION (write_args destination token adapter payload) None id;;
  writes (add_audit (audit_row op WRITE_ACTION "execute" "authority_consumed" id
    (JObj [("destination", JStr destination); ("adapter", JStr adapter); ("token_handle", JStr token);
           ("approver", JStr (op_subject op)); ("reversal", JStr reversal)]))).

Definition _audit_inject (op : operator) (handle : string) (scope : option string) (decision reason : string) : ox unit :=
  writes (add_audit (Audit (op_subject op) None None "operator.secret_inject" decision
    (reason +:+ ":" +:+ handle +:+ ":" +:+ default "?"%string scope) None None None (Some "n/a"%string) (JObj []))).

Definition write_failed {B} (rn : running) (op : operator) (destination adapter id reason : string) : handler B :=
  best_effort (rn_fate rn 4) (writes (add_audit (audit_row op WRITE_ACTION "execute" ("write_failed:" +:+ reason) id
    (JObj [("destination", JStr destination); ("adapter", JStr adapter)])))) (λ _, Ret (Err (RunbookError reason))).

(** [broker.with_injected] around the one write, and what the runbook makes of it *)
Definition inject_and_write (rn : running) (op : operator) (destination token adapter : string) (payload : option json)
    (reversal id : string) (returns : bool) : handler string :=
  let denied scope reason :=
    best_effort (rn_fate rn 3) (_audit_inject op token scope "deny" reason) (λ _, write_failed rn op destination adapter id reason) in
  match broker_ready (rn_secrets rn) token (op_environment op) (bool_decide (is_Some (rn_minter rn))) "no_minter" with
  | Err (SecretBrokerError reason) =>
      denied (match describe (rn_secrets rn) token with Ok (Some m) => Some (sm_scope m) | _ => None end) reason
  | Err e => Ret (Err e)
  | Ok m =>
      if negb (default false (rn_minter rn)) then denied (Some (sm_scope m)) "minter_failed"%string else
      call_out id (Wrote destination (default (JObj []) payload))
        (if returns then
           best_effort (rn_fate rn 3) (_audit_inject op token (Some (sm_scope m)) "inject" "credential_injected") (λ _,
           best_effort (rn_fate rn 4) (writes (add_audit (audit_row op WRITE_ACTION "execute" "runbook_applied" id
             (JObj [("destination", JStr destination); ("adapter", JStr adapter); ("reversal", JStr reversal)])))) (λ ok,
           Ret (if ok then Ok reversal else Err (RunbookError "outcome_audit_unavailable"))))
         else denied (Some (sm_scope m)) "adapter_failed"%string)
  end.

Definition execute_write (rn : running) (op : operator) (destination token adapter id : string) (payload : option json) : handler string :=
  match _verify (rn_destinations rn) (rn_secrets rn) destination token adapter (op_environment op) with
  | Err e => Ret (Err e)
  | Ok _ =>
      admitted rn op WRITE_ACTION id
        (match rn_adapter rn with
         | None => audit_deny (rn_fate rn 1) op WRITE_ACTION (RunbookError "no_adapter") id
         | Some (reversal, returns) =>
             section (rn_fate rn 1) (write_claim rn op destination token adapter payload reversal id) (λ r,
               recorded (rn_fate rn 2) op WRITE_ACTION id r (λ _,
                 inject_and_write rn op destination token adapter payload reversal id returns))
         end)
  end.
End runbooks.
