(* ===== verification/OperatorSystem.v ===== *)
(** * Operator authority under concurrency

    Proposals, executions, redemptions, the admin tool and the ops surface run against
    one database in any order, transactions fail in every way of [fate], and external
    calls are never taken back.  [op_move] is what the transactions do to the
    database, [op_inv] what every state satisfies, and [op_grows] how a state may
    evolve.  An authority is consumed once, with its audit; an external write or a
    staging deploy is made at most once for an authority, and a release candidate is
    staged at most once; a runbook never runs under a grant that was withdrawn. *)

From Stdlib Require Import Ascii.
From stdpp Require Import sorting.
From S2P Require Import Prelude PyText Json Entitlements AgentPolicy AgentCalls Concurrent ProjectContext OperatorPolicy OperatorStore OperatorRunbooks.
Local Open Scope Z_scope.

(** ** Moves *)

(** The audit row of a mint, and of a consumption. *)
Definition mint_recorded (id : string) (a : authority) (e : audit) : Prop :=
  ad_decision e = "mint"%string ∧ ad_authority e = Some id ∧ ad_subject e = au_subject a ∧ ad_action e = au_action a ∧
  ad_args e = Some (au_args a) ∧ ad_policy e = Some (au_policy a).

Definition use_recorded (id : string) (locked : bool) (u : use) (e : audit) : Prop :=
  ad_decision e = (if locked then "execute" else "redeem")%string ∧ ad_authority e = Some id ∧ ad_subject e = us_subject u ∧
  ad_action e = us_action u.

Inductive op_move (i : nat) : odb → odb → Prop :=
| move_audit s e : op_move i s (add_audit e s)
| move_budget s k used ceiling : used <= ceiling → op_move i s (set_budget k (used, ceiling) s)
| move_rotation s h n : default 0 (od_rotations s !! h) < n → op_move i s (set_rotation h n s)
| move_tenant s t x : ts_revision x = revision_at (od_tenants s !! t) + 1 → op_move i s (set_tenant t x s)
| move_grant s who p : od_principals s !! who = None → op_move i s (set_principals (<[who := p]> (od_principals s)) s)
| move_principal s who p p' : od_principals s !! who = Some p → pr_revision p' = pr_revision p + 1 →
    op_move i s (set_principals (<[who := p']> (od_principals s)) s)
| move_mint s id a e : od_authorities s !! id = None → au_status a = "granted"%string → mint_recorded id a e →
    op_move i s (add_audit e (set_authority id a s))
| move_use s id locked u a now e : od_authorities s !! id = Some a → usable a now = true → binds_use a u = true →
    (locked = true → holds (od_principals s !! us_subject u) (us_revision u) = true) → use_recorded id locked u e →
    op_move i s (add_audit e (note_use id i locked u (set_authority id (spent a) s)))
| move_claim s k c : od_candidates s !! k = None → k.2 ∈ _TARGETS → op_move i s (note_claim k i (set_candidate k c s))
| move_mark s k c : is_Some (od_candidates s !! k) → op_move i s (set_candidate k c s).

(** ** What every database satisfies *)

Record op_inv (s : odb) : Prop := OpInv {
  inv_used_once : NoDup (od_used s).*1;
  inv_used : ∀ id i l u, (id, (i, (l, u))) ∈ od_used s →
    (∃ a, od_authorities s !! id = Some a ∧ au_status a = "consumed"%string ∧ binds_use a u = true) ∧
    ∃ e, e ∈ od_audit s ∧ use_recorded id l u e;
  inv_minted : ∀ id a, od_authorities s !! id = Some a → ∃ e, e ∈ od_audit s ∧ mint_recorded id a e;
  inv_budget : ∀ k used ceiling, od_budgets s !! k = Some (used, ceiling) → used <= ceiling;
  inv_claims_once : NoDup (od_claims s).*1;
  inv_claims : ∀ k i, (k, i) ∈ od_claims s → is_Some (od_candidates s !! k) ∧ k.2 ∈ _TARGETS }.

(** ** How a database evolves *)

(** The columns of an authority no statement updates. *)
Definition bound (a : authority) :=
  (au_subject a, au_revision a, au_action a, au_args a, au_policy a, au_environment a, au_target a, au_expires a).

(** A consumption under the principal's lock, seen from a state before it: the grant it
    ran under was not yet withdrawn there. *)
Definition not_withdrawn (s : odb) (u : use) : Prop :=
  ∀ p, od_principals s !! us_subject u = Some p →
    pr_revision p <= us_revision u ∧ (us_revision u = pr_revision p → pr_status p = "active"%string).

Record op_grows (s s' : odb) : Prop := OpGrows {
  grows_used : ∃ l, od_used s' = l ++ od_used s ∧ ∀ id i u, (id, (i, (true, u))) ∈ l → not_withdrawn s u;
  grows_claims : od_claims s `suffix_of` od_claims s';
  grows_audit : od_audit s `prefix_of` od_audit s';
  grows_principals : ∀ who p, od_principals s !! who = Some p →
    ∃ p', od_principals s' !! who = Some p' ∧ pr_revision p <= pr_revision p' ∧ (pr_revision p' = pr_revision p → p' = p);
  grows_authorities : ∀ id a, od_authorities s !! id = Some a → ∃ a', od_authorities s' !! id = Some a' ∧ bound a' = bound a;
  grows_tenants : ∀ t, revision_at (od_tenants s !! t) <= revision_at (od_tenants s' !! t) ∧
    (revision_at (od_tenants s' !! t) = revision_at (od_tenants s !! t) → od_tenants s' !! t = od_tenants s !! t) }.

Lemma not_withdrawn_before s s' u :
  (∀ who p, od_principals s !! who = Some p →
    ∃ p', od_principals s' !! who = Some p' ∧ pr_revision p <= pr_revision p' ∧ (pr_revision p' = pr_revision p → p' = p)) →
  not_withdrawn s' u → not_withdrawn s u.
Proof.
  intros Hp Hu p Hs. destruct (Hp _ _ Hs) as (p' & Hs' & Hle & Heq). destruct (Hu _ Hs') as [Hr Hst]. split; [lia|].
  intros He. assert (pr_revision p' = pr_revision p) as H' by lia. rewrite <- (Heq H'). apply Hst. lia.
Qed.

#[export] Instance op_grows_preorder : PreOrder op_grows.
Proof.
  split.
  - intros s. split; try done.
    + exists []. split; [done|]. by intros ????%elem_of_nil.
    + intros who p Hp. exists p. done.
    + intros id a Ha. exists a. done.
  - intros s1 s2 s3 [(l1 & Hl1 & N1) C1 A1 P1 B1 T1] [(l2 & Hl2 & N2) C2 A2 P2 B2 T2]. split.
    + exists (l2 ++ l1). split; [by rewrite Hl2, Hl1, app_assoc|]. intros id i u [Hin|Hin]%elem_of_app.
      * eapply not_withdrawn_before; [exact P1|]. by eapply N2.
      * by eapply N1.
    + by etransitivity.
    + by etransitivity.
    + intros who p Hp. destruct (P1 _ _ Hp) as (p2 & Hp2 & L2 & E2). destruct (P2 _ _ Hp2) as (p3 & Hp3 & L3 & E3).
      exists p3. split_and!; [done|lia|]. intros He. assert (pr_revision p2 = pr_revision p) as H2 by lia.
      rewrite <- (E2 H2). apply E3. lia.
    + intros id a Ha. destruct (B1 _ _ Ha) as (a2 & Ha2 & E2). destruct (B2 _ _ Ha2) as (a3 & Ha3 & E3). exists a3. split; [done|congruence].
    + intros t. destruct (T1 t) as [L1 E1], (T2 t) as [L2 E2]. split; [lia|]. intros He. rewrite E2, E1 by lia. done.
Qed.

(** What a move leaves alone grows by staying. *)
Lemma grows_made s s' l :
  od_used s' = l ++ od_used s → (∀ id i u, (id, (i, (true, u))) ∈ l → not_withdrawn s u) →
  od_claims s `suffix_of` od_claims s' → od_audit s `prefix_of` od_audit s' →
  (∀ who p, od_principals s !! who = Some p →
    ∃ p', od_principals s' !! who = Some p' ∧ pr_revision p <= pr_revision p' ∧ (pr_revision p' = pr_revision p → p' = p)) →
  (∀ id a, od_authorities s !! id = Some a → ∃ a', od_authorities s' !! id = Some a' ∧ bound a' = bound a) →
  (∀ t, revision_at (od_tenants s !! t) <= revision_at (od_tenants s' !! t) ∧
    (revision_at (od_tenants s' !! t) = revision_at (od_tenants s !! t) → od_tenants s' !! t = od_tenants s !! t)) →
  op_grows s s'.
Proof. intros. split; try done. by exists l. Qed.

Lemma no_uses (s : odb) : ∀ id i u, (id, (i, (true, u))) ∈ @nil (string * (nat * (bool * use))) → not_withdrawn s u.
Proof. by intros ????%elem_of_nil. Qed.

Lemma same_principals (m : gmap string principal) : ∀ who p, m !! who = Some p →
  ∃ p', m !! who = Some p' ∧ pr_revision p <= pr_revision p' ∧ (pr_revision p' = pr_revision p → p' = p).
Proof. intros who p Hp. exists p. done. Qed.

Lemma same_authorities (m : gmap string authority) : ∀ id a, m !! id = Some a → ∃ a', m !! id = Some a' ∧ bound a' = bound a.
Proof. eauto. Qed.

Lemma same_tenants (m : gmap string tenant_state) : ∀ t, revision_at (m !! t) <= revision_at (m !! t) ∧
  (revision_at (m !! t) = revision_at (m !! t) → m !! t = m !! t).
Proof. done. Qed.

Create HintDb operator.
#[local] Hint Resolve no_uses same_principals same_authorities same_tenants : operator.
#[local] Hint Extern 1 (_ `prefix_of` _) => (reflexivity || (apply prefix_app_r; reflexivity)) : operator.
#[local] Hint Extern 1 (_ `suffix_of` _) => (reflexivity || (apply suffix_cons_r; reflexivity)) : operator.

Lemma principals_insert (m : gmap string principal) who p' :
  (∀ p, m !! who = Some p → pr_revision p < pr_revision p') →
  ∀ k p, m !! k = Some p → ∃ q, <[who := p']> m !! k = Some q ∧ pr_revision p <= pr_revision q ∧ (pr_revision q = pr_revision p → q = p).
Proof.
  intros Hlt k p Hp. destruct (decide (k = who)) as [->|Hne].
  - exists p'. rewrite lookup_insert_eq. specialize (Hlt _ Hp). split_and!; [done|lia|lia].
  - exists p. by rewrite lookup_insert_ne.
Qed.

Lemma authorities_insert (m : gmap string authority) id a a' : m !! id = Some a → bound a' = bound a →
  ∀ k x, m !! k = Some x → ∃ y, <[id := a']> m !! k = Some y ∧ bound y = bound x.
Proof.
  intros Ha Hb k x Hx. destruct (decide (k = id)) as [->|Hne].
  - exists a'. rewrite lookup_insert_eq. split; [done|congruence].
  - exists x. by rewrite lookup_insert_ne.
Qed.

Lemma holds_not_withdrawn s u : holds (od_principals s !! us_subject u) (us_revision u) = true → not_withdrawn s u.
Proof.
  intros Hh p Hp. rewrite Hp in Hh. simpl in Hh. apply andb_true_iff in Hh as [Hst%bool_decide_eq_true Hr%Z.eqb_eq]. split; [lia|done].
Qed.

Lemma op_move_grows i s s' : op_move i s s' → op_grows s s'.
Proof.
  destruct 1 as [s e|s k us c Hc|s h n Hn|s t x Hx|s who p Hp|s who p p' Hp Hr|s id a e Hn Hst He|s id l u a now e Ha Hu Hb Hl He|s k c Hn Hk|s k c Hk].
  - apply (grows_made _ _ []); simpl; try apply no_uses; auto with operator.
  - apply (grows_made _ _ []); simpl; try apply no_uses; auto with operator.
  - apply (grows_made _ _ []); simpl; try apply no_uses; auto with operator.
  - apply (grows_made _ _ []); simpl; try apply no_uses; auto with operator. intros t'. destruct (decide (t' = t)) as [->|Hne].
    + rewrite lookup_insert_eq. simpl. split; lia.
    + by rewrite lookup_insert_ne.
  - apply (grows_made _ _ []); simpl; try apply no_uses; auto with operator. apply principals_insert. congruence.
  - apply (grows_made _ _ []); simpl; try apply no_uses; auto with operator. apply principals_insert. intros q Hq. rewrite Hp in Hq. injection Hq as <-. lia.
  - apply (grows_made _ _ []); simpl; try apply no_uses; auto with operator. intros k x Hx. exists x. rewrite lookup_insert_ne by congruence. done.
  - apply (grows_made _ _ [(id, (i, (l, u)))]); simpl; try apply no_uses; auto with operator.
    + intros id' i' u' [= -> -> <- ->]%list_elem_of_singleton. apply holds_not_withdrawn. auto.
    + by apply (authorities_insert _ _ a).
  - apply (grows_made _ _ []); simpl; try apply no_uses; auto with operator.
  - apply (grows_made _ _ []); simpl; try apply no_uses; auto with operator.
Qed.

(** ** The moves keep the invariant *)

Lemma audit_kept (P : audit → Prop) s s' : op_grows s s' → (∃ e, e ∈ od_audit s ∧ P e) → ∃ e, e ∈ od_audit s' ∧ P e.
Proof. intros [_ _ [l Hl] _ _ _] (e & He & HP). exists e. split; [|done]. rewrite Hl. apply elem_of_app. by left. Qed.

Lemma audit_last (P : audit → Prop) s e : P e → ∃ x, x ∈ od_audit (add_audit e s) ∧ P x.
Proof. intros HP. exists e. split; [|done]. apply elem_of_app. right. by apply list_elem_of_singleton. Qed.

(** Moves that touch neither authorities, uses, budgets nor claims. *)
Lemma side_inv s s' : op_grows s s' → od_used s' = od_used s → od_authorities s' = od_authorities s → od_budgets s' = od_budgets s →
  od_claims s' = od_claims s → (∀ k, is_Some (od_candidates s !! k) → is_Some (od_candidates s' !! k)) → op_inv s → op_inv s'.
Proof.
  intros Hg Hu Ha Hb Hc Hk [U1 U2 M B C1 C2]. split; rewrite ?Hu, ?Ha, ?Hb, ?Hc; try done.
  - intros id i l u Hin. destruct (U2 _ _ _ _ Hin) as [Hrow Haud]. split; [done|]. by eapply audit_kept.
  - intros id a Hid. eapply audit_kept; [done|]. by apply M.
  - intros k i Hin. destruct (C2 _ _ Hin). auto.
Qed.

Lemma move_mint_inv s id a e : od_authorities s !! id = None → au_status a = "granted"%string → mint_recorded id a e →
  op_inv s → op_inv (add_audit e (set_authority id a s)).
Proof.
  intros Hn Hst He Hinv. pose proof (op_move_grows 0 _ _ (move_mint 0 s id a e Hn Hst He)) as Hg. destruct Hinv as [U1 U2 M B C1 C2].
  split; simpl; try done.
  - intros k i l u Hin. destruct (U2 _ _ _ _ Hin) as [(x & Hx & Hc) Haud]. split; [|exact (audit_kept _ _ _ Hg Haud)].
    exists x. rewrite lookup_insert_ne by congruence. done.
  - intros k x. rewrite lookup_insert_Some. intros [[<- <-]|[_ Hx]]; [exact (audit_last _ s _ He)|exact (audit_kept _ _ _ Hg (M _ _ Hx))].
Qed.

Lemma spent_mint id a e : mint_recorded id a e → mint_recorded id (spent a) e.
Proof. done. Qed.

Lemma spent_binds a u : binds_use (spent a) u = binds_use a u.
Proof. done. Qed.

Lemma move_use_inv i s id locked u a now e : od_authorities s !! id = Some a → usable a now = true → binds_use a u = true →
  (locked = true → holds (od_principals s !! us_subject u) (us_revision u) = true) → use_recorded id locked u e →
  op_inv s → op_inv (add_audit e (note_use id i locked u (set_authority id (spent a) s))).
Proof.
  intros Ha Hus Hb Hl He Hinv. pose proof (op_move_grows _ _ _ (move_use i s id locked u a now e Ha Hus Hb Hl He)) as Hg.
  destruct Hinv as [U1 U2 M B C1 C2].
  assert (Hnew : ∀ x, (id, x) ∉ od_used s).
  { intros [j [l v]] Hin. destruct (U2 _ _ _ _ Hin) as [(x & Hx & Hst & _) _]. rewrite Ha in Hx. injection Hx as <-.
    unfold usable in Hus. rewrite Hst in Hus. by rewrite andb_false_r in Hus. }
  split; simpl; try done.
  - constructor; [|done]. intros ([k x] & -> & Hin)%list_elem_of_fmap. by eapply Hnew.
  - intros k j l v [[= -> -> -> ->]|Hin]%elem_of_cons.
    + split; [|exact (audit_last _ s _ He)]. exists (spent a). rewrite lookup_insert_eq. by rewrite spent_binds.
    + destruct (U2 _ _ _ _ Hin) as [(x & Hx & Hc) Haud]. split; [|exact (audit_kept _ _ _ Hg Haud)].
      exists x. rewrite lookup_insert_ne; [done|]. intros ->. by eapply Hnew.
  - intros k x. rewrite lookup_insert_Some. intros [[<- <-]|[_ Hx]]; [exact (audit_kept _ _ _ Hg (M _ _ Ha))|exact (audit_kept _ _ _ Hg (M _ _ Hx))].
Qed.

Lemma move_claim_inv i s k c : od_candidates s !! k = None → k.2 ∈ _TARGETS → op_inv s → op_inv (note_claim k i (set_candidate k c s)).
Proof.
  intros Hn Hk [U1 U2 M B C1 C2]. split; simpl; try done.
  - constructor; [|done]. intros ([k' j] & -> & Hin)%list_elem_of_fmap. destruct (C2 _ _ Hin) as [[x Hx] _]. simpl in Hn. congruence.
  - intros k' j [[= -> ->]|Hin]%elem_of_cons; [by rewrite lookup_insert_eq|]. destruct (C2 _ _ Hin) as [[x Hx] Ht].
    split; [|done]. rewrite lookup_insert_ne by congruence. eauto.
Qed.

Lemma op_move_inv i s s' : op_move i s s' → op_inv s → op_inv s'.
Proof.
  intros Hm. pose proof (op_move_grows _ _ _ Hm) as Hg.
  destruct Hm as [s e|s k us c Hc|s h n Hn|s t x Hx|s who p Hp|s who p p' Hp Hr|s id a e Hn Hst He|s id l u a now e Ha Hu Hb Hl He|s k c Hn Hk|s k c Hk].
  - by apply side_inv.
  - intros [U1 U2 M B C1 C2]. split; simpl; try done. intros k' us' c'. rewrite lookup_insert_Some. intros [[<- [= <- <-]]|[_ ?]]; [done|eauto].
  - by apply side_inv.
  - by apply side_inv.
  - by apply side_inv.
  - by apply side_inv.
  - by apply move_mint_inv.
  - by eapply move_use_inv.
  - by apply move_claim_inv.
  - apply side_inv; try done. intros k' Hk'. simpl. destruct (decide (k' = k)) as [->|Hne]; [rewrite lookup_insert_eq; eauto|by rewrite lookup_insert_ne].
Qed.

Lemma op_moves_ok i s s' : star (op_move i) s s' → op_inv s → op_inv s' ∧ op_grows s s'.
Proof.
  induction 1 as [s|s1 s2 s3 H1 _ IH]; intros Hinv; [done|].
  destruct (IH (op_move_inv _ _ _ H1 Hinv)) as [? ?]. split; [done|]. etransitivity; [by eapply op_move_grows|done].
Qed.

(** ** What commits is a sequence of moves *)

Definition commits {A} (op : nat → ox A) : Prop := ∀ i s a s', op i s = (Ok a, s') → star (op_move i) s s'.

Lemma commits_steps {A} (op : nat → ox A) : (∀ i, steps (op_move i) (op i)) → commits op.
Proof. intros Hs i s a s' Ho. specialize (Hs i s). unfold final in Hs. by rewrite Ho in Hs. Qed.

Lemma osteps_reads {A} i (f : odb → A) : steps (op_move i) (reads f).
Proof. intros s. apply star_refl. Qed.

Lemma osteps_audit i e : steps (op_move i) (writes (add_audit e)).
Proof. intros s. apply star_one, move_audit. Qed.

Lemma osteps_reserve i k amount ceiling : amount <= ceiling → steps (op_move i) (reserve k amount ceiling).
Proof.
  intros Hle s. unfold reserve. erewrite final_bind by done. destruct (od_budgets s !! k) as [[used c]|].
  - destruct (Z.leb_spec (used + amount) ceiling); [|apply star_refl]. erewrite final_bind by done. by apply star_one, move_budget.
  - erewrite final_bind by done. by apply star_one, move_budget.
Qed.

Lemma osteps_revalidate i who r : steps (op_move i) (revalidate who r).
Proof. intros s. apply star_refl. Qed.

Ltac osteps := repeat
  match goal with
  | |- steps _ (mbind _ _) => apply steps_bind; [|intros ?]
  | |- steps _ (mret _) => apply steps_ret
  | |- steps _ (raise _) => apply steps_raise
  | |- steps _ (lift _) => apply steps_lift
  | |- steps _ (reads _) => apply osteps_reads
  | |- steps _ (writes (add_audit _)) => apply osteps_audit
  | |- steps _ (match _ with _ => _ end) => case_match
  end.

Lemma osteps_rate i who a c cat now : steps (op_move i) (_reserve_rate who a c cat now).
Proof.
  unfold _reserve_rate. apply steps_bind; [apply steps_lift|]. intros ceiling. destruct (Z.leb_spec ceiling 0); [apply steps_ret|].
  apply osteps_reserve. lia.
Qed.

Lemma osteps_spend i who e cat now : steps (op_move i) (_reserve_spend who e cat now).
Proof.
  unfold _reserve_spend. destruct (unpriced _); [apply steps_ret|]. apply steps_bind; [apply steps_lift|intros amount].
  apply steps_bind; [apply steps_lift|intros ceiling]. destruct (_ || _ || _) eqn:Hb; [apply steps_ret|].
  apply steps_bind; [|intros; apply steps_ret]. apply osteps_reserve. lia.
Qed.

Lemma commits_grant who ps env g re : commits (λ _, cmd_grant who ps env g re).
Proof.
  apply commits_steps. intros i s. unfold cmd_grant. erewrite final_bind by done. destruct (od_principals s !! who) as [p|] eqn:Hp.
  - destruct (_ && _); [apply star_refl|]. erewrite final_bind by done. by apply star_one, (move_principal i s who p).
  - erewrite final_bind by done. by apply star_one, move_grant.
Qed.

Lemma commits_status who c : commits (λ _, _set_status who c).
Proof.
  apply commits_steps. intros i s. unfold _set_status. erewrite final_bind by done. destruct (od_principals s !! who) as [p|] eqn:Hp; [|apply star_refl].
  destruct (_TRANSITIONS c) as [[from to] idle]. case_bool_decide; [apply star_refl|]. case_bool_decide; [|apply star_refl]. simpl negb. cbn iota.
  erewrite final_bind by done. by apply star_one, (move_principal i s who p).
Qed.

Section system.
Context `{Runtime}.

Lemma commits_mint sv k policy entry cat : commits (λ _, mint_row sv k policy entry cat).
Proof.
  apply commits_steps. intros i. unfold mint_row. cbv zeta. apply steps_bind; [apply osteps_rate|intros rate].
  destruct (negb rate); [osteps|]. apply steps_bind; [apply osteps_spend|]. intros [reason|]; [osteps|].
  apply steps_bind; [apply steps_lift|]. intros ttl s. erewrite final_bind by done. case_bool_decide as Ht; [apply star_refl|].
  apply star_one. apply (move_mint i s (sv_authority sv) (minted_row sv k policy ttl)); [by apply eq_None_not_Some|done|].
  by repeat split.
Qed.

Lemma consume_row_true i l id u now s s' : consume_row i l id u now s = (Ok true, s') →
  ∃ a, od_authorities s !! id = Some a ∧ usable a now = true ∧ binds_use a u = true ∧
       s' = note_use id i l u (set_authority id (spent a) s).
Proof.
  unfold consume_row. rewrite io_bind_inv. intros (o & s1 & [= <- <-] & Hk). destruct (od_authorities s !! id) as [a|]; [|done].
  destruct (usable a now && binds_use a u) eqn:Hb; [|done]. apply andb_true_iff in Hb as [? ?]. injection Hk as <-. by exists a.
Qed.

Lemma consume_row_false i l id u now s s' : consume_row i l id u now s = (Ok false, s') → s' = s.
Proof.
  unfold consume_row. rewrite io_bind_inv. intros (o & s1 & [= <- <-] & Hk). destruct (od_authorities s !! id) as [a|]; [|by injection Hk].
  destruct (usable a now && binds_use a u); [done|by injection Hk].
Qed.

Lemma commits_redeem id u now : commits (λ i, redeem_row i id u now).
Proof.
  intros i s r s'. unfold redeem_row. rewrite io_bind_inv. intros ([] & s1 & Hc & Hk).
  - apply consume_row_true in Hc as (a & Ha & Hu & Hb & ->). injection Hk as <- <-. apply star_one.
    by apply (move_use i s id false u a now).
  - apply consume_row_false in Hc as ->. injection Hk as <- <-. apply star_one, move_audit.
Qed.

(** *** The parts of a runbook's transaction *)

Lemma lock_principal_Ok who r s s' : lock_principal who r s = (Ok tt, s') → s' = s ∧ holds (od_principals s !! who) r = true.
Proof.
  unfold lock_principal. rewrite io_bind_inv. intros (o & s1 & [= <- <-] & Hk). destruct (holds _ _); [by injection Hk|done].
Qed.

Lemma consume_for_Ok rn i op action args target id s s' : consume_for rn i op action args target id s = (Ok tt, s') →
  ∃ a policy, let u := use_of (op_subject op) (op_revision op) (op_environment op) action args policy target in
    od_authorities s !! id = Some a ∧ usable a (rn_now rn) = true ∧ binds_use a u = true ∧
    s' = note_use id i true u (set_authority id (spent a) s).
Proof.
  unfold consume_for. rewrite io_bind_inv. intros (policy & s1 & Hp & Hk). unfold lift in Hp. injection Hp as _ <-.
  unfold consume_in_tx in Hk. rewrite io_bind_inv in Hk. destruct Hk as ([] & s2 & Hc & Hk).
  - apply consume_row_true in Hc as (a & Ha & Hu & Hb & ->). injection Hk as <-. by exists a, policy.
  - rewrite io_bind_inv in Hk. by destruct Hk as (? & ? & _ & ?).
Qed.

(** What the change of a tenant's row comes to. *)
Definition tenant_change (tenant : string) (apply : option tenant_state → ox (tenant_state * tenant_state)) : Prop :=
  ∀ row s b a s', apply row s = (Ok (b, a), s') → b = row_or_new row ∧ ts_revision a = ts_revision b + 1 ∧ s' = set_tenant tenant a s.

Lemma pause_change tenant want : tenant_change tenant (apply_pause tenant want).
Proof. intros row s b a s'. unfold apply_pause. case_bool_decide; [done|]. intros [= <- <- <-]. done. Qed.

Lemma overlay_change pol tenant overlay : tenant_change tenant (apply_overlay pol tenant overlay).
Proof.
  intros row s b a s'. unfold apply_overlay. rewrite io_bind_inv. intros (? & s1 & Hl & [= <- <- <-]).
  unfold lift in Hl. by injection Hl as _ <-.
Qed.

(** A transaction of [execute_atomic] that commits: what it ran under, what it read and
    what it wrote. *)
Lemma atomic_body_Ok rn op action tenant id args extra apply i s b a s' :
  tenant_change tenant apply → atomic_body rn op action tenant id args extra apply i s = (Ok (b, a), s') →
  holds (od_principals s !! op_subject op) (op_revision op) = true ∧ b = row_or_new (od_tenants s !! tenant) ∧
  ts_revision a = ts_revision b + 1 ∧
  ∃ row policy, let u := use_of (op_subject op) (op_revision op) (op_environment op) action args policy (Some (number (ts_revision b))) in
    od_authorities s !! id = Some row ∧ usable row (rn_now rn) = true ∧ binds_use row u = true ∧
    s' = add_audit (audit_row op action "execute" "runbook_applied" id (extra b a))
           (set_tenant tenant a (note_use id i true u (set_authority id (spent row) s))).
Proof.
  intros Hch. unfold atomic_body. rewrite io_bind_inv. intros ([] & s1 & [-> Hh]%lock_principal_Ok & Hk).
  rewrite io_bind_inv in Hk. destruct Hk as (row & s2 & [= <- <-] & Hk).
  rewrite io_bind_inv in Hk. destruct Hk as ([] & s3 & (x & policy & Hx & Hu & Hb & ->)%consume_for_Ok & Hk).
  rewrite io_bind_inv in Hk. destruct Hk as ([b' a'] & s4 & (Hb' & Hrev & ->)%Hch & Hk). injection Hk as <- <- <-.
  assert (revision_at (od_tenants s !! tenant) = ts_revision b') as Hr by (rewrite Hb'; by destruct (od_tenants s !! tenant)).
  rewrite Hr in Hb. split_and!; [done|done|done|]. exists x, policy. by rewrite Hr.
Qed.

Lemma commits_atomic rn op action tenant id args extra apply : tenant_change tenant apply →
  commits (atomic_body rn op action tenant id args extra apply).
Proof.
  intros Hch i s [b a] s' Ho. destruct (atomic_body_Ok _ _ _ _ _ _ _ _ _ _ _ _ _ Hch Ho) as (Hh & Hb & Hr & row & policy & Hx & Hu & Hbd & ->).
  eapply star_step; [apply (move_use i s id true _ row (rn_now rn) (audit_row op action "execute" "runbook_applied" id (extra b a)) Hx Hu Hbd)|].
  - done.
  - by repeat split.
  - apply star_one. apply (move_tenant i (add_audit _ (note_use _ _ _ _ (set_authority _ _ s)))). simpl. rewrite Hr, Hb.
    by destruct (od_tenants s !! tenant).
Qed.

Lemma commits_stage rn op sha target id : target ∈ _TARGETS → commits (stage_claim rn op sha target id).
Proof.
  intros Ht i s [] s'. unfold stage_claim. rewrite io_bind_inv. intros ([] & s1 & [-> Hh]%lock_principal_Ok & Hk).
  rewrite io_bind_inv in Hk. destruct Hk as ([] & s3 & (x & policy & Hx & Hu & Hb & ->)%consume_for_Ok & Hk).
  rewrite io_bind_inv in Hk. destruct Hk as (o & s4 & [= <- <-] & Hk). cbn in Hk. destruct (od_candidates s !! (sha, target)) eqn:Hc; [done|].
  injection Hk as <-. eapply star_step; [apply (move_use i s id true _ x (rn_now rn) (audit_row op STAGE_ACTION "execute" "authority_consumed" id
    (JObj [("source_sha"%string, JStr sha); ("target"%string, JStr target); ("approver"%string, JStr (op_subject op))])) Hx Hu Hb)|].
  - done.
  - by repeat split.
  - apply star_one. by apply (move_claim i (add_audit _ (note_use _ _ _ _ (set_authority _ _ s)))).
Qed.

Lemma commits_write rn op dest token adapter payload reversal id : commits (write_claim rn op dest token adapter payload reversal id).
Proof.
  intros i s [] s'. unfold write_claim. rewrite io_bind_inv. intros ([] & s1 & [-> Hh]%lock_principal_Ok & Hk).
  rewrite io_bind_inv in Hk. destruct Hk as ([] & s3 & (x & policy & Hx & Hu & Hb & ->)%consume_for_Ok & Hk).
  injection Hk as <-. apply star_one. eapply (move_use i s id true); [exact Hx|exact Hu|exact Hb|done|]. by repeat split.
Qed.

(** The claim of a rotation, when the transaction goes on to commit. *)
Lemma rotate_moves rn op handle id scope i s rev s1 revs s2 :
  rotate_claim rn op handle id i s = (Ok rev, s1) → rotate_bump op handle id scope rev s1 = (Ok revs, s2) → star (op_move i) s s2.
Proof.
  unfold rotate_claim. rewrite io_bind_inv. intros ([] & t1 & [-> Hh]%lock_principal_Ok & Hk).
  rewrite io_bind_inv in Hk. destruct Hk as (r0 & t2 & [= <- <-] & Hk).
  rewrite io_bind_inv in Hk. destruct Hk as ([] & t3 & (x & policy & Hx & Hu & Hb & ->)%consume_for_Ok & [= <- <-]).
  intros [= <- <-]. eapply star_step; [eapply (move_use i s id true _ _ _ (rotate_audit op handle id scope _)); [exact Hx|exact Hu|exact Hb|done|by repeat split]|].
  apply star_one. apply (move_rotation i (add_audit _ (note_use _ _ _ _ (set_authority _ _ s)))). simpl. lia.
Qed.

Lemma commits_mark sha target st p n : commits (λ _, _mark_candidate sha target st p n).
Proof.
  apply commits_steps. intros i s. unfold _mark_candidate. erewrite final_bind by done.
  destruct (od_candidates s !! (sha, target)) as [c|] eqn:Hc; [|apply star_refl]. apply star_one, move_mark. eauto.
Qed.

(** The ops surface, which writes the same rows. *)
Definition ops_tenant (tenant : string) (disabled : option bool) (overlay : option json) (expected : option Z) : ox (option tenant_state) :=
  λ s, match set_tenant_state tenant disabled overlay expected (od_tenants s) with
       | (Ok (Some x), _) => (Ok (Some x), set_tenant tenant x s)
       | (Ok None, _) => (Ok None, s)
       | (Err _, _) => (Err Raised, s)
       end.

Lemma commits_ops t d o e : commits (λ _, ops_tenant t d o e).
Proof.
  intros i s a s'. unfold ops_tenant, set_tenant_state. destruct (match e with Some z => _ | None => _ end); [intros [= <- <-]; apply star_refl|].
  intros [= <- <-]. apply star_one, move_tenant. simpl. by destruct (od_tenants s !! t).
Qed.

(** ** The world *)

Definition one_shot (x : nat * (string * effect)) : Prop := match x.2.2 with Rotated _ => False | _ => True end.
#[export] Instance one_shot_dec x : Decision (one_shot x).
Proof. unfold one_shot. destruct x.2.2; apply _. Defined.

Definition effect_action (e : effect) : string :=
  match e with Wrote _ _ => WRITE_ACTION | Staged _ _ => STAGE_ACTION | Rotated _ => ROTATE_ACTION end.

(** A request makes one call at most that is not a rotation, for an authority it consumed. *)
Record world_inv (w : world) : Prop := WorldInv {
  inv_db : op_inv (w_db w);
  inv_calls : NoDup (filter one_shot (w_effects w)).*1;
  inv_paid : ∀ i id e, (i, (id, e)) ∈ w_effects w → one_shot (i, (id, e)) →
    ∃ u, (id, (i, (true, u))) ∈ od_used (w_db w) ∧ us_action u = effect_action e;
  inv_staged : ∀ i id sha target, (i, (id, Staged sha target)) ∈ w_effects w → ((sha, target), i) ∈ od_claims (w_db w) }.

(** The calls of a request. *)
Definition own (i : nat) (w : world) : list (nat * (string * effect)) := filter (λ x, x.1 = i) (w_effects w).

Definition rely (i : nat) (w w' : world) : Prop := op_grows (w_db w) (w_db w') ∧ own i w' = own i w.
Definition unused (i : nat) (w : world) : Prop := own i w = [].

#[export] Instance rely_preorder i : PreOrder (rely i).
Proof.
  split.
  - intros w. done.
  - intros w1 w2 w3 [G1 O1] [G2 O2]. split; [by etransitivity|congruence].
Qed.

Lemma unused_stable i w w' : rely i w w' → unused i w → unused i w'.
Proof. intros [_ Ho] Hu. unfold unused in *. congruence. Qed.

Lemma used_grows s s' x : op_grows s s' → x ∈ od_used s → x ∈ od_used s'.
Proof. intros [(l & -> & _) _ _ _ _ _] Hx. apply elem_of_app. by right. Qed.

Lemma claims_grow s s' x : op_grows s s' → x ∈ od_claims s → x ∈ od_claims s'.
Proof. intros [_ [l ->] _ _ _ _] Hx. apply elem_of_app. by right. Qed.

(** A database that moves under the same calls. *)
Lemma world_moves w s : world_inv w → op_inv s → op_grows (w_db w) s → world_inv (World s (w_effects w)).
Proof.
  intros [_ C P T] Hi Hg. split; simpl; [done|done| |].
  - intros i id e Hin Ho. destruct (P _ _ _ Hin Ho) as (u & Hu & ?). exists u. split; [|done]. by eapply used_grows.
  - intros i id sha target Hin. eapply claims_grow; [done|]. eauto.
Qed.

(** [guarded] for the handlers below: nothing is promised of their answers. *)
Abbreviation safe := (guarded world_inv rely (λ _ _ _, True)).

Lemma txn_moves {A} d (op : nat → ox A) i w r w' : commits op → world_inv w → txn d op i w = (r, w') →
  world_inv w' ∧ op_grows (w_db w) (w_db w') ∧ w_effects w' = w_effects w ∧
  (∀ a, r = Some (Ok a) → op i (w_db w) = (Ok a, w_db w')).
Proof.
  intros Hc Hw Ht. assert (Hstay : world_inv w ∧ op_grows (w_db w) (w_db w) ∧ w_effects w = w_effects w) by done.
  destruct d; simpl in Ht.
  - destruct (op i (w_db w)) as [[a|e] s] eqn:Ho; injection Ht as <- <-.
    + destruct (op_moves_ok _ _ _ (Hc _ _ _ _ Ho) (inv_db _ Hw)) as [Hi Hg]. split_and!; [by apply world_moves|done|done|].
      by intros ? [= <-].
    + split_and!; [done|done|done|intros ? H0; discriminate H0].
  - injection Ht as <- <-. by split_and!.
  - destruct (op i (w_db w)) as [[a|e] s]; injection Ht as <- <-; (split_and!; [done|done|done|intros ? H0; discriminate H0]).
  - destruct (op i (w_db w)) as [[a|e] s] eqn:Ho; injection Ht as <- <-.
    + destruct (op_moves_ok _ _ _ (Hc _ _ _ _ Ho) (inv_db _ Hw)) as [Hi Hg]. split_and!; [by apply world_moves|done|done|intros ? H0; discriminate H0].
    + split_and!; [done|done|done|intros ? H0; discriminate H0].
Qed.

Lemma safe_ret {R} i (r : R) w : safe i (Ret r) w.
Proof. done. Qed.

Lemma safe_txn {A R} d (op : nat → ox A) (k : option (outcome_of A) → prog world R) i w : commits op →
  (∀ r w1 w2, rely i w w1 → op_grows (w_db w1) (w_db w2) → own i w2 = own i w →
     (∀ a, r = Some (Ok a) → op i (w_db w1) = (Ok a, w_db w2)) → safe i (k r) w2) →
  safe i (Act (txn d op) k) w.
Proof.
  intros Hc Hk w1 Hinv Hr. destruct (txn d op i w1) as [r w2] eqn:Ht.
  destruct (txn_moves _ _ _ _ _ _ Hc Hinv Ht) as (Hi & Hg & He & Ha). split_and!; [done| |].
  - intros j _. split; [done|]. unfold own. by rewrite He.
  - eapply Hk; [exact Hr|exact Hg| |exact Ha]. unfold own in *. rewrite He. by destruct Hr.
Qed.

(** A handler that makes no external call is safe anywhere. *)
Definition quiet {R} (p : prog world R) : Prop := ∀ i w, safe i p w.

Lemma quiet_ret {R} (r : R) : quiet (Ret r).
Proof. done. Qed.

Lemma quiet_section {A B} d (op : nat → ox A) (k : outcome_of A → handler B) : commits op → (∀ r, quiet (k r)) → quiet (section d op k).
Proof. intros Hc Hk i w. apply safe_txn; [done|]. intros [r|] w1 w2 _ _ _ _; [apply Hk|done]. Qed.

Lemma quiet_best {B} d (op : ox unit) (k : bool → handler B) : commits (λ _, op) → (∀ b, quiet (k b)) → quiet (best_effort d op k).
Proof. intros Hc Hk i w. apply safe_txn; [done|]. intros r w1 w2 _ _ _ _. apply Hk. Qed.

Lemma commits_reads {A} (f : odb → A) : commits (λ _, reads f).
Proof. apply commits_steps. intros i. apply osteps_reads. Qed.

Lemma commits_audit e : commits (λ _, writes (add_audit e)).
Proof. apply commits_steps. intros i. apply osteps_audit. Qed.

Lemma commits_revalidate who r : commits (λ _, revalidate who r).
Proof. apply commits_steps. intros i. apply osteps_revalidate. Qed.

#[local] Hint Resolve commits_reads commits_audit commits_revalidate commits_mint commits_redeem commits_mark commits_write
  pause_change overlay_change commits_atomic quiet_ret : operator.

(** ** Handlers *)

Lemma quiet_mint_denied {A} sv n k policy reason : quiet (mint_denied (A := A) sv n k policy reason).
Proof. apply quiet_section; auto with operator. Qed.

Lemma quiet_mint sv k : quiet (mint sv k).
Proof.
  unfold mint. destruct (load_catalog _) as [cat|]; [|apply quiet_ret]. destruct (policy_revision _ _) as [policy|]; [|apply quiet_ret].
  destruct (sv_kill sv); [apply quiet_mint_denied|]. destruct cat as [c|]; [|apply quiet_mint_denied].
  destruct (find_action _ _) as [entry|]; [|apply quiet_mint_denied]. destruct (sv_schema sv) as [valid|]; [|apply quiet_mint_denied].
  destruct (negb _); [apply quiet_mint_denied|]. apply quiet_section; [auto with operator|].
  intros [[]|e]; [|apply quiet_mint_denied|apply quiet_ret]. apply quiet_section; auto with operator.
Qed.

Lemma quiet_redeem sv id who r env action args target : quiet (redeem sv id who r env action args target).
Proof.
  unfold redeem. destruct (policy_revision _ _) as [policy|]; [|apply quiet_ret]. cbv zeta.
  assert (Hd : ∀ n u reason, quiet (redeem_denied (A := unit) sv n id u reason)) by (intros; apply quiet_section; auto with operator).
  destruct (sv_kill sv); [apply Hd|]. apply quiet_section; [auto with operator|].
  intros [[]|e]; [|apply Hd|apply quiet_ret]. apply quiet_section; auto with operator.
Qed.

Lemma quiet_audit_deny {A} d op action e id : quiet (audit_deny (A := A) d op action e id).
Proof. apply quiet_best; auto with operator. Qed.

Lemma safe_recorded {A B} d op action id (r : outcome_of A) (k : A → handler B) i w :
  (∀ a, r = Ok a → safe i (k a) w) → safe i (recorded d op action id r k) w.
Proof. intros Hk. destruct r as [a|[]]; unfold recorded; first [by apply Hk | exact (quiet_audit_deny _ _ _ _ _ _ _) | exact (quiet_ret _ _ _)]. Qed.

Lemma safe_admitted {B} rn op action id (k : handler B) i w :
  (∀ w', own i w' = own i w → safe i k w') → safe i (admitted rn op action id k) w.
Proof.
  intros Hk. unfold admitted. destruct (rn_kill rn); [apply quiet_audit_deny|]. apply safe_txn; [auto with operator|].
  intros [[[]|e]|] w1 w2 _ _ Ho _; [by apply Hk|apply quiet_audit_deny|apply quiet_ret|apply quiet_ret].
Qed.

Lemma quiet_atomic rn op action tenant id args extra apply : tenant_change tenant apply →
  quiet (execute_atomic rn op action tenant id args extra apply).
Proof.
  intros Hch i w. apply safe_admitted. intros w' _. apply quiet_section; [by apply commits_atomic|]. intros r i' w''.
  apply safe_recorded. intros; apply quiet_ret.
Qed.

Lemma quiet_execute_pause rn op action tenant id : quiet (execute_pause rn op action tenant id).
Proof. unfold execute_pause. repeat case_match; try apply quiet_ret. apply quiet_atomic, pause_change. Qed.

Lemma quiet_execute_overlay rn op tenant overlay id : quiet (execute_overlay rn op tenant overlay id).
Proof. unfold execute_overlay. case_match; [apply quiet_atomic, overlay_change|apply quiet_ret]. Qed.

Lemma quiet_propose {A} d (op : ox A) (k : outcome_of A → handler (string * authority)) :
  commits (λ _, op) → (∀ r, quiet (k r)) → quiet (section d (λ _, op) k).
Proof. apply quiet_section. Qed.

Lemma quiet_propose_pause sv d b op action tenant : quiet (propose_pause sv d b op action tenant).
Proof.
  unfold propose_pause. repeat case_match; try apply quiet_ret. apply quiet_section; [apply commits_reads|].
  intros [row|e]; [|apply quiet_ret]. case_match; [apply quiet_ret|apply quiet_mint].
Qed.

Lemma quiet_propose_overlay sv pol d b op tenant overlay : quiet (propose_overlay sv pol d b op tenant overlay).
Proof.
  unfold propose_overlay. repeat case_match; try apply quiet_ret. apply quiet_section; [apply commits_reads|].
  intros [row|e]; [apply quiet_mint|apply quiet_ret].
Qed.

Lemma quiet_propose_rotate sv f d op handle : quiet (propose_rotate sv f d op handle).
Proof.
  unfold propose_rotate. case_match; [|apply quiet_ret]. apply quiet_section; [apply commits_reads|].
  intros [row|e]; [apply quiet_mint|apply quiet_ret].
Qed.

Lemma quiet_propose_stage sv d op sha target : quiet (propose_stage sv d op sha target).
Proof.
  unfold propose_stage. case_match; [|apply quiet_ret]. apply quiet_section; [apply commits_reads|].
  intros [[row|]|e]; [apply quiet_ret|apply quiet_mint|apply quiet_ret].
Qed.

Lemma quiet_propose_write sv df sf op dest token adapter payload : quiet (propose_write sv df sf op dest token adapter payload).
Proof. unfold propose_write. case_match; [apply quiet_mint|apply quiet_ret]. Qed.

(** *** External calls *)

(** A call a request may make: it has made none, and consumed an authority for it. *)
Definition may_call (i : nat) (id : string) (e : effect) (w : world) : Prop :=
  own i w = [] ∧ (∃ u, (id, (i, (true, u))) ∈ od_used (w_db w) ∧ us_action u = effect_action e) ∧
  (∀ sha target, e = Staged sha target → ((sha, target), i) ∈ od_claims (w_db w)).

Lemma may_call_stable i id e w w' : rely i w w' → may_call i id e w → may_call i id e w'.
Proof.
  intros [Hg Ho] (Hn & (u & Hu & Ha) & Hc). split_and!; [congruence| |].
  - exists u. split; [|done]. by eapply used_grows.
  - intros sha target He. eapply claims_grow; [done|]. auto.
Qed.

Lemma own_other i j x (w : world) s : x.1 = i → j ≠ i → own j (World s (x :: w_effects w)) = own j w.
Proof. intros Hx Hne. unfold own. simpl. rewrite filter_cons_False; [done|congruence]. Qed.

Lemma call_inv i id e w : may_call i id e w → world_inv w → world_inv (World (w_db w) ((i, (id, e)) :: w_effects w)).
Proof.
  intros (Hn & (u & Hu & Ha) & Hc) [D C P T]. split; simpl; [done| | |].
  - rewrite filter_cons. case_decide as Hs; [|done]. simpl. constructor; [|done].
    intros ([j x] & Hj & Hin)%list_elem_of_fmap. simpl in Hj. subst j. apply list_elem_of_filter in Hin as [_ Hin].
    assert (Hown : (i, x) ∈ own i w) by (apply list_elem_of_filter; done). rewrite Hn in Hown. by apply elem_of_nil in Hown.
  - intros j k x [[= -> -> ->]|Hin]%elem_of_cons Hs; [by exists u|eauto].
  - intros j k sha target [[= -> -> He]|Hin]%elem_of_cons; [by apply Hc|eauto].
Qed.

Lemma safe_call {B} id e (k : handler B) i w : may_call i id e w → quiet k → safe i (call_out id e k) w.
Proof.
  intros Hm Hk w1 Hinv Hr. pose proof (may_call_stable _ _ _ _ _ Hr Hm) as Hm1. split_and!; [by apply call_inv| |apply Hk].
  intros j Hne. split; [reflexivity|]. by apply (own_other i).
Qed.

Lemma quiet_stage_outcome rn op sha target id answer : quiet (stage_outcome rn op sha target id answer).
Proof.
  unfold stage_outcome. case_match; [destruct a|]; (apply quiet_best; [auto with operator|intros b1]; apply quiet_best; [auto with operator|intros b2];
    apply quiet_ret).
Qed.

Lemma quiet_write_failed {B} rn op dest adapter id reason : quiet (write_failed (B := B) rn op dest adapter id reason).
Proof. apply quiet_best; auto with operator. Qed.

Lemma safe_inject rn op dest token adapter payload reversal id returns i w :
  may_call i id (Wrote dest (default (JObj []) payload)) w →
  safe i (inject_and_write rn op dest token adapter payload reversal id returns) w.
Proof.
  intros Hm. assert (Hd : ∀ scope reason, quiet (best_effort (rn_fate rn 3) (_audit_inject op token scope "deny" reason)
    (λ _, write_failed (B := string) rn op dest adapter id reason))).
  { intros. apply quiet_best; [apply commits_audit|]. intros _. apply quiet_write_failed. }
  unfold inject_and_write. destruct (broker_ready _ _ _ _ _) as [m|[]]; try apply quiet_ret; [|apply Hd].
  destruct (negb _); [apply Hd|]. apply safe_call; [done|]. destruct returns; [|apply Hd].
  apply quiet_best; [apply commits_audit|]. intros _. apply quiet_best; [apply commits_audit|]. intros b. apply quiet_ret.
Qed.

(** After the claiming transaction, the request holds what it needs. *)
Lemma write_claim_used rn op dest token adapter payload reversal id i s s' :
  write_claim rn op dest token adapter payload reversal id i s = (Ok tt, s') →
  ∃ u, (id, (i, (true, u))) ∈ od_used s' ∧ us_action u = WRITE_ACTION.
Proof.
  unfold write_claim. rewrite io_bind_inv. intros ([] & s1 & [-> Hh]%lock_principal_Ok & Hk).
  rewrite io_bind_inv in Hk. destruct Hk as ([] & s3 & (x & policy & Hx & Hu & Hb & ->)%consume_for_Ok & Hk).
  injection Hk as <-. eexists. split; [left|done].
Qed.

Lemma stage_claim_used rn op sha target id i s s' : stage_claim rn op sha target id i s = (Ok tt, s') →
  (∃ u, (id, (i, (true, u))) ∈ od_used s' ∧ us_action u = STAGE_ACTION) ∧ ((sha, target), i) ∈ od_claims s'.
Proof.
  unfold stage_claim. rewrite io_bind_inv. intros ([] & s1 & [-> Hh]%lock_principal_Ok & Hk).
  rewrite io_bind_inv in Hk. destruct Hk as ([] & s3 & (x & policy & Hx & Hu & Hb & ->)%consume_for_Ok & Hk).
  rewrite io_bind_inv in Hk. destruct Hk as (o & s4 & [= <- <-] & Hk). cbn in Hk. destruct (od_candidates s !! (sha, target)) eqn:Hc; [done|].
  injection Hk as <-. split; [|left]. eexists. split; [left|done].
Qed.

Lemma safe_execute_write rn op dest token adapter id payload i w : own i w = [] → safe i (execute_write rn op dest token adapter id payload) w.
Proof.
  intros Hn. unfold execute_write. case_match; [|apply quiet_ret]. apply safe_admitted. intros w' Ho.
  destruct (rn_adapter rn) as [[reversal returns]|]; [|apply quiet_audit_deny]. apply safe_txn; [auto with operator|].
  intros [r|] w1 w2 _ _ Ho2 Hr; [|apply quiet_ret]. apply safe_recorded. intros [] ->. specialize (Hr _ eq_refl).
  apply safe_inject. split_and!; [congruence|by eapply write_claim_used|done].
Qed.

Lemma safe_execute_stage rn op sha target id i w : own i w = [] → safe i (execute_stage rn op sha target id) w.
Proof.
  intros Hn. unfold execute_stage. destruct (_validate_release sha target) eqn:Hv; [|apply quiet_ret]. apply safe_admitted. intros w' Ho.
  destruct (rn_stager rn) as [answer|]; [|apply quiet_audit_deny]. apply safe_txn.
  { apply commits_stage. unfold _validate_release in Hv. apply result_bind_Ok in Hv as (? & _ & Hv). by case_bool_decide. }
  intros [r|] w1 w2 _ _ Ho2 Hr; [|apply quiet_ret]. apply safe_recorded. intros [] ->. specialize (Hr _ eq_refl).
  destruct (non_production target); [|apply quiet_ret]. destruct (stage_claim_used _ _ _ _ _ _ _ _ Hr) as [Hu Hc].
  apply safe_call; [|apply quiet_stage_outcome]. split_and!; [congruence|done|]. by intros ?? [= <- <-].
Qed.

Lemma rotated_inv i id h w : world_inv w → world_inv (World (w_db w) ((i, (id, Rotated h)) :: w_effects w)).
Proof.
  intros [D C P T]. split; simpl; [done| | |].
  - rewrite filter_cons_False by by intros []. done.
  - intros j k x [[= -> -> ->]|Hin]%elem_of_cons Hs; [by destruct Hs|eauto].
  - intros j k sha target [[=]|Hin]%elem_of_cons. eauto.
Qed.

Lemma rotate_section_ok rn op handle id scope i w r w' : world_inv w → rotate_section rn op handle id scope i w = (r, w') →
  world_inv w' ∧ ∀ j, j ≠ i → rely j w w'.
Proof.
  intros Hw. pose proof (rotated_inv i id handle w Hw) as Hcalled.
  assert (Hstay : world_inv w ∧ ∀ j, j ≠ i → rely j w w) by (split; [done|intros; reflexivity]).
  assert (Hcall : world_inv (World (w_db w) ((i, (id, Rotated handle)) :: w_effects w)) ∧
    ∀ j, j ≠ i → rely j w (World (w_db w) ((i, (id, Rotated handle)) :: w_effects w))).
  { split; [done|]. intros j Hj. split; [reflexivity|]. by apply (own_other i). }
  assert (Hcommit : ∀ rev s revs s', rotate_claim rn op handle id i (w_db w) = (Ok rev, s) → rotate_bump op handle id scope rev s = (Ok revs, s') →
    world_inv (World s' ((i, (id, Rotated handle)) :: w_effects w)) ∧
    ∀ j, j ≠ i → rely j w (World s' ((i, (id, Rotated handle)) :: w_effects w))).
  { intros rev s revs s' H1 H2. destruct (op_moves_ok _ _ _ (rotate_moves _ _ _ _ _ _ _ _ _ _ _ H1 H2) (inv_db _ Hw)) as [Hi Hg].
    split; [by apply (world_moves (World (w_db w) _))|]. intros j Hj. split; [done|]. by apply (own_other i). }
  unfold rotate_section. destruct (rotate_claim rn op handle id i (w_db w)) as [[rev|e] s] eqn:Hclaim.
  2: { by destruct (rn_fate rn 1); intros [= <- <-]. }
  destruct (broker_ready _ _ _ _ _) as [m|[]]; try by destruct (rn_fate rn 1); intros [= <- <-].
  destruct (negb _); [by destruct (rn_fate rn 1); intros [= <- <-]|].
  destruct (rotate_bump op handle id scope rev s) as [[revs|e] s'] eqn:Hbump;
    destruct (rn_fate rn 1); intros [= <- <-]; first [exact Hstay | exact Hcall | by eapply Hcommit].
Qed.

Lemma quiet_execute_rotate rn op handle id : quiet (execute_rotate rn op handle id).
Proof.
  intros i w. unfold execute_rotate. destruct (_ ;; _) as [m|]; [|apply quiet_ret]. apply safe_admitted. intros w' _.
  intros w1 Hinv _. destruct (rotate_section rn op handle id (sm_scope m) i w1) as [r w2] eqn:Hr.
  destruct (rotate_section_ok _ _ _ _ _ _ _ _ _ Hinv Hr) as [Hi Hrely]. split_and!; [done|done|].
  destruct r as [r|]; [|apply quiet_ret]. apply safe_recorded. intros; apply quiet_ret.
Qed.

(** ** The system *)

Definition forget {A} (p : handler A) : prog world unit := pmap (λ _, tt) p.

Inductive operator_arrives : prog world unit → Prop :=
| arrive_mint sv k : operator_arrives (forget (mint sv k))
| arrive_redeem sv id who r env action args target : operator_arrives (forget (redeem sv id who r env action args target))
| arrive_propose_pause sv d b op action tenant : operator_arrives (forget (propose_pause sv d b op action tenant))
| arrive_execute_pause rn op action tenant id : operator_arrives (forget (execute_pause rn op action tenant id))
| arrive_propose_overlay sv pol d b op tenant overlay : operator_arrives (forget (propose_overlay sv pol d b op tenant overlay))
| arrive_execute_overlay rn op tenant overlay id : operator_arrives (forget (execute_overlay rn op tenant overlay id))
| arrive_propose_rotate sv f d op handle : operator_arrives (forget (propose_rotate sv f d op handle))
| arrive_execute_rotate rn op handle id : operator_arrives (forget (execute_rotate rn op handle id))
| arrive_propose_stage sv d op sha target : operator_arrives (forget (propose_stage sv d op sha target))
| arrive_execute_stage rn op sha target id : operator_arrives (forget (execute_stage rn op sha target id))
| arrive_propose_write sv df sf op dest token adapter payload :
    operator_arrives (forget (propose_write sv df sf op dest token adapter payload))
| arrive_execute_write rn op dest token adapter id payload : operator_arrives (forget (execute_write rn op dest token adapter id payload))
| arrive_operator_grant d who ps env g re : operator_arrives (forget (section d (λ _, cmd_grant who ps env g re) (λ r, Ret r)))
| arrive_operator_status d who c : operator_arrives (forget (section d (λ _, _set_status who c) (λ r, Ret r)))
| arrive_ops d t dis o e : operator_arrives (forget (section d (λ _, ops_tenant t dis o e) (λ r, Ret r))).

Lemma operator_safe i p w : operator_arrives p → world_inv w → unused i w → safe i p w.
Proof.
  intros Hp _ Hu. destruct Hp; apply guarded_pmap.
  - apply quiet_mint.
  - apply quiet_redeem.
  - apply quiet_propose_pause.
  - apply quiet_execute_pause.
  - apply quiet_propose_overlay.
  - apply quiet_execute_overlay.
  - apply quiet_propose_rotate.
  - apply quiet_execute_rotate.
  - apply quiet_propose_stage.
  - by apply safe_execute_stage.
  - apply quiet_propose_write.
  - by apply safe_execute_write.
  - apply quiet_section; [apply commits_grant|intros; apply quiet_ret].
  - apply quiet_section; [apply commits_status|intros; apply quiet_ret].
  - apply quiet_section; [apply commits_ops|intros; apply quiet_ret].
Qed.

(** A control plane before any operator: tenants may have rows. *)
Definition control_plane (tenants : gmap string tenant_state) : pool world unit :=
  Pool (World (Odb ∅ ∅ ∅ [] tenants ∅ ∅ [] []) []) ∅.

Definition operator_reaches : pool world unit → pool world unit → Prop := star (pool_step operator_arrives).

Abbreviation safe_pool := (guarded_pool world_inv rely unused (λ _ _ _, True)).

Lemma control_plane_safe tenants : safe_pool (control_plane tenants).
Proof.
  split_and!; [|done|done]. split; simpl.
  - split; simpl; first [done | apply NoDup_nil_2 | intros * Hin; by apply elem_of_nil in Hin].
  - apply NoDup_nil_2.
  - intros * Hin. by apply elem_of_nil in Hin.
  - intros * Hin. by apply elem_of_nil in Hin.
Qed.

Lemma operator_reach tenants w : operator_reaches (control_plane tenants) w → safe_pool w.
Proof. intros Hw. exact (guarded_sound _ _ _ _ _ unused_stable _ _ _ operator_safe Hw (control_plane_safe tenants)). Qed.

Lemma operator_evolves tenants w w' : operator_reaches (control_plane tenants) w → operator_reaches w w' →
  op_grows (w_db (shared w)) (w_db (shared w')).
Proof.
  assert (Hpre : PreOrder (λ a b, op_grows (w_db a) (w_db b))) by (split; [intros a; reflexivity|intros a b c ? ?; by etransitivity]).
  intros Hw Hw'. apply (guarded_moves _ _ _ _ _ unused_stable (λ a b, op_grows (w_db a) (w_db b)) Hpre _ w w'
    (λ _ _ _ H, proj1 H) operator_safe Hw' (operator_reach _ _ Hw)).
Qed.
End system.

(** ** What the operator control plane guarantees *)

Section safety.
Context `{Runtime}.

(** (C22) An authority is consumed at most once, whatever redemptions and executions race and
    whichever commits or answers are lost; it was consumed for exactly what it was
    minted for, and both the mint and the consumption are in the security audit. *)
Theorem authority_used_once tenants w id i j l l' u u' :
  operator_reaches (control_plane tenants) w →
  (id, (i, (l, u))) ∈ od_used (w_db (shared w)) → (id, (j, (l', u'))) ∈ od_used (w_db (shared w)) →
  NoDup (od_used (w_db (shared w))).*1 ∧ i = j ∧ u = u' ∧
  ∃ a, od_authorities (w_db (shared w)) !! id = Some a ∧ binds_use a u = true ∧
       (∃ e, e ∈ od_audit (w_db (shared w)) ∧ mint_recorded id a e) ∧ ∃ e, e ∈ od_audit (w_db (shared w)) ∧ use_recorded id l u e.
Proof.
  intros Hw Hi Hj. destruct (operator_reach _ _ Hw) as ([[U1 U2 M _ _ _] _ _ _] & _ & _).
  destruct (history_unique _ _ _ _ _ _ U1 Hi Hj) as [<- [= <- <-]]. split_and!; [done|done|done|].
  destruct (U2 _ _ _ _ Hi) as [(a & Ha & _ & Hb) He]. exists a. split_and!; [done|done|by apply M|done].
Qed.

(** (C21) A paid external write and a staging deploy are made at most once for an authority,
    by the request that consumed it: a crash, a lost answer or a retry never repeats
    them. *)
Theorem external_call_at_most_once tenants w i j id e e' :
  operator_reaches (control_plane tenants) w →
  (i, (id, e)) ∈ w_effects (shared w) → (j, (id, e')) ∈ w_effects (shared w) → one_shot (i, (id, e)) → one_shot (j, (id, e')) →
  i = j ∧ e = e' ∧ NoDup (filter one_shot (w_effects (shared w))) ∧
  ∃ u, (id, (i, (true, u))) ∈ od_used (w_db (shared w)) ∧ us_action u = effect_action e.
Proof.
  intros Hw Hi Hj Hoi Hoj. destruct (operator_reach _ _ Hw) as ([[U1 _ _ _ _ _] C P _] & _ & _).
  destruct (P _ _ _ Hi Hoi) as (u & Hu & Ha), (P _ _ _ Hj Hoj) as (v & Hv & _).
  destruct (history_unique _ _ _ _ _ _ U1 Hu Hv) as [<- _].
  assert (Hfi : (i, (id, e)) ∈ filter one_shot (w_effects (shared w))) by (by apply list_elem_of_filter).
  assert (Hfj : (i, (id, e')) ∈ filter one_shot (w_effects (shared w))) by (by apply list_elem_of_filter).
  destruct (history_unique _ _ _ _ _ _ C Hfi Hfj) as [_ <-]. split_and!; [done|done|by eapply NoDup_fmap_1|by exists u].
Qed.

(** A release candidate is deployed at most once, and only ever to staging. *)
Theorem candidate_staged_once tenants w i j id id' sha target :
  operator_reaches (control_plane tenants) w →
  (i, (id, Staged sha target)) ∈ w_effects (shared w) → (j, (id', Staged sha target)) ∈ w_effects (shared w) →
  i = j ∧ id = id' ∧ target = "staging"%string.
Proof.
  intros Hw Hi Hj. destruct (operator_reach _ _ Hw) as ([[_ _ _ _ C1 C2] C _ T] & _ & _).
  pose proof (T _ _ _ _ Hi) as Hci. pose proof (T _ _ _ _ Hj) as Hcj.
  pose proof (keyed_unique _ _ _ _ C1 Hci Hcj) as <-.
  assert (Hfi : (i, (id, Staged sha target)) ∈ filter one_shot (w_effects (shared w))) by (by apply list_elem_of_filter).
  assert (Hfj : (i, (id', Staged sha target)) ∈ filter one_shot (w_effects (shared w))) by (by apply list_elem_of_filter).
  destruct (history_unique _ _ _ _ _ _ C Hfi Hfj) as [<- _]. split_and!; [done|done|].
  destruct (C2 _ _ Hci) as [_ Ht]. by apply list_elem_of_singleton in Ht.
Qed.

(** (C17) Once a grant is withdrawn no runbook consumes an authority under it: when the row of an operator has
    moved past the revision a request was made under, or is at that revision but not
    active, every consumption by a runbook under that revision is already in the
    history.  (The external call comes after the commit that consumed the authority, so
    that of a request that consumed before the withdrawal may still follow it.) *)
Theorem withdrawn_grant_consumes_nothing tenants w w' subject p id i u :
  operator_reaches (control_plane tenants) w → operator_reaches w w' →
  od_principals (w_db (shared w)) !! subject = Some p → us_subject u = subject →
  us_revision u < pr_revision p ∨ (us_revision u = pr_revision p ∧ pr_status p ≠ "active"%string) →
  (id, (i, (true, u))) ∈ od_used (w_db (shared w')) → (id, (i, (true, u))) ∈ od_used (w_db (shared w)).
Proof.
  intros Hw Hw' Hp Hsub Hrev Hin. destruct (operator_evolves _ _ _ Hw Hw') as [(l & Hl & Hnew) _ _ _ _ _].
  rewrite Hl in Hin. apply elem_of_app in Hin as [Hin|?]; [|done]. exfalso. subst subject.
  destruct (Hnew _ _ _ Hin _ Hp) as [Hle Hact]. destruct Hrev as [?|[He Hst]]; [lia|]. by apply Hst, Hact.
Qed.

(** No budget is ever overdrawn: what an operator has reserved in an hour or a day is
    within the ceiling that was in force at the last reservation. *)
Theorem budgets_within_ceiling tenants w key used ceiling :
  operator_reaches (control_plane tenants) w → od_budgets (w_db (shared w)) !! key = Some (used, ceiling) → used <= ceiling.
Proof. intros Hw Hk. destruct (operator_reach _ _ Hw) as ([[_ _ _ B _ _] _ _ _] & _ & _). eauto. Qed.

(** ** One runbook transaction *)

Lemma number_inj a b : number a = number b → a = b.
Proof. intros Hn. apply of_chars_inj in Hn. by apply print_Z_inj. Qed.

(** A runbook changes a tenant only as it was approved: when its transaction commits,
    the operator's grant is active at the revision of the request, the authority was
    minted by that operator for this action and these arguments, and the tenant's row
    is still at the revision the authority was minted at; the row moves on by one. *)
Theorem runbook_applies_to_approved_state rn op action tenant id args extra apply i s b a s' row rev :
  tenant_change tenant apply → atomic_body rn op action tenant id args extra apply i s = (Ok (b, a), s') →
  od_authorities s !! id = Some row → au_target row = Some (number rev) →
  holds (od_principals s !! op_subject op) (op_revision op) = true ∧
  au_subject row = op_subject op ∧ au_action row = action ∧ au_args row = canonical_args_hash args ∧ rn_now rn < au_expires row ∧
  b = row_or_new (od_tenants s !! tenant) ∧ ts_revision b = rev ∧ ts_revision a = rev + 1 ∧ od_tenants s' !! tenant = Some a.
Proof.
  intros Hch Ho Hrow Ht. destruct (atomic_body_Ok _ _ _ _ _ _ _ _ _ _ _ _ _ Hch Ho) as (Hh & Hb & Hr & x & policy & Hx & Hu & Hbd & ->).
  rewrite Hrow in Hx. injection Hx as <-. unfold binds_use, usable in *. rewrite Ht in Hbd. cbn in Hbd.
  rewrite !andb_true_iff, !bool_decide_eq_true in Hbd. destruct Hbd as [[[[[[H1 H2] H3] H4] H5] H6] H7].
  rewrite !andb_true_iff in Hu. destruct Hu as [[_ _] Hexp]. apply number_inj in H7. subst rev. split_and!; try done; [lia|].
  apply lookup_insert_eq.
Qed.

(** ** Overlays *)

(** What an overlay that does not name an action makes of it. *)
Lemma overlay_absent a kvs : dict_get (dict_of kvs) (aa_name a) = None → apply_tenant_overlay a (Some (JObj kvs)) = Ok a.
Proof. intros Hn. unfold apply_tenant_overlay. simpl. by rewrite Hn. Qed.

Lemma dict_of_keys kvs k : k ∈ (dict_of kvs).*1 → k ∈ kvs.*1.
Proof.
  unfold dict_of. assert (Hg : ∀ l acc, k ∈ (foldl (λ d kv, dict_set d kv.1 kv.2) acc l).*1 → k ∈ acc.*1 ∨ k ∈ l.*1).
  { induction l as [|[k0 v0] l IH]; intros acc Hin; simpl in *; [by left|]. apply IH in Hin as [Hin|Hin]; [|by right; right].
    apply dict_set_keys in Hin as [->|Hin]; [right; left|by left]. }
  intros Hin. apply Hg in Hin as [Hin|Hin]; [by apply elem_of_nil in Hin|done].
Qed.

Lemma dict_get_None kvs k : k ∉ kvs.*1 → dict_get kvs k = None.
Proof.
  induction kvs as [|[k0 v0] kvs IH]; [done|]. simpl. intros Hn. rewrite bool_decide_false; [apply IH|]; set_solver.
Qed.

Lemma gate_error_Ok {A} e (r : checked A) a : gate_error e r = Ok a → r = Ok a.
Proof. destruct r as [|[]]; simpl; [|done..]. by intros [= ->]. Qed.

(** The overlay an operator sets never loosens a tenant: for every action of the
    catalog, what the new overlay makes of it asks for at least the confirmation that
    the old one asked for, and an action that was disabled stays disabled. *)
Theorem operator_overlay_only_tightens pol old new name a cur nxt :
  policy_ok pol → _require_no_loosening (Ok pol) (JObj old) (JObj new) = Ok tt →
  ap_actions pol !! name = Some a → apply_tenant_overlay a (Some (JObj old)) = Ok cur → apply_tenant_overlay a (Some (JObj new)) = Ok nxt →
  order (aa_policy cur) <= order (aa_policy nxt) ∧ (aa_enabled nxt = true → aa_enabled cur = true).
Proof.
  intros Hpol Hno Ha Hcur Hnxt.
  assert (Hname : aa_name a = name) by by apply Hpol.
  destruct (decide (name ∈ old.*1 ++ new.*1)) as [Hin|Hout].
  - unfold _require_no_loosening in Hno. simpl in Hno. apply result_bind_Ok in Hno as (l & Hm & _).
    assert (∃ y, loosens_not pol (JObj old) (JObj new) name = Ok y) as [[] Hl].
    { apply mapM_Ok in Hm. apply list_elem_of_lookup in Hin as [n Hn]. destruct (Forall2_lookup_l _ _ _ _ _ Hm Hn) as (y & _ & Hy). eauto. }
    unfold loosens_not in Hl. apply result_bind_Ok in Hl as (a' & Ha'%from_opt_Ok & Hl). rewrite Ha in Ha'. injection Ha' as <-.
    apply result_bind_Ok in Hl as (c & Hc%gate_error_Ok & Hl). rewrite Hcur in Hc. injection Hc as <-.
    apply result_bind_Ok in Hl as (n & Hn%gate_error_Ok & Hl). rewrite Hnxt in Hn. injection Hn as <-.
    apply guard_Ok in Hl as [Ho He]. apply guard_or_Ok in He. split; [lia|]. intros Hen. rewrite Hen in He. by destruct (aa_enabled cur).
  - rewrite not_elem_of_app in Hout. destruct Hout as [Hno1 Hno2].
    rewrite overlay_absent in Hcur by (rewrite Hname; apply dict_get_None; intros Hx; by apply Hno1, dict_of_keys).
    rewrite overlay_absent in Hnxt by (rewrite Hname; apply dict_get_None; intros Hx; by apply Hno2, dict_of_keys).
    injection Hcur as <-. injection Hnxt as <-. done.
Qed.
End safety.
