(* ===== verification/OperatorDemo.v ===== *)
(** * A control plane that runs

    With the platform of [AgentDemo], where the hash of a text is the text: an operator is granted, pauses a tenant's agent, makes an external write whose
    adapter fails after the call went out and is tried again, stages a release, and is
    revoked.  The theorems of [OperatorSystem] are applied to the states this reaches. *)

From Stdlib Require Import Ascii.
From stdpp Require Import sorting.
From S2P Require Import AgentDemo.
From S2P Require Import Prelude PyText Json Entitlements AgentPolicy AgentCalls Concurrent ProjectContext OperatorPolicy OperatorStore OperatorRunbooks OperatorSystem.
Local Open Scope Z_scope.

Definition demo_action (cls spend : string) : json :=
  JObj [("class", JStr cls); ("rung", JInt 4); ("policy", JStr "always-confirm"); ("rate", JStr "high"); ("handler", JStr "h");
        ("args_schema", JObj []); ("spend", JStr spend); ("max_spend_cents", JInt 300)].

Definition demo_catalog : json :=
  JObj [("rate_limits_per_hour", JObj [("high", JInt 4)]); ("spend_limits", JObj [("usd_principal_day_cents", JInt 1000)]);
        ("actions", JObj [(PAUSE, demo_action "O3" "none"); (RESUME, demo_action "O3" "none"); (WRITE_ACTION, demo_action "O5" "usd");
                          (STAGE_ACTION, demo_action "O6" "usd")])].

Definition demo_secrets : json :=
  JObj [("handles", JObj [("crm.token", JObj [("scope", JStr "crm.write"); ("environment", JStr "staging"); ("kind", JStr "token");
                                              ("ttl_s", JInt 60)])])].
Definition demo_destinations : json :=
  JObj [("destinations", JObj [("crm", JObj [("environment", JStr "staging"); ("adapter", JStr "crm.v1")])])].

Definition file_of (v : json) : file_state := Contents (Some v).

Definition demo_service (id : string) (now : Z) : service :=
  Service false (λ _, file_of demo_catalog) (Some (λ _ _, true)) now id "nonce" (λ _, Works).

Definition demo_running (now : Z) : running :=
  Running false (file_of demo_catalog) now (file_of demo_secrets) (file_of demo_destinations) (Err PolicyError) (Some true) None
          (Some ("delete the note"%string, false))
          (Some (Some (JObj [("previous_revision", JStr "app:41"); ("new_revision", JStr "app:42")]))) (λ _, Works).

Definition alice : operator := Operator "alice" 1 "default" "staging".
Definition demo_sha : string := "0123abc".
Definition demo_tenants : gmap string tenant_state := {["acme"%string := TenantState false (JObj []) 3]}.

Definition demo_requests : list (prog world unit) :=
  [forget (section Works (λ _, cmd_grant "alice" None None "bob" false) (λ r, Ret r));
   forget (propose_pause (demo_service "a1" 1000) Works true alice PAUSE "acme");
   forget (execute_pause (demo_running 2000) alice PAUSE "acme" "a1");
   forget (propose_write (demo_service "a2" 3000) (file_of demo_destinations) (file_of demo_secrets) alice "crm" "crm.token" "crm.v1" None);
   forget (execute_write (demo_running 4000) alice "crm" "crm.token" "crm.v1" "a2" None);
   forget (execute_write (demo_running 5000) alice "crm" "crm.token" "crm.v1" "a2" None);
   forget (propose_stage (demo_service "a3" 6000) Works alice demo_sha "staging");
   forget (execute_stage (demo_running 7000) alice demo_sha "staging" "a3");
   forget (propose_pause (demo_service "a4" 8000) Works true alice RESUME "acme");
   forget (section Works (λ _, _set_status "alice" Revoke) (λ r, Ret r))].
Definition after_revoke : list (prog world unit) := [forget (execute_pause (demo_running 9000) alice RESUME "acme" "a4")].

Definition revoked_pool := serve_all 0 demo_requests (control_plane demo_tenants).
Definition last_pool := serve_all 10 after_revoke revoked_pool.

Lemma demo_requests_arrive : Forall operator_arrives demo_requests.
Proof.
  repeat apply Forall_cons_2; [| | | | | | | | | |apply Forall_nil_2].
  - apply arrive_operator_grant.
  - apply arrive_propose_pause.
  - apply arrive_execute_pause.
  - apply arrive_propose_write.
  - apply arrive_execute_write.
  - apply arrive_execute_write.
  - apply arrive_propose_stage.
  - apply arrive_execute_stage.
  - apply arrive_propose_pause.
  - apply arrive_operator_status.
Qed.

Lemma revoked_pool_reached : operator_reaches (control_plane demo_tenants) revoked_pool.
Proof. apply serve_all_reaches, demo_requests_arrive. Qed.

Lemma last_pool_reached : operator_reaches revoked_pool last_pool.
Proof. apply serve_all_reaches. repeat constructor. Qed.

(** ** The theorems at work *)

Abbreviation demo_db := (w_db (shared revoked_pool)).
Definition pause_use : use :=
  use_of "alice" 1 "staging" PAUSE (pause_args true "acme") (match demo_catalog with JObj c => revision_of c | _ => ""%string end) (Some "3"%string).

Lemma pause_used : ("a1"%string, (2%nat, (true, pause_use))) ∈ od_used demo_db.
Proof. vm_compute. right. right. left. Qed.

Lemma authority_used_once_witness : ∃ a, od_authorities demo_db !! "a1"%string = Some a ∧ binds_use a pause_use = true.
Proof.
  destruct (authority_used_once _ _ _ _ _ _ _ _ _ revoked_pool_reached pause_used pause_used) as (_ & _ & _ & a & Ha & Hb & _).
  exists a. split; [exact Ha|exact Hb].
Defined.

Lemma wrote_once : (4%nat, ("a2"%string, Wrote "crm" (JObj []))) ∈ w_effects (shared revoked_pool).
Proof. vm_compute. right. left. Qed.

Lemma external_call_at_most_once_witness : NoDup (filter one_shot (w_effects (shared revoked_pool))) ∧ ∃ u,
  ("a2"%string, (4%nat, (true, u))) ∈ od_used demo_db ∧ us_action u = WRITE_ACTION.
Proof.
  destruct (external_call_at_most_once _ _ _ _ _ _ _ revoked_pool_reached wrote_once wrote_once I I) as (_ & _ & Hn & Hu).
  split; [exact Hn|exact Hu].
Defined.

Lemma candidate_staged_once_witness :
  (7%nat, ("a3"%string, Staged demo_sha "staging")) ∈ w_effects (shared revoked_pool) ∧ "staging"%string = "staging"%string.
Proof.
  assert (Hin : (7%nat, ("a3"%string, Staged demo_sha "staging")) ∈ w_effects (shared revoked_pool)) by (vm_compute; left).
  split; [exact Hin|]. exact (proj2 (proj2 (candidate_staged_once _ _ _ _ _ _ _ _ revoked_pool_reached Hin Hin))).
Defined.

Lemma withdrawn_grant_consumes_nothing_witness :
  ∃ p, od_principals demo_db !! "alice"%string = Some p ∧ pr_status p = "revoked"%string ∧
  ("a1"%string, (2%nat, (true, pause_use))) ∈ od_used demo_db.
Proof.
  exists (Principal "operator" 2 "revoked" ["default"%string] "staging" "bob").
  assert (Hp : od_principals demo_db !! "alice"%string = Some (Principal "operator" 2 "revoked" ["default"%string] "staging" "bob"))
    by (vm_compute; reflexivity).
  split; [exact Hp|]. split; [reflexivity|].
  apply (withdrawn_grant_consumes_nothing _ _ _ "alice" _ "a1" 2 pause_use revoked_pool_reached last_pool_reached Hp eq_refl).
  - left. vm_compute. reflexivity.
  - vm_compute. right. right. left.
Defined.

Lemma budgets_within_ceiling_witness : od_budgets demo_db !! ("alice"%string, ("spend_principal_day"%string, "usd@19700101"%string)) = Some (600, 1000) ∧ 600 <= 1000.
Proof.
  assert (Hb : od_budgets demo_db !! ("alice"%string, ("spend_principal_day"%string, "usd@19700101"%string)) = Some (600, 1000))
    by (vm_compute; reflexivity).
  split; [exact Hb|exact (budgets_within_ceiling _ _ _ _ _ revoked_pool_reached Hb)].
Defined.

(** The pause, from the state its proposal left. *)
Definition proposed_db : odb := w_db (shared (serve_all 0 (take 2 demo_requests) (control_plane demo_tenants))).
Abbreviation pause_body := (atomic_body (demo_running 2000) alice PAUSE "acme" "a1" (pause_args true "acme")
  (pause_extra true "acme" "alice") (apply_pause "acme" true)).

Lemma pause_proposed : ∃ row, od_authorities proposed_db !! "a1"%string = Some row ∧ au_target row = Some (number 3).
Proof. eexists. split; vm_compute; reflexivity. Qed.

Lemma pause_answer : (pause_body 2%nat proposed_db).1 = Ok (TenantState false (JObj []) 3, TenantState true (JObj []) 4).
Proof. vm_compute. reflexivity. Qed.

Lemma pause_runs : ∃ s', pause_body 2%nat proposed_db = (Ok (TenantState false (JObj []) 3, TenantState true (JObj []) 4), s').
Proof. pose proof pause_answer as Hp. destruct (pause_body 2%nat proposed_db) as [r s']. exists s'. by rewrite <- Hp. Qed.

Lemma runbook_applies_to_approved_state_witness : ∃ b a s',
  pause_body 2%nat proposed_db = (Ok (b, a), s') ∧ ts_revision b = 3 ∧ ts_revision a = 4 ∧ od_tenants s' !! "acme"%string = Some a.
Proof.
  destruct pause_proposed as (row & Hrow & Ht). destruct pause_runs as (s' & Ho). eexists _, _, s'. split; [exact Ho|].
  destruct (runbook_applies_to_approved_state (demo_running 2000) alice PAUSE "acme" "a1" (pause_args true "acme")
    (pause_extra true "acme" "alice") (apply_pause "acme" true) 2%nat proposed_db _ _ s' row 3 (pause_change _ _) Ho Hrow Ht)
    as (_ & _ & _ & _ & _ & _ & H1 & H2 & H3).
  split; [exact H1|]. split; [exact H2|exact H3].
Defined.

Definition tighter : list (string * json) := [("author_tool"%string, JObj [("policy", JStr "always-confirm")])].

Lemma operator_overlay_only_tightens_witness : ∃ a cur nxt,
  ap_actions demo_catalog_policy !! "author_tool"%string = Some a ∧ apply_tenant_overlay a (Some (JObj [])) = Ok cur ∧
  apply_tenant_overlay a (Some (JObj tighter)) = Ok nxt ∧ order (aa_policy cur) <= order (aa_policy nxt).
Proof.
  assert (Ha : ∃ a, ap_actions demo_catalog_policy !! "author_tool"%string = Some a ∧ ∃ nxt, apply_tenant_overlay a (Some (JObj tighter)) = Ok nxt)
    by (eexists; split; [vm_compute; reflexivity|eexists; vm_compute; reflexivity]).
  destruct Ha as (a & Ha & nxt & Hn). exists a, a, nxt. split; [exact Ha|]. split; [reflexivity|]. split; [exact Hn|].
  assert (Hno : _require_no_loosening (Ok demo_catalog_policy) (JObj []) (JObj tighter) = Ok tt) by (vm_compute; reflexivity).
  exact (proj1 (operator_overlay_only_tightens demo_catalog_policy [] tighter "author_tool" a a nxt
    (load_policy_ok _ _ _ _ demo_policy_loads) Hno Ha eq_refl Hn)).
Defined.

(** An overlay that drops a restriction is refused. *)
Example overlay_refusal :
  _require_no_loosening (Ok demo_catalog_policy) (JObj tighter) (JObj [("register_tool"%string, JObj [("enabled", JBool false)])]) =
  Err (RunbookError "overlay_would_loosen_policy").
Proof. vm_compute. reflexivity. Qed.

(** The same commit passes the check of a candidate with and without a final newline,
    so one commit is two candidates. *)
Theorem release_sha_accepts_newline :
  _validate_release demo_sha "staging" = Ok tt ∧ _validate_release (demo_sha +:+ of_chars [newline]) "staging" = Ok tt ∧
  demo_sha ≠ demo_sha +:+ of_chars [newline].
Proof. split_and!; [vm_compute; reflexivity..|]. intros Heq. apply (f_equal String.length) in Heq. by vm_compute in Heq. Qed.
