(* ===== verification/OperatorSessions.v ===== *)
(** * Operator sessions

    [server/operator_session_store.py] over [operator_sessions] and [operator_events]:
    one session per operator, profile and environment, one turn at a time, and events
    numbered from one inside each session.

    Every method is one statement.  Drawn identifiers are arguments.  Two inserts that
    take the same number collide on the primary key, so of the insertions that
    committed each took the number after the last. *)

From S2P Require Import Prelude Json.
Local Open Scope Z_scope.

Record turn := Turn { tn_id : string; tn_subject : string; tn_revision : Z; tn_profiles : list string; tn_environment : string }.

Record session := Session {
  se_subject : string; se_profile : string; se_environment : string; se_status : string; se_turn : option turn }.

Record event := Event { ev_seq : Z; ev_turn : option string; ev_type : string; ev_data : json }.

Record store := Store { st_sessions : gmap string session; st_events : gmap string (list event) }.

Inductive session_error := UniqueViolation | ForeignKeyViolation.

Abbreviation sx := (io store session_error).

Definition same_identity (subject profile environment : string) (x : session) : bool :=
  bool_decide (se_subject x = subject) && bool_decide (se_profile x = profile) && bool_decide (se_environment x = environment).

(** The row the unique constraint finds. *)
Definition find_identity (m : gmap string session) (subject profile environment : string) : option (string * session) :=
  head (List.filter (λ kx : string * session, same_identity subject profile environment kx.2) (map_to_list m)).

(** INSERT ... ON CONFLICT (subject, profile, environment) DO UPDATE ... RETURNING *)
Definition create_or_get_session (fresh subject profile environment : string) : sx (string * session) :=
  λ s, match find_identity (st_sessions s) subject profile environment with
       | Some kx => (Ok kx, s)
       | None =>
           if bool_decide (is_Some (st_sessions s !! fresh)) then (Err UniqueViolation, s) else
           let x := Session subject profile environment "idle" None in
           (Ok (fresh, x), Store (<[fresh := x]> (st_sessions s)) (st_events s))
       end.

Definition get_session (id subject : string) (s : store) : option session :=
  match st_sessions s !! id with Some x => if bool_decide (se_subject x = subject) then Some x else None | None => None end.

Definition begin_turn (fresh id subject : string) (revision : Z) (profiles : list string) (environment : string) : sx (option string) :=
  λ s, match get_session id subject s with
       | Some (Session u p e _ None) =>
           (Ok (Some fresh),
            Store (<[id := Session u p e "active" (Some (Turn fresh subject revision profiles environment))]> (st_sessions s)) (st_events s))
       | _ => (Ok None, s)
       end.

(** The snapshot columns, which no statement reads, go with the turn here. *)
Definition end_turn (id turn_id : string) : sx unit :=
  λ s, match st_sessions s !! id with
       | Some (Session u p e _ (Some t)) =>
           if bool_decide (tn_id t = turn_id)
           then (Ok tt, Store (<[id := Session u p e "idle" None]> (st_sessions s)) (st_events s)) else (Ok tt, s)
       | _ => (Ok tt, s)
       end.

Definition events_of (s : store) (id : string) : list event := default [] (st_events s !! id).

(** [COALESCE(MAX(seq), 0) + 1] *)
Definition next_seq (l : list event) : Z := foldr (λ e m, Z.max (ev_seq e) m) 0 l + 1.

Definition append_event (id : string) (turn_id : option string) (type_ : string) (data : json) : sx Z :=
  λ s, if bool_decide (is_Some (st_sessions s !! id)) then
         let n := next_seq (events_of s id) in
         (Ok n, Store (st_sessions s) (<[id := events_of s id ++ [Event n turn_id type_ data]]> (st_events s)))
       else (Err ForeignKeyViolation, s).

(** SELECT ... WHERE seq > after ORDER BY seq LIMIT: the list is in the order of seq *)
Definition read_events (id subject : string) (after : Z) (limit : nat) (s : store) : list event :=
  match get_session id subject s with
  | None => []
  | Some _ => take limit (List.filter (λ e, after <? ev_seq e) (events_of s id))
  end.

(** ** The system *)

Inductive session_step : store → store → Prop :=
| step_create s fresh u p e : session_step s (final (create_or_get_session fresh u p e) s)
| step_begin s fresh id u r ps e : session_step s (final (begin_turn fresh id u r ps e) s)
| step_end s id t : session_step s (final (end_turn id t) s)
| step_append s id t ty d : session_step s (final (append_event id t ty d) s).

(** Numbered from [n] on. *)
Fixpoint numbered (n : Z) (l : list event) : Prop :=
  match l with [] => True | e :: l' => ev_seq e = n ∧ numbered (n + 1) l' end.

Record store_ok (s : store) : Prop := StoreOk {
  ok_events : ∀ id, numbered 1 (events_of s id);
  ok_identity : ∀ i j x y, st_sessions s !! i = Some x → st_sessions s !! j = Some y →
    se_subject x = se_subject y → se_profile x = se_profile y → se_environment x = se_environment y → i = j }.

Lemma numbered_app n l l' : numbered n (l ++ l') ↔ numbered n l ∧ numbered (n + Z.of_nat (length l)) l'.
Proof.
  revert n. induction l as [|e l IH]; intros n; simpl; [rewrite Z.add_0_r; tauto|]. rewrite IH.
  replace (n + 1 + Z.of_nat (length l)) with (n + Z.of_nat (S (length l))) by lia. tauto.
Qed.

Lemma next_seq_numbered n l : 0 < n → numbered n l → next_seq l = if decide (l = []) then 1 else n + Z.of_nat (length l).
Proof.
  unfold next_seq. revert n. induction l as [|e l IH]; intros n Hn; [done|]. simpl. intros [He Hl]. destruct l as [|e' l]; [simpl; lia|].
  specialize (IH (n + 1) ltac:(lia) Hl). rewrite decide_False in IH by done. simpl in *. lia.
Qed.

Lemma find_identity_Some m u p e k x : find_identity m u p e = Some (k, x) → m !! k = Some x ∧ same_identity u p e x = true.
Proof.
  unfold find_identity. intros Hh. destruct (List.filter _ _) as [|y l] eqn:Hf; [done|]. injection Hh as ->.
  assert (Hin : In (k, x) (List.filter (λ kx : string * session, same_identity u p e kx.2) (map_to_list m))) by (rewrite Hf; by left).
  apply filter_In in Hin as [Hin Hs]. split; [|done]. by apply elem_of_map_to_list, list_elem_of_In.
Qed.

Lemma find_identity_None m u p e : find_identity m u p e = None → ∀ k x, m !! k = Some x → same_identity u p e x = false.
Proof.
  unfold find_identity. intros Hh k x Hk. destruct (List.filter _ _) as [|y l] eqn:Hf; [|done]. apply not_true_iff_false. intros Hs.
  assert (Hin : In (k, x) (List.filter (λ kx : string * session, same_identity u p e kx.2) (map_to_list m))).
  { apply filter_In. split; [|done]. by apply list_elem_of_In, elem_of_map_to_list. }
  by rewrite Hf in Hin.
Qed.

Lemma same_identity_true u p e x : same_identity u p e x = true ↔ se_subject x = u ∧ se_profile x = p ∧ se_environment x = e.
Proof. unfold same_identity. rewrite !andb_true_iff, !bool_decide_eq_true. tauto. Qed.

(** Replacing a session by one of the same identity keeps identities apart. *)
Lemma ok_replace s id x y : st_sessions s !! id = Some x → se_subject y = se_subject x → se_profile y = se_profile x →
  se_environment y = se_environment x → store_ok s → store_ok (Store (<[id := y]> (st_sessions s)) (st_events s)).
Proof.
  intros Hx Hu Hp He [Hev Hid]. split; [done|]. simpl. intros i j a b. rewrite !lookup_insert_Some.
  intros [[<- <-]|[Hi Ha]] [[<- <-]|[Hj Hb]] H1 H2 H3; [done| | |by eapply Hid].
  - eapply (Hid id j x b); congruence.
  - eapply (Hid i id a x); congruence.
Qed.

Lemma events_appended ss m id l id' : events_of (Store ss (<[id := l]> m)) id' = if decide (id' = id) then l else events_of (Store ss m) id'.
Proof.
  unfold events_of. simpl. case_decide as Hd; [subst; by rewrite lookup_insert_eq|by rewrite lookup_insert_ne].
Qed.

Lemma session_step_ok s s' : session_step s s' → store_ok s → store_ok s'.
Proof.
  destruct 1 as [s fresh u p e|s fresh id u r ps e|s id t|s id t ty d]; intros Hok.
  - unfold final, create_or_get_session. destruct (find_identity _ _ _ _) as [kx|] eqn:Hf; [done|]. case_bool_decide as Hn; [done|].
    destruct Hok as [Hev Hid]. split; [done|]. simpl. pose proof (find_identity_None _ _ _ _ Hf) as Hno.
    assert (Hclash : ∀ j y, st_sessions s !! j = Some y → se_subject y = u → se_profile y = p → se_environment y = e → False).
    { intros j y Hj H1 H2 H3. specialize (Hno _ _ Hj). rewrite (proj2 (same_identity_true u p e y)) in Hno; done. }
    intros i j a b. rewrite !lookup_insert_Some.
    intros [[<- <-]|[Hi Ha]] [[<- <-]|[Hj Hb]] H1 H2 H3; simpl in *; [done| | |by eapply Hid]; exfalso; by eapply Hclash.
  - unfold final, begin_turn, get_session. destruct (st_sessions s !! id) as [[u' p' e' st [t|]]|] eqn:Hx; simpl; try done.
    + by case_bool_decide.
    + case_bool_decide; [|done]. by eapply ok_replace.
  - unfold final, end_turn. destruct (st_sessions s !! id) as [[u' p' e' st [t'|]]|] eqn:Hx; simpl; try done.
    case_bool_decide; [|done]. by eapply ok_replace.
  - unfold final, append_event. case_bool_decide; [|done]. destruct Hok as [Hev Hid]. split; [|done]. intros id'.
    simpl. rewrite events_appended. case_decide; [subst|apply Hev]. apply numbered_app. split; [apply Hev|]. simpl. split; [|done].
    rewrite (next_seq_numbered 1) by (lia || apply Hev). destruct (decide (events_of s id = [])) as [->|]; [done|lia].
Qed.

Lemma store_reach s : star session_step (Store ∅ ∅) s → store_ok s.
Proof.
  intros Hs. assert (Hstart : store_ok (Store ∅ ∅)) by (by split).
  revert Hstart. induction Hs as [s|s1 s2 s3 H1 _ IH]; intros Hok; [done|]. apply IH. by eapply session_step_ok.
Qed.

Lemma numbered_later n l m : numbered n l → m < n → List.filter (λ e, m <? ev_seq e) l = l.
Proof.
  revert n. induction l as [|e l IH]; intros n; simpl; [done|]. intros [He Hl] Hm. rewrite (proj2 (Z.ltb_lt _ _)) by lia.
  f_equal. apply (IH (n + 1)); [done|lia].
Qed.

Lemma numbered_filter n l k : numbered n l → (k <= length l)%nat →
  List.filter (λ e, n + Z.of_nat k - 1 <? ev_seq e) l = drop k l.
Proof.
  revert n k. induction l as [|e l IH]; intros n k Hl Hk; [by destruct k|]. destruct k as [|k].
  - rewrite drop_0. apply (numbered_later n); [done|lia].
  - destruct Hl as [He Hl]. simpl. rewrite (proj2 (Z.ltb_ge _ _)) by lia.
    replace (n + Z.of_nat (S k) - 1) with (n + 1 + Z.of_nat k - 1) by lia. apply IH; [done|simpl in Hk; lia].
Qed.

(** A client that resumes after the last number it saw misses no event and sees none
    twice: the first [k] events and what is read after number [k] are the whole
    session. *)
Theorem resumed_read_is_complete s id subject k limit :
  star session_step (Store ∅ ∅) s → is_Some (get_session id subject s) →
  (k <= length (events_of s id) <= limit)%nat →
  read_events id subject 0 k s ++ read_events id subject (Z.of_nat k) limit s = events_of s id.
Proof.
  intros Hs [x Hx] Hk. destruct (store_reach _ Hs) as [Hev _]. unfold read_events. rewrite Hx.
  pose proof (numbered_filter 1 (events_of s id) 0 (Hev id) ltac:(lia)) as H0.
  pose proof (numbered_filter 1 (events_of s id) k (Hev id) ltac:(lia)) as H1.
  replace (1 + Z.of_nat 0 - 1) with 0 in H0 by lia. replace (1 + Z.of_nat k - 1) with (Z.of_nat k) in H1 by lia.
  rewrite H0, H1, drop_0. rewrite (take_ge (drop k _)) by (rewrite length_drop; lia). apply take_drop.
Qed.

(** One session per operator, profile and environment: asking twice gives the same id,
    and a session answers only its own operator. *)
Theorem session_identity_is_unique s fresh u p e id x s' fresh' :
  star session_step (Store ∅ ∅) s → create_or_get_session fresh u p e s = (Ok (id, x), s') →
  create_or_get_session fresh' u p e s' = (Ok (id, x), s') ∧ get_session id u s' = Some x ∧
  ∀ v, v ≠ u → get_session id v s' = None.
Proof.
  intros Hs Hc. pose proof (store_reach _ Hs) as Hok.
  assert (Hok' : store_ok s').
  { replace s' with (final (create_or_get_session fresh u p e) s) by (unfold final; by rewrite Hc). eapply session_step_ok; [|exact Hok]. constructor. }
  assert (Hx : st_sessions s' !! id = Some x ∧ same_identity u p e x = true).
  { unfold create_or_get_session in Hc. destruct (find_identity (st_sessions s) u p e) as [[k y]|] eqn:Hf.
    - injection Hc as <- <- <-. by apply find_identity_Some.
    - case_bool_decide; [done|]. injection Hc as <- <- <-. simpl. rewrite lookup_insert_eq. split; [done|]. by apply same_identity_true. }
  destruct Hx as [Hx Hid]. pose proof (proj1 (same_identity_true _ _ _ _) Hid) as (Hu & Hp & He).
  split_and!.
  - unfold create_or_get_session. destruct (find_identity (st_sessions s') u p e) as [[k y]|] eqn:Hf.
    + apply find_identity_Some in Hf as [Hk Hy]. apply same_identity_true in Hy as (H1 & H2 & H3).
      assert (k = id) as -> by (eapply (ok_identity _ Hok'); [exact Hk|exact Hx|congruence..]). rewrite Hx in Hk. by injection Hk as ->.
    + pose proof (find_identity_None _ _ _ _ Hf _ _ Hx). congruence.
  - unfold get_session. by rewrite Hx, bool_decide_true.
  - intros v Hv. unfold get_session. by rewrite Hx, bool_decide_false by congruence.
Qed.

(** ** A session *)

Definition with_events : store :=
  final (append_event "o1" None "tool_call" (JInt 2)) (final (append_event "o1" (Some "t1"%string) "message" (JInt 1))
    (final (begin_turn "t1" "o1" "alice" 1 ["default"%string] "staging") (final (create_or_get_session "o1" "alice" "default" "staging") (Store ∅ ∅)))).

Lemma with_events_reached : star session_step (Store ∅ ∅) with_events.
Proof.
  exact (star_step _ _ _ _ (step_create _ _ _ _ _) (star_step _ _ _ _ (step_begin _ _ _ _ _ _ _)
    (star_step _ _ _ _ (step_append _ _ _ _ _) (star_step _ _ _ _ (step_append _ _ _ _ _) (star_refl _ _))))).
Qed.

Lemma resumed_read_is_complete_witness :
  read_events "o1" "alice" 0 1 with_events ++ read_events "o1" "alice" 1 200 with_events =
  [Event 1 (Some "t1"%string) "message" (JInt 1); Event 2 None "tool_call" (JInt 2)].
Proof.
  assert (Hx : is_Some (get_session "o1" "alice" with_events)) by (eexists; vm_compute; reflexivity).
  apply (resumed_read_is_complete with_events "o1" "alice" 1 200 with_events_reached Hx). vm_compute. split; repeat constructor.
Defined.

Lemma session_identity_is_unique_witness : ∃ x, get_session "o1" "alice" with_events = Some x ∧ get_session "o1" "mallory" with_events = None.
Proof.
  assert (Hc : ∃ x, create_or_get_session "o2" "alice" "default" "staging" with_events = (Ok ("o1"%string, x), with_events))
    by (eexists; vm_compute; reflexivity).
  destruct Hc as (x & Hc). exists x.
  destruct (session_identity_is_unique _ _ _ _ _ _ _ _ "o3" with_events_reached Hc) as (_ & H1 & H2). split; [exact H1|]. by apply H2.
Defined.
