(* ===== verification/CustomStore.v ===== *)
(** * Customization: change sets and their store

    A change set takes a tenant's tool catalog from a request over staging and an
    independent approval to publication: [server/customization_models.py], the record
    fields of a catalog ([server/tool_record_fields.py]), the audit events of
    [server/customization_audit.py], and the operations of
    [server/customization_store.py], which
    [server/customization_postgres_store.py] runs over PostgreSQL: every writing
    operation is one transaction that excludes every other ([BEGIN IMMEDIATE], or the
    advisory lock), and is rolled back by an exception.

    Messages of exceptions are left out; the columns no statement reads back
    ([updated_at], the start and finish of staging, the identifiers and the JSON copy of
    an audit event) too.  Durations are whole milliseconds.  [cd_claims], [cd_staged] and
    [cd_prepared] are the histories of stage claims, of the stagings workers completed
    and of the approvals that were spent, which no operation reads. *)

From Stdlib Require Import Ascii.
From stdpp Require Import sorting.
From S2P Require Import Prelude PyText Json AgentCalls ProjectContext Concurrent.
Local Open Scope Z_scope.

(** ** Change sets and their parts *)

Inductive change_state :=
| CREATED | STAGING | STAGED | AWAITING_APPROVAL | APPROVED | PUBLISHING | PUBLISHED
| REJECTED | CONFLICTED | FAILED | SUPERSEDED | ROLLED_BACK.

#[export] Instance change_state_eq_dec : EqDecision change_state.
Proof. solve_decision. Defined.

Definition TERMINAL_STATES : list change_state := [PUBLISHED; REJECTED; CONFLICTED; FAILED; SUPERSEDED; ROLLED_BACK].

(** The exceptions the store raises: the three of the repository interface, the two
    kinds of [ValueError], a violated constraint of the database, and any other. *)
Inductive custom_error :=
| ChangeSetNotFoundError | ChangeSetConflictError | InvalidTransitionError | IdempotencyReplayError
| ValueError | ToolRecordFieldError | IntegrityError | OtherError.

#[export] Instance custom_error_eq_dec : EqDecision custom_error.
Proof. solve_decision. Defined.

Abbreviation checked := (result custom_error).

(** ** Arguments *)

Definition require_nonempty (s : string) : checked string :=
  if bool_decide (strip s = ""%string) then Err ValueError else Ok s.

Definition require_bounded (s : string) (max_length : nat) : checked string :=
  v ← require_nonempty s; guard_or (String.length v <=? max_length)%nat ValueError;; Ok v.

(** [int(l, 16)] *)
Definition int16 (l : list ascii) : option Z :=
  match strip_by (int_space l) l with
  | [] => None
  | c :: r =>
      if bool_decide (c = "-"%char) then Z.opp <$> hex_value (drop_prefix_0x r) 0 false
      else if bool_decide (c = "+"%char) then hex_value (drop_prefix_0x r) 0 false
      else hex_value (drop_prefix_0x (c :: r)) 0 false
  end.

Definition require_sha (s : string) (length : nat) : checked string :=
  guard_or (bool_decide (String.length s = length)) ValueError;;
  from_opt (int16 (chars s)) ValueError;;
  guard_or (bool_decide (lower s = s)) ValueError;;
  Ok s.

Definition require_uuid (s : string) : checked string := from_opt (canonical_uuid s) ValueError.

(** ** Change sets *)

(** The columns a reservation writes once. *)
Record request := Request {
  rq_tenant : string; rq_key : string; rq_base : string; rq_release : string; rq_contract : string; rq_author : string;
  rq_kind : string; rq_tool : option string; rq_description : option string; rq_fingerprint : option string;
  rq_session : option string; rq_turn : option string; rq_graph : option string; rq_base_catalog : option string }.

#[export] Instance request_eq_dec : EqDecision request.
Proof. solve_decision. Defined.

(** The columns of the worker that stages the change. *)
Record stage := Stage {
  sg_attempt : Z; sg_owner : option string; sg_expires : option Z; sg_heartbeat : option Z; sg_next : Z;
  sg_error : option string; sg_message : option string; sg_retryable : bool; sg_phase : string }.

Record change_set := ChangeSet {
  cs_request : request; cs_state : change_state; cs_version : Z; cs_staged : option string; cs_digest : option string;
  cs_approver : option string; cs_fields : option string; cs_stage : stage; cs_created : Z }.

Record catalog := Catalog {
  ec_change_set : string; ec_commit : string; ec_digest : string; ec_release : string; ec_contract : string }.

#[export] Instance catalog_eq_dec : EqDecision catalog.
Proof. solve_decision. Defined.

Record event := Event {
  ev_tenant : string; ev_change_set : string; ev_prior : option change_state; ev_next : change_state; ev_author : string;
  ev_approver : option string; ev_base : string; ev_staged : option string; ev_digest : option string; ev_release : string;
  ev_contract : string; ev_key : string; ev_result : string; ev_reason : option string }.

(** ** Record fields *)

Definition GRAPH_INPUT_SOLAR_W1 : string := "solar-w1-graph".
Definition FIELDS_SCHEMA : string := "leaf.customization-record-fields.v1".

Definition validate_graph_input (s : string) : checked string :=
  if bool_decide (s = GRAPH_INPUT_SOLAR_W1) then Ok s else Err ToolRecordFieldError.

(** [bounded] of [canonicalize_catalog_record_fields] *)
Definition bounded_text (s : string) (maximum : nat) : bool :=
  (1 <=? String.length s)%nat && (String.length s <=? maximum)%nat && negb (bool_decide (strip s = ""%string)).

Definition text_field (d : list (string * json)) (k : string) (ok : string → bool) : bool :=
  match dict_get d k with Some (JStr s) => ok s | _ => false end.

Definition tool_entry_ok (name : string) (entry : json) : bool :=
  bounded_text name 64 &&
  match entry with
  | JObj e =>
      keys_are e ["version"; "record_sha256"; "graph_input"] &&
      text_field e "version" (λ s, bounded_text s 128) &&
      text_field e "record_sha256" intake_digest_ok &&
      text_field e "graph_input" (λ s, bool_decide (s = GRAPH_INPUT_SOLAR_W1))
  | _ => false
  end.

Definition record_fields_ok (v : json) : bool :=
  match v with
  | JObj d =>
      keys_are d ["schema"; "tools"] && text_field d "schema" (λ s, bool_decide (s = FIELDS_SCHEMA)) &&
      match dict_get d "tools" with
      | Some (JObj tools) => (length tools <=? 1024)%nat && forallb (λ kv, tool_entry_ok kv.1 kv.2) tools
      | _ => false
      end
  | _ => false
  end.

Definition canonicalize_catalog_record_fields (v : json) : checked string :=
  if record_fields_ok v then Ok (dumps (sort_keys v)) else Err ToolRecordFieldError.

Definition parse_catalog_record_fields_json (s : string) : checked json :=
  v ← from_opt (loads_strict s) ToolRecordFieldError;
  canonicalize_catalog_record_fields v;;
  Ok v.

(** The canonical text of a stored or offered snapshot. *)
Definition canonical_fields (o : option string) : checked (option string) :=
  match o with
  | None => Ok None
  | Some s => v ← parse_catalog_record_fields_json s; t ← canonicalize_catalog_record_fields v; Ok (Some t)
  end.

(** ** The database *)

Record confirmation := Confirmation {
  cf_tenant : option string; cf_change_set : option string; cf_payload : string; cf_signature : string; cf_consumed : bool }.

Record publication := Publication { pb_confirmation : option string; pb_status : string; pb_reason : option string }.

Record removal := Removal { rm_tool : string; rm_expected : string; rm_predecessor : catalog }.

Record snapshot := Snapshot { sn_payload : string; sn_digest : string; sn_release : string; sn_key : string }.

Record deployment := Deployment { dp_id : string; dp_snapshot : string; dp_action : string; dp_result : string; dp_key : string }.

Record cdb := Cdb {
  cd_rows : gmap string change_set; cd_catalogs : gmap string catalog; cd_events : list event;
  cd_confirmations : gmap string confirmation; cd_publications : gmap (string * string) publication;
  cd_removals : gmap (string * string) removal; cd_snapshots : gmap string snapshot; cd_deployments : list deployment;
  cd_claims : list ((string * Z) * string); cd_staged : list (string * (Z * string)); cd_prepared : list (string * string) }.

Abbreviation cx := (io cdb custom_error).

Definition reads {A} (f : cdb → A) : cx A := λ s, (Ok (f s), s).
Definition writes (f : cdb → cdb) : cx unit := λ s, (Ok tt, f s).
Definition require {A} (r : checked A) : cx A := lift r.
Definition ensure (b : bool) (e : custom_error) : cx unit := if b then mret tt else raise e.

Definition set_rows m s := Cdb m (cd_catalogs s) (cd_events s) (cd_confirmations s) (cd_publications s) (cd_removals s)
  (cd_snapshots s) (cd_deployments s) (cd_claims s) (cd_staged s) (cd_prepared s).
Definition set_row id x s := set_rows (<[id := x]> (cd_rows s)) s.
Definition set_catalogs m s := Cdb (cd_rows s) m (cd_events s) (cd_confirmations s) (cd_publications s) (cd_removals s)
  (cd_snapshots s) (cd_deployments s) (cd_claims s) (cd_staged s) (cd_prepared s).
Definition add_event e s := Cdb (cd_rows s) (cd_catalogs s) (cd_events s ++ [e]) (cd_confirmations s) (cd_publications s)
  (cd_removals s) (cd_snapshots s) (cd_deployments s) (cd_claims s) (cd_staged s) (cd_prepared s).
Definition set_confirmations m s := Cdb (cd_rows s) (cd_catalogs s) (cd_events s) m (cd_publications s) (cd_removals s)
  (cd_snapshots s) (cd_deployments s) (cd_claims s) (cd_staged s) (cd_prepared s).
Definition set_publication k p s := Cdb (cd_rows s) (cd_catalogs s) (cd_events s) (cd_confirmations s)
  (<[k := p]> (cd_publications s)) (cd_removals s) (cd_snapshots s) (cd_deployments s) (cd_claims s) (cd_staged s) (cd_prepared s).
Definition set_removal k r s := Cdb (cd_rows s) (cd_catalogs s) (cd_events s) (cd_confirmations s) (cd_publications s)
  (<[k := r]> (cd_removals s)) (cd_snapshots s) (cd_deployments s) (cd_claims s) (cd_staged s) (cd_prepared s).
Definition add_snapshot k x s := Cdb (cd_rows s) (cd_catalogs s) (cd_events s) (cd_confirmations s) (cd_publications s)
  (cd_removals s) (<[k := x]> (cd_snapshots s)) (cd_deployments s) (cd_claims s) (cd_staged s) (cd_prepared s).
Definition add_deployment d s := Cdb (cd_rows s) (cd_catalogs s) (cd_events s) (cd_confirmations s) (cd_publications s)
  (cd_removals s) (cd_snapshots s) (d :: cd_deployments s) (cd_claims s) (cd_staged s) (cd_prepared s).
Definition note_claim k owner s := Cdb (cd_rows s) (cd_catalogs s) (cd_events s) (cd_confirmations s) (cd_publications s)
  (cd_removals s) (cd_snapshots s) (cd_deployments s) ((k, owner) :: cd_claims s) (cd_staged s) (cd_prepared s).
Definition note_staged id n owner s := Cdb (cd_rows s) (cd_catalogs s) (cd_events s) (cd_confirmations s) (cd_publications s)
  (cd_removals s) (cd_snapshots s) (cd_deployments s) (cd_claims s) ((id, (n, owner)) :: cd_staged s) (cd_prepared s).
Definition note_prepared c id s := Cdb (cd_rows s) (cd_catalogs s) (cd_events s) (cd_confirmations s) (cd_publications s)
  (cd_removals s) (cd_snapshots s) (cd_deployments s) (cd_claims s) (cd_staged s) ((c, id) :: cd_prepared s).

Definition set_fields (f : option string) (x : change_set) : change_set :=
  ChangeSet (cs_request x) (cs_state x) (cs_version x) (cs_staged x) (cs_digest x) (cs_approver x) f (cs_stage x) (cs_created x).
Definition set_stage (g : stage) (x : change_set) : change_set :=
  ChangeSet (cs_request x) (cs_state x) (cs_version x) (cs_staged x) (cs_digest x) (cs_approver x) (cs_fields x) g (cs_created x).

(** ** Reading and moving a row *)

(** The stored snapshot is read through its validator. *)
Definition _change_set (x : change_set) : checked change_set := f ← canonical_fields (cs_fields x); Ok (set_fields f x).

(** SELECT ... WHERE tenant_id = ? AND change_set_id = ? *)
Definition row_of (tenant id : string) (s : cdb) : option change_set :=
  x ← cd_rows s !! id; if bool_decide (rq_tenant (cs_request x) = tenant) then Some x else None.

Definition _find_change_set (tenant id : string) : cx change_set :=
  o ← reads (row_of tenant id);
  x ← require (from_opt o ChangeSetNotFoundError);
  require (_change_set x).

Definition _effective_catalog (tenant : string) : cx catalog :=
  o ← reads (λ s, cd_catalogs s !! tenant); require (from_opt o ChangeSetNotFoundError).

Definition find_event (tenant key : string) (s : cdb) : option event :=
  List.find (λ e, bool_decide (ev_tenant e = tenant) && bool_decide (ev_key e = key)) (cd_events s).

Definition event_of (id : string) (x : change_set) (prior : option change_state) (next : change_state) (key : string)
    (reason : option string) : event :=
  Event (rq_tenant (cs_request x)) id prior next (rq_author (cs_request x)) (cs_approver x) (rq_base (cs_request x)) (cs_staged x)
        (cs_digest x) (rq_release (cs_request x)) (rq_contract (cs_request x)) key
        (if bool_decide (next = REJECTED) then "denied" else if bool_decide (next ∈ [CONFLICTED; FAILED; SUPERSEDED]) then "failed" else "ok")
        reason.

Definition _append_audit (id : string) (x : change_set) (prior : option change_state) (next : change_state) (key : string)
    (reason : option string) : cx unit :=
  taken ← reads (find_event (rq_tenant (cs_request x)) key);
  ensure (negb (bool_decide (is_Some taken))) IntegrityError;;
  writes (add_event (event_of id x prior next key reason)).

Definition _NEXT (st : change_state) : list change_state :=
  match st with
  | CREATED => [STAGING] | STAGING => [STAGED] | STAGED => [AWAITING_APPROVAL] | AWAITING_APPROVAL => [APPROVED]
  | APPROVED => [PUBLISHING] | PUBLISHING => [PUBLISHED; SUPERSEDED] | PUBLISHED => [ROLLED_BACK] | _ => []
  end.

Definition may_move (from to : change_state) : bool :=
  bool_decide (to ∈ _NEXT from) ||
  (negb (bool_decide (from ∈ TERMINAL_STATES)) && bool_decide (to ∈ TERMINAL_STATES) && negb (bool_decide (to = ROLLED_BACK))).

Definition coalesce {A} (new old : option A) : option A := match new with Some _ => new | None => old end.

Definition moved (next : change_state) (staged digest approver : option string) (x : change_set) : change_set :=
  ChangeSet (cs_request x) next (cs_version x + 1) (coalesce staged (cs_staged x)) (coalesce digest (cs_digest x))
            (coalesce approver (cs_approver x)) (cs_fields x) (cs_stage x) (cs_created x).

(** What a caller of [_transition_row] may give besides the move. *)
Record extras := Extras { xt_expected : option change_state; xt_approver : option string; xt_reason : option string;
  xt_staged : option string; xt_digest : option string }.

Definition no_extras : extras := Extras None None None None None.
Definition from_state (st : change_state) : extras := Extras (Some st) None None None None.

Definition blank_text (o : option string) : bool := match o with Some s => bool_decide (s = ""%string) | None => true end.

Definition bounded_or_none (o : option string) (n : nat) : checked (option string) :=
  match o with Some s => v ← require_bounded s n; Ok (Some v) | None => Ok None end.

Definition _transition_row (id : string) (row : change_set) (next : change_state) (expected_version : Z) (key : string) (x : extras)
  : cx change_set :=
  let tenant := rq_tenant (cs_request row) in
  require (require_bounded key 200);;
  require (bounded_or_none (xt_reason x) 200);;
  existing ← reads (find_event tenant key);
  match existing with
  | Some e =>
      if bool_decide (ev_change_set e = id) && bool_decide (ev_next e = next) then _find_change_set tenant id
      else raise IdempotencyReplayError
  | None =>
      ensure (cs_version row =? expected_version) ChangeSetConflictError;;
      ensure (match xt_expected x with Some st => bool_decide (cs_state row = st) | None => true end) ChangeSetConflictError;;
      ensure (may_move (cs_state row) next) InvalidTransitionError;;
      ensure (negb (bool_decide (next = APPROVED) && blank_text (xt_approver x))) ValueError;;
      require (bounded_or_none (xt_approver x) 300);;
      ensure (negb (bool_decide (next = APPROVED) && bool_decide (xt_approver x = Some (rq_author (cs_request row))))) ChangeSetConflictError;;
      o ← reads (row_of tenant id);
      match o with
      | Some cur =>
          if cs_version cur =? expected_version then
            writes (set_row id (moved next (xt_staged x) (xt_digest x) (xt_approver x) cur));;
            result ← _find_change_set tenant id;
            _append_audit id result (Some (cs_state row)) next key (xt_reason x);;
            mret result
          else raise ChangeSetConflictError
      | None => raise ChangeSetConflictError
      end
  end.

(** ** Reservations *)

Definition fresh_stage : stage := Stage 0 None None None 0 None None false "queued".

Definition valid_request (rq : request) : checked unit :=
  require_bounded (rq_tenant rq) 200;; require_bounded (rq_key rq) 200;; require_sha (rq_base rq) 40;;
  require_sha (rq_contract rq) 64;; require_bounded (rq_release rq) 200;; require_bounded (rq_author rq) 300;; Ok tt.

Definition valid_kind (rq : request) : checked unit :=
  if bool_decide (rq_kind rq = "create"%string) then guard_or (bool_decide (rq_tool rq = None)) ValueError
  else if bool_decide (rq_kind rq = "revise"%string) then require_bounded (default ""%string (rq_tool rq)) 64;; Ok tt
  else Err ValueError.

(** The change set that holds an idempotency key. *)
Definition by_key (tenant key : string) (s : cdb) : option (string * change_set) :=
  head (List.filter (λ kx : string * change_set, bool_decide (rq_tenant (cs_request kx.2) = tenant) && bool_decide (rq_key (cs_request kx.2) = key))
    (map_to_list (cd_rows s))).

Definition check_predecessor (rq : request) (id : string) : cx unit :=
  match rq_base_catalog rq with
  | None => mret tt
  | Some p =>
      pid ← require (require_uuid p);
      ensure (negb (bool_decide (pid = id))) ChangeSetConflictError;;
      pred ← _find_change_set (rq_tenant rq) pid;
      ensure (bool_decide (cs_staged pred = Some (rq_base rq)) && bool_decide (cs_state pred ∈ [PUBLISHED; ROLLED_BACK])) ChangeSetConflictError
  end.

(** The transaction of [_reserve_change_set]; [now] is what [created_at] defaults to *)
Definition reserve_row (rq : request) (id : string) (now : Z) : cx (string * change_set * bool) :=
  existing ← reads (by_key (rq_tenant rq) (rq_key rq));
  match existing with
  | Some (old, x) =>
      row ← require (_change_set x);
      ensure (bool_decide (cs_request row = rq)) IdempotencyReplayError;;
      mret (old, row, false)
  | None =>
      require (match rq_graph rq with Some g => validate_graph_input g;; Ok tt | None => Ok tt end);;
      check_predecessor rq id;;
      taken ← reads (λ s, bool_decide (is_Some (cd_rows s !! id)));
      ensure (negb taken) IntegrityError;;
      writes (set_row id (ChangeSet rq CREATED 0 None None None None fresh_stage now));;
      row ← _find_change_set (rq_tenant rq) id;
      _append_audit id row None CREATED (rq_key rq) None;;
      mret (id, row, true)
  end.

(** [drawn] is the identifier the caller gave, or a fresh one *)
Definition _reserve_change_set (rq : request) (drawn : string) (now : Z) : cx (string * change_set * bool) :=
  require (valid_request rq);;
  id ← require (require_uuid drawn);
  require (valid_kind rq);;
  atomically (reserve_row rq id now).

Definition create_change_set (rq : request) (drawn : string) (now : Z) : cx (string * change_set * bool) :=
  _reserve_change_set (Request (rq_tenant rq) (rq_key rq) (rq_base rq) (rq_release rq) (rq_contract rq) (rq_author rq) (rq_kind rq)
    (rq_tool rq) None None (rq_session rq) (rq_turn rq) (rq_graph rq) (rq_base_catalog rq)) drawn now.

Definition reserve_stage (rq : request) (drawn : string) (now : Z) : cx (string * change_set * bool) :=
  require (require_bounded (default ""%string (rq_description rq)) (8 * 1000));;
  require (require_sha (default ""%string (rq_fingerprint rq)) 64);;
  _reserve_change_set rq drawn now.

(** ** Staging *)

Definition free_lease (g : stage) (now : Z) : bool :=
  match sg_owner g, sg_expires g with None, _ => true | Some _, Some e => e <=? now | Some _, None => false end.

Definition claimable (s : cdb) (now : Z) (kx : string * change_set) : bool :=
  bool_decide (cs_state kx.2 = STAGING) && (sg_next (cs_stage kx.2) <=? now) && free_lease (cs_stage kx.2) now &&
  bool_decide (cd_removals s !! (rq_tenant (cs_request kx.2), kx.1) = None).

(** ORDER BY created_at, change_set_id LIMIT 1 *)
Definition before (a b : string * change_set) : bool :=
  (cs_created a.2 <? cs_created b.2) || ((cs_created a.2 =? cs_created b.2) && bool_decide (String.le a.1 b.1)).
Definition oldest (l : list (string * change_set)) : option (string * change_set) :=
  foldr (λ a best, match best with None => Some a | Some b => Some (if before a b then a else b) end) None l.

Definition claimed (g : stage) (owner : string) (expires now : Z) : stage :=
  Stage (sg_attempt g + 1) (Some owner) (Some expires) (Some now) (sg_next g) None None false "authoring".

Definition claim_stage (owner : string) (lease now : Z) : cx (option (string * change_set)) :=
  require (require_bounded owner 300);;
  ensure (0 <? lease) ValueError;;
  atomically (
    c ← reads (λ s, oldest (List.filter (claimable s now) (map_to_list (cd_rows s))));
    match c with
    | None => mret None
    | Some (id, x) =>
        writes (set_row id (set_stage (claimed (cs_stage x) owner (now + lease) now) x));;
        writes (note_claim (id, sg_attempt (cs_stage x) + 1) owner);;
        row ← _find_change_set (rq_tenant (cs_request x)) id;
        mret (Some (id, row))
    end).

Definition held_by (owner : string) (g : stage) : bool := bool_decide (sg_owner g = Some owner).

(** UPDATE ... SET the stage columns WHERE the row is [tenant]'s and [ok] *)
Definition update_stage (tenant id : string) (ok : change_set → bool) (f : stage → stage) : cx bool :=
  o ← reads (row_of tenant id);
  match o with
  | Some x => if ok x then writes (set_row id (set_stage (f (cs_stage x)) x));; mret true else mret false
  | None => mret false
  end.

Definition heartbeat_stage (tenant id owner : string) (lease now : Z) : cx bool :=
  atomically (update_stage tenant id
    (λ x, bool_decide (cs_state x = STAGING) && held_by owner (cs_stage x) &&
          match sg_expires (cs_stage x) with Some e => now <? e | None => false end)
    (λ g, Stage (sg_attempt g) (sg_owner g) (Some (now + lease)) (Some now) (sg_next g) (sg_error g) (sg_message g) (sg_retryable g) (sg_phase g))).

Definition released (phase : string) (g : stage) : stage :=
  Stage (sg_attempt g) None None (sg_heartbeat g) (sg_next g) (sg_error g) (sg_message g) (sg_retryable g) phase.

Definition complete_stage_claim (tenant id owner : string) : cx bool :=
  atomically (update_stage tenant id (λ x, bool_decide (cs_state x = STAGED) && held_by owner (cs_stage x)) (released "staged")).

Definition defer_stage_claim (tenant id owner reason : string) (delay now : Z) : cx bool :=
  require (require_bounded reason 200);;
  atomically (update_stage tenant id (λ x, bool_decide (cs_state x = STAGING) && held_by owner (cs_stage x))
    (λ g, Stage (sg_attempt g) None None (sg_heartbeat g) (now + Z.max delay 0) (Some reason) (sg_message g) true "queued")).

Definition failed_key (x : change_set) : string :=
  "stage-failed:" +:+ rq_key (cs_request x) +:+ ":" +:+ of_chars (print_Z (sg_attempt (cs_stage x))).

Definition fail_stage_claim (tenant id owner reason : string) (retryable : bool) (message : option string) : cx (option change_set) :=
  require (require_bounded reason 200);;
  require (bounded_or_none message 500);;
  atomically (
    row ← _find_change_set tenant id;
    if negb (bool_decide (cs_state row = STAGING) && held_by owner (cs_stage row)) then mret None else
    _transition_row id row FAILED (cs_version row) (failed_key row) (Extras (Some STAGING) None (Some reason) None None);;
    update_stage tenant id (λ _, true)
      (λ g, Stage (sg_attempt g) None None (sg_heartbeat g) (sg_next g) (Some reason) message retryable "failed");;
    r ← _find_change_set tenant id; mret (Some r)).

(** [transition]: staging with metadata goes through [record_staged] *)
Definition transition (tenant id : string) (next : change_state) (expected_version : Z) (key : string) (x : extras) : cx change_set :=
  row ← (if bool_decide (next = STAGED) then r ← _find_change_set tenant id; mret (Some r) else mret None);
  ensure (match row with Some r => bool_decide (rq_graph (cs_request r) = None) && bool_decide (rq_base_catalog (cs_request r) = None) | None => true end)
    InvalidTransitionError;;
  atomically (
    row ← _find_change_set tenant id;
    _transition_row id row next expected_version key
      (Extras (xt_expected x) (if blank_text (xt_approver x) then None else xt_approver x)
              (if blank_text (xt_reason x) then None else xt_reason x) None None)).

(** What a worker or the harness reports as staged. *)
Record staging := Staging {
  sr_commit : string; sr_digest : string; sr_release : string; sr_contract : string; sr_worker : option (string * Z); sr_fields : option string }.

Definition valid_staging (r : staging) : checked unit :=
  require_sha (sr_commit r) 40;; require_sha (sr_digest r) 64;; require_bounded (sr_release r) 200;; require_sha (sr_contract r) 64;; Ok tt.

Definition has_metadata (row : change_set) (r : staging) : bool :=
  bool_decide (is_Some (rq_graph (cs_request row))) || bool_decide (is_Some (rq_base_catalog (cs_request row))) ||
  bool_decide (is_Some (cs_fields row)) || bool_decide (is_Some (sr_fields r)).

(** The replay of a completed staging: the same report of the same generation. *)
Definition same_report (id : string) (row : change_set) (e : event) (r : staging) : bool :=
  bool_decide (ev_change_set e = id) && bool_decide (ev_next e = STAGED) &&
  match canonical_fields (sr_fields r) with Ok f => bool_decide (cs_fields row = f) | Err _ => false end &&
  bool_decide (ev_staged e = Some (sr_commit r)) && bool_decide (ev_digest e = Some (sr_digest r)) &&
  bool_decide (ev_release e = sr_release r) && bool_decide (ev_contract e = sr_contract r).

Definition current_generation (row : change_set) (w : option (string * Z)) (now : Z) : bool :=
  match w with
  | None => true
  | Some (owner, n) =>
      held_by owner (cs_stage row) && (sg_attempt (cs_stage row) =? n) && (now <? default 0 (sg_expires (cs_stage row)))
  end.

(** The first completion. *)
Definition complete_staging (tenant id : string) (row : change_set) (expected_version : Z) (key : string) (r : staging) (now : Z)
  : cx change_set :=
  let metadata := has_metadata row r in
  f ← require (canonical_fields (sr_fields r));
  ensure (negb (metadata && (bool_decide (is_Some (rq_graph (cs_request row))) || bool_decide (is_Some (rq_base_catalog (cs_request row)))) &&
                bool_decide (f = None))) ChangeSetConflictError;;
  ensure (current_generation row (sr_worker r) now) ChangeSetConflictError;;
  ensure (bool_decide (rq_contract (cs_request row) = sr_contract r)) ChangeSetConflictError;;
  ensure (bool_decide (rq_release (cs_request row) = sr_release r)) ChangeSetConflictError;;
  (if metadata then
     o ← reads (row_of tenant id);
     match o with Some x => writes (set_row id (set_fields f x)) | None => mret tt end
   else mret tt);;
  before ← reads (find_event tenant key);
  _transition_row id row STAGED expected_version key (Extras None None None (Some (sr_commit r)) (Some (sr_digest r)));;
  match before, sr_worker r with None, Some (owner, n) => writes (note_staged id n owner) | _, _ => mret tt end;;
  update_stage tenant id (λ _, true) (released "staged");;
  _find_change_set tenant id.

Definition record_staged (tenant id : string) (expected_version : Z) (key : string) (r : staging) (now : Z) : cx change_set :=
  ensure (negb (bool_decide (sr_fields r = None) && negb (is_ok (valid_staging r)))) ValueError;;
  atomically (
    o ← reads (row_of tenant id);
    match o with
    | None => raise (if is_ok (valid_staging r) then ChangeSetNotFoundError else ValueError)
    | Some x =>
        row ← require (_change_set x);
        if negb (has_metadata row r) then
          require (valid_staging r);; complete_staging tenant id row expected_version key r now
        else
          existing ← reads (find_event tenant key);
          match existing with
          | Some e =>
              ensure (same_report id row e r) IdempotencyReplayError;;
              ensure (match sr_worker r with Some (_, n) => sg_attempt (cs_stage row) =? n | None => true end) ChangeSetConflictError;;
              mret row
          | None =>
              ensure (bool_decide (cs_state row = STAGING)) ChangeSetConflictError;;
              require (valid_staging r);; complete_staging tenant id row expected_version key r now
          end
    end).

(** ** Publication *)

(** The pointer a published row stands for. *)
Definition catalog_of (id : string) (x : change_set) : option catalog :=
  match cs_staged x, cs_digest x with
  | Some c, Some d => if bool_decide (c = ""%string) || bool_decide (d = ""%string) then None
                      else Some (Catalog id c d (rq_release (cs_request x)) (rq_contract (cs_request x)))
  | _, _ => None
  end.

Definition set_catalog (tenant : string) (c : catalog) (s : cdb) : cdb := set_catalogs (<[tenant := c]> (cd_catalogs s)) s.

(** The predecessor a removal was bound to is still effective. *)
Definition verify_bound (tenant id : string) : cx unit :=
  o ← reads (λ s, cd_removals s !! (tenant, id));
  match o with
  | None => mret tt
  | Some r => current ← _effective_catalog tenant; ensure (bool_decide (current = rm_predecessor r)) ChangeSetConflictError
  end.

Definition publish (tenant id : string) (expected_version : Z) (key : string) (approver : option string) : cx catalog :=
  atomically (
    row ← _find_change_set tenant id;
    verify_bound tenant id;;
    published ← _transition_row id row PUBLISHED expected_version key (Extras None approver None None None);
    c ← require (from_opt (catalog_of id published) ChangeSetConflictError);
    writes (set_catalog tenant c);;
    _effective_catalog tenant).

Definition bind_removal_request (tenant id tool expected : string) : cx removal :=
  require (require_bounded tool 64);;
  require (require_sha expected 64);;
  atomically (
    change ← _find_change_set tenant id;
    current ← _effective_catalog tenant;
    ensure (bool_decide (ec_digest current = expected)) ChangeSetConflictError;;
    ensure (bool_decide (rq_base (cs_request change) = ec_commit current)) ChangeSetConflictError;;
    let r := Removal tool expected current in
    existing ← reads (λ s, cd_removals s !! (tenant, id));
    match existing with
    | Some o => ensure (bool_decide (rm_tool o = tool) && bool_decide (rm_expected o = expected) && bool_decide (rm_predecessor o = current))
                  IdempotencyReplayError;; mret r
    | None => writes (set_removal (tenant, id) r);; mret r
    end).

Definition verify_removal_predecessor (tenant id : string) : cx unit := atomically (verify_bound tenant id).

Definition text_of (v : option json) : option string := match v with Some (JStr s) => Some s | _ => None end.

Definition put_confirmation (cid : string) (payload : list (string * json)) (signature : string) : cx unit :=
  atomically (
    taken ← reads (λ s, bool_decide (is_Some (cd_confirmations s !! cid)));
    ensure (negb taken) IdempotencyReplayError;;
    writes (λ s, set_confirmations (<[cid := Confirmation (text_of (dict_get payload "tenant_id")) (text_of (dict_get payload "change_set_id"))
                                       (dumps (sort_keys (JObj payload))) signature false]> (cd_confirmations s)) s)).

(** A confirmation whose payload cannot be read counts as absent. *)
Definition get_confirmation (cid : string) : cx (option (json * string * bool)) :=
  reads (λ s, c ← cd_confirmations s !! cid; p ← loads (cf_payload c); Some (p, cf_signature c, cf_consumed c)).

Definition consumed (c : confirmation) : confirmation :=
  Confirmation (cf_tenant c) (cf_change_set c) (cf_payload c) (cf_signature c) true.

(** UPDATE ... SET consumed = 1 WHERE confirmation_id = ? AND signature = ? AND consumed = 0 *)
Definition consume_row (cid signature : string) : cx bool :=
  o ← reads (λ s, cd_confirmations s !! cid);
  match o with
  | Some c => if bool_decide (cf_signature c = signature) && negb (cf_consumed c)
              then writes (λ s, set_confirmations (<[cid := consumed c]> (cd_confirmations s)) s);; mret true else mret false
  | None => mret false
  end.

Definition consume_confirmation (cid signature : string) : cx bool := atomically (consume_row cid signature).

Definition get_or_create_publication_request (tenant id : string) : cx publication :=
  require (require_bounded tenant 200);;
  id ← require (require_uuid id);
  atomically (
    _find_change_set tenant id;;
    o ← reads (λ s, cd_publications s !! (tenant, id));
    match o with
    | Some p => mret p
    | None => let p := Publication None "awaiting_approval" None in writes (set_publication (tenant, id) p);; mret p
    end).

Definition bind_publication_confirmation (tenant id cid : string) : cx publication :=
  require (require_bounded tenant 200);;
  id ← require (require_uuid id);
  require (require_bounded cid 200);;
  atomically (
    change ← _find_change_set tenant id;
    o ← reads (λ s, cd_publications s !! (tenant, id));
    p ← require (from_opt o ChangeSetNotFoundError);
    ensure (bool_decide (pb_confirmation p ∈ [None; Some cid]) || bool_decide (cs_state change = STAGED)) ChangeSetConflictError;;
    c ← reads (λ s, cd_confirmations s !! cid);
    ensure (match c with Some c => bool_decide (cf_tenant c = Some tenant) && bool_decide (cf_change_set c = Some id) | None => false end)
      ChangeSetConflictError;;
    let p' := Publication (Some cid) "awaiting_approval" None in
    writes (set_publication (tenant, id) p');; mret p').

(** Every unspent confirmation of the change set is spent. *)
Definition spend_all (tenant id : string) (s : cdb) : cdb :=
  set_confirmations ((λ c, if bool_decide (cf_tenant c = Some tenant) && bool_decide (cf_change_set c = Some id) then consumed c else c) <$>
    cd_confirmations s) s.

Definition deny_publication_request (tenant id reason : string) : cx publication :=
  require (require_bounded tenant 200);;
  id ← require (require_uuid id);
  require (require_bounded reason 200);;
  atomically (
    _find_change_set tenant id;;
    writes (spend_all tenant id);;
    o ← reads (λ s, cd_publications s !! (tenant, id));
    p ← require (from_opt o ChangeSetNotFoundError);
    let p' := Publication (pb_confirmation p) "denied" (Some reason) in
    writes (set_publication (tenant, id) p');; mret p').

Definition other_publish (tenant id : string) (s : cdb) : bool :=
  existsb (λ kx : string * change_set,
    bool_decide (rq_tenant (cs_request kx.2) = tenant) && bool_decide (cs_state kx.2 = PUBLISHING) && negb (bool_decide (kx.1 = id)))
    (map_to_list (cd_rows s)).

(** A repeated preparation of the same approval. *)
Definition prepared_before (tenant id cid signature approver key : string) (row : change_set) : cx change_set :=
  c ← reads (λ s, cd_confirmations s !! cid);
  replay ← reads (λ s, existsb (λ e, bool_decide (ev_tenant e = tenant) && bool_decide (ev_change_set e = id) &&
                                      bool_decide (ev_key e = ("publishing:" +:+ key)) && bool_decide (ev_next e = PUBLISHING)) (cd_events s));
  if match c with Some c => cf_consumed c && bool_decide (cf_signature c = signature) | None => false end &&
     bool_decide (cs_approver row = Some approver) && replay
  then mret row else raise ChangeSetConflictError.

Definition prepare_publish (tenant id cid signature approver key : string) : cx change_set :=
  atomically (
    row ← _find_change_set tenant id;
    if bool_decide (cs_state row = PUBLISHING) then prepared_before tenant id cid signature approver key row else
    ensure (bool_decide (cs_state row = STAGED)) ChangeSetConflictError;;
    other ← reads (other_publish tenant id);
    ensure (negb other) ChangeSetConflictError;;
    spent ← consume_row cid signature;
    ensure spent IdempotencyReplayError;;
    writes (note_prepared cid id);;
    awaiting ← _transition_row id row AWAITING_APPROVAL (cs_version row) ("awaiting:" +:+ key) (from_state STAGED);
    approved ← _transition_row id awaiting APPROVED (cs_version awaiting) ("approved:" +:+ key)
                 (Extras (Some AWAITING_APPROVAL) (Some approver) None None None);
    _transition_row id approved PUBLISHING (cs_version approved) ("publishing:" +:+ key) (from_state APPROVED)).

Definition supersede_publish (tenant id : string) (expected_version : Z) (key reason : string) : cx change_set :=
  atomically (
    row ← _find_change_set tenant id;
    _transition_row id row SUPERSEDED expected_version ("superseded:" +:+ key) (Extras (Some PUBLISHING) None (Some reason) None None)).

(** ** Deployment snapshots and rollback *)

Definition catalog_json (kc : string * catalog) : json :=
  JObj [("tenant_id", JStr kc.1); ("change_set_id", JStr (ec_change_set kc.2)); ("catalog_commit", JStr (ec_commit kc.2));
        ("catalog_digest", JStr (ec_digest kc.2)); ("effective_platform_release", JStr (ec_release kc.2));
        ("workspace_contract_digest", JStr (ec_contract kc.2))].

Definition tenant_le (a b : string * catalog) : Prop := String.le a.1 b.1.
#[export] Instance tenant_le_dec : RelDecision tenant_le.
Proof. intros a b. unfold tenant_le. apply _. Defined.

(** SELECT ... FROM effective_catalogs ORDER BY tenant_id, as canonical JSON *)
Definition catalogs_text (m : gmap string catalog) : string :=
  dumps (JArr ((λ kc, sort_keys (catalog_json kc)) <$> merge_sort tenant_le (map_to_list m))).

(** CHECK (action IN ...) *)
Definition DEPLOYMENT_ACTIONS : list string := ["snapshot"; "verify"; "restore"; "restore_verify"].

Section deployments.
Context `{Runtime}.

Definition _catalog_snapshot (m : gmap string catalog) : string * string := (catalogs_text m, sha256_hex (catalogs_text m)).

(** [drawn] is the fresh identifier of the record *)
Definition _deployment_audit (drawn snapshot_id action result key : string) : cx string :=
  old ← reads (λ s, List.find (λ d, bool_decide (dp_key d = key)) (cd_deployments s));
  match old with
  | Some d =>
      ensure (bool_decide (dp_snapshot d = snapshot_id) && bool_decide (dp_action d = action) && bool_decide (dp_result d = result))
        IdempotencyReplayError;;
      mret (dp_id d)
  | None =>
      ensure (bool_decide (action ∈ DEPLOYMENT_ACTIONS) && bool_decide (result ∈ ["ok"%string; "failed"%string])) IntegrityError;;
      writes (add_deployment (Deployment drawn snapshot_id action result key));; mret drawn
  end.

Definition snapshot_by_key (key : string) (s : cdb) : option (string * snapshot) :=
  head (List.filter (λ kx : string * snapshot, bool_decide (sn_key kx.2 = key)) (map_to_list (cd_snapshots s))).

Definition capture_deployment_snapshot (drawn drawn_audit release key : string) : cx (string * snapshot * string) :=
  atomically (
    old ← reads (snapshot_by_key key);
    kx ← match old with
         | Some kx => mret kx
         | None =>
             taken ← reads (λ s, bool_decide (is_Some (cd_snapshots s !! drawn)));
             ensure (negb taken) IntegrityError;;
             td ← reads (λ s, _catalog_snapshot (cd_catalogs s));
             let x := Snapshot td.1 td.2 release key in
             writes (add_snapshot drawn x);; mret (drawn, x)
         end;
    audit ← _deployment_audit drawn_audit kx.1 "snapshot" "ok" ("audit:" +:+ key);
    mret (kx.1, kx.2, audit)).

Definition verify_deployment_snapshot (drawn snapshot_id action key : string) : cx (bool * string) :=
  atomically (
    o ← reads (λ s, cd_snapshots s !! snapshot_id);
    x ← require (from_opt o ChangeSetNotFoundError);
    td ← reads (λ s, _catalog_snapshot (cd_catalogs s));
    let ok := bool_decide (td.2 = sn_digest x) in
    audit ← _deployment_audit drawn snapshot_id action (if ok then "ok" else "failed") key;
    mret (ok, audit)).

Definition catalog_of_json (v : json) : option (string * catalog) :=
  match v with
  | JObj d =>
      t ← text_of (dict_get d "tenant_id"); i ← text_of (dict_get d "change_set_id"); c ← text_of (dict_get d "catalog_commit");
      g ← text_of (dict_get d "catalog_digest"); r ← text_of (dict_get d "effective_platform_release");
      w ← text_of (dict_get d "workspace_contract_digest"); Some (t, Catalog i c g r w)
  | _ => None
  end.

(** The rows a snapshot puts back. *)
Definition snapshot_rows (payload : string) : option (list (string * catalog)) :=
  v ← loads payload;
  match v with
  | JArr items => mapM catalog_of_json items
  | _ => None
  end.

Definition restore_deployment_snapshot (drawn snapshot_id key : string) : cx (string * string) :=
  atomically (
    o ← reads (λ s, cd_snapshots s !! snapshot_id);
    x ← require (from_opt o ChangeSetNotFoundError);
    l ← require (from_opt (snapshot_rows (sn_payload x)) OtherError);
    known ← reads (λ s, forallb (λ kc : string * catalog, bool_decide (is_Some (cd_rows s !! ec_change_set kc.2))) l);
    ensure (known && bool_decide (NoDup l.*1)) IntegrityError;;
    writes (set_catalogs (list_to_map l));;
    td ← reads (λ s, _catalog_snapshot (cd_catalogs s));
    ensure (bool_decide (td.2 = sn_digest x)) ChangeSetConflictError;;
    audit ← _deployment_audit drawn snapshot_id "restore" "ok" key;
    mret (sn_release x, audit)).
End deployments.

Definition restore_effective_catalog (tenant target prior key : string) : cx catalog :=
  atomically (
    existing ← reads (find_event tenant key);
    match existing with
    | Some e => if bool_decide (ev_next e = ROLLED_BACK) then _effective_catalog tenant else raise IdempotencyReplayError
    | None =>
        t ← _find_change_set tenant target;
        c ← require (if bool_decide (cs_state t = PUBLISHED) then from_opt (catalog_of target t) ChangeSetConflictError
                     else Err ChangeSetConflictError);
        p ← _find_change_set tenant prior;
        writes (set_catalog tenant c);;
        _append_audit prior p (Some (cs_state p)) ROLLED_BACK key (Some "effective_catalog_restored"%string);;
        _effective_catalog tenant
    end).
