(* ===== verification/CustomPublish.v ===== *)
(** * Customization: approvals and the publication of a change set

    [server/customization_authority.py]: a confirmation of one staged change, signed,
    expiring and spent once.  [_publish] of [server/customization_service.py]: the
    handler that takes a staged change set to publication, with other requests between
    its store calls.

    The HMAC of a text is a parameter.  What the checks of the rollout, the caller's
    role and the git repositories answer, and the harness, are the fields of [surroundings]: they
    refuse or let through. *)

From Stdlib Require Import Ascii.
From S2P Require Import Prelude PyText Json IsoTime AgentCalls ProjectContext Concurrent CustomStore.
Local Open Scope Z_scope.

Inductive service_error := ServiceError (code_ : string) | AuthorityError (reason : string) | StoreError (e : custom_error).

#[export] Instance service_error_eq_dec : EqDecision service_error.
Proof. solve_decision. Defined.

Abbreviation answer := (result service_error).

Class Signer := { sign : string → string }.

(** ** The authority *)

Record binding := Binding { bn_tenant : option string; bn_subject : option string; bn_role : option string; bn_verified : bool }.
Record staff := Staff { sf_subject : option string; sf_operator : bool; sf_verified : bool }.
Record builder := Builder { bd_tenant : option string; bd_subject : option string; bd_enabled : bool; bd_verified : bool }.

Record staged_change := StagedChange {
  sc_tenant : string; sc_change_set : string; sc_commit : string; sc_digest : string; sc_release : string; sc_contract : string;
  sc_author : string; sc_high_impact : bool }.

Record publish_request := PublishRequest {
  pq_change_set : string; pq_commit : string; pq_digest : string; pq_release : string; pq_contract : string }.

Definition TENANT_ROLES : list string := ["owner"; "editor"; "reviewer"; "read_only"].
Definition _STAGE_ROLES : list string := ["owner"; "editor"].
Definition _APPROVAL_ROLES : list string := ["owner"; "reviewer"].

Definition deny {A} (b : bool) (reason : string) (k : answer A) : answer A := if b then k else Err (AuthorityError reason).

Definition _required_text (v : option string) (name : string) (maximum : nat) : answer string :=
  match v with
  | Some s => if negb (bool_decide (strip s = ""%string)) && (String.length s <=? maximum)%nat then Ok s else Err (AuthorityError (name +:+ "_missing"))
  | None => Err (AuthorityError (name +:+ "_missing"))
  end.

Definition _hex (s : string) (length : nat) (name : string) : answer string :=
  if bool_decide (String.length s = length) && bool_decide (lower s = s) && bool_decide (is_Some (int16 (chars s))) then Ok s
  else Err (AuthorityError (name +:+ "_invalid")).

Definition valid_uuid (s : string) : answer string :=
  if bool_decide (canonical_uuid s = Some (lower s)) then Ok s else Err (AuthorityError "change_set_id_invalid").

Definition _verified_binding (b : binding) : answer (string * string * string) :=
  deny (bn_verified b) "tenant_binding_unverified" (
  t ← _required_text (bn_tenant b) "tenant_id" 200;
  u ← _required_text (bn_subject b) "subject" 300;
  match bn_role b with
  | Some r => deny (bool_decide (r ∈ TENANT_ROLES)) "tenant_role_invalid" (Ok (t, u, r))
  | None => Err (AuthorityError "tenant_role_invalid")
  end).

Definition authorize_stage (b : binding) (e : builder) : answer (string * string) :=
  tur ← _verified_binding b;
  let '(t, u, r) := tur in
  deny (bool_decide (r ∈ _STAGE_ROLES)) "stage_role_denied" (
  deny (bd_verified e && bd_enabled e) "builder_entitlement_missing" (
  deny (bool_decide (bd_tenant e = Some t) && bool_decide (bd_subject e = Some u)) "builder_entitlement_mismatch" (Ok (t, u)))).

Definition _validated_staged_change (c : staged_change) : answer unit :=
  _required_text (Some (sc_tenant c)) "tenant_id" 200;; valid_uuid (sc_change_set c);; _hex (sc_commit c) 40 "staged_commit";;
  _hex (sc_digest c) 64 "catalog_digest";; _required_text (Some (sc_release c)) "platform_release" 200;;
  _hex (sc_contract c) 64 "workspace_contract_digest";; _required_text (Some (sc_author c)) "author_subject" 300;; Ok tt.

Definition _validated_request (q : publish_request) : answer unit :=
  valid_uuid (pq_change_set q);; _hex (pq_commit q) 40 "staged_commit";; _hex (pq_digest q) 64 "catalog_digest";;
  _required_text (Some (pq_release q)) "platform_release" 200;; _hex (pq_contract q) 64 "workspace_contract_digest";; Ok tt.

Definition _authorize_approver (tenant : string) (approver : option binding) (by_staff : option staff) : answer string :=
  match approver, by_staff with
  | Some b, None =>
      tur ← _verified_binding b;
      let '(t, u, r) := tur in
      deny (bool_decide (t = tenant)) "approver_cross_tenant" (deny (bool_decide (r ∈ _APPROVAL_ROLES)) "approver_role_denied" (Ok u))
  | None, Some f => deny (sf_verified f && sf_operator f) "staff_authority_missing" (_required_text (sf_subject f) "staff_subject" 300)
  | _, _ => Err (AuthorityError "approver_authority_missing")
  end.

(** The payload a confirmation signs. *)
Definition confirmation_payload (cid : string) (c : staged_change) (approver : string) (expires : instant) : list (string * json) :=
  [("confirmation_id", JStr cid); ("tenant_id", JStr (sc_tenant c)); ("change_set_id", JStr (sc_change_set c));
   ("staged_commit", JStr (sc_commit c)); ("catalog_digest", JStr (sc_digest c)); ("platform_release", JStr (sc_release c));
   ("workspace_contract_digest", JStr (sc_contract c)); ("author_subject", JStr (sc_author c)); ("approver_subject", JStr approver);
   ("expires_at", JStr (isoformat expires))].

Section authority.
Context `{Signer}.

Definition _canonical_payload (payload : json) : string := dumps (sort_keys payload).

(** Who may approve, and what is signed. *)
Definition approve (c : staged_change) (author : binding) (approver : option binding) (by_staff : option staff) : answer string :=
  _validated_staged_change c;;
  tur ← _verified_binding author;
  let '(t, u, _) := tur in
  deny (bool_decide (t = sc_tenant c) && bool_decide (u = sc_author c)) "author_binding_mismatch" (
  a ← _authorize_approver (sc_tenant c) approver by_staff;
  deny (negb (sc_high_impact c && bool_decide (u = a))) "high_impact_self_approval" (Ok a)).

Definition issue_publish_confirmation (cid : string) (c : staged_change) (author : binding) (approver : option binding) (by_staff : option staff)
    (ttl now : Z) : prog cdb (answer string) :=
  match approve c author approver by_staff with
  | Err e => Ret (Err e)
  | Ok a =>
      if negb (0 <? ttl) then Ret (Err (StoreError ValueError)) else
      let payload := confirmation_payload cid c a (now + ttl) in
      Act (λ _ s, put_confirmation cid payload (sign (_canonical_payload (JObj payload))) s) (λ r,
      Ret (match r with Ok _ => Ok cid | Err e => Err (StoreError e) end))
  end.

(** The fields a confirmation must carry, in the order they are compared. *)
Definition expected_fields (tenant : string) (q : publish_request) : list (string * string) :=
  [("tenant_id", tenant); ("change_set_id", pq_change_set q); ("staged_commit", pq_commit q); ("catalog_digest", pq_digest q);
   ("platform_release", pq_release q); ("workspace_contract_digest", pq_contract q)].

Definition carries (payload : list (string * json)) (kv : string * string) : bool := bool_decide (text_of (dict_get payload kv.1) = Some kv.2).

(** [verify_publish_confirmation] of the record that was read: the approver and the
    signature *)
Definition verify_record (tenant : string) (q : publish_request) (allow_consumed : bool) (now : Z) (o : option (json * string * bool))
  : answer (string * string) :=
  match o with
  | None => Err (AuthorityError "confirmation_not_found")
  | Some (payload, signature, spent) =>
      deny (bool_decide (sign (_canonical_payload payload) = signature)) "confirmation_tampered" (
      deny (negb (spent && negb allow_consumed)) "confirmation_replayed" (
      match payload with
      | JObj d =>
          match text_of (dict_get d "expires_at") ≫= fromisoformat with
          | None => Err (AuthorityError "confirmation_tampered")
          | Some expires =>
              deny (negb ((expires <=? now) && negb (spent && allow_consumed))) "confirmation_expired" (
              deny (forallb (carries d) (expected_fields tenant q)) "confirmation_binding_mismatch" (
              match text_of (dict_get d "approver_subject"), dict_get d "confirmation_id", dict_get d "author_subject" with
              | Some a, Some _, Some _ => Ok (a, signature)
              | _, _, _ => Err (StoreError OtherError)
              end))
          end
      | _ => Err (StoreError OtherError)
      end))
  end.

(** The checks that come before the record is read. *)
Definition verify_arguments (tenant : string) (q : publish_request) (cid : string) : answer unit :=
  _required_text (Some tenant) "tenant_id" 200;; _validated_request q;;
  deny (negb (bool_decide (cid = ""%string))) "confirmation_missing" (Ok tt).
End authority.

(** ** Publication *)

Inductive harness_answer := HarnessCommit (commit : string) | HarnessLost (code_ : string) | HarnessFailed (code_ : string).

Record surroundings := Surroundings {
  sr_admission : option string;     (** why the rollout or the caller's role refuses *)
  sr_catalog : option string;       (** why the staged commit or its record fields are refused *)
  sr_now : Z;
  sr_harness : harness_answer }.

Definition call {A B} (op : cx A) (k : checked A → prog cdb B) : prog cdb B := Act (λ _ s, op s) k.

(** An exception of the store, raised on. *)
Definition stored {A B} (r : checked A) (k : A → prog cdb (answer B)) : prog cdb (answer B) :=
  match r with Ok a => k a | Err e => Ret (Err (StoreError e)) end.

Definition refuse {B} (code_ : string) : prog cdb (answer B) := Ret (Err (ServiceError code_)).
Definition unless {B} (o : option string) (k : prog cdb (answer B)) : prog cdb (answer B) := match o with Some c => refuse c | None => k end.
Definition allowed {B} (b : bool) (code_ : string) (k : prog cdb (answer B)) : prog cdb (answer B) := if b then k else refuse code_.

Definition get_change_set (tenant id : string) : cx change_set := _find_change_set tenant id.

Definition _record_fields_change {B} (tenant id : string) (k : change_set → prog cdb (answer B)) : prog cdb (answer B) :=
  call (get_change_set tenant id) (λ r,
    match r with
    | Ok x => k x
    | Err ChangeSetNotFoundError | Err ToolRecordFieldError => refuse "record_fields_invalid"
    | Err e => Ret (Err (StoreError e))
    end).

Definition _record_fields_pin {B} (tenant : string) (k : option catalog → prog cdb (answer B)) : prog cdb (answer B) :=
  call (reads (λ s, cd_catalogs s !! tenant)) (λ r, stored r k).

Definition _pin_matches_change (pin : option catalog) (id : string) (x : change_set) : bool :=
  match pin with
  | None => false
  | Some c => bool_decide (ec_change_set c = id) && bool_decide (Some (ec_commit c) = cs_staged x) && bool_decide (Some (ec_digest c) = cs_digest x) &&
              bool_decide (ec_release c = rq_release (cs_request x)) && bool_decide (ec_contract c = rq_contract (cs_request x))
  end.

Definition has_record_fields (x : change_set) : bool :=
  bool_decide (is_Some (rq_graph (cs_request x))) || bool_decide (is_Some (rq_base_catalog (cs_request x))) || bool_decide (is_Some (cs_fields x)).

Definition _verify_record_fields_predecessor {B} (tenant : string) (x : change_set) (k : prog cdb (answer B)) : prog cdb (answer B) :=
  if negb (has_record_fields x) then k else
  _record_fields_pin tenant (λ pin,
    match rq_base_catalog (cs_request x), pin with
    | Some p, _ => _record_fields_change tenant p (λ pred, allowed (_pin_matches_change pin p pred) "record_fields_predecessor_mismatch" k)
    | None, Some c => _record_fields_change tenant (ec_change_set c) (λ pred, allowed (negb (has_record_fields pred)) "record_fields_predecessor_mismatch" k)
    | None, None => k
    end).

Definition _refuse_stale_addition_base {B} (tenant : string) (x : change_set) (k : prog cdb (answer B)) : prog cdb (answer B) :=
  if negb (bool_decide (rq_kind (cs_request x) = "create"%string)) then k else
  _record_fields_pin tenant (λ pin,
    match pin with Some c => allowed (bool_decide (rq_base (cs_request x) = ec_commit c)) "stale_base" k | None => k end).

Section publish.
Context `{Signer}.

(** The confirmation is read and checked, and of a publication under way also that it is
    the one that was spent on it. *)
Definition confirmed {B} (tenant : string) (q : publish_request) (cid : string) (x : change_set) (now : Z) (k : string * string → prog cdb (answer B))
  : prog cdb (answer B) :=
  let recovering := bool_decide (cs_state x = PUBLISHING) in
  let denied e := if recovering then match e with AuthorityError _ => refuse "publish_recovery_authority_invalid" | _ => Ret (Err e) end else Ret (Err e) in
  match verify_arguments tenant q cid with
  | Err e => denied e
  | Ok _ =>
      call (get_confirmation cid) (λ r, stored r (λ o,
        match verify_record tenant q recovering now o with
        | Err e => denied e
        | Ok (approver, signature) =>
            if recovering then allowed (bool_decide (cs_approver x = Some approver)) "publish_recovery_authority_invalid" (k (approver, signature))
            else _refuse_stale_addition_base tenant x (k (approver, signature))
        end))
  end.

(** What the harness made of the staged commit, and its record. *)
Definition conclude (tenant : string) (q : publish_request) (version : Z) (key approver : string) (h : harness_answer) : prog cdb (answer catalog) :=
  let id := pq_change_set q in
  match h with
  | HarnessLost c => call (supersede_publish tenant id version key ("harness_" +:+ c)) (λ r, stored r (λ _, refuse c))
  | HarnessFailed c => refuse c
  | HarnessCommit commit =>
      allowed (bool_decide (commit = pq_commit q)) "published_commit_mismatch"
        (call (publish tenant id version key (Some approver)) (λ r,
          match r with Err IntegrityError => refuse "record_fields_write_failed" | _ => stored r (λ c, Ret (Ok c)) end))
  end.

Definition _publish (tenant : string) (q : publish_request) (cid key : string) (e : surroundings) : prog cdb (answer catalog) :=
  let id := pq_change_set q in
  unless (sr_admission e)
  (_record_fields_change tenant id (λ x,
    allowed (bool_decide (cs_staged x = Some (pq_commit q)) && bool_decide (cs_digest x = Some (pq_digest q)) &&
             bool_decide (rq_release (cs_request x) = pq_release q) && bool_decide (rq_contract (cs_request x) = pq_contract q)) "staged_receipt_mismatch"
    (allowed (bool_decide (cs_state x ∈ [STAGED; PUBLISHING; PUBLISHED])) "publish_not_available"
    (unless (sr_catalog e)
    (if bool_decide (cs_state x = PUBLISHED)
     then _record_fields_pin tenant (λ pin, match pin with
            | Some c => allowed (_pin_matches_change pin id x) "publish_not_available" (Ret (Ok c))
            | None => refuse "publish_not_available" end)
     else
       _verify_record_fields_predecessor tenant x
       (confirmed tenant q cid x (sr_now e) (λ '(approver, signature),
         call (prepare_publish tenant id cid signature approver key) (λ r, stored r (λ publishing,
         call (verify_removal_predecessor tenant id) (λ r, stored r (λ _,
         conclude tenant q (cs_version publishing) key approver (sr_harness e)))))))))))).
End publish.
