(* ===== verification/CustomSystem.v ===== *)
(** * Customization: every interleaving

    What the store's operations do, as moves of one row, one pointer, one confirmation
    or one snapshot; the invariant the moves keep and how they let the database grow;
    and the requests that make them. *)

From Stdlib Require Import Ascii.
From stdpp Require Import sorting.
From S2P Require Import Prelude PyText Json AgentCalls ProjectContext Concurrent CustomStore CustomPublish.
Local Open Scope Z_scope.

(** ** Moves *)

(** The moves of a change set that the service makes. *)
Definition serviced (from to : change_state) : Prop :=
  (from ≠ PUBLISHED ∧ to ∈ _NEXT from) ∨ (to = FAILED ∧ from ∈ [CREATED; STAGING]).

Definition past_staging (x : change_set) : Prop := cs_state x ∉ [CREATED; STAGING].

(** The confirmation carries the content of the change set. *)
Definition confirms (c : confirmation) (id : string) (x : change_set) : Prop :=
  ∃ d commit digest, loads (cf_payload c) = Some (JObj d) ∧ cs_staged x = Some commit ∧ cs_digest x = Some digest ∧
    forallb (carries d) (expected_fields (rq_tenant (cs_request x))
      (PublishRequest id commit digest (rq_release (cs_request x)) (rq_contract (cs_request x)))) = true.

(** Confirmations are added, and spent. *)
Definition confirmations_grow (m m' : gmap string confirmation) : Prop :=
  ∀ cid c, m !! cid = Some c → ∃ c', m' !! cid = Some c' ∧ cf_payload c' = cf_payload c ∧ cf_signature c' = cf_signature c ∧
    (cf_consumed c = true → cf_consumed c' = true).

Definition recorded (id : string) (x : change_set) (next : change_state) (approver : option string) (e : event) : Prop :=
  ev_change_set e = id ∧ ev_prior e = Some (cs_state x) ∧ ev_next e = next ∧ ev_author e = rq_author (cs_request x) ∧
  ev_approver e = coalesce approver (cs_approver x).

Inductive custom_move : cdb → cdb → Prop :=
| mv_reserve s id rq now e : cd_rows s !! id = None → ev_change_set e = id → ev_prior e = None → ev_next e = CREATED →
    custom_move s (add_event e (set_row id (ChangeSet rq CREATED 0 None None None None fresh_stage now) s))
| mv_advance s id x next staged digest approver e : cd_rows s !! id = Some x → serviced (cs_state x) next →
    (next ≠ STAGED → staged = None ∧ digest = None) →
    (next = APPROVED → ∃ a, approver = Some a ∧ a ≠ rq_author (cs_request x)) →
    (next = PUBLISHING → other_publish (rq_tenant (cs_request x)) id s = false) →
    (next = AWAITING_APPROVAL → ∃ cid c, (cid, id) ∈ cd_prepared s ∧ cd_confirmations s !! cid = Some c ∧ confirms c id x) →
    recorded id x next approver e →
    custom_move s (add_event e (set_row id (moved next staged digest approver x) s))
| mv_audit s id x e : cd_rows s !! id = Some x → ev_change_set e = id → ev_prior e = Some (cs_state x) → ev_next e = ROLLED_BACK →
    custom_move s (add_event e s)
| mv_stage s id x g : cd_rows s !! id = Some x → sg_attempt g = sg_attempt (cs_stage x) →
    sg_owner g = None ∨ sg_owner g = sg_owner (cs_stage x) → custom_move s (set_row id (set_stage g x) s)
| mv_claim s id x g owner : cd_rows s !! id = Some x → cs_state x = STAGING → sg_attempt g = sg_attempt (cs_stage x) + 1 →
    sg_owner g = Some owner → custom_move s (note_claim (id, sg_attempt g) owner (set_row id (set_stage g x) s))
| mv_fields s id x f : cd_rows s !! id = Some x → custom_move s (set_row id (set_fields f x) s)
| mv_staged s id x g owner : cd_rows s !! id = Some x → cs_state x = STAGED → sg_owner (cs_stage x) = Some owner →
    sg_attempt g = sg_attempt (cs_stage x) → sg_owner g = None →
    custom_move s (set_row id (set_stage g x) (note_staged id (sg_attempt (cs_stage x)) owner s))
| mv_publish s id x c : cd_rows s !! id = Some x → cs_state x = PUBLISHED → catalog_of id x = Some c →
    custom_move s (set_catalog (rq_tenant (cs_request x)) c s)
| mv_restore s k x l : cd_snapshots s !! k = Some x → snapshot_rows (sn_payload x) = Some l → NoDup l.*1 →
    custom_move s (set_catalogs (list_to_map l) s)
| mv_snapshot s k x : cd_snapshots s !! k = None → sn_payload x = catalogs_text (cd_catalogs s) → custom_move s (add_snapshot k x s)
| mv_confirmations s m : confirmations_grow (cd_confirmations s) m → custom_move s (set_confirmations m s)
| mv_prepare s cid c id : cd_confirmations s !! cid = Some c → cf_consumed c = false →
    custom_move s (note_prepared cid id (set_confirmations (<[cid := consumed c]> (cd_confirmations s)) s))
| mv_publication s k p : custom_move s (set_publication k p s)
| mv_removal s k r : custom_move s (set_removal k r s)
| mv_deployment s d : custom_move s (add_deployment d s).

Abbreviation moves := (star custom_move).

(** ** Operations as moves *)

Lemma reads_inv {A} (f : cdb → A) s a s' : reads f s = (Ok a, s') → a = f s ∧ s' = s.
Proof. by intros [= <- <-]. Qed.

Lemma writes_inv f s u s' : writes f s = (Ok u, s') → s' = f s.
Proof. by intros [= <- <-]. Qed.

Lemma require_inv {A} (r : checked A) s a s' : require r s = (Ok a, s') → r = Ok a ∧ s' = s.
Proof. by intros [= -> <-]. Qed.

Lemma ensure_inv b e s u s' : ensure b e s = (Ok u, s') → b = true ∧ s' = s.
Proof. unfold ensure. destruct b; [by intros [= <- <-]|done]. Qed.

(** Runs a block of code that returned, one call at a time. *)
Ltac walk :=
  repeat first
    [ match goal with
      | H : (_ ≫= _) _ = (Ok _, _) |- _ =>
          apply io_bind_inv in H; let a := fresh "v" in let s := fresh "t" in let H1 := fresh "Hrun" in destruct H as (a & s & H1 & H)
      | H : reads _ _ = (Ok _, _) |- _ => apply reads_inv in H as [-> ->]
      | H : writes _ _ = (Ok _, _) |- _ => apply writes_inv in H as ->
      | H : require _ _ = (Ok _, _) |- _ => let R := fresh "Hreq" in apply require_inv in H as [R ->]
      | H : ensure _ _ _ = (Ok _, _) |- _ => let R := fresh "Hens" in apply ensure_inv in H as [R ->]
      | H : mret _ _ = (Ok _, _) |- _ => injection H as <- <-
      | H : raise _ _ = (Ok _, _) |- _ => discriminate H
      | H : atomically _ _ = (Ok _, _) |- _ => apply (proj1 (atomically_Ok _ _ _ _)) in H
      end ].

Lemma row_of_Some tenant id s x : row_of tenant id s = Some x → cd_rows s !! id = Some x ∧ rq_tenant (cs_request x) = tenant.
Proof. unfold row_of. intros H. apply bind_Some in H as (y & Hy & H). case_bool_decide; [|done]. by injection H as <-. Qed.

Lemma change_set_Ok x r : _change_set x = Ok r → ∃ f, r = set_fields f x.
Proof. unfold _change_set. intros (f & _ & [= <-])%result_bind_Ok. by exists f. Qed.

Lemma find_Ok tenant id s r s' : _find_change_set tenant id s = (Ok r, s') →
  s' = s ∧ ∃ x f, cd_rows s !! id = Some x ∧ rq_tenant (cs_request x) = tenant ∧ r = set_fields f x.
Proof.
  unfold _find_change_set. intros H. walk.
  match goal with Ho : from_opt _ _ = Ok _, Hc : _change_set _ = Ok _ |- _ =>
    apply from_opt_Ok, row_of_Some in Ho as [Hx Ht]; apply change_set_Ok in Hc as [f ->] end.
  split; [done|]. eauto.
Qed.

Lemma find_event_None tenant key s e : find_event tenant key s = None → e ∈ cd_events s → ev_tenant e = tenant → ev_key e ≠ key.
Proof.
  unfold find_event. intros Hf He Ht Hk. apply list_elem_of_In in He. pose proof (List.find_none _ _ Hf _ He) as Hn. simpl in Hn.
  by rewrite !bool_decide_true in Hn by done.
Qed.

Lemma find_event_Some tenant key s e : find_event tenant key s = Some e → e ∈ cd_events s ∧ ev_tenant e = tenant ∧ ev_key e = key.
Proof.
  unfold find_event. intros [Hin Hb]%List.find_some. apply andb_true_iff in Hb as [H1%bool_decide_eq_true H2%bool_decide_eq_true].
  split_and!; [by apply list_elem_of_In|done|done].
Qed.

(** ** A transition *)

Lemma event_of_fields id f x prior next key reason : event_of id (set_fields f x) prior next key reason = event_of id x prior next key reason.
Proof. done. Qed.

Lemma append_audit_Ok id x prior next key reason s u s' : _append_audit id x prior next key reason s = (Ok u, s') →
  s' = add_event (event_of id x prior next key reason) s.
Proof. unfold _append_audit. intros H. by walk. Qed.

(** What a transition that was not a replay has checked, and done. *)
Record transitioned (id : string) (cur : change_set) (next : change_state) (version : Z) (key : string) (x : extras) (s s' : cdb) : Prop := Transitioned {
  tr_version : cs_version cur = version;
  tr_expected : ∀ st, xt_expected x = Some st → cs_state cur = st;
  tr_may : may_move (cs_state cur) next = true;
  tr_approval : next = APPROVED → ∃ a, xt_approver x = Some a ∧ a ≠ rq_author (cs_request cur);
  tr_new : find_event (rq_tenant (cs_request cur)) key s = None;
  tr_final : s' = add_event (event_of id (moved next (xt_staged x) (xt_digest x) (xt_approver x) cur) (Some (cs_state cur)) next key (xt_reason x))
                   (set_row id (moved next (xt_staged x) (xt_digest x) (xt_approver x) cur) s) }.

Lemma transition_row_Ok id f cur next version key x s r s' : cd_rows s !! id = Some cur →
  _transition_row id (set_fields f cur) next version key x s = (Ok r, s') →
  (s' = s ∧ ∃ e, e ∈ cd_events s ∧ ev_tenant e = rq_tenant (cs_request cur) ∧ ev_key e = key ∧ ev_change_set e = id ∧ ev_next e = next ∧ ∃ f', r = set_fields f' cur) ∨
  (transitioned id cur next version key x s s' ∧ ∃ f', r = set_fields f' (moved next (xt_staged x) (xt_digest x) (xt_approver x) cur)).
Proof.
  intros Hcur H. unfold _transition_row in H. simpl in H.
  apply io_bind_inv in H as (k0 & t0 & [_ ->]%require_inv & H). apply io_bind_inv in H as (k1 & t1 & [_ ->]%require_inv & H).
  apply io_bind_inv in H as (ex & t2 & [-> ->]%reads_inv & H). destruct (find_event _ key s) as [e|] eqn:He.
  - left. apply find_event_Some in He as (He & Ht & Hk). destruct (bool_decide _ && bool_decide _) eqn:Hb; [|done].
    apply andb_true_iff in Hb as [H1%bool_decide_eq_true H2%bool_decide_eq_true]. apply find_Ok in H as [-> (y & f' & Hy & _ & ->)].
    rewrite Hcur in Hy. injection Hy as <-. split; [done|]. exists e. split_and!; eauto.
  - right. apply io_bind_inv in H as (u1 & t1' & [Hv ->]%ensure_inv & H). apply io_bind_inv in H as (u2 & t2' & [Hx ->]%ensure_inv & H).
    apply io_bind_inv in H as (u3 & t3' & [Hm ->]%ensure_inv & H). apply io_bind_inv in H as (u4 & t4' & [Hap ->]%ensure_inv & H).
    apply io_bind_inv in H as (u5 & t5' & [_ ->]%require_inv & H). apply io_bind_inv in H as (u6 & t6' & [Hne ->]%ensure_inv & H).
    apply io_bind_inv in H as (o & t7 & [-> ->]%reads_inv & H). destruct (row_of _ id s) as [y|] eqn:Hy; [|done].
    apply row_of_Some in Hy as [Hy _]. rewrite Hcur in Hy. injection Hy as <-. simpl in *. rewrite Hv in H. walk.
    match goal with Hf : _find_change_set _ _ _ = _ |- _ => apply find_Ok in Hf as [-> (z & f' & Hz & _ & ->)] end.
    simpl in Hz. rewrite lookup_insert_eq in Hz. injection Hz as <-.
    match goal with Ha : _append_audit _ _ _ _ _ _ _ = _ |- _ => apply append_audit_Ok in Ha; rewrite event_of_fields in Ha end.
    split; [|by exists f']. split; try done.
    + lia.
    + intros st Hst. rewrite Hst in Hx. by apply bool_decide_eq_true in Hx.
    + intros ->. rewrite bool_decide_true in Hap, Hne by done. simpl in *. destruct (xt_approver x) as [a|]; [|done].
      exists a. split; [done|]. intros ->. by rewrite bool_decide_true in Hne.
Qed.

Lemma transitioned_move id cur next version key x s s' : cd_rows s !! id = Some cur → transitioned id cur next version key x s s' →
  serviced (cs_state cur) next → (next ≠ STAGED → xt_staged x = None ∧ xt_digest x = None) →
  (next = PUBLISHING → other_publish (rq_tenant (cs_request cur)) id s = false) →
  (next = AWAITING_APPROVAL → ∃ cid c, (cid, id) ∈ cd_prepared s ∧ cd_confirmations s !! cid = Some c ∧ confirms c id cur) →
  custom_move s s'.
Proof. intros Hcur [Hv He Hm Hap Hn ->] Hs Hst Hp Hw. by eapply mv_advance. Qed.

(** The states an unconditional move may come from. *)
Lemma may_stage st : may_move st STAGED = true → st = STAGING.
Proof. by destruct st. Qed.

(** An operation that returned has made moves, and one that raised none. *)
Definition commits {A} (op : cx A) : Prop := ∀ s a s', op s = (Ok a, s') → moves s s'.
Definition untouched {A} (op : cx A) : Prop := ∀ s e s', op s = (Err e, s') → s' = s.
Definition reading {A} (op : cx A) : Prop := ∀ s r s', op s = (r, s') → s' = s.

Lemma commits_final {A} (op : cx A) s : commits op → untouched op → moves s (final op s).
Proof. intros Hc Hu. unfold final. destruct (op s) as [[a|e] s'] eqn:Ho; simpl; [by eapply Hc|]. rewrite (Hu _ _ _ Ho). apply star_refl. Qed.

Lemma untouched_atomically {A} (op : cx A) : untouched (atomically op).
Proof. intros s e s'. unfold atomically. destruct (op s) as [[]]; congruence. Qed.

Lemma untouched_bind {A B} (m : cx A) (f : A → cx B) : reading m → (∀ a, untouched (f a)) → untouched (m ≫= f).
Proof.
  intros Hm Hf s e s'. unfold mbind, io_mbind. destruct (m s) as [[a|e'] s1] eqn:H1; pose proof (Hm _ _ _ H1) as ->; [apply Hf|by intros [= _ <-]].
Qed.

Lemma reading_require {A} (r : checked A) : reading (require r).
Proof. by intros s a s' [= _ <-]. Qed.
Lemma reading_ensure b e : reading (ensure b e).
Proof. intros s a s'. unfold ensure. destruct b; by intros [= _ <-]. Qed.
Lemma reading_find tenant id : reading (_find_change_set tenant id).
Proof.
  intros s r s'. unfold _find_change_set, require, reads, lift, mbind, io_mbind. simpl. destruct (from_opt _ _); by intros [= _ <-].
Qed.
Lemma reading_ret {A} (a : A) : reading (mret a).
Proof. by intros s r s' [= _ <-]. Qed.
Lemma reading_bind {A B} (m : cx A) (f : A → cx B) : reading m → (∀ a, reading (f a)) → reading (m ≫= f).
Proof.
  intros Hm Hf s r s'. unfold mbind, io_mbind. destruct (m s) as [[a|e'] s1] eqn:H1; pose proof (Hm _ _ _ H1) as ->; [apply Hf|by intros [= _ <-]].
Qed.

Create HintDb custom.
#[export] Hint Resolve untouched_atomically untouched_bind reading_require reading_ensure reading_find reading_ret reading_bind : custom.

Lemma commits_reserve_row rq id now : commits (reserve_row rq id now).
Proof.
  intros s a s' H. unfold reserve_row in H. apply io_bind_inv in H as (o & t & [-> ->]%reads_inv & H). destruct (by_key _ _ s) as [[old x]|]; walk; [apply star_refl|].
  assert (Hq : reading (check_predecessor rq id)).
  { unfold check_predecessor. destruct (rq_base_catalog rq); auto with custom. }
  match goal with Hc : check_predecessor _ _ _ = _ |- _ => apply Hq in Hc as -> end.
  match goal with Hf : _find_change_set _ _ _ = _ |- _ => apply find_Ok in Hf as [-> (z & f & Hz & _ & ->)] end.
  simpl in Hz. rewrite lookup_insert_eq in Hz. injection Hz as <-.
  match goal with Ha : _append_audit _ _ _ _ _ _ _ = _ |- _ => apply append_audit_Ok in Ha as -> end.
  apply star_one, mv_reserve; try done.
  match goal with Hn : negb (bool_decide _) = true |- _ => apply negb_true_iff, bool_decide_eq_false in Hn; by apply eq_None_not_Some in Hn end.
Qed.

Lemma commits_reserve rq drawn now : commits (_reserve_change_set rq drawn now).
Proof. intros s a s' H. unfold _reserve_change_set in H. walk. by eapply commits_reserve_row. Qed.

Lemma untouched_reserve rq drawn now : untouched (_reserve_change_set rq drawn now).
Proof. unfold _reserve_change_set. auto 6 with custom. Qed.

Lemma oldest_member l kx : oldest l = Some kx → kx ∈ l.
Proof.
  revert kx. induction l as [|a l IH]; intros kx; simpl; [done|]. destruct (oldest l) as [b|].
  - destruct (before a b); intros [= <-]; [left|right; by apply IH].
  - intros [= <-]. left.
Qed.

Lemma commits_claim owner lease now : commits (claim_stage owner lease now).
Proof.
  intros s a s' H. unfold claim_stage in H. walk. destruct (oldest _) as [[id x]|] eqn:Ho; walk; [|apply star_refl].
  match goal with Hf : _find_change_set _ _ _ = _ |- _ => apply find_Ok in Hf as [-> _] end.
  apply oldest_member, list_elem_of_In, filter_In in Ho as [Hin Hc]. apply list_elem_of_In, elem_of_map_to_list in Hin.
  unfold claimable in Hc. rewrite !andb_true_iff, !bool_decide_eq_true in Hc. destruct Hc as [[[Hst _] _] _]. simpl in Hst.
  by apply star_one, (mv_claim s id x (claimed (cs_stage x) owner (now + lease) now) owner).
Qed.

Lemma untouched_claim owner lease now : untouched (claim_stage owner lease now).
Proof. unfold claim_stage. auto with custom. Qed.

Lemma commits_update tenant id ok f : (∀ g, sg_attempt (f g) = sg_attempt g) → (∀ g, sg_owner (f g) = None ∨ sg_owner (f g) = sg_owner g) →
  commits (update_stage tenant id ok f).
Proof.
  intros H1 H2 s a s' H. unfold update_stage in H. walk. destruct (row_of _ _ _) as [x|] eqn:Hx; [|walk; apply star_refl].
  destruct (ok x); walk; [|apply star_refl]. apply row_of_Some in Hx as [Hx _]. by apply star_one, mv_stage.
Qed.

Lemma update_row tenant id ok f s u s' : update_stage tenant id ok f s = (Ok u, s') → cd_prepared s' = cd_prepared s.
Proof. intros H. unfold update_stage in H. walk. destruct (row_of _ _ _) as [x|]; [destruct (ok x)|]; by walk. Qed.

(** A transition to anything but approval makes a move the service makes. *)
Lemma transition_moves id f cur next version key x s r s' : cd_rows s !! id = Some cur →
  _transition_row id (set_fields f cur) next version key x s = (Ok r, s') →
  (may_move (cs_state cur) next = true → cs_version cur = version → (∀ st, xt_expected x = Some st → cs_state cur = st) → serviced (cs_state cur) next) →
  (next ≠ STAGED → xt_staged x = None ∧ xt_digest x = None) → next ≠ PUBLISHING → next ≠ AWAITING_APPROVAL → moves s s'.
Proof.
  intros Hcur H Hs Hst Hp Ha. apply (transition_row_Ok _ _ _ _ _ _ _ _ _ _ Hcur) in H as [[-> _]|[Htr _]]; [apply star_refl|].
  apply star_one. eapply transitioned_move; [done|done|by apply Hs; apply Htr|done|done|done].
Qed.

Lemma commits_fail tenant id owner reason retryable message : commits (fail_stage_claim tenant id owner reason retryable message).
Proof.
  intros s a s' H. unfold fail_stage_claim in H. walk.
  match goal with Hf : _find_change_set _ _ s = _ |- _ => apply find_Ok in Hf as [-> (x & f & Hx & _ & ->)] end.
  destruct (negb _) eqn:Hn; walk; [apply star_refl|].
  match goal with Hf : _find_change_set _ _ _ = _ |- _ => apply find_Ok in Hf as [-> _] end.
  match goal with Ht : _transition_row _ _ _ _ _ _ _ = _ |- _ => rename Ht into Htr end.
  eapply star_trans; [eapply transition_moves; [exact Hx|exact Htr|..]; try done|].
  - intros _ _ Hexp. right. rewrite (Hexp STAGING) by done. split; [done|]. right. left.
  - eapply commits_update; [| |done]; intros g; [done|by left].
Qed.

Lemma untouched_fail tenant id owner reason retryable message : untouched (fail_stage_claim tenant id owner reason retryable message).
Proof. unfold fail_stage_claim. auto with custom. Qed.

(** The transitions the service asks for by name: a reservation starts to stage, or its admission failed. *)
Lemma commits_transition tenant id next version key x : xt_expected x = Some CREATED → next ∈ [STAGING; FAILED] →
  commits (transition tenant id next version key x).
Proof.
  intros Hx Hn s a s' H. unfold transition in H.
  assert (next ≠ STAGED) as Hns by set_solver. rewrite bool_decide_false in H by done. walk.
  match goal with Hf : _find_change_set _ _ _ = _ |- _ => apply find_Ok in Hf as [-> (y & f & Hy & _ & ->)] end.
  eapply transition_moves; [exact Hy|exact H|..]; try done; try set_solver.
  intros _ _ Hexp. rewrite (Hexp CREATED) by done. apply list_elem_of_In in Hn as [<-|[<-|[]]]; [left; split; [done|left]|right; split; [done|left]].
Qed.

Lemma untouched_transition tenant id next version key x : untouched (transition tenant id next version key x).
Proof. unfold transition. destruct (bool_decide _); auto 6 with custom. Qed.

(** A staged row is taken from its worker. *)
Lemma staged_release tenant id x owner s u s' : cd_rows s !! id = Some x → cs_state x = STAGED → sg_owner (cs_stage x) = Some owner →
  rq_tenant (cs_request x) = tenant →
  update_stage tenant id (λ _, true) (released "staged") (note_staged id (sg_attempt (cs_stage x)) owner s) = (Ok u, s') → custom_move s s'.
Proof.
  intros Hx Hst Ho Ht H. unfold update_stage in H. walk. unfold row_of in H. simpl in H. rewrite Hx in H. simpl in H.
  rewrite bool_decide_true in H by done. walk. by eapply mv_staged.
Qed.

(** The report of a staging, once its checks are passed. *)
Lemma commits_complete tenant id f cur version key r now s a s' : cd_rows s !! id = Some cur → rq_tenant (cs_request cur) = tenant →
  complete_staging tenant id (set_fields f cur) version key r now s = (Ok a, s') → moves s s'.
Proof.
  intros Hcur Hten H. unfold complete_staging in H. apply io_bind_inv in H as (fs & t & [_ ->]%require_inv & H).
  apply io_bind_inv in H as (u1 & t & [_ ->]%ensure_inv & H). apply io_bind_inv in H as (u2 & t & [Hgen ->]%ensure_inv & H).
  apply io_bind_inv in H as (u3 & t & [_ ->]%ensure_inv & H). apply io_bind_inv in H as (u4 & t & [_ ->]%ensure_inv & H).
  apply io_bind_inv in H as (u5 & t & Hset & H).
  assert (∃ f', moves s t ∧ cd_rows t !! id = Some (set_fields f' cur)) as (f' & Hm & Ht).
  { destruct (has_metadata _ _); walk.
    - destruct (row_of _ _ _) as [y|] eqn:Hy; walk; [|exists (cs_fields cur); split; [apply star_refl|by destruct cur]].
      apply row_of_Some in Hy as [Hy _]. rewrite Hcur in Hy. injection Hy as <-. exists fs. simpl. rewrite lookup_insert_eq.
      split; [|done]. by apply star_one, mv_fields.
    - exists (cs_fields cur). split; [apply star_refl|by destruct cur]. }
  apply io_bind_inv in H as (b & t1 & [-> ->]%reads_inv & H). apply io_bind_inv in H as (r1 & t2 & Htr & H).
  change (set_fields f cur) with (set_fields f (set_fields f' cur)) in Htr.
  pose proof (transition_row_Ok _ _ _ _ _ _ _ _ _ _ Ht Htr) as Hcase.
  apply io_bind_inv in H as (u6 & t3 & Hnote & H). apply io_bind_inv in H as (u7 & t4 & Hupd & [-> _]%find_Ok).
  eapply star_trans; [exact Hm|]. eapply star_trans; [eapply transition_moves; [exact Ht|exact Htr|..]; try done|].
  { intros Hmay _ _. apply may_stage in Hmay. left. rewrite Hmay. split; [done|left]. }
  assert (Hplain : t3 = t2 → moves t2 t4).
  { intros ->. eapply commits_update; [| |exact Hupd]; intros g; [done|by left]. }
  destruct (find_event tenant key t) as [e|] eqn:Hfe; [walk; auto|]. destruct (sr_worker r) as [[owner n]|]; [|walk; auto].
  destruct Hcase as [[-> (e & He & Hte & Hke & _)]|[[_ _ _ _ _ ->] _]].
  { exfalso. eapply find_event_None; [exact Hfe|exact He|simpl in Hte; congruence|done]. }
  simpl in Hgen. rewrite !andb_true_iff in Hgen. destruct Hgen as [[Hown%bool_decide_eq_true <-%Z.eqb_eq] _]. walk.
  apply star_one. eapply staged_release; [apply lookup_insert_eq|done|exact Hown|done|exact Hupd].
Qed.

Lemma commits_record_staged tenant id version key r now : commits (record_staged tenant id version key r now).
Proof.
  intros s a s' H. unfold record_staged in H. walk. destruct (row_of _ _ _) as [x|] eqn:Hx; [|walk]. apply row_of_Some in Hx as [Hx Ht].
  walk. match goal with Hc : _change_set _ = Ok _ |- _ => apply change_set_Ok in Hc as [f ->] end.
  destruct (negb (has_metadata _ _)); walk; [by eapply commits_complete|]. destruct (find_event _ _ _); walk; [apply star_refl|by eapply commits_complete].
Qed.

Lemma untouched_record_staged tenant id version key r now : untouched (record_staged tenant id version key r now).
Proof. unfold record_staged. auto with custom. Qed.

(** ** Removals, confirmations and publication requests *)

Lemma reading_reads {A} (f : cdb → A) : reading (reads f).
Proof. by intros s r s' [= _ <-]. Qed.
Lemma reading_catalog tenant : reading (_effective_catalog tenant).
Proof. unfold _effective_catalog. eauto using reading_reads with custom. Qed.
Lemma reading_bound tenant id : reading (verify_bound tenant id).
Proof. unfold verify_bound. apply reading_bind; [apply reading_reads|]. intros [r|]; eauto using reading_catalog with custom. Qed.
Lemma reading_atomically {A} (op : cx A) : reading op → reading (atomically op).
Proof. intros Hr s r s'. unfold atomically. destruct (op s) as [[a|e] t] eqn:Ho; apply Hr in Ho as ->; congruence. Qed.

(** Calls that only read are passed over. *)
Ltac pass_reads :=
  repeat match goal with
  | H : _find_change_set _ _ _ = (_, _) |- _ => apply reading_find in H as ->
  | H : _effective_catalog _ _ = (_, _) |- _ => apply reading_catalog in H as ->
  | H : verify_bound _ _ _ = (_, _) |- _ => apply reading_bound in H as ->
  end.

Lemma commits_bind_removal tenant id tool expected : commits (bind_removal_request tenant id tool expected).
Proof.
  intros s a s' H. unfold bind_removal_request in H. walk. pass_reads. destruct (cd_removals _ !! _); walk; [apply star_refl|].
  apply star_one, mv_removal.
Qed.

Lemma untouched_bind_removal tenant id tool expected : untouched (bind_removal_request tenant id tool expected).
Proof. unfold bind_removal_request. auto with custom. Qed.

Lemma grow_insert (m : gmap string confirmation) cid c :
  (∀ old, m !! cid = Some old → cf_payload c = cf_payload old ∧ cf_signature c = cf_signature old ∧ (cf_consumed old = true → cf_consumed c = true)) →
  confirmations_grow m (<[cid := c]> m).
Proof.
  intros Hold k x Hx. destruct (decide (k = cid)) as [->|Hne]; [|exists x; by rewrite lookup_insert_ne]. exists c. rewrite lookup_insert_eq.
  destruct (Hold _ Hx) as (? & ? & ?). done.
Qed.

Lemma grow_refl m : confirmations_grow m m.
Proof. intros k x Hx. by exists x. Qed.

Lemma commits_put cid payload signature : commits (put_confirmation cid payload signature).
Proof.
  intros s a s' H. unfold put_confirmation in H. walk. apply star_one, mv_confirmations, grow_insert.
  match goal with Hn : negb (bool_decide _) = true |- _ => apply negb_true_iff, bool_decide_eq_false, eq_None_not_Some in Hn; by rewrite Hn end.
Qed.

Lemma untouched_put cid payload signature : untouched (put_confirmation cid payload signature).
Proof. unfold put_confirmation. auto with custom. Qed.

(** The two outcomes of a spending statement. *)
Lemma consume_row_Ok cid signature s b s' : consume_row cid signature s = (Ok b, s') →
  (b = false ∧ s' = s) ∨ (b = true ∧ ∃ c, cd_confirmations s !! cid = Some c ∧ cf_consumed c = false ∧ cf_signature c = signature ∧
    s' = set_confirmations (<[cid := consumed c]> (cd_confirmations s)) s).
Proof.
  intros H. unfold consume_row in H. walk. destruct (cd_confirmations s !! cid) as [c|] eqn:Hc; [|walk; by left].
  destruct (bool_decide _ && _) eqn:Hb; walk; [|by left]. right. split; [done|]. exists c.
  apply andb_true_iff in Hb as [?%bool_decide_eq_true ?%negb_true_iff]. done.
Qed.

Lemma consumed_grows cid c m : m !! cid = Some c → confirmations_grow m (<[cid := consumed c]> m).
Proof. intros Hc. apply grow_insert. intros old Ho. rewrite Hc in Ho. by injection Ho as <-. Qed.

Lemma commits_consume cid signature : commits (consume_confirmation cid signature).
Proof.
  intros s a s' H. unfold consume_confirmation in H. walk. apply consume_row_Ok in H as [[_ ->]|[_ (c & Hc & _ & _ & ->)]]; [apply star_refl|].
  by apply star_one, mv_confirmations, consumed_grows.
Qed.

Lemma untouched_consume cid signature : untouched (consume_confirmation cid signature).
Proof. unfold consume_confirmation. auto with custom. Qed.

Lemma commits_publication_request tenant id : commits (get_or_create_publication_request tenant id).
Proof.
  intros s a s' H. unfold get_or_create_publication_request in H. walk. pass_reads. destruct (cd_publications _ !! _); walk; [apply star_refl|].
  apply star_one, mv_publication.
Qed.

Lemma untouched_publication_request tenant id : untouched (get_or_create_publication_request tenant id).
Proof. unfold get_or_create_publication_request. auto 6 with custom. Qed.

Lemma commits_bind_publication tenant id cid : commits (bind_publication_confirmation tenant id cid).
Proof. intros s a s' H. unfold bind_publication_confirmation in H. walk. pass_reads. apply star_one, mv_publication. Qed.

Lemma untouched_bind_publication tenant id cid : untouched (bind_publication_confirmation tenant id cid).
Proof. unfold bind_publication_confirmation. auto 8 with custom. Qed.

Lemma spend_all_grows tenant id s : confirmations_grow (cd_confirmations s) (cd_confirmations (spend_all tenant id s)).
Proof. intros k c Hc. simpl. rewrite lookup_fmap, Hc. simpl. eexists. split; [done|]. by case_match. Qed.

Lemma commits_deny tenant id reason : commits (deny_publication_request tenant id reason).
Proof.
  intros s a s' H. unfold deny_publication_request in H. walk. pass_reads. eapply star_step; [|apply star_one, mv_publication].
  eapply mv_confirmations, spend_all_grows.
Qed.

Lemma untouched_deny tenant id reason : untouched (deny_publication_request tenant id reason).
Proof. unfold deny_publication_request. auto 8 with custom. Qed.

Lemma commits_supersede tenant id version key reason : commits (supersede_publish tenant id version key reason).
Proof.
  intros s a s' H. unfold supersede_publish in H. walk.
  match goal with Hf : _find_change_set _ _ _ = _ |- _ => apply find_Ok in Hf as [-> (x & f & Hx & _ & ->)] end.
  eapply transition_moves; [exact Hx|exact H|..]; try done. intros _ _ He. rewrite (He PUBLISHING) by done. left. split; [done|right; left].
Qed.

(** ** Snapshots and rollback *)

Lemma commits_deployment_audit drawn snap action result key : commits (_deployment_audit drawn snap action result key).
Proof. intros s a s' H. unfold _deployment_audit in H. walk. destruct (List.find _ _); walk; [apply star_refl|apply star_one, mv_deployment]. Qed.

Section runtime.
Context `{Runtime}.

Lemma commits_capture drawn drawn' release key : commits (capture_deployment_snapshot drawn drawn' release key).
Proof.
  intros s a s' H'. unfold capture_deployment_snapshot in H'. walk.
  match goal with Ha : _deployment_audit _ _ _ _ _ _ = _ |- _ => apply commits_deployment_audit in Ha; eapply star_trans; [|exact Ha] end.
  destruct (snapshot_by_key _ _); walk; [apply star_refl|].
  match goal with Hn : negb (bool_decide _) = true |- _ => apply negb_true_iff, bool_decide_eq_false, eq_None_not_Some in Hn end.
  by apply star_one, mv_snapshot.
Qed.

Lemma commits_verify drawn snap action key : commits (verify_deployment_snapshot drawn snap action key).
Proof. intros s a s' H'. unfold verify_deployment_snapshot in H'. walk. by eapply commits_deployment_audit. Qed.

Lemma commits_restore drawn snap key : commits (restore_deployment_snapshot drawn snap key).
Proof.
  intros s a s' H'. unfold restore_deployment_snapshot in H'. walk.
  repeat match goal with Hr : from_opt _ _ = Ok _ |- _ => apply from_opt_Ok in Hr end.
  match goal with Hb : _ && bool_decide _ = true |- _ => apply andb_true_iff in Hb as [_ Hb%bool_decide_eq_true] end.
  match goal with Ha : _deployment_audit _ _ _ _ _ _ = _ |- _ => apply commits_deployment_audit in Ha; eapply star_trans; [|exact Ha] end.
  by eapply star_one, mv_restore.
Qed.
End runtime.

Lemma commits_rollback tenant target prior key : commits (restore_effective_catalog tenant target prior key).
Proof.
  intros s a s' H. unfold restore_effective_catalog in H. walk. destruct (find_event _ _ _) as [e|].
  - destruct (bool_decide _); [|walk]. pass_reads. apply star_refl.
  - walk. match goal with Hf : _find_change_set _ target _ = _ |- _ => apply find_Ok in Hf as [-> (x & f & Hx & Ht & ->)] end.
    match goal with Hp : _find_change_set _ prior _ = _ |- _ => apply find_Ok in Hp as [-> (y & g & Hy & _ & ->)] end.
    pass_reads. match goal with Ha : _append_audit _ _ _ _ _ _ _ = _ |- _ => apply append_audit_Ok in Ha as -> end.
    case_bool_decide as Hst; [|done].
    match goal with Hr : from_opt _ _ = Ok _ |- _ => apply from_opt_Ok in Hr; rename Hr into Hc end.
    eapply star_step; [|apply star_one; by apply (mv_audit _ prior y)]. rewrite <- Ht. by eapply mv_publish.
Qed.

Lemma untouched_rollback tenant target prior key : untouched (restore_effective_catalog tenant target prior key).
Proof. unfold restore_effective_catalog. auto with custom. Qed.

(** ** Publishing *)

Lemma other_publish_kept tenant id y e s : other_publish tenant id (add_event e (set_row id y s)) = other_publish tenant id s.
Proof.
  apply eq_true_iff_eq. unfold other_publish. rewrite !existsb_exists. simpl. split; intros ([k x] & Hin & Hb); exists (k, x);
    (split; [|done]); apply list_elem_of_In, elem_of_map_to_list; apply list_elem_of_In, elem_of_map_to_list in Hin;
    rewrite !andb_true_iff, negb_true_iff, bool_decide_eq_false in Hb; destruct Hb as [_ Hne]; simpl in Hne.
  - by rewrite lookup_insert_ne in Hin.
  - by rewrite lookup_insert_ne.
Qed.

(** A transition that no audit event answers is made. *)
Lemma advance id f cur next version key x s r s' : cd_rows s !! id = Some cur →
  (∀ e, e ∈ cd_events s → ev_change_set e = id → ev_next e ≠ next) →
  _transition_row id (set_fields f cur) next version key x s = (Ok r, s') →
  transitioned id cur next version key x s s' ∧ ∃ f', r = set_fields f' (moved next (xt_staged x) (xt_digest x) (xt_approver x) cur).
Proof.
  intros Hcur Hnew H. apply (transition_row_Ok _ _ _ _ _ _ _ _ _ _ Hcur) in H as [[_ (e & He & _ & _ & Hid & Hn & _)]|H]; [|done].
  by destruct (Hnew e He Hid).
Qed.

(** What the state is after it. *)
Lemma advanced id cur next version key x s s' : transitioned id cur next version key x s s' →
  cd_rows s' !! id = Some (moved next (xt_staged x) (xt_digest x) (xt_approver x) cur) ∧
  cd_prepared s' = cd_prepared s ∧ cd_confirmations s' = cd_confirmations s ∧
  (∀ tenant, other_publish tenant id s' = other_publish tenant id s) ∧
  (∀ n, n ≠ next → (∀ e, e ∈ cd_events s → ev_change_set e = id → ev_next e ≠ n) → ∀ e, e ∈ cd_events s' → ev_change_set e = id → ev_next e ≠ n).
Proof.
  intros [_ _ _ _ _ ->]. split_and!; try done.
  - simpl. by rewrite lookup_insert_eq.
  - intros tenant. apply other_publish_kept.
  - intros n Hn Hev e [He|He]%elem_of_app; [by apply Hev|]. apply list_elem_of_singleton in He as ->. simpl. congruence.
Qed.

(** A staged row that no event shows past its staging, under a confirmation of its content. *)
Lemma prepare_moves tenant id cid signature approver key s r s' :
  (∀ c x, cd_confirmations s !! cid = Some c → cd_rows s !! id = Some x → rq_tenant (cs_request x) = tenant → cs_state x = STAGED → confirms c id x) →
  (∀ x e, cd_rows s !! id = Some x → cs_state x = STAGED → e ∈ cd_events s → ev_change_set e = id →
    ev_next e ≠ AWAITING_APPROVAL ∧ ev_next e ≠ APPROVED ∧ ev_next e ≠ PUBLISHING) →
  prepare_publish tenant id cid signature approver key s = (Ok r, s') →
  moves s s' ∧ ∃ y f, cd_rows s' !! id = Some y ∧ rq_tenant (cs_request y) = tenant ∧ cs_state y = PUBLISHING ∧ r = set_fields f y.
Proof.
  intros Hconf Hev H. unfold prepare_publish in H. apply (proj1 (atomically_Ok _ _ _ _)) in H.
  apply io_bind_inv in H as (row & t & [-> (x & f & Hx & Htn & ->)]%find_Ok & H). simpl in H. case_bool_decide as Hp.
  - unfold prepared_before in H. walk. destruct (_ && _); walk. split; [apply star_refl|]. by exists x, f.
  - apply io_bind_inv in H as (u1 & t1 & [Hst%bool_decide_eq_true ->]%ensure_inv & H). apply io_bind_inv in H as (o & t2 & [-> ->]%reads_inv & H).
    apply io_bind_inv in H as (u2 & t3 & [Hno%negb_true_iff ->]%ensure_inv & H). apply io_bind_inv in H as (b & t4 & Hcons & H).
    apply io_bind_inv in H as (u3 & t5 & [-> ->]%ensure_inv & H). apply consume_row_Ok in Hcons as [[? _]|[_ (c & Hc & Hnc & _ & ->)]]; [done|].
    apply io_bind_inv in H as (u4 & t6 & ->%writes_inv & H). pose proof (Hconf _ _ Hc Hx Htn Hst) as Hcx.
    pose proof (mv_prepare s cid c id Hc Hnc) as Hmv. set (s2 := note_prepared _ _ _) in *.
    assert (Hx2 : cd_rows s2 !! id = Some x) by done. assert (Ho2 : other_publish tenant id s2 = false) by done.
    assert (Hc2 : (cid, id) ∈ cd_prepared s2 ∧ cd_confirmations s2 !! cid = Some (consumed c)).
    { split; [left|]. simpl. apply lookup_insert_eq. }
    assert (Hv2 : ∀ e, e ∈ cd_events s2 → ev_change_set e = id → ev_next e ≠ AWAITING_APPROVAL ∧ ev_next e ≠ APPROVED ∧ ev_next e ≠ PUBLISHING) by eauto.
    clearbody s2. clear Hev Hconf Hx Hc Hnc Hno.
    apply io_bind_inv in H as (r1 & s3 & H1 & H). apply advance in H1 as [T1 [f1 ->]]; [|done|naive_solver].
    destruct (advanced _ _ _ _ _ _ _ _ T1) as (Hx3 & Hp3 & Hc3 & Ho3 & Hv3). simpl in Hx3.
    apply io_bind_inv in H as (r2 & s4 & H2 & H). apply advance in H2 as [T2 [f2 ->]]; [|done|apply Hv3; naive_solver].
    destruct (advanced _ _ _ _ _ _ _ _ T2) as (Hx4 & Hp4 & Hc4 & Ho4 & Hv4). simpl in Hx4.
    apply advance in H as [T3 [f3 ->]]; [|done|apply Hv4; [done|apply Hv3; naive_solver]].
    destruct (advanced _ _ _ _ _ _ _ _ T3) as (Hx5 & _). simpl in Hx5.
    split; [|eexists _, f3; split_and!; [exact Hx5|done|done|done]].
    eapply star_step; [exact Hmv|]. eapply star_step; [eapply (transitioned_move _ _ _ _ _ _ _ _ Hx2 T1); simpl; try done|].
    { left. rewrite Hst. split; [done|left]. }
    { intros _. exists cid, (consumed c). by destruct Hc2. }
    eapply star_step; [eapply (transitioned_move _ _ _ _ _ _ _ _ Hx3 T2); simpl; try done|].
    { left. split; [done|left]. }
    apply star_one. eapply (transitioned_move _ _ _ _ _ _ _ _ Hx4 T3); simpl; try done.
    { left. split; [done|left]. }
    { intros _. by rewrite Htn, Ho4, Ho3. }
Qed.

(** The row is being published at the version that is asked for, or was published. *)
Lemma publish_moves tenant id version key approver s c s' :
  (∀ x e, cd_rows s !! id = Some x → e ∈ cd_events s → ev_change_set e = id → ev_next e = PUBLISHED → cs_state x = PUBLISHED) →
  (∀ x, cd_rows s !! id = Some x → cs_version x = version → cs_state x = PUBLISHING) →
  publish tenant id version key approver s = (Ok c, s') →
  moves s s' ∧ ∃ x, cd_rows s' !! id = Some x ∧ cs_state x = PUBLISHED ∧ catalog_of id x = Some c.
Proof.
  intros Hev Hver H. unfold publish in H. apply (proj1 (atomically_Ok _ _ _ _)) in H.
  apply io_bind_inv in H as (row & t & [-> (x & f & Hx & Htn & ->)]%find_Ok & H). apply io_bind_inv in H as (u & t & ->%reading_bound & H).
  apply io_bind_inv in H as (y & t & Htr & H). apply io_bind_inv in H as (c' & t' & [Hc%from_opt_Ok ->]%require_inv & H).
  assert (moves s t ∧ ∃ z f', cd_rows t !! id = Some z ∧ cs_state z = PUBLISHED ∧ rq_tenant (cs_request z) = tenant ∧ y = set_fields f' z)
    as (Hm & z & f' & Hz & Hst & Htz & ->).
  { apply (transition_row_Ok _ _ _ _ _ _ _ _ _ _ Hx) in Htr as [[-> (e & He & _ & _ & Hid & Hn & f' & ->)]|[T [f' ->]]].
    - split; [apply star_refl|]. exists x, f'. eauto.
    - destruct (advanced _ _ _ _ _ _ _ _ T) as (Hx' & _). split; [|eexists _, f'; by split_and!].
      apply star_one. eapply transitioned_move; [exact Hx|exact T| |done..]. rewrite (Hver x Hx (tr_version _ _ _ _ _ _ _ _ T)). left. split; [done|left]. }
  apply io_bind_inv in H as (u' & t2 & ->%writes_inv & H). unfold _effective_catalog in H. walk.
  match goal with Hr : from_opt _ _ = Ok _ |- _ => apply from_opt_Ok in Hr; simpl in Hr; rewrite lookup_insert_eq in Hr; injection Hr as <- end.
  split; [|by exists z]. eapply star_trans; [exact Hm|]. apply star_one. rewrite <- Htz. by eapply mv_publish.
Qed.
