(* ===== verification/CustomSafety.v ===== *)
(** * Customization: what every state satisfies

    How a database may evolve ([custom_grows]) and what holds of it ([custom_inv]):
    the audit trail of a change set, the approvals, the pinned catalogs, the publication
    under way and the workers that stage. *)

From Stdlib Require Import Ascii.
From stdpp Require Import sorting.
From S2P Require Import Prelude PyText Json AgentCalls ProjectContext Concurrent CustomStore CustomPublish CustomSystem.
Local Open Scope Z_scope.

(** ** How a database evolves *)

(** How far a change set has come. *)
Definition rank (st : change_state) : Z :=
  match st with
  | CREATED => 0 | STAGING => 1 | STAGED => 2 | AWAITING_APPROVAL => 3 | APPROVED => 4 | PUBLISHING => 5 | SUPERSEDED => 6 | PUBLISHED => 7
  | _ => 2
  end.

Lemma serviced_cases from to : serviced from to →
  (from, to) ∈ [(CREATED, STAGING); (STAGING, STAGED); (STAGED, AWAITING_APPROVAL); (AWAITING_APPROVAL, APPROVED); (APPROVED, PUBLISHING);
                (PUBLISHING, PUBLISHED); (PUBLISHING, SUPERSEDED); (CREATED, FAILED); (STAGING, FAILED)].
Proof.
  intros [[Hne Hin]|[-> Hin]]; [destruct from; simpl in Hin; set_solver|]. apply list_elem_of_In in Hin as [<-|[<-|[]]]; set_solver.
Qed.

(** Goes through the moves of a row. *)
Ltac each_move H :=
  apply serviced_cases, list_elem_of_In in H; simpl in H;
  destruct H as [H|[H|[H|[H|[H|[H|[H|[H|[H|[]]]]]]]]]]; injection H as <- <-.

Lemma serviced_rank from to : serviced from to → rank from < rank to.
Proof. intros H. by each_move H. Qed.

Lemma serviced_approved from to : serviced from to → to ≠ APPROVED → 4 <= rank to → 4 <= rank from.
Proof. intros H. each_move H; simpl; intros; done || lia. Qed.

Lemma serviced_awaiting from to : serviced from to → 3 <= rank to → 2 <= rank from ∧ (to ≠ AWAITING_APPROVAL → 3 <= rank from).
Proof. intros H. each_move H; simpl; intros; (split; [|intros]); done || lia. Qed.

Lemma serviced_staged from : serviced from STAGED → from = STAGING.
Proof. intros [[_ H]|[H _]]; [|done]. destruct from; simpl in H; set_solver. Qed.

Lemma past_rank x : past_staging x ↔ 2 <= rank (cs_state x).
Proof. unfold past_staging. destruct (cs_state x); simpl; split; intros H; try lia; try set_solver. Qed.

Lemma published_rank st : 7 <= rank st → st = PUBLISHED.
Proof. by destruct st. Qed.

Definition content (x : change_set) : option string * option string := (cs_staged x, cs_digest x).

Record follows (x x' : change_set) : Prop := Follows {
  fo_request : cs_request x' = cs_request x;
  fo_version : cs_version x <= cs_version x';
  fo_same : cs_version x' = cs_version x → cs_state x' = cs_state x;
  fo_rank : rank (cs_state x) <= rank (cs_state x');
  fo_content : past_staging x → content x' = content x }.

#[export] Instance follows_preorder : PreOrder follows.
Proof.
  split; [by intros x; split|]. intros x y z [A1 A2 A3 A4 A5] [B1 B2 B3 B4 B5]. split; try lia; try congruence.
  - intros Hv. rewrite B3, A3; [done|lia|lia].
  - intros Hp. rewrite B5, A5; [done|done|]. apply past_rank in Hp. apply past_rank. lia.
Qed.

Record custom_grows (s s' : cdb) : Prop := CustomGrows {
  gr_rows : ∀ id x, cd_rows s !! id = Some x → ∃ x', cd_rows s' !! id = Some x' ∧ follows x x';
  gr_confirmations : confirmations_grow (cd_confirmations s) (cd_confirmations s');
  gr_events : cd_events s `prefix_of` cd_events s';
  gr_prepared : cd_prepared s `suffix_of` cd_prepared s';
  gr_snapshots : cd_snapshots s ⊆ cd_snapshots s' }.

Lemma grow_trans m1 m2 m3 : confirmations_grow m1 m2 → confirmations_grow m2 m3 → confirmations_grow m1 m3.
Proof.
  intros H1 H2 k c Hc. destruct (H1 _ _ Hc) as (c2 & Hc2 & P2 & S2' & K2). destruct (H2 _ _ Hc2) as (c3 & Hc3 & P3 & S3 & K3).
  exists c3. split_and!; [done|congruence|congruence|auto].
Qed.

#[export] Instance custom_grows_preorder : PreOrder custom_grows.
Proof.
  split.
  - intros s. split; try done; [|apply grow_refl]. intros id x Hx. exists x. by split.
  - intros s1 s2 s3 [A1 A2 A3 A4 A5] [B1 B2 B3 B4 B5]. split; [|by eapply grow_trans|by etransitivity|by etransitivity|by etransitivity].
    intros id x Hx. destruct (A1 _ _ Hx) as (y & Hy & F1). destruct (B1 _ _ Hy) as (z & Hz & F2). exists z. split; [done|by etransitivity].
Qed.

Lemma follows_moved next staged digest approver x : serviced (cs_state x) next → (next ≠ STAGED → staged = None ∧ digest = None) →
  follows x (moved next staged digest approver x).
Proof.
  intros Hs Hc. pose proof (serviced_rank _ _ Hs). split; simpl; try done; try lia. intros Hp%past_rank.
  destruct (decide (next = STAGED)) as [->|Hne].
  { rewrite (serviced_staged _ Hs) in Hp. simpl in Hp. lia. }
  unfold content. simpl. by destruct (Hc Hne) as [-> ->].
Qed.

Lemma follows_stage g x : follows x (set_stage g x).
Proof. by split. Qed.

Lemma follows_fields f x : follows x (set_fields f x).
Proof. by split. Qed.

Lemma rows_follow_insert (m : gmap string change_set) id x x' : m !! id = Some x → follows x x' →
  ∀ k y, m !! k = Some y → ∃ y', <[id := x']> m !! k = Some y' ∧ follows y y'.
Proof.
  intros Hx Hf k y Hy. destruct (decide (k = id)) as [->|Hne].
  - exists x'. rewrite lookup_insert_eq. by replace y with x by congruence.
  - exists y. rewrite lookup_insert_ne by done. by split.
Qed.

Lemma rows_follow_same (m : gmap string change_set) : ∀ k y, m !! k = Some y → ∃ y', m !! k = Some y' ∧ follows y y'.
Proof. intros k y Hy. exists y. by split. Qed.

#[local] Hint Resolve grow_refl rows_follow_same follows_stage follows_fields rows_follow_insert : custom.
#[local] Hint Extern 1 (_ `prefix_of` _) => (reflexivity || (apply prefix_app_r; reflexivity)) : custom.
#[local] Hint Extern 1 (_ `suffix_of` _) => (reflexivity || (apply suffix_cons_r; reflexivity)) : custom.
#[local] Hint Extern 1 (_ ⊆ _) => reflexivity : custom.

Lemma custom_move_grows s s' : custom_move s s' → custom_grows s s'.
Proof.
  destruct 1; split; simpl; eauto with custom.
  - intros k y Hy. exists y. split; [|done]. rewrite lookup_insert_ne; [done|congruence].
  - eapply rows_follow_insert; [done|]. by apply follows_moved.
  - by apply insert_subseteq.
  - by apply consumed_grows.
Qed.

Lemma moves_grow s s' : moves s s' → custom_grows s s'.
Proof. induction 1 as [s|s1 s2 s3 H1 _ IH]; [done|]. etransitivity; [by apply custom_move_grows|done]. Qed.

(** ** Rows that keep what is audited *)

(** Only the columns of the worker and the record fields differ. *)
Definition core (x : change_set) := (cs_request x, cs_state x, cs_version x, cs_staged x, cs_digest x, cs_approver x).

Definition quiet (s s' : cdb) : Prop := ∀ id, core <$> cd_rows s' !! id = core <$> cd_rows s !! id.

Lemma quiet_same s s' : cd_rows s' = cd_rows s → quiet s s'.
Proof. intros H id. by rewrite H. Qed.

Lemma quiet_insert s s' id x x' : cd_rows s !! id = Some x → core x' = core x → cd_rows s' = <[id := x']> (cd_rows s) → quiet s s'.
Proof. intros Hx Hc Hr k. rewrite Hr. destruct (decide (k = id)) as [->|Hne]; [by rewrite lookup_insert_eq, Hx; simpl; f_equal|by rewrite lookup_insert_ne]. Qed.

Lemma quiet_back s s' id x' : quiet s s' → cd_rows s' !! id = Some x' → ∃ x, cd_rows s !! id = Some x ∧ core x = core x'.
Proof. intros Hq Hx. specialize (Hq id). rewrite Hx in Hq. destruct (cd_rows s !! id) as [x|]; [|done]. injection Hq as Hq. exists x. unfold core. by split; [|congruence]. Qed.

Lemma confirms_core c c' id x x' : confirms c id x → cf_payload c' = cf_payload c → cs_request x' = cs_request x → content x' = content x → confirms c' id x'.
Proof. intros (d & k & g & H1 & H2 & H3 & H4) Hp Hr Hc. injection Hc as E1 E2. exists d, k, g. rewrite Hp, Hr, E1, E2. done. Qed.

Lemma catalog_core id x x' : cs_request x' = cs_request x → content x' = content x → catalog_of id x' = catalog_of id x.
Proof. intros Hr Hc. injection Hc as E1 E2. unfold catalog_of. by rewrite Hr, E1, E2. Qed.

(** ** The audit trail *)

(** Every audit event of the change set, in order. *)
Definition trail (id : string) (s : cdb) : list event := filter (λ e, ev_change_set e = id) (cd_events s).

(** The events that record a move of the row.  The others record a rollback of the
    effective catalog away from it. *)
Definition row_moves (l : list event) : list event := filter (λ e, ev_next e ≠ ROLLED_BACK) l.

(** The events lead from one state to another: each is a move of the service from
    the state before it, or the note of a rollback, which names the state the row is
    in and leaves it there. *)
Fixpoint leads (from : option change_state) (l : list event) (to : option change_state) : Prop :=
  match l with
  | [] => from = to
  | e :: l' =>
      ev_prior e = from ∧
      if bool_decide (ev_next e = ROLLED_BACK) then is_Some from ∧ leads from l' to
      else match from with Some st => serviced st (ev_next e) | None => ev_next e = CREATED end ∧ leads (Some (ev_next e)) l' to
  end.

Lemma leads_snoc from l st e : leads from l st → ev_prior e = st → ev_next e ≠ ROLLED_BACK →
  match st with Some p => serviced p (ev_next e) | None => ev_next e = CREATED end →
  leads from (l ++ [e]) (Some (ev_next e)).
Proof.
  intros Hl He Hn Hs. revert from Hl. induction l as [|a l IH]; intros from; simpl.
  - intros ->. by rewrite bool_decide_false.
  - intros (H1 & H2). split; [done|]. destruct (bool_decide (ev_next a = ROLLED_BACK)), H2 as [H2 H3]; (split; [done|by apply IH]).
Qed.

Lemma leads_note from l st e : leads from l (Some st) → ev_prior e = Some st → ev_next e = ROLLED_BACK → leads from (l ++ [e]) (Some st).
Proof.
  intros Hl He Hn. revert from Hl. induction l as [|a l IH]; intros from; simpl.
  - intros ->. by rewrite bool_decide_true.
  - intros (H1 & H2). split; [done|]. destruct (bool_decide (ev_next a = ROLLED_BACK)), H2 as [H2 H3]; (split; [done|by apply IH]).
Qed.

Definition entries (o : option change_set) : Z := match o with Some x => cs_version x + 1 | None => 0 end.

Record trail_inv (s : cdb) : Prop := TrailInv {
  iv_leads : ∀ id, leads None (trail id s) (cs_state <$> cd_rows s !! id);
  iv_length : ∀ id, Z.of_nat (length (row_moves (trail id s))) = entries (cd_rows s !! id);
  iv_past : ∀ e, e ∈ cd_events s → ev_next e ≠ ROLLED_BACK → ∃ x, cd_rows s !! ev_change_set e = Some x ∧ rank (ev_next e) <= rank (cs_state x) }.

Lemma trail_quiet s s' : quiet s s' → (∀ id, trail id s' = trail id s) →
  (∀ e, e ∈ cd_events s' → ev_next e ≠ ROLLED_BACK → e ∈ cd_events s) → trail_inv s → trail_inv s'.
Proof.
  intros Hq Ht He [L N P]. split.
  - intros id. rewrite Ht. specialize (L id). specialize (Hq id). destruct (cd_rows s' !! id) as [x'|], (cd_rows s !! id) as [x|]; try done.
    simpl in *. injection Hq as _ -> _ _ _ _. done.
  - intros id. rewrite Ht, N. specialize (Hq id). destruct (cd_rows s' !! id) as [x'|], (cd_rows s !! id) as [x|]; try done.
    simpl in *. injection Hq as _ _ -> _ _ _. done.
  - intros e Hin Hn. destruct (P e (He e Hin Hn) Hn) as (x & Hx & Hr). specialize (Hq (ev_change_set e)). rewrite Hx in Hq.
    destruct (cd_rows s' !! _) as [x'|]; [|done]. injection Hq as _ E _ _ _ _. exists x'. by rewrite E.
Qed.

Lemma trail_add id e s : ev_change_set e = id → trail id (add_event e s) = trail id s ++ [e].
Proof. intros He. unfold trail. simpl. rewrite filter_app. f_equal. by rewrite filter_cons_True. Qed.

Lemma trail_add_ne id e s : ev_change_set e ≠ id → trail id (add_event e s) = trail id s.
Proof. intros He. unfold trail. simpl. by rewrite filter_app, filter_cons_False, filter_nil, app_nil_r. Qed.

(** A rollback noted on a row that is there. *)
Lemma trail_note s x e : cd_rows s !! ev_change_set e = Some x → ev_prior e = Some (cs_state x) → ev_next e = ROLLED_BACK →
  trail_inv s → trail_inv (add_event e s).
Proof.
  intros Hx Hp Hn [L N P]. split.
  - intros k. simpl. destruct (decide (ev_change_set e = k)) as [<-|Hk]; [|rewrite trail_add_ne by done; apply L].
    rewrite trail_add, Hx by done. simpl. apply leads_note; [|done|done]. specialize (L (ev_change_set e)). by rewrite Hx in L.
  - intros k. simpl. destruct (decide (ev_change_set e = k)) as [<-|Hk]; [|rewrite trail_add_ne by done; apply N].
    unfold row_moves. rewrite trail_add, filter_app, filter_cons_False, filter_nil, app_nil_r by naive_solver. apply N.
  - intros a [Ha|Ha]%elem_of_app Hna; [by apply P|]. apply list_elem_of_singleton in Ha as ->. done.
Qed.

(** A row that moved, with the event that records it. *)
Lemma trail_step s id y e : ev_change_set e = id → ev_next e = cs_state y → ev_next e ≠ ROLLED_BACK → ev_prior e = cs_state <$> cd_rows s !! id →
  match cd_rows s !! id with Some x => serviced (cs_state x) (ev_next e) | None => ev_next e = CREATED end →
  cs_version y = entries (cd_rows s !! id) → trail_inv s → trail_inv (add_event e (set_row id y s)).
Proof.
  intros Hid Hst Hrb Hpr Hsv Hv [L N P]. assert (Htr : trail id (add_event e (set_row id y s)) = trail id s ++ [e]).
  { by rewrite trail_add. }
  assert (Hne : ∀ k, k ≠ id → trail k (add_event e (set_row id y s)) = trail k s).
  { intros k Hk. by rewrite trail_add_ne by congruence. }
  split.
  - intros k. destruct (decide (k = id)) as [->|Hk].
    + rewrite Htr. simpl. rewrite lookup_insert_eq. simpl. rewrite <- Hst. eapply leads_snoc; [apply L|done|done|].
      by destruct (cd_rows s !! id).
    + rewrite Hne by done. simpl. rewrite lookup_insert_ne by done. apply L.
  - intros k. destruct (decide (k = id)) as [->|Hk].
    + unfold row_moves. rewrite Htr, filter_app, length_app, filter_cons_True by done. simpl. rewrite lookup_insert_eq. simpl. specialize (N id). unfold row_moves in N. lia.
    + rewrite Hne by done. simpl. rewrite lookup_insert_ne by done. apply N.
  - intros a [Ha|Ha]%elem_of_app Hna.
    + destruct (P a Ha Hna) as (x & Hx & Hr). simpl. destruct (decide (ev_change_set a = id)) as [Heq|Hk].
      * exists y. rewrite Heq, lookup_insert_eq. split; [done|]. rewrite Heq in Hx. rewrite Hx in Hsv. apply serviced_rank in Hsv. rewrite <- Hst. lia.
      * exists x. by rewrite lookup_insert_ne.
    + apply list_elem_of_singleton in Ha as ->. exists y. simpl. rewrite Hid, lookup_insert_eq. split; [done|]. rewrite Hst. lia.
Qed.

Lemma serviced_rolled from to : serviced from to → to ≠ ROLLED_BACK.
Proof. intros H. by each_move H. Qed.

(** The moves of rows apart, a move is quiet. *)
Lemma move_cases s s' : custom_move s s' →
  (∃ id rq now e, cd_rows s !! id = None ∧ ev_change_set e = id ∧ ev_prior e = None ∧ ev_next e = CREATED ∧
     s' = add_event e (set_row id (ChangeSet rq CREATED 0 None None None None fresh_stage now) s)) ∨
  (∃ id x next staged digest approver e, cd_rows s !! id = Some x ∧ serviced (cs_state x) next ∧ (next ≠ STAGED → staged = None ∧ digest = None) ∧
     (next = APPROVED → ∃ a, approver = Some a ∧ a ≠ rq_author (cs_request x)) ∧
     (next = PUBLISHING → other_publish (rq_tenant (cs_request x)) id s = false) ∧
     (next = AWAITING_APPROVAL → ∃ cid c, (cid, id) ∈ cd_prepared s ∧ cd_confirmations s !! cid = Some c ∧ confirms c id x) ∧
     recorded id x next approver e ∧ s' = add_event e (set_row id (moved next staged digest approver x) s)) ∨
  (quiet s s' ∧ (cd_events s' = cd_events s ∨ ∃ x e, cd_rows s !! ev_change_set e = Some x ∧ ev_prior e = Some (cs_state x) ∧
     ev_next e = ROLLED_BACK ∧ s' = add_event e s)).
Proof.
  destruct 1 as [s id rq now e|s id x next staged digest approver e| | | | | | | | | | | | |];
    [left; exists id, rq, now, e; by split_and!|right; left; exists id, x, next, staged, digest, approver, e; by split_and!|right; right..].
  all: try (split; [by apply quiet_same|]); try (by left); try (by right; subst; eauto 6).
  all: split; [eapply quiet_insert; [eassumption| |reflexivity]; reflexivity|by left].
Qed.

Lemma trail_moves s s' : custom_move s s' → trail_inv s → trail_inv s'.
Proof.
  intros [(id & rq & now & e & Hn & Hid & Hp & Hc & ->)|[(id & x & next & st & dg & ap & e & Hx & Hs & _ & _ & _ & _ & (Hid & Hp & Hnx & _) & ->)
    |[Hq Hev]]]%move_cases Hinv.
  - apply trail_step; simpl; rewrite ?Hn; try done; congruence.
  - pose proof (serviced_rolled _ _ Hs). apply trail_step; simpl; rewrite ?Hx; simpl; try done; congruence.
  - destruct Hev as [Hev|(x & e & Hx & Hp & Hn & ->)]; [|by apply (trail_note s x)].
    apply (trail_quiet s); try done; unfold trail; by rewrite Hev.
Qed.

(** ** Approvals *)

(** An event that records the approval of [id] by another than its author. *)
Definition approved_event (id author : string) (e : event) : Prop :=
  ev_change_set e = id ∧ ev_next e = APPROVED ∧ ev_author e = author ∧ ∃ a, ev_approver e = Some a ∧ a ≠ author.

Record approval_inv (s : cdb) : Prop := ApprovalInv {
  iv_approved : ∀ id x, cd_rows s !! id = Some x → 4 <= rank (cs_state x) → ∃ e, e ∈ cd_events s ∧ approved_event id (rq_author (cs_request x)) e;
  iv_confirmed : ∀ id x, cd_rows s !! id = Some x → 3 <= rank (cs_state x) →
    ∃ cid c, (cid, id) ∈ cd_prepared s ∧ cd_confirmations s !! cid = Some c ∧ confirms c id x;
  iv_spent_once : NoDup (cd_prepared s).*1;
  iv_spent : ∀ cid id, (cid, id) ∈ cd_prepared s → ∃ c, cd_confirmations s !! cid = Some c ∧ cf_consumed c = true }.

Lemma event_kept s s' (P : event → Prop) : custom_grows s s' → (∃ e, e ∈ cd_events s ∧ P e) → ∃ e, e ∈ cd_events s' ∧ P e.
Proof. intros [_ _ [l Hl] _ _] (e & He & HP). exists e. split; [|done]. rewrite Hl. apply elem_of_app. by left. Qed.

Lemma confirmed_kept s s' id x x' : custom_grows s s' → cs_request x' = cs_request x → content x' = content x →
  (∃ cid c, (cid, id) ∈ cd_prepared s ∧ cd_confirmations s !! cid = Some c ∧ confirms c id x) →
  ∃ cid c, (cid, id) ∈ cd_prepared s' ∧ cd_confirmations s' !! cid = Some c ∧ confirms c id x'.
Proof.
  intros [_ Hc _ [l Hl] _] Hr Hx (cid & c & Hp & Hcc & Hcf). destruct (Hc _ _ Hcc) as (c' & Hc' & Hpay & _). exists cid, c'.
  split_and!; [rewrite Hl; apply elem_of_app; by right|done|by eapply confirms_core].
Qed.

(** The rows of a state after a move: new, moved, or as they were. *)
Lemma row_cases s s' id y : custom_move s s' → cd_rows s' !! id = Some y →
  (cd_rows s !! id = None ∧ cs_state y = CREATED) ∨
  (∃ x, cd_rows s !! id = Some x ∧ core x = core y) ∨
  (∃ x, cd_rows s !! id = Some x ∧ serviced (cs_state x) (cs_state y) ∧ cs_request y = cs_request x ∧
     (past_staging x → content y = content x) ∧
     (cs_state y = APPROVED → ∃ e, e ∈ cd_events s' ∧ approved_event id (rq_author (cs_request y)) e) ∧
     (cs_state y = PUBLISHING → other_publish (rq_tenant (cs_request y)) id s = false) ∧
     (cs_state y = AWAITING_APPROVAL → ∃ cid c, (cid, id) ∈ cd_prepared s ∧ cd_confirmations s !! cid = Some c ∧ confirms c id x)).
Proof.
  intros [(k & rq & now & e & Hn & Hid & Hp & Hc & ->)|[(k & x & next & st & dg & ap & e & Hx & Hs & Hct & Ha & Hpb & Hw & (Hid & Hp & Hnx & Hau & Hae) & ->)
    |[Hq _]]]%move_cases Hy; simpl in Hy.
  - apply lookup_insert_Some in Hy as [[<- <-]|[_ Hy]]; [by left|right; left; eauto].
  - apply lookup_insert_Some in Hy as [[<- <-]|[_ Hy]]; [right; right|right; left; eauto]. exists x. simpl. split_and!; try done.
    + by apply (fo_content _ _ (follows_moved next st dg ap x Hs Hct)).
    + intros ->. destruct (Ha eq_refl) as (a & -> & Hne). exists e. split; [apply elem_of_app; right; by apply list_elem_of_singleton|].
      split_and!; try done. by exists a.
  - right; left. by eapply quiet_back.
Qed.

Lemma core_fields x y : core x = core y → cs_request y = cs_request x ∧ cs_state y = cs_state x ∧ content y = content x.
Proof. unfold core, content. intros [= E1 E2 _ E3 E4 _]. split_and!; congruence. Qed.

Lemma approved_moves s s' : custom_move s s' → approval_inv s →
  ∀ id y, cd_rows s' !! id = Some y → 4 <= rank (cs_state y) → ∃ e, e ∈ cd_events s' ∧ approved_event id (rq_author (cs_request y)) e.
Proof.
  intros Hm Hinv id y Hy Hrk. pose proof (custom_move_grows _ _ Hm) as Hg.
  destruct (row_cases _ _ _ _ Hm Hy) as [[_ Hst]|[(x & Hx & Hc)|(x & Hx & Hs & Hr & _ & Ha & _ & _)]].
  - rewrite Hst in Hrk. simpl in Hrk. lia.
  - apply core_fields in Hc as (Hr & Hst & _). rewrite Hr. rewrite Hst in Hrk. eapply event_kept; [done|]. by eapply iv_approved.
  - destruct (decide (cs_state y = APPROVED)) as [Heq|Hne]; [by apply Ha|]. rewrite Hr. eapply event_kept; [done|]. eapply iv_approved; [done|done|].
    by eapply serviced_approved.
Qed.

Lemma confirmed_moves s s' : custom_move s s' → approval_inv s → ∀ id y, cd_rows s' !! id = Some y → 3 <= rank (cs_state y) →
  ∃ cid c, (cid, id) ∈ cd_prepared s' ∧ cd_confirmations s' !! cid = Some c ∧ confirms c id y.
Proof.
  intros Hm Hinv id y Hy Hrk. pose proof (custom_move_grows _ _ Hm) as Hg.
  destruct (row_cases _ _ _ _ Hm Hy) as [[_ Hst]|[(x & Hx & Hc)|(x & Hx & Hs & Hr & Hct & _ & _ & Hw)]].
  - rewrite Hst in Hrk. simpl in Hrk. lia.
  - apply core_fields in Hc as (Hr & Hst & Hct). rewrite Hst in Hrk. eapply confirmed_kept; [done|done|done|]. by eapply iv_confirmed.
  - destruct (serviced_awaiting _ _ Hs Hrk) as [Hpx%past_rank H3]. eapply confirmed_kept; [done|done|by apply Hct|]. destruct (decide (cs_state y = AWAITING_APPROVAL)) as [Heq|Hne]; [by apply Hw|].
    eapply iv_confirmed; [done|done|auto].
Qed.

Lemma spent_kept m m' cid : confirmations_grow m m' → (∃ c, m !! cid = Some c ∧ cf_consumed c = true) → ∃ c, m' !! cid = Some c ∧ cf_consumed c = true.
Proof. intros Hg (c & Hc & Hs). destruct (Hg _ _ Hc) as (c' & Hc' & _ & _ & Hk). exists c'. auto. Qed.

Lemma spent_moves s s' : custom_move s s' → NoDup (cd_prepared s).*1 →
  (∀ cid id, (cid, id) ∈ cd_prepared s → ∃ c, cd_confirmations s !! cid = Some c ∧ cf_consumed c = true) →
  NoDup (cd_prepared s').*1 ∧ ∀ cid id, (cid, id) ∈ cd_prepared s' → ∃ c, cd_confirmations s' !! cid = Some c ∧ cf_consumed c = true.
Proof.
  intros Hm Hnd Hsp. pose proof (gr_confirmations _ _ (custom_move_grows _ _ Hm)) as Hg.
  assert (Hold : cd_prepared s' = cd_prepared s → NoDup (cd_prepared s').*1 ∧ ∀ cid id, (cid, id) ∈ cd_prepared s' →
    ∃ c, cd_confirmations s' !! cid = Some c ∧ cf_consumed c = true).
  { intros ->. split; [done|]. intros cid id Hin. eapply spent_kept; eauto. }
  destruct Hm; try by apply Hold. simpl in *. split.
  - constructor; [|done]. intros ([k j] & -> & Hin)%list_elem_of_fmap. destruct (Hsp _ _ Hin) as (c' & Hc' & Hs). simpl in *. congruence.
  - intros k j [[= -> ->]|Hin]%elem_of_cons; [exists (consumed c); by rewrite lookup_insert_eq|]. eapply spent_kept; eauto.
Qed.

Lemma approval_moves s s' : custom_move s s' → approval_inv s → approval_inv s'.
Proof. intros Hm Hinv. destruct (spent_moves _ _ Hm (iv_spent_once _ Hinv) (iv_spent _ Hinv)). split; [by eapply approved_moves|by eapply confirmed_moves|done|done]. Qed.

(** ** One publication at a time *)

Definition publishing (s : cdb) (tenant id : string) : Prop := ∃ x, cd_rows s !! id = Some x ∧ rq_tenant (cs_request x) = tenant ∧ cs_state x = PUBLISHING.

Definition one_inv (s : cdb) : Prop := ∀ tenant i j, publishing s tenant i → publishing s tenant j → i = j.

Lemma no_other_publish tenant id s : other_publish tenant id s = false → ∀ j, publishing s tenant j → j = id.
Proof.
  intros Hf j (x & Hx & Ht & Hst). destruct (decide (j = id)) as [|Hne]; [done|]. exfalso. unfold other_publish in Hf.
  apply not_true_iff_false in Hf. apply Hf. apply existsb_exists. exists (j, x). split; [by apply list_elem_of_In, elem_of_map_to_list|].
  by rewrite !andb_true_iff, negb_true_iff, bool_decide_eq_false, !bool_decide_eq_true.
Qed.

(** A row that is being published was before the move, or it is the one that moved and no other was. *)
Lemma publishing_back s s' : custom_move s s' → (∃ id, ∀ tenant i, publishing s' tenant i → publishing s tenant i ∨ (i = id ∧ other_publish tenant id s = false)).
Proof.
  intros Hm. pose proof Hm as [(id & rq & now & e & Hn & _ & _ & _ & ->)|[(id & x & next & st & dg & ap & e & Hx & _ & _ & _ & Hpb & _ & _ & ->)|[Hq _]]]%move_cases.
  - exists id. intros tenant i (y & Hy & Ht & Hst). simpl in Hy. apply lookup_insert_Some in Hy as [[<- <-]|[_ Hy]]; [done|left; by exists y].
  - exists id. intros tenant i (y & Hy & Ht & Hst). simpl in Hy. apply lookup_insert_Some in Hy as [[<- <-]|[_ Hy]]; [|left; by exists y].
    right. split; [done|]. rewrite <- Ht. by apply Hpb.
  - exists ""%string. intros tenant i (y & Hy & Ht & Hst). left. destruct (quiet_back _ _ _ _ Hq Hy) as (x & Hx & (Hr & Hs & _)%core_fields).
    exists x. split_and!; congruence.
Qed.

Lemma one_moves s s' : custom_move s s' → one_inv s → one_inv s'.
Proof.
  intros [id Hb]%publishing_back Hinv tenant i j Hi Hj.
  destruct (Hb _ _ Hi) as [Bi|[-> Fi]], (Hb _ _ Hj) as [Bj|[-> Fj]]; [by eapply Hinv|by eapply no_other_publish| |done].
  symmetry. by eapply no_other_publish.
Qed.

(** ** Workers *)

Record worker_inv (s : cdb) : Prop := WorkerInv {
  iv_claims_once : NoDup (cd_claims s).*1;
  iv_claims : ∀ id n o, ((id, n), o) ∈ cd_claims s → ∃ x, cd_rows s !! id = Some x ∧ n <= sg_attempt (cs_stage x);
  iv_owner : ∀ id x o, cd_rows s !! id = Some x → sg_owner (cs_stage x) = Some o → ((id, sg_attempt (cs_stage x)), o) ∈ cd_claims s;
  iv_staged_once : NoDup (cd_staged s).*1;
  iv_staged : ∀ id n o, (id, (n, o)) ∈ cd_staged s → ((id, n), o) ∈ cd_claims s ∧
    ∃ x, cd_rows s !! id = Some x ∧ past_staging x ∧ sg_attempt (cs_stage x) = n ∧ sg_owner (cs_stage x) = None }.

(** A row is written whose worker is the same, or gone. *)
Lemma worker_row s s' id y : cd_rows s' = <[id := y]> (cd_rows s) → cd_claims s' = cd_claims s → cd_staged s' = cd_staged s →
  match cd_rows s !! id with
  | Some x => sg_attempt (cs_stage y) = sg_attempt (cs_stage x) ∧ (sg_owner (cs_stage y) = None ∨ sg_owner (cs_stage y) = sg_owner (cs_stage x)) ∧
              (past_staging x → past_staging y)
  | None => sg_owner (cs_stage y) = None
  end → worker_inv s → worker_inv s'.
Proof.
  intros Hr Hc Hs Hy [C1 C2 O S1 S2']. split; rewrite ?Hc, ?Hs; try done.
  - intros k n o Hin. destruct (C2 _ _ _ Hin) as (x & Hx & Hn). rewrite Hr. destruct (decide (k = id)) as [->|Hk].
    + rewrite Hx in Hy. exists y. rewrite lookup_insert_eq. split; [done|lia].
    + exists x. by rewrite lookup_insert_ne.
  - intros k z o. rewrite Hr. intros [[<- <-]|[_ Hz]]%lookup_insert_Some Ho; [|by apply O].
    destruct (cd_rows s !! id) as [x|] eqn:Hx; [|congruence]. destruct Hy as (-> & [?|E] & _); [congruence|]. apply O; [done|congruence].
  - intros k n o Hin. destruct (S2' _ _ _ Hin) as (Hcl & x & Hx & Hp & Hn & Ho). split; [done|]. rewrite Hr. destruct (decide (k = id)) as [->|Hk].
    + rewrite Hx in Hy. destruct Hy as (E1 & E2 & Hpp). exists y. rewrite lookup_insert_eq. split_and!; [done|auto|congruence|]. destruct E2; congruence.
    + exists x. by rewrite lookup_insert_ne.
Qed.

Lemma worker_same s s' : cd_rows s' = cd_rows s → cd_claims s' = cd_claims s → cd_staged s' = cd_staged s → worker_inv s → worker_inv s'.
Proof. intros Hr Hc Hs [C1 C2 O S1 S2']. by split; rewrite ?Hr, ?Hc, ?Hs. Qed.

Lemma worker_claims s id x g owner : cd_rows s !! id = Some x → cs_state x = STAGING → sg_attempt g = sg_attempt (cs_stage x) + 1 →
  sg_owner g = Some owner → worker_inv s → worker_inv (note_claim (id, sg_attempt g) owner (set_row id (set_stage g x) s)).
Proof.
  intros Hx Hst Ha Ho [C1 C2 O S1 S2']. split; simpl; try done.
  - constructor; [|done]. intros ([[k n] o] & E & Hin)%list_elem_of_fmap. simpl in E. injection E as <- <-.
    destruct (C2 _ _ _ Hin) as (y & Hy & Hn). replace y with x in Hn by congruence. lia.
  - intros k n o [[= -> -> ->]|Hin]%elem_of_cons; [exists (set_stage g x); by rewrite lookup_insert_eq|].
    destruct (C2 _ _ _ Hin) as (y & Hy & Hn). destruct (decide (k = id)) as [->|Hk]; [|exists y; by rewrite lookup_insert_ne].
    exists (set_stage g x). rewrite lookup_insert_eq. replace y with x in Hn by congruence. simpl. split; [done|lia].
  - intros k y o [[<- <-]|[Hk Hy]]%lookup_insert_Some Hoy; [|right; by apply O]. simpl in *. rewrite Ho in Hoy. injection Hoy as <-. left.
  - intros k n o Hin. destruct (S2' _ _ _ Hin) as (Hcl & y & Hy & Hp & Hrest). split; [by right|].
    destruct (decide (k = id)) as [->|Hk]; [|exists y; by rewrite lookup_insert_ne]. replace y with x in Hp by congruence.
    apply past_rank in Hp. rewrite Hst in Hp. simpl in Hp. lia.
Qed.

Lemma worker_stages s id x g owner : cd_rows s !! id = Some x → cs_state x = STAGED → sg_owner (cs_stage x) = Some owner →
  sg_attempt g = sg_attempt (cs_stage x) → sg_owner g = None → worker_inv s →
  worker_inv (set_row id (set_stage g x) (note_staged id (sg_attempt (cs_stage x)) owner s)).
Proof.
  intros Hx Hst Ho Ha Hg Hinv. assert (Hnew : ∀ p, (id, p) ∉ cd_staged s).
  { intros [n o] Hin. destruct (iv_staged _ Hinv _ _ _ Hin) as (_ & y & Hy & _ & _ & Hn). congruence. }
  pose proof (iv_owner _ Hinv _ _ _ Hx Ho) as Hcl.
  assert (worker_inv (set_row id (set_stage g x) s)) as [C1 C2 O S1 S2'].
  { eapply (worker_row s); try done. rewrite Hx. simpl. auto. }
  split; simpl in *; try done.
  - constructor; [|done]. intros ([k p] & -> & Hin)%list_elem_of_fmap. by eapply Hnew.
  - intros k n o [[= -> -> ->]|Hin]%elem_of_cons; [|by apply S2']. split; [done|]. exists (set_stage g x). rewrite lookup_insert_eq.
    split_and!; try done. apply past_rank. simpl. rewrite Hst. simpl. lia.
Qed.

Lemma worker_moves s s' : custom_move s s' → worker_inv s → worker_inv s'.
Proof.
  destruct 1 as [s id rq now e Hn|s id x next st dg ap e Hx Hs Hct _ _ _ _| |s id x g Hx Ha Ho|s id x g owner Hx Hst Ha Ho|s id x f Hx
    |s id x g owner Hx Hst Ho Ha Hg| | | | | | | |]; try by apply worker_same.
  - eapply worker_row; try done. by rewrite Hn.
  - eapply worker_row; try done. rewrite Hx. simpl. split_and!; auto. intros Hp%past_rank. apply past_rank. simpl. apply serviced_rank in Hs. lia.
  - eapply worker_row; try done. by rewrite Hx.
  - by apply worker_claims.
  - eapply worker_row; try done. rewrite Hx. simpl. auto.
  - by apply worker_stages.
Qed.
