(* ===== verification/CustomService.v ===== *)
(** * Customization: the service under every interleaving

    The catalogs tenants run on are pinned to published change sets, snapshots included;
    with this the invariant of the customization store is complete, and every request of
    the service keeps it whatever the others do between its calls. *)

From Stdlib Require Import Ascii.
From stdpp Require Import sorting.
From S2P Require Import Prelude PyText Json IsoTime AgentCalls ProjectContext Concurrent CustomStore CustomPublish CustomSystem CustomSafety.
Local Open Scope Z_scope.

(** ** Snapshots *)

Lemma sorted_catalog kc : sort_keys (catalog_json kc) =
  JObj [("catalog_commit", JStr (ec_commit kc.2)); ("catalog_digest", JStr (ec_digest kc.2)); ("change_set_id", JStr (ec_change_set kc.2));
        ("effective_platform_release", JStr (ec_release kc.2)); ("tenant_id", JStr kc.1); ("workspace_contract_digest", JStr (ec_contract kc.2))].
Proof. vm_compute. reflexivity. Qed.

Lemma catalog_wf kc : wf (sort_keys (catalog_json kc)).
Proof. rewrite sorted_catalog. simpl. split; [|done]. by apply (bool_decide_unpack _). Qed.

Lemma catalog_reads kc : catalog_of_json (sort_keys (catalog_json kc)) = Some kc.
Proof. rewrite sorted_catalog. by destruct kc as [t []]. Qed.

Lemma snapshot_rows_text m : snapshot_rows (catalogs_text m) = Some (merge_sort tenant_le (map_to_list m)).
Proof.
  unfold snapshot_rows, catalogs_text. rewrite loads_dumps.
  - cbn [mbind option_bind]. apply mapM_Some, Forall2_fmap_l, Forall_Forall2_diag, Forall_true. apply catalog_reads.
  - apply wf_arr, Forall_fmap, Forall_true. apply catalog_wf.
Qed.

Lemma sorted_rows_map (m : gmap string catalog) :
  list_to_map (merge_sort tenant_le (map_to_list m)) = m ∧ NoDup (merge_sort tenant_le (map_to_list m)).*1.
Proof.
  pose proof (merge_sort_Permutation tenant_le (map_to_list m)) as Hp.
  assert (Hnd : NoDup (merge_sort tenant_le (map_to_list m)).*1) by (rewrite Hp; apply NoDup_fst_map_to_list).
  split; [|done]. rewrite (list_to_map_proper _ _ Hnd Hp). apply list_to_map_to_list.
Qed.

(** ** Pinned catalogs *)

Definition pinned (s : cdb) (tenant : string) (c : catalog) : Prop :=
  ∃ x, cd_rows s !! ec_change_set c = Some x ∧ rq_tenant (cs_request x) = tenant ∧ cs_state x = PUBLISHED ∧ catalog_of (ec_change_set c) x = Some c.

Lemma catalog_of_id id x c : catalog_of id x = Some c → ec_change_set c = id.
Proof. unfold catalog_of. intros H. repeat case_match; try done. by injection H as <-. Qed.

Lemma pinned_grows s s' tenant c : custom_grows s s' → pinned s tenant c → pinned s' tenant c.
Proof.
  intros Hg (x & Hx & Ht & Hst & Hc). destruct (gr_rows _ _ Hg _ _ Hx) as (y & Hy & [Fr _ _ Frk Fc]). exists y.
  rewrite Hst in Frk. split_and!; [done|congruence|by apply published_rank|]. rewrite (catalog_core _ x y Fr); [done|].
  apply Fc, past_rank. rewrite Hst. simpl. lia.
Qed.

Record pins_inv (s : cdb) : Prop := PinsInv {
  iv_pins : ∀ tenant c, cd_catalogs s !! tenant = Some c → pinned s tenant c;
  iv_snapshots : ∀ k x l tenant c, cd_snapshots s !! k = Some x → snapshot_rows (sn_payload x) = Some l → (tenant, c) ∈ l → pinned s tenant c }.

Lemma pins_moves s s' : custom_move s s' → pins_inv s → pins_inv s'.
Proof.
  intros Hm [P N]. pose proof (custom_move_grows _ _ Hm) as Hg.
  assert (Hsn : cd_snapshots s' = cd_snapshots s → (∀ t c, cd_catalogs s' !! t = Some c → pinned s t c) → pins_inv s').
  { intros Hs Hc. split; [intros; eapply pinned_grows; eauto|]. rewrite Hs. intros; eapply pinned_grows; eauto. }
  destruct Hm as [| | | | | | |s id x c Hx Hst Hc|s k x l Hk Hl Hnd|s k x Hk Hp| | | | |]; try by apply Hsn.
  - apply Hsn; [done|]. intros t c'. simpl. intros [[<- <-]|[_ H]]%lookup_insert_Some; [|eauto].
    pose proof (catalog_of_id _ _ _ Hc) as Hid. exists x. by rewrite Hid.
  - apply Hsn; [done|]. intros t c. simpl. intros Hin%elem_of_list_to_map; [|done]. eauto.
  - split; [intros; eapply pinned_grows; eauto|]. intros j y l t c. simpl. intros [[<- <-]|[_ Hj]]%lookup_insert_Some Hl Hin; [|eapply pinned_grows; eauto].
    rewrite Hp, snapshot_rows_text in Hl. injection Hl as <-. rewrite merge_sort_Permutation in Hin. apply elem_of_map_to_list in Hin.
    eapply pinned_grows; eauto.
Qed.

(** ** The invariant *)

Record custom_inv (s : cdb) : Prop := CustomInv {
  iv_trail : trail_inv s; iv_approvals : approval_inv s; iv_one : one_inv s; iv_workers : worker_inv s; iv_catalogs : pins_inv s }.

Lemma moves_ok s s' : moves s s' → custom_inv s → custom_inv s' ∧ custom_grows s s'.
Proof.
  intros Hm Hinv. split; [|by apply moves_grow]. eapply star_invariant; [|exact Hm|exact Hinv]. intros x y [T A O W P] H1.
  split; [by eapply trail_moves|by eapply approval_moves|by eapply one_moves|by eapply worker_moves|by eapply pins_moves].
Qed.

Definition cdb_empty : cdb := Cdb ∅ ∅ [] ∅ ∅ ∅ ∅ [] [] [] [].

Lemma custom_inv_empty : custom_inv cdb_empty.
Proof.
  split; [split|split|intros t i j (x & Hx & _)|split|split]; simpl; try done; try (by intros; rewrite lookup_empty in *); try (by constructor);
    try (by intros * ?%elem_of_nil).
Qed.

(** ** Requests *)

(** A request that makes one call of the store. *)
Definition once {A} (op : cx A) : prog cdb (option (answer catalog)) := Act (λ _ s, op s) (λ _, Ret None).

(** The calls of the customization API, of the stage workers and of the deployment
    tool. *)
Inductive store_call `{Runtime} : ∀ {A}, cx A → Prop :=
| sc_create rq drawn now : store_call (create_change_set rq drawn now)
| sc_reserve rq drawn now : store_call (reserve_stage rq drawn now)
| sc_transition tenant id next version key x : xt_expected x = Some CREATED → next ∈ [STAGING; FAILED] → store_call (transition tenant id next version key x)
| sc_claim owner lease now : store_call (claim_stage owner lease now)
| sc_heartbeat tenant id owner lease now : store_call (heartbeat_stage tenant id owner lease now)
| sc_complete tenant id owner : store_call (complete_stage_claim tenant id owner)
| sc_defer tenant id owner reason delay now : store_call (defer_stage_claim tenant id owner reason delay now)
| sc_fail tenant id owner reason retryable message : store_call (fail_stage_claim tenant id owner reason retryable message)
| sc_staged tenant id version key r now : store_call (record_staged tenant id version key r now)
| sc_removal tenant id tool expected : store_call (bind_removal_request tenant id tool expected)
| sc_consume cid signature : store_call (consume_confirmation cid signature)
| sc_request tenant id : store_call (get_or_create_publication_request tenant id)
| sc_bind tenant id cid : store_call (bind_publication_confirmation tenant id cid)
| sc_deny tenant id reason : store_call (deny_publication_request tenant id reason)
| sc_capture drawn drawn' release key : store_call (capture_deployment_snapshot drawn drawn' release key)
| sc_verify drawn snap action key : store_call (verify_deployment_snapshot drawn snap action key)
| sc_restore drawn snap key : store_call (restore_deployment_snapshot drawn snap key)
| sc_rollback tenant target prior key : store_call (restore_effective_catalog tenant target prior key).

Inductive custom_request `{Runtime, Signer} : prog cdb (option (answer catalog)) → Prop :=
| cr_call A (op : cx A) : store_call op → custom_request (once op)
| cr_issue cid c author approver by_staff ttl now : custom_request (pmap (λ _, None) (issue_publish_confirmation cid c author approver by_staff ttl now))
| cr_publish tenant q cid key e : custom_request (pmap Some (_publish tenant q cid key e)).

Lemma store_call_commits `{Runtime} {A} (op : cx A) : store_call op → commits op.
Proof.
  destruct 1; try apply commits_reserve; eauto using commits_claim, commits_fail, commits_transition, commits_record_staged, commits_bind_removal, commits_consume,
    commits_publication_request, commits_bind_publication, commits_deny, commits_capture, commits_verify, commits_restore, commits_rollback.
  - intros s a s' H1. unfold reserve_stage in H1. walk. by eapply commits_reserve.
  - intros s a s' H1. unfold heartbeat_stage in H1. walk. eapply commits_update; [| |done]; intros g; [done|by right].
  - intros s a s' H1. unfold complete_stage_claim in H1. walk. eapply commits_update; [| |done]; intros g; [done|by left].
  - intros s a s' H1. unfold defer_stage_claim in H1. walk. eapply commits_update; [| |done]; intros g; [done|by left].
Qed.

Lemma store_call_untouched `{Runtime} {A} (op : cx A) : store_call op → untouched op.
Proof.
  destruct 1; try apply untouched_reserve; eauto using untouched_atomically, untouched_claim, untouched_fail, untouched_transition, untouched_record_staged,
    untouched_bind_removal, untouched_consume, untouched_publication_request, untouched_bind_publication, untouched_deny, untouched_rollback.
  - unfold reserve_stage. auto 6 using untouched_reserve with custom.
  - unfold defer_stage_claim. auto with custom.
Qed.

(** What a finished request guarantees: the catalog it answers was published. *)
Definition answered (_ : nat) (r : option (answer catalog)) (s : cdb) : Prop := ∀ c, r = Some (Ok c) → ∃ tenant, pinned s tenant c.

Abbreviation safe := (secured custom_inv custom_grows answered).
Abbreviation safe_publish := (secured custom_inv custom_grows (λ i r, answered i (Some r))).

Lemma safe_store_call {A} (op : cx A) k i s :
  (∀ s1, custom_inv s1 → custom_grows s s1 → ∀ r s2, op s1 = (r, s2) → moves s1 s2 ∧ (custom_inv s2 → custom_grows s1 s2 → safe_publish i (k r) s2)) →
  safe_publish i (call op k) s.
Proof.
  intros Hk s1 Hinv Hg. destruct (op s1) as [r s2] eqn:Ho. destruct (Hk s1 Hinv Hg r s2 Ho) as [Hm Hs]. destruct (moves_ok _ _ Hm Hinv). auto.
Qed.

Lemma safe_read {A} (op : cx A) k i s : reading op →
  (∀ s1 r, custom_inv s1 → custom_grows s s1 → op s1 = (r, s1) → safe_publish i (k r) s1) → safe_publish i (call op k) s.
Proof.
  intros Hr Hk. apply safe_store_call. intros s1 Hinv Hg r s2 Ho. pose proof (Hr _ _ _ Ho) as ->. split; [apply star_refl|]. intros _ _. by apply Hk.
Qed.

Lemma safe_err i e s : safe_publish i (Ret (Err e)) s.
Proof. by intros s' _ _ c [=]. Qed.

Lemma safe_stored {A} (r : checked A) k i s : (∀ a, r = Ok a → safe_publish i (k a) s) → safe_publish i (stored r k) s.
Proof. intros Hk. destruct r; [by apply Hk|apply safe_err]. Qed.

Lemma safe_unless o k i s : safe_publish i k s → safe_publish i (unless o k) s.
Proof. intros Hk. destruct o; [apply safe_err|done]. Qed.

Lemma safe_allowed b code_ k i s : (b = true → safe_publish i k s) → safe_publish i (allowed b code_ k) s.
Proof. intros Hk. destruct b; [by apply Hk|apply safe_err]. Qed.

Lemma safe_pinned i c tenant s : pinned s tenant c → safe_publish i (Ret (Ok c)) s.
Proof. intros Hp s' _ Hg c' [= <-]. exists tenant. by eapply pinned_grows. Qed.

Lemma safe_change tenant id k i s :
  (∀ s1 x f, custom_inv s1 → custom_grows s s1 → cd_rows s1 !! id = Some x → rq_tenant (cs_request x) = tenant → safe_publish i (k (set_fields f x)) s1) →
  safe_publish i (_record_fields_change tenant id k) s.
Proof.
  intros Hk. apply safe_read; [apply reading_find|]. intros s1 [x|e] Hinv Hg Ho; [|destruct e; apply safe_err].
  apply find_Ok in Ho as [_ (y & f & Hy & Ht & ->)]. by apply Hk.
Qed.

Lemma safe_pin tenant k i s :
  (∀ s1, custom_inv s1 → custom_grows s s1 → safe_publish i (k (cd_catalogs s1 !! tenant)) s1) → safe_publish i (_record_fields_pin tenant k) s.
Proof. intros Hk. apply safe_read; [apply reading_reads|]. intros s1 r Hinv Hg [<- _]%pair_eq. by apply Hk. Qed.

Lemma safe_later i k s s' : custom_grows s s' → safe_publish i k s → safe_publish i k s'.
Proof. apply secured_stable. apply _. Qed.

Lemma safe_predecessor tenant x k i s : safe_publish i k s → safe_publish i (_verify_record_fields_predecessor tenant x k) s.
Proof.
  intros Hk. unfold _verify_record_fields_predecessor. destruct (negb _); [done|]. apply safe_pin. intros s1 _ Hg.
  destruct (rq_base_catalog _); [|destruct (cd_catalogs s1 !! tenant); [|by eapply safe_later]];
    (apply safe_change; intros; apply safe_allowed; intros _; eapply safe_later; [|done]; by etransitivity).
Qed.

Lemma safe_addition tenant x k i s : safe_publish i k s → safe_publish i (_refuse_stale_addition_base tenant x k) s.
Proof.
  intros Hk. unfold _refuse_stale_addition_base. destruct (negb _); [done|]. apply safe_pin. intros s1 _ Hg.
  destruct (cd_catalogs s1 !! tenant); [apply safe_allowed; intros _|]; by eapply safe_later.
Qed.

(** The confirmation that was read carries what is to be published. *)
Definition carried (s : cdb) (cid tenant : string) (q : publish_request) : Prop :=
  ∃ c d, cd_confirmations s !! cid = Some c ∧ loads (cf_payload c) = Some (JObj d) ∧ forallb (carries d) (expected_fields tenant q) = true.

Lemma carried_grows s s' cid tenant q : custom_grows s s' → carried s cid tenant q → carried s' cid tenant q.
Proof.
  intros Hg (c & d & Hc & Hd & Hf). destruct (gr_confirmations _ _ Hg _ _ Hc) as (c' & Hc' & Hp & _). exists c', d. by rewrite Hp.
Qed.

Section authority.
Context `{Signer}.

Lemma verify_record_Ok tenant q allow now s cid a sg :
  verify_record tenant q allow now (c ← cd_confirmations s !! cid; p ← loads (cf_payload c); Some (p, cf_signature c, cf_consumed c)) = Ok (a, sg) →
  carried s cid tenant q.
Proof.
  destruct (cd_confirmations s !! cid) as [c|] eqn:Hc; [|done]. simpl. destruct (loads (cf_payload c)) as [p|] eqn:Hp; [|done]. simpl.
  unfold deny. intros Hv. repeat case_match; try done. subst. exists c. eexists. by split_and!.
Qed.

Lemma safe_confirmed tenant q cid x now k i s :
  (∀ s1 a sg, custom_inv s1 → custom_grows s s1 → carried s1 cid tenant q → safe_publish i (k (a, sg)) s1) →
  safe_publish i (confirmed tenant q cid x now k) s.
Proof.
  intros Hk. unfold confirmed. cbv zeta. destruct (verify_arguments tenant q cid) as [u|e]; [|repeat case_match; apply safe_err].
  apply safe_read; [apply reading_reads|]. intros s1 r Hinv Hg [<- _]%pair_eq. apply safe_stored. intros o [= <-].
  destruct (verify_record _ _ _ _ _) as [[a sg]|e] eqn:Hv; [|repeat case_match; apply safe_err].
  apply verify_record_Ok in Hv. pose proof (Hk s1 a sg Hinv Hg Hv) as Hs.
  destruct (bool_decide _); [by apply safe_allowed|by apply safe_addition].
Qed.

(** The rows of a publication under way at a known version. *)
Lemma safe_conclude tenant q version key approver h i s y : cd_rows s !! pq_change_set q = Some y → cs_state y = PUBLISHING → cs_version y = version →
  safe_publish i (conclude tenant q version key approver h) s.
Proof.
  intros Hy Hst Hv. unfold conclude. cbv zeta. destruct h as [commit|c|c]; [|apply safe_store_call|apply safe_err].
  - apply safe_allowed. intros _. apply safe_store_call. intros s1 Hinv Hg r s2 Ho. destruct r as [c|e].
    + apply publish_moves in Ho as (Hm & x & Hx & Hstx & Hc).
      * split; [done|]. intros _ _. simpl. apply (safe_pinned i c (rq_tenant (cs_request x))). pose proof (catalog_of_id _ _ _ Hc) as Hid.
        exists x. by rewrite Hid.
      * intros x e Hx He Hid Hn. destruct (iv_past _ (iv_trail _ Hinv) e He) as (x' & Hx' & Hr); [congruence|]. rewrite Hid, Hx in Hx'. injection Hx' as <-.
        rewrite Hn in Hr. by apply published_rank.
      * intros x Hx Hvx. destruct (gr_rows _ _ Hg _ _ Hy) as (x' & Hx' & F). rewrite Hx in Hx'. injection Hx' as <-.
        rewrite (fo_same _ _ F); [done|congruence].
    + pose proof (untouched_atomically _ _ _ _ Ho) as ->. split; [apply star_refl|]. intros _ _. destruct e; apply safe_err.
  - intros s1 Hinv Hg r s2 Ho. destruct r as [x|e]; [split; [by eapply commits_supersede|intros _ _; apply safe_err]|].
    pose proof (untouched_atomically _ _ _ _ Ho) as ->. split; [apply star_refl|]. intros _ _. apply safe_err.
Qed.

(** A confirmation that carries the staged content of a row confirms it ever after. *)
Lemma carried_confirms s cid tenant q c x : carried s cid tenant q → cd_confirmations s !! cid = Some c → rq_tenant (cs_request x) = tenant →
  content x = (Some (pq_commit q), Some (pq_digest q)) → rq_release (cs_request x) = pq_release q → rq_contract (cs_request x) = pq_contract q →
  confirms c (pq_change_set q) x.
Proof.
  intros (c' & d & Hc' & Hd & Hf) Hc Ht Hct Hr Hw. rewrite Hc in Hc'. injection Hc' as <-. injection Hct as Hs Hg. exists d, (pq_commit q), (pq_digest q).
  split_and!; try done. rewrite Ht, Hr, Hw. by destruct q.
Qed.

Lemma staged_unmoved s x id e : custom_inv s → cd_rows s !! id = Some x → cs_state x = STAGED → e ∈ cd_events s → ev_change_set e = id →
  ev_next e ≠ AWAITING_APPROVAL ∧ ev_next e ≠ APPROVED ∧ ev_next e ≠ PUBLISHING.
Proof.
  intros Hinv Hx Hst He Hid. destruct (decide (ev_next e = ROLLED_BACK)) as [E|Hne]; [by rewrite E|].
  destruct (iv_past _ (iv_trail _ Hinv) e He Hne) as (x' & Hx' & Hr). rewrite Hid, Hx in Hx'. injection Hx' as <-. rewrite Hst in Hr.
  split_and!; intros E; rewrite E in Hr; simpl in Hr; lia.
Qed.

Lemma safe_prepare tenant q cid signature approver key k i s s0 x : cd_rows s0 !! pq_change_set q = Some x → past_staging x → rq_tenant (cs_request x) = tenant →
  content x = (Some (pq_commit q), Some (pq_digest q)) → rq_release (cs_request x) = pq_release q → rq_contract (cs_request x) = pq_contract q →
  custom_grows s0 s → carried s cid tenant q →
  (∀ s1 y f, custom_inv s1 → cd_rows s1 !! pq_change_set q = Some y → cs_state y = PUBLISHING → safe_publish i (k (set_fields f y)) s1) →
  safe_publish i (call (prepare_publish tenant (pq_change_set q) cid signature approver key) (λ r, stored r k)) s.
Proof.
  intros Hx Hp Ht Hct Hr Hw Hg0 Hcar Hk. apply safe_store_call. intros s1 Hinv Hg [row|e] s2 Ho.
  - apply prepare_moves in Ho as (Hm & y & f & Hy & _ & Hst & ->).
    + split; [done|]. intros Hinv2 _. by apply Hk.
    + intros c z Hc Hz Htz _. destruct (gr_rows _ _ (transitivity Hg0 Hg) _ _ Hx) as (z' & Hz' & [Fr _ _ _ Fc]). rewrite Hz in Hz'. injection Hz' as <-.
      eapply carried_confirms; [by eapply carried_grows|done|done| |congruence..]. rewrite Fc by done. done.
    + intros z e. by apply staged_unmoved.
  - pose proof (untouched_atomically _ _ _ _ Ho) as ->. split; [apply star_refl|]. intros _ _. apply safe_err.
Qed.

Lemma safe_publishes tenant q cid key e i s : safe_publish i (_publish tenant q cid key e) s.
Proof.
  unfold _publish. cbv zeta. apply safe_unless, safe_change. intros s1 x f Hinv1 _ Hx Ht. apply safe_allowed. simpl. intros Hct.
  rewrite !andb_true_iff, !bool_decide_eq_true in Hct. destruct Hct as [[[Hc Hd] Hr] Hw]. apply safe_allowed. intros Hst%bool_decide_eq_true.
  assert (Hp : past_staging x) by (apply past_rank; apply list_elem_of_In in Hst as [<-|[<-|[<-|[]]]]; simpl; lia). apply safe_unless. case_bool_decide.
  - apply safe_pin. intros s2 Hinv2 _. destruct (cd_catalogs s2 !! tenant) as [c|] eqn:Hpin; [|apply safe_err]. apply safe_allowed. intros _.
    apply (safe_pinned i c tenant). by apply (iv_pins _ (iv_catalogs _ Hinv2)).
  - apply safe_predecessor, safe_confirmed. intros s2 a sg Hinv2 Hg2 Hcar. eapply safe_prepare; try done; [unfold content; by rewrite Hc, Hd|].
    intros s3 y f' Hinv3 Hy Hsty. apply safe_read; [apply reading_atomically, reading_bound|]. intros s4 r _ Hg4 _. apply safe_stored. intros _ _.
    eapply safe_later; [done|]. by eapply safe_conclude.
Qed.

Lemma request_safe `{Runtime} i p s : custom_request p → safe i p s.
Proof.
  destruct 1 as [A op Hop|cid c author approver by_staff ttl now|tenant q cid key e].
  - intros s1 Hinv Hg. pose proof (commits_final op s1 (store_call_commits op Hop) (store_call_untouched op Hop)) as Hm. unfold final in Hm.
    destruct (op s1) as [r s2]. destruct (moves_ok _ _ Hm Hinv). split_and!; [done|done|]. by intros s3 _ _ c' [=].
  - apply secured_pmap. unfold issue_publish_confirmation. destruct (approve _ _ _ _) as [a|]; [|by intros s1 _ _ c' [=]].
    destruct (negb _); [by intros s1 _ _ c' [=]|]. cbv zeta. intros s1 Hinv Hg. set (op := put_confirmation _ _ _).
    pose proof (commits_final op s1 (commits_put _ _ _) (untouched_put _ _ _)) as Hm. unfold final in Hm. destruct (op s1) as [r s2].
    destruct (moves_ok _ _ Hm Hinv). split_and!; [done|done|]. by intros s3 _ _ c' [=].
  - apply secured_pmap, safe_publishes.
Qed.

Definition custom_reached `{Runtime} (w : pool cdb (option (answer catalog))) : Prop := star (pool_step custom_request) (Pool cdb_empty ∅) w.

Lemma reached_ok `{Runtime} w : custom_reached w → pool_ok custom_inv custom_grows answered w.
Proof.
  intros Hw. refine (proj1 (pool_sound custom_inv custom_grows answered custom_request _ w _ Hw _)); [intros; by apply request_safe|]. split; [apply custom_inv_empty|]. intros i p Hp. simpl in Hp.
  by rewrite lookup_empty in Hp.
Qed.

Lemma reached_inv `{Runtime} w : custom_reached w → custom_inv (shared w).
Proof. intros Hw. by apply reached_ok. Qed.
End authority.

(** ** What the service guarantees *)

Section theorems.
Context `{Runtime, Signer}.

(** (C19) Whatever requests run at the same time, the catalog a tenant runs on is that of a
    published change set of the tenant.  Its commit, digest, release and workspace
    contract are those an approver confirmed in a confirmation that was spent, on this
    change set alone, and the audit log records the approval by another subject than
    the author. *)
Theorem effective_catalog_was_approved w tenant c : custom_reached w → cd_catalogs (shared w) !! tenant = Some c →
  ∃ x cid f e, cd_rows (shared w) !! ec_change_set c = Some x ∧ rq_tenant (cs_request x) = tenant ∧ cs_state x = PUBLISHED ∧
    catalog_of (ec_change_set c) x = Some c ∧
    cd_confirmations (shared w) !! cid = Some f ∧ cf_consumed f = true ∧ confirms f (ec_change_set c) x ∧
    (∀ id, (cid, id) ∈ cd_prepared (shared w) ↔ id = ec_change_set c) ∧
    e ∈ cd_events (shared w) ∧ approved_event (ec_change_set c) (rq_author (cs_request x)) e.
Proof.
  intros Hw Hc. apply reached_inv in Hw as [_ [Ap Cf Nd Sp] _ _ [Pi _]]. destruct (Pi _ _ Hc) as (x & Hx & Ht & Hst & Hcat).
  destruct (Ap _ _ Hx) as (e & He & Hae); [rewrite Hst; simpl; lia|]. destruct (Cf _ _ Hx) as (cid & f & Hp & Hf & Hcf); [rewrite Hst; simpl; lia|].
  destruct (Sp _ _ Hp) as (f' & Hf' & Hcon). rewrite Hf in Hf'. injection Hf' as <-. exists x, cid, f, e. split_and!; try done.
  intros id. split; [|by intros ->]. intros Hid. by apply (keyed_unique _ _ _ _ Nd Hid).
Qed.

(** (C33) The audit log holds every move of a change set: all its events, in order, lead
    from the reservation to the state the row is in, each an allowed move of the row from
    the state before it, or the note of a rollback of the effective catalog, which names
    the state the row is in and leaves row and version as they are; the row's version
    counts the moves. *)
Theorem audit_trail_is_complete w id x : custom_reached w → cd_rows (shared w) !! id = Some x →
  leads None (trail id (shared w)) (Some (cs_state x)) ∧ Z.of_nat (length (row_moves (trail id (shared w)))) = cs_version x + 1.
Proof.
  intros Hw Hx. apply reached_inv in Hw as [[L N _] _ _ _ _]. specialize (L id). specialize (N id). rewrite Hx in L, N. done.
Qed.

(** A tenant has at most one publication under way. *)
Theorem one_publish_at_a_time w tenant i j : custom_reached w → publishing (shared w) tenant i → publishing (shared w) tenant j → i = j.
Proof. intros Hw Hi Hj. apply reached_inv in Hw as [_ _ O _ _]. by eapply O. Qed.

(** A change set is staged at most once by a worker, and by the worker that claimed it
    last: every claim of it is of an earlier attempt, or that worker's. *)
Theorem staged_by_the_last_claimant w id n o m o' : custom_reached w → (id, (n, o)) ∈ cd_staged (shared w) → ((id, m), o') ∈ cd_claims (shared w) →
  (m < n ∨ (m = n ∧ o' = o)) ∧ ∀ p, (id, p) ∈ cd_staged (shared w) → p = (n, o).
Proof.
  intros Hw Hst Hcl. apply reached_inv in Hw as [_ _ _ [C1 C2 _ S1 S2'] _]. destruct (S2' _ _ _ Hst) as (Hcl' & x & Hx & _ & Ha & _).
  destruct (C2 _ _ _ Hcl) as (x' & Hx' & Hle). rewrite Hx in Hx'. injection Hx' as <-. split.
  - destruct (decide (m = n)) as [->|Hne]; [right|left; lia]. split; [done|]. by apply (keyed_unique _ _ _ _ C1 Hcl).
  - intros p Hp. by apply (keyed_unique _ _ _ _ S1 Hp).
Qed.

(** A publication that answers a catalog answers one that was approved, and it stays the
    catalog of a published change set. *)
Theorem answered_catalog_was_published w i c : custom_reached w → requests w !! i = Some (Ret (Some (Ok c))) → ∃ tenant, pinned (shared w) tenant c.
Proof. intros Hw Hi. by apply (pool_answers _ _ _ _ _ _ (reached_ok _ Hw) Hi). Qed.

(** ** Snapshots come back *)

Lemma audit_fresh drawn snap action key s : action ∈ DEPLOYMENT_ACTIONS → List.find (λ d, bool_decide (dp_key d = key)) (cd_deployments s) = None →
  _deployment_audit drawn snap action "ok" key s = (Ok drawn, add_deployment (Deployment drawn snap action "ok" key) s).
Proof.
  intros Ha Hf. unfold _deployment_audit. erewrite io_bind_run by done. rewrite Hf, (bool_decide_true (action ∈ _)) by done. done.
Qed.

(** Every row of the snapshot is pinned, so putting it back passes its checks. *)
Lemma restores drawn k key x s m : custom_inv s → cd_snapshots s !! k = Some x → sn_payload x = catalogs_text m → sn_digest x = sha256_hex (catalogs_text m) →
  List.find (λ d, bool_decide (dp_key d = key)) (cd_deployments s) = None →
  restore_deployment_snapshot drawn k key s = (Ok (sn_release x, drawn), add_deployment (Deployment drawn k "restore" "ok" key) (set_catalogs m s)).
Proof.
  intros Hinv Hk Hp Hd Hf. unfold restore_deployment_snapshot. apply atomically_Ok. erewrite io_bind_run by done. cbn beta. rewrite Hk.
  erewrite io_bind_run by done. rewrite Hp, snapshot_rows_text. erewrite io_bind_run by done. erewrite io_bind_run by done.
  destruct (sorted_rows_map m) as [Hm Hnd]. rewrite bool_decide_true by done.
  assert (Hall : forallb (λ kc : string * catalog, bool_decide (is_Some (cd_rows s !! ec_change_set kc.2))) (merge_sort tenant_le (map_to_list m)) = true).
  { apply forallb_forall. intros [t c] Hin%list_elem_of_In. apply bool_decide_eq_true. simpl.
    destruct (iv_snapshots _ (iv_catalogs _ Hinv) k x (merge_sort tenant_le (map_to_list m)) t c Hk) as (y & Hy & _); [by rewrite Hp, snapshot_rows_text|done|eauto]. }
  rewrite Hall. erewrite io_bind_run by done. erewrite io_bind_run by done. erewrite io_bind_run by done. rewrite Hm. simpl cd_catalogs.
  rewrite bool_decide_true by done. erewrite io_bind_run by done. erewrite io_bind_run by (apply audit_fresh; [by apply (bool_decide_unpack _)|done]). done.
Qed.

Lemma captured drawn drawn' release key s k x a s' : snapshot_by_key key s = None → capture_deployment_snapshot drawn drawn' release key s = (Ok (k, x, a), s') →
  cd_snapshots s' !! k = Some x ∧ sn_payload x = catalogs_text (cd_catalogs s) ∧ sn_digest x = sha256_hex (catalogs_text (cd_catalogs s)) ∧ sn_release x = release.
Proof.
  intros Hn Hc. unfold capture_deployment_snapshot in Hc. walk. rewrite Hn in *. walk. subst.
  assert (Ha : ∀ snap action result key s u s', _deployment_audit drawn' snap action result key s = (Ok u, s') → cd_snapshots s' = cd_snapshots s).
  { clear. intros snap action result key s u s' Hd. unfold _deployment_audit in Hd. walk. destruct (List.find _ _); by walk. }
  match goal with Hd : _deployment_audit _ _ _ _ _ _ = _ |- _ => apply Ha in Hd; rewrite Hd end. simpl. by rewrite lookup_insert_eq.
Qed.

(** (C40) A snapshot of the effective catalogs, taken before a deployment, is put back exactly,
    whatever was staged, published, rolled back or restored in between. *)
Theorem snapshot_restores_exactly w drawn drawn' release key drawn2 key2 k x a s1 w2 : custom_reached w → snapshot_by_key key (shared w) = None →
  capture_deployment_snapshot drawn drawn' release key (shared w) = (Ok (k, x, a), s1) →
  star (pool_step custom_request) (Pool s1 (requests w)) w2 →
  List.find (λ d, bool_decide (dp_key d = key2)) (cd_deployments (shared w2)) = None →
  ∃ s3, restore_deployment_snapshot drawn2 k key2 (shared w2) = (Ok (release, drawn2), s3) ∧ cd_catalogs s3 = cd_catalogs (shared w).
Proof.
  intros Hw Hn Hc Hw2 Hf. destruct (reached_ok _ Hw) as [Hinv Hreq]. pose proof (commits_capture _ _ _ _ _ _ _ Hc) as Hm.
  destruct (moves_ok _ _ Hm Hinv) as [Hinv1 Hg1]. destruct (captured _ _ _ _ _ _ _ _ _ Hn Hc) as (Hk & Hp & Hd & Hr).
  destruct (pool_sound custom_inv custom_grows answered custom_request _ w2 (λ i p s Hq _, request_safe i p s Hq) Hw2) as [[Hinv2 _] Hg2].
  { split; [done|]. intros i p Hi. eapply secured_stable; [apply _|exact Hg1|]. by apply Hreq. }
  pose proof (lookup_weaken _ _ _ _ Hk (gr_snapshots _ _ Hg2)) as Hk2. eexists. split; [rewrite <- Hr; by eapply restores|]. done.
Qed.
End theorems.
