(* ===== verification/CustomDemo.v ===== *)
(** * A catalog that is changed twice

    With the platform of [AgentDemo], where the hash of a text is the text, and a
    signature that is the signed text: two change sets are reserved, staged by a worker,
    approved by another member and published, a snapshot of the catalogs is taken in
    between and put back at the end.  The theorems of [CustomService] are applied to the
    states this reaches; then the runs that show where the store falls short of its
    documentation. *)

From Stdlib Require Import Ascii.
From stdpp Require Import sorting.
From S2P Require Import AgentDemo.
From S2P Require Import Prelude PyText Json IsoTime AgentCalls ProjectContext Concurrent CustomStore CustomPublish CustomSystem CustomSafety CustomService.
Local Open Scope Z_scope.

#[local] Instance demo_signer : Signer := {| sign := λ s, s |}.

Definition hex (n : nat) (c : ascii) : string := of_chars (replicate n c).
Definition change_id (c : ascii) : string := "00000000-0000-4000-8000-00000000000" +:+ of_chars [c].
Definition demo_contract : string := hex 64 "c".
Definition demo_change (n : ascii) (kind : string) (tool : option string) (base : string) : request :=
  Request "acme" ("reserve" +:+ of_chars [n]) base "r1" demo_contract "ann" kind tool (Some "a roof tool"%string) (Some (hex 64 "f")) None None None None.
Definition demo_staging (c : ascii) : staging := Staging (hex 40 c) (hex 64 c) "r1" demo_contract (Some ("w1"%string, 1)) None.
Definition demo_staged (n c : ascii) : staged_change := StagedChange "acme" (change_id n) (hex 40 c) (hex 64 c) "r1" demo_contract "ann" true.
Definition member (name role : string) : binding := Binding (Some "acme"%string) (Some name) (Some role) true.
Definition demo_publish_request (n c : ascii) : publish_request := PublishRequest (change_id n) (hex 40 c) (hex 64 c) "r1" demo_contract.
Definition demo_surroundings (c : ascii) : surroundings := Surroundings None None 1790000000000000 (HarnessCommit (hex 40 c)).

Definition demo_round (n c : ascii) (rq : request) : list (prog cdb (option (answer catalog))) :=
  let key k := k +:+ of_chars [n] in
  [once (reserve_stage rq (change_id n) 5);
   once (transition "acme" (change_id n) STAGING 0 (key "start") (from_state CREATED));
   once (claim_stage "w1" 1000 10);
   once (record_staged "acme" (change_id n) 1 (key "staged") (demo_staging c) 20);
   pmap (λ _, None) (issue_publish_confirmation (key "conf") (demo_staged n c) (member "ann" "editor") (Some (member "bea" "owner")) None 600000000 1790000000000000);
   pmap Some (_publish "acme" (demo_publish_request n c) (key "conf") (key "publish") (demo_surroundings c))].

Definition first_round := demo_round "1" "a" (demo_change "1" "create" None (hex 40 "0")).
Definition second_round := demo_round "2" "b" (demo_change "2" "revise" (Some "roof"%string) (hex 40 "a")).

Definition first_pool := serve_all 0 first_round (Pool cdb_empty ∅).
Definition captured_run := capture_deployment_snapshot "snap" "audit1" "r1" "before-deploy" (shared first_pool).
Definition second_pool := serve_all 6 second_round (Pool captured_run.2 (requests first_pool)).

Lemma round_arrives n c rq : Forall custom_request (demo_round n c rq).
Proof.
  repeat apply Forall_cons_2; [apply cr_call, sc_reserve|apply cr_call, sc_transition; [done|left]|apply cr_call, sc_claim|apply cr_call, sc_staged
    |apply cr_issue|apply cr_publish|apply Forall_nil_2].
Qed.

Lemma first_pool_reached : custom_reached first_pool.
Proof. apply serve_all_reaches, round_arrives. Qed.

Lemma first_catalog : cd_catalogs (shared first_pool) !! "acme"%string =
  Some (Catalog (change_id "1") (hex 40 "a") (hex 64 "a") "r1" demo_contract).
Proof. vm_compute. reflexivity. Qed.

Lemma second_catalog : cd_catalogs (shared second_pool) !! "acme"%string =
  Some (Catalog (change_id "2") (hex 40 "b") (hex 64 "b") "r1" demo_contract).
Proof. vm_compute. reflexivity. Qed.

(** ** The theorems at work *)

Abbreviation first_cat := (Catalog (change_id "1") (hex 40 "a") (hex 64 "a") "r1" demo_contract).
Abbreviation second_cat := (Catalog (change_id "2") (hex 40 "b") (hex 64 "b") "r1" demo_contract).

Lemma effective_catalog_was_approved_witness :
  ∃ x cid f e, cd_rows (shared first_pool) !! change_id "1" = Some x ∧ rq_tenant (cs_request x) = "acme"%string ∧ cs_state x = PUBLISHED ∧
    catalog_of (change_id "1") x = Some first_cat ∧
    cd_confirmations (shared first_pool) !! cid = Some f ∧ cf_consumed f = true ∧ confirms f (change_id "1") x ∧
    (∀ id, (cid, id) ∈ cd_prepared (shared first_pool) ↔ id = change_id "1") ∧
    e ∈ cd_events (shared first_pool) ∧ approved_event (change_id "1") (rq_author (cs_request x)) e.
Proof. exact (effective_catalog_was_approved first_pool "acme" first_cat first_pool_reached first_catalog). Defined.

Lemma first_published : ∃ x, cd_rows (shared first_pool) !! change_id "1" = Some x ∧ (cs_state x, cs_version x) = (PUBLISHED, 6).
Proof. eexists. split; vm_compute; reflexivity. Qed.

Lemma audit_trail_is_complete_witness :
  leads None (trail (change_id "1") (shared first_pool)) (Some PUBLISHED) ∧ Z.of_nat (length (row_moves (trail (change_id "1") (shared first_pool)))) = 7.
Proof.
  destruct first_published as (x & Hx & [= Hst Hv]). rewrite <- Hst. change 7 with (6 + 1). rewrite <- Hv.
  exact (audit_trail_is_complete first_pool (change_id "1") x first_pool_reached Hx).
Defined.

Lemma first_staged : cd_staged (shared first_pool) = [(change_id "1", (1, "w1"%string))] ∧
  cd_claims (shared first_pool) = [((change_id "1", 1), "w1"%string)].
Proof. split; vm_compute; reflexivity. Qed.

Lemma staged_by_the_last_claimant_witness :
  (1 < 1 ∨ (1 = 1 ∧ "w1"%string = "w1"%string)) ∧ ∀ p, (change_id "1", p) ∈ cd_staged (shared first_pool) → p = (1, "w1"%string).
Proof.
  apply (staged_by_the_last_claimant first_pool (change_id "1") 1 "w1" 1 "w1" first_pool_reached).
  - rewrite (proj1 first_staged). left.
  - rewrite (proj2 first_staged). left.
Defined.

Lemma captured_ok : ∃ x, captured_run = (Ok ("snap"%string, x, "audit1"%string), captured_run.2).
Proof. eexists. vm_compute. reflexivity. Qed.

Lemma second_pool_reached : star (pool_step custom_request) (Pool captured_run.2 (requests first_pool)) second_pool.
Proof. apply serve_all_reaches, round_arrives. Qed.

Lemma nothing_captured : snapshot_by_key "before-deploy" (shared first_pool) = None.
Proof. vm_compute. reflexivity. Qed.

Lemma nothing_restored : List.find (λ d, bool_decide (dp_key d = "roll-back"%string)) (cd_deployments (shared second_pool)) = None.
Proof. vm_compute. reflexivity. Qed.

(** The second catalog is effective when the snapshot of the first is put back. *)
Lemma snapshot_restores_exactly_witness : ∃ s3,
  restore_deployment_snapshot "audit2" "snap" "roll-back" (shared second_pool) = (Ok ("r1"%string, "audit2"%string), s3) ∧
  cd_catalogs s3 = cd_catalogs (shared first_pool).
Proof.
  destruct captured_ok as [x Hx].
  exact (snapshot_restores_exactly first_pool "snap" "audit1" "r1" "before-deploy" "audit2" "roll-back" "snap" x "audit1" captured_run.2 second_pool
    first_pool_reached nothing_captured Hx second_pool_reached nothing_restored).
Defined.

(** A publication under way: the first request has prepared it, and a second one with
    the same key found it prepared. *)
Definition prepared_pool := Nat.iter 4 (run_section 5) (arrive 5 (pmap Some (_publish "acme" (demo_publish_request "1" "a") "conf1" "publish1" (demo_surroundings "a")))
  (serve_all 0 (take 5 first_round) (Pool cdb_empty ∅))).

Lemma prepared_pool_reached : custom_reached prepared_pool.
Proof.
  unfold custom_reached, prepared_pool. eapply star_trans; [apply (serve_all_reaches custom_request), Forall_take, round_arrives|].
  eapply star_trans; [apply arrive_reaches, cr_publish|apply sections_reach].
Qed.

Lemma prepared_publishing : publishing (shared prepared_pool) "acme" (change_id "1").
Proof. eexists. split; [vm_compute; reflexivity|done]. Qed.

Lemma one_publish_at_a_time_witness : publishing (shared prepared_pool) "acme" (change_id "1") ∧
  ∀ j, publishing (shared prepared_pool) "acme" j → j = change_id "1".
Proof.
  split; [exact prepared_publishing|]. intros j Hj. exact (one_publish_at_a_time prepared_pool "acme" j (change_id "1") prepared_pool_reached Hj prepared_publishing).
Defined.

Lemma first_answer : requests first_pool !! 5%nat = Some (Ret (Some (Ok first_cat))).
Proof. vm_compute. reflexivity. Qed.

Lemma answered_catalog_was_published_witness : ∃ tenant, pinned (shared first_pool) tenant first_cat.
Proof. exact (answered_catalog_was_published first_pool 5 first_cat first_pool_reached first_answer). Defined.

(** ** Where the store falls short *)

(** A duplicate of the first publication, read while it was under way, runs its last
    call after the second change set was published. *)
Definition duplicate_waits := Nat.iter 4 (run_section 20) (arrive 20 (pmap Some (_publish "acme" (demo_publish_request "1" "a") "conf1" "publish1" (demo_surroundings "a")))
  prepared_pool).
Definition both_published := serve_all 21 second_round (Nat.iter 2 (run_section 5) duplicate_waits).
Definition duplicate_ran := run_section 20 both_published.

(** The late duplicate answers its caller and takes the tenant back to the first
    catalog: the replay of a recorded publication writes the pointer again. *)
Theorem late_duplicate_reverts_catalog :
  cd_catalogs (shared both_published) !! "acme"%string = Some second_cat ∧
  requests duplicate_ran !! 20%nat = Some (Ret (Some (Ok first_cat))) ∧
  cd_catalogs (shared duplicate_ran) !! "acme"%string = Some first_cat.
Proof. split_and!; vm_compute; reflexivity. Qed.

Lemma duplicate_reached : custom_reached duplicate_ran.
Proof.
  unfold custom_reached, duplicate_ran, both_published, duplicate_waits. eapply star_trans; [apply prepared_pool_reached|].
  eapply star_trans; [apply arrive_reaches, cr_publish|]. eapply star_trans; [apply (sections_reach custom_request 4)|].
  eapply star_trans; [apply (sections_reach custom_request 2)|]. eapply star_trans; [apply (serve_all_reaches custom_request), round_arrives|].
  apply run_section_reaches.
Qed.

(** The store's [publish], documented to publish a row that is being published, takes a
    row that is only staged: published is one of the states any unfinished change set
    may end in. *)
Theorem store_publishes_unapproved : let s := shared (serve_all 0 (take 4 first_round) (Pool cdb_empty ∅)) in
  (cs_state <$> cd_rows s !! change_id "1") = Some STAGED ∧ cd_prepared s = [] ∧
  (publish "acme" (change_id "1") 2 "shortcut" None s).1 = Ok first_cat.
Proof. split_and!; vm_compute; reflexivity. Qed.

(** [require_sha] reads its digits with [int(value, 16)]: a prefix, underscores and
    surrounding blanks pass for a digest. *)
Theorem sha_accepts_more : require_sha ("0x" +:+ hex 38 "a") 40 = Ok ("0x" +:+ hex 38 "a") ∧
  require_sha (" a_" +:+ hex 37 "b") 40 = Ok (" a_" +:+ hex 37 "b").
Proof. split; vm_compute; reflexivity. Qed.

(** the first catalog restored: the trail of the change set that was effective ends in
    the note of the rollback, its row stays published *)
Definition rolled_back := final (restore_effective_catalog "acme" (change_id "1") (change_id "2") "undo") (shared second_pool).
Example rollback_is_noted :
  ev_next <$> last (trail (change_id "2") rolled_back) = Some ROLLED_BACK ∧
  ev_prior <$> last (trail (change_id "2") rolled_back) = Some (Some PUBLISHED) ∧
  cs_state <$> cd_rows rolled_back !! change_id "2" = Some PUBLISHED.
Proof. repeat split; vm_compute; reflexivity. Qed.

(** A rollback repeated under its key to another target answers the catalog that is
    effective, of neither target, and reports no conflict. *)
Theorem rollback_replay_ignores_target :
  (restore_effective_catalog "acme" (change_id "2") (change_id "1") "undo" rolled_back).1 = Ok first_cat.
Proof. vm_compute. reflexivity. Qed.

(** A denied publication request is open again once a fresh confirmation is bound to it. *)
Definition denied_then_bound : cx publication :=
  get_or_create_publication_request "acme" (change_id "1");;
  deny_publication_request "acme" (change_id "1") "not now";;
  put_confirmation "late" [("tenant_id", JStr "acme"); ("change_set_id", JStr (change_id "1"))] "sig";;
  bind_publication_confirmation "acme" (change_id "1") "late".
Theorem denial_is_revived :
  (denied_then_bound (shared (serve_all 0 (take 4 first_round) (Pool cdb_empty ∅)))).1 = Ok (Publication (Some "late"%string) "awaiting_approval" None).
Proof. vm_compute. reflexivity. Qed.
