(* ===== verification/Migrations.v ===== *)
(** * Schema migrations

    The migration runner of [platform/db.py]: the lexer that splits a migration into
    statements, the ledger of applied migrations and the transaction that applies one,
    the deployment that applies a directory of them, and the readiness proof that
    compares the ledger with the files of an image.

    PostgreSQL running one statement is a parameter: it fails, or changes the database.
    The transaction of a tracked file holds the migration lock, so tracked files run
    one after another.  A single file from elsewhere ([apply_migration(sql_path)],
    untracked) takes no lock in the source; its transaction is taken as atomic here
    too, that is, run while no other migration is running.  [md_log] is the history
    of what was applied, which nothing reads.  A file is its text: the hash of its bytes
    is that of its text. *)

From Stdlib Require Import Ascii.
From stdpp Require Import sorting.
From S2P Require Import Prelude PyText AgentCalls Concurrent.

(** ** Splitting *)

(** Outside quotes, in a string, or in a body between [$tag$]. *)
Inductive mode := Plain | Quote | Dollar (tag : list ascii).

Record lexer := Lexer { lx_rest : list ascii; lx_mode : mode; lx_current : list ascii; lx_statements : list string }.

Definition apostrophe : ascii := "'"%char.
Definition dollar : ascii := "$"%char.
Definition semicolon : ascii := ";"%char.
Definition dash : ascii := "-"%char.

(** [str.isalnum] on one Latin-1 character *)
Definition is_alnum (c : ascii) : bool :=
  is_digit c || in_range 65 90 c || in_range 97 122 c || existsb (Z.eqb (code c)) [170; 178; 179; 181; 185; 186; 188; 189; 190]%Z ||
  in_range 192 214 c || in_range 216 246 c || in_range 248 255 c.

(** [s.startswith(pre)] of the rest of the text *)
Fixpoint starts (pre l : list ascii) : bool :=
  match pre, l with
  | [], _ => true
  | p :: pre', c :: l' => bool_decide (p = c) && starts pre' l'
  | _ :: _, [] => false
  end.

(** The text from the next newline on. *)
Fixpoint from_newline (l : list ascii) : option (list ascii) :=
  match l with
  | [] => None
  | c :: l' => if bool_decide (c = newline) then Some l else from_newline l'
  end.

(** The text up to the next dollar sign, and after it. *)
Fixpoint until_dollar (l : list ascii) : option (list ascii * list ascii) :=
  match l with
  | [] => None
  | c :: l' => if bool_decide (c = dollar) then Some ([], l') else '(a, b) ← until_dollar l'; Some (c :: a, b)
  end.

Definition tag_ok (tag : list ascii) : bool := forallb (λ c, is_alnum c || bool_decide (c = "_"%char)) tag.

Definition delimiter (tag : list ascii) : list ascii := dollar :: tag ++ [dollar].

(** The tag of a delimiter that a dollar sign begins, and the text after it. *)
Definition delimiter_at (l : list ascii) : option (list ascii * list ascii) :=
  '(tag, rest) ← until_dollar l; if tag_ok tag then Some (tag, rest) else None.

(** A finished statement, unless it is blank. *)
Definition flush (current : list ascii) (statements : list string) : list string :=
  if bool_decide (strip_chars current = []) then statements else statements ++ [of_chars (strip_chars current)].

(** One round of the loop: on, or the statements. *)
Definition lex_step (x : lexer) : lexer + list string :=
  let cur := lx_current x in
  let done := lx_statements x in
  match lx_rest x with
  | [] => inr (flush cur done)
  | c :: r =>
      match lx_mode x with
      | Plain =>
          if starts [dash; dash] (c :: r) then
            match from_newline (c :: r) with Some l => inl (Lexer l Plain cur done) | None => inr (flush cur done) end
          else if bool_decide (c = apostrophe) then inl (Lexer r Quote (cur ++ [c]) done)
          else match (if bool_decide (c = dollar) then delimiter_at r else None) with
               | Some (tag, l) => inl (Lexer l (Dollar tag) (cur ++ delimiter tag) done)
               | None => if bool_decide (c = semicolon) then inl (Lexer r Plain [] (flush cur done)) else inl (Lexer r Plain (cur ++ [c]) done)
               end
      | Dollar tag =>
          if starts (delimiter tag) (c :: r) then inl (Lexer (drop (length (delimiter tag)) (c :: r)) Plain (cur ++ delimiter tag) done)
          else inl (Lexer r (Dollar tag) (cur ++ [c]) done)
      | Quote =>
          if bool_decide (c = apostrophe) then
            match r with
            | c' :: r' => if bool_decide (c' = apostrophe) then inl (Lexer r' Quote (cur ++ [c; c']) done) else inl (Lexer r Plain (cur ++ [c]) done)
            | [] => inl (Lexer r Plain (cur ++ [c]) done)
            end
          else inl (Lexer r Quote (cur ++ [c]) done)
      end
  end.

Fixpoint lex (fuel : nat) (x : lexer) : list string :=
  match fuel with
  | O => lx_statements x
  | S n => match lex_step x with inl y => lex n y | inr l => l end
  end.

(** Every round takes at least one character. *)
Definition _split_sql_statements (sql : string) : list string := lex (S (length (chars sql))) (Lexer (chars sql) Plain [] []).

(** ** What splitting means *)

(** A text as a migration's author reads it. *)
Inductive segment := Char (c : ascii) | Quoted (body : list ascii) | Body (tag body : list ascii) | Comment (text : list ascii) | Semicolon.

(** An apostrophe is written twice in a string. *)
Definition escape (body : list ascii) : list ascii := body ≫= λ c, if bool_decide (c = apostrophe) then [c; c] else [c].

Definition written (s : segment) : list ascii :=
  match s with
  | Char c => [c]
  | Quoted b => apostrophe :: escape b ++ [apostrophe]
  | Body tag b => delimiter tag ++ b ++ delimiter tag
  | Comment t => dash :: dash :: t
  | Semicolon => [semicolon]
  end.

Definition text (l : list segment) : list ascii := l ≫= written.

(** Where [d] does not start before the end of [b]. *)
Fixpoint ends_first (d b rest : list ascii) : bool :=
  match b with [] => true | c :: b' => negb (starts d ((c :: b') ++ rest)) && ends_first d b' rest end.

(** the characters of a dollar-quote tag *)
Definition tag_word (tag : list ascii) : Prop := Forall (λ c, is_alnum c = true ∨ c = "_"%char) tag.

(** A segment is read as it was written when [rest] follows: a dollar sign on its own
    begins no tag, a string is not followed by another, a body ends at its first
    closing tag, a comment at the end of its line.  Double-quoted identifiers and
    block comments are no segments of their own: they are their characters. *)
Definition segment_ok (s : segment) (rest : list ascii) : Prop :=
  match s with
  | Char c => c ≠ apostrophe ∧ c ≠ semicolon ∧ (c = dash → head rest ≠ Some dash) ∧ (c = dollar → ∀ tag rest', rest = tag ++ dollar :: rest' → ¬ tag_word tag)
  | Quoted b => head rest ≠ Some apostrophe
  | Body tag b => tag_word tag ∧ ends_first (delimiter tag) b (delimiter tag ++ rest) = true
  | Comment t => (newline ∉ t) ∧ (rest = [] ∨ head rest = Some newline)
  | Semicolon => True
  end.

Fixpoint segments_ok (l : list segment) : Prop :=
  match l with [] => True | s :: l' => segment_ok s (text l') ∧ segments_ok l' end.

(** What is sent of a segment: a comment is dropped. *)
Definition kept (s : segment) : list ascii := match s with Comment _ | Semicolon => [] | _ => written s end.

(** The text between the semicolons. *)
Fixpoint pieces (l : list segment) : list (list ascii) :=
  match l with
  | [] => [[]]
  | Semicolon :: l' => [] :: pieces l'
  | s :: l' => match pieces l' with p :: ps => (kept s ++ p) :: ps | [] => [kept s] end
  end.

(** The statements: each piece without the whitespace around it, blank ones left out. *)
Definition statements_of (l : list segment) : list string :=
  filter (λ q, q ≠ EmptyString) ((λ p, of_chars (strip_chars p)) <$> pieces l).

(** *** The loop ends, whatever the text *)

Inductive lexes : lexer → list string → Prop :=
| lexes_done x r : lex_step x = inr r → lexes x r
| lexes_on x y r : lex_step x = inl y → lexes y r → lexes x r.

Lemma from_newline_shorter l l' : from_newline l = Some l' → (length l' ≤ length l)%nat.
Proof.
  induction l as [|c l IH]; simpl; [done|]. case_bool_decide as Hc; [by intros [= <-]|]. intros Hl%IH. lia.
Qed.

Lemma until_dollar_inv l a b : until_dollar l = Some (a, b) → l = a ++ dollar :: b ∧ dollar ∉ a.
Proof.
  revert a b. induction l as [|c l IH]; intros a b; simpl; [done|]. case_bool_decide as Hc.
  - intros [= <- <-]. subst. split; [done|apply not_elem_of_nil].
  - destruct (until_dollar l) as [[a' b']|]; [|done]. simpl. intros [= <- <-]. destruct (IH _ _ eq_refl) as [-> Hn]. split; [done|].
    rewrite not_elem_of_cons. done.
Qed.

Lemma starts_app d l : starts d (d ++ l) = true.
Proof. induction d as [|c d IH]; simpl; [done|]. by rewrite bool_decide_true. Qed.

Lemma delimiter_at_inv l tag rest : delimiter_at l = Some (tag, rest) → l = tag ++ dollar :: rest.
Proof.
  unfold delimiter_at. intros ([a b] & [-> _]%until_dollar_inv & Hb)%bind_Some. destruct (tag_ok a); [|done]. by injection Hb as <- <-.
Qed.

Lemma lex_step_shorter x y : lex_step x = inl y → (length (lx_rest y) < length (lx_rest x))%nat.
Proof.
  unfold lex_step. destruct x as [[|c r] m cur don]; simpl lx_rest; [done|]. destruct m as [| |tag]; simpl lx_mode; cbn iota.
  - destruct (starts [dash; dash] (c :: r)) eqn:Hs.
    + simpl in Hs. destruct r as [|c' r]; [by rewrite andb_false_r in Hs|]. rewrite !andb_true_iff, !bool_decide_eq_true in Hs. destruct Hs as [<- [<- _]].
      simpl. destruct (from_newline r) as [l|] eqn:Hl; [|done]. intros [= <-]. simpl. apply from_newline_shorter in Hl. lia.
    + destruct (bool_decide (c = apostrophe)); [intros [= <-]; simpl; lia|].
      destruct (if bool_decide (c = dollar) then delimiter_at r else None) as [[tag l]|] eqn:Hd.
      * case_bool_decide; [|done]. apply delimiter_at_inv in Hd as ->. intros [= <-]. simpl. rewrite length_app. simpl. lia.
      * destruct (bool_decide (c = semicolon)); intros [= <-]; simpl; lia.
  - repeat case_match; intros [= <-]; simpl in *; lia.
  - destruct (starts (delimiter tag) (c :: r)); intros [= <-]; simpl; [|lia]. rewrite length_drop. lia.
Qed.

Lemma lex_enough n x : (length (lx_rest x) < n)%nat → lexes x (lex n x).
Proof.
  revert x. induction n as [|n IH]; intros x Hn; [lia|]. simpl. destruct (lex_step x) as [y|r] eqn:Hx; [|by apply lexes_done].
  eapply lexes_on; [done|]. apply IH. apply lex_step_shorter in Hx. lia.
Qed.

Lemma lexes_det x r r' : lexes x r → lexes x r' → r = r'.
Proof.
  intros H. revert r'. induction H as [x r Hx|x y r Hx _ IH]; intros r' H'; inversion H' as [? ? Hx'|? y' ? Hx' Hr']; subst;
    rewrite Hx in Hx'; simplify_eq; auto.
Qed.

(** *** The loop reads what was written *)

Lemma lexes_quoted b rest cur don r : head rest ≠ Some apostrophe →
  lexes (Lexer rest Plain (cur ++ escape b ++ [apostrophe]) don) r → lexes (Lexer (escape b ++ apostrophe :: rest) Quote cur don) r.
Proof.
  revert cur. induction b as [|c b IH]; intros cur Hh H; simpl.
  - eapply lexes_on; [|exact H]. unfold lex_step. simpl. destruct rest as [|c r']; [done|]. rewrite bool_decide_false; [done|]. intros ->. done.
  - change (escape (c :: b)) with ((if bool_decide (c = apostrophe) then [c; c] else [c]) ++ escape b) in H |- *.
    destruct (decide (c = apostrophe)) as [Hc|Hc].
    + rewrite bool_decide_true in H |- * by done. subst. eapply lexes_on; [by unfold lex_step; simpl|]. apply IH; [done|]. by rewrite <- (assoc_L (++)).
    + rewrite bool_decide_false in H |- * by done. eapply lexes_on; [unfold lex_step; simpl; by rewrite bool_decide_false|]. apply IH; [done|].
      by rewrite <- (assoc_L (++)).
Qed.

Lemma lex_step_end tag l cur don : starts (delimiter tag) l = true →
  lex_step (Lexer l (Dollar tag) cur don) = inl (Lexer (drop (length (delimiter tag)) l) Plain (cur ++ delimiter tag) don).
Proof. intros Hs. destruct l as [|c l]; [done|]. unfold lex_step. cbn -[delimiter starts drop]. by rewrite Hs. Qed.

Lemma lexes_body tag b rest cur don r : ends_first (delimiter tag) b (delimiter tag ++ rest) = true →
  lexes (Lexer rest Plain (cur ++ b ++ delimiter tag) don) r → lexes (Lexer (b ++ delimiter tag ++ rest) (Dollar tag) cur don) r.
Proof.
  revert cur. induction b as [|c b IH]; intros cur He H.
  - eapply lexes_on; [apply lex_step_end; exact (starts_app (delimiter tag) rest)|]. rewrite app_nil_l, drop_app_length. exact H.
  - simpl in He. apply andb_true_iff in He as [Hn%negb_true_iff He]. eapply lexes_on; [unfold lex_step; simpl; simpl in Hn; by rewrite Hn|].
    apply IH; [done|]. rewrite <- (assoc_L (++)). exact H.
Qed.

Lemma until_dollar_app tag rest : dollar ∉ tag → until_dollar (tag ++ dollar :: rest) = Some (tag, rest).
Proof.
  induction tag as [|c tag IH]; simpl; [done|]. rewrite not_elem_of_cons. intros [Hc Ht]. rewrite bool_decide_false by congruence. by rewrite IH.
Qed.

Lemma tag_no_dollar tag : tag_ok tag = true → dollar ∉ tag.
Proof. intros Ht Hin. apply list_elem_of_In in Hin. unfold tag_ok in Ht. rewrite forallb_forall in Ht. specialize (Ht _ Hin). by vm_compute in Ht. Qed.

Lemma from_newline_app t rest : newline ∉ t → from_newline (t ++ rest) = from_newline rest.
Proof. induction t as [|c t IH]; simpl; [done|]. rewrite not_elem_of_cons. intros [Hc Ht]. rewrite bool_decide_false by congruence. auto. Qed.

Lemma text_nil l : text l = [] → l = [].
Proof. destruct l as [|s l]; [done|]. unfold text. simpl. destruct s; done. Qed.

Lemma tag_ok_word tag : tag_ok tag = true ↔ tag_word tag.
Proof.
  unfold tag_ok, tag_word. rewrite Forall_forall, forallb_forall. split.
  - intros H c Hc%list_elem_of_In. apply H, orb_true_iff in Hc as [Hc|Hc]; [by left|right; by apply bool_decide_eq_true in Hc].
  - intros H c Hc%list_elem_of_In. apply orb_true_iff. destruct (H c Hc) as [?|Hu]; [by left|right; by apply bool_decide_eq_true].
Qed.

Lemma delimiter_at_none l : (∀ tag rest, l = tag ++ dollar :: rest → ¬ tag_word tag) → delimiter_at l = None.
Proof.
  intros H. destruct (delimiter_at l) as [[tag rest]|] eqn:Hd; [|done]. exfalso. apply (H tag rest); [by apply delimiter_at_inv|].
  unfold delimiter_at in Hd. apply bind_Some in Hd as ([a b] & _ & Hb). destruct (tag_ok a) eqn:Ht; [|done]. injection Hb as <- <-.
  by apply tag_ok_word.
Qed.

(** The statements as the loop collects them. *)
Fixpoint gathered (l : list segment) (current : list ascii) (done : list string) : list string :=
  match l with
  | [] => flush current done
  | Semicolon :: l' => gathered l' [] (flush current done)
  | Comment _ :: l' => gathered l' current done
  | s :: l' => gathered l' (current ++ written s) done
  end.

Definition collected (ps : list (list ascii)) : list string := filter (λ q, q ≠ EmptyString) ((λ p, of_chars (strip_chars p)) <$> ps).

Lemma flush_collected cur don : flush cur don = don ++ collected [cur].
Proof.
  unfold flush, collected. cbn [fmap list_fmap]. case_bool_decide as Hs.
  - rewrite Hs. by rewrite app_nil_r.
  - rewrite filter_cons_True; [done|]. intros He. apply Hs. apply (f_equal chars) in He. by rewrite chars_of_chars in He.
Qed.

Lemma collected_cons p ps : collected (p :: ps) = collected [p] ++ collected ps.
Proof. unfold collected. cbn [fmap list_fmap]. by rewrite <- filter_app. Qed.

Lemma pieces_cons l : ∃ p ps, pieces l = p :: ps.
Proof. destruct l as [|s l]; [by do 2 eexists|]. destruct s; cbn; try destruct (pieces l); by do 2 eexists. Qed.

Lemma gathered_pieces l cur don :
  gathered l cur don = don ++ collected (match pieces l with p :: ps => (cur ++ p) :: ps | [] => [cur] end).
Proof.
  revert cur don. induction l as [|s l IH]; intros cur don; [cbn; by rewrite flush_collected, app_nil_r|].
  destruct s; cbn [gathered pieces kept]; rewrite IH, ?flush_collected, ?app_nil_r.
  all: destruct (pieces_cons l) as (p & ps & ->); rewrite ?app_nil_l, ?app_nil_r, <- ?app_assoc; try done.
  by rewrite (collected_cons cur (p :: ps)).
Qed.

Lemma lexes_text l cur don : segments_ok l → lexes (Lexer (text l) Plain cur don) (gathered l cur don).
Proof.
  revert cur don. induction l as [|s l IH]; intros cur don; simpl; [intros _; by apply lexes_done|]. intros [Hs Hl]. specialize (IH).
  change (text (s :: l)) with (written s ++ text l). destruct s as [c|b|tag b|t|]; simpl in Hs.
  - destruct Hs as (Ha & Hsc & Hd & Hdol). eapply lexes_on; [|by apply IH]. unfold lex_step. cbn [lx_rest lx_mode lx_current lx_statements written app].
    replace (starts [dash; dash] (c :: text l)) with false.
    2:{ symmetry. simpl. case_bool_decide as Hc; [|done]. destruct (text l) as [|c' l']; [done|]. rewrite bool_decide_false; [done|]. intros <-. by apply Hd. }
    rewrite bool_decide_false by done. case_bool_decide as Hc; [rewrite delimiter_at_none by (by apply Hdol)|]; by rewrite bool_decide_false.
  - eapply lexes_on; [unfold lex_step; simpl; done|]. rewrite <- (assoc_L (++)). simpl. apply lexes_quoted; [done|].
    specialize (IH (cur ++ written (Quoted b)) don Hl). simpl in IH. by rewrite <- (assoc_L (++)).
  - destruct Hs as [Ht%tag_ok_word He]. eapply lexes_on.
    { unfold lex_step. cbn [lx_rest lx_mode lx_current lx_statements written]. unfold delimiter at 1. rewrite <- (assoc_L (++)). simpl app at 1.
      simpl. unfold delimiter_at. rewrite <- (assoc_L (++)). simpl. rewrite until_dollar_app by by apply tag_no_dollar. simpl. by rewrite Ht. }
    rewrite <- (assoc_L (++)). apply lexes_body; [done|]. specialize (IH (cur ++ written (Body tag b)) don Hl). simpl in IH. by rewrite <- (assoc_L (++)).
  - destruct Hs as [Hn [Hr|Hr]].
    + apply text_nil in Hr as Hlnil. subst l. simpl. apply lexes_done. unfold lex_step. simpl. by rewrite from_newline_app.
    + destruct (text l) as [|c r] eqn:Hl'; [done|]. simpl in Hr. injection Hr as ->. eapply lexes_on; [|by apply IH].
      unfold lex_step. simpl. rewrite from_newline_app by done. simpl. done.
  - eapply lexes_on; [unfold lex_step; simpl; done|]. by apply IH.
Qed.

(** (C39) A migration is split at the semicolons outside strings, dollar-quoted bodies
    and line comments: the statements are the pieces between them, comments dropped,
    every other character of a piece kept in order, the whitespace around a piece
    stripped and blank pieces left out.  (A semicolon in a double-quoted identifier
    counts as one outside: [quoted_identifier_is_split].) *)
Theorem split_matches_reference (l : list segment) : segments_ok l → _split_sql_statements (of_chars (text l)) = statements_of l.
Proof.
  intros Hl. transitivity (gathered l [] []).
  - unfold _split_sql_statements. rewrite chars_of_chars. eapply lexes_det; [|by apply lexes_text]. apply lex_enough. simpl. lia.
  - rewrite gathered_pieces. unfold statements_of. cbn [app]. change (filter _ (_ <$> pieces l)) with (collected (pieces l)).
    by destruct (pieces_cons l) as (p & ps & ->).
Qed.

(** ** The ledger and the runner *)

Record migration := Migration { mg_name : string; mg_sql : string }.

#[export] Instance migration_eq_dec : EqDecision migration.
Proof. solve_decision. Defined.

Inductive migration_error := HashDrift (name : string) | SqlError.

(** PostgreSQL running one statement on a database of type [D]. *)
Class Sql (D : Type) := { execute : string → D → option D }.

(** [MIGRATION_GLOB]: four digits, an underscore, anything, [.sql] *)
Definition shipped (name : string) : bool :=
  match chars name with
  | a :: b :: c :: d :: u :: rest => forallb is_digit [a; b; c; d] && bool_decide (u = "_"%char) && starts (reverse (chars ".sql")) (reverse rest)
  | _ => false
  end.

Definition name_le (a b : migration) : Prop := String.le (mg_name a) (mg_name b).
#[export] Instance name_le_dec : RelDecision name_le.
Proof. intros a b. unfold name_le. apply _. Defined.

(** [sorted(mig_dir.glob(MIGRATION_GLOB))] of the files of a directory *)
Definition image_files (dir : list migration) : list migration := merge_sort name_le (List.filter (λ f, shipped (mg_name f)) dir).

Section runner.
Context {D : Type} `{!Sql D} `{!Runtime}.

(** A tracked migration, or a file outside the directory, was applied. *)
Inductive entry := Tracked (f : migration) | External (sql : string).

Record mdb := Mdb { md_ledger : gmap string string; md_data : D; md_log : list entry }.

(** The statements of a file, one after another. *)
Fixpoint run_statements (l : list string) (d : D) : option D :=
  match l with [] => Some d | q :: l' => d' ← execute q d; run_statements l' d' end.

Definition digest_of (f : migration) : string := sha256_hex (mg_sql f).

Definition run_sql (sql : string) (e : entry) : io mdb migration_error unit := λ s,
  match run_statements (_split_sql_statements sql) (md_data s) with
  | Some d => (Ok tt, Mdb (md_ledger s) d (md_log s ++ [e]))
  | None => (Err SqlError, s)
  end.

(** INSERT INTO leaf_schema_migrations *)
Definition record_migration (f : migration) : io mdb migration_error unit := λ s,
  (Ok tt, Mdb (<[mg_name f := digest_of f]> (md_ledger s)) (md_data s) (md_log s)).

(** One transaction under the migration lock, for a tracked file *)
Definition apply_tracked (f : migration) : io mdb migration_error unit :=
  atomically (λ s,
    match md_ledger s !! mg_name f with
    | Some h => (if bool_decide (h = digest_of f) then Ok tt else Err (HashDrift (mg_name f)), s)
    | None =>
        (run_sql (mg_sql f) (Tracked f);; record_migration f) s
    end).

(** [track=False] takes no lock: the transaction is assumed to run by itself *)
Definition _apply_one (f : migration) (track : bool) : io mdb migration_error unit :=
  if track then apply_tracked f else atomically (run_sql (mg_sql f) (External (mg_sql f))).

(** [apply_migration()]: every file of the directory, a transaction each *)
Fixpoint apply_files (l : list migration) : prog mdb (result migration_error unit) :=
  match l with
  | [] => Ret (Ok tt)
  | f :: l' => Act (λ _ s, _apply_one f true s) (λ r, match r with Ok _ => apply_files l' | Err e => Ret (Err e) end)
  end.

Definition apply_migration (dir : list migration) : prog mdb (result migration_error unit) := apply_files (image_files dir).

(** [apply_migration(sql_path)]; [inside] is whether the file lies in the directory *)
Definition apply_migration_file (f : migration) (inside : bool) : prog mdb (result migration_error unit) :=
  Act (λ _ s, _apply_one f (inside && shipped (mg_name f)) s) (λ r, Ret r).

(** ** The readiness proof *)

Definition migration_manifest (dir : list migration) : list (string * string) := (λ f, (mg_name f, digest_of f)) <$> image_files dir.

Record migration_proof := MigrationProof { mp_count : nat; mp_missing : list string; mp_drift : list string }.

Definition _migration_proof (dir : list migration) (applied : gmap string string) : migration_proof :=
  let expected := list_to_map (reverse (migration_manifest dir)) : gmap string string in
  MigrationProof (size (dom expected ∩ dom applied))
    (merge_sort String.le (elements (dom expected ∖ dom applied)))
    (merge_sort String.le ((List.filter (λ kv : string * string, match applied !! kv.1 with Some h => negb (bool_decide (h = kv.2)) | None => false end)
      (map_to_list expected)).*1)).

(** ** What the database is *)

Definition sql_of (e : entry) : string := match e with Tracked f => mg_sql f | External q => q end.

Fixpoint replays (l : list entry) (d : D) : option D :=
  match l with [] => Some d | e :: l' => d' ← run_statements (_split_sql_statements (sql_of e)) d; replays l' d' end.

Definition tracked (l : list entry) : list migration := omap (λ e, match e with Tracked f => Some f | External _ => None end) l.

Record migration_inv (d0 : D) (s : mdb) : Prop := MigrationInv {
  iv_data : replays (md_log s) d0 = Some (md_data s);
  iv_once : NoDup (mg_name <$> tracked (md_log s));
  iv_ledger : ∀ name h, md_ledger s !! name = Some h ↔ ∃ f, f ∈ tracked (md_log s) ∧ mg_name f = name ∧ digest_of f = h }.

Record migration_grows (s s' : mdb) : Prop := MigrationGrows {
  gr_ledger : md_ledger s ⊆ md_ledger s'; gr_log : md_log s `prefix_of` md_log s' }.

#[export] Instance migration_grows_preorder : PreOrder migration_grows.
Proof. split; [by intros s; split|]. intros a b c [A1 A2] [B1 B2]. split; by etransitivity. Qed.

Lemma replays_snoc l e d d1 d2 : replays l d = Some d1 → run_statements (_split_sql_statements (sql_of e)) d1 = Some d2 → replays (l ++ [e]) d = Some d2.
Proof.
  revert d. induction l as [|a l IH]; intros d; simpl; [intros [= ->] Hr; by rewrite Hr|]. intros (d' & H1 & H2)%bind_Some Hr. rewrite H1. simpl. by eapply IH.
Qed.

Lemma tracked_snoc l e : tracked (l ++ [e]) = tracked l ++ tracked [e].
Proof. unfold tracked. apply omap_app. Qed.

(** What a call of [_apply_one] has done. *)
Lemma apply_one_cases f track s r s' : _apply_one f track s = (r, s') →
  (s' = s ∧ (r = Ok tt → track = true ∧ md_ledger s !! mg_name f = Some (digest_of f))) ∨
  (track = true ∧ r = Ok tt ∧ md_ledger s !! mg_name f = None ∧
     ∃ d, run_statements (_split_sql_statements (mg_sql f)) (md_data s) = Some d ∧
       s' = Mdb (<[mg_name f := digest_of f]> (md_ledger s)) d (md_log s ++ [Tracked f])) ∨
  (track = false ∧ r = Ok tt ∧ ∃ d, run_statements (_split_sql_statements (mg_sql f)) (md_data s) = Some d ∧
     s' = Mdb (md_ledger s) d (md_log s ++ [External (mg_sql f)])).
Proof.
  unfold _apply_one, apply_tracked, atomically. destruct track.
  - destruct (md_ledger s !! mg_name f) as [h|] eqn:Hl; [case_bool_decide as Hh; intros [= <- <-]; left; by subst|].
    unfold mbind, io_mbind, run_sql, record_migration. destruct (run_statements _ _) as [d|] eqn:Hd; intros [= <- <-]; [right; left|by left]. split_and!; [done|done|done|by exists d].
  - unfold run_sql. destruct (run_statements _ _) as [d|] eqn:Hd; intros [= <- <-]; [right; right|by left]. split_and!; [done|done|by exists d].
Qed.

Lemma apply_one_ok d0 f track s r s' : _apply_one f track s = (r, s') → migration_inv d0 s →
  migration_inv d0 s' ∧ migration_grows s s' ∧ (r = Ok tt → track = true → md_ledger s' !! mg_name f = Some (digest_of f)).
Proof.
  intros [[-> Hr]|[(-> & -> & Hn & d & Hd & ->)|(-> & -> & d & Hd & ->)]]%apply_one_cases [I1 I2 I3].
  - split_and!; [done|done|]. intros Hok _. by apply Hr.
  - split_and!; [split; simpl| |intros _ _; apply lookup_insert_eq].
    + by eapply replays_snoc.
    + rewrite tracked_snoc, fmap_app. simpl. apply NoDup_app. split_and!; [done| |apply NoDup_singleton]. intros name (g & -> & Hg)%list_elem_of_fmap Hin.
      apply list_elem_of_singleton in Hin. assert (md_ledger s !! mg_name g = Some (digest_of g)) as Hs by (apply I3; eauto). congruence.
    + intros name h. rewrite tracked_snoc, lookup_insert_Some, I3. setoid_rewrite elem_of_app. simpl. setoid_rewrite list_elem_of_singleton. split.
      * intros [[<- <-]|[_ (g & Hg & ?)]]; [exists f; naive_solver|exists g; naive_solver].
      * intros (g & [Hg| ->] & Hname & Hh); [|by left]. right. split; [|eauto]. intros <-. assert (md_ledger s !! mg_name f = Some h) as Hs by (apply I3; eauto). congruence.
    + split; simpl; [by apply insert_subseteq|by apply prefix_app_r].
  - split_and!; [split; simpl| |done].
    + by eapply replays_snoc.
    + by rewrite tracked_snoc, app_nil_r.
    + intros name h. by rewrite I3, tracked_snoc, app_nil_r.
    + split; simpl; [done|by apply prefix_app_r].
Qed.

(** ** Deployments at the same time *)

(** A deployment of a directory (whose file names differ), or of one file. *)
Inductive migration_request : prog mdb (option (list migration) * result migration_error unit) → Prop :=
| mr_deploy dir : NoDup (mg_name <$> dir) → migration_request (pmap (λ r, (Some dir, r)) (apply_migration dir))
| mr_file f inside : migration_request (pmap (λ r, (None, r)) (apply_migration_file f inside)).

Definition all_applied (l : list migration) (s : mdb) : Prop := ∀ f, f ∈ l → md_ledger s !! mg_name f = Some (digest_of f).

Lemma applied_grows l s s' : migration_grows s s' → all_applied l s → all_applied l s'.
Proof. intros [Hl _] Ha f Hf. eapply lookup_weaken; [by apply Ha|done]. Qed.

Definition deployed (_ : nat) (r : option (list migration) * result migration_error unit) (s : mdb) : Prop :=
  ∀ dir, r = (Some dir, Ok tt) → NoDup (mg_name <$> dir) ∧ all_applied (image_files dir) s.

Lemma secured_files d0 i (dn l : list migration) s : all_applied dn s →
  secured (migration_inv d0) migration_grows (λ _ r s, r = Ok tt → all_applied (dn ++ l) s) i (apply_files l) s.
Proof.
  revert dn s. induction l as [|f l IH]; intros dn s Hd; simpl.
  - intros s' _ Hg _. rewrite app_nil_r. by eapply applied_grows.
  - intros s' Hinv Hg. destruct (apply_tracked f s') as [r s2] eqn:Hr. destruct (apply_one_ok d0 f true s' r s2 Hr Hinv) as (Hi & Hg2 & Hf).
    split_and!; [done|done|]. destruct r as [[]|e]; [|by intros s3 _ _ [=]]. specialize (IH (dn ++ [f]) s2). rewrite <- (assoc_L (++)) in IH. apply IH.
    intros g [Hgd| ->%list_elem_of_singleton]%elem_of_app; [|by apply Hf]. eapply applied_grows; [exact (transitivity Hg Hg2)|done|done].
Qed.

Lemma request_secured d0 i p s : migration_request p → secured (migration_inv d0) migration_grows deployed i p s.
Proof.
  intros [dir Hnd|f inside]; apply secured_pmap.
  - eapply secured_weaken; [|apply (secured_files d0 i [])]; [|by intros f ?%elem_of_nil]. intros r s' _ Ha dir' [= <- ->]. auto.
  - simpl. intros s' Hinv Hg. destruct (_apply_one f _ s') as [r s2] eqn:Hr. destruct (apply_one_ok d0 f _ s' r s2 Hr Hinv) as (Hi & Hg2 & _).
    split_and!; [done|done|]. by intros s3 _ _ dir' [=].
Qed.

Definition migrations_reached (d0 : D) (w : pool mdb (option (list migration) * result migration_error unit)) : Prop :=
  star (pool_step migration_request) (Pool (Mdb ∅ d0 []) ∅) w.

Lemma migration_inv_empty d0 : migration_inv d0 (Mdb ∅ d0 []).
Proof. split; simpl; [done|constructor|]. intros name h. rewrite lookup_empty. split; [done|]. by intros (f & ?%elem_of_nil & _). Qed.

Lemma migrations_ok d0 w : migrations_reached d0 w → pool_ok (migration_inv d0) migration_grows deployed w.
Proof.
  intros Hw. refine (proj1 (pool_sound _ _ _ migration_request _ w _ Hw _)); [intros; by apply request_secured|]. split; [apply migration_inv_empty|].
  intros i p Hp. simpl in Hp. by rewrite lookup_empty in Hp.
Qed.

(** (C23) Whatever images deploy at the same time and wherever they fail, the database is what
    the recorded files and single files make of the first one, run whole and one after
    another; a shipped file is run at most once, and the ledger holds exactly the
    shipped files that ran, with the hashes of their text. *)
Theorem database_is_its_ledger d0 w : migrations_reached d0 w →
  replays (md_log (shared w)) d0 = Some (md_data (shared w)) ∧ NoDup (mg_name <$> tracked (md_log (shared w))) ∧
  ∀ name h, md_ledger (shared w) !! name = Some h ↔ ∃ f, f ∈ tracked (md_log (shared w)) ∧ mg_name f = name ∧ digest_of f = h.
Proof. intros Hw. destruct (migrations_ok _ _ Hw) as [[I1 I2 I3] _]. done. Qed.

(** A file whose text changed after it was applied stops the deployment before any of
    its statements runs. *)
Theorem drift_runs_nothing f h s : md_ledger s !! mg_name f = Some h → h ≠ digest_of f → _apply_one f true s = (Err (HashDrift (mg_name f)), s).
Proof. intros Hl Hh. unfold _apply_one, apply_tracked, atomically. rewrite Hl. by rewrite bool_decide_false. Qed.

(** *** Readiness *)

Lemma image_names dir : NoDup (mg_name <$> dir) → NoDup (mg_name <$> image_files dir).
Proof.
  intros Hnd. unfold image_files. rewrite merge_sort_Permutation. induction dir as [|f dir IH]; [done|]. inversion Hnd as [|? ? Hn Hd]; subst. simpl.
  destruct (shipped _); [|by apply IH]. simpl. constructor; [|by apply IH]. intros (g & Hg & Hin)%list_elem_of_fmap. apply Hn. rewrite Hg.
  apply list_elem_of_fmap_2. apply list_elem_of_In in Hin. apply filter_In in Hin as [Hin _]. by apply list_elem_of_In.
Qed.

Lemma manifest_keys dir : (migration_manifest dir).*1 = mg_name <$> image_files dir.
Proof. unfold migration_manifest. by rewrite <- list_fmap_compose. Qed.

(** What the readiness proof compares with. *)
Lemma expected_lookup dir name h : NoDup (mg_name <$> dir) →
  (list_to_map (reverse (migration_manifest dir)) : gmap string string) !! name = Some h → ∃ f, f ∈ image_files dir ∧ mg_name f = name ∧ digest_of f = h.
Proof.
  intros Hnd Hl. apply elem_of_list_to_map_2 in Hl. rewrite elem_of_reverse in Hl. apply list_elem_of_fmap in Hl as (f & [= -> ->] & Hf). by exists f.
Qed.

(** A deployment that returned leaves the database ready for its image, and later
    deployments of any image do not undo this: nothing is missing and nothing drifts. *)
Theorem deployed_image_is_current d0 w i dir : migrations_reached d0 w → requests w !! i = Some (Ret (Some dir, Ok tt)) →
  _migration_proof dir (md_ledger (shared w)) = MigrationProof (length (image_files dir)) [] [].
Proof.
  intros Hw Hi. destruct (pool_answers _ _ _ _ _ _ (migrations_ok _ _ Hw) Hi dir eq_refl) as [Hnd Hall]. unfold _migration_proof. cbv zeta.
  set (expected := list_to_map _ : gmap string string). set (applied := md_ledger _).
  assert (Hex : ∀ n h, expected !! n = Some h → applied !! n = Some h).
  { intros n h (f & Hf & <- & <-)%expected_lookup; [|done]. by apply Hall. }
  assert (Hsub : dom expected ⊆ dom applied). { intros n [h Hh]%elem_of_dom. apply elem_of_dom. eauto. }
  f_equal.
  - replace (dom expected ∩ dom applied) with (dom expected) by set_solver. rewrite size_dom. unfold expected.
    rewrite map_size_list_to_map; [by rewrite length_reverse; unfold migration_manifest; rewrite length_fmap|].
    rewrite fmap_reverse, reverse_Permutation, manifest_keys. by apply image_names.
  - replace (dom expected ∖ dom applied) with (∅ : gset string) by set_solver. done.
  - rewrite (List.filter_ext_in _ (λ _, false)); [by rewrite List.filter_false|]. intros [n h] Hin%list_elem_of_In%elem_of_map_to_list.
    apply Hex in Hin. simpl. rewrite Hin. by rewrite bool_decide_true.
Qed.

(** *** The order of one image *)

Section one_image.
Context (d0 : D) (files : list migration) (files_distinct : NoDup (mg_name <$> files)).

(** The first files of the image have run. *)
Definition ordered (s : mdb) : Prop := migration_inv d0 s ∧ ∃ k, (k ≤ length files)%nat ∧ md_log s = Tracked <$> take k files.

Lemma tracked_fmap l : tracked (Tracked <$> l) = l.
Proof. induction l as [|f l IH]; [done|]. change (f :: tracked (Tracked <$> l) = f :: l). by rewrite IH. Qed.

Lemma name_at (i j : nat) f g : files !! i = Some f → files !! j = Some g → mg_name f = mg_name g → i = j.
Proof. intros Hi Hj Hn. eapply (NoDup_lookup _ _ _ (mg_name f) files_distinct); rewrite list_lookup_fmap, ?Hi, ?Hj; simpl; congruence. Qed.

(** A file in the ledger is among those that have run. *)
Lemma ledger_before s k p f : migration_inv d0 s → md_log s = Tracked <$> take k files → files !! p = Some f → is_Some (md_ledger s !! mg_name f) → (p < k)%nat.
Proof.
  intros [_ _ I3] Hlog Hp [h Hh]. apply I3 in Hh as (g & Hg & Hn & _). rewrite Hlog, tracked_fmap in Hg.
  apply list_elem_of_lookup in Hg as [q Hq]. apply lookup_take_Some in Hq as [Hq Hlt]. rewrite (name_at p q f g) by done. done.
Qed.

(** The next file runs exactly when all before it have. *)
Lemma ordered_next p f s r s' : ordered s → all_applied (take p files) s → files !! p = Some f → _apply_one f true s = (r, s') → ordered s'.
Proof.
  intros [Hinv (k & Hk & Hlog)] Hall Hp Hr. destruct (apply_one_ok d0 _ _ _ _ _ Hr Hinv) as (Hinv' & _ & _). split; [done|].
  apply apply_one_cases in Hr as [[-> _]|[(_ & _ & Hn & d & _ & ->)|[? _]]]; [by exists k| |done].
  assert (k = p) as ->; [|exists (S p); simpl; split; [apply lookup_lt_Some in Hp; lia|by rewrite Hlog, (take_S_r _ _ _ Hp), fmap_app]].
  destruct (Nat.lt_trichotomy k p) as [Hlt|[->|Hlt]]; [|done|].
  - destruct (lookup_lt_is_Some_2 files k) as [g Hg]; [apply lookup_lt_Some in Hp; lia|]. exfalso.
    assert (k < k)%nat; [|lia]. eapply (ledger_before s k k g); [done|done|done|]. exists (digest_of g). apply Hall. apply list_elem_of_lookup. exists k. by apply lookup_take_Some.
  - assert (is_Some (md_ledger s !! mg_name f)) as [h Hh]; [|congruence]. exists (digest_of f). apply (iv_ledger _ _ Hinv). exists f. split; [|done].
    rewrite Hlog, tracked_fmap. apply list_elem_of_lookup. exists p. by apply lookup_take_Some.
Qed.

Lemma secured_ordered i (p : nat) s : all_applied (take p files) s →
  secured ordered migration_grows (λ _ _ _, True) i (apply_files (drop p files)) s.
Proof.
  remember (drop p files) as l eqn:Hl. revert p Hl s. induction l as [|f l IH]; intros p Hl s Hall; simpl; [done|].
  assert (Hp : files !! p = Some f). { rewrite <- (Nat.add_0_r p), <- lookup_drop, <- Hl. done. }
  assert (Hl' : l = drop (S p) files). { by rewrite <- Nat.add_1_r, <- drop_drop, <- Hl. }
  intros s' Hord Hg. destruct (apply_tracked f s') as [r s2] eqn:Hr. pose proof (applied_grows _ _ _ Hg Hall) as Hall'.
  destruct (apply_one_ok d0 f true s' r s2 Hr (proj1 Hord)) as (_ & Hg2 & Hf).
  split_and!; [by eapply ordered_next|done|]. destruct r as [[]|e]; [|done]. apply (IH (S p) Hl'). rewrite (take_S_r _ _ _ Hp).
  intros g [Hgd| ->%list_elem_of_singleton]%elem_of_app; [|by apply Hf]. by eapply applied_grows.
Qed.
End one_image.

(** When every deployment is of one image, its files run in the order of their names
    without a gap, however many deployments race and wherever they fail. *)
Theorem one_image_runs_in_order d0 dir w : NoDup (mg_name <$> dir) →
  star (pool_step (λ p, p = apply_migration dir)) (Pool (Mdb ∅ d0 []) ∅) w → ∃ k, md_log (shared w) = Tracked <$> take k (image_files dir).
Proof.
  intros Hnd Hw. apply image_names in Hnd as Hni.
  assert (pool_ok (ordered d0 (image_files dir)) migration_grows (λ _ _ _, True) w) as [[_ (k & _ & Hk)] _]; [|by exists k].
  refine (proj1 (pool_sound _ _ _ _ _ w _ Hw _)).
  - intros i p s -> _. apply (secured_ordered d0 (image_files dir) Hni i 0). by intros f ?%elem_of_nil.
  - split; [split; [apply migration_inv_empty|exists 0%nat; split; [lia|done]]|]. intros i p Hp. simpl in Hp. by rewrite lookup_empty in Hp.
Qed.
End runner.

(** ** Concrete deployments *)

(** A statement is recorded, and a statement [FAIL] fails. *)
#[local] Instance demo_sql : Sql (list string) := {| execute := λ q d, if bool_decide (q = "FAIL"%string) then None else Some (d ++ [q]) |}.
#[local] Instance demo_hash : Runtime := {| sha256_hex := λ s, s; repr := λ _, ""%string; token_hex := λ _, ""%string; token_supply := 0 |}.

Definition plain (s : string) : list segment := Char <$> chars s.

(** [A 'x;y'; --c;] and on the next line [$f$B;$f$; $1] *)
Definition demo_text : list segment :=
  plain "A " ++ [Quoted (chars "x;y"); Semicolon; Char " "; Comment (chars "c;"); Char newline; Body ["f"%char] (chars "B;"); Semicolon] ++ plain " $1".

Lemma no_tag_follows l : bool_decide (dollar ∉ l) = true → ∀ tag rest, l = tag ++ dollar :: rest → ¬ tag_word tag.
Proof. intros H%bool_decide_eq_true tag rest -> _. apply H. set_solver. Qed.

Lemma split_matches_reference_witness :
  _split_sql_statements (of_chars (text demo_text)) = ["A 'x;y'"; "$f$B;$f$"; "$1"]%string.
Proof.
  rewrite (split_matches_reference demo_text); [vm_compute; reflexivity|].
  simpl. repeat split; try done; try (right; done); try (by apply (bool_decide_unpack _)).
  all: try (apply Forall_cons_2; [by left|apply Forall_nil_2]).
  all: intros tag rest; by apply no_tag_follows.
Defined.

Definition table_file : migration := Migration "0001_tables.sql" "T1;T2".
Definition column_file : migration := Migration "0002_columns.sql" "C1; --later".
Definition broken_file : migration := Migration "0003_broken.sql" "X;FAIL".
Definition demo_dir : list migration := [column_file; Migration "README.md" "no SQL"; table_file].

Definition deploy (dir : list migration) : prog (mdb (D := list string)) (option (list migration) * result migration_error unit) :=
  pmap (λ r, (Some dir, r)) (apply_migration dir).

Definition demo_deployments : list (prog (mdb (D := list string)) (option (list migration) * result migration_error unit)) :=
  [deploy demo_dir; deploy (broken_file :: demo_dir); deploy [table_file]].
Definition migrated := serve_all 0 demo_deployments (Pool (Mdb ∅ ["D0"%string] []) ∅).

Lemma migrated_reached : migrations_reached ["D0"%string] migrated.
Proof.
  apply serve_all_reaches. repeat apply Forall_cons_2; try apply Forall_nil_2; apply mr_deploy; by apply (bool_decide_unpack _).
Qed.

Lemma migrated_shape : md_log (shared migrated) = [Tracked table_file; Tracked column_file] ∧ md_data (shared migrated) = ["D0"; "T1"; "T2"; "C1"]%string ∧
  requests migrated !! 1%nat = Some (Ret (Some (broken_file :: demo_dir), Err SqlError)).
Proof. split_and!; vm_compute; reflexivity. Qed.

Lemma migrated_answer : requests migrated !! 0%nat = Some (Ret (Some demo_dir, Ok tt)).
Proof. vm_compute. reflexivity. Qed.

Lemma database_is_its_ledger_witness : replays (md_log (shared migrated)) ["D0"%string] = Some (md_data (shared migrated)) ∧
  NoDup (mg_name <$> tracked (md_log (shared migrated))) ∧
  ∀ name h, md_ledger (shared migrated) !! name = Some h ↔ ∃ f, f ∈ tracked (md_log (shared migrated)) ∧ mg_name f = name ∧ digest_of f = h.
Proof. exact (database_is_its_ledger ["D0"%string] migrated migrated_reached). Defined.

Lemma deployed_image_is_current_witness : _migration_proof demo_dir (md_ledger (shared migrated)) = MigrationProof 2 [] [].
Proof. exact (deployed_image_is_current ["D0"%string] migrated 0 demo_dir migrated_reached migrated_answer). Defined.

Lemma drift_runs_nothing_witness : _apply_one (Migration "0001_tables.sql" "T1;T3") true (shared migrated) =
  (Err (HashDrift "0001_tables.sql"), shared migrated).
Proof.
  apply (drift_runs_nothing (Migration "0001_tables.sql" "T1;T3") (mg_sql table_file) (shared migrated)); [vm_compute; reflexivity|by vm_compute].
Defined.

Definition raced := Nat.iter 3 (run_section 1) (Nat.iter 1 (run_section 0) (arrive 1 (apply_migration demo_dir) (arrive 0 (apply_migration demo_dir)
  (Pool (Mdb (D := list string) ∅ [] []) ∅)))).

Lemma one_image_runs_in_order_witness : ∃ k, md_log (shared raced) = Tracked <$> take k (image_files demo_dir).
Proof.
  apply (one_image_runs_in_order []); [by apply (bool_decide_unpack _)|]. unfold raced.
  eapply star_trans; [by apply arrive_reaches|]. eapply star_trans; [by apply arrive_reaches|].
  eapply star_trans; [apply (sections_reach _ 1)|apply (sections_reach _ 3)].
Defined.

(** A quoted identifier is no string to the lexer: one with a semicolon is cut in two. *)
Theorem quoted_identifier_is_split : let q := "034"%char in
  _split_sql_statements (of_chars (chars "DROP TABLE " ++ [q; "a"; ";"; "b"; q]%char)) =
  [of_chars (chars "DROP TABLE " ++ [q; "a"]%char); of_chars ["b"; q]%char].
Proof. vm_compute. reflexivity. Qed.
