(* ===== verification/Backend.v ===== *)
(** * Storage backends

    [StorageBackend] of [da/store.py]: the operations a drawing store calls, as a
    class with one instance per backend, and the promises the store relies on, as
    a second class ([BackendLaws]).  The laws speak about faults: a call that
    raises may have taken effect or not, so a client proof covers a failing disk
    or network.  Keys are related to objects only when they are [canonical]
    (plain path segments), because a file system identifies [a//b] with [a/b]. *)

From S2P Require Import Prelude PyText TenantIds.
From Stdlib Require Import Ascii.
Local Open Scope Z_scope.

(** ** What the store and its backends raise *)

Inductive denial :=
| AnonymousWriter      (** a writer that names no session under an active lock *)
| NotHolder
| StaleFence
| NoActiveCheckout     (** a graph commit without an active checkout *)
| FenceRequired        (** a graph commit without holder and fence *)
| ExpiredDuringPublish.

Inductive store_error :=
| EId (e : id_error)
| EKey                 (** [KeyError] *)
| EImmutableConflict
| EMismatchedContent   (** [_put_or_verify_blob] *)
| EIO                  (** [OSError], an HTTP error, an unreadable object *)
| ELockTimeout
| ELockUnavailable
| EEscapesRoot
| EMalformed           (** a manifest that does not decode *)
| EOverflow            (** [OverflowError] of [datetime] arithmetic *)
| EParam               (** [CheckoutParamError] *)
| EDenied (d : denial) (** [CheckoutDenied] *)
| EVanished            (** [DrawingVanished] *)
| EAlreadyExists
| ERefuseOverwrite
| EStaleParent
| ETooManyAbandoned
| EApplyIdReused
| EUnknownVersion
| EHeadMissing
| ERootVersion         (** nothing to undo *)
| EAtLatest            (** nothing to redo: head is latest *)
| ENoForwardChain      (** nothing to redo: no child of head leads to latest *)
| EBadPlan             (** the plan checks of [put_drawing] *)
| EBadBundle           (** the bundle checks of [put_drawing] and its adapters *)
| ECallback            (** an exception of a caller's callback *)
| ENeedsCheckout       (** postgres: an active checkout is required to publish *)
| EReservationMismatch (** postgres: the initial reservation has other content *)
| EReservationActive   (** postgres: the initial reservation is still active *)
| EReservationReclaimed
| EHeadChanged         (** postgres: the head changed while the bytes were stored *)
| EUniqueViolation.    (** postgres: a primary key is taken *)

#[export] Instance denial_eq_dec : EqDecision denial.
Proof. solve_decision. Defined.
#[export] Instance store_error_eq_dec : EqDecision store_error.
Proof. solve_decision. Defined.

(** Key functions raise [id_error]; inside the store they are store errors. *)
Definition keyed {A} (r : result id_error A) : result store_error A :=
  match r with Ok a => Ok a | Err e => Err (EId e) end.

Lemma keyed_Ok {A} (r : result id_error A) a : keyed r = Ok a ↔ r = Ok a.
Proof. destruct r; naive_solver. Qed.

(** ** Canonical keys *)

(** A nonempty segment without a leading dot: neither [.] nor [..], nor the name
    of a temporary file of the file system backend ([.leaf-...]). *)
Definition plain_segment (seg : list ascii) : bool :=
  match seg with
  | c :: _ => negb (bool_decide (c = "."%char))
  | [] => false
  end.

Definition canonical (key : string) : bool :=
  forallb plain_segment (Keys.split_at slash (chars key)).

(** ** The interface *)

Class StorageBackend (B : Type) := {
  cross_process_checkout_safe : bool;
  b_get : string → io B store_error string;
  b_put : string → string → io B store_error unit;
  b_exists : string → io B store_error bool;
  b_delete : string → io B store_error unit;
  b_put_if_absent_or_verify : string → string → io B store_error unit;
  (** the keys under one drawing, or [None] for cannot tell *)
  b_drawing_object_keys : string → string → io B store_error (option (list string));
  (** entering [with cross_process_lock(key)], and [held.reclaim()] inside *)
  b_lock : string → io B store_error unit;
  b_reclaim : string → io B store_error bool }.

(** [StorageBackend.put_if_absent_or_verify], what a backend inherits. *)
Definition default_put_if_absent_or_verify {B}
    (get : string → io B store_error string) (put : string → string → io B store_error unit)
    (exists_ : string → io B store_error bool) (key payload : string) : io B store_error unit :=
  present ← exists_ key;
  _ ← (if (present : bool) then mret tt else put key payload);
  existing ← get key;
  if bool_decide (existing = payload) then mret tt else raise EImmutableConflict.

(** A call [b ⇒ b'] touches at most the object [k]. *)
Definition frame {B} (obj : B → string → option string) (k : string) (b b' : B) : Prop :=
  ∀ k', canonical k' = true → k' ≠ k → obj b' k' = obj b k'.
Definition unchanged {B} (obj : B → string → option string) (b b' : B) : Prop :=
  ∀ k', canonical k' = true → obj b' k' = obj b k'.

Class BackendLaws (B : Type) `{!StorageBackend B} := {
  object : B → string → option string;
  law_get k b : canonical k = true →
    wp (b_get k) (λ r b', unchanged object b b' ∧
      match r with
      | Ok d => object b k = Some d
      | Err EKey => object b k = None
      | Err _ => True
      end) b;
  (** an object that is there is never denied; a directory may be reported *)
  law_exists k b : canonical k = true →
    wp (b_exists k) (λ r b', unchanged object b b' ∧ (r = Ok false → object b k = None)) b;
  law_put k d b : canonical k = true →
    wp (b_put k d) (λ r b', frame object k b b' ∧
      match r with
      | Ok _ => object b' k = Some d
      | Err _ => object b' k = object b k ∨ object b' k = Some d
      end) b;
  law_delete k b : canonical k = true →
    wp (b_delete k) (λ r b', frame object k b b' ∧
      match r with
      | Ok _ => object b' k = None
      | Err _ => object b' k = object b k ∨ object b' k = None
      end) b;
  (** an object that is there is never replaced *)
  law_put_if_absent k d b : canonical k = true →
    wp (b_put_if_absent_or_verify k d) (λ r b', frame object k b b' ∧
      match object b k with
      | Some old => object b' k = Some old ∧ (r = Ok tt → old = d)
      | None => match r with
                | Ok _ => object b' k = Some d
                | Err _ => object b' k = None ∨ object b' k = Some d
                end
      end) b;
  law_lock k b : canonical k = true → wp (b_lock k) (λ _ b', frame object k b b') b;
  law_reclaim k b : canonical k = true → wp (b_reclaim k) (λ _ b', frame object k b b') b;
  law_object_keys t d b :
    wp (b_drawing_object_keys t d) (λ _ b', unchanged object b b') b }.

(** ** [InMemoryBackend] *)

Module InMemory.

Abbreviation blobs := (gmap string string).

Definition get (key : string) : io blobs store_error string :=
  λ s, match s !! key with Some d => (Ok d, s) | None => (Err EKey, s) end.
Definition put (key data : string) : io blobs store_error unit :=
  λ s, (Ok tt, <[key := data]> s).
Definition exists_ (key : string) : io blobs store_error bool :=
  λ s, (Ok (bool_decide (is_Some (s !! key))), s).
Definition delete_ (key : string) : io blobs store_error unit :=
  λ s, (Ok tt, delete key s).
(** [winner = self._blobs.setdefault(key, payload)] *)
Definition put_if_absent_or_verify (key data : string) : io blobs store_error unit :=
  λ s, let s' := match s !! key with Some _ => s | None => <[key := data]> s end in
       if bool_decide (s' !! key = Some data) then (Ok tt, s') else (Err EImmutableConflict, s').

#[export] Instance backend : StorageBackend blobs := {
  cross_process_checkout_safe := true;
  b_get := get; b_put := put; b_exists := exists_; b_delete := delete_;
  b_put_if_absent_or_verify := put_if_absent_or_verify;
  b_drawing_object_keys := λ _ _, mret None;
  b_lock := λ _, mret tt;
  b_reclaim := λ _, mret true }.

#[export] Program Instance laws : BackendLaws blobs := {
  object := λ s k, s !! k }.
Next Obligation.
  intros k b _. unfold wp, outcome, final, b_get, backend, get.
  destruct (b !! k) eqn:E; simpl; by split.
Qed.
Next Obligation.
  intros k b _. split; [done|]. intros [= Hk%bool_decide_eq_false]. by apply eq_None_not_Some.
Qed.
Next Obligation.
  intros k d b _. split; [intros k' _ ?; by apply lookup_insert_ne | apply lookup_insert_eq].
Qed.
Next Obligation.
  intros k b _. split; [intros k' _ ?; by apply lookup_delete_ne | apply lookup_delete_eq].
Qed.
Next Obligation.
  intros k d b _. unfold wp, outcome, final, b_put_if_absent_or_verify, backend.
  unfold put_if_absent_or_verify.
  destruct (b !! k) as [old|] eqn:E; case_bool_decide as Hb; cbn [fst snd].
  - split; [done|]. split; [done|]. naive_solver.
  - split; [done|]. by split.
  - split; [intros k' _ ?; by apply lookup_insert_ne | apply lookup_insert_eq].
  - by rewrite lookup_insert_eq in Hb.
Qed.
Next Obligation. by intros k b _. Qed.
Next Obligation. by intros k b _. Qed.
Next Obligation. by intros t d b. Qed.

End InMemory.
