(* ===== verification/StoreKeys.v ===== *)
(** * Keys of one drawing

    The key functions of [TenantIds.Keys] as total functions on validated ids,
    with the facts the store proofs use: the keys are canonical, they determine
    their drawing and kind, and a lock file is none of them. *)

From S2P Require Import Prelude PyText TenantIds Backend.
From Stdlib Require Import Ascii.
Local Open Scope Z_scope.
Import Keys IdFacts.

Definition valid (id : string) : Prop := sanitize_id (PStr id) = Ok id.

Definition okey (t d : string) (o : object_kind) : string := of_chars (key_text t d (object_rest o)).

Definition lkey (sha256 : string → string) (t d : string) : string :=
  let digest := sha256 (t +:+ "/" +:+ d) in
  "checkout-locks/" +:+ of_chars (take 2 (chars digest)) +:+ "/" +:+ digest +:+ ".lock".

Lemma sanitize_valid a s : sanitize_id a = Ok s → a = PStr s ∧ valid s.
Proof. intros Hs. pose proof Hs as [-> _]%sanitize_id_Ok. done. Qed.

Lemma object_key_inv t d o k :
  object_key (PStr t) (PStr d) o = Ok k → valid t ∧ valid d ∧ object_ok o ∧ k = okey t d o.
Proof.
  intros (t' & d' & Ht & Hd & Ho & Hk)%object_key_Ok.
  pose proof (sanitize_valid _ _ Ht) as [[= ->] ?]. pose proof (sanitize_valid _ _ Hd) as [[= ->] ?].
  do 3 (split; [done|]). unfold okey. by rewrite <- Hk, of_chars_chars.
Qed.

Lemma manifest_key_inv t d k :
  manifest_key (PStr t) (PStr d) = Ok k → valid t ∧ valid d ∧ k = okey t d OManifest.
Proof. intros H. by apply (object_key_inv t d OManifest) in H as (?&?&_&?). Qed.

Lemma version_key_inv t d v k :
  drawing_version_key (PStr t) (PStr d) v = Ok k →
  valid t ∧ valid d ∧ 1 <= v <= 99999999 ∧ k = okey t d (OVersion v).
Proof. intros H. by apply (object_key_inv t d (OVersion v)) in H. Qed.

Lemma plan_key_inv t d v k :
  version_plan_key (PStr t) (PStr d) v = Ok k →
  valid t ∧ valid d ∧ 1 <= v <= 99999999 ∧ k = okey t d (OPlan v).
Proof. intros H. by apply (object_key_inv t d (OPlan v)) in H. Qed.

Lemma bundle_key_inv t d g k :
  graph_bundle_key (PStr t) (PStr d) g = Ok k →
  valid t ∧ valid d ∧ is_sha256_hex g = true ∧ k = okey t d (OBundle g).
Proof. intros H. by apply (object_key_inv t d (OBundle g)) in H. Qed.

Lemma lock_key_inv sha256 t d k :
  checkout_lock_key sha256 (PStr t) (PStr d) = Ok k → valid t ∧ valid d ∧ k = lkey sha256 t d.
Proof.
  unfold checkout_lock_key. rewrite result_bind_Ok. setoid_rewrite result_bind_Ok.
  intros (t' & Ht & d' & Hd & [= <-]).
  pose proof (sanitize_valid _ _ Ht) as [[= ->] ?]. by pose proof (sanitize_valid _ _ Hd) as [[= ->] ?].
Qed.

Lemma drawing_prefix_valid t d :
  valid t → valid d → drawing_prefix (PStr t) (PStr d) = Ok ("tenants/" +:+ t +:+ "/drawings/" +:+ d)%string.
Proof. intros Ht Hd. apply drawing_prefix_Ok. eauto. Qed.

Lemma manifest_key_valid t d : valid t → valid d →
  manifest_key (PStr t) (PStr d) = Ok (okey t d OManifest).
Proof.
  intros Ht Hd. unfold manifest_key. rewrite drawing_prefix_valid by done.
  unfold mbind, result_mbind. f_equal.
  unfold okey, key_text. apply chars_inj.
  rewrite chars_of_chars, !chars_app, <- !app_assoc. done.
Qed.

Lemma version_key_valid t d v : valid t → valid d → 1 <= v <= 99999999 →
  drawing_version_key (PStr t) (PStr d) v = Ok (okey t d (OVersion v)).
Proof.
  intros Ht Hd Hv. apply version_key_Ok. exists t, d. do 3 (split; [done|]).
  unfold okey, key_text, object_rest. apply chars_inj.
  rewrite chars_of_chars, !chars_app, <- !app_assoc. done.
Qed.

Lemma lock_key_valid sha256 t d : valid t → valid d →
  checkout_lock_key sha256 (PStr t) (PStr d) = Ok (lkey sha256 t d).
Proof. intros Ht Hd. unfold checkout_lock_key, mbind, result_mbind. by rewrite Ht, Hd. Qed.

Lemma okey_inj t1 d1 o1 t2 d2 o2 :
  valid t1 → valid d1 → valid t2 → valid d2 → object_ok o1 → object_ok o2 →
  okey t1 d1 o1 = okey t2 d2 o2 → t1 = t2 ∧ d1 = d2 ∧ o1 = o2.
Proof.
  intros ???? Ho1 Ho2 Heq%of_chars_inj.
  apply key_text_inj in Heq as (-> & -> & Heq); [|by eapply sanitized_no_slash..].
  by apply object_rest_inj in Heq.
Qed.

Lemma okey_not_lock sha256 t1 d1 o t2 d2 : okey t1 d1 o ≠ lkey sha256 t2 d2.
Proof. done. Qed.

(** ** Canonical keys *)

Lemma plain_app a b : plain_segment a = true → plain_segment (a ++ b) = true.
Proof. by destruct a. Qed.

Lemma plain_head p a :
  (p "."%char = false) → a ≠ [] → Forall (λ c, p c = true) a → plain_segment a = true.
Proof.
  intros Hdot Hne Ha. destruct a as [|c a]; [done|]. inversion_clear Ha as [|?? Hc].
  simpl. rewrite bool_decide_eq_false_2; [done|]. intros ->. congruence.
Qed.

Lemma id_plain s : valid s → plain_segment (chars s) = true.
Proof.
  intros [_ Hf]%sanitize_id_Ok. pose proof Hf as (c & rest & Heq & Hc & _)%fullmatch_segment_spec.
  rewrite Heq. apply (plain_app [c]). apply (plain_head is_alnum_lower); [reflexivity|done|by constructor].
Qed.

Lemma hex_plain l : l ≠ [] → forallb is_hex_lower l = true → plain_segment l = true.
Proof.
  intros Hne Hl. apply (plain_head is_hex_lower); [reflexivity|done|].
  apply Forall_forall. intros c Hc%list_elem_of_In. by eapply forallb_forall in Hc.
Qed.

Lemma digits_no_slash l : Forall (λ c, is_digit c = true) l → slash ∉ l.
Proof. rewrite Forall_forall. intros Hl Hin%Hl. by vm_compute in Hin. Qed.

Lemma hex_no_slash l : forallb is_hex_lower l = true → slash ∉ l.
Proof.
  intros Hl Hin. rewrite forallb_forall in Hl. apply list_elem_of_In, Hl in Hin. by vm_compute in Hin.
Qed.

Lemma no_slash (s : string) : bool_decide (slash ∈ chars s) = false → slash ∉ chars s.
Proof. apply bool_decide_eq_false_1. Qed.

(** A file beside the versions: the padded number and an extension. *)
Definition beside (v : Z) (ext : string) : string := "v/" +:+ of_chars (zero_pad 8 v) +:+ ext.

Lemma beside_plain v ext :
  1 <= v <= 99999999 → slash ∉ chars ext →
  forallb plain_segment (split_at slash (chars (beside v ext))) = true.
Proof.
  intros Hv Hext. unfold beside. rewrite !chars_app, chars_of_chars.
  change (chars "v/" ++ ?l) with (chars "v" ++ slash :: l).
  rewrite split_at_sep by (apply no_slash; reflexivity).
  rewrite split_at_none.
  2:{ rewrite elem_of_app. intros [Hin|]; [|done]. by apply zero_pad_no_slash in Hin; [|lia]. }
  cbn [forallb]. rewrite (plain_app (zero_pad 8 v) (chars ext)); [reflexivity|].
  apply (plain_head is_digit); [reflexivity| |by apply zero_pad_digits; lia].
  intros E%(f_equal length). by rewrite zero_pad8 in E.
Qed.

Lemma rest_plain o : object_ok o → forallb plain_segment (split_at slash (chars (object_rest o))) = true.
Proof.
  destruct o as [|v|v|g]; cbn [object_ok object_rest]; intros Ho.
  - reflexivity.
  - apply beside_plain; [done|by apply no_slash].
  - apply beside_plain; [done|by apply no_slash].
  - unfold is_sha256_hex in Ho. apply andb_true_iff in Ho as [Hl%bool_decide_eq_true Hh].
    rewrite !chars_app. change (chars "bundles/" ++ ?l) with (chars "bundles" ++ slash :: l).
    rewrite split_at_sep by (by apply no_slash).
    rewrite split_at_none.
    2:{ rewrite elem_of_app. intros [Hin|Hin]; [by apply hex_no_slash in Hin|by apply no_slash in Hin]. }
    cbn [forallb]. rewrite (plain_app (chars g) (chars ".json")); [reflexivity|].
    apply hex_plain; [|done]. intros E%(f_equal length). by rewrite Hl in E.
Qed.

Lemma key_text_canonical t d rest :
  valid t → valid d → forallb plain_segment (split_at slash (chars rest)) = true →
  canonical (of_chars (key_text t d rest)) = true.
Proof.
  intros Ht Hd Hr. unfold canonical, key_text. rewrite chars_of_chars.
  change (chars "tenants/" ++ ?l) with (chars "tenants" ++ slash :: l).
  rewrite split_at_sep by (apply (bool_decide_eq_false_1 _); reflexivity).
  rewrite split_at_sep by (by eapply sanitized_no_slash).
  change (chars "drawings/" ++ ?l) with (chars "drawings" ++ slash :: l).
  rewrite split_at_sep by (apply (bool_decide_eq_false_1 _); reflexivity).
  rewrite split_at_sep by (by eapply sanitized_no_slash).
  cbn [forallb]. rewrite (id_plain t), (id_plain d), Hr by done. reflexivity.
Qed.

Lemma okey_canonical t d o : valid t → valid d → object_ok o → canonical (okey t d o) = true.
Proof. intros Ht Hd Ho. by apply key_text_canonical, rest_plain. Qed.

Lemma lkey_canonical sha256 t d :
  (∀ s, is_sha256_hex (sha256 s) = true) → canonical (lkey sha256 t d) = true.
Proof.
  intros Hsha. unfold canonical, lkey.
  specialize (Hsha (t +:+ "/" +:+ d)%string). set (g := sha256 _) in *. clearbody g.
  unfold is_sha256_hex in Hsha. apply andb_true_iff in Hsha as [Hl%bool_decide_eq_true Hh].
  rewrite !chars_app, chars_of_chars.
  assert (Hns := hex_no_slash _ Hh).
  change (chars "checkout-locks/" ++ ?l) with (chars "checkout-locks" ++ slash :: l).
  rewrite split_at_sep by (apply (bool_decide_eq_false_1 _); reflexivity).
  change (chars "/" ++ ?l) with (slash :: l).
  rewrite split_at_sep.
  2:{ intros Hin. apply Hns. by eapply elem_of_take in Hin as (i & Hin & _);
        apply list_elem_of_lookup_2 in Hin. }
  rewrite split_at_none.
  2:{ rewrite elem_of_app. intros [|Hin]; [done|].
      by apply (bool_decide_eq_false_1 (slash ∈ chars ".lock")) in Hin. }
  assert (Hg : chars g ≠ []) by (intros E%(f_equal length); by rewrite Hl in E).
  cbn [forallb]. rewrite (plain_app (chars g) (chars ".lock")) by (by apply hex_plain).
  rewrite (hex_plain (take 2 (chars g))); [reflexivity| |].
  - intros E%(f_equal length). rewrite length_take, Hl in E. done.
  - apply forallb_forall. intros x Hx. rewrite forallb_forall in Hh. apply Hh.
    rewrite <- (take_drop 2 (chars g)). apply in_or_app. by left.
Qed.

#[export] Hint Resolve okey_canonical lkey_canonical : py.
