(* ===== verification/PosixPath.v ===== *)
(** * Paths

    The functions of [posixpath] the file system backend calls ([join],
    [normpath], [abspath], [dirname], [relpath]) and the containment barrier
    [FilesystemBackend._path] of [da/store.py] built on them.  Every file the
    backend opens, replaces, links or removes goes through [_path]; the theorem
    here says where such a file can be. *)

From S2P Require Import Prelude PyText TenantIds Backend.
From Stdlib Require Import Ascii.
Import Keys IdFacts.

Abbreviation path := (list ascii).

(** ** [posixpath] *)

Definition is_sep (c : ascii) : bool := bool_decide (c = slash).
Definition starts_sep (p : path) : bool := match p with c :: _ => is_sep c | [] => false end.
Definition ends_sep (p : path) : bool := match last p with Some c => is_sep c | None => false end.

(** [os.path.join(a, b)]: an absolute [b] discards [a] *)
Definition join (a b : path) : path :=
  if starts_sep b then b
  else if bool_decide (a = []) || ends_sep a then a ++ b
  else a ++ slash :: b.

(** [sep.join(comps)] *)
Fixpoint sep_join (comps : list path) : path :=
  match comps with
  | [] => []
  | [c] => c
  | c :: rest => c ++ slash :: sep_join rest
  end.

(** [os.path.splitroot] without its (always empty) drive: exactly two leading
    slashes are kept as they are, any other number counts as one. *)
Definition splitroot (p : path) : path * path :=
  match p with
  | c1 :: c2 :: c3 :: rest =>
      if is_sep c1 then
        if is_sep c2 && negb (is_sep c3) then ([slash; slash], c3 :: rest)
        else ([slash], c2 :: c3 :: rest)
      else ([], p)
  | [c1; c2] =>
      if is_sep c1 then
        if is_sep c2 then ([slash; slash], []) else ([slash], [c2])
      else ([], p)
  | [c1] => if is_sep c1 then ([slash], []) else ([], p)
  | [] => ([], [])
  end.

Definition dot : path := chars ".".
Definition dotdot : path := chars "..".

(** One turn of the loop over the components; [acc] is [new_comps] with its last
    element first. *)
Definition norm_step (absolute : bool) (acc : list path) (comp : path) : list path :=
  if bool_decide (comp = []) || bool_decide (comp = dot) then acc
  else if negb (bool_decide (comp = dotdot)) || (negb absolute && bool_decide (acc = []))
          || bool_decide (head acc = Some dotdot)
  then comp :: acc
  else tail acc.

Definition norm_comps (absolute : bool) (comps : list path) : list path :=
  rev (foldl (norm_step absolute) [] comps).

Definition normpath (p : path) : path :=
  if bool_decide (p = []) then dot
  else
    let '(initial, rest) := splitroot p in
    let q := initial ++ sep_join (norm_comps (negb (bool_decide (initial = []))) (split_at slash rest)) in
    if bool_decide (q = []) then dot else q.

Definition isabs (p : path) : bool := starts_sep p.

Definition abspath (cwd p : path) : path :=
  normpath (if isabs p then p else join cwd p).

Fixpoint drop_until_sep (l : path) : path :=
  match l with
  | [] => []
  | c :: l' => if is_sep c then l else drop_until_sep l'
  end.

(** [p[:p.rfind(sep) + 1]] *)
Definition head_of (p : path) : path := rev (drop_until_sep (rev p)).

Fixpoint drop_sep (l : path) : path :=
  match l with
  | c :: l' => if is_sep c then drop_sep l' else l
  | [] => []
  end.

Definition rstrip_sep (p : path) : path := rev (drop_sep (rev p)).

Definition dirname (p : path) : path :=
  let head := head_of p in
  if negb (bool_decide (head = [])) && negb (forallb is_sep head) then rstrip_sep head else head.

(** [[x for x in p.split(sep) if x]] *)
Definition nonempty_comps (p : path) : list path :=
  filter (λ c, c ≠ []) (split_at slash p).

Fixpoint common_prefix (a b : list path) : nat :=
  match a, b with
  | x :: a', y :: b' => if bool_decide (x = y) then S (common_prefix a' b') else 0
  | _, _ => 0
  end.

(** [os.path.relpath(path, start)] of two absolute paths *)
Definition relpath (p start : path) : path :=
  let start_list := nonempty_comps (normpath start) in
  let path_list := nonempty_comps (normpath p) in
  let i := common_prefix start_list path_list in
  match replicate (length start_list - i) dotdot ++ drop i path_list with
  | [] => dot
  | rel => foldl join [] rel
  end.

(** ** [FilesystemBackend._path] *)

Definition with_sep (root : path) : path := if ends_sep root then root else root ++ [slash].

Definition path_prefix (pre p : path) : bool := bool_decide (take (length pre) p = pre).

Definition _path (root : path) (key : string) : result store_error path :=
  let root := with_sep root in
  let p := normpath (join root (chars key)) in
  if path_prefix root p then Ok p else Err EEscapesRoot.

(** ** Splitting and joining *)

Definition no_sep (seg : path) : Prop := slash ∉ seg.

(** A component that names something below the directory it is resolved in. *)
Definition real_segment (seg : path) : Prop :=
  no_sep seg ∧ seg ≠ [] ∧ seg ≠ dot ∧ seg ≠ dotdot.

Lemma split_at_no_sep l : Forall no_sep (split_at slash l).
Proof.
  induction l as [|x l IH]; simpl; [constructor; [unfold no_sep; set_solver|done]|].
  case_bool_decide; [constructor; [unfold no_sep; set_solver|done]|].
  destruct (split_at slash l) as [|seg segs]; inversion_clear IH;
    (constructor; [unfold no_sep in *; set_solver|done]).
Qed.

Lemma sep_join_cons c rest : rest ≠ [] → sep_join (c :: rest) = c ++ slash :: sep_join rest.
Proof. by destruct rest. Qed.

Lemma sep_join_app a b : a ≠ [] → b ≠ [] → sep_join (a ++ b) = sep_join a ++ slash :: sep_join b.
Proof.
  intros Ha Hb. induction a as [|x [|y a] IH]; [done|by apply sep_join_cons|].
  change (sep_join ((x :: y :: a) ++ b)) with (x ++ slash :: sep_join ((y :: a) ++ b)).
  rewrite IH by done. change (sep_join (x :: y :: a)) with (x ++ slash :: sep_join (y :: a)).
  by rewrite <- app_assoc.
Qed.

Lemma split_sep_join segs l :
  Forall no_sep segs → segs ≠ [] → split_at slash (sep_join segs ++ slash :: l) = segs ++ split_at slash l.
Proof.
  intros Hs Hne. induction segs as [|x [|y segs] IH]; [done|..]; inversion_clear Hs.
  - by apply split_at_sep.
  - change (sep_join (x :: y :: segs)) with (x ++ slash :: sep_join (y :: segs)).
    rewrite <- app_assoc, <- app_comm_cons, split_at_sep by done. by rewrite IH.
Qed.

Lemma split_sep_join_end segs : Forall no_sep segs → segs ≠ [] → split_at slash (sep_join segs) = segs.
Proof.
  intros Hs Hne. induction segs as [|x [|y segs] IH]; [done|..]; inversion_clear Hs.
  - by apply split_at_none.
  - change (sep_join (x :: y :: segs)) with (x ++ slash :: sep_join (y :: segs)).
    rewrite split_at_sep by done. by rewrite IH.
Qed.

Lemma split_at_cons l : split_at slash l ≠ [].
Proof. destruct l; simpl; [done|]. case_bool_decide; [done|]. by case_match. Qed.

Lemma sep_join_split l : sep_join (split_at slash l) = l.
Proof.
  induction l as [|x l IH]; [done|]. simpl. pose proof (split_at_cons l).
  case_bool_decide; subst.
  - rewrite sep_join_cons by done. by rewrite IH.
  - destruct (split_at slash l) as [|s [|s' ss]]; [done|simpl in *; by rewrite IH|].
    change (sep_join ((x :: s) :: s' :: ss)) with (x :: s ++ slash :: sep_join (s' :: ss)).
    by rewrite <- IH.
Qed.

(** ** Normal forms *)

Lemma norm_step_real acc comp :
  no_sep comp → Forall real_segment acc → Forall real_segment (norm_step true acc comp).
Proof.
  intros Hc Hacc. unfold norm_step.
  destruct (bool_decide (comp = []) || bool_decide (comp = dot)) eqn:E; bool_prop; [done|].
  case_match eqn:E2.
  - constructor; [|done]. apply orb_true_iff in E2 as [[E2|E2]%orb_true_iff|E2]; bool_prop.
    + repeat split; done.
    + done.
    + destruct acc as [|a acc]; [done|]. simplify_eq/=. inversion_clear Hacc as [|?? Hr].
      destruct Hr as (_ & _ & _ & Hr). done.
  - destruct Hacc; [constructor|done].
Qed.

Lemma norm_comps_real comps : Forall no_sep comps → Forall real_segment (norm_comps true comps).
Proof.
  intros Hc. unfold norm_comps. apply Forall_rev.
  assert (Hacc : Forall real_segment []) by constructor. revert Hacc. generalize ([] : list path).
  induction Hc as [|c comps Hc _ IH]; intros acc Hacc; simpl; [done|]. apply IH. by apply norm_step_real.
Qed.

Lemma norm_comps_id comps : Forall real_segment comps → norm_comps true comps = comps.
Proof.
  intros Hc. unfold norm_comps. rewrite <- (rev_involutive comps) at 2. f_equal.
  rewrite <- (app_nil_r (rev comps)). generalize ([] : list path).
  induction Hc as [|c comps (H1 & H2 & H3 & H4) _ IH]; intros acc; simpl; [done|].
  rewrite IH. unfold norm_step. rewrite !bool_decide_eq_false_2 by done. simpl.
  by rewrite <- app_assoc.
Qed.

(** What [abspath] returns: leading slashes and components without [..]. *)
Definition initial_ok (ini : path) : Prop := ini = [slash] ∨ ini = [slash; slash].

Definition abs_normal (ini : path) (segs : list path) (p : path) : Prop :=
  initial_ok ini ∧ Forall real_segment segs ∧ p = ini ++ sep_join segs.

Lemma splitroot_abs p : starts_sep p = true → initial_ok (splitroot p).1.
Proof.
  unfold initial_ok. destruct p as [|c1 [|c2 [|c3 p]]]; simpl; intros H; [done|..]; rewrite H;
    repeat case_match; auto.
Qed.

Lemma normpath_abs p :
  starts_sep p = true → ∃ segs, abs_normal (splitroot p).1 segs (normpath p).
Proof.
  intros Hp. pose proof (splitroot_abs p Hp) as Hini. unfold normpath.
  rewrite (bool_decide_eq_false_2 (p = [])) by (by intros ->).
  destruct (splitroot p) as [ini rest] eqn:E. simpl in *.
  rewrite !(bool_decide_eq_false_2 (ini = [])) by (by intros ->; destruct Hini). simpl.
  eexists. split; [done|]. split; [apply norm_comps_real, split_at_no_sep|].
  rewrite bool_decide_eq_false_2; [done|]. destruct Hini; by subst.
Qed.

Lemma abspath_normal cwd p : isabs cwd = true → ∃ ini segs, abs_normal ini segs (abspath cwd p).
Proof.
  intros Hc. unfold abspath.
  assert (Ha : starts_sep (if isabs p then p else join cwd p) = true).
  { destruct (isabs p) eqn:E; [done|]. unfold join, isabs in *. rewrite E.
    destruct cwd; [done|]. by case_match. }
  pose proof (normpath_abs _ Ha) as [segs H]. eauto.
Qed.

Lemma splitroot_normal ini rest :
  initial_ok ini → starts_sep rest = false → splitroot (ini ++ rest) = (ini, rest).
Proof.
  intros [-> | ->] Hr; destruct rest as [|c [|c' rest]]; simpl in *; try done; by rewrite Hr.
Qed.

Lemma sep_join_starts segs l :
  Forall real_segment segs → segs ≠ [] → starts_sep (sep_join segs ++ l) = false.
Proof.
  intros Hs Hne. destruct segs as [|[|x s] segs]; [done|..];
    inversion_clear Hs as [|?? (H1 & H2 & _)]; [done|].
  assert (is_sep x = false).
  { unfold is_sep. apply bool_decide_eq_false_2. intros ->. apply H1. set_solver. }
  by destruct segs.
Qed.

Lemma sep_join_ends segs :
  Forall real_segment segs → segs ≠ [] → ends_sep (sep_join segs) = false.
Proof.
  intros Hs Hne. induction segs as [|s [|s' segs] IH]; [done|..];
    inversion_clear Hs as [|?? (H1 & H2 & _)].
  - unfold ends_sep. simpl. destruct (last s) as [c|] eqn:E; [|done].
    unfold is_sep. apply bool_decide_eq_false_2. intros ->. apply H1.
    apply last_Some in E as [l ->]. set_solver.
  - change (sep_join (s :: s' :: segs)) with (s ++ slash :: sep_join (s' :: segs)).
    unfold ends_sep in *. rewrite last_app_cons.
    specialize (IH ltac:(done) ltac:(done)).
    destruct (last (sep_join (s' :: segs))) as [c|] eqn:E.
    + by rewrite last_cons, E.
    + apply last_None in E. pose proof (sep_join_starts (s' :: segs) [] ltac:(done) ltac:(done)) as Hst.
      inversion_clear H as [|?? (? & ? & _)]. by destruct s', segs.
Qed.

(** ** Containment *)

Lemma with_sep_normal ini segs root :
  abs_normal ini segs root → segs ≠ [] → with_sep root = ini ++ sep_join segs ++ [slash].
Proof.
  intros (Hi & Hs & ->) Hne. unfold with_sep, ends_sep.
  assert (Hj : sep_join segs ≠ []).
  { destruct segs as [|s [|? ?]]; [done|by inversion_clear Hs as [|?? (_ & ? & _)]|by destruct s]. }
  rewrite last_app. destruct (last (sep_join segs)) as [c|] eqn:E; [|by apply last_None in E].
  pose proof (sep_join_ends segs Hs Hne) as He. unfold ends_sep in He. rewrite E in He. rewrite He.
  by rewrite <- app_assoc.
Qed.

Lemma path_prefix_spec pre p : path_prefix pre p = true ↔ ∃ rest, p = pre ++ rest.
Proof.
  unfold path_prefix. rewrite bool_decide_eq_true. split.
  - intros <-. exists (drop (length pre) p). by rewrite take_drop.
  - intros [rest ->]. by rewrite take_app_length.
Qed.

Lemma join_root_abs ini segs root b :
  abs_normal ini segs root → segs ≠ [] → starts_sep (join (with_sep root) b) = true.
Proof.
  intros Hr Hne. rewrite (with_sep_normal ini segs) by done. unfold join.
  destruct (starts_sep b) eqn:E; [done|]. destruct Hr as ([-> | ->] & _); simpl; by case_match.
Qed.

(** Two normal paths, one a string prefix of the other up to a separator, agree
    component by component. *)
Lemma normal_prefix ini segs ini' segs' rest :
  initial_ok ini → initial_ok ini' → Forall real_segment segs → Forall real_segment segs' →
  segs ≠ [] → ini' ++ sep_join segs' = ini ++ sep_join segs ++ slash :: rest →
  ini' = ini ∧ segs' = segs ++ split_at slash rest.
Proof.
  intros Hi Hi' Hs Hs' Hne Heq.
  assert (Hini : ini' = ini ∧ sep_join segs' = sep_join segs ++ slash :: rest).
  { pose proof (sep_join_starts segs (slash :: rest) Hs Hne) as H1.
    destruct Hi as [-> | ->], Hi' as [-> | ->]; simplify_eq/=; [done|..|done].
    - rewrite <- Heq in H1. done.
    - destruct segs' as [|s' segs']; [done|].
      pose proof (sep_join_starts (s' :: segs') [] Hs' ltac:(done)) as H2.
      by rewrite app_nil_r, Heq in H2. }
  destruct Hini as [-> Hj]. split; [done|].
  destruct (decide (segs' = [])) as [->|Hne'].
  { by destruct (sep_join segs). }
  rewrite <- (split_sep_join_end segs'), Hj; [|eapply Forall_impl; [done|by intros ? [? _]]|done].
  apply split_sep_join; [eapply Forall_impl; [done|by intros ? [? _]]|done].
Qed.

Lemma path_contained_lemma ini segs root key p :
  abs_normal ini segs root → segs ≠ [] → _path root key = Ok p →
  ∃ below, below ≠ [] ∧ Forall real_segment below ∧ p = root ++ slash :: sep_join below.
Proof.
  intros Hr Hne. unfold _path.
  destruct (path_prefix _ _) eqn:E; [intros [= <-]|done].
  apply path_prefix_spec in E as [rest E].
  pose proof (normpath_abs _ (join_root_abs _ _ _ (chars key) Hr Hne)) as (segs' & Hi' & Hs' & Hp).
  revert Hi' Hp. generalize (splitroot (join (with_sep root) (chars key))).1. intros ini' Hi' Hp.
  rewrite Hp, (with_sep_normal ini segs), <- !app_assoc in E by done.
  change ([slash] ++ rest) with (slash :: rest) in E. destruct Hr as (Hi & Hs & ->).
  apply normal_prefix in E as [Hini ->]; [|done..].
  apply Forall_app in Hs' as [_ Hb]. exists (split_at slash rest).
  split; [apply split_at_cons|]. split; [done|]. rewrite Hp, Hini.
  rewrite sep_join_app by (done || apply split_at_cons). by rewrite <- app_assoc.
Qed.

(** [self.root = os.path.abspath(root_dir)] *)
Definition backend_root (cwd root_dir : path) : path := abspath cwd root_dir.

(** Containment: whatever key a caller passes (with [..], doubled slashes,
    an absolute path), the path [_path] lets through lies strictly below the
    store root: the root, a separator, and at least one component, none of them
    empty, [.] or [..].  The root is any absolute directory other than [/]. *)
Theorem path_stays_below_root cwd root_dir key p :
  isabs cwd = true → nonempty_comps (backend_root cwd root_dir) ≠ [] →
  _path (backend_root cwd root_dir) key = Ok p →
  ∃ below, below ≠ [] ∧ Forall real_segment below ∧
    p = backend_root cwd root_dir ++ slash :: sep_join below.
Proof.
  intros Hc Hn Hp. pose proof (abspath_normal cwd root_dir Hc) as (ini & segs & Hr).
  refine (path_contained_lemma ini segs _ key p Hr _ Hp). intros ->.
  apply Hn. destruct Hr as ([-> | ->] & _ & Hr); unfold backend_root; by rewrite Hr.
Qed.

Lemma path_stays_below_root_witness :
  ∃ below, below ≠ [] ∧ Forall real_segment below ∧
    chars "/srv/store/tenants/a/x" = backend_root (chars "/srv") (chars "data/../store") ++ slash :: sep_join below.
Proof.
  apply (path_stays_below_root (chars "/srv") (chars "data/../store") "tenants//b/../a/./x");
    [reflexivity|vm_compute; discriminate|vm_compute; reflexivity].
Defined.

(** ** Canonical keys *)

(** the text between the root's leading slashes and a key below it *)
Definition under (segs : list path) (l : path) : path :=
  match segs with [] => l | _ => sep_join segs ++ slash :: l end.

Lemma with_sep_app ini segs root l :
  abs_normal ini segs root → with_sep root ++ l = ini ++ under segs l.
Proof.
  intros Hr. destruct segs as [|s segs].
  - destruct Hr as ([-> | ->] & _ & ->); done.
  - rewrite (with_sep_normal ini (s :: segs)) by done. unfold under. by rewrite <- !app_assoc.
Qed.

Lemma plain_real seg : no_sep seg → plain_segment seg = true → real_segment seg.
Proof.
  intros Hn Hp. split; [done|]. destruct seg as [|c seg]; [done|]. simpl in Hp. bool_prop.
  unfold dot, dotdot. simpl. split; [done|]. split; intros [= ? ?]; done.
Qed.

Lemma canonical_real key : canonical key = true → Forall real_segment (split_at slash (chars key)).
Proof.
  intros Hk. unfold canonical in Hk. pose proof (split_at_no_sep (chars key)) as Hn.
  apply Forall_forall. intros seg Hin. apply plain_real.
  - by eapply Forall_forall in Hn.
  - eapply forallb_forall; [done|]. by apply list_elem_of_In.
Qed.

Lemma normpath_below ini segs l :
  initial_ok ini → Forall real_segment segs → Forall real_segment (split_at slash l) →
  normpath (ini ++ under segs l) = ini ++ under segs l.
Proof.
  intros Hi Hs Hl.
  assert (Hsp : split_at slash (under segs l) = segs ++ split_at slash l).
  { destruct segs as [|s segs]; [done|]. unfold under. apply split_sep_join; [|done].
    eapply Forall_impl; [done|by intros ? [? _]]. }
  assert (Hst : starts_sep (under segs l) = false).
  { destruct segs as [|s segs]; [|by apply sep_join_starts]. simpl.
    rewrite <- (sep_join_split l), <- (app_nil_r (sep_join _)).
    apply sep_join_starts; [done|apply split_at_cons]. }
  unfold normpath. rewrite (bool_decide_eq_false_2 (ini ++ _ = [])) by (by destruct Hi; subst).
  rewrite splitroot_normal by done.
  rewrite !(bool_decide_eq_false_2 (ini = [])) by (by destruct Hi; subst). cbn [negb].
  rewrite norm_comps_id by (rewrite Hsp; by apply Forall_app).
  rewrite sep_join_split, bool_decide_eq_false_2; [done|]. by destruct Hi; subst.
Qed.

Lemma path_canonical ini segs root key :
  abs_normal ini segs root → canonical key = true → _path root key = Ok (with_sep root ++ chars key).
Proof.
  intros Hr Hk%canonical_real. unfold _path.
  assert (Hst : starts_sep (chars key) = false).
  { rewrite <- (sep_join_split (chars key)), <- (app_nil_r (sep_join _)).
    apply sep_join_starts; [done|apply split_at_cons]. }
  assert (He : ends_sep (with_sep root) = true).
  { unfold with_sep. destruct (ends_sep root) eqn:E; [done|]. unfold ends_sep. by rewrite last_snoc. }
  assert (Hj : join (with_sep root) (chars key) = with_sep root ++ chars key).
  { unfold join. by rewrite Hst, He, orb_true_r. }
  rewrite Hj. pose proof Hr as (Hi & Hs & _).
  assert (Hn : normpath (with_sep root ++ chars key) = with_sep root ++ chars key).
  { rewrite (with_sep_app ini segs) by done. by apply normpath_below. }
  rewrite Hn. by rewrite (proj2 (path_prefix_spec _ _)) by eauto.
Qed.

Lemma with_sep_inj root k1 k2 : with_sep root ++ chars k1 = with_sep root ++ chars k2 → k1 = k2.
Proof. by intros ?%app_inv_head%chars_inj. Qed.

(** the directory of a file directly below [dir] is that directory *)
Lemma head_of_app a b : no_sep b → head_of (a ++ slash :: b) = a ++ [slash].
Proof.
  intros Hb. unfold head_of. rewrite rev_app_distr. simpl. rewrite <- app_assoc.
  replace (drop_until_sep (rev b ++ [slash] ++ rev a)) with (slash :: rev a).
  { simpl. by rewrite rev_involutive. }
  assert (Hr : slash ∉ rev b) by (by rewrite list_elem_of_In, <- in_rev, <- list_elem_of_In).
  induction (rev b) as [|c l IH]; [done|]. simpl. unfold is_sep.
  rewrite bool_decide_eq_false_2 by set_solver. apply IH. set_solver.
Qed.

Lemma rstrip_sep_one a : ends_sep a = false → rstrip_sep (a ++ [slash]) = a.
Proof.
  intros Ha. unfold rstrip_sep. rewrite rev_app_distr. simpl. unfold ends_sep in Ha.
  destruct a as [|c a _] using rev_ind; [done|]. rewrite last_snoc in Ha.
  rewrite rev_app_distr. simpl. rewrite Ha. simpl. by rewrite rev_involutive.
Qed.

Lemma dirname_below ini ds leaf :
  initial_ok ini → Forall real_segment ds → no_sep leaf → dirname (ini ++ under ds leaf) = ini ++ sep_join ds.
Proof.
  intros Hi Hs Hleaf. unfold dirname. destruct ds as [|d ds].
  - unfold under. simpl. rewrite app_nil_r. destruct Hi as [-> | ->].
    + change ([slash] ++ leaf) with ([] ++ slash :: leaf). by rewrite head_of_app.
    + change ([slash; slash] ++ leaf) with ([slash] ++ slash :: leaf). by rewrite head_of_app.
  - unfold under. rewrite app_assoc, head_of_app by done.
    rewrite bool_decide_eq_false_2 by (by destruct Hi; subst).
    pose proof (sep_join_ends (d :: ds) Hs ltac:(done)) as He.
    pose proof (sep_join_starts (d :: ds) [slash] Hs ltac:(done)) as Hst.
    assert (Hne : forallb is_sep ((ini ++ sep_join (d :: ds)) ++ [slash]) = false).
    { rewrite <- app_assoc, forallb_app. apply andb_false_iff. right.
      destruct (sep_join (d :: ds) ++ [slash]) as [|c l] eqn:E;
        [by apply app_eq_nil in E as [_ ?]|]. simpl in *. by rewrite Hst. }
    rewrite Hne. cbn [negb andb]. apply rstrip_sep_one. unfold ends_sep in *. rewrite last_app.
    destruct (last (sep_join (d :: ds))) eqn:E; [done|]. apply last_None in E. by rewrite E in Hst.
Qed.

Lemma join_below ini ds name :
  initial_ok ini → Forall real_segment ds → starts_sep name = false →
  join (ini ++ sep_join ds) name = ini ++ under ds name.
Proof.
  intros Hi Hs Hn. unfold join. rewrite Hn. destruct ds as [|d ds].
  - unfold under. simpl. rewrite app_nil_r. destruct Hi as [-> | ->]; done.
  - pose proof (sep_join_ends (d :: ds) Hs ltac:(done)) as He.
    rewrite bool_decide_eq_false_2 by (by destruct Hi; subst). unfold ends_sep in *. rewrite last_app.
    destruct (last (sep_join (d :: ds))) eqn:E.
    + rewrite orb_false_l, He. unfold under. by rewrite <- app_assoc.
    + pose proof (sep_join_starts (d :: ds) [slash] Hs ltac:(done)) as Hst.
      apply last_None in E. by rewrite E in Hst.
Qed.

Lemma split_under ds l : Forall real_segment ds → split_at slash (under ds l) = ds ++ split_at slash l.
Proof.
  intros Hs. destruct ds as [|d ds]; [done|]. unfold under. apply split_sep_join; [|done].
  eapply Forall_impl; [done|by intros ? [? _]].
Qed.

(** A name starting with a dot, in the directory of a canonical key, is not the
    file of any canonical key. *)
Lemma dotted_sibling_not_canonical ini segs root k k' name :
  abs_normal ini segs root → canonical k = true → canonical k' = true →
  join (dirname (with_sep root ++ chars k)) ("."%char :: name) ≠ with_sep root ++ chars k'.
Proof.
  intros Hr Hk Hk'. rewrite !(with_sep_app ini segs root) by done. destruct Hr as (Hi & Hs & _).
  pose proof (canonical_real k Hk) as Hreal.
  destruct (split_at slash (chars k)) as [|leaf dirs _] eqn:E using rev_ind;
    [by apply split_at_cons in E|].
  apply Forall_app in Hreal as [Hdirs Hleaf]. inversion_clear Hleaf as [|?? [Hleafn _] _].
  assert (Hu : under segs (chars k) = under (segs ++ dirs) leaf).
  { rewrite <- (sep_join_split (under segs (chars k))), split_under, E, app_assoc by done.
    unfold under. destruct (segs ++ dirs) eqn:E2; [done|]. by apply sep_join_app. }
  assert (Hsd : Forall real_segment (segs ++ dirs)) by (by apply Forall_app).
  rewrite Hu, dirname_below, join_below by done. intros Heq%app_inv_head.
  apply (f_equal (split_at slash)) in Heq. rewrite !split_under, <- app_assoc in Heq by done.
  apply app_inv_head in Heq. unfold canonical in Hk'. rewrite <- Heq, forallb_app in Hk'.
  apply andb_true_iff in Hk' as [_ Hk']. simpl in Hk'.
  destruct (split_at slash name); by simpl in Hk'.
Qed.

(** ** [relpath] undoes [_path] *)

Lemma normpath_normal ini segs : initial_ok ini → Forall real_segment segs →
  normpath (ini ++ sep_join segs) = ini ++ sep_join segs.
Proof.
  intros Hi Hs. destruct segs as [|seg segs _] using rev_ind; [by destruct Hi; subst|].
  apply Forall_app in Hs as [Hs Hseg]. inversion_clear Hseg as [|?? Hr _].
  assert (Hu : sep_join (segs ++ [seg]) = under segs seg).
  { destruct segs; [done|]. by apply sep_join_app. }
  rewrite Hu. apply normpath_below; [done..|]. rewrite split_at_none by (by destruct Hr). by constructor.
Qed.

Lemma filter_nonempty segs : Forall real_segment segs → filter (λ c : path, c ≠ []) segs = segs.
Proof.
  induction 1 as [|seg segs (_ & Hne & _) _ IH]; [done|].
  rewrite filter_cons_True by done. by rewrite IH.
Qed.

Lemma comps_normal ini segs : initial_ok ini → Forall real_segment segs →
  nonempty_comps (ini ++ sep_join segs) = segs.
Proof.
  intros Hi Hs. unfold nonempty_comps.
  assert (Hsp : filter (λ c : path, c ≠ []) (split_at slash (sep_join segs)) = segs).
  { destruct segs as [|seg segs]; [done|]. rewrite split_sep_join_end; [by apply filter_nonempty| |done].
    eapply Forall_impl; [done|by intros ? [? _]]. }
  destruct Hi as [-> | ->]; cbn [app split_at]; rewrite ?bool_decide_eq_true_2 by done;
    rewrite ?filter_cons_False by (by intros []); exact Hsp.
Qed.

Lemma common_prefix_app a b : common_prefix a (a ++ b) = length a.
Proof. induction a; simpl; [by destruct b|]. rewrite bool_decide_eq_true_2 by done. by rewrite IHa. Qed.

Lemma foldl_join acc segs :
  Forall real_segment segs → acc ≠ [] → ends_sep acc = false → segs ≠ [] →
  foldl join acc segs = acc ++ slash :: sep_join segs.
Proof.
  intros Hs. revert acc. induction Hs as [|seg segs Hr Hs IH]; intros acc Ha He Hne; [done|]. simpl.
  assert (Hj : join acc seg = acc ++ slash :: seg).
  { unfold join. pose proof (sep_join_starts [seg] [] ltac:(by constructor) ltac:(done)) as H.
    simpl in H. rewrite app_nil_r in H. rewrite H, He. by rewrite bool_decide_eq_false_2. }
  rewrite Hj. destruct segs as [|seg' segs]; [done|]. rewrite IH.
  - by rewrite <- app_assoc.
  - by destruct acc.
  - pose proof (sep_join_ends [seg] ltac:(by constructor) ltac:(done)) as H. simpl in H.
    unfold ends_sep in *. rewrite last_app_cons, last_cons.
    destruct (last seg) eqn:E; [done|]. apply last_None in E. by destruct Hr as (_ & ? & _).
  - done.
Qed.

Lemma foldl_join_nil segs : Forall real_segment segs → segs ≠ [] → foldl join [] segs = sep_join segs.
Proof.
  intros Hs Hne. destruct segs as [|seg segs]; [done|]. inversion_clear Hs as [|?? Hr Hs']. simpl.
  assert (Hj : join [] seg = seg).
  { unfold join. by destruct (starts_sep seg). }
  rewrite Hj. destruct segs as [|seg' segs]; [done|]. apply foldl_join; [done|by destruct Hr as (_ & ? & _)| |done].
  apply (sep_join_ends [seg]); [by constructor|done].
Qed.

Lemma relpath_below ini segs ks :
  initial_ok ini → Forall real_segment segs → Forall real_segment ks → ks ≠ [] →
  relpath (ini ++ sep_join (segs ++ ks)) (ini ++ sep_join segs) = sep_join ks.
Proof.
  intros Hi Hs Hk Hne. unfold relpath.
  rewrite !normpath_normal, !comps_normal by (done || by apply Forall_app).
  rewrite common_prefix_app, Nat.sub_diag, drop_app_length. simpl.
  destruct ks as [|k ks]; [done|]. by rewrite <- (foldl_join_nil (k :: ks)).
Qed.

Lemma key_file_segs ini segs root k :
  abs_normal ini segs root → with_sep root ++ chars k = ini ++ sep_join (segs ++ split_at slash (chars k)).
Proof.
  intros Hr. rewrite (with_sep_app ini segs) by done. f_equal. unfold under.
  destruct segs as [|s segs]; [by rewrite app_nil_l, sep_join_split|].
  rewrite sep_join_app by (done || apply split_at_cons). by rewrite sep_join_split.
Qed.

Lemma dirname_snoc ini ds leaf :
  initial_ok ini → Forall real_segment ds → real_segment leaf →
  dirname (ini ++ sep_join (ds ++ [leaf])) = ini ++ sep_join ds.
Proof.
  intros Hi Hs Hleaf. rewrite <- (dirname_below ini ds leaf) by (done || by destruct Hleaf).
  do 2 f_equal. unfold under. destruct ds; [done|]. by rewrite sep_join_app.
Qed.

Lemma length_sep_join segs : Forall real_segment segs → length segs ≤ length (sep_join segs).
Proof.
  induction 1 as [|seg segs (_ & Hne & _) Hs IH]; [done|]. destruct segs as [|s' segs].
  - destruct seg; simpl; [done|lia].
  - rewrite sep_join_cons, length_app by done. simpl in *. destruct seg; [done|]. simpl. lia.
Qed.

Lemma snoc_longer ini ds leaf :
  real_segment leaf → length (ini ++ sep_join ds) < length (ini ++ sep_join (ds ++ [leaf])).
Proof.
  intros (_ & Hne & _). rewrite !length_app. destruct ds as [|d ds].
  - simpl. destruct leaf; simpl; [done|lia].
  - rewrite sep_join_app, length_app by done. simpl. lia.
Qed.
