(* ===== verification/FileSystem.v ===== *)
(** * The file system

    The POSIX calls [FilesystemBackend] makes, over a tree of directories and
    file names.  A name refers to an inode, so [os.link] and [os.replace] are the
    operations the kernel has.  Every call first consults [fs_faults], an
    arbitrary schedule of failures: a call that fails returns an error and has no
    effect, except a failing write, which leaves torn bytes behind.  Symbolic
    links and permissions are outside the model. *)

From S2P Require Import Prelude PyText TenantIds Backend PosixPath.
From Stdlib Require Import Ascii.

Inductive node :=
| NDir
| NFile (ino : nat).

#[export] Instance node_eq_dec : EqDecision node.
Proof. solve_decision. Defined.

(** One poll of the OS lock, as the calling process sees it: [GrantedAfter
    retired] grants the lock, after another process has removed the lock file
    when [retired] is set. *)
Inductive poll :=
| Contended
| GrantedAfter (retired : bool)
| LockRefused.

Record fs := Fs {
  fs_names : gmap path node;
  fs_data : gmap nat string;          (** contents by inode *)
  fs_faults : list (option string);   (** [Some torn]: the next call fails *)
  fs_tmp : list string;               (** what the temporary-name generator yields *)
  fs_polls : list (list poll);        (** what each lock attempt meets *)
  fs_held : option (path * nat) }.    (** the validated lock handle *)

Inductive errno := ENOENT | EEXIST | EISDIR | ENOTDIR | EOTHER.

#[export] Instance errno_eq_dec : EqDecision errno.
Proof. solve_decision. Defined.

(** What an operation raises: an [OSError], or an exception of the store. *)
Inductive exn :=
| OsError (e : errno)
| Raised (e : store_error).

#[export] Instance exn_eq_dec : EqDecision exn.
Proof. solve_decision. Defined.

Abbreviation sys := (io fs exn).

Definition set_names (f : gmap path node → gmap path node) : sys unit :=
  λ s, (Ok tt, Fs (f (fs_names s)) (fs_data s) (fs_faults s) (fs_tmp s) (fs_polls s) (fs_held s)).
Definition set_data (f : gmap nat string → gmap nat string) : sys unit :=
  λ s, (Ok tt, Fs (fs_names s) (f (fs_data s)) (fs_faults s) (fs_tmp s) (fs_polls s) (fs_held s)).
Definition set_held (h : option (path * nat)) : sys unit :=
  λ s, (Ok tt, Fs (fs_names s) (fs_data s) (fs_faults s) (fs_tmp s) (fs_polls s) h).

Definition next_fault : sys (option string) :=
  λ s, (Ok (default None (head (fs_faults s))),
        Fs (fs_names s) (fs_data s) (tail (fs_faults s)) (fs_tmp s) (fs_polls s) (fs_held s)).
Definition next_polls : sys (list poll) :=
  λ s, (Ok (default [GrantedAfter false] (head (fs_polls s))),
        Fs (fs_names s) (fs_data s) (fs_faults s) (fs_tmp s) (tail (fs_polls s)) (fs_held s)).
Definition tmp_names : sys (list string) :=
  λ s, (Ok (fs_tmp s), Fs (fs_names s) (fs_data s) (fs_faults s) (tail (fs_tmp s)) (fs_polls s) (fs_held s)).

(** A call that fails without an effect when the schedule says so. *)
Definition attempt : sys unit :=
  f ← next_fault; match f with Some _ => raise (OsError EOTHER) | None => mret tt end.

Definition lookup_name (p : path) : sys (option node) := λ s, (Ok (fs_names s !! p), s).

(** ** Looking up a name *)

Fixpoint ancestors (fuel : nat) (p : path) : list path :=
  match fuel with
  | O => []
  | S n => let d := dirname p in if bool_decide (d = p) then [] else d :: ancestors n d
  end.

Definition is_file (s : fs) (p : path) : bool :=
  match fs_names s !! p with Some (NFile _) => true | _ => false end.

(** The error of a name that does not resolve. *)
Definition missing (p : path) : sys exn :=
  λ s, (Ok (OsError (if existsb (is_file s) (ancestors (length p) p) then ENOTDIR else ENOENT)), s).

Definition raise_missing {A} (p : path) : sys A := e ← missing p; raise e.

(** [os.path.exists] and [os.path.isdir] answer [False] when the call fails. *)
Definition path_exists (p : path) : sys bool :=
  f ← next_fault; n ← lookup_name p;
  mret (match f with Some _ => false | None => bool_decide (is_Some n) end).

Definition path_isdir (p : path) : sys bool :=
  f ← next_fault; n ← lookup_name p;
  mret (match f with Some _ => false | None => bool_decide (n = Some NDir) end).

(** ** Directories *)

(** the parent of a name that is about to be created *)
Definition check_parent (p : path) : sys unit :=
  n ← lookup_name (dirname p);
  match n with
  | Some NDir => mret tt
  | Some (NFile _) => raise (OsError ENOTDIR)
  | None => raise_missing p
  end.

Definition mkdir (p : path) : sys unit :=
  _ ← attempt; n ← lookup_name p;
  match n with
  | Some _ => raise (OsError EEXIST)
  | None => _ ← check_parent p; set_names <[p := NDir]>
  end.

(** [os.makedirs(p, exist_ok=True)] *)
Fixpoint makedirs (fuel : nat) (p : path) : sys unit :=
  match fuel with
  | O => mret tt
  | S n =>
      let head := dirname p in
      head_exists ← path_exists head;
      _ ← (if negb (bool_decide (head = [])) && negb (bool_decide (head = p)) && negb (head_exists : bool)
           then try_except (makedirs n head)
                  (λ e, if bool_decide (e = OsError EEXIST) then mret tt else raise e)
           else mret tt);
      try_except (mkdir p) (λ e, d ← path_isdir p; if (d : bool) then mret tt else raise e)
  end.

(** ** Files *)

Definition inodes (s : fs) : list nat :=
  omap (λ '(_, n), match n with NFile i => Some i | NDir => None end) (map_to_list (fs_names s)).

(** an inode number no name refers to *)
Definition fresh_ino (s : fs) : nat := S (foldr Nat.max O (inodes s)).

Definition new_file (p : path) : sys nat :=
  λ s, let i := fresh_ino s in
       (Ok i, Fs (<[p := NFile i]> (fs_names s)) (<[i := ""%string]> (fs_data s))
                 (fs_faults s) (fs_tmp s) (fs_polls s) (fs_held s)).

Definition create (p : path) : sys nat := _ ← check_parent p; new_file p.

Definition contents (s : fs) (i : nat) : string := default ""%string (fs_data s !! i).
Definition read_inode (i : nat) : sys string := λ s, (Ok (contents s i), s).

(** [open(p, "rb").read()] *)
Definition read_file (p : path) : sys string :=
  _ ← attempt; n ← lookup_name p;
  match n with
  | None => raise_missing p
  | Some NDir => raise (OsError EISDIR)
  | Some (NFile i) => _ ← attempt; read_inode i
  end.

(** [open(p, "a+b")]: created on first use, never truncated *)
Definition open_append (p : path) : sys nat :=
  _ ← attempt; n ← lookup_name p;
  match n with
  | Some NDir => raise (OsError EISDIR)
  | Some (NFile i) => mret i
  | None => create p
  end.

(** [tempfile.mkstemp(prefix=prefix, dir=parent)]: names are tried until one is free *)
Fixpoint mkstemp_among (names : list string) (prefix : string) (parent : path) : sys (nat * path) :=
  match names with
  | [] => raise (OsError EEXIST)
  | name :: rest =>
      let file := join parent (chars prefix ++ chars name) in
      _ ← attempt; n ← lookup_name file;
      match n with
      | Some _ => mkstemp_among rest prefix parent
      | None => i ← create file; mret (i, file)
      end
  end.

Definition mkstemp (prefix : string) (parent : path) : sys (nat * path) :=
  names ← tmp_names; mkstemp_among names prefix parent.

(** writing, flushing and [os.fsync] of an open file *)
Definition write_sync (i : nat) (data : string) : sys unit :=
  f ← next_fault;
  match f with
  | Some torn => _ ← set_data <[i := torn]>; raise (OsError EOTHER)
  | None => _ ← set_data <[i := data]>; attempt
  end.

(** [os.replace]: two names of one inode are left as they are *)
Definition replace (src dst : path) : sys unit :=
  _ ← attempt; n ← lookup_name src; m ← lookup_name dst;
  match n, m with
  | None, _ => raise_missing src
  | Some NDir, _ => raise (OsError ENOTDIR)
  | Some (NFile _), Some NDir => raise (OsError EISDIR)
  | Some (NFile i), Some (NFile j) =>
      if bool_decide (i = j) then mret tt
      else set_names (λ ns, <[dst := NFile i]> (delete src ns))
  | Some (NFile i), None => _ ← check_parent dst; set_names (λ ns, <[dst := NFile i]> (delete src ns))
  end.

(** [os.link] *)
Definition link (src dst : path) : sys unit :=
  _ ← attempt; n ← lookup_name src; m ← lookup_name dst;
  match n, m with
  | None, _ => raise_missing src
  | Some _, Some _ => raise (OsError EEXIST)
  | Some NDir, None => raise (OsError EOTHER)
  | Some (NFile i), None => _ ← check_parent dst; set_names <[dst := NFile i]>
  end.

(** [os.remove] *)
Definition remove (p : path) : sys unit :=
  _ ← attempt; n ← lookup_name p;
  match n with
  | None => raise_missing p
  | Some NDir => raise (OsError EISDIR)
  | Some (NFile _) => set_names (delete p)
  end.

(** opening a directory and [os.fsync]ing it *)
Definition fsync_dir (p : path) : sys unit :=
  _ ← attempt; n ← lookup_name p;
  match n with
  | None => raise_missing p
  | Some (NFile _) => raise (OsError ENOTDIR)
  | Some NDir => attempt
  end.

(** [try: m finally: c]: the cleanup runs on both paths; if it raises, its
    exception replaces the body's *)
Definition finally_ {A} (m : sys A) (c : sys unit) : sys A :=
  λ s, match m s with
       | (r, s1) => match c s1 with
                    | (Ok _, s2) => (r, s2)
                    | (Err e, s2) => (Err e, s2)
                    end
       end.

(** [except FileNotFoundError: pass] *)
Definition ignore_missing (m : sys unit) : sys unit :=
  try_except m (λ e, if bool_decide (e = OsError ENOENT) then mret tt else raise e).

(** [os.scandir] of one directory: its subdirectories and its files *)
Definition children (s : fs) (dir : path) : list (path * node) :=
  filter (λ '(p, _), dirname p = dir ∧ p ≠ dir) (map_to_list (fs_names s)).

Definition entries (dir : path) : sys (list path * list path) :=
  λ s, (Ok (fst <$> filter (λ '(_, n), n = NDir) (children s dir),
            fst <$> filter (λ '(_, n), n ≠ NDir) (children s dir)), s).

Definition scandir (dir : path) : sys (list path * list path) :=
  _ ← attempt; n ← lookup_name dir;
  match n with
  | None => raise_missing dir
  | Some (NFile _) => raise (OsError ENOTDIR)
  | Some NDir => entries dir
  end.

(** ** What each call does to names and contents *)

(** names and contents are as they were *)
Definition same_files (s s' : fs) : Prop := fs_names s' = fs_names s ∧ fs_data s' = fs_data s.

#[export] Instance same_files_refl : Reflexive same_files.
Proof. done. Qed.
#[export] Instance same_files_trans : Transitive same_files.
Proof. intros a b c [H1 H2] [H3 H4]. split; congruence. Qed.

(** the bytes a name leads to *)
Definition file_at (s : fs) (p : path) : option string :=
  match fs_names s !! p with Some (NFile i) => Some (contents s i) | _ => None end.

Lemma same_file_at s s' p : same_files s s' → file_at s' p = file_at s p.
Proof. unfold file_at, contents. by intros [-> ->]. Qed.

Lemma wp_next_fault (Φ : result exn (option string) → fs → Prop) s :
  (∀ f s', same_files s s' → Φ (Ok f) s') → wp next_fault Φ s.
Proof. intros H. by apply H. Qed.

Lemma wp_faulty (Φ : result exn unit → fs → Prop) s :
  (∀ r s', same_files s s' → (∀ e, r = Err e → e = OsError EOTHER) → Φ r s') → wp attempt Φ s.
Proof.
  intros H. apply wp_bind, wp_next_fault. intros [torn|] s' Hs.
  - apply wp_raise, H; [done|by intros e [= <-]].
  - by apply wp_ret, H.
Qed.

Lemma wp_lookup p (Φ : result exn (option node) → fs → Prop) s :
  Φ (Ok (fs_names s !! p)) s → wp (lookup_name p) Φ s.
Proof. done. Qed.

Lemma wp_missing {A} p (Φ : result exn A → fs → Prop) s :
  (∀ e, Φ (Err (OsError e)) s) → wp (raise_missing p) Φ s.
Proof. intros H. unfold wp, outcome, final. simpl. apply H. Qed.

Lemma wp_exists_path p (Φ : result exn bool → fs → Prop) s :
  (∀ b s', same_files s s' → (b = true → is_Some (fs_names s !! p)) → Φ (Ok b) s') →
  wp (path_exists p) Φ s.
Proof.
  intros H. apply wp_bind, wp_next_fault. intros f s' Hs. apply wp_bind, wp_lookup, wp_ret, H; [done|].
  destruct f; [done|]. destruct Hs as [-> _]. by intros ?%bool_decide_eq_true.
Qed.

Lemma wp_isdir_path p (Φ : result exn bool → fs → Prop) s :
  (∀ b s', same_files s s' → Φ (Ok b) s') → wp (path_isdir p) Φ s.
Proof.
  intros H. apply wp_bind, wp_next_fault. intros f s' Hs. by apply wp_bind, wp_lookup, wp_ret, H.
Qed.

Lemma wp_check_parent p (Φ : result exn unit → fs → Prop) s :
  (fs_names s !! dirname p = Some NDir → Φ (Ok tt) s) → (∀ e, Φ (Err (OsError e)) s) →
  wp (check_parent p) Φ s.
Proof.
  intros H He. apply wp_bind, wp_lookup.
  destruct (fs_names s !! dirname p) as [[|i]|]; [by apply wp_ret, H|apply wp_raise, He|by apply wp_missing].
Qed.

(** Directories appear, nothing else changes. *)
Definition grown (s s' : fs) : Prop :=
  fs_data s' = fs_data s ∧
  ∀ q, fs_names s' !! q = fs_names s !! q ∨ fs_names s !! q = None ∧ fs_names s' !! q = Some NDir.

Lemma same_grown s s' : same_files s s' → grown s s'.
Proof. intros [Hn Hd]. split; [done|]. intros q. left. by rewrite Hn. Qed.

#[export] Instance grown_refl : Reflexive grown.
Proof. intros s. by apply same_grown. Qed.
#[export] Instance grown_trans : Transitive grown.
Proof.
  intros a b c [Hd Hn] [Hd' Hn']. split; [congruence|]. intros q.
  destruct (Hn q) as [H1|[H1 H2]], (Hn' q) as [H3|[H3 H4]];
    rewrite ?H1, ?H2, ?H3, ?H4 in *; auto; congruence.
Qed.

Lemma grown_file_at s s' p : grown s s' → file_at s' p = file_at s p.
Proof.
  intros [Hd Hn]. unfold file_at, contents. rewrite Hd. by destruct (Hn p) as [-> | [-> ->]].
Qed.

Lemma wp_mkdir p (Φ : result exn unit → fs → Prop) s :
  (∀ r s', grown s s' → Φ r s') → wp (mkdir p) Φ s.
Proof.
  intros H. apply wp_bind, wp_faulty. intros [[]|e] s1 Hs1 _; [|by apply H, same_grown].
  apply wp_bind, wp_lookup. destruct (fs_names s1 !! p) eqn:E; [by apply wp_raise, H, same_grown|].
  apply wp_bind, wp_check_parent; [|by intros; apply H, same_grown].
  intros _. apply H. etrans; [by apply same_grown|]. split; [done|]. intros q. simpl.
  destruct (decide (q = p)) as [->|]; [right; by rewrite lookup_insert_eq|left; by rewrite lookup_insert_ne].
Qed.

Lemma wp_makedirs n p (Φ : result exn unit → fs → Prop) s :
  (∀ r s', grown s s' → Φ r s') → wp (makedirs n p) Φ s.
Proof.
  revert p Φ s. induction n as [|n IH]; intros p Φ s H; [by apply wp_ret, H|]. cbn [makedirs].
  apply wp_bind, wp_exists_path. intros b s1 Hs1 _.
  assert (Hmk : ∀ s2, grown s s2 →
    wp (try_except (mkdir p) (λ e, d ← path_isdir p; if (d : bool) then mret tt else raise e)) Φ s2).
  { intros s2 Hg2. apply wp_try, wp_mkdir. intros [[]|e] s3 Hg3; [apply H; by etrans|].
    apply wp_bind, wp_isdir_path. intros d s4 Hs4.
    assert (grown s s4) by (etrans; [done|]; etrans; [done|by apply same_grown]).
    destruct d; [apply wp_ret|apply wp_raise]; by apply H. }
  apply wp_bind. case_wp; [|by apply wp_ret, Hmk, same_grown].
  apply wp_try, IH. intros [[]|e] s2 Hg2.
  - apply Hmk. etrans; [by apply same_grown|done].
  - case_wp; [apply wp_ret, Hmk|apply wp_raise, H]; (etrans; [by apply same_grown|done]).
Qed.

(** ** Files *)

Lemma foldr_max_le l x : x ∈ l → x ≤ foldr Nat.max O l.
Proof. induction 1; simpl; lia. Qed.

Lemma fresh_ino_spec s p : fs_names s !! p ≠ Some (NFile (fresh_ino s)).
Proof.
  intros Hp. assert (Hin : fresh_ino s ∈ inodes s).
  { unfold inodes. apply list_elem_of_omap. exists (p, NFile (fresh_ino s)). split; [|done].
    by apply elem_of_map_to_list. }
  apply foldr_max_le in Hin. unfold fresh_ino in Hin. lia.
Qed.

(** a new file [i] at [p], where there was no name *)
Definition created (s s' : fs) (p : path) (i : nat) : Prop :=
  fs_names s !! p = None ∧ fs_names s !! dirname p = Some NDir ∧
  (∀ q, fs_names s !! q ≠ Some (NFile i)) ∧
  fs_names s' = <[p := NFile i]> (fs_names s) ∧ fs_data s' = <[i := ""%string]> (fs_data s).

Lemma created_same s s1 s' p i : same_files s s1 → created s1 s' p i → created s s' p i.
Proof. intros [Hn Hd] (H1 & H2 & H3 & H4 & H5). unfold created. rewrite <- Hn, <- Hd. done. Qed.

Lemma wp_create p (Φ : result exn nat → fs → Prop) s :
  fs_names s !! p = None → (∀ i s', created s s' p i → Φ (Ok i) s') → (∀ e, Φ (Err (OsError e)) s) →
  wp (create p) Φ s.
Proof.
  intros Hp H He. apply wp_bind, wp_check_parent; [|done]. intros Hd. apply H.
  do 2 (split; [done|]). split; [apply fresh_ino_spec|]. done.
Qed.

Lemma created_file_at s s' p i q : created s s' p i → q ≠ p → file_at s' q = file_at s q.
Proof.
  intros (_ & _ & Hf & Hn & Hd) Hq. unfold file_at, contents. rewrite Hn, Hd, lookup_insert_ne by done.
  destruct (fs_names s !! q) as [[|j]|] eqn:E; [done| |done].
  rewrite lookup_insert_ne; [done|]. intros ->. by apply (Hf q).
Qed.

Lemma wp_read p (Φ : result exn string → fs → Prop) s :
  (∀ d s', same_files s s' → file_at s p = Some d → Φ (Ok d) s') →
  (∀ e s', same_files s s' → (e = ENOENT → file_at s p = None) → Φ (Err (OsError e)) s') →
  wp (read_file p) Φ s.
Proof.
  intros H He. apply wp_bind, wp_faulty. intros [[]|e] s1 Hs1 He1.
  2:{ rewrite (He1 _ eq_refl). by apply He. }
  apply wp_bind, wp_lookup. pose proof Hs1 as [Hn1 _]. rewrite Hn1.
  destruct (fs_names s !! p) as [[|i]|] eqn:E.
  - by apply wp_raise, He.
  - apply wp_bind, wp_faulty. intros [[]|e] s2 Hs2 He2.
    + assert (Hs : same_files s s2) by (by etrans). apply (H (contents s2 i)); [done|].
      unfold file_at, contents. rewrite E. by destruct Hs as [_ ->].
    + rewrite (He2 _ eq_refl). apply He; [by etrans|done].
  - apply wp_missing. intros e. apply He; [done|]. intros _. unfold file_at. by rewrite E.
Qed.

Lemma wp_mkstemp_among names prefix parent (Φ : result exn (nat * path) → fs → Prop) s :
  (∀ i s' name, created s s' (join parent (chars prefix ++ chars name)) i →
     Φ (Ok (i, join parent (chars prefix ++ chars name))) s') →
  (∀ e s', same_files s s' → Φ (Err e) s') →
  wp (mkstemp_among names prefix parent) Φ s.
Proof.
  intros H He. assert (Hs0 : same_files s s) by done. revert Hs0. generalize s at 2 3.
  induction names as [|name names IH]; intros s0 Hs0; [by apply wp_raise, He|]. cbn [mkstemp_among].
  apply wp_bind, wp_faulty. intros [[]|e] s1 Hs1 _; [|apply He; by etrans].
  assert (Hs : same_files s s1) by (by etrans).
  apply wp_bind, wp_lookup. destruct (fs_names s1 !! _) eqn:E; [by apply IH|].
  apply wp_bind, wp_create; [done| |by intros; apply He].
  intros i s2 Hc. apply wp_ret, H. by eapply created_same.
Qed.

Lemma wp_mkstemp prefix parent (Φ : result exn (nat * path) → fs → Prop) s :
  (∀ i s' name, created s s' (join parent (chars prefix ++ chars name)) i →
     Φ (Ok (i, join parent (chars prefix ++ chars name))) s') →
  (∀ e s', same_files s s' → Φ (Err e) s') →
  wp (mkstemp prefix parent) Φ s.
Proof.
  intros H He. apply wp_bind. unfold wp, outcome, final, tmp_names. simpl. apply wp_mkstemp_among.
  - intros i s' name Hc. apply H. by eapply created_same; [|done].
  - intros e s' Hs. by apply He.
Qed.

Lemma wp_open_append p (Φ : result exn nat → fs → Prop) s :
  (∀ i s', same_files s s' → fs_names s !! p = Some (NFile i) → Φ (Ok i) s') →
  (∀ i s', created s s' p i → Φ (Ok i) s') →
  (∀ e s', same_files s s' → Φ (Err e) s') →
  wp (open_append p) Φ s.
Proof.
  intros H Hc He. apply wp_bind, wp_faulty. intros [[]|e] s1 Hs1 _; [|by apply He].
  apply wp_bind, wp_lookup. pose proof Hs1 as [Hn1 _].
  destruct (fs_names s1 !! p) as [[|i]|] eqn:E; rewrite Hn1 in E.
  - by apply wp_raise, He.
  - by apply wp_ret, H.
  - apply wp_create; [by rewrite Hn1| |by intros; apply He]. intros i s' ?. apply Hc. by eapply created_same.
Qed.

Lemma wp_write_sync i data (Φ : result exn unit → fs → Prop) s :
  (∀ r s' x, fs_names s' = fs_names s → fs_data s' = <[i := x]> (fs_data s) →
     (r = Ok tt → x = data) → Φ r s') → wp (write_sync i data) Φ s.
Proof.
  intros H. apply wp_bind, wp_next_fault. intros [torn|] s1 [Hn1 Hd1]; apply wp_bind.
  - apply (H _ _ torn); simpl; [done|by rewrite Hd1|done].
  - unfold wp at 1, outcome, final, set_data. simpl. apply wp_faulty. intros r s2 [Hn2 Hd2] _.
    apply (H _ _ data); [by rewrite Hn2|by rewrite Hd2; simpl; rewrite Hd1|done].
Qed.

(** the file [i] that [src] names is now named [dst], or both already were *)
Definition moved (s s' : fs) (src dst : path) (i : nat) : Prop :=
  fs_data s' = fs_data s ∧ fs_names s !! src = Some (NFile i) ∧
  (fs_names s' = <[dst := NFile i]> (delete src (fs_names s)) ∨
   fs_names s' = fs_names s ∧ fs_names s !! dst = Some (NFile i)).

Lemma wp_replace src dst (Φ : result exn unit → fs → Prop) s :
  (∀ i s', moved s s' src dst i → Φ (Ok tt) s') →
  (∀ e s', same_files s s' → Φ (Err e) s') → wp (replace src dst) Φ s.
Proof.
  intros H He. apply wp_bind, wp_faulty. intros [[]|e] s1 Hs1 _; [|by apply He].
  apply wp_bind, wp_lookup, wp_bind, wp_lookup. pose proof Hs1 as [Hn1 Hd1]. rewrite Hn1.
  destruct (fs_names s !! src) as [[|i]|] eqn:Es; [by apply wp_raise, He| |by apply wp_missing; intros; apply He].
  assert (Hm : wp (set_names (λ ns, <[dst := NFile i]> (delete src ns))) Φ s1).
  { apply (H i). split; [done|]. split; [done|]. left. simpl. by rewrite Hn1. }
  destruct (fs_names s !! dst) as [[|j]|] eqn:Ed.
  - by apply wp_raise, He.
  - case_bool_decide; [subst j|done]. apply wp_ret, (H i). by split; [|split; [|right]].
  - apply wp_bind, wp_check_parent; [done|]. intros e. by apply He.
Qed.

Lemma wp_link src dst (Φ : result exn unit → fs → Prop) s :
  (∀ i s', fs_data s' = fs_data s → fs_names s !! src = Some (NFile i) → fs_names s !! dst = None →
     fs_names s' = <[dst := NFile i]> (fs_names s) → Φ (Ok tt) s') →
  (∀ e s', same_files s s' → Φ (Err e) s') → wp (link src dst) Φ s.
Proof.
  intros H He. apply wp_bind, wp_faulty. intros [[]|e] s1 Hs1 _; [|by apply He].
  apply wp_bind, wp_lookup, wp_bind, wp_lookup. pose proof Hs1 as [Hn1 Hd1]. rewrite Hn1.
  destruct (fs_names s !! src) as [[|i]|] eqn:Es; [| |by apply wp_missing; intros; apply He];
    destruct (fs_names s !! dst) eqn:Ed; try (by apply wp_raise, He).
  apply wp_bind, wp_check_parent; [|by intros; apply He].
  intros _. apply (H i); simpl; try done. by rewrite Hn1.
Qed.

(** a file name is gone *)
Definition removed (s s' : fs) (p : path) : Prop :=
  fs_data s' = fs_data s ∧ fs_names s' = delete p (fs_names s).

Lemma wp_remove p (Φ : result exn unit → fs → Prop) s :
  (∀ s', removed s s' p → Φ (Ok tt) s') →
  (∀ e s', same_files s s' → (e = OsError ENOENT → fs_names s !! p = None) → Φ (Err e) s') →
  wp (remove p) Φ s.
Proof.
  intros H He. apply wp_bind, wp_faulty. intros [[]|e] s1 Hs1 He1.
  2:{ apply He; [done|]. intros ->. by specialize (He1 _ eq_refl). }
  apply wp_bind, wp_lookup. pose proof Hs1 as [Hn1 Hd1]. rewrite Hn1.
  destruct (fs_names s !! p) as [[|i]|] eqn:E.
  - by apply wp_raise, He.
  - apply H. split; [done|]. simpl. by rewrite Hn1.
  - apply wp_missing. intros e. by apply He.
Qed.

Lemma removed_file_at s s' p q : removed s s' p → q ≠ p → file_at s' q = file_at s q.
Proof. intros [Hd Hn] Hq. unfold file_at, contents. by rewrite Hd, Hn, lookup_delete_ne. Qed.

Lemma removed_gone s s' p : removed s s' p → file_at s' p = None.
Proof. intros [Hd Hn]. unfold file_at. by rewrite Hn, lookup_delete_eq. Qed.

Lemma wp_ignore_missing_remove p (Φ : result exn unit → fs → Prop) s :
  (∀ r s', (∀ q, q ≠ p → file_at s' q = file_at s q) → (r = Ok tt → file_at s' p = None) →
     (file_at s' p = file_at s p ∨ file_at s' p = None) → Φ r s') →
  wp (ignore_missing (remove p)) Φ s.
Proof.
  intros H. apply wp_try, wp_remove.
  - intros s' Hr. apply H; [by intros; eapply removed_file_at|by intros; eapply removed_gone|].
    right. by eapply removed_gone.
  - intros e s' Hs Hn. pose proof (same_file_at s s') as Hf.
    case_bool_decide; [apply wp_ret|apply wp_raise]; apply H; auto; [|done].
    intros _. rewrite Hf by done. unfold file_at. by rewrite Hn.
Qed.

Lemma wp_fsync_dir p (Φ : result exn unit → fs → Prop) s :
  (∀ r s', same_files s s' → Φ r s') → wp (fsync_dir p) Φ s.
Proof.
  intros H. apply wp_bind, wp_faulty. intros [[]|e] s1 Hs1 _; [|by apply H].
  apply wp_bind, wp_lookup. destruct (fs_names s1 !! p) as [[|i]|].
  - apply wp_faulty. intros r s2 Hs2 _. apply H. by etrans.
  - by apply wp_raise, H.
  - apply wp_missing. intros. by apply H.
Qed.

Lemma wp_finally {A} (m : sys A) c Φ s :
  wp m (λ r s1, wp c (λ r2 s2, match r2 with Ok _ => Φ r s2 | Err e => Φ (Err e) s2 end) s1) s →
  wp (finally_ m c) Φ s.
Proof.
  unfold wp, outcome, final, finally_. destruct (m s) as [r s1]. simpl. by destruct (c s1) as [[]].
Qed.

(** ** The tree

    Every name sits in a directory; the file system starts with one and every
    call keeps it so. *)

Definition tree (ns : gmap path node) : Prop :=
  ∀ p n, ns !! p = Some n → dirname p ≠ p → ns !! dirname p = Some NDir.
Definition tree_ok (s : fs) : Prop := tree (fs_names s).

Lemma tree_insert ns p n :
  tree ns → ns !! p ≠ Some NDir → (dirname p ≠ p → ns !! dirname p = Some NDir) → tree (<[p := n]> ns).
Proof.
  intros Ht Hp Hd q m. destruct (decide (q = p)) as [->|Hne].
  - intros _ Hq. rewrite lookup_insert_ne by done. by apply Hd.
  - rewrite lookup_insert_ne by done. intros Hq Hqd. pose proof (Ht q m Hq Hqd) as Hpar.
    rewrite lookup_insert_ne; [done|]. intros Heq. by rewrite <- Heq in Hpar.
Qed.

Lemma tree_delete ns p : tree ns → ns !! p ≠ Some NDir → tree (delete p ns).
Proof.
  intros Ht Hp q m. rewrite lookup_delete_Some. intros [Hne Hq] Hqd.
  pose proof (Ht q m Hq Hqd) as Hpar. rewrite lookup_delete_ne; [done|]. intros Heq. by rewrite <- Heq in Hpar.
Qed.

Lemma tree_same s s' : same_files s s' → tree_ok s → tree_ok s'.
Proof. intros [Hn _]. unfold tree_ok. by rewrite Hn. Qed.

Lemma tree_created s s' p i : created s s' p i → tree_ok s → tree_ok s'.
Proof.
  intros (Hp & Hd & _ & Hn & _) Ht. unfold tree_ok. rewrite Hn. apply tree_insert; [done|by rewrite Hp|done].
Qed.

Lemma keeps_wp {A} (P : fs → Prop) (m : sys A) : (∀ s, P s → wp m (λ _ s', P s') s) → preserves P m.
Proof. done. Qed.

Lemma keeps_attempt : preserves tree_ok attempt.
Proof. apply keeps_wp. intros s Ht. apply wp_faulty. intros r s' Hs _. by eapply tree_same. Qed.
Lemma keeps_lookup p : preserves tree_ok (lookup_name p).
Proof. by intros s. Qed.
Lemma keeps_missing {A} p : preserves tree_ok (@raise_missing A p).
Proof. by intros s. Qed.
Lemma keeps_exists p : preserves tree_ok (path_exists p).
Proof. by intros s. Qed.
Lemma keeps_isdir p : preserves tree_ok (path_isdir p).
Proof. by intros s. Qed.

Lemma keeps_mkdir p : preserves tree_ok (mkdir p).
Proof.
  apply keeps_wp. intros s Ht. apply wp_bind, wp_faulty. intros [[]|e] s1 Hs1 _; [|by eapply tree_same].
  apply (tree_same _ _ Hs1) in Ht. apply wp_bind, wp_lookup.
  destruct (fs_names s1 !! p) eqn:E; [by apply wp_raise|].
  apply wp_bind, wp_check_parent; [|done]. intros Hd. apply tree_insert; [done|by rewrite E|done].
Qed.

Lemma keeps_makedirs n p : preserves tree_ok (makedirs n p).
Proof.
  revert p. induction n as [|n IH]; intros p; [by intros s|]. cbn [makedirs].
  apply preserves_bind; [apply keeps_exists|]. intros b. apply preserves_bind.
  - case_goal; [|by intros s]. apply preserves_try; [apply IH|]. intros e. by case_goal; intros s.
  - intros _. apply preserves_try; [apply keeps_mkdir|]. intros e.
    apply preserves_bind; [apply keeps_isdir|]. by intros [] s.
Qed.

Lemma keeps_open_append p : preserves tree_ok (open_append p).
Proof.
  apply keeps_wp. intros s Ht. apply wp_open_append; intros; eauto using tree_same, tree_created.
Qed.

Lemma keeps_mkstemp prefix parent : preserves tree_ok (mkstemp prefix parent).
Proof.
  apply keeps_wp. intros s Ht. apply wp_mkstemp; intros; eauto using tree_same, tree_created.
Qed.

Lemma keeps_write_sync i d : preserves tree_ok (write_sync i d).
Proof.
  apply keeps_wp. intros s Ht. apply wp_write_sync. intros r s' x Hn _ _. unfold tree_ok. by rewrite Hn.
Qed.

Lemma keeps_read p : preserves tree_ok (read_file p).
Proof. apply keeps_wp. intros s Ht. apply wp_read; intros; by eapply tree_same. Qed.

Lemma keeps_replace src dst : preserves tree_ok (replace src dst).
Proof.
  apply keeps_wp. intros s Ht. apply wp_bind, wp_faulty. intros [[]|e] s1 Hs1 _; [|by eapply tree_same].
  apply (tree_same _ _ Hs1) in Ht. apply wp_bind, wp_lookup, wp_bind, wp_lookup.
  destruct (fs_names s1 !! src) as [[|i]|] eqn:Es; [by apply wp_raise| |by apply wp_missing].
  assert (Hmv : fs_names s1 !! dst ≠ Some NDir → (dirname dst ≠ dst → fs_names s1 !! dirname dst = Some NDir) →
    wp (set_names (λ ns, <[dst := NFile i]> (delete src ns))) (λ _ s', tree_ok s') s1).
  { intros Hd Hp. apply tree_insert; [apply tree_delete; [done|by rewrite Es]| |].
    - by intros [_ ?]%lookup_delete_Some.
    - intros Hne. rewrite lookup_delete_ne; [by apply Hp|]. intros Heq. specialize (Hp Hne).
      rewrite <- Heq, Es in Hp. done. }
  destruct (fs_names s1 !! dst) as [[|j]|] eqn:Ed; [by apply wp_raise| |].
  - case_bool_decide; [by apply wp_ret|]. apply Hmv; [done|]. by apply (Ht dst (NFile j)).
  - apply wp_bind, wp_check_parent; [|done]. intros. by apply Hmv.
Qed.

Lemma keeps_link src dst : preserves tree_ok (link src dst).
Proof.
  apply keeps_wp. intros s Ht. apply wp_bind, wp_faulty. intros [[]|e] s1 Hs1 _; [|by eapply tree_same].
  apply (tree_same _ _ Hs1) in Ht. apply wp_bind, wp_lookup, wp_bind, wp_lookup.
  destruct (fs_names s1 !! src) as [[|i]|], (fs_names s1 !! dst) eqn:Ed; try (by apply wp_raise);
    try (by apply wp_missing).
  apply wp_bind, wp_check_parent; [|done]. intros Hd. apply tree_insert; [done|by rewrite Ed|done].
Qed.

Lemma keeps_remove p : preserves tree_ok (remove p).
Proof.
  apply keeps_wp. intros s Ht. apply wp_bind, wp_faulty. intros [[]|e] s1 Hs1 _; [|by eapply tree_same].
  apply (tree_same _ _ Hs1) in Ht. apply wp_bind, wp_lookup.
  destruct (fs_names s1 !! p) as [[|i]|] eqn:E; [by apply wp_raise| |by apply wp_missing].
  apply tree_delete; [done|by rewrite E].
Qed.

Lemma keeps_fsync_dir p : preserves tree_ok (fsync_dir p).
Proof. apply keeps_wp. intros s Ht. apply wp_fsync_dir. intros r s' Hs. by eapply tree_same. Qed.

Lemma keeps_finally {A} (P : fs → Prop) (m : sys A) c : preserves P m → preserves P c → preserves P (finally_ m c).
Proof.
  intros Hm Hc s Hs. specialize (Hm s Hs). unfold final, finally_ in *. destruct (m s) as [r s1].
  specialize (Hc s1 Hm). unfold final in Hc. by destruct (c s1) as [[]].
Qed.

Lemma keeps_ignore_missing (P : fs → Prop) m : preserves P m → preserves P (ignore_missing m).
Proof. intros Hm. apply preserves_try; [done|]. intros e. by case_goal; intros s. Qed.

#[export] Hint Resolve keeps_attempt keeps_lookup keeps_missing keeps_exists keeps_isdir keeps_mkdir
  keeps_makedirs keeps_open_append keeps_mkstemp keeps_write_sync keeps_read keeps_replace keeps_link
  keeps_remove keeps_fsync_dir keeps_finally keeps_ignore_missing : py.

(** ** Directory listings *)

Lemma scandir_spec dir s dirs files s' :
  scandir dir s = (Ok (dirs, files), s') →
  same_files s s' ∧
  (∀ p, fs_names s !! p = Some NDir → dirname p = dir → p ≠ dir → p ∈ dirs) ∧
  (∀ p i, fs_names s !! p = Some (NFile i) → dirname p = dir → p ≠ dir → p ∈ files).
Proof.
  intros H. assert (Hw : wp (scandir dir) (λ r s', r = Ok (dirs, files) →
    same_files s s' ∧
    (∀ p, fs_names s !! p = Some NDir → dirname p = dir → p ≠ dir → p ∈ dirs) ∧
    (∀ p i, fs_names s !! p = Some (NFile i) → dirname p = dir → p ≠ dir → p ∈ files)) s).
  { apply wp_bind, wp_faulty. intros [[]|e] s1 Hs1 _; [|done]. apply wp_bind, wp_lookup.
    destruct (fs_names s1 !! dir) as [[|i]|]; [|by apply wp_raise|by apply wp_missing].
    unfold wp, outcome, final, entries. simpl. intros [= <- <-]. split; [done|].
    destruct Hs1 as [Hn _]. rewrite <- Hn. split.
    - intros p Hp Hd Hne. apply list_elem_of_fmap. exists (p, NDir). split; [done|].
      unfold children. rewrite !list_elem_of_filter. by rewrite elem_of_map_to_list.
    - intros p i Hp Hd Hne. apply list_elem_of_fmap. exists (p, NFile i). split; [done|].
      unfold children. rewrite !list_elem_of_filter. by rewrite elem_of_map_to_list. }
  unfold wp, outcome, final in Hw. rewrite H in Hw. by apply Hw.
Qed.
