(* ===== verification/FsBackend.v ===== *)
(** * The file system backend

    [FilesystemBackend] of [da/store.py] over [FileSystem]: every operation with
    the system calls it makes in their order, so that a failure between any two
    of them is covered.  The backend keeps the laws of [Backend], hence the store
    theorems hold for a store on disk, as long as the [stat] behind [exists] fails
    only for absent files. *)

From S2P Require Import Prelude PyText TenantIds Backend StoreKeys PosixPath FileSystem.
From Stdlib Require Import Ascii.

(** [os.path.exists] answers [False] for every failure of the underlying [stat],
    not only for an absent file.  [stat_may_fail] says whether a [stat] of
    [FilesystemBackend.exists] can fail for another reason, as in the source it can;
    [exists] alone depends on it, and [law_exists] alone needs that it cannot. *)
Definition os_path_exists (stat_may_fail : bool) (p : path) : sys bool :=
  if stat_may_fail then path_exists p else n ← lookup_name p; mret (bool_decide (is_Some n)).

Section Backend.
Context (root : path) (stat_may_fail : bool).

Definition key_path (key : string) : sys path :=
  lift (match _path root key with Ok p => Ok p | Err e => Err (Raised e) end).

Definition get (key : string) : sys string :=
  try_except (p ← key_path key; read_file p)
    (λ e, if bool_decide (e = OsError ENOENT) then raise (Raised EKey) else raise e).

Definition put_body (handle : nat) (tmp p parent : path) (data : string) : sys unit :=
  _ ← write_sync handle data; _ ← replace tmp p; fsync_dir parent.

Definition put (key data : string) : sys unit :=
  p ← key_path key;
  let parent := dirname p in
  _ ← makedirs (S (length parent)) parent;
  '(handle, tmp) ← mkstemp ".leaf-put-" parent;
  finally_ (put_body handle tmp p parent data) (ignore_missing (remove tmp)).

Definition put_if_absent_body (handle : nat) (tmp p parent : path) (payload : string) : sys unit :=
  _ ← write_sync handle payload;
  created ← try_except (_ ← link tmp p; mret true)
    (λ e, if bool_decide (e = OsError EEXIST) then mret false else raise e);
  existing ← read_file p;
  if negb (bool_decide (existing = payload)) then raise (Raised EImmutableConflict)
  else if (created : bool) then fsync_dir parent else mret tt.

Definition put_if_absent_or_verify (key payload : string) : sys unit :=
  p ← key_path key;
  let parent := dirname p in
  _ ← makedirs (S (length parent)) parent;
  '(handle, tmp) ← mkstemp ".leaf-immutable-" parent;
  finally_ (put_if_absent_body handle tmp p parent payload) (ignore_missing (remove tmp)).

Definition exists_ (key : string) : sys bool := p ← key_path key; os_path_exists stat_may_fail p.

Definition delete_ (key : string) : sys unit := p ← key_path key; ignore_missing (remove p).

(** [os.walk(dir, onerror=_reraise)], the files of every directory below *)
Fixpoint walk (fuel : nat) (dir : path) : sys (list path) :=
  match fuel with
  | O => mret []
  | S n =>
      '(dirs, files) ← scandir dir;
      below ← mapM (walk n) dirs;
      mret (files ++ concat below)
  end.

(** deeper than any name: each level adds a separator and a character *)
Definition walk_fuel (s : fs) : nat :=
  S (foldr Nat.max O ((λ '(p, _), length p) <$> map_to_list (fs_names s))).

Definition walk_all (dir : path) : sys (list path) := λ s, walk (walk_fuel s) dir s.

(** [os.stat] *)
Definition stat (p : path) : sys unit :=
  _ ← attempt; n ← lookup_name p;
  match n with Some _ => mret tt | None => raise_missing p end.

(** every file below [dir] as a key, or [None] for cannot tell *)
Definition keys_below (dir : path) : sys (option (list string)) :=
  probe ← try_except (_ ← stat dir; mret (None : option (option (list string))))
    (λ e, match e with
          | OsError ENOENT => mret (Some (Some []))
          | OsError _ => mret (Some None)
          | Raised _ => raise e
          end);
  match probe with
  | Some answer => mret answer
  | None =>
      try_except (files ← walk_all dir; mret (Some ((λ p, of_chars (relpath p root)) <$> files)))
        (λ e, match e with OsError _ => mret None | Raised _ => raise e end)
  end.

Definition drawing_object_keys (tenant_id drawing_id : string) : sys (option (list string)) :=
  prefix ← lift (match Keys.drawing_prefix (PStr tenant_id) (PStr drawing_id) with
                 | Ok k => Ok k | Err e => Err (Raised (EId e)) end);
  dir ← key_path prefix;
  keys_below dir.

(** ** The lock file *)

(** [_holds_the_live_file(handle, path)] *)
Definition holds_the_live_file (handle : nat) (p : path) : sys bool :=
  f ← next_fault; n ← lookup_name p;
  mret (match f with Some _ => false | None => bool_decide (n = Some (NFile handle)) end).

(** another process removes the lock file *)
Definition retire (p : path) : sys unit :=
  n ← lookup_name p;
  match n with Some (NFile _) => set_names (delete p) | _ => mret tt end.

(** The polling loop of [cross_process_lock]; the deadline is the end of the
    schedule. *)
Fixpoint lock_polls (polls : list poll) (handle : nat) (p : path) : sys nat :=
  match polls with
  | [] => raise (Raised ELockTimeout)
  | Contended :: rest => lock_polls rest handle p
  | LockRefused :: _ => raise (OsError EOTHER)
  | GrantedAfter retired :: rest =>
      _ ← (if retired then retire p else mret tt);
      live ← holds_the_live_file handle p;
      if (live : bool) then mret handle
      else handle' ← open_append p; lock_polls rest handle' p
  end.

(** entering [with backend.cross_process_lock(key)] *)
Definition cross_process_lock (key : string) : sys unit :=
  p ← key_path key;
  _ ← makedirs (S (length (dirname p))) (dirname p);
  polls ← next_polls;
  handle ← open_append p;
  handle ← lock_polls polls handle p;
  set_held (Some (p, handle)).

Definition held : sys (option (path * nat)) := λ s, (Ok (fs_held s), s).

(** [_HeldCheckoutLock.reclaim] on POSIX *)
Definition reclaim (key : string) : sys bool :=
  p ← key_path key;
  h ← held;
  match h with
  | Some (hp, handle) =>
      if negb (bool_decide (hp = p)) then mret false else
      live ← holds_the_live_file handle p;
      if negb (live : bool) then mret false else
      try_except (_ ← remove p; mret true)
        (λ e, match e with
              | OsError ENOENT => mret true
              | OsError _ => mret false
              | Raised _ => raise e
              end)
  | None => mret false
  end.

(** What the store sees of an [OSError]. *)
Definition os_io {A} (m : sys A) : io fs store_error A :=
  λ s, match m s with
       | (Ok a, s') => (Ok a, s')
       | (Err (OsError _), s') => (Err EIO, s')
       | (Err (Raised e), s') => (Err e, s')
       end.

Definition backend : StorageBackend fs := {|
  cross_process_checkout_safe := true;
  b_get := λ k, os_io (get k);
  b_put := λ k d, os_io (put k d);
  b_exists := λ k, os_io (exists_ k);
  b_delete := λ k, os_io (delete_ k);
  b_put_if_absent_or_verify := λ k d, os_io (put_if_absent_or_verify k d);
  b_drawing_object_keys := λ t d, os_io (drawing_object_keys t d);
  b_lock := λ k, os_io (cross_process_lock k);
  b_reclaim := λ k, os_io (reclaim k) |}.

End Backend.

(** ** The laws *)

Section Laws.
Context (ini : path) (segs : list path) (root : path) (root_normal : abs_normal ini segs root).


Definition key_file (k : string) : path := with_sep root ++ chars k.

(** the object of a key is the content of its file *)
Definition fs_object (s : fs) (k : string) : option string := file_at s (key_file k).

Lemma wp_os_io {A} (m : sys A) (Φ : result store_error A → fs → Prop) s :
  wp m (λ r s', Φ match r with
                   | Ok a => Ok a
                   | Err (OsError _) => Err EIO
                   | Err (Raised e) => Err e
                   end s') s → wp (os_io m) Φ s.
Proof. unfold wp, outcome, final, os_io. by destruct (m s) as [[a|[e|e]] s1]. Qed.

Lemma wp_key_path k (Φ : result exn path → fs → Prop) s :
  canonical k = true → Φ (Ok (key_file k)) s → wp (key_path root k) Φ s.
Proof.
  intros Hk H. unfold key_path. by rewrite (path_canonical ini segs root k root_normal Hk).
Qed.

Lemma key_file_ne k k' : k ≠ k' → key_file k ≠ key_file k'.
Proof. intros Hne Heq. by apply Hne, (with_sep_inj root). Qed.

Lemma tmp_not_key k k' prefix name :
  canonical k = true → canonical k' = true → head (chars prefix) = Some "."%char →
  join (dirname (key_file k)) (chars prefix ++ chars name) ≠ key_file k'.
Proof.
  intros Hk Hk' Hp. destruct (chars prefix) as [|c l]; simplify_eq/=.
  by apply (dotted_sibling_not_canonical ini segs).
Qed.

Lemma unchanged_same s s' : same_files s s' → unchanged fs_object s s'.
Proof. intros Hs k _. by apply same_file_at. Qed.

Lemma unchanged_grown s s' : grown s s' → unchanged fs_object s s'.
Proof. intros Hs k _. by apply grown_file_at. Qed.

(** A write to an inode only the temporary name refers to changes no other file. *)
Lemma written_file_at s s' i x tmp q :
  fs_names s !! tmp = Some (NFile i) → (∀ p, fs_names s !! p = Some (NFile i) → p = tmp) →
  fs_names s' = fs_names s → fs_data s' = <[i := x]> (fs_data s) →
  file_at s' q = if bool_decide (q = tmp) then Some x else file_at s q.
Proof.
  intros Htmp Hsole Hn Hd. unfold file_at, contents. rewrite Hn, Hd. case_bool_decide as Hq; [subst|].
  - by rewrite Htmp, lookup_insert_eq.
  - destruct (fs_names s !! q) as [[|j]|] eqn:E; [done| |done].
    rewrite lookup_insert_ne; [done|]. intros ->. by apply Hq, Hsole.
Qed.

Lemma moved_file_at s s' src dst i q :
  moved s s' src dst i → src ≠ dst → q ≠ src →
  file_at s' q = if bool_decide (q = dst) then file_at s src else file_at s q.
Proof.
  intros (Hd & Hsrc & Hn) Hne Hq. unfold file_at, contents. rewrite Hd, Hsrc.
  destruct Hn as [-> | [-> Hdst]]; case_bool_decide; subst.
  - by rewrite lookup_insert_eq.
  - by rewrite lookup_insert_ne, lookup_delete_ne.
  - by rewrite Hdst.
  - done.
Qed.

(** The two writers differ in what they do once the temporary file is there. *)
Lemma wp_staged k prefix (body : nat → path → path → path → sys unit) Φ s :
  canonical k = true → head (chars prefix) = Some "."%char →
  (∀ i tmp s1 s2, grown s s1 → created s1 s2 tmp i →
     (∀ k', canonical k' = true → tmp ≠ key_file k') →
     wp (body i tmp (key_file k) (dirname (key_file k)))
        (λ r s3, ∀ r' s4, (∀ q, q ≠ tmp → file_at s4 q = file_at s3 q) →
           (r' = r ∨ ∃ e, r' = Err e) → Φ r' s4) s2) →
  (∀ e s', unchanged fs_object s s' → Φ (Err e) s') →
  wp (p ← key_path root k;
      let parent := dirname p in
      _ ← makedirs (S (length parent)) parent;
      '(handle, tmp) ← mkstemp prefix parent;
      finally_ (body handle tmp p parent) (ignore_missing (remove tmp))) Φ s.
Proof.
  intros Hk Hp Hbody He. apply wp_bind, wp_key_path; [done|].
  apply wp_bind, wp_makedirs. intros [[]|e] s1 Hg; [|by apply He, unchanged_grown].
  apply wp_bind, wp_mkstemp.
  2:{ intros e s2 Hs. apply He. intros k' Hk'.
      rewrite (unchanged_same _ _ Hs k' Hk'). by apply (unchanged_grown _ _ Hg). }
  intros i s2 name Hc. apply wp_finally.
  eapply wp_mono; [apply (Hbody i _ s1 s2 Hg Hc); intros; by apply tmp_not_key|].
  intros r s3 Hr. apply wp_ignore_missing_remove. intros r2 s4 Hq _ _.
  destruct r2 as [[]|e]; apply Hr; eauto.
Qed.

Lemma created_sole s s' p i q : created s s' p i → fs_names s' !! q = Some (NFile i) → q = p.
Proof.
  intros (_ & _ & Hf & -> & _). destruct (decide (q = p)); [done|].
  rewrite lookup_insert_ne by done. intros H. by apply Hf in H.
Qed.

Lemma created_lookup s s' p i : created s s' p i → fs_names s' !! p = Some (NFile i).
Proof. intros (_ & _ & _ & -> & _). by rewrite lookup_insert_eq. Qed.

Lemma staged_before s s1 s2 tmp i q : grown s s1 → created s1 s2 tmp i → q ≠ tmp → file_at s2 q = file_at s q.
Proof. intros Hg Hc Hq. rewrite (created_file_at s1 s2 tmp i) by done. by apply grown_file_at. Qed.

(** What a write leaves: the target has its old content or [d], every other file
    but the temporary one is as it was. *)
Definition wrote (s s' : fs) (tmp p : path) (d : string) (ok : bool) : Prop :=
  (∀ q, q ≠ tmp → q ≠ p → file_at s' q = file_at s q) ∧
  (file_at s' p = Some d ∨ ok = false ∧ file_at s' p = file_at s p).

Lemma put_body_spec i tmp p parent d s :
  fs_names s !! tmp = Some (NFile i) → (∀ q, fs_names s !! q = Some (NFile i) → q = tmp) → tmp ≠ p →
  wp (put_body i tmp p parent d) (λ r s', wrote s s' tmp p d (is_ok r)) s.
Proof.
  intros Htmp Hsole Hne. apply wp_bind, wp_write_sync. intros r s1 x Hn1 Hd1 Hx.
  assert (Hf1 : ∀ q, file_at s1 q = if bool_decide (q = tmp) then Some x else file_at s q)
    by (intros q; by eapply written_file_at).
  assert (Hf1' : ∀ q, q ≠ tmp → file_at s1 q = file_at s q)
    by (intros q ?; rewrite Hf1; by rewrite bool_decide_eq_false_2).
  destruct r as [[]|e]; [specialize (Hx eq_refl) as ->|by split; [auto|right; auto]].
  apply wp_bind, wp_replace.
  2:{ intros e s2 Hs. split; [intros; rewrite (same_file_at s1); auto|].
      right. split; [done|]. rewrite (same_file_at s1); auto. }
  intros j s2 Hm.
  assert (Hf2 : wrote s s2 tmp p d true).
  { split.
    - intros q ??. rewrite (moved_file_at s1 s2 tmp p j) by done. rewrite bool_decide_eq_false_2 by done. auto.
    - left. rewrite (moved_file_at s1 s2 tmp p j) by done.
      rewrite bool_decide_eq_true_2, Hf1, bool_decide_eq_true_2; done. }
  apply wp_fsync_dir. intros r s3 Hs3. destruct Hf2 as [H1 [H2|[? _]]]; [|done].
  split; [intros; rewrite (same_file_at s2); auto|]. left. by rewrite (same_file_at s2).
Qed.

Lemma fs_put_spec k d s :
  canonical k = true →
  wp (put root k d) (λ r s', frame fs_object k s s' ∧
    (fs_object s' k = Some d ∨ is_ok r = false ∧ fs_object s' k = fs_object s k)) s.
Proof.
  intros Hk. apply (wp_staged k ".leaf-put-" (λ i tmp p parent, put_body i tmp p parent d)); [done..| |].
  - intros i tmp s1 s2 Hg Hc Htmp.
    eapply wp_mono; [apply put_body_spec|].
    + by eapply created_lookup.
    + intros q. by eapply created_sole.
    + by apply Htmp.
    + intros r s3 [Ho Hp] r' s4 Hq Hr'. split.
      * intros k' Hk' Hne. unfold fs_object. pose proof (Htmp k' Hk').
        rewrite Hq, Ho, (staged_before s s1 s2 tmp i); auto using key_file_ne.
      * unfold fs_object. pose proof (Htmp k Hk). rewrite Hq by auto.
        destruct Hp as [|[Hok Hp]]; [auto|]. right. split.
        -- destruct Hr' as [->|[e ->]]; done.
        -- rewrite Hp. apply (staged_before s s1 s2 tmp i); auto.
  - intros e s' Hu. split; [by intros ???; apply Hu|]. right. split; [done|]. by apply Hu.
Qed.

(** What publishing immutable bytes leaves: a file that was there is as it was,
    and the call succeeds only if it holds these bytes. *)
Definition published (s s' : fs) (tmp p : path) (d : string) (ok : bool) : Prop :=
  (∀ q, q ≠ tmp → q ≠ p → file_at s' q = file_at s q) ∧
  match file_at s p with
  | Some old => file_at s' p = Some old ∧ (ok = true → old = d)
  | None => file_at s' p = Some d ∨ ok = false ∧ file_at s' p = None
  end.

Lemma read_back_spec created_ tmp p parent d s s1 :
  (∀ q, q ≠ tmp → q ≠ p → file_at s1 q = file_at s q) →
  (file_at s1 p = file_at s p ∨ file_at s p = None ∧ file_at s1 p = Some d) →
  wp (existing ← read_file p;
      if negb (bool_decide (existing = d)) then raise (Raised EImmutableConflict)
      else if (created_ : bool) then fsync_dir parent else mret tt)
     (λ r s', published s s' tmp p d (is_ok r)) s1.
Proof.
  intros Ho Hp. apply wp_bind.
  assert (Hgen : ∀ ok s3, same_files s1 s3 → (ok = true → file_at s1 p = Some d) →
            published s s3 tmp p d ok).
  { intros ok s3 Hs3 Hok. split; [intros; rewrite (same_file_at s1); auto|].
    rewrite (same_file_at s1 s3) by done. destruct ok.
    - rewrite Hok by done. destruct Hp as [Hp|[-> _]]; [|by left].
      rewrite <- Hp, (Hok eq_refl). done.
    - destruct Hp as [<-|[-> Hp]]; [|by left]. destruct (file_at s1 p); [by split|by right]. }
  apply wp_read; [|by intros e s2 Hs2 _; apply Hgen]. intros x s2 Hs2 Hx.
  case_bool_decide; cbn [negb]; [subst x|by apply wp_raise, Hgen].
  destruct created_; [|by apply wp_ret, Hgen].
  apply wp_fsync_dir. intros r s3 Hs3. apply Hgen; [by etrans|done].
Qed.

Lemma put_if_absent_body_spec i tmp p parent d s :
  fs_names s !! tmp = Some (NFile i) → (∀ q, fs_names s !! q = Some (NFile i) → q = tmp) → tmp ≠ p →
  wp (put_if_absent_body i tmp p parent d) (λ r s', published s s' tmp p d (is_ok r)) s.
Proof.
  intros Htmp Hsole Hne. apply wp_bind, wp_write_sync. intros r s1 x Hn1 Hd1 Hx.
  assert (Hf1 : ∀ q, q ≠ tmp → file_at s1 q = file_at s q)
    by (intros q ?; rewrite (written_file_at s s1 i x tmp) by done; by rewrite bool_decide_eq_false_2).
  assert (Hfail : ∀ s', same_files s1 s' → published s s' tmp p d false).
  { intros s' Hs'. split; [intros; rewrite (same_file_at s1); auto|].
    rewrite (same_file_at s1 s'), Hf1 by done. destruct (file_at s p); [by split|by right]. }
  destruct r as [[]|e]; [specialize (Hx eq_refl) as ->|by apply Hfail].
  apply wp_bind, wp_try, wp_bind, wp_link.
  - intros j s2 Hd2 Hsrc Hdst Hn2. rewrite Hn1, Htmp in Hsrc. injection Hsrc as <-. apply wp_ret.
    apply (read_back_spec true).
    + intros q ??. rewrite <- Hf1 by done. unfold file_at, contents. by rewrite Hd2, Hn2, lookup_insert_ne.
    + right. split; [rewrite <- Hf1 by done; unfold file_at; by rewrite Hdst|].
      unfold file_at, contents. by rewrite Hn2, Hd2, lookup_insert_eq, Hd1, lookup_insert_eq.
  - intros e s2 Hs2. case_bool_decide; [apply wp_ret|apply wp_raise; by apply Hfail].
    pose proof (λ q, same_file_at s1 s2 q Hs2) as Hf2.
    apply (read_back_spec false tmp p parent); [|left; by rewrite Hf2, Hf1]. intros q ??. by rewrite Hf2, Hf1.
Qed.

Lemma put_if_absent_spec k d s :
  canonical k = true →
  wp (put_if_absent_or_verify root k d) (λ r s', frame fs_object k s s' ∧
    match fs_object s k with
    | Some old => fs_object s' k = Some old ∧ (is_ok r = true → old = d)
    | None => fs_object s' k = Some d ∨ is_ok r = false ∧ fs_object s' k = None
    end) s.
Proof.
  intros Hk.
  apply (wp_staged k ".leaf-immutable-" (λ i tmp p parent, put_if_absent_body i tmp p parent d)); [done..| |].
  - intros i tmp s1 s2 Hg Hc Htmp. eapply wp_mono; [apply put_if_absent_body_spec|].
    + by eapply created_lookup.
    + intros q. by eapply created_sole.
    + by apply Htmp.
    + intros r s3 [Ho Hp] r' s4 Hq Hr'. pose proof (Htmp k Hk).
      assert (Hok : is_ok r' = true → is_ok r = true) by (destruct Hr' as [->|[e ->]]; done).
      assert (Hb : file_at s2 (key_file k) = file_at s (key_file k))
        by (apply (staged_before s s1 s2 tmp i); auto).
      split.
      * intros k' Hk' Hne'. unfold fs_object. pose proof (Htmp k' Hk').
        rewrite Hq, Ho, (staged_before s s1 s2 tmp i); auto using key_file_ne.
      * unfold fs_object. rewrite Hq by auto. rewrite Hb in Hp.
        destruct (file_at s (key_file k)); [naive_solver|].
        destruct Hp as [|[Hr Hp]]; [auto|]. right. split; [|done].
        destruct (is_ok r'); [|done]. by rewrite Hok in Hr.
  - intros e s' Hu. split; [by intros ???; apply Hu|]. rewrite (Hu k Hk).
    destruct (fs_object s k); [by split|by right].
Qed.

(** ** The backend keeps the laws *)

Lemma fs_law_get k s : canonical k = true →
  wp (os_io (get root k)) (λ r s', unchanged fs_object s s' ∧
    match r with
    | Ok d => fs_object s k = Some d
    | Err EKey => fs_object s k = None
    | Err _ => True
    end) s.
Proof.
  intros Hk. apply wp_os_io, wp_try, wp_bind, wp_key_path; [done|]. apply wp_read.
  - intros d s' Hs Hd. split; [by apply unchanged_same|done].
  - intros e s' Hs Hn. pose proof (unchanged_same s s' Hs).
    case_bool_decide as He; apply wp_raise; (split; [done|]); [|done]. apply Hn. congruence.
Qed.

Lemma fs_law_exists k s : canonical k = true →
  wp (os_io (exists_ root false k))
     (λ r s', unchanged fs_object s s' ∧ (r = Ok false → fs_object s k = None)) s.
Proof.
  intros Hk. apply wp_os_io, wp_bind, wp_key_path; [done|]. apply wp_bind, wp_lookup, wp_ret.
  split; [done|]. intros [= Hn%bool_decide_eq_false]. unfold fs_object, file_at.
  destruct (fs_names s !! key_file k); [|done]. by destruct Hn.
Qed.

Lemma fs_law_put k d s : canonical k = true →
  wp (os_io (put root k d)) (λ r s', frame fs_object k s s' ∧
    match r with
    | Ok _ => fs_object s' k = Some d
    | Err _ => fs_object s' k = fs_object s k ∨ fs_object s' k = Some d
    end) s.
Proof.
  intros Hk. apply wp_os_io. eapply wp_mono; [by apply fs_put_spec|].
  intros [[]|[e|e]] s' [Hf Hr]; (split; [done|]); naive_solver.
Qed.

Lemma fs_law_delete k s : canonical k = true →
  wp (os_io (delete_ root k)) (λ r s', frame fs_object k s s' ∧
    match r with
    | Ok _ => fs_object s' k = None
    | Err _ => fs_object s' k = fs_object s k ∨ fs_object s' k = None
    end) s.
Proof.
  intros Hk. apply wp_os_io, wp_bind, wp_key_path; [done|].
  apply wp_ignore_missing_remove. intros r s' Ho Hok Hr. split.
  - intros k' _ Hne. by apply Ho, key_file_ne.
  - destruct r as [[]|[e|e]]; [by apply Hok|done..].
Qed.

Lemma fs_law_put_if_absent k d s : canonical k = true →
  wp (os_io (put_if_absent_or_verify root k d)) (λ r s', frame fs_object k s s' ∧
    match fs_object s k with
    | Some old => fs_object s' k = Some old ∧ (r = Ok tt → old = d)
    | None => match r with
              | Ok _ => fs_object s' k = Some d
              | Err _ => fs_object s' k = None ∨ fs_object s' k = Some d
              end
    end) s.
Proof.
  intros Hk. apply wp_os_io. eapply wp_mono; [by apply put_if_absent_spec|].
  intros [[]|[e|e]] s' [Hf Hr]; (split; [done|]); destruct (fs_object s k); naive_solver.
Qed.

Lemma created_frame s s' k i : created s s' (key_file k) i → frame fs_object k s s'.
Proof. intros Hc k' _ Hne. eapply created_file_at; [done|]. by apply key_file_ne. Qed.

Lemma frame_trans k (s1 s2 s3 : fs) :
  frame fs_object k s1 s2 → frame fs_object k s2 s3 → frame fs_object k s1 s3.
Proof. intros H1 H2 k' Hk' Hne. rewrite H2, H1; done. Qed.

Lemma same_frame k s s' : same_files s s' → frame fs_object k s s'.
Proof. intros Hs k' Hk' _. by apply (unchanged_same s s'). Qed.

Lemma wp_open_lock k (Φ : result exn nat → fs → Prop) s :
  (∀ r s', frame fs_object k s s' → Φ r s') → wp (open_append (key_file k)) Φ s.
Proof.
  intros H. apply wp_open_append; intros; apply H; eauto using same_frame, created_frame.
Qed.

Lemma wp_live h p (Φ : result exn bool → fs → Prop) s :
  (∀ b s', same_files s s' → (b = true → fs_names s !! p = Some (NFile h)) → Φ (Ok b) s') →
  wp (holds_the_live_file h p) Φ s.
Proof.
  intros H. apply wp_bind, wp_next_fault. intros f s' Hs. apply wp_bind, wp_lookup, wp_ret, H; [done|].
  destruct f; [done|]. destruct Hs as [-> _]. by intros ?%bool_decide_eq_true.
Qed.

Lemma lock_polls_frame polls h k s0 s :
  frame fs_object k s0 s → wp (lock_polls polls h (key_file k)) (λ _ s', frame fs_object k s0 s') s.
Proof.
  revert h s. induction polls as [|[|retired|] polls IH]; intros h s Hf; [by apply wp_raise|by apply IH| |by apply wp_raise].
  cbn [lock_polls].
  assert (Hrest : ∀ s1, frame fs_object k s0 s1 →
    wp (live ← holds_the_live_file h (key_file k);
        if (live : bool) then mret h
        else handle' ← open_append (key_file k); lock_polls polls handle' (key_file k))
       (λ _ s', frame fs_object k s0 s') s1).
  { intros s1 Hf1. apply wp_bind, wp_live. intros [] s2 Hs2 _.
    - apply wp_ret. eapply frame_trans; [done|by apply same_frame].
    - apply wp_bind, wp_open_lock. intros [h'|e] s3 Hf3;
        [apply IH|]; (eapply frame_trans; [done|]; eapply frame_trans; [by apply same_frame|done]). }
  apply wp_bind. destruct retired; [|by apply wp_ret, Hrest]. apply wp_bind, wp_lookup.
  destruct (fs_names s !! key_file k) as [[|i]|]; [by apply wp_ret, Hrest| |by apply wp_ret, Hrest].
  apply Hrest. eapply frame_trans; [done|]. intros k' _ Hne. eapply removed_file_at; [by split|]. by apply key_file_ne.
Qed.

Lemma fs_law_lock k s : canonical k = true →
  wp (os_io (cross_process_lock root k)) (λ _ s', frame fs_object k s s') s.
Proof.
  intros Hk. apply wp_os_io, wp_bind, wp_key_path; [done|].
  apply wp_bind, wp_makedirs. intros r s1 Hg1.
  assert (Hf1 : frame fs_object k s s1) by (intros k' Hk' _; by apply (unchanged_grown s s1)).
  destruct r as [[]|e]; [|done]. apply wp_bind. unfold wp at 1, outcome, final, next_polls. simpl.
  apply wp_bind, wp_open_lock. intros [h|e] s2 Hf2.
  - apply wp_bind. eapply wp_mono; [apply (lock_polls_frame _ h k s)|].
    + eapply frame_trans; [done|]. intros k' Hk' Hne. by apply Hf2.
    + by intros [h'|e] s3 Hf3.
  - eapply frame_trans; [done|]. intros k' Hk' Hne. by apply Hf2.
Qed.

Lemma fs_law_reclaim k s : canonical k = true →
  wp (os_io (reclaim root k)) (λ _ s', frame fs_object k s s') s.
Proof.
  intros Hk. apply wp_os_io, wp_bind, wp_key_path; [done|]. apply wp_bind.
  unfold wp at 1, outcome, final, held. simpl.
  destruct (fs_held s) as [[hp h]|]; [|by apply wp_ret]. case_wp; [by apply wp_ret|].
  apply wp_bind, wp_live. intros b s1 Hs1 _. case_wp; [by apply wp_ret, same_frame|].
  apply wp_try, wp_bind, wp_remove.
  - intros s2 Hr. apply wp_ret. eapply frame_trans; [by apply same_frame|].
    intros k' _ Hne. eapply removed_file_at; [done|]. by apply key_file_ne.
  - intros e s2 Hs2 _. assert (frame fs_object k s s2) by (apply same_frame; by etrans).
    destruct e as [[]|]; first [by apply wp_ret|by apply wp_raise].
Qed.

(** ** Listing a drawing *)

Lemma walk_same n dir s0 : preserves (same_files s0) (walk n dir).
Proof.
  assert (Hscan : ∀ d, preserves (same_files s0) (scandir d)).
  { intros d. apply preserves_bind.
    - apply keeps_wp. intros s Hs. apply wp_faulty. intros r s' Hs' _. by etrans.
    - intros []. apply preserves_bind; [by intros s|]. by intros [[|i]|] s. }
  revert dir. induction n as [|n IH]; intros dir; [by intros s|]. cbn [walk].
  apply preserves_bind; [done|]. intros [dirs files]. apply preserves_bind; [|by intros ? s].
  induction dirs as [|d dirs IHd]; [by intros s|]. simpl.
  apply preserves_bind; [apply IH|]. intros x. apply preserves_bind; [done|]. by intros ? s.
Qed.

(** [q] is found [n] directories below [dir]. *)
Fixpoint found (s : fs) (n : nat) (dir q : path) : Prop :=
  match n with
  | O => dirname q = dir ∧ q ≠ dir
  | S n => ∃ d, fs_names s !! d = Some NDir ∧ dirname d = dir ∧ d ≠ dir ∧ found s n d q
  end.

Lemma mapM_walk_elem n dirs d s s1 below :
  mapM (walk n) dirs s = (Ok below, s1) → d ∈ dirs →
  ∃ fs_ s2 s3, same_files s s2 ∧ walk n d s2 = (Ok fs_, s3) ∧ fs_ ∈ below.
Proof.
  revert s s1 below. induction dirs as [|x dirs IH]; intros s s1 below H Hd; [by apply not_elem_of_nil in Hd|].
  simpl in H. apply io_bind_inv in H as (a & sa & Ha & H). apply io_bind_inv in H as (r & sb & Hr & H).
  injection H as <- <-. apply elem_of_cons in Hd as [->|Hd].
  - exists a, s, sa. split; [done|]. split; [done|]. left.
  - pose proof (walk_same n x s s ltac:(done)) as Hs. unfold final in Hs. rewrite Ha in Hs. simpl in Hs.
    destruct (IH sa sb r Hr Hd) as (f & s2 & s3 & Hs2 & Hf & Hin). exists f, s2, s3.
    split; [by etrans|]. split; [done|]. by right.
Qed.

Lemma walk_complete m n dir q i s files s' :
  walk n dir s = (Ok files, s') → m < n → found s m dir q → fs_names s !! q = Some (NFile i) → q ∈ files.
Proof.
  revert n dir s files s'. induction m as [|m IH]; intros [|n] dir s files s' Hw Hlt Hf Hq; try lia; cbn [walk] in Hw;
    apply io_bind_inv in Hw as ([dirs fl] & s1 & Hsc & Hw); apply io_bind_inv in Hw as (below & s2 & Hb & Hw);
    injection Hw as <- <-; apply scandir_spec in Hsc as (Hs1 & Hdirs & Hfiles); apply elem_of_app.
  - left. destruct Hf. by eapply Hfiles.
  - right. destruct Hf as (d & Hd & Hdd & Hne & Hf).
    destruct (mapM_walk_elem n dirs d s1 s2 below Hb) as (f & s3 & s4 & Hs3 & Hwd & Hin); [by apply Hdirs|].
    assert (Hs : same_files s s3) by (by etrans). destruct Hs as [Hn _].
    apply list_elem_of_In, in_concat. exists f. split; [by apply list_elem_of_In|]. apply list_elem_of_In.
    eapply IH; [exact Hwd|lia| |by rewrite Hn].
    revert Hf. clear -Hn. revert d. induction m as [|m IH]; intros d; [done|]. simpl.
    intros (d' & H1 & H2 & H3 & H4). exists d'. rewrite Hn. eauto.
Qed.

(** In a tree, every directory a path goes through is there. *)
Lemma tree_ancestor s ds ext :
  tree_ok s → Forall real_segment (ds ++ ext) → ext ≠ [] →
  is_Some (fs_names s !! (ini ++ sep_join (ds ++ ext))) → fs_names s !! (ini ++ sep_join ds) = Some NDir.
Proof.
  intros Ht. destruct root_normal as (Hi & _ & _).
  induction ext as [|e ext IH] using rev_ind; [done|]. intros Hr _ [k Hk].
  rewrite app_assoc in Hr, Hk. apply Forall_app in Hr as [Hr Hre]. inversion_clear Hre as [|?? He _].
  pose proof (Ht _ _ Hk) as Hp. rewrite dirname_snoc in Hp by done.
  assert (Hne : ini ++ sep_join (ds ++ ext) ≠ ini ++ sep_join ((ds ++ ext) ++ [e])).
  { intros Heq%(f_equal length). pose proof (snoc_longer ini (ds ++ ext) e He). lia. }
  specialize (Hp Hne). destruct ext as [|e' ext]; [by rewrite app_nil_r in Hp|].
  apply IH; [done|done|by eexists].
Qed.

(** In a tree, a file is found below every directory its path goes through. *)
Lemma tree_found s pre mid leaf n :
  tree_ok s → Forall real_segment (pre ++ mid ++ [leaf]) →
  fs_names s !! (ini ++ sep_join (pre ++ mid ++ [leaf])) = Some n →
  found s (length mid) (ini ++ sep_join pre) (ini ++ sep_join (pre ++ mid ++ [leaf])).
Proof.
  intros Ht. pose proof root_normal as (Hi & _ & _).
  revert pre. induction mid as [|m mid IH]; intros pre Hr Hk.
  - simpl in *. apply Forall_app in Hr as [Hr Hl]. inversion_clear Hl.
    rewrite dirname_snoc by done. split; [done|]. intros Heq%(f_equal length).
    pose proof (snoc_longer ini pre leaf ltac:(done)). lia.
  - cbn [length found]. exists (ini ++ sep_join (pre ++ [m])).
    assert (Hr' := Hr). apply Forall_app in Hr' as [Hrp Hrm]. inversion_clear Hrm as [|?? Hm Hrm'].
    assert (Ha : pre ++ (m :: mid) ++ [leaf] = (pre ++ [m]) ++ mid ++ [leaf]) by (by rewrite <- app_assoc).
    rewrite Ha in Hr, Hk |- *.
    split; [apply (tree_ancestor s _ (mid ++ [leaf])); [done|done|by destruct mid|by eexists]|].
    split; [by apply dirname_snoc|]. split; [|by apply IH].
    intros Heq%(f_equal length). pose proof (snoc_longer ini pre m Hm). lia.
Qed.

Lemma walk_fuel_enough s p n : fs_names s !! p = Some n → length p < walk_fuel s.
Proof.
  intros Hp. unfold walk_fuel. apply Nat.lt_succ_r, foldr_max_le, list_elem_of_fmap.
  exists (p, n). split; [done|]. by apply elem_of_map_to_list.
Qed.

(** The keys of one directory, as far as a walk answers. *)
Lemma walk_keys_complete s dir pre k files s' :
  tree_ok s → canonical k = true → dir = ini ++ sep_join (segs ++ pre) →
  (∃ rest, rest ≠ [] ∧ Keys.split_at slash (chars k) = pre ++ rest) →
  is_Some (fs_object s k) → walk_all dir s = (Ok files, s') →
  k ∈ (λ p, of_chars (relpath p root)) <$> files.
Proof.
  intros Ht Hk -> (rest & Hne & Hsp) [d Hd] Hw. pose proof (canonical_real k Hk) as Hreal.
  unfold fs_object, file_at in Hd. destruct root_normal as (Hi & Hs & Hroot).
  assert (Hq : key_file k = ini ++ sep_join ((segs ++ pre) ++ rest)).
  { unfold key_file. rewrite (key_file_segs ini segs) by done. by rewrite Hsp, app_assoc. }
  destruct (fs_names s !! key_file k) as [[|i]|] eqn:E; [done| |done].
  apply list_elem_of_fmap. exists (key_file k). split.
  - unfold key_file. rewrite (key_file_segs ini segs), Hroot, relpath_below by (done || apply split_at_cons).
    by rewrite sep_join_split, of_chars_chars.
  - destruct rest as [|leaf mid _] using rev_ind; [done|]. rewrite Hq in E |- *.
    assert (Hr : Forall real_segment ((segs ++ pre) ++ mid ++ [leaf])).
    { rewrite <- app_assoc. apply Forall_app. split; [done|]. by rewrite <- Hsp. }
    eapply (walk_complete (length mid)); [exact Hw| |by eapply tree_found|exact E].
    pose proof (walk_fuel_enough _ _ _ E) as Hfuel. rewrite length_app in Hfuel.
    pose proof (length_sep_join _ Hr) as Hl. rewrite !length_app in Hl. lia.
Qed.

Lemma split_app_sep a b : Keys.split_at slash (a ++ slash :: b) = Keys.split_at slash a ++ Keys.split_at slash b.
Proof.
  rewrite <- (sep_join_split a) at 1. apply split_sep_join; [apply split_at_no_sep|apply split_at_cons].
Qed.

Lemma okey_split t d o :
  Keys.split_at slash (chars (okey t d o)) =
  Keys.split_at slash (chars ("tenants/" +:+ t +:+ "/drawings/" +:+ d)) ++
  Keys.split_at slash (chars (IdFacts.object_rest o)).
Proof.
  rewrite <- split_app_sep. f_equal. unfold okey, IdFacts.key_text.
  rewrite chars_of_chars, !chars_app, <- !app_assoc. reflexivity.
Qed.

Lemma prefix_canonical t d : valid t → valid d →
  canonical ("tenants/" +:+ t +:+ "/drawings/" +:+ d) = true.
Proof.
  intros Ht Hd. pose proof (okey_canonical t d IdFacts.OManifest Ht Hd I) as H.
  unfold canonical in *. rewrite okey_split, forallb_app in H. by apply andb_true_iff in H as [H _].
Qed.

Lemma stat_missing_inv p s e s' : stat p s = (Err (OsError e), s') → e = ENOENT → fs_names s !! p = None.
Proof.
  intros H ->. assert (Hw : wp (stat p) (λ r _, r = Err (OsError ENOENT) → fs_names s !! p = None) s).
  { apply wp_bind, wp_faulty. intros [[]|e'] s1 Hs1 He1; [|by intros [= ->]; specialize (He1 _ eq_refl)].
    apply wp_bind, wp_lookup. destruct Hs1 as [Hn1 _]. rewrite Hn1.
    destruct (fs_names s !! p); [by apply wp_ret|]. by apply wp_missing. }
  unfold wp, outcome in Hw. rewrite H in Hw. by apply Hw.
Qed.

Lemma stat_same p s0 : preserves (same_files s0) (stat p).
Proof.
  apply preserves_bind; [apply keeps_wp; intros s Hs; apply wp_faulty; intros; by etrans|].
  intros _. apply preserves_bind; [by intros s|]. by intros [] s.
Qed.

Lemma keys_below_complete dir pre k s ks s' :
  tree_ok s → canonical k = true → dir = ini ++ sep_join (segs ++ pre) →
  (∃ rest, rest ≠ [] ∧ Keys.split_at slash (chars k) = pre ++ rest) →
  keys_below root dir s = (Ok (Some ks), s') → is_Some (fs_object s k) → k ∈ ks.
Proof.
  intros Ht Hk Hdir Hpre H Hobj. unfold keys_below, try_except, mbind, io_mbind, mret, io_mret in H.
  pose proof (stat_same dir s s ltac:(done)) as Hs1. unfold final in Hs1.
  destruct (stat dir s) as [[[]|[e|e]] s1] eqn:Est; simpl in Hs1.
  - destruct (walk_all dir s1) as [[files|[e|e]] s2] eqn:Ew; [|done..].
    injection H as <- <-. refine (walk_keys_complete s1 _ _ _ _ _ _ Hk Hdir Hpre _ Ew).
    + by eapply tree_same.
    + destruct Hobj as [x Hx]. exists x. unfold fs_object in *. by rewrite (same_file_at s).
  - destruct (decide (e = ENOENT)) as [->|]; [|by destruct e].
    pose proof (stat_missing_inv _ _ _ _ Est eq_refl) as Hnone. exfalso.
    destruct Hpre as (rest & Hne & Hsp). destruct Hobj as [x Hx]. unfold fs_object, file_at in Hx.
    destruct (fs_names s !! key_file k) as [[|i]|] eqn:E; [done| |done].
    assert (Hq : key_file k = ini ++ sep_join ((segs ++ pre) ++ rest)).
    { unfold key_file. rewrite (key_file_segs ini segs) by done. by rewrite Hsp, app_assoc. }
    rewrite Hq in E. pose proof (canonical_real _ Hk) as Hreal.
    rewrite Hdir, (tree_ancestor s _ rest) in Hnone; [done|done| |done|by eexists].
    rewrite <- app_assoc, <- Hsp. apply Forall_app. by destruct root_normal as (_ & ? & _).
  - done.
Qed.

Lemma object_keys_complete t d o s ks s' :
  tree_ok s → valid t → valid d → IdFacts.object_ok o →
  drawing_object_keys root t d s = (Ok (Some ks), s') →
  is_Some (fs_object s (okey t d o)) → okey t d o ∈ ks.
Proof.
  intros Ht Hvt Hvd Ho H Hobj. unfold drawing_object_keys in H.
  rewrite drawing_prefix_valid in H by done.
  apply io_bind_inv in H as (pf & s0 & Hpf & H). apply io_bind_inv in H as (dir & s1 & Hkp & H).
  unfold lift in Hpf. apply pair_eq in Hpf as [Hpf <-]. apply (inj Ok) in Hpf as <-.
  unfold key_path, lift in Hkp. rewrite (path_canonical ini segs) in Hkp by (done || by apply prefix_canonical).
  apply pair_eq in Hkp as [Hkp <-]. apply (inj Ok) in Hkp as <-.
  eapply keys_below_complete; [done|by apply okey_canonical|by apply key_file_segs| |done|done].
  eexists. split; [|apply okey_split]. apply split_at_cons.
Qed.

Lemma keys_below_same dir s0 : preserves (same_files s0) (keys_below root dir).
Proof.
  apply preserves_bind.
  - apply preserves_try; [apply preserves_bind; [apply stat_same|by intros _ s]|]. by intros [[]|] s.
  - intros [a|]; [by intros s|]. apply preserves_try; [|by intros [] s].
    apply preserves_bind; [|by intros ? s]. intros s. apply walk_same.
Qed.

Lemma fs_law_object_keys t d s :
  wp (os_io (drawing_object_keys root t d)) (λ _ s', unchanged fs_object s s') s.
Proof.
  apply wp_os_io. cut (preserves (same_files s) (drawing_object_keys root t d)).
  { intros H. apply unchanged_same. by apply H. }
  apply preserves_bind; [by intros s'|]. intros pf. apply preserves_bind; [by intros s'|].
  intros dir. apply keys_below_same.
Qed.

(** With failing [stat]s, as in the source: an object that is there is denied only by
    a [stat] that failed. *)
Lemma fs_exists_failing k s : canonical k = true →
  wp (os_io (exists_ root true k))
     (λ r s', unchanged fs_object s s' ∧ (r = Ok false → fs_object s k = None ∨ is_Some (default None (head (fs_faults s))))) s.
Proof.
  intros Hk. apply wp_os_io, wp_bind, wp_key_path; [done|]. unfold os_path_exists, path_exists. apply wp_bind.
  unfold wp, next_fault, outcome, final. simpl. split; [done|].
  destruct (default None (head (fs_faults s))); [by right; eauto|]. intros [= Hn%bool_decide_eq_false]. left.
  unfold fs_object, file_at. destruct (fs_names s !! key_file k); [|done]. by destruct Hn.
Qed.

Definition laws : @BackendLaws fs (backend root false) :=
  @Build_BackendLaws fs (backend root false) fs_object
    fs_law_get fs_law_exists fs_law_put fs_law_delete fs_law_put_if_absent
    fs_law_lock fs_law_reclaim fs_law_object_keys.

End Laws.

(** ** Theorems *)

(** (C25) The file system backend keeps the contract the drawing store relies on, but
    for failing [stat]s: with the object of a key read as the content of its file,
    [get], [put], [put_if_absent_or_verify], [delete], the lock file and the listing
    satisfy their laws whatever schedule of failing system calls they meet (a torn
    write, a failing rename, an fsync that fails after the rename, a temporary file
    that cannot be removed) and whatever the root directory is; [exists] satisfies its
    law when its [stat] fails for absent files only, and otherwise (the second part:
    [stat] failing on the schedule too, as it may in the source) changes nothing and
    denies an object that is there only when that [stat] failed. *)
Theorem filesystem_keeps_contract cwd root_dir :
  isabs cwd = true →
  ∃ L : @BackendLaws fs (backend (backend_root cwd root_dir) false),
    (∀ s k, @object _ _ L s k = file_at s (with_sep (backend_root cwd root_dir) ++ chars k)) ∧
    ∀ s k, canonical k = true →
      wp (@b_exists fs (backend (backend_root cwd root_dir) true) k)
         (λ r s', unchanged (@object _ _ L) s s' ∧
            (r = Ok false → @object _ _ L s k = None ∨ is_Some (default None (head (fs_faults s))))) s.
Proof.
  intros Hc. destruct (abspath_normal cwd root_dir Hc) as (ini & segs & Hr).
  exists (laws ini segs _ Hr). split; [done|]. intros s k Hk. by apply (fs_exists_failing ini segs).
Qed.

Lemma filesystem_keeps_contract_witness :
  ∃ L : @BackendLaws fs (backend (backend_root (chars "/srv") (chars "data")) false),
    ∀ s k, @object _ _ L s k = file_at s (with_sep (backend_root (chars "/srv") (chars "data")) ++ chars k).
Proof.
  destruct (filesystem_keeps_contract (chars "/srv") (chars "data") eq_refl) as (L & HL & _). exists L. exact HL.
Defined.

(** One call of the backend. *)
Inductive fs_call (root : path) (st : bool) : fs → fs → Prop :=
| call_get k s : fs_call root st s (final (get root k) s)
| call_put k d s : fs_call root st s (final (put root k d) s)
| call_absent k d s : fs_call root st s (final (put_if_absent_or_verify root k d) s)
| call_exists k s : fs_call root st s (final (exists_ root st k) s)
| call_delete k s : fs_call root st s (final (delete_ root k) s)
| call_keys t d s : fs_call root st s (final (drawing_object_keys root t d) s)
| call_lock k s : fs_call root st s (final (cross_process_lock root k) s)
| call_reclaim k s : fs_call root st s (final (reclaim root k) s).

Lemma keeps_key_path root k : preserves tree_ok (key_path root k).
Proof. by intros s. Qed.

Lemma keeps_same {A} (m : sys A) : (∀ s, preserves (same_files s) m) → preserves tree_ok m.
Proof. intros Hm s Ht. eapply tree_same; [|done]. by apply (Hm s). Qed.

Lemma keeps_live h p : preserves tree_ok (holds_the_live_file h p).
Proof. by intros s. Qed.

Lemma keeps_retire p : preserves tree_ok (retire p).
Proof.
  intros s Ht. unfold final, retire, mbind, io_mbind, lookup_name.
  destruct (fs_names s !! p) as [[|i]|] eqn:E; [done| |done]. apply tree_delete; [done|by rewrite E].
Qed.

Lemma keeps_lock_polls polls h p : preserves tree_ok (lock_polls polls h p).
Proof.
  revert h. induction polls as [|[|[]|] polls IH]; intros h; cbn [lock_polls]; [by intros s|done| | |by intros s].
  all: apply preserves_bind; [first [apply keeps_retire|by intros s]|]; intros _;
    apply preserves_bind; [apply keeps_live|]; intros []; [by intros s|];
    apply preserves_bind; [apply keeps_open_append|done].
Qed.

#[export] Hint Resolve keeps_key_path keeps_live keeps_retire keeps_lock_polls : py.

Lemma fs_call_tree root st s s' : tree_ok s → fs_call root st s s' → tree_ok s'.
Proof.
  intros Ht Hcall. destruct Hcall as [k s|k d s|k d s|k s|k s|t d s|k s|k s]; revert s Ht;
    match goal with |- ∀ s, tree_ok s → tree_ok (final ?m s) => change (preserves tree_ok m) end.
  - unfold get. keep.
  - unfold put, put_body. keep.
  - unfold put_if_absent_or_verify. apply preserves_bind; [keep|]. intros p.
    apply preserves_bind; [keep|]. intros _. apply preserves_bind; [keep|]. intros [h tmp].
    apply keeps_finally; [unfold put_if_absent_body|]; keep.
  - unfold exists_, os_path_exists. keep.
  - unfold delete_. keep.
  - apply keeps_same. intros s0. apply preserves_bind; [by intros s'|]. intros pf.
    apply preserves_bind; [by intros s'|]. intros dir. apply keys_below_same.
  - unfold cross_process_lock. apply preserves_bind; [keep|]. intros p.
    apply preserves_bind; [keep|]. intros _. apply preserves_bind; [by intros s|]. intros polls.
    apply preserves_bind; [keep|]. intros h. apply preserves_bind; [keep|]. by intros h' s.
  - unfold reclaim. apply preserves_bind; [keep|]. intros p. apply preserves_bind; [by intros s|].
    intros [[hp h]|]; [|by intros s]. case_goal; [by intros s|]. keep.
Qed.

(** The tree invariant: from any well-formed disk, whatever sequence of
    backend calls runs and whatever system calls fail, every name still sits in
    an existing directory (a file is never a parent, a directory is never
    removed), so walking the tree reaches every file. *)
Theorem disk_stays_a_tree root st s s' :
  tree_ok s → star (fs_call root st) s s' → tree_ok s'.
Proof. intros Ht Hs. eapply star_invariant; [|exact Hs|exact Ht]. intros x y. apply fs_call_tree. Qed.

(** [drawing_object_keys] never under-reports.  On any disk the backend can
    have produced, if the scan answers a set at all, every stored object of the
    drawing (manifest, version, plan, bundle) is in it; a scan that could not
    look everywhere answers [None] instead.  So the empty set, on which the
    reclaim of a lock file rests, proves that nothing is left. *)
Theorem listing_never_underreports cwd root_dir st s0 s t d o ks s' :
  isabs cwd = true → tree_ok s0 → star (fs_call (backend_root cwd root_dir) st) s0 s →
  valid t → valid d → IdFacts.object_ok o →
  drawing_object_keys (backend_root cwd root_dir) t d s = (Ok (Some ks), s') →
  is_Some (fs_object (backend_root cwd root_dir) s (okey t d o)) → okey t d o ∈ ks.
Proof.
  intros Hc Ht Hs. destruct (abspath_normal cwd root_dir Hc) as (ini & segs & Hr).
  apply (object_keys_complete ini segs); [done|].
  eapply star_invariant; [|exact Hs|exact Ht]. intros x y. apply fs_call_tree.
Qed.
