(* ===== verification/LockFiles.v ===== *)
(** * The checkout lock of one drawing

    The two layers of [_legacy_checkout_guard] of [da/store.py].  [Threads] is
    the reference-counted map of thread locks of one process
    ([_legacy_checkout_lock]); [LockFile] is the protocol on the lock file
    shared by processes ([_try_os_lock], [_holds_the_live_file],
    [_HeldCheckoutLock.reclaim], [cross_process_lock]), as a step relation over
    names, inodes, open descriptors and [flock] owners, with crashes.  Both are
    shown to let one caller at a time into the section. *)

From S2P Require Import Prelude.

(** a closed decidable fact, by computation *)
Ltac by_decide := apply (bool_decide_unpack _); vm_compute; exact I.

Lemma star_refl_eq {A} (R : A → A → Prop) a b : a = b → star R a b.
Proof. intros ->. constructor. Qed.

Module LockFile.

(** Where a caller of [cross_process_lock] stands; [h] is the inode its
    descriptor refers to. *)
Inductive pc :=
| Opened (h : nat)                       (** polling for the lock *)
| Locked (h : nat)                       (** lock taken, name not yet checked *)
| Inside (h : nat) (on_release : bool)   (** in the section; [reclaim_on_release] *)
| Retired (h : nat)                      (** has unlinked the file: its last act *)
| Released (h : nat)                     (** closed, about to re-check the name *)
| Removing.                              (** re-checked, about to unlink *)

#[export] Instance pc_eq_dec : EqDecision pc.
Proof. solve_decision. Defined.

(** The lock file of one drawing: what its name resolves to, who owns the lock of
    an inode, and the callers of all processes. *)
Record state := State {
  name : option nat;
  owner : gmap nat nat;
  callers : gmap nat pc }.

Definition init : state := State None ∅ ∅.

(** the open descriptor of a caller *)
Definition handle (c : pc) : option nat :=
  match c with
  | Opened h | Locked h | Inside h _ | Retired h => Some h
  | Released _ | Removing => None
  end.

Definition open_on (s : state) (i : nat) : Prop :=
  map_Exists (λ _ c, handle c = Some i) (callers s).

#[export] Instance open_on_dec s i : Decision (open_on s i).
Proof. unfold open_on. apply _. Defined.

Definition goto (p : nat) (c : pc) (s : state) : state :=
  State (name s) (owner s) (<[p := c]> (callers s)).

(** [open(path, "a+b")]; a new file gets an inode no name and no descriptor uses *)
Definition open_append (p : nat) (fresh : nat) (s : state) : state :=
  match name s with
  | Some i => goto p (Opened i) s
  | None => goto p (Opened fresh) (State (Some fresh) (owner s) (callers s))
  end.

(** [flock(LOCK_EX | LOCK_NB)]: [None] is contention *)
Definition _try_os_lock (h p : nat) (s : state) : option state :=
  match owner s !! h with
  | None => Some (State (name s) (<[h := p]> (owner s)) (callers s))
  | Some _ => None
  end.

Definition _file_identity (h : nat) : option nat := Some h.
Definition _path_identity (s : state) : option nat := name s.
Definition _holds_the_live_file (s : state) (h : nat) : bool :=
  bool_decide (_path_identity s = _file_identity h).

(** closing the descriptor drops its lock *)
Definition close (p : nat) (s : state) : state :=
  State (name s) (filter (λ '(_, q), q ≠ p) (owner s)) (delete p (callers s)).

(** [_HeldCheckoutLock.reclaim], when the unlink does not fail *)
Definition reclaim (can_unlink_open : bool) (p h : nat) (b : bool) (s : state) : state :=
  if negb (_holds_the_live_file s h) then s
  else if negb can_unlink_open then goto p (Inside h true) s
  else goto p (Retired h) (State None (owner s) (callers s)).

(** [_release_reclaim]: the name is compared with the identity of the closed
    descriptor; the unlink itself is refused while any process has the file open *)
Definition release_check (p h : nat) (s : state) : state :=
  if bool_decide (_path_identity s = _file_identity h) then goto p Removing s else close p s.

Inductive step (can_unlink_open : bool) : state → state → Prop :=
| s_open p i s : callers s !! p = None → ¬ open_on s i →
    step can_unlink_open s (open_append p i s)
| s_lock p h s s1 : callers s !! p = Some (Opened h) → _try_os_lock h p s = Some s1 →
    step can_unlink_open s (goto p (Locked h) s1)
| s_timeout p h s : callers s !! p = Some (Opened h) → step can_unlink_open s (close p s)
| s_enter p h s : callers s !! p = Some (Locked h) → _holds_the_live_file s h = true →
    step can_unlink_open s (goto p (Inside h false) s)
  (** retired while waiting, or the name could not be read: around again *)
| s_retry p h s : callers s !! p = Some (Locked h) → step can_unlink_open s (close p s)
| s_reclaim p h b s : callers s !! p = Some (Inside h b) →
    step can_unlink_open s (reclaim can_unlink_open p h b s)
| s_leave p h s : callers s !! p = Some (Inside h false) ∨ callers s !! p = Some (Retired h) →
    step can_unlink_open s (close p s)
| s_leave_reclaiming p h s : callers s !! p = Some (Inside h true) →
    step can_unlink_open s (goto p (Released h) (close p s))
| s_release_check p h s : callers s !! p = Some (Released h) →
    step can_unlink_open s (release_check p h s)
| s_release_remove p j s : callers s !! p = Some Removing → name s = Some j → ¬ open_on s j →
    step can_unlink_open s (State None (owner s) (delete p (callers s)))
| s_release_refused p s : callers s !! p = Some Removing → step can_unlink_open s (close p s)
  (** the process dies: the kernel closes its descriptors *)
| s_crash p s : step can_unlink_open s (close p s).

(** ** Invariant *)

(** The inode a caller has locked. *)
Definition locks (c : pc) : option nat :=
  match c with Locked h | Inside h _ | Retired h => Some h | _ => None end.

Record Inv (s : state) : Prop := {
  inv_owner : ∀ h p, owner s !! h = Some p ↔ ∃ c, callers s !! p = Some c ∧ locks c = Some h;
  inv_inside : ∀ p h b, callers s !! p = Some (Inside h b) → name s = Some h }.

Lemma init_Inv : Inv init.
Proof. split; simpl; [|done]. intros h p. rewrite lookup_empty. split; [done|]. by intros (c & ? & _). Qed.

Lemma close_Inv p s : Inv s → Inv (close p s).
Proof.
  intros [Ho Hi]. split; simpl.
  - intros h q. rewrite map_lookup_filter_Some, Ho. split.
    + intros [(c & Hc & Hl) Hne]. exists c. by rewrite lookup_delete_ne.
    + intros (c & [Hne Hc]%lookup_delete_Some & Hl). split; [by exists c|done].
  - intros q h b [_ Hq]%lookup_delete_Some. by eapply Hi.
Qed.

(** Moving between two states that hold the same lock keeps the owners right. *)
Lemma goto_Inv p c c' n s :
  Inv s → callers s !! p = Some c → locks c = locks c' →
  (∀ h b, c' = Inside h b → n = Some h) →
  (∀ q h b, q ≠ p → callers s !! q = Some (Inside h b) → n = Some h) →
  Inv (goto p c' (State n (owner s) (callers s))).
Proof.
  intros [Ho Hi] Hc Hl Hin Hoth. split; simpl.
  - intros h q. rewrite Ho. destruct (decide (q = p)) as [->|Hne].
    + rewrite lookup_insert_eq, Hc. split; intros (x & [= <-] & Hx); eexists; (split; [done|congruence]).
    + by rewrite lookup_insert_ne.
  - intros q h b. destruct (decide (q = p)) as [->|Hne].
    + rewrite lookup_insert_eq. intros [= ->]. by eapply Hin.
    + rewrite lookup_insert_ne by done. by apply Hoth.
Qed.

(** A caller that holds no lock yet. *)
Lemma new_Inv p c n s :
  Inv s → callers s !! p = None → locks c = None →
  (∀ q h b, callers s !! q = Some (Inside h b) → n = Some h) →
  Inv (goto p c (State n (owner s) (callers s))).
Proof.
  intros [Ho Hi] Hc Hl Hoth. split; simpl.
  - intros h q. rewrite Ho. destruct (decide (q = p)) as [->|Hne].
    + rewrite lookup_insert_eq, Hc. split; intros (x & Hx & Hlx); [done|]. congruence.
    + by rewrite lookup_insert_ne.
  - intros q h b. destruct (decide (q = p)) as [->|Hne].
    + rewrite lookup_insert_eq. by intros [= ->].
    + rewrite lookup_insert_ne by done. by apply Hoth.
Qed.

Lemma Inv_owner_unique s p q h c c' :
  Inv s → callers s !! p = Some c → callers s !! q = Some c' → locks c = Some h → locks c' = Some h → p = q.
Proof.
  intros [Ho _] Hp Hq Hl Hl'. assert (owner s !! h = Some p) by (apply Ho; eauto).
  assert (owner s !! h = Some q) by (apply Ho; eauto). congruence.
Qed.

Lemma not_open_handle s i p c : ¬ open_on s i → callers s !! p = Some c → handle c ≠ Some i.
Proof. intros Hn Hc Hh. apply Hn. by exists p, c. Qed.

Lemma state_eta s : s = State (name s) (owner s) (callers s).
Proof. by destruct s. Qed.

Lemma reclaim_Inv u p h b s : Inv s → callers s !! p = Some (Inside h b) → Inv (reclaim u p h b s).
Proof.
  intros Hs Hp. unfold reclaim, _holds_the_live_file. case_bool_decide as Hlive; simpl; [|done].
  destruct u; simpl.
  - eapply goto_Inv; [done|done|done|done|]. intros q h' b' Hne Hq. exfalso. apply Hne.
    pose proof (inv_inside s Hs q h' b' Hq) as Hn'. unfold _path_identity, _file_identity in Hlive.
    rewrite Hlive in Hn'. injection Hn' as <-. by eapply Inv_owner_unique.
  - rewrite (state_eta s). eapply goto_Inv; [done|done|done| |].
    + intros h' b' [= <- _]. done.
    + intros q h' b' _ Hq. by eapply inv_inside.
Qed.

Lemma step_Inv u s s' : Inv s → step u s s' → Inv s'.
Proof.
  intros Hs Hstep. destruct Hstep as [p i s Hp Hun|p h s s1 Hp Hl|p h s Hp|p h s Hp Hlive|p h s Hp|p h b s Hp
    |p h s Hp|p h s Hp|p h s Hp|p j s Hp Hn Hun|p s Hp|p s]; try (by apply close_Inv).
  - unfold open_append. destruct (name s) as [j|] eqn:En.
    + rewrite (state_eta s). apply new_Inv; [done|done|done|]. intros. by eapply inv_inside.
    + apply new_Inv; [done|done|done|]. intros q h b Hq. by rewrite (inv_inside s Hs q h b Hq) in En.
  - unfold _try_os_lock in Hl. destruct (owner s !! h) eqn:E; [done|]. injection Hl as <-.
    destruct Hs as [Ho Hi]. split; simpl.
    + intros i q. destruct (decide (i = h)) as [->|Hne].
      * rewrite lookup_insert_eq. split.
        -- intros [= <-]. exists (Locked h). by rewrite lookup_insert_eq.
        -- intros (c & Hc & Hlc). destruct (decide (q = p)) as [->|Hqp]; [done|].
           rewrite lookup_insert_ne in Hc by done.
           assert (owner s !! h = Some q) by (apply Ho; eauto). congruence.
      * rewrite lookup_insert_ne, Ho by done. destruct (decide (q = p)) as [->|Hqp].
        -- rewrite lookup_insert_eq, Hp. split; intros (c & [= <-] & Hlc); simplify_eq/=.
        -- by rewrite lookup_insert_ne.
    + intros q i b. destruct (decide (q = p)) as [->|Hqp]; [by rewrite lookup_insert_eq|].
      rewrite lookup_insert_ne by done. apply Hi.
  - rewrite (state_eta s). eapply goto_Inv; [done|done|done| |].
    + intros h' b [= <- _]. unfold _holds_the_live_file in Hlive. by apply bool_decide_eq_true in Hlive.
    + intros q h' b _ Hq. by eapply inv_inside.
  - by apply reclaim_Inv.
  - apply (close_Inv p) in Hs. rewrite (state_eta (close p s)). apply new_Inv; [done| |done|].
    + simpl. by rewrite lookup_delete_eq.
    + intros. by eapply (inv_inside (close p s)).
  - unfold release_check. case_bool_decide; [|by apply close_Inv]. rewrite (state_eta s).
    eapply goto_Inv; [done|done|done|done|]. intros. by eapply inv_inside.
  - split; simpl.
    + intros h q. rewrite (inv_owner s Hs). split.
      * intros (c & Hc & Hl). exists c. rewrite lookup_delete_ne; [done|]. intros ->. by simplify_eq.
      * intros (c & [_ Hc]%lookup_delete_Some & Hl). by exists c.
    + intros q h b [_ Hq]%lookup_delete_Some. pose proof (inv_inside s Hs q h b Hq) as Hn'.
      rewrite Hn in Hn'. injection Hn' as ->. by destruct (not_open_handle s h q _ Hun Hq).
Qed.

Lemma reachable_Inv u s : star (step u) init s → Inv s.
Proof. intros H. eapply star_invariant; [|exact H|exact init_Inv]. intros x y. apply step_Inv. Qed.

(** ** Theorems *)

(** (C9) Mutual exclusion across processes: under any interleaving of callers
    that open, poll, time out, are sent around again, retire the lock file from
    inside the section, remove it after release, or die at any point, at most one
    caller is inside the section of a drawing, and it holds the lock of the very
    file the name resolves to. *)
Theorem lock_file_excludes u s p q h k b c :
  star (step u) init s →
  callers s !! p = Some (Inside h b) → callers s !! q = Some (Inside k c) →
  p = q ∧ name s = Some h ∧ owner s !! h = Some p.
Proof.
  intros Hs%reachable_Inv Hp Hq. pose proof (inv_inside s Hs p h b Hp) as Hn.
  pose proof (inv_inside s Hs q k c Hq) as Hn'. rewrite Hn in Hn'. injection Hn' as <-.
  split; [by eapply Inv_owner_unique|]. split; [done|]. apply (inv_owner s Hs). eauto.
Qed.

(** Two callers, the second parked on the file the first retires. *)
Definition handover : state :=
  let s := open_append 2 0 (open_append 1 0 init) in
  let s := goto 1 (Inside 0 false) (goto 1 (Locked 0) (State (name s) {[0 := 1]} (callers s))) in
  goto 2 (Inside 1 false) (goto 2 (Locked 1)
    (let s := open_append 2 1 (close 2 (goto 2 (Locked 0)
       (let s := close 1 (reclaim true 1 0 false s) in State (name s) {[0 := 2]} (callers s)))) in
     State (name s) {[1 := 2]} (callers s))).

Lemma handover_reached : star (step true) init handover.
Proof.
  eapply star_step; [apply (s_open true 1 0); [reflexivity|by_decide]|].
  eapply star_step; [apply (s_open true 2 1); [reflexivity|by_decide]|].
  eapply star_step; [eapply (s_lock true 1 0); vm_compute; reflexivity|].
  eapply star_step; [apply (s_enter true 1 0); reflexivity|].
  eapply star_step; [apply (s_reclaim true 1 0 false); reflexivity|].
  eapply star_step; [apply (s_leave true 1 0); right; reflexivity|].
  eapply star_step; [eapply (s_lock true 2 0); vm_compute; reflexivity|].
  eapply star_step; [apply (s_retry true 2 0); reflexivity|].
  eapply star_step; [apply (s_open true 2 1); [reflexivity|by_decide]|].
  eapply star_step; [eapply (s_lock true 2 1); vm_compute; reflexivity|].
  eapply star_step; [apply (s_enter true 2 1); reflexivity|].
  apply star_refl_eq. vm_compute. reflexivity.
Qed.

Lemma lock_file_excludes_witness :
  2 = 2 ∧ name handover = Some 1 ∧ owner handover !! 1 = Some 2.
Proof.
  apply (lock_file_excludes true handover 2 2 1 1 false false);
    [exact handover_reached|vm_compute; reflexivity|vm_compute; reflexivity].
Defined.

(** an inode nobody uses *)
Definition unused_inode (s : state) : nat :=
  fresh (list_to_set (omap (λ x : nat * pc, handle x.2) (map_to_list (callers s))) : gset nat).

Lemma unused_inode_spec s : ¬ open_on s (unused_inode s).
Proof.
  intros (p & c & Hc & Hh). apply (is_fresh (list_to_set (omap (λ x : nat * pc, handle x.2)
    (map_to_list (callers s))) : gset nat)).
  apply elem_of_list_to_set, list_elem_of_omap. exists (p, c). by rewrite elem_of_map_to_list.
Qed.

Lemma locks_handle c h : locks c = Some h → handle c = Some h.
Proof. by destruct c. Qed.

(** *** One caller on its own *)

(** The loop of [cross_process_lock], one of its own acts at a time: open the file,
    poll for the lock, check that the file is live, go around again when it is not.
    [pick] is the inode a new file gets. *)
Definition caller_step (pick : state → nat) (p : nat) (s : state) : state :=
  match callers s !! p with
  | None => open_append p (pick s) s
  | Some (Opened h) => match _try_os_lock h p s with Some s1 => goto p (Locked h) s1 | None => s end
  | Some (Locked h) => if _holds_the_live_file s h then goto p (Inside h false) s else close p s
  | Some _ => s
  end.

Fixpoint alone (pick : state → nat) (p n : nat) (s : state) : state :=
  match n with O => s | S n' => alone pick p n' (caller_step pick p s) end.

(** still on its way in *)
Definition entering (c : option pc) : Prop :=
  match c with None | Some (Opened _) | Some (Locked _) => True | _ => False end.

Definition own_files (p : nat) (s : state) : Prop :=
  ∀ h r, name s = Some h ∨ callers s !! p = Some (Opened h) → owner s !! h = Some r → r = p.

Section Alone.
Context (pick : state → nat) (pick_fresh : ∀ s, ¬ open_on s (pick s)).

(** Each act is a step of the protocol, or a poll that finds the lock taken. *)
Lemma caller_step_step u p s : entering (callers s !! p) → caller_step pick p s = s ∨ step u s (caller_step pick p s).
Proof.
  unfold caller_step. destruct (callers s !! p) as [[h|h| | | |]|] eqn:Hp; try done; intros _.
  - destruct (_try_os_lock h p s) as [s1|] eqn:Hl; [right; by eapply s_lock|by left].
  - right. destruct (_holds_the_live_file s h) eqn:Hv; [by apply s_enter|by apply (s_retry u p h)].
  - right. by apply s_open.
Qed.

Lemma alone_enter p s :
  Inv s → callers s !! p = None → own_files p s → ∃ h, callers (alone pick p 3 s) !! p = Some (Inside h false).
Proof.
  intros Hs Hp Hfree. set (i := pick s). assert (Hi : ¬ open_on s i) by apply pick_fresh. set (h := default i (name s)).
  assert (Hown : owner s !! h = None).
  { apply eq_None_not_Some. intros [q Hq]. pose proof Hq as (c & Hc & Hl)%(inv_owner s Hs).
    unfold h in *. destruct (name s) as [j|] eqn:E; simpl in *.
    - assert (q = p) as -> by (apply (Hfree j); [by left|done]). congruence.
    - apply locks_handle in Hl. by apply (not_open_handle s i q c). }
  assert (Hopen : caller_step pick p s = goto p (Opened h) (State (Some h) (owner s) (callers s))).
  { unfold caller_step. rewrite Hp. unfold open_append, h. destruct (name s) eqn:E; simpl; [|done].
    rewrite (state_eta s) at 1. by rewrite E. }
  exists h. simpl. rewrite Hopen. unfold caller_step at 2. simpl. rewrite lookup_insert_eq. unfold _try_os_lock. simpl. rewrite Hown.
  unfold caller_step. simpl. rewrite lookup_insert_eq. unfold _holds_the_live_file, _path_identity, _file_identity. simpl.
  rewrite bool_decide_true by done. simpl. by rewrite lookup_insert_eq.
Qed.

Lemma close_own p s : own_files p s → own_files p (close p s).
Proof.
  intros H h r [Hn|Hp] Ho; simpl in *; [|by rewrite lookup_delete_eq in Hp].
  apply map_lookup_filter_Some in Ho as [Ho Hne]. destruct Hne. by apply (H h); [left|].
Qed.

Lemma alone_locked p h s :
  Inv s → callers s !! p = Some (Locked h) → own_files p s →
  ∃ n k, (n ≤ 4)%nat ∧ callers (alone pick p n s) !! p = Some (Inside k false).
Proof.
  intros Hs Hp Hf. destruct (_holds_the_live_file s h) eqn:Hlive.
  - exists 1%nat, h. split; [lia|]. simpl. unfold caller_step. rewrite Hp, Hlive. simpl. by rewrite lookup_insert_eq.
  - destruct (alone_enter p (close p s)) as [k Hk]; [by apply close_Inv|simpl; by rewrite lookup_delete_eq|by apply close_own|].
    exists 4%nat, k. split; [lia|]. change (alone pick p 4 s) with (alone pick p 3 (caller_step pick p s)).
    unfold caller_step. by rewrite Hp, Hlive.
Qed.

Lemma alone_opened p h s :
  Inv s → callers s !! p = Some (Opened h) → own_files p s →
  ∃ n k, (n ≤ 5)%nat ∧ callers (alone pick p n s) !! p = Some (Inside k false).
Proof.
  intros Hs Hp Hf. assert (Hown : owner s !! h = None).
  { apply eq_None_not_Some. intros [r Hr]. assert (r = p) as -> by (apply (Hf h); [by right|done]).
    apply (inv_owner s Hs) in Hr as (c & Hc & Hl). rewrite Hp in Hc. by injection Hc as <-. }
  set (s1 := caller_step pick p s).
  assert (Hs1 : s1 = goto p (Locked h) (State (name s) (<[h := p]> (owner s)) (callers s))).
  { unfold s1, caller_step, _try_os_lock. by rewrite Hp, Hown. }
  assert (Hstep : step true s s1).
  { rewrite Hs1. eapply s_lock; [done|]. unfold _try_os_lock. by rewrite Hown. }
  destruct (alone_locked p h s1) as (n & k & Hn & Hk); [by eapply step_Inv|by rewrite Hs1; simpl; rewrite lookup_insert_eq| |].
  - rewrite Hs1. intros j r [Hj|Hj] Ho; simpl in *; [|by rewrite lookup_insert_eq in Hj].
    destruct (decide (j = h)) as [->|Hne]; [by rewrite lookup_insert_eq in Ho; injection Ho|].
    rewrite lookup_insert_ne in Ho by done. apply (Hf j); [by left|done].
  - exists (S n), k. split; [lia|done].
Qed.

(** (C36) A dead process never wedges a drawing.  Whatever state the callers have
    reached, let the process [q] die that owns, if anyone does, the live lock file
    and the file [p] is polling.  Then [p], anywhere on its way in and with no act of
    anybody else, is inside the section after at most five of its own acts: it takes
    the lock, goes around once if its file was retired meanwhile, opens or creates
    the file, locks it and finds it live. *)
Theorem crashed_holder_never_wedges u s p q :
  star (step u) init s → entering (callers s !! p) → p ≠ q →
  (∀ h r, name s = Some h ∨ callers s !! p = Some (Opened h) → owner s !! h = Some r → r = p ∨ r = q) →
  ∃ n h, (n ≤ 5)%nat ∧ callers (alone pick p n (close q s)) !! p = Some (Inside h false).
Proof.
  intros Hs%reachable_Inv He Hne Hq. apply (close_Inv q) in Hs.
  assert (Hf : own_files p (close q s)).
  { intros h r Hh [Ho Hr]%map_lookup_filter_Some. simpl in Hh. rewrite lookup_delete_ne in Hh by done.
    destruct (Hq h r Hh Ho) as [->| ->]; done. }
  assert (Hp : callers (close q s) !! p = callers s !! p) by (simpl; by rewrite lookup_delete_ne).
  destruct (callers s !! p) as [[h|h| | | |]|]; try done.
  - by eapply alone_opened.
  - destruct (alone_locked p h (close q s)) as (n & k & Hn & Hk); [done..|]. exists n, k. split; [lia|done].
  - destruct (alone_enter p (close q s)) as [k Hk]; [done..|]. exists 3%nat, k. split; [lia|done].
Qed.
End Alone.

(** Caller 2 polls the file that caller 1 retires; caller 1 dies before it closes it. *)
Definition stale_wait : state :=
  let s := open_append 2 0 (open_append 1 0 init) in
  let s := goto 1 (Inside 0 false) (goto 1 (Locked 0) (State (name s) {[0 := 1]} (callers s))) in
  reclaim true 1 0 false s.

Lemma stale_wait_reached : star (step true) init stale_wait.
Proof.
  eapply star_step; [apply (s_open true 1 0); [reflexivity|by_decide]|].
  eapply star_step; [apply (s_open true 2 1); [reflexivity|by_decide]|].
  eapply star_step; [eapply (s_lock true 1 0); vm_compute; reflexivity|].
  eapply star_step; [apply (s_enter true 1 0); reflexivity|].
  eapply star_step; [apply (s_reclaim true 1 0 false); reflexivity|].
  apply star_refl_eq. vm_compute. reflexivity.
Qed.

Lemma crashed_holder_never_wedges_witness :
  callers stale_wait !! 2 = Some (Opened 0) ∧ name stale_wait = None ∧
  ∃ n h, (n ≤ 5)%nat ∧ callers (alone unused_inode 2 n (close 1 stale_wait)) !! 2 = Some (Inside h false).
Proof.
  split; [vm_compute; reflexivity|]. split; [reflexivity|].
  apply (crashed_holder_never_wedges unused_inode unused_inode_spec true stale_wait 2 1 stale_wait_reached);
    [exact I|discriminate|].
  intros h r [Hn|Hc] Ho; [discriminate Hn|]. vm_compute in Hc. injection Hc as <-. vm_compute in Ho. injection Ho as <-. by right.
Defined.

(** five acts it needs here *)
Example stale_wait_takes_five :
  ∃ h, callers (alone unused_inode 2 4 (close 1 stale_wait)) !! 2 = Some (Locked h) ∧
       callers (alone unused_inode 2 5 (close 1 stale_wait)) !! 2 = Some (Inside h false).
Proof. eexists. split; vm_compute; reflexivity. Qed.

End LockFile.

(** ** The thread locks of one process *)

Module Threads.

(** A thread between entering and leaving [_legacy_checkout_lock]: it has been
    handed [lock] for [key], and may have acquired it. *)
Inductive tpc :=
| Ref (key : string) (lock : nat)
| Acquired (key : string) (lock : nat).

(** [_LEGACY_CHECKOUT_LOCKS] maps a key to its entry [[lock, count]]; locks are
    objects, here numbered in the order they are made. *)
Record state := State {
  entries : gmap string (nat * Z);
  made : nat;
  held : gmap nat nat;
  threads : gmap nat tpc }.

Definition init : state := State ∅ 0 ∅ ∅.

(** entering the context manager, under the guard lock *)
Definition enter (key : string) (t : nat) (s : state) : state :=
  let '(lock, count, made') :=
    match entries s !! key with
    | Some (lock, count) => (lock, count, made s)
    | None => (made s, 0%Z, S (made s))
    end in
  State (<[key := (lock, count + 1)%Z]> (entries s)) made' (held s) (<[t := Ref key lock]> (threads s)).

(** leaving it, under the guard lock *)
Definition leave (key : string) (t : nat) (s : state) : state :=
  let entries' :=
    match entries s !! key with
    | Some (lock, count) =>
        if (count - 1 <=? 0)%Z then delete key (entries s)
        else <[key := (lock, count - 1)%Z]> (entries s)
    | None => entries s
    end in
  State entries' (made s) (held s) (delete t (threads s)).

(** [thread_lock.acquire], and its release *)
Definition acquire (t : nat) (s : state) : option state :=
  match threads s !! t with
  | Some (Ref key lock) =>
      match held s !! lock with
      | None => Some (State (entries s) (made s) (<[lock := t]> (held s)) (<[t := Acquired key lock]> (threads s)))
      | Some _ => None
      end
  | _ => None
  end.

Definition release (lock : nat) (s : state) : state :=
  State (entries s) (made s) (delete lock (held s)) (threads s).

Inductive step : state → state → Prop :=
| t_enter t key s : threads s !! t = None → step s (enter key t s)
| t_acquire t s s' : acquire t s = Some s' → step s s'
| t_timeout t key lock s : threads s !! t = Some (Ref key lock) → step s (leave key t s)
| t_exit t key lock s : threads s !! t = Some (Acquired key lock) → step s (leave key t (release lock s)).

(** ** Invariant *)

Definition key_of (c : tpc) : string := match c with Ref k _ | Acquired k _ => k end.
Definition lock_of (c : tpc) : nat := match c with Ref _ l | Acquired _ l => l end.

(** the threads interested in a key *)
Definition interested (ts : gmap nat tpc) (k : string) : gmap nat tpc := filter (λ x, key_of x.2 = k) ts.

Record Inv (s : state) : Prop := {
  inv_entry : ∀ t c, threads s !! t = Some c → ∃ n, entries s !! key_of c = Some (lock_of c, n);
  inv_count : ∀ k l n, entries s !! k = Some (l, n) → n = Z.of_nat (size (interested (threads s) k)) ∧ (0 < n)%Z;
  inv_made : ∀ k l n, entries s !! k = Some (l, n) → l < made s;
  inv_distinct : ∀ k k' l n n', entries s !! k = Some (l, n) → entries s !! k' = Some (l, n') → k = k';
  inv_held : ∀ t k l, threads s !! t = Some (Acquired k l) → held s !! l = Some t }.

Lemma interested_new ts t c k :
  ts !! t = None →
  size (interested (<[t := c]> ts) k) = (if bool_decide (key_of c = k) then 1 else 0) + size (interested ts k).
Proof.
  intros Ht. unfold interested. case_bool_decide.
  - rewrite map_filter_insert_True by done. apply map_size_insert_None. by apply map_lookup_filter_None; left.
  - rewrite map_filter_insert_False by done. by rewrite delete_id.
Qed.

Lemma interested_delete ts t c k :
  ts !! t = Some c →
  size (interested ts k) = (if bool_decide (key_of c = k) then 1 else 0) + size (interested (delete t ts) k).
Proof.
  intros Ht. rewrite <- (insert_delete_id ts t c Ht) at 1. apply interested_new. by rewrite lookup_delete_eq.
Qed.

Lemma interested_update ts t c c' k :
  ts !! t = Some c → key_of c' = key_of c → size (interested (<[t := c']> ts) k) = size (interested ts k).
Proof.
  intros Ht Hk. rewrite (interested_delete ts t c k Ht), <- Hk, <- insert_delete_eq.
  apply interested_new. by rewrite lookup_delete_eq.
Qed.

Lemma init_counted : Inv init.
Proof. split; by intros. Qed.

(** A thread that waits for, or holds, a lock of another key is not concerned. *)
Lemma enter_Inv key t s : Inv s → threads s !! t = None → Inv (enter key t s).
Proof.
  intros [He Hc Hm Hd Hh] Ht. unfold enter.
  set (x := match entries s !! key with Some (l, n) => (l, n, made s) | None => (made s, 0%Z, S (made s)) end).
  assert (Hx : ∃ l n m, x = (l, n, m) ∧ made s ≤ m ∧ l < m ∧ n = Z.of_nat (size (interested (threads s) key)) ∧
     (∀ l' n', entries s !! key = Some (l', n') → l' = l) ∧
     (∀ k' n', entries s !! k' = Some (l, n') → k' = key)).
  { unfold x. destruct (entries s !! key) as [[l n]|] eqn:E.
    - exists l, n, (made s). split; [done|]. split; [done|]. split; [by eapply Hm|].
      split; [by apply (Hc key l)|]. split; [by intros l' n' [= <- _]|]. intros k' n' Hk'. by eapply Hd.
    - exists (made s), 0%Z, (S (made s)). split; [done|]. do 2 (split; [lia|]). split.
      + assert (interested (threads s) key = ∅) as ->; [|done]. apply map_empty.
        intros t'. apply map_lookup_filter_None. right. intros c Hc' Hk. simpl in Hk. destruct (He t' c Hc') as [n Hn]. by rewrite Hk, E in Hn.
      + split; [done|]. intros k' n' Hk'. apply Hm in Hk'. lia. }
  destruct Hx as (l & n & m & -> & Hmm & Hlm & Hn & Hsame & Hkey). split; simpl.
  - intros t' c. destruct (decide (t' = t)) as [->|Hne].
    + rewrite lookup_insert_eq. intros [= <-]. simpl. rewrite lookup_insert_eq. eauto.
    + rewrite lookup_insert_ne by done. intros Hc'. destruct (He t' c Hc') as [n' Hn'].
      destruct (decide (key_of c = key)) as [Hk|Hk].
      * rewrite Hk in *. rewrite lookup_insert_eq. rewrite (Hsame _ _ Hn'). eauto.
      * rewrite lookup_insert_ne by done. eauto.
  - intros k l' n'. rewrite interested_new by done. simpl. destruct (decide (k = key)) as [->|Hk].
    + rewrite lookup_insert_eq, bool_decide_eq_true_2 by done. intros [= <- <-]. lia.
    + rewrite lookup_insert_ne, bool_decide_eq_false_2 by congruence. apply Hc.
  - intros k l' n'. destruct (decide (k = key)) as [->|Hk].
    + rewrite lookup_insert_eq. by intros [= <- <-].
    + rewrite lookup_insert_ne by done. intros Hk'%Hm. lia.
  - intros k k' l' n1 n2. destruct (decide (k = key)) as [->|Hk], (decide (k' = key)) as [->|Hk'];
      rewrite ?lookup_insert_eq, ?lookup_insert_ne by done; [done|..].
    + intros [= <- <-] H. symmetry. by eapply Hkey.
    + intros H [= <- <-]. by eapply Hkey.
    + apply Hd.
  - intros t' k l'. destruct (decide (t' = t)) as [->|Hne]; [by rewrite lookup_insert_eq|].
    rewrite lookup_insert_ne by done. apply Hh.
Qed.

Lemma leave_Inv t c s :
  Inv s → threads s !! t = Some c → Inv (leave (key_of c) t s).
Proof.
  intros [He Hc Hm Hd Hh] Ht. destruct (He t c Ht) as [n Hn]. unfold leave. rewrite Hn.
  destruct (Hc _ _ _ Hn) as [Hcnt Hpos]. pose proof (interested_delete _ _ _ (key_of c) Ht) as Hdel.
  rewrite bool_decide_eq_true_2 in Hdel by done.
  assert (Hoth : ∀ k, k ≠ key_of c → size (interested (delete t (threads s)) k) = size (interested (threads s) k)).
  { intros k Hk. rewrite (interested_delete _ _ _ k Ht). by rewrite bool_decide_eq_false_2. }
  destruct (Z.leb_spec (n - 1) 0) as [Hz|Hz]; split; simpl.
  - intros t' c' [Hne Hc']%lookup_delete_Some. destruct (He t' c' Hc') as [n' Hn'].
    destruct (decide (key_of c' = key_of c)) as [Hk|Hk]; [|exists n'; by rewrite lookup_delete_ne].
    exfalso. assert (Hin : interested (delete t (threads s)) (key_of c) !! t' = Some c').
    { apply map_lookup_filter_Some. split; [|done]. by rewrite lookup_delete_ne. }
    assert (H0 : size (interested (delete t (threads s)) (key_of c)) = 0) by lia.
    apply map_size_empty_inv in H0. by rewrite H0, lookup_empty in Hin.
  - intros k l n' [Hne Hk]%lookup_delete_Some. rewrite Hoth by done. by eapply Hc.
  - intros k l n' [_ Hk]%lookup_delete_Some. by eapply Hm.
  - intros k k' l n1 n2 [_ H1]%lookup_delete_Some [_ H2]%lookup_delete_Some. by eapply Hd.
  - intros t' k l [_ H]%lookup_delete_Some. by eapply Hh.
  - intros t' c' [Hne Hc']%lookup_delete_Some. destruct (He t' c' Hc') as [n' Hn'].
    destruct (decide (key_of c' = key_of c)) as [Hk|Hk]; [|exists n'; by rewrite lookup_insert_ne].
    rewrite Hk in *. rewrite lookup_insert_eq. exists (n - 1)%Z. rewrite Hn in Hn'. congruence.
  - intros k l n'. destruct (decide (k = key_of c)) as [->|Hk].
    + rewrite lookup_insert_eq. intros [= <- <-]. lia.
    + rewrite lookup_insert_ne by done. rewrite Hoth by done. apply Hc.
  - intros k l n'. destruct (decide (k = key_of c)) as [->|Hk].
    + rewrite lookup_insert_eq. intros [= <- <-]. by eapply Hm.
    + rewrite lookup_insert_ne by done. apply Hm.
  - intros k k' l n1 n2. destruct (decide (k = key_of c)) as [->|Hk], (decide (k' = key_of c)) as [->|Hk'];
      rewrite ?lookup_insert_eq, ?lookup_insert_ne by done; [done|..].
    + intros [= <- <-] H. by eapply Hd.
    + intros H [= <- <-]. by eapply Hd.
    + apply Hd.
  - intros t' k l [_ H]%lookup_delete_Some. by eapply Hh.
Qed.

Lemma release_Inv l s :
  Inv s → (∀ t k, threads s !! t ≠ Some (Acquired k l)) → Inv (release l s).
Proof.
  intros [He Hc Hm Hd Hh] Hno. split; simpl; [done..|]. intros t k l' Ht.
  rewrite lookup_delete_ne; [by eapply Hh|]. intros ->. by eapply Hno.
Qed.

Lemma acquire_Inv t s s' : Inv s → acquire t s = Some s' → Inv s'.
Proof.
  intros [He Hc Hm Hd Hh] H. unfold acquire in H. destruct (threads s !! t) as [[k l|]|] eqn:Ht; [|done..].
  destruct (held s !! l) eqn:Hl; [done|]. injection H as <-. split; simpl.
  - intros t' c. destruct (decide (t' = t)) as [->|Hne].
    + rewrite lookup_insert_eq. intros [= <-]. apply (He t _ Ht).
    + rewrite lookup_insert_ne by done. apply He.
  - intros k' l' n. rewrite (interested_update _ t (Ref k l)) by done. apply Hc.
  - done.
  - done.
  - intros t' k' l'. destruct (decide (t' = t)) as [->|Hne].
    + rewrite lookup_insert_eq. intros [= <- <-]. by rewrite lookup_insert_eq.
    + rewrite lookup_insert_ne by done. intros Ht'%Hh. rewrite lookup_insert_ne; [done|]. congruence.
Qed.

Lemma step_counted s s' : Inv s → step s s' → Inv s'.
Proof.
  intros Hs Hstep. destruct Hstep as [t key s0 Ht|t s0 s1 H|t key lock s0 Ht|t key lock s0 Ht].
  - by apply enter_Inv.
  - by eapply acquire_Inv.
  - exact (leave_Inv t (Ref key lock) s0 Hs Ht).
  - change (leave key t (release lock s0)) with (release lock (leave key t s0)).
    apply release_Inv; [exact (leave_Inv t (Acquired key lock) s0 Hs Ht)|].
    change (threads (leave key t s0)) with (delete t (threads s0)).
    intros t' k [Hne Ht']%lookup_delete_Some. apply Hne.
    pose proof (inv_held s0 Hs t key lock Ht). pose proof (inv_held s0 Hs t' k lock Ht'). congruence.
Qed.

Lemma reachable_counted s : star step init s → Inv s.
Proof. intros H. eapply star_invariant; [|exact H|exact init_counted]. intros x y. apply step_counted. Qed.

(** The thread half of the guard: of the threads of one process, at most one
    at a time has acquired the lock of a drawing (every thread interested in it
    has been handed the same lock object, whatever threads came and went), and
    the map holds exactly the drawings some thread is interested in right now,
    each with the number of those threads. *)
Theorem thread_lock_excludes_and_is_reclaimed s :
  star step init s →
  (∀ t t' k l l', threads s !! t = Some (Acquired k l) → threads s !! t' = Some (Acquired k l') → t = t') ∧
  (∀ k, is_Some (entries s !! k) ↔ ∃ t c, threads s !! t = Some c ∧ key_of c = k) ∧
  (∀ k l n, entries s !! k = Some (l, n) → n = Z.of_nat (size (interested (threads s) k))).
Proof.
  intros Hs%reachable_counted. split_and!.
  - intros t t' k l l' Ht Ht'. destruct (inv_entry s Hs t _ Ht) as [n Hn].
    destruct (inv_entry s Hs t' _ Ht') as [n' Hn']. simpl in *. assert (l' = l) as -> by congruence.
    pose proof (inv_held s Hs _ _ _ Ht). pose proof (inv_held s Hs _ _ _ Ht'). congruence.
  - intros k. split.
    + intros [[l n] Hk]. destruct (inv_count s Hs k l n Hk) as [Hn Hpos].
      destruct (map_choose (interested (threads s) k)) as (t & c & Htc).
      { intros E. rewrite E, map_size_empty in Hn. simpl in Hn. lia. }
      apply map_lookup_filter_Some in Htc as [? ?]. eauto.
    + intros (t & c & Ht & <-). destruct (inv_entry s Hs t c Ht) as [n Hn]. eauto.
  - intros k l n Hk. by apply (inv_count s Hs k l n).
Qed.

(** Two threads wait for one drawing, a third works on another; the first leaves. *)
Definition three_threads : state :=
  let s := enter "acme/roof" 2 (enter "acme/wall" 3 (enter "acme/roof" 1 init)) in
  let s := default s (acquire 1 s) in
  leave "acme/roof" 1 (release 0 s).

Lemma three_threads_reached : star step init three_threads.
Proof.
  eapply star_step; [apply (t_enter 1 "acme/roof"); reflexivity|].
  eapply star_step; [apply (t_enter 3 "acme/wall"); reflexivity|].
  eapply star_step; [apply (t_enter 2 "acme/roof"); reflexivity|].
  eapply star_step; [eapply (t_acquire 1); vm_compute; reflexivity|].
  eapply star_step; [apply (t_exit 1 "acme/roof" 0); vm_compute; reflexivity|].
  apply star_refl_eq. vm_compute. reflexivity.
Qed.

Lemma thread_lock_excludes_and_is_reclaimed_witness :
  entries three_threads !! "acme/roof"%string = Some (0, 1%Z) ∧
  ∃ t c, threads three_threads !! t = Some c ∧ key_of c = "acme/roof"%string.
Proof.
  assert (H : entries three_threads !! "acme/roof"%string = Some (0, 1%Z)) by (vm_compute; reflexivity).
  split; [exact H|].
  apply (thread_lock_excludes_and_is_reclaimed three_threads three_threads_reached). by exists (0, 1%Z).
Defined.

End Threads.
