(* ===== verification/DrawingStore.v ===== *)
(** * The versioned drawing store

    The legacy authority of [da/store.py]: one manifest object per drawing, one
    immutable blob per version, and a single-writer checkout lock with a fencing
    generation.  Every writer is translated whole, with the order of its reads,
    writes and clock readings, over any [StorageBackend].

    - the state is the backend and the number of clock readings made so far;
      [clock n] is what the n-th [datetime.now] of the run answers;
    - [sha256] is the hex digest function of [hashlib];
    - [prepare_graph_bundle] and [read_graph_bundle] stand for the graph-bundle
      adapter and reader, whose checks live in the solar design graph code; here
      they are calls that answer or raise. *)

From S2P Require Import Prelude PyText TenantIds Json IsoTime Manifest Backend.
Local Open Scope Z_scope.

Record world (B : Type) := World { w_b : B; w_tick : nat }.
Arguments World {B} w_b w_tick.
Arguments w_b {B} w.
Arguments w_tick {B} w.

(** The lock id of a writer that names no session. *)
Definition ANONYMOUS_HOLDER : string := "anonymous:unnamed-writer".
Definition MAX_ABANDONED_VERSION_SLOTS : nat := 1000.
Definition PLAN_MAGIC : string := "LEAF_MUTATION_PLAN|".
Definition BUNDLE_NOTE : string := "solar-bundle:".

(** The keys of [meta] the store reads. *)
Record write_meta := WriteMeta {
  wm_workitem_id : option string;
  wm_tool : option string;
  wm_note : option string;
  wm_source_ref : option string;
  wm_plan_sha256 : option string }.
Definition no_meta : write_meta := WriteMeta None None None None None.

(** What [resolve_version] is asked for. *)
Inductive version_sel := VHead | VLatest | VInt (v : Z).

(** ** The checkout rules: pure functions of a lock and the time *)

Definition _is_active (co : option checkout) (now : instant) : bool :=
  match co with
  | None => false
  | Some co =>
      match fromisoformat (co_expires co) with
      | Some t => now <? t
      | None => false          (* a malformed lock is free *)
      end
  end.

Definition _refuse_unless_owner (current_holder : string) (current_fence : option Z)
    (holder : option string) (fence : option Z) : result store_error unit :=
  _ ← match holder with
      | Some h =>
          if bool_decide (h = ANONYMOUS_HOLDER) then Err (EDenied AnonymousWriter)
          else guard_or (bool_decide (current_holder = h)) (EDenied NotHolder)
      | None => Ok tt
      end;
  match fence, current_fence with
  | Some f, Some cur => guard_or (cur =? f) (EDenied StaleFence)
  | _, _ => Ok tt
  end.

Definition _authorize_checkout_view (co : option checkout) (holder : option string)
    (fence : option Z) (now : instant) : result store_error unit :=
  match co with
  | Some lock =>
      if _is_active co now then
        _refuse_unless_owner (co_holder lock) (co_fence lock) holder fence
      else Ok tt
  | None => Ok tt
  end.

(** [_next_fence]: one more than the manifest's counter, or than the generation
    of an in-flight lock of a manifest that has no counter yet. *)
Definition fence_counter (m : manifest) : Z :=
  match m_checkout_fence m with
  | Some f => f
  | None => match m_checkout m with
            | Some co => default 0 (co_fence co)
            | None => 0
            end
  end.
Definition _next_fence (m : manifest) : Z := fence_counter m + 1.

(** The lock branch of [acquire_checkout_fence]: may this caller take it? *)
Definition acquire_allowed (co : option checkout) (now : instant) (holder : string)
    (expected_fence : option Z) (strict_owner : bool) : bool :=
  match co with
  | Some lock =>
      if _is_active co now then
        if strict_owner then
          match expected_fence with
          | None => false
          | Some f => default 0 (co_fence lock) =? f
          end
        else bool_decide (co_holder lock = holder)
      else true
  | None => true
  end.

Definition release_allowed (co : option checkout) (now : instant) (holder : option string)
    (expected_fence : option Z) : bool :=
  match co with
  | None => false
  | Some lock =>
      if _is_active co now then
        match expected_fence, holder with
        | Some f, _ => default 0 (co_fence lock) =? f
        | None, Some h => bool_decide (co_holder lock = h)
        | None, None => true
        end
      else true
  end.

(** ** The chain walk of [redo]: [None] is out of fuel *)

Fixpoint redo_walk (fuel : nat) (parents : Z → option Z) (head : Z) (cur : option Z)
    (seen : list Z) : option (option Z) :=
  match fuel with
  | O => None
  | S fuel =>
      match cur with
      | None => Some None
      | Some c =>
          if bool_decide (c ∈ seen) then Some None
          else if bool_decide (parents c = Some head) then Some (Some c)
          else redo_walk fuel parents head (parents c) (c :: seen)
      end
  end.

(** Each round adds a listed version to [seen], except the last two. *)
Definition redo_target (vs : list version_entry) (head latest : Z) : option (option Z) :=
  redo_walk (length vs + 2) (λ c, mjoin (parent_of vs c)) head (Some latest) [].

Section Store.
Context {B : Type} `{!StorageBackend B}.
Variable clock : nat → instant.
Variable sha256 : string → string.
Variable request : Type.
(** the adapter answers the canonical bundle text and its [apply_id] *)
Variable prepare_graph_bundle :
  string → string → string → option Z → request → io (world B) store_error (string * string).
Variable read_graph_bundle : string → string → Z → io (world B) store_error unit.

Abbreviation store := (io (world B) store_error).

(** ** Primitive calls *)

Definition bk {A} (m : io B store_error A) : store A :=
  λ w, let '(r, b') := m (w_b w) in (r, World b' (w_tick w)).

Definition utcnow : store instant :=
  λ w, (Ok (clock (w_tick w)), World (w_b w) (S (w_tick w))).

Definition _now_iso : store string := t ← utcnow; mret (isoformat t).

Definition key {A} (r : result id_error A) : store A := lift (keyed r).

Definition load_manifest (tid did : string) : store manifest :=
  k ← key (Keys.manifest_key (PStr tid) (PStr did));
  raw ← bk (b_get k);
  lift (from_opt (manifest_loads raw) EMalformed).

Definition save_manifest (tid did : string) (m : manifest) : store unit :=
  k ← key (Keys.manifest_key (PStr tid) (PStr did));
  bk (b_put k (manifest_dumps m)).

Definition _put_or_verify_blob (k data digest : string) : store unit :=
  _ ← bk (b_put_if_absent_or_verify k data);
  existing ← bk (b_get k);
  if negb (bool_decide (String.length existing = String.length data)) ||
     negb (bool_decide (sha256 existing = digest))
  then raise EMismatchedContent else mret tt.

Definition _publish_graph_bundle (tid did raw : string) : store unit :=
  k ← key (Keys.graph_bundle_key (PStr tid) (PStr did) (sha256 raw));
  _put_or_verify_blob k raw (sha256 raw).

(** ** The guard every legacy writer runs in

    The waits on the two locks are the subject of another component; here the
    lock is taken or its acquisition raises. *)

Definition run_precondition (precondition : option (result store_error bool)) : store bool :=
  match precondition with None => mret true | Some r => lift r end.

Definition _legacy_checkout_guard {A} (tid did : string) (creating : bool)
    (precondition : option (result store_error bool)) (body : store A) : store A :=
  if negb cross_process_checkout_safe then
    wanted ← run_precondition precondition;
    if (wanted : bool) then body else raise EVanished
  else
    mk ← key (Keys.manifest_key (PStr tid) (PStr did));
    there ← (if creating then mret true else bk (b_exists mk));
    if negb (there : bool) then raise EKey else
    lk ← key (Keys.checkout_lock_key sha256 (PStr tid) (PStr did));
    _ ← bk (b_lock lk);
    there ← (if creating then mret true else bk (b_exists mk));
    if negb (there : bool) then _ ← bk (b_reclaim lk); raise EKey else
    wanted ← run_precondition precondition;
    if (wanted : bool) then body else
    there ← bk (b_exists mk);
    _ ← (if (there : bool) then mret true else bk (b_reclaim lk));
    raise EVanished.

(** ** [ingest_drawing] *)

(** The failure handler: retire the lock file when nothing but a version-1 blob
    is left; nothing it does may replace the original error. *)
Definition ingest_cleanup (tid did vkey : string) : store unit :=
  try_except
    (lk ← key (Keys.checkout_lock_key sha256 (PStr tid) (PStr did));
     remaining ← bk (b_drawing_object_keys tid did);
     match remaining with
     | Some ks => if forallb (λ k, bool_decide (k = vkey)) ks
                  then _ ← (if cross_process_checkout_safe then bk (b_reclaim lk) else mret true);
                       mret tt
                  else mret tt
     | None => mret tt
     end)
    (λ _, mret tt).

Definition ingest_body (tid did data vkey : string) : store (string * Z) :=
  mk ← key (Keys.manifest_key (PStr tid) (PStr did));
  present ← bk (b_exists mk);
  if (present : bool) then raise EAlreadyExists else
  blob ← bk (b_exists vkey);
  if (blob : bool) then raise ERefuseOverwrite else
  _ ← bk (b_put vkey data);
  created ← _now_iso;
  let m := _new_manifest tid did in
  let entry := VersionEntry 1 None created (Z.of_nat (String.length data)) (sha256 data)
                 None None (Some "initial ingest"%string) None None in
  _ ← save_manifest tid did
        (Manifest tid did (m_head m) (m_latest m) (m_versions m ++ [entry])
           (m_checkout m) (m_checkout_fence m));
  mret (did, 1).

(** [bool(drawing_id)]. *)
Definition truthy (a : pyarg) : bool :=
  match a with PNone => false | PStr s => negb (bool_decide (s = ""%string)) | PObj _ => true end.

(** [fresh] is what [new_drawing_id()] answers. *)
Definition ingest_drawing (tenant_id drawing_id : pyarg) (fresh data : string)
    (precondition : option (result store_error bool)) : store (string * Z) :=
  tid ← key (Keys.sanitize_id tenant_id);
  did ← (if truthy drawing_id then key (Keys.sanitize_id drawing_id) else mret fresh);
  vkey ← key (Keys.drawing_version_key (PStr tid) (PStr did) 1);
  _legacy_checkout_guard tid did true precondition
    (try_except (ingest_body tid did data vkey)
       (λ e, _ ← ingest_cleanup tid did vkey; raise e)).

(** ** [authorize_checkout] *)

Definition authorize_checkout (tenant_id drawing_id : pyarg) (holder : option string)
    (fence : option Z) : store unit :=
  tid ← key (Keys.sanitize_id tenant_id);
  did ← key (Keys.sanitize_id drawing_id);
  match holder, fence with
  | None, None => mret tt
  | _, _ =>
      m ← load_manifest tid did;
      now ← utcnow;
      lift (_authorize_checkout_view (m_checkout m) holder fence now)
  end.

(** The check inside a writer: no clock reading when nothing is claimed. *)
Definition authorize (co : option checkout) (holder : option string) (fence : option Z) : store unit :=
  match holder, fence with
  | None, None => mret tt
  | _, _ => now ← utcnow; lift (_authorize_checkout_view co holder fence now)
  end.

(** ** [put_drawing] *)

(** The plan checks at the top of [put_drawing]. *)
Definition check_plan (plan : option string) (parent_version : option Z) (meta : write_meta)
  : result store_error write_meta :=
  match plan with
  | None => Ok meta
  | Some bytes =>
      _ ← guard_or (startswith PLAN_MAGIC bytes && (Z.of_nat (String.length bytes) <=? 1048576)) EBadPlan;
      _ ← guard_or (match parent_version with Some p => 1 <=? p | None => false end) EBadPlan;
      let plan_digest := sha256 bytes in
      _ ← guard_or (bool_decide (default plan_digest (wm_plan_sha256 meta) = plan_digest)) EBadPlan;
      Ok (WriteMeta (wm_workitem_id meta) (wm_tool meta) (wm_note meta) (wm_source_ref meta)
            (Some plan_digest))
  end.

(** The bundle checks at the top of [put_drawing]; [Some (raw, meta)] when the
    commit publishes a bundle. *)
Definition check_bundle (tid did data : string) (parent_version : option Z) (meta : write_meta)
    (holder : option string) (fence : option Z) (graph : option request)
  : store (option string * write_meta) :=
  match graph with
  | None => mret (None, meta)
  | Some g =>
      if negb (bool_decide (is_Some holder)) || negb (1 <=? default 0 fence)
      then raise (EDenied FenceRequired) else
      if bool_decide (data = ""%string) || (256 * 1024 * 1024 <? Z.of_nat (String.length data))
      then raise EBadBundle else
      bundle ← prepare_graph_bundle tid did data parent_version g;
      let '(raw, apply_id) := (bundle : string * string) in
      mret (Some raw,
            WriteMeta (Some ("solar:" +:+ apply_id)%string) (wm_tool meta)
              (Some (BUNDLE_NOTE +:+ sha256 raw)%string) (wm_source_ref meta)
              (wm_plan_sha256 meta))
  end.

(** The slot search: the first version after [latest] with no blob, or one whose
    blob has exactly these bytes ([true]). *)
Fixpoint find_slot (n : nat) (tid did : string) (is_bundle : bool) (data digest : string)
    (new_v : Z) (vkey : string) : store (Z * string * bool) :=
  match n with
  | O => raise ETooManyAbandoned
  | S n =>
      present ← bk (b_exists vkey);
      if negb (present : bool) then mret (new_v, vkey, false) else
      if negb is_bundle && negb cross_process_checkout_safe then raise ERefuseOverwrite else
      existing ← bk (b_get vkey);
      if bool_decide (String.length existing = String.length data) &&
         bool_decide (sha256 existing = digest)
      then mret (new_v, vkey, true)
      else
        vkey' ← key (Keys.drawing_version_key (PStr tid) (PStr did) (new_v + 1));
        find_slot n tid did is_bundle data digest (new_v + 1) vkey'
  end.

(** The blob write of a commit, and for a bundle the last lease check. *)
Definition publish_blobs (tid did : string) (bundle : option string) (data digest vkey : string)
    (adopted : bool) (co : option checkout) : store unit :=
  match bundle with
  | None => if adopted then mret tt else bk (b_put vkey data)
  | Some raw =>
      _ ← _put_or_verify_blob vkey data digest;
      _ ← _publish_graph_bundle tid did raw;
      now ← utcnow;
      if _is_active co now then mret tt else raise (EDenied ExpiredDuringPublish)
  end.

Definition set_plan (e : version_entry) (plan : option (string * Z)) : version_entry :=
  VersionEntry (ve_v e) (ve_parent e) (ve_created e) (ve_bytes e) (ve_sha256 e)
    (ve_workitem_id e) (ve_tool e) (ve_note e) (ve_source_ref e) plan.

(** [m] with the new row appended and both pointers on it. *)
Definition append_version (m : manifest) (e : version_entry) : manifest :=
  Manifest (m_tenant_id m) (m_drawing_id m) (ve_v e) (ve_v e) (m_versions m ++ [e])
    (m_checkout m) (m_checkout_fence m).

(** [contextlib.suppress(Exception)] around a plan delete. *)
Definition suppressed_delete (k : string) : store unit :=
  try_except (bk (b_delete k)) (λ _, mret tt).

(** The plan object: [Some plan_existed], or [None] when the write failed. *)
Definition write_plan (plan_key bytes : string) : store (option bool) :=
  try_except
    (existed ← bk (b_exists plan_key);
     _ ← bk (b_put_if_absent_or_verify plan_key bytes);
     mret (Some existed))
    (λ _, _ ← suppressed_delete plan_key; mret None).

(** The save of a commit with a plan, undoing the plan write when it raises. *)
Definition save_with_plan (tid did plan_key : string) (m : manifest) (e : version_entry)
    (written : option bool) (meta : write_meta) (parent_version : option Z) : store unit :=
  let e' := match written with
            | Some _ => set_plan e (sha ← wm_plan_sha256 meta; p ← parent_version; Some (sha, p))
            | None => e
            end in
  try_except (save_manifest tid did (append_version m e'))
    (λ err, _ ← (if bool_decide (written = Some false) then suppressed_delete plan_key else mret tt);
            raise err).

(** The plan object and the manifest save at the end of a commit. *)
Definition store_plan_and_save (tid did : string) (m : manifest) (e : version_entry)
    (plan : option string) (meta : write_meta) (parent_version : option Z) : store unit :=
  match plan with
  | None => save_manifest tid did (append_version m e)
  | Some bytes =>
      plan_key ← key (Keys.version_plan_key (PStr tid) (PStr did) (ve_v e));
      written ← write_plan plan_key bytes;
      save_with_plan tid did plan_key m e written meta parent_version
  end.

(** The bundle conditions under the guard; [Some v] replays a finished apply. *)
Definition bundle_conditions (m : manifest) (bundle : option string) (meta : write_meta)
    (holder : option string) (fence : option Z) : store (option Z) :=
  match bundle with
  | None => mret None
  | Some _ =>
      now ← utcnow;
      if negb (_is_active (m_checkout m) now) then raise (EDenied NoActiveCheckout) else
      if negb (bool_decide (is_Some holder)) || negb (bool_decide (is_Some fence)) ||
         negb (bool_decide ((m_checkout m ≫= co_fence) = fence))
      then raise (EDenied FenceRequired) else
      match list_find (λ e, ve_workitem_id e = wm_workitem_id meta) (m_versions m) with
      | Some (_, e) => if bool_decide (ve_note e = wm_note meta) then mret (Some (ve_v e))
                       else raise EApplyIdReused
      | None => mret None
      end
  end.

(** The guarded section of [put_drawing] from the version number on. *)
Definition commit_version (tid did data : string) (m : manifest) (parent_version : option Z)
    (meta : write_meta) (bundle plan : option string)
    (prepare : option (Z → result store_error bool)) : store Z :=
  vkey ← key (Keys.drawing_version_key (PStr tid) (PStr did) (m_latest m + 1));
  let digest := sha256 data in
  slot ← find_slot MAX_ABANDONED_VERSION_SLOTS tid did (bool_decide (is_Some bundle))
           data digest (m_latest m + 1) vkey;
  let '(new_v, vkey, adopted) := (slot : Z * string * bool) in
  _ ← publish_blobs tid did bundle data digest vkey adopted (m_checkout m);
  created ← _now_iso;
  let e := VersionEntry new_v parent_version created (Z.of_nat (String.length data)) digest
             (wm_workitem_id meta) (wm_tool meta) (wm_note meta) (Some (wm_source_ref meta)) None in
  keep_plan ← match plan, prepare with
              | Some _, Some f => lift (f new_v)
              | _, _ => mret true
              end;
  _ ← store_plan_and_save tid did m e (if (keep_plan : bool) then plan else None) meta parent_version;
  mret new_v.

Definition put_drawing (tenant_id drawing_id : pyarg) (data : string) (parent_version : option Z)
    (meta : write_meta) (holder : option string) (fence : option Z)
    (require_parent_is_head : bool) (graph : option request) (plan : option string)
    (prepare : option (Z → result store_error bool)) : store Z :=
  tid ← key (Keys.sanitize_id tenant_id);
  did ← key (Keys.sanitize_id drawing_id);
  meta ← lift (check_plan plan parent_version meta);
  prepared ← check_bundle tid did data parent_version meta holder fence graph;
  let '(bundle, meta) := (prepared : option string * write_meta) in
  let require_parent_is_head :=
    require_parent_is_head || bool_decide (is_Some plan) || bool_decide (is_Some graph) in
  _legacy_checkout_guard tid did false None
    (m ← load_manifest tid did;
     _ ← authorize (m_checkout m) holder fence;
     replay ← bundle_conditions m bundle meta holder fence;
     match replay with
     | Some v => mret v
     | None =>
         if require_parent_is_head && negb (bool_decide (parent_version = Some (m_head m)))
         then raise EStaleParent
         else commit_version tid did data m parent_version meta bundle plan prepare
     end).

(** ** Reading versions *)

Definition resolve_version (tenant_id drawing_id : pyarg) (version : version_sel)
  : store (Z * string) :=
  tid ← key (Keys.sanitize_id tenant_id);
  did ← key (Keys.sanitize_id drawing_id);
  m ← load_manifest tid did;
  let v := match version with VHead => m_head m | VLatest => m_latest m | VInt z => z end in
  match find_version (m_versions m) v with
  | None => raise EUnknownVersion
  | Some _ => k ← key (Keys.drawing_version_key (PStr tid) (PStr did) v); mret (v, k)
  end.

Definition resolve_version_entry (tid did : string) (version : version_sel)
  : store (Z * string * version_entry) :=
  vk ← resolve_version (PStr tid) (PStr did) version;
  let '(v, k) := (vk : Z * string) in
  m ← load_manifest tid did;
  match find_version (m_versions m) v with
  | None => raise EUnknownVersion
  | Some e => mret (v, k, e)
  end.

Definition _verify_selected_bundle (tid did : string) (version : Z) : store unit :=
  vke ← resolve_version_entry tid did (VInt version);
  let '(_, _, e) := (vke : Z * string * version_entry) in
  if startswith BUNDLE_NOTE (default ""%string (ve_note e))
  then read_graph_bundle tid did version else mret tt.

(** ** [undo] and [redo] *)

Definition undo (tenant_id drawing_id : pyarg) (holder : option string) (fence : option Z) : store Z :=
  tid ← key (Keys.sanitize_id tenant_id);
  did ← key (Keys.sanitize_id drawing_id);
  _legacy_checkout_guard tid did false None
    (m ← load_manifest tid did;
     _ ← authorize (m_checkout m) holder fence;
     match find_version (m_versions m) (m_head m) with
     | None => raise EHeadMissing
     | Some e =>
         match ve_parent e with
         | None => raise ERootVersion
         | Some parent =>
             _ ← _verify_selected_bundle tid did parent;
             _ ← save_manifest tid did (with_head m parent);
             mret parent
         end
     end).

Definition redo (tenant_id drawing_id : pyarg) (holder : option string) (fence : option Z) : store Z :=
  tid ← key (Keys.sanitize_id tenant_id);
  did ← key (Keys.sanitize_id drawing_id);
  _legacy_checkout_guard tid did false None
    (m ← load_manifest tid did;
     _ ← authorize (m_checkout m) holder fence;
     if m_head m =? m_latest m then raise EAtLatest else
     match redo_target (m_versions m) (m_head m) (m_latest m) with
     | Some (Some target) =>
         _ ← _verify_selected_bundle tid did target;
         _ ← save_manifest tid did (with_head m target);
         mret target
     | _ => raise ENoForwardChain
     end).

(** ** The checkout lock *)

Definition acquire_checkout_fence (tenant_id drawing_id : pyarg) (holder : string) (ttl_us : Z)
    (expected_fence : option Z) (strict_owner : bool) : store (option Z) :=
  if bool_decide (holder = ANONYMOUS_HOLDER) then raise EParam else
  tid ← key (Keys.sanitize_id tenant_id);
  did ← key (Keys.sanitize_id drawing_id);
  _legacy_checkout_guard tid did false None
    (m ← load_manifest tid did;
     now ← utcnow;
     if negb (acquire_allowed (m_checkout m) now holder expected_fence strict_owner)
     then mret None else
     if negb (in_datetime_range (now + ttl_us)) then raise EOverflow else
     let fence := _next_fence m in
     let co := Checkout holder (isoformat now) (isoformat (now + ttl_us)) (Some fence) in
     _ ← save_manifest tid did (with_lock m (Some co) (Some fence));
     mret (Some fence)).

Definition acquire_checkout (tenant_id drawing_id : pyarg) (holder : string) (ttl_us : Z)
    (expected_fence : option Z) (strict_owner : bool) : store bool :=
  f ← acquire_checkout_fence tenant_id drawing_id holder ttl_us expected_fence strict_owner;
  mret (bool_decide (is_Some f)).

Definition release_checkout (tenant_id drawing_id : pyarg) (holder : option string)
    (expected_fence : option Z) : store bool :=
  tid ← key (Keys.sanitize_id tenant_id);
  did ← key (Keys.sanitize_id drawing_id);
  _legacy_checkout_guard tid did false None
    (m ← load_manifest tid did;
     match m_checkout m with
     | None => mret false
     | Some _ =>
         now ← utcnow;
         if release_allowed (m_checkout m) now holder expected_fence then
           _ ← save_manifest tid did (with_lock m None (m_checkout_fence m));
           mret true
         else mret false
     end).

Definition checkout_active (co : option checkout) : store bool :=
  now ← utcnow; mret (_is_active co now).

End Store.
