(* ===== verification/StoreInv.v ===== *)
(** * Invariant and evolution of the drawing store

    One relation says everything a legacy writer may do to the objects of a
    backend that can fail at any call: [evolves t d w w'].  It is proved once per
    writer and composed over any sequence of writers; the store's guarantees
    (immutable versions, a well-formed manifest, fence generations that never
    go back, no effect outside the drawing) are read off it. *)

From S2P Require Import Prelude PyText TenantIds Json IsoTime Manifest Backend StoreKeys DrawingStore.
From stdpp Require Import sorting.
Local Open Scope Z_scope.
Import IdFacts.

Section Inv.
Context {B : Type} `{!StorageBackend B, !BackendLaws B}.
Variable clock : nat → instant.
Variable sha256 : string → string.
Hypothesis sha256_hex : ∀ s, Keys.is_sha256_hex (sha256 s) = true.

Abbreviation W := (world B).
Abbreviation store := (io W store_error).

Definition obj (w : W) (k : string) : option string := object (w_b w) k.

(** ** What a drawing owns *)

Definition touches (t d k : string) : Prop :=
  k = lkey sha256 t d ∨ ∃ o, object_ok o ∧ k = okey t d o.

(** ** Well-formed manifests *)

(** The row names a stored blob of that size and digest. *)
Definition blob_ok (w : W) (t d : string) (e : version_entry) : Prop :=
  1 <= ve_v e <= 99999999 ∧
  ∃ x, obj w (okey t d (OVersion (ve_v e))) = Some x ∧
       Z.of_nat (String.length x) = ve_bytes e ∧ sha256 x = ve_sha256 e.

Definition rows_ok (vs : list version_entry) (latest : Z) : Prop :=
  StronglySorted (λ a b, ve_v a < ve_v b) vs ∧ (ve_v <$> last vs) = Some latest.

Definition fence_ok (m : manifest) : Prop :=
  ∀ co f, m_checkout m = Some co → co_fence co = Some f → m_checkout_fence m = Some f.

Record wf_manifest (w : W) (t d : string) (m : manifest) : Prop := {
  wf_tenant : m_tenant_id m = t;
  wf_drawing : m_drawing_id m = d;
  wf_rows : rows_ok (m_versions m) (m_latest m);
  wf_head : ∃ e, e ∈ m_versions m ∧ ve_v e = m_head m;
  wf_blobs : Forall (blob_ok w t d) (m_versions m);
  wf_fence : fence_ok m }.

Definition manifest_at (w : W) (t d : string) : option manifest :=
  obj w (okey t d OManifest) ≫= manifest_loads.

Definition Inv (w : W) : Prop :=
  ∀ t d, valid t → valid d → is_Some (obj w (okey t d OManifest)) →
  ∃ m, manifest_at w t d = Some m ∧ wf_manifest w t d m.

(** ** Evolution *)

Definition outside (t d : string) (w w' : W) : Prop :=
  ∀ k, canonical k = true → ¬ touches t d k → obj w' k = obj w k.

Definition versions_kept (t d : string) (w w' : W) : Prop :=
  ∀ v x, 1 <= v <= 99999999 →
    obj w (okey t d (OVersion v)) = Some x → obj w' (okey t d (OVersion v)) = Some x.

(** The manifest itself is untouched. *)
Record quiet (t d : string) (w w' : W) : Prop := {
  q_outside : outside t d w w';
  q_versions : versions_kept t d w w';
  q_manifest : obj w' (okey t d OManifest) = obj w (okey t d OManifest) }.

(** Rows are only appended, and the fence counter never goes back. *)
Definition grows (m m' : manifest) : Prop :=
  m_versions m `prefix_of` m_versions m' ∧ fence_counter m <= fence_counter m'.

Definition manifest_step (t d : string) (w w' : W) : Prop :=
  obj w' (okey t d OManifest) = obj w (okey t d OManifest) ∨
  ∃ m', obj w' (okey t d OManifest) = Some (manifest_dumps m') ∧ wf_manifest w' t d m' ∧
        ∀ m, manifest_at w t d = Some m → grows m m'.

Record evolves (t d : string) (w w' : W) : Prop := {
  e_outside : outside t d w w';
  e_versions : versions_kept t d w w';
  e_manifest : manifest_step t d w w' }.

Lemma quiet_evolves t d w w' : quiet t d w w' → evolves t d w w'.
Proof. intros []. split; [done..|]. by left. Qed.

#[export] Instance quiet_preorder t d : PreOrder (quiet t d).
Proof.
  split.
  - intros w. by split; [intros ??|intros ??|].
  - intros w1 w2 w3 [o1 v1 m1] [o2 v2 m2]. split.
    + intros k Hk Ht. by rewrite o2, o1.
    + intros v x Hv Hx. auto.
    + by rewrite m2, m1.
Qed.

Lemma wf_manifest_kept w w' t d m :
  versions_kept t d w w' → wf_manifest w t d m → wf_manifest w' t d m.
Proof.
  intros Hv []. split; try done. eapply Forall_impl; [done|].
  intros e (Hr & x & Hx & ? & ?). split; [done|]. exists x. auto.
Qed.

Lemma grows_refl m : grows m m.
Proof. by split. Qed.

Lemma grows_trans m1 m2 m3 : grows m1 m2 → grows m2 m3 → grows m1 m3.
Proof. intros [] []. split; [by etrans|lia]. Qed.

Lemma manifest_at_dumps w t d m :
  obj w (okey t d OManifest) = Some (manifest_dumps m) → manifest_at w t d = Some m.
Proof. unfold manifest_at. intros ->. apply manifest_loads_dumps. Qed.

#[export] Instance evolves_preorder t d : PreOrder (evolves t d).
Proof.
  split.
  - intros w. apply quiet_evolves. reflexivity.
  - intros w1 w2 w3 [o1 v1 m1] [o2 v2 m2]. split.
    + intros k Hk Ht. by rewrite o2, o1.
    + intros v x Hv Hx. auto.
    + destruct m2 as [m2|(m' & Hm' & Hwf & Hg)].
      * destruct m1 as [m1|(m' & Hm' & Hwf & Hg)]; [left; congruence|].
        right. exists m'. split; [congruence|]. split; [by eapply wf_manifest_kept|done].
      * right. exists m'. do 2 (split; [done|]). intros m Hm.
        destruct m1 as [m1|(m1 & Hm1 & _ & Hg1)].
        { apply Hg. unfold manifest_at in *. by rewrite m1. }
        eapply grows_trans; [by apply Hg1|]. apply Hg. by apply manifest_at_dumps.
Qed.

(** A drawing's own objects are untouched by writers of another drawing. *)
Lemma outside_other t d t' d' o w w' :
  valid t → valid d → valid t' → valid d' → object_ok o → (t', d') ≠ (t, d) →
  outside t d w w' → obj w' (okey t' d' o) = obj w (okey t' d' o).
Proof.
  intros ????? Hne Ho. apply Ho; [by apply okey_canonical|].
  intros [Heq|(o' & Ho' & Heq)]; [by apply okey_not_lock in Heq|].
  apply okey_inj in Heq as (-> & -> & _); done.
Qed.

Lemma evolves_Inv t d w w' : valid t → valid d → evolves t d w w' → Inv w → Inv w'.
Proof.
  intros Ht Hd [Ho Hv Hm] HI t' d' Ht' Hd' Hsome.
  destruct (decide ((t', d') = (t, d))) as [[= -> ->]|Hne].
  - destruct Hm as [Hm|(m & Hm & Hwf & _)]; [|by eauto using manifest_at_dumps].
    rewrite Hm in Hsome. destruct (HI t d Ht Hd Hsome) as (m & Hat & Hwf).
    exists m. split; [unfold manifest_at in *; by rewrite Hm|by eapply wf_manifest_kept].
  - assert (Hobj : ∀ o, object_ok o → obj w' (okey t' d' o) = obj w (okey t' d' o))
      by (intros; eapply (outside_other t d); done).
    rewrite Hobj in Hsome by done. destruct (HI t' d' Ht' Hd' Hsome) as (m & Hat & Hwf).
    exists m. split; [unfold manifest_at in *; by rewrite Hobj|].
    eapply wf_manifest_kept, Hwf. intros v x Hv' Hx. by rewrite Hobj.
Qed.

(** ** Primitive calls *)

Lemma wp_bk {A} (m : io B store_error A) (Φ : result store_error A → W → Prop) w :
  wp m (λ r b', Φ r (World b' (w_tick w))) (w_b w) → wp (bk m) Φ w.
Proof. unfold wp, outcome, final, bk. by destruct (m (w_b w)). Qed.

Lemma wp_key {A} (r : result id_error A) (Φ : result store_error A → W → Prop) w :
  (∀ a, r = Ok a → Φ (Ok a) w) → (∀ e, r = Err e → Φ (Err (EId e)) w) → wp (key r) Φ w.
Proof. intros Ha He. apply wp_lift. destruct r; simpl; auto. Qed.

Lemma wp_utcnow (Φ : result store_error instant → W → Prop) w :
  (∀ w', (∀ k, obj w' k = obj w k) → Φ (Ok (clock (w_tick w))) w') → wp (utcnow clock) Φ w.
Proof. intros H. apply H. done. Qed.

Definition same (w w' : W) : Prop := ∀ k, canonical k = true → obj w' k = obj w k.

#[export] Instance same_preorder : PreOrder same.
Proof. split; [by intros w k|]. intros w1 w2 w3 H1 H2 k Hk. by rewrite H2, H1. Qed.

Lemma same_quiet t d w w' : valid t → valid d → same w w' → quiet t d w w'.
Proof.
  intros Ht Hd Hs. split.
  - intros k Hk _. auto.
  - intros v x Hv. by rewrite Hs by (by apply okey_canonical).
  - apply Hs. by apply okey_canonical.
Qed.

Lemma wp_get k (Φ : result store_error string → W → Prop) w :
  canonical k = true →
  (∀ r w', same w w' →
     match r with Ok x => obj w k = Some x | Err EKey => obj w k = None | _ => True end →
     w_tick w' = w_tick w → Φ r w') →
  wp (bk (b_get k)) Φ w.
Proof.
  intros Hk H. apply wp_bk. eapply wp_mono; [by apply law_get|]. simpl. intros r b' [Hu Hr]. by apply H.
Qed.

Lemma wp_exists k (Φ : result store_error bool → W → Prop) w :
  canonical k = true →
  (∀ r w', same w w' →
     (r = Ok false → obj w k = None) →
     w_tick w' = w_tick w → Φ r w') →
  wp (bk (b_exists k)) Φ w.
Proof.
  intros Hk H. apply wp_bk. eapply wp_mono; [by apply law_exists|]. simpl. intros r b' [Hu Hr]. by apply H.
Qed.

(** A call confined to one object that is neither the manifest nor a version
    (the lock file, a plan, a bundle) is quiet. *)
Definition side_object (t d k : string) : Prop :=
  k = lkey sha256 t d ∨ ∃ o, object_ok o ∧ k = okey t d o ∧
    match o with OPlan _ | OBundle _ => True | _ => False end.

Lemma side_canonical t d k : valid t → valid d → side_object t d k → canonical k = true.
Proof. intros ?? [->|(o & ? & -> & _)]; [by apply lkey_canonical|by apply okey_canonical]. Qed.

Lemma side_quiet t d k w w' :
  valid t → valid d → side_object t d k → frame object k (w_b w) (w_b w') → quiet t d w w'.
Proof.
  intros Ht Hd Hk Hf.
  assert (Hkeep : ∀ o, object_ok o → match o with OPlan _ | OBundle _ => False | _ => True end →
                   obj w' (okey t d o) = obj w (okey t d o)).
  { intros o Ho Hkind. apply Hf; [by apply okey_canonical|]. intros Heq.
    destruct Hk as [->|(o' & Ho' & -> & Hs)]; [by apply okey_not_lock in Heq|].
    apply okey_inj in Heq as (_ & _ & ->); try done. by destruct o'. }
  split.
  - intros k' Hk' Hnt. apply Hf; [done|]. intros ->. apply Hnt.
    destruct Hk as [->|(o & Ho & -> & _)]; [by left|right; eauto].
  - intros v x Hv. by rewrite Hkeep.
  - by apply Hkeep.
Qed.

(** Nothing but the drawing's lock object differs. *)
Definition lock_only (t d : string) (w w' : W) : Prop :=
  ∀ k, canonical k = true → k ≠ lkey sha256 t d → obj w' k = obj w k.

#[export] Instance lock_only_preorder t d : PreOrder (lock_only t d).
Proof. split; [by intros w k|]. intros w1 w2 w3 H1 H2 k Hk Hn. by rewrite H2, H1. Qed.

Lemma same_lock_only t d w w' : same w w' → lock_only t d w w'.
Proof. intros H k Hk _. by apply H. Qed.

Lemma lock_only_quiet t d w w' : valid t → valid d → lock_only t d w w' → quiet t d w w'.
Proof. intros Ht Hd H. eapply (side_quiet t d (lkey sha256 t d)); [done|done|by left|]. intros k Hk Hn. by apply H. Qed.

Lemma wp_lock t d (Φ : result store_error unit → W → Prop) w :
  (∀ r w', lock_only t d w w' → w_tick w' = w_tick w → Φ r w') → wp (bk (b_lock (lkey sha256 t d))) Φ w.
Proof.
  intros H. apply wp_bk. eapply wp_mono; [by apply law_lock, lkey_canonical|].
  simpl. intros r b' Hf. apply H; [|done]. intros k Hk Hn. by apply Hf.
Qed.

Lemma wp_reclaim t d (Φ : result store_error bool → W → Prop) w :
  (∀ r w', lock_only t d w w' → w_tick w' = w_tick w → Φ r w') → wp (bk (b_reclaim (lkey sha256 t d))) Φ w.
Proof.
  intros H. apply wp_bk. eapply wp_mono; [by apply law_reclaim, lkey_canonical|].
  simpl. intros r b' Hf. apply H; [|done]. intros k Hk Hn. by apply Hf.
Qed.

Lemma wp_side_delete t d k (Φ : result store_error unit → W → Prop) w :
  valid t → valid d → side_object t d k →
  (∀ r w', quiet t d w w' → Φ r w') → wp (bk (b_delete k)) Φ w.
Proof.
  intros Ht Hd Hk H. apply wp_bk. eapply wp_mono; [by apply law_delete, (side_canonical t d)|].
  simpl. intros r b' [Hf _]. by eapply H, side_quiet.
Qed.

Lemma wp_side_put_if_absent t d k x (Φ : result store_error unit → W → Prop) w :
  valid t → valid d → side_object t d k →
  (∀ r w', quiet t d w w' → Φ r w') → wp (bk (b_put_if_absent_or_verify k x)) Φ w.
Proof.
  intros Ht Hd Hk H. apply wp_bk. eapply wp_mono; [by apply law_put_if_absent, (side_canonical t d)|].
  simpl. intros r b' [Hf _]. by eapply H, side_quiet.
Qed.

(** Writing the blob of a version that has none. *)
Lemma version_quiet t d v w w' :
  valid t → valid d → 1 <= v <= 99999999 →
  frame object (okey t d (OVersion v)) (w_b w) (w_b w') →
  obj w (okey t d (OVersion v)) = None ∨
  obj w' (okey t d (OVersion v)) = obj w (okey t d (OVersion v)) → quiet t d w w'.
Proof.
  intros Ht Hd Hv Hf Hnone. split.
  - intros k' Hk' Hnt. apply Hf; [done|]. intros ->. apply Hnt. right. by exists (OVersion v).
  - intros v' x Hv' Hx. destruct (decide (v' = v)) as [->|Hne]; [destruct Hnone; congruence|].
    unfold obj. rewrite Hf; [done|by apply okey_canonical|].
    intros Heq. by apply okey_inj in Heq as (_ & _ & [= ->]).
  - apply Hf; [by apply okey_canonical|]. intros Heq. by apply okey_inj in Heq as (_ & _ & ?).
Qed.

Lemma wp_put_version t d v x (Φ : result store_error unit → W → Prop) w :
  valid t → valid d → 1 <= v <= 99999999 → obj w (okey t d (OVersion v)) = None →
  (∀ r w', quiet t d w w' →
     match r with Ok _ => obj w' (okey t d (OVersion v)) = Some x | Err _ => True end → Φ r w') →
  wp (bk (b_put (okey t d (OVersion v)) x)) Φ w.
Proof.
  intros Ht Hd Hv Hn H. apply wp_bk. eapply wp_mono; [by apply law_put, okey_canonical|].
  simpl. intros r b' [Hf Hr]. apply H.
  - eapply version_quiet; try done. by left.
  - by destruct r.
Qed.

Lemma wp_version_put_if_absent t d v x (Φ : result store_error unit → W → Prop) w :
  valid t → valid d → 1 <= v <= 99999999 →
  (∀ r w', quiet t d w w' →
     match r with Ok _ => obj w' (okey t d (OVersion v)) = Some x | Err _ => True end → Φ r w') →
  wp (bk (b_put_if_absent_or_verify (okey t d (OVersion v)) x)) Φ w.
Proof.
  intros Ht Hd Hv H. apply wp_bk. eapply wp_mono; [by apply law_put_if_absent, okey_canonical|].
  simpl. intros r b' [Hf Hr]. unfold obj in *.
  destruct (object (w_b w) (okey t d (OVersion v))) as [old|] eqn:E.
  - destruct Hr as [Hr Hok]. apply H.
    + eapply version_quiet; try done. right. unfold obj. simpl. by rewrite E.
    + destruct r as [[]|]; [|done]. simpl. by rewrite Hr, Hok.
  - apply H; [eapply version_quiet; try done; by left|]. by destruct r as [[]|].
Qed.

(** Replacing the manifest by a well-formed successor. *)
Lemma wp_save t d m m' (Φ : result store_error unit → W → Prop) w :
  valid t → valid d → manifest_at w t d = Some m ∨ obj w (okey t d OManifest) = None →
  wf_manifest w t d m' → (manifest_at w t d = Some m → grows m m') →
  (∀ r w', evolves t d w w' →
     match r with
     | Ok _ => manifest_at w' t d = Some m'
     | Err _ => True end → Φ r w') →
  wp (save_manifest t d m') Φ w.
Proof.
  intros Ht Hd Hat Hwf Hg H. unfold save_manifest. apply wp_bind, wp_key.
  2:{ intros e He. by rewrite manifest_key_valid in He. }
  intros k (_ & _ & ->)%manifest_key_inv. apply wp_bk.
  eapply wp_mono; [by apply law_put, okey_canonical|]. simpl. intros r b' [Hf Hr].
  set (w' := World b' (w_tick w)).
  assert (Hv : ∀ v, 1 <= v <= 99999999 → obj w' (okey t d (OVersion v)) = obj w (okey t d (OVersion v))).
  { intros v Hv. apply Hf; [by apply okey_canonical|]. intros Heq. by apply okey_inj in Heq as (_ & _ & ?). }
  assert (Hkept : versions_kept t d w w') by (intros v x ??; by rewrite Hv).
  apply H.
  - split; [|done|].
    + intros k' Hk' Hnt. apply Hf; [done|]. intros ->. apply Hnt. right. by exists OManifest.
    + destruct r as [[]|e]; [|destruct Hr as [Hr|Hr]; [by left|]];
        (right; exists m'; split; [done|]; split; [by eapply wf_manifest_kept|];
         intros m0 Hm0; destruct Hat as [Hat|Hat];
         [rewrite Hat in Hm0; injection Hm0 as <-; auto
         |by unfold manifest_at in Hm0; rewrite Hat in Hm0]).
  - destruct r as [[]|]; [|done]. by apply manifest_at_dumps.
Qed.

Lemma wp_load t d (Φ : result store_error manifest → W → Prop) w :
  (∀ w' m, valid t → valid d → same w w' → manifest_at w t d = Some m →
     w_tick w' = w_tick w → Φ (Ok m) w') →
  (∀ e w', same w w' → Φ (Err e) w') →
  wp (load_manifest t d) Φ w.
Proof.
  intros Hok Herr. unfold load_manifest. apply wp_bind, wp_key; [|intros; by apply Herr].
  intros k (Ht & Hd & ->)%manifest_key_inv.
  apply wp_bind, wp_get; [by apply okey_canonical|]. intros [raw|e] w' Hs Hr Htick; [|by apply Herr].
  apply wp_lift. unfold from_opt. destruct (manifest_loads raw) as [m|] eqn:E; [|by apply Herr].
  apply Hok; try done. unfold manifest_at. by rewrite Hr.
Qed.

End Inv.
