(* ===== verification/StoreProofs.v ===== *)
(** * The writers of the drawing store

    Each writer of [DrawingStore] evolves its own drawing and nothing else, on
    every path, whatever the backend does. *)

From S2P Require Import Prelude PyText TenantIds Json IsoTime Manifest Backend StoreKeys DrawingStore StoreInv.
From stdpp Require Import sorting.
Local Open Scope Z_scope.
Import IdFacts.

(** ** Lists of version rows *)

Lemma find_version_elem vs v e : find_version vs v = Some e → e ∈ vs ∧ ve_v e = v.
Proof.
  unfold find_version. destruct (list_find _ vs) as [[i e']|] eqn:E; [|done].
  intros [= <-]. apply list_find_Some in E as (Hl & Hv & _). split; [|done].
  by eapply list_elem_of_lookup_2.
Qed.

Lemma find_version_Some vs e : e ∈ vs → ∃ e', find_version vs (ve_v e) = Some e'.
Proof.
  intros He. unfold find_version.
  destruct (list_find_elem_of (λ e', ve_v e' = ve_v e) vs e He eq_refl) as [[i e'] ->]. by exists e'.
Qed.

Lemma rows_snoc vs latest e :
  rows_ok vs latest → latest < ve_v e → rows_ok (vs ++ [e]) (ve_v e).
Proof.
  intros [Hs Hl] Hlt. split; [|by rewrite last_snoc].
  apply StronglySorted_app_2; [|done|by repeat constructor].
  intros a b Ha ->%list_elem_of_singleton.
  apply fmap_Some in Hl as (z & [vs' ->]%last_Some & ->).
  apply elem_of_app in Ha as [Ha| ->%list_elem_of_singleton]; [|done].
  trans (ve_v z); [|done].
  by apply (StronglySorted_app_1_elem_of _ _ _ _ _ Hs Ha), list_elem_of_singleton.
Qed.

Section Writers.
Context {B : Type} `{!StorageBackend B, !BackendLaws B}.
Variable clock : nat → instant.
Variable sha256 : string → string.
Hypothesis sha256_hex : ∀ s, Keys.is_sha256_hex (sha256 s) = true.

Abbreviation W := (world B).
Abbreviation store := (io W store_error).
Abbreviation quiet := (quiet sha256).
Abbreviation evolves := (evolves sha256).

Lemma lkey_side t d : side_object sha256 t d (lkey sha256 t d).
Proof. by left. Qed.

Lemma okey_side t d o :
  object_ok o → match o with OPlan _ | OBundle _ => True | _ => False end →
  side_object sha256 t d (okey t d o).
Proof. right. eauto. Qed.

Lemma utcnow_same (w w' : W) : (∀ k, obj w' k = obj w k) → same w w'.
Proof. intros H k _. apply H. Qed.

Lemma manifest_at_quiet t d w w' : quiet t d w w' → manifest_at w' t d = manifest_at w t d.
Proof. intros []. unfold manifest_at. by rewrite q_manifest. Qed.

Hint Resolve lkey_side okey_side utcnow_same : py.

(** ** The guard *)

Lemma wp_guard_lock {A} t d creating pre (body : store A) Φ w :
  valid t → valid d →
  (∀ w', lock_only sha256 t d w w' → w_tick w' = w_tick w → wp body Φ w') →
  (∀ e w', lock_only sha256 t d w w' → Φ (Err e) w') →
  wp (_legacy_checkout_guard sha256 t d creating pre body) Φ w.
Proof.
  intros Ht Hd Hbody Herr. unfold _legacy_checkout_guard.
  assert (Hpre : ∀ k w1, lock_only sha256 t d w w1 → w_tick w1 = w_tick w →
    (∀ w', lock_only sha256 t d w w' → wp (k false) Φ w') →
    wp (x ← run_precondition pre; if (x : bool) then body else k false) Φ w1).
  { intros k w1 Hq Htk Hk. apply wp_bind. destruct pre as [r|]; [|by apply wp_ret, Hbody].
    apply wp_lift. destruct r as [[]|]; auto. }
  destruct (negb cross_process_checkout_safe).
  { apply (Hpre (λ _, raise EVanished)); [done|done|]. intros. apply wp_raise. auto. }
  apply wp_bind, wp_key; [|intros; by apply Herr].
  intros k (_ & _ & ->)%manifest_key_inv.
  assert (Hthere : ∀ (k : bool → store A) w1, lock_only sha256 t d w w1 → w_tick w1 = w_tick w →
    (∀ b w', lock_only sha256 t d w w' → w_tick w' = w_tick w → wp (k b) Φ w') →
    wp (x ← (if creating then mret true else bk (b_exists (okey t d OManifest))); k x) Φ w1).
  { intros k w1 Hq Htk Hk. apply wp_bind. destruct creating; [by apply wp_ret, Hk|].
    apply wp_exists; [by apply okey_canonical|]. intros [b|e] w2 Hs _ Htk2.
    - apply Hk; [etrans; [done|by apply same_lock_only]|congruence].
    - apply Herr. etrans; [done|by apply same_lock_only]. }
  apply Hthere; [done|done|]. intros [] w1 Hq1 Hk1; cbn [negb]; [|by apply wp_raise, Herr].
  apply wp_bind, wp_key; [|intros; by apply Herr]. intros lk (_ & _ & ->)%lock_key_inv.
  apply wp_bind, (wp_lock sha256 sha256_hex t d).
  intros [[]|e] w2 Hq2 Hk2; [|apply Herr; by etrans].
  apply Hthere; [by etrans|congruence|]. intros [] w3 Hq3 Hk3; cbn [negb].
  2:{ apply wp_bind, (wp_reclaim sha256 sha256_hex t d).
      intros [b|e] w4 Hq4 _; [apply wp_raise|]; apply Herr; by etrans. }
  apply (Hpre (λ _, there ← bk (b_exists (okey t d OManifest));
      _ ← (if (there : bool) then mret true else bk (b_reclaim (lkey sha256 t d))); raise EVanished));
    [done|done|].
  intros w4 Hq4. apply wp_bind, wp_exists; [by apply okey_canonical|]. intros [b|e] w5 Hs5 _ _.
  2:{ apply Herr. etrans; [done|by apply same_lock_only]. }
  assert (lock_only sha256 t d w w5) by (etrans; [exact Hq4|by apply same_lock_only]).
  apply wp_bind. destruct b; [by apply wp_ret, wp_raise, Herr|].
  apply (wp_reclaim sha256 sha256_hex t d).
  intros [b|e] w6 Hq6 _; [apply wp_raise|]; apply Herr; by etrans.
Qed.

Lemma wp_guard {A} t d creating pre (body : store A) Φ w :
  valid t → valid d →
  (∀ w', quiet t d w w' → w_tick w' = w_tick w → wp body Φ w') →
  (∀ e w', quiet t d w w' → Φ (Err e) w') →
  wp (_legacy_checkout_guard sha256 t d creating pre body) Φ w.
Proof.
  intros Ht Hd Hbody Herr. apply wp_guard_lock; [done|done| |].
  - intros w' Hl. by apply Hbody, lock_only_quiet.
  - intros e w' Hl. by apply Herr, lock_only_quiet.
Qed.

(** A writer checks its ids first; a bad id raises before anything happens. *)
Lemma wp_ids {A} t d (k : string → string → store A) Φ w :
  (valid t → valid d → wp (k t d) Φ w) → (∀ e, Φ (Err e) w) →
  wp (tid ← key (Keys.sanitize_id (PStr t)); did ← key (Keys.sanitize_id (PStr d)); k tid did) Φ w.
Proof.
  intros Hk Herr. apply wp_bind, wp_key; [|auto].
  intros t' [[= ->] Ht]%sanitize_valid. apply wp_bind, wp_key; [|auto].
  intros d' [[= ->] Hd]%sanitize_valid. auto.
Qed.

(** The common opening of a writer of an existing drawing: guard, then load. *)
Lemma wp_guard_load {A} t d (k : manifest → store A) (Φ : result store_error A → W → Prop) w :
  valid t → valid d → Inv sha256 w →
  (∀ m w', quiet t d w w' → manifest_at w t d = Some m → manifest_at w' t d = Some m →
           wf_manifest sha256 w' t d m → w_tick w' = w_tick w → wp (k m) Φ w') →
  (∀ e w', quiet t d w w' → Φ (Err e) w') →
  wp (_legacy_checkout_guard sha256 t d false None (m ← load_manifest t d; k m)) Φ w.
Proof.
  intros Ht Hd HI Hk Herr. apply wp_guard; [done..| |done]. intros w1 Hq1 Hk1.
  apply wp_bind, wp_load; [|intros e w2 Hs; apply Herr; etrans; [done|by apply same_quiet]].
  intros w2 m _ _ Hs Hat Hk2.
  assert (Hq2 : quiet t d w w2) by (etrans; [done|by apply same_quiet]).
  assert (Hat0 : manifest_at w t d = Some m) by (by rewrite <- (manifest_at_quiet t d w w1)).
  assert (Hat2 : manifest_at w2 t d = Some m) by (by rewrite (manifest_at_quiet t d w w2)).
  apply Hk; try done; [|congruence].
  destruct (HI t d Ht Hd) as (m' & Hm' & Hwf).
  { unfold manifest_at in Hat0. by destruct (obj w (okey t d OManifest)). }
  rewrite Hat0 in Hm'. injection Hm' as <-. eapply wf_manifest_kept, Hwf. apply Hq2.
Qed.

Lemma wp_authorize co holder fence (Φ : result store_error unit → W → Prop) w :
  (∀ r w', same w w' → Φ r w') → wp (authorize clock co holder fence) Φ w.
Proof.
  intros H. unfold authorize. assert (Hn : wp
    (now ← utcnow clock; lift (_authorize_checkout_view co holder fence now)) Φ w).
  { apply wp_bind, wp_utcnow. intros w' Hw'. apply wp_lift, H. eauto with py. }
  destruct holder, fence; try done. by apply wp_ret, H.
Qed.

(** ** Changing the head and the lock *)

Lemma with_head_ok w t d m e :
  wf_manifest sha256 w t d m → e ∈ m_versions m →
  wf_manifest sha256 w t d (with_head m (ve_v e)) ∧ grows m (with_head m (ve_v e)).
Proof. intros [] He. repeat (split; try done). by exists e. Qed.

Lemma with_lock_ok w t d m co :
  wf_manifest sha256 w t d m →
  co_fence co = Some (_next_fence m) →
  wf_manifest sha256 w t d (with_lock m (Some co) (Some (_next_fence m))) ∧
  grows m (with_lock m (Some co) (Some (_next_fence m))).
Proof.
  intros [] Hco. split; split; try done.
  - intros co' f [= <-] Hf. simpl. congruence.
  - unfold _next_fence, fence_counter. simpl. lia.
Qed.

Lemma unlock_ok w t d m co :
  wf_manifest sha256 w t d m → m_checkout m = Some co →
  wf_manifest sha256 w t d (with_lock m None (m_checkout_fence m)) ∧
  grows m (with_lock m None (m_checkout_fence m)).
Proof.
  intros [] Hco. split; split; try done.
  unfold fence_counter. simpl. rewrite Hco.
  destruct (m_checkout_fence m) as [f|] eqn:Ef; [lia|].
  destruct (co_fence co) as [f|] eqn:Ecf; simpl; [|lia].
  rewrite (wf_fence co f Hco Ecf) in Ef. done.
Qed.

(** ** Selecting a version *)

Section Bundles.
Variable request : Type.
Variable prepare_graph_bundle :
  string → string → string → option Z → request → store (string * string).
Variable read_graph_bundle : string → string → Z → store unit.
(** The adapter and the reader only read. *)
Hypothesis prepare_reads : ∀ t d x p g w, wp (prepare_graph_bundle t d x p g) (λ _ w', same w w') w.
Hypothesis read_reads : ∀ t d v w, wp (read_graph_bundle t d v) (λ _ w', same w w') w.

Lemma wp_resolve_entry t d v (Φ : result store_error (Z * string * version_entry) → W → Prop) w :
  (∀ m e w', same w w' → manifest_at w t d = Some m → find_version (m_versions m) v = Some e →
      Φ (Ok (v, okey t d (OVersion v), e)) w') →
  (∀ e w', same w w' → Φ (Err e) w') →
  wp (resolve_version_entry t d (VInt v)) Φ w.
Proof.
  intros Hok Herr. unfold resolve_version_entry, resolve_version.
  apply wp_bind, wp_ids; [|intros; by apply Herr]. intros Ht Hd.
  apply wp_bind, wp_load; [|auto]. intros w1 m _ _ Hs1 Hat _. cbn [m_versions].
  destruct (find_version (m_versions m) v) as [e|] eqn:Ef; [|by apply wp_raise, Herr].
  apply wp_bind, wp_key; [|intros; by apply Herr]. intros k (_ & _ & Hv & ->)%version_key_inv.
  apply wp_ret. apply wp_bind, wp_load; [|intros; apply Herr; by etrans].
  intros w2 m2 _ _ Hs2 Hat2 _.
  assert (m2 = m) as ->.
  { assert (quiet t d w w1) as Hq by (by apply same_quiet).
    rewrite (manifest_at_quiet t d w w1 Hq) in Hat2. congruence. }
  rewrite Ef. apply wp_ret. eapply Hok; [by etrans|done..].
Qed.

Lemma wp_verify_selected t d v (Φ : result store_error unit → W → Prop) w :
  (∀ m e w', same w w' → manifest_at w t d = Some m → e ∈ m_versions m → ve_v e = v → Φ (Ok tt) w') →
  (∀ e w', same w w' → Φ (Err e) w') →
  wp (_verify_selected_bundle read_graph_bundle t d v) Φ w.
Proof.
  intros Hok Herr. unfold _verify_selected_bundle.
  apply wp_bind, wp_resolve_entry; [|auto]. intros m e w1 Hs1 Hat [He Hv]%find_version_elem.
  destruct (startswith _ _).
  - eapply wp_mono; [apply read_reads|]. intros [[]|err] w2 Hs2.
    + eapply Hok; [by etrans|done..].
    + apply Herr. by etrans.
  - apply wp_ret. by eapply Hok.
Qed.

(** Moving the head to a listed version, the end of [undo] and of [redo]. *)
Lemma wp_move_head t d m v w0 w (Φ : result store_error Z → W → Prop) :
  valid t → valid d → quiet t d w0 w → manifest_at w t d = Some m → wf_manifest sha256 w t d m →
  (∀ w', evolves t d w0 w' → manifest_at w' t d = Some (with_head m v) → Φ (Ok v) w') →
  (∀ e w', evolves t d w0 w' → Φ (Err e) w') →
  wp (_ ← _verify_selected_bundle read_graph_bundle t d v;
      _ ← save_manifest t d (with_head m v); mret v) Φ w.
Proof.
  intros Ht Hd Hq Hat Hwf Hok Herr.
  assert (Hev : ∀ w', same w w' → quiet t d w0 w') by (intros; etrans; [done|by apply same_quiet]).
  apply wp_bind, wp_verify_selected; [|intros; by apply Herr, quiet_evolves, Hev].
  intros m1 e w1 Hs Hm1 He <-. rewrite Hat in Hm1. injection Hm1 as <-.
  assert (Hq1 := Hev _ Hs).
  destruct (with_head_ok w1 t d m e) as [Hwf' Hg]; [eapply wf_manifest_kept, Hwf; by apply same_quiet|done|].
  apply wp_bind. eapply (wp_save _ _ _ m); try done.
  - left. rewrite (manifest_at_quiet t d w w1); [done|by apply same_quiet].
  - intros [[]|err] w2 He2 Hr.
    + apply wp_ret, Hok; [|done]. etrans; [by apply quiet_evolves|done].
    + apply Herr. etrans; [by apply quiet_evolves|done].
Qed.

(** ** Writers that move the head *)

Definition unchanged_or {A} (t d : string) (w : W) (Q : A → W → Prop)
    (r : result store_error A) (w' : W) : Prop :=
  evolves t d w w' ∧ match r with Ok a => Q a w' | Err _ => True end.

Lemma undo_spec t d holder fence w :
  Inv sha256 w →
  wp (undo clock sha256 read_graph_bundle (PStr t) (PStr d) holder fence)
     (unchanged_or t d w (λ v w', ∃ m e, manifest_at w t d = Some m ∧
        find_version (m_versions m) (m_head m) = Some e ∧ ve_parent e = Some v ∧
        manifest_at w' t d = Some (with_head m v))) w.
Proof.
  intros HI. apply wp_ids; [|by intros e; split; [reflexivity|]]. intros Ht Hd.
  apply wp_guard_load; try done; [|intros; split; [by apply quiet_evolves|done]].
  intros m w1 Hq1 Hat0 Hat1 Hwf _.
  apply wp_bind, wp_authorize. intros [[]|e] w2 Hs2; [|split; [|done]].
  2:{ apply quiet_evolves. etrans; [done|by apply same_quiet]. }
  assert (Hq2 : quiet t d w w2) by (etrans; [done|by apply same_quiet]).
  destruct (find_version _ _) as [e|] eqn:Ef; [|by apply wp_raise; split; [apply quiet_evolves|]].
  destruct (ve_parent e) as [p|] eqn:Ep; [|by apply wp_raise; split; [apply quiet_evolves|]].
  eapply (wp_move_head t d m p w w2); try done.
  - by rewrite (manifest_at_quiet t d w w2).
  - eapply wf_manifest_kept, Hwf. by apply same_quiet.
  - intros w' Hev Hm. split; [done|]. eauto 6.
Qed.

Lemma redo_spec t d holder fence w :
  Inv sha256 w →
  wp (redo clock sha256 read_graph_bundle (PStr t) (PStr d) holder fence)
     (unchanged_or t d w (λ v w', ∃ m, manifest_at w t d = Some m ∧ m_head m ≠ m_latest m ∧
        redo_target (m_versions m) (m_head m) (m_latest m) = Some (Some v) ∧
        manifest_at w' t d = Some (with_head m v))) w.
Proof.
  intros HI. apply wp_ids; [|by intros e; split; [reflexivity|]]. intros Ht Hd.
  apply wp_guard_load; try done; [|intros; split; [by apply quiet_evolves|done]].
  intros m w1 Hq1 Hat0 Hat1 Hwf _.
  apply wp_bind, wp_authorize. intros [[]|e] w2 Hs2; [|split; [|done]].
  2:{ apply quiet_evolves. etrans; [done|by apply same_quiet]. }
  assert (Hq2 : quiet t d w w2) by (etrans; [done|by apply same_quiet]).
  destruct (Z.eqb_spec (m_head m) (m_latest m)); [by apply wp_raise; split; [apply quiet_evolves|]|].
  destruct (redo_target _ _ _) as [[v|]|] eqn:Er;
    [|by apply wp_raise; split; [apply quiet_evolves|]..].
  eapply (wp_move_head t d m v w w2); try done.
  - by rewrite (manifest_at_quiet t d w w2).
  - eapply wf_manifest_kept, Hwf. by apply same_quiet.
  - intros w' Hev Hm. split; [done|]. eauto 6.
Qed.

(** ** The checkout lock *)

Lemma acquire_spec t d holder ttl expected strict w :
  let now := clock (w_tick w) in
  Inv sha256 w →
  wp (acquire_checkout_fence clock sha256 (PStr t) (PStr d) holder ttl expected strict)
     (unchanged_or t d w (λ f w', valid t ∧ valid d ∧ ∃ m, manifest_at w t d = Some m ∧
        match f with
        | None => quiet t d w w' ∧
            acquire_allowed (m_checkout m) now holder expected strict = false
        | Some g => holder ≠ ANONYMOUS_HOLDER ∧ g = _next_fence m ∧
            acquire_allowed (m_checkout m) now holder expected strict = true ∧
            in_datetime_range (now + ttl) = true ∧
            manifest_at w' t d = Some (with_lock m
              (Some (Checkout holder (isoformat now) (isoformat (now + ttl)) (Some g))) (Some g))
        end)) w.
Proof.
  intros now HI. unfold acquire_checkout_fence. case_bool_decide; [by apply wp_raise; split|].
  apply wp_ids; [|by intros e; split; [reflexivity|]]. intros Ht Hd.
  apply wp_guard_load; try done; [|intros; split; [by apply quiet_evolves|done]].
  intros m w1 Hq1 Hat0 Hat1 Hwf Hk.
  apply wp_bind, wp_utcnow. intros w2 Hw2. rewrite Hk. fold now.
  assert (Hs2 : same w1 w2) by (by apply utcnow_same).
  assert (Hq2 : quiet t d w w2) by (etrans; [done|by apply same_quiet]).
  destruct (acquire_allowed _ _ _ _ _) eqn:Ea; cbn [negb].
  2:{ apply wp_ret. split; [by apply quiet_evolves|]. do 2 (split; [done|]). by exists m. }
  destruct (in_datetime_range _) eqn:Er; cbn [negb]; [|by apply wp_raise; split; [apply quiet_evolves|]].
  set (co := Checkout _ _ _ _).
  destruct (with_lock_ok w2 t d m co) as [Hwf' Hg];
    [eapply wf_manifest_kept, Hwf; by apply same_quiet|done|].
  apply wp_bind. eapply (wp_save _ _ _ m); try done.
  - left. by rewrite (manifest_at_quiet t d w w2).
  - intros [[]|err] w3 Hev Hr.
    + apply wp_ret. split; [etrans; [by apply quiet_evolves|done]|].
      do 2 (split; [done|]). exists m. by repeat (split; [done|]).
    + split; [|done]. etrans; [by apply quiet_evolves|done].
Qed.

Lemma release_spec t d holder expected w :
  let now := clock (w_tick w) in
  Inv sha256 w →
  wp (release_checkout clock sha256 (PStr t) (PStr d) holder expected)
     (unchanged_or t d w (λ ok w', ∃ m, manifest_at w t d = Some m ∧
        release_allowed (m_checkout m) now holder expected = ok ∧
        if ok then manifest_at w' t d = Some (with_lock m None (m_checkout_fence m))
        else quiet t d w w')) w.
Proof.
  intros now HI. apply wp_ids; [|by intros e; split; [reflexivity|]]. intros Ht Hd.
  apply wp_guard_load; try done; [|intros; split; [by apply quiet_evolves|done]].
  intros m w1 Hq1 Hat0 Hat1 Hwf Hk.
  destruct (m_checkout m) as [co|] eqn:Eco.
  2:{ apply wp_ret. split; [by apply quiet_evolves|]. exists m. by rewrite Eco. }
  apply wp_bind, wp_utcnow. intros w2 Hw2. rewrite Hk. fold now.
  assert (Hs2 : same w1 w2) by (by apply utcnow_same).
  assert (Hq2 : quiet t d w w2) by (etrans; [done|by apply same_quiet]).
  destruct (release_allowed _ _ _ _) eqn:Ea.
  2:{ apply wp_ret. split; [by apply quiet_evolves|]. exists m. by rewrite Eco. }
  destruct (unlock_ok w2 t d m co) as [Hwf' Hg];
    [eapply wf_manifest_kept, Hwf; by apply same_quiet|done|].
  apply wp_bind. eapply (wp_save _ _ _ m); try done.
  - left. by rewrite (manifest_at_quiet t d w w2).
  - intros [[]|err] w3 Hev Hr.
    + apply wp_ret. split; [etrans; [by apply quiet_evolves|done]|]. exists m. by rewrite Eco.
    + split; [|done]. etrans; [by apply quiet_evolves|done].
Qed.

(** ** [put_drawing] *)

(** The stored bytes have the size and digest of [data]. *)
Definition stored (w : W) (t d : string) (v : Z) (data : string) : Prop :=
  ∃ x, obj w (okey t d (OVersion v)) = Some x ∧
       String.length x = String.length data ∧ sha256 x = sha256 data.

Lemma stored_quiet w w' t d v data :
  1 <= v <= 99999999 → quiet t d w w' → stored w t d v data → stored w' t d v data.
Proof. intros Hv [_ Hq _] (x & Hx & ?). exists x. auto. Qed.

Lemma find_slot_spec n t d isb data v w0 w :
  valid t → valid d → 1 <= v <= 99999999 → quiet t d w0 w →
  wp (find_slot sha256 n t d isb data (sha256 data) v (okey t d (OVersion v)))
     (λ r w', quiet t d w0 w' ∧
        match r with
        | Ok (v', k', adopted) =>
            v <= v' <= 99999999 ∧ k' = okey t d (OVersion v') ∧
            if adopted then stored w' t d v' data else obj w' k' = None
        | Err _ => True
        end) w.
Proof.
  intros Ht Hd. revert v w. induction n as [|n IH]; intros v w Hv Hq; [by apply wp_raise|].
  cbn [find_slot]. assert (Hc : canonical (okey t d (OVersion v)) = true) by (by apply okey_canonical).
  apply wp_bind, wp_exists; [done|]. intros r1 w1 Hs1 Hr1 _.
  assert (Hq1 : quiet t d w0 w1) by (etrans; [done|by apply same_quiet]).
  destruct r1 as [[]|]; [| |done]; cbn [negb].
  2:{ apply wp_ret. split; [done|]. split; [lia|]. split; [done|]. rewrite Hs1 by done. by apply Hr1. }
  destruct (negb isb && _); [by apply wp_raise|].
  apply wp_bind, wp_get; [done|]. intros r2 w2 Hs2 Hr2 _.
  assert (Hq2 : quiet t d w0 w2) by (etrans; [done|by apply same_quiet]).
  destruct r2 as [x|]; [|done].
  case_bool_decide as Hlen; [case_bool_decide as Hsha|]; cbn [andb].
  - apply wp_ret. split; [done|]. split; [lia|]. split; [done|]. exists x. by rewrite Hs2.
  - apply wp_bind, wp_key; [|done]. intros k (_ & _ & Hv' & ->)%version_key_inv.
    eapply wp_mono; [by apply IH|]. intros [[[v' k'] a]|] w3; [|done]. intros (?&?&?&?). eauto with lia.
  - apply wp_bind, wp_key; [|done]. intros k (_ & _ & Hv' & ->)%version_key_inv.
    eapply wp_mono; [by apply IH|]. intros [[[v' k'] a]|] w3; [|done]. intros (?&?&?&?). eauto with lia.
Qed.

Lemma put_or_verify_version t d v data w :
  valid t → valid d → 1 <= v <= 99999999 →
  wp (_put_or_verify_blob sha256 (okey t d (OVersion v)) data (sha256 data))
     (λ r w', quiet t d w w' ∧ match r with Ok _ => stored w' t d v data | Err _ => True end) w.
Proof.
  intros Ht Hd Hv. unfold _put_or_verify_blob.
  apply wp_bind. eapply wp_version_put_if_absent; [done..|]. intros [[]|] w1 Hq1 Hr1; [|done].
  apply wp_bind, wp_get; [by apply okey_canonical|]. intros [x|] w2 Hs2 Hr2 _.
  all: assert (Hq2 : quiet t d w w2) by (etrans; [done|by apply same_quiet]).
  2: done.
  case_wp; [by apply wp_raise|]. apply wp_ret. split; [done|].
  exists data. by rewrite Hs2 by (by apply okey_canonical).
Qed.

Lemma publish_bundle_quiet t d raw w :
  valid t → valid d →
  wp (_publish_graph_bundle sha256 t d raw) (λ _ w', quiet t d w w') w.
Proof.
  intros Ht Hd. unfold _publish_graph_bundle. apply wp_bind, wp_key; [|done].
  intros k (_ & _ & Hh & ->)%bundle_key_inv. unfold _put_or_verify_blob.
  assert (Hside : side_object sha256 t d (okey t d (OBundle (sha256 raw)))) by (by apply okey_side).
  apply wp_bind, (wp_side_put_if_absent sha256 sha256_hex t d); [done..|].
  intros [[]|] w1 Hq1; [|done].
  apply wp_bind, wp_get; [by apply okey_canonical|]. intros [x|] w2 Hs2 _ _.
  all: assert (quiet t d w w2) by (etrans; [done|by apply same_quiet]).
  2: done.
  by case_wp; [apply wp_raise|apply wp_ret].
Qed.

Lemma publish_blobs_spec t d bundle data v (adopted : bool) co w :
  valid t → valid d → 1 <= v <= 99999999 →
  (if adopted then stored w t d v data else obj w (okey t d (OVersion v)) = None) →
  wp (publish_blobs clock sha256 t d bundle data (sha256 data) (okey t d (OVersion v)) adopted co)
     (λ r w', quiet t d w w' ∧ match r with Ok _ => stored w' t d v data | Err _ => True end) w.
Proof.
  intros Ht Hd Hv Hslot. destruct bundle as [raw|]; cbn [publish_blobs].
  - apply wp_bind. eapply wp_mono; [by apply put_or_verify_version|].
    intros [[]|] w1 [Hq1 Hst]; [|done].
    apply wp_bind. eapply wp_mono; [by apply publish_bundle_quiet|].
    intros [[]|] w2 Hq2; [|split; [by etrans|done]].
    apply wp_bind, wp_utcnow. intros w3 Hw3%utcnow_same.
    assert (quiet t d w1 w3) by (etrans; [exact Hq2|by apply same_quiet]).
    assert (quiet t d w w3) by (etrans; [exact Hq1|done]).
    destruct (_is_active _ _); [apply wp_ret|by apply wp_raise].
    split; [done|by apply (stored_quiet w1)].
  - destruct adopted; [by apply wp_ret|].
    eapply wp_put_version; try done. intros r w' Hq Hr. split; [done|].
    destruct r as [[]|]; [|done]. by exists data.
Qed.

(** Appending the row of a stored blob. *)
Lemma append_ok w t d m e :
  wf_manifest sha256 w t d m → blob_ok sha256 w t d e → m_latest m < ve_v e →
  wf_manifest sha256 w t d (append_version m e) ∧ grows m (append_version m e).
Proof.
  intros [] Hb Hlt. split; split; try done; simpl.
  - by eapply rows_snoc.
  - exists e. set_solver.
  - rewrite Forall_app, Forall_singleton. done.
  - by apply prefix_app_r.
Qed.

Lemma save_append t d m e w0 w (Φ : result store_error unit → W → Prop) :
  valid t → valid d → quiet t d w0 w → manifest_at w t d = Some m →
  wf_manifest sha256 w t d m → blob_ok sha256 w t d e → m_latest m < ve_v e →
  (∀ w', evolves t d w0 w' → manifest_at w' t d = Some (append_version m e) → Φ (Ok tt) w') →
  (∀ err w', evolves t d w0 w' → Φ (Err err) w') →
  wp (save_manifest t d (append_version m e)) Φ w.
Proof.
  intros Ht Hd Hq Hat Hwf Hb Hlt Hok Herr.
  destruct (append_ok w t d m e) as [Hwf' Hg]; [done..|].
  eapply (wp_save _ _ _ m); try done; [by left|].
  intros [[]|err] w' Hev Hr; [apply Hok|apply Herr]; try done;
    (etrans; [by apply quiet_evolves|done]).
Qed.

Lemma suppressed_delete_quiet t d k w (Φ : result store_error unit → W → Prop) :
  valid t → valid d → side_object sha256 t d k →
  (∀ w', quiet t d w w' → Φ (Ok tt) w') → wp (suppressed_delete k) Φ w.
Proof.
  intros Ht Hd Hk H. apply wp_try, (wp_side_delete sha256 sha256_hex t d); [done..|].
  intros [[]|] w' Hq; [|apply wp_ret]; auto.
Qed.

Lemma write_plan_quiet t d k bytes w (Φ : result store_error (option bool) → W → Prop) :
  valid t → valid d → side_object sha256 t d k →
  (∀ o w', quiet t d w w' → Φ (Ok o) w') → wp (write_plan k bytes) Φ w.
Proof.
  intros Ht Hd Hk H. apply wp_try, wp_bind, wp_exists; [by apply (side_canonical sha256 sha256_hex t d)|].
  assert (Hfail : ∀ w1, quiet t d w w1 → wp (_ ← suppressed_delete k; mret None) Φ w1).
  { intros w1 Hq1. apply wp_bind, (suppressed_delete_quiet t d); [done..|].
    intros w2 Hq2. apply wp_ret, H. by etrans. }
  intros [b|e] w1 Hs1 _ _.
  all: assert (Hq1 : quiet t d w w1) by (by apply same_quiet).
  2: by apply Hfail.
  apply wp_bind, (wp_side_put_if_absent sha256 sha256_hex t d); [done..|].
  intros [[]|e] w2 Hq2; [apply wp_ret, H|apply Hfail]; by etrans.
Qed.

Definition appended (t d : string) (m : manifest) (e : version_entry) (w : W) : Prop :=
  ∃ p, manifest_at w t d = Some (append_version m (set_plan e p)).

Lemma save_with_plan_spec t d k m e written meta parent w0 w :
  valid t → valid d → side_object sha256 t d k → quiet t d w0 w → manifest_at w t d = Some m →
  wf_manifest sha256 w t d m → blob_ok sha256 w t d e → m_latest m < ve_v e →
  wp (save_with_plan t d k m e written meta parent)
     (unchanged_or t d w0 (λ _ w', appended t d m e w')) w.
Proof.
  intros Ht Hd Hk Hq Hat Hwf Hb Hlt. unfold save_with_plan.
  set (e' := match written with Some _ => _ | None => e end).
  assert (∃ p, e' = set_plan e p) as [p ->].
  { destruct written; [by eexists|]. exists (ve_plan e). by destruct e. }
  apply wp_try. eapply (save_append t d m (set_plan e p) w0 w); try done.
  - intros w' Hev Hm. split; [done|]. by exists p.
  - intros err w1 He1. apply wp_bind. case_bool_decide; [|by apply wp_ret, wp_raise; split].
    apply (suppressed_delete_quiet t d); [done..|]. intros w2 Hq2. apply wp_raise.
    split; [|done]. etrans; [done|by apply quiet_evolves].
Qed.

Lemma store_plan_spec t d m e plan meta parent w0 w :
  valid t → valid d → quiet t d w0 w → manifest_at w t d = Some m →
  wf_manifest sha256 w t d m → blob_ok sha256 w t d e → m_latest m < ve_v e →
  wp (store_plan_and_save t d m e plan meta parent)
     (unchanged_or t d w0 (λ _ w', appended t d m e w')) w.
Proof.
  intros Ht Hd Hq Hat Hwf Hb Hlt. destruct plan as [bytes|]; cbn [store_plan_and_save].
  - apply wp_bind, wp_key; [|intros; split; [by apply quiet_evolves|done]].
    intros k (_ & _ & Hv & ->)%plan_key_inv.
    assert (Hside : side_object sha256 t d (okey t d (OPlan (ve_v e)))) by (by apply okey_side).
    apply wp_bind, (write_plan_quiet t d); [done..|]. intros o w1 Hq1.
    apply save_with_plan_spec; try done.
    + by etrans.
    + by rewrite (manifest_at_quiet t d w w1).
    + eapply wf_manifest_kept, Hwf. apply Hq1.
    + destruct Hb as (Hr & x & Hx & Hs). split; [done|]. exists x. split; [|done]. by apply Hq1.
  - eapply (save_append t d m e w0 w); try done. intros w' Hev Hm. split; [done|].
    exists (ve_plan e). by destruct e.
Qed.

(** What a successful commit of [data] leaves in the manifest. *)
Definition committed (t d : string) (m : manifest) (data : string) (parent : option Z)
    (meta : write_meta) (v : Z) (w' : W) : Prop :=
  1 <= v <= 99999999 ∧ m_latest m < v ∧ stored w' t d v data ∧
  ∃ e, manifest_at w' t d = Some (append_version m e) ∧ ve_v e = v ∧ ve_parent e = parent ∧
    ve_bytes e = Z.of_nat (String.length data) ∧ ve_sha256 e = sha256 data ∧
    ve_workitem_id e = wm_workitem_id meta ∧ ve_tool e = wm_tool meta ∧ ve_note e = wm_note meta.

Lemma evolves_stored w w' t d v data :
  1 <= v <= 99999999 → evolves t d w w' → stored w t d v data → stored w' t d v data.
Proof. intros Hv [_ Hk _] (x & Hx & ?). exists x. auto. Qed.

Lemma commit_spec t d data m parent meta bundle plan prepare w :
  valid t → valid d → manifest_at w t d = Some m → wf_manifest sha256 w t d m →
  wp (commit_version clock sha256 t d data m parent meta bundle plan prepare)
     (unchanged_or t d w (λ v w', committed t d m data parent meta v w')) w.
Proof.
  intros Ht Hd Hat Hwf. unfold commit_version.
  apply wp_bind, wp_key; [|intros; split; [reflexivity|done]].
  intros k (_ & _ & Hv & ->)%version_key_inv.
  apply wp_bind. eapply wp_mono; [by apply (find_slot_spec _ t d _ data _ w w)|].
  intros [[[v k] adopted]|] w1; [|by intros [? _]; split; [apply quiet_evolves|]].
  intros (Hq1 & Hv' & -> & Hslot). cbv beta iota.
  assert (Hr : 1 <= v <= 99999999) by lia.
  apply wp_bind. eapply wp_mono; [by apply publish_blobs_spec|].
  intros [[]|] w2 [Hq2 Hst]; [|split; [apply quiet_evolves; by etrans|done]].
  apply wp_bind. unfold _now_iso. apply wp_bind, wp_utcnow. intros w3 Hs3%utcnow_same. apply wp_ret.
  assert (Hq23 : quiet t d w2 w3) by (by apply same_quiet).
  assert (Hq : quiet t d w w3) by (etrans; [exact Hq1|by etrans]).
  assert (Hst3 : stored w3 t d v data) by (by apply (stored_quiet w2)).
  apply wp_bind. set (e := VersionEntry _ _ _ _ _ _ _ _ _ _).
  assert (Hrest : ∀ p, wp (_ ← store_plan_and_save t d m e p meta parent; mret v)
     (unchanged_or t d w (λ v w', committed t d m data parent meta v w')) w3).
  { intros p. apply wp_bind.
    eapply wp_mono; [apply (store_plan_spec t d m e p meta parent w3 w3); try done|].
    - by rewrite (manifest_at_quiet t d w w3).
    - eapply wf_manifest_kept, Hwf. apply Hq.
    - split; [done|]. destruct Hst3 as (x & Hx & Hl & Hsha). exists x. simpl. by rewrite Hl.
    - simpl. lia.
    - intros [[]|] w4 [Hev Hap]; (split; [etrans; [by apply quiet_evolves|done]|]); [|done].
      destruct Hap as [p' Hap]. split; [lia|]. split; [lia|]. split; [by eapply evolves_stored|].
      by exists (set_plan e p'). }
  destruct plan as [bytes|], prepare as [f|]; try (by apply wp_ret, Hrest).
  apply wp_lift. destruct (f v) as [b|]; [by apply Hrest|]. by split; [apply quiet_evolves|].
Qed.

Lemma bundle_conditions_spec m bundle meta holder fence (Φ : result store_error (option Z) → W → Prop) w :
  (∀ w', same w w' → Φ (Ok None) w') →
  (∀ e w', same w w' → e ∈ m_versions m → ve_workitem_id e = wm_workitem_id meta →
     ve_note e = wm_note meta → is_Some bundle → Φ (Ok (Some (ve_v e))) w') →
  (∀ err w', same w w' → Φ (Err err) w') →
  wp (bundle_conditions clock m bundle meta holder fence) Φ w.
Proof.
  intros Hnone Hsome Herr. destruct bundle as [raw|]; cbn [bundle_conditions]; [|by apply wp_ret, Hnone].
  apply wp_bind, wp_utcnow. intros w1 Hs1%utcnow_same.
  case_wp; [by apply wp_raise, Herr|]. case_wp; [by apply wp_raise, Herr|].
  destruct (list_find _ _) as [[i e]|] eqn:El; [|by apply wp_ret, Hnone].
  apply list_find_Some in El as (Hl & Hw & _). destruct (bool_decide (ve_note e = _)) eqn:Hn; [bool_prop|by apply wp_raise, Herr].
  apply wp_ret, Hsome; try done. by eapply list_elem_of_lookup_2.
Qed.

Lemma check_bundle_reads t d data parent meta holder fence graph w :
  wp (check_bundle sha256 request prepare_graph_bundle t d data parent meta holder fence graph)
     (λ r w', same w w' ∧ match r with
        | Ok (bundle, meta') => is_Some bundle ↔ is_Some graph
        | Err _ => True end) w.
Proof.
  destruct graph as [g|]; cbn [check_bundle]; [|apply wp_ret; split; [done|by split; intros []]].
  case_wp; [by apply wp_raise|]. case_wp; [by apply wp_raise|].
  apply wp_bind. eapply wp_mono; [apply prepare_reads|]. intros [[raw app]|] w1 Hs; [|done].
  apply wp_ret. split; [done|]. by split.
Qed.

(** A returned version is a replay of an apply that is already in the manifest,
    or a freshly committed row. *)
Definition put_result (t d data : string) (parent : option Z) (graph : option request)
    (w : W) (v : Z) (w' : W) : Prop :=
  valid t ∧ valid d ∧ ∃ m, manifest_at w t d = Some m ∧
    ((is_Some graph ∧ quiet t d w w' ∧ ∃ e, e ∈ m_versions m ∧ ve_v e = v) ∨
     (∃ meta, committed t d m data parent meta v w')).

Lemma put_spec t d data parent meta holder fence rph graph plan prepare w :
  Inv sha256 w →
  wp (put_drawing clock sha256 request prepare_graph_bundle (PStr t) (PStr d) data parent meta
        holder fence rph graph plan prepare)
     (unchanged_or t d w (λ v w', put_result t d data parent graph w v w')) w.
Proof.
  intros HI. unfold put_drawing. apply wp_ids; [|by intros e; split; [reflexivity|]]. intros Ht Hd.
  apply wp_bind, wp_lift. destruct (check_plan _ _ _ _) as [meta1|]; [|by split; [reflexivity|]].
  apply wp_bind. eapply wp_mono; [apply check_bundle_reads|].
  intros [[bundle meta2]|] w0 [Hs0 Hb]; [|by split; [apply quiet_evolves, same_quiet|]].
  cbv beta iota zeta.
  assert (Hq0 : quiet t d w w0) by (by apply same_quiet).
  assert (HI0 : Inv sha256 w0) 
    by (by apply (evolves_Inv sha256 t d w w0 Ht Hd (quiet_evolves _ _ _ _ _ Hq0) HI)).
  apply wp_guard_load; try done; [|intros; split; [apply quiet_evolves; by etrans|done]].
  intros m w1 Hq1 Hat0 Hat1 Hwf _.
  assert (Hq01 : quiet t d w w1) by (by etrans).
  assert (Hat : manifest_at w t d = Some m) by (by rewrite <- (manifest_at_quiet t d w w1)).
  apply wp_bind, wp_authorize. intros [[]|err] w2 Hs2.
  all: assert (Hq12 : quiet t d w1 w2) by (by apply same_quiet).
  2: { split; [apply quiet_evolves; by etrans|done]. }
  apply wp_bind, bundle_conditions_spec.
  - intros w3 Hs3. assert (Hq13 : quiet t d w1 w3) by (etrans; [done|by apply same_quiet]).
    case_wp; [apply wp_raise; split; [apply quiet_evolves; by etrans|done]|].
    eapply wp_mono; [apply (commit_spec t d data m); try done|].
    + by rewrite (manifest_at_quiet t d w1 w3).
    + eapply wf_manifest_kept, Hwf. apply Hq13.
    + intros r w4 [Hev Hr]. split; [etrans; [apply quiet_evolves; by etrans|done]|].
      destruct r as [v|]; [|done]. do 2 (split; [done|]). exists m. eauto.
  - intros e w3 Hs3 He _ _ Hsome. apply wp_ret.
    assert (quiet t d w w3) by (etrans; [exact Hq01|etrans; [done|by apply same_quiet]]).
    split; [by apply quiet_evolves|]. do 2 (split; [done|]). exists m. split; [done|]. left.
    split; [by apply Hb|]. split; [done|]. by exists e.
  - intros err w3 Hs3. split; [|done]. apply quiet_evolves.
    etrans; [exact Hq01|etrans; [done|by apply same_quiet]].
Qed.

(** ** [ingest_drawing] *)

Lemma first_row_ok w t d created data :
  stored w t d 1 data →
  wf_manifest sha256 w t d (Manifest t d 1 1
    [VersionEntry 1 None created (Z.of_nat (String.length data)) (sha256 data)
       None None (Some "initial ingest"%string) None None] None None).
Proof.
  intros (x & Hx & Hl & Hs). split; try done; simpl.
  - split; [by repeat constructor|done].
  - eexists. split; [by apply list_elem_of_singleton|done].
  - rewrite Forall_singleton. split; [simpl; lia|]. exists x. simpl. by rewrite Hl.
Qed.

Lemma ingest_body_spec t d data w :
  valid t → valid d →
  wp (ingest_body clock sha256 t d data (okey t d (OVersion 1)))
     (unchanged_or t d w (λ r w', r = (d, 1) ∧ obj w (okey t d OManifest) = None ∧
        stored w' t d 1 data ∧ ∃ m, manifest_at w' t d = Some m ∧ m_head m = 1 ∧ m_latest m = 1)) w.
Proof.
  intros Ht Hd. unfold ingest_body.
  assert (Hq : ∀ w', same w w' → quiet t d w w') by (intros; by apply same_quiet).
  apply wp_bind, wp_key; [|intros; split; [reflexivity|done]].
  intros k (_ & _ & ->)%manifest_key_inv.
  apply wp_bind, wp_exists; [by apply okey_canonical|]. intros r1 w1 Hs1 Hr1 _.
  destruct r1 as [[]|];
    [by apply wp_raise; split; [apply quiet_evolves, Hq|]| |by split; [apply quiet_evolves, Hq|]].
  apply wp_bind, wp_exists; [by apply okey_canonical|]. intros r2 w2 Hs2 Hr2 _.
  assert (Hs02 : same w w2) by (by etrans).
  destruct r2 as [[]|];
    [by apply wp_raise; split; [apply quiet_evolves, Hq|]| |by split; [apply quiet_evolves, Hq|]].
  assert (H1 : 1 <= 1 <= 99999999) by lia.
  apply wp_bind. eapply (wp_put_version _ t d 1); try done.
  { rewrite Hs2 by (by apply okey_canonical). by apply Hr2. }
  intros [[]|] w3 Hq3 Hr3; [|split; [apply quiet_evolves; etrans; [by apply Hq|done]|done]].
  apply wp_bind. unfold _now_iso. apply wp_bind, wp_utcnow. intros w4 Hs4%utcnow_same. apply wp_ret.
  assert (Hst : stored w4 t d 1 data).
  { exists data. split; [|done]. by rewrite Hs4 by (by apply okey_canonical). }
  assert (Hq4 : quiet t d w w4) by (etrans; [by apply Hq|etrans; [done|by apply same_quiet]]).
  assert (Hnone : obj w (okey t d OManifest) = None) by (by apply Hr1).
  apply wp_bind. cbn [m_head m_latest m_versions m_checkout m_checkout_fence _new_manifest app].
  eapply (wp_save _ t d (_new_manifest t d)); try done.
  - right. by destruct Hq4 as [_ _ ->].
  - by apply first_row_ok.
  - unfold manifest_at. destruct Hq4 as [_ _ ->]. by rewrite Hnone.
  - intros [[]|] w5 Hev Hr5; (split; [etrans; [by apply quiet_evolves|done]|]); [|done].
    do 2 (split; [done|]). split; [by eapply evolves_stored|]. by eexists.
Qed.

Lemma ingest_cleanup_quiet t d k w :
  valid t → valid d → wp (ingest_cleanup sha256 t d k) (λ r w', r = Ok tt ∧ quiet t d w w') w.
Proof.
  intros Ht Hd. unfold ingest_cleanup. apply wp_try, wp_bind, wp_key; [|by intros; apply wp_ret].
  intros lk (_ & _ & ->)%lock_key_inv. apply wp_bind, wp_bk.
  eapply wp_mono; [apply law_object_keys|]. simpl. intros r b' Hu.
  assert (Hq : quiet t d w (World b' (w_tick w))) by (by apply same_quiet).
  destruct r as [[ks|]|]; [|by apply wp_ret..]. case_wp; [|by apply wp_ret].
  apply wp_bind. destruct cross_process_checkout_safe; [|by apply wp_ret, wp_ret].
  apply (wp_reclaim sha256 sha256_hex t d).
  intros [b|] w2 Hq2%lock_only_quiet _; try done; apply wp_ret; (split; [done|by etrans]).
Qed.

Definition ingest_id (d fresh : string) : string := if truthy (PStr d) then d else fresh.

Lemma ingest_spec t d fresh data pre w :
  let d' := ingest_id d fresh in
  wp (ingest_drawing clock sha256 (PStr t) (PStr d) fresh data pre)
     (unchanged_or t d' w (λ r w', r = (d', 1) ∧ obj w (okey t d' OManifest) = None ∧
        stored w' t d' 1 data ∧ ∃ m, manifest_at w' t d' = Some m ∧ m_head m = 1 ∧ m_latest m = 1)) w.
Proof.
  intros d'. unfold ingest_drawing.
  apply wp_bind, wp_key; [|by intros; split; [reflexivity|]].
  intros t' [[= ->] Ht]%sanitize_valid.
  assert (Hrest : wp (vkey ← key (Keys.drawing_version_key (PStr t') (PStr d') 1);
      _legacy_checkout_guard sha256 t' d' true pre
        (try_except (ingest_body clock sha256 t' d' data vkey)
           (λ e, _ ← ingest_cleanup sha256 t' d' vkey; raise e)))
     (unchanged_or t' d' w (λ r w', r = (d', 1) ∧ obj w (okey t' d' OManifest) = None ∧
        stored w' t' d' 1 data ∧ ∃ m, manifest_at w' t' d' = Some m ∧ m_head m = 1 ∧ m_latest m = 1)) w).
  { apply wp_bind, wp_key; [|by intros; split; [reflexivity|]].
    intros k (_ & Hd & _ & ->)%version_key_inv.
    apply wp_guard; [done..| |intros; split; [by apply quiet_evolves|done]].
    intros w1 Hq1 _. apply wp_try. eapply wp_mono; [by apply ingest_body_spec|].
    intros [[did v]|err] w2 [Hev Hr].
    - split; [etrans; [by apply quiet_evolves|done]|]. destruct Hr as (-> & Hn & Hrest).
      split; [done|]. split; [|done]. by rewrite <- (q_manifest _ _ _ _ _ Hq1).
    - apply wp_bind. eapply wp_mono; [by apply ingest_cleanup_quiet|]. intros r w3 [-> Hq3].
      apply wp_raise. split; [|done]. etrans; [by apply quiet_evolves|].
      etrans; [done|by apply quiet_evolves]. }
  apply wp_bind. unfold d', ingest_id in *. destruct (truthy (PStr d)); [|by apply wp_ret].
  apply wp_key; [|by intros; split; [reflexivity|]]. by intros d0 [[= ->] _]%sanitize_valid.
Qed.

End Bundles.
End Writers.
