(* ===== verification/StoreTheorems.v ===== *)
(** * Guarantees of the drawing store over whole histories

    A history is any sequence of writer calls, successful or not, on any drawings
    of any tenants, over any backend that keeps the contract [BackendLaws].  Under
    the contract any operation may fail, but [exists] never denies an object that is
    there; the filesystem backend keeps that only while no [stat] fails
    ([FsBackend], [FsDemo.failed_stat_lets_ingest_overwrite]).  The theorems read the store's promises off [evolves]. *)

From S2P Require Import Prelude PyText TenantIds Json IsoTime Manifest Backend StoreKeys DrawingStore StoreInv StoreProofs.
From stdpp Require Import sorting.
Local Open Scope Z_scope.
Import IdFacts.

(** ** Histories *)

Inductive writer (R : Type) :=
| WIngest (t d fresh data : string) (pre : option (result store_error bool))
| WPut (t d data : string) (parent : option Z) (meta : write_meta) (holder : option string)
       (fence : option Z) (require_parent_is_head : bool) (graph : option R)
       (plan : option string) (prepare : option (Z → result store_error bool))
| WUndo (t d : string) (holder : option string) (fence : option Z)
| WRedo (t d : string) (holder : option string) (fence : option Z)
| WAcquire (t d holder : string) (ttl_us : Z) (expected : option Z) (strict : bool)
| WRelease (t d : string) (holder : option string) (expected : option Z).
Arguments WIngest {R}. Arguments WPut {R}. Arguments WUndo {R}. Arguments WRedo {R}.
Arguments WAcquire {R}. Arguments WRelease {R}.

Inductive answer :=
| AVersion (v : Z)
| AFence (f : option Z)
| AReleased (b : bool).

(** The drawing a call works on. *)
Definition target {R} (c : writer R) : string * string :=
  match c with
  | WIngest t d fresh _ _ => (t, ingest_id d fresh)
  | WPut t d _ _ _ _ _ _ _ _ _ | WUndo t d _ _ | WRedo t d _ _
  | WAcquire t d _ _ _ _ | WRelease t d _ _ => (t, d)
  end.

Section Histories.
Context {B : Type} `{!StorageBackend B, !BackendLaws B}.
Variable clock : nat → instant.
Variable sha256 : string → string.
Hypothesis sha256_hex : ∀ s, Keys.is_sha256_hex (sha256 s) = true.
Abbreviation W := (world B).
Abbreviation store := (io W store_error).
Variable request : Type.
Variable prepare_graph_bundle :
  string → string → string → option Z → request → store (string * string).
Variable read_graph_bundle : string → string → Z → store unit.
Hypothesis prepare_reads : ∀ t d x p g w, wp (prepare_graph_bundle t d x p g) (λ _ w', same w w') w.
Hypothesis read_reads : ∀ t d v w, wp (read_graph_bundle t d v) (λ _ w', same w w') w.

Definition run_writer (c : writer request) : store answer :=
  match c with
  | WIngest t d fresh data pre =>
      r ← ingest_drawing clock sha256 (PStr t) (PStr d) fresh data pre; mret (AVersion r.2)
  | WPut t d data parent meta holder fence rph graph plan prepare =>
      v ← put_drawing clock sha256 request prepare_graph_bundle (PStr t) (PStr d) data parent meta
            holder fence rph graph plan prepare; mret (AVersion v)
  | WUndo t d holder fence =>
      v ← undo clock sha256 read_graph_bundle (PStr t) (PStr d) holder fence; mret (AVersion v)
  | WRedo t d holder fence =>
      v ← redo clock sha256 read_graph_bundle (PStr t) (PStr d) holder fence; mret (AVersion v)
  | WAcquire t d holder ttl expected strict =>
      f ← acquire_checkout_fence clock sha256 (PStr t) (PStr d) holder ttl expected strict;
      mret (AFence f)
  | WRelease t d holder expected =>
      b ← release_checkout clock sha256 (PStr t) (PStr d) holder expected; mret (AReleased b)
  end.

(** The state after a history. *)
Definition after (cs : list (writer request)) (w : W) : W :=
  foldl (λ w c, final (run_writer c) w) w cs.

Lemma after_snoc cs c w : after (cs ++ [c]) w = final (run_writer c) (after cs w).
Proof. unfold after. by rewrite foldl_app. Qed.

Lemma after_app cs1 cs2 w : after (cs1 ++ cs2) w = after cs2 (after cs1 w).
Proof. unfold after. by rewrite foldl_app. Qed.

(** Every call evolves its drawing only; a bad id changes nothing. *)
Lemma writer_evolves c w :
  Inv sha256 w → evolves sha256 (target c).1 (target c).2 w (final (run_writer c) w).
Proof.
  intros HI.
  assert (Hwp : ∀ A (m : store A) (f : A → answer) Q t d,
    wp m (unchanged_or sha256 t d w Q) w →
    evolves sha256 t d w (final (a ← m; mret (f a)) w)).
  { intros A m f Q t d [H _]. unfold final, mbind, io_mbind in *.
    by destruct (m w) as [[a|e] w']. }
  destruct c; cbn [run_writer target fst snd]; eapply Hwp.
  - eapply ingest_spec; done.
  - eapply put_spec; done.
  - eapply undo_spec; done.
  - eapply redo_spec; done.
  - eapply acquire_spec; done.
  - eapply release_spec; done.
Qed.

(** A call with a bad id does nothing. *)
Lemma wp_const {A} (m : store A) (P : Prop) w : P → wp m (λ _ _, P) w.
Proof. done. Qed.

Lemma writer_valid c w :
  (valid (target c).1 ∧ valid (target c).2) ∨ final (run_writer c) w = w.
Proof.
  assert (Hids : ∀ A t d (k : string → string → store A),
    wp (tid ← key (Keys.sanitize_id (PStr t)); did ← key (Keys.sanitize_id (PStr d)); k tid did)
       (λ _ w', (valid t ∧ valid d) ∨ w' = w) w).
  { intros A t d k. apply wp_ids; [|by right]. intros Ht Hd. unfold wp. by left. }
  assert (Hwp : ∀ A (m : store A) (f : A → answer) t d,
    wp m (λ _ w', (valid t ∧ valid d) ∨ w' = w) w →
    (valid t ∧ valid d) ∨ final (a ← m; mret (f a)) w = w).
  { intros A m f t d. unfold wp, final, outcome, mbind, io_mbind. by destruct (m w) as [[a|e] w']. }
  destruct c; cbn [run_writer target fst snd]; apply Hwp; try apply Hids.
  - unfold ingest_drawing, ingest_id. apply wp_bind, wp_key; [|by right].
    intros t' [[= ->] Ht]%sanitize_valid. apply wp_bind. destruct (truthy (PStr d)).
    + apply wp_key; [|by right]. intros d' [[= ->] Hd]%sanitize_valid. unfold wp. by left.
    + apply wp_ret, wp_bind, wp_key; [|by right].
      intros k (_ & Hd & _)%version_key_inv. unfold wp. by left.
  - unfold acquire_checkout_fence. case_wp; [apply wp_raise; by right|]. apply Hids.
Qed.

Lemma writer_Inv c w : Inv sha256 w → Inv sha256 (final (run_writer c) w).
Proof.
  intros HI. destruct (writer_valid c w) as [[Ht Hd]| ->]; [|done].
  by eapply evolves_Inv, HI; [..|apply writer_evolves].
Qed.

(** What a call can do to one drawing: evolve it, or leave its objects alone. *)
Lemma writer_drawing c w t d :
  Inv sha256 w → valid t → valid d →
  (target c = (t, d) ∧ evolves sha256 t d w (final (run_writer c) w)) ∨
  ∀ o, object_ok o → obj (final (run_writer c) w) (okey t d o) = obj w (okey t d o).
Proof.
  intros HI Ht Hd. destruct (writer_valid c w) as [[Ht' Hd']| ->]; [|by right].
  pose proof (writer_evolves c w HI) as Hev.
  destruct (target c) as [t' d'] eqn:Etgt; cbn [fst snd] in *.
  destruct (decide ((t, d) = (t', d'))) as [[= -> ->]|Hne]; [by left|right].
  intros o Ho. eapply (outside_other sha256 t' d'); try done. apply Hev.
Qed.

(** The manifest of a drawing, once there, stays there and only grows. *)
Lemma writer_grows c w t d m :
  Inv sha256 w → valid t → valid d → manifest_at w t d = Some m →
  ∃ m', manifest_at (final (run_writer c) w) t d = Some m' ∧ grows m m'.
Proof.
  intros HI Ht Hd Hm. destruct (writer_drawing c w t d HI Ht Hd) as [[_ [_ _ Hev]]|Hsame].
  - destruct Hev as [Heq|(m' & Hm' & _ & Hg)].
    + exists m. split; [unfold manifest_at in *; by rewrite Heq|apply grows_refl].
    + exists m'. split; [by apply manifest_at_dumps|auto].
  - exists m. split; [unfold manifest_at in *; by rewrite Hsame|apply grows_refl].
Qed.

Lemma after_Inv cs w : Inv sha256 w → Inv sha256 (after cs w).
Proof. revert w. induction cs as [|c cs IH]; [done|]. intros w HI. by apply IH, writer_Inv. Qed.

Lemma after_grows cs w t d m :
  Inv sha256 w → valid t → valid d → manifest_at w t d = Some m →
  ∃ m', manifest_at (after cs w) t d = Some m' ∧ grows m m'.
Proof.
  revert w m. induction cs as [|c cs IH]; intros w m HI Ht Hd Hm; [exists m; split; [done|apply grows_refl]|].
  destruct (writer_grows c w t d m HI Ht Hd Hm) as (m1 & Hm1 & Hg1).
  destruct (IH _ m1 (writer_Inv c w HI) Ht Hd Hm1) as (m2 & Hm2 & Hg2).
  exists m2. split; [done|by eapply grows_trans].
Qed.

Lemma after_versions cs w t d v x :
  Inv sha256 w → valid t → valid d → 1 <= v <= 99999999 →
  obj w (okey t d (OVersion v)) = Some x → obj (after cs w) (okey t d (OVersion v)) = Some x.
Proof.
  revert w. induction cs as [|c cs IH]; intros w HI Ht Hd Hv Hx; [done|].
  apply IH; [by apply writer_Inv|done..|].
  destruct (writer_drawing c w t d HI Ht Hd) as [[_ [_ Hev _]]|Hsame]; [auto|by rewrite Hsame].
Qed.

(** ** The guarantees *)

(** (C1) Store invariant.  After any history, over any backend that keeps the
    contract (whatever fails in it, it never denies an object that is there), every
    manifest that is there decodes, names the drawing it is stored under, lists
    strictly increasing versions whose last is [latest], has its [head] among them,
    and every listed version has a stored blob of the recorded size and SHA-256; a
    fenced lock carries the manifest's current generation. *)
Theorem store_invariant cs w : Inv sha256 w → Inv sha256 (after cs w).
Proof. apply after_Inv. Qed.

(** (C2) Versions are immutable.  Over a backend that keeps the contract, bytes once
    stored under a version key are the bytes stored there after any history: no put,
    ingest, undo, redo, acquire or release, failing or not, replaces or deletes a
    version blob.  (On disk a failing [stat] breaks the contract and lets an ingest
    replace one: [FsDemo.failed_stat_lets_ingest_overwrite].) *)
Theorem version_blobs_immutable cs w t d v k x :
  Inv sha256 w → Keys.drawing_version_key (PStr t) (PStr d) v = Ok k →
  obj w k = Some x → obj (after cs w) k = Some x.
Proof. intros HI (Ht & Hd & Hv & ->)%version_key_inv. by apply after_versions. Qed.

(** (C5) Isolation.  Calls that name other drawings (of the same tenant or of
    another one) leave every object of a drawing as it was, whatever ids they
    pass and however they fail. *)
Theorem other_drawings_untouched cs w t d o k :
  Inv sha256 w → object_key (PStr t) (PStr d) o = Ok k →
  Forall (λ c, target c ≠ (t, d)) cs → obj (after cs w) k = obj w k.
Proof.
  intros HI (Ht & Hd & Ho & ->)%object_key_inv Hcs. revert w HI.
  induction Hcs as [|c cs Hc Hcs IH]; intros w HI; [done|].
  change (after (c :: cs) w) with (after cs (final (run_writer c) w)).
  rewrite IH by (by apply writer_Inv).
  destruct (writer_drawing c w t d HI Ht Hd) as [[? _]|Hsame]; [done|auto].
Qed.

Lemma acquire_answer t d h ttl e s w f :
  outcome (run_writer (WAcquire t d h ttl e s)) w = Ok (AFence (Some f)) →
  Inv sha256 w →
  valid t ∧ valid d ∧ ∃ m, manifest_at w t d = Some m ∧ f = _next_fence m ∧
  ∃ m', manifest_at (final (run_writer (WAcquire t d h ttl e s)) w) t d = Some m' ∧
        m_checkout_fence m' = Some f.
Proof.
  intros Ho HI. pose proof (acquire_spec clock sha256 sha256_hex t d h ttl e s w HI) as [_ Hr].
  unfold run_writer, final, outcome, mbind, io_mbind in *.
  destruct (acquire_checkout_fence _ _ _ _ _ _ _ _ w) as [[[g|]|] w']; try done.
  simpl in *. injection Ho as ->. destruct Hr as (Ht & Hd & m & Hm & _ & -> & _ & _ & Hat).
  do 2 (split; [done|]). exists m. do 2 (split; [done|]). eexists. by split.
Qed.

(** (C3) No lock generation is issued twice by the writer calls.  Over a backend that
    keeps the contract, whatever puts, ingests, undos, redos, acquires and releases,
    failing or not, come between two successful acquires of one drawing, the later one
    returns a strictly larger fence, so a capability minted for an earlier lease never
    matches a later one.  (Purging the drawing, which removes its counter, is no writer
    call.) *)
Theorem fences_strictly_increase cs w t d h1 ttl1 e1 s1 h2 ttl2 e2 s2 f1 f2 :
  Inv sha256 w →
  outcome (run_writer (WAcquire t d h1 ttl1 e1 s1)) w = Ok (AFence (Some f1)) →
  outcome (run_writer (WAcquire t d h2 ttl2 e2 s2))
    (after (WAcquire t d h1 ttl1 e1 s1 :: cs) w) = Ok (AFence (Some f2)) →
  f1 < f2.
Proof.
  intros HI H1 H2. set (c1 := WAcquire t d h1 ttl1 e1 s1) in *.
  destruct (acquire_answer _ _ _ _ _ _ _ _ H1 HI) as (Ht & Hd & _ & _ & _ & m1 & Hm1 & Hf1).
  assert (HI1 := writer_Inv c1 w HI).
  destruct (after_grows cs _ t d m1 HI1 Ht Hd Hm1) as (m2 & Hm2 & [_ Hg]).
  destruct (acquire_answer _ _ _ _ _ _ _ _ H2) as (_ & _ & m & Hm & -> & _); [by apply after_Inv|].
  change (after (c1 :: cs) w) with (after cs (final (run_writer c1) w)) in Hm.
  rewrite Hm2 in Hm. injection Hm as <-.
  assert (fence_counter m1 = f1) as Hc by (unfold fence_counter; by rewrite Hf1).
  unfold _next_fence. lia.
Qed.

Lemma put_answer t d data parent meta holder fence rph plan prepare w v :
  let c := WPut t d data parent meta holder fence rph None plan prepare in
  outcome (run_writer c) w = Ok (AVersion v) → Inv sha256 w →
  valid t ∧ valid d ∧ ∃ m meta', committed sha256 t d m data parent meta' v (final (run_writer c) w).
Proof.
  intros c Ho HI.
  pose proof (put_spec clock sha256 sha256_hex request prepare_graph_bundle read_graph_bundle
      prepare_reads read_reads t d data parent meta holder fence rph None plan prepare w HI) as [_ Hr].
  unfold c, run_writer, final, outcome, mbind, io_mbind in *.
  destruct (put_drawing _ _ _ _ _ _ _ _ _ _ _ _ _ _ _ w) as [[v'|] w1]; [|done].
  simpl in *. injection Ho as ->.
  destruct Hr as (Ht & Hd & m & Hm & [([g Hg] & _)|[meta' Hc]]); [done|]. eauto 6.
Qed.

(** (C6) A published version is durable.  Over a backend that keeps the contract, once
    [put_drawing] (of plain bytes, without a graph bundle) has returned [v], after any
    further writer calls the manifest still lists [v] with the given parent and the
    digest and size of those bytes, and a blob of that size and digest is stored under
    its key. *)
Theorem published_version_durable cs w t d data parent meta holder fence rph plan prepare v :
  Inv sha256 w →
  let c := WPut t d data parent meta holder fence rph None plan prepare in
  outcome (run_writer c) w = Ok (AVersion v) →
  let w' := after (c :: cs) w in
  ∃ m e x, manifest_at w' t d = Some m ∧ e ∈ m_versions m ∧ ve_v e = v ∧ ve_parent e = parent ∧
    ve_sha256 e = sha256 data ∧ ve_bytes e = Z.of_nat (String.length data) ∧
    obj w' (okey t d (OVersion v)) = Some x ∧
    String.length x = String.length data ∧ sha256 x = sha256 data.
Proof.
  intros HI c Ho w'.
  destruct (put_answer _ _ _ _ _ _ _ _ _ _ _ _ Ho HI)
    as (Ht & Hd & m0 & meta' & Hv & _ & (x & Hx & Hlen & Hsha) & e & Hat & ? & ? & ? & ? & _).
  fold c in Hx, Hat. assert (HI1 := writer_Inv c w HI).
  destruct (after_grows cs _ t d _ HI1 Ht Hd Hat) as (m & Hm & [[vs Hpre] _]).
  exists m, e, x. split; [done|]. split; [rewrite Hpre; simpl; set_solver|].
  do 4 (split; [done|]). split; [|done].
  exact (after_versions cs _ t d v x HI1 Ht Hd Hv Hx).
Qed.

(** ** The single-writer rule *)

(** The lock refuses this claim: the anonymous writer, another session, or a
    generation other than the lock's. *)
Definition refused (co : checkout) (holder : option string) (fence : option Z) : Prop :=
  holder = Some ANONYMOUS_HOLDER ∨ (∃ h, holder = Some h ∧ h ≠ co_holder co) ∨
  (∃ f cur, fence = Some f ∧ co_fence co = Some cur ∧ f ≠ cur).

Lemma refused_by_owner_check co holder fence :
  refused co holder fence → _refuse_unless_owner (co_holder co) (co_fence co) holder fence ≠ Ok tt.
Proof.
  unfold _refuse_unless_owner. intros [->|[(h & -> & Hne)|(f & cur & -> & -> & Hne)]].
  - by rewrite bool_decide_eq_true_2.
  - destruct (bool_decide (h = ANONYMOUS_HOLDER)); [done|]. by rewrite bool_decide_eq_false_2 by congruence.
  - destruct holder as [h|]; [destruct (bool_decide (h = ANONYMOUS_HOLDER)); [done|];
      destruct (bool_decide (co_holder co = h)); [|done]|]; simpl;
      (rewrite (proj2 (Z.eqb_neq cur f)) by congruence; done).
Qed.

Lemma refused_claims co holder fence : refused co holder fence → holder ≠ None ∨ fence ≠ None.
Proof. unfold refused. destruct holder, fence; naive_solver. Qed.

Lemma authorize_refuses co holder fence (w : W) :
  refused co holder fence → _is_active (Some co) (clock (w_tick w)) = true →
  wp (authorize clock (Some co) holder fence) (λ r w', is_ok r = false ∧ same w w') w.
Proof.
  intros Hr Ha. unfold authorize. pose proof (refused_claims _ _ _ Hr) as Hc.
  assert (Hn : wp (now ← utcnow clock; lift (_authorize_checkout_view (Some co) holder fence now))
    (λ r w', is_ok r = false ∧ same w w') w).
  { apply wp_bind, wp_utcnow. intros w' Hw'%utcnow_same. apply wp_lift. split; [|done].
    cbn [_authorize_checkout_view]. rewrite Ha. apply refused_by_owner_check in Hr.
    by destruct (_refuse_unless_owner _ _ _ _) as [[]|]. }
  destruct holder, fence; try done. by destruct Hc.
Qed.

(** The mutations a lock guards, made with a claim. *)
Inductive claimed_write (t d : string) (holder : option string) (fence : option Z) : writer request → Prop :=
| cw_put data parent meta rph plan prepare :
    claimed_write t d holder fence (WPut t d data parent meta holder fence rph None plan prepare)
| cw_undo : claimed_write t d holder fence (WUndo t d holder fence)
| cw_redo : claimed_write t d holder fence (WRedo t d holder fence).

Lemma guarded_refused {A} t d holder fence m co (k : manifest → store A) w :
  valid t → valid d → Inv sha256 w → manifest_at w t d = Some m → m_checkout m = Some co →
  _is_active (Some co) (clock (w_tick w)) = true → refused co holder fence →
  wp (_legacy_checkout_guard sha256 t d false None
        (m ← load_manifest t d; _ ← authorize clock (m_checkout m) holder fence; k m))
     (λ r w', is_ok r = false ∧ lock_only sha256 t d w w') w.
Proof.
  intros Ht Hd HI Hm Hco Ha Hr. apply wp_guard_lock; [done..| |by intros; split]. intros w1 Hl1 Hk1.
  assert (Hm1 : manifest_at w1 t d = Some m).
  { unfold manifest_at in *. rewrite Hl1; [done|by apply okey_canonical|apply okey_not_lock]. }
  apply wp_bind, wp_load; [|intros e w2 Hs; split; [done|etrans; [done|by apply same_lock_only]]].
  intros w2 m' _ _ Hs Hat Hk2. rewrite Hm1 in Hat. injection Hat as <-. rewrite Hco.
  apply wp_bind. eapply wp_mono; [apply authorize_refuses; [done|by rewrite Hk2, Hk1]|].
  intros [[]|e] w3 [Hok Hs3]; [done|]. split; [done|]. etrans; [exact Hl1|]. apply same_lock_only. by etrans.
Qed.

Lemma claimed_write_refused c w t d holder fence m co :
  Inv sha256 w → claimed_write t d holder fence c →
  manifest_at w t d = Some m → m_checkout m = Some co →
  _is_active (Some co) (clock (w_tick w)) = true → refused co holder fence →
  is_ok (outcome (run_writer c) w) = false ∧ lock_only sha256 t d w (final (run_writer c) w).
Proof.
  intros HI Hc Hm Hco Ha Hr.
  assert (Hlift : ∀ A (m : store A) (f : A → answer),
    wp m (λ r w', is_ok r = false ∧ lock_only sha256 t d w w') w →
    is_ok (outcome (a ← m; mret (f a)) w) = false ∧ lock_only sha256 t d w (final (a ← m; mret (f a)) w)).
  { intros A m0 f. unfold wp, outcome, final, mbind, io_mbind. by destruct (m0 w) as [[a|e] w']; simpl. }
  assert (Hrefl : ∀ e : store_error, @is_ok _ Z (Err e) = false ∧ lock_only sha256 t d w w) by (intros; by split).
  destruct Hc; cbn [run_writer]; apply Hlift; apply wp_ids; try done; intros Ht Hd;
    [|by eapply guarded_refused..].
  apply wp_bind, wp_lift. destruct (check_plan _ _ _ _) as [meta1|e]; [|done].
  apply wp_bind, wp_ret. by eapply guarded_refused.
Qed.

(** (C4) Single writer.  While a lock is active, a put (without a graph bundle), undo
    or redo that claims another session, the anonymous session or a stale generation
    never returns a version: it raises, and every object of the store but the
    drawing's lock file is as it was. *)
Theorem active_lock_excludes c w t d holder fence m co :
  Inv sha256 w → claimed_write t d holder fence c →
  manifest_at w t d = Some m → m_checkout m = Some co →
  _is_active (Some co) (clock (w_tick w)) = true → refused co holder fence →
  is_ok (outcome (run_writer c) w) = false ∧ lock_only sha256 t d w (final (run_writer c) w).
Proof. apply claimed_write_refused. Qed.

End Histories.
