(* ===== verification/IntakeCache.v ===== *)
(** * Intake caches and their source bindings

    [read_intake] and [publish_intake_cache] of [server/write_loop.py], with the
    marker reader of [server/guest_uploads.py] (legacy upload store).  A version
    whose bytes are a raw DWG is read through a cached intake beside it, and the
    cache is served only when a proof document or the upload's marker binds it to
    the digest of those bytes.  Decoding an intake document is a parameter, so the
    theorems hold for every decoder; proof and marker documents are JSON values. *)

From S2P Require Import Prelude PyText TenantIds Json IsoTime Manifest Backend StoreKeys DrawingStore StoreInv StoreProofs.
From Stdlib Require Import Ascii.
Local Open Scope Z_scope.
Import Keys IdFacts.

(** ** Errors *)

(** The class hierarchy of what the store raises: [except ValueError] and
    [except KeyError] catch these. *)
Definition is_value_error (e : store_error) : bool :=
  match e with
  | EKey | EIO | ELockTimeout | ELockUnavailable | EOverflow | EDenied _ | EVanished
  | ECallback | EReservationActive | EReservationReclaimed | EUniqueViolation => false
  | _ => true
  end.
Definition is_key_error (e : store_error) : bool := bool_decide (e = EKey).

Inductive intake_error :=
| IStore (e : store_error)
| INoCache            (** raw DWG version has no intake cache *)
| IUploadUnbound      (** ready upload has no source-bound intake proof *)
| IUploadMismatch     (** ready upload intake does not match its source proof *)
| INoBinding          (** raw DWG intake cache has no source binding *)
| IMismatch           (** raw DWG intake cache does not match its source binding *)
| INotObject          (** the cached intake does not decode to an object *)
| IProofUnreadable    (** [ProofStateUnreadable]: transport, retryable *)
| IAttributeError     (** [.get] on a marker that is not an object *)
| ITypeError.         (** [hmac.compare_digest] of a text that is not ASCII *)

#[export] Instance intake_error_eq_dec : EqDecision intake_error.
Proof. solve_decision. Defined.

(** ** Keys *)

Definition intake_cache_key (tenant_id drawing_id : pyarg) (version : Z) : result id_error string :=
  p ← drawing_prefix tenant_id drawing_id;
  Ok (p +:+ "/v/" +:+ of_chars (zero_pad 8 version) +:+ ".intake.json").

Definition intake_cache_proof_key (tenant_id drawing_id : pyarg) (version : Z) : result id_error string :=
  k ← intake_cache_key tenant_id drawing_id version; Ok (k +:+ ".proof.json").

Definition upload_marker_key (tenant_id drawing_id : pyarg) : result id_error string :=
  p ← drawing_prefix tenant_id drawing_id; Ok (p +:+ "/upload.state.json").

(** ** Comparing a document's fields *)

(** [str(v)]; a list or a dictionary, whose text starts with a bracket, has none
    of the texts compared here. *)
Definition py_text (v : option json) : option string :=
  match v with
  | None | Some JNull => Some "None"%string
  | Some (JBool true) => Some "True"%string
  | Some (JBool false) => Some "False"%string
  | Some (JInt z) => Some (of_chars (print_Z z))
  | Some (JStr s) => Some s
  | Some (JArr _) | Some (JObj _) => None
  end.

(** [str(v or "")] *)
Definition py_text_or_empty (v : option json) : option string :=
  match v with
  | None | Some JNull | Some (JBool false) | Some (JInt 0) | Some (JArr []) | Some (JObj []) => Some ""%string
  | v => py_text v
  end.

Definition is_ascii (s : string) : bool := forallb (λ c, code c <? 128) (chars s).

(** [hmac.compare_digest(a, b)] with an ASCII [b] *)
Definition compare_digest (a : option string) (b : string) : result intake_error bool :=
  match a with
  | None => Ok false
  | Some s => if is_ascii s then Ok (bool_decide (s = b)) else Err ITypeError
  end.

(** [not any(not compare_digest(str(proof.get(k)), str(v)) for k, v in expected)] *)
Fixpoint proof_matches (proof : list (string * json)) (expected : list (string * json))
  : result intake_error bool :=
  match expected with
  | [] => Ok true
  | (k, v) :: rest =>
      same ← compare_digest (py_text (dict_get proof k)) (default ""%string (py_text (Some v)));
      if (same : bool) then proof_matches proof rest else Ok false
  end.

(** The proof document of a cache. *)
Definition expected_proof (v : Z) (source_digest ckey intake_digest : string) : list (string * json) :=
  [("schema"%string, JInt 1); ("version"%string, JInt v);
   ("source_sha256"%string, JStr source_digest); ("intake_ref"%string, JStr ckey);
   ("intake_sha256"%string, JStr intake_digest)].

(** [marker.get("extracted_version") == v] *)
Definition py_equals_int (j : option json) (v : Z) : bool :=
  match j with
  | Some (JInt z) => z =? v
  | Some (JBool b) => Z.b2z b =? v
  | _ => false
  end.

Definition is_text (j : option json) (s : string) : bool :=
  match j with Some (JStr s') => bool_decide (s' = s) | _ => false end.

(** Whether the upload's marker binds the cache; it raises when it speaks of this
    version and does not. *)
Definition check_marker (marker : option json) (v : Z) (ckey source_digest intake_digest : string)
  : result intake_error bool :=
  match marker with
  | None => Ok false
  | Some (JObj m) =>
      if negb (py_equals_int (dict_get m "extracted_version") v) then Ok false else
      if negb (is_text (dict_get m "status") "ready") then Err IUploadUnbound else
      if negb (is_text (dict_get m "intake_ref") ckey) then Err IUploadUnbound else
      source_ok ← compare_digest (py_text_or_empty (dict_get m "content_sha256")) source_digest;
      if negb source_ok then Err IUploadUnbound else
      intake_ok ← compare_digest (py_text_or_empty (dict_get m "intake_sha256")) intake_digest;
      if negb intake_ok then Err IUploadMismatch else Ok true
  | Some _ => Err IAttributeError
  end.

Section Intake.
Context {B : Type} `{!StorageBackend B}.
Variable sha256 : string → string.
(** [json.loads(raw.decode("utf-8"))] *)
Variable json_loads : string → option json.
(** the same for intake documents, when the value is an object; and [json.dumps] *)
Variable intake : Type.
Variable intake_loads : string → option intake.
Variable intake_dumps : intake → string.
(** [store.read_graph_bundle(...)["intake"]] *)
Variable read_bundle_intake : string → string → Z → io (world B) store_error intake.

Abbreviation W := (world B).
Abbreviation store := (io W store_error).
Abbreviation rd := (io W intake_error).

(** A call of the store from here. *)
Definition st {A} (m : store A) : rd A :=
  λ w, match m w with (Ok a, w') => (Ok a, w') | (Err e, w') => (Err (IStore e), w') end.

(** A call of the store in a [try] whose handlers look at the exception. *)
Definition attempt {A} (m : store A) : rd (result store_error A) :=
  λ w, let '(r, w') := m w in (Ok r, w').

Definition read_marker (tid did : string) : store (option json) :=
  k ← key (upload_marker_key (PStr tid) (PStr did));
  there ← bk (b_exists k);
  if negb (there : bool) then mret None else
  try_except (raw ← bk (b_get k); mret (json_loads raw))
    (λ e, if is_key_error e || is_value_error e then mret None else raise e).

(** The version's row, when the manifest can be read. *)
Definition entry_or_empty (tid did : string) (v : Z) : store (option version_entry) :=
  try_except (m ← load_manifest tid did; mret (find_version (m_versions m) v)) (λ _, mret None).

(** [json.loads(raw_proof)] and its comparison *)
Definition judge_proof (raw : string) (expected : list (string * json)) : rd unit :=
  match json_loads raw with
  | None => raise INoBinding
  | Some (JObj p) =>
      ok ← lift (proof_matches p expected);
      if (ok : bool) then mret tt else raise IMismatch
  | Some _ => raise IMismatch
  end.

(** No proof is there: mint one; when that fails, what is there now decides.  The
    document [null] decodes to [None], which reads as no proof. *)
Definition heal_proof (pkey : string) (expected : list (string * json)) : rd unit :=
  minted ← attempt (bk (b_put_if_absent_or_verify pkey (dumps (JObj expected))));
  match minted with
  | Ok _ => mret tt
  | Err EImmutableConflict => raise IMismatch
  | Err _ =>
      found ← attempt (bk (b_get pkey));
      match found with
      | Ok raw => match json_loads raw with Some JNull => mret tt | _ => judge_proof raw expected end
      | Err EKey => mret tt
      | Err _ => raise IProofUnreadable
      end
  end.

Definition check_proof (pkey : string) (expected : list (string * json)) : rd unit :=
  there ← attempt (bk (b_exists pkey));
  match there with
  | Err _ => raise IProofUnreadable
  | Ok false => heal_proof pkey expected
  | Ok true =>
      found ← attempt (bk (b_get pkey));
      match found with
      | Err _ => raise IProofUnreadable
      | Ok raw => judge_proof raw expected
      end
  end.

(** The intake of a raw DWG version, from its cache. *)
Definition read_cached (tid did : string) (v : Z) (ckey source : string) : rd intake :=
  there ← st (bk (b_exists ckey));
  if negb (there : bool) then raise INoCache else
  candidate ← st (bk (b_get ckey));
  marker ← st (read_marker tid did);
  marker_bound ← lift (check_marker marker v ckey (sha256 source) (sha256 candidate));
  _ ← (if (marker_bound : bool) then mret tt else
       pkey ← st (key (intake_cache_proof_key (PStr tid) (PStr did) v));
       check_proof pkey (expected_proof v (sha256 source) ckey (sha256 candidate)));
  lift (from_opt (intake_loads candidate) INotObject).

Definition read_intake (tid did : string) (version : version_sel) : rd (Z * intake) :=
  vk ← st (resolve_version (PStr tid) (PStr did) version);
  let '(v, vkey) := (vk : Z * string) in
  entry ← st (entry_or_empty tid did v);
  if startswith BUNDLE_NOTE (default ""%string ((entry : option version_entry) ≫= ve_note)) then
    i ← st (read_bundle_intake tid did v); mret (v, i)
  else
  ckey ← st (key (intake_cache_key (PStr tid) (PStr did) v));
  source ← st (bk (b_get vkey));
  match intake_loads source with
  | Some direct => mret (v, direct)
  | None => i ← read_cached tid did v ckey source; mret (v, i)
  end.

Definition publish_intake_cache (tid did : string) (version : Z) (source_bytes : string) (i : intake)
  : rd string :=
  ckey ← st (key (intake_cache_key (PStr tid) (PStr did) version));
  let cache_bytes := intake_dumps i in
  let proof := expected_proof version (sha256 source_bytes) ckey (sha256 cache_bytes) in
  _ ← st (bk (b_put_if_absent_or_verify ckey cache_bytes));
  pkey ← st (key (intake_cache_proof_key (PStr tid) (PStr did) version));
  _ ← try_except (st (bk (b_put_if_absent_or_verify pkey (dumps (JObj proof)))))
        (λ _, _ ← read_intake tid did (VInt version); mret tt);
  mret ckey.
End Intake.

(** ** Keys and calls *)

Definition ckey (t d : string) (v : Z) : string := of_chars (key_text t d (beside v ".intake.json")).
Definition pkey (t d : string) (v : Z) : string := of_chars (key_text t d (beside v ".intake.json.proof.json")).
Definition mkey (t d : string) : string := of_chars (key_text t d "upload.state.json").

Lemma intake_key_inv t d v k :
  intake_cache_key (PStr t) (PStr d) v = Ok k → valid t ∧ valid d ∧ k = ckey t d v.
Proof.
  unfold intake_cache_key. rewrite result_bind_Ok.
  intros (p & (t' & d' & Ht & Hd & ->)%drawing_prefix_Ok & <-%(inj Ok)).
  pose proof (sanitize_valid _ _ Ht) as [[= ->] ?]. pose proof (sanitize_valid _ _ Hd) as [[= ->] ?].
  do 2 (split; [done|]). apply chars_inj. unfold ckey, key_text, beside.
  by rewrite chars_of_chars, !chars_app, <- !app_assoc.
Qed.

Lemma proof_key_inv t d v k :
  intake_cache_proof_key (PStr t) (PStr d) v = Ok k → valid t ∧ valid d ∧ k = pkey t d v.
Proof.
  unfold intake_cache_proof_key. rewrite result_bind_Ok.
  intros (p & (Ht & Hd & ->)%intake_key_inv & <-%(inj Ok)). do 2 (split; [done|]).
  apply chars_inj. unfold ckey, pkey, key_text, beside.
  rewrite chars_app, !chars_of_chars, !chars_app. by rewrite <- !app_assoc, <- !app_comm_cons, <- !app_assoc, <- !app_comm_cons, <- !app_assoc.
Qed.

Lemma marker_key_inv t d k :
  upload_marker_key (PStr t) (PStr d) = Ok k → valid t ∧ valid d ∧ k = mkey t d.
Proof.
  unfold upload_marker_key. rewrite result_bind_Ok.
  intros (p & (t' & d' & Ht & Hd & ->)%drawing_prefix_Ok & <-%(inj Ok)).
  pose proof (sanitize_valid _ _ Ht) as [[= ->] ?]. pose proof (sanitize_valid _ _ Hd) as [[= ->] ?].
  do 2 (split; [done|]). apply chars_inj. unfold mkey, key_text.
  by rewrite chars_of_chars, !chars_app, <- !app_assoc.
Qed.

Lemma beside_canonical t d v ext :
  valid t → valid d → 1 <= v <= 99999999 → slash ∉ chars ext →
  canonical (of_chars (key_text t d (beside v ext))) = true.
Proof. intros. by apply key_text_canonical; [..|apply beside_plain]. Qed.

Lemma ckey_canonical t d v : valid t → valid d → 1 <= v <= 99999999 → canonical (ckey t d v) = true.
Proof. intros. apply beside_canonical; [done..|by apply no_slash]. Qed.
Lemma pkey_canonical t d v : valid t → valid d → 1 <= v <= 99999999 → canonical (pkey t d v) = true.
Proof. intros. apply beside_canonical; [done..|by apply no_slash]. Qed.
Lemma mkey_canonical t d : valid t → valid d → canonical (mkey t d) = true.
Proof. intros. by apply key_text_canonical. Qed.
#[export] Hint Opaque canonical ckey pkey mkey : py.
#[export] Hint Resolve ckey_canonical pkey_canonical mkey_canonical : py.

(** ** What binds a cache *)

(** The document agrees with an expected proof, field by field. *)
Definition agrees (p : list (string * json)) (expected : list (string * json)) : Prop :=
  Forall (λ kv, py_text (dict_get p kv.1) = py_text (Some kv.2)) expected.

Lemma proof_matches_agrees p expected :
  Forall (λ kv : string * json, is_Some (py_text (Some kv.2))) expected →
  proof_matches p expected = Ok true → agrees p expected.
Proof.
  induction 1 as [|[k v] l [s Hs] Hl IH]; [by constructor|]. cbn [proof_matches fst snd] in *.
  rewrite Hs. unfold compare_digest. destruct (py_text (dict_get p k)) as [s'|] eqn:E; [|done].
  destruct (is_ascii s'); [|done]. cbn [mbind result_mbind default].
  case_bool_decide as Heq; [|done]. intros Hm. constructor; [cbn [fst snd]; rewrite E, Hs; by f_equal|by apply IH].
Qed.

Lemma expected_texts v s c i : Forall (λ kv : string * json, is_Some (py_text (Some kv.2))) (expected_proof v s c i).
Proof. unfold expected_proof. repeat constructor; by eexists. Qed.

Lemma expected_agrees v s c i : agrees (expected_proof v s c i) (expected_proof v s c i).
Proof. unfold agrees. cbn. repeat constructor. Qed.

Lemma expected_wf v s c i : wf (JObj (expected_proof v s c i)).
Proof. cbn. split; [|done]. apply (bool_decide_unpack _). vm_compute. exact I. Qed.

(** A document pins the digests it names. *)
Lemma agrees_pins p v s c i v' s' c' i' :
  agrees p (expected_proof v s c i) → agrees p (expected_proof v' s' c' i') → s = s' ∧ i = i'.
Proof.
  unfold agrees, expected_proof. rewrite !Forall_cons. cbn [fst snd py_text].
  intros (_ & _ & H1 & _ & H2 & _) (_ & _ & H1' & _ & H2' & _). split; congruence.
Qed.

Section Facts.
Context {B : Type} `{!StorageBackend B, !BackendLaws B}.
Variable sha256 : string → string.
Variable json_loads : string → option json.
Hypothesis json_loads_dumps : ∀ j, wf j → json_loads (dumps j) = Some j.
Variable intake : Type.
Variable intake_loads : string → option intake.
Variable read_bundle_intake : string → string → Z → io (world B) store_error intake.
Abbreviation W := (world B).

Lemma wp_st {A} (m : io W store_error A) (Φ : result intake_error A → W → Prop) w :
  wp m (λ r w', match r with Ok a => Φ (Ok a) w' | Err e => Φ (Err (IStore e)) w' end) w → wp (st m) Φ w.
Proof. unfold wp, outcome, final, st. by destruct (m w) as [[a|e] w']. Qed.

Lemma wp_resolve t d sel (Φ : result store_error (Z * string) → W → Prop) w :
  (∀ v m e w', valid t → valid d → 1 <= v <= 99999999 → same w w' → manifest_at w t d = Some m →
     find_version (m_versions m) v = Some e → Φ (Ok (v, okey t d (OVersion v))) w') →
  (∀ e w', same w w' → Φ (Err e) w') →
  wp (resolve_version (PStr t) (PStr d) sel) Φ w.
Proof.
  intros Hok Herr. unfold resolve_version. apply wp_ids; [|intros; by apply Herr]. intros Ht Hd.
  apply wp_bind, wp_load; [|auto]. intros w1 m _ _ Hs1 Hat _.
  set (v := match sel with VHead => _ | VLatest => _ | VInt z => z end).
  destruct (find_version (m_versions m) v) as [e|] eqn:Ef; [|by apply wp_raise, Herr].
  apply wp_bind, wp_key; [|intros; by apply Herr]. intros k (_ & _ & Hv & ->)%version_key_inv.
  apply wp_ret. by eapply Hok.
Qed.

Lemma wp_entry t d v (Φ : result store_error (option version_entry) → W → Prop) w :
  (∀ o w', same w w' → (∀ e, o = Some e → ∃ m, manifest_at w t d = Some m ∧
     find_version (m_versions m) v = Some e) → Φ (Ok o) w') →
  wp (entry_or_empty t d v) Φ w.
Proof.
  intros H. apply wp_try, wp_bind, wp_load.
  - intros w1 m _ _ Hs Hat _. apply wp_ret, H; [done|]. eauto.
  - intros e w1 Hs. apply wp_ret. by apply H.
Qed.

(** What the marker reader can answer. *)
Lemma wp_marker t d (Φ : result store_error (option json) → W → Prop) w :
  (∀ o w', valid t → valid d → same w w' →
     (∀ j, o = Some j → ∃ raw, obj w (mkey t d) = Some raw ∧ json_loads raw = Some j) → Φ (Ok o) w') →
  (∀ e w', same w w' → Φ (Err e) w') →
  wp (read_marker json_loads t d) Φ w.
Proof.
  intros Hok Herr. unfold read_marker. apply wp_bind, wp_key; [|intros; by apply Herr].
  intros k (Ht & Hd & ->)%marker_key_inv. apply wp_bind, wp_exists; [eauto with py|].
  intros [there|e] w1 Hs1 _ _; [|by apply Herr]. destruct there; [|by apply wp_ret, Hok].
  apply wp_try, wp_bind, wp_get; [eauto with py|].
  assert (Hm : obj w1 (mkey t d) = obj w (mkey t d)) by (apply Hs1; eauto with py).
  intros [raw|e] w2 Hs2 Hr _.
  - apply wp_ret, Hok; [done|done|by etrans|]. intros j Hj. exists raw. by rewrite <- Hm.
  - destruct (is_key_error e || is_value_error e); [apply wp_ret, Hok; [done|done|by etrans|done]|].
    apply wp_raise, Herr. by etrans.
Qed.

(** What is stored at [k] agrees with an expected proof. *)
Definition bound (w : W) (k : string) (expected : list (string * json)) : Prop :=
  ∃ raw p, obj w k = Some raw ∧ json_loads raw = Some (JObj p) ∧ agrees p expected.

Lemma wp_judge raw v s c i (Φ : result intake_error unit → W → Prop) w :
  (∀ p, json_loads raw = Some (JObj p) → agrees p (expected_proof v s c i) → Φ (Ok tt) w) →
  (∀ e, Φ (Err e) w) → wp (judge_proof json_loads raw (expected_proof v s c i)) Φ w.
Proof.
  intros Hok Herr. unfold judge_proof. destruct (json_loads raw) as [[]|] eqn:E; try by apply wp_raise.
  apply wp_bind, wp_lift. destruct (proof_matches _ _) as [[]|] eqn:Hm; [|by apply wp_raise|done].
  eapply Hok; [done|]. eapply proof_matches_agrees; [apply expected_texts|done].
Qed.

Lemma wp_attempt {A} (m : io W store_error A) (Φ : result intake_error (result store_error A) → W → Prop) w :
  wp m (λ r w', Φ (Ok r) w') w → wp (attempt m) Φ w.
Proof. unfold wp, outcome, final, attempt. by destruct (m w). Qed.

Lemma wp_mint k x (Φ : result store_error unit → W → Prop) w :
  canonical k = true →
  (∀ r w', frame object k (w_b w) (w_b w') →
     match obj w k with
     | Some old => obj w' k = Some old ∧ (r = Ok tt → old = x)
     | None => match r with Ok _ => obj w' k = Some x | Err _ => obj w' k = None ∨ obj w' k = Some x end
     end → Φ r w') →
  wp (bk (b_put_if_absent_or_verify k x)) Φ w.
Proof.
  intros Hk H. apply wp_bk. eapply wp_mono; [by apply law_put_if_absent|]. simpl. intros r b' [Hf Hr].
  by apply H.
Qed.

(** The verdict on a cache: only the proof object may be written; a proof that is
    there stays, and a cache is accepted when the stored proof agrees, or when
    none is stored before or after. *)
Definition verdict (k : string) (expected : list (string * json)) (w : W)
    (r : result intake_error unit) (w' : W) : Prop :=
  frame object k (w_b w) (w_b w') ∧ (∀ raw, obj w k = Some raw → obj w' k = Some raw) ∧
  (r = Ok tt → bound w' k expected ∨ (obj w k = None ∧ obj w' k = None)).

Lemma verdict_Err k expected w e w' :
  frame object k (w_b w) (w_b w') → (∀ raw, obj w k = Some raw → obj w' k = Some raw) →
  verdict k expected w (Err e) w'.
Proof. intros. split; [done|by split]. Qed.

Lemma frame_same k (w w1 w2 : W) :
  frame object k (w_b w) (w_b w1) → same w1 w2 → frame object k (w_b w) (w_b w2).
Proof. intros Hf Hs k' Hk' Hne. etrans; [by apply Hs|by apply Hf]. Qed.

Lemma heal_spec k v s c i w :
  canonical k = true → obj w k = None →
  wp (heal_proof json_loads k (expected_proof v s c i)) (verdict k (expected_proof v s c i) w) w.
Proof.
  intros Hk Hn. unfold heal_proof. set (expected := expected_proof v s c i).
  assert (Hb : ∀ w', obj w' k = Some (dumps (JObj expected)) → bound w' k expected).
  { intros w' Hw'. eexists _, _. split; [done|]. split; [apply json_loads_dumps, expected_wf|apply expected_agrees]. }
  apply wp_bind, wp_attempt, wp_mint; [done|]. intros r w1 Hf. rewrite Hn. intros Hr.
  assert (Hkeep : ∀ w2 raw, obj w k = Some raw → obj w2 k = Some raw) by (intros w2 raw; by rewrite Hn).
  assert (Herr : ∀ e w2, frame object k (w_b w) (w_b w2) → verdict k expected w (Err e) w2)
    by (intros e w2 Hf2; apply verdict_Err; [exact Hf2|apply Hkeep]).
  destruct r as [[]|e]; [apply wp_ret; split; [done|]; split; [apply Hkeep|]; intros _; left; by apply Hb|].
  assert (Hsec : wp (found ← attempt (bk (b_get k));
      match found with
      | Ok raw => match json_loads raw with Some JNull => mret tt | _ => judge_proof json_loads raw expected end
      | Err EKey => mret tt
      | Err _ => raise IProofUnreadable
      end) (verdict k expected w) w1); [|destruct e; first [exact Hsec|by apply wp_raise, Herr]].
  apply wp_bind, wp_attempt, wp_get; [done|]. intros r2 w2 Hs2 Hr2 _.
  pose proof (frame_same _ _ _ _ Hf Hs2) as Hf2. assert (Ho2 : obj w2 k = obj w1 k) by (by apply Hs2).
  destruct r2 as [raw|e2].
  - destruct Hr as [Hr|Hr]; [congruence|]. assert (raw = dumps (JObj expected)) as -> by congruence.
    rewrite json_loads_dumps by apply expected_wf. apply (wp_judge _ v s c i).
    + intros p Hp Ha. split; [done|]. split; [apply Hkeep|]. intros _. left. apply Hb. by rewrite Ho2.
    + intros e'. by apply Herr.
  - destruct e2; try by apply wp_raise, Herr. apply wp_ret. split; [done|]. split; [apply Hkeep|].
    intros _. right. by rewrite Ho2.
Qed.

Lemma check_proof_spec k v s c i w :
  canonical k = true →
  wp (check_proof json_loads k (expected_proof v s c i)) (verdict k (expected_proof v s c i) w) w.
Proof.
  intros Hk. unfold check_proof. apply wp_bind, wp_attempt, wp_exists; [done|]. intros r w1 Hs1 Hr _.
  assert (Ho1 : obj w1 k = obj w k) by (by apply Hs1).
  assert (Hf1 : frame object k (w_b w) (w_b w1)) by (intros k' ? _; by apply Hs1).
  assert (Hk1 : ∀ raw, obj w k = Some raw → obj w1 k = Some raw) by (by rewrite Ho1).
  destruct r as [[]|e]; [|specialize (Hr eq_refl)|by apply wp_raise, verdict_Err].
  - apply wp_bind, wp_attempt, wp_get; [done|]. intros r2 w2 Hs2 Hr2 _.
    assert (Ho2 : obj w2 k = obj w1 k) by (by apply Hs2).
    assert (Hf2 := frame_same _ _ _ _ Hf1 Hs2).
    assert (Hk2 : ∀ raw, obj w k = Some raw → obj w2 k = Some raw) by (by rewrite Ho2, Ho1).
    destruct r2 as [raw|e2]; [|by apply wp_raise, verdict_Err]. apply wp_judge.
    + intros p Hp Ha. split; [done|]. split; [done|]. intros _. left. exists raw, p. by rewrite Ho2.
    + intros e. by apply verdict_Err.
  - eapply wp_mono; [apply heal_spec; [done|congruence]|]. intros r2 w2 (Hf2 & Hk2 & Hb2).
    split; [intros k' ??; etrans; [by apply Hf2|by apply Hf1]|]. rewrite <- Ho1. by split.
Qed.

(** The upload's marker binds the cache. *)
Definition marker_binds (w : W) (t d : string) (v : Z) (s i : string) : Prop :=
  ∃ raw m, obj w (mkey t d) = Some raw ∧ json_loads raw = Some (JObj m) ∧
    dict_get m "status" = Some (JStr "ready") ∧ dict_get m "intake_ref" = Some (JStr (ckey t d v)) ∧
    py_text_or_empty (dict_get m "content_sha256") = Some s ∧
    py_text_or_empty (dict_get m "intake_sha256") = Some i.

Lemma is_text_true j s : is_text j s = true → j = Some (JStr s).
Proof. destruct j as [[]|]; try done. simpl. by intros ->%bool_decide_eq_true. Qed.

Lemma compare_digest_true o s : compare_digest o s = Ok true → o = Some s.
Proof.
  destruct o as [s'|]; [|done]. simpl. destruct (is_ascii s'); [|done]. case_bool_decide; [|done]. by subst.
Qed.

Lemma check_marker_true j v c s i :
  check_marker (Some j) v c s i = Ok true →
  ∃ m, j = JObj m ∧ dict_get m "status" = Some (JStr "ready") ∧ dict_get m "intake_ref" = Some (JStr c) ∧
    py_text_or_empty (dict_get m "content_sha256") = Some s ∧
    py_text_or_empty (dict_get m "intake_sha256") = Some i.
Proof.
  destruct j as [| | | | |m]; try done. intros H. exists m. split; [done|]. cbn [check_marker] in H.
  destruct (py_equals_int _ _); [|done]. cbn [negb] in H.
  destruct (is_text (dict_get m "status") "ready") eqn:H1; [|done]. apply is_text_true in H1. cbn [negb] in H.
  destruct (is_text (dict_get m "intake_ref") c) eqn:H2; [|done]. apply is_text_true in H2. cbn [negb] in H.
  apply result_bind_Ok in H as ([] & H3 & H); [|done]. apply compare_digest_true in H3. cbn [negb] in H.
  apply result_bind_Ok in H as ([] & H4 & H); [|done]. by apply compare_digest_true in H4.
Qed.

(** What a cached intake rests on. *)
Definition rests_on (w w' : W) (t d : string) (v : Z) (source : string) (i : intake) : Prop :=
  ∃ cand, obj w (ckey t d v) = Some cand ∧ intake_loads cand = Some i ∧
    (marker_binds w t d v (sha256 source) (sha256 cand) ∨
     (∀ raw, obj w (pkey t d v) = Some raw → obj w' (pkey t d v) = Some raw) ∧
     (bound w' (pkey t d v) (expected_proof v (sha256 source) (ckey t d v) (sha256 cand)) ∨
      (obj w (pkey t d v) = None ∧ obj w' (pkey t d v) = None))).

Lemma read_cached_spec t d v source w :
  valid t → valid d → 1 <= v <= 99999999 →
  wp (read_cached sha256 json_loads intake intake_loads t d v (ckey t d v) source)
     (λ r w', ∀ i, r = Ok i → rests_on w w' t d v source i) w.
Proof.
  intros Ht Hd Hv. unfold read_cached.
  apply wp_bind, wp_st, wp_exists; [eauto with py|]. intros [[]|e] w1 Hs1 _ _; [|done..].
  apply wp_bind, wp_st, wp_get; [eauto with py|]. intros [cand|e] w2 Hs2 Hc _; [|done].
  rewrite (Hs1 (ckey t d v)) in Hc by eauto with py.
  apply wp_bind, wp_st, wp_marker; [|done]. intros o w3 _ _ Hs3 Ho.
  assert (Hs : same w w3) by (do 2 (etrans; [done|]); done). clear Hs1.
  apply wp_bind, wp_lift. destruct (check_marker o _ _ _ _) as [[]|e] eqn:Hcm; [| |done].
  - apply wp_bind, wp_ret, wp_lift. intros i Hi%from_opt_Ok. exists cand. do 2 (split; [done|]). left.
    destruct o as [j|]; [|done]. destruct (Ho j eq_refl) as (raw & Hraw & Hj).
    apply check_marker_true in Hcm as (m & -> & ? & ? & ? & ?). exists raw, m.
    split; [|done]. assert (same w w2) as Hs02 by (intros k Hk; rewrite <- (Hs3 k Hk); by apply Hs).
    rewrite <- Hraw. symmetry. apply Hs02. eauto with py.
  - apply wp_bind, wp_bind, wp_st, wp_key; [|done]. intros k (_ & _ & ->)%proof_key_inv.
    eapply wp_mono; [apply check_proof_spec; eauto with py|]. intros [[]|e] w4 (_ & Hkeep & Hb); [|done].
    apply wp_lift. intros i Hi%from_opt_Ok. exists cand. do 2 (split; [done|]). right.
    assert (Hp : obj w3 (pkey t d v) = obj w (pkey t d v)) by (apply Hs; eauto with py).
    rewrite Hp in *. auto.
Qed.

Lemma read_intake_spec t d sel w :
  wp (read_intake sha256 json_loads intake intake_loads read_bundle_intake t d sel)
     (λ r w', ∀ v i, r = Ok (v, i) → valid t ∧ valid d ∧ 1 <= v <= 99999999 ∧
        ∃ m e, manifest_at w t d = Some m ∧ find_version (m_versions m) v = Some e ∧
        (startswith BUNDLE_NOTE (default ""%string (ve_note e)) = true ∨
         ∃ source, obj w (okey t d (OVersion v)) = Some source ∧
           (intake_loads source = Some i ∨ intake_loads source = None ∧ rests_on w w' t d v source i))) w.
Proof.
  unfold read_intake. apply wp_bind, wp_st, wp_resolve; [|done].
  intros v m e w1 Ht Hd Hv Hs1 Hm He. apply wp_bind, wp_st, wp_entry. intros o w2 Hs2 Ho.
  assert (Hs : same w w2) by (by etrans).
  assert (Hm1 : manifest_at w1 t d = manifest_at w t d).
  { unfold manifest_at. by rewrite (Hs1 (okey t d OManifest)) by (by apply okey_canonical). }
  destruct (startswith BUNDLE_NOTE _) eqn:Hb.
  - destruct o as [e'|]; [|done]. destruct (Ho e' eq_refl) as (m' & Hm' & He').
    assert (m' = m) as -> by congruence. assert (e' = e) as -> by congruence.
    apply wp_bind, wp_st. unfold wp. destruct (outcome _ _); [|done]. apply wp_ret.
    intros v' i' [= <- <-]. do 3 (split; [done|]). exists m, e. auto.
  - apply wp_bind, wp_st, wp_key; [|done]. intros k (_ & _ & ->)%intake_key_inv.
    apply wp_bind, wp_st, wp_get; [by apply okey_canonical|]. intros [source|e3] w3 Hs3 Hsrc _; [|done].
    assert (Hs03 : same w w3) by (by etrans).
    rewrite (Hs (okey t d (OVersion v))) in Hsrc by (by apply okey_canonical).
    destruct (intake_loads source) as [direct|] eqn:Hdir.
    + apply wp_ret. intros v' i' [= <- <-]. do 3 (split; [done|]). exists m, e. do 2 (split; [done|]). right. eauto.
    + apply wp_bind. eapply wp_mono; [by apply read_cached_spec|]. intros [i|e4] w4 Hr; [|done].
      apply wp_ret. intros v' i' [= <- <-]. do 3 (split; [done|]). exists m, e. do 2 (split; [done|]). right.
      exists source. split; [done|]. right. split; [done|]. specialize (Hr i eq_refl).
      destruct Hr as (cand & Hc & Hi & Hr). exists cand.
      rewrite (Hs03 (ckey t d v)) in Hc by eauto with py. do 2 (split; [done|]).
      rewrite (Hs03 (pkey t d v)) in Hr by eauto with py.
      destruct Hr as [(raw & m' & Hraw & Hr)|Hr]; [left|by right].
      exists raw, m'. rewrite (Hs03 (mkey t d)) in Hraw by eauto with py. done.
Qed.

(** ** What reading and publishing an intake may write *)

(** Everything but the caches and proofs of one drawing is as before. *)
Definition spared (t d : string) (w w' : W) : Prop :=
  ∀ k, canonical k = true → (∀ v, 1 <= v <= 99999999 → k ≠ ckey t d v ∧ k ≠ pkey t d v) →
    obj w' k = obj w k.

#[export] Instance spared_preorder t d : PreOrder (spared t d).
Proof. split; [by intros w k|]. intros w1 w2 w3 H1 H2 k Hk Hne. by rewrite H2, H1. Qed.

Lemma same_spared t d w w' : same w w' → spared t d w w'.
Proof. intros Hs k Hk _. auto. Qed.

Lemma frame_spared t d v k w w' :
  1 <= v <= 99999999 → k = ckey t d v ∨ k = pkey t d v →
  frame object k (w_b w) (w_b w') → spared t d w w'.
Proof. intros Hv Hk Hf k' Hk' Hne. apply Hf; [done|]. destruct (Hne v Hv), Hk; congruence. Qed.

Hypothesis bundle_reads : ∀ t d v w, wp (read_bundle_intake t d v) (λ _ w', same w w') w.

Lemma read_cached_spared t d v source w :
  valid t → valid d → 1 <= v <= 99999999 →
  wp (read_cached sha256 json_loads intake intake_loads t d v (ckey t d v) source) (λ _ w', spared t d w w') w.
Proof.
  intros Ht Hd Hv. unfold read_cached.
  apply wp_bind, wp_st, wp_exists; [eauto with py|]. intros [there|e] w1 Hs1 _ _; [|by apply same_spared].
  destruct there; [|by apply wp_raise, same_spared].
  apply wp_bind, wp_st, wp_get; [eauto with py|]. intros [cand|e] w2 Hs2 _ _;
    [|apply same_spared; by etrans].
  apply wp_bind, wp_st, wp_marker; [|intros e w3 Hs3; apply same_spared; do 2 (etrans; [done|]); done].
  intros o w3 _ _ Hs3 _. assert (Hs : spared t d w w3) by (apply same_spared; do 2 (etrans; [done|]); done).
  apply wp_bind, wp_lift. destruct (check_marker o _ _ _ _) as [[]|e]; [by apply wp_bind, wp_ret, wp_lift| |done].
  apply wp_bind, wp_bind, wp_st, wp_key; [|done]. intros k (_ & _ & ->)%proof_key_inv.
  eapply wp_mono; [apply check_proof_spec; eauto with py|]. intros r w4 (Hf & _).
  assert (spared t d w w4) by (etrans; [done|eapply frame_spared; [done|by right|done]]).
  destruct r as [[]|e]; [by apply wp_lift|done].
Qed.

Lemma read_intake_spared t d sel w :
  wp (read_intake sha256 json_loads intake intake_loads read_bundle_intake t d sel) (λ _ w', spared t d w w') w.
Proof.
  unfold read_intake. apply wp_bind, wp_st, wp_resolve; [|intros; by apply same_spared].
  intros v m e w1 Ht Hd Hv Hs1 _ _. apply wp_bind, wp_st, wp_entry. intros o w2 Hs2 _.
  assert (Hs : spared t d w w2) by (apply same_spared; by etrans).
  destruct (startswith BUNDLE_NOTE _).
  - apply wp_bind, wp_st. eapply wp_mono; [apply bundle_reads|]. intros r w3 Hs3.
    assert (spared t d w w3) by (etrans; [done|by apply same_spared]). by destruct r.
  - apply wp_bind, wp_st, wp_key; [|done]. intros k (_ & _ & ->)%intake_key_inv.
    apply wp_bind, wp_st, wp_get; [by apply okey_canonical|]. intros r w3 Hs3 _ _.
    assert (spared t d w w3) by (etrans; [done|by apply same_spared]).
    destruct r as [source|]; [|done]. destruct (intake_loads source); [done|].
    apply wp_bind. eapply wp_mono; [by apply read_cached_spared|]. intros r w4 Hs4.
    assert (spared t d w w4) by (by etrans). by destruct r.
Qed.

Lemma publish_spared intake_dumps t d v source i w :
  1 <= v <= 99999999 →
  wp (publish_intake_cache sha256 json_loads intake intake_loads intake_dumps read_bundle_intake t d v source i)
     (λ _ w', spared t d w w') w.
Proof.
  intros Hv. unfold publish_intake_cache. apply wp_bind, wp_st, wp_key; [|done].
  intros k (Ht & Hd & ->)%intake_key_inv. apply wp_bind, wp_st, wp_mint; [eauto with py|]. intros r w1 Hf1 _.
  assert (H1 : spared t d w w1) by (eapply frame_spared; [done|by left|done]).
  destruct r as [[]|]; [|done]. apply wp_bind, wp_st, wp_key; [|done]. intros k (_ & _ & ->)%proof_key_inv.
  apply wp_bind, wp_try, wp_st, wp_mint; [eauto with py|]. intros r w2 Hf2 _.
  assert (H2 : spared t d w w2) by (etrans; [done|eapply frame_spared; [done|by right|done]]).
  destruct r as [[]|]; [done|]. apply wp_bind. eapply wp_mono; [apply read_intake_spared|].
  intros r w3 Hs3. assert (spared t d w w3) by (by etrans). by destruct r.
Qed.

(** A served intake is bound to its version.  Whatever [read_intake] returns
    for a version that carries no bundle is either the version's own bytes (an
    intake document), or the decoding of the cache beside it, and then the upload's
    marker or the stored proof names the digests of exactly these source and cache
    bytes, or no proof existed and none could be stored (trust on first read over
    a store that refuses the write). *)
Theorem served_intake_is_bound t d sel w v i w' m e :
  read_intake sha256 json_loads intake intake_loads read_bundle_intake t d sel w = (Ok (v, i), w') →
  manifest_at w t d = Some m → find_version (m_versions m) v = Some e →
  startswith BUNDLE_NOTE (default ""%string (ve_note e)) = false →
  ∃ source, obj w (okey t d (OVersion v)) = Some source ∧
    (intake_loads source = Some i ∨
     ∃ cand, obj w (ckey t d v) = Some cand ∧ intake_loads cand = Some i ∧
       (marker_binds w t d v (sha256 source) (sha256 cand) ∨
        bound w' (pkey t d v) (expected_proof v (sha256 source) (ckey t d v) (sha256 cand)) ∨
        (obj w (pkey t d v) = None ∧ obj w' (pkey t d v) = None))).
Proof.
  intros Hr Hm He Hb. pose proof (wp_intro _ _ _ _ _ Hr (read_intake_spec t d sel w)) as Hsp.
  destruct (Hsp v i eq_refl) as (_ & _ & _ & m' & e' & Hm' & He' & H).
  assert (m' = m) as -> by congruence. assert (e' = e) as -> by congruence.
  destruct H as [H|(source & Hs & H)]; [congruence|]. exists source. split; [done|].
  destruct H as [H|[_ (cand & Hc & Hi & H)]]; [by left|]. right. exists cand. do 2 (split; [done|]). tauto.
Qed.

(** A bound cache cannot be swapped.  Once a proof is stored for a raw DWG
    version, any later read of it that returns (without an upload marker) has
    served bytes with the digest the proof names, over source bytes with the
    digest it names, whatever was written to the cache or elsewhere since. *)
Theorem bound_cache_cannot_be_swapped t d sel w v i w' m e source s0 c0 :
  bound w (pkey t d v) (expected_proof v s0 (ckey t d v) c0) → obj w (mkey t d) = None →
  read_intake sha256 json_loads intake intake_loads read_bundle_intake t d sel w = (Ok (v, i), w') →
  manifest_at w t d = Some m → find_version (m_versions m) v = Some e →
  startswith BUNDLE_NOTE (default ""%string (ve_note e)) = false →
  obj w (okey t d (OVersion v)) = Some source → intake_loads source = None →
  ∃ cand, obj w (ckey t d v) = Some cand ∧ intake_loads cand = Some i ∧
    sha256 source = s0 ∧ sha256 cand = c0.
Proof.
  intros (raw & p & Hraw & Hp & Ha) Hmk Hr Hm He Hb Hsrc Hnot.
  pose proof (wp_intro _ _ _ _ _ Hr (read_intake_spec t d sel w)) as Hsp.
  destruct (Hsp v i eq_refl) as (_ & _ & _ & m' & e' & Hm' & He' & H).
  assert (m' = m) as -> by congruence. assert (e' = e) as -> by congruence.
  destruct H as [H|(source' & Hs & H)]; [congruence|]. assert (source' = source) as -> by congruence.
  destruct H as [H|[_ (cand & Hc & Hi & H)]]; [congruence|]. exists cand. do 2 (split; [done|]).
  destruct H as [(raw' & ? & Hraw' & _)|[Hkeep H]]; [congruence|].
  destruct H as [(raw' & p' & Hraw' & Hp' & Ha')|[H _]]; [|congruence].
  rewrite (Hkeep raw Hraw) in Hraw'. assert (raw' = raw) as -> by congruence.
  assert (p' = p) as -> by congruence. destruct (agrees_pins _ _ _ _ _ _ _ _ _ Ha' Ha). done.
Qed.
End Facts.

(** ** Round trip in memory *)

Section RoundTrip.
Import InMemory.
Variable sha256 : string → string.
Variable json_loads : string → option json.
Variable intake : Type.
Variable intake_loads : string → option intake.
Variable intake_dumps : intake → string.
Variable read_bundle_intake : string → string → Z → io (world (gmap string string)) store_error intake.
Hypothesis sha256_hex : ∀ s, is_sha256_hex (sha256 s) = true.
Hypothesis json_loads_dumps : ∀ j, wf j → json_loads (dumps j) = Some j.
Hypothesis intake_loads_dumps : ∀ i, intake_loads (intake_dumps i) = Some i.
Abbreviation W := (world (gmap string string)).

Lemma get_mem (w : W) k x : obj w k = Some x → bk (b_get k) w = (Ok x, w).
Proof. destruct w as [b n]. unfold obj, bk. simpl. unfold get. by intros ->. Qed.

Lemma exists_mem (w : W) k : bk (b_exists k) w = (Ok (bool_decide (is_Some (obj w k))), w).
Proof. by destruct w. Qed.

Definition stored (w : W) (k x : string) : W := World (<[k := x]> (w_b w)) (w_tick w).

Lemma put_mem (w : W) k x : obj w k = None → bk (b_put_if_absent_or_verify k x) w = (Ok tt, stored w k x).
Proof.
  destruct w as [b n]. unfold obj, bk, stored. simpl. unfold put_if_absent_or_verify. intros ->.
  by rewrite lookup_insert_eq, bool_decide_eq_true_2.
Qed.

Lemma stored_obj w k x k' : obj (stored w k x) k' = if decide (k' = k) then Some x else obj w k'.
Proof.
  unfold obj, stored. simpl. case_decide; [subst; apply lookup_insert_eq|by apply lookup_insert_ne].
Qed.

Lemma run_bind {A A' E} (m : io W E A) (f : A → io W E A') w a w' : m w = (Ok a, w') → (m ≫= f) w = f a w'.
Proof. unfold mbind, io_mbind. by intros ->. Qed.

Lemma run_st {A} (m : io W store_error A) w a w' : m w = (Ok a, w') → st m w = (Ok a, w').
Proof. unfold st. by intros ->. Qed.

Lemma rests_ne t d r r' : r ≠ r' → of_chars (key_text t d r) ≠ of_chars (key_text t d r').
Proof.
  intros Hne Heq%of_chars_inj. apply Hne, chars_inj. unfold key_text in Heq.
  do 2 apply app_inv_head in Heq. injection Heq as Heq. apply app_inv_head in Heq. by injection Heq.
Qed.

Lemma beside_ne v e e' : e ≠ e' → beside v e ≠ beside v e'.
Proof.
  intros Hne Heq%(f_equal chars). apply Hne, chars_inj. unfold beside in Heq. rewrite !chars_app in Heq.
  by do 2 apply app_inv_head in Heq.
Qed.

Lemma keys_apart t d v :
  NoDup [okey t d OManifest; okey t d (OVersion v); mkey t d; ckey t d v; pkey t d v].
Proof.
  unfold okey, mkey, ckey, pkey. change (object_rest (OVersion v)) with (beside v ".dwg").
  change (object_rest OManifest) with "manifest.json"%string.
  repeat (apply NoDup_cons; split); [..|apply NoDup_nil_2]; rewrite ?elem_of_cons, ?elem_of_nil; intros H;
    repeat match type of H with _ ∨ _ => destruct H as [H|H] end; try done; revert H;
    apply rests_ne; try apply beside_ne; done.
Qed.

Lemma intake_key_valid t d v : valid t → valid d → intake_cache_key (PStr t) (PStr d) v = Ok (ckey t d v).
Proof.
  intros Ht Hd. destruct (intake_cache_key _ _ v) as [k|e] eqn:E; [by apply intake_key_inv in E as (_ & _ & ->)|].
  unfold intake_cache_key in E. by rewrite drawing_prefix_valid in E.
Qed.

Lemma proof_key_valid t d v : valid t → valid d → intake_cache_proof_key (PStr t) (PStr d) v = Ok (pkey t d v).
Proof.
  intros Ht Hd. destruct (intake_cache_proof_key _ _ v) as [k|e] eqn:E; [by apply proof_key_inv in E as (_ & _ & ->)|].
  unfold intake_cache_proof_key in E. by rewrite intake_key_valid in E.
Qed.

Lemma marker_key_valid t d : valid t → valid d → upload_marker_key (PStr t) (PStr d) = Ok (mkey t d).
Proof.
  intros Ht Hd. destruct (upload_marker_key _ _) as [k|e] eqn:E; [by apply marker_key_inv in E as (_ & _ & ->)|].
  unfold upload_marker_key in E. by rewrite drawing_prefix_valid in E.
Qed.

Lemma ascii_class (p : ascii → bool) l :
  (∀ c, p c = true → code c < 128) → Forall (λ c, p c = true) l → forallb (λ c, code c <? 128) l = true.
Proof. intros Hp Hl. apply forallb_forall. intros c Hc%list_elem_of_In. rewrite Forall_forall in Hl. apply Z.ltb_lt. auto. Qed.

Lemma id_ascii t : valid t → forallb (λ c, code c <? 128) (chars t) = true.
Proof.
  intros [_ Hf]%sanitize_id_Ok. apply fullmatch_segment_chars in Hf; [|apply alnum_id_char].
  eapply ascii_class; [|done]. intros c. unfold is_id_char, is_slug_char, is_alnum_lower, in_range.
  rewrite !orb_true_iff, !andb_true_iff, !Z.leb_le, !Z.eqb_eq. lia.
Qed.

Lemma digest_ascii s : is_ascii (sha256 s) = true.
Proof.
  pose proof (sha256_hex s) as [_ Hh]%andb_true_iff. eapply (ascii_class is_hex_lower).
  - intros c. unfold is_hex_lower, is_digit, in_range. rewrite !orb_true_iff, !andb_true_iff, !Z.leb_le. lia.
  - apply Forall_forall. intros c Hc%list_elem_of_In. by eapply forallb_forall in Hc.
Qed.

Lemma ckey_ascii t d v : valid t → valid d → 1 <= v → is_ascii (ckey t d v) = true.
Proof.
  intros Ht Hd Hv. unfold is_ascii, ckey, key_text, beside. rewrite chars_of_chars, !chars_app, !forallb_app.
  cbn [forallb]. rewrite !forallb_app. cbn [forallb]. rewrite !forallb_app, (id_ascii t Ht), (id_ascii d Hd), chars_of_chars.
  rewrite (ascii_class is_digit (zero_pad 8 v)); [reflexivity| |apply zero_pad_digits; lia].
  intros c. unfold is_digit, in_range. rewrite !andb_true_iff, !Z.leb_le. lia.
Qed.

Lemma print_nat_ascii n : 0 <= n → is_ascii (of_chars (print_Z n)) = true.
Proof.
  intros Hn. unfold is_ascii, print_Z. rewrite chars_of_chars. destruct (Z.ltb_spec n 0); [lia|].
  eapply (ascii_class is_digit), print_nat_digits, Hn.
  intros c. unfold is_digit, in_range. rewrite !andb_true_iff, !Z.leb_le. lia.
Qed.

Lemma judge_own t d v x y (w : W) :
  valid t → valid d → 1 <= v →
  judge_proof json_loads (dumps (JObj (expected_proof v (sha256 x) (ckey t d v) (sha256 y))))
    (expected_proof v (sha256 x) (ckey t d v) (sha256 y)) w = (Ok tt, w).
Proof.
  intros Ht Hd Hv. unfold judge_proof. rewrite json_loads_dumps by apply expected_wf.
  set (p := expected_proof _ _ _ _).
  assert (Hp : proof_matches p p = Ok true); [|rewrite (run_bind _ _ w true w); [done|unfold lift; by rewrite Hp]].
  assert (Hstep : ∀ k val txt rest, py_text (dict_get p k) = Some txt → py_text (Some val) = Some txt →
    is_ascii txt = true → proof_matches p ((k, val) :: rest) = proof_matches p rest).
  { intros k val txt rest H1 H2 H3. cbn [proof_matches]. rewrite H1, H2. unfold compare_digest.
    rewrite H3. cbn [default mbind result_mbind]. by rewrite bool_decide_eq_true_2. }
  unfold p at 2. unfold expected_proof.
  rewrite (Hstep _ _ "1"%string) by done.
  rewrite (Hstep _ _ (of_chars (print_Z v))) by (done || apply print_nat_ascii; lia).
  rewrite (Hstep _ _ (sha256 x)) by (done || apply digest_ascii).
  rewrite (Hstep _ _ (ckey t d v)) by (done || by apply ckey_ascii).
  by rewrite (Hstep _ _ (sha256 y)) by (done || apply digest_ascii).
Qed.

Lemma load_mem t d m (w : W) : valid t → valid d → manifest_at w t d = Some m → load_manifest t d w = (Ok m, w).
Proof.
  intros Ht Hd Hm. unfold manifest_at in Hm. destruct (obj w (okey t d OManifest)) as [raw|] eqn:Ho; [|done].
  unfold load_manifest. rewrite manifest_key_valid by done.
  rewrite (run_bind _ _ w (okey t d OManifest) w) by done.
  rewrite (run_bind _ _ w raw w) by (by apply get_mem). unfold lift. simpl in Hm. by rewrite Hm.
Qed.

Lemma resolve_mem t d m e v (w : W) :
  valid t → valid d → 1 <= v <= 99999999 → manifest_at w t d = Some m →
  find_version (m_versions m) v = Some e →
  resolve_version (PStr t) (PStr d) (VInt v) w = (Ok (v, okey t d (OVersion v)), w).
Proof.
  intros Ht Hd Hv Hm He. unfold resolve_version. pose proof Ht as Ht'. pose proof Hd as Hd'.
  unfold valid in Ht', Hd'. rewrite Ht', Hd'. cbn [key keyed].
  rewrite (run_bind _ _ w t w), (run_bind _ _ w d w) by done.
  rewrite (run_bind _ _ w m w) by (by apply load_mem). rewrite He, version_key_valid by done.
  by rewrite (run_bind _ _ w (okey t d (OVersion v)) w) by done.
Qed.

(** Reading a cache whose proof is stored. *)
Lemma read_bound_mem t d v source i (w : W) m e :
  let proof := expected_proof v (sha256 source) (ckey t d v) (sha256 (intake_dumps i)) in
  valid t → valid d → manifest_at w t d = Some m → find_version (m_versions m) v = Some e →
  1 <= v <= 99999999 → startswith BUNDLE_NOTE (default ""%string (ve_note e)) = false →
  obj w (okey t d (OVersion v)) = Some source → intake_loads source = None →
  obj w (mkey t d) = None → obj w (ckey t d v) = Some (intake_dumps i) →
  obj w (pkey t d v) = Some (dumps (JObj proof)) →
  read_intake sha256 json_loads intake intake_loads read_bundle_intake t d (VInt v) w = (Ok (v, i), w).
Proof.
  intros proof Ht Hd Hm He Hv Hb Hsrc Hraw Hmk Hck Hpk. unfold read_intake.
  rewrite (run_bind _ _ w (v, okey t d (OVersion v)) w) by (by eapply run_st, resolve_mem).
  rewrite (run_bind _ _ w (Some e) w).
  2:{ apply run_st. unfold entry_or_empty, try_except. rewrite (run_bind _ _ w m w) by (by apply load_mem).
      by rewrite He. }
  cbn [mbind option_bind]. rewrite Hb, intake_key_valid by done.
  rewrite (run_bind _ _ w (ckey t d v) w) by done.
  rewrite (run_bind _ _ w source w) by (by apply run_st, get_mem).
  rewrite Hraw, (run_bind _ _ w i w); [done|]. unfold read_cached.
  rewrite (run_bind _ _ w true w) by (apply run_st; by rewrite exists_mem, Hck).
  cbn [negb]. rewrite (run_bind _ _ w (intake_dumps i) w) by (by apply run_st, get_mem).
  rewrite (run_bind _ _ w None w).
  2:{ apply run_st. unfold read_marker. rewrite marker_key_valid by done.
      rewrite (run_bind _ _ w (mkey t d) w) by done.
      by rewrite (run_bind _ _ w false w) by (by rewrite exists_mem, Hmk). }
  rewrite (run_bind _ _ w false w) by done. rewrite proof_key_valid by done.
  rewrite (run_bind _ _ w tt w).
  2:{ rewrite (run_bind _ _ w (pkey t d v) w) by done. unfold check_proof.
      rewrite (run_bind _ _ w (Ok true) w) by (unfold attempt; by rewrite exists_mem, Hpk).
      rewrite (run_bind _ _ w (Ok (dumps (JObj proof))) w) by (unfold attempt; by rewrite (get_mem _ _ _ Hpk)).
      apply judge_own; [done|done|lia]. }
  unfold lift. by rewrite intake_loads_dumps.
Qed.

(** Publish, then read.  In memory, for a raw DWG version without cache,
    proof or marker, [publish_intake_cache] succeeds and the following
    [read_intake] returns exactly the published intake and writes nothing. *)
Theorem published_intake_reads_back t d v source i (w : W) m e :
  valid t → valid d → manifest_at w t d = Some m → find_version (m_versions m) v = Some e →
  1 <= v <= 99999999 → startswith BUNDLE_NOTE (default ""%string (ve_note e)) = false →
  obj w (okey t d (OVersion v)) = Some source → intake_loads source = None →
  obj w (mkey t d) = None → obj w (ckey t d v) = None → obj w (pkey t d v) = None →
  ∃ w', publish_intake_cache sha256 json_loads intake intake_loads intake_dumps read_bundle_intake
          t d v source i w = (Ok (ckey t d v), w') ∧
        read_intake sha256 json_loads intake intake_loads read_bundle_intake t d (VInt v) w' = (Ok (v, i), w').
Proof.
  intros Ht Hd Hm He Hv Hb Hsrc Hraw Hmk Hck Hpk.
  set (proof := expected_proof v (sha256 source) (ckey t d v) (sha256 (intake_dumps i))).
  set (w1 := stored w (ckey t d v) (intake_dumps i)). set (w2 := stored w1 (pkey t d v) (dumps (JObj proof))).
  pose proof (keys_apart t d v) as Hnd. rewrite !NoDup_cons, !not_elem_of_cons in Hnd.
  destruct Hnd as ((? & ? & ? & ? & _) & (? & ? & ? & _) & (? & ? & _) & (Hcp & _) & _).
  assert (Hother : ∀ k, k ≠ ckey t d v → k ≠ pkey t d v → obj w2 k = obj w k).
  { intros k Hk1 Hk2. unfold w2, w1. by rewrite !stored_obj, !decide_False. }
  assert (Hm2 : manifest_at w2 t d = Some m) by (unfold manifest_at in *; by rewrite Hother).
  exists w2. split.
  - unfold publish_intake_cache. rewrite intake_key_valid, proof_key_valid by done.
    rewrite (run_bind _ _ w (ckey t d v) w) by done.
    rewrite (run_bind _ _ w tt w1) by (by apply run_st, put_mem).
    rewrite (run_bind _ _ w1 (pkey t d v) w1) by done.
    rewrite (run_bind _ _ w1 tt w2); [done|]. unfold try_except.
    rewrite (run_st _ _ tt w2); [done|]. apply put_mem. unfold w1. by rewrite stored_obj, decide_False.
  - apply (read_bound_mem t d v source i w2 m e); try done; [by rewrite Hother..| |].
    + unfold w2, w1. by rewrite stored_obj, decide_False, stored_obj, decide_True.
    + unfold w2. by rewrite stored_obj, decide_True.
Qed.
End RoundTrip.
