(* ===== verification/Bootstrap.v ===== *)
(** * The mutation gate and the demo bootstrap

    [server/write_loop.py]: the switches that close drawing mutations during a
    cutover ([drawing_mutations_refusal], the shared fence), and
    [ensure_demo_drawing], which creates a curated demo drawing on first use and
    refuses every other id (legacy authority and upload store). *)

From S2P Require Import Prelude PyText TenantIds Json IsoTime Manifest Backend StoreKeys DrawingStore StoreInv StoreProofs StoreTheorems IntakeCache.
From Stdlib Require Import Ascii.
Local Open Scope Z_scope.
Import Keys IdFacts.

(** ** The mutation gate *)

Module MutationGate.

Inductive reason :=
| EnvDisabled | FenceClosed | FenceUnreadable | LockUnavailable.

#[export] Instance reason_eq_dec : EqDecision reason.
Proof. solve_decision. Defined.

(** What one reading of the switches sees. *)
Record gate_env := GateEnv {
  ge_enabled : option string;       (** LEAF_DRAWING_MUTATIONS_ENABLED *)
  ge_fence_file : option string;    (** LEAF_DRAWING_MUTATIONS_FENCE_FILE *)
  ge_fence_text : option string;    (** the file's text; [None]: unreadable *)
  ge_fcntl : bool }.                (** [import fcntl] succeeds *)

Definition fence_path (g : gate_env) : string := strip (default ""%string (ge_fence_file g)).

Definition fence_refusal (g : gate_env) : option reason :=
  if bool_decide (fence_path g = ""%string) then None else
  match ge_fence_text g with
  | None => Some FenceUnreadable
  | Some text => if bool_decide (strip text = "1"%string) then None else Some FenceClosed
  end.

Definition drawing_mutations_refusal (g : gate_env) : option reason :=
  if negb (bool_decide (default "1"%string (ge_enabled g) = "1"%string)) then Some EnvDisabled
  else fence_refusal g.

(** What [with _fence_held(decide, denied=...)] yields. *)
Definition _fence_held (decide : gate_env → option reason) (denied : reason) (g : gate_env) : option reason :=
  if bool_decide (fence_path g = ""%string) then decide g
  else if ge_fcntl g then decide g else Some denied.

Definition drawing_mutation_refusal_guard (g : gate_env) : option reason :=
  _fence_held drawing_mutations_refusal LockUnavailable g.
Definition upload_mutation_refusal_guard (g : gate_env) : option reason :=
  _fence_held fence_refusal LockUnavailable g.

(** The gate fails closed.  A commit is admitted only when the lane is
    switched on and, if a fence is configured, the shared lock could be taken and
    the fence file was read and says 1; the upload lane differs in the switch
    alone. *)
Theorem mutation_gate_fails_closed g :
  (drawing_mutation_refusal_guard g = None ↔
   default "1"%string (ge_enabled g) = "1"%string ∧
   (fence_path g = ""%string ∨
    ge_fcntl g = true ∧ ∃ text, ge_fence_text g = Some text ∧ strip text = "1"%string)) ∧
  (upload_mutation_refusal_guard g = None ↔
   fence_path g = ""%string ∨
   ge_fcntl g = true ∧ ∃ text, ge_fence_text g = Some text ∧ strip text = "1"%string).
Proof.
  assert (Hf : fence_refusal g = None ↔ fence_path g = ""%string ∨
    ∃ text, ge_fence_text g = Some text ∧ strip text = "1"%string).
  { unfold fence_refusal. case_bool_decide; [naive_solver|].
    destruct (ge_fence_text g) as [text|]; [|naive_solver].
    case_bool_decide; naive_solver. }
  unfold drawing_mutation_refusal_guard, upload_mutation_refusal_guard, _fence_held, drawing_mutations_refusal.
  split; repeat case_bool_decide; cbn [negb]; try destruct (ge_fcntl g); naive_solver.
Qed.

End MutationGate.
Import MutationGate.

(** ** Exceptions of the routes *)

Inductive route_exc :=
| XErr (e : intake_error)
| XKeyError
| XValueError.

#[export] Instance route_exc_eq_dec : EqDecision route_exc.
Proof. solve_decision. Defined.

(** [except (KeyError, ValueError)] *)
Definition is_key_exc (e : route_exc) : bool :=
  match e with XKeyError => true | XErr (IStore e) => is_key_error e | _ => false end.
Definition is_value_exc (e : route_exc) : bool :=
  match e with
  | XValueError => true
  | XErr (IStore e) => is_value_error e
  | XErr (IProofUnreadable | IAttributeError | ITypeError) => false
  | XErr _ => true
  | XKeyError => false
  end.

Definition GUEST_TENANT_PREFIX : string := "guest-".
Definition CURATED_ALIASES : list string := ["rooftop_demo"; "rooftop-demo"; "demo"]%string.

Section Bootstrap.
Context {B : Type} `{!StorageBackend B}.
Variable clock : nat → instant.
Variable sha256 : string → string.
Variable json_loads : string → option json.
Variable intake : Type.
Variable intake_loads : string → option intake.
Variable intake_dumps : intake → string.
Variable read_bundle_intake : string → string → Z → io (world B) store_error intake.
(** [APS_LIVE == 1]; the bundled file's bytes; the cached intake ([None]: unreadable) *)
Variable live : bool.
Variable demo_bytes : option string.
Variable demo_intake : option intake.

Abbreviation W := (world B).
Abbreviation rx := (io W route_exc).

Definition rd {A} (m : io W intake_error A) : rx A :=
  λ w, match m w with (Ok a, w') => (Ok a, w') | (Err e, w') => (Err (XErr e), w') end.
Definition call {A} (m : io W store_error A) : rx A := rd (st m).

Definition bootstrap (tid did : string) : rx unit :=
  mk ← call (key (manifest_key (PStr tid) (PStr did)));
  there ← call (bk (b_exists mk));
  if (there : bool) then mret tt else
  data ← lift (from_opt demo_bytes (XErr (IStore EIO)));
  ingested ← try_except (_ ← call (ingest_drawing clock sha256 (PStr tid) (PStr did) "" data None); mret true)
               (λ e, if is_value_exc e then mret false else raise e);
  if (ingested : bool) && live then
    i ← lift (from_opt demo_intake (XErr (IStore EIO)));
    _ ← rd (publish_intake_cache sha256 json_loads intake intake_loads intake_dumps read_bundle_intake
              tid did 1 data i);
    mret tt
  else mret tt.

Definition ensure_demo_drawing (g : gate_env) (tid did : string) : rx unit :=
  _ ← call (key (Validator.validate_tenant_id (PStr did)));
  mk ← call (key (manifest_key (PStr tid) (PStr did)));
  there ← call (bk (b_exists mk));
  if (there : bool) then mret tt else
  if startswith GUEST_TENANT_PREFIX tid then raise XKeyError else
  uk ← call (key (upload_marker_key (PStr tid) (PStr did)));
  uploaded ← call (bk (b_exists uk));
  if (uploaded : bool) then raise XValueError else
  if negb (bool_decide (did ∈ CURATED_ALIASES)) then raise XKeyError else
  match drawing_mutation_refusal_guard g with
  | Some _ => raise XValueError
  | None => bootstrap tid did
  end.
End Bootstrap.

(** ** The drawings' objects *)

Lemma beside_not_object v ext o :
  1 <= v <= 99999999 → object_ok o → ext ≠ ".dwg"%string → ext ≠ ".plan.txt"%string →
  object_rest o ≠ beside v ext.
Proof.
  intros Hv Ho H1 H2 Heq%(f_equal chars).
  assert (Hz : ∀ v', 1 <= v' <= 99999999 → ∀ e, chars (beside v' e) = chars (beside v ext) → e = ext).
  { intros v' Hv' e. unfold beside. rewrite !chars_app, !chars_of_chars. intros H%app_inv_head.
    apply app_inj_1 in H as [_ H]; [by apply chars_inj|by rewrite !zero_pad8]. }
  destruct o as [|v'|v'|g]; cbn [object_rest object_ok] in *.
  - done.
  - by apply Hz in Heq; [congruence|].
  - by apply Hz in Heq; [congruence|].
  - unfold beside in Heq. by rewrite !chars_app in Heq.
Qed.

Section Drawings.
Context {B : Type} `{!StorageBackend B, !BackendLaws B}.
Variable sha256 : string → string.
Abbreviation W := (world B).

(** The objects the store keeps for drawings, all of them. *)
Definition drawings_same (w w' : W) : Prop :=
  ∀ t d o, valid t → valid d → object_ok o → obj w' (okey t d o) = obj w (okey t d o).

#[export] Instance drawings_same_preorder : PreOrder drawings_same.
Proof. split; [by intros w t d o|]. intros w1 w2 w3 H1 H2 t d o Ht Hd Ho. by rewrite H2, H1. Qed.

Lemma spared_drawings t d w w' : valid t → valid d → spared t d w w' → drawings_same w w'.
Proof.
  intros Ht Hd Hs t' d' o Ht' Hd' Ho. apply Hs; [by apply okey_canonical|]. intros v Hv. unfold okey, ckey, pkey.
  split; intros Heq%of_chars_inj; apply key_text_inj in Heq as (_ & _ & Heq); try (by eapply sanitized_no_slash);
    by eapply beside_not_object in Heq.
Qed.

Lemma same_drawings w w' : same w w' → drawings_same w w'.
Proof. intros Hs t d o Ht Hd Ho. by apply Hs, okey_canonical. Qed.

Lemma drawings_manifest w w' t d :
  valid t → valid d → drawings_same w w' → manifest_at w' t d = manifest_at w t d.
Proof. intros Ht Hd Hs. unfold manifest_at. by rewrite (Hs t d OManifest). Qed.

Lemma drawings_Inv w w' : drawings_same w w' → Inv sha256 w → Inv sha256 w'.
Proof.
  intros Hs HI t d Ht Hd Hm. rewrite (Hs t d OManifest) in Hm by done.
  destruct (HI t d Ht Hd Hm) as (m & Hat & Hwf). exists m.
  rewrite (drawings_manifest w w') by done. split; [done|].
  eapply wf_manifest_kept, Hwf. intros v x Hv Hx. by rewrite (Hs t d (OVersion v)).
Qed.
End Drawings.

Section BootstrapFacts.
Context {B : Type} `{!StorageBackend B, !BackendLaws B}.
Variable clock : nat → instant.
Variable sha256 : string → string.
Hypothesis sha256_hex : ∀ s, is_sha256_hex (sha256 s) = true.
Variable json_loads : string → option json.
Hypothesis json_loads_dumps : ∀ j, wf j → json_loads (dumps j) = Some j.
Variable intake : Type.
Variable intake_loads : string → option intake.
Variable intake_dumps : intake → string.
Variable read_bundle_intake : string → string → Z → io (world B) store_error intake.
Hypothesis bundle_reads : ∀ t d v w, wp (read_bundle_intake t d v) (λ _ w', same w w') w.
Variable live : bool.
Variable demo_bytes : option string.
Variable demo_intake : option intake.
Abbreviation W := (world B).

Lemma wp_rd {A} (m : io W intake_error A) (Φ : result route_exc A → W → Prop) w :
  wp m (λ r w', match r with Ok a => Φ (Ok a) w' | Err e => Φ (Err (XErr e)) w' end) w → wp (rd m) Φ w.
Proof. unfold wp, outcome, final, rd. by destruct (m w) as [[a|e] w']. Qed.

Lemma wp_call {A} (m : io W store_error A) (Φ : result route_exc A → W → Prop) w :
  wp m (λ r w', match r with Ok a => Φ (Ok a) w' | Err e => Φ (Err (XErr (IStore e))) w' end) w →
  wp (call m) Φ w.
Proof. intros H. apply wp_rd, wp_st. exact H. Qed.

(** What a bootstrap may have done to the store: nothing to the drawings, or it
    went through [ingest_drawing] of this drawing. *)
Definition bootstrapped (t d : string) (w w' : W) : Prop :=
  Inv sha256 w' ∧
  (drawings_same w w' ∨ valid t ∧ valid d ∧ ∃ w1, evolves sha256 t d w w1 ∧ drawings_same w1 w').

Lemma bootstrap_spec t d w :
  Inv sha256 w → valid t → valid d →
  wp (bootstrap clock sha256 json_loads intake intake_loads intake_dumps read_bundle_intake
        live demo_bytes demo_intake t d) (λ _ w', bootstrapped t d w w') w.
Proof.
  intros HI Ht Hd. unfold bootstrap.
  assert (Hsame : ∀ w', same w w' → bootstrapped t d w w').
  { intros w' Hs%same_drawings. split; [by eapply drawings_Inv|by left]. }
  apply wp_bind, wp_call, wp_key; [|intros; by apply Hsame]. intros k (_ & _ & ->)%manifest_key_inv.
  apply wp_bind, wp_call, wp_exists; [by apply okey_canonical|]. intros [there|e] w1 Hs1 _ _; [|by apply Hsame].
  destruct there; [by apply wp_ret, Hsame|]. apply wp_bind, wp_lift.
  destruct demo_bytes as [data|]; [|by apply Hsame]. cbn [from_opt].
  assert (HI1 : Inv sha256 w1) by (eapply drawings_Inv; [|done]; by apply same_drawings).
  apply wp_bind, wp_try, wp_bind, wp_call. eapply wp_mono; [by eapply ingest_spec|].
  intros r w2 [Hev _].
  assert (Hid : ingest_id d "" = d).
  { unfold ingest_id. destruct (truthy (PStr d)) eqn:E; [done|]. simpl in E. bool_prop. by subst. }
  rewrite Hid in Hev.
  assert (Hev0 : evolves sha256 t d w w2).
  { etrans; [apply quiet_evolves, same_quiet; [done|done|exact Hs1]|done]. }
  assert (Hb : ∀ w', drawings_same w2 w' → bootstrapped t d w w').
  { intros w' Hs. split; [eapply drawings_Inv; [done|]; by eapply (evolves_Inv sha256 t d w)|]. right. eauto. }
  assert (Hdone : bootstrapped t d w w2) by (by apply Hb).
  destruct r as [[d' v']|e].
  - destruct live; [|done]. apply wp_bind, wp_lift. destruct demo_intake as [i|]; [|done]. cbn [from_opt].
    apply wp_bind, wp_rd. eapply wp_mono; [apply publish_spared; [done|done|lia]|].
    intros r w3 Hs3. assert (bootstrapped t d w w3) by (by apply Hb, (spared_drawings t d)). by destruct r.
  - destruct (is_value_exc _); [|by apply wp_raise]. done.
Qed.

Definition may_bootstrap (g : gate_env) (t d : string) (w : W) : Prop :=
  d ∈ CURATED_ALIASES ∧ startswith GUEST_TENANT_PREFIX t = false ∧
  obj w (mkey t d) = None ∧ obj w (okey t d OManifest) = None ∧ drawing_mutation_refusal_guard g = None.

Lemma ensure_spec g t d w :
  Inv sha256 w →
  wp (ensure_demo_drawing clock sha256 json_loads intake intake_loads intake_dumps read_bundle_intake
        live demo_bytes demo_intake g t d)
     (λ r w', bootstrapped t d w w' ∧ (drawings_same w w' ∨ may_bootstrap g t d w)) w.
Proof.
  intros HI. unfold ensure_demo_drawing.
  assert (Hsame : ∀ w', same w w' → bootstrapped t d w w' ∧ (drawings_same w w' ∨ may_bootstrap g t d w)).
  { intros w' Hs%same_drawings. split; [split; [by eapply drawings_Inv|]|]; by left. }
  apply wp_bind, wp_call, wp_key; [|intros; by apply Hsame]. intros _ _.
  apply wp_bind, wp_call, wp_key; [|intros; by apply Hsame]. intros k (Ht & Hd & ->)%manifest_key_inv.
  apply wp_bind, wp_call, wp_exists; [by apply okey_canonical|].
  intros [there|e] w1 Hs1 Hno _; [|by apply Hsame]. destruct there; [by apply wp_ret, Hsame|].
  specialize (Hno eq_refl). destruct (startswith GUEST_TENANT_PREFIX t) eqn:Hg; [by apply wp_raise, Hsame|].
  apply wp_bind, wp_call, wp_key; [|intros; by apply Hsame]. intros k (_ & _ & ->)%marker_key_inv.
  apply wp_bind, wp_call, wp_exists; [eauto with py|]. intros [up|e] w2 Hs2 Hup _; [|apply Hsame; by etrans].
  assert (Hs : same w w2) by (by etrans). destruct up; [by apply wp_raise, Hsame|]. specialize (Hup eq_refl).
  rewrite (Hs1 (mkey t d)) in Hup by eauto with py.
  case_bool_decide as Hal; [|by apply wp_raise, Hsame]. cbn [negb].
  destruct (drawing_mutation_refusal_guard g) eqn:Hgate; [by apply wp_raise, Hsame|].
  assert (HI2 : Inv sha256 w2) by (eapply drawings_Inv, HI; by apply same_drawings).
  eapply wp_mono; [by apply bootstrap_spec|]. intros r w3 [HI3 Hb]. split; [|right; by repeat split].
  split; [done|]. pose proof (same_drawings _ _ Hs) as Hs'.
  destruct Hb as [Hb|(_ & _ & w4 & Hev & Hb)]; [left; by etrans|right].
  do 2 (split; [done|]). exists w4. split; [|done]. etrans; [by apply quiet_evolves, same_quiet|done].
Qed.

(** The bootstrap fabricates nothing.  [ensure_demo_drawing] keeps the store
    invariant; it leaves every object of every drawing as it was, unless the id is
    a curated demo alias of a tenant that is no guest, the drawing has neither a
    manifest nor an upload marker, and the mutation gate is open; and even then no
    other drawing changes. *)
Theorem bootstrap_only_curated g t d w r w' :
  Inv sha256 w →
  ensure_demo_drawing clock sha256 json_loads intake intake_loads intake_dumps read_bundle_intake
    live demo_bytes demo_intake g t d w = (r, w') →
  Inv sha256 w' ∧
  (∀ t' d' o k, object_key (PStr t') (PStr d') o = Ok k → (t', d') ≠ (t, d) ∨ ¬ may_bootstrap g t d w →
     obj w' k = obj w k).
Proof.
  intros HI Hr. destruct (wp_intro _ _ _ _ _ Hr (ensure_spec g t d w HI)) as [[HI' Hb] Hm].
  split; [done|]. intros t' d' o k (Ht' & Hd' & Ho & ->)%object_key_inv Hcase.
  destruct Hm as [Hm|Hm]; [by apply Hm|]. destruct Hcase as [Hne|]; [|done].
  destruct Hb as [Hb|(Ht & Hd & w1 & Hev & Hb)]; [by apply Hb|].
  rewrite (Hb t' d' o) by done. eapply (outside_other sha256 t d); try done. apply Hev.
Qed.
End BootstrapFacts.
