(* ===== verification/CheckoutRoutes.v ===== *)
(** * The checkout, undo and redo routes

    [server/routers/drawings.py]: taking, refreshing and releasing the
    single-writer lock of a drawing over HTTP, and the undo and redo routes it
    guards, with [_checkout_identity] of [server/routers/jobs.py].  A request is
    not one transaction: it reads the lock, decides, and then calls the store.
    Between these calls other requests run; [others i] is what they do before the
    [i]-th store call of the request. *)

From S2P Require Import Prelude PyText TenantIds Json IsoTime Manifest Backend StoreKeys DrawingStore StoreInv StoreProofs StoreTheorems IntakeCache Bootstrap Capability.
From Stdlib Require Import Ascii.
Local Open Scope Z_scope.
Import Keys IdFacts MutationGate.

(** What a route raises or catches. *)
Inductive exn :=
| XRoute (e : route_exc)
| XCap (e : cap_error).

#[export] Instance exn_eq_dec : EqDecision exn.
Proof. solve_decision. Defined.

Definition is_key_or_value (e : exn) : bool :=
  match e with XRoute e => is_key_exc e || is_value_exc e | XCap _ => false end.

(** The answers, by what produces them. *)
Inductive response (A : Type) :=
| Done (view : A)                          (** 200 *)
| Denied (e : cap_error)                   (** [_denied]: 403 or 503 *)
| MutationRefused (why : reason)           (** [_mutation_refused]: 503 *)
| BadParams (status : Z)                   (** 400 or 404 *)
| NotAcquired (locked_by : option string)  (** 409 *)
| CommittedUnreadable.                     (** 503: committed, do not retry *)
Arguments Done {A}. Arguments Denied {A}. Arguments MutationRefused {A}. Arguments BadParams {A}.
Arguments NotAcquired {A}. Arguments CommittedUnreadable {A}.

Definition DEFAULT_CHECKOUT_TTL_S : Z := 3600.
Definition MAX_CHECKOUT_TTL_S : Z := 86400.

(** [CheckoutRequest], validated: [ttl_s] in microseconds, in (0, one day]. *)
Record checkout_request := CheckoutRequest { cr_holder : option string; cr_ttl_us : option Z }.

Definition ttl_valid (req : checkout_request) : bool :=
  match cr_ttl_us req with
  | None => true
  | Some t => (0 <? t) && (t <=? MAX_CHECKOUT_TTL_S * US_PER_S)
  end.

(** [(req.holder if req else None) or str(tenant_id)] *)
Definition requested_holder (req : option checkout_request) (tenant : string) : string :=
  match req ≫= cr_holder with
  | Some h => if bool_decide (h = ""%string) then tenant else h
  | None => tenant
  end.
Definition requested_ttl (req : option checkout_request) : Z :=
  match req ≫= cr_ttl_us with
  | Some t => if t =? 0 then DEFAULT_CHECKOUT_TTL_S * US_PER_S else t
  | None => DEFAULT_CHECKOUT_TTL_S * US_PER_S
  end.

Section Routes.
Context {B : Type} `{!StorageBackend B}.
Variable clock : nat → instant.
Variable sha256 : string → string.
Variable json_loads : string → option json.
Variable intake : Type.
Variable intake_loads : string → option intake.
Variable intake_dumps : intake → string.
Variable read_bundle_intake : string → string → Z → io (world B) store_error intake.
Variable live : bool.
Variable demo_bytes : option string.
Variable demo_intake : option intake.
Variable request : Type.
Variable prepare_graph_bundle :
  string → string → string → option Z → request → io (world B) store_error (string * string).
Variable read_graph_bundle : string → string → Z → io (world B) store_error unit.
Variable hmac : string → string → string.
(** the surroundings: the environment, the successive readings of the mutation
    switches, and what other requests do meanwhile *)
Variable env : cap_env.
Variable gates : nat → gate_env.
Variable others : nat → list (writer request).

Abbreviation W := (world B).
(** the store and the process's ephemeral secret *)
Abbreviation RW := (W * option string)%type.
Abbreviation rt := (io RW exn).

Definition on_store {A} (m : io W route_exc A) : rt A :=
  λ s, match m s.1 with (Ok a, w') => (Ok a, (w', s.2)) | (Err e, w') => (Err (XRoute e), (w', s.2)) end.
Definition on_secret {A} (m : io (option string) cap_error A) : rt A :=
  λ s, match m s.2 with (Ok a, k') => (Ok a, (s.1, k')) | (Err e, k') => (Err (XCap e), (s.1, k')) end.
Definition sc {A} (m : io W store_error A) : rt A := on_store (call m).
Definition trying {A} (m : rt A) : rt (result exn A) := λ s, let '(r, s') := m s in (Ok r, s').

Definition interlude (i : nat) : rt unit :=
  λ s, (Ok tt, (after clock sha256 request prepare_graph_bundle read_graph_bundle (others i) s.1, s.2)).

Definition ensure (i : nat) (tid did : string) : rt unit :=
  on_store (ensure_demo_drawing clock sha256 json_loads intake intake_loads intake_dumps read_bundle_intake
              live demo_bytes demo_intake (gates i) tid did).

Definition _checkout_view (co : option checkout) : rt (option (string * string * string)) :=
  active ← sc (checkout_active clock co);
  mret (if (active : bool) then c ← co; Some (co_holder c, co_acquired c, co_expires c) else None).

Definition _lock_authorization (tenant : tenant_context) (did : string) (capability : option string)
  : rt (option string * option Z) :=
  m ← sc (load_manifest (tc_id tenant) did);
  active ← sc (checkout_active clock (m_checkout m));
  if negb (active : bool) then mret (None, None) else
  hf ← on_secret (verify hmac env capability tenant did (m_checkout m));
  mret (Some (hf : string * Z).1, Some hf.2).

(** ** [undo] and [redo] *)

(** the version, the head and latest pointers and the intake of a moved head *)
Definition moved := (Z * Z * Z * intake)%type.

Definition view_after (move : io W store_error Z) (i : nat) (tid did : string) : rt moved :=
  _ ← ensure i tid did;
  match drawing_mutation_refusal_guard (gates (S i)) with
  | Some _ => on_store (raise XValueError)
  | None =>
      new_head ← sc move;
      _ ← interlude 2;
      vi ← on_store (rd (read_intake sha256 json_loads intake intake_loads read_bundle_intake tid did VHead));
      m ← sc (load_manifest tid did);
      mret (new_head, m_head m, m_latest m, (vi : Z * intake).2)
  end.

Definition undo_view (tid did : string) (holder : option string) (fence : option Z) : rt moved :=
  view_after (undo clock sha256 read_graph_bundle (PStr tid) (PStr did) holder fence) 2 tid did.
Definition redo_view (tid did : string) (holder : option string) (fence : option Z) : rt moved :=
  view_after (redo clock sha256 read_graph_bundle (PStr tid) (PStr did) holder fence) 2 tid did.

(** The body the two routes share. *)
Definition move_route (view : string → string → option string → option Z → rt moved)
    (tenant : tenant_context) (did : string) (capability : option string) : rt (response moved) :=
  match drawing_mutations_refusal (gates 0) with
  | Some why => mret (MutationRefused why)
  | None =>
      auth ← trying (_ ← ensure 1 (tc_id tenant) did; _ ← interlude 0;
                     _lock_authorization tenant did capability);
      match auth with
      | Err (XCap e) => mret (Denied e)
      | Err e => if is_key_or_value e then mret (BadParams 400) else raise e
      | Ok (holder, fence) =>
          _ ← interlude 1;
          r ← trying (view (tc_id tenant) did holder fence);
          match r with
          | Ok v => mret (Done v)
          | Err (XRoute (XErr (IStore (EDenied _)))) => mret (Denied CapabilityRejected)
          | Err (XRoute (XErr IProofUnreadable)) => mret CommittedUnreadable
          | Err e => if is_key_or_value e then mret (BadParams 400) else raise e
          end
      end
  end.

Definition undo_route := move_route undo_view.
Definition redo_route := move_route redo_view.

(** ** Taking and releasing the lock *)

Abbreviation shown := (option (string * string * string)).

(** The generation a refresh may name: what the presented capability proves of a
    live lease, nothing when it proves nothing. *)
Definition proven_fence (tenant : tenant_context) (did : string) (capability : option string)
    (prior : option checkout) : rt (option Z) :=
  active ← sc (checkout_active clock prior);
  if negb (active : bool) then mret None else
  r ← trying (on_secret (verify hmac env capability tenant did prior));
  match r with
  | Ok hf => mret (Some (hf : string * Z).2)
  | Err (XCap CapabilityRejected) => mret None
  | Err e => raise e
  end.

Definition acquire_checkout_route (tenant : tenant_context) (did : string) (req : option checkout_request)
    (capability : option string) : rt (response (string * string * shown)) :=
  match drawing_mutations_refusal (gates 0) with
  | Some why => mret (MutationRefused why)
  | None =>
      ready ← trying (ensure 1 (tc_id tenant) did);
      match ready with
      | Err e => if is_key_or_value e then mret (BadParams 404) else raise e
      | Ok _ =>
          let holder := requested_holder req (tc_id tenant) in
          let ttl := requested_ttl req in
          match drawing_mutation_refusal_guard (gates 2) with
          | Some why => mret (MutationRefused why)
          | None =>
              _ ← interlude 0;
              m ← sc (load_manifest (tc_id tenant) did);
              proven ← trying (expected ← proven_fence tenant did capability (m_checkout m);
                               _ ← on_secret (ensure_mintable hmac env tenant did);
                               mret expected);
              match proven with
              | Err (XCap CapabilityUnavailable) => mret (Denied CapabilityUnavailable)
              | Err e => raise e
              | Ok expected =>
                  _ ← interlude 1;
                  granted ← trying (sc (acquire_checkout_fence clock sha256 (PStr (tc_id tenant)) (PStr did)
                                          holder ttl expected true));
                  match granted with
                  | Err (XRoute (XErr (IStore EParam))) => mret (BadParams 400)
                  | Err e => raise e
                  | Ok fence =>
                      _ ← interlude 2;
                      m2 ← sc (load_manifest (tc_id tenant) did);
                      match fence with
                      | None => mret (NotAcquired (co_holder <$> m_checkout m2))
                      | Some f =>
                          minted ← trying (on_secret (mint hmac env tenant did f));
                          match minted with
                          | Err (XCap CapabilityUnavailable) => mret (Denied CapabilityUnavailable)
                          | Err e => raise e
                          | Ok token => v ← _checkout_view (m_checkout m2); mret (Done (token, holder, v))
                          end
                      end
                  end
              end
          end
      end
  end.

Definition release_checkout_route (tenant : tenant_context) (did : string) (capability : option string)
  : rt (response (bool * shown)) :=
  match drawing_mutations_refusal (gates 0) with
  | Some why => mret (MutationRefused why)
  | None =>
      ready ← trying (ensure 1 (tc_id tenant) did);
      match ready with
      | Err e => if is_key_or_value e then mret (BadParams 404) else raise e
      | Ok _ =>
          _ ← interlude 0;
          auth ← trying (_lock_authorization tenant did capability);
          match auth with
          | Err (XCap e) => mret (Denied e)
          | Err (XRoute e) => if is_key_exc e then mret (BadParams 404) else raise (XRoute e)
          | Ok (holder, fence) =>
              match drawing_mutation_refusal_guard (gates 2) with
              | Some why => mret (MutationRefused why)
              | None =>
                  _ ← interlude 1;
                  released ← sc (match (fence : option Z) with
                                 | None => release_checkout clock sha256 (PStr (tc_id tenant)) (PStr did) None None
                                 | Some _ => release_checkout clock sha256 (PStr (tc_id tenant)) (PStr did) holder fence
                                 end);
                  _ ← interlude 2;
                  m2 ← sc (load_manifest (tc_id tenant) did);
                  v ← _checkout_view (m_checkout m2);
                  mret (Done ((released : bool), v))
              end
          end
      end
  end.

(** ** The identity a run carries *)

Definition _checkout_identity (tenant : tenant_context) (did : string) (capability : option string)
  : rt (string * option Z) :=
  try_except
    (m ← sc (load_manifest (tc_id tenant) did);
     active ← sc (checkout_active clock (m_checkout m));
     if negb (active : bool) then mret (ANONYMOUS_HOLDER, None) else
     hf ← on_secret (verify hmac env capability tenant did (m_checkout m));
     mret ((hf : string * Z).1, Some hf.2))
    (λ _, mret (ANONYMOUS_HOLDER, None)).
End Routes.
