(* ===== verification/RouteSafety.v ===== *)
(** * Guarantees of the checkout routes

    What a request can do to a live lease, whatever other requests run between its
    store calls: each theorem names the state in which the request's commit ran. *)

From S2P Require Import Prelude PyText TenantIds Json IsoTime Manifest Backend StoreKeys DrawingStore StoreInv StoreProofs StoreTheorems IntakeCache Bootstrap Capability CheckoutRoutes.
From Stdlib Require Import Ascii.
Local Open Scope Z_scope.
Import Keys IdFacts MutationGate.

Section Safety.
Context {B : Type} `{!StorageBackend B, !BackendLaws B}.
Variable clock : nat → instant.
Variable sha256 : string → string.
Hypothesis sha256_hex : ∀ s, is_sha256_hex (sha256 s) = true.
Variable json_loads : string → option json.
Hypothesis json_loads_dumps : ∀ j, wf j → json_loads (dumps j) = Some j.
Variable intake : Type.
Variable intake_loads : string → option intake.
Variable intake_dumps : intake → string.
Variable read_bundle_intake : string → string → Z → io (world B) store_error intake.
Hypothesis bundle_reads : ∀ t d v w, wp (read_bundle_intake t d v) (λ _ w', same w w') w.
Variable live : bool.
Variable demo_bytes : option string.
Variable demo_intake : option intake.
Variable request : Type.
Variable prepare_graph_bundle :
  string → string → string → option Z → request → io (world B) store_error (string * string).
Variable read_graph_bundle : string → string → Z → io (world B) store_error unit.
Hypothesis prepare_reads : ∀ t d x p g w, wp (prepare_graph_bundle t d x p g) (λ _ w', same w w') w.
Hypothesis read_reads : ∀ t d v w, wp (read_graph_bundle t d v) (λ _ w', same w w') w.
Variable hmac : string → string → string.
Variable env : cap_env.
Variable gates : nat → gate_env.
Variable others : nat → list (writer request).

Abbreviation W := (world B).
Abbreviation RW := (W * option string)%type.
Abbreviation history := (after clock sha256 request prepare_graph_bundle read_graph_bundle).

(** ** Walking a route *)

Lemma wp_on_store {A} (m : io W route_exc A) (Φ : result exn A → RW → Prop) s :
  wp m (λ r w', Φ (match r with Ok a => Ok a | Err e => Err (XRoute e) end) (w', s.2)) s.1 →
  wp (on_store m) Φ s.
Proof. unfold wp, outcome, final, on_store. by destruct (m s.1) as [[a|e] w']. Qed.

Lemma wp_sc {A} (m : io W store_error A) (Φ : result exn A → RW → Prop) s :
  wp m (λ r w', Φ (match r with Ok a => Ok a | Err e => Err (XRoute (XErr (IStore e))) end) (w', s.2)) s.1 →
  wp (sc m) Φ s.
Proof.
  intros H. apply wp_on_store, wp_call. eapply wp_mono; [exact H|]. by intros [a|e] w'.
Qed.

Lemma wp_on_secret {A} (m : io (option string) cap_error A) (Φ : result exn A → RW → Prop) s :
  (∀ r k', m s.2 = (r, k') → Φ (match r with Ok a => Ok a | Err e => Err (XCap e) end) (s.1, k')) →
  wp (on_secret m) Φ s.
Proof. intros H. unfold wp, outcome, final, on_secret. destruct (m s.2) as [[a|e] k'] eqn:E; exact (H _ _ eq_refl). Qed.

Lemma wp_trying {A} (m : io RW exn A) (Φ : result exn (result exn A) → RW → Prop) s :
  wp m (λ r s', Φ (Ok r) s') s → wp (trying m) Φ s.
Proof. unfold wp, outcome, final, trying. by destruct (m s). Qed.

(** Run the call and name its result. *)
Lemma wp_run {A} (m : io RW exn A) (Φ : result exn A → RW → Prop) s :
  (∀ r s', m s = (r, s') → Φ r s') → wp m Φ s.
Proof. intros H. apply H. unfold outcome, final. by destruct (m s). Qed.

Lemma wp_interlude i (Φ : result exn unit → RW → Prop) s :
  Φ (Ok tt) (history (others i) s.1, s.2) →
  wp (interlude clock sha256 request prepare_graph_bundle read_graph_bundle others i) Φ s.
Proof. done. Qed.

Lemma wp_ensure i t d (Φ : result exn unit → RW → Prop) s :
  Inv sha256 s.1 → (∀ r w', Inv sha256 w' → Φ r (w', s.2)) →
  wp (ensure clock sha256 json_loads intake intake_loads intake_dumps read_bundle_intake
        live demo_bytes demo_intake gates i t d) Φ s.
Proof.
  intros HI H. apply wp_on_store. eapply wp_mono; [by eapply ensure_spec|].
  intros r w' [[HI' _] _]. by destruct r; apply H.
Qed.

Lemma wp_active co (Φ : result store_error bool → W → Prop) w :
  (∀ w', same w w' → Φ (Ok (_is_active co (clock (w_tick w)))) w') → wp (checkout_active clock co) Φ w.
Proof. intros H. apply wp_bind, wp_utcnow. intros w' Hw'. apply wp_ret, H. by apply utcnow_same. Qed.

(** ** Proof of a generation *)

(** The presented text is the token of generation [f] of this tenant's drawing for
    the caller's authenticated subject, under a secret of the process. *)
Definition proves (cap : option string) (tenant : tenant_context) (d : string) (f : Z) : Prop :=
  ∃ subject k st st', _subject_of env tenant = Ok subject ∧ _secret env st = (Ok k, st') ∧
    (strip <$> cap) = Some (_SCHEME +:+ "." +:+ hmac k (binding (tc_id tenant) subject d f)).

Lemma verify_proves cap tenant d co st h f st' :
  verify hmac env cap tenant d co st = (Ok (h, f), st') →
  ∃ c, co = Some c ∧ co_holder c = h ∧ co_fence c = Some f ∧ proves cap tenant d f.
Proof.
  intros (c & tok & Hco & Hh & Hf & Hm & Hcap)%verify_Ok. exists c. do 3 (split; [done|]).
  apply mint_Ok in Hm as (s & k & Hs & Hk & ->). exists s, k, st, st'. done.
Qed.

(** The lock of a drawing, and whether the clock calls it active. *)
Definition locked (w : W) (t d : string) (co : option checkout) (active : bool) : Prop :=
  ∃ m, manifest_at w t d = Some m ∧ m_checkout m = co ∧ _is_active co (clock (w_tick w)) = active.

Lemma same_manifest t d w w' : valid t → valid d → same w w' → manifest_at w' t d = manifest_at w t d.
Proof. intros Ht Hd Hs. by apply (drawings_manifest w w' t d), same_drawings. Qed.

Lemma same_Inv w w' : same w w' → Inv sha256 w → Inv sha256 w'.
Proof. intros Hs. by apply drawings_Inv, same_drawings. Qed.

Lemma history_Inv i w : Inv sha256 w → Inv sha256 (history (others i) w).
Proof. by apply after_Inv. Qed.

(** What the gate establishes of the state it reads. *)
Definition authorized (tenant : tenant_context) (d : string) (cap : option string) (w : W)
    (auth : option string * option Z) : Prop :=
  match auth with
  | (Some h, Some f) =>
      (∃ co, locked w (tc_id tenant) d (Some co) true ∧ co_holder co = h ∧ co_fence co = Some f) ∧
      proves cap tenant d f
  | (None, None) => ∃ co, locked w (tc_id tenant) d co false
  | _ => False
  end.

Abbreviation authorization := (_lock_authorization clock hmac env).

Lemma authorization_spec tenant d cap s :
  wp (authorization tenant d cap)
     (λ r s', same s.1 s'.1 ∧
        match r with Ok a => valid (tc_id tenant) ∧ valid d ∧ authorized tenant d cap s.1 a | Err _ => True end) s.
Proof.
  unfold _lock_authorization. apply wp_bind, wp_sc, wp_load; [|done].
  intros w1 m Ht Hd Hs1 Hm Htick. apply wp_bind, wp_sc, wp_active. intros w2 Hs2. cbn [fst snd]. rewrite Htick.
  assert (Hs : same s.1 w2) by (by etrans).
  destruct (_is_active _ _) eqn:Ha; cbn [negb].
  - apply wp_bind, wp_on_secret. intros [[h f]|e] k' Hv; [|done]. apply wp_ret. split; [done|].
    do 2 (split; [done|]). apply verify_proves in Hv as (c & Hco & Hh & Hf & Hp). split; [|done].
    exists c. split; [|done]. exists m. by rewrite <- Hco.
  - apply wp_ret. split; [done|]. do 2 (split; [done|]). exists (m_checkout m). by exists m.
Qed.

Abbreviation ensure_at := (ensure clock sha256 json_loads intake intake_loads intake_dumps read_bundle_intake
  live demo_bytes demo_intake gates).
Abbreviation ensured := (ensure_at 1).

(** The state in which a request reads the lock: after the bootstrap check and
    what other requests did meanwhile; and the state its commit starts from. *)
Definition gate_state (tenant : tenant_context) (d : string) (s : RW) : RW :=
  let s1 := final (ensured (tc_id tenant) d) s in
  (history (others 0) s1.1, s1.2).
Definition commit_state (tenant : tenant_context) (d : string) (cap : option string) (s : RW) : W :=
  history (others 1) (final (authorization tenant d cap) (gate_state tenant d s)).1.

(** A head move checks the drawing once more before it calls the store. *)
Definition move_state (tenant : tenant_context) (d : string) (cap : option string) (s : RW) : W :=
  (final (ensure_at 2 (tc_id tenant) d) (commit_state tenant d cap s, None)).1.

(** The gate found no active lease. *)
Definition found_free (tenant : tenant_context) (d : string) (s : RW) : Prop :=
  ∃ co, locked (gate_state tenant d s).1 (tc_id tenant) d co false.

Lemma ensured_Inv t d s r s1 : Inv sha256 s.1 → ensured t d s = (r, s1) → Inv sha256 s1.1.
Proof. intros HI H. refine (wp_intro _ (λ _ s', Inv sha256 s'.1) _ _ _ H _). apply wp_ensure; auto. Qed.

Lemma gate_state_eq tenant d s r s1 :
  ensured (tc_id tenant) d s = (r, s1) → gate_state tenant d s = (history (others 0) s1.1, s1.2).
Proof. unfold gate_state, final. by intros ->. Qed.

(** The state a commit starts from keeps the invariant. *)
Lemma commit_state_Inv tenant d cap s r s1 r2 s2 :
  Inv sha256 s.1 → ensured (tc_id tenant) d s = (r, s1) →
  authorization tenant d cap (history (others 0) s1.1, s1.2) = (r2, s2) →
  commit_state tenant d cap s = history (others 1) s2.1 ∧ Inv sha256 (history (others 1) s2.1).
Proof.
  intros HI H1 H2. split.
  - unfold commit_state, final. by rewrite (gate_state_eq _ _ _ _ _ H1), H2.
  - apply history_Inv. destruct (wp_intro _ _ _ _ _ H2 (authorization_spec tenant d cap _)) as [Hs _].
    eapply same_Inv; [done|]. by eapply history_Inv, ensured_Inv.
Qed.

(** ** Release *)

Lemma release_allowed_active co now h f :
  release_allowed (Some co) now h (Some f) = true → _is_active (Some co) now = true → default 0 (co_fence co) = f.
Proof. unfold release_allowed. intros H Ha. rewrite Ha in H. by bool_prop. Qed.

Lemma release_at t d h f w :
  Inv sha256 w →
  wp (release_checkout clock sha256 (PStr t) (PStr d) h f)
     (λ r _, r = Ok true → ∃ co active, locked w t d (Some co) active ∧
        (active = false ∨ f = None ∨ f = Some (default 0 (co_fence co)))) w.
Proof.
  intros HI. eapply wp_mono; [by eapply release_spec|]. intros r w' [_ Hr] ->.
  destruct Hr as (m & Hm & Hal & _). destruct (m_checkout m) as [co|] eqn:Eco; [|done].
  exists co, (_is_active (Some co) (clock (w_tick w))). split; [by exists m; rewrite Eco|].
  destruct (_is_active (Some co) (clock (w_tick w))) eqn:Eact; [right|by left].
  destruct f as [f|]; [right|by left]. f_equal. symmetry. by eapply release_allowed_active in Hal.
Qed.

(** A release clears only what it may.  When the release route answers that
    it released the lock, then in the state where its commit ran, the lock it
    cleared was expired, or the caller presented the capability of exactly that
    generation, or (the one gap) the gate had found the drawing free before other
    requests ran. *)
Theorem release_clears_only_proven_lease tenant d cap s v s' :
  Inv sha256 s.1 →
  release_checkout_route clock sha256 json_loads intake intake_loads intake_dumps read_bundle_intake
    live demo_bytes demo_intake request prepare_graph_bundle read_graph_bundle hmac env gates others
    tenant d cap s = (Ok (Done (true, v)), s') →
  ∃ co active, locked (commit_state tenant d cap s) (tc_id tenant) d (Some co) active ∧
    (active = false ∨ proves cap tenant d (default 0 (co_fence co)) ∨ found_free tenant d s).
Proof.
  intros HI Hr. refine (wp_intro _ (λ r _, ∀ v, r = Ok (Done (true, v)) → _) s _ s' Hr _ v eq_refl).
  unfold release_checkout_route. destruct (drawing_mutations_refusal _); [by apply wp_ret|].
  apply wp_bind, wp_trying, wp_run. intros r s1 E1. destruct r as [[]|e]; [|by destruct (is_key_or_value e)].
  apply wp_bind, wp_interlude, wp_bind, wp_trying, wp_run. cbn [fst snd]. intros r s2 E2.
  destruct (wp_intro _ _ _ _ _ E2 (authorization_spec tenant d cap _)) as [_ Ha].
  destruct r as [[h f]|[e|e]]; [|by destruct (is_key_exc e)|done]. destruct Ha as (Ht & Hd & Ha).
  destruct (drawing_mutation_refusal_guard _); [done|]. apply wp_bind, wp_interlude, wp_bind, wp_sc. cbn [fst snd].
  destruct (commit_state_Inv _ _ _ _ _ _ _ _ HI E1 E2) as [Hwc HIc]. rewrite Hwc.
  set (wc := history (others 1) s2.1) in *. set (t := tc_id tenant) in *.
  assert (Hat : wp (match f with
                    | None => release_checkout clock sha256 (PStr t) (PStr d) None None
                    | Some _ => release_checkout clock sha256 (PStr t) (PStr d) h f end)
     (λ r _, r = Ok true → ∃ co active, locked wc t d (Some co) active ∧
        (active = false ∨ f = None ∨ f = Some (default 0 (co_fence co)))) wc)
    by (destruct f; by apply release_at).
  eapply wp_mono; [exact Hat|]. intros [released|e] w' Hrel; [|done].
  apply wp_bind, wp_interlude, wp_bind, wp_sc, wp_load; [|done].
  intros w3 m2 _ _ _ _ _. apply wp_bind, wp_bind, wp_sc, wp_active. intros w4 _. apply wp_ret, wp_ret.
  intros v' [= -> _]. destruct (Hrel eq_refl) as (co & act & Hl & Hcase).
  exists co, act. split; [done|]. destruct h as [h|], f as [f|]; try done.
  - destruct Ha as [_ Hp]. destruct Hcase as [?|[?|[= ->]]]; [by left|done|by right; left].
  - right; right. unfold found_free. by rewrite (gate_state_eq _ _ _ _ _ E1).
Qed.

(** ** Undo and redo *)

(** The claim names the lock's holder and, when both have one, its generation. *)
Definition owns (c : checkout) (h : option string) (f : option Z) : Prop :=
  (∀ h', h = Some h' → co_holder c = h') ∧ (∀ f' cur, f = Some f' → co_fence c = Some cur → cur = f').

Lemma owns_or_refused c h f : owns c h f ∨ refused c h f.
Proof.
  assert (Hh : (∀ h', h = Some h' → co_holder c = h') ∨ ∃ h', h = Some h' ∧ h' ≠ co_holder c).
  { destruct h as [h|]; [|by left]. destruct (decide (h = co_holder c)) as [->|Hne]; [left|right; eauto].
    by intros h' [= <-]. }
  destruct Hh as [Hh|Hh]; [|right; right; by left].
  destruct f as [f|]; [|left; by split]. destruct (co_fence c) as [cur|] eqn:Ec; [|left; split; [done|congruence]].
  destruct (decide (cur = f)) as [->|Hne].
  - left. split; [done|]. intros f' cur' Hf Hcur. congruence.
  - right; right; right. exists f, cur. split; [done|]. split; [done|congruence].
Qed.

(** The two head moves, as the store runs them. *)
Inductive head_move := MUndo | MRedo.
Definition run_move (mv : head_move) (t d : string) (h : option string) (f : option Z) : io W store_error Z :=
  match mv with
  | MUndo => undo clock sha256 read_graph_bundle (PStr t) (PStr d) h f
  | MRedo => redo clock sha256 read_graph_bundle (PStr t) (PStr d) h f
  end.

Lemma move_refused mv t d h f m co w :
  Inv sha256 w → manifest_at w t d = Some m → m_checkout m = Some co →
  _is_active (Some co) (clock (w_tick w)) = true → refused co h f →
  wp (run_move mv t d h f) (λ r w', is_ok r = false ∧ quiet sha256 t d w w') w.
Proof.
  intros HI Hm Hco Ha Hr. destruct mv; apply wp_ids; try done; intros Ht Hd;
    (eapply wp_mono; [by eapply guarded_refused|]; intros r w' [Hno Hl]; split; [done|by apply lock_only_quiet]).
Qed.

Lemma move_manifest mv t d h f w v w' :
  Inv sha256 w → run_move mv t d h f w = (Ok v, w') → ∃ m, manifest_at w t d = Some m.
Proof.
  intros HI Hr. destruct mv.
  - pose proof (undo_spec clock sha256 sha256_hex read_graph_bundle read_reads t d h f w HI) as Hsp.
    destruct (wp_intro _ _ _ _ _ Hr Hsp) as [_ (m & e & Hm & _)]. eauto.
  - pose proof (redo_spec clock sha256 sha256_hex read_graph_bundle read_reads t d h f w HI) as Hsp.
    destruct (wp_intro _ _ _ _ _ Hr Hsp) as [_ (m & Hm & _)]. eauto.
Qed.

Lemma move_at mv t d h f w v w' :
  Inv sha256 w → run_move mv t d h f w = (Ok v, w') →
  ∃ co active, locked w t d co active ∧ (active = false ∨ ∃ c, co = Some c ∧ owns c h f).
Proof.
  intros HI Hr. destruct (move_manifest _ _ _ _ _ _ _ _ HI Hr) as [m Hm].
  exists (m_checkout m), (_is_active (m_checkout m) (clock (w_tick w))). split; [by exists m|].
  destruct (_is_active (m_checkout m) _) eqn:Ha; [right|by left].
  destruct (m_checkout m) as [c|] eqn:Hco; [|done]. exists c. split; [done|].
  destruct (owns_or_refused c h f) as [|Href]; [done|].
  destruct (wp_intro _ _ _ _ _ Hr (move_refused mv t d h f m c w HI Hm Hco Ha Href)) as [Hn _]. done.
Qed.

Definition move_view (mv : head_move) :=
  match mv with
  | MUndo => undo_view clock sha256 json_loads intake intake_loads intake_dumps read_bundle_intake
      live demo_bytes demo_intake request prepare_graph_bundle read_graph_bundle gates others
  | MRedo => redo_view clock sha256 json_loads intake intake_loads intake_dumps read_bundle_intake
      live demo_bytes demo_intake request prepare_graph_bundle read_graph_bundle gates others
  end.

Lemma view_spec mv t d h f s :
  Inv sha256 s.1 →
  wp (move_view mv t d h f)
     (λ r _, ∀ x, r = Ok x → ∃ w', let wc := (final (ensure_at 2 t d) s).1 in
        Inv sha256 wc ∧ run_move mv t d h f wc = (Ok x.1.1.1, w')) s.
Proof.
  intros HI. assert (Hv : wp (view_after clock sha256 json_loads intake intake_loads intake_dumps read_bundle_intake
      live demo_bytes demo_intake request prepare_graph_bundle read_graph_bundle gates others
      (run_move mv t d h f) 2 t d)
     (λ r _, ∀ x, r = Ok x → ∃ w', let wc := (final (ensure_at 2 t d) s).1 in
        Inv sha256 wc ∧ run_move mv t d h f wc = (Ok x.1.1.1, w')) s);
    [|by destruct mv].
  unfold view_after. apply wp_bind, wp_run. intros r s1 E1.
  assert (HIc : Inv sha256 s1.1) by (refine (wp_intro _ (λ _ s', Inv sha256 s'.1) _ _ _ E1 _); apply wp_ensure; auto).
  assert (Hwc : (final (ensure_at 2 t d) s).1 = s1.1) by (unfold final; by rewrite E1). rewrite Hwc.
  destruct r as [[]|e]; [|done].
  destruct (drawing_mutation_refusal_guard _); [by apply wp_on_store, wp_raise|].
  apply wp_bind, wp_sc. unfold wp at 1. destruct (run_move mv t d h f s1.1) as [[v|e] w'] eqn:E;
    unfold outcome, final; cbn [fst snd]; rewrite E; [|done].
  apply wp_bind, wp_interlude, wp_bind, wp_on_store, wp_rd. cbn [fst snd]. unfold wp at 1.
  destruct (outcome _ _) as [vi|]; [|done]. apply wp_bind, wp_sc, wp_load; [|done].
  intros w3 m _ _ _ _ _. apply wp_ret. intros x [= <-]. by exists w'.
Qed.

(** The bootstrap check does not look at the secret. *)
Lemma ensure_secret i t d w k k' : (final (ensure_at i t d) (w, k)).1 = (final (ensure_at i t d) (w, k')).1.
Proof. unfold final, ensure, on_store. cbn [fst snd]. by destruct (ensure_demo_drawing _ _ _ _ _ _ _ _ _ _ _ _ _ w) as [[]]. Qed.

(** (C28) Undo and redo need proof, unless their gate saw no lease.  When an undo or redo route answers with the
    moved head, then in the state where the head moved there was no active lease,
    or the caller presented the capability of the active lease's generation (the
    lock, if it carries a generation at all, carries that one), or (the one gap)
    the gate had found the drawing free before other requests ran, in which case a
    lease acquired in between does not stop the move
    ([RouteDemo.unproven_undo_moves_a_locked_head]). *)
Theorem moves_only_with_proof mv tenant d cap s x s' :
  Inv sha256 s.1 →
  move_route clock sha256 json_loads intake intake_loads intake_dumps read_bundle_intake
    live demo_bytes demo_intake request prepare_graph_bundle read_graph_bundle hmac env gates others
    (move_view mv) tenant d cap s = (Ok (Done x), s') →
  let wc := move_state tenant d cap s in
  ∃ h f w' co active, run_move mv (tc_id tenant) d h f wc = (Ok x.1.1.1, w') ∧
    locked wc (tc_id tenant) d co active ∧
    (active = false ∨
     (∃ c g, co = Some c ∧ proves cap tenant d g ∧ (co_fence c = None ∨ co_fence c = Some g)) ∨
     found_free tenant d s).
Proof.
  intros HI Hr wc. refine (wp_intro _ (λ r _, ∀ x, r = Ok (Done x) → _) s _ s' Hr _ x eq_refl).
  unfold move_route. destruct (drawing_mutations_refusal _); [by apply wp_ret|].
  apply wp_bind, wp_trying, wp_bind, wp_run. intros r s1 E1.
  destruct r as [[]|e]; [|by destruct e as [e|e]; [destruct (is_key_or_value (XRoute e))|]].
  apply wp_bind, wp_interlude, wp_run. cbn [fst snd]. intros r s2 E2.
  destruct (wp_intro _ _ _ _ _ E2 (authorization_spec tenant d cap _)) as [_ Ha].
  destruct r as [[h f]|[e|e]]; [|by destruct (is_key_or_value (XRoute e))|done]. destruct Ha as (Ht & Hd & Ha).
  apply wp_bind, wp_interlude, wp_bind, wp_trying. cbn [fst snd].
  destruct (commit_state_Inv _ _ _ _ _ _ _ _ HI E1 E2) as [Hwc HIc].
  eapply wp_mono; [by apply view_spec|]. intros r s3 Hv. destruct r as [y|e]; [|by repeat case_goal].
  apply wp_ret. intros y' [= <-]. destruct (Hv y eq_refl) as (w' & HIw & Hmv).
  rewrite (ensure_secret _ _ _ _ _ None), <- Hwc in HIw, Hmv. fold wc in HIw, Hmv.
  destruct (move_at _ _ _ _ _ _ _ _ HIw Hmv) as (co & act & Hl & Hcase).
  exists h, f, w', co, act. do 2 (split; [done|]). destruct Hcase as [->|(c & -> & Hown)]; [by left|].
  destruct h as [h|], f as [f|]; try done; right.
  - left. destruct Ha as [_ Hp]. exists c, f. do 2 (split; [done|]). destruct Hown as [_ Hf].
    destruct (co_fence c) as [cur|]; [right; f_equal; eauto|by left].
  - right. unfold found_free. by rewrite (gate_state_eq _ _ _ _ _ E1).
Qed.

(** ** Acquire and refresh *)

Abbreviation proven := (proven_fence clock hmac env).

(** What the acquire route does between its gate and its commit. *)
Definition acquire_front (tenant : tenant_context) (d : string) (cap : option string) : io RW exn (option Z) :=
  m ← sc (load_manifest (tc_id tenant) d);
  expected ← proven tenant d cap (m_checkout m);
  _ ← on_secret (ensure_mintable hmac env tenant d);
  mret expected.
Definition acquire_state (tenant : tenant_context) (d : string) (cap : option string) (s : RW) : W :=
  history (others 1) (final (acquire_front tenant d cap) (gate_state tenant d s)).1.

Lemma proven_spec tenant d cap prior s :
  wp (proven tenant d cap prior)
     (λ r s', same s.1 s'.1 ∧ ∀ f, r = Ok (Some f) → proves cap tenant d f) s.
Proof.
  unfold proven_fence. apply wp_bind, wp_sc, wp_active. intros w1 Hs1. cbn [fst snd].
  destruct (_is_active _ _); [|by apply wp_ret]. apply wp_bind, wp_trying, wp_on_secret.
  intros [[h f]|e] k' Hv; cbn [fst snd].
  - apply wp_ret. split; [done|]. intros f' [= <-]. by apply verify_proves in Hv as (c & _ & _ & _ & Hp).
  - destruct e; [by apply wp_ret|by apply wp_raise].
Qed.

Lemma acquire_allowed_active co now h expected :
  acquire_allowed (Some co) now h expected true = true → _is_active (Some co) now = true →
  expected = Some (default 0 (co_fence co)).
Proof.
  unfold acquire_allowed. intros H Ha. rewrite Ha in H. destruct expected as [f|]; [|done]. bool_prop. by subst.
Qed.

Lemma acquire_at t d h ttl expected w f w' :
  Inv sha256 w → acquire_checkout_fence clock sha256 (PStr t) (PStr d) h ttl expected true w = (Ok (Some f), w') →
  ∃ m, manifest_at w t d = Some m ∧ fence_counter m < f ∧
    (_is_active (m_checkout m) (clock (w_tick w)) = true →
     ∃ co, m_checkout m = Some co ∧ expected = Some (default 0 (co_fence co))).
Proof.
  intros HI Hr. pose proof (acquire_spec clock sha256 sha256_hex t d h ttl expected true w HI) as Hsp.
  destruct (wp_intro _ _ _ _ _ Hr Hsp) as [_ (_ & _ & m & Hm & _ & -> & Hal & _)].
  exists m. split; [done|]. split; [unfold _next_fence; lia|]. intros Ha.
  destruct (m_checkout m) as [co|]; [|done]. exists co. split; [done|]. by eapply acquire_allowed_active.
Qed.

(** The request's reads up to its commit: they change nothing, and the generation
    they yield is proven. *)
Lemma acquire_reads tenant d cap m0 s :
  wp (expected ← proven tenant d cap (m_checkout m0); _ ← on_secret (ensure_mintable hmac env tenant d); mret expected)
     (λ r s', same s.1 s'.1 ∧ ∀ f, r = Ok (Some f) → proves cap tenant d f) s.
Proof.
  apply wp_bind. eapply wp_mono; [apply proven_spec|]. intros [o|e] s4 [Hs4 Hp]; [|done].
  apply wp_bind, wp_on_secret. intros [[]|e] k' _; [|done]. apply wp_ret. split; [done|]. intros f [= ->]. auto.
Qed.

(** A token minted here. *)
Definition minted_for (tenant : tenant_context) (d : string) (f : Z) (token : string) : Prop :=
  ∃ subject k st st', _subject_of env tenant = Ok subject ∧ _secret env st = (Ok k, st') ∧
    token = _SCHEME +:+ "." +:+ hmac k (binding (tc_id tenant) subject d f).

(** The end of the route, after the store granted [fence]. *)
Lemma acquire_answer_spec tenant d (fence : option Z) (holder : string) (s : RW) :
  wp (_ ← interlude clock sha256 request prepare_graph_bundle read_graph_bundle others 2;
      m2 ← sc (load_manifest (tc_id tenant) d);
      match fence with
      | None => mret (NotAcquired (fmap (M:=option) co_holder (m_checkout m2)))
      | Some f =>
          minted ← trying (on_secret (mint hmac env tenant d f));
          match minted with
          | Err (XCap CapabilityUnavailable) => mret (Denied CapabilityUnavailable)
          | Err e => raise e
          | Ok token => v ← _checkout_view clock (m_checkout m2); mret (Done (token, holder, v))
          end
      end)
     (λ r _, ∀ token h v, r = Ok (Done (token, h, v)) → ∃ f, fence = Some f ∧ minted_for tenant d f token) s.
Proof.
  apply wp_bind, wp_interlude, wp_bind, wp_sc, wp_load; [|done]. intros w1 m2 _ _ _ _ _.
  destruct fence as [f|]; [|done]. apply wp_bind, wp_trying, wp_on_secret. intros r k' Hm. cbn [fst snd].
  destruct r as [token|[]]; [|done..]. apply wp_bind, wp_bind, wp_sc, wp_active. intros w2 _. apply wp_ret, wp_ret.
  intros token' h' v' [= <- _ _]. exists f. split; [done|].
  apply mint_Ok in Hm as (subj & k & Hs & Hk & ->). by exists subj, k, s.2, k'.
Qed.

(** An acquire hands out its own lease.  When the acquire route answers with
    a capability, then in the state where its commit ran, the store granted a
    generation above every earlier one, the capability is the token of exactly
    that generation for the caller's tenant, subject and drawing, and a lease that
    was still active there was the caller's own: it presented that lease's
    capability.  No interleaving of other requests is excepted. *)
Theorem acquire_mints_its_own_lease tenant d req cap s token h v s' :
  Inv sha256 s.1 →
  acquire_checkout_route clock sha256 json_loads intake intake_loads intake_dumps read_bundle_intake
    live demo_bytes demo_intake request prepare_graph_bundle read_graph_bundle hmac env gates others
    tenant d req cap s = (Ok (Done (token, h, v)), s') →
  let wc := acquire_state tenant d cap s in
  ∃ m f w' expected, manifest_at wc (tc_id tenant) d = Some m ∧
    acquire_checkout_fence clock sha256 (PStr (tc_id tenant)) (PStr d) (requested_holder req (tc_id tenant))
      (requested_ttl req) expected true wc = (Ok (Some f), w') ∧
    fence_counter m < f ∧
    minted_for tenant d f token ∧
    (_is_active (m_checkout m) (clock (w_tick wc)) = true →
     ∃ co, m_checkout m = Some co ∧ proves cap tenant d (default 0 (co_fence co))).
Proof.
  intros HI Hr wc. refine (wp_intro _ (λ r _, ∀ token h v, r = Ok (Done (token, h, v)) → _) s _ s' Hr _ token h v eq_refl).
  unfold acquire_checkout_route. destruct (drawing_mutations_refusal _); [by apply wp_ret|].
  apply wp_bind, wp_trying, wp_run. intros r s1 E1. destruct r as [[]|e]; [|by destruct (is_key_or_value e)].
  destruct (drawing_mutation_refusal_guard _); [done|].
  assert (HI1 := ensured_Inv _ _ _ _ _ HI E1). assert (Hg := gate_state_eq _ _ _ _ _ E1).
  apply wp_bind, wp_interlude, wp_bind, wp_run. cbn [fst snd]. intros r s2 E2. destruct r as [m0|e]; [|done].
  assert (Hs2 : same (history (others 0) s1.1) s2.1).
  { refine (wp_intro _ (λ _ s', same _ s'.1) _ _ _ E2 _). apply wp_sc, wp_load; auto. }
  apply wp_bind, wp_trying, wp_run. intros r s3 E3.
  destruct (wp_intro _ _ _ _ _ E3 (acquire_reads tenant d cap m0 s2)) as [Hs3 Hp].
  destruct r as [expected|[e|[]]]; [|done..].
  assert (Hwc : wc = history (others 1) s3.1).
  { unfold wc, acquire_state, acquire_front, final. rewrite Hg.
    unfold mbind at 1, io_mbind at 1. by rewrite E2, E3. }
  assert (HIc : Inv sha256 (history (others 1) s3.1)).
  { apply history_Inv. do 2 (eapply same_Inv; [done|]). by apply history_Inv. }
  apply wp_bind, wp_interlude, wp_bind, wp_trying, wp_sc. cbn [fst snd]. rewrite <- Hwc in *. clearbody wc.
  unfold wp at 1. unfold outcome, final.
  destruct (acquire_checkout_fence _ _ _ _ _ _ _ _ wc) as [[fence|e] w'] eqn:E4; cbn [fst snd];
    [|by repeat case_goal].
  eapply wp_mono; [apply acquire_answer_spec|]. intros r s5 Hans token' h' v' Hdone.
  destruct (Hans _ _ _ Hdone) as (f & -> & Hmint).
  destruct (acquire_at _ _ _ _ _ _ _ _ HIc E4) as (m & Hm & Hlt & Hact).
  exists m, f, w', expected. do 4 (split; [done|]). intros Ha. destruct (Hact Ha) as (co & Hco & ->). eauto.
Qed.

(** ** A superseded capability *)

Hypothesis hmac_hex : ∀ k m, forallb is_hex_lower (chars (hmac k m)) = true.

Lemma valid_no_sep t : valid t → unit_separator ∉ chars t.
Proof.
  intros [_ Hf]%sanitize_id_Ok Hin. apply fullmatch_segment_chars in Hf; [|apply alnum_id_char].
  rewrite Forall_forall in Hf. apply Hf in Hin. by vm_compute in Hin.
Qed.

Abbreviation writes := (run_writer clock sha256 request prepare_graph_bundle read_graph_bundle).

(** Once an acquire has granted a generation, every later lock of the drawing
    that carries one carries at least that. *)
Lemma later_locks cs w t d h ttl e str f m co g :
  Inv sha256 w → outcome (writes (WAcquire t d h ttl e str)) w = Ok (AFence (Some f)) →
  manifest_at (history (WAcquire t d h ttl e str :: cs) w) t d = Some m →
  m_checkout m = Some co → co_fence co = Some g → f <= g.
Proof.
  intros HI Ha Hm Hco Hg. set (c := WAcquire t d h ttl e str) in *.
  destruct (acquire_answer clock sha256 sha256_hex request prepare_graph_bundle read_graph_bundle
    _ _ _ _ _ _ _ _ Ha HI) as (Ht & Hd & _ & _ & _ & m1 & Hm1 & Hf1). fold c in Hm1.
  assert (HI1 : Inv sha256 (final (writes c) w)) by (by apply writer_Inv).
  edestruct (after_grows clock sha256 sha256_hex request prepare_graph_bundle read_graph_bundle prepare_reads read_reads
    cs _ t d m1 HI1 Ht Hd Hm1) as (m2 & Hm2 & [_ Hgr]).
  change (history (c :: cs) w) with (history cs (final (writes c) w)) in Hm. rewrite Hm2 in Hm. injection Hm as ->.
  assert (HI2 : Inv sha256 (history cs (final (writes c) w))) by (by apply after_Inv).
  destruct (HI2 t d Ht Hd) as (m' & Hm' & Hwf).
  { unfold manifest_at in Hm2. by destruct (obj _ (okey t d OManifest)). }
  assert (m' = m) as -> by congruence. pose proof (wf_fence _ _ _ _ _ Hwf _ _ Hco Hg) as Hcf.
  unfold fence_counter in Hgr. rewrite Hf1, Hcf in Hgr. done.
Qed.

(** A superseded capability never verifies.  After a later acquire of the
    drawing has been granted, whatever happens next, the token of an earlier lease
    is not accepted against the drawing's lock, by any subject, unless two
    different texts have the same HMAC. *)
Theorem superseded_capability_never_verifies cs1 cs2 w tenant tenant' d h1 ttl1 e1 str1 h2 ttl2 e2 str2 f1 f2
    st tok st1 m hh g st2 :
  let t := tc_id tenant in
  let w1 := history (WAcquire t d h1 ttl1 e1 str1 :: cs1) w in
  Inv sha256 w → tc_id tenant' = t →
  outcome (writes (WAcquire t d h1 ttl1 e1 str1)) w = Ok (AFence (Some f1)) →
  mint hmac env tenant d f1 st = (Ok tok, st1) →
  outcome (writes (WAcquire t d h2 ttl2 e2 str2)) w1 = Ok (AFence (Some f2)) →
  manifest_at (history (WAcquire t d h2 ttl2 e2 str2 :: cs2) w1) t d = Some m →
  verify hmac env (Some tok) tenant' d (m_checkout m) st1 = (Ok (hh, g), st2) →
  ∃ k x y, x ≠ y ∧ hmac k x = hmac k y.
Proof.
  clear dependent intake. intros t w1 HI Ht' Ha1 Hmint Ha2 Hm Hv.
  assert (HI1 : Inv sha256 w1) by (by apply after_Inv).
  destruct (acquire_answer clock sha256 sha256_hex request prepare_graph_bundle read_graph_bundle
    _ _ _ _ _ _ _ _ Ha1 HI) as (Hvt & Hvd & _ & _ & _ & ma & Hma & Hfa).
  destruct (acquire_answer clock sha256 sha256_hex request prepare_graph_bundle read_graph_bundle
    _ _ _ _ _ _ _ _ Ha2 HI1) as (_ & _ & mb & Hmb & Hf2 & _).
  edestruct (after_grows clock sha256 sha256_hex request prepare_graph_bundle read_graph_bundle prepare_reads read_reads
    cs1 _ t d ma (writer_Inv _ _ sha256_hex _ _ _ prepare_reads read_reads _ _ HI) Hvt Hvd Hma) as (mb' & Hmb' & [_ Hgr]).
  change (history cs1 (final (writes (WAcquire t d h1 ttl1 e1 str1)) w)) with w1 in Hmb'.
  assert (mb' = mb) as -> by (apply (inj Some); by rewrite <- Hmb', <- Hmb).
  destruct (verify_proves _ _ _ _ _ _ _ _ Hv) as (co & Hco & _ & Hg & _).
  pose proof (later_locks _ _ _ _ _ _ _ _ _ _ _ _ HI1 Ha2 Hm Hco Hg) as Hle.
  assert (Hlt : f1 < f2) by (subst f2; unfold _next_fence; unfold fence_counter in Hgr at 1; rewrite Hfa in Hgr; lia).
  destruct (accepted_token_is_bound hmac hmac_hex env tenant d f1 tenant' d (m_checkout m) st tok st1 hh g st2)
    as (sub & sub' & k & _ & _ & Hcase); try done; [by apply valid_no_sep|rewrite Ht'; by apply valid_no_sep|
      by apply valid_no_sep..|].
  destruct Hcase as [(_ & _ & _ & Heq)|[Hne Heq]]; [lia|]. eauto.
Qed.

(** ** The identity of a run *)

Lemma identity_spec tenant d cap s :
  wp (_checkout_identity clock hmac env tenant d cap)
     (λ r _, ∀ who fence, r = Ok (who, fence) →
        who = ANONYMOUS_HOLDER ∨ ∃ f, fence = Some f ∧ proves cap tenant d f) s.
Proof.
  assert (Hanon : ∀ s', wp (mret (ANONYMOUS_HOLDER, None) : io RW exn (string * option Z)) (λ r _, ∀ who fence, r = Ok (who, fence) →
    who = ANONYMOUS_HOLDER ∨ ∃ f, fence = Some f ∧ proves cap tenant d f) s').
  { intros s' who fence [= <- _]. by left. }
  unfold _checkout_identity. apply wp_try, wp_bind, wp_sc, wp_load; [|intros e w' _; exact (Hanon (w', s.2))].
  intros w1 m _ _ _ _ _. apply wp_bind, wp_sc, wp_active. intros w2 _. cbn [fst snd].
  destruct (_is_active _ _); cbn [negb]; [|exact (Hanon (w2, s.2))].
  apply wp_bind, wp_on_secret. intros [[h f]|e] k' Hv; [|exact (Hanon (w2, k'))]. apply wp_ret.
  intros who fence [= _ <-]. right. exists f. split; [done|]. by apply verify_proves in Hv as (c & _ & _ & _ & Hp).
Qed.

(** A run without proof never writes under a lease.  Whatever identity a run
    was given, and whatever happened since, a version it publishes under an active
    lease was published with the capability of that lease's generation (the lock,
    if it carries a generation at all, carries that one). *)
Theorem runs_write_only_with_proof tenant d cap s who fence s1 w data parent meta rph plan prepare v m co :
  _checkout_identity clock hmac env tenant d cap s = (Ok (who, fence), s1) →
  Inv sha256 w → manifest_at w (tc_id tenant) d = Some m → m_checkout m = Some co →
  _is_active (Some co) (clock (w_tick w)) = true →
  outcome (writes (WPut (tc_id tenant) d data parent meta (Some who) fence rph None plan prepare)) w = Ok (AVersion v) →
  ∃ f, fence = Some f ∧ proves cap tenant d f ∧ (co_fence co = None ∨ co_fence co = Some f).
Proof.
  intros Hid HI Hm Hco Ha Hput.
  pose proof (wp_intro _ _ _ _ _ Hid (identity_spec tenant d cap s) who fence eq_refl) as Hw.
  assert (Hex : ∀ P : Prop, refused co (Some who) fence → P).
  { intros P Href. edestruct (claimed_write_refused clock sha256 sha256_hex request prepare_graph_bundle
      read_graph_bundle _ w _ _ _ _ _ _ HI (cw_put request _ _ _ _ data parent meta rph plan prepare) Hm Hco Ha Href)
      as [Hno _]. by rewrite Hput in Hno. }
  destruct Hw as [->|(f & -> & Hp)]; [apply Hex; by left|]. exists f. split; [done|]. split; [done|].
  destruct (owns_or_refused co (Some who) (Some f)) as [[_ Hf]|Href]; [|by apply Hex].
  destruct (co_fence co) as [cur|]; [right; f_equal; eauto|by left].
Qed.
End Safety.
