(* ===== verification/StoreDemo.v ===== *)
(** * The drawing store on a concrete run

    An in-memory store, a clock that advances one second per reading and a
    stand-in digest (64 hex digits made from the length), with the instances of
    the store's theorems on one history: ingest, checkout, two writes, undo, redo
    and release. *)

From S2P Require Import Prelude PyText TenantIds Json IsoTime Manifest Backend StoreKeys DrawingStore StoreInv StoreProofs StoreTheorems.
From Stdlib Require Import Ascii.
Local Open Scope Z_scope.
Import IdFacts InMemory.

Abbreviation memory := (world (gmap string string)).

Definition demo_clock (n : nat) : instant := 1790000000000000 + Z.of_nat n * US_PER_S.
Definition demo_sha256 (s : string) : string :=
  of_chars (replicate 61 "a"%char ++ zero_pad 3 (Z.of_nat (String.length s) mod 1000)).
Definition demo_prepare (t d x : string) (p : option Z) (g : unit) : io memory store_error (string * string) :=
  raise EBadBundle.
Definition demo_read (t d : string) (v : Z) : io memory store_error unit := raise EBadBundle.
Definition empty_store : memory := World ∅ 0.

Lemma demo_sha256_hex s : Keys.is_sha256_hex (demo_sha256 s) = true.
Proof.
  unfold Keys.is_sha256_hex, demo_sha256. rewrite chars_of_chars.
  set (n := Z.of_nat (String.length s) mod 1000).
  assert (0 <= n < 1000) by (apply Z.mod_pos_bound; lia). clearbody n.
  apply andb_true_iff. split.
  - apply bool_decide_eq_true_2. rewrite length_app, zero_pad_length; [done|lia..].
  - rewrite forallb_app. apply andb_true_iff. split; [reflexivity|]. apply forallb_forall.
    intros c Hc%list_elem_of_In. assert (Hz := zero_pad_digits 3 n ltac:(lia)).
    rewrite Forall_forall in Hz. specialize (Hz c Hc). unfold is_hex_lower. by rewrite Hz, orb_true_r.
Qed.

Lemma demo_prepare_reads t d x p g (w : memory) : wp (demo_prepare t d x p g) (λ _ w', same w w') w.
Proof. by apply wp_raise. Qed.

Lemma demo_read_reads t d v (w : memory) : wp (demo_read t d v) (λ _ w', same w w') w.
Proof. by apply wp_raise. Qed.

Lemma empty_store_Inv : Inv demo_sha256 empty_store.
Proof. intros t d _ _ [x Hx]. done. Qed.

Abbreviation demo_run := (run_writer demo_clock demo_sha256 unit demo_prepare demo_read).
Abbreviation demo_after := (after demo_clock demo_sha256 unit demo_prepare demo_read).

Definition hour : Z := 3600 * US_PER_S.
Definition put_as (who : option string) (fence : option Z) (parent : Z) (data : string) : writer unit :=
  WPut "acme" "roof" data (Some parent) no_meta who fence false None None None.

Definition demo_history : list (writer unit) :=
  [ WIngest "acme" "roof" "" "one" None;
    WAcquire "acme" "roof" "alice" hour None false;
    put_as (Some "alice"%string) (Some 1) 1 "version two";
    put_as (Some "bob"%string) None 2 "intruder";
    put_as (Some "alice"%string) (Some 1) 2 "version three!";
    WUndo "acme" "roof" (Some "alice"%string) None;
    WRedo "acme" "roof" (Some "alice"%string) None;
    WRelease "acme" "roof" (Some "alice"%string) None ].

Definition pointers (w : memory) : option (Z * Z * list Z) :=
  m ← manifest_at w "acme" "roof"; Some (m_head m, m_latest m, ve_v <$> m_versions m).

Lemma demo_store_invariant :
  Inv demo_sha256 (demo_after demo_history empty_store) ∧
  pointers (demo_after demo_history empty_store) = Some (3, 3, [1; 2; 3]).
Proof.
  split; [|vm_compute; reflexivity].
  apply store_invariant.
  - exact demo_sha256_hex.
  - exact demo_prepare_reads.
  - exact demo_read_reads.
  - exact empty_store_Inv.
Defined.

Definition ingested : memory := demo_after (take 1 demo_history) empty_store.
Definition leased : memory := demo_after (take 2 demo_history) empty_store.

Lemma demo_Inv cs : Inv demo_sha256 (demo_after cs empty_store).
Proof.
  apply after_Inv; [exact demo_sha256_hex|exact demo_prepare_reads|exact demo_read_reads|].
  exact empty_store_Inv.
Qed.

Lemma demo_version_blobs_immutable :
  obj ingested "tenants/acme/drawings/roof/v/00000001.dwg" = Some "one"%string ∧
  obj (demo_after (drop 1 demo_history) ingested) "tenants/acme/drawings/roof/v/00000001.dwg"
  = Some "one"%string.
Proof.
  split; [vm_compute; reflexivity|].
  apply (version_blobs_immutable demo_clock demo_sha256 demo_sha256_hex unit demo_prepare demo_read
           demo_prepare_reads demo_read_reads _ ingested "acme" "roof" 1).
  - apply demo_Inv.
  - vm_compute; reflexivity.
  - vm_compute; reflexivity.
Defined.

(** Another tenant's calls, one of them with a hostile id. *)
Definition foreign_calls : list (writer unit) :=
  [ WIngest "rival" "roof" "" "x" None; WUndo "acme/drawings/roof" "roof" None None;
    WAcquire "rival" "roof" "eve" hour None false ].

Lemma demo_other_drawings_untouched :
  Forall (λ c, target c ≠ ("acme"%string, "roof"%string)) foreign_calls ∧
  obj (demo_after foreign_calls ingested) "tenants/acme/drawings/roof/manifest.json"
  = obj ingested "tenants/acme/drawings/roof/manifest.json".
Proof.
  assert (H : Forall (λ c, target c ≠ ("acme"%string, "roof"%string)) foreign_calls)
    by (repeat constructor; discriminate).
  split; [exact H|].
  apply (other_drawings_untouched demo_clock demo_sha256 demo_sha256_hex unit demo_prepare demo_read
           demo_prepare_reads demo_read_reads foreign_calls ingested "acme" "roof" OManifest).
  - apply demo_Inv.
  - vm_compute; reflexivity.
  - exact H.
Defined.

Definition acquire_as (who : string) : writer unit := WAcquire "acme" "roof" who hour None false.

Lemma demo_fences_strictly_increase :
  outcome (demo_run (acquire_as "alice")) ingested = Ok (AFence (Some 1)) ∧
  outcome (demo_run (acquire_as "bob"))
    (demo_after [acquire_as "alice"; WRelease "acme" "roof" (Some "alice"%string) None] ingested)
  = Ok (AFence (Some 2)) ∧ 1 < 2.
Proof.
  assert (H1 : outcome (demo_run (acquire_as "alice")) ingested = Ok (AFence (Some 1)))
    by (vm_compute; reflexivity).
  assert (H2 : outcome (demo_run (acquire_as "bob"))
    (demo_after [acquire_as "alice"; WRelease "acme" "roof" (Some "alice"%string) None] ingested)
    = Ok (AFence (Some 2))) by (vm_compute; reflexivity).
  split; [exact H1|]. split; [exact H2|].
  exact (fences_strictly_increase demo_clock demo_sha256 demo_sha256_hex unit demo_prepare demo_read
           demo_prepare_reads demo_read_reads _ _ _ _ _ _ _ _ _ _ _ _ _ _ (demo_Inv _) H1 H2).
Defined.

Lemma demo_published_version_durable :
  let c := put_as None None 1 "version two" in
  outcome (demo_run c) ingested = Ok (AVersion 2) ∧
  ∃ m e x, manifest_at (demo_after [c; WUndo "acme" "roof" None None] ingested) "acme" "roof" = Some m ∧
    e ∈ m_versions m ∧ ve_v e = 2 ∧ ve_parent e = Some 1 ∧
    ve_sha256 e = demo_sha256 "version two" ∧ ve_bytes e = 11 ∧
    obj (demo_after [c; WUndo "acme" "roof" None None] ingested) (okey "acme" "roof" (OVersion 2)) = Some x ∧
    String.length x = String.length "version two" ∧ demo_sha256 x = demo_sha256 "version two".
Proof.
  intros c. assert (H : outcome (demo_run c) ingested = Ok (AVersion 2)) by (vm_compute; reflexivity).
  split; [exact H|].
  exact (published_version_durable demo_clock demo_sha256 demo_sha256_hex unit demo_prepare demo_read
           demo_prepare_reads demo_read_reads [WUndo "acme" "roof" None None] ingested
           _ _ _ _ _ _ _ _ _ _ _ (demo_Inv _) H).
Defined.

Definition alice_lock : checkout :=
  Checkout "alice" (isoformat (demo_clock 1)) (isoformat (demo_clock 1 + hour)) (Some 1).

Lemma demo_active_lock_excludes :
  is_ok (outcome (demo_run (put_as (Some "bob"%string) None 1 "x")) leased) = false ∧
  lock_only demo_sha256 "acme" "roof" leased (final (demo_run (put_as (Some "bob"%string) None 1 "x")) leased).
Proof.
  assert (Hm : ∃ m, manifest_at leased "acme" "roof" = Some m ∧ m_checkout m = Some alice_lock)
    by (eexists; split; vm_compute; reflexivity).
  destruct Hm as (m & Hm & Hco).
  apply (active_lock_excludes demo_clock demo_sha256 demo_sha256_hex unit demo_prepare demo_read
           _ leased "acme" "roof" (Some "bob"%string) None m alice_lock).
  - apply demo_Inv.
  - apply cw_put.
  - exact Hm.
  - exact Hco.
  - vm_compute; reflexivity.
  - right; left. exists "bob"%string. split; [reflexivity|vm_compute; discriminate].
Defined.
