(* ===== verification/FsDemo.v ===== *)
(** * The drawing store on disk

    The store's writers run on the file system backend, with a failing system
    call placed by hand: instances of the backend theorems and the two failures
    the store does not survive. *)

From S2P Require Import Prelude PyText TenantIds Json IsoTime Manifest Backend StoreKeys PosixPath FileSystem FsBackend.
From S2P Require Import DrawingStore StoreInv StoreProofs StoreTheorems StoreDemo.
From Stdlib Require Import Ascii.
Local Open Scope Z_scope.

Definition disk_root : path := backend_root (chars "/srv") (chars "store").

#[local] Instance disk_backend : StorageBackend fs := backend disk_root true.

(** an empty disk; every temporary file is called [x] *)
Definition empty_disk : fs :=
  Fs (list_to_map [(chars "/", NDir); (chars "/srv", NDir)]) ∅ [] (replicate 64 "x"%string) [] None.

Definition disk_prepare (t d x : string) (p : option Z) (g : unit)
  : io (world fs) store_error (string * string) := raise EBadBundle.
Definition disk_read (t d : string) (v : Z) : io (world fs) store_error unit := raise EBadBundle.

Abbreviation disk_run := (run_writer demo_clock demo_sha256 unit disk_prepare disk_read).
Abbreviation disk_after := (after demo_clock demo_sha256 unit disk_prepare disk_read).

(** the world with the [n]-th next system call failing, and the [m - 1] after it *)
Definition fail_at (n m : nat) (w : world fs) : world fs :=
  let s := w_b w in
  World (Fs (fs_names s) (fs_data s) (replicate n None ++ replicate m (Some ""%string))
            (fs_tmp s) (fs_polls s) (fs_held s)) (w_tick w).

Definition ingest_call (data : string) : writer unit := WIngest "acme" "roof" "" data None.
Definition disk_two : world fs :=
  disk_after [ingest_call "one"; put_as None None 1 "version two"] (World empty_disk 0).

Definition disk_file (w : world fs) (rest : string) : option string :=
  file_at (w_b w) (disk_root ++ chars ("/tenants/acme/drawings/roof/" +:+ rest)).


Lemma empty_disk_tree : tree_ok empty_disk.
Proof.
  intros p n Hp Hd. apply elem_of_list_to_map_2 in Hp.
  apply elem_of_cons in Hp as [[= -> ->]|[[= -> ->]|[]%not_elem_of_nil]%elem_of_cons];
    [by destruct Hd|]. vm_compute. reflexivity.
Qed.

(** ** Instances of the backend theorems *)

Definition manifest_text : string := "tenants/acme/drawings/roof/manifest.json".
Definition disk_one : fs := final (put disk_root manifest_text "{}") empty_disk.

Lemma disk_one_reached : star (fs_call disk_root false) empty_disk disk_one.
Proof. apply star_one. apply call_put. Qed.

Lemma disk_stays_a_tree_witness : tree_ok disk_one.
Proof. apply (disk_stays_a_tree disk_root false empty_disk); [exact empty_disk_tree|exact disk_one_reached]. Defined.

Lemma listing_never_underreports_witness :
  drawing_object_keys disk_root "acme" "roof" disk_one = (Ok (Some [manifest_text]), disk_one) ∧
  okey "acme" "roof" IdFacts.OManifest ∈ [manifest_text].
Proof.
  assert (H : drawing_object_keys disk_root "acme" "roof" disk_one = (Ok (Some [manifest_text]), disk_one))
    by (vm_compute; reflexivity).
  split; [exact H|].
  apply (listing_never_underreports (chars "/srv") (chars "store") false empty_disk disk_one
           "acme" "roof" IdFacts.OManifest [manifest_text] disk_one).
  - reflexivity.
  - exact empty_disk_tree.
  - exact disk_one_reached.
  - vm_compute; reflexivity.
  - vm_compute; reflexivity.
  - exact I.
  - exact H.
  - vm_compute. eexists. reflexivity.
Defined.

(** ** Failures the store does not survive *)

(** Sixth and seventh system call: the two [stat]s behind [backend.exists]. *)
Definition blind_ingest : world fs := final (disk_run (ingest_call "other")) (fail_at 5 2 disk_two).

Definition disk_manifest (w : world fs) : option manifest :=
  disk_file w "manifest.json" ≫= manifest_loads.

(** A [stat] that fails for a reason other than absence is read by
    [FilesystemBackend.exists] as "no such object": an [ingest_drawing] whose two
    existence checks meet such a failure succeeds on a drawing that is there,
    replaces the bytes of its immutable version 1 and drops every later version
    from the manifest. *)
Theorem failed_stat_lets_ingest_overwrite :
  outcome (disk_run (ingest_call "other")) (fail_at 5 2 disk_two) = Ok (AVersion 1) ∧
  disk_file disk_two "v/00000001.dwg" = Some "one"%string ∧
  disk_file blind_ingest "v/00000001.dwg" = Some "other"%string ∧
  (map ve_v ∘ m_versions <$> disk_manifest disk_two) = Some [1; 2] ∧
  (map ve_v ∘ m_versions <$> disk_manifest blind_ingest) = Some [1].
Proof. by vm_compute. Qed.

Definition plan_text : string := "LEAF_MUTATION_PLAN|move".
Definition plan_call : writer unit :=
  WPut "acme" "roof" "version three" (Some 2) no_meta None None false None (Some plan_text) None.
Definition plan_digest : option string := Some (demo_sha256 plan_text).

(** The system call after the rename of the manifest: opening its directory. *)
Definition unsynced_put : world fs := final (disk_run plan_call) (fail_at 40 1 disk_two).

(** When the directory sync after the manifest's rename fails, the manifest
    has landed but [save_manifest] raises; [put_drawing] takes the version for
    unpublished and deletes its plan.  Afterwards the head is the new version,
    its row names the plan's digest, and the plan object is gone. *)
Theorem failed_sync_deletes_published_plan :
  outcome (disk_run plan_call) (fail_at 40 1 disk_two) = Err EIO ∧
  (m_head <$> disk_manifest unsynced_put) = Some 3 ∧
  (m ← disk_manifest unsynced_put; e ← find_version (m_versions m) 3; fst <$> ve_plan e) = plan_digest ∧
  disk_file unsynced_put "v/00000003.plan.txt" = None ∧
  disk_file (final (disk_run plan_call) disk_two) "v/00000003.plan.txt" = Some plan_text.
Proof. by vm_compute. Qed.
