(* ===== verification/RouteDemo.v ===== *)
(** * Intake caches and checkout routes on concrete drawings

    Instances of the intake and route theorems over an in-memory store, where an intake
    document is a text in braces and everything else is a raw drawing, and the runs that
    show where the routes fall short of their documentation. *)

From S2P Require Import Prelude PyText TenantIds Json IsoTime Manifest Backend StoreKeys DrawingStore StoreInv StoreProofs StoreTheorems StoreDemo IntakeCache Bootstrap Capability CheckoutRoutes RouteSafety.
From Stdlib Require Import Ascii.
From Stdlib Require String.
Local Open Scope Z_scope.
Import Keys IdFacts InMemory MutationGate.

(** ** Intake caches *)

Definition demo_intake_loads (s : string) : option string :=
  match s with String.String "{"%char rest => Some rest | _ => None end.
Definition demo_intake_dumps (i : string) : string := String.String "{"%char i.
Definition demo_bundle_intake (t d : string) (v : Z) : io memory store_error string := raise EBadBundle.

Abbreviation demo_read_intake :=
  (read_intake demo_sha256 loads string demo_intake_loads demo_bundle_intake).
Abbreviation demo_publish :=
  (publish_intake_cache demo_sha256 loads string demo_intake_loads demo_intake_dumps demo_bundle_intake).

(** The first version's row of the ingested drawing. *)
Lemma ingested_row :
  ∃ m e, manifest_at ingested "acme" "roof" = Some m ∧ find_version (m_versions m) 1 = Some e ∧
    startswith BUNDLE_NOTE (default ""%string (ve_note e)) = false.
Proof. do 2 eexists. split; [|split]; vm_compute; reflexivity. Qed.

Lemma published_intake_reads_back_witness :
  ∃ w', demo_publish "acme" "roof" 1 "one" "layers}" ingested = (Ok (ckey "acme" "roof" 1), w') ∧
        demo_read_intake "acme" "roof" (VInt 1) w' = (Ok (1, "layers}"%string), w').
Proof.
  destruct ingested_row as (m & e & Hm & He & Hb).
  apply (published_intake_reads_back demo_sha256 loads string demo_intake_loads demo_intake_dumps
    demo_bundle_intake demo_sha256_hex loads_dumps (λ i, eq_refl) "acme" "roof" 1 "one" "layers}" ingested m e).
  - reflexivity.
  - reflexivity.
  - exact Hm.
  - exact He.
  - lia.
  - exact Hb.
  - vm_compute; reflexivity.
  - reflexivity.
  - vm_compute; reflexivity.
  - vm_compute; reflexivity.
  - vm_compute; reflexivity.
Defined.

Definition published : memory := final (demo_publish "acme" "roof" 1 "one" "layers}") ingested.

Lemma published_row :
  ∃ m e, manifest_at published "acme" "roof" = Some m ∧ find_version (m_versions m) 1 = Some e ∧
    startswith BUNDLE_NOTE (default ""%string (ve_note e)) = false.
Proof. do 2 eexists. split; [|split]; vm_compute; reflexivity. Qed.

Lemma served_intake_is_bound_witness :
  ∃ source, obj published (okey "acme" "roof" (OVersion 1)) = Some source ∧
    (demo_intake_loads source = Some "layers}"%string ∨
     ∃ cand, obj published (ckey "acme" "roof" 1) = Some cand ∧ demo_intake_loads cand = Some "layers}"%string ∧
       (marker_binds loads published "acme" "roof" 1 (demo_sha256 source) (demo_sha256 cand) ∨
        bound loads published (pkey "acme" "roof" 1)
          (expected_proof 1 (demo_sha256 source) (ckey "acme" "roof" 1) (demo_sha256 cand)) ∨
        (obj published (pkey "acme" "roof" 1) = None ∧ obj published (pkey "acme" "roof" 1) = None))).
Proof.
  destruct published_row as (m & e & Hm & He & Hb).
  apply (served_intake_is_bound demo_sha256 loads loads_dumps string demo_intake_loads demo_bundle_intake
    "acme" "roof" VHead published 1 "layers}" published m e).
  - vm_compute; reflexivity.
  - exact Hm.
  - exact He.
  - exact Hb.
Defined.

(** The state in which somebody replaced the cache by another document with a
    digest of its own. *)
Definition swapped : memory := World (<[ckey "acme" "roof" 1 := "{other}"%string]> (w_b published)) (w_tick published).

Example swapped_cache_refused : outcome (demo_read_intake "acme" "roof" VHead) swapped = Err IMismatch.
Proof. vm_compute. reflexivity. Qed.

Lemma published_bound :
  bound loads published (pkey "acme" "roof" 1)
    (expected_proof 1 (demo_sha256 "one") (ckey "acme" "roof" 1) (demo_sha256 "{layers}")).
Proof.
  do 2 eexists. split; [vm_compute; reflexivity|]. split; [vm_compute; reflexivity|].
  unfold agrees. repeat constructor.
Qed.

Lemma bound_cache_cannot_be_swapped_witness :
  ∃ cand, obj published (ckey "acme" "roof" 1) = Some cand ∧ demo_intake_loads cand = Some "layers}"%string ∧
    demo_sha256 "one" = demo_sha256 "one" ∧ demo_sha256 cand = demo_sha256 "{layers}".
Proof.
  destruct published_row as (m & e & Hm & He & Hb).
  apply (bound_cache_cannot_be_swapped demo_sha256 loads loads_dumps string demo_intake_loads demo_bundle_intake
    "acme" "roof" VHead published 1 "layers}" published m e "one").
  - exact published_bound.
  - vm_compute; reflexivity.
  - vm_compute; reflexivity.
  - exact Hm.
  - exact He.
  - exact Hb.
  - vm_compute; reflexivity.
  - reflexivity.
Defined.

(** ** Checkout routes *)

Lemma of_outcome {S E A} (m : io S E A) s r : outcome m s = r → m s = (r, final m s).
Proof. unfold outcome, final. destruct (m s) as [r' s']. by intros <-. Qed.

Definition open_gates (i : nat) : gate_env := GateEnv None None None true.
Definition nobody (i : nat) : list (writer unit) := [].
(** bob takes the lock between the gate and the commit *)
Definition bob_acquires (i : nat) : list (writer unit) :=
  match i with 1%nat => [acquire_as "bob"] | _ => [] end.

Abbreviation demo_release others := (release_checkout_route demo_clock demo_sha256 loads string demo_intake_loads
  demo_intake_dumps demo_bundle_intake false (Some "{demo}"%string) None unit demo_prepare demo_read demo_hmac
  demo_env open_gates others).
Abbreviation demo_acquire others := (acquire_checkout_route demo_clock demo_sha256 loads string demo_intake_loads
  demo_intake_dumps demo_bundle_intake false (Some "{demo}"%string) None unit demo_prepare demo_read demo_hmac
  demo_env open_gates others).
Abbreviation demo_undo others := (undo_route demo_clock demo_sha256 loads string demo_intake_loads
  demo_intake_dumps demo_bundle_intake false (Some "{demo}"%string) None unit demo_prepare demo_read demo_hmac
  demo_env open_gates others).

(** The token of the first lease, and of the second. *)
Definition token_1 : string := _SCHEME +:+ "." +:+ demo_hmac "" (binding "acme" "auth0|alice" "roof" 1).

Example acquire_grants :
  outcome (demo_acquire nobody alice "roof" (Some (CheckoutRequest (Some "alice"%string) None)) None) (ingested, None)
  = Ok (Done (token_1, "alice"%string, Some ("alice", "2026-09-21T14:13:22+00:00", "2026-09-21T15:13:22+00:00")%string)).
Proof. vm_compute. reflexivity. Qed.

Example acquire_refuses_a_second_session :
  outcome (demo_acquire nobody (TenantContext "acme" (Some "auth0|bob"%string)) "roof" None (Some token_1)) (leased, None)
  = Ok (NotAcquired (Some "alice"%string)).
Proof. vm_compute. reflexivity. Qed.

Lemma demo_bundle_reads t d v (w : memory) : wp (demo_bundle_intake t d v) (λ _ w', same w w') w.
Proof. by apply wp_raise. Qed.

Abbreviation mem_commit := (commit_state demo_clock demo_sha256 loads string demo_intake_loads
  demo_intake_dumps demo_bundle_intake false (Some "{demo}"%string) None unit demo_prepare demo_read demo_hmac
  demo_env open_gates).
Abbreviation mem_free := (found_free demo_clock demo_sha256 loads string demo_intake_loads
  demo_intake_dumps demo_bundle_intake false (Some "{demo}"%string) None unit demo_prepare demo_read open_gates).

Lemma release_clears_only_proven_lease_witness :
  outcome (demo_release nobody alice "roof" (Some token_1)) (leased, None) = Ok (Done (true, None)) ∧
  ∃ co active, locked demo_clock (mem_commit nobody alice "roof" (Some token_1) (leased, None)) "acme" "roof" (Some co) active ∧
    (active = false ∨ proves demo_hmac demo_env (Some token_1) alice "roof" (default 0 (co_fence co)) ∨
     mem_free nobody alice "roof" (leased, None)).
Proof.
  assert (H : outcome (demo_release nobody alice "roof" (Some token_1)) (leased, None) = Ok (Done (true, None)))
    by (vm_compute; reflexivity).
  split; [exact H|].
  exact (release_clears_only_proven_lease demo_clock demo_sha256 demo_sha256_hex loads loads_dumps string
    demo_intake_loads demo_intake_dumps demo_bundle_intake demo_bundle_reads
    false (Some "{demo}"%string) None unit demo_prepare demo_read
    demo_prepare_reads demo_read_reads demo_hmac demo_env open_gates nobody alice "roof" (Some token_1)
    (leased, None) None _ (demo_Inv _) (of_outcome _ _ _ H)).
Defined.

(** Two versions whose bytes are intake documents, and alice's lock. *)
Definition two_versions : list (writer unit) :=
  [ WIngest "acme" "roof" "" "{one}" None; put_as None None 1 "{two}" ].
Definition two_leased : memory := demo_after (two_versions ++ [acquire_as "alice"]) empty_store.

Abbreviation demo_move_view := (move_view demo_clock demo_sha256 loads string demo_intake_loads
  demo_intake_dumps demo_bundle_intake false (Some "{demo}"%string) None unit demo_prepare demo_read open_gates).
Abbreviation mem_move := (move_state demo_clock demo_sha256 loads string demo_intake_loads
  demo_intake_dumps demo_bundle_intake false (Some "{demo}"%string) None unit demo_prepare demo_read demo_hmac
  demo_env open_gates).

Lemma moves_only_with_proof_witness :
  outcome (demo_undo nobody alice "roof" (Some token_1)) (two_leased, None) = Ok (Done (1, 1, 2, "one}"%string)) ∧
  ∃ h f w' co active,
    run_move demo_clock demo_sha256 demo_read MUndo "acme" "roof" h f
      (mem_move nobody alice "roof" (Some token_1) (two_leased, None)) = (Ok 1, w') ∧
    locked demo_clock (mem_move nobody alice "roof" (Some token_1) (two_leased, None)) "acme" "roof" co active ∧
    (active = false ∨
     (∃ c g, co = Some c ∧ proves demo_hmac demo_env (Some token_1) alice "roof" g ∧
        (co_fence c = None ∨ co_fence c = Some g)) ∨
     mem_free nobody alice "roof" (two_leased, None)).
Proof.
  assert (H : outcome (demo_undo nobody alice "roof" (Some token_1)) (two_leased, None)
              = Ok (Done (1, 1, 2, "one}"%string))) by (vm_compute; reflexivity).
  split; [exact H|].
  exact (moves_only_with_proof demo_clock demo_sha256 demo_sha256_hex loads loads_dumps string
    demo_intake_loads demo_intake_dumps demo_bundle_intake demo_bundle_reads
    false (Some "{demo}"%string) None unit demo_prepare demo_read
    demo_prepare_reads demo_read_reads demo_hmac demo_env open_gates nobody MUndo alice "roof" (Some token_1)
    (two_leased, None) (1, 1, 2, "one}"%string) _ (demo_Inv _) (of_outcome _ _ _ H)).
Defined.

Abbreviation mem_acquire := (acquire_state demo_clock demo_sha256 loads string demo_intake_loads
  demo_intake_dumps demo_bundle_intake false (Some "{demo}"%string) None unit demo_prepare demo_read demo_hmac
  demo_env open_gates).

(** alice refreshes the lease she holds: she gets the token of the next generation. *)
Definition token_2 : string := _SCHEME +:+ "." +:+ demo_hmac "" (binding "acme" "auth0|alice" "roof" 2).

Lemma acquire_mints_its_own_lease_witness :
  ∃ m f w' expected,
    manifest_at (mem_acquire nobody alice "roof" (Some token_1) (leased, None)) "acme" "roof" = Some m ∧
    acquire_checkout_fence demo_clock demo_sha256 (PStr "acme") (PStr "roof") "acme"
      (requested_ttl None) expected true (mem_acquire nobody alice "roof" (Some token_1) (leased, None))
      = (Ok (Some f), w') ∧
    fence_counter m < f ∧ minted_for demo_hmac demo_env alice "roof" f token_2 ∧
    (_is_active (m_checkout m) (demo_clock (w_tick (mem_acquire nobody alice "roof" (Some token_1) (leased, None)))) = true →
     ∃ co, m_checkout m = Some co ∧ proves demo_hmac demo_env (Some token_1) alice "roof" (default 0 (co_fence co))).
Proof.
  assert (H : ∃ v, outcome (demo_acquire nobody alice "roof" None (Some token_1)) (leased, None)
              = Ok (Done (token_2, "acme"%string, v))) by (eexists; vm_compute; reflexivity).
  destruct H as [v H].
  exact (acquire_mints_its_own_lease demo_clock demo_sha256 demo_sha256_hex loads loads_dumps string
    demo_intake_loads demo_intake_dumps demo_bundle_intake demo_bundle_reads
    false (Some "{demo}"%string) None unit demo_prepare demo_read
    demo_prepare_reads demo_read_reads demo_hmac demo_env open_gates nobody alice "roof" None (Some token_1)
    (leased, None) _ _ _ _ (demo_Inv _) (of_outcome _ _ _ H)).
Defined.

(** An HMAC under which everything collides accepts a superseded token. *)
Definition flat_hmac (key message : string) : string := "00".

Lemma superseded_capability_never_verifies_witness : ∃ k x y, x ≠ y ∧ flat_hmac k x = flat_hmac k y.
Proof.
  assert (Hm : ∃ m co, manifest_at (demo_after [acquire_as "bob"]
      (demo_after [acquire_as "alice"; WRelease "acme" "roof" None None] ingested)) "acme" "roof" = Some m ∧
      m_checkout m = Some co ∧ co_fence co = Some 2)
    by (do 2 eexists; split; [|split]; vm_compute; reflexivity).
  destruct Hm as (m & co & Hm & Hco & Hf).
  apply (superseded_capability_never_verifies demo_clock demo_sha256 demo_sha256_hex unit demo_prepare demo_read
    demo_prepare_reads demo_read_reads flat_hmac demo_env (λ k m, eq_refl)
    [WRelease "acme" "roof" None None] [] ingested alice alice "roof" "alice" hour None false "bob" hour None false 1 2
    None "lco1.00" None m (co_holder co) 2 None).
  - apply demo_Inv.
  - reflexivity.
  - vm_compute; reflexivity.
  - vm_compute; reflexivity.
  - vm_compute; reflexivity.
  - exact Hm.
  - unfold verify. rewrite Hco. cbn [mbind option_bind]. rewrite Hf. vm_compute. reflexivity.
Defined.

Abbreviation demo_identity := (_checkout_identity demo_clock demo_hmac demo_env).

Lemma runs_write_only_with_proof_witness :
  ∃ f, Some 1 = Some f ∧ proves demo_hmac demo_env (Some token_1) alice "roof" f ∧
       (co_fence alice_lock = None ∨ co_fence alice_lock = Some f).
Proof.
  assert (Hm : ∃ m, manifest_at leased "acme" "roof" = Some m ∧ m_checkout m = Some alice_lock)
    by (eexists; split; vm_compute; reflexivity).
  destruct Hm as (m & Hm & Hco).
  assert (H : outcome (demo_identity alice "roof" (Some token_1)) (leased, None) = Ok ("alice"%string, Some 1))
    by (vm_compute; reflexivity).
  apply (runs_write_only_with_proof demo_clock demo_sha256 demo_sha256_hex unit demo_prepare demo_read
    demo_hmac demo_env alice "roof" (Some token_1) (leased, None) "alice" (Some 1)
    _ leased "version two" (Some 1) no_meta false None None 2 m alice_lock (of_outcome _ _ _ H)).
  - apply demo_Inv.
  - exact Hm.
  - exact Hco.
  - vm_compute; reflexivity.
  - vm_compute; reflexivity.
Defined.

Abbreviation demo_ensure := (ensure_demo_drawing demo_clock demo_sha256 loads string demo_intake_loads
  demo_intake_dumps demo_bundle_intake false (Some "{demo}"%string) None).

Lemma bootstrap_only_curated_witness :
  outcome (demo_ensure (open_gates 0) "acme" "demo") ingested = Ok tt ∧
  Inv demo_sha256 (final (demo_ensure (open_gates 0) "acme" "demo") ingested) ∧
  obj (final (demo_ensure (open_gates 0) "acme" "demo") ingested) "tenants/acme/drawings/roof/manifest.json"
  = obj ingested "tenants/acme/drawings/roof/manifest.json".
Proof.
  assert (H : outcome (demo_ensure (open_gates 0) "acme" "demo") ingested = Ok tt) by (vm_compute; reflexivity).
  split; [exact H|].
  destruct (bootstrap_only_curated demo_clock demo_sha256 demo_sha256_hex loads loads_dumps string demo_intake_loads
    demo_intake_dumps demo_bundle_intake demo_bundle_reads false (Some "{demo}"%string) None (open_gates 0)
    "acme" "demo" ingested (Ok tt) (final (demo_ensure (open_gates 0) "acme" "demo") ingested)
    (demo_Inv _) (of_outcome _ _ _ H)) as [HI Hsame].
  split; [exact HI|]. apply (Hsame "acme" "roof" OManifest)%string.
  - vm_compute; reflexivity.
  - left. vm_compute. discriminate.
Defined.

(** ** Where the routes fall short *)

Definition bob_lock (n : nat) : checkout :=
  Checkout "bob" (isoformat (demo_clock n)) (isoformat (demo_clock n + hour)) (Some 1).

Definition lock_of (w : memory) (t d : string) : option checkout := m ← manifest_at w t d; m_checkout m.

(** The release route can end a live lease without any capability.  A caller
    whose gate read a free drawing, and before whose commit another session took
    the lock, clears that session's active lease: with nothing proven, the store
    is asked to release unconditionally. *)
Theorem unproven_release_ends_a_live_lease :
  lock_of (mem_commit bob_acquires alice "roof" None (ingested, None)) "acme" "roof" = Some (bob_lock 2) ∧
  _is_active (Some (bob_lock 2)) (demo_clock (w_tick (mem_commit bob_acquires alice "roof" None (ingested, None)))) = true ∧
  outcome (demo_release bob_acquires alice "roof" None) (ingested, None) = Ok (Done (true, None)) ∧
  lock_of (final (demo_release bob_acquires alice "roof" None) (ingested, None)).1 "acme" "roof" = None.
Proof. repeat split; vm_compute; reflexivity. Qed.

Definition two_unlocked : memory := demo_after two_versions empty_store.
Definition head_of (w : memory) (t d : string) : option Z := m_head <$> manifest_at w t d.

(** Undo can move the head under another session's live lease.  In the same
    window, the undo route calls the store with neither holder nor generation,
    which switches the store's own check off. *)
Theorem unproven_undo_moves_a_locked_head :
  lock_of (mem_move bob_acquires alice "roof" None (two_unlocked, None)) "acme" "roof" = Some (bob_lock 3) ∧
  _is_active (Some (bob_lock 3)) (demo_clock (w_tick (mem_move bob_acquires alice "roof" None (two_unlocked, None)))) = true ∧
  outcome (demo_undo bob_acquires alice "roof" None) (two_unlocked, None) = Ok (Done (1, 1, 2, "one}"%string)) ∧
  head_of two_unlocked "acme" "roof" = Some 2 ∧
  head_of (final (demo_undo bob_acquires alice "roof" None) (two_unlocked, None)).1 "acme" "roof" = Some 1.
Proof. repeat split; vm_compute; reflexivity. Qed.

(** A raw drawing as version 1, an intake document as version 2. *)
Definition raw_parent : memory :=
  demo_after [ WIngest "acme" "roof" "" "raw dwg" None; put_as None None 1 "{two}" ] empty_store.

(** A refused undo may have moved the head.  When the version undo steps to
    cannot be read as an intake, the route answers 400 although the store has
    already committed the new head, so a client that retries undoes twice. *)
Theorem refused_undo_has_moved_the_head :
  outcome (demo_undo nobody alice "roof" None) (raw_parent, None) = Ok (BadParams 400) ∧
  head_of raw_parent "acme" "roof" = Some 2 ∧
  head_of (final (demo_undo nobody alice "roof" None) (raw_parent, None)).1 "acme" "roof" = Some 1.
Proof. repeat split; vm_compute; reflexivity. Qed.
