(* ===== verification/PgStore.v ===== *)
(** * The postgres authority of the drawing store

    [da/store.py] under [authority_mode() == "postgres"]: the rows of
    [drawing_store_manifests] and [drawing_store_versions] of one drawing (every
    statement selects by tenant and drawing), and each transaction as a function
    that returns the new rows, or raises and leaves the old ones.  [now] is
    [datetime.now] in the application, [dbnow] is [NOW()]/[clock_timestamp()] in
    the database; the two may differ. *)

From S2P Require Import Prelude PyText TenantIds Json IsoTime Manifest Backend DrawingStore.
From stdpp Require Import sorting.
Local Open Scope Z_scope.

(** ** Rows *)

Inductive vstate := Reserved | Ready | Orphaned.
#[export] Instance vstate_eq_dec : EqDecision vstate.
Proof. solve_decision. Defined.

Record vrow := VRow {
  vr_parent : option Z;
  vr_key : string;
  vr_bytes : Z;
  vr_sha : string;
  vr_workitem : option string;
  vr_tool : option string;
  vr_note : option string;
  vr_source_ref : option string;
  vr_state : vstate;
  vr_created : instant;
  vr_reservation : option (string * instant) (* token, expiry *) }.

(** The table's check constraint: holder, acquired and expires are all null or
    all set. *)
Record pg_lease := PgLease { pl_holder : string; pl_acquired : instant; pl_expires : instant }.

Record mrow := MRow {
  mr_head : option Z;
  mr_latest : Z;
  mr_checkout : option pg_lease;
  mr_fence : Z }.

Record pg := Pg { pg_row : option mrow; pg_versions : gmap Z vrow }.
Definition pg_empty : pg := Pg None ∅.

Definition tx (A : Type) : Type := pg → result store_error (A * pg).

Definition set_state (r : vrow) (s : vstate) (note : option string) : vrow :=
  VRow (vr_parent r) (vr_key r) (vr_bytes r) (vr_sha r) (vr_workitem r) (vr_tool r) note
       (vr_source_ref r) s (vr_created r) None.
Definition with_row (p : pg) (r : mrow) : pg := Pg (Some r) (pg_versions p).
Definition with_pg_head (r : mrow) (h : Z) : mrow :=
  MRow (Some h) (mr_latest r) (mr_checkout r) (mr_fence r).

Definition is_ready (r : vrow) : bool := bool_decide (vr_state r = Ready).
Definition ready_row (p : pg) (v : Z) : option vrow :=
  r ← pg_versions p !! v; if is_ready r then Some r else None.

(** [INSERT INTO drawing_store_versions]: the primary key refuses a taken one. *)
Definition insert_version (p : pg) (v : Z) (r : vrow) : result store_error pg :=
  match pg_versions p !! v with
  | Some _ => Err EUniqueViolation
  | None => Ok (Pg (pg_row p) (<[v := r]> (pg_versions p)))
  end.

(** [UPDATE drawing_store_versions SET ... WHERE version = v AND state = 'reserved']. *)
Definition update_reserved (p : pg) (v : Z) (f : vrow → vrow) : pg :=
  match pg_versions p !! v with
  | Some r => if bool_decide (vr_state r = Reserved)
              then Pg (pg_row p) (<[v := f r]> (pg_versions p)) else p
  | None => p
  end.

(** [_pg_mark_version_state]. *)
Definition _pg_mark_version_state (v : Z) (s : vstate) : tx unit :=
  λ p, Ok (tt, update_reserved p v (λ r, VRow (vr_parent r) (vr_key r) (vr_bytes r) (vr_sha r)
        (vr_workitem r) (vr_tool r) (vr_note r) (vr_source_ref r) s (vr_created r) (vr_reservation r))).

(** ** The plan fields in the note column *)

Definition PLAN_NOTE_PREFIX : string := "leaf-version-plan-v1:".

Definition encode_plan_note (note : option string) (plan_sha256 : string) (parent_version : Z) : string :=
  PLAN_NOTE_PREFIX +:+
  dumps (JObj [("note"%string, opt_json JStr note);
               ("plan_sha256"%string, JStr plan_sha256);
               ("parent_version"%string, JInt parent_version)]).

(** [None] is an exception: text that does not parse, or a missing key. *)
Definition _decode_plan_note (note : option string) : option (option string * option (string * Z)) :=
  match note with
  | Some text =>
      if startswith PLAN_NOTE_PREFIX text then
        j ← loads (of_chars (drop (length (chars PLAN_NOTE_PREFIX)) (chars text)));
        kvs ← as_obj j;
        n ← field (nullable as_str) kvs "note";
        sha ← field as_str kvs "plan_sha256";
        parent ← field as_int kvs "parent_version";
        Some (n, Some (sha, parent))
      else Some (note, None)
  | None => Some (None, None)
  end.

(** ** [_pg_manifest] *)

Definition ready_versions (p : pg) : list Z :=
  merge_sort Z.le (elements (dom (filter (λ kv : Z * vrow, is_ready kv.2 = true) (pg_versions p)))).

Definition pg_entry (p : pg) (v : Z) : option version_entry :=
  r ← pg_versions p !! v;
  '(note, plan) ← _decode_plan_note (vr_note r);
  Some (VersionEntry v (vr_parent r) (isoformat (vr_created r)) (vr_bytes r) (vr_sha r)
          (vr_workitem r) (vr_tool r) note (Some (vr_source_ref r)) plan).

Definition pg_checkout (r : mrow) : option checkout :=
  l ← mr_checkout r;
  Some (Checkout (pl_holder l) (isoformat (pl_acquired l)) (isoformat (pl_expires l))
          (Some (mr_fence r))).

Definition _pg_manifest (tenant_id drawing_id : string) (p : pg) : result store_error manifest :=
  match pg_row p with
  | Some r =>
      match mr_head r with
      | Some head =>
          rows ← from_opt (mapM (pg_entry p) (ready_versions p)) EMalformed;
          Ok (Manifest tenant_id drawing_id head (foldr Z.max 0 (ready_versions p)) rows
                (pg_checkout r) None)
      | None => Err EKey
      end
  | None => Err EKey
  end.

(** ** The checkout lock *)

(** [_authorize_checkout_row]. *)
Definition _authorize_checkout_row (r : mrow) (holder : option string) (fence : option Z)
    (now : instant) : result store_error unit :=
  match holder, fence with
  | None, None => Ok tt
  | _, _ =>
      match mr_checkout r with
      | Some l => if pl_expires l <=? now then Ok tt
                  else _refuse_unless_owner (pl_holder l) (Some (mr_fence r)) holder fence
      | None => Ok tt
      end
  end.

Definition pg_active (r : mrow) (now : instant) : bool :=
  match mr_checkout r with Some l => now <? pl_expires l | None => false end.

Definition pg_acquire (holder : string) (ttl_us : Z) (expected_fence : option Z)
    (strict_owner : bool) (now dbnow : instant) : tx (option Z) := λ p,
  if bool_decide (holder = ANONYMOUS_HOLDER) then Err EParam else
  if ttl_us <=? 0 then Err EParam else
  r ← from_opt (pg_row p) EKey;
  let granted :=
    if pg_active r now then
      if strict_owner then
        match expected_fence with Some f => mr_fence r =? f | None => false end
      else bool_decide ((pl_holder <$> mr_checkout r) = Some holder)
    else true in
  if granted then
    let fence := mr_fence r + 1 in
    Ok (Some fence,
        with_row p (MRow (mr_head r) (mr_latest r)
                      (Some (PgLease holder dbnow (dbnow + ttl_us))) fence))
  else Ok (None, p).

Definition pg_release (holder : option string) (expected_fence : option Z) (now : instant)
  : tx bool := λ p,
  r ← from_opt (pg_row p) EKey;
  match mr_checkout r with
  | None => Ok (false, p)
  | Some l =>
      let refused :=
        if now <? pl_expires l then
          match expected_fence, holder with
          | Some f, _ => negb (mr_fence r =? f)
          | None, Some h => negb (bool_decide (pl_holder l = h))
          | None, None => false
          end
        else false in
      if refused then Ok (false, p)
      else Ok (true, with_row p (MRow (mr_head r) (mr_latest r) None (mr_fence r)))
  end.

(** ** [undo] and [redo]

    [read_bundle v] is the verdict of [read_graph_bundle] on a selected version. *)

Section Bundle.
Variable read_bundle : Z → result store_error unit.

Definition pg_verify_selected (p : pg) (v : Z) : result store_error unit :=
  _ ← from_opt (pg_row p ≫= mr_head) EKey;
  r ← from_opt (ready_row p v) EUnknownVersion;
  '(note, _) ← from_opt (_decode_plan_note (vr_note r)) EMalformed;
  if startswith BUNDLE_NOTE (default ""%string note) then read_bundle v else Ok tt.

Definition pg_undo (holder : option string) (fence : option Z) (now : instant) : tx Z := λ p,
  r ← from_opt (pg_row p) EKey;
  head ← from_opt (mr_head r) EKey;
  hr ← from_opt (ready_row p head) EKey;
  _ ← _authorize_checkout_row r holder fence now;
  parent ← from_opt (vr_parent hr) ERootVersion;
  _ ← pg_verify_selected p parent;
  Ok (parent, with_row p (with_pg_head r parent)).

(** [parent_of.get(cur)] over the ready rows. *)
Definition pg_parent (p : pg) (v : Z) : option Z := ready_row p v ≫= vr_parent.

Definition pg_redo (holder : option string) (fence : option Z) (now : instant) : tx Z := λ p,
  r ← from_opt (pg_row p) EKey;
  head ← from_opt (mr_head r) EKey;
  _ ← _authorize_checkout_row r holder fence now;
  let latest := foldr Z.max 0 (ready_versions p) in
  if head =? latest then Err EAtLatest else
  match redo_walk (length (ready_versions p) + 2) (pg_parent p) head (Some latest) [] with
  | Some (Some target) =>
      _ ← pg_verify_selected p target;
      Ok (target, with_row p (with_pg_head r target))
  | _ => Err ENoForwardChain
  end.
End Bundle.

(** ** Publication: reserve, upload, finalize *)

(** What [reserve] of [_pg_put] hands to [finalize]. *)
Record reservation := Reservation {
  rs_version : Z; rs_key : string; rs_expected : Z; rs_holder : string; rs_fence : Z }.

Inductive put_reserved := PReplay (v : Z) | PNew (rs : reservation).

(** [is_bundle] selects the replay lookup by [workitem_id] among ready rows; the
    reservation reads the clock twice ([now], then [now'] in the ownership check). *)
Definition find_apply (p : pg) (workitem : option string) : option (Z * vrow) :=
  match list_find (λ v, (ready_row p v ≫= vr_workitem) = workitem) (ready_versions p) with
  | Some (_, v) => r ← ready_row p v; Some (v, r)
  | None => None
  end.

Definition pg_put_reserve (tid did : string) (bytes : Z) (digest : string)
    (parent_version : option Z) (meta : write_meta) (holder : option string) (fence : option Z)
    (is_bundle : bool) (now now' dbnow : instant) : tx put_reserved := λ p,
  r ← from_opt (pg_row p) EKey;
  head ← from_opt (mr_head r) EKey;
  l ← from_opt (mr_checkout r) ENeedsCheckout;
  if pl_expires l <=? now then Err ENeedsCheckout else
  _ ← _authorize_checkout_row r holder fence now';
  let reserve_new : result store_error (put_reserved * pg) :=
    if negb (bool_decide (parent_version = Some head)) then Err EStaleParent else
    let version := mr_latest r + 1 in
    k ← keyed (Keys.drawing_version_key (PStr tid) (PStr did) version);
    p' ← insert_version (with_row p (MRow (mr_head r) version (mr_checkout r) (mr_fence r))) version
           (VRow parent_version k bytes digest (wm_workitem_id meta) (wm_tool meta) (wm_note meta)
              (wm_source_ref meta) Reserved dbnow None);
    Ok (PNew (Reservation version k head (pl_holder l) (mr_fence r)), p') in
  if is_bundle then
    match find_apply p (wm_workitem_id meta) with
    | Some (v, row) => if bool_decide (vr_note row = wm_note meta) then Ok (PReplay v, p)
                       else Err EApplyIdReused
    | None => reserve_new
    end
  else reserve_new.

(** [finalize] of [_pg_put]: compare-and-set on head, holder and generation under
    a live lease; otherwise the reservation is orphaned. *)
Definition pg_put_finalize (rs : reservation) (note : option string) (dbnow : instant) : tx bool := λ p,
  match pg_row p with
  | Some r =>
      if bool_decide (mr_head r = Some (rs_expected rs)) &&
         bool_decide ((pl_holder <$> mr_checkout r) = Some (rs_holder rs)) &&
         (mr_fence r =? rs_fence rs) &&
         match mr_checkout r with Some l => dbnow <? pl_expires l | None => false end
      then Ok (true, update_reserved (with_row p (with_pg_head r (rs_version rs)))
                       (rs_version rs) (λ row, set_state row Ready note))
      else Ok (false, update_reserved p (rs_version rs) (λ row, set_state row Orphaned (vr_note row)))
  | None => Ok (false, p)
  end.

(** [reserve] of [_pg_ingest]: a new drawing, or a lapsed initial reservation of
    the same content. *)
Definition minute : Z := 60 * US_PER_S.

Definition pg_ingest_reserve (vkey : string) (bytes : Z) (digest token : string)
    (now dbnow : instant) : tx unit := λ p,
  match pg_row p with
  | None =>
      p' ← insert_version (with_row p (MRow None 1 None 0)) 1
             (VRow None vkey bytes digest None None (Some "initial ingest"%string) None Reserved dbnow
                (Some (token, dbnow + minute)));
      Ok (tt, p')
  | Some r =>
      match mr_head r, pg_versions p !! 1 with
      | Some _, _ => Err EAlreadyExists
      | None, None => Err EReservationMismatch
      | None, Some row =>
          if negb (bool_decide (vr_state row = Reserved)) || negb (vr_bytes row =? bytes) ||
             negb (bool_decide (vr_sha row = digest)) || negb (bool_decide (vr_key row = vkey))
          then Err EReservationMismatch else
          match vr_reservation row with
          | None => Err EMalformed
          | Some (_, expires) =>
              if now <? expires then Err EReservationActive else
              Ok (tt, Pg (pg_row p) (<[1 := VRow (vr_parent row) (vr_key row) (vr_bytes row) (vr_sha row)
                   (vr_workitem row) (vr_tool row) (vr_note row) (vr_source_ref row) Reserved
                   (vr_created row) (Some (token, dbnow + minute))]> (pg_versions p)))
          end
      end
  end.

(** [finalize] of [_pg_ingest]. *)
Definition pg_ingest_finalize (token : string) (dbnow : instant) : tx unit := λ p,
  match pg_row p, pg_versions p !! 1 with
  | Some r, Some row =>
      if bool_decide (mr_head r = None) && bool_decide (vr_state row = Reserved) &&
         match vr_reservation row with
         | Some (tok, expires) => bool_decide (tok = token) && (dbnow <? expires)
         | None => false
         end
      then Ok (tt, Pg (Some (with_pg_head r 1))
                     (<[1 := set_state row Ready (vr_note row)]> (pg_versions p)))
      else Err EReservationReclaimed
  | _, _ => Err EReservationReclaimed
  end.
