(* ===== verification/LockSpec.v ===== *)
(** * The checkout lock: one abstract specification, two implementations

    What both authorities of [da/store.py] promise about the single-writer lock,
    as a small state machine, and the proofs that the legacy manifest and the
    postgres row implement it. *)

From S2P Require Import Prelude PyText TenantIds Json IsoTime Manifest Backend StoreKeys DrawingStore StoreInv StoreProofs StoreDemo PgStore.
Local Open Scope Z_scope.

(** ** The specification *)

Record lease := Lease { l_holder : string; l_expires : instant; l_fence : Z }.

(** The generations issued so far, and the lease that was granted last unless it
    was released.  An expired lease is still recorded. *)
Record lock := Lock { lk_issued : Z; lk_lease : option lease }.

Definition live (l : option lease) (now : instant) : bool :=
  match l with Some x => now <? l_expires x | None => false end.

(** An active lock yields only to the generation it was issued as (strict) or to
    the same holder (relaxed). *)
Definition spec_acquire (now stamp : instant) (holder : string) (ttl_us : Z)
    (expected : option Z) (strict : bool) (k : lock) : option Z * lock :=
  let granted :=
    match lk_lease k with
    | Some l => if live (lk_lease k) now then
                  if strict then bool_decide (expected = Some (l_fence l))
                  else bool_decide (l_holder l = holder)
                else true
    | None => true
    end in
  if granted
  then (Some (lk_issued k + 1),
        Lock (lk_issued k + 1) (Some (Lease holder (stamp + ttl_us) (lk_issued k + 1))))
  else (None, k).

Definition spec_release (now : instant) (holder : option string) (expected : option Z) (k : lock)
  : bool * lock :=
  match lk_lease k with
  | None => (false, k)
  | Some l =>
      let mine :=
        match expected, holder with
        | Some f, _ => bool_decide (l_fence l = f)
        | None, Some h => bool_decide (l_holder l = h)
        | None, None => true
        end in
      if negb (live (lk_lease k) now) || mine then (true, Lock (lk_issued k) None) else (false, k)
  end.

(** May a mutation with this claim go ahead? *)
Definition spec_permits (now : instant) (holder : option string) (fence : option Z) (k : lock) : bool :=
  match lk_lease k with
  | Some l =>
      negb (live (lk_lease k) now) ||
      (match holder with
       | Some h => negb (bool_decide (h = ANONYMOUS_HOLDER)) && bool_decide (l_holder l = h)
       | None => true end &&
       match fence with Some f => l_fence l =? f | None => true end)
  | None => true
  end.

(** ** The two representations *)

(** A legacy lock this release writes: it parses and is fenced with the
    manifest's counter. *)
Definition lock_ok (m : manifest) : Prop :=
  match m_checkout m with
  | Some co => is_Some (fromisoformat (co_expires co)) ∧
               ∃ f, co_fence co = Some f ∧ m_checkout_fence m = Some f
  | None => True
  end.

Definition lock_of_manifest (m : manifest) : lock :=
  Lock (fence_counter m)
    (co ← m_checkout m; e ← fromisoformat (co_expires co); f ← co_fence co;
     Some (Lease (co_holder co) e f)).

Definition lock_of_row (r : mrow) : lock :=
  Lock (mr_fence r)
    (l ← mr_checkout r; Some (Lease (pl_holder l) (pl_expires l) (mr_fence r))).

Lemma lock_of_manifest_Some m co e f :
  m_checkout m = Some co → fromisoformat (co_expires co) = Some e → co_fence co = Some f →
  lock_of_manifest m = Lock (fence_counter m) (Some (Lease (co_holder co) e f)).
Proof. intros Hco He Hf. unfold lock_of_manifest. by rewrite Hco; simpl; rewrite He; simpl; rewrite Hf. Qed.

Lemma fence_test x f : bool_decide (Some x = Some f) = (f =? x).
Proof. destruct (Z.eqb_spec f x); case_bool_decide; naive_solver. Qed.

Lemma fence_test' f x : bool_decide (f = x) = (f =? x).
Proof. destruct (Z.eqb_spec f x); by case_bool_decide. Qed.

Lemma acquire_allowed_spec m now stamp holder ttl expected strict :
  lock_ok m →
  spec_acquire now stamp holder ttl expected strict (lock_of_manifest m) =
  if acquire_allowed (m_checkout m) now holder expected strict
  then (Some (_next_fence m),
        Lock (_next_fence m) (Some (Lease holder (stamp + ttl) (_next_fence m))))
  else (None, lock_of_manifest m).
Proof.
  unfold lock_ok. destruct (m_checkout m) as [co|] eqn:Eco.
  - intros ([e He] & f & Hf & _). rewrite (lock_of_manifest_Some m co e f) by done.
    unfold spec_acquire, acquire_allowed, _is_active. cbn [lk_lease lk_issued live l_expires l_fence l_holder].
    rewrite He, Hf. cbn [default].
    destruct (now <? e); [|done]. destruct strict; [|done].
    destruct expected as [x|]; [|done]. by rewrite fence_test.
  - intros _. unfold lock_of_manifest. by rewrite Eco.
Qed.

Lemma release_allowed_spec m now holder expected :
  lock_ok m →
  spec_release now holder expected (lock_of_manifest m) =
  if release_allowed (m_checkout m) now holder expected
  then (true, Lock (fence_counter m) None) else (false, lock_of_manifest m).
Proof.
  unfold lock_ok. destruct (m_checkout m) as [co|] eqn:Eco.
  - intros ([e He] & f & Hf & _). rewrite (lock_of_manifest_Some m co e f) by done.
    unfold spec_release, release_allowed, _is_active. cbn [lk_lease lk_issued live l_expires l_fence l_holder].
    rewrite He, Hf. cbn [default]. destruct (now <? e); [|done]. cbn [negb orb].
    destruct expected as [x|]; [by rewrite fence_test'|]. by destruct holder.
  - intros _. unfold lock_of_manifest. by rewrite Eco.
Qed.

Lemma refuse_spec cur_holder f holder fence :
  is_ok (_refuse_unless_owner cur_holder (Some f) holder fence) =
  match holder with
  | Some h => negb (bool_decide (h = ANONYMOUS_HOLDER)) && bool_decide (cur_holder = h)
  | None => true end &&
  match fence with Some x => f =? x | None => true end.
Proof.
  unfold _refuse_unless_owner. destruct holder as [h|]; simpl.
  - destruct (bool_decide (h = ANONYMOUS_HOLDER)); [done|]. simpl.
    destruct (bool_decide (cur_holder = h)); [|done]. simpl.
    destruct fence as [x|]; [|done]. by destruct (f =? x).
  - destruct fence as [x|]; [|done]. by destruct (f =? x).
Qed.

Lemma permits_manifest m now holder fence :
  lock_ok m →
  is_ok (_authorize_checkout_view (m_checkout m) holder fence now) =
  spec_permits now holder fence (lock_of_manifest m).
Proof.
  unfold lock_ok. destruct (m_checkout m) as [co|] eqn:Eco.
  - intros ([e He] & f & Hf & _). rewrite (lock_of_manifest_Some m co e f) by done.
    unfold spec_permits, _authorize_checkout_view, _is_active.
    cbn [lk_lease lk_issued live l_expires l_fence l_holder]. rewrite He, Hf.
    destruct (now <? e); [|done]. by rewrite refuse_spec.
  - intros _. unfold lock_of_manifest. by rewrite Eco.
Qed.

(** ** Refinement *)

Section Legacy.
Context {B : Type} `{!StorageBackend B, !BackendLaws B}.
Variable clock : nat → instant.
Variable sha256 : string → string.
Hypothesis sha256_hex : ∀ s, Keys.is_sha256_hex (sha256 s) = true.

(** (C26) The legacy lock implements the specification.  When
    [acquire_checkout_fence] and [release_checkout] return, their answer and the
    lock left in the manifest are those of the abstract lock at the time of their
    clock reading, over any backend; and the lock stays in the shape the next
    call needs. *)
Theorem legacy_lock_refines (w : world B) t d m :
  Inv sha256 w → manifest_at w t d = Some m → lock_ok m →
  let now := clock (w_tick w) in
  (∀ holder ttl expected strict r w',
     acquire_checkout_fence clock sha256 (PStr t) (PStr d) holder ttl expected strict w = (Ok r, w') →
     ∃ m', manifest_at w' t d = Some m' ∧ lock_ok m' ∧
       spec_acquire now now holder ttl expected strict (lock_of_manifest m) = (r, lock_of_manifest m')) ∧
  (∀ holder expected r w',
     release_checkout clock sha256 (PStr t) (PStr d) holder expected w = (Ok r, w') →
     ∃ m', manifest_at w' t d = Some m' ∧ lock_ok m' ∧
       spec_release now holder expected (lock_of_manifest m) = (r, lock_of_manifest m')).
Proof.
  intros HI Hm Hok now. split.
  - intros holder ttl expected strict r w' Hrun.
    destruct (wp_intro _ _ _ _ _ Hrun (acquire_spec clock sha256 sha256_hex t d holder ttl expected strict w HI))
      as (_ & _ & _ & m0 & Hm0 & Hr). rewrite Hm in Hm0. injection Hm0 as <-.
    rewrite acquire_allowed_spec by done. destruct r as [g|].
    + destruct Hr as (_ & -> & Ha & Hrange & Hm'). fold now in Ha, Hrange, Hm'. rewrite Ha.
      eexists. split; [exact Hm'|]. apply fromisoformat_isoformat in Hrange. split.
      * split; [by eexists|]. by eexists.
      * by rewrite (lock_of_manifest_Some _ (Checkout holder (isoformat now)
          (isoformat (now + ttl)) (Some (_next_fence m))) (now + ttl) (_next_fence m)).
    + destruct Hr as [Hq Ha]. fold now in Ha. rewrite Ha.
      exists m. by rewrite (manifest_at_quiet sha256 t d w w').
  - intros holder expected r w' Hrun.
    destruct (wp_intro _ _ _ _ _ Hrun (release_spec clock sha256 sha256_hex t d holder expected w HI))
      as (_ & m0 & Hm0 & Ha & Hr). rewrite Hm in Hm0. injection Hm0 as <-.
    rewrite release_allowed_spec by done. fold now in Ha. rewrite Ha. destruct r.
    + eexists. split; [exact Hr|]. split; [done|]. unfold lock_ok in Hok.
      destruct (m_checkout m) as [co|] eqn:Eco; [|by unfold release_allowed in Ha].
      destruct Hok as (_ & f & _ & Hf). unfold lock_of_manifest, fence_counter. simpl. by rewrite Hf.
    + exists m. by rewrite (manifest_at_quiet sha256 t d w w').
Qed.

End Legacy.

(** (C27) The postgres lock implements the same specification.  Whenever the
    acquire and release transactions commit, their answer and the row they leave
    are those of the abstract lock, the lease being stamped with the database
    clock; the ownership test of the row is the specification's. *)
Theorem postgres_lock_refines p r now dbnow :
  pg_row p = Some r →
  (∀ holder ttl expected strict a p',
     pg_acquire holder ttl expected strict now dbnow p = Ok (a, p') →
     ∃ r', pg_row p' = Some r' ∧ mr_head r' = mr_head r ∧ pg_versions p' = pg_versions p ∧
       spec_acquire now dbnow holder ttl expected strict (lock_of_row r) = (a, lock_of_row r')) ∧
  (∀ holder expected b p',
     pg_release holder expected now p = Ok (b, p') →
     ∃ r', pg_row p' = Some r' ∧ mr_head r' = mr_head r ∧ pg_versions p' = pg_versions p ∧
       spec_release now holder expected (lock_of_row r) = (b, lock_of_row r')) ∧
  (∀ holder fence, is_ok (_authorize_checkout_row r holder fence now) =
     spec_permits now holder fence (lock_of_row r)).
Proof.
  intros Hr. split; [|split].
  - intros holder ttl expected strict a p'. unfold pg_acquire. rewrite Hr.
    case_bool_decide; [done|]. destruct (ttl <=? 0); [done|]. simpl.
    assert (Hg : (if pg_active r now then
       if strict then match expected with Some f => mr_fence r =? f | None => false end
       else bool_decide ((pl_holder <$> mr_checkout r) = Some holder) else true) =
      match lk_lease (lock_of_row r) with
      | Some l => if live (lk_lease (lock_of_row r)) now then
                  if strict then bool_decide (expected = Some (l_fence l))
                  else bool_decide (l_holder l = holder)
                else true
      | None => true
      end).
    { unfold pg_active, lock_of_row. destruct (mr_checkout r) as [l|]; [|done]. simpl.
      destruct (now <? pl_expires l); [|done]. destruct strict.
      - destruct expected; [by rewrite fence_test|done].
      - apply bool_decide_ext. naive_solver. }
    rewrite Hg. unfold spec_acquire. destruct (match lk_lease _ with Some _ => _ | None => _ end).
    + intros [= <- <-]. eexists. by split.
    + intros [= <- <-]. eauto.
  - intros holder expected b p'. unfold pg_release, spec_release, lock_of_row. rewrite Hr. simpl.
    destruct (mr_checkout r) as [l|] eqn:El; simpl.
    2:{ intros [= <- <-]. exists r. by rewrite El. }
    destruct (now <? pl_expires l); simpl; [|intros [= <- <-]; by eexists].
    destruct expected as [x|]; [rewrite fence_test'; destruct (mr_fence r =? x)|destruct holder as [h|]];
      simpl; [| |destruct (bool_decide _)|]; simpl; intros [= <- <-]; eexists; (split; [done|]); simpl;
      by rewrite ?El.
  - intros holder fence. unfold spec_permits, _authorize_checkout_row, lock_of_row.
    destruct (mr_checkout r) as [l|]; simpl; [|by destruct holder, fence].
    rewrite Z.leb_antisym. destruct (now <? pl_expires l); simpl; [|by destruct holder, fence].
    rewrite <- refuse_spec. by destruct holder, fence.
Qed.

(** ** Instances on concrete locks *)

Import InMemory.

Definition leased_manifest : manifest :=
  default (_new_manifest "" "") (manifest_at leased "acme" "roof").

(** Alice holds generation 1; Bob is turned away and Alice refreshes to 2. *)
Lemma legacy_lock_refines_witness :
  lock_of_manifest leased_manifest = Lock 1 (Some (Lease "alice" (demo_clock 1 + hour) 1)) ∧
  ∃ m', spec_acquire (demo_clock 2) (demo_clock 2) "alice" hour None false (lock_of_manifest leased_manifest)
        = (Some 2, lock_of_manifest m').
Proof.
  split; [vm_compute; reflexivity|].
  assert (Hm : manifest_at leased "acme" "roof" = Some leased_manifest) by (vm_compute; reflexivity).
  assert (Hok : lock_ok leased_manifest)
    by (vm_compute; split; [eexists; reflexivity|exists 1; split; reflexivity]).
  destruct (legacy_lock_refines demo_clock demo_sha256 demo_sha256_hex leased "acme" "roof"
    leased_manifest (demo_Inv _) Hm Hok) as [Hacq _].
  destruct (Hacq "alice"%string hour None false (Some 2)
    (final (acquire_checkout_fence demo_clock demo_sha256 (PStr "acme") (PStr "roof") "alice" hour None false) leased))
    as (m' & _ & _ & Hspec); [|by exists m'].
  assert (Ho : outcome (acquire_checkout_fence demo_clock demo_sha256 (PStr "acme") (PStr "roof")
    "alice" hour None false) leased = Ok (Some 2)) by (vm_compute; reflexivity).
  rewrite <- Ho. apply surjective_pairing.
Defined.

Definition demo_row : mrow := MRow (Some 1) 1 (Some (PgLease "alice" 0 100)) 7.

Lemma postgres_lock_refines_witness :
  spec_acquire 50 50 "bob" 10 (Some 7) true (lock_of_row demo_row) =
    (Some 8, Lock 8 (Some (Lease "bob" 60 8))) ∧
  spec_acquire 50 50 "bob" 10 None false (lock_of_row demo_row) = (None, lock_of_row demo_row).
Proof.
  destruct (postgres_lock_refines (Pg (Some demo_row) ∅) demo_row 50 50 eq_refl) as [Hacq _]. split.
  - destruct (Hacq "bob"%string 10 (Some 7) true _ _ eq_refl) as (r' & [= <-] & _ & _ & ->). reflexivity.
  - destruct (Hacq "bob"%string 10 None false _ _ eq_refl) as (r' & [= <-] & _ & _ & ->). reflexivity.
Defined.

(** ** The pre-flight check and the plan note *)

(** [authorize_checkout] under the postgres authority; [now] is the reading of
    the lease test, [now'] the one of the ownership test. *)
Definition pg_authorize_checkout (tid did : string) (holder : option string) (fence : option Z)
    (now now' : instant) (p : pg) : result store_error unit :=
  m ← _pg_manifest tid did p;
  if _is_active (m_checkout m) now then _authorize_checkout_view (m_checkout m) holder fence now'
  else Err ENeedsCheckout.

Lemma _is_active_mono co now now' : now <= now' → _is_active co now' = true → _is_active co now = true.
Proof.
  intros Hle. unfold _is_active. destruct co as [co|]; [|done].
  destruct (fromisoformat _) as [e|]; [|done]. rewrite !Z.ltb_lt. lia.
Qed.

(** The legacy pre-flight is conservative: as long as the lock record is
    unchanged, a claim the commit refuses at a later time was refused by the
    pre-flight at the earlier time, whatever the clock did in between. *)
Theorem legacy_preflight_conservative co holder fence now now' e :
  now <= now' →
  _authorize_checkout_view co holder fence now' = Err e →
  _authorize_checkout_view co holder fence now = Err e.
Proof.
  intros Hle. unfold _authorize_checkout_view. destruct co as [lock|]; [|done].
  destruct (_is_active (Some lock) now') eqn:E; [|done].
  by rewrite (_is_active_mono _ now now').
Qed.

Lemma legacy_preflight_conservative_witness :
  _authorize_checkout_view (Some (Checkout "alice" "" (isoformat 100) (Some 1))) (Some "bob"%string) None 10
  = Err (EDenied NotHolder).
Proof.
  apply (legacy_preflight_conservative _ _ _ 10 20); [lia|vm_compute; reflexivity].
Defined.

Definition lease_error (e : store_error) : Prop := e = ENeedsCheckout ∨ ∃ d, e = EDenied d.

(** The lease part of the reservation of [_pg_put]. *)
Lemma reserve_lease_error tid did bytes digest parent meta holder fence isb now now' dbnow p r head e :
  pg_row p = Some r → mr_head r = Some head →
  pg_put_reserve tid did bytes digest parent meta holder fence isb now now' dbnow p = Err e →
  lease_error e →
  pg_active r now = false ∨ _authorize_checkout_row r holder fence now' = Err e.
Proof.
  intros Hr Hh. unfold pg_put_reserve, pg_active. rewrite Hr. cbn [from_opt mbind result_mbind]. rewrite Hh.
  cbn [from_opt mbind result_mbind]. destruct (mr_checkout r) as [l|]; [|by left].
  cbn [from_opt mbind result_mbind]. rewrite Z.leb_antisym. destruct (now <? pl_expires l); [|by left].
  cbn [negb]. destruct (_authorize_checkout_row r holder fence now') as [[]|e']; [|by intros [= ->]; right].
  cbn [mbind result_mbind].
  assert (Hno : ∀ e0, lease_error e0 → e0 ≠ EStaleParent ∧ e0 ≠ EUniqueViolation ∧ e0 ≠ EApplyIdReused ∧
     ∀ i, e0 ≠ EId i) by (intros e0 [->|[d ->]]; done).
  set (fresh := if negb _ then _ else _).
  assert (Hf : fresh = Err e → lease_error e → False).
  { unfold fresh. case_bool_decide; cbn [negb]; [|by intros [= <-] (?&_)%Hno].
    destruct (Keys.drawing_version_key _ _ _); cbn; [|by intros [= <-] (_&_&_&Hi)%Hno; eapply Hi].
    unfold insert_version. destruct (_ !! _); cbn; [by intros [= <-] (_&?&_)%Hno|done]. }
  destruct isb; [|by intros ? ?%Hf].
  destruct (find_apply _ _) as [[v row]|]; [|by intros ? ?%Hf].
  case_bool_decide; [done|]. by intros [= <-] (_&_&?&_)%Hno.
Qed.

(** The postgres pre-flight covers the commit: if it answers, then a commit
    that reads the same rows at the same times is not refused for want of a
    lease, for the holder or for the fence.  (A commit that reads the clock later
    can still find the lease expired; that is what it re-checks for.) *)
Theorem pg_preflight_covers_commit tid did holder fence now now' p r l
    bytes digest parent meta isb dbnow :
  pg_row p = Some r → mr_checkout r = Some l → in_datetime_range (pl_expires l) = true →
  pg_authorize_checkout tid did holder fence now now' p = Ok tt →
  ∀ e, pg_put_reserve tid did bytes digest parent meta holder fence isb now now' dbnow p = Err e →
       ¬ lease_error e.
Proof.
  intros Hr Hl Hrange Hpre e He Hlease. unfold pg_authorize_checkout, _pg_manifest in Hpre.
  rewrite Hr in Hpre. destruct (mr_head r) as [head|] eqn:Eh; [|done].
  destruct (from_opt _ _) as [rows|]; [|done]. cbn [mbind result_mbind m_checkout] in Hpre.
  assert (Hco : pg_checkout r = Some (Checkout (pl_holder l) (isoformat (pl_acquired l))
    (isoformat (pl_expires l)) (Some (mr_fence r)))) by (unfold pg_checkout; by rewrite Hl).
  rewrite Hco in Hpre.
  assert (Hact : ∀ n, _is_active (Some (Checkout (pl_holder l) (isoformat (pl_acquired l))
    (isoformat (pl_expires l)) (Some (mr_fence r)))) n = (n <? pl_expires l))
    by (intros n; unfold _is_active; cbn [co_expires]; by rewrite fromisoformat_isoformat).
  rewrite Hact in Hpre. destruct (now <? pl_expires l) eqn:En; [|done].
  destruct (reserve_lease_error _ _ _ _ _ _ _ _ _ _ _ _ _ _ _ _ Hr Eh He Hlease) as [Ha|Ha].
  - unfold pg_active in Ha. rewrite Hl, En in Ha. done.
  - unfold _authorize_checkout_view in Hpre. rewrite Hact in Hpre.
    unfold _authorize_checkout_row in Ha. rewrite Hl, Z.leb_antisym in Ha.
    destruct (now' <? pl_expires l); [|by destruct holder, fence].
    cbn [negb co_holder co_fence] in *. destruct holder, fence; try done; congruence.
Qed.

Definition one_version : pg :=
  Pg (Some demo_row) {[1 := VRow None "k" 3 "s" None None None None Ready 0 None]}.

Lemma pg_preflight_covers_commit_witness :
  pg_authorize_checkout "acme" "roof" (Some "alice"%string) (Some 7) 50 51 one_version = Ok tt ∧
  ¬ (∃ e, pg_put_reserve "acme" "roof" 3 "s" (Some 9) no_meta (Some "alice"%string) (Some 7) false 50 51 52
            one_version = Err e ∧ lease_error e).
Proof.
  split; [vm_compute; reflexivity|]. intros (e & He & Hlease). revert e He Hlease.
  apply (pg_preflight_covers_commit "acme" "roof" _ _ 50 51 one_version demo_row (PgLease "alice" 0 100)).
  - reflexivity.
  - reflexivity.
  - vm_compute; reflexivity.
  - vm_compute; reflexivity.
Defined.

(** Plan metadata survives the note column: the text [_pg_put] stores for a
    version with a plan decodes to the original note, the plan digest and the
    parent version; a note without the prefix is left alone. *)
Theorem plan_note_roundtrip note plan_sha256 parent :
  _decode_plan_note (Some (encode_plan_note note plan_sha256 parent)) = Some (note, Some (plan_sha256, parent)) ∧
  ∀ text, startswith PLAN_NOTE_PREFIX text = false → _decode_plan_note (Some text) = Some (Some text, None).
Proof.
  split.
  - unfold _decode_plan_note, encode_plan_note. set (j := JObj _).
    assert (Hw : wf j).
    { split; [apply keys_nodup; reflexivity|]. destruct note; simpl; tauto. }
    assert (startswith PLAN_NOTE_PREFIX (PLAN_NOTE_PREFIX +:+ dumps j) = true) as -> by done.
    rewrite chars_app, drop_app_length, of_chars_chars, loads_dumps by done.
    by destruct note.
  - intros text Ht. unfold _decode_plan_note. by rewrite Ht.
Qed.
