(* ===== verification/PgSystem.v ===== *)
(** * Concurrent clients of the postgres authority

    [_pg_put] and [_pg_ingest] run as reserve, upload, finalize, and other clients
    act in between: they publish, take over the lock, undo, redo, or die.  The
    step relation interleaves any number of clients of one drawing at the
    granularity of transactions and uploads; a crash may happen anywhere, and an
    upload may fail with or without its bytes landing. *)

From S2P Require Import Prelude PyText TenantIds Json IsoTime Manifest Backend StoreKeys DrawingStore PgStore.
Local Open Scope Z_scope.

Inductive pub := PubIngest (token : string) | PubPut (rs : reservation).
Definition pub_version (b : pub) : Z := match b with PubIngest _ => 1 | PubPut rs => rs_version rs end.

(** A publication in flight: what it publishes and whether its upload returned. *)
Record client := Client { cl_pub : pub; cl_data : string; cl_uploaded : bool }.

(** The rows, the version blobs, the publications in flight, the database clock. *)
Record sys := Sys { s_pg : pg; s_blobs : gmap Z string; s_clients : gmap nat client; s_dbnow : instant }.

Definition sys_init (now : instant) : sys := Sys pg_empty ∅ ∅ now.
Definition set_pg (s : sys) (p : pg) : sys := Sys p (s_blobs s) (s_clients s) (s_dbnow s).
Definition drop_client (s : sys) (c : nat) : sys :=
  Sys (s_pg s) (s_blobs s) (delete c (s_clients s)) (s_dbnow s).

Section System.
Variable sha256 : string → string.
Variable read_bundle : Z → result store_error unit.
Variables tid did : string.

Abbreviation len s := (Z.of_nat (String.length s)).

Inductive step (s : sys) : sys → Prop :=
| st_time t : s_dbnow s <= t → step s (Sys (s_pg s) (s_blobs s) (s_clients s) t)
| st_acquire holder ttl expected strict now a p :
    pg_acquire holder ttl expected strict now (s_dbnow s) (s_pg s) = Ok (a, p) → step s (set_pg s p)
| st_release holder expected now b p :
    pg_release holder expected now (s_pg s) = Ok (b, p) → step s (set_pg s p)
| st_undo holder fence now v p :
    pg_undo read_bundle holder fence now (s_pg s) = Ok (v, p) → step s (set_pg s p)
| st_redo holder fence now v p :
    pg_redo read_bundle holder fence now (s_pg s) = Ok (v, p) → step s (set_pg s p)
| st_put_reserve c data parent meta holder fence isb now now' rs p :
    s_clients s !! c = None →
    pg_put_reserve tid did (len data) (sha256 data) parent meta holder fence isb now now'
      (s_dbnow s) (s_pg s) = Ok (PNew rs, p) →
    step s (Sys p (s_blobs s) (<[c := Client (PubPut rs) data false]> (s_clients s)) (s_dbnow s))
| st_ingest_reserve c token data vkey now p :
    s_clients s !! c = None →
    pg_ingest_reserve vkey (len data) (sha256 data) token now (s_dbnow s) (s_pg s) = Ok (tt, p) →
    step s (Sys p (s_blobs s) (<[c := Client (PubIngest token) data false]> (s_clients s)) (s_dbnow s))
| st_put_upload c rs data :
    (* exists() is false, put() returns *)
    s_clients s !! c = Some (Client (PubPut rs) data false) → s_blobs s !! rs_version rs = None →
    step s (Sys (s_pg s) (<[rs_version rs := data]> (s_blobs s))
              (<[c := Client (PubPut rs) data true]> (s_clients s)) (s_dbnow s))
| st_ingest_upload c token data blobs :
    (* put_if_absent_or_verify, then the size and digest check *)
    s_clients s !! c = Some (Client (PubIngest token) data false) →
    (s_blobs s !! 1 = None ∧ blobs = <[1 := data]> (s_blobs s)) ∨
    (∃ x, s_blobs s !! 1 = Some x ∧ String.length x = String.length data ∧ sha256 x = sha256 data ∧
          blobs = s_blobs s) →
    step s (Sys (s_pg s) blobs (<[c := Client (PubIngest token) data true]> (s_clients s)) (s_dbnow s))
| st_upload_fails c cl (landed orphaned : bool) p :
    (* the write raised, with or without its bytes; a put then orphans its row,
       unless that raises too *)
    s_clients s !! c = Some cl → cl_uploaded cl = false →
    (if landed then s_blobs s !! pub_version (cl_pub cl) = None else True) →
    (if orphaned then ∃ rs, cl_pub cl = PubPut rs ∧
        _pg_mark_version_state (rs_version rs) Orphaned (s_pg s) = Ok (tt, p)
     else p = s_pg s) →
    step s (Sys p (if landed then <[pub_version (cl_pub cl) := cl_data cl]> (s_blobs s) else s_blobs s)
              (delete c (s_clients s)) (s_dbnow s))
| st_put_finalize c rs data note b p :
    s_clients s !! c = Some (Client (PubPut rs) data true) →
    pg_put_finalize rs note (s_dbnow s) (s_pg s) = Ok (b, p) →
    step s (drop_client (set_pg s p) c)
| st_ingest_finalize c token data p :
    s_clients s !! c = Some (Client (PubIngest token) data true) →
    pg_ingest_finalize token (s_dbnow s) (s_pg s) = Ok (tt, p) →
    step s (drop_client (set_pg s p) c)
| st_crash c : step s (drop_client s c).

Definition reachable (s : sys) : Prop := ∃ now, star step (sys_init now) s.

(** ** Invariant *)

Definition backed (s : sys) (v : Z) (bytes : Z) (digest : string) : Prop :=
  ∃ x, s_blobs s !! v = Some x ∧ len x = bytes ∧ sha256 x = digest.

(** What a publication in flight can rely on. *)
Definition client_ok (s : sys) (cl : client) : Prop :=
  ∃ r m, pg_versions (s_pg s) !! pub_version (cl_pub cl) = Some r ∧ pg_row (s_pg s) = Some m ∧
    vr_bytes r = len (cl_data cl) ∧ vr_sha r = sha256 (cl_data cl) ∧
    (cl_uploaded cl = true → backed s (pub_version (cl_pub cl)) (vr_bytes r) (vr_sha r)) ∧
    match cl_pub cl with
    | PubPut rs => vr_state r = Reserved ∧ vr_parent r = Some (rs_expected rs) ∧
                   1 <= rs_expected rs < rs_version rs ∧ rs_fence rs <= mr_fence m
    | PubIngest _ => True
    end.

Record PInv (s : sys) : Prop := {
  p_bound : ∀ v r, pg_versions (s_pg s) !! v = Some r →
    ∃ m, pg_row (s_pg s) = Some m ∧ 1 <= v <= mr_latest m;
  p_root : ∀ r, pg_versions (s_pg s) !! 1 = Some r → vr_parent r = None;
  p_head : ∀ m h, pg_row (s_pg s) = Some m → mr_head m = Some h → is_Some (ready_row (s_pg s) h);
  p_ready : ∀ v r, ready_row (s_pg s) v = Some r → backed s v (vr_bytes r) (vr_sha r);
  p_tree : ∀ v r, ready_row (s_pg s) v = Some r →
    (v = 1 ∧ vr_parent r = None) ∨
    ∃ q, vr_parent r = Some q ∧ q < v ∧ is_Some (ready_row (s_pg s) q);
  p_client : ∀ c cl, s_clients s !! c = Some cl → client_ok s cl;
  p_unique : ∀ c c' cl cl' rs rs', s_clients s !! c = Some cl → s_clients s !! c' = Some cl' →
    cl_pub cl = PubPut rs → cl_pub cl' = PubPut rs' → rs_version rs = rs_version rs' → c = c' }.

(** ** What a transaction does to the rows *)

(** Rows that are ready stay as they are; no row disappears; the fence counter and
    [latest] do not go back. *)
Record advances (p p' : pg) : Prop := {
  a_ready : ∀ v r, ready_row p v = Some r → ready_row p' v = Some r;
  a_row : ∀ m, pg_row p = Some m → ∃ m', pg_row p' = Some m' ∧
    mr_fence m <= mr_fence m' ∧ mr_latest m <= mr_latest m' }.

Lemma ready_row_Some p v r :
  ready_row p v = Some r ↔ pg_versions p !! v = Some r ∧ vr_state r = Ready.
Proof.
  unfold ready_row, is_ready. destruct (pg_versions p !! v) as [r'|]; simpl; [|naive_solver].
  case_bool_decide; naive_solver.
Qed.

Lemma init_PInv now : PInv (sys_init now).
Proof.
  split; simpl; intros *; rewrite ?lookup_empty; try done.
Qed.

(** ** Preservation *)

Lemma ready_row_same p p' v : pg_versions p' = pg_versions p → ready_row p' v = ready_row p v.
Proof. intros H. unfold ready_row. by rewrite H. Qed.

(** The lock and the head change, the versions do not. *)
Lemma row_update_PInv s m m' :
  pg_row (s_pg s) = Some m → PInv s → mr_latest m' = mr_latest m → mr_fence m <= mr_fence m' →
  (∀ h, mr_head m' = Some h → is_Some (ready_row (s_pg s) h)) → PInv (set_pg s (with_row (s_pg s) m')).
Proof.
  intros Hm [Hb Hroot Hh Hr Ht Hc Hu] Hl Hf Hhead. split; simpl; try done.
  - intros v r Hv. destruct (Hb v r Hv) as (m0 & Hm0 & Hr0). rewrite Hm in Hm0. injection Hm0 as <-.
    exists m'. split; [done|lia].
  - intros m0 h [= <-]. apply Hhead.
  - intros c cl Hcl. destruct (Hc c cl Hcl) as (r & m0 & Hv & Hm0 & ? & ? & ? & Hp).
    rewrite Hm in Hm0. injection Hm0 as <-. exists r, m'. do 5 (split; [done|]).
    destruct (cl_pub cl); [done|]. destruct Hp as (? & ? & ? & ?). repeat (split; [done|]). lia.
Qed.

Lemma acquire_row holder ttl e strict now dbnow p a p' :
  pg_acquire holder ttl e strict now dbnow p = Ok (a, p') →
  (p' = p ∧ a = None) ∨ ∃ m m', pg_row p = Some m ∧ p' = with_row p m' ∧ mr_head m' = mr_head m ∧
    mr_latest m' = mr_latest m ∧ mr_fence m' = mr_fence m + 1 ∧ a = Some (mr_fence m').
Proof.
  unfold pg_acquire. case_bool_decide; [done|]. destruct (ttl <=? 0); [done|].
  destruct (pg_row p) as [m|]; [|done]. simpl. case_goal; intros [= <- <-]; [right|by left].
  eexists m, _. by repeat split.
Qed.

Lemma release_row holder e now p b p' :
  pg_release holder e now p = Ok (b, p') →
  p' = p ∨ ∃ m m', pg_row p = Some m ∧ p' = with_row p m' ∧ mr_head m' = mr_head m ∧
    mr_latest m' = mr_latest m ∧ mr_fence m' = mr_fence m.
Proof.
  unfold pg_release. destruct (pg_row p) as [m|]; [|done]. simpl.
  destruct (mr_checkout m) as [l|]; [|by intros [= <- <-]; left].
  case_goal; intros [= <- <-]; [by left|right]. eexists m, _. by repeat split.
Qed.

Lemma undo_row holder fence now p v p' :
  pg_undo read_bundle holder fence now p = Ok (v, p') →
  ∃ m h r, pg_row p = Some m ∧ mr_head m = Some h ∧ ready_row p h = Some r ∧ vr_parent r = Some v ∧
    is_Some (ready_row p v) ∧ p' = with_row p (with_pg_head m v).
Proof.
  unfold pg_undo. destruct (pg_row p) as [m|] eqn:Em; [|done]. simpl.
  destruct (mr_head m) as [h|] eqn:Eh; [|done]. simpl.
  destruct (ready_row p h) as [r|] eqn:Er; [|done]. simpl.
  destruct (_authorize_checkout_row _ _ _ _); [|done]. simpl.
  destruct (vr_parent r) as [q|] eqn:Eq; [|done]. simpl. unfold pg_verify_selected.
  rewrite Em; simpl; rewrite Eh; simpl.
  destruct (ready_row p q) as [r'|] eqn:Er'; [|done]. simpl.
  destruct (_decode_plan_note _) as [[note plan]|]; [|done]. simpl.
  case_goal; [destruct (read_bundle q) as [[]|]; [|done]|]; intros [= <- <-]; eauto 10.
Qed.

Lemma redo_row holder fence now p v p' :
  pg_redo read_bundle holder fence now p = Ok (v, p') →
  ∃ m h, pg_row p = Some m ∧ mr_head m = Some h ∧
    is_Some (ready_row p v) ∧ p' = with_row p (with_pg_head m v).
Proof.
  unfold pg_redo. destruct (pg_row p) as [m|] eqn:Em; [|done]. simpl.
  destruct (mr_head m) as [h|] eqn:Eh; [|done]. simpl.
  destruct (_authorize_checkout_row _ _ _ _); [|done]. simpl.
  destruct (_ =? _); [done|]. destruct (redo_walk _ _ _ _ _) as [[q|]|]; [|done..].
  unfold pg_verify_selected. rewrite Em; simpl; rewrite Eh; simpl.
  destruct (ready_row p q) as [r'|] eqn:Er'; [|done]. simpl.
  destruct (_decode_plan_note _) as [[note plan]|]; [|done]. simpl.
  case_goal; [destruct (read_bundle q) as [[]|]; [|done]|]; intros [= <- <-]; eauto 10.
Qed.

Lemma put_reserve_row bytes digest parent meta holder fence isb now now' dbnow p rs p' :
  pg_put_reserve tid did bytes digest parent meta holder fence isb now now' dbnow p = Ok (PNew rs, p') →
  ∃ m h row, pg_row p = Some m ∧ mr_head m = Some h ∧
    rs_version rs = mr_latest m + 1 ∧ rs_expected rs = h ∧ rs_fence rs = mr_fence m ∧
    pg_versions p !! (mr_latest m + 1) = None ∧
    p' = Pg (Some (MRow (Some h) (mr_latest m + 1) (mr_checkout m) (mr_fence m)))
            (<[mr_latest m + 1 := row]> (pg_versions p)) ∧
    vr_parent row = Some h ∧ vr_bytes row = bytes ∧ vr_sha row = digest ∧ vr_state row = Reserved.
Proof.
  unfold pg_put_reserve. destruct (pg_row p) as [m|] eqn:Em; [|done]. simpl.
  destruct (mr_head m) as [h|] eqn:Eh; [|done]. simpl.
  destruct (mr_checkout m) as [l|] eqn:El; [|done]. simpl.
  destruct (_ <=? _); [done|]. destruct (_authorize_checkout_row _ _ _ _); [|done]. simpl.
  set (fresh := if negb _ then _ else _).
  assert (Hf : fresh = Ok (PNew rs, p') → ∃ m0 h0 row, Some m = Some m0 ∧ mr_head m0 = Some h0 ∧
    rs_version rs = mr_latest m0 + 1 ∧ rs_expected rs = h0 ∧ rs_fence rs = mr_fence m0 ∧
    pg_versions p !! (mr_latest m0 + 1) = None ∧
    p' = Pg (Some (MRow (Some h0) (mr_latest m0 + 1) (mr_checkout m0) (mr_fence m0)))
            (<[mr_latest m0 + 1 := row]> (pg_versions p)) ∧
    vr_parent row = Some h0 ∧ vr_bytes row = bytes ∧ vr_sha row = digest ∧ vr_state row = Reserved).
  { unfold fresh. case_bool_decide as Hp; [|done]. simpl. subst parent.
    destruct (Keys.drawing_version_key _ _ _) as [k|]; [|done]. simpl.
    unfold insert_version. simpl. destruct (pg_versions p !! _) eqn:Ev; [done|]. simpl.
    intros [= <- <-]. eexists m, h, _. rewrite El. by repeat split. }
  destruct isb; [|exact Hf]. destruct (find_apply _ _) as [[v row]|]; [|exact Hf]. by case_bool_decide.
Qed.

(** Changing a row that is not ready into one that is not ready. *)
Lemma ready_row_insert p x v row u :
  ready_row p v = None → vr_state row ≠ Ready →
  ready_row (Pg x (<[v := row]> (pg_versions p))) u = ready_row p u.
Proof.
  intros Hn Hs. unfold ready_row at 1. simpl. destruct (decide (u = v)) as [->|Hne].
  - rewrite lookup_insert_eq, Hn. simpl. unfold is_ready. by rewrite bool_decide_eq_false_2.
  - rewrite lookup_insert_ne by done. done.
Qed.

(** ... and its publication is the only one that can notice. *)
Lemma insert_unready_PInv s m v row :
  PInv s → ready_row (s_pg s) v = None → vr_state row ≠ Ready → 1 <= v <= mr_latest m →
  (v = 1 → vr_parent row = None) →
  (∀ m0, pg_row (s_pg s) = Some m0 → mr_head m = mr_head m0 ∧ mr_latest m0 <= mr_latest m ∧ mr_fence m0 <= mr_fence m) →
  (pg_row (s_pg s) = None → mr_head m = None) →
  (∀ c cl, s_clients s !! c = Some cl → pub_version (cl_pub cl) = v →
     ∃ r, pg_versions (s_pg s) !! v = Some r ∧ vr_bytes row = vr_bytes r ∧ vr_sha row = vr_sha r ∧
          ∃ tok, cl_pub cl = PubIngest tok) →
  PInv (set_pg s (Pg (Some m) (<[v := row]> (pg_versions (s_pg s))))).
Proof.
  intros [Hb Hroot Hh Hr Ht Hc Hu] Hn Hs Hv H1 Hm Hm0 Hcl.
  assert (Hrr : ∀ u, ready_row (Pg (Some m) (<[v := row]> (pg_versions (s_pg s)))) u = ready_row (s_pg s) u)
    by (intros; by apply ready_row_insert).
  split; simpl; try setoid_rewrite Hrr; try done.
  - intros u r. rewrite lookup_insert_Some. intros [[<- <-]|[Hne Hu0]]; [by exists m|].
    destruct (Hb u r Hu0) as (m0 & Hm0' & Hr0). destruct (Hm m0 Hm0') as (_ & ? & _). exists m. split; [done|lia].
  - intros r. rewrite lookup_insert_Some. intros [[Hv1 <-]|[Hne Hu0]]; [auto|by apply Hroot].
  - intros m0 h [= <-] Hhd. destruct (pg_row (s_pg s)) as [m1|] eqn:E.
    + destruct (Hm m1 eq_refl) as [Heq _]. eapply (Hh m1); [done|congruence].
    + rewrite Hm0 in Hhd; done.
  - intros c cl Hcc. destruct (Hc c cl Hcc) as (r & m0 & Hv0 & Hm0' & Hby & Hsh & Hup & Hp).
    destruct (Hm m0 Hm0') as (_ & Hlat & Hfen).
    destruct (decide (pub_version (cl_pub cl) = v)) as [Heq|Hne].
    + destruct (Hcl c cl Hcc Heq) as (r' & Hr' & Hby' & Hsh' & tok & Htok).
      rewrite Heq, Hr' in Hv0. injection Hv0 as ->. exists row, m. simpl. rewrite Heq, lookup_insert_eq.
      rewrite Hby', Hsh'. do 4 (split; [done|]). split; [by rewrite <- Heq|by rewrite Htok].
    + exists r, m. simpl. rewrite lookup_insert_ne by done. do 5 (split; [done|]).
      destruct (cl_pub cl); [done|]. destruct Hp as (? & ? & ? & ?). repeat (split; [done|]). lia.
Qed.

Lemma add_client_PInv s c cl :
  PInv s → s_clients s !! c = None → client_ok s cl →
  (∀ c' cl' rs rs', s_clients s !! c' = Some cl' → cl_pub cl' = PubPut rs' → cl_pub cl = PubPut rs →
     rs_version rs ≠ rs_version rs') →
  PInv (Sys (s_pg s) (s_blobs s) (<[c := cl]> (s_clients s)) (s_dbnow s)).
Proof.
  intros [Hb Hroot Hh Hr Ht Hc Hu] Hn Hok Hne. split; simpl; try done.
  - intros c' cl'. rewrite lookup_insert_Some. intros [[<- <-]|[_ Hc']]; [done|by apply (Hc c')].
  - intros c1 c2 cl1 cl2 rs1 rs2. rewrite !lookup_insert_Some.
    intros [[<- <-]|[? H1]] [[<- <-]|[? H2]] P1 P2 Heq; [done|..].
    + exfalso. by eapply (Hne c2).
    + exfalso. by eapply (Hne c1).
    + by eapply (Hu c1 c2).
Qed.

Lemma drop_client_PInv s c : PInv s → PInv (drop_client s c).
Proof.
  intros [Hb Hroot Hh Hr Ht Hc Hu]. split; simpl; try done.
  - intros c' cl'. rewrite lookup_delete_Some. intros [_ Hc']. by apply (Hc c').
  - intros c1 c2 cl1 cl2 rs1 rs2. rewrite !lookup_delete_Some. intros [_ H1] [_ H2]. by eapply (Hu c1 c2).
Qed.

Lemma put_reserve_PInv s c data parent meta holder fence isb now now' rs p :
  PInv s → s_clients s !! c = None →
  pg_put_reserve tid did (len data) (sha256 data) parent meta holder fence isb now now'
    (s_dbnow s) (s_pg s) = Ok (PNew rs, p) →
  PInv (Sys p (s_blobs s) (<[c := Client (PubPut rs) data false]> (s_clients s)) (s_dbnow s)).
Proof.
  intros HI Hcn (m & h & row & Hm & Hh & Hv & He & Hf & Hnone & -> & Hpar & Hby & Hsh & Hst)%put_reserve_row.
  destruct (p_head s HI m h Hm Hh) as [hr [Hhr _]%ready_row_Some].
  destruct (p_bound s HI h hr Hhr) as (m0 & Hm0 & Hhb). rewrite Hm in Hm0. injection Hm0 as <-.
  assert (Hnr : ready_row (s_pg s) (mr_latest m + 1) = None) by (unfold ready_row; by rewrite Hnone).
  assert (Hcl : ∀ c' cl', s_clients s !! c' = Some cl' → pub_version (cl_pub cl') ≠ mr_latest m + 1).
  { intros c' cl' Hc' Heq. destruct (p_client s HI c' cl' Hc') as (r & m0 & Hr & _).
    rewrite Heq, Hnone in Hr. done. }
  apply (add_client_PInv (set_pg s _)); [|done|..].
  - apply insert_unready_PInv; try done; try (by rewrite Hst).
    + simpl. lia.
    + lia.
    + intros m0 Hm0. rewrite Hm in Hm0. injection Hm0 as <-. simpl. split; [done|lia].
    + by rewrite Hm.
    + intros c' cl' Hc' Heq. by destruct (Hcl c' cl' Hc' Heq).
  - eexists row, _. simpl. rewrite Hv, lookup_insert_eq. do 4 (split; [done|]). split; [done|].
    rewrite He, Hf. split; [done|]. split; [done|]. split; [lia|done].
  - intros c' cl' rs1 rs' Hc' Hp' [= <-] Heq. apply (Hcl c' cl' Hc'). rewrite Hp'. simpl. congruence.
Qed.

Lemma ingest_reserve_PInv s c token data vkey now p :
  PInv s → s_clients s !! c = None →
  pg_ingest_reserve vkey (len data) (sha256 data) token now (s_dbnow s) (s_pg s) = Ok (tt, p) →
  PInv (Sys p (s_blobs s) (<[c := Client (PubIngest token) data false]> (s_clients s)) (s_dbnow s)).
Proof.
  intros HI Hcn. unfold pg_ingest_reserve. destruct (pg_row (s_pg s)) as [m|] eqn:Em.
  - destruct (mr_head m) as [h|] eqn:Eh; [done|].
    destruct (pg_versions (s_pg s) !! 1) as [row|] eqn:Ev; [|done].
    destruct (_ || _) eqn:Echk; [done|]. destruct (vr_reservation row) as [[tok ex]|]; [|done].
    destruct (now <? ex); [done|]. intros [= <-]. bool_prop.
    destruct (p_bound s HI 1 row Ev) as (m0 & Hm0 & Hlat). rewrite Em in Hm0. injection Hm0 as <-.
    assert (Hnr : ready_row (s_pg s) 1 = None).
    { destruct (ready_row (s_pg s) 1) as [r|] eqn:Er; [|done]. apply ready_row_Some in Er as [Er Es].
      rewrite Ev in Er. injection Er as ->. congruence. }
    apply (add_client_PInv (set_pg s _)); [|done|..].
    + apply insert_unready_PInv; try done.
      * simpl. intros _. by apply (p_root s HI).
      * intros m0 Hm0. rewrite Em in Hm0. by injection Hm0 as ->.
      * intros c' cl' Hc' Heq. exists row. do 3 (split; [done|]). destruct (p_client s HI c' cl' Hc') as (r & m1 & _ & _ & _ & _ & _ & Hp).
        destruct (cl_pub cl') as [tok'|rs]; [by eexists|]. simpl in Heq. lia.
    + eexists _, m. cbn [s_pg set_pg pg_versions pg_row cl_pub cl_data cl_uploaded pub_version].
      rewrite lookup_insert_eq. by repeat split.
    + done.
  - unfold insert_version. simpl. destruct (pg_versions (s_pg s) !! 1) as [row|] eqn:Ev; [done|].
    simpl. intros [= <-].
    assert (Hnone : ∀ v, pg_versions (s_pg s) !! v = None).
    { intros v. destruct (pg_versions (s_pg s) !! v) as [r|] eqn:E; [|done].
      destruct (p_bound s HI v r E) as (m0 & Hm0 & _). congruence. }
    apply (add_client_PInv (set_pg s _)); [|done|..].
    + apply insert_unready_PInv; try done.
      * unfold ready_row. by rewrite Ev.
      * by rewrite Em.
      * intros c' cl' Hc' Heq. destruct (p_client s HI c' cl' Hc') as (r & m0 & Hr & _).
        by rewrite Hnone in Hr.
    + eexists _, _. cbn [s_pg set_pg pg_versions pg_row cl_pub cl_data cl_uploaded pub_version].
      rewrite lookup_insert_eq. by repeat split.
    + done.
Qed.

(** Writing a blob nobody wrote yet. *)
Lemma new_blob_PInv s v x :
  PInv s → s_blobs s !! v = None → PInv (Sys (s_pg s) (<[v := x]> (s_blobs s)) (s_clients s) (s_dbnow s)).
Proof.
  intros [Hb Hroot Hh Hr Ht Hc Hu] Hn.
  assert (Hback : ∀ u b g, backed s u b g →
    backed (Sys (s_pg s) (<[v := x]> (s_blobs s)) (s_clients s) (s_dbnow s)) u b g).
  { intros u b g (y & Hy & ?). exists y. simpl. rewrite lookup_insert_ne; [done|]. congruence. }
  split; simpl; try done.
  - intros u r Hur. by apply Hback, Hr.
  - intros c cl Hcl. destruct (Hc c cl Hcl) as (r & m & ? & ? & ? & ? & Hup & ?).
    exists r, m. do 4 (split; [done|]). split; [auto|done].
Qed.

Lemma uploaded_PInv s c pb data :
  PInv s → s_clients s !! c = Some (Client pb data false) →
  backed s (pub_version pb) (len data) (sha256 data) →
  PInv (Sys (s_pg s) (s_blobs s) (<[c := Client pb data true]> (s_clients s)) (s_dbnow s)).
Proof.
  intros HI Hc Hback. destruct HI as [Hb Hroot Hh Hr Ht Hcl Hu]. split; simpl; try done.
  - intros c' cl'. rewrite lookup_insert_Some. intros [[<- <-]|[_ Hc']]; [|by apply (Hcl c')].
    destruct (Hcl c _ Hc) as (r & m & ? & ? & Hby & Hsh & _ & ?). exists r, m.
    do 4 (split; [done|]). split; [|done]. intros _. simpl in *. by rewrite Hby, Hsh.
  - intros c1 c2 cl1 cl2 rs1 rs2. rewrite !lookup_insert_Some.
    intros [[<- <-]|[? H1]] [[<- <-]|[? H2]] P1 P2 Heq; [done|..].
    + by eapply (Hu c c2).
    + by eapply (Hu c1 c).
    + by eapply (Hu c1 c2).
Qed.

(** After its publication is gone, a reservation can be orphaned. *)
Lemma orphan_PInv s c rs data up f :
  PInv s → s_clients s !! c = Some (Client (PubPut rs) data up) →
  (∀ r, vr_parent (f r) = vr_parent r ∧ vr_state (f r) = Orphaned) →
  PInv (drop_client (set_pg s (update_reserved (s_pg s) (rs_version rs) f)) c).
Proof.
  intros HI Hc Hf. destruct (p_client s HI c _ Hc) as (r & m & Hr & Hm & _ & _ & _ & Hst & Hpar & Hexp & _).
  cbn [cl_pub pub_version] in *.
  unfold update_reserved. rewrite Hr, bool_decide_eq_true_2 by done. rewrite Hm.
  destruct (p_bound s HI _ r Hr) as (m0 & Hm0 & Hlat). rewrite Hm in Hm0. injection Hm0 as <-.
  apply (insert_unready_PInv (drop_client s c) m (rs_version rs) (f r)).
  - by apply drop_client_PInv.
  - simpl. destruct (ready_row (s_pg s) (rs_version rs)) as [r'|] eqn:Er; [|done].
    apply ready_row_Some in Er as [Er Es]. rewrite Hr in Er. injection Er as ->. congruence.
  - by rewrite (proj2 (Hf r)).
  - done.
  - lia.
  - simpl. intros m0 Hm0. rewrite Hm in Hm0. by injection Hm0 as ->.
  - simpl. by rewrite Hm.
  - simpl. intros c' cl' [Hne Hc']%lookup_delete_Some Heq. exfalso. apply Hne.
    destruct (cl_pub cl') as [tok|rs'] eqn:Ep; simpl in Heq; [lia|].
    by eapply (p_unique s HI c c' _ cl' rs rs').
Qed.

Lemma ready_row_made p m v r note u :
  pg_versions p !! v = Some r → vr_state r = Reserved →
  ready_row (Pg m (<[v := set_state r Ready note]> (pg_versions p))) u =
  if decide (u = v) then Some (set_state r Ready note) else ready_row p u.
Proof.
  intros Hr Hs. unfold ready_row. simpl. destruct (decide (u = v)) as [->|Hne].
  - by rewrite lookup_insert_eq.
  - by rewrite lookup_insert_ne.
Qed.

(** A stored, reserved version becomes ready and the head. *)
Lemma make_ready_PInv s m v r note :
  PInv s → pg_row (s_pg s) = Some m → pg_versions (s_pg s) !! v = Some r → vr_state r = Reserved →
  backed s v (vr_bytes r) (vr_sha r) →
  (v = 1 ∧ vr_parent r = None) ∨ (∃ q, vr_parent r = Some q ∧ q < v ∧ is_Some (ready_row (s_pg s) q)) →
  (∀ c cl rs, s_clients s !! c = Some cl → cl_pub cl = PubPut rs → rs_version rs ≠ v) →
  PInv (set_pg s (Pg (Some (with_pg_head m v))
                     (<[v := set_state r Ready note]> (pg_versions (s_pg s))))).
Proof.
  intros [Hb Hroot Hh Hr Ht Hc Hu] Hm Hv Hs Hback Htree Hcl.
  assert (Hrr := λ u, ready_row_made (s_pg s) (Some (with_pg_head m v)) v r note u Hv Hs).
  assert (Hmono : ∀ u, is_Some (ready_row (s_pg s) u) → is_Some (ready_row
    (Pg (Some (with_pg_head m v)) (<[v := set_state r Ready note]> (pg_versions (s_pg s)))) u)).
  { intros u Hsome. rewrite Hrr. by destruct (decide (u = v)). }
  split; simpl.
  - intros u r0. rewrite lookup_insert_Some. intros [[<- <-]|[_ Hu0]].
    + destruct (Hb v r Hv) as (m0 & Hm0 & Hr0). rewrite Hm in Hm0. injection Hm0 as <-. eauto.
    + destruct (Hb u r0 Hu0) as (m0 & Hm0 & Hr0). rewrite Hm in Hm0. injection Hm0 as <-. eauto.
  - intros r0. rewrite lookup_insert_Some. intros [[-> <-]|[_ Hu0]]; [by apply (Hroot r)|by apply Hroot].
  - intros m0 h [= <-] [= <-]. rewrite Hrr. by rewrite decide_True.
  - intros u r0. rewrite Hrr. destruct (decide (u = v)) as [->|]; [by intros [= <-]|by apply Hr].
  - intros u r0. rewrite Hrr. destruct (decide (u = v)) as [->|Hne].
    + intros [= <-]. simpl. destruct Htree as [?|(q & ? & ? & ?)]; [by left|right; eauto].
    + intros Hu0. destruct (Ht u r0 Hu0) as [?|(q & ? & ? & ?)]; [by left|right; eauto].
  - intros c cl Hcc. destruct (Hc c cl Hcc) as (r0 & m0 & Hv0 & Hm0 & Hby & Hsh & Hup & Hp).
    rewrite Hm in Hm0. injection Hm0 as <-.
    destruct (decide (pub_version (cl_pub cl) = v)) as [Heq|Hne].
    + rewrite Heq, Hv in Hv0. injection Hv0 as <-. eexists _, _. simpl. rewrite Heq, lookup_insert_eq.
      do 4 (split; [done|]). split; [done|].
      destruct (cl_pub cl) as [tok|rs] eqn:Ep; [done|]. by destruct (Hcl c cl rs Hcc Ep).
    + eexists r0, _. simpl. rewrite lookup_insert_ne by done. by do 5 (split; [done|]).
  - done.
Qed.

Lemma put_finalize_true rs note dbnow p p' :
  pg_put_finalize rs note dbnow p = Ok (true, p') →
  ∃ m l, pg_row p = Some m ∧ mr_head m = Some (rs_expected rs) ∧ mr_checkout m = Some l ∧
    pl_holder l = rs_holder rs ∧ mr_fence m = rs_fence rs ∧ dbnow < pl_expires l ∧
    p' = update_reserved (with_row p (with_pg_head m (rs_version rs))) (rs_version rs)
           (λ row, set_state row Ready note).
Proof.
  unfold pg_put_finalize. destruct (pg_row p) as [m|]; [|done].
  destruct (mr_checkout m) as [l|] eqn:El; [|by rewrite andb_false_r].
  destruct (_ && _) eqn:E; [|done]. intros [= <-]. bool_prop. exists m, l. simpl in *. naive_solver.
Qed.

Lemma put_finalize_PInv s c rs data note b p :
  PInv s → s_clients s !! c = Some (Client (PubPut rs) data true) →
  pg_put_finalize rs note (s_dbnow s) (s_pg s) = Ok (b, p) →
  PInv (drop_client (set_pg s p) c).
Proof.
  intros HI Hc Hfin.
  destruct (p_client s HI c _ Hc) as (r & m & Hr & Hm & Hby & Hsh & Hup & Hst & Hpar & Hexp & _).
  cbn [cl_pub pub_version cl_data cl_uploaded] in *. destruct b.
  - apply put_finalize_true in Hfin as (m0 & l & Hm0 & Hhd & Hl & Hh & Hf & Hlive & ->).
    rewrite Hm in Hm0. injection Hm0 as <-.
    unfold update_reserved. simpl. rewrite Hr, bool_decide_eq_true_2 by done.
    apply (make_ready_PInv (drop_client s c) m (rs_version rs) r note); simpl; try done.
    + by apply drop_client_PInv.
    + by apply Hup.
    + right. exists (rs_expected rs). split; [done|]. split; [lia|]. by apply (p_head s HI m).
    + intros c' cl rs' [Hne Hc']%lookup_delete_Some Hp' Heq. apply Hne.
      by eapply (p_unique s HI c c' _ cl rs rs').
  - unfold pg_put_finalize in Hfin. rewrite Hm in Hfin.
    destruct (_ && _ && _ && _); [done|]. injection Hfin as <-.
    eapply orphan_PInv; done.
Qed.

Lemma ingest_finalize_PInv s c token data p :
  PInv s → s_clients s !! c = Some (Client (PubIngest token) data true) →
  pg_ingest_finalize token (s_dbnow s) (s_pg s) = Ok (tt, p) →
  PInv (drop_client (set_pg s p) c).
Proof.
  intros HI Hc. unfold pg_ingest_finalize. destruct (pg_row (s_pg s)) as [m|] eqn:Em; [|done].
  destruct (pg_versions (s_pg s) !! 1) as [r|] eqn:Er; [|done].
  destruct (_ && _ && _) eqn:E; [|done]. intros [= <-]. bool_prop.
  destruct (p_client s HI c _ Hc) as (r0 & m0 & Hr0 & Hm0 & Hby & Hsh & Hup & _).
  cbn [cl_pub pub_version cl_data cl_uploaded] in *. rewrite Er in Hr0. injection Hr0 as <-.
  apply (make_ready_PInv (drop_client s c) m 1 r); simpl; try done.
  - by apply drop_client_PInv.
  - by apply Hup.
  - left. split; [done|by apply (p_root s HI)].
  - intros c' cl rs' [Hne Hc']%lookup_delete_Some Hp' Heq.
    destruct (p_client s HI c' cl Hc') as (? & ? & _ & _ & _ & _ & _ & Hp). rewrite Hp' in Hp. lia.
Qed.

Lemma step_PInv s s' : PInv s → step s s' → PInv s'.
Proof.
  intros HI. destruct 1 as [t Ht|holder ttl e strict now a p H|holder e now b p H|holder fence now v p H
    |holder fence now v p H|c data parent meta holder fence isb now now' rs p Hc H|c token data vkey now p Hc H
    |c rs data Hc Hb|c token data blobs Hc Hb|c cl landed orphaned p Hc Hu Hl Ho|c rs data note b p Hc H
    |c token data p Hc H|c].
  - by destruct HI.
  - apply acquire_row in H as [[-> _]|(m & m' & Hm & -> & Hhd & Hl & Hf & _)]; [by destruct s|].
    eapply row_update_PInv; try done; [lia|]. intros h. rewrite Hhd. by apply (p_head s HI).
  - apply release_row in H as [->|(m & m' & Hm & -> & Hhd & Hl & Hf)]; [by destruct s|].
    eapply row_update_PInv; try done; [lia|]. intros h. rewrite Hhd. by apply (p_head s HI).
  - apply undo_row in H as (m & h & r & Hm & _ & _ & _ & Hv & ->).
    eapply row_update_PInv; try done. by intros h' [= <-].
  - apply redo_row in H as (m & h & Hm & _ & Hv & ->).
    eapply row_update_PInv; try done. by intros h' [= <-].
  - by eapply put_reserve_PInv.
  - by eapply ingest_reserve_PInv.
  - refine (uploaded_PInv (Sys (s_pg s) (<[rs_version rs := data]> (s_blobs s)) (s_clients s) (s_dbnow s)) c
      (PubPut rs) data _ _ _); [by apply new_blob_PInv|done|].
    exists data. simpl. by rewrite lookup_insert_eq.
  - destruct Hb as [[Hn ->]|(x & Hx & Hlx & Hsx & ->)].
    + refine (uploaded_PInv (Sys (s_pg s) (<[1 := data]> (s_blobs s)) (s_clients s) (s_dbnow s)) c
        (PubIngest token) data _ _ _); [by apply new_blob_PInv|done|].
      exists data. simpl. by rewrite lookup_insert_eq.
    + refine (uploaded_PInv s c (PubIngest token) data _ _ _); [done|done|].
      exists x. simpl. by rewrite Hlx.
  - set (s1 := Sys (s_pg s) (if landed then <[pub_version (cl_pub cl) := cl_data cl]> (s_blobs s) else s_blobs s)
                 (s_clients s) (s_dbnow s)).
    assert (HI1 : PInv s1) by (unfold s1; destruct landed; [by apply new_blob_PInv|by destruct s]).
    destruct orphaned; [|subst p; exact (drop_client_PInv s1 c HI1)].
    destruct Ho as (rs & Hp & [= <-]). destruct cl as [pb data up]; simpl in *; subst.
    by refine (orphan_PInv s1 c rs data false _ HI1 Hc _).
  - by eapply put_finalize_PInv.
  - by eapply ingest_finalize_PInv.
  - by apply drop_client_PInv.
Qed.

(** ** Progress: what every step keeps *)

Lemma advances_refl p : advances p p.
Proof. split; [done|]. intros m Hm. exists m. split; [done|lia]. Qed.

Lemma advances_trans p1 p2 p3 : advances p1 p2 → advances p2 p3 → advances p1 p3.
Proof.
  intros [r1 m1] [r2 m2]. split; [auto|]. intros m Hm.
  destruct (m1 m Hm) as (m' & Hm' & ? & ?). destruct (m2 m' Hm') as (m'' & Hm'' & ? & ?).
  exists m''. split; [done|lia].
Qed.

Lemma row_advances p m m' :
  pg_row p = Some m → mr_latest m <= mr_latest m' → mr_fence m <= mr_fence m' → advances p (with_row p m').
Proof.
  intros Hm Hl Hf. split; [done|]. intros m0 Hm0. rewrite Hm in Hm0. injection Hm0 as <-.
  exists m'. by split.
Qed.

(** Replacing the row of a version that is not ready. *)
Lemma insert_advances p m' v row :
  ready_row p v = None →
  (∀ m0, pg_row p = Some m0 → mr_latest m0 <= mr_latest m' ∧ mr_fence m0 <= mr_fence m') →
  advances p (Pg (Some m') (<[v := row]> (pg_versions p))).
Proof.
  intros Hn Hmono. split.
  - intros u r Hr. assert (u ≠ v) by congruence. unfold ready_row in *. simpl. by rewrite lookup_insert_ne.
  - intros m0 Hm0. destruct (Hmono m0); [congruence|]. by exists m'.
Qed.

Lemma update_reserved_advances p v f : advances p (update_reserved p v f).
Proof.
  unfold update_reserved. destruct (pg_versions p !! v) as [r|] eqn:Er; [|apply advances_refl].
  case_bool_decide as Hs; [|apply advances_refl]. split.
  - intros u r' Hr'. destruct (decide (u = v)) as [->|Hne].
    + apply ready_row_Some in Hr' as [Hr' ?]. rewrite Er in Hr'. injection Hr' as ->. congruence.
    + unfold ready_row in *. simpl. by rewrite lookup_insert_ne.
  - intros m Hm. exists m. split; [done|lia].
Qed.

Lemma step_advances s s' : PInv s → step s s' → advances (s_pg s) (s_pg s').
Proof.
  intros HI. destruct 1 as [t Ht|holder ttl e strict now a p H|holder e now b p H|holder fence now v p H
    |holder fence now v p H|c data parent meta holder fence isb now now' rs p Hc H|c token data vkey now p Hc H
    |c rs data Hc Hb|c token data blobs Hc Hb|c cl landed orphaned p Hc Hu Hl Ho|c rs data note b p Hc H
    |c token data p Hc H|c]; simpl; try apply advances_refl.
  - apply acquire_row in H as [[-> _]|(m & m' & Hm & -> & Hhd & Hl & Hf & _)]; [apply advances_refl|].
    apply (row_advances _ m); [done|lia|lia].
  - apply release_row in H as [->|(m & m' & Hm & -> & Hhd & Hl & Hf)]; [apply advances_refl|].
    apply (row_advances _ m); [done|lia|lia].
  - apply undo_row in H as (m & h & r & Hm & _ & _ & _ & Hv & ->). by apply (row_advances _ m).
  - apply redo_row in H as (m & h & Hm & _ & Hv & ->). by apply (row_advances _ m).
  - apply put_reserve_row in H as (m & h & row & Hm & Hh & Hv & He & Hf & Hnone & -> & _).
    apply insert_advances; [by unfold ready_row; rewrite Hnone|].
    intros m0 Hm0. rewrite Hm in Hm0. injection Hm0 as <-. simpl. lia.
  - unfold pg_ingest_reserve in H. destruct (pg_row (s_pg s)) as [m|] eqn:Em.
    + destruct (mr_head m); [done|]. destruct (pg_versions (s_pg s) !! 1) as [row|] eqn:Ev; [|done].
      destruct (_ || _) eqn:Echk; [done|]. destruct (vr_reservation row) as [[tok ex]|]; [|done].
      destruct (now <? ex); [done|]. injection H as <-. bool_prop.
      apply insert_advances.
      * destruct (ready_row (s_pg s) 1) as [r|] eqn:Er; [|done]. apply ready_row_Some in Er as [Er Es].
        rewrite Ev in Er. injection Er as ->. congruence.
      * intros m0 Hm0. rewrite Em in Hm0. injection Hm0 as <-. lia.
    + unfold insert_version in H. simpl in H. destruct (pg_versions (s_pg s) !! 1) eqn:Ev; [done|].
      injection H as <-. apply insert_advances; [by unfold ready_row; rewrite Ev|].
      intros m0 Hm0. congruence.
  - destruct orphaned; [|subst; apply advances_refl]. destruct Ho as (rs & _ & [= <-]).
    apply update_reserved_advances.
  - destruct b.
    + apply put_finalize_true in H as (m & l & Hm & _ & _ & _ & _ & _ & ->).
      eapply advances_trans; [|apply update_reserved_advances]. by apply (row_advances _ m).
    + unfold pg_put_finalize in H. destruct (pg_row (s_pg s)) as [m|]; [|injection H as <-; apply advances_refl].
      destruct (_ && _ && _ && _); [done|]. injection H as <-. apply update_reserved_advances.
  - unfold pg_ingest_finalize in H. destruct (pg_row (s_pg s)) as [m|] eqn:Em; [|done].
    destruct (pg_versions (s_pg s) !! 1) as [r|] eqn:Er; [|done].
    destruct (_ && _ && _) eqn:E; [|done]. injection H as <-. bool_prop.
    apply insert_advances.
    + destruct (ready_row (s_pg s) 1) as [r'|] eqn:Er'; [|done]. apply ready_row_Some in Er' as [Er' ?].
      rewrite Er in Er'. injection Er' as ->. congruence.
    + intros m0 Hm0. rewrite Em in Hm0. injection Hm0 as <-. simpl. lia.
Qed.

Lemma step_blobs s s' v x : step s s' → s_blobs s !! v = Some x → s_blobs s' !! v = Some x.
Proof.
  destruct 1 as [| | | | | | |c rs data Hc Hb|c token data blobs Hc Hb|c cl landed orphaned p Hc Hu Hl Ho| | |];
    simpl; try done; intros Hx.
  - rewrite lookup_insert_ne; [done|congruence].
  - destruct Hb as [[Hn ->]|(y & _ & _ & _ & ->)]; [|done]. rewrite lookup_insert_ne; [done|congruence].
  - destruct landed; [|done]. rewrite lookup_insert_ne; [done|congruence].
Qed.

Lemma star_PInv s s' : PInv s → star step s s' → PInv s'.
Proof. intros HI H. by eapply (star_invariant step PInv); [apply step_PInv|..]. Qed.

Lemma star_advances s s' : PInv s → star step s s' → advances (s_pg s) (s_pg s').
Proof.
  intros HI H. induction H as [s|s s1 s2 Hstep _ IH]; [apply advances_refl|].
  eapply advances_trans; [by apply step_advances|]. by apply IH, (step_PInv s).
Qed.

Lemma reachable_PInv s : reachable s → PInv s.
Proof. intros [now H]. eapply star_PInv, H. apply init_PInv. Qed.

(** ** Guarantees *)

(** The published history is a tree of stored versions.  However clients
    interleave, fail or crash, the head is a ready version; every ready version
    has a blob of the recorded size and digest; and its parent is an earlier
    ready version, except version 1, which has none. *)
Theorem pg_history_is_a_tree s :
  reachable s →
  (∀ m h, pg_row (s_pg s) = Some m → mr_head m = Some h → is_Some (ready_row (s_pg s) h)) ∧
  ∀ v r, ready_row (s_pg s) v = Some r →
    (∃ x, s_blobs s !! v = Some x ∧ len x = vr_bytes r ∧ sha256 x = vr_sha r) ∧
    ((v = 1 ∧ vr_parent r = None) ∨
     ∃ q, vr_parent r = Some q ∧ q < v ∧ is_Some (ready_row (s_pg s) q)).
Proof.
  intros HI%reachable_PInv. split; [apply (p_head s HI)|].
  intros v r Hr. split; [by apply (p_ready s HI)|by apply (p_tree s HI)].
Qed.

(** What is published stays.  A ready version keeps its row and its bytes
    through any further steps of any clients. *)
Theorem pg_ready_versions_immutable s s' v r x :
  reachable s → star step s s' → ready_row (s_pg s) v = Some r → s_blobs s !! v = Some x →
  ready_row (s_pg s') v = Some r ∧ s_blobs s' !! v = Some x.
Proof.
  intros HI%reachable_PInv Hs Hr Hx. split; [by apply (star_advances s s' HI Hs)|].
  clear Hr HI. induction Hs; [done|]. eauto using step_blobs.
Qed.

(** (C8) Publication is a compare-and-set on the head and the lease.  When
    [finalize] succeeds, the head it replaces is the parent the version was
    written against, and the lease it was reserved under is still the current
    one, with the same holder and generation and not expired on the database
    clock; the version is then ready, with the bytes the client uploaded. *)
Theorem pg_publish_is_compare_and_set s c rs data note p :
  reachable s → s_clients s !! c = Some (Client (PubPut rs) data true) →
  pg_put_finalize rs note (s_dbnow s) (s_pg s) = Ok (true, p) →
  ∃ m l r, pg_row (s_pg s) = Some m ∧ mr_head m = Some (rs_expected rs) ∧
    mr_checkout m = Some l ∧ pl_holder l = rs_holder rs ∧ mr_fence m = rs_fence rs ∧
    s_dbnow s < pl_expires l ∧
    ready_row p (rs_version rs) = Some r ∧ vr_parent r = Some (rs_expected rs) ∧
    vr_bytes r = len data ∧ vr_sha r = sha256 data ∧ (mr_head <$> pg_row p) = Some (Some (rs_version rs)).
Proof.
  intros HI%reachable_PInv Hc (m & l & Hm & Hhd & Hl & Hh & Hf & Hlive & ->)%put_finalize_true.
  destruct (p_client s HI c _ Hc) as (r & m0 & Hr & _ & Hby & Hsh & _ & Hst & Hpar & _).
  cbn [cl_pub pub_version cl_data] in *. exists m, l, (set_state r Ready note).
  do 6 (split; [done|]). unfold update_reserved. simpl. rewrite Hr, bool_decide_eq_true_2 by done.
  split; [|done]. by rewrite ready_row_made, decide_True.
Qed.

(** A takeover fences out publications in flight.  Once any acquire has been
    granted after a reservation, the finalize of that reservation answers false
    from then on, whatever happens in between: a paused writer never publishes
    under a lease that is no longer the one it reserved with. *)
Theorem pg_takeover_fences_out s c rs data up holder ttl e strict now f p1 s2 note dbnow b p2 :
  reachable s → s_clients s !! c = Some (Client (PubPut rs) data up) →
  pg_acquire holder ttl e strict now (s_dbnow s) (s_pg s) = Ok (Some f, p1) →
  star step (set_pg s p1) s2 →
  pg_put_finalize rs note dbnow (s_pg s2) = Ok (b, p2) → b = false.
Proof.
  intros HI%reachable_PInv Hc Hacq Hstar Hfin. destruct b; [|done]. exfalso.
  destruct (p_client s HI c _ Hc) as (r & m & _ & Hm & _ & _ & _ & _ & _ & _ & Hle).
  assert (HI1 : PInv (set_pg s p1)) by (eapply step_PInv; [done|by eapply st_acquire]).
  pose proof (star_advances _ _ HI1 Hstar) as [_ Hadv].
  apply acquire_row in Hacq as [[_ ?]|(m1 & m' & Hm1 & -> & _ & _ & Hf & Ha)]; [done|].
  rewrite Hm in Hm1. injection Hm1 as <-. destruct (Hadv m' eq_refl) as (m2 & Hm2 & Hge & _).
  apply put_finalize_true in Hfin as (m3 & l & Hm3 & _ & _ & _ & Hf3 & _).
  rewrite Hm2 in Hm3. injection Hm3 as <-. lia.
Qed.

End System.

(** ** A concrete run: ingest, checkout by Alice, her second version uploaded *)

Definition run_tx {A} (t : tx A) (p : pg) : pg := match t p with Ok (_, p') => p' | Err _ => p end.
Definition demo_digest (s : string) : string := of_chars (replicate 61 (Ascii.ascii_of_nat 97) ++ zero_pad 3 (Z.of_nat (String.length s))).
Definition demo_bundle (v : Z) : result store_error unit := Err EBadBundle.
Definition v1_key : string := "tenants/acme/drawings/roof/v/00000001.dwg".

Definition pg1 : pg := run_tx (pg_ingest_reserve v1_key 3 (demo_digest "one") "t0" 0 0) pg_empty.
Definition pg2 : pg := run_tx (pg_ingest_finalize "t0" 0) pg1.
Definition pg3 : pg := run_tx (pg_acquire "alice" 100 None false 0 0) pg2.
Definition pg4 : pg := run_tx (pg_put_reserve "acme" "roof" 3 (demo_digest "two") (Some 1) no_meta
  (Some "alice"%string) (Some 1) false 0 0 0) pg3.
Definition demo_rs : reservation :=
  Reservation 2 "tenants/acme/drawings/roof/v/00000002.dwg" 1 "alice" 1.
Definition uploaded_sys : sys :=
  Sys pg4 (<[2 := "two"%string]> {[1 := "one"%string]})
      {[0%nat := Client (PubPut demo_rs) "two" true]} 0.

Abbreviation demo_step := (step demo_digest demo_bundle "acme" "roof").

Lemma uploaded_sys_reachable : reachable demo_digest demo_bundle "acme" "roof" uploaded_sys.
Proof.
  exists 0. eapply star_step.
  { apply (st_ingest_reserve _ _ _ _ _ 0%nat "t0" "one" v1_key 0 pg1); vm_compute; reflexivity. }
  eapply star_step.
  { eapply (st_ingest_upload _ _ _ _ _ 0%nat "t0" "one"); [vm_compute; reflexivity|].
    left. split; [vm_compute; reflexivity|reflexivity]. }
  eapply star_step.
  { eapply (st_ingest_finalize _ _ _ _ _ 0%nat "t0" "one" pg2); vm_compute; reflexivity. }
  eapply star_step.
  { eapply (st_acquire _ _ _ _ _ "alice" 100 None false 0 (Some 1) pg3); vm_compute; reflexivity. }
  eapply star_step.
  { eapply (st_put_reserve _ _ _ _ _ 0%nat "two" (Some 1) no_meta (Some "alice"%string) (Some 1) false 0 0
              demo_rs pg4); vm_compute; reflexivity. }
  eapply star_step.
  { eapply (st_put_upload _ _ _ _ _ 0%nat demo_rs "two"); vm_compute; reflexivity. }
  match goal with |- star _ ?s uploaded_sys => assert (s = uploaded_sys) as -> by (vm_compute; reflexivity) end.
  apply star_refl.
Qed.

Lemma pg_history_is_a_tree_witness :
  is_Some (ready_row (s_pg uploaded_sys) 1) ∧
  (∀ m h, pg_row (s_pg uploaded_sys) = Some m → mr_head m = Some h →
     is_Some (ready_row (s_pg uploaded_sys) h)).
Proof.
  split; [vm_compute; eexists; reflexivity|].
  exact (proj1 (pg_history_is_a_tree demo_digest demo_bundle "acme" "roof" uploaded_sys uploaded_sys_reachable)).
Defined.

Lemma pg_ready_versions_immutable_witness :
  ∃ r, ready_row (s_pg uploaded_sys) 1 = Some r ∧
       s_blobs (drop_client uploaded_sys 0) !! 1 = Some "one"%string.
Proof.
  eexists. split; [vm_compute; reflexivity|].
  eapply (pg_ready_versions_immutable demo_digest demo_bundle "acme" "roof" uploaded_sys
            (drop_client uploaded_sys 0) 1).
  - exact uploaded_sys_reachable.
  - apply star_one, st_crash.
  - vm_compute; reflexivity.
  - vm_compute; reflexivity.
Defined.

Lemma pg_publish_is_compare_and_set_witness :
  ∃ p m, pg_put_finalize demo_rs None 0 (s_pg uploaded_sys) = Ok (true, p) ∧
         pg_row (s_pg uploaded_sys) = Some m ∧ mr_head m = Some 1 ∧
         (mr_head <$> pg_row p) = Some (Some 2).
Proof.
  destruct (pg_publish_is_compare_and_set demo_digest demo_bundle "acme" "roof" uploaded_sys 0%nat demo_rs "two"
    None (run_tx (pg_put_finalize demo_rs None 0) pg4)) as (m & l & r & Hm & Hh & _ & _ & _ & _ & _ & _ & _ & _ & Hp).
  - exact uploaded_sys_reachable.
  - vm_compute; reflexivity.
  - vm_compute; reflexivity.
  - exists (run_tx (pg_put_finalize demo_rs None 0) pg4), m.
    split; [vm_compute; reflexivity|]. by repeat split.
Defined.

(** Bob takes over once Alice's lease has lapsed; her finalize is refused. *)
Lemma pg_takeover_fences_out_witness :
  ∃ f p1 b p2, pg_acquire "bob" 100 None false 200 0 (s_pg uploaded_sys) = Ok (Some f, p1) ∧
    pg_put_finalize demo_rs None 50 p1 = Ok (b, p2) ∧ b = false.
Proof.
  eexists _, (run_tx (pg_acquire "bob" 100 None false 200 0) pg4), _, _.
  split; [vm_compute; reflexivity|]. split; [vm_compute; reflexivity|].
  eapply (pg_takeover_fences_out demo_digest demo_bundle "acme" "roof" uploaded_sys 0%nat demo_rs "two" true
            "bob" 100 None false 200 2 (run_tx (pg_acquire "bob" 100 None false 200 0) pg4)
            (set_pg uploaded_sys (run_tx (pg_acquire "bob" 100 None false 200 0) pg4)) None 50).
  - exact uploaded_sys_reachable.
  - vm_compute; reflexivity.
  - vm_compute; reflexivity.
  - apply star_refl.
  - vm_compute; reflexivity.
Defined.
