(* ===== verification/HeadMoves.v ===== *)
(** * Undo and redo

    The chain walk of [redo] terminates within its fuel, finds exactly the child
    of the head on the way to [latest], and so undoes an [undo]; both authorities
    share the walk. *)

From S2P Require Import Prelude PyText TenantIds Json IsoTime Manifest Backend StoreKeys DrawingStore StoreInv StoreProofs StoreTheorems StoreDemo PgStore PgSystem.
From stdpp Require Import sorting.
Local Open Scope Z_scope.
Import IdFacts InMemory.

(** [v] is [from] or one of its ancestors. *)
Definition on_chain (parents : Z → option Z) : Z → Z → Prop := star (λ a b, parents a = Some b).

(** Parents are older versions. *)
Definition decreasing (parents : Z → option Z) : Prop := ∀ c p, parents c = Some p → p < c.

Lemma on_chain_le parents a b : decreasing parents → on_chain parents a b → b <= a.
Proof. intros Hd. induction 1 as [|a b c Hab _ IH]; [lia|]. apply Hd in Hab. lia. Qed.

(** Two versions of one chain are comparable. *)
Lemma on_chain_linear parents a b c :
  on_chain parents a b → on_chain parents a c → on_chain parents b c ∨ on_chain parents c b.
Proof.
  induction 1 as [a|a a' b Ha Hb IH]; [by left|]. intros Hc. destruct Hc as [a|a a'' c Ha' Hc].
  - right. by eapply star_step.
  - rewrite Ha in Ha'. injection Ha' as <-. auto.
Qed.

Lemma child_unique parents latest head v v' :
  decreasing parents → on_chain parents latest v → on_chain parents latest v' →
  parents v = Some head → parents v' = Some head → v = v'.
Proof.
  intros Hd Hv Hv' Hp Hp'.
  assert (Haux : ∀ a b, parents a = Some head → parents b = Some head → on_chain parents a b → a = b).
  { intros a b Ha Hb Hab. destruct Hab as [|a a' b Hstep Hrest]; [done|].
    rewrite Ha in Hstep. injection Hstep as <-. apply on_chain_le in Hrest; [|done].
    apply Hd in Hb. lia. }
  destruct (on_chain_linear parents latest v v') as [H|H]; [done..|by apply Haux|symmetry; by apply Haux].
Qed.

(** The walk never runs out of fuel: every round but the last two adds a key. *)
Lemma redo_walk_fuel parents keys head fuel cur seen :
  (∀ c p, parents c = Some p → c ∈ keys) → NoDup seen → seen ⊆ keys →
  (length keys + 2 ≤ fuel + length seen)%nat → redo_walk fuel parents head cur seen ≠ None.
Proof.
  intros Hkeys. revert cur seen. induction fuel as [|fuel IH]; intros cur seen Hnd Hsub Hlen.
  { assert (length seen ≤ length keys)%nat by (by apply NoDup_submseteq, submseteq_length in Hsub). lia. }
  cbn [redo_walk]. destruct cur as [c|]; [|done]. case_bool_decide as Hin; [done|].
  case_bool_decide as Hp; [done|]. destruct (parents c) as [p|] eqn:Ep.
  - apply IH; [by constructor|set_solver|simpl; lia].
  - destruct fuel as [|fuel]; [|done].
    assert (length seen ≤ length keys)%nat by (by apply NoDup_submseteq, submseteq_length in Hsub). lia.
Qed.

Lemma redo_walk_sound fuel parents head cur seen v :
  redo_walk fuel parents head cur seen = Some (Some v) →
  parents v = Some head ∧ ∃ c, cur = Some c ∧ on_chain parents c v.
Proof.
  revert cur seen. induction fuel as [|fuel IH]; intros cur seen; [done|]. cbn [redo_walk].
  destruct cur as [c|]; [|done]. case_bool_decide as Hin; [done|].
  case_bool_decide as Hp.
  - intros [= <-]. split; [done|]. exists c. split; [done|constructor].
  - intros (Hv & c' & Hc & Hch)%IH. split; [done|]. exists c. split; [done|]. by eapply star_step.
Qed.

(** With older parents, the walk meets the child of the head if it is there. *)
Lemma redo_walk_complete fuel parents head c seen v :
  decreasing parents → on_chain parents c v → parents v = Some head →
  (∀ x, x ∈ seen → c < x) →
  redo_walk fuel parents head (Some c) seen ≠ None →
  redo_walk fuel parents head (Some c) seen = Some (Some v).
Proof.
  intros Hd. revert c seen. induction fuel as [|fuel IH]; intros c seen Hch Hv Hseen; [done|].
  cbn [redo_walk]. case_bool_decide as Hin; [by apply Hseen in Hin; lia|].
  case_bool_decide as Hp.
  - intros _. do 2 f_equal. eapply (child_unique parents c); try done. constructor.
  - destruct Hch as [|c c' v Hstep Hrest]; [done|]. rewrite Hstep. apply IH; try done.
    intros x [->|Hx]%elem_of_cons; [by apply Hd|]. apply Hseen in Hx. apply Hd in Hstep. lia.
Qed.

(** ** The legacy walk *)

Definition legacy_parents (vs : list version_entry) (c : Z) : option Z := mjoin (parent_of vs c).

Lemma parent_of_elem vs c x : parent_of vs c = Some x → ∃ e, e ∈ vs ∧ ve_v e = c ∧ ve_parent e = x.
Proof.
  unfold parent_of. assert (Haux : ∀ acc, foldl (λ acc e, if bool_decide (ve_v e = c) then Some (ve_parent e) else acc) acc vs
    = Some x → acc = Some x ∨ ∃ e, e ∈ vs ∧ ve_v e = c ∧ ve_parent e = x).
  { induction vs as [|e vs IH]; intros acc; simpl; [by left|].
    intros [Hacc|(e' & He' & ?)]%IH; [|right; exists e'; set_solver].
    case_bool_decide; [|by left]. right. exists e. set_solver. }
  intros H. by destruct (Haux None H).
Qed.

Lemma parent_of_find vs e :
  StronglySorted (λ a b, ve_v a < ve_v b) vs → e ∈ vs → parent_of vs (ve_v e) = Some (ve_parent e).
Proof.
  intros Hs He. apply list_elem_of_split in He as (l1 & l2 & ->). unfold parent_of.
  rewrite foldl_app. simpl. rewrite bool_decide_eq_true_2 by done.
  apply StronglySorted_app in Hs as (_ & _ & Hs). apply StronglySorted_inv in Hs as [_ Hall].
  generalize (Some (ve_parent e)). induction l2 as [|b l2 IH]; intros acc; [done|]. simpl.
  apply Forall_cons in Hall as [Hb Hall]. rewrite bool_decide_eq_false_2 by lia. by apply IH.
Qed.

Lemma redo_target_fuel vs head latest : redo_target vs head latest ≠ None.
Proof.
  apply (redo_walk_fuel _ (ve_v <$> vs)); [|constructor|set_solver|rewrite length_fmap; simpl; lia].
  intros c p Hp. destruct (parent_of vs c) as [x|] eqn:E; [|done].
  apply parent_of_elem in E as (e & He & <- & _). apply list_elem_of_fmap. by exists e.
Qed.

(** [redo] always comes to a verdict, and it is the right one: the walk over
    the manifest never loops (its fuel is enough for any parent links, cyclic
    ones included), and a version it selects is a child of the head on the chain
    from [latest]; when parents are older versions it finds that child whenever
    there is one. *)
Theorem redo_target_correct vs head latest :
  redo_target vs head latest ≠ None ∧
  (∀ v, redo_target vs head latest = Some (Some v) →
     legacy_parents vs v = Some head ∧ on_chain (legacy_parents vs) latest v) ∧
  (decreasing (legacy_parents vs) →
   ∀ v, on_chain (legacy_parents vs) latest v → legacy_parents vs v = Some head →
     redo_target vs head latest = Some (Some v)).
Proof.
  split; [apply redo_target_fuel|]. split.
  - intros v (Hp & c & [= <-] & Hch)%redo_walk_sound. done.
  - intros Hd v Hch Hp. apply redo_walk_complete; try done; [set_solver|apply redo_target_fuel].
Qed.

(** A small manifest: version 3 branches off version 1. *)
Definition row_of (v : Z) (parent : option Z) : version_entry :=
  VersionEntry v parent "" 0 "" None None None None None.

Lemma redo_target_correct_witness :
  redo_target [row_of 1 None; row_of 2 (Some 1); row_of 3 (Some 1); row_of 4 (Some 3)] 1 4 = Some (Some 3) ∧
  redo_target [row_of 1 (Some 2); row_of 2 (Some 1)] 7 2 ≠ None.
Proof.
  split; [|apply redo_target_correct].
  apply redo_target_correct.
  - intros c p. unfold legacy_parents, parent_of. simpl.
    repeat case_bool_decide; simpl; intros [=]; lia.
  - eapply star_step; [reflexivity|]. constructor.
  - reflexivity.
Defined.

(** ** The postgres authority *)

Section Pg.
Variable sha256 : string → string.
Variable read_bundle : Z → result store_error unit.
Variables tid did : string.

Lemma pg_parent_decreasing s : PInv sha256 s → decreasing (pg_parent (s_pg s)).
Proof.
  intros HI c p. unfold pg_parent. destruct (ready_row (s_pg s) c) as [r|] eqn:Er; [|done]. simpl.
  intros Hp. destruct (p_tree sha256 s HI c r Er) as [[_ Hn]|(q & Hq & Hlt & _)]; congruence.
Qed.

Lemma pg_parent_row p p' c : pg_versions p' = pg_versions p → pg_parent p' c = pg_parent p c.
Proof. intros H. unfold pg_parent. by rewrite (ready_row_same p p'). Qed.

Lemma ready_versions_elem p c : c ∈ ready_versions p ↔ is_Some (ready_row p c).
Proof.
  unfold ready_versions. rewrite merge_sort_Permutation, elem_of_elements, elem_of_dom.
  unfold ready_row, is_Some. setoid_rewrite map_lookup_filter_Some. simpl.
  split.
  - intros (r & Hr & He). rewrite Hr. simpl. rewrite He. by eexists.
  - destruct (pg_versions p !! c) as [r|]; simpl; [|by intros [? [=]]].
    destruct (is_ready r) eqn:E; [|by intros [? [=]]]. intros _. by exists r.
Qed.

Definition pg_latest (p : pg) : Z := foldr Z.max 0 (ready_versions p).

(** In the postgres authority redo is the inverse of undo, with no
    assumption on the history: in any state concurrent clients can reach, if an
    undo commits and the undone version leads to the latest ready one (and its
    bundle, if any, still verifies), the next redo commits and restores exactly
    the rows there were before. *)
Theorem pg_redo_inverts_undo s m h q p1 now now' :
  reachable sha256 read_bundle tid did s →
  pg_row (s_pg s) = Some m → mr_head m = Some h →
  pg_undo read_bundle None None now (s_pg s) = Ok (q, p1) →
  on_chain (pg_parent (s_pg s)) (pg_latest (s_pg s)) h →
  pg_verify_selected read_bundle p1 h = Ok tt →
  pg_redo read_bundle None None now' p1 = Ok (h, s_pg s).
Proof.
  intros HI%reachable_PInv Hm Hh Hundo Hch Hver.
  assert (Hd := pg_parent_decreasing s HI).
  apply undo_row in Hundo as (m0 & h0 & r & Hm0 & Hh0 & Hr & Hp & Hq & ->).
  rewrite Hm in Hm0. injection Hm0 as <-. rewrite Hh in Hh0. injection Hh0 as <-.
  assert (Hparh : pg_parent (s_pg s) h = Some q) by (unfold pg_parent; by rewrite Hr).
  assert (Hwalk : redo_walk (length (ready_versions (s_pg s)) + 2) (pg_parent (s_pg s)) q
                    (Some (pg_latest (s_pg s))) [] = Some (Some h)).
  { apply redo_walk_complete; try done; [set_solver|].
    apply (redo_walk_fuel _ (ready_versions (s_pg s))); [|constructor|set_solver|simpl; lia].
    intros c p Hc. apply ready_versions_elem. unfold pg_parent in Hc.
    by destruct (ready_row (s_pg s) c). }
  assert (Hne : q ≠ pg_latest (s_pg s)).
  { apply on_chain_le in Hch; [|done]. apply Hd in Hparh. lia. }
  unfold pg_redo. cbn [pg_row with_row from_opt mr_head with_pg_head mbind result_mbind _authorize_checkout_row].
  change (foldr Z.max 0 (ready_versions (with_row (s_pg s) (with_pg_head m q)))) with (pg_latest (s_pg s)).
  rewrite (proj2 (Z.eqb_neq _ _)) by done.
  change (ready_versions (with_row (s_pg s) (with_pg_head m q))) with (ready_versions (s_pg s)).
  change (pg_parent (with_row (s_pg s) (with_pg_head m q))) with (pg_parent (s_pg s)).
  rewrite Hwalk. rewrite Hver. do 2 f_equal. unfold with_row, with_pg_head. simpl.
  destruct (s_pg s) as [row vs]; simpl in *. subst row. destruct m; simpl in *. by rewrite Hh.
Qed.
End Pg.

Definition pg5 : pg := run_tx (pg_put_finalize demo_rs None 0) pg4.
Definition published_sys : sys := drop_client (set_pg uploaded_sys pg5) 0.

Lemma published_sys_reachable : reachable demo_digest demo_bundle "acme" "roof" published_sys.
Proof.
  destruct uploaded_sys_reachable as [now H]. exists now. eapply star_trans; [exact H|].
  apply star_one. apply (st_put_finalize _ _ _ _ _ 0%nat demo_rs "two" None true pg5); vm_compute; reflexivity.
Qed.

Lemma pg_redo_inverts_undo_witness :
  ∃ p1, pg_undo demo_bundle None None 0 pg5 = Ok (1, p1) ∧ pg_redo demo_bundle None None 0 p1 = Ok (2, pg5).
Proof.
  exists (run_tx (pg_undo demo_bundle None None 0) pg5). split; [vm_compute; reflexivity|].
  apply (pg_redo_inverts_undo demo_digest demo_bundle "acme" "roof" published_sys
           (default (MRow None 0 None 0) (pg_row pg5)) 2 1 (run_tx (pg_undo demo_bundle None None 0) pg5) 0 0).
  - exact published_sys_reachable.
  - vm_compute; reflexivity.
  - vm_compute; reflexivity.
  - vm_compute; reflexivity.
  - assert (pg_latest (s_pg published_sys) = 2) as -> by (vm_compute; reflexivity). constructor.
  - vm_compute; reflexivity.
Defined.

(** ** The legacy authority on a backend that does not fail *)

Section Memory.
Variable clock : nat → instant.
Variable sha256 : string → string.
Variable read_graph_bundle : string → string → Z → io memory store_error unit.
Implicit Types (w : memory).

Lemma mem_guard {A} t d (body : io memory store_error A) w :
  valid t → valid d → is_Some (obj w (okey t d OManifest)) →
  _legacy_checkout_guard sha256 t d false None body w = body w.
Proof.
  intros Ht Hd Hm. unfold _legacy_checkout_guard, key, lift, mbind, io_mbind.
  rewrite manifest_key_valid, lock_key_valid by done.
  assert (Hex : bk (b_exists (okey t d OManifest)) w = (Ok true, w)).
  { unfold bk, b_exists, backend, exists_. destruct w as [b n].
    by rewrite bool_decide_eq_true_2. }
  assert (Hlk : bk (b_lock (lkey sha256 t d)) w = (Ok tt, w)) by (by destruct w).
  change (negb cross_process_checkout_safe) with false. cbn [keyed]. cbv iota beta.
  rewrite Hex. cbn [negb]. rewrite Hlk, Hex. reflexivity.
Qed.

Lemma mem_load t d w m :
  valid t → valid d → manifest_at w t d = Some m → load_manifest t d w = (Ok m, w).
Proof.
  intros Ht Hd Hm. unfold load_manifest, key, lift, mbind, io_mbind.
  rewrite manifest_key_valid by done. cbn [keyed]. unfold manifest_at in Hm.
  destruct (obj w (okey t d OManifest)) as [raw|] eqn:Eraw; [|done].
  assert (bk (b_get (okey t d OManifest)) w = (Ok raw, w)) as ->.
  { unfold bk, b_get, backend, get. destruct w as [b n]. unfold obj in Eraw.
    change (b !! okey t d OManifest = Some raw) in Eraw. cbn [w_b]. by rewrite Eraw. }
  change (manifest_loads raw = Some m) in Hm. by rewrite Hm.
Qed.

Definition saved w t d m : memory := World (<[okey t d OManifest := manifest_dumps m]> (w_b w)) (w_tick w).

Lemma mem_save t d w m : valid t → valid d → save_manifest t d m w = (Ok tt, saved w t d m).
Proof.
  intros Ht Hd. unfold save_manifest, key, lift, mbind, io_mbind. by rewrite manifest_key_valid.
Qed.

Lemma saved_manifest w t d m : manifest_at (saved w t d m) t d = Some m.
Proof. apply manifest_at_dumps. unfold obj, saved. cbn. apply lookup_insert_eq. Qed.

Definition plain_version (m : manifest) (v : Z) : Prop :=
  1 <= v <= 99999999 ∧ ∃ e, find_version (m_versions m) v = Some e ∧
    startswith BUNDLE_NOTE (default ""%string (ve_note e)) = false.

Lemma mem_verify t d w m v :
  valid t → valid d → manifest_at w t d = Some m → plain_version m v →
  _verify_selected_bundle read_graph_bundle t d v w = (Ok tt, w).
Proof.
  intros Ht Hd Hm (Hv & e & He & Hn). unfold _verify_selected_bundle, resolve_version_entry, resolve_version.
  unfold key, lift, mbind, io_mbind. unfold valid in Ht, Hd. rewrite Ht, Hd. cbn [keyed].
  rewrite (mem_load t d w m) by done. rewrite He. rewrite version_key_valid by done. cbn [keyed].
  unfold mret, io_mret. rewrite (mem_load t d w m) by done. rewrite He. by rewrite Hn.
Qed.

Lemma manifest_at_Some w t d m : manifest_at w t d = Some m → is_Some (obj w (okey t d OManifest)).
Proof. unfold manifest_at. by destruct (obj w _). Qed.

Lemma mem_undo t d w m e p :
  valid t → valid d → manifest_at w t d = Some m → find_version (m_versions m) (m_head m) = Some e →
  ve_parent e = Some p → plain_version m p →
  undo clock sha256 read_graph_bundle (PStr t) (PStr d) None None w = (Ok p, saved w t d (with_head m p)).
Proof.
  intros Ht Hd Hm He Hp Hplain. unfold undo, key, lift, mbind, io_mbind.
  unfold valid in Ht, Hd. rewrite Ht, Hd. cbn [keyed].
  rewrite mem_guard by eauto using manifest_at_Some.
  rewrite (mem_load t d w m) by done. cbn [authorize]. unfold mret, io_mret. rewrite He, Hp.
  rewrite (mem_verify t d w m) by done. by rewrite mem_save.
Qed.

Lemma mem_redo t d w m v :
  valid t → valid d → manifest_at w t d = Some m → m_head m ≠ m_latest m →
  redo_target (m_versions m) (m_head m) (m_latest m) = Some (Some v) → plain_version m v →
  redo clock sha256 read_graph_bundle (PStr t) (PStr d) None None w = (Ok v, saved w t d (with_head m v)).
Proof.
  intros Ht Hd Hm Hne Hv Hplain. unfold redo, key, lift, mbind, io_mbind.
  unfold valid in Ht, Hd. rewrite Ht, Hd. cbn [keyed].
  rewrite mem_guard by eauto using manifest_at_Some.
  rewrite (mem_load t d w m) by done. cbn [authorize]. unfold mret, io_mret.
  rewrite (proj2 (Z.eqb_neq _ _)) by done. rewrite Hv.
  rewrite (mem_verify t d w m) by done. by rewrite mem_save.
Qed.

(** In the legacy authority redo is the inverse of undo: when the head is on
    the chain of [latest] and parents are older versions, an undo returns the
    head's parent, the next redo returns the old head, and the manifest is back to
    what it was, version list, lock and fence counter included. *)
Theorem legacy_redo_inverts_undo t d w m e p :
  valid t → valid d → manifest_at w t d = Some m →
  StronglySorted (λ a b, ve_v a < ve_v b) (m_versions m) →
  find_version (m_versions m) (m_head m) = Some e → ve_parent e = Some p →
  plain_version m p → plain_version m (m_head m) →
  decreasing (legacy_parents (m_versions m)) →
  on_chain (legacy_parents (m_versions m)) (m_latest m) (m_head m) →
  let do_undo := undo clock sha256 read_graph_bundle (PStr t) (PStr d) None None in
  let do_redo := redo clock sha256 read_graph_bundle (PStr t) (PStr d) None None in
  let w1 := final do_undo w in
  outcome do_undo w = Ok p ∧ outcome do_redo w1 = Ok (m_head m) ∧
  manifest_at (final do_redo w1) t d = Some m.
Proof.
  intros Ht Hd Hm Hs He Hp Hplain Hplain' Hdec Hch do_undo do_redo w1.
  assert (Hu := mem_undo t d w m e p Ht Hd Hm He Hp Hplain).
  assert (Hpar : legacy_parents (m_versions m) (m_head m) = Some p).
  { apply find_version_elem in He as [Hin <-]. unfold legacy_parents. rewrite parent_of_find by done.
    simpl. done. }
  assert (Hw1 : w1 = saved w t d (with_head m p)) by (unfold w1, do_undo, final; by rewrite Hu).
  assert (Hr : redo clock sha256 read_graph_bundle (PStr t) (PStr d) None None w1 =
               (Ok (m_head m), saved w1 t d (with_head (with_head m p) (m_head m)))).
  { apply mem_redo; try done.
    - rewrite Hw1. apply saved_manifest.
    - simpl. apply on_chain_le in Hch; [|done]. apply Hdec in Hpar. lia.
    - simpl. by apply redo_walk_complete; [..|set_solver|apply (redo_target_fuel (m_versions m))]. }
  unfold do_undo, do_redo, outcome, final. rewrite Hu, Hr. cbn [fst snd].
  do 2 (split; [done|]). rewrite saved_manifest. by destruct m.
Qed.
End Memory.

Definition two_versions : manifest :=
  Manifest "acme" "roof" 2 2 [row_of 1 None; row_of 2 (Some 1)] None None.
Definition two_store : memory := saved empty_store "acme" "roof" two_versions.

Lemma legacy_redo_inverts_undo_witness :
  let do_undo := undo demo_clock demo_sha256 demo_read (PStr "acme") (PStr "roof") None None in
  let do_redo := redo demo_clock demo_sha256 demo_read (PStr "acme") (PStr "roof") None None in
  let w1 := final do_undo two_store in
  outcome do_undo two_store = Ok 1 ∧ outcome do_redo w1 = Ok 2 ∧
  manifest_at (final do_redo w1) "acme" "roof" = Some two_versions.
Proof.
  assert (Hplain : ∀ v, v = 1 ∨ v = 2 → plain_version two_versions v).
  { intros v [->| ->]; (split; [lia|]); eexists; split; reflexivity. }
  refine (legacy_redo_inverts_undo demo_clock demo_sha256 demo_read "acme" "roof" two_store two_versions
           (row_of 2 (Some 1)) 1 _ _ _ _ _ _ _ _ _ _).
  - reflexivity.
  - reflexivity.
  - apply saved_manifest.
  - repeat constructor.
  - reflexivity.
  - reflexivity.
  - auto.
  - auto.
  - intros c p. unfold legacy_parents, parent_of. simpl. repeat case_bool_decide; simpl; intros [=]; lia.
  - constructor.
Defined.
