(* ===== verification/FairGate.v ===== *)
(** * The fair ceiling gate

    [da/queue.py], the process-global gate of live submits: [fair_admit] tickets,
    the round-robin dispatcher, and the tenant-blind [admit] that draws from the
    same semaphore.  Every critical section under [_fair_lock] is one atomic
    operation; a release by [admit] returns its slot first and runs the
    dispatcher in a second section.  The ceiling is fixed (the code asks for it
    to change only while the gate is idle). *)

From S2P Require Import Prelude.
Local Open Scope nat_scope.

(** [max_concurrency]: [parsed] is [int(env)], [None] when that raises; an unset
    variable parses as 1. *)
Definition max_concurrency (parsed : option Z) : Z :=
  match parsed with Some n => Z.max 1 n | None => 1%Z end.

Definition ticket := nat.

Record gate := Gate {
  g_free : nat;                          (* the semaphore's value *)
  g_fifos : gmap string (list ticket);   (* _fair_fifos *)
  g_ring : list string;                  (* _fair_ring *)
  g_granted : list ticket;               (* tickets that own a slot *)
  g_legacy : nat;                        (* slots held by admit() *)
  g_owed : nat;                          (* admit() releases whose dispatch is still to run *)
  g_log : list string }.                 (* tenants granted, in order *)

Definition gate_init (ceiling : nat) : gate := Gate ceiling ∅ [] [] 0 0 [].

Definition g_waiting (g : gate) (tid : string) : list ticket := default [] (g_fifos g !! tid).

(** ** Operations under [_fair_lock] *)

(** [_fair_pick_locked]: the tenant and the ticket, with the new queues. *)
Fixpoint pick_loop (fuel : nat) (fifos : gmap string (list ticket)) (ring : list string)
  : option (string * ticket) * gmap string (list ticket) * list string :=
  match fuel, ring with
  | S fuel, tid :: ring' =>
      match fifos !! tid with
      | Some (t :: []) => (Some (tid, t), delete tid fifos, ring')
      | Some (t :: rest) => (Some (tid, t), <[tid := rest]> fifos, ring' ++ [tid])
      | _ => pick_loop fuel (delete tid fifos) ring'
      end
  | _, _ => (None, fifos, ring)
  end.
(** [while ring and checked <= n]: at most [n + 1] rounds. *)
Definition _fair_pick_locked (fifos : gmap string (list ticket)) (ring : list string) :=
  pick_loop (S (length ring)) fifos ring.

(** [_fair_dispatch_locked]: every round takes a slot, so [g_free + 1] rounds are
    enough. *)
Fixpoint dispatch_loop (fuel : nat) (g : gate) : gate :=
  match fuel with
  | O => g
  | S fuel =>
      if decide (g_fifos g = ∅) then g
      else match g_free g with
           | O => g
           | S free =>
               match _fair_pick_locked (g_fifos g) (g_ring g) with
               | (Some (tid, t), fifos, ring) =>
                   dispatch_loop fuel
                     (Gate free fifos ring (g_granted g ++ [t]) (g_legacy g) (g_owed g) (g_log g ++ [tid]))
               | (None, fifos, ring) =>
                   Gate (g_free g) fifos ring (g_granted g) (g_legacy g) (g_owed g) (g_log g)
               end
           end
  end.
Definition _fair_dispatch_locked (g : gate) : gate := dispatch_loop (S (g_free g)) g.

(** [_fair_drop_tenant_locked]. *)
Fixpoint remove_first (tid : string) (ring : list string) : list string :=
  match ring with
  | [] => []
  | x :: ring => if decide (x = tid) then ring else x :: remove_first tid ring
  end.
Definition _fair_drop_tenant_locked (tid : string) (g : gate) : gate :=
  Gate (g_free g) (delete tid (g_fifos g)) (remove_first tid (g_ring g))
       (g_granted g) (g_legacy g) (g_owed g) (g_log g).

(** [fair_pending]: the queue depth. *)
Definition fair_pending (g : gate) : nat := map_fold (λ _ q n, length q + n) 0 (g_fifos g).

(** The first section of [fair_admit]: enter the tenant's FIFO and dispatch. *)
Definition fair_register (key : string) (t : ticket) (g : gate) : gate :=
  let '(fifo, ring) := match g_fifos g !! key with
                       | Some q => (q, g_ring g)
                       | None => ([], g_ring g ++ [key])
                       end in
  _fair_dispatch_locked
    (Gate (g_free g) (<[key := fifo ++ [t]]> (g_fifos g)) ring
       (g_granted g) (g_legacy g) (g_owed g) (g_log g)).

(** Giving a granted slot back and dispatching: the end of [fair_admit], and its
    timeout branch when the ticket was granted in the race. *)
Definition fair_release (t : ticket) (g : gate) : gate :=
  _fair_dispatch_locked
    (Gate (S (g_free g)) (g_fifos g) (g_ring g) (filter (λ x, x ≠ t) (g_granted g))
       (g_legacy g) (g_owed g) (g_log g)).

(** The timeout branch of a ticket that is still waiting. *)
Definition fair_timeout (key : string) (t : ticket) (g : gate) : gate :=
  match g_fifos g !! key with
  | None => g
  | Some q =>
      let q' := filter (λ x, x ≠ t) q in
      let g' := Gate (g_free g) (<[key := q']> (g_fifos g)) (g_ring g)
                  (g_granted g) (g_legacy g) (g_owed g) (g_log g) in
      if decide (q' = []) then _fair_drop_tenant_locked key g' else g'
  end.

(** [admit]: the semaphore directly, then on leaving the slot back and a
    dispatch. *)
Definition admit_acquire (g : gate) : option gate :=
  match g_free g with
  | O => None
  | S free => Some (Gate free (g_fifos g) (g_ring g) (g_granted g) (S (g_legacy g)) (g_owed g) (g_log g))
  end.
Definition admit_release (g : gate) : gate :=
  Gate (S (g_free g)) (g_fifos g) (g_ring g) (g_granted g) (pred (g_legacy g)) (S (g_owed g)) (g_log g).
Definition admit_dispatch (g : gate) : gate :=
  let g' := _fair_dispatch_locked g in
  Gate (g_free g') (g_fifos g') (g_ring g') (g_granted g') (g_legacy g') (pred (g_owed g')) (g_log g').

(** ** The threads *)

Definition waits (g : gate) (t : ticket) : Prop := ∃ key q, g_fifos g !! key = Some q ∧ t ∈ q.

Inductive gate_step (g : gate) : gate → Prop :=
| gs_register key t : ¬ waits g t → t ∉ g_granted g → gate_step g (fair_register key t g)
| gs_release t : t ∈ g_granted g → gate_step g (fair_release t g)
| gs_timeout key t : t ∈ g_waiting g key → gate_step g (fair_timeout key t g)
| gs_admit g' : admit_acquire g = Some g' → gate_step g g'
| gs_admit_release : 0 < g_legacy g → gate_step g (admit_release g)
| gs_admit_dispatch : 0 < g_owed g → gate_step g (admit_dispatch g).

(** ** Invariants *)

(** The ring holds exactly the tenants with a non-empty FIFO, each once. *)
Record queues_ok (fifos : gmap string (list ticket)) (ring : list string) : Prop := {
  q_nodup : NoDup ring;
  q_ring : ∀ tid, tid ∈ ring ↔ is_Some (fifos !! tid);
  q_nonempty : ∀ tid q, fifos !! tid = Some q → q ≠ [] }.

Lemma queues_pop fifos tid ring :
  queues_ok fifos (tid :: ring) → ∃ t rest, fifos !! tid = Some (t :: rest).
Proof.
  intros []. destruct (proj1 (q_ring0 tid)) as [q Hq]; [set_solver|].
  destruct q as [|t rest]; [by apply q_nonempty0 in Hq|eauto].
Qed.

(** What a pick does: the head of the ring is served and goes to the back if it
    has more tickets. *)
Lemma pick_spec fifos tid ring :
  queues_ok fifos (tid :: ring) →
  ∃ t rest, fifos !! tid = Some (t :: rest) ∧
    _fair_pick_locked fifos (tid :: ring) =
      (Some (tid, t),
       match rest with [] => delete tid fifos | _ => <[tid := rest]> fifos end,
       match rest with [] => ring | _ => ring ++ [tid] end) ∧
    queues_ok (match rest with [] => delete tid fifos | _ => <[tid := rest]> fifos end)
              (match rest with [] => ring | _ => ring ++ [tid] end).
Proof.
  intros Hok. destruct (queues_pop _ _ _ Hok) as (t & rest & Hq). destruct Hok as [Hnd Hr Hne].
  exists t, rest. split; [done|]. unfold _fair_pick_locked. cbn [pick_loop length]. rewrite Hq.
  apply NoDup_cons in Hnd as [Hni Hnd].
  destruct rest as [|t' rest]; (split; [done|]); split.
  - done.
  - intros x. destruct (decide (x = tid)) as [->|Hx].
    + rewrite lookup_delete_eq. split; [done|by intros []].
    + rewrite lookup_delete_ne by done. rewrite <- Hr. set_solver.
  - intros x q [_ Hx]%lookup_delete_Some. by eapply Hne.
  - apply NoDup_app. split; [done|]. split; [set_solver|apply NoDup_singleton].
  - intros x. destruct (decide (x = tid)) as [->|Hx].
    + rewrite lookup_insert_eq. split; [by eexists|set_solver].
    + rewrite lookup_insert_ne by done. rewrite <- Hr. set_solver.
  - intros x q [[<- <-]|[_ Hx]]%lookup_insert_Some; [done|by eapply Hne].
Qed.

(** No ticket is in two places. *)
Record tickets_ok (fifos : gmap string (list ticket)) (granted : list ticket) : Prop := {
  t_granted : NoDup granted;
  t_fifo : ∀ key q, fifos !! key = Some q → NoDup q;
  t_waiting : ∀ key q t, fifos !! key = Some q → t ∈ q → t ∉ granted;
  t_unique : ∀ k1 q1 k2 q2 t, fifos !! k1 = Some q1 → fifos !! k2 = Some q2 →
    t ∈ q1 → t ∈ q2 → k1 = k2 }.

Lemma tickets_grant fifos granted tid t rest :
  tickets_ok fifos granted → fifos !! tid = Some (t :: rest) →
  tickets_ok (match rest with [] => delete tid fifos | _ => <[tid := rest]> fifos end) (granted ++ [t]).
Proof.
  intros [Hg Hf Hw Hu] Hq.
  assert (Hsub : ∀ key q, match rest with [] => delete tid fifos | _ => <[tid := rest]> fifos end !! key = Some q →
    ∃ q0, fifos !! key = Some q0 ∧ (∀ x, x ∈ q → x ∈ q0) ∧ NoDup q ∧ t ∉ q).
  { intros key q Hk. specialize (Hf tid _ Hq) as Hnd. apply NoDup_cons in Hnd as [Hni Hnd].
    destruct (decide (key = tid)) as [->|Hne].
    - destruct rest as [|t' rest]; [by rewrite lookup_delete_eq in Hk|].
      rewrite lookup_insert_eq in Hk. injection Hk as <-. exists (t :: t' :: rest). set_solver.
    - assert (Hk' : fifos !! key = Some q)
        by (destruct rest; [by rewrite lookup_delete_ne in Hk|by rewrite lookup_insert_ne in Hk]).
      exists q. do 2 (split; [done|]). split; [by eapply Hf|]. intros Ht. apply Hne.
      eapply (Hu key q tid); try done. set_solver. }
  split.
  - apply NoDup_app. split; [done|]. split; [|apply NoDup_singleton].
    intros x Hx ->%list_elem_of_singleton. eapply (Hw tid _ t); [done| |done]. set_solver.
  - intros key q (q0 & _ & _ & Hnd & _)%Hsub. done.
  - intros key q x (q0 & Hq0 & Hin & _ & Ht)%Hsub Hx. rewrite elem_of_app, list_elem_of_singleton.
    intros [Hg'| ->]; [|done]. by eapply (Hw key q0); [|apply Hin|].
  - intros k1 q1 k2 q2 x (q0 & Hq0 & Hin & _)%Hsub (q0' & Hq0' & Hin' & _)%Hsub Hx1 Hx2.
    eapply (Hu k1 q0 k2 q0'); eauto.
Qed.

(** Tenant [a], waiting in [ring] behind [ahead] others. *)
Definition behind (ring : list string) (a : string) (ahead : nat) : Prop :=
  ∃ pre post, ring = pre ++ a :: post ∧ length pre = ahead.

Lemma behind_in ring a n : behind ring a n → a ∈ ring.
Proof. intros (pre & post & -> & _). set_solver. Qed.

Lemma behind_app ring a n l : behind ring a n → behind (ring ++ l) a n.
Proof. intros (pre & post & -> & Hl). exists pre, (post ++ l). by rewrite <- app_assoc. Qed.

(** Bounded bypass: [a] was granted, or left, or has moved up by at least the
    number of grants made. *)
Definition moves_up (a : string) (g g' : gate) : Prop :=
  ∀ n, behind (g_ring g) a n →
  ∃ served, g_log g' = g_log g ++ served ∧
    (a ∈ served ∨ a ∉ g_ring g' ∨ ∃ n', behind (g_ring g') a n' ∧ length served + n' ≤ n).

Record gate_core (N : nat) (g : gate) : Prop := {
  c_slots : g_free g + length (g_granted g) + g_legacy g = N;
  c_queues : queues_ok (g_fifos g) (g_ring g);
  c_tickets : tickets_ok (g_fifos g) (g_granted g) }.

(** One round of the dispatcher. *)
Definition grant_one (g : gate) (free : nat) (tid : string) (t : ticket) fifos ring : gate :=
  Gate free fifos ring (g_granted g ++ [t]) (g_legacy g) (g_owed g) (g_log g ++ [tid]).

Lemma grant_one_core N g free tid ring :
  gate_core N g → g_free g = S free → g_ring g = tid :: ring →
  ∃ t fifos' ring', _fair_pick_locked (g_fifos g) (g_ring g) = (Some (tid, t), fifos', ring') ∧
    gate_core N (grant_one g free tid t fifos' ring') ∧
    (∀ a n, behind (g_ring g) a n → a ≠ tid → ∃ n', n = S n' ∧ behind ring' a n').
Proof.
  intros [Hs Hq Ht] Hfree Hring. rewrite Hring in *.
  destruct (pick_spec _ _ _ Hq) as (t & rest & Hf & Hpick & Hq').
  eexists t, _, _. split; [exact Hpick|]. split.
  - split; [|exact Hq'|by apply tickets_grant]. simpl. rewrite length_app. simpl. lia.
  - intros a n (pre & post & Heq & Hl) Hne. destruct pre as [|x pre]; simplify_eq/=.
    exists (length pre). split; [done|]. destruct rest; [by exists pre, post|].
    apply behind_app. by exists pre, post.
Qed.

Lemma dispatch_loop_log fuel g : ∃ served, g_log (dispatch_loop fuel g) = g_log g ++ served.
Proof.
  revert g. induction fuel as [|fuel IH]; intros g; cbn [dispatch_loop]; [exists []; by rewrite app_nil_r|].
  destruct (decide _); [exists []; by rewrite app_nil_r|].
  destruct (g_free g) as [|free]; [exists []; by rewrite app_nil_r|].
  destruct (_fair_pick_locked _ _) as [[[[x y]|] f] r]; [|exists []; by rewrite app_nil_r].
  destruct (IH (Gate free f r (g_granted g ++ [y]) (g_legacy g) (g_owed g) (g_log g ++ [x]))) as [sv ->].
  exists (x :: sv). simpl. by rewrite <- app_assoc.
Qed.

Lemma moves_up_refl a g : moves_up a g g.
Proof. intros n Hn. exists []. rewrite app_nil_r. split; [done|]. right; right. by exists n. Qed.

Lemma dispatch_loop_spec N fuel g :
  g_free g < fuel → gate_core N g →
  let g' := dispatch_loop fuel g in
  gate_core N g' ∧ (g_free g' = 0 ∨ g_fifos g' = ∅) ∧ g_owed g' = g_owed g ∧ g_legacy g' = g_legacy g ∧
  ∀ a, moves_up a g g'.
Proof.
  revert g. induction fuel as [|fuel IH]; intros g Hfuel Hc g'; [lia|]. subst g'. cbn [dispatch_loop].
  destruct (decide (g_fifos g = ∅)) as [He|He]; [by auto using moves_up_refl|].
  destruct (g_free g) as [|free] eqn:Efree; [by auto using moves_up_refl|].
  destruct (g_ring g) as [|tid ring] eqn:Ering.
  { exfalso. apply He, map_empty. intros k. destruct (g_fifos g !! k) eqn:E; [|done].
    destruct Hc as [_ [_ Hr _] _]. assert (k ∈ g_ring g) by (apply Hr; by eexists). rewrite Ering in *. set_solver. }
  destruct (grant_one_core N g free tid ring Hc Efree Ering) as (t & fifos' & ring' & Hpick & Hc' & Hup).
  rewrite <- Ering, Hpick. fold (grant_one g free tid t fifos' ring').
  set (g1 := grant_one g free tid t fifos' ring') in *.
  destruct (IH g1) as (H1 & H2 & H3 & H4 & H5); [simpl; lia|done|].
  do 4 (split; [done|]). intros a n Hn. destruct (decide (a = tid)) as [->|Hne].
  - destruct (dispatch_loop_log fuel g1) as [served ->]. exists (tid :: served).
    split; [simpl; by rewrite <- app_assoc|]. left. set_solver.
  - destruct (Hup a n Hn Hne) as (n' & -> & Hn'). destruct (H5 a n' Hn') as (served & -> & Hcase).
    exists (tid :: served). split; [simpl; by rewrite <- app_assoc|].
    destruct Hcase as [?|[?|(n'' & ? & ?)]]; [left; set_solver|by right; left|].
    right; right. exists n''. split; [done|simpl; lia].
Qed.

Lemma dispatch_spec N g :
  gate_core N g →
  let g' := _fair_dispatch_locked g in
  gate_core N g' ∧ (g_free g' = 0 ∨ g_fifos g' = ∅) ∧ g_owed g' = g_owed g ∧ g_legacy g' = g_legacy g ∧
  ∀ a, moves_up a g g'.
Proof. apply dispatch_loop_spec. lia. Qed.

(** ** Each operation *)

Definition enqueue (key : string) (t : ticket) (g : gate) : gate :=
  Gate (g_free g) (<[key := g_waiting g key ++ [t]]> (g_fifos g))
    (match g_fifos g !! key with Some _ => g_ring g | None => g_ring g ++ [key] end)
    (g_granted g) (g_legacy g) (g_owed g) (g_log g).

Lemma fair_register_enqueue key t g : fair_register key t g = _fair_dispatch_locked (enqueue key t g).
Proof. unfold fair_register, enqueue, g_waiting. by destruct (g_fifos g !! key). Qed.

Lemma enqueue_core N key t g :
  gate_core N g → ¬ waits g t → t ∉ g_granted g → gate_core N (enqueue key t g).
Proof.
  intros [Hs [Hnd Hr Hne] [Hg Hf Hw Hu]] Hnw Hng.
  assert (Hold : ∀ x, x ∈ g_waiting g key → ∃ q, g_fifos g !! key = Some q ∧ x ∈ q).
  { unfold g_waiting. intros x. destruct (g_fifos g !! key) as [q|]; [eauto|set_solver]. }
  assert (Ht : ∀ k q, g_fifos g !! k = Some q → t ∉ q) by (intros k q Hk Hin; apply Hnw; by exists k, q).
  split; [done| |]; simpl; split.
  - destruct (g_fifos g !! key) as [q|] eqn:E; [done|]. apply NoDup_app. split; [done|].
    split; [|apply NoDup_singleton]. intros x Hx ->%list_elem_of_singleton.
    apply Hr in Hx as [? ?]. congruence.
  - intros x. rewrite lookup_insert_is_Some'. destruct (g_fifos g !! key) as [q|] eqn:E.
    + rewrite Hr. split; [auto|intros [<-|?]; [by eexists|done]].
    + rewrite elem_of_app, Hr, list_elem_of_singleton. naive_solver.
  - intros x q [[<- <-]|[_ Hx]]%lookup_insert_Some; [by destruct (g_waiting g key)|by eapply Hne].
  - done.
  - intros x q [[<- <-]|[_ Hx]]%lookup_insert_Some; [|by eapply Hf].
    apply NoDup_app. unfold g_waiting. destruct (g_fifos g !! key) as [q|] eqn:E; simpl.
    + split; [by eapply Hf|]. split; [|apply NoDup_singleton]. intros y Hy ->%list_elem_of_singleton. by apply Ht in E.
    + split; [constructor|]. split; [set_solver|apply NoDup_singleton].
  - intros x q y [[<- <-]|[_ Hx]]%lookup_insert_Some; [|by apply (Hw x)].
    rewrite elem_of_app, list_elem_of_singleton. intros [(q & Hq & Hy)%Hold| ->]; [by eapply (Hw key)|done].
  - assert (Haux : ∀ k q y, <[key:=g_waiting g key ++ [t]]> (g_fifos g) !! k = Some q → y ∈ q →
      (y = t ∧ k = key) ∨ ∃ q0, g_fifos g !! k = Some q0 ∧ y ∈ q0).
    { intros k q y [[<- <-]|[_ Hk]]%lookup_insert_Some Hy; [|eauto].
      apply elem_of_app in Hy as [(q & ? & ?)%Hold| ->%list_elem_of_singleton]; eauto. }
    intros k1 q1 k2 q2 y Hk1 Hk2 Hy1 Hy2.
    destruct (Haux k1 q1 y Hk1 Hy1) as [[E1 ->]|(q & Hq & Hin)], (Haux k2 q2 y Hk2 Hy2) as [[E2 ->]|(q' & Hq' & Hin')].
    + done.
    + subst y. by apply Ht in Hq'.
    + subst y. by apply Ht in Hq.
    + by eapply (Hu k1 q k2 q').
Qed.

Lemma filter_one (l : list ticket) t :
  NoDup l → t ∈ l → S (length (filter (λ x, x ≠ t) l)) = length l.
Proof.
  induction l as [|x l IH]; intros Hnd Hin; [set_solver|]. apply NoDup_cons in Hnd as [Hni Hnd].
  rewrite filter_cons. destruct (decide (x ≠ t)) as [Hne|Heq]; simpl.
  - rewrite IH; [done..|set_solver].
  - apply dec_stable in Heq. subst x. f_equal. clear IH Hnd Hin. induction l as [|y l IH]; [done|].
    rewrite filter_cons, decide_True by set_solver. simpl. f_equal. apply IH. set_solver.
Qed.

(** A slot is handed back. *)
Definition give_back (t : ticket) (g : gate) : gate :=
  Gate (S (g_free g)) (g_fifos g) (g_ring g) (filter (λ x, x ≠ t) (g_granted g))
    (g_legacy g) (g_owed g) (g_log g).

Lemma give_back_core N t g : gate_core N g → t ∈ g_granted g → gate_core N (give_back t g).
Proof.
  intros [Hs Hq [Hg Hf Hw Hu]] Ht. split; simpl; [|done|].
  - pose proof (filter_one (g_granted g) t Hg Ht). lia.
  - split; [by apply NoDup_filter|done| |done]. intros key q x Hk Hx. rewrite list_elem_of_filter.
    intros [_ Hin]. by eapply (Hw key).
Qed.

Lemma remove_first_elem tid ring x : NoDup ring → x ∈ remove_first tid ring ↔ x ∈ ring ∧ x ≠ tid.
Proof.
  induction ring as [|y ring IH]; intros Hnd; simpl; [set_solver|]. apply NoDup_cons in Hnd as [Hni Hnd].
  destruct (decide (y = tid)) as [->|Hne].
  - split; [intros Hx; split; [set_solver|by intros ->]|set_solver].
  - rewrite !elem_of_cons, IH by done. naive_solver.
Qed.

Lemma remove_first_nodup tid ring : NoDup ring → NoDup (remove_first tid ring).
Proof.
  induction ring as [|y ring IH]; intros Hnd; simpl; [done|]. apply NoDup_cons in Hnd as [Hni Hnd].
  destruct (decide (y = tid)); [done|]. apply NoDup_cons. split; [|auto].
  rewrite remove_first_elem by done. naive_solver.
Qed.

Lemma remove_first_behind tid ring a n :
  behind ring a n → a ≠ tid → ∃ n', behind (remove_first tid ring) a n' ∧ n' ≤ n.
Proof.
  intros (pre & post & -> & <-) Hne. induction pre as [|y pre IH]; simpl.
  - rewrite decide_False by done. exists 0. split; [by exists [], (remove_first tid post)|lia].
  - destruct (decide (y = tid)) as [->|Hy].
    + exists (length pre). split; [by exists pre, post|lia].
    + destruct IH as (n' & (pre' & post' & -> & <-) & Hle). exists (S (length pre')).
      split; [by exists (y :: pre'), post'|lia].
Qed.

Lemma timeout_core N key t g :
  gate_core N g → gate_core N (fair_timeout key t g) ∧ ∀ a, moves_up a g (fair_timeout key t g).
Proof.
  intros Hc. unfold fair_timeout. destruct (g_fifos g !! key) as [q|] eqn:Eq; [|by auto using moves_up_refl].
  destruct Hc as [Hs [Hnd Hr Hne] [Hg Hf Hw Hu]]. set (q' := filter _ q).
  assert (Hsub : ∀ x, x ∈ q' → x ∈ q) by (unfold q'; intros x; rewrite list_elem_of_filter; tauto).
  assert (Ht : ∀ fifos, (∀ k z, fifos !! k = Some z → ∃ z0, g_fifos g !! k = Some z0 ∧
      (∀ x, x ∈ z → x ∈ z0) ∧ NoDup z) → tickets_ok fifos (g_granted g)).
  { intros fifos H. split; [done|..].
    - intros k z (z0 & _ & _ & ?)%H. done.
    - intros k z x (z0 & Hz & Hin & _)%H Hx. by apply (Hw k z0), Hin.
    - intros k1 z1 k2 z2 x (z & Hz & Hin & _)%H (z' & Hz' & Hin' & _)%H ? ?. apply (Hu k1 z k2 z' x); auto. }
  assert (Hins : ∀ k z, <[key := q']> (g_fifos g) !! k = Some z → ∃ z0, g_fifos g !! k = Some z0 ∧
      (∀ x, x ∈ z → x ∈ z0) ∧ NoDup z).
  { intros k z [[<- <-]|[_ Hk]]%lookup_insert_Some; [|exists z; eauto].
    exists q. split; [done|]. split; [done|]. apply NoDup_filter. by eapply Hf. }
  destruct (decide (q' = [])) as [He|He].
  - unfold _fair_drop_tenant_locked. cbn [g_free g_fifos g_ring g_granted g_legacy g_owed g_log].
    rewrite delete_insert_eq. split; [split; [done| |]|].
    + split; cbn [g_ring g_fifos].
      * by apply remove_first_nodup.
      * intros x. rewrite remove_first_elem, lookup_delete_is_Some, Hr by done. naive_solver.
      * intros x z [_ Hx]%lookup_delete_Some. by eapply Hne.
    + apply Ht. cbn [g_fifos]. intros k z [_ Hk]%lookup_delete_Some. exists z. eauto.
    + intros a n Hn. exists []. simpl. rewrite app_nil_r. split; [done|]. right.
      destruct (decide (a = key)) as [->|Hak]; [left; rewrite remove_first_elem by done; tauto|right].
      destruct (remove_first_behind key (g_ring g) a n) as (n' & ? & ?); [done..|]. by exists n'.
  - split; [split; [done| |]|].
    + split; simpl.
      * done.
      * intros x. rewrite lookup_insert_is_Some', Hr. split; [auto|intros [<-|?]; [by eexists|done]].
      * intros x z [[<- <-]|[_ Hx]]%lookup_insert_Some; [done|by eapply Hne].
    + by apply Ht.
    + intros a n Hn. exists []. simpl. rewrite app_nil_r. split; [done|]. right; right. by exists n.
Qed.

(** ** Invariant of the gate *)

Record gate_ok (N : nat) (g : gate) : Prop := {
  k_core : gate_core N g;
  (** work conservation: with a slot free, tickets wait only while the dispatch
      of an [admit] release is about to run *)
  k_work : g_free g = 0 ∨ g_fifos g = ∅ ∨ 0 < g_owed g }.

Lemma moves_up_enqueue a key t g g' : moves_up a (enqueue key t g) g' → moves_up a g g'.
Proof.
  intros H n Hn. apply H. simpl. destruct (g_fifos g !! key); [done|by apply behind_app].
Qed.

Lemma gate_step_ok N g g' :
  gate_ok N g → gate_step g g' → gate_ok N g' ∧ ∀ a, moves_up a g g'.
Proof.
  intros [Hc Hw]. destruct 1 as [key t Hnw Hng|t Ht|key t Ht|g' Ha|Hl|Ho].
  - rewrite fair_register_enqueue.
    destruct (dispatch_spec N (enqueue key t g)) as (H1 & H2 & H3 & _ & H5); [by apply enqueue_core|].
    split; [split; [done|tauto]|]. intros a. eapply moves_up_enqueue, H5.
  - destruct (dispatch_spec N (give_back t g)) as (H1 & H2 & H3 & _ & H5); [by apply give_back_core|].
    split; [split; [done|tauto]|]. exact H5.
  - destruct (timeout_core N key t g Hc) as [H1 H2]. split; [|done]. split; [done|].
    unfold fair_timeout in *. unfold g_waiting in Ht. destruct (g_fifos g !! key) as [q|] eqn:Eq; [|set_solver].
    destruct Hw as [?|[Hw|?]]; [left|by rewrite Hw in Eq|right; right]; by destruct (decide _).
  - unfold admit_acquire in Ha. destruct (g_free g) as [|free] eqn:Ef; [done|]. injection Ha as <-.
    split; [split|].
    + destruct Hc. split; simpl; [lia|done|done].
    + simpl. destruct Hw as [?|[?|?]]; [lia|auto|auto].
    + intros a n Hn. exists []. simpl. rewrite app_nil_r. split; [done|]. right; right. by exists n.
  - split; [split|].
    + destruct Hc. split; simpl; [lia|done|done].
    + right; right. simpl. lia.
    + intros a n Hn. exists []. simpl. rewrite app_nil_r. split; [done|]. right; right. by exists n.
  - destruct (dispatch_spec N g Hc) as (H1 & H2 & H3 & _ & H5). split; [split|].
    + unfold admit_dispatch. destruct H1. by split.
    + simpl. tauto.
    + exact H5.
Qed.

Lemma gate_init_ok N : gate_ok N (gate_init N).
Proof.
  split; [split; simpl; [lia|split|split]|by right; left]; simpl; intros *; rewrite ?lookup_empty; try done.
  - constructor.
  - split; [set_solver|by intros []].
  - constructor.
Qed.

Definition gate_reachable (N : nat) (g : gate) : Prop := star gate_step (gate_init N) g.

Lemma gate_reachable_ok N g : gate_reachable N g → gate_ok N g.
Proof.
  intros H. eapply (star_invariant gate_step (gate_ok N)); [|exact H|apply gate_init_ok].
  intros x y Hx Hs. by destruct (gate_step_ok N x y Hx Hs).
Qed.

(** ** Guarantees *)

(** The ceiling holds.  In every reachable state, whatever mixes of
    [fair_admit] and [admit] callers ran, timed out or left, the slots in use and
    the free ones add up to the ceiling, so at most [N] submits are in flight; no
    ticket owns two slots, and none both waits and holds one. *)
Theorem fair_gate_ceiling N g :
  gate_reachable N g →
  length (g_granted g) + g_legacy g + g_free g = N ∧ NoDup (g_granted g) ∧
  ∀ t, t ∈ g_granted g → ¬ waits g t.
Proof.
  intros [[Hs Hq [Hg Hf Hw Hu]] _]%gate_reachable_ok. split; [lia|]. split; [done|].
  intros t Ht (key & q & Hk & Hin). by eapply Hw.
Qed.

(** No slot idles while someone waits.  If a slot is free and no [admit]
    release is between returning its slot and running the dispatcher, then no
    ticket is waiting: the lost wake-up of a tenant-blind release cannot happen. *)
Theorem fair_gate_work_conserving N g :
  gate_reachable N g → 0 < g_free g → g_owed g = 0 → ∀ t, ¬ waits g t.
Proof.
  intros [_ Hw]%gate_reachable_ok Hfree Howed t (key & q & Hk & _).
  destruct Hw as [?|[Hw|?]]; [lia|by rewrite Hw in Hk|lia].
Qed.

(** Steps during which tenant [a] keeps waiting and is not served. *)
Definition waiting_step (a : string) (g g' : gate) : Prop :=
  gate_step g g' ∧ a ∈ g_ring g' ∧ ∀ served, g_log g' = g_log g ++ served → a ∉ served.

(** Bounded bypass: while a tenant waits with [n] tenants ahead of it in the
    ring, at most [n] grants are made to anyone before it is its turn, however
    many tickets the others register, release or time out in the meantime. *)
Theorem fair_gate_bounded_bypass N g g' a n :
  gate_reachable N g → behind (g_ring g) a n → star (waiting_step a) g g' →
  ∃ served n', g_log g' = g_log g ++ served ∧ behind (g_ring g') a n' ∧ length served + n' ≤ n.
Proof.
  intros Hok%gate_reachable_ok Hn Hrun. revert n Hn.
  induction Hrun as [g|g g1 g2 (Hstep & Hin & Hnot) _ IH]; intros n Hn.
  { exists [], n. by rewrite app_nil_r. }
  destruct (gate_step_ok N g g1 Hok Hstep) as [Hok1 Hup].
  destruct (Hup a n Hn) as (served & Hlog & [Hs|[Hs|(n1 & Hn1 & Hle)]]);
    [by apply Hnot in Hlog|done|].
  destruct (IH Hok1 n1 Hn1) as (served' & n' & Hlog' & Hn' & Hle').
  exists (served ++ served'), n'. split; [by rewrite Hlog', Hlog, app_assoc|]. split; [done|].
  rewrite length_app. lia.
Qed.

(** ** Instances: ceiling 1, a busy tenant and a small one *)

Definition g1 : gate := fair_register "busy" 1 (gate_init 1).
Definition g2 : gate := fair_register "busy" 2 g1.
Definition g3 : gate := fair_register "small" 3 g2.
Definition g4 : gate := fair_register "busy" 4 g3.
Definition g5 : gate := fair_release 1 g4.
Definition g6 : gate := fair_release 2 g5.

Lemma not_waits g t : Forall (λ kv : string * list ticket, t ∉ kv.2) (map_to_list (g_fifos g)) → ¬ waits g t.
Proof.
  rewrite Forall_forall. intros H (key & q & Hk & Hin). by apply (H (key, q)); [apply elem_of_map_to_list|].
Qed.

Lemma not_waits_dec g t :
  forallb (λ kv : string * list ticket, bool_decide (t ∉ kv.2)) (map_to_list (g_fifos g)) = true → ¬ waits g t.
Proof.
  intros H. apply not_waits, Forall_forall. intros kv Hkv. rewrite forallb_forall in H.
  apply list_elem_of_In, H in Hkv. by apply bool_decide_eq_true in Hkv.
Qed.

Ltac register_step key t := eapply star_step; [apply (gs_register _ key t)|];
  [apply not_waits_dec; vm_compute; reflexivity | apply (bool_decide_unpack _); vm_compute; exact I |].

Lemma g4_reachable : gate_reachable 1 g4.
Proof.
  register_step "busy"%string 1. register_step "busy"%string 2.
  register_step "small"%string 3. register_step "busy"%string 4. apply star_refl.
Qed.

Lemma fair_gate_ceiling_witness :
  length (g_granted g4) + g_legacy g4 + g_free g4 = 1 ∧ g_granted g4 = [1].
Proof.
  split; [|vm_compute; reflexivity]. exact (proj1 (fair_gate_ceiling 1 g4 g4_reachable)).
Defined.

Lemma fair_gate_work_conserving_witness : 0 < g_free (gate_init 3) ∧ ¬ waits (gate_init 3) 7.
Proof.
  split; [vm_compute; lia|]. apply (fair_gate_work_conserving 3).
  - apply star_refl.
  - vm_compute; lia.
  - reflexivity.
Defined.

(** The small tenant registered behind the busy one; exactly one busy ticket is
    served before it. *)
Lemma fair_gate_bounded_bypass_witness :
  behind (g_ring g4) "small" 1 ∧ g_log g6 = ["busy"; "busy"; "small"]%string ∧
  ∃ served n', g_log g5 = g_log g4 ++ served ∧ behind (g_ring g5) "small" n' ∧ length served + n' ≤ 1.
Proof.
  assert (Hb : behind (g_ring g4) "small" 1) by (exists ["busy"%string], []; split; vm_compute; reflexivity).
  split; [exact Hb|]. split; [vm_compute; reflexivity|].
  apply (fair_gate_bounded_bypass 1 g4 g5 "small" 1 g4_reachable Hb).
  apply star_one. split; [|split].
  - apply gs_release. apply (bool_decide_unpack _); vm_compute; exact I.
  - apply (bool_decide_unpack _); vm_compute; exact I.
  - intros served Hs. assert (Heq : g_log g5 = g_log g4 ++ ["busy"%string]) by (vm_compute; reflexivity).
    rewrite Heq in Hs. apply app_inv_head in Hs. subst served. apply (bool_decide_unpack _); vm_compute; exact I.
Defined.
