(* ===== verification/FairQueue.v ===== *)
(** * The batch queue

    [FairQueue] of [da/queue.py]: per-tenant FIFOs, a round-robin ring and a pool
    of workers that share a semaphore.  A worker's loop is split at the points
    where it gives up a lock: take the semaphore, pick under the lock, finish
    under the lock, give the semaphore back. *)

From S2P Require Import Prelude TenantIds.
Local Open Scope nat_scope.

Inductive status := Queued | Submitted | InProgress | Complete | Failed.
Inductive event := EvDispatch | EvComplete.
#[export] Instance event_eq_dec : EqDecision event.
Proof. solve_decision. Defined.

(** Where a worker thread stands: [WPicked] is between the pick and the status
    write that follows it outside the lock, [WFinished] is after its job's bookkeeping and
    before the semaphore release. *)
Inductive wpc := WIdle | WHasSem | WPicked (jid : string) | WRunning (jid : string) | WFinished | WExited.

Record fq := FQ {
  fq_fifos : gmap string (list string);
  fq_ring : list string;
  fq_jobs : gmap string (string * status);       (* job_id -> tenant, status *)
  fq_sem : nat;
  fq_inflight : nat;
  fq_max : nat;
  fq_log : list (event * string * string);       (* event, tenant, job *)
  fq_workers : list wpc }.

Definition fq_init (ceiling : nat) : fq := FQ ∅ [] ∅ ceiling 0 0 [] [].

(** The constructor refuses a ceiling below one. *)
Definition fq_new (ceiling : Z) : option fq :=
  if (ceiling <? 1)%Z then None else Some (fq_init (Z.to_nat ceiling)).

(** [enqueue], with the job id it was given or generated. *)
Definition enqueue (tenant_id : pyarg) (jid : string) (s : fq) : result id_error fq :=
  tid ← Tenant.validate_tenant_id tenant_id;
  let '(fifo, ring) := match fq_fifos s !! tid with
                       | Some q => (q, fq_ring s)
                       | None => ([], fq_ring s ++ [tid])
                       end in
  Ok (FQ (<[tid := fifo ++ [jid]]> (fq_fifos s)) ring (<[jid := (tid, Queued)]> (fq_jobs s))
        (fq_sem s) (fq_inflight s) (fq_max s) (fq_log s) (fq_workers s)).

Definition pending (s : fq) : nat := map_fold (λ _ q n, length q + n) 0 (fq_fifos s).

(** [_next_job_id]: the tenant and job picked, with the new queues.  A drained
    tenant keeps its (empty) FIFO. *)
Fixpoint next_loop (fuel : nat) (fifos : gmap string (list string)) (ring : list string)
  : option (string * string) * gmap string (list string) * list string :=
  match fuel, ring with
  | S fuel, tid :: ring' =>
      match fifos !! tid with
      | Some (j :: rest) =>
          (Some (tid, j), <[tid := rest]> fifos,
           if decide (rest = []) then ring' else ring' ++ [tid])
      | _ => next_loop fuel fifos ring'
      end
  | _, _ => (None, fifos, ring)
  end.
Definition _next_job_id (s : fq) := next_loop (S (length (fq_ring s))) (fq_fifos s) (fq_ring s).

(** The tenant of a job record, [self._jobs[jid]["tenant_id"]]. *)
Definition job_tenant (s : fq) (j : string) : string := default ""%string (fst <$> fq_jobs s !! j).

Definition set_worker (s : fq) (i : nat) (sem : nat) (pc : wpc) : fq :=
  FQ (fq_fifos s) (fq_ring s) (fq_jobs s) sem (fq_inflight s) (fq_max s) (fq_log s)
     (<[i := pc]> (fq_workers s)).

(** The start of [run_all]: [n] threads, when something is pending. *)
Definition run_all_start (n : nat) (s : fq) : fq :=
  if decide (pending s = 0) then s
  else FQ (fq_fifos s) (fq_ring s) (fq_jobs s) (fq_sem s) (fq_inflight s) (fq_max s) (fq_log s)
          (fq_workers s ++ replicate n WIdle).

(** A worker that holds a slot picks its next job, or leaves. *)
Definition worker_pick (i : nat) (s : fq) : fq :=
  match _next_job_id s with
  | (None, fifos, ring) =>
      FQ fifos ring (fq_jobs s) (S (fq_sem s)) (fq_inflight s) (fq_max s) (fq_log s)
         (<[i := WExited]> (fq_workers s))
  | (Some (tid, j), fifos, ring) =>
      let inflight := S (fq_inflight s) in
      FQ fifos ring (<[j := (job_tenant s j, Submitted)]> (fq_jobs s)) (fq_sem s) inflight
         (Nat.max (fq_max s) inflight) (fq_log s ++ [(EvDispatch, job_tenant s j, j)])
         (<[i := WPicked j]> (fq_workers s))
  end.

(** The runner is called. *)
Definition worker_run (i : nat) (j : string) (s : fq) : fq :=
  FQ (fq_fifos s) (fq_ring s) (<[j := (job_tenant s j, InProgress)]> (fq_jobs s))
     (fq_sem s) (fq_inflight s) (fq_max s) (fq_log s) (<[i := WRunning j]> (fq_workers s)).

(** The runner returned or raised. *)
Definition worker_finish (i : nat) (j : string) (ok : bool) (s : fq) : fq :=
  let tid := job_tenant s j in
  FQ (fq_fifos s) (fq_ring s) (<[j := (tid, if ok then Complete else Failed)]> (fq_jobs s))
     (fq_sem s) (pred (fq_inflight s)) (fq_max s) (fq_log s ++ [(EvComplete, tid, j)])
     (<[i := WFinished]> (fq_workers s)).

Inductive work_step (s : fq) : fq → Prop :=
| ws_start n : work_step s (run_all_start n s)
| ws_acquire i sem : fq_workers s !! i = Some WIdle → fq_sem s = S sem →
    work_step s (set_worker s i sem WHasSem)
| ws_pick i : fq_workers s !! i = Some WHasSem → work_step s (worker_pick i s)
| ws_run i j : fq_workers s !! i = Some (WPicked j) → work_step s (worker_run i j s)
| ws_finish i j ok : fq_workers s !! i = Some (WRunning j) → work_step s (worker_finish i j ok s)
| ws_release i : fq_workers s !! i = Some WFinished →
    work_step s (set_worker s i (S (fq_sem s)) WIdle).

(** Job ids are not reused; the default is a fresh UUID. *)
Inductive fq_step (s : fq) : fq → Prop :=
| fs_enqueue tenant_id jid s' : fq_jobs s !! jid = None → enqueue tenant_id jid s = Ok s' → fq_step s s'
| fs_work s' : work_step s s' → fq_step s s'.

(** [peak_in_flight] and [admission_order], recomputed from the log. *)
Definition peak_in_flight (log : list (event * string * string)) : nat * nat :=
  foldl (λ '(cur, peak) e, match e.1.1 with
                           | EvDispatch => (S cur, Nat.max peak (S cur))
                           | EvComplete => (pred cur, peak)
                           end) (0, 0) log.
Definition admission_order (log : list (event * string * string)) : list string :=
  (λ e, e.2) <$> filter (λ e, e.1.1 = EvDispatch) log.

(** ** The ceiling *)

Definition holds_slot (w : wpc) : nat := match w with WIdle | WExited => 0 | _ => 1 end.
Definition is_running (w : wpc) : nat := match w with WPicked _ | WRunning _ => 1 | _ => 0 end.

Lemma sum_insert {A} (f : A → nat) (l : list A) i x y :
  l !! i = Some x → sum_list_with f (<[i := y]> l) + f x = sum_list_with f l + f y.
Proof.
  revert i. induction l as [|z l IH]; intros [|i] Hi; simplify_eq/=; [lia|]. specialize (IH i Hi). lia.
Qed.

Record fq_ok (ceiling : nat) (s : fq) : Prop := {
  f_slots : fq_sem s + sum_list_with holds_slot (fq_workers s) = ceiling;
  f_running : fq_inflight s = sum_list_with is_running (fq_workers s);
  f_max : fq_inflight s ≤ fq_max s ≤ ceiling;
  f_peak : peak_in_flight (fq_log s) = (fq_inflight s, fq_max s) }.

Lemma running_holds l : sum_list_with is_running l ≤ sum_list_with holds_slot l.
Proof. induction l as [|[] l IH]; simpl; lia. Qed.

Lemma peak_snoc log e :
  peak_in_flight (log ++ [e]) =
  let '(cur, peak) := peak_in_flight log in
  match e.1.1 with EvDispatch => (S cur, Nat.max peak (S cur)) | EvComplete => (pred cur, peak) end.
Proof. unfold peak_in_flight. rewrite foldl_app. simpl. by destruct (foldl _ _ log). Qed.

Lemma work_step_ok c s s' : fq_ok c s → work_step s s' → fq_ok c s'.
Proof.
  intros [Hs Hr Hm Hp]. destruct 1 as [n|i sem Hi Hsem|i Hi|i j Hi|i j ok Hi|i Hi].
  - unfold run_all_start. destruct (decide _); [by split|]. split; simpl; try done.
    + rewrite sum_list_with_app. induction n; simpl in *; lia.
    + rewrite sum_list_with_app. induction n; simpl in *; lia.
  - split; simpl; try done.
    + pose proof (sum_insert holds_slot _ i _ WHasSem Hi). simpl in *. lia.
    + pose proof (sum_insert is_running _ i _ WHasSem Hi). simpl in *. lia.
  - unfold worker_pick. destruct (_next_job_id s) as [[[[tid j]|] fifos] ring].
    + pose proof (sum_insert holds_slot _ i _ (WPicked j) Hi).
      pose proof (sum_insert is_running _ i _ (WPicked j) Hi).
      pose proof (running_holds (<[i:=WPicked j]> (fq_workers s))).
      split; simpl in *; try lia. rewrite peak_snoc, Hp. done.
    + pose proof (sum_insert holds_slot _ i _ WExited Hi).
      pose proof (sum_insert is_running _ i _ WExited Hi). split; simpl in *; try done; lia.
  - pose proof (sum_insert holds_slot _ i _ (WRunning j) Hi).
    pose proof (sum_insert is_running _ i _ (WRunning j) Hi). split; simpl in *; try done; lia.
  - pose proof (sum_insert holds_slot _ i _ WFinished Hi).
    pose proof (sum_insert is_running _ i _ WFinished Hi). split; simpl in *; try lia.
    by rewrite peak_snoc, Hp.
  - pose proof (sum_insert holds_slot _ i _ WIdle Hi).
    pose proof (sum_insert is_running _ i _ WIdle Hi). split; simpl in *; try done; lia.
Qed.

Lemma fq_step_ok c s s' : fq_ok c s → fq_step s s' → fq_ok c s'.
Proof.
  intros Hok. destruct 1 as [tenant jid s' Hfresh He|s' Hw]; [|by eapply work_step_ok].
  unfold enqueue in He. destruct (Tenant.validate_tenant_id tenant) as [tid|]; [|done]. cbn in He.
  destruct Hok. destruct (fq_fifos s !! tid); injection He as <-; by split.
Qed.

Definition fq_reachable (ceiling : nat) (s : fq) : Prop := star fq_step (fq_init ceiling) s.

Lemma fq_init_ok c : fq_ok c (fq_init c).
Proof. split; simpl; try done; lia. Qed.

(** The queue keeps its ceiling and its log is honest.  In every reachable
    state the in-flight count is the number of workers that hold a job, it and the
    recorded maximum never exceed the ceiling, and [peak_in_flight] recomputed
    from the dispatch log is exactly that maximum. *)
Theorem fairqueue_ceiling c s :
  fq_reachable c s →
  fq_inflight s = sum_list_with is_running (fq_workers s) ∧
  fq_inflight s ≤ c ∧ fq_max s ≤ c ∧ peak_in_flight (fq_log s) = (fq_inflight s, fq_max s).
Proof.
  intros H. assert (Hok : fq_ok c s).
  { eapply (star_invariant fq_step (fq_ok c)); [apply fq_step_ok|exact H|apply fq_init_ok]. }
  destruct Hok. split; [done|]. split; [lia|]. split; [lia|done].
Qed.

(** ** Fairness of a batch *)

Definition dispatched (log : list (event * string * string)) (a : string) : nat :=
  length (filter (λ e, e.1.1 = EvDispatch ∧ e.1.2 = a) log).

Lemma dispatched_snoc log e a :
  dispatched (log ++ [e]) a =
  dispatched log a + (if decide (e.1.1 = EvDispatch ∧ e.1.2 = a) then 1 else 0).
Proof.
  unfold dispatched. rewrite filter_app, length_app. f_equal. rewrite filter_cons.
  by destruct (decide _).
Qed.

(** Queued jobs are on record under the tenant whose FIFO holds them. *)
Definition jobs_match (s : fq) : Prop :=
  ∀ a q j, fq_fifos s !! a = Some q → j ∈ q → ∃ st, fq_jobs s !! j = Some (a, st).

Lemma jobs_match_tenant s a j q : jobs_match s → fq_fifos s !! a = Some (j :: q) → job_tenant s j = a.
Proof. intros Hm Hq. destruct (Hm a _ j Hq ltac:(set_solver)) as [st Hj]. unfold job_tenant. by rewrite Hj. Qed.

(** Rewriting a record without changing its tenant. *)
Lemma jobs_match_restatus s s' j st :
  jobs_match s → fq_jobs s' = <[j := (job_tenant s j, st)]> (fq_jobs s) →
  (∀ a q, fq_fifos s' !! a = Some q → ∃ q0, fq_fifos s !! a = Some q0 ∧ q ⊆ q0) →
  jobs_match s'.
Proof.
  intros Hm Hj Hf a q x Hq Hx. destruct (Hf a q Hq) as (q0 & Hq0 & Hsub). rewrite Hj.
  destruct (Hm a q0 x Hq0 ltac:(set_solver)) as [st0 Hx0].
  destruct (decide (x = j)) as [->|Hne]; [|rewrite lookup_insert_ne by done; eauto].
  rewrite lookup_insert_eq. unfold job_tenant. rewrite Hx0. simpl. eauto.
Qed.

Lemma next_loop_shrinks fuel fifos ring :
  ∀ a q, (next_loop fuel fifos ring).1.2 !! a = Some q → ∃ q0, fifos !! a = Some q0 ∧ q ⊆ q0.
Proof.
  revert ring. induction fuel as [|fuel IH]; intros ring a q; simpl; [eauto|].
  destruct ring as [|tid ring]; [eauto|].
  destruct (fifos !! tid) as [[|j rest]|] eqn:Ht; [by apply IH| |by apply IH]. simpl.
  destruct (decide (a = tid)) as [->|Hne]; [|rewrite lookup_insert_ne by done; eauto].
  rewrite lookup_insert_eq. intros [= <-]. exists (j :: rest). set_solver.
Qed.

Lemma work_step_jobs_match s s' : jobs_match s → work_step s s' → jobs_match s'.
Proof.
  intros Hm. destruct 1 as [n|i sem Hi Hsem|i Hi|i j Hi|i j ok Hi|i Hi]; try done.
  - unfold run_all_start. by destruct (decide _).
  - unfold worker_pick, _next_job_id.
    pose proof (next_loop_shrinks (S (length (fq_ring s))) (fq_fifos s) (fq_ring s)) as Hs.
    destruct (next_loop _ _ _) as [[[[tid j]|] fifos] ring]; simpl in Hs.
    + by eapply (jobs_match_restatus s _ j Submitted).
    + intros a q x Hq Hx. destruct (Hs a q Hq) as (q0 & Hq0 & Hsub). simpl. eapply Hm; [exact Hq0|set_solver].
  - eapply (jobs_match_restatus s _ j InProgress); [done..|]. simpl. eauto.
  - eapply (jobs_match_restatus s _ j); [done..|]. simpl. eauto.
Qed.

(** The tenants of the ring have work, each is there once. *)
Definition ring_ok (s : fq) : Prop :=
  NoDup (fq_ring s) ∧ ∀ a, a ∈ fq_ring s → ∃ j q, fq_fifos s !! a = Some (j :: q).

(** Two rounds at a time: the front of the ring has had [r] dispatches, the back
    [r + 1], and nobody more. *)
Definition rounds (s : fq) : Prop :=
  ∃ r A B, fq_ring s = A ++ B ∧ (∀ a, a ∈ A → dispatched (fq_log s) a = r) ∧
    (∀ b, b ∈ B → dispatched (fq_log s) b = S r) ∧ (∀ x, dispatched (fq_log s) x ≤ S r).

Lemma next_job_spec s tid ring :
  jobs_match s → ring_ok s → fq_ring s = tid :: ring →
  ∃ j rest, job_tenant s j = tid ∧ fq_fifos s !! tid = Some (j :: rest) ∧
    _next_job_id s = (Some (tid, j), <[tid := rest]> (fq_fifos s),
                      if decide (rest = []) then ring else ring ++ [tid]).
Proof.
  intros Hm [_ Hr] Hring. destruct (Hr tid) as (j & rest & Hq); [rewrite Hring; set_solver|].
  exists j, rest. split; [by eapply jobs_match_tenant|]. split; [done|]. unfold _next_job_id. rewrite Hring. cbn [length next_loop]. by rewrite Hq.
Qed.

Lemma pick_ring_ok i s tid ring :
  jobs_match s → ring_ok s → fq_ring s = tid :: ring → ring_ok (worker_pick i s).
Proof.
  intros Hm Hok Hring. destruct (next_job_spec s tid ring Hm Hok Hring) as (j & rest & _ & Hq & Hn).
  unfold worker_pick. rewrite Hn. destruct Hok as [Hnd Hr]. rewrite Hring in Hnd.
  apply NoDup_cons in Hnd as [Hni Hnd]. split; simpl.
  - destruct (decide (rest = [])); [done|]. apply NoDup_app. split; [done|]. split; [set_solver|apply NoDup_singleton].
  - intros a Ha. destruct (decide (a = tid)) as [->|Hne].
    + rewrite lookup_insert_eq. destruct (decide (rest = [])) as [->|Hne]; [done|]. destruct rest; [done|eauto].
    + rewrite lookup_insert_ne by done. apply Hr. rewrite Hring.
      destruct (decide (rest = [])); set_solver.
Qed.

Lemma rounds_front s tid ring :
  rounds s → fq_ring s = tid :: ring →
  ∃ r A B, ring = A ++ B ∧ dispatched (fq_log s) tid = r ∧
    (∀ a, a ∈ A → dispatched (fq_log s) a = r) ∧ (∀ b, b ∈ B → dispatched (fq_log s) b = S r) ∧
    (∀ x, dispatched (fq_log s) x ≤ S r).
Proof.
  intros (r & A & B & Heq & HA & HB & Hle) Hring. rewrite Hring in Heq. destruct A as [|a A]; simpl in Heq.
  - exists (S r), ring, []. rewrite app_nil_r. rewrite <- Heq in HB.
    split; [done|]. split; [apply HB; set_solver|]. split; [set_solver|]. split; [set_solver|].
    intros x. specialize (Hle x). lia.
  - injection Heq as <- ->. exists r, A, B. split; [done|]. split; [apply HA; set_solver|]. set_solver.
Qed.

Lemma pick_rounds i s tid ring :
  jobs_match s → ring_ok s → rounds s → fq_ring s = tid :: ring → rounds (worker_pick i s).
Proof.
  intros Hm Hok Hro Hring. destruct (next_job_spec s tid ring Hm Hok Hring) as (j & rest & Hj & Hq & Hn).
  destruct (rounds_front s tid ring Hro Hring) as (r & A & B & -> & Ht & HA & HB & Hle).
  destruct Hok as [Hnd _]. rewrite Hring in Hnd. apply NoDup_cons in Hnd as [Hni _].
  unfold worker_pick. rewrite Hn, Hj.
  exists r, A, (if decide (rest = []) then B else B ++ [tid]). cbn [fq_ring fq_log].
  split; [destruct (decide (rest = [])); [done|by rewrite app_assoc]|].
  assert (Hd : ∀ x, dispatched (fq_log s ++ [(EvDispatch, tid, j)]) x =
                    if decide (x = tid) then S r else dispatched (fq_log s) x).
  { intros x. rewrite dispatched_snoc. simpl. destruct (decide (x = tid)) as [->|Hne].
    - rewrite decide_True by done. lia.
    - rewrite decide_False by naive_solver. lia. }
  split; [|split].
  - intros a Ha. rewrite Hd, decide_False by set_solver. auto.
  - intros b Hb. rewrite Hd. destruct (decide (b = tid)) as [->|Hne]; [done|]. apply HB.
    destruct (decide (rest = [])); set_solver.
  - intros x. rewrite Hd. destruct (decide (x = tid)); [lia|auto].
Qed.

Lemma work_step_rounds s s' :
  jobs_match s → ring_ok s ∧ rounds s → work_step s s' → ring_ok s' ∧ rounds s'.
Proof.
  intros Hm [Hok Hro]. destruct 1 as [n|i sem Hi Hsem|i Hi|i j Hi|i j ok Hi|i Hi].
  - unfold run_all_start. by destruct (decide _).
  - done.
  - destruct (fq_ring s) as [|tid ring] eqn:Hring.
    + unfold worker_pick, _next_job_id. rewrite Hring. simpl. split.
      * split; simpl; [constructor|set_solver].
      * destruct Hro as (r & A & B & Heq & HA & HB & Hle). exists r, [], []. simpl. set_solver.
    + split; [by eapply pick_ring_ok|by eapply pick_rounds].
  - done.
  - split; [done|]. destruct Hro as (r & A & B & Heq & HA & HB & Hle). exists r, A, B. simpl.
    assert (Hd : ∀ x y, dispatched (fq_log s ++ [(EvComplete, y, j)]) x = dispatched (fq_log s) x).
    { intros x y. rewrite dispatched_snoc, decide_False; [lia|]. by intros [??]. }
    setoid_rewrite Hd. done.
  - done.
Qed.

(** A batch is served in rounds.  Starting from any queue whose waiting
    tenants are in the ring with nothing dispatched yet, and with no further
    enqueues, at every point of the run no tenant has had more than one dispatch
    more than a tenant that still waits: a tenant's k-th job never goes before a
    waiting tenant's (k-1)-th, for any number of workers and any interleaving. *)
Theorem fairqueue_batch_fair s s' a b :
  jobs_match s → ring_ok s → fq_log s = [] → star work_step s s' → b ∈ fq_ring s' →
  dispatched (fq_log s') a ≤ S (dispatched (fq_log s') b).
Proof.
  intros Hm Hok Hlog Hrun Hb.
  assert (Hro : rounds s).
  { exists 0, (fq_ring s), []. rewrite app_nil_r, Hlog. do 2 (split; [done|]).
    split; [set_solver|]. intros x. cbn. lia. }
  destruct (star_invariant work_step (λ s, jobs_match s ∧ ring_ok s ∧ rounds s) s s') as (_ & _ & Hro'); auto.
  { intros x y [Hmx Hx] Hs. split; [by eapply work_step_jobs_match|by eapply work_step_rounds]. }
  destruct Hro' as (r & A & B & Heq & HA & HB & Hle). rewrite Heq in Hb. specialize (Hle a).
  apply elem_of_app in Hb as [Hb|Hb]; [rewrite (HA b Hb)|rewrite (HB b Hb)]; lia.
Qed.

(** ** A drained tenant that comes back *)

(** The tenant has a FIFO but is not in the ring: what [_next_job_id] leaves when
    it takes a tenant's last job. *)
Definition off_ring (s : fq) (a : string) : Prop := (a ∉ fq_ring s) ∧ is_Some (fq_fifos s !! a).

Lemma next_loop_keeps fuel fifos ring a :
  a ∉ ring →
  let '(r, fifos', ring') := next_loop fuel fifos ring in
  (a ∉ ring') ∧ fifos' !! a = fifos !! a ∧ ∀ tid j, r = Some (tid, j) → tid ≠ a ∧ ∃ q, fifos !! tid = Some (j :: q).
Proof.
  revert ring. induction fuel as [|fuel IH]; intros ring Ha; simpl; [done|].
  destruct ring as [|tid ring]; [done|]. assert (a ≠ tid ∧ a ∉ ring) as [Hne Hni] by set_solver.
  destruct (fifos !! tid) as [[|j rest]|] eqn:Ht; [by apply IH| |by apply IH].
  rewrite lookup_insert_ne by done. split; [destruct (decide (rest = [])); set_solver|].
  split; [done|]. intros ? ? [= <- <-]. eauto.
Qed.

Lemma fq_step_jobs_match s s' : jobs_match s → fq_step s s' → jobs_match s'.
Proof.
  intros Hm. destruct 1 as [tenant jid s' Hfresh He|s' Hw]; [|by eapply work_step_jobs_match].
  unfold enqueue in He. destruct (Tenant.validate_tenant_id tenant) as [tid|]; [|done]. cbn in He.
  assert (Hs : fq_jobs s' = <[jid := (tid, Queued)]> (fq_jobs s) ∧
               fq_fifos s' = <[tid := default [] (fq_fifos s !! tid) ++ [jid]]> (fq_fifos s)).
  { destruct (fq_fifos s !! tid); injection He as <-; done. }
  destruct Hs as [Hj Hf]. intros a q j Hq Hin. rewrite Hj. rewrite Hf in Hq.
  assert (Hold : (∃ q0, fq_fifos s !! a = Some q0 ∧ j ∈ q0) ∨ (a = tid ∧ j = jid)).
  { destruct (decide (a = tid)) as [->|Hne].
    - rewrite lookup_insert_eq in Hq. injection Hq as <-. apply elem_of_app in Hin as [Hin|Hin]; [|set_solver].
      left. destruct (fq_fifos s !! tid) as [q0|]; simpl in Hin; [eauto|set_solver].
    - rewrite lookup_insert_ne in Hq by done. eauto. }
  destruct Hold as [(q0 & Hq0 & Hin0)|[-> ->]]; [|rewrite lookup_insert_eq; eauto].
  destruct (Hm a q0 j Hq0 Hin0) as [st Hst]. rewrite lookup_insert_ne; [eauto|]. intros ->. congruence.
Qed.

Definition queue_of (s : fq) (a : string) : list string := default [] (fq_fifos s !! a).

Lemma fq_step_off_ring s s' a :
  jobs_match s → off_ring s a → fq_step s s' →
  off_ring s' a ∧ (queue_of s a `prefix_of` queue_of s' a) ∧
  dispatched (fq_log s') a = dispatched (fq_log s) a.
Proof.
  intros Hm [Hni Hsome]. unfold queue_of, off_ring. destruct 1 as [tenant jid s' Hfresh He|s' Hw].
  - unfold enqueue in He. destruct (Tenant.validate_tenant_id tenant) as [tid|]; [|done]. cbn in He.
    destruct (decide (tid = a)) as [->|Hne].
    + destruct Hsome as [q Hq]. rewrite Hq in He. injection He as <-. simpl.
      rewrite lookup_insert_eq, Hq. simpl. split; [split; [done|by eexists]|]. split; [by apply prefix_app_r|done].
    + destruct (fq_fifos s !! tid); injection He as <-; simpl; rewrite lookup_insert_ne by done;
        (split; [split; [set_solver|done]|done]).
  - destruct Hw as [n|i sem Hi Hsem|i Hi|i j Hi|i j ok Hi|i Hi]; try done.
    + unfold run_all_start. by destruct (decide _).
    + unfold worker_pick, _next_job_id.
      pose proof (next_loop_keeps (S (length (fq_ring s))) (fq_fifos s) (fq_ring s) a Hni) as Hk.
      destruct (next_loop _ _ _) as [[[[tid j]|] fifos] ring]; destruct Hk as (Hr & Hf & Ht); simpl; rewrite Hf.
      * do 2 (split; [done|]). destruct (Ht tid j eq_refl) as (Hne & q & Hq).
        rewrite (jobs_match_tenant s tid j q Hm Hq), dispatched_snoc, decide_False; [lia|]. simpl. by intros [_ ->].
      * done.
    + simpl. do 2 (split; [done|]). rewrite dispatched_snoc, decide_False; [lia|]. by intros [??].
Qed.

(** A tenant whose queue once drained is never served again.  From the
    moment its last job has been picked, jobs it enqueues pile up: through any
    sequence of enqueues and worker steps, [run_all] included, its FIFO only
    grows and no job of it is ever dispatched. *)
Theorem fairqueue_strands_returning_tenant s s' a :
  jobs_match s → off_ring s a → star fq_step s s' →
  off_ring s' a ∧ (queue_of s a `prefix_of` queue_of s' a) ∧
  dispatched (fq_log s') a = dispatched (fq_log s) a.
Proof.
  intros Hm Hoff Hrun. induction Hrun as [s|s s1 s2 Hstep _ IH]; [done|].
  destruct (fq_step_off_ring s s1 a Hm Hoff Hstep) as (H1 & H2 & H3).
  destruct (IH (fq_step_jobs_match s s1 Hm Hstep) H1) as (H4 & H5 & H6). split; [done|]. split; [by etrans|congruence].
Qed.

(** ** A concrete run: ceiling 1, one job of [acme], then another one *)

Definition run_enqueue (tenant jid : string) (s : fq) : fq :=
  match enqueue (PStr tenant) jid s with Ok s' => s' | Err _ => s end.

Definition q1 : fq := run_enqueue "acme" "j1" (fq_init 1).
Definition q2 : fq := run_all_start 1 q1.
Definition q3 : fq := set_worker q2 0 0 WHasSem.
Definition q4 : fq := worker_pick 0 q3.
Definition q5 : fq := worker_finish 0 "j1" true (worker_run 0 "j1" q4).
Definition q6 : fq := run_enqueue "acme" "j2" q5.

Lemma reachable_jobs_match c s : fq_reachable c s → jobs_match s.
Proof.
  intros H. eapply (star_invariant fq_step jobs_match); [apply fq_step_jobs_match|exact H|].
  intros a q j Hq. done.
Qed.

Lemma q5_reachable : fq_reachable 1 q5.
Proof.
  eapply (star_step _ _ q1); [apply (fs_enqueue _ (PStr "acme") "j1"); vm_compute; reflexivity|].
  eapply (star_step _ _ q2); [apply fs_work, ws_start|].
  eapply (star_step _ _ q3); [apply fs_work, ws_acquire; vm_compute; reflexivity|].
  eapply (star_step _ _ q4); [apply fs_work, ws_pick; vm_compute; reflexivity|].
  eapply (star_step _ _ (worker_run 0 "j1" q4)); [apply fs_work, ws_run; vm_compute; reflexivity|].
  eapply (star_step _ _ q5); [apply fs_work, (ws_finish _ 0 "j1" true); vm_compute; reflexivity|].
  apply star_refl.
Qed.

Lemma q6_reachable : fq_reachable 1 q6.
Proof.
  eapply star_trans; [apply q5_reachable|].
  apply star_one, (fs_enqueue _ (PStr "acme") "j2"); vm_compute; reflexivity.
Qed.

Lemma fairqueue_ceiling_witness : fq_max q6 = 1 ∧ fq_max q6 ≤ 1.
Proof.
  split; [vm_compute; reflexivity|].
  destruct (fairqueue_ceiling 1 q6 q6_reachable) as (_ & _ & H & _). exact H.
Defined.

Definition two_tenants : fq := run_enqueue "b" "b1" (run_enqueue "a" "a2" (run_enqueue "a" "a1" (fq_init 1))).
Definition batch : fq := worker_pick 0 (set_worker (run_all_start 1 two_tenants) 0 0 WHasSem).

Lemma two_tenants_reachable : fq_reachable 1 two_tenants.
Proof.
  eapply star_step; [apply (fs_enqueue _ (PStr "a") "a1"); vm_compute; reflexivity|].
  eapply star_step; [apply (fs_enqueue _ (PStr "a") "a2"); vm_compute; reflexivity|].
  eapply star_step; [apply (fs_enqueue _ (PStr "b") "b1"); vm_compute; reflexivity|]. apply star_refl.
Qed.

Lemma fairqueue_batch_fair_witness :
  dispatched (fq_log batch) "a" = 1 ∧ dispatched (fq_log batch) "a" ≤ S (dispatched (fq_log batch) "b").
Proof.
  split; [vm_compute; reflexivity|].
  apply (fairqueue_batch_fair two_tenants).
  - exact (reachable_jobs_match 1 _ two_tenants_reachable).
  - split; [apply (bool_decide_unpack _); vm_compute; exact I|].
    assert (Hr : fq_ring two_tenants = ["a"; "b"]%string) by (vm_compute; reflexivity). rewrite Hr.
    intros x Hx. assert (x = "a" ∨ x = "b")%string as [-> | ->] by set_solver; vm_compute; eauto.
  - vm_compute; reflexivity.
  - eapply star_step; [apply (ws_start _ 1)|].
    eapply star_step; [apply (ws_acquire _ 0 0); vm_compute; reflexivity|].
    eapply star_step; [apply (ws_pick _ 0); vm_compute; reflexivity|]. apply star_refl.
  - apply (bool_decide_unpack _); vm_compute; exact I.
Defined.

(** The second job of [acme] is pending and will be for ever. *)
Lemma fairqueue_strands_returning_tenant_witness :
  pending q6 = 1 ∧ _next_job_id q6 = (None, fq_fifos q6, fq_ring q6) ∧
  dispatched (fq_log (run_all_start 8 q6)) "acme" = dispatched (fq_log q5) "acme".
Proof.
  split; [vm_compute; reflexivity|]. split; [vm_compute; reflexivity|].
  apply (fairqueue_strands_returning_tenant q5).
  - exact (reachable_jobs_match 1 _ q5_reachable).
  - split; [apply (bool_decide_unpack _); vm_compute; exact I|vm_compute; eexists; reflexivity].
  - eapply (star_step _ _ q6); [apply (fs_enqueue _ (PStr "acme") "j2"); vm_compute; reflexivity|].
    apply star_one, fs_work, ws_start.
Defined.
