(* ===== verification/ExecStore.v ===== *)
(** * The instant-execution control store

    [executor/control_plane/models.py] and the transactions of [PostgresStore] in
    [executor/control_plane/store.py] over the tables of
    [migrations/001_control_plane.sql].  A transaction is a function of the
    database: on success it yields the new database, on an exception the old one
    stays (the connection context rolls back).  The store runs at READ COMMITTED, so
    other transactions may come between the statements of one, and a statement
    reads unlocked rows from its own snapshot: the [_on] variants take that snapshot
    as an argument, and [ExecSystem] interleaves statements.  Identifiers a method draws with
    [uuid4] are arguments, and so are [now()] of the database and the clock of the
    caller, which differ. *)

From S2P Require Import Prelude Json.
Local Open Scope Z_scope.

Inductive slot_state := STARTING | READY | CLAIMED | RELEASING | SDRAINING | REVOKED.
Inductive claim_state := CActive | CReleased.
Inductive session_state := BINDING | SActive | SessDraining | INVALID.
Inductive lease_state := LActive | LSuperseded | LRevoked.
Inductive host_state := HActive | HDraining.
#[export] Instance slot_state_eq_dec : EqDecision slot_state.
Proof. solve_decision. Defined.
#[export] Instance claim_state_eq_dec : EqDecision claim_state.
Proof. solve_decision. Defined.
#[export] Instance session_state_eq_dec : EqDecision session_state.
Proof. solve_decision. Defined.
#[export] Instance lease_state_eq_dec : EqDecision lease_state.
Proof. solve_decision. Defined.
#[export] Instance host_state_eq_dec : EqDecision host_state.
Proof. solve_decision. Defined.

(** ** [models.py] *)

Record Slot := mkSlot {
  sl_executor : string; sl_slot : string; sl_endpoint : string;
  sl_host_epoch : Z; sl_slot_epoch : Z; sl_state : slot_state;
  sl_code : option string; sl_runtime : option string; sl_version : Z }.

Record Claim := mkClaim {
  cl_id : string; cl_executor : string; cl_slot : string;
  cl_epoch : Z; cl_expires : Z; cl_state : claim_state }.

Record Session := mkSession {
  ss_assignment : string; ss_tenant : string; ss_id : string;
  ss_executor : string; ss_slot : string; ss_claim : string; ss_epoch : Z;
  ss_catalog : string; ss_code : string; ss_artifact : string; ss_runtime : string;
  ss_capability : json; ss_state : session_state;
  ss_lease : option string; ss_sequence : Z;
  ss_expires : option Z; ss_activity : option Z }.

Record Lease := mkLease {
  le_id : string; le_session : string; le_executor : string; le_slot : string;
  le_claim : string; le_host_epoch : Z; le_slot_epoch : Z; le_claim_epoch : Z;
  le_epoch : Z; le_sequence : Z; le_not_before : Z; le_expires : Z; le_state : lease_state }.

(** The columns of a session that its life changes. *)
Definition session_with (s : Session) (st : session_state) (lease : option string) (seq : Z)
    (expires activity : option Z) : Session :=
  mkSession (ss_assignment s) (ss_tenant s) (ss_id s) (ss_executor s) (ss_slot s) (ss_claim s)
    (ss_epoch s) (ss_catalog s) (ss_code s) (ss_artifact s) (ss_runtime s) (ss_capability s)
    st lease seq expires activity.
Definition session_to (s : Session) (st : session_state) : Session :=
  session_with s st (ss_lease s) (ss_sequence s) (ss_expires s) (ss_activity s).

Definition live (st : session_state) : bool :=
  match st with INVALID => false | _ => true end.

(** ** Tables *)

Record hostrow := Host {
  ho_state : host_state; ho_epoch : Z; ho_capacity : Z; ho_ready : Z; ho_endpoint : string;
  ho_heartbeat : option Z; ho_deadline : option Z; ho_version : Z }.

Record slotrow := SlotRow {
  sr_state : slot_state; sr_epoch : Z; sr_code : option string; sr_runtime : option string;
  sr_claim : option string; sr_ready_at : option Z; sr_version : Z }.

Record claimrow := ClaimRow {
  cr_host : string; cr_slot : string; cr_epoch : Z; cr_state : claim_state;
  cr_expires : Z; cr_released_at : option Z; cr_version : Z }.

Record sessrow := SessRow {
  se_session : Session; se_invalidated_at : option Z; se_reason : option string; se_version : Z }.

Record leaserow := LeaseRow { lr_lease : Lease; lr_revoked_at : option Z; lr_version : Z }.

Inductive obkind := ExecutorRelease | AccountingRecorded.
#[export] Instance obkind_eq_dec : EqDecision obkind.
Proof. solve_decision. Defined.
Record obrow := Outbox { ob_kind : obkind; ob_entity : string; ob_published : option Z }.

Record db := Db {
  d_hosts : gmap string hostrow;
  d_slots : gmap (string * string) slotrow;
  d_claims : gmap string claimrow;
  d_sessions : gmap string sessrow;
  d_leases : gmap string leaserow;
  d_outbox : list obrow }.                    (* in order of insertion *)

Definition db_init : db := Db ∅ ∅ ∅ ∅ ∅ [].

Inductive cp_error := StaleFence | NoCapacity | KeyErr | ValueErr | UniqueViolation | StoreUnavailable
  | RuntimeErr        (* the executor's HTTP call raised *)
  | AttributeErr.     (* an attribute of None *)

(** [UPDATE table SET f WHERE p]. *)
Definition update_where {K V} `{Countable K} (p : K → V → bool) (f : V → V) (m : gmap K V) : gmap K V :=
  map_imap (λ k v, Some (if p k v then f v else v)) m.

Lemma lookup_update_where {K V} `{Countable K} p (f : V → V) (m : gmap K V) k :
  update_where p f m !! k = (λ v, if p k v then f v else v) <$> m !! k.
Proof. unfold update_where. rewrite map_lookup_imap. by destruct (m !! k). Qed.

Lemma update_where_Some {K V} `{Countable K} p (f : V → V) (m : gmap K V) k v :
  update_where p f m !! k = Some v ↔ ∃ v0, m !! k = Some v0 ∧ v = if p k v0 then f v0 else v0.
Proof. rewrite lookup_update_where. destruct (m !! k); naive_solver. Qed.

(** Row updates. *)
Definition slot_set (r : slotrow) (st : slot_state) (claim : option string) : slotrow :=
  SlotRow st (sr_epoch r) (sr_code r) (sr_runtime r) claim (sr_ready_at r) (sr_version r + 1).
Definition claim_release (now : Z) (r : claimrow) : claimrow :=
  ClaimRow (cr_host r) (cr_slot r) (cr_epoch r) CReleased (cr_expires r) (Some now) (cr_version r + 1).
Definition sess_put (r : sessrow) (s : Session) : sessrow :=
  SessRow s (se_invalidated_at r) (se_reason r) (se_version r + 1).
Definition sess_invalidate (now : Z) (reason : string) (r : sessrow) : sessrow :=
  SessRow (session_to (se_session r) INVALID) (Some now) (Some reason) (se_version r + 1).
Definition lease_to (l : Lease) (st : lease_state) : Lease :=
  mkLease (le_id l) (le_session l) (le_executor l) (le_slot l) (le_claim l) (le_host_epoch l)
    (le_slot_epoch l) (le_claim_epoch l) (le_epoch l) (le_sequence l) (le_not_before l) (le_expires l) st.
Definition lease_revoke (now : Z) (st : lease_state) (r : leaserow) : leaserow :=
  LeaseRow (lease_to (lr_lease r) st) (Some now) (lr_version r + 1).

Definition with_slots (d : db) slots := Db (d_hosts d) slots (d_claims d) (d_sessions d) (d_leases d) (d_outbox d).
Definition with_hosts (d : db) hosts := Db hosts (d_slots d) (d_claims d) (d_sessions d) (d_leases d) (d_outbox d).

Section postgres.
Context (heartbeat_timeout : Z).

(** The host takes new work: [state = 'ACTIVE'] with a recent durable heartbeat. *)
Definition host_fresh (d : db) (now : Z) (host : string) : bool :=
  match d_hosts d !! host with
  | Some h => bool_decide (ho_state h = HActive) &&
              match ho_heartbeat h with Some t => now - heartbeat_timeout <=? t | None => false end
  | None => false
  end.

(** [_slot]: a slot row joined with its host. *)
Definition _slot (d : db) (k : string * string) : option Slot :=
  match d_slots d !! k, d_hosts d !! k.1 with
  | Some s, Some h => Some (mkSlot k.1 k.2 (ho_endpoint h) (ho_epoch h) (sr_epoch s) (sr_state s)
                              (sr_code s) (sr_runtime s) (sr_version s))
  | _, _ => None
  end.

(** The [INSERT ... ON CONFLICT] of one slot at registration. *)
Definition register_slot (executor : string) (slots : gmap (string * string) slotrow) (slot : string) :=
  let r := match slots !! (executor, slot) with
           | None => SlotRow STARTING 1 None None None None 1
           | Some r => SlotRow STARTING (sr_epoch r) (sr_code r) (sr_runtime r) (sr_claim r) (sr_ready_at r) (sr_version r)
           end in
  <[(executor, slot) := r]> slots.

Definition register_host (now : Z) (executor endpoint : string) (slot_ids : list string) (d : db) : db :=
  let total := Z.of_nat (length slot_ids) in
  let h := match d_hosts d !! executor with
           | None => Host HActive 1 total 0 endpoint (Some now) None 1
           | Some h => Host HActive (ho_epoch h + 1) total 0 endpoint (Some now) None (ho_version h + 1)
           end in
  let sessions := update_where (λ _ r, bool_decide (ss_executor (se_session r) = executor) && live (ss_state (se_session r)))
                    (sess_invalidate now "host_reregistered") (d_sessions d) in
  let claims := update_where (λ _ r, bool_decide (cr_host r = executor) && bool_decide (cr_state r = CActive))
                  (claim_release now) (d_claims d) in
  let revoked := update_where (λ k _, bool_decide (k.1 = executor))
                   (λ r, SlotRow REVOKED (sr_epoch r + 1) None None None None (sr_version r + 1)) (d_slots d) in
  Db (<[executor := h]> (d_hosts d)) (foldl (register_slot executor) revoked slot_ids)
     claims sessions (d_leases d) (d_outbox d).

(** [count] of the host's ready slots. *)
Definition ready_count (executor : string) (slots : gmap (string * string) slotrow) : Z :=
  Z.of_nat (size (filter (λ kr, kr.1.1 = executor ∧ sr_state kr.2 = READY) slots)).

Definition set_readiness (now : Z) (executor slot : string) (ready : bool) (code runtime : string) (d : db)
  : result cp_error db :=
  match d_slots d !! (executor, slot), d_hosts d !! executor with
  | Some r, Some h =>
      if bool_decide (ho_state h = HActive) then
        let r' := SlotRow (if ready then READY else STARTING) (sr_epoch r) (Some code) (Some runtime)
                    (sr_claim r) (if ready then Some now else None) (sr_version r + 1) in
        let slots := <[(executor, slot) := r']> (d_slots d) in
        let h' := Host (ho_state h) (ho_epoch h) (ho_capacity h) (ready_count executor slots)
                    (ho_endpoint h) (ho_heartbeat h) (ho_deadline h) (ho_version h + 1) in
        Ok (with_hosts (with_slots d slots) (<[executor := h']> (d_hosts d)))
      else Err KeyErr
  | _, _ => Err KeyErr
  end.

Definition heartbeat (now : Z) (executor : string) (d : db) : result cp_error db :=
  match d_hosts d !! executor with
  | Some h => Ok (with_hosts d (<[executor := Host (ho_state h) (ho_epoch h) (ho_capacity h) (ho_ready h)
                    (ho_endpoint h) (Some now) (ho_deadline h) (ho_version h + 1)]> (d_hosts d)))
  | None => Err KeyErr
  end.

(** The unique index [one_active_claim_per_slot]. *)
Definition slot_taken (d : db) (k : string * string) : bool :=
  bool_decide (map_Exists (λ _ c, cr_host c = k.1 ∧ cr_slot c = k.2 ∧ cr_state c = CActive) (d_claims d)).

(** The [claimed] and [created] clauses shared by both claims: the slot goes to
    CLAIMED and the claim row is inserted, which the primary key and the unique
    index can refuse. *)
Definition claim_row (now_expires : Z) (claim_id : string) (k : string * string) (r : slotrow) (d : db)
  : result cp_error (Claim * db) :=
  if bool_decide (is_Some (d_claims d !! claim_id)) || slot_taken d k then Err UniqueViolation
  else
    let version := sr_version r + 1 in
    Ok (mkClaim claim_id k.1 k.2 version now_expires CActive,
        Db (d_hosts d) (<[k := slot_set r CLAIMED (Some claim_id)]> (d_slots d))
           (<[claim_id := ClaimRow k.1 k.2 version CActive now_expires None 1]> (d_claims d))
           (d_sessions d) (d_leases d) (d_outbox d)).

(** [claim_slot]: the compare-and-set. *)
Definition claim_slot (dbnow : Z) (claim_id : string) (executor slot : string) (expected_version now lifetime : Z)
    (d : db) : result cp_error (Claim * db) :=
  match d_slots d !! (executor, slot) with
  | Some r =>
      if bool_decide (sr_state r = READY) && (sr_version r =? expected_version) && host_fresh d dbnow executor
      then claim_row (now + lifetime) claim_id (executor, slot) r d
      else Err StaleFence
  | None => Err StaleFence
  end.

(** One attempt of [claim_ready_slot]; [pick] is the row the random order chose
    among the unlocked ones, if any. *)
Definition claim_attempt (dbnow : Z) (claim_id : string) (now lifetime : Z) (pick : option (string * string)) (d : db)
  : result cp_error (option (Claim * db)) :=
  match pick with
  | None => Ok None
  | Some k =>
      match d_slots d !! k with
      | Some r =>
          if bool_decide (sr_state r = READY) && host_fresh d dbnow k.1
          then x ← claim_row (now + lifetime) claim_id k r d; Ok (Some x)
          else Ok None
      | None => Ok None
      end
  end.

(** [claim_ready_slot]: [max_attempts] attempts, the [i]-th with the [i]-th pick. *)
Fixpoint claim_attempts (picks : list (option (string * string))) (dbnow : Z) (claim_id : string) (now lifetime : Z) (d : db)
  : result cp_error (Claim * db) :=
  match picks with
  | [] => Err NoCapacity
  | pick :: picks =>
      x ← claim_attempt dbnow claim_id now lifetime pick d;
      match x with Some y => Ok y | None => claim_attempts picks dbnow claim_id now lifetime d end
  end.
Definition claim_ready_slot (dbnow : Z) (claim_id : string) (now lifetime : Z) (max_attempts : nat)
    (picks : nat → option (string * string)) (d : db) : result cp_error (Claim * db) :=
  if bool_decide (max_attempts < 1)%nat then Err ValueErr
  else claim_attempts (picks <$> seq 0 max_attempts) dbnow claim_id now lifetime d.

Definition get_claim (claim_id : string) (d : db) : option Claim :=
  (λ r, mkClaim claim_id (cr_host r) (cr_slot r) (cr_epoch r) (cr_expires r) (cr_state r)) <$> d_claims d !! claim_id.

(** [UPDATE executor_slots SET state = st WHERE current_claim_id = claim AND state = from]. *)
Definition slot_of_claim (k : string * string) (claim : string) (from to : slot_state) (keep : bool)
    (slots : gmap (string * string) slotrow) : gmap (string * string) slotrow :=
  match slots !! k with
  | Some r =>
      if bool_decide (sr_claim r = Some claim) && bool_decide (sr_state r = from)
      then <[k := slot_set r to (if keep then sr_claim r else None)]> slots
      else slots
  | None => slots
  end.

Definition abort_claim (now : Z) (claim_id : string) (d : db) : db :=
  match d_claims d !! claim_id with
  | Some c =>
      if bool_decide (cr_state c = CActive) then
        Db (d_hosts d) (slot_of_claim (cr_host c, cr_slot c) claim_id CLAIMED READY false (d_slots d))
           (<[claim_id := claim_release now c]> (d_claims d)) (d_sessions d) (d_leases d) (d_outbox d)
      else d
  | None => d
  end.

(** The [valid_claim] clause of [create_session]. *)
Definition valid_claim (now : Z) (s : Session) (d : db) : bool :=
  match d_claims d !! ss_claim s with
  | Some c =>
      bool_decide (cr_host c = ss_executor s) && bool_decide (cr_slot c = ss_slot s) &&
      bool_decide (cr_state c = CActive) && (now <? cr_expires c) &&
      match d_slots d !! (cr_host c, cr_slot c) with
      | Some r => bool_decide (sr_state r = CLAIMED) && bool_decide (sr_claim r = Some (ss_claim s))
      | None => false
      end
  | None => false
  end.

(** [create_session]; a session row that is taken over keeps its
    [last_activity_at], which the conflict clause does not set.  The statement
    reads the claim and its slot without a lock, from its own snapshot: [snap] is
    the database as that snapshot has it, [d] the one the row goes into. *)
Definition create_on (snap : db) (now : Z) (s : Session) (d : db) : result cp_error db :=
  if valid_claim now s snap then
    let fresh activity := session_with s BINDING None 0 None activity in
    match d_sessions d !! ss_id s with
    | None => Ok (Db (d_hosts d) (d_slots d) (d_claims d)
                    (<[ss_id s := SessRow (fresh None) None None 1]> (d_sessions d)) (d_leases d) (d_outbox d))
    | Some r =>
        if live (ss_state (se_session r)) then Err StaleFence
        else Ok (Db (d_hosts d) (d_slots d) (d_claims d)
               (<[ss_id s := SessRow (fresh (ss_activity (se_session r))) None None (se_version r + 1)]> (d_sessions d))
               (d_leases d) (d_outbox d))
    end
  else Err StaleFence.

(** with nothing between the snapshot and the insert *)
Definition create_session (now : Z) (s : Session) (d : db) : result cp_error db := create_on d now s d.

(** The lease row both activation and renewal insert, for the session's id. *)
Definition insert_lease (session_id : string) (l : Lease) (d : db) : result cp_error db :=
  if bool_decide (is_Some (d_leases d !! le_id l)) then Err UniqueViolation
  else Ok (Db (d_hosts d) (d_slots d) (d_claims d) (d_sessions d)
         (<[le_id l := LeaseRow (mkLease (le_id l) session_id (le_executor l) (le_slot l) (le_claim l)
              (le_host_epoch l) (le_slot_epoch l) (le_claim_epoch l) (le_epoch l) (le_sequence l)
              (le_not_before l) (le_expires l) LActive) None 1]> (d_leases d)) (d_outbox d)).

Definition set_session (session_id : string) (r : sessrow) (d : db) : db :=
  Db (d_hosts d) (d_slots d) (d_claims d) (<[session_id := r]> (d_sessions d)) (d_leases d) (d_outbox d).

(** The claim of a session is held at time [t]. *)
Definition claim_held (s : Session) (t : Z) (d : db) : bool :=
  match d_claims d !! ss_claim s with
  | Some c => bool_decide (cr_state c = CActive) && (t <=? cr_expires c)
  | None => false
  end.

Definition claim_seated (s : Session) (d : db) : bool :=
  match d_claims d !! ss_claim s with
  | Some c =>
      match d_slots d !! (cr_host c, cr_slot c), d_hosts d !! cr_host c with
      | Some r, Some h => bool_decide (sr_state r = CLAIMED) && bool_decide (ho_state h = HActive)
      | _, _ => false
      end
  | None => false
  end.

(** [activate] updates the session row as it is, and reads the claim, the slot and
    the host from its snapshot. *)
Definition activate_on (snap : db) (session_id : string) (l : Lease) (d : db) : result cp_error db :=
  match d_sessions d !! session_id with
  | Some r =>
      let s := se_session r in
      if bool_decide (ss_state s = BINDING) && (ss_epoch s =? le_epoch l) &&
         claim_held s (le_not_before l) snap && claim_seated s snap
      then insert_lease session_id l
             (set_session session_id
                (sess_put r (session_with s SActive (Some (le_id l)) (le_sequence l) (Some (le_expires l)) (Some (le_not_before l)))) d)
      else Err StaleFence
  | None => Err StaleFence
  end.

Definition activate (session_id : string) (l : Lease) (d : db) : result cp_error db := activate_on d session_id l d.

Definition get_session (session_id : string) (d : db) : option Session := se_session <$> d_sessions d !! session_id.
Definition get_slot (executor slot : string) (d : db) : option Slot := _slot d (executor, slot).

(** The leases of a session that are still active. *)
Definition revoke_leases (session_id : string) (now : Z) (st : lease_state) (leases : gmap string leaserow) :=
  update_where (λ _ r, bool_decide (le_session (lr_lease r) = session_id) && bool_decide (le_state (lr_lease r) = LActive))
    (lease_revoke now st) leases.

(** [renew]: the old leases superseded, then the session row; the claim is read from
    the snapshot of the second statement. *)
Definition renew_on (snap : db) (session_id : string) (expected_epoch : Z) (l : Lease) (d : db) : result cp_error db :=
  let d1 := Db (d_hosts d) (d_slots d) (d_claims d) (d_sessions d)
              (revoke_leases session_id (le_not_before l) LSuperseded (d_leases d)) (d_outbox d) in
  match d_sessions d1 !! session_id with
  | Some r =>
      let s := se_session r in
      if bool_decide (ss_state s = SActive) && (ss_epoch s =? expected_epoch) &&
         (ss_sequence s <? le_sequence l) && claim_held s (le_not_before l) snap
      then insert_lease session_id l
             (set_session session_id
                (sess_put r (session_with s SActive (Some (le_id l)) (le_sequence l) (Some (le_expires l)) (Some (le_not_before l)))) d1)
      else Err StaleFence
  | None => Err StaleFence
  end.

Definition renew (session_id : string) (expected_epoch : Z) (l : Lease) (d : db) : result cp_error db :=
  renew_on d session_id expected_epoch l d.

(** [_finish_session]: the session as it was returned, in state INVALID. *)
Definition _finish_session (now : Z) (session_id reason : string) (expected_epoch : option Z) (d : db)
  : result cp_error (option Session * db) :=
  match d_sessions d !! session_id with
  | None => Ok (None, d)
  | Some r =>
      let s := se_session r in
      if match expected_epoch with Some e => negb (ss_epoch s =? e) | None => false end then Err StaleFence
      else
        let claims := match d_claims d !! ss_claim s with
                      | Some c => if bool_decide (cr_state c = CActive)
                                  then <[ss_claim s := claim_release now c]> (d_claims d) else d_claims d
                      | None => d_claims d
                      end in
        Ok (Some (session_to s INVALID),
            Db (d_hosts d)
               (slot_of_claim (ss_executor s, ss_slot s) (ss_claim s) CLAIMED RELEASING true (d_slots d))
               claims (<[session_id := sess_invalidate now reason r]> (d_sessions d))
               (revoke_leases session_id now LRevoked (d_leases d)) (d_outbox d))
  end.

Definition release (now : Z) (session_id reason : string) (d : db) := _finish_session now session_id reason None d.
Definition invalidate (now : Z) (session_id reason : string) (epoch : option Z) (d : db) :=
  _finish_session now session_id reason epoch d.

(** A session the reclaimer may take: expired, or idle where idling is bounded. *)
Definition reclaimable (now : Z) (idle_before : option Z) (s : Session) : bool :=
  live (ss_state s) &&
  (match ss_expires s with Some e => e <=? now | None => false end ||
   match idle_before, ss_activity s with Some i, Some a => a <=? i | _, _ => false end).

(** The loop over the selected rows: finish, and note the release to be sent. *)
Fixpoint reclaim_rows (dbnow : Z) (ids : list string) (d : db) : db :=
  match ids with
  | [] => d
  | id :: ids =>
      match _finish_session dbnow id "lease_expired" None d with
      | Ok (Some _, d') =>
          reclaim_rows dbnow ids
            (Db (d_hosts d') (d_slots d') (d_claims d') (d_sessions d') (d_leases d')
                (d_outbox d' ++ [Outbox ExecutorRelease id None]))
      | Ok (None, d') => reclaim_rows dbnow ids d'
      | Err _ => reclaim_rows dbnow ids d
      end
  end.

Definition pending_releases (d : db) : list Session :=
  omap (λ o, if bool_decide (ob_kind o = ExecutorRelease) && bool_decide (ob_published o = None)
             then get_session (ob_entity o) d else None) (d_outbox d).

(** [reclaim_instant_sessions]; [unlocked] tells which rows no other transaction
    had locked. *)
Definition reclaim_instant_sessions (dbnow now : Z) (idle_before : option Z) (unlocked : string → bool) (d : db)
  : list Session * db :=
  let ids := (map_to_list (filter (λ kr, reclaimable now idle_before (se_session kr.2) && unlocked kr.1) (d_sessions d))).*1 in
  let d' := reclaim_rows dbnow ids d in
  (pending_releases d', d').

Definition complete_reclaim (now : Z) (session_id : string) (d : db) : db :=
  match d_sessions d !! session_id with
  | None => d
  | Some r =>
      let s := se_session r in
      Db (d_hosts d) (slot_of_claim (ss_executor s, ss_slot s) (ss_claim s) RELEASING READY false (d_slots d))
         (d_claims d) (d_sessions d) (d_leases d)
         ((λ o, if bool_decide (ob_kind o = ExecutorRelease) && bool_decide (ob_entity o = session_id) &&
                   bool_decide (ob_published o = None)
                then Outbox (ob_kind o) (ob_entity o) (Some now) else o) <$> d_outbox d)
  end.

Definition drain (executor : string) (deadline : Z) (d : db) : result cp_error (list string * db) :=
  match d_hosts d !! executor with
  | None => Err KeyErr
  | Some h =>
      let affected := λ (_ : string) r, bool_decide (ss_executor (se_session r) = executor) &&
                                        bool_decide (ss_state (se_session r) = SActive) in
      Ok ((map_to_list (filter (λ kr, affected kr.1 kr.2 = true) (d_sessions d))).*1,
          Db (<[executor := Host HDraining (ho_epoch h) (ho_capacity h) (ho_ready h) (ho_endpoint h)
                              (ho_heartbeat h) (Some deadline) (ho_version h + 1)]> (d_hosts d))
             (update_where (λ k _, bool_decide (k.1 = executor)) (λ r, slot_set r SDRAINING (sr_claim r)) (d_slots d))
             (d_claims d)
             (update_where affected (λ r, sess_put r (session_to (se_session r) SessDraining)) (d_sessions d))
             (d_leases d) (d_outbox d))
  end.

End postgres.
