(* ===== verification/ExecSystem.v ===== *)
(** * The control store under concurrent callers

    Transactions of [PostgresStore] interleaved in any order by any number of
    control-plane workers, executors and reapers, the database clock and the
    callers' clocks arbitrary: first one whole transaction at a time ([cp_step]),
    then as READ COMMITTED runs them ([rc_step]), statement by statement, with
    unlocked rows read from older snapshots.  A worker that has claimed a slot and not yet
    created its session holds the claim {e in hand}, as [ControlPlane._assign]
    does between [claim_ready_slot] and [create_session]; it creates at most one
    session with it, or aborts it, or dies with it. *)

From S2P Require Import Prelude Json ExecStore.
Local Open Scope Z_scope.

(** The claim and the slot of a session row. *)
Abbreviation claim_of r := (ss_claim (se_session r)).
Abbreviation seat_of r := (ss_executor (se_session r), ss_slot (se_session r)).
Abbreviation ident_of r := (ss_id (se_session r), ss_executor (se_session r), ss_slot (se_session r)).

Section system.
Context (heartbeat_timeout : Z).

Record sys := Sys { y_db : db; y_hand : gset string }.
Definition sys_init : sys := Sys db_init ∅.

Inductive cp_step (y : sys) : sys → Prop :=
| cp_register now ex ep slots :
    cp_step y (Sys (register_host now ex ep slots (y_db y)) (y_hand y))
| cp_readiness now ex slot ready code runtime d :
    set_readiness now ex slot ready code runtime (y_db y) = Ok d → cp_step y (Sys d (y_hand y))
| cp_heartbeat now ex d : heartbeat now ex (y_db y) = Ok d → cp_step y (Sys d (y_hand y))
| cp_claim_slot dbnow cid ex slot version now lifetime c d :
    claim_slot heartbeat_timeout dbnow cid ex slot version now lifetime (y_db y) = Ok (c, d) →
    cp_step y (Sys d ({[cl_id c]} ∪ y_hand y))
| cp_claim_ready dbnow cid now lifetime pick c d :
    claim_attempt heartbeat_timeout dbnow cid now lifetime pick (y_db y) = Ok (Some (c, d)) →
    cp_step y (Sys d ({[cl_id c]} ∪ y_hand y))
| cp_abort now cid : cid ∈ y_hand y → cp_step y (Sys (abort_claim now cid (y_db y)) (y_hand y ∖ {[cid]}))
| cp_create now s d : ss_claim s ∈ y_hand y → create_session now s (y_db y) = Ok d →
    cp_step y (Sys d (y_hand y ∖ {[ss_claim s]}))
| cp_activate id l d : activate id l (y_db y) = Ok d → cp_step y (Sys d (y_hand y))
| cp_renew id epoch l d : renew id epoch l (y_db y) = Ok d → cp_step y (Sys d (y_hand y))
| cp_finish now id reason epoch r d :
    _finish_session now id reason epoch (y_db y) = Ok (r, d) → cp_step y (Sys d (y_hand y))
| cp_reclaim dbnow now idle unlocked l d :
    reclaim_instant_sessions dbnow now idle unlocked (y_db y) = (l, d) → cp_step y (Sys d (y_hand y))
| cp_complete now id : cp_step y (Sys (complete_reclaim now id (y_db y)) (y_hand y))
| cp_drain ex deadline l d : drain ex deadline (y_db y) = Ok (l, d) → cp_step y (Sys d (y_hand y)).

Definition cp_reachable (y : sys) : Prop := star cp_step sys_init y.

(** ** The invariant *)

Definition is_active (c : claimrow) : Prop := cr_state c = CActive.
Definition is_live (r : sessrow) : Prop := live (ss_state (se_session r)) = true.
Definition of_slot (k : string * string) (c : claimrow) : Prop := cr_host c = k.1 ∧ cr_slot c = k.2.

Record cp_ok (y : sys) : Prop := {
  ok_one : ∀ k i j c e, d_claims (y_db y) !! i = Some c → d_claims (y_db y) !! j = Some e →
    is_active c → is_active e → of_slot k c → of_slot k e → i = j;
  ok_sess : ∀ id r, d_sessions (y_db y) !! id = Some r →
    ∃ c, d_claims (y_db y) !! claim_of r = Some c ∧ of_slot (seat_of r) c ∧ (is_live r ↔ is_active c);
  ok_key : ∀ id r, d_sessions (y_db y) !! id = Some r → ss_id (se_session r) = id;
  ok_uniq : ∀ i j r q, d_sessions (y_db y) !! i = Some r → d_sessions (y_db y) !! j = Some q →
    claim_of r = claim_of q → i = j;
  ok_hand : ∀ c, c ∈ y_hand y → is_Some (d_claims (y_db y) !! c) ∧
    ∀ id r, d_sessions (y_db y) !! id = Some r → claim_of r ≠ c;
  ok_claimed : ∀ k r, d_slots (y_db y) !! k = Some r → sr_state r = CLAIMED →
    ∃ i c, sr_claim r = Some i ∧ d_claims (y_db y) !! i = Some c ∧ is_active c ∧ of_slot k c }.

(** What every transaction but a claim or a creation does: session rows keep
    their claim and seat and are not revived, claims are at most released. *)
Definition sess_evolve (m m' : gmap string sessrow) : Prop :=
  ∀ id r', m' !! id = Some r' → ∃ r, m !! id = Some r ∧ claim_of r' = claim_of r ∧ ident_of r' = ident_of r ∧
    (is_live r' → is_live r).
Definition claims_evolve (m m' : gmap string claimrow) : Prop :=
  (∀ i c', m' !! i = Some c' → ∃ c, m !! i = Some c ∧ cr_host c' = cr_host c ∧ cr_slot c' = cr_slot c ∧
     (is_active c' → is_active c)) ∧
  (∀ i, is_Some (m !! i) → is_Some (m' !! i)).

Lemma sess_evolve_refl m : sess_evolve m m.
Proof. intros id r Hr. eauto. Qed.
Lemma claims_evolve_refl m : claims_evolve m m.
Proof. split; [|done]. intros i c Hc. eauto. Qed.

Lemma sess_evolve_trans m1 m2 m3 : sess_evolve m1 m2 → sess_evolve m2 m3 → sess_evolve m1 m3.
Proof.
  intros H1 H2 id r3 Hr3. destruct (H2 id r3 Hr3) as (r2 & Hr2 & A & B & C).
  destruct (H1 id r2 Hr2) as (r1 & Hr1 & A' & B' & C'). exists r1. split; [done|].
  split; [congruence|]. split; [congruence|auto].
Qed.
Lemma claims_evolve_trans m1 m2 m3 : claims_evolve m1 m2 → claims_evolve m2 m3 → claims_evolve m1 m3.
Proof.
  intros [H1 H1'] [H2 H2']. split; [|auto]. intros i c3 Hc3. destruct (H2 i c3 Hc3) as (c2 & Hc2 & A & B & C).
  destruct (H1 i c2 Hc2) as (c1 & Hc1 & A' & B' & C'). exists c1. split; [done|].
  split; [congruence|]. split; [congruence|auto].
Qed.

Lemma cp_ok_evolve d d' hand hand' :
  cp_ok (Sys d hand) → hand' ⊆ hand →
  sess_evolve (d_sessions d) (d_sessions d') → claims_evolve (d_claims d) (d_claims d') →
  (∀ id r c, d_sessions d' !! id = Some r → d_claims d' !! claim_of r = Some c → is_live r ↔ is_active c) →
  (∀ k r, d_slots d' !! k = Some r → sr_state r = CLAIMED →
    ∃ i c, sr_claim r = Some i ∧ d_claims d' !! i = Some c ∧ is_active c ∧ of_slot k c) →
  cp_ok (Sys d' hand').
Proof.
  intros [H1 H2 Hid H3 H4 H5] Hh Hs [Hc Hc'] Hl Hk. split; simpl in *; try done.
  - intros k i j c e Hi Hj Ai Aj [S1 S2] [S3 S4].
    destruct (Hc i c Hi) as (c0 & Hi0 & E1 & E2 & E3). destruct (Hc j e Hj) as (e0 & Hj0 & E4 & E5 & E6).
    apply (H1 k i j c0 e0); auto; split; congruence.
  - intros id r' Hr'. destruct (Hs id r' Hr') as (r & Hr & Ecl & Eseat & _).
    destruct (H2 id r Hr) as (c0 & Hc0 & [S1 S2] & _).
    destruct (Hc' (claim_of r')) as [c Hcc]; [rewrite Ecl; eauto|]. exists c. split; [done|].
    destruct (Hc _ c Hcc) as (c1 & Hc1 & E1 & E2 & _). rewrite Ecl, Hc0 in Hc1. injection Hc1 as <-.
    split; [|by eapply Hl]. split; simpl in *; congruence.
  - intros id r' Hr'. destruct (Hs id r' Hr') as (r & Hr & _ & Eid & _). rewrite <- (Hid id r Hr). congruence.
  - intros i j r q Hi Hj Heq. destruct (Hs i r Hi) as (r0 & Hr0 & E & _). destruct (Hs j q Hj) as (q0 & Hq0 & F & _).
    apply (H3 i j r0 q0); auto; congruence.
  - intros c Hin. destruct (H4 c) as [Hsome Hno]; [set_solver|]. split; [auto|].
    intros id r Hr. destruct (Hs id r Hr) as (r0 & Hr0 & -> & _). eauto.
Qed.

(** A transaction that writes only hosts, slots, leases and the outbox. *)
Lemma cp_ok_slots d d' hand hand' :
  cp_ok (Sys d hand) → hand' ⊆ hand → d_sessions d' = d_sessions d → d_claims d' = d_claims d →
  (∀ k r, d_slots d' !! k = Some r → sr_state r = CLAIMED →
    ∃ r0, d_slots d !! k = Some r0 ∧ sr_state r0 = CLAIMED ∧ sr_claim r0 = sr_claim r) →
  cp_ok (Sys d' hand').
Proof.
  intros Hok Hh Es Ec Hk. eapply (cp_ok_evolve d); [done|done|..].
  - rewrite Es. apply sess_evolve_refl.
  - rewrite Ec. apply claims_evolve_refl.
  - intros id r c Hr Hc. rewrite Es in Hr. rewrite Ec in Hc. destruct (ok_sess _ Hok id r Hr) as (c0 & Hc0 & _ & Hiff).
    simpl in *. by simplify_eq.
  - intros k r Hr Hst. destruct (Hk k r Hr Hst) as (r0 & Hr0 & Hst0 & Hcl).
    destruct (ok_claimed _ Hok k r0 Hr0 Hst0) as (i & c & Hi & Hc & Ha). exists i, c.
    rewrite Ec, <- Hcl. done.
Qed.

Lemma slot_of_claim_claimed k claim from to keep slots k' r :
  to ≠ CLAIMED → slot_of_claim k claim from to keep slots !! k' = Some r → sr_state r = CLAIMED →
  slots !! k' = Some r ∧ (from = CLAIMED → k' = k → sr_claim r ≠ Some claim).
Proof.
  intros Hto. unfold slot_of_claim. destruct (slots !! k) as [r0|] eqn:Hk.
  2:{ intros Hr Hst. split; [done|]. intros _ ->. congruence. }
  destruct (bool_decide (sr_claim r0 = Some claim) && bool_decide (sr_state r0 = from)) eqn:Htest.
  - destruct (decide (k' = k)) as [->|Hne].
    + rewrite lookup_insert_eq. intros [= <-]. simpl. congruence.
    + rewrite lookup_insert_ne by done. intros Hr Hst. split; [done|]. congruence.
  - intros Hr Hst. split; [done|]. intros -> -> Hcl. rewrite Hk in Hr. injection Hr as ->.
    rewrite !bool_decide_eq_true_2 in Htest by done. done.
Qed.

Lemma insert_evolve m id r r' :
  m !! id = Some r → claim_of r' = claim_of r → ident_of r' = ident_of r → (is_live r' → is_live r) →
  sess_evolve m (<[id := r']> m).
Proof.
  intros Hr A B C i q. destruct (decide (i = id)) as [->|Hne].
  - rewrite lookup_insert_eq. intros [= <-]. eauto.
  - rewrite lookup_insert_ne by done. intros Hq. eauto.
Qed.

Lemma release_evolve m i c now : m !! i = Some c → claims_evolve m (<[i := claim_release now c]> m).
Proof.
  intros Hc. split.
  - intros j e. destruct (decide (j = i)) as [->|Hne].
    + rewrite lookup_insert_eq. intros [= <-]. exists c. do 3 (split; [done|]). by intros [=].
    + rewrite lookup_insert_ne by done. intros He. eauto.
  - intros j [e He]. destruct (decide (j = i)) as [->|Hne].
    + rewrite lookup_insert_eq. eauto.
    + rewrite lookup_insert_ne by done. eauto.
Qed.

(** *** One lemma per transaction *)

Lemma abort_ok now cid d hand :
  cp_ok (Sys d hand) → cid ∈ hand → cp_ok (Sys (abort_claim now cid d) (hand ∖ {[cid]})).
Proof.
  intros Hok Hin. unfold abort_claim. destruct (d_claims d !! cid) as [c|] eqn:Hc.
  2:{ eapply (cp_ok_slots d); eauto; set_solver. }
  destruct (bool_decide (cr_state c = CActive)) eqn:Ha.
  2:{ eapply (cp_ok_slots d); eauto; set_solver. }
  destruct (ok_hand _ Hok cid Hin) as [_ Hno]. simpl in Hno.
  eapply (cp_ok_evolve d); [done|set_solver|apply sess_evolve_refl|by apply release_evolve|..]; simpl.
  - intros id r e Hr He. destruct (ok_sess _ Hok id r Hr) as (e0 & He0 & _ & Hiff). simpl in *.
    rewrite lookup_insert_ne in He by (intros ->; by eapply Hno). by simplify_eq.
  - intros k r Hr Hst. apply slot_of_claim_claimed in Hr as [Hr0 Hne]; [|done..].
    destruct (ok_claimed _ Hok k r Hr0 Hst) as (i & e & Hi & He & Hae & Hs). simpl in *. exists i, e.
    split; [done|]. split; [|done]. rewrite lookup_insert_ne; [done|]. intros <-.
    rewrite Hc in He. injection He as ->. apply Hne; [done| |done]. destruct k, Hs; simpl in *; congruence.
Qed.

Lemma finish_ok now id reason epoch x d d' hand :
  cp_ok (Sys d hand) → _finish_session now id reason epoch d = Ok (x, d') → cp_ok (Sys d' hand).
Proof.
  intros Hok. unfold _finish_session. destruct (d_sessions d !! id) as [r|] eqn:Hr; [|by intros [= _ <-]].
  destruct (match epoch with Some e => _ | None => _ end); [done|]. intros [= _ <-].
  destruct (ok_sess _ Hok id r Hr) as (c & Hc & Hseat & Hiff). simpl in Hc. rewrite Hc.
  set (claims := if bool_decide (cr_state c = CActive) then _ else _).
  assert (Hev : claims_evolve (d_claims d) claims).
  { unfold claims. destruct (bool_decide _); [by apply release_evolve|apply claims_evolve_refl]. }
  assert (Hoff : ∀ c', claims !! claim_of r = Some c' → ¬ is_active c').
  { unfold claims, is_active. destruct (bool_decide _) eqn:Ha.
    - rewrite lookup_insert_eq. intros c' [= <-]. done.
    - rewrite Hc. intros c' [= <-]. by apply bool_decide_eq_false in Ha. }
  assert (Hother : ∀ j, j ≠ claim_of r → claims !! j = d_claims d !! j).
  { intros j Hj. unfold claims. destruct (bool_decide _); [by rewrite lookup_insert_ne|done]. }
  eapply (cp_ok_evolve d); [done|done| |exact Hev|..]; simpl.
  - by apply (insert_evolve _ _ r).
  - intros j q e Hq He. destruct (decide (j = id)) as [->|Hne].
    + rewrite lookup_insert_eq in Hq. injection Hq as <-. simpl in He. apply Hoff in He.
      split; [by intros [=]|done].
    + rewrite lookup_insert_ne in Hq by done. destruct (ok_sess _ Hok j q Hq) as (e0 & He0 & _ & Hiff').
      rewrite Hother in He; [|intros Heq; apply Hne; by apply (ok_uniq _ Hok j id q r)].
      simpl in *. by simplify_eq.
  - intros k q Hq Hst. apply slot_of_claim_claimed in Hq as [Hq0 Hne]; [|done..].
    destruct (ok_claimed _ Hok k q Hq0 Hst) as (i & e & Hi & He & Hae & Hs). simpl in *. exists i, e.
    split; [done|]. split; [|done]. rewrite Hother; [done|]. intros ->. rewrite Hc in He. injection He as ->.
    apply Hne; [done| |done]. destruct k, Hs, Hseat; simpl in *; congruence.
Qed.

Lemma update_claims_evolve p now (m : gmap string claimrow) :
  claims_evolve m (update_where p (claim_release now) m).
Proof.
  split.
  - intros i c' (c & Hc & ->)%update_where_Some. exists c. split; [done|]. by destruct (p i c).
  - intros i [c Hc]. rewrite lookup_update_where, Hc. eauto.
Qed.

Lemma update_sess_evolve p f (m : gmap string sessrow) :
  (∀ r, claim_of (f r) = claim_of r ∧ ident_of (f r) = ident_of r) →
  (∀ id r, p id r = true → is_live (f r) → is_live r) → sess_evolve m (update_where p f m).
Proof.
  intros Hf Hl id r' (r & Hr & ->)%update_where_Some. exists r. split; [done|].
  destruct (p id r) eqn:Hp; [|done]. destruct (Hf r) as [A B]. eauto.
Qed.

Lemma register_slots_not_claimed ex slots ids k r :
  (∀ r0, slots !! k = Some r0 → k.1 = ex → sr_state r0 ≠ CLAIMED) →
  foldl (register_slot ex) slots ids !! k = Some r → sr_state r = CLAIMED →
  slots !! k = Some r ∧ k.1 ≠ ex.
Proof.
  revert slots. induction ids as [|id ids IH]; intros slots Hno Hr Hst; simpl in Hr.
  - split; [done|]. intros Heq. by eapply Hno.
  - assert (Hk : ∀ r0, register_slot ex slots id !! k = Some r0 →
              (k = (ex, id) ∧ sr_state r0 = STARTING) ∨ slots !! k = Some r0).
    { intros r0. unfold register_slot. destruct (decide (k = (ex, id))) as [->|Hne].
      - rewrite lookup_insert_eq. intros [= <-]. left. split; [done|]. by destruct (slots !! _).
      - rewrite lookup_insert_ne by done. eauto. }
    destruct (IH (register_slot ex slots id)) as [Hr' Hne]; [|done|done|].
    + intros r0 Hr0 Heq. destruct (Hk r0 Hr0) as [[_ ->]|Hr0']; [done|eauto].
    + destruct (Hk r Hr') as [[_ Hs]|Hs]; [congruence|done].
Qed.

Lemma register_ok now ex ep ids d hand :
  cp_ok (Sys d hand) → cp_ok (Sys (register_host now ex ep ids d) hand).
Proof.
  intros Hok. eapply (cp_ok_evolve d); [done|done| |apply update_claims_evolve|..]; simpl.
  - apply update_sess_evolve; [done|]. intros id r Hp. by intros [=].
  - intros id r' c' (r & Hr & ->)%update_where_Some (c & Hc & ->)%update_where_Some.
    assert (Hcl : claim_of (if bool_decide (ss_executor (se_session r) = ex) && live (ss_state (se_session r))
                            then sess_invalidate now "host_reregistered" r else r) = claim_of r) by (by case_match).
    rewrite Hcl in Hc. destruct (ok_sess _ Hok id r Hr) as (c0 & Hc0 & [Hh _] & Hiff). simpl in *. simplify_eq.
    rewrite Hh. unfold is_live, is_active in *.
    destruct (bool_decide (ss_executor (se_session r) = ex)) eqn:He; simpl; [|done].
    destruct (live (ss_state (se_session r))) eqn:Hl; simpl.
    + rewrite bool_decide_eq_true_2 by (by apply Hiff). done.
    + rewrite bool_decide_eq_false_2; [rewrite Hl; by rewrite <- Hiff|]. rewrite <- Hiff. done.
  - intros k r Hr Hst. apply register_slots_not_claimed in Hr as [Hr Hne]; [|clear|done].
    2:{ intros r0 (q & Hq & ->)%update_where_Some ->. by rewrite bool_decide_eq_true_2. }
    apply update_where_Some in Hr as (q & Hq & ->). rewrite bool_decide_eq_false_2 in * by done.
    destruct (ok_claimed _ Hok k q Hq Hst) as (i & c & Hi & Hc & Ha & Hs). exists i, c. split; [done|].
    split; [|done]. simpl in Hc. rewrite lookup_update_where, Hc. simpl. destruct Hs as [-> _].
    by rewrite bool_decide_eq_false_2.
Qed.

Lemma drain_ok ex deadline l d d' hand :
  cp_ok (Sys d hand) → drain ex deadline d = Ok (l, d') → cp_ok (Sys d' hand).
Proof.
  intros Hok. unfold drain. destruct (d_hosts d !! ex) as [h|]; [|done]. intros [= _ <-].
  eapply (cp_ok_evolve d); [done|done| |apply claims_evolve_refl|..]; simpl.
  - apply update_sess_evolve; [done|]. intros id r Hp _. bool_prop. unfold is_live. by rewrite H0.
  - intros id r' c (r & Hr & ->)%update_where_Some Hc.
    destruct (ok_sess _ Hok id r Hr) as (c0 & Hc0 & _ & Hiff). simpl in *.
    destruct (bool_decide (ss_executor _ = ex) && _) eqn:Hp; simpl in Hc; simplify_eq; [|done].
    bool_prop. rewrite <- Hiff. unfold is_live. simpl. rewrite H0. done.
  - intros k r (q & Hq & ->)%update_where_Some. destruct (bool_decide (k.1 = ex)); [done|].
    apply (ok_claimed _ Hok k q Hq).
Qed.

Lemma readiness_ok now ex slot ready code runtime d d' hand :
  cp_ok (Sys d hand) → set_readiness now ex slot ready code runtime d = Ok d' → cp_ok (Sys d' hand).
Proof.
  intros Hok. unfold set_readiness. destruct (d_slots d !! (ex, slot)); [|done].
  destruct (d_hosts d !! ex); [|done]. case_match; [|done]. intros [= <-].
  eapply (cp_ok_slots d); try done. simpl. intros k r.
  destruct (decide (k = (ex, slot))) as [->|Hne].
  - rewrite lookup_insert_eq. intros [= <-]. simpl. by destruct ready.
  - rewrite lookup_insert_ne by done. eauto.
Qed.

Lemma complete_ok now id d hand : cp_ok (Sys d hand) → cp_ok (Sys (complete_reclaim now id d) hand).
Proof.
  intros Hok. unfold complete_reclaim. destruct (d_sessions d !! id) as [r|]; [|done].
  eapply (cp_ok_slots d); try done. simpl. intros k q Hq Hst.
  apply slot_of_claim_claimed in Hq as [Hq _]; [|done..]. eauto.
Qed.

Lemma reclaim_rows_ok now ids d hand : cp_ok (Sys d hand) → cp_ok (Sys (reclaim_rows now ids d) hand).
Proof.
  revert d. induction ids as [|id ids IH]; intros d Hok; simpl; [done|].
  destruct (_finish_session now id "lease_expired" None d) as [[[s|] d']|] eqn:Hf; [|by eapply IH, finish_ok|by apply IH].
  apply IH. eapply (cp_ok_slots d'); try done; [by eapply finish_ok|]. simpl. eauto.
Qed.

Lemma insert_lease_rows id l d d' :
  insert_lease id l d = Ok d' →
  d_sessions d' = d_sessions d ∧ d_claims d' = d_claims d ∧ d_slots d' = d_slots d.
Proof. unfold insert_lease. case_match; [done|]. by intros [= <-]. Qed.

(** Writing the lease of a live session back into its row. *)
Lemma lease_session_ok id r s' l d d' hand :
  cp_ok (Sys d hand) → d_sessions d !! id = Some r → is_live r →
  ss_claim s' = claim_of r → (ss_id s', ss_executor s', ss_slot s') = ident_of r → live (ss_state s') = true →
  insert_lease id l (set_session id (sess_put r s') d) = Ok d' → cp_ok (Sys d' hand).
Proof.
  intros Hok Hr Hlive Ec Eseat Hl' (Es & Ecl & Esl)%insert_lease_rows. simpl in *.
  eapply (cp_ok_evolve d); [done|done|..].
  - rewrite Es. by apply (insert_evolve _ _ r).
  - rewrite Ecl. apply claims_evolve_refl.
  - rewrite Es, Ecl. intros j q c Hq Hc. destruct (decide (j = id)) as [->|Hne].
    + rewrite lookup_insert_eq in Hq. injection Hq as <-. simpl in Hc. rewrite Ec in Hc.
      destruct (ok_sess _ Hok id r Hr) as (c0 & Hc0 & _ & Hiff). simpl in *. simplify_eq.
      rewrite <- Hiff. split; [done|]. done.
    + rewrite lookup_insert_ne in Hq by done. destruct (ok_sess _ Hok j q Hq) as (c0 & Hc0 & _ & Hiff).
      simpl in *. by simplify_eq.
  - rewrite Esl, Ecl. apply (ok_claimed _ Hok).
Qed.

Lemma activate_ok id l d d' hand : cp_ok (Sys d hand) → activate id l d = Ok d' → cp_ok (Sys d' hand).
Proof.
  intros Hok. unfold activate, activate_on. destruct (d_sessions d !! id) as [r|] eqn:Hr; [|done].
  destruct (_ && claim_seated _ _) eqn:Ht; [|done]. bool_prop. intros Hi.
  eapply (lease_session_ok id r); [done|done| | | | |exact Hi]; try done. unfold is_live. by rewrite H.
Qed.

Lemma cp_ok_leases d leases hand :
  cp_ok (Sys d hand) → cp_ok (Sys (Db (d_hosts d) (d_slots d) (d_claims d) (d_sessions d) leases (d_outbox d)) hand).
Proof. intros Hok. eapply (cp_ok_slots d); try done. simpl. eauto. Qed.

Lemma renew_ok id epoch l d d' hand : cp_ok (Sys d hand) → renew id epoch l d = Ok d' → cp_ok (Sys d' hand).
Proof.
  intros Hok. unfold renew, renew_on. simpl. destruct (d_sessions d !! id) as [r|] eqn:Hr; [|done].
  destruct (_ && claim_held _ _ _) eqn:Ht; [|done]. bool_prop. intros Hi.
  eapply (lease_session_ok id r); [by apply cp_ok_leases|done| | | | |exact Hi]; try done. unfold is_live. by rewrite H.
Qed.

Lemma slot_taken_false d k i c :
  slot_taken d k = false → d_claims d !! i = Some c → is_active c → ¬ of_slot k c.
Proof.
  unfold slot_taken. intros Hf%bool_decide_eq_false Hc Ha [H1 H2]. apply Hf. exists i, c. done.
Qed.

Lemma claim_row_ok expires cid k r c d d' hand :
  cp_ok (Sys d hand) → d_slots d !! k = Some r → claim_row expires cid k r d = Ok (c, d') →
  cp_ok (Sys d' ({[cl_id c]} ∪ hand)).
Proof.
  intros Hok Hr. unfold claim_row. destruct (_ || _) eqn:Ht; [done|]. intros [= <- <-].
  apply orb_false_iff in Ht as [Hf%bool_decide_eq_false Htaken]. rewrite <- eq_None_not_Some in Hf.
  set (row := ClaimRow _ _ _ _ _ _ _). assert (Hk : of_slot k row) by done.
  destruct Hok as [H1 H2 Hid H3 H4 H5]. simpl in *. split; simpl.
  - intros q i j x e. destruct (decide (i = cid)) as [->|Hi], (decide (j = cid)) as [->|Hj];
      rewrite ?lookup_insert_eq, ?lookup_insert_ne by done.
    + done.
    + intros [= <-] He _ Ae [Q1 Q2] [Q3 Q4]. exfalso. apply (slot_taken_false d k j e); try done.
      destruct Hk. split; congruence.
    + intros Hx [= <-] Ax _ [Q1 Q2] [Q3 Q4]. exfalso. apply (slot_taken_false d k i x); try done.
      destruct Hk. split; congruence.
    + apply H1.
  - intros id q Hq. destruct (H2 id q Hq) as (x & Hx & Hs & Hiff). exists x.
    rewrite lookup_insert_ne by congruence. done.
  - done.
  - done.
  - intros x [->%elem_of_singleton|Hin]%elem_of_union.
    + rewrite lookup_insert_eq. split; [eauto|]. intros id q Hq Heq.
      destruct (H2 id q Hq) as (y & Hy & _). congruence.
    + destruct (H4 x Hin) as [Hsome Hno]. split; [|done]. rewrite lookup_insert_ne; [done|]. intros ->.
      destruct Hsome. congruence.
  - intros q s. destruct (decide (q = k)) as [->|Hne].
    + rewrite lookup_insert_eq. intros [= <-] _. exists cid, row. rewrite lookup_insert_eq. done.
    + rewrite lookup_insert_ne by done. intros Hs Hst. destruct (H5 q s Hs Hst) as (i & e & Hi & He & Hae).
      exists i, e. rewrite lookup_insert_ne by congruence. done.
Qed.

Lemma create_ok now s d d' hand :
  cp_ok (Sys d hand) → ss_claim s ∈ hand → create_session now s d = Ok d' →
  cp_ok (Sys d' (hand ∖ {[ss_claim s]})).
Proof.
  intros [H1 H2 Hid H3 H4 H5] Hin. simpl in *. destruct (H4 _ Hin) as [_ Hno]. unfold create_session, create_on.
  destruct (valid_claim now s d) eqn:Hv; [|done]. unfold valid_claim in Hv.
  destruct (d_claims d !! ss_claim s) as [c|] eqn:Hc; [|done]. bool_prop.
  set (row a v := SessRow (session_with s BINDING None 0 None a) None None v). intros Hd.
  assert (∃ a v, d_sessions d' = <[ss_id s := row a v]> (d_sessions d) ∧ d_claims d' = d_claims d ∧
            d_slots d' = d_slots d) as (a & v & Es & Ec & Esl).
  { destruct (d_sessions d !! ss_id s) as [q|]; [destruct (live _); [done|]|]; injection Hd as <-; eauto. }
  split; simpl; rewrite ?Es, ?Ec, ?Esl; try done.
  - intros id r. destruct (decide (id = ss_id s)) as [->|Hne].
    + rewrite lookup_insert_eq. intros [= <-]. exists c. split; [done|]. split; [done|].
      unfold is_live, is_active. split; done.
    + rewrite lookup_insert_ne by done. apply H2.
  - intros id r. destruct (decide (id = ss_id s)) as [->|Hne].
    + rewrite lookup_insert_eq. by intros [= <-].
    + rewrite lookup_insert_ne by done. apply Hid.
  - intros i j r q. destruct (decide (i = ss_id s)) as [->|Hi], (decide (j = ss_id s)) as [->|Hj];
      rewrite ?lookup_insert_eq, ?lookup_insert_ne by done; try done.
    + intros [= <-] Hq Heq. by destruct (Hno j q Hq).
    + intros Hq [= <-] Heq. by destruct (Hno i r Hq).
    + apply H3.
  - intros x [Hx Hnx]%elem_of_difference. destruct (H4 x Hx) as [Hsome Hx']. split; [done|].
    intros id r. destruct (decide (id = ss_id s)) as [->|Hne].
    + rewrite lookup_insert_eq. intros [= <-]. simpl. set_solver.
    + rewrite lookup_insert_ne by done. apply Hx'.
Qed.

Lemma heartbeat_ok now ex d d' hand : cp_ok (Sys d hand) → heartbeat now ex d = Ok d' → cp_ok (Sys d' hand).
Proof.
  intros Hok. unfold heartbeat. case_match; [|done]. intros [= <-]. eapply (cp_ok_slots d); try done. simpl. eauto.
Qed.

Lemma claim_slot_inv dbnow cid ex slot version now lifetime c d d' :
  claim_slot heartbeat_timeout dbnow cid ex slot version now lifetime d = Ok (c, d') →
  ∃ r, d_slots d !! (ex, slot) = Some r ∧ claim_row (now + lifetime) cid (ex, slot) r d = Ok (c, d').
Proof. unfold claim_slot. destruct (d_slots d !! _) as [r|]; [|done]. case_match; [|done]. eauto. Qed.

Lemma claim_attempt_inv dbnow cid now lifetime pick c d d' :
  claim_attempt heartbeat_timeout dbnow cid now lifetime pick d = Ok (Some (c, d')) →
  ∃ k r, d_slots d !! k = Some r ∧ claim_row (now + lifetime) cid k r d = Ok (c, d').
Proof.
  unfold claim_attempt. destruct pick as [k|]; [|done]. destruct (d_slots d !! k) as [r|] eqn:Hr; [|done].
  case_match; [|done]. intros ([c1 d1] & Hx & [= <- <-])%result_bind_Ok. eauto.
Qed.

Lemma cp_step_ok y y' : cp_ok y → cp_step y y' → cp_ok y'.
Proof.
  destruct y as [d hand]. intros Hok. destruct 1; simpl in *.
  - by apply register_ok.
  - by eapply readiness_ok.
  - by eapply heartbeat_ok.
  - destruct (claim_slot_inv _ _ _ _ _ _ _ _ _ _ H) as (r & Hr & Hrow). by eapply claim_row_ok.
  - destruct (claim_attempt_inv _ _ _ _ _ _ _ _ H) as (k & r & Hr & Hrow). by eapply claim_row_ok.
  - by apply abort_ok.
  - by eapply create_ok.
  - by eapply activate_ok.
  - by eapply renew_ok.
  - by eapply finish_ok.
  - unfold reclaim_instant_sessions in H. injection H as _ <-. by apply reclaim_rows_ok.
  - by apply complete_ok.
  - by eapply drain_ok.
Qed.

(** *** Claims are released once and for all *)

Lemma finish_claims now id reason epoch x d d' :
  _finish_session now id reason epoch d = Ok (x, d') → claims_evolve (d_claims d) (d_claims d').
Proof.
  unfold _finish_session. destruct (d_sessions d !! id) as [r|]; [|intros [= _ <-]; apply claims_evolve_refl].
  destruct (match epoch with Some e => _ | None => _ end); [done|]. intros [= _ <-]. simpl.
  destruct (d_claims d !! ss_claim (se_session r)) as [c|] eqn:Hc; [|apply claims_evolve_refl].
  destruct (bool_decide _); [by apply release_evolve|apply claims_evolve_refl].
Qed.

Lemma reclaim_claims now ids d : claims_evolve (d_claims d) (d_claims (reclaim_rows now ids d)).
Proof.
  revert d. induction ids as [|id ids IH]; intros d; simpl; [apply claims_evolve_refl|].
  destruct (_finish_session now id "lease_expired" None d) as [[[s|] d']|] eqn:Hf; [..|apply IH].
  - eapply claims_evolve_trans; [by eapply finish_claims|]. apply (IH (Db _ _ (d_claims d') _ _ _)).
  - eapply claims_evolve_trans; [by eapply finish_claims|apply IH].
Qed.

Lemma claim_row_claims expires cid k r c d d' :
  claim_row expires cid k r d = Ok (c, d') →
  d_claims d !! cid = None ∧ ∃ row, d_claims d' = <[cid := row]> (d_claims d).
Proof.
  unfold claim_row. destruct (_ || _) eqn:Ht; [done|]. intros [= <- <-].
  apply orb_false_iff in Ht as [Hf%bool_decide_eq_false _]. rewrite <- eq_None_not_Some in Hf. eauto.
Qed.

Lemma claims_kept_released m m' i (c : claimrow) :
  claims_evolve m m' ∨ (∃ cid row, m !! cid = None ∧ m' = <[cid := row]> m) →
  m !! i = Some c → ¬ is_active c → ∃ c', m' !! i = Some c' ∧ ¬ is_active c'.
Proof.
  intros [[He Hs]|(cid & row & Hn & ->)] Hc Hna.
  - destruct (Hs i) as [c' Hc']; [eauto|]. exists c'. split; [done|]. destruct (He i c' Hc') as (c0 & Hc0 & _ & _ & Ha).
    simplify_eq. auto.
  - exists c. rewrite lookup_insert_ne by congruence. done.
Qed.

Lemma released_forever y y' i c :
  cp_step y y' → d_claims (y_db y) !! i = Some c → ¬ is_active c →
  ∃ c', d_claims (y_db y') !! i = Some c' ∧ ¬ is_active c'.
Proof.
  intros Hstep Hc Hna.
  assert (Hcase : claims_evolve (d_claims (y_db y)) (d_claims (y_db y')) ∨
    ∃ cid row, d_claims (y_db y) !! cid = None ∧ d_claims (y_db y') = <[cid := row]> (d_claims (y_db y))).
  { destruct Hstep; simpl; try (left; apply claims_evolve_refl).
    - left. apply update_claims_evolve.
    - unfold set_readiness in H. repeat (case_match; try done); injection H as <-; left; apply claims_evolve_refl.
    - unfold heartbeat in H. case_match; [|done]. injection H as <-. left. apply claims_evolve_refl.
    - right. destruct (claim_slot_inv _ _ _ _ _ _ _ _ _ _ H) as (r & _ & [Hn [row Hrow]]%claim_row_claims). eauto.
    - right. destruct (claim_attempt_inv _ _ _ _ _ _ _ _ H) as (k & r & _ & [Hn [row Hrow]]%claim_row_claims). eauto.
    - left. unfold abort_claim. destruct (d_claims (y_db y) !! cid) eqn:He; [|apply claims_evolve_refl].
      destruct (bool_decide _); [by apply release_evolve|apply claims_evolve_refl].
    - left. unfold create_session, create_on in H0. repeat (case_match; try done); injection H0 as <-; apply claims_evolve_refl.
    - left. unfold activate, activate_on in H. destruct (d_sessions _ !! id); [|done]. destruct (_ && claim_seated _ _); [|done].
      apply insert_lease_rows in H as (_ & -> & _). apply claims_evolve_refl.
    - left. unfold renew, renew_on in H. destruct (d_sessions _ !! id); [|done]. destruct (_ && claim_held _ _ _); [|done].
      apply insert_lease_rows in H as (_ & -> & _). apply claims_evolve_refl.
    - left. by eapply finish_claims.
    - left. injection H as _ <-. apply reclaim_claims.
    - left. unfold complete_reclaim. destruct (d_sessions _ !! id); apply claims_evolve_refl.
    - left. unfold drain in H. case_match; [|done]. injection H as _ <-. apply claims_evolve_refl. }
  by eapply claims_kept_released.
Qed.

Lemma sys_init_ok : cp_ok sys_init.
Proof. by split. Qed.

Lemma cp_reachable_ok y : cp_reachable y → cp_ok y.
Proof. intros H. eapply star_invariant; [apply cp_step_ok|exact H|apply sys_init_ok]. Qed.

(** ** Guarantees *)

(** One live binding per slot, were every transaction serial: two sessions that
    are binding, active or draining on the same executor slot are one session, and
    its claim is the only active claim of that slot. *)
Theorem serial_slot_exclusive y i j r q :
  cp_reachable y →
  d_sessions (y_db y) !! i = Some r → d_sessions (y_db y) !! j = Some q → is_live r → is_live q →
  seat_of r = seat_of q →
  i = j ∧ ∀ k c, d_claims (y_db y) !! k = Some c → is_active c → of_slot (seat_of r) c → k = claim_of r.
Proof.
  intros Hok%cp_reachable_ok Hr Hq Lr Lq Hseat.
  destruct (ok_sess _ Hok i r Hr) as (c & Hc & Sc & Ic). destruct (ok_sess _ Hok j q Hq) as (e & He & Se & Ie).
  apply Ic in Lr. apply Ie in Lq. rewrite <- Hseat in Se. split.
  - apply (ok_uniq _ Hok i j r q); [done..|]. by apply (ok_one _ Hok (seat_of r) _ _ c e).
  - intros k x Hx Ax Sx. by apply (ok_one _ Hok (seat_of r) _ _ x c).
Qed.

(** A binding that was ended stays ended.  Once a session is no longer live
    on a claim (released, invalidated, reclaimed, or fenced by its host's new
    epoch), then whatever happens afterwards, as long as the session's row is
    still that binding, no activation and no renewal of it succeeds, whatever
    epoch and lease they present. *)
Theorem ended_binding_stays_fenced y y' id r r' :
  cp_reachable y → star cp_step y y' →
  d_sessions (y_db y) !! id = Some r → ¬ is_live r →
  d_sessions (y_db y') !! id = Some r' → claim_of r' = claim_of r →
  ∀ epoch l, activate id l (y_db y') = Err StaleFence ∧ renew id epoch l (y_db y') = Err StaleFence.
Proof.
  intros Hy Hrun Hr Hl Hr' Hcl epoch l.
  assert (Hok' : cp_ok y') by (by apply cp_reachable_ok; eapply star_trans).
  apply cp_reachable_ok in Hy. destruct (ok_sess _ Hy id r Hr) as (c & Hc & _ & Hiff). rewrite Hiff in Hl.
  assert (∃ c', d_claims (y_db y') !! claim_of r = Some c' ∧ ¬ is_active c') as (c' & Hc' & Ha').
  { eapply (star_invariant cp_step (λ y, ∃ c', d_claims (y_db y) !! claim_of r = Some c' ∧ ¬ is_active c'));
      [|exact Hrun|eauto]. intros a b (e & He & Hae) Hab. by eapply released_forever. }
  destruct (ok_sess _ Hok' id r' Hr') as (c'' & Hc'' & _ & Hiff'). rewrite Hcl, Hc' in Hc''. injection Hc'' as <-.
  assert (Hdead : ss_state (se_session r') = INVALID).
  { rewrite <- Hiff' in Ha'. unfold is_live in Ha'. by destruct (ss_state (se_session r')). }
  unfold activate, activate_on, renew, renew_on. simpl. rewrite Hr', Hdead. done.
Qed.
(** ** Statement by statement

    At READ COMMITTED the statements of two transactions interleave.  A statement
    of a transaction writes one table; between two of them any other statement may
    run.  A row that a statement updates it sees as it is (it waits for the lock and
    looks again); what it reads without a lock it reads from a snapshot, which may be
    any earlier state.  [part] keeps of a transaction's writes those to some of the
    tables: a multi-statement transaction is a sequence of such parts. *)

Record rcsys := Rc { rc_db : db; rc_hand : gset string; rc_past : list db }.
Definition rc_init : rcsys := Rc db_init ∅ [].

Record tables := Tables { t_hosts : bool; t_slots : bool; t_claims : bool; t_sessions : bool; t_leases : bool; t_outbox : bool }.

Definition part (t : tables) (d d' : db) : db :=
  Db (if t_hosts t then d_hosts d' else d_hosts d) (if t_slots t then d_slots d' else d_slots d)
     (if t_claims t then d_claims d' else d_claims d) (if t_sessions t then d_sessions d' else d_sessions d)
     (if t_leases t then d_leases d' else d_leases d) (if t_outbox t then d_outbox d' else d_outbox d).

(** The transactions of several statements. *)
Inductive pg_tx (d : db) : db → Prop :=
| tx_register now ex ep slots : pg_tx d (register_host now ex ep slots d)
| tx_readiness now ex slot ready code runtime d' : set_readiness now ex slot ready code runtime d = Ok d' → pg_tx d d'
| tx_heartbeat now ex d' : heartbeat now ex d = Ok d' → pg_tx d d'
| tx_abort now cid : pg_tx d (abort_claim now cid d)
| tx_supersede id now st :
    pg_tx d (Db (d_hosts d) (d_slots d) (d_claims d) (d_sessions d) (revoke_leases id now st (d_leases d)) (d_outbox d))
| tx_finish now id reason epoch r d' : _finish_session now id reason epoch d = Ok (r, d') → pg_tx d d'
| tx_reclaim dbnow now idle unlocked l d' : reclaim_instant_sessions dbnow now idle unlocked d = (l, d') → pg_tx d d'
| tx_complete now id : pg_tx d (complete_reclaim now id d)
| tx_drain ex deadline l d' : drain ex deadline d = Ok (l, d') → pg_tx d d'.

(** A claim is one statement, which updates its slot row; whether the host is
    fresh it reads from its snapshot, and the steps here allow either answer. *)
Inductive rc_step (y : rcsys) : rcsys → Prop :=
| rc_part t d hand : pg_tx (rc_db y) d → hand ⊆ rc_hand y →
    rc_step y (Rc (part t (rc_db y) d) hand (rc_db y :: rc_past y))
| rc_claim expires cid k r c d :
    d_slots (rc_db y) !! k = Some r → sr_state r = READY → claim_row expires cid k r (rc_db y) = Ok (c, d) →
    rc_step y (Rc d ({[cl_id c]} ∪ rc_hand y) (rc_db y :: rc_past y))
| rc_create snap now s d :
    snap ∈ rc_db y :: rc_past y → ss_claim s ∈ rc_hand y → create_on snap now s (rc_db y) = Ok d →
    rc_step y (Rc d (rc_hand y ∖ {[ss_claim s]}) (rc_db y :: rc_past y))
| rc_activate snap id l d :
    snap ∈ rc_db y :: rc_past y → activate_on snap id l (rc_db y) = Ok d →
    rc_step y (Rc d (rc_hand y) (rc_db y :: rc_past y))
| rc_renew snap id epoch l d :
    snap ∈ rc_db y :: rc_past y → renew_on snap id epoch l (rc_db y) = Ok d →
    rc_step y (Rc d (rc_hand y) (rc_db y :: rc_past y)).

Definition rc_reachable (y : rcsys) : Prop := star rc_step rc_init y.

(** What survives: a claim for life is on one slot and backs one session, and the
    unique index keeps one active claim per slot.  Whether a live session still has
    its claim is not among it. *)
Record rc_ok (y : rcsys) : Prop := {
  rk_one : ∀ k i j c e, d_claims (rc_db y) !! i = Some c → d_claims (rc_db y) !! j = Some e →
    is_active c → is_active e → of_slot k c → of_slot k e → i = j;
  rk_sess : ∀ id r, d_sessions (rc_db y) !! id = Some r →
    ∃ c, d_claims (rc_db y) !! claim_of r = Some c ∧ of_slot (seat_of r) c;
  rk_uniq : ∀ i j r q, d_sessions (rc_db y) !! i = Some r → d_sessions (rc_db y) !! j = Some q →
    claim_of r = claim_of q → i = j;
  rk_hand : ∀ c id r, c ∈ rc_hand y → d_sessions (rc_db y) !! id = Some r → claim_of r ≠ c;
  rk_past : ∀ d0 i c, d0 ∈ rc_past y → d_claims d0 !! i = Some c →
    ∃ c', d_claims (rc_db y) !! i = Some c' ∧ cr_host c' = cr_host c ∧ cr_slot c' = cr_slot c }.

(** A row, and its place, through a change of the claims. *)
Lemma claims_evolve_fwd m m' i c :
  claims_evolve m m' → m !! i = Some c → ∃ c', m' !! i = Some c' ∧ cr_host c' = cr_host c ∧ cr_slot c' = cr_slot c.
Proof.
  intros [Hb Hf] Hc. destruct (Hf i) as [c' Hc']; [eauto|]. exists c'. split; [done|].
  destruct (Hb i c' Hc') as (c0 & Hc0 & ? & ? & _). by simplify_eq.
Qed.

Lemma rc_ok_evolve d d' hand hand' past :
  rc_ok (Rc d hand past) → hand' ⊆ hand →
  sess_evolve (d_sessions d) (d_sessions d') → claims_evolve (d_claims d) (d_claims d') →
  rc_ok (Rc d' hand' (d :: past)).
Proof.
  intros [H1 H2 H3 H4 H5] Hh Hs Hc. split; simpl in *.
  - intros k i j c e Hi Hj Ai Aj [S1 S2] [S3 S4].
    destruct (proj1 Hc i c Hi) as (c0 & Hi0 & E1 & E2 & E3). destruct (proj1 Hc j e Hj) as (e0 & Hj0 & E4 & E5 & E6).
    apply (H1 k i j c0 e0); auto; split; congruence.
  - intros id r' Hr'. destruct (Hs id r' Hr') as (r & Hr & Ecl & [= _ E1 E2] & _).
    destruct (H2 id r Hr) as (c & Hcl & [S1 S2]). rewrite Ecl.
    destruct (claims_evolve_fwd _ _ _ _ Hc Hcl) as (c' & Hc' & F1 & F2). exists c'. split; [done|]. split; simpl in *; congruence.
  - intros i j r q Hi Hj Heq. destruct (Hs i r Hi) as (r0 & Hr0 & E & _). destruct (Hs j q Hj) as (q0 & Hq0 & F & _).
    apply (H3 i j r0 q0); auto; congruence.
  - intros c id r Hin Hr. destruct (Hs id r Hr) as (r0 & Hr0 & -> & _). eapply H4; [|done]. set_solver.
  - intros d0 i c [->|Hin]%elem_of_cons Hi; [by eapply claims_evolve_fwd|].
    destruct (H5 d0 i c Hin Hi) as (c1 & Hc1 & E1 & E2).
    destruct (claims_evolve_fwd _ _ _ _ Hc Hc1) as (c' & Hc' & F1 & F2). exists c'. split; [done|]. split; congruence.
Qed.

(** *** No transaction moves a session or revives a claim *)

Lemma finish_sessions now id reason epoch x d d' :
  _finish_session now id reason epoch d = Ok (x, d') → sess_evolve (d_sessions d) (d_sessions d').
Proof.
  unfold _finish_session. destruct (d_sessions d !! id) as [r|] eqn:Hr; [|intros [= _ <-]; apply sess_evolve_refl].
  destruct (match epoch with Some e => _ | None => _ end); [done|]. intros [= _ <-]. by apply (insert_evolve _ _ r).
Qed.

Lemma reclaim_sessions now ids d : sess_evolve (d_sessions d) (d_sessions (reclaim_rows now ids d)).
Proof.
  revert d. induction ids as [|id ids IH]; intros d; simpl; [apply sess_evolve_refl|].
  destruct (_finish_session now id "lease_expired" None d) as [[[s|] d']|] eqn:Hf; [..|apply IH].
  - eapply sess_evolve_trans; [by eapply finish_sessions|]. apply (IH (Db _ _ (d_claims d') _ _ _)).
  - eapply sess_evolve_trans; [by eapply finish_sessions|apply IH].
Qed.

Lemma tx_evolve d d' :
  pg_tx d d' → sess_evolve (d_sessions d) (d_sessions d') ∧ claims_evolve (d_claims d) (d_claims d').
Proof.
  assert (Hrefl : sess_evolve (d_sessions d) (d_sessions d) ∧ claims_evolve (d_claims d) (d_claims d))
    by (split; [apply sess_evolve_refl|apply claims_evolve_refl]).
  destruct 1; simpl; try done.
  - split; [|apply update_claims_evolve]. apply update_sess_evolve; [done|]. intros id r Hp. by intros [=].
  - unfold set_readiness in H. repeat (case_match; try done); by injection H as <-.
  - unfold heartbeat in H. case_match; [|done]. by injection H as <-.
  - unfold abort_claim. destruct (d_claims d !! cid) eqn:He; [|done].
    destruct (bool_decide _); [|done]. split; [apply sess_evolve_refl|by apply release_evolve].
  - split; [by eapply finish_sessions|by eapply finish_claims].
  - injection H as _ <-. split; [apply reclaim_sessions|apply reclaim_claims].
  - unfold complete_reclaim. by destruct (d_sessions d !! id).
  - unfold drain in H. case_match; [|done]. injection H as _ <-. split; [|apply claims_evolve_refl].
    apply update_sess_evolve; [done|]. intros id r Hp _. bool_prop. unfold is_live. by rewrite H1.
Qed.

(** The row a lease is written to keeps its binding. *)
Lemma activate_on_rows snap id l d d' :
  activate_on snap id l d = Ok d' → sess_evolve (d_sessions d) (d_sessions d') ∧ d_claims d' = d_claims d.
Proof.
  unfold activate_on. destruct (d_sessions d !! id) as [r|] eqn:Hr; [|done].
  destruct (_ && claim_seated _ _) eqn:Ht; [|done]. bool_prop. intros (-> & -> & _)%insert_lease_rows. split; [|done].
  apply (insert_evolve _ _ r); try done. intros _. unfold is_live. by rewrite H.
Qed.

Lemma renew_on_rows snap id epoch l d d' :
  renew_on snap id epoch l d = Ok d' → sess_evolve (d_sessions d) (d_sessions d') ∧ d_claims d' = d_claims d.
Proof.
  unfold renew_on. simpl. destruct (d_sessions d !! id) as [r|] eqn:Hr; [|done].
  destruct (_ && claim_held _ _ _) eqn:Ht; [|done]. bool_prop. intros (-> & -> & _)%insert_lease_rows. split; [|done].
  apply (insert_evolve _ _ r); try done. intros _. unfold is_live. by rewrite H.
Qed.

Lemma create_on_rows snap now s d d' :
  create_on snap now s d = Ok d' →
  valid_claim now s snap = true ∧ d_claims d' = d_claims d ∧
  ∃ row, d_sessions d' = <[ss_id s := row]> (d_sessions d) ∧ claim_of row = ss_claim s ∧ seat_of row = (ss_executor s, ss_slot s).
Proof.
  unfold create_on. destruct (valid_claim now s snap); [|done]. intros Hd. split; [done|].
  destruct (d_sessions d !! ss_id s) as [q|]; [destruct (live _); [done|]|]; injection Hd as <-; eauto.
Qed.

Lemma rc_create_ok snap now s d d' hand past :
  rc_ok (Rc d hand past) → snap ∈ d :: past → ss_claim s ∈ hand → create_on snap now s d = Ok d' →
  rc_ok (Rc d' (hand ∖ {[ss_claim s]}) (d :: past)).
Proof.
  intros [H1 H2 H3 H4 H5] Hsnap Hin (Hv & Ec & row & Es & Hcl & Hseat)%create_on_rows. simpl in *.
  unfold valid_claim in Hv. destruct (d_claims snap !! ss_claim s) as [c0|] eqn:Hc0; [|done]. bool_prop.
  assert (∃ c, d_claims d !! ss_claim s = Some c ∧ of_slot (ss_executor s, ss_slot s) c) as (c & Hc & Hof).
  { apply elem_of_cons in Hsnap as [->|Hp]; [by exists c0|].
    destruct (H5 snap _ _ Hp Hc0) as (c & Hc & E1 & E2). exists c. split; [done|]. split; simpl; congruence. }
  split; simpl; rewrite ?Es, ?Ec; try done.
  - intros id r. destruct (decide (id = ss_id s)) as [->|Hne].
    + rewrite lookup_insert_eq. intros [= <-]. exists c. rewrite Hcl. split; [done|]. by rewrite Hseat.
    + rewrite lookup_insert_ne by done. apply H2.
  - intros i j r q. destruct (decide (i = ss_id s)) as [->|Hi], (decide (j = ss_id s)) as [->|Hj];
      rewrite ?lookup_insert_eq, ?lookup_insert_ne by done; try done.
    + intros [= <-] Hq Heq. destruct (H4 (ss_claim s) j q Hin Hq). congruence.
    + intros Hq [= <-] Heq. destruct (H4 (ss_claim s) i r Hin Hq). congruence.
    + apply H3.
  - intros x id r [Hx Hnx]%elem_of_difference. destruct (decide (id = ss_id s)) as [->|Hne].
    + rewrite lookup_insert_eq. intros [= <-]. set_solver.
    + rewrite lookup_insert_ne by done. by apply H4.
  - intros d0 k e [->|Hp]%elem_of_cons; [eauto|by apply H5].
Qed.

Lemma rc_claim_ok expires cid k r c d d' hand past :
  rc_ok (Rc d hand past) → claim_row expires cid k r d = Ok (c, d') →
  rc_ok (Rc d' ({[cl_id c]} ∪ hand) (d :: past)).
Proof.
  intros [H1 H2 H3 H4 H5]. unfold claim_row. destruct (_ || _) eqn:Ht; [done|]. intros [= <- <-].
  apply orb_false_iff in Ht as [Hf%bool_decide_eq_false Htaken]. rewrite <- eq_None_not_Some in Hf.
  set (row := ClaimRow _ _ _ _ _ _ _). assert (Hk : of_slot k row) by done. simpl in *. split; simpl.
  - intros q i j x e. destruct (decide (i = cid)) as [->|Hi], (decide (j = cid)) as [->|Hj];
      rewrite ?lookup_insert_eq, ?lookup_insert_ne by done; [done|..|apply H1].
    + intros [= <-] He _ Ae [Q1 Q2] [Q3 Q4]. exfalso. apply (slot_taken_false d k j e); try done.
      destruct Hk. split; congruence.
    + intros Hx [= <-] Ax _ [Q1 Q2] [Q3 Q4]. exfalso. apply (slot_taken_false d k i x); try done.
      destruct Hk. split; congruence.
  - intros id q Hq. destruct (H2 id q Hq) as (x & Hx & Hs). exists x. by rewrite lookup_insert_ne by congruence.
  - done.
  - intros x id q [->%elem_of_singleton|Hin]%elem_of_union Hq; [|by eapply H4].
    intros Heq. destruct (H2 id q Hq) as (y & Hy & _). congruence.
  - intros d0 i e [->|Hp]%elem_of_cons Hi.
    + exists e. by rewrite lookup_insert_ne by congruence.
    + destruct (H5 d0 i e Hp Hi) as (e' & He' & E). exists e'. by rewrite lookup_insert_ne by congruence.
Qed.

Lemma rc_step_ok y y' : rc_ok y → rc_step y y' → rc_ok y'.
Proof.
  destruct y as [d hand past]. intros Hok. destruct 1; simpl in *.
  - destruct (tx_evolve _ _ H) as [Hs Hc]. apply (rc_ok_evolve d _ hand); [done|done| |].
    + simpl. destruct (t_sessions t); [done|apply sess_evolve_refl].
    + simpl. destruct (t_claims t); [done|apply claims_evolve_refl].
  - by eapply rc_claim_ok.
  - by eapply rc_create_ok.
  - destruct (activate_on_rows _ _ _ _ _ H0) as [Hs Hc]. apply (rc_ok_evolve d _ hand); [done|done|done|].
    rewrite Hc. apply claims_evolve_refl.
  - destruct (renew_on_rows _ _ _ _ _ _ H0) as [Hs Hc]. apply (rc_ok_evolve d _ hand); [done|done|done|].
    rewrite Hc. apply claims_evolve_refl.
Qed.

Lemma rc_reachable_ok y : rc_reachable y → rc_ok y.
Proof.
  intros H. eapply star_invariant; [apply rc_step_ok|exact H|]. split; simpl; try done. by intros ? ? ? ?%elem_of_nil.
Qed.

Lemma rc_released_forever y y' i c :
  rc_step y y' → d_claims (rc_db y) !! i = Some c → ¬ is_active c →
  ∃ c', d_claims (rc_db y') !! i = Some c' ∧ ¬ is_active c'.
Proof.
  intros Hstep Hc Hna.
  assert (Hcase : claims_evolve (d_claims (rc_db y)) (d_claims (rc_db y')) ∨
    ∃ cid row, d_claims (rc_db y) !! cid = None ∧ d_claims (rc_db y') = <[cid := row]> (d_claims (rc_db y))).
  { destruct Hstep; simpl.
    - left. destruct (t_claims t); [by eapply tx_evolve|apply claims_evolve_refl].
    - right. apply claim_row_claims in H1 as [Hn [row Hrow]]. eauto.
    - left. destruct (create_on_rows _ _ _ _ _ H1) as (_ & -> & _). apply claims_evolve_refl.
    - left. rewrite (proj2 (activate_on_rows _ _ _ _ _ H0)). apply claims_evolve_refl.
    - left. rewrite (proj2 (renew_on_rows _ _ _ _ _ _ H0)). apply claims_evolve_refl. }
  by eapply claims_kept_released.
Qed.

(** A session whose claim is gone, at the snapshot of the statement, gets no lease. *)
Lemma unclaimed_refused d id r c :
  d_sessions d !! id = Some r → d_claims d !! claim_of r = Some c → ¬ is_active c →
  ∀ epoch l, activate id l d = Err StaleFence ∧ renew id epoch l d = Err StaleFence.
Proof.
  intros Hr Hc Ha epoch l.
  assert (Hh : ∀ t, claim_held (se_session r) t d = false).
  { intros t. unfold claim_held. rewrite Hc. by rewrite bool_decide_eq_false_2. }
  unfold activate, activate_on, renew, renew_on. simpl. rewrite Hr, !Hh. by rewrite !andb_false_r.
Qed.

End system.
