(* ===== verification/ExecReclaim.v ===== *)
(** * Reclaiming expired bindings

    [ControlPlaneReaper.sweep] of [executor/control_plane/reaper.py] over the
    transactions of [ExecStore], and the release path of
    [executor/control_plane/service.py].  The executor's answer to a release call
    is a parameter: it accepts, or the call raises. *)

From S2P Require Import Prelude Json ExecStore ExecSystem.
Local Open Scope Z_scope.

(** ** The reaper *)

(** [_eligible] and [_reason]. *)
Definition _eligible (s : Session) (now : Z) (idle_before : option Z) : bool :=
  match ss_expires s with Some e => e <=? now | None => false end ||
  match idle_before, ss_activity s with Some i, Some a => a <=? i | _, _ => false end.
Definition _reason (s : Session) (now : Z) : string :=
  if match ss_expires s with Some e => e <=? now | None => false end then "lease_expired" else "idle_binding".

Section runtime.
(** [runtime.release endpoint assignment reason]: true when the executor accepts
    the cleanup, false when the call raises. *)
Context (runtime_release : string → string → string → bool).

(** The loop of [sweep]: released ids, and whether a release call ended it. *)
Fixpoint sweep_loop (dbnow now : Z) (sessions : list Session) (released : list string) (d : db)
  : option (list string) * db :=
  match sessions with
  | [] => (Some released, d)
  | s :: sessions =>
      match get_slot (ss_executor s) (ss_slot s) d with
      | None => sweep_loop dbnow now sessions released d
      | Some slot =>
          if runtime_release (sl_endpoint slot) (ss_assignment s) (_reason s now)
          then sweep_loop dbnow now sessions (released ++ [ss_id s]) (complete_reclaim dbnow (ss_id s) d)
          else (None, d)
      end
  end.
Definition sweep (dbnow now : Z) (idle_timeout : option Z) (unlocked : string → bool) (d : db)
  : option (list string) * db :=
  let idle_before := match idle_timeout with
                     | Some t => if t =? 0 then None else Some (now - t)
                     | None => None
                     end in
  let '(sessions, d') := reclaim_instant_sessions dbnow now idle_before unlocked d in
  sweep_loop dbnow now sessions [] d'.

(** [ControlPlane.release]: end the binding, ask the executor, free the slot. *)
Definition service_release (dbnow : Z) (id reason : string) (d : db) : result cp_error unit * db :=
  match release dbnow id reason d with
  | Ok (Some s, d') =>
      match get_slot (ss_executor s) (ss_slot s) d' with
      | Some slot =>
          if runtime_release (sl_endpoint slot) (ss_assignment s) reason
          then (Ok tt, complete_reclaim dbnow (ss_id s) d')
          else (Err RuntimeErr, d')
      | None => (Err AttributeErr, d')
      end
  | Ok (None, d') => (Ok tt, d')
  | Err e => (Err e, d)
  end.
End runtime.

(** ** What one reclaim transaction does *)

Lemma finish_some now id reason d r :
  d_sessions d !! id = Some r →
  ∃ d', _finish_session now id reason None d = Ok (Some (session_to (se_session r) INVALID), d') ∧
    d_sessions d' = <[id := sess_invalidate now reason r]> (d_sessions d) ∧
    d_leases d' = revoke_leases id now LRevoked (d_leases d) ∧ d_outbox d' = d_outbox d ∧
    ∀ c, d_claims d' !! claim_of r = Some c → ¬ is_active c.
Proof.
  intros Hr. unfold _finish_session. rewrite Hr. eexists. split; [done|]. do 3 (split; [done|]). simpl.
  unfold is_active. destruct (d_claims d !! ss_claim (se_session r)) as [c0|] eqn:Hc.
  - destruct (bool_decide _) eqn:Ha; intros c.
    + rewrite lookup_insert_eq. by intros [= <-].
    + rewrite Hc. intros [= <-]. by apply bool_decide_eq_false in Ha.
  - rewrite Hc. done.
Qed.

Definition no_active_lease (id : string) (leases : gmap string leaserow) : Prop :=
  ∀ l r, leases !! l = Some r → le_session (lr_lease r) = id → le_state (lr_lease r) ≠ LActive.

Lemma revoke_leases_none id now st leases : st ≠ LActive → no_active_lease id (revoke_leases id now st leases).
Proof.
  intros Hst l r (r0 & Hr0 & ->)%update_where_Some Hid.
  destruct (bool_decide (le_session _ = id) && _) eqn:Ht; [done|].
  rewrite (bool_decide_eq_true_2 (le_session _ = id)) in Ht by done. simpl in Ht. by apply bool_decide_eq_false in Ht.
Qed.

Lemma revoke_leases_keeps i id now st leases :
  st ≠ LActive → no_active_lease i leases → no_active_lease i (revoke_leases id now st leases).
Proof.
  intros Hst Hno l r (r0 & Hr0 & ->)%update_where_Some Hid. destruct (_ && _); [done|]. by eapply Hno.
Qed.

Lemma reclaim_rows_spec now ids d :
  NoDup ids → (∀ id, id ∈ ids → is_Some (d_sessions d !! id)) →
  let d' := reclaim_rows now ids d in
  (∀ id, id ∉ ids → d_sessions d' !! id = d_sessions d !! id) ∧
  (∀ id r, id ∈ ids → d_sessions d !! id = Some r →
     d_sessions d' !! id = Some (sess_invalidate now "lease_expired" r) ∧
     (∀ c, d_claims d' !! claim_of r = Some c → ¬ is_active c) ∧ no_active_lease id (d_leases d')) ∧
  (∀ i, no_active_lease i (d_leases d) → no_active_lease i (d_leases d')) ∧
  d_outbox d' = d_outbox d ++ ((λ id, Outbox ExecutorRelease id None) <$> ids).
Proof.
  revert d. induction ids as [|id ids IH]; intros d Hnd Hsome; simpl.
  { rewrite app_nil_r. split; [done|]. split; [set_solver|done]. }
  apply NoDup_cons in Hnd as [Hni Hnd]. destruct (Hsome id) as [r Hr]; [set_solver|].
  destruct (finish_some now id "lease_expired" d r Hr) as (d1 & Hf & Es & El & Eo & Hcl).
  rewrite Hf. set (d2 := Db _ _ _ _ _ _).
  destruct (IH d2 Hnd) as (A & B & C & D).
  { intros j Hj. simpl. rewrite Es, lookup_insert_ne by set_solver. set_solver. }
  simpl in *. split; [|split; [|split]].
  - intros j Hj. rewrite A, Es, lookup_insert_ne by set_solver. done.
  - intros j q [->|Hj]%elem_of_cons Hq.
    + rewrite Hr in Hq. injection Hq as <-. rewrite A, Es, lookup_insert_eq by done. split; [done|]. split.
      * intros c Hc. destruct (proj1 (reclaim_claims now ids d2) _ _ Hc) as (c0 & Hc0 & _ & _ & Ha).
        intros Hact. eapply Hcl; [exact Hc0|by apply Ha].
      * apply C. simpl. rewrite El. by apply revoke_leases_none.
    + apply B; [done|]. rewrite Es, lookup_insert_ne by set_solver. done.
  - intros i Hi. apply C. simpl. rewrite El. by apply revoke_leases_keeps.
  - rewrite D, Eo, <- app_assoc. done.
Qed.

Lemma reclaim_ids now idle unlocked (m : gmap string sessrow) id :
  id ∈ (map_to_list (filter (λ kr, reclaimable now idle (se_session kr.2) && unlocked kr.1) m)).*1 ↔
  ∃ r, m !! id = Some r ∧ reclaimable now idle (se_session r) = true ∧ unlocked id = true.
Proof.
  rewrite list_elem_of_fmap. split.
  - intros ([k r] & -> & Hin%elem_of_map_to_list). apply map_lookup_filter_Some in Hin as [Hr Hp].
    simpl in *. apply Is_true_true, andb_true_iff in Hp as [Hp Hu]. eauto.
  - intros (r & Hr & Hp & Hu). exists (id, r). split; [done|]. apply elem_of_map_to_list, map_lookup_filter_Some.
    split; [done|]. simpl. by rewrite Hp, Hu.
Qed.

(** A reclaim pass takes exactly the expired and idle bindings.  When no row
    is locked by another transaction, every live session whose lease has expired
    or that has idled too long is ended, with its claim released and no active
    lease left, and is handed to the caller for the executor's release; every
    other session row is untouched, and nothing reclaimable remains. *)
Theorem reclaim_takes_exactly_the_expired dbnow now idle d l d' :
  reclaim_instant_sessions dbnow now idle (λ _, true) d = (l, d') →
  (∀ id r, d_sessions d !! id = Some r → reclaimable now idle (se_session r) = true →
     d_sessions d' !! id = Some (sess_invalidate dbnow "lease_expired" r) ∧
     session_to (se_session r) INVALID ∈ l ∧
     (∀ c, d_claims d' !! claim_of r = Some c → ¬ is_active c) ∧ no_active_lease id (d_leases d')) ∧
  (∀ id r, d_sessions d !! id = Some r → reclaimable now idle (se_session r) = false →
     d_sessions d' !! id = Some r) ∧
  (∀ id r, d_sessions d' !! id = Some r → reclaimable now idle (se_session r) = false).
Proof.
  unfold reclaim_instant_sessions. set (ids := (map_to_list _).*1). intros [= <- <-].
  pose proof (reclaim_ids now idle (λ _, true) (d_sessions d)) as Hids. fold ids in Hids.
  destruct (reclaim_rows_spec dbnow ids d) as (A & B & _ & D).
  { apply NoDup_fst_map_to_list. }
  { intros id (r & Hr & _)%Hids. eauto. }
  split; [|split].
  - intros id r Hr Hp. assert (Hin : id ∈ ids) by (apply Hids; eauto).
    destruct (B id r Hin Hr) as (E1 & E2 & E3). split; [done|]. split; [|done].
    unfold pending_releases. apply list_elem_of_omap. exists (Outbox ExecutorRelease id None). split.
    + rewrite D. apply elem_of_app. right. apply list_elem_of_fmap. eauto.
    + simpl. unfold get_session. by rewrite E1.
  - intros id r Hr Hp. rewrite A; [done|]. intros (q & Hq & Hp' & _)%Hids. congruence.
  - intros id r Hr. destruct (decide (id ∈ ids)) as [Hin|Hni].
    + pose proof Hin as (q & Hq & _)%Hids. destruct (B id q Hin Hq) as (E1 & _). rewrite E1 in Hr.
      injection Hr as <-. done.
    + rewrite A in Hr by done. destruct (reclaimable now idle (se_session r)) eqn:Hp; [|done].
      destruct Hni. apply Hids. eauto.
Qed.

(** ** A release the executor does not answer *)

(** The slot of an ended binding waits for a completion that nothing announces:
    no unpublished outbox record names the session. *)
Record stuck (id c : string) (k : string * string) (d : db) : Prop := {
  st_session : ∃ r, d_sessions d !! id = Some r ∧ ¬ is_live r;
  st_key : ∀ j r, d_sessions d !! j = Some r → ss_id (se_session r) = j;
  st_only : ∀ j r, d_sessions d !! j = Some r → claim_of r = c → j = id;
  st_slot : ∃ q, d_slots d !! k = Some q ∧ sr_state q = RELEASING ∧ sr_claim q = Some c;
  st_quiet : ∀ o, o ∈ d_outbox d → ob_kind o = ExecutorRelease → ob_published o = None → ob_entity o ≠ id }.

Lemma slot_of_claim_other k claim from to keep slots k' q :
  slots !! k' = Some q → sr_state q ≠ from ∨ sr_claim q ≠ Some claim →
  slot_of_claim k claim from to keep slots !! k' = Some q.
Proof.
  intros Hq Hor. unfold slot_of_claim. destruct (slots !! k) as [r|] eqn:Hk; [|done].
  destruct (_ && _) eqn:Ht; [|done]. bool_prop. rewrite lookup_insert_ne; [done|]. intros ->.
  rewrite Hk in Hq. injection Hq as ->. by destruct Hor.
Qed.

Lemma finish_stuck now j reason x id c k d d' :
  stuck id c k d → j ≠ id → _finish_session now j reason None d = Ok (x, d') → stuck id c k d'.
Proof.
  intros [(r & Hr & Hl) Hkey Hon (q & Hq & Hst & Hcl) Hqu] Hne. unfold _finish_session.
  destruct (d_sessions d !! j) as [r1|] eqn:Hj; [|intros [= _ <-]; split; eauto]. intros [= _ <-].
  split; simpl; [| | | |done].
  - exists r. by rewrite lookup_insert_ne.
  - intros i r0. destruct (decide (i = j)) as [->|Hi]; [|rewrite lookup_insert_ne by done; apply Hkey].
    rewrite lookup_insert_eq. intros [= <-]. simpl. eauto.
  - intros i r0. destruct (decide (i = j)) as [->|Hi]; [|rewrite lookup_insert_ne by done; apply Hon].
    rewrite lookup_insert_eq. intros [= <-]. simpl. eauto.
  - exists q. split; [|done]. apply slot_of_claim_other; [done|]. left. congruence.
Qed.

Lemma reclaim_rows_stuck now ids id c k d : stuck id c k d → id ∉ ids → stuck id c k (reclaim_rows now ids d).
Proof.
  revert d. induction ids as [|j ids IH]; intros d Hs Hni; simpl; [done|].
  assert (j ≠ id ∧ id ∉ ids) as [Hne Hni'] by set_solver.
  destruct (_finish_session now j "lease_expired" None d) as [[[s|] d']|] eqn:Hf; [| |by apply IH].
  - apply IH; [|done]. apply finish_stuck with (id := id) (c := c) (k := k) in Hf; [|done..].
    destruct Hf as [A B C D F]. split; simpl; try done. intros o [Ho|Ho]%elem_of_app; [by apply F|].
    apply list_elem_of_singleton in Ho as ->. done.
  - apply IH; [|done]. by eapply finish_stuck.
Qed.

Lemma complete_stuck now j id c k d : stuck id c k d → j ≠ id → stuck id c k (complete_reclaim now j d).
Proof.
  intros [A B C (q & Hq & Hst & Hcl) F] Hne. unfold complete_reclaim.
  destruct (d_sessions d !! j) as [r|] eqn:Hj; [|split; eauto]. split; simpl; try done.
  - exists q. split; [|done]. apply slot_of_claim_other; [done|]. right. rewrite Hcl. intros [= Heq].
    apply Hne. by apply (C j r).
  - intros o (o0 & -> & Ho)%list_elem_of_fmap. destruct (_ && _ && _); [done|]. by apply F.
Qed.

Lemma pending_not_stuck id c k d s : stuck id c k d → s ∈ pending_releases d → ss_id s ≠ id.
Proof.
  intros [_ B _ _ F] (o & Ho & Hs)%list_elem_of_omap. destruct (_ && _) eqn:Ht; [|done]. bool_prop.
  unfold get_session in Hs. destruct (d_sessions d !! ob_entity o) as [r|] eqn:Hr; [|done].
  injection Hs as <-. rewrite (B _ _ Hr). by apply F.
Qed.

Lemma sweep_loop_stuck runtime dbnow now l released id c k d :
  stuck id c k d → (∀ s, s ∈ l → ss_id s ≠ id) → stuck id c k (sweep_loop runtime dbnow now l released d).2.
Proof.
  revert released d. induction l as [|s l IH]; intros released d Hs Hl; simpl; [done|].
  destruct (get_slot _ _ d) as [slot|]; [|apply IH; set_solver].
  destruct (runtime _ _ _); [|done]. apply IH; [|set_solver]. apply complete_stuck; set_solver.
Qed.

Lemma sweep_stuck runtime dbnow now idle unlocked id c k d :
  stuck id c k d → stuck id c k (sweep runtime dbnow now idle unlocked d).2.
Proof.
  intros Hs. unfold sweep, reclaim_instant_sessions. set (ids := (map_to_list _).*1).
  assert (Hni : id ∉ ids).
  { intros (r & Hr & Hp & _)%reclaim_ids. destruct Hs as [(r0 & Hr0 & Hl) _ _ _ _]. simplify_eq.
    unfold reclaimable in Hp. bool_prop. done. }
  pose proof (reclaim_rows_stuck dbnow ids id c k d Hs Hni) as Hs'. cbn [fst snd].
  apply sweep_loop_stuck; [done|]. intros s. by apply (pending_not_stuck id c k).
Qed.

Definition sweep_step (d d' : db) : Prop :=
  ∃ runtime dbnow now idle unlocked, d' = (sweep runtime dbnow now idle unlocked d).2.

(** A release call that fails leaks the slot.  When [ControlPlane.release]
    ends the binding of a claimed slot and the executor's answer is an error, the
    slot is left in RELEASING with no outbox record to announce it, and no number
    of reaper passes, whatever the executors answer to them, ever makes it ready
    again. *)
Theorem failed_release_leaks_slot heartbeat_timeout y runtime dbnow id reason r q d1 d2 :
  cp_reachable heartbeat_timeout y →
  d_sessions (y_db y) !! id = Some r →
  d_slots (y_db y) !! seat_of r = Some q → sr_state q = CLAIMED → sr_claim q = Some (claim_of r) →
  (∀ o, o ∈ d_outbox (y_db y) → ob_kind o = ExecutorRelease → ob_published o = None → ob_entity o ≠ id) →
  service_release runtime dbnow id reason (y_db y) = (Err RuntimeErr, d1) →
  star sweep_step d1 d2 →
  ∃ q', d_slots d2 !! seat_of r = Some q' ∧ sr_state q' = RELEASING.
Proof.
  intros Hok%cp_reachable_ok Hr Hq Hst Hcl Hqu Hrel Hrun.
  assert (Hs : stuck id (claim_of r) (seat_of r) d1).
  { unfold service_release, release, _finish_session in Hrel. rewrite Hr in Hrel. cbv zeta iota beta in Hrel.
    destruct (get_slot _ _ _) as [slot|]; [|done]. destruct (runtime _ _ _); [done|]. injection Hrel as <-.
    split; simpl.
    - rewrite lookup_insert_eq. eexists. split; [done|]. by intros [=].
    - intros j r0. destruct (decide (j = id)) as [->|Hne]; [|rewrite lookup_insert_ne by done; apply (ok_key _ Hok)].
      rewrite lookup_insert_eq. intros [= <-]. simpl. by apply (ok_key _ Hok).
    - intros j r0. destruct (decide (j = id)) as [->|Hne]; [done|]. rewrite lookup_insert_ne by done.
      intros Hr0 Heq. by apply (ok_uniq _ Hok j id r0 r).
    - unfold slot_of_claim. rewrite Hq, Hst, Hcl, !bool_decide_eq_true_2 by done. simpl.
      rewrite lookup_insert_eq. eauto.
    - done. }
  assert (Hs2 : stuck id (claim_of r) (seat_of r) d2).
  { eapply (star_invariant sweep_step (stuck id (claim_of r) (seat_of r))); [|exact Hrun|done].
    intros a b Ha (rt & dbn & n & idle & un & ->). by apply sweep_stuck. }
  destruct Hs2 as [_ _ _ (q' & Hq' & Hst' & _) _]. eauto.
Qed.

(** ** A claim whose worker died *)

(** The slot is claimed under [c] and no session uses [c]. *)
Definition orphaned (c : string) (k : string * string) (q : slotrow) (d : db) : Prop :=
  d_slots d !! k = Some q ∧ sr_state q = CLAIMED ∧ sr_claim q = Some c ∧
  ∀ j r, d_sessions d !! j = Some r → claim_of r ≠ c.

Lemma finish_orphaned now j reason x c k q d d' :
  orphaned c k q d → _finish_session now j reason None d = Ok (x, d') → orphaned c k q d'.
Proof.
  intros (Hq & Hst & Hcl & Hno). unfold _finish_session.
  destruct (d_sessions d !! j) as [r|] eqn:Hj; [|by intros [= _ <-]]. intros [= _ <-]. split; [|do 2 (split; [done|])].
  - simpl. apply slot_of_claim_other; [done|]. right. rewrite Hcl. intros [= Heq]. by eapply Hno.
  - intros i r0. simpl. destruct (decide (i = j)) as [->|Hi]; [|rewrite lookup_insert_ne by done; apply Hno].
    rewrite lookup_insert_eq. intros [= <-]. simpl. by apply (Hno j).
Qed.

Lemma reclaim_rows_orphaned now ids c k q d : orphaned c k q d → orphaned c k q (reclaim_rows now ids d).
Proof.
  revert d. induction ids as [|j ids IH]; intros d Ho; simpl; [done|].
  destruct (_finish_session now j "lease_expired" None d) as [[[s|] d']|] eqn:Hf; [| |by apply IH].
  - apply IH. by apply finish_orphaned with (c := c) (k := k) (q := q) in Hf.
  - apply IH. by eapply finish_orphaned.
Qed.

Lemma complete_orphaned now j c k q d : orphaned c k q d → orphaned c k q (complete_reclaim now j d).
Proof.
  intros (Hq & Hst & Hcl & Hno). unfold complete_reclaim. destruct (d_sessions d !! j) as [r|]; [|done].
  split; [|done]. simpl. apply slot_of_claim_other; [done|]. left. congruence.
Qed.

Lemma sweep_orphaned runtime dbnow now idle unlocked c k q d :
  orphaned c k q d → orphaned c k q (sweep runtime dbnow now idle unlocked d).2.
Proof.
  intros Ho. unfold sweep, reclaim_instant_sessions. set (ids := (map_to_list _).*1).
  pose proof (reclaim_rows_orphaned dbnow ids c k q d Ho) as Ho'. revert Ho'.
  generalize (reclaim_rows dbnow ids d). cbn [fst snd]. intros d1. generalize (pending_releases d1) (@nil string).
  intros l. revert d1. induction l as [|s l IH]; intros d1 released Ho1; simpl; [done|].
  destruct (get_slot _ _ d1) as [slot|]; [|by apply IH].
  destruct (runtime _ _ _); [|done]. by apply IH, complete_orphaned.
Qed.

(** Nothing enforces the expiry of a claim.  When a worker dies between
    [claim_ready_slot] and [create_session], its claim is in no session's row; no
    reaper pass touches the slot, at any time and whatever its claim's expiry, so
    every later attempt to claim the slot, at any time, fails. *)
Theorem orphaned_claim_never_expires heartbeat_timeout y c k q d :
  cp_reachable heartbeat_timeout y → c ∈ y_hand y →
  d_slots (y_db y) !! k = Some q → sr_state q = CLAIMED → sr_claim q = Some c →
  star sweep_step (y_db y) d →
  d_slots d !! k = Some q ∧
  ∀ dbnow cid version now lifetime,
    claim_slot heartbeat_timeout dbnow cid k.1 k.2 version now lifetime d = Err StaleFence ∧
    claim_attempt heartbeat_timeout dbnow cid now lifetime (Some k) d = Ok None.
Proof.
  intros Hok%cp_reachable_ok Hin Hq Hst Hcl Hrun.
  assert (Ho : orphaned c k q d).
  { eapply (star_invariant sweep_step (orphaned c k q)); [|exact Hrun|].
    - intros a b Ha (rt & dbn & n & idle & un & ->). by apply sweep_orphaned.
    - split; [done|]. do 2 (split; [done|]). apply (ok_hand _ Hok c Hin). }
  destruct Ho as (Hq' & _ & _ & _). split; [done|]. intros dbnow cid version now lifetime.
  unfold claim_slot, claim_attempt. rewrite <- surjective_pairing, Hq', Hst. done.
Qed.
