(* ===== verification/ExecAccounting.v ===== *)
(** * Accounting of instant invocations

    [PostgresStore.record_invocation] and [recover_stale_invocations] of
    [executor/control_plane/store.py] over the tables of
    [migrations/002_invocation_accounting.sql] and [003_accounting_recovery.sql],
    and the bounds of [executor/control_plane/accounting.py].  Delivery is at
    least once and in any order, so the same event may arrive many times, late,
    or after the reaper has closed the invocation. *)

From S2P Require Import Prelude Json ExecStore.
From stdpp Require Import sorting.
Local Open Scope Z_scope.

Inductive outcome := Succeeded | OFailed.
#[export] Instance outcome_eq_dec : EqDecision outcome.
Proof. solve_decision. Defined.

Record usage := Usage { u_cpu : Z; u_wall : Z; u_memory : Z; u_input : Z; u_output : Z }.
#[export] Instance usage_eq_dec : EqDecision usage.
Proof. solve_decision. Defined.

Record identity := Identity {
  id_invocation : string; id_tenant : string; id_session : string; id_lease : string; id_code : string }.
#[export] Instance identity_eq_dec : EqDecision identity.
Proof. solve_decision. Defined.

(** ** Bounds of a terminal record *)

Definition MAX_CPU_MS : Z := 86400000.
Definition MAX_WALL_MS : Z := 86400000.
Definition MAX_MEMORY_PEAK_BYTES : Z := 64 * 1024 * 1024 * 1024.
Definition MAX_INPUT_BYTES : Z := 64 * 1024 * 1024.
Definition MAX_OUTPUT_BYTES : Z := 64 * 1024 * 1024.

(** [_bounded_integer]; a JSON boolean is a Python [int] and is refused by name. *)
Definition _bounded_integer (v : json) (maximum : Z) : option Z :=
  match v with
  | JInt z => if (z <? 0) || (maximum <? z) then None else Some z
  | _ => None
  end.

(** The usage of a terminal record as [validate_record] builds it. *)
Definition usage_of (cpu wall memory input output : json) : option usage :=
  c ← _bounded_integer cpu MAX_CPU_MS;
  w ← _bounded_integer wall MAX_WALL_MS;
  m ← _bounded_integer memory MAX_MEMORY_PEAK_BYTES;
  i ← _bounded_integer input MAX_INPUT_BYTES;
  o ← _bounded_integer output MAX_OUTPUT_BYTES;
  Some (Usage c w m i o).

Inductive event := EvAccepted | EvStarted | EvTerminal (o : outcome) (u : usage).
Record arecord := ARecord { r_id : identity; r_event : event; r_at : Z }.

(** ** Tables *)

Inductive inv_state := IAccepted | IStarted | IDone (o : outcome).
#[export] Instance inv_state_eq_dec : EqDecision inv_state.
Proof. solve_decision. Defined.

Record invrow := InvRow {
  iv_id : identity; iv_state : inv_state; iv_accepted_at : Z; iv_started_at : option Z;
  iv_terminal_at : option Z; iv_updated_at : Z; iv_version : Z }.

Record acctrow := AcctRow {
  ac_id : identity; ac_outcome : outcome; ac_recorded_at : Z; ac_usage : usage;
  ac_recovered : bool }.              (* recovery_reason = 'executor_lost' *)

Record ledger := Ledger {
  g_db : db;                          (* leases, sessions and the outbox *)
  g_inv : gmap string invrow;
  g_acct : gmap string acctrow }.

Definition put_outbox (id : string) (d : db) : db :=
  Db (d_hosts d) (d_slots d) (d_claims d) (d_sessions d) (d_leases d)
     (d_outbox d ++ [Outbox AccountingRecorded id None]).

(** The lease that backs the event: it names the session, the session row still
    has the tenant and the code, and the event falls in the lease's life. *)
Definition lease_backs (r : arecord) (d : db) : bool :=
  match d_leases d !! id_lease (r_id r), d_sessions d !! id_session (r_id r) with
  | Some l, Some s =>
      bool_decide (le_session (lr_lease l) = id_session (r_id r)) &&
      bool_decide (ss_tenant (se_session s) = id_tenant (r_id r)) &&
      bool_decide (ss_code (se_session s) = id_code (r_id r)) &&
      (le_not_before (lr_lease l) <=? r_at r) && (r_at r <=? le_expires (lr_lease l)) &&
      match lr_revoked_at l with None => true | Some t => r_at r <=? t end
  | _, _ => false
  end.

Inductive reply := Reply (st : inv_state) (charged : bool).

(** The row the event finds, inserted when there is none. *)
Definition ensure_invocation (now : Z) (r : arecord) (inv : gmap string invrow) : gmap string invrow :=
  match inv !! id_invocation (r_id r) with
  | Some _ => inv
  | None => <[id_invocation (r_id r) := InvRow (r_id r) IAccepted (r_at r) None None now 1]> inv
  end.

Definition record_invocation (now : Z) (r : arecord) (g : ledger) : result cp_error (reply * ledger) :=
  let key := id_invocation (r_id r) in
  if negb (lease_backs r (g_db g)) then Err StaleFence
  else
    let inv := ensure_invocation now r (g_inv g) in
    match inv !! key with
    | None => Err StaleFence
    | Some row =>
        if negb (bool_decide (iv_id row = r_id r)) then Err StaleFence
        else match r_event r with
        | EvAccepted => Ok (Reply (iv_state row) false, Ledger (g_db g) inv (g_acct g))
        | EvStarted =>
            if bool_decide (iv_state row = IAccepted) then
              let row' := InvRow (iv_id row) IStarted (iv_accepted_at row) (Some (r_at r)) (iv_terminal_at row) now (iv_version row + 1) in
              Ok (Reply IStarted false, Ledger (g_db g) (<[key := row']> inv) (g_acct g))
            else Ok (Reply (iv_state row) false, Ledger (g_db g) inv (g_acct g))
        | EvTerminal o u =>
            if bool_decide (iv_state row = IAccepted) then Err StaleFence
            else match g_acct g !! key with
            | None =>
                let row' := InvRow (iv_id row) (IDone o) (iv_accepted_at row) (iv_started_at row) (Some (r_at r)) now (iv_version row + 1) in
                Ok (Reply (IDone o) true,
                    Ledger (put_outbox key (g_db g)) (<[key := row']> inv)
                           (<[key := AcctRow (r_id r) o (r_at r) u false]> (g_acct g)))
            | Some a =>
                if ac_recovered a then Ok (Reply (IDone OFailed) false, Ledger (g_db g) inv (g_acct g))
                else if bool_decide (id_tenant (ac_id a) = id_tenant (r_id r)) && bool_decide (id_session (ac_id a) = id_session (r_id r)) &&
                        bool_decide (id_lease (ac_id a) = id_lease (r_id r)) && bool_decide (id_code (ac_id a) = id_code (r_id r)) &&
                        bool_decide (ac_outcome a = o) && (ac_recorded_at a =? r_at r) && bool_decide (ac_usage a = u)
                then Ok (Reply (IDone o) false, Ledger (g_db g) inv (g_acct g))
                else Err StaleFence
            end
        end
    end.

(** ** Recovery *)

Definition open_state (st : inv_state) : bool := match st with IDone _ => false | _ => true end.

(** [ORDER BY updated_at, invocation_id]. *)
Definition older (a b : string * invrow) : Prop :=
  iv_updated_at a.2 < iv_updated_at b.2 ∨ (iv_updated_at a.2 = iv_updated_at b.2 ∧ String.le a.1 b.1).
#[export] Instance older_dec a b : Decision (older a b).
Proof. unfold older. apply _. Defined.

(** The stale rows that are not locked, oldest first. *)
Definition stale_rows (stale_before : Z) (limit : nat) (unlocked : string → bool) (inv : gmap string invrow) : list string :=
  take limit (merge_sort older (map_to_list
    (filter (λ kr, open_state (iv_state kr.2) && (iv_updated_at kr.2 <=? stale_before) && unlocked kr.1) inv))).*1.

Definition recover_one (now : Z) (g : ledger) (key : string) : ledger :=
  match g_inv g !! key, g_acct g !! key with
  | Some row, None =>
      let row' := InvRow (iv_id row) (IDone OFailed) (iv_accepted_at row)
                    (Some (default (iv_accepted_at row) (iv_started_at row))) (Some now) now (iv_version row + 1) in
      Ledger (put_outbox key (g_db g)) (<[key := row']> (g_inv g))
             (<[key := AcctRow (iv_id row) OFailed now (Usage 0 0 0 0 0) true]> (g_acct g))
  | _, _ => g
  end.

Definition recover_stale_invocations (now stale_before : Z) (limit : Z) (unlocked : string → bool) (g : ledger)
  : result cp_error (list string * ledger) :=
  if (limit <? 1) || (1000 <? limit) then Err ValueErr
  else
    let rows := stale_rows stale_before (Z.to_nat limit) unlocked (g_inv g) in
    Ok (filter (λ k, g_acct g !! k = None) rows, foldl (recover_one now) g rows).

(** ** Deliveries in any order *)

Definition accounting_events (k : string) (d : db) : nat :=
  length (filter (λ o, ob_kind o = AccountingRecorded ∧ ob_entity o = k) (d_outbox d)).

(** The ledger with the charges the replies have confirmed so far. *)
Record asys := ASys { x_ledger : ledger; x_charges : list (string * usage) }.
Definition asys_init : asys := ASys (Ledger db_init ∅ ∅) [].

Definition charge_of (r : arecord) (ch : bool) : list (string * usage) :=
  match ch, r_event r with true, EvTerminal _ u => [(id_invocation (r_id r), u)] | _, _ => [] end.

(** Events, recovery passes, and whatever other transactions do to the tables of
    the control store, which never writes accounting events. *)
Inductive acct_step (x : asys) : asys → Prop :=
| as_record now r st ch g : record_invocation now r (x_ledger x) = Ok (Reply st ch, g) →
    acct_step x (ASys g (x_charges x ++ charge_of r ch))
| as_recover now stale limit unlocked l g :
    recover_stale_invocations now stale limit unlocked (x_ledger x) = Ok (l, g) →
    acct_step x (ASys g (x_charges x))
| as_other d : (∀ k, accounting_events k d = accounting_events k (g_db (x_ledger x))) →
    acct_step x (ASys (Ledger d (g_inv (x_ledger x)) (g_acct (x_ledger x))) (x_charges x)).
Definition acct_reachable (x : asys) : Prop := star acct_step asys_init x.

(** The CHECK constraint of [instant_invocations]. *)
Definition row_check (row : invrow) : Prop :=
  match iv_state row with
  | IAccepted => iv_started_at row = None ∧ iv_terminal_at row = None
  | IStarted => is_Some (iv_started_at row) ∧ iv_terminal_at row = None
  | IDone _ => is_Some (iv_started_at row) ∧ is_Some (iv_terminal_at row)
  end.

(** What the tables say about one invocation. *)
Definition entry_ok (k : string) (row : option invrow) (a : option acctrow) : Prop :=
  match row, a with
  | None, None => True
  | Some row, None => row_check row ∧ id_invocation (iv_id row) = k ∧ open_state (iv_state row) = true
  | Some row, Some a =>
      row_check row ∧ id_invocation (iv_id row) = k ∧ iv_state row = IDone (ac_outcome a) ∧ ac_id a = iv_id row ∧
      (ac_recovered a = true → ac_outcome a = OFailed ∧ ac_usage a = Usage 0 0 0 0 0)
  | None, Some _ => False
  end.
Definition charges_of (k : string) (a : option acctrow) : list (string * usage) :=
  match a with Some a => if ac_recovered a then [] else [(k, ac_usage a)] | None => [] end.

Record acct_ok (x : asys) : Prop := {
  ao_entry : ∀ k, entry_ok k (g_inv (x_ledger x) !! k) (g_acct (x_ledger x) !! k);
  ao_events : ∀ k, accounting_events k (g_db (x_ledger x)) = match g_acct (x_ledger x) !! k with Some _ => 1%nat | None => 0%nat end;
  ao_charges : ∀ k, filter (λ c, c.1 = k) (x_charges x) = charges_of k (g_acct (x_ledger x) !! k) }.

Lemma events_put k j d :
  accounting_events k (put_outbox j d) = (accounting_events k d + if decide (j = k) then 1 else 0)%nat.
Proof.
  unfold accounting_events, put_outbox. simpl. rewrite filter_app, length_app. f_equal.
  rewrite filter_cons. simpl. destruct (decide (j = k)) as [->|Hne].
  - by rewrite decide_True.
  - rewrite decide_False; [done|]. by intros [_ ?].
Qed.

(** An update of one invocation that leaves its accounting alone. *)
Lemma acct_ok_row g ch k row :
  acct_ok (ASys g ch) → entry_ok k (Some row) (g_acct g !! k) →
  acct_ok (ASys (Ledger (g_db g) (<[k := row]> (g_inv g)) (g_acct g)) ch).
Proof.
  intros [A B C] He. split; simpl in *; try done. intros j. destruct (decide (j = k)) as [->|Hne].
  - by rewrite lookup_insert_eq.
  - by rewrite lookup_insert_ne.
Qed.

(** Closing one invocation: its accounting row, its event and its charge. *)
Lemma acct_ok_close g ch k row a :
  acct_ok (ASys g ch) → g_acct g !! k = None → entry_ok k (Some row) (Some a) →
  acct_ok (ASys (Ledger (put_outbox k (g_db g)) (<[k := row]> (g_inv g)) (<[k := a]> (g_acct g)))
                (ch ++ charges_of k (Some a))).
Proof.
  intros [A B C] Hn He. split; simpl in *; intros j.
  - destruct (decide (j = k)) as [->|Hne]; [by rewrite !lookup_insert_eq|by rewrite !lookup_insert_ne].
  - rewrite events_put, B. destruct (decide (k = j)) as [->|Hne].
    + by rewrite lookup_insert_eq, Hn.
    + rewrite lookup_insert_ne by done. destruct (g_acct g !! j); done.
  - rewrite filter_app, C. destruct (decide (j = k)) as [->|Hne].
    + rewrite lookup_insert_eq, Hn. simpl. destruct (ac_recovered a); [done|]. by rewrite filter_cons_True.
    + rewrite lookup_insert_ne by done. destruct (ac_recovered a); [by rewrite app_nil_r|].
      rewrite filter_cons_False by (simpl; congruence). by rewrite app_nil_r.
Qed.

Lemma ensure_ok now r g ch :
  acct_ok (ASys g ch) → acct_ok (ASys (Ledger (g_db g) (ensure_invocation now r (g_inv g)) (g_acct g)) ch).
Proof.
  intros Hok. unfold ensure_invocation. destruct (g_inv g !! id_invocation (r_id r)) eqn:Hi; [by destruct Hok|].
  apply acct_ok_row; [done|]. pose proof (ao_entry _ Hok (id_invocation (r_id r))) as He. simpl in He.
  rewrite Hi in He. by destruct (g_acct g !! _).
Qed.

Lemma record_ok now r st charged g g' ch :
  acct_ok (ASys g ch) → record_invocation now r g = Ok (Reply st charged, g') →
  acct_ok (ASys g' (ch ++ charge_of r charged)).
Proof.
  intros Hok. unfold record_invocation. destruct (negb (lease_backs r (g_db g))); [done|]. cbv zeta.
  pose proof (ensure_ok now r g ch Hok) as Hok1. set (inv := ensure_invocation now r (g_inv g)) in *.
  destruct (inv !! id_invocation (r_id r)) as [row|] eqn:Hrow; [|done].
  destruct (bool_decide (iv_id row = r_id r)) eqn:Hid; [|done]. apply bool_decide_eq_true in Hid. simpl.
  pose proof (ao_entry _ Hok1 (id_invocation (r_id r))) as He. simpl in He. rewrite Hrow in He.
  destruct (r_event r) as [| |o u] eqn:Hev.
  - intros [= <- <- <-]. unfold charge_of. by rewrite app_nil_r.
  - destruct (bool_decide (iv_state row = IAccepted)) eqn:Hst; intros [= <- <- <-];
      unfold charge_of; rewrite app_nil_r; [|done]. apply bool_decide_eq_true in Hst.
    apply (acct_ok_row (Ledger (g_db g) inv (g_acct g))); [done|]. simpl.
    destruct (g_acct g !! _) as [a|]; [destruct He as (_ & _ & Hd & _); congruence|].
    destruct He as (Hc & Hk & _). unfold row_check in *. rewrite Hst in Hc. simpl. destruct Hc. eauto.
  - destruct (bool_decide (iv_state row = IAccepted)) eqn:Hst; [done|]. apply bool_decide_eq_false in Hst.
    destruct (g_acct g !! _) as [a|] eqn:Ha.
    + destruct (ac_recovered a); [intros [= <- <- <-]; by rewrite app_nil_r|].
      destruct (_ && _); [|done]. intros [= <- <- <-]. by rewrite app_nil_r.
    + intros [= <- <- <-]. unfold charge_of. rewrite Hev.
      apply (acct_ok_close (Ledger (g_db g) inv (g_acct g)) ch _ _ (AcctRow (r_id r) o (r_at r) u false)); [done..|].
      destruct He as (Hc & Hk & Ho). simpl. unfold row_check in *.
      destruct (iv_state row) eqn:Hs; [done| |done]. simpl. destruct Hc. split; [eauto|]. split; [congruence|]. done.
Qed.

Lemma recover_one_ok now k g ch : acct_ok (ASys g ch) → acct_ok (ASys (recover_one now g k) ch).
Proof.
  intros Hok. unfold recover_one. pose proof (ao_entry _ Hok k) as He. simpl in He.
  destruct (g_inv g !! k) as [row|]; [|done]. destruct (g_acct g !! k) as [a|] eqn:Ha; [done|].
  rewrite <- (app_nil_r ch).
  apply (acct_ok_close g ch k _ (AcctRow (iv_id row) OFailed now (Usage 0 0 0 0 0) true)); [done..|].
  destruct He as (_ & Hk & _). simpl. split; [unfold row_check; simpl; eauto|]. done.
Qed.

Lemma recover_rows_ok now rows g ch : acct_ok (ASys g ch) → acct_ok (ASys (foldl (recover_one now) g rows) ch).
Proof. revert g. induction rows as [|k rows IH]; intros g Hok; simpl; [done|]. by apply IH, recover_one_ok. Qed.

Lemma acct_step_ok x x' : acct_ok x → acct_step x x' → acct_ok x'.
Proof.
  destruct x as [g ch]. intros Hok. destruct 1 as [now r st charged g' H|now stale limit unlocked l g' H|d H]; simpl in *.
  - by eapply record_ok.
  - unfold recover_stale_invocations in H. destruct (_ || _); [done|]. injection H as _ <-. by apply recover_rows_ok.
  - destruct Hok as [A B C]. split; simpl in *; try done. intros k. by rewrite H.
Qed.

Lemma acct_reachable_ok x : acct_reachable x → acct_ok x.
Proof. intros H. eapply star_invariant; [apply acct_step_ok|exact H|]. by split. Qed.

(** (C32) An invocation is charged at most once.  However often and in whatever
    order its events arrive, and whenever the reaper closes it: the confirmed
    charges of an invocation are exactly its one accounting row when that was
    reported by the executor, and none when it was recovered; there is one
    accounting event in the outbox when there is a row and none otherwise; and
    the invocation row satisfies the table's CHECK constraint. *)
Theorem invocation_charged_at_most_once x k :
  acct_reachable x →
  filter (λ c, c.1 = k) (x_charges x) = charges_of k (g_acct (x_ledger x) !! k) ∧
  accounting_events k (g_db (x_ledger x)) = match g_acct (x_ledger x) !! k with Some _ => 1%nat | None => 0%nat end ∧
  entry_ok k (g_inv (x_ledger x) !! k) (g_acct (x_ledger x) !! k).
Proof. intros [A B C]%acct_reachable_ok. auto. Qed.

Lemma recover_one_acct now g j k a : g_acct g !! k = Some a → g_acct (recover_one now g j) !! k = Some a.
Proof.
  intros Ha. unfold recover_one. destruct (g_inv g !! j); [|done]. destruct (g_acct g !! j) eqn:Hj; [done|].
  simpl. rewrite lookup_insert_ne by congruence. done.
Qed.

Lemma acct_step_final x x' k a :
  acct_step x x' → g_acct (x_ledger x) !! k = Some a → g_acct (x_ledger x') !! k = Some a.
Proof.
  destruct 1 as [now r st charged g H|now stale limit unlocked l g H|d H]; intros Ha; simpl; [| |done].
  - unfold record_invocation in H. destruct (negb _); [done|]. cbv zeta in H. destruct (_ !! _) as [row|]; [|done].
    destruct (negb _); [done|]. destruct (r_event r) as [| |o u].
    + by injection H as _ _ <-.
    + destruct (bool_decide _); by injection H as _ _ <-.
    + destruct (bool_decide _); [done|]. destruct (g_acct (x_ledger x) !! id_invocation (r_id r)) as [e|] eqn:He.
      * destruct (ac_recovered e); [by injection H as _ _ <-|]. destruct (_ && _); [|done]. by injection H as _ _ <-.
      * injection H as _ _ <-. simpl. rewrite lookup_insert_ne by congruence. done.
  - unfold recover_stale_invocations in H. destruct (_ || _); [done|]. injection H as _ <-.
    generalize (stale_rows stale (Z.to_nat limit) unlocked (g_inv (x_ledger x))). intros rows.
    revert Ha. generalize (x_ledger x). induction rows as [|j rows IH]; intros g Ha; simpl; [done|].
    apply IH. by apply recover_one_acct.
Qed.

(** A settled invocation is final.  Once an accounting row exists it never
    changes; a further terminal event of the same identity changes nothing: after
    a recovery every one is answered "failed, not charged", otherwise an exact
    repeat is answered with the recorded outcome, not charged, and any other
    report is refused. *)
Theorem settled_invocation_is_final x x' k a :
  acct_reachable x → g_acct (x_ledger x) !! k = Some a → star acct_step x x' →
  g_acct (x_ledger x') !! k = Some a ∧
  ∀ now r o u, r_id r = ac_id a → r_event r = EvTerminal o u → lease_backs r (g_db (x_ledger x')) = true →
    record_invocation now r (x_ledger x') =
      if ac_recovered a then Ok (Reply (IDone OFailed) false, x_ledger x')
      else if bool_decide (ac_outcome a = o ∧ ac_recorded_at a = r_at r ∧ ac_usage a = u)
           then Ok (Reply (IDone o) false, x_ledger x') else Err StaleFence.
Proof.
  intros Hx Ha Hrun.
  assert (Ha' : g_acct (x_ledger x') !! k = Some a).
  { eapply (star_invariant acct_step (λ x, g_acct (x_ledger x) !! k = Some a)); [|exact Hrun|done].
    intros y z Hy Hs. by eapply acct_step_final. }
  split; [done|]. intros now r o u Hid Hev Hlease.
  assert (Hok : acct_ok x') by (apply acct_reachable_ok; by eapply star_trans).
  pose proof (ao_entry _ Hok k) as He. rewrite Ha' in He.
  destruct (g_inv (x_ledger x') !! k) as [row|] eqn:Hrow; [|done]. destruct He as (_ & Hk & Hst & Hac & Hrec).
  assert (Hkey : id_invocation (r_id r) = k) by congruence.
  unfold record_invocation, ensure_invocation. rewrite Hlease, Hev, Hkey, Hrow. cbv zeta. rewrite Hrow. simpl.
  rewrite bool_decide_eq_true_2 by congruence. simpl. rewrite Hst. simpl. rewrite Ha'.
  destruct (x_ledger x') as [d inv acct]. destruct (ac_recovered a); [done|].
  rewrite Hid, !(bool_decide_eq_true_2 (@eq string _ _)) by done. simpl.
  replace (bool_decide (ac_outcome a = o ∧ ac_recorded_at a = r_at r ∧ ac_usage a = u)) with
    (bool_decide (ac_outcome a = o) && (ac_recorded_at a =? r_at r) && bool_decide (ac_usage a = u)); [done|].
  apply Bool.eq_true_iff_eq. rewrite !andb_true_iff, !bool_decide_eq_true, Z.eqb_eq. tauto.
Qed.

(** What reaches the ledger is bounded: the usage of a terminal record lies
    within the ranges of the accounting table's CHECK constraints, and every
    in-range measurement is accepted as it is. *)
Theorem usage_within_bounds c w m i o u :
  usage_of c w m i o = Some u ↔
  (c = JInt (u_cpu u) ∧ w = JInt (u_wall u) ∧ m = JInt (u_memory u) ∧ i = JInt (u_input u) ∧ o = JInt (u_output u)) ∧
  0 ≤ u_cpu u ≤ 86400000 ∧ 0 ≤ u_wall u ≤ 86400000 ∧ 0 ≤ u_memory u ≤ 68719476736 ∧
  0 ≤ u_input u ≤ 67108864 ∧ 0 ≤ u_output u ≤ 67108864.
Proof.
  assert (Hb : ∀ v mx z, _bounded_integer v mx = Some z ↔ v = JInt z ∧ 0 ≤ z ≤ mx).
  { intros v mx z. unfold _bounded_integer. split.
    - destruct v as [| |z0| | |]; try done. destruct ((z0 <? 0) || (mx <? z0)) eqn:Ht; [done|]. intros [= <-].
      bool_prop. split; [done|lia].
    - intros [-> [H1 H2]]. rewrite (proj2 (Z.ltb_ge z 0) H1), (proj2 (Z.ltb_ge mx z) H2). done. }
  unfold usage_of. split.
  - intros (a1 & H1%Hb & (a2 & H2%Hb & (a3 & H3%Hb & (a4 & H4%Hb & (a5 & H5%Hb & [= <-])%bind_Some)%bind_Some)%bind_Some)%bind_Some)%bind_Some.
    unfold MAX_CPU_MS, MAX_WALL_MS, MAX_MEMORY_PEAK_BYTES, MAX_INPUT_BYTES, MAX_OUTPUT_BYTES in *. simpl.
    repeat match goal with H : _ ∧ _ |- _ => destruct H end. subst. repeat split; lia.
  - intros ((-> & -> & -> & -> & ->) & H1 & H2 & H3 & H4 & H5).
    do 5 (apply bind_Some; eexists; split; [by apply Hb|]). by destruct u.
Qed.
