(* ===== verification/ExecService.v ===== *)
(** * The assignment service

    [ControlPlane] of [executor/control_plane/service.py] over the transactions
    of [PostgresStore].  The executor ([runtime]), Redis ([coordination]) and the
    digest function are parameters.  Identifiers drawn with [uuid4] are
    arguments, as is the clock.  A request's [tenant_id], [session_id], catalog
    digest and artifact digest are strings. *)

From S2P Require Import Prelude Json ExecStore ExecSystem ExecReclaim.
Local Open Scope Z_scope.

(** Exceptions that leave the service: [ControlPlaneError] with its code, or a
    store or runtime exception it does not catch. *)
Inductive svc_error :=
| INVALID_ASSIGNMENT | ARTIFACT_NOT_ALLOWED | REDIS_UNAVAILABLE | POSTGRES_UNAVAILABLE | SESSION_ALREADY_BOUND
| NO_CAPACITY | INVALID_ARTIFACT | RUNTIME_NOT_READY | ASSIGNMENT_FAILED | LEASE_EXPIRED | STALE_FENCE
| Uncaught (e : cp_error).

Abbreviation svc := (io db svc_error).

(** ** [_require] *)

Definition CONTRACT : string := "leaf.instant-execution/v1".
Definition has_keys (ks : list string) (kvs : list (string * json)) : bool :=
  forallb (λ k, bool_decide (k ∈ kvs.*1)) ks.
Definition required : list string :=
  ["contract"; "tenant_id"; "session_id"; "effective_catalog_digest"; "artifact"; "drawing_context"].
Definition artifact_required : list string :=
  ["source"; "code_digest"; "artifact_digest"; "runtime"; "entrypoint"; "limits"; "tool_id"; "tool_version";
   "capability_id"; "params_schema_digest"; "catalog_commit"].
Definition jobject (j : option json) : option (list (string * json)) :=
  match j with Some (JObj kvs) => Some kvs | _ => None end.
Definition jstring (j : option json) : option string := match j with Some (JStr s) => Some s | _ => None end.

Definition _require (request : list (string * json)) : bool :=
  has_keys required request &&
  bool_decide (jstring (dict_get request "contract") = Some CONTRACT) &&
  match jobject (dict_get request "artifact") with
  | Some a => has_keys artifact_required a && bool_decide (jstring (dict_get a "runtime") = Some "python-3.12"%string)
  | None => false
  end &&
  match jobject (dict_get request "drawing_context") with
  | Some c => has_keys ["reference"; "data"]%string c
  | None => false
  end.

Record ids := Ids { n_claim : string; n_assignment : string; n_lease : string }.
Inductive answer := ReadyAnswer | OtherAnswer | Raises.

Section service.
Context (heartbeat_timeout lease_lifetime : Z).
Context (sha256 : string → string).
Context (allowed_artifact_digests : option (list string)).
(** Redis: not configured, or whether the availability check passes. *)
Context (coordination : option bool).
Context (runtime_assign : string → Session → Lease → answer).
Context (runtime_release : string → string → string → bool).
(** The rows the random order offers to the attempts of one claim. *)
Context (picks : nat → option (string * string)).

(** A transaction; its exception leaves the database as it was. *)
Definition tx {A} (f : db → result cp_error (A * db)) (g : cp_error → svc_error) : svc A :=
  λ d, match f d with Ok (a, d') => (Ok a, d') | Err e => (Err (g e), d) end.
Definition modify (f : db → db) : svc unit := λ d, (Ok tt, f d).
Definition reads {A} (f : db → A) : svc A := λ d, (Ok (f d), d).
Definition writes (f : db → result cp_error db) (g : cp_error → svc_error) : svc unit :=
  λ d, match f d with Ok d' => (Ok tt, d') | Err e => (Err (g e), d) end.

(** [_lease]. *)
Definition _lease (lease_id : string) (s : Session) (slot : Slot) (c : Claim) (now sequence : Z) : Lease :=
  mkLease lease_id (ss_id s) (sl_executor slot) (sl_slot slot) (cl_id c) (sl_host_epoch slot) (sl_slot_epoch slot)
    (cl_epoch c) (ss_epoch s) sequence now (now + lease_lifetime) LActive.

(** [ControlPlane.release]. *)
Definition svc_release (dbnow : Z) (id reason : string) : svc unit :=
  λ d, match service_release runtime_release dbnow id reason d with
       | (Ok u, d') => (Ok u, d')
       | (Err e, d') => (Err (Uncaught e), d')
       end.

(** [ControlPlane.invalidate]. *)
Definition svc_invalidate (dbnow : Z) (id reason : string) (epoch : option Z) : svc unit :=
  s ← tx (invalidate dbnow id reason epoch) (λ e, match e with StaleFence => STALE_FENCE | e => Uncaught e end);
  match s with
  | None => mret tt
  | Some s =>
      slot ← reads (get_slot (ss_executor s) (ss_slot s));
      match slot with
      | None => raise (Uncaught AttributeErr)
      | Some slot =>
          if runtime_release (sl_endpoint slot) (ss_assignment s) reason
          then modify (complete_reclaim dbnow (ss_id s))
          else raise (Uncaught RuntimeErr)
      end
  end.

(** The claim of [_assign], with the codes its exceptions are given. *)
Definition claim_error (e : cp_error) : svc_error :=
  match e with
  | StoreUnavailable => POSTGRES_UNAVAILABLE
  | NoCapacity | StaleFence => NO_CAPACITY
  | e => Uncaught e
  end.

(** The session [_assign] creates from the artifact on the claimed slot. *)
Definition new_session (assignment tenant session_id catalog : string) (artifact : list (string * json))
    (slot : Slot) (c : Claim) (epoch : Z) (digest : string) : Session :=
  mkSession assignment tenant session_id (sl_executor slot) (sl_slot slot) (cl_id c) epoch catalog digest digest
    (default "" (sl_runtime slot))
    (JObj [("capability_id", default JNull (dict_get artifact "capability_id"));
           ("tool_id", default JNull (dict_get artifact "tool_id"));
           ("tool_version", default JNull (dict_get artifact "tool_version"))])
    BINDING None 0 None None.

(** The digest check: the source is text and both digests are its own. *)
Definition checked_digest (artifact : list (string * json)) : option string :=
  match dict_get artifact "source" with
  | Some (JStr source) =>
      let digest := "sha256:" +:+ sha256 source in
      if bool_decide (jstring (dict_get artifact "code_digest") = Some digest) &&
         bool_decide (jstring (dict_get artifact "artifact_digest") = Some digest)
      then Some digest else None
  | _ => None
  end.

(** The body of the [try] once the slot is claimed. Every exception in it that is
    not a [ControlPlaneError] becomes ASSIGNMENT_FAILED after the cleanup. *)
Definition bind_claimed (n : ids) (now dbnow : Z) (session : Session) (slot : Slot) (c : Claim) : svc Lease :=
  let lease := _lease (n_lease n) session slot c now 1 in
  match runtime_assign (sl_endpoint slot) session lease with
  | ReadyAnswer => writes (activate (ss_id session) lease) (λ _, ASSIGNMENT_FAILED);; mret lease
  | OtherAnswer => raise RUNTIME_NOT_READY
  | Raises => raise ASSIGNMENT_FAILED
  end.

(** Cleanup before the session exists: abort the claim, tell the executor. *)
Definition undo_claim (dbnow : Z) (slot : Slot) (c : Claim) (fresh reason : string) (e : svc_error) : svc Lease :=
  λ d, let d' := abort_claim dbnow (cl_id c) d in
       if runtime_release (sl_endpoint slot) fresh reason then (Err e, d') else (Err (Uncaught RuntimeErr), d').
(** Cleanup after it: end the session. *)
Definition undo_session (dbnow : Z) (id reason : string) (e : svc_error) : svc Lease :=
  svc_release dbnow id reason;; raise e.

Definition cleanup_reason (e : svc_error) : string :=
  match e with ASSIGNMENT_FAILED => "assignment_failed" | _ => "runtime_not_ready" end.

Definition bind_slot (n : ids) (now dbnow : Z) (tenant session_id catalog : string) (artifact : list (string * json))
    (epoch : Z) (slot : Slot) (c : Claim) : svc Lease :=
  match checked_digest artifact with
  | None => undo_claim dbnow slot c (n_assignment n) "runtime_not_ready" INVALID_ARTIFACT
  | Some digest =>
      let session := new_session (n_assignment n) tenant session_id catalog artifact slot c epoch digest in
      λ d, match create_session dbnow session d with
           | Err _ => undo_claim dbnow slot c (n_assignment n) "assignment_failed" ASSIGNMENT_FAILED d
           | Ok d' => try_except (bind_claimed n now dbnow session slot c)
                        (λ e, undo_session dbnow session_id (cleanup_reason e) e) d'
           end
  end.

(** The claim, with the slot row the statement returns joined to its host. *)
Definition claim_for (n : ids) (now dbnow : Z) (d : db) : result cp_error (Slot * Claim * db) :=
  x ← claim_ready_slot heartbeat_timeout dbnow (n_claim n) now lease_lifetime 5 picks d;
  slot ← from_opt (_slot x.2 (cl_executor x.1, cl_slot x.1)) KeyErr;
  Ok (slot, x.1, x.2).

(** [_assign]. *)
Definition _assign (n : ids) (now dbnow : Z) (request : list (string * json)) (epoch : Z) : svc Lease :=
  if negb (_require request) then raise INVALID_ASSIGNMENT else
  match jobject (dict_get request "artifact"), jstring (dict_get request "tenant_id"),
        jstring (dict_get request "session_id"), jstring (dict_get request "effective_catalog_digest") with
  | Some artifact, Some tenant, Some session_id, Some catalog =>
      if match allowed_artifact_digests with
         | Some l => negb (bool_decide (default "" (jstring (dict_get artifact "artifact_digest")) ∈ l))
         | None => false
         end then raise ARTIFACT_NOT_ALLOWED else
      match coordination with
      | None => raise REDIS_UNAVAILABLE
      | Some redis_up =>
          existing ← reads (get_session session_id);
          (match existing with
           | Some s =>
               if live (ss_state s) then
                 if match ss_expires s with None => true | Some e => now <? e end then raise SESSION_ALREADY_BOUND
                 else svc_release dbnow (ss_id s) "lease_expired"
               else mret tt
           | None => mret tt
           end);;
          (if redis_up then mret tt else raise REDIS_UNAVAILABLE);;
          sc ← tx (claim_for n now dbnow) claim_error;
          bind_slot n now dbnow tenant session_id catalog artifact epoch sc.1 sc.2
      end
  | _, _, _, _ => raise INVALID_ASSIGNMENT
  end.

(** [renew]: the lease it grants. *)
Definition svc_renew (n : ids) (clock : Z) (session_id : string) (epoch : Z) : svc Lease :=
  s ← reads (get_session session_id);
  match s with
  | None => raise LEASE_EXPIRED
  | Some s =>
      if match ss_expires s with None => true | Some e => e <=? clock end then raise LEASE_EXPIRED
      else
        slot ← reads (get_slot (ss_executor s) (ss_slot s));
        c ← reads (get_claim (ss_claim s));
        match c with
        | None => raise STALE_FENCE
        | Some c =>
            if negb (bool_decide (cl_state c = CActive)) then raise STALE_FENCE
            else match slot with
                 | None => raise (Uncaught AttributeErr)
                 | Some slot =>
                     let l := _lease (n_lease n) s slot c clock (ss_sequence s + 1) in
                     writes (renew session_id epoch l) (λ e, match e with StaleFence => STALE_FENCE | e => Uncaught e end);;
                     mret l
                 end
        end
  end.

(** [rebind]: invalidate the old binding, assign with the next epoch. *)
Definition rebind (n : ids) (now dbnow : Z) (request : list (string * json)) : svc Lease :=
  match jstring (dict_get request "session_id") with
  | None => raise (Uncaught KeyErr)
  | Some id =>
      old ← reads (get_session id);
      match old with
      | Some s => svc_invalidate dbnow (ss_id s) "code_change" (Some (ss_epoch s));; _assign n now dbnow request (ss_epoch s + 1)
      | None => _assign n now dbnow request 1
      end
  end.

(** ** All or nothing *)

(** Every claim active in [d'] was active in [d]. *)
Definition no_new_claim (d d' : db) : Prop :=
  ∀ i c', d_claims d' !! i = Some c' → is_active c' → ∃ c, d_claims d !! i = Some c ∧ is_active c.

Lemma evolve_no_new d d' : claims_evolve (d_claims d) (d_claims d') → no_new_claim d d'.
Proof. intros [He _] i c' Hc' Ha. destruct (He i c' Hc') as (c & Hc & _ & _ & Hac). eauto. Qed.

Lemma no_new_trans d1 d2 d3 : no_new_claim d1 d2 → no_new_claim d2 d3 → no_new_claim d1 d3.
Proof. intros H1 H2 i c3 Hc3 Ha3. destruct (H2 i c3 Hc3 Ha3) as (c2 & Hc2 & Ha2). eauto. Qed.

(** [d] with one more claim, [cid], which is [row]. *)
Definition one_claim (cid : string) (d d1 : db) : Prop :=
  ∃ row, d_claims d !! cid = None ∧ d_claims d1 = <[cid := row]> (d_claims d).

(** Whatever ends the new claim undoes the addition. *)
Lemma released_no_new cid d d1 d2 :
  one_claim cid d d1 → claims_evolve (d_claims d1) (d_claims d2) →
  (∀ c, d_claims d2 !! cid = Some c → ¬ is_active c) → no_new_claim d d2.
Proof.
  intros (row & Hn & Hd1) [He _] Hoff i c' Hc' Ha. destruct (He i c' Hc') as (c & Hc & _ & _ & Hac).
  destruct (decide (i = cid)) as [->|Hne]; [by destruct (Hoff c')|].
  rewrite Hd1, lookup_insert_ne in Hc by done. eauto.
Qed.

Lemma release_claims runtime dbnow id reason d r d' :
  service_release runtime dbnow id reason d = (r, d') → claims_evolve (d_claims d) (d_claims d').
Proof.
  unfold service_release, release.
  destruct (_finish_session dbnow id reason None d) as [[[s|] d1]|e] eqn:Hf.
  - apply finish_claims in Hf. destruct (get_slot _ _ d1); [destruct (runtime _ _ _)|]; intros [= <- <-]; try done.
    unfold complete_reclaim. by destruct (d_sessions d1 !! ss_id s).
  - apply finish_claims in Hf. by intros [= <- <-].
  - intros [= <- <-]. apply claims_evolve_refl.
Qed.

Lemma release_ends_claim runtime dbnow id reason d r d' row :
  d_sessions d !! id = Some row → service_release runtime dbnow id reason d = (r, d') →
  ∀ c, d_claims d' !! claim_of row = Some c → ¬ is_active c.
Proof.
  intros Hr. unfold service_release, release.
  destruct (finish_some dbnow id reason d row Hr) as (d1 & -> & _ & _ & _ & Hoff).
  destruct (get_slot _ _ d1); [destruct (runtime _ _ _)|]; intros [= <- <-]; try done.
  unfold complete_reclaim. by destruct (d_sessions d1 !! _).
Qed.

Lemma abort_claims dbnow cid d : claims_evolve (d_claims d) (d_claims (abort_claim dbnow cid d)) ∧
  ∀ c, d_claims (abort_claim dbnow cid d) !! cid = Some c → ¬ is_active c.
Proof.
  unfold abort_claim, is_active. destruct (d_claims d !! cid) as [c|] eqn:Hc.
  2:{ split; [apply claims_evolve_refl|]. by rewrite Hc. }
  destruct (bool_decide (cr_state c = CActive)) eqn:Ha; simpl.
  - split; [by apply release_evolve|]. rewrite lookup_insert_eq. by intros c0 [= <-].
  - split; [apply claims_evolve_refl|]. rewrite Hc. intros c0 [= <-]. by apply bool_decide_eq_false in Ha.
Qed.

Lemma claim_row_one expires cid k r c d d1 :
  claim_row expires cid k r d = Ok (c, d1) → cl_id c = cid ∧ one_claim cid d d1.
Proof.
  intros H. split; [|by destruct (claim_row_claims _ _ _ _ _ _ _ H) as (Hn & row & Hrow); exists row].
  unfold claim_row in H. destruct (_ || _); [done|]. by injection H as <- <-.
Qed.

Lemma claim_attempts_one ps dbnow cid now lifetime c d d1 :
  claim_attempts heartbeat_timeout ps dbnow cid now lifetime d = Ok (c, d1) → cl_id c = cid ∧ one_claim cid d d1.
Proof.
  induction ps as [|p ps IH]; simpl; [done|]. intros ([[c2 d2]|] & Ha & Hx)%result_bind_Ok; [|by apply IH].
  injection Hx as <- <-. destruct (claim_attempt_inv _ _ _ _ _ _ _ _ _ Ha) as (k & r & _ & Hrow). by eapply claim_row_one.
Qed.

Lemma claim_for_one n now dbnow d slot c d1 :
  claim_for n now dbnow d = Ok (slot, c, d1) → cl_id c = n_claim n ∧ one_claim (n_claim n) d d1.
Proof.
  unfold claim_for, claim_ready_slot. rewrite bool_decide_eq_false_2 by lia.
  intros ([c1 d1'] & Hc & (s & _ & [= <- <- <-])%result_bind_Ok)%result_bind_Ok. by eapply claim_attempts_one.
Qed.

(** The session row of a successful creation. *)
Lemma create_session_row dbnow s d d' :
  create_session dbnow s d = Ok d' →
  d_claims d' = d_claims d ∧
  ∃ r, d_sessions d' !! ss_id s = Some r ∧ claim_of r = ss_claim s ∧ ss_epoch (se_session r) = ss_epoch s.
Proof.
  unfold create_session, create_on. destruct (valid_claim dbnow s d); [|done].
  destruct (d_sessions d !! ss_id s) as [r|]; [destruct (live _); [done|]|]; intros [= <-]; split; try done;
    (eexists; simpl; rewrite lookup_insert_eq; split; [done|]; done).
Qed.

(** What an assignment leaves: an active session on its claim, or no claim. *)
Definition assigned (cid id : string) (l : Lease) (d : db) : Prop :=
  ∃ r, d_sessions d !! id = Some r ∧ ss_state (se_session r) = SActive ∧ claim_of r = cid ∧
    ss_lease (se_session r) = Some (le_id l) ∧ claim_held (se_session r) (le_not_before l) d = true ∧
    ∃ row, d_leases d !! le_id l = Some row ∧ le_state (lr_lease row) = LActive ∧ le_claim (lr_lease row) = cid.

Lemma activate_assigned id l d d' r :
  d_sessions d !! id = Some r → le_claim l = claim_of r → activate id l d = Ok d' → assigned (claim_of r) id l d'.
Proof.
  intros Hr Hcl. unfold activate, activate_on. rewrite Hr. destruct (_ && claim_seated _ _) eqn:Ht; [|done]. bool_prop.
  unfold insert_lease. destruct (bool_decide _); [done|]. intros [= <-]. unfold assigned. simpl.
  eexists. rewrite lookup_insert_eq. split; [done|]. do 4 (split; [done|]).
  eexists. rewrite lookup_insert_eq. done.
Qed.

Lemma bind_slot_spec n now dbnow tenant id catalog artifact epoch slot c d d1 :
  one_claim (cl_id c) d d1 →
  wp (bind_slot n now dbnow tenant id catalog artifact epoch slot c)
    (λ r d', match r with Ok l => assigned (cl_id c) id l d' | Err _ => no_new_claim d d' end) d1.
Proof.
  intros Hone.
  assert (Hundo : ∀ fresh reason e, wp (undo_claim dbnow slot c fresh reason e)
    (λ r d', match r with Ok l => assigned (cl_id c) id l d' | Err _ => no_new_claim d d' end) d1).
  { intros fresh reason e. destruct (abort_claims dbnow (cl_id c) d1) as [He Hoff].
    unfold wp, outcome, final, undo_claim. destruct (runtime_release _ _ _); simpl; by eapply released_no_new. }
  unfold bind_slot. destruct (checked_digest artifact) as [digest|]; [|apply Hundo].
  set (s := new_session _ _ _ _ _ _ _ _ _). destruct (create_session dbnow s d1) as [d2|e] eqn:Hcr.
  2:{ specialize (Hundo (n_assignment n) "assignment_failed" ASSIGNMENT_FAILED). unfold wp, outcome, final in *. by rewrite Hcr. }
  destruct (create_session_row dbnow s d1 d2 Hcr) as (Hcl & r & Hr & Hrc & _).
  change (d_sessions d2 !! id = Some r) in Hr. change (claim_of r = cl_id c) in Hrc.
  assert (Hgoal : wp (try_except (bind_claimed n now dbnow s slot c) (λ e, undo_session dbnow id (cleanup_reason e) e))
    (λ r d', match r with Ok l => assigned (cl_id c) id l d' | Err _ => no_new_claim d d' end) d2);
    [|unfold wp, outcome, final in *; by rewrite Hcr].
  apply wp_try.
  assert (Hfail : ∀ e, wp (undo_session dbnow id (cleanup_reason e) e)
    (λ r d', match r with Ok l => assigned (cl_id c) id l d' | Err _ => no_new_claim d d' end) d2).
  { intros e. unfold undo_session. apply wp_bind. unfold wp, outcome, final, svc_release.
    destruct (service_release runtime_release dbnow id (cleanup_reason e) d2) as [[u|e'] d3] eqn:Hrel; simpl;
      (eapply (released_no_new (cl_id c) d d1); [done|rewrite <- Hcl; by eapply release_claims|];
       intros c0; rewrite <- Hrc; by eapply release_ends_claim). }
  unfold bind_claimed. destruct (runtime_assign _ _ _); [|apply wp_raise; apply Hfail..].
  apply wp_bind. unfold wp at 1, outcome, final, writes.
  destruct (activate (ss_id s) _ d2) as [d3|e] eqn:Hact; [|apply Hfail]. apply wp_ret.
  rewrite <- Hrc. by eapply activate_assigned.
Qed.

(** An assignment is all or nothing.  Whatever the request, the digests, the
    executor, Redis and the state of the tables: [_assign] either returns with
    the session active on the claim it took, which is still held, and with its
    lease recorded, or it raises and leaves no claim active that was not active
    before, even when the executor refuses the cleanup call. *)
Theorem assign_all_or_nothing n now dbnow request epoch d :
  match _assign n now dbnow request epoch d with
  | (Ok l, d') => ∃ id, jstring (dict_get request "session_id") = Some id ∧ assigned (n_claim n) id l d'
  | (Err _, d') => no_new_claim d d'
  end.
Proof.
  assert (Hrefl : no_new_claim d d) by (intros i c Hc Ha; eauto).
  enough (H : wp (_assign n now dbnow request epoch)
    (λ r d', match r with
             | Ok l => ∃ id, jstring (dict_get request "session_id") = Some id ∧ assigned (n_claim n) id l d'
             | Err _ => no_new_claim d d' end) d).
  { unfold wp, outcome, final in H. by destruct (_assign n now dbnow request epoch d) as [[l|e] d']. }
  unfold _assign. destruct (negb _); [by apply wp_raise|].
  destruct (jobject (dict_get request "artifact")) as [artifact|]; [|by apply wp_raise].
  destruct (jstring (dict_get request "tenant_id")) as [tenant|]; [|by apply wp_raise].
  destruct (jstring (dict_get request "session_id")) as [id|]; [|by apply wp_raise].
  destruct (jstring (dict_get request "effective_catalog_digest")) as [catalog|]; [|by apply wp_raise].
  destruct (match allowed_artifact_digests with Some _ => _ | None => _ end); [by apply wp_raise|].
  destruct coordination as [redis_up|]; [|by apply wp_raise].
  apply wp_bind. unfold wp at 1, outcome, final, reads. cbn [fst snd]. apply wp_bind.
  apply (wp_mono _ (λ r d', no_new_claim d d' ∧ (is_ok r → claims_evolve (d_claims d) (d_claims d')))).
  { destruct (get_session id d) as [s|]; [|by split; [|intros _; apply claims_evolve_refl]].
    destruct (live (ss_state s)); [|by split; [|intros _; apply claims_evolve_refl]].
    destruct (match ss_expires s with None => true | Some e => now <? e end); [by split; [|intros _; apply claims_evolve_refl]|].
    unfold wp, outcome, final, svc_release.
    destruct (service_release runtime_release dbnow (ss_id s) "lease_expired" d) as [[u|e] d1] eqn:Hrel; simpl;
      apply release_claims in Hrel; split; try done; by apply evolve_no_new. }
  intros [u|e] d1 [Hnn He]; [|done]. apply wp_bind. destruct redis_up; [|by apply wp_raise]. apply wp_ret.
  apply wp_bind. unfold wp at 1, outcome, final, tx.
  destruct (claim_for n now dbnow d1) as [[[slot c] d2]|e] eqn:Hc; simpl; [|done].
  destruct (claim_for_one n now dbnow d1 slot c d2 Hc) as [Hid Hone]. rewrite <- Hid in Hone.
  eapply wp_mono; [by apply bind_slot_spec|]. intros [l|e] d3 H; simpl in *.
  - exists id. by rewrite <- Hid.
  - by eapply no_new_trans.
Qed.
End service.
