(* ===== verification/ExecMemory.v ===== *)
(** * The in-memory control store

    [InMemoryStore] of [executor/control_plane/store.py], the store of the
    development server and of the tests.  Every method runs under one lock.  The
    objects in its dictionaries are shared with the callers, which only read
    them; the state below is what the dictionaries point to. *)

From S2P Require Import Prelude Json ExecStore.
From stdpp Require Import sorting.
Local Open Scope Z_scope.

Record mem := Mem {
  m_available : bool;
  m_slots : gmap (string * string) Slot;
  m_sessions : gmap string Session;
  m_claims : gmap string Claim;
  m_epochs : gmap string Z;
  m_heartbeats : gmap string Z;
  m_cursor : Z }.
Definition mem_init : mem := Mem true ∅ ∅ ∅ ∅ ∅ 0.

Abbreviation memio := (io mem cp_error).
(** [with self._lock: self._require(); body]. *)
Definition _require {A} (body : mem → result cp_error A * mem) : memio A :=
  λ m, if m_available m then body m else (Err StoreUnavailable, m).

Definition mem_slots (m : mem) slots := Mem (m_available m) slots (m_sessions m) (m_claims m) (m_epochs m) (m_heartbeats m) (m_cursor m).
Definition mem_sessions (m : mem) sessions := Mem (m_available m) (m_slots m) sessions (m_claims m) (m_epochs m) (m_heartbeats m) (m_cursor m).
Definition mem_claims (m : mem) claims := Mem (m_available m) (m_slots m) (m_sessions m) claims (m_epochs m) (m_heartbeats m) (m_cursor m).

Definition slot_to (s : Slot) (st : slot_state) (version : Z) : Slot :=
  mkSlot (sl_executor s) (sl_slot s) (sl_endpoint s) (sl_host_epoch s) (sl_slot_epoch s) st (sl_code s) (sl_runtime s) version.
Definition claim_to (c : Claim) (st : claim_state) : Claim :=
  mkClaim (cl_id c) (cl_executor c) (cl_slot c) (cl_epoch c) (cl_expires c) st.

Section memory.
Context (heartbeat_timeout : Z).

Definition register_host (clock : Z) (executor endpoint : string) (slot_ids : list string) : memio (list Slot) :=
  _require $ λ m,
    let epoch := default 0 (m_epochs m !! executor) + 1 in
    let made := (λ id, mkSlot executor id endpoint epoch 1 STARTING None None 1) <$> slot_ids in
    (Ok made,
     Mem (m_available m) (foldl (λ acc s, <[(executor, sl_slot s) := s]> acc) (m_slots m) made) (m_sessions m) (m_claims m)
         (<[executor := epoch]> (m_epochs m)) (<[executor := clock]> (m_heartbeats m)) (m_cursor m)).

Definition set_readiness (executor slot : string) (ready : bool) (code runtime : string) : memio Slot :=
  _require $ λ m,
    match m_slots m !! (executor, slot) with
    | None => (Err KeyErr, m)
    | Some s =>
        let s' := mkSlot (sl_executor s) (sl_slot s) (sl_endpoint s) (sl_host_epoch s) (sl_slot_epoch s)
                    (if ready then READY else STARTING) (Some code) (Some runtime) (sl_version s + 1) in
        (Ok s', mem_slots m (<[(executor, slot) := s']> (m_slots m)))
    end.

Definition heartbeat (clock : Z) (executor : string) : memio unit :=
  _require $ λ m,
    if bool_decide (is_Some (m_epochs m !! executor))
    then (Ok tt, Mem (m_available m) (m_slots m) (m_sessions m) (m_claims m) (m_epochs m)
                     (<[executor := clock]> (m_heartbeats m)) (m_cursor m))
    else (Err KeyErr, m).

(** [0 <= now - heartbeat <= timeout]: unlike the database, a heartbeat from the
    future does not count. *)
Definition _host_is_fresh (m : mem) (executor : string) (now : Z) : bool :=
  match m_heartbeats m !! executor with
  | Some t => (0 <=? now - t) && (now - t <=? heartbeat_timeout)
  | None => false
  end.

Definition key_le (a b : (string * string) * Slot) : Prop :=
  String.le a.1.1 b.1.1 ∧ (a.1.1 = b.1.1 → String.le a.1.2 b.1.2).
#[local] Instance key_le_dec a b : Decision (key_le a b).
Proof. unfold key_le. apply _. Defined.

Definition _candidate_locked (now : Z) : memio Slot := λ m,
  let ready := filter (λ ks, bool_decide (sl_state ks.2 = READY) && _host_is_fresh m ks.1.1 now)
                 (merge_sort key_le (map_to_list (m_slots m))) in
  match ready !! Z.to_nat (m_cursor m `mod` Z.of_nat (length ready)) with
  | None => (Err NoCapacity, m)
  | Some ks => (Ok ks.2, Mem (m_available m) (m_slots m) (m_sessions m) (m_claims m) (m_epochs m) (m_heartbeats m) (m_cursor m + 1))
  end.
Definition candidate (clock : Z) : memio Slot := _require (_candidate_locked clock).

Definition claim_slot (clock : Z) (claim_id executor slot : string) (expected_version now lifetime : Z) : memio (Slot * Claim) :=
  _require $ λ m,
    match m_slots m !! (executor, slot) with
    | None => (Err KeyErr, m)
    | Some s =>
        if bool_decide (sl_state s = READY) && (sl_version s =? expected_version) && _host_is_fresh m executor clock then
          let s' := slot_to s CLAIMED (sl_version s + 1) in
          let c := mkClaim claim_id (sl_executor s) (sl_slot s) (sl_version s') (now + lifetime) CActive in
          (Ok (s', c), mem_claims (mem_slots m (<[(executor, slot) := s']> (m_slots m))) (<[claim_id := c]> (m_claims m)))
        else (Err StaleFence, m)
    end.

Definition claim_ready_slot (clock : Z) (claim_id : string) (now lifetime max_attempts : Z) : memio (Slot * Claim) :=
  if max_attempts <? 1 then raise ValueErr
  else _require (s ← _candidate_locked clock; claim_slot clock claim_id (sl_executor s) (sl_slot s) (sl_version s) now lifetime).

Definition get_claim (claim_id : string) : memio (option Claim) := _require $ λ m, (Ok (m_claims m !! claim_id), m).
Definition get_session (id : string) : memio (option Session) := _require $ λ m, (Ok (m_sessions m !! id), m).
Definition get_slot (executor slot : string) : memio (option Slot) := _require $ λ m, (Ok (m_slots m !! (executor, slot)), m).

(** [if slot.state == "CLAIMED": slot.state = "READY"], without a look at the
    claim that holds the slot. *)
Definition free_slot (executor slot : string) : memio unit := λ m,
  match m_slots m !! (executor, slot) with
  | None => (Err KeyErr, m)
  | Some s =>
      if bool_decide (sl_state s = CLAIMED)
      then (Ok tt, mem_slots m (<[(executor, slot) := slot_to s READY (sl_version s + 1)]> (m_slots m)))
      else (Ok tt, m)
  end.

Definition abort_claim (claim_id : string) : memio unit :=
  _require $ λ m,
    match m_claims m !! claim_id with
    | Some c =>
        if bool_decide (cl_state c = CActive)
        then free_slot (cl_executor c) (cl_slot c) (mem_claims m (<[claim_id := claim_to c CReleased]> (m_claims m)))
        else (Ok tt, m)
    | None => (Ok tt, m)
    end.

Definition create_session (s : Session) : memio unit :=
  _require $ λ m,
    match m_sessions m !! ss_id s with
    | Some old => if live (ss_state old) then (Err StaleFence, m)
                  else (Ok tt, mem_sessions m (<[ss_id s := s]> (m_sessions m)))
    | None => (Ok tt, mem_sessions m (<[ss_id s := s]> (m_sessions m)))
    end.

Definition activate (id : string) (l : Lease) : memio unit :=
  _require $ λ m,
    match m_sessions m !! id with
    | None => (Err KeyErr, m)
    | Some s =>
        if negb (bool_decide (ss_state s = BINDING)) || negb (le_epoch l =? ss_epoch s) then (Err StaleFence, m)
        else (Ok tt, mem_sessions m (<[id := session_with s SActive (Some (le_id l)) (le_sequence l) (Some (le_expires l)) (Some (le_not_before l))]> (m_sessions m)))
    end.

Definition renew (id : string) (expected_epoch : Z) (l : Lease) : memio unit :=
  _require $ λ m,
    match m_sessions m !! id with
    | None => (Err KeyErr, m)
    | Some s =>
        if negb (bool_decide (ss_state s = SActive)) || negb (ss_epoch s =? expected_epoch) || (le_sequence l <=? ss_sequence s)
        then (Err StaleFence, m)
        else (Ok tt, mem_sessions m (<[id := session_with s (ss_state s) (Some (le_id l)) (le_sequence l) (Some (le_expires l)) (Some (le_not_before l))]> (m_sessions m)))
    end.

Definition release (id reason : string) : memio (option Session) :=
  _require $ λ m,
    match m_sessions m !! id with
    | None => (Ok None, m)
    | Some s =>
        let s' := session_to s INVALID in
        let m1 := mem_sessions m (<[id := s']> (m_sessions m)) in
        let m2 := match m_claims m1 !! ss_claim s with
                  | Some c => mem_claims m1 (<[ss_claim s := claim_to c CReleased]> (m_claims m1))
                  | None => m1
                  end in
        (free_slot (ss_executor s) (ss_slot s);; mret (Some s')) m2
    end.

Definition invalidate (id reason : string) (expected_epoch : option Z) : memio (option Session) :=
  _require $ λ m,
    match m_sessions m !! id with
    | None => (Ok None, m)
    | Some s =>
        match expected_epoch with
        | Some e => if negb (e =? ss_epoch s) then (Err StaleFence, m) else release id reason m
        | None => release id reason m
        end
    end.

Definition drain (executor : string) (deadline : Z) : memio (list Session) :=
  _require $ λ m,
    let hit := λ (_ : string) s, bool_decide (ss_executor s = executor) && bool_decide (ss_state s = SActive) in
    let sessions := update_where hit (λ s, session_to s SessDraining) (m_sessions m) in
    (Ok ((map_to_list (filter (λ ks, hit ks.1 ks.2 = true) (m_sessions m))).*2),
     mem_sessions (mem_slots m (update_where (λ _ s, bool_decide (sl_executor s = executor))
                                  (λ s, slot_to s SDRAINING (sl_version s)) (m_slots m))) sessions).
End memory.

(** ** A release frees a slot it does not hold *)

Inductive mem_step (timeout : Z) (m : mem) : mem → Prop :=
| ms_register clock ex ep slots : mem_step timeout m (final (register_host clock ex ep slots) m)
| ms_readiness ex slot ready code rt : mem_step timeout m (final (set_readiness ex slot ready code rt) m)
| ms_heartbeat clock ex : mem_step timeout m (final (heartbeat clock ex) m)
| ms_claim clock cid now lifetime n : m_claims m !! cid = None →
    mem_step timeout m (final (claim_ready_slot timeout clock cid now lifetime n) m)
| ms_abort cid : mem_step timeout m (final (abort_claim cid) m)
| ms_create s : mem_step timeout m (final (create_session s) m)
| ms_activate id l : mem_step timeout m (final (activate id l) m)
| ms_renew id epoch l : mem_step timeout m (final (renew id epoch l) m)
| ms_invalidate id reason epoch : mem_step timeout m (final (invalidate id reason epoch) m)
| ms_drain ex deadline : mem_step timeout m (final (drain ex deadline) m).

Definition seat (assignment id claim : string) : Session :=
  mkSession assignment "acme" id "host" "slot" claim 1 "cat" "code" "art" "rt" JNull BINDING None 0 None None.
Definition lease1 (lease id claim : string) : Lease :=
  mkLease lease id "host" "slot" claim 1 1 3 1 1 1 61 LActive.

(** Claim the ready slot, bind a session to it and activate it. *)
Definition bind_slot (id claim : string) (m : mem) : mem :=
  final (activate id (lease1 ("lease-" +:+ id) id claim))
    (final (create_session (seat ("assign-" +:+ id) id claim))
      (final (claim_ready_slot 30 1 claim 1 60 5) m)).

Definition mem_ready : mem :=
  final (set_readiness "host" "slot" true "code" "rt") (final (register_host 0 "host" "https://h" ["slot"]) mem_init).
Definition mem_once : mem := final (invalidate "s1" "released" (Some 1)) (bind_slot "s1" "c1" mem_ready).
Definition mem_twice : mem := final (invalidate "s1" "code_change" (Some 1)) (bind_slot "s2" "c2" mem_once).
Definition mem_double : mem := bind_slot "s3" "c3" mem_twice.

Lemma mem_bind_run m id claim : m_claims m !! claim = None → star (mem_step 30) m (bind_slot id claim m).
Proof.
  intros H. eapply star_step; [apply (ms_claim 30 m 1 claim 1 60 5 H)|].
  eapply star_step; [apply (ms_create 30 _ (seat ("assign-" +:+ id) id claim))|].
  apply star_one, (ms_activate 30 _ id).
Qed.

Lemma mem_double_run : star (mem_step 30) mem_init mem_double.
Proof.
  assert (H0 : star (mem_step 30) mem_init mem_ready).
  { eapply star_step; [apply (ms_register 30 mem_init 0 "host" "https://h" ["slot"])|].
    apply star_one. exact (ms_readiness 30 _ "host" "slot" true "code" "rt"). }
  assert (H1 : m_claims mem_ready !! "c1" = None) by (vm_compute; reflexivity).
  assert (H2 : m_claims mem_once !! "c2" = None) by (vm_compute; reflexivity).
  assert (H3 : m_claims mem_twice !! "c3" = None) by (vm_compute; reflexivity).
  assert (H4 : mem_step 30 (bind_slot "s1" "c1" mem_ready) mem_once)
    by exact (ms_invalidate 30 _ "s1" "released" (Some 1)).
  assert (H5 : mem_step 30 (bind_slot "s2" "c2" mem_once) mem_twice)
    by exact (ms_invalidate 30 _ "s1" "code_change" (Some 1)).
  exact (star_trans _ _ _ _ H0 (star_trans _ _ _ _ (mem_bind_run _ "s1" _ H1) (star_step _ _ _ _ H4
    (star_trans _ _ _ _ (mem_bind_run _ "s2" _ H2) (star_step _ _ _ _ H5 (mem_bind_run _ "s3" _ H3)))))).
Qed.

(** The in-memory store double-books a slot.  Ending a session a second time
    (as a rebind of a session that was already released does) frees the slot
    without looking at the claim that holds it now, so a third session is bound
    to a slot whose second session is still active: both sessions are active and
    both claims are active, on one slot. *)
Theorem memory_release_double_books :
  ∃ m s2 s3 c2 c3, star (mem_step 30) mem_init m ∧
    m_sessions m !! "s2" = Some s2 ∧ m_sessions m !! "s3" = Some s3 ∧
    ss_state s2 = SActive ∧ ss_state s3 = SActive ∧
    (ss_executor s2, ss_slot s2) = (ss_executor s3, ss_slot s3) ∧
    m_claims m !! ss_claim s2 = Some c2 ∧ m_claims m !! ss_claim s3 = Some c3 ∧
    cl_state c2 = CActive ∧ cl_state c3 = CActive ∧ ss_claim s2 ≠ ss_claim s3.
Proof.
  exists mem_double. do 4 eexists. split.
  - exact mem_double_run.
  - do 9 (split; [vm_compute; reflexivity|]). intros H. vm_compute in H. discriminate H.
Qed.
