(* ===== verification/ExecDemo.v ===== *)
(** * Runs of the control store

    Concrete runs that instantiate the theorems on the control store, and the
    run that shows a renewal crossing a rebind. *)

From S2P Require Import Prelude Json ExecStore ExecSystem ExecReclaim ExecAccounting ExecService.
Local Open Scope Z_scope.

Definition get_ok {A} (r : result cp_error A) (default : A) : A := match r with Ok a => a | Err _ => default end.

Definition the_session (assignment claim : string) : Session :=
  mkSession assignment "acme" "sess" "host" "slot" claim 1 "cat" "code" "art" "rt" JNull BINDING None 0 None None.
Definition the_lease (lease claim : string) (sequence from : Z) : Lease :=
  mkLease lease "sess" "host" "slot" claim 1 1 3 1 sequence from (from + 60) LActive.

Definition d_ready : db :=
  get_ok (set_readiness 0 "host" "slot" true "code" "rt" (register_host 0 "host" "https://h" ["slot"] db_init)) db_init.
Definition claimed (cid : string) (version now : Z) (d : db) : db :=
  match claim_slot 30 now cid "host" "slot" version now 60 d with Ok (_, d') => d' | Err _ => d end.
Definition created (assignment cid : string) (now : Z) (d : db) : db := get_ok (create_session now (the_session assignment cid) d) d.
Definition activated (lease cid : string) (now : Z) (d : db) : db := get_ok (activate "sess" (the_lease lease cid 1 now) d) d.

Definition bound (assignment lease cid : string) (version now : Z) (d : db) : db :=
  activated lease cid now (created assignment cid now (claimed cid version now d)).

Definition d_bound : db := bound "a1" "l1" "c1" 2 1 d_ready.
Definition d_released : db := match release 5 "sess" "done" d_bound with Ok (_, d) => d | Err _ => d_bound end.
Definition d_free : db := complete_reclaim 6 "sess" d_released.
Definition d_rebound : db := bound "a2" "l2" "c2" 5 7 d_free.

Lemma ready_reachable : cp_reachable 30 (Sys d_ready ∅).
Proof.
  eapply star_step; [apply (cp_register _ sys_init 0 "host" "https://h" ["slot"])|].
  eapply star_step; [eapply (cp_readiness _ _ 0 "host" "slot" true "code" "rt"); vm_compute; reflexivity|]. apply star_refl.
Qed.

(** Claim, create and activate are three steps of one worker. *)
Lemma bind_run assignment lease cid version now c d d1 d2 d3 :
  claim_slot 30 now cid "host" "slot" version now 60 d = Ok (c, d1) → cl_id c = cid →
  create_session now (the_session assignment cid) d1 = Ok d2 →
  activate "sess" (the_lease lease cid 1 now) d2 = Ok d3 →
  star (cp_step 30) (Sys d ∅) (Sys d3 ∅).
Proof.
  intros H1 Hid H2 H3.
  eapply star_step; [by eapply (cp_claim_slot _ (Sys d ∅))|]. rewrite Hid.
  eapply star_step; [eapply (cp_create _ (Sys d1 _) now (the_session assignment cid)); [simpl; set_solver|exact H2]|]. simpl.
  replace (({[cid]} ∪ ∅) ∖ {[cid]} : gset string) with (∅ : gset string) by set_solver.
  eapply star_step; [by eapply (cp_activate _ (Sys d2 ∅))|]. apply star_refl.
Qed.

Lemma bound_reachable : cp_reachable 30 (Sys d_bound ∅).
Proof.
  eapply star_trans; [apply ready_reachable|].
  eapply (bind_run "a1" "l1" "c1" 2 1); vm_compute; reflexivity.
Qed.

Lemma rebound_run : star (cp_step 30) (Sys d_bound ∅) (Sys d_rebound ∅).
Proof.
  eapply star_step; [eapply (cp_finish _ _ 5 "sess" "done" None); vm_compute; reflexivity|].
  eapply star_step; [eapply (cp_complete _ _ 6 "sess")|].
  eapply (bind_run "a2" "l2" "c2" 5 7); vm_compute; reflexivity.
Qed.

Definition bound_row : sessrow := default (SessRow (the_session "" "") None None 0) (d_sessions d_bound !! "sess").
Definition released_row : sessrow := default bound_row (d_sessions d_released !! "sess").

Lemma serial_slot_exclusive_witness :
  seat_of bound_row = ("host", "slot") ∧ claim_of bound_row = "c1" ∧
  ∀ k c, d_claims d_bound !! k = Some c → is_active c → of_slot ("host", "slot") c → k = "c1".
Proof.
  split; [vm_compute; reflexivity|]. split; [vm_compute; reflexivity|].
  apply (serial_slot_exclusive 30 (Sys d_bound ∅) "sess" "sess" bound_row bound_row bound_reachable);
    vm_compute; reflexivity.
Defined.

(** ** A creation in the middle of a re-registration *)

Definition session_of (id claim : string) : Session :=
  mkSession ("a-" +:+ id) "acme" id "host" "slot" claim 1 "cat" "code" "art" "rt" JNull BINDING None 0 None None.

Definition no_tables : tables := Tables false false false false false false.
Definition all_tables : tables := Tables true true true true true true.
Definition host_and_sessions : tables := Tables true false false true false false.
Definition claims_and_slots : tables := Tables false true true false false false.
Definition reregister (d : db) : db := register_host 5 "host" "https://h" ["slot"] d.

(** a worker holds claim [c1]; the host registers again: its first two statements
    run, the worker creates its session, the other statements run; the slot is
    ready again and the next worker claims it *)
Definition d_in_hand : db := claimed "c1" 2 1 d_ready.
Definition d_half : db := part host_and_sessions d_in_hand (reregister d_in_hand).
Definition d_slipped : db := get_ok (create_session 5 (session_of "sess" "c1") d_half) d_half.
Definition d_reregistered : db := part claims_and_slots d_slipped (reregister d_slipped).
Definition d_ready_again : db := get_ok (set_readiness 6 "host" "slot" true "code" "rt" d_reregistered) d_reregistered.
Definition d_reclaimed : db := claimed "c2" 5 7 d_ready_again.
Definition d_two : db := get_ok (create_session 7 (session_of "sess2" "c2") d_reclaimed) d_reclaimed.

Lemma part_all d d' : part all_tables d d' = d'.
Proof. by destruct d'. Qed.

Lemma rc_whole d d' hand past : pg_tx d d' → rc_step (Rc d hand past) (Rc d' hand (d :: past)).
Proof. intros H. rewrite <- (part_all d d') at 1. by apply (rc_part (Rc d hand past)). Qed.

Lemma two_reachable : ∃ hand past, rc_reachable (Rc d_two hand past).
Proof.
  eexists _, _. eapply star_step; [eapply (rc_whole db_init _ ∅ []), (tx_register _ 0 "host" "https://h" ["slot"])|].
  eapply star_step; [eapply rc_whole, (tx_readiness _ 0 "host" "slot" true "code" "rt" d_ready); vm_compute; reflexivity|].
  eapply star_step; [eapply (rc_claim (Rc d_ready _ _) 61 "c1" ("host", "slot") _ _ d_in_hand); vm_compute; reflexivity|].
  eapply star_step; [apply (rc_part (Rc d_in_hand _ _) host_and_sessions (reregister d_in_hand)); [apply tx_register|reflexivity]|].
  eapply star_step; [eapply (rc_create (Rc d_half _ _) d_half 5 (session_of "sess" "c1") d_slipped);
    [left|vm_compute; set_solver|vm_compute; reflexivity]|].
  eapply star_step; [apply (rc_part (Rc d_slipped _ _) claims_and_slots (reregister d_slipped)); [apply tx_register|reflexivity]|].
  eapply star_step; [eapply rc_whole, (tx_readiness _ 6 "host" "slot" true "code" "rt" d_ready_again); vm_compute; reflexivity|].
  eapply star_step; [eapply (rc_claim (Rc d_ready_again _ _) 67 "c2" ("host", "slot") _ _ d_reclaimed); vm_compute; reflexivity|].
  eapply star_step; [eapply (rc_create (Rc d_reclaimed _ _) d_reclaimed 7 (session_of "sess2" "c2") d_two);
    [left|vm_compute; set_solver|vm_compute; reflexivity]|].
  simpl. apply star_refl.
Qed.
Definition slipped_row : sessrow := Eval vm_compute in default (SessRow (session_of "" "") None None 0) (d_sessions d_two !! "sess").
Definition second_row : sessrow := Eval vm_compute in default (SessRow (session_of "" "") None None 0) (d_sessions d_two !! "sess2").

(** A re-registration can leave two live sessions on one slot.  [register_host]
    fences the sessions of the host in one statement and releases its claims in the
    next; a [create_session] that commits between the two, on a claim its snapshot
    shows active, is seen by neither.  Its row stays live on a released claim; the
    slot is reported ready, claimed and bound again, and a second session is live on
    it.  The first one can no longer be activated, nor created again. *)
Theorem reregistration_leaves_two_live_sessions :
  create_session 5 (session_of "sess" "c1") d_half = Ok d_slipped ∧
  create_session 7 (session_of "sess2" "c2") d_reclaimed = Ok d_two ∧
  (∃ hand past, rc_reachable (Rc d_two hand past)) ∧
  d_sessions d_two !! "sess" = Some slipped_row ∧ d_sessions d_two !! "sess2" = Some second_row ∧
  is_live slipped_row ∧ is_live second_row ∧ seat_of slipped_row = seat_of second_row ∧
  create_session 8 (session_of "sess" "c2") d_two = Err StaleFence.
Proof. do 2 (split; [vm_compute; reflexivity|]). split; [apply two_reachable|]. repeat split; vm_compute; reflexivity. Qed.


Lemma ended_binding_stays_fenced_witness :
  renew "sess" 1 (the_lease "l9" "c1" 2 6) d_free = Err StaleFence.
Proof.
  apply (ended_binding_stays_fenced 30 (Sys d_released ∅) (Sys d_free ∅) "sess" released_row released_row).
  - eapply star_trans; [apply bound_reachable|].
    apply star_one. eapply (cp_finish _ (Sys d_bound ∅) 5 "sess" "done" None). vm_compute; reflexivity.
  - apply star_one, (cp_complete _ (Sys d_released ∅)).
  - vm_compute; reflexivity.
  - intros H. vm_compute in H. discriminate H.
  - vm_compute; reflexivity.
  - reflexivity.
Defined.

Lemma reclaim_takes_exactly_the_expired_witness :
  let '(l, d) := reclaim_instant_sessions 70 70 None (λ _, true) d_bound in
  session_to (se_session bound_row) INVALID ∈ l ∧ no_active_lease "sess" (d_leases d).
Proof.
  destruct (reclaim_instant_sessions 70 70 None (λ _, true) d_bound) as [l d] eqn:H.
  destruct (reclaim_takes_exactly_the_expired 70 70 None d_bound l d H) as (H1 & _ & _).
  destruct (H1 "sess" bound_row) as (_ & Hin & _ & Hl); [vm_compute; reflexivity..|]. exact (conj Hin Hl).
Defined.

(** The executor of the slot is down: the slot stays out of service. *)
Lemma failed_release_leaks_slot_witness :
  ∃ q, d_slots (sweep (λ _ _ _, true) 99 99 None (λ _, true) d_released).2 !! ("host", "slot") = Some q ∧
       sr_state q = RELEASING.
Proof.
  eapply (failed_release_leaks_slot 30 (Sys d_bound ∅) (λ _ _ _, false) 5 "sess" "done" bound_row _ d_released
            _ bound_reachable).
  - vm_compute; reflexivity.
  - vm_compute; reflexivity.
  - vm_compute; reflexivity.
  - vm_compute; reflexivity.
  - intros o Ho. vm_compute in Ho. by apply elem_of_nil in Ho.
  - vm_compute; reflexivity.
  - apply star_one. exists (λ _ _ _, true), 99, 99, None, (λ _, true). reflexivity.
Defined.

(** A renewal can cross a rebind.  [assign] starts every binding at epoch 1,
    so the epoch does not tell a new binding of a session from the old one: a
    renewal that read the session before it was released and bound again commits
    afterwards, and leaves an active lease on a claim that is already released. *)
Theorem renewal_crosses_rebind :
  ∃ y y' s0 l d, cp_reachable 30 y ∧ star (cp_step 30) y y' ∧
    get_session "sess" (y_db y) = Some s0 ∧
    le_claim l = ss_claim s0 ∧ le_epoch l = ss_epoch s0 ∧ le_sequence l = ss_sequence s0 + 1 ∧
    renew "sess" (ss_epoch s0) l (y_db y') = Ok d ∧
    (∃ row c, d_leases d !! le_id l = Some row ∧ le_state (lr_lease row) = LActive ∧
              d_claims d !! le_claim (lr_lease row) = Some c ∧ ¬ is_active c) ∧
    (∃ s, get_session "sess" d = Some s ∧ ss_state s = SActive ∧ ss_claim s ≠ ss_claim s0).
Proof.
  exists (Sys d_bound ∅), (Sys d_rebound ∅), (se_session bound_row), (the_lease "l3" "c1" 2 8),
    (get_ok (renew "sess" 1 (the_lease "l3" "c1" 2 8) d_rebound) db_init).
  split; [apply bound_reachable|]. split; [apply rebound_run|].
  do 5 (split; [vm_compute; reflexivity|]). split.
  - eexists _, _. split; [vm_compute; reflexivity|]. split; [vm_compute; reflexivity|].
    split; [vm_compute; reflexivity|]. intros H. vm_compute in H. discriminate H.
  - eexists. split; [vm_compute; reflexivity|]. split; [vm_compute; reflexivity|]. intros H. vm_compute in H. discriminate H.
Qed.

(** ** One invocation: accepted, started, finished, and the last event again *)

Definition inv1 : identity := Identity "i1" "acme" "sess" "l1" "code".
Definition used : usage := Usage 10 20 1000 5 5.
Definition ev (e : event) (at_ : Z) : arecord := ARecord inv1 e at_.
Definition run_event (r : arecord) (g : ledger) : ledger :=
  match record_invocation 9 r g with Ok (_, g') => g' | Err _ => g end.

Definition led0 : ledger := Ledger d_bound ∅ ∅.
Definition led1 : ledger := run_event (ev EvAccepted 2) led0.
Definition led2 : ledger := run_event (ev EvStarted 3) led1.
Definition led3 : ledger := run_event (ev (EvTerminal Succeeded used) 4) led2.
Definition charged1 : list (string * usage) := [("i1", used)].

Lemma led3_reachable : acct_reachable (ASys led3 charged1).
Proof.
  eapply star_step; [apply (as_other asys_init d_bound); intros k; vm_compute; reflexivity|].
  eapply star_step; [eapply (as_record _ 9 (ev EvAccepted 2)); vm_compute; reflexivity|].
  eapply star_step; [eapply (as_record _ 9 (ev EvStarted 3)); vm_compute; reflexivity|].
  eapply star_step; [eapply (as_record _ 9 (ev (EvTerminal Succeeded used) 4)); vm_compute; reflexivity|].
  apply star_refl.
Qed.

Lemma invocation_charged_at_most_once_witness :
  filter (λ c, c.1 = "i1") charged1 = charges_of "i1" (g_acct led3 !! "i1") ∧
  is_Some (g_acct led3 !! "i1").
Proof.
  split; [|vm_compute; eexists; reflexivity].
  exact (proj1 (invocation_charged_at_most_once (ASys led3 charged1) "i1" led3_reachable)).
Defined.

(** A second delivery of the terminal event. *)
Lemma settled_invocation_is_final_witness :
  record_invocation 9 (ev (EvTerminal Succeeded used) 4) led3 = Ok (Reply (IDone Succeeded) false, led3).
Proof.
  destruct (settled_invocation_is_final (ASys led3 charged1) (ASys led3 charged1) "i1"
              (AcctRow inv1 Succeeded 4 used false) led3_reachable) as [_ H].
  - vm_compute; reflexivity.
  - apply star_refl.
  - refine (eq_trans (H 9 (ev (EvTerminal Succeeded used) 4) Succeeded used eq_refl eq_refl _) _);
      vm_compute; reflexivity.
Defined.

Definition claimed_slot : slotrow := default (SlotRow STARTING 0 None None None None 0) (d_slots d_in_hand !! ("host", "slot")).

(** A year later, after a reaper pass, the slot is as the dead worker left it. *)
Lemma orphaned_claim_never_expires_witness :
  claim_attempt 30 31536000 "c2" 31536000 60 (Some ("host", "slot"))
    (sweep (λ _ _ _, true) 31536000 31536000 None (λ _, true) d_in_hand).2 = Ok None.
Proof.
  refine (proj2 (proj2 (orphaned_claim_never_expires 30 (Sys d_in_hand {["c1"]}) "c1" ("host", "slot") claimed_slot
    _ _ _ _ _ _ _) 31536000 "c2" 0 31536000 60)).
  - eapply star_trans; [apply ready_reachable|]. apply star_one.
    assert (H : claim_slot 30 1 "c1" "host" "slot" 2 1 60 d_ready =
                Ok (mkClaim "c1" "host" "slot" 3 61 CActive, d_in_hand)) by (vm_compute; reflexivity).
    exact (cp_claim_slot 30 (Sys d_ready ∅) _ _ _ _ _ _ _ _ _ H).
  - change ("c1" ∈ ({["c1"]} : gset string)). by apply elem_of_singleton.
  - vm_compute; reflexivity.
  - vm_compute; reflexivity.
  - vm_compute; reflexivity.
  - apply star_one. exists (λ _ _ _, true), 31536000, 31536000, None, (λ _, true). reflexivity.
Defined.

(** ** An assignment that succeeds and one the executor refuses *)

Definition digest_of (s : string) : string := "00" +:+ s.
Definition demo_request : list (string * json) :=
  [("contract", JStr CONTRACT); ("tenant_id", JStr "acme"); ("session_id", JStr "sess");
   ("effective_catalog_digest", JStr "cat");
   ("artifact", JObj [("source", JStr "x"); ("code_digest", JStr "sha256:00x"); ("artifact_digest", JStr "sha256:00x");
      ("runtime", JStr "python-3.12"); ("entrypoint", JStr "main"); ("limits", JNull); ("tool_id", JStr "t");
      ("tool_version", JStr "1"); ("capability_id", JStr "c"); ("params_schema_digest", JStr "p"); ("catalog_commit", JStr "k")]);
   ("drawing_context", JObj [("reference", JNull); ("data", JNull)])].
Definition demo_assign (answers : answer) : result svc_error Lease * db :=
  _assign 30 60 digest_of None (Some true) (λ _ _ _, answers) (λ _ _ _, false) (λ _, Some ("host", "slot"))
    (Ids "c1" "a1" "l1") 1 1 demo_request 1 d_ready.

Example assign_succeeds : is_ok (demo_assign ReadyAnswer).1 = true.
Proof. vm_compute. reflexivity. Qed.
Example assign_refused :
  (demo_assign OtherAnswer).1 = Err (Uncaught RuntimeErr) ∧
  (cr_state <$> d_claims (demo_assign OtherAnswer).2 !! "c1") = Some CReleased ∧
  (sr_state <$> d_slots (demo_assign OtherAnswer).2 !! ("host", "slot")) = Some RELEASING.
Proof. vm_compute. auto. Qed.

Lemma assign_demo :
  match demo_assign ReadyAnswer with
  | (Ok l, d') => ∃ id, jstring (dict_get demo_request "session_id") = Some id ∧ assigned "c1" id l d'
  | (Err _, d') => no_new_claim d_ready d'
  end.
Proof.
  exact (assign_all_or_nothing 30 60 digest_of None (Some true) (λ _ _ _, ReadyAnswer) (λ _ _ _, false)
    (λ _, Some ("host", "slot")) (Ids "c1" "a1" "l1") 1 1 demo_request 1 d_ready).
Defined.
