(* ===== verification/GuestUploads.v ===== *)
(** * Uploads under the PostgreSQL authority

    [server/guest_uploads.py] with [LEAF_UPLOAD_STORE=postgres], and the guest branch of
    the upload route of [server/routers/uploads.py]: the attempt of a drawing
    ([drawing_upload_attempts]), its extraction lease, the commit that makes version 1
    visible, the reset of a failed attempt, the purge at the end of the retention window
    and its receipts ([drawing_purge_receipts]).  One drawing's rows, since every
    statement selects by tenant and drawing.  At the end, the session tokens of guests and
    the daily caps on their uploads, in memory and over PostgreSQL.

    A handler is a sequence of sections: one transaction, or one access to the files.
    [now] stands for [NOW()] and [clk] for a reading of [clock_timestamp()]; nothing
    relates them.  The cutover fence, the extraction's result, the quota's answer and the
    failures of disk and database are arguments of the handlers, so that the theorems
    hold for all of them.  [ud_log] records the commits and is read by no operation. *)

From S2P Require Import Prelude PyText Json IsoTime TenantIds StoreKeys Concurrent AgentCalls IntakeCache PgStore AuthorQuota.
From Stdlib Require Import Ascii.
Local Open Scope Z_scope.
Import IdFacts.

(** ** Rows and files *)

Inductive upload_status := Extracting | Shown | Failed | Purging | Purged.
#[export] Instance upload_status_eq_dec : EqDecision upload_status.
Proof. solve_decision. Defined.

Record upload_failure := UploadFailure { uf_code : string; uf_message : string; uf_retryable : bool }.
#[export] Instance upload_failure_eq_dec : EqDecision upload_failure.
Proof. solve_decision. Defined.

(** The document of [new_marker], with the keys the later steps add: the proof of the
    intake, and the time and number of the finalization's retries. *)
Record upload_marker := UploadMarker {
  um_attempt : string;
  um_status : upload_status;
  um_ext : string;
  um_engine : option string;
  um_filename : string;
  um_bytes : Z;
  um_sha : string;
  um_uploaded : instant;
  um_retention : option instant;
  um_kind : string;
  um_error : option upload_failure;
  um_version : option Z;
  um_intake : option (string * string) (* intake_ref, intake_sha256 *);
  um_retry : option (instant * Z) (* started at, count *) }.
#[export] Instance upload_marker_eq_dec : EqDecision upload_marker.
Proof. solve_decision. Defined.

Record attempt_row := AttemptRow {
  ar_attempt : string;
  ar_marker : upload_marker;
  ar_status : upload_status;
  ar_retention : option instant;
  ar_owner : option string;
  ar_fence : Z;
  ar_expires : option instant;
  ar_purger : option string;
  ar_purge_fence : Z;
  ar_purge_expires : option instant }.

Record purge_receipt := PurgeReceipt { pr_deleted : bool; pr_freed : Z }.

(** What a transaction did: an attempt began; an extraction was leased, or the lease given
    back; an attempt ended, under a lease or unclaimed; a purge or a reset was leased, and
    ended. *)
Inductive upload_event :=
| EvBegun (attempt : string) (retention : option instant)
| EvClaimed (attempt owner : string) (fence : Z) (expires now : instant)
| EvReleased (attempt : string) (fence : Z)
| EvEnded (attempt : string) (st : upload_status) (lease : option (string * Z)) (clk : instant)
| EvPurging (attempt : string) (fence : Z) (retention now clk : instant)
| EvResetting (attempt : string) (fence : Z)
| EvReset (attempt : string) (fence : Z)
| EvReceipt (attempt : string) (fence : Z) (deleted : bool).

Record updb := Updb {
  ud_row : option attempt_row;
  ud_pg : pg;
  ud_intake : gmap Z (string * string) (* intake_ref, intake_sha256 of the version rows *);
  ud_receipts : gmap (string * Z) purge_receipt;
  ud_staged : gmap string string (* the staged file of each extension *);
  ud_files : gmap string string (* the drawing's directory, by object key *);
  ud_log : list upload_event (* newest first *) }.

Definition set_upload_row (r : attempt_row) (e : list upload_event) (s : updb) : updb :=
  Updb (Some r) (ud_pg s) (ud_intake s) (ud_receipts s) (ud_staged s) (ud_files s) (e ++ ud_log s).
Definition set_upload_pg (p : pg) (s : updb) : updb :=
  Updb (ud_row s) p (ud_intake s) (ud_receipts s) (ud_staged s) (ud_files s) (ud_log s).
Definition set_intake (i : gmap Z (string * string)) (s : updb) : updb :=
  Updb (ud_row s) (ud_pg s) i (ud_receipts s) (ud_staged s) (ud_files s) (ud_log s).
Definition set_receipts (m : gmap (string * Z) purge_receipt) (s : updb) : updb :=
  Updb (ud_row s) (ud_pg s) (ud_intake s) m (ud_staged s) (ud_files s) (ud_log s).
Definition set_disk (staged files : gmap string string) (s : updb) : updb :=
  Updb (ud_row s) (ud_pg s) (ud_intake s) (ud_receipts s) staged files (ud_log s).

(** DELETE FROM drawing_store_manifests: the version rows go with it. *)
Definition delete_manifest (s : updb) : updb := set_intake ∅ (set_upload_pg pg_empty s).

(** The exceptions of the commit path, by the handler that catches them: [ValueError];
    [OSError], [RuntimeError] and database errors; any other. *)
Inductive upload_error := UpValue | UpTransient | UpOther.
#[export] Instance upload_error_eq_dec : EqDecision upload_error.
Proof. solve_decision. Defined.

Abbreviation upload_io := (io updb upload_error).

(** [t > clk] and [t IS NULL OR t <= clk] of a nullable column *)
Definition after (t : option instant) (clk : instant) : bool := match t with Some t => clk <? t | None => false end.
Definition free_at (t : option instant) (clk : instant) : bool := match t with Some t => t <=? clk | None => true end.

Definition with_status (st : upload_status) (r : attempt_row) : attempt_row :=
  AttemptRow (ar_attempt r) (ar_marker r) st (ar_retention r) (ar_owner r) (ar_fence r) (ar_expires r)
    (ar_purger r) (ar_purge_fence r) (ar_purge_expires r).
(** extraction_owner = NULL, extraction_expires_at = NULL *)
Definition ended_row (m : upload_marker) (st : upload_status) (r : attempt_row) : attempt_row :=
  AttemptRow (ar_attempt r) m st (ar_retention r) None (ar_fence r) None (ar_purger r) (ar_purge_fence r) (ar_purge_expires r).
Definition purging_row (owner : string) (clk : instant) (r : attempt_row) : attempt_row :=
  AttemptRow (ar_attempt r) (ar_marker r) Purging (ar_retention r) (ar_owner r) (ar_fence r) (ar_expires r)
    (Some owner) (ar_purge_fence r + 1) (Some (clk + 5 * minute)).
(** purge_owner = NULL, purge_expires_at = NULL *)
Definition purge_ended (st : upload_status) (r : attempt_row) : attempt_row :=
  AttemptRow (ar_attempt r) (ar_marker r) st (ar_retention r) (ar_owner r) (ar_fence r) (ar_expires r)
    None (ar_purge_fence r) None.

(** attempt = a AND status = 'extracting' AND extraction_owner = o AND extraction_fence = f *)
Definition holds_extraction (a o : string) (f : Z) (r : attempt_row) : bool :=
  bool_decide (ar_attempt r = a) && bool_decide (ar_status r = Extracting) &&
  bool_decide (ar_owner r = Some o) && (ar_fence r =? f).

(** ... AND extraction_expires_at > clock_timestamp() *)
Definition leases_extraction (a o : string) (f : Z) (clk : instant) (r : attempt_row) : bool :=
  holds_extraction a o f r && after (ar_expires r) clk.

(** status = 'purging' AND purge_owner = o AND purge_fence = f *)
Definition holds_purge (o : string) (f : Z) (r : attempt_row) : bool :=
  bool_decide (ar_status r = Purging) && bool_decide (ar_purger r = Some o) && (ar_purge_fence r =? f).

(** [t <= now], which a null column fails *)
Definition due (t : option instant) (now : instant) : bool := match t with Some t => t <=? now | None => false end.

(** The drawing all of it is about *)
Class Drawing := { tid : string; did : string }.

Section uploads.
Context `{!Runtime, !Drawing}.

(** ** Reading and reserving *)

Definition read_marker (s : updb) : option upload_marker :=
  r ← ud_row s; if bool_decide (ar_status r = Purged) then None else Some (ar_marker r).

Definition new_marker (attempt : string) (now : instant) (retention_us : Z) (filename kind ext : string)
    (engine : option string) (data : string) : upload_marker :=
  UploadMarker attempt Extracting ext engine filename (Z.of_nat (length (chars data))) (sha256_hex data) now
    (if bool_decide (kind = "guest"%string) then Some (now + retention_us) else None) kind None None None None.

(** The compatibility marker of [write_marker] *)
Definition sentinel : string := dumps (JObj [("authority"%string, JStr "postgres")]).

(** The transaction of [write_marker] *)
Definition write_marker (m : upload_marker) : upload_io unit := λ s,
  match ud_row s with
  | None =>
      (Ok tt, set_upload_row (AttemptRow (um_attempt m) m (um_status m) (um_retention m) None 0 None None 0 None)
                [EvBegun (um_attempt m) (um_retention m)] s)
  | Some r =>
      if bool_decide (ar_attempt r = um_attempt m) || bool_decide (ar_status r = Failed) || bool_decide (ar_status r = Purged) then
        (Ok tt, set_upload_row (AttemptRow (um_attempt m) m (um_status m) (um_retention m) None (ar_fence r) None
                    (ar_purger r) (ar_purge_fence r) (ar_purge_expires r)) [EvBegun (um_attempt m) (um_retention m)] s)
      else (Err UpTransient, s)
  end.

(** ** The extraction lease *)

Definition _claim_extraction (owner : string) (ttl_us : Z) (now : instant) (s : updb) : option (upload_marker * string * Z) * updb :=
  match ud_row s with
  | Some r =>
      if bool_decide (ar_status r = Extracting) && free_at (ar_expires r) now then
        (Some (ar_marker r, owner, ar_fence r + 1),
         set_upload_row (AttemptRow (ar_attempt r) (ar_marker r) (ar_status r) (ar_retention r) (Some owner) (ar_fence r + 1)
             (Some (now + ttl_us)) (ar_purger r) (ar_purge_fence r) (ar_purge_expires r))
           [EvClaimed (ar_attempt r) owner (ar_fence r + 1) (now + ttl_us) now] s)
      else (None, s)
  | None => (None, s)
  end.

Definition retried (clk : instant) (m : upload_marker) : upload_marker :=
  UploadMarker (um_attempt m) (um_status m) (um_ext m) (um_engine m) (um_filename m) (um_bytes m) (um_sha m) (um_uploaded m)
    (um_retention m) (um_kind m) (um_error m) (um_version m) (um_intake m)
    (Some (clk, default 0 (snd <$> um_retry m) + 1)).

Definition _release_pg_extraction_lease (attempt owner : string) (fence : Z) (clk : instant) (s : updb) : bool * updb :=
  match ud_row s with
  | Some r =>
      if holds_extraction attempt owner fence r then (true, set_upload_row (ended_row (retried clk (ar_marker r)) (ar_status r) r) [EvReleased attempt fence] s)
      else (false, s)
  | None => (false, s)
  end.

Definition _finish_pg_attempt (m : upload_marker) (owner : string) (fence : Z) (clk : instant) (s : updb) : bool * updb :=
  match ud_row s with
  | Some r =>
      if leases_extraction (um_attempt m) owner fence clk r then
        (true, set_upload_row (ended_row m (um_status m) r) [EvEnded (um_attempt m) (um_status m) (Some (owner, fence)) clk] s)
      else (false, s)
  | None => (false, s)
  end.

Definition failed_marker (e : upload_failure) (m : upload_marker) : upload_marker :=
  UploadMarker (um_attempt m) Failed (um_ext m) (um_engine m) (um_filename m) (um_bytes m) (um_sha m) (um_uploaded m)
    (um_retention m) (um_kind m) (Some e) (um_version m) (um_intake m) (um_retry m).

(** [_mark_failed]; [lease] is empty for the status view, which holds none. *)
Definition _mark_failed (refused : bool) (m : upload_marker) (e : upload_failure) (lease : option (string * Z))
    (now clk : instant) (s : updb) : bool * updb :=
  if refused then (false, s) else
  match lease, ud_row s with
  | Some (owner, fence), _ => _finish_pg_attempt (failed_marker e m) owner fence clk s
  | None, Some r =>
      if bool_decide (ar_attempt r = um_attempt m) && bool_decide (ar_status r = Extracting) && free_at (ar_expires r) now then
        (true, set_upload_row (ended_row (failed_marker e m) Failed r) [EvEnded (um_attempt m) Failed None now] s)
      else (false, s)
  | None, None => (false, s)
  end.

(** ** Publishing version 1 *)

Definition version_object : string := okey tid did (OVersion 1).
Definition intake_object : string := ckey tid did 1.
Definition marker_object : string := mkey tid did.

(** [_pg_ingest_guarded] with [defer_ready], up to the commit *)
Definition _pg_ingest_guarded (data attempt owner : string) (fence : Z) (clk1 clk2 : instant) : upload_io unit := λ s,
  match ud_row s with
  | Some r =>
      if negb (leases_extraction attempt owner fence clk1 r) then (Err UpTransient, s) else
      let size := Z.of_nat (length (chars data)) in
      let p := ud_pg s in
      let held (p' : pg) := if leases_extraction attempt owner fence clk2 r then (Ok tt, set_upload_pg p' s) else (Err UpTransient, s) in
      match pg_row p with
      | None =>
          match insert_version (with_row p (MRow None 1 None 0)) 1
                  (VRow None version_object size (sha256_hex data) None None (Some "initial ingest"%string) None Reserved clk1
                     (Some (attempt, clk1 + 15 * minute))) with
          | Ok p' => held p'
          | Err _ => (Err UpTransient, s)
          end
      | Some m =>
          match mr_head m, pg_versions p !! 1 with
          | Some _, Some v =>
              if is_ready v && (vr_bytes v =? size) && bool_decide (vr_sha v = sha256_hex data) && bool_decide (vr_key v = version_object)
              then (Ok tt, s) else (Err UpValue, s)
          | None, Some v =>
              if bool_decide (vr_state v = Reserved) && (vr_bytes v =? size) && bool_decide (vr_sha v = sha256_hex data) &&
                 bool_decide (vr_key v = version_object)
              then held (Pg (Some m) (<[1 := VRow (vr_parent v) (vr_key v) (vr_bytes v) (vr_sha v) (vr_workitem v) (vr_tool v)
                   (vr_note v) (vr_source_ref v) (vr_state v) (vr_created v) (Some (attempt, clk1 + 15 * minute))]> (pg_versions p)))
              else (Err UpValue, s)
          | _, None => (Err UpValue, s)
          end
      end
  | None => (Err UpTransient, s)
  end.

(** [put_if_absent_or_verify] of the drawing's backend *)
Definition put_if_absent (k data : string) : upload_io unit := λ s,
  match ud_files s !! k with
  | Some x => (if bool_decide (x = data) then Ok tt else Err UpValue, s)
  | None => (Ok tt, set_disk (ud_staged s) (<[k := data]> (ud_files s)) s)
  end.
(** [backend.get(key)] and its test against [data] or its digest; a missing key raises *)
Definition check_file (same : string → bool) (k : string) : upload_io unit := λ s,
  match ud_files s !! k with
  | Some x => (if same x then Ok tt else Err UpValue, s)
  | None => (Err UpOther, s)
  end.
Definition put_file (k data : string) (s : updb) : updb := set_disk (ud_staged s) (<[k := data]> (ud_files s)) s.

Definition source_object (digest : string) : string := of_chars (key_text tid did ("sources/" +:+ digest +:+ ".dxf")).

Definition _preserve_original_dxf (m : upload_marker) (raw : string) : upload_io unit :=
  if negb (um_bytes m =? Z.of_nat (length (chars raw))) || negb (bool_decide (sha256_hex raw = um_sha m)) then raise UpValue else
  put_if_absent (source_object (um_sha m)) raw;;
  check_file (λ x, bool_decide (x = raw)) (source_object (um_sha m)).

(** The transaction of [_finalize_pg_ready_attempt]; what [_preserve_original_dxf] wrote to
    the disk is not undone with it. *)
Definition finalize_commit (m : upload_marker) (owner : string) (fence : Z) (k digest : string) (original : option string)
    (clk1 clk2 : instant) : upload_io unit := λ s,
  match ud_row s with
  | Some r =>
      if negb (leases_extraction (um_attempt m) owner fence clk1 r) then (Err UpTransient, s) else
      match (match original with Some raw => _preserve_original_dxf m raw s | None => (Ok tt, s) end) with
      | (Err e, s1) => (Err e, s1)
      | (Ok _, s1) =>
          match pg_versions (ud_pg s1) !! 1, pg_row (ud_pg s1) with
          | Some v, Some mf =>
              if bool_decide (vr_state v = Reserved) && bool_decide (fst <$> vr_reservation v = Some (um_attempt m)) &&
                 bool_decide (mr_head mf = None) && leases_extraction (um_attempt m) owner fence clk2 r
              then (Ok tt, set_upload_row (ended_row m (um_status m) r) [EvEnded (um_attempt m) (um_status m) (Some (owner, fence)) clk2]
                     (set_intake (<[1 := (k, digest)]> (ud_intake s1))
                        (set_upload_pg (Pg (Some (MRow (Some 1) 1 (mr_checkout mf) (mr_fence mf)))
                           (<[1 := set_state v Ready (vr_note v)]> (pg_versions (ud_pg s1)))) s1)))
              else (Err UpTransient, s1)
          | _, _ => (Err UpTransient, s1)
          end
      end
  | None => (Err UpTransient, s)
  end.

(** ** Resetting a failed attempt and purging an expired one *)

(** [claim] of [_wipe_failed_attempt_residue] *)
Definition wipe_claim (attempt owner : string) (clk : instant) (s : updb) : option Z * updb :=
  match ud_row s with
  | Some r =>
      if bool_decide (ar_attempt r = attempt) &&
         (bool_decide (ar_status r = Failed) || bool_decide (ar_status r = Purging) && due (ar_purge_expires r) clk) then
        (Some (ar_purge_fence r + 1), set_upload_row (purging_row owner clk r) [EvResetting attempt (ar_purge_fence r + 1)] s)
      else (None, s)
  | None => (None, s)
  end.

(** [finish] of [_wipe_failed_attempt_residue] *)
Definition wipe_finish (attempt owner : string) (fence : Z) (ok : bool) (s : updb) : bool * updb :=
  match ud_row s with
  | Some r =>
      if bool_decide (ar_attempt r = attempt) && holds_purge owner fence r then
        (ok, set_upload_row (purge_ended Failed r) [EvReset attempt fence] (if ok then delete_manifest s else s))
      else (false, s)
  | None => (false, s)
  end.

(** The rows the sweep of [_purge_expired_postgres] selects *)
Definition purge_candidate (now clk : instant) (s : updb) : bool :=
  match ud_row s with
  | Some r =>
      negb (bool_decide (ar_status r = Purged)) &&
      (negb (bool_decide (ar_status r = Purging)) || due (ar_purge_expires r) clk) && due (ar_retention r) now
  | None => false
  end.

(** [claim] of [_purge_expired_postgres]; [clk1] is read by the checks, [clk2] by the update. *)
Definition purge_claim (owner : string) (now clk1 clk2 : instant) (s : updb) : option (string * Z) * updb :=
  match ud_row s with
  | Some r =>
      if bool_decide (ar_status r = Purged) || negb (due (ar_retention r) now) ||
         bool_decide (ar_status r = Purging) && negb (free_at (ar_purge_expires r) clk1) ||
         bool_decide (ar_status r = Extracting) && negb (free_at (ar_expires r) clk1)
      then (None, s)
      else (Some (ar_attempt r, ar_purge_fence r + 1),
            set_upload_row (purging_row owner clk2 r)
              [EvPurging (ar_attempt r) (ar_purge_fence r + 1) (default now (ar_retention r)) now clk1] s)
  | None => (None, s)
  end.

(** INSERT INTO drawing_purge_receipts ... ON CONFLICT DO NOTHING *)
Definition add_receipt (k : string * Z) (x : purge_receipt) (s : updb) : updb :=
  match ud_receipts s !! k with Some _ => s | None => set_receipts (<[k := x]> (ud_receipts s)) s end.

(** [finish] of [_purge_expired_postgres] *)
Definition purge_finish (owner attempt : string) (fence : Z) (deleted : bool) (freed : Z) (s : updb) : bool * updb :=
  match ud_row s with
  | Some r =>
      if holds_purge owner fence r then
        let s1 := add_receipt (attempt, fence) (PurgeReceipt deleted freed) s in
        (true, if deleted then set_upload_row (purge_ended Purged r) [EvReceipt attempt fence true] (delete_manifest s1)
               else set_upload_row (purge_ended (um_status (ar_marker r)) r) [EvReceipt attempt fence false] s1)
      else (false, s)
  | None => (false, s)
  end.

(** ** The handlers *)

(** A step that goes well, fails before its effect, or fails after it. *)
Inductive mishap := Fine | Before (e : upload_error) | Afterwards (e : upload_error).

Definition may_fail {A} (x : mishap) (op : upload_io A) : upload_io A := λ s,
  match x with Fine => op s | Before e => (Err e, s) | Afterwards e => (Err e, final op s) end.

(** What a run of [_run_extraction] meets: the token it draws, what the extraction of the
    staged bytes gives (an intake, as the text it is stored in), the refusals of the
    cutover fence, its clock readings and its failures. *)
Record extraction_run := ExtractionRun {
  xr_owner : string;
  xr_ext : string;
  xr_ttl : Z;
  xr_now : instant;
  xr_clk : nat → instant;
  xr_extract : upload_marker → string → result upload_failure string;
  xr_blob : string → string (* the version's bytes for a DXF: the intake as [json.dump] writes it *);
  xr_message : string (* of the exception that ended it *);
  xr_refused : nat → bool;
  xr_mishap : nat → mishap }.

Inductive upload_reply :=
| NotClaimed | Stopped | Marked (written : bool) | Resumable (released : bool) | Published
| Receipt (m : upload_marker) | NotReset | OverCap | Elsewhere | TryAgain | Raised | Accepted
| Status (m : option upload_marker) | Swept (receipted : option bool).

Definition upload_handler : Type := prog updb upload_reply.

Definition read_staged (ext : string) (s : updb) : option string := ud_staged s !! ext.

(** [_verify_staged_source] of the bytes read *)
Definition verified (m : upload_marker) (data : option string) : result upload_error string :=
  match data with
  | None => Err UpTransient
  | Some data => if (um_bytes m =? Z.of_nat (length (chars data))) && bool_decide (um_sha m = sha256_hex data) then Ok data else Err UpValue
  end.

Definition fail_with (x : extraction_run) (m : upload_marker) (lease : option (string * Z)) (e : upload_failure) : upload_handler :=
  Act (λ _, _mark_failed (xr_refused x 2) m e lease (xr_now x) (xr_clk x 5)) (λ b, Ret (Marked b)).

(** The [except] clauses around the commit *)
Definition commit_failed (x : extraction_run) (m : upload_marker) (owner : string) (fence : Z) (e : upload_error) : upload_handler :=
  match e with
  | UpTransient =>
      Act (λ _ s, (match xr_mishap x 5 with Fine => read_marker s | _ => None end, s)) (λ cur,
        if bool_decide (um_status <$> cur = Some Shown) then Ret Stopped else
        Act (λ _, _release_pg_extraction_lease (um_attempt m) owner fence (xr_clk x 6)) (λ b, Ret (Resumable b)))
  | _ => fail_with x m (Some (owner, fence)) (UploadFailure "INTERNAL" (xr_message x) false)
  end.

Definition ready_marker (m : upload_marker) (k digest : string) : upload_marker :=
  UploadMarker (um_attempt m) Shown (um_ext m) (um_engine m) (um_filename m) (um_bytes m) (um_sha m) (um_uploaded m)
    (um_retention m) (um_kind m) (um_error m) (Some 1) (Some (k, digest)) (um_retry m).

(** [_finalize_pg_ready_attempt] *)
Definition _finalize_pg_ready_attempt (x : extraction_run) (m : upload_marker) (owner : string) (fence : Z) (k data : string)
    (original : option string) (failed : upload_error → upload_handler) : upload_handler :=
  let digest := sha256_hex data in
  if negb (bool_decide (um_status m = Shown) && bool_decide (um_intake m = Some (k, digest))) then failed UpValue else
  Act (λ _, may_fail (xr_mishap x 2) (put_if_absent k data)) (λ r,
  match r with Err e => failed e | Ok _ =>
  Act (λ _, may_fail (xr_mishap x 3) (check_file (λ y, bool_decide (sha256_hex y = digest)) k)) (λ r,
  match r with Err e => failed e | Ok _ =>
  Act (λ _, may_fail (xr_mishap x 4) (finalize_commit m owner fence k digest original (xr_clk x 2) (xr_clk x 3))) (λ r,
  match r with Err e => failed e | Ok _ =>
  Act (λ _ s, (tt, put_file marker_object sentinel s)) (λ _, Ret Published)
  end) end) end).

(** The commit part of [_run_extraction]: from [ingest_drawing] on, with the version's bytes *)
Definition ingest_and_finalize (x : extraction_run) (m : upload_marker) (owner : string) (fence : Z) (intake data : string) : upload_handler :=
  let failed := commit_failed x m owner fence in
  let finish (original : option string) :=
    _finalize_pg_ready_attempt x (ready_marker m intake_object (sha256_hex intake)) owner fence intake_object intake original failed in
  Act (λ _, may_fail (xr_mishap x 0) (_pg_ingest_guarded data (um_attempt m) owner fence (xr_clk x 0) (xr_clk x 1))) (λ r,
  match r with Err e => failed e | Ok _ =>
  Act (λ _, may_fail (xr_mishap x 1) (put_if_absent version_object data;;
              check_file (λ y, bool_decide (length (chars y) = length (chars data)) && bool_decide (sha256_hex y = sha256_hex data)) version_object)) (λ r,
  match r with Err e => failed e | Ok _ =>
    if bool_decide (xr_ext x = ".dxf"%string) && bool_decide (um_kind m = "account"%string) then
      Act (λ _ s, (verified m (read_staged (xr_ext x) s), s)) (λ r,
      match r with Err e => failed e | Ok _ =>
      Act (λ _ s, (read_staged (xr_ext x) s, s)) (λ raw, match raw with None => failed UpTransient | Some raw => finish (Some raw) end)
      end)
    else finish None
  end) end).

Definition extraction_commit (x : extraction_run) (m : upload_marker) (owner : string) (fence : Z) (intake : string) : upload_handler :=
  if bool_decide (xr_ext x = ".dwg"%string) then
    Act (λ _ s, (read_staged (xr_ext x) s, s)) (λ data,
    match data with None => commit_failed x m owner fence UpTransient | Some data => ingest_and_finalize x m owner fence intake data end)
  else ingest_and_finalize x m owner fence intake (xr_blob x intake).

(** [_run_extraction] *)
Definition _run_extraction (x : extraction_run) : upload_handler :=
  if xr_refused x 0 then Ret Stopped else
  Act (λ _, _claim_extraction (xr_owner x) (xr_ttl x) (xr_now x)) (λ c,
  match c with None => Ret NotClaimed | Some (m, owner, fence) =>
  Act (λ _ s, (verified m (read_staged (xr_ext x) s), s)) (λ r,
  match r with
  | Err _ => fail_with x m (Some (owner, fence)) (UploadFailure "INTERNAL" (xr_message x) false)
  | Ok data =>
      match xr_extract x m data with
      | Err e => fail_with x m (Some (owner, fence)) e
      | Ok intake =>
          if xr_refused x 1 then Ret Stopped else
          Act (λ _ s, (read_marker s, s)) (λ cur,
          match cur with
          | None => Ret Stopped
          | Some cur =>
              if bool_decide (um_attempt cur = um_attempt m) && bool_decide (um_status cur = Extracting)
              then extraction_commit x m owner fence intake else Ret Stopped
          end)
      end
  end) end).

(** [status_view]: [stale] is its judgement of the marker's times; a marker that is not
    stale starts another extraction, which arrives on its own. *)
Definition status_view (stale : upload_marker → bool) (refused : bool) (now clk : instant) : upload_handler :=
  Act (λ _ s, (read_marker s, s)) (λ m,
  match m with
  | None => Ret (Status None)
  | Some m =>
      if bool_decide (um_status m = Extracting) && stale m then
        let e := UploadFailure "TIMEOUT" "extraction did not finish within the time budget" true in
        Act (λ _, _mark_failed refused m e None now clk) (λ b,
        if b : bool then Ret (Status (Some (failed_marker e m))) else Act (λ _ s, (read_marker s, s)) (λ cur, Ret (Status cur)))
      else Ret (Status (Some m))
  end).

(** What a removal of files leaves: [survives] says which it could not delete. *)
Definition remove_files (survives : string → bool) (spared : string) (s : updb) : updb :=
  set_disk (ud_staged s) (filter (λ kv : string * string, kv.1 = spared ∨ survives kv.1 = true) (ud_files s)) s.

Record wipe_run := WipeRun {
  wp_owner : string; wp_clk : instant; wp_refused : bool;
  wp_survives : string → bool; wp_oserror : bool }.

(** [wipe_failed_attempt_residue]; the deletion and its verification are two sections *)
Definition wipe_failed_attempt_residue (x : wipe_run) (attempt : string) (k : bool → upload_handler) : upload_handler :=
  if wp_refused x || bool_decide (attempt = ""%string) then k false else
  Act (λ _, wipe_claim attempt (wp_owner x) (wp_clk x)) (λ c,
  match c with None => k false | Some fence =>
  Act (λ _ s, (tt, remove_files (wp_survives x) marker_object s)) (λ _,
  Act (λ _ s, (negb (wp_oserror x) && bool_decide (dom (ud_files s) ⊆ {[marker_object]}), s)) (λ ok,
  Act (λ _, wipe_finish attempt (wp_owner x) fence ok) k))
  end).

(** The guest branch of the upload route: [over_cap] is the quota's answer, [data] the
    bytes, which the drawing's id is derived from. *)
Record upload_run := UploadRun {
  ur_now : instant; ur_retention : Z; ur_filename : string; ur_ext : string; ur_engine : option string; ur_data : string;
  ur_over_cap : bool; ur_wipe : wipe_run }.

Definition stage (ext data : string) (s : updb) : updb := set_disk (<[ext := data]> (ud_staged s)) (ud_files s) s.

(** [write_marker] with its sentinel, and the staged bytes *)
Definition reserve_upload (attempt_of : nat → string) (kind : string) (u : upload_run) (lost : upload_handler) : upload_handler :=
  Act (λ i, write_marker (new_marker (attempt_of i) (ur_now u) (ur_retention u) (ur_filename u) kind (ur_ext u) (ur_engine u) (ur_data u))) (λ r,
  match r with Err _ => lost | Ok _ =>
  Act (λ _ s, (tt, put_file marker_object sentinel s)) (λ _,
  Act (λ _ s, (tt, stage (ur_ext u) (ur_data u) s)) (λ _, Ret Accepted))
  end).

Definition manifest_object : string := okey tid did OManifest.
Definition has_manifest (s : updb) : bool := bool_decide (is_Some (ud_files s !! manifest_object)).

Definition upload_guest (attempt_of : nat → string) (u : upload_run) : upload_handler :=
  Act (λ _ s, (read_marker s, s)) (λ existing,
  match existing with
  | Some m => if bool_decide (um_status m = Failed) then
      Act (λ _ s, (has_manifest s, s)) (λ manifest,
      let reserve := Act (λ _ s, (has_manifest s, s)) (λ there, if there : bool then Ret Elsewhere else
        reserve_upload attempt_of "guest" u (Act (λ _ s, (read_marker s, s)) (λ w, Ret (match w with Some m => Receipt m | None => TryAgain end)))) in
      let charge (next : upload_handler) := if ur_over_cap u then Ret OverCap else next in
      let wipe (next : upload_handler) := wipe_failed_attempt_residue (ur_wipe u) (um_attempt m) (λ ok, if ok : bool then next else Ret NotReset) in
      if manifest : bool then charge (wipe reserve) else wipe (charge reserve))
    else Ret (Receipt m)
  | None =>
      if ur_over_cap u then Ret OverCap else
      Act (λ _ s, (has_manifest s, s)) (λ there, if there : bool then Ret Elsewhere else
        reserve_upload attempt_of "guest" u (Act (λ _ s, (read_marker s, s)) (λ w, Ret (match w with Some m => Receipt m | None => TryAgain end))))
  end).

(** The account branch, for the id it minted *)
Definition upload_account (attempt_of : nat → string) (u : upload_run) : upload_handler :=
  Act (λ _ s, (has_manifest s, s)) (λ there, if there : bool then Ret Elsewhere else
  Act (λ _ s, (read_marker s, s)) (λ m, match m with Some _ => Ret Elsewhere | None => reserve_upload attempt_of "account" u (Ret Raised) end)).

Record purge_run := PurgeRun {
  pu_owner : string; pu_now : instant; pu_clk : nat → instant;
  pu_survives : string → bool; pu_oserror : bool; pu_dir_left : bool }.

Definition sizes (m : gmap string string) : Z := map_fold (λ _ x n, Z.of_nat (length (chars x)) + n) 0 m.

(** [_purge_expired_postgres] for this drawing; the staged files, the directory and the
    check that they are gone are one section each *)
Definition _purge_expired_postgres (x : purge_run) : upload_handler :=
  Act (λ _ s, (purge_candidate (pu_now x) (pu_clk x 0) s, s)) (λ cand,
  if negb cand then Ret (Swept None) else
  Act (λ _, purge_claim (pu_owner x) (pu_now x) (pu_clk x 1) (pu_clk x 2)) (λ lease,
  match lease with None => Ret (Swept None) | Some (attempt, fence) =>
  Act (λ _ s, (sizes (ud_staged s) + sizes (ud_files s), s)) (λ bytes,
  Act (λ _ s, (tt, set_disk (filter (λ kv : string * string, pu_survives x kv.1 = true) (ud_staged s)) (ud_files s) s)) (λ _,
  Act (λ _ s, (tt, if bool_decide (ud_staged s = ∅) && negb (pu_oserror x) then
                     set_disk (ud_staged s) (filter (λ kv : string * string, pu_survives x kv.1 = true) (ud_files s)) s else s)) (λ _,
  Act (λ _ s, (negb (pu_oserror x) && negb (pu_dir_left x) && bool_decide (ud_files s = ∅) && bool_decide (ud_staged s = ∅), s)) (λ deleted,
  Act (λ _, purge_finish (pu_owner x) attempt fence deleted (if deleted : bool then bytes else 0)) (λ b,
  Ret (Swept (if b : bool then Some deleted else None)))))))
  end)).

End uploads.

(** ** Guest sessions *)

Section sessions.
Variable hmac : string → string → string.
Hypothesis hmac_hex : ∀ k m, forallb is_hex_lower (chars (hmac k m)) = true.

Definition GUEST_TENANT_PREFIX : string := "guest-".
Definition dot : ascii := "."%char.

(** LEAF_GUEST_SECRET, where an empty one is none *)
Definition guest_secret (env : option string) : option string :=
  s ← env; if bool_decide (s = ""%string) then None else Some s.

Definition session_payload (tenant : string) (exp : Z) : string := tenant +:+ "." +:+ of_chars (print_Z exp).

Definition mint_guest_session (env : option string) (tenant : string) (exp : Z) : option string :=
  secret ← guest_secret env;
  Some (session_payload tenant exp +:+ "." +:+ hmac secret (session_payload tenant exp)).

(** The text before and after the last dot *)
Fixpoint last_dot (l : list ascii) : option (list ascii * list ascii) :=
  match l with
  | [] => None
  | c :: l' =>
      match last_dot l' with
      | Some (a, b) => Some (c :: a, b)
      | None => if bool_decide (c = dot) then Some ([], l') else None
      end
  end.

(** [token.rsplit(".", 2)], when that gives three parts *)
Definition rsplit3 (token : string) : option (string * string * string) :=
  '(rest, sig) ← last_dot (chars token);
  '(tenant, exp) ← last_dot rest;
  Some (of_chars tenant, of_chars exp, of_chars sig).

(** [now] in microseconds *)
Definition verify_guest_session (env : option string) (now : instant) (token : string) : option string :=
  secret ← guest_secret env;
  '(tenant, exp_raw, sig) ← rsplit3 token;
  if negb (startswith GUEST_TENANT_PREFIX tenant) then None else
  exp ← py_int exp_raw;
  if negb (bool_decide (sig = hmac secret (session_payload tenant exp))) then None else
  if exp * US_PER_S <=? now then None else Some tenant.

Lemma last_dot_spec l a b : last_dot l = Some (a, b) ↔ l = a ++ dot :: b ∧ dot ∉ b.
Proof.
  revert a b. induction l as [|c l IH]; intros a b; simpl.
  - split; [done|]. intros [H _]. by destruct a.
  - destruct (last_dot l) as [[a1 b1]|] eqn:Hl.
    + destruct (proj1 (IH _ _) eq_refl) as [-> Hb1]. split.
      * intros [= <- <-]. done.
      * intros [E Hb]. destruct a as [|c' a]; simpl in E; injection E as -> E; [destruct Hb; rewrite <- E, elem_of_app; right; by left|].
        assert (Some (a1, b1) = Some (a, b)) as [= -> ->] by (by apply IH). done.
    + assert (dot ∉ l) as Hno.
      { intros (l1 & l2 & Hs)%list_elem_of_split_r. by apply IH in Hs. }
      case_bool_decide as Hc; split.
      * intros [= <- <-]. by subst.
      * intros [E Hb]. destruct a as [|c' a]; simpl in E; injection E as -> E; [by subst|]. destruct Hno. rewrite E, elem_of_app. right. by left.
      * done.
      * intros [E Hb]. destruct a as [|c' a]; simpl in E; injection E as -> E; [done|]. destruct Hno. rewrite E, elem_of_app. right. by left.
Qed.

(** A session that verifies is of a guest tenant, unexpired, and its signature covers the
    tenant and the expiry. *)
Theorem guest_session_sound env now token tenant : verify_guest_session env now token = Some tenant →
  startswith GUEST_TENANT_PREFIX tenant = true ∧ ∃ secret raw exp, guest_secret env = Some secret ∧ py_int raw = Some exp ∧ now < exp * US_PER_S ∧
    token = tenant +:+ "." +:+ raw +:+ "." +:+ hmac secret (session_payload tenant exp).
Proof.
  unfold verify_guest_session, rsplit3. intros (secret & Hs & H)%bind_Some. apply bind_Some in H as ([[t raw] sig] & Hr & H).
  destruct (startswith _ t) eqn:Hp; simpl in H; [|done]. apply bind_Some in H as (exp & He & H). case_bool_decide as Hsig; simpl in H; [|done].
  destruct (Z.leb_spec (exp * US_PER_S) now); [done|]. injection H as ->. split; [done|]. exists secret, raw, exp. split_and!; [done|done|lia|].
  apply bind_Some in Hr as ([rest g] & H1 & Hr). apply bind_Some in Hr as ([t' x] & H2 & Hr). injection Hr as <- <- <-.
  apply last_dot_spec in H1 as [H1 _], H2 as [-> _]. rewrite <- Hsig. apply chars_inj. rewrite !chars_app, !chars_of_chars, H1. by rewrite <- (assoc_L (++)).
Qed.

Lemma int_digits_value l acc b : Forall (λ c, is_digit c = true) l → (l = [] → b = true) →
  int_digits acc b l = Some (foldl (λ acc c, 10 * acc + digit_val c) acc l).
Proof. intros Hl. revert acc b. induction Hl as [|c l Hc _ IH]; intros acc b Hb; simpl; [by rewrite Hb|]. rewrite Hc. by apply IH. Qed.

Lemma digit_no_space c : is_digit c = true → is_space c = false.
Proof. unfold is_digit, is_space, in_range. intros H. bool_prop. repeat (apply orb_false_iff; split); bool_prop; lia. Qed.

Lemma strip_digits l : Forall (λ c, is_digit c = true) l → strip_chars l = l.
Proof.
  assert (∀ k, Forall (λ c, is_digit c = true) k → drop_space k = k) as Hd by (intros [|c k]; [done|]; inversion 1; simpl; by rewrite digit_no_space).
  intros Hl. unfold strip_chars. rewrite (Hd l), Hd by (done || by apply Forall_reverse). apply reverse_involutive.
Qed.

(** [int(str(n))] *)
Lemma py_int_print n : 0 <= n → py_int (of_chars (print_Z n)) = Some n.
Proof.
  intros Hn. unfold print_Z. rewrite (proj2 (Z.ltb_ge n 0)) by done. unfold py_int. rewrite chars_of_chars, strip_digits by by apply print_nat_digits.
  pose proof (print_nat_digits n Hn) as Hd. pose proof (digits_value_print n Hn) as Hv. destruct (print_nat_head n Hn) as (c & l & E & Hc & _). rewrite E in *.
  unfold is_digit, in_range in Hc. bool_prop. rewrite (proj2 (Z.eqb_neq (code c) 45)), (proj2 (Z.eqb_neq (code c) 43)) by lia.
  rewrite int_digits_value by done. exact (f_equal Some Hv).
Qed.

(** A session that was minted is accepted until it expires. *)
Theorem guest_session_accepted env now tenant exp token : mint_guest_session env tenant exp = Some token →
  startswith GUEST_TENANT_PREFIX tenant = true → 0 <= exp → now < exp * US_PER_S → verify_guest_session env now token = Some tenant.
Proof.
  unfold mint_guest_session, verify_guest_session. intros (secret & -> & [= <-])%bind_Some Hp He Hnow. cbn [mbind option_bind].
  assert (∀ m, dot ∉ chars (hmac secret m)) as Hhex.
  { intros m Hin. pose proof (hmac_hex secret m) as Hh. rewrite forallb_forall in Hh. apply list_elem_of_In, Hh in Hin. done. }
  assert (dot ∉ print_Z exp) as Hexp.
  { unfold print_Z. rewrite (proj2 (Z.ltb_ge exp 0)) by done. intros Hin. pose proof (print_nat_digits exp He) as Hd. rewrite Forall_forall in Hd. by specialize (Hd _ Hin). }
  unfold rsplit3. rewrite (proj2 (last_dot_spec _ (chars (session_payload tenant exp)) (chars (hmac secret (session_payload tenant exp))))); [|by rewrite !chars_app].
  cbn [mbind option_bind]. rewrite (proj2 (last_dot_spec _ (chars tenant) (print_Z exp))); [|unfold session_payload; by rewrite !chars_app, chars_of_chars].
  cbn [mbind option_bind]. rewrite !of_chars_chars, Hp, py_int_print by done. cbn [negb mbind option_bind]. rewrite bool_decide_eq_true_2 by done. simpl.
  by rewrite (proj2 (Z.leb_gt _ _)).
Qed.

End sessions.

(** ** Daily caps on guest uploads *)

Inductive cap_scope := CapIp | CapGlobal.
#[export] Instance cap_scope_eq_dec : EqDecision cap_scope.
Proof. solve_decision. Defined.

(** [_RATE_STATE], with a history of what it went through *)
Inductive rate_event := Rolled | Charged (ip : string) | Refunded (ip : string).
Record rate_state := RateState { rt_day : option string; rt_ips : gmap string Z; rt_total : Z; rt_log : list rate_event }.

Definition ip_count (s : rate_state) (ip : string) : Z := default 0 (rt_ips s !! ip).

Definition rolled_over (day : string) (s : rate_state) : rate_state :=
  if bool_decide (rt_day s = Some day) then s else RateState (Some day) ∅ 0 (Rolled :: rt_log s).

(** [check_and_count_guest_upload] in memory, under its lock *)
Definition check_and_count (ip_cap global_cap : Z) (day ip : string) (s0 : rate_state) : option cap_scope * rate_state :=
  let s := rolled_over day s0 in
  if global_cap <=? rt_total s then (Some CapGlobal, s)
  else if ip_cap <=? ip_count s ip then (Some CapIp, s)
  else (None, RateState (rt_day s) (<[ip := ip_count s ip + 1]> (rt_ips s)) (rt_total s + 1) (Charged ip :: rt_log s)).

(** [refund_guest_upload] in memory *)
Definition refund (ip : string) (s : rate_state) : rate_state :=
  RateState (rt_day s)
    (if 0 <? ip_count s ip then <[ip := ip_count s ip - 1]> (rt_ips s) else rt_ips s)
    (if 0 <? rt_total s then rt_total s - 1 else rt_total s) (Refunded ip :: rt_log s).

(** Calls one after another, as the lock makes them, with caps of at most [ip_cap] and
    [global_cap] in force. *)
Inductive rate_reached (ip_cap global_cap : Z) : rate_state → Prop :=
| rate_start : rate_reached ip_cap global_cap (RateState None ∅ 0 [])
| rate_charge s i g day ip : rate_reached ip_cap global_cap s → i <= ip_cap → g <= global_cap →
    rate_reached ip_cap global_cap (check_and_count i g day ip s).2
| rate_refund s ip : rate_reached ip_cap global_cap s → rate_reached ip_cap global_cap (refund ip s).

(** What was charged less what was refunded since the counters were last reset *)
Fixpoint net (counts : string → bool) (l : list rate_event) : Z :=
  match l with
  | Charged ip :: l' => net counts l' + (if counts ip then 1 else 0)
  | Refunded ip :: l' => net counts l' - (if counts ip then 1 else 0)
  | Rolled :: _ | [] => 0
  end.

Lemma ip_count_insert d m ip v n l x : ip_count (RateState d (<[ip := v]> m) n l) x = if bool_decide (ip = x) then v else ip_count (RateState d m n l) x.
Proof. unfold ip_count. simpl. case_bool_decide; [subst; by rewrite lookup_insert_eq|by rewrite lookup_insert_ne]. Qed.

Lemma ip_count_same d m n l s x : rt_ips s = m → ip_count (RateState d m n l) x = ip_count s x.
Proof. unfold ip_count. simpl. by intros ->. Qed.

Lemma net_total_ips ip_cap global_cap s : 0 <= ip_cap → 0 <= global_cap → rate_reached ip_cap global_cap s →
  (net (λ _, true) (rt_log s) <= rt_total s <= global_cap ∧ 0 <= rt_total s) ∧
  ∀ ip, net (λ x, bool_decide (x = ip)) (rt_log s) <= ip_count s ip <= ip_cap ∧ 0 <= ip_count s ip.
Proof.
  intros Hi Hg. induction 1 as [|s i g day ip _ [IT II] Hic Hgc|s ip _ [IT II]].
  - unfold ip_count. simpl. split; [lia|]. intros ip. rewrite lookup_empty. simpl. lia.
  - assert ((net (λ _, true) (rt_log (rolled_over day s)) <= rt_total (rolled_over day s) <= global_cap ∧ 0 <= rt_total (rolled_over day s)) ∧
      ∀ ip, net (λ x, bool_decide (x = ip)) (rt_log (rolled_over day s)) <= ip_count (rolled_over day s) ip <= ip_cap ∧ 0 <= ip_count (rolled_over day s) ip) as [RT RI].
    { unfold rolled_over. case_bool_decide; [done|]. unfold ip_count. simpl. split; [lia|]. intros x. rewrite lookup_empty. simpl. lia. }
    unfold check_and_count. destruct (Z.leb_spec g (rt_total (rolled_over day s))); [done|]. destruct (Z.leb_spec i (ip_count (rolled_over day s) ip)); [done|]. simpl.
    split; [lia|]. intros x. specialize (RI x). rewrite ip_count_insert, (ip_count_same _ _ _ _ (rolled_over day s)) by done.
    case_bool_decide as E; [subst x|]; lia.
  - unfold refund. simpl. split; [destruct (Z.ltb_spec 0 (rt_total s)); lia|]. intros x. specialize (II x).
    destruct (Z.ltb_spec 0 (ip_count s ip)); rewrite ?ip_count_insert, (ip_count_same _ _ _ _ s) by done; (case_bool_decide as E; [subst x|]; lia).
Qed.

(** Between two resets, the uploads that were admitted and not refunded are at most the
    global cap, and those of one address at most its cap. *)
Theorem guest_caps_hold ip_cap global_cap s : 0 <= ip_cap → 0 <= global_cap → rate_reached ip_cap global_cap s →
  net (λ _, true) (rt_log s) <= global_cap ∧ ∀ ip, net (λ x, bool_decide (x = ip)) (rt_log s) <= ip_cap.
Proof.
  intros Hi Hg Hs. destruct (net_total_ips _ _ _ Hi Hg Hs) as [HT HI]. split; [lia|]. intros ip. specialize (HI ip). lia.
Qed.

(** [guest_upload_counters]: the rows of the namespaces [guest_upload_ip] and
    [guest_upload_global] *)
Record guest_counters := GuestCounters { gc_ip : counters; gc_global : counters }.

Definition namespace (t : guest_counters) (of_ip : bool) : counters := if of_ip then gc_ip t else gc_global t.
Definition counter_expired (now : instant) (days : Z) (t : guest_counters) (k : bool * string) : bool :=
  match namespace t k.1 !! k.2 with Some (_, u) => u <? now - days * US_PER_DAY | None => false end.
Definition delete_counter (k : bool * string) (t : guest_counters) : guest_counters :=
  if k.1 then GuestCounters (delete k.2 (gc_ip t)) (gc_global t) else GuestCounters (gc_ip t) (delete k.2 (gc_global t)).

(** [_cleanup_old_postgres_counters]: a hundred of the expired rows, as the database lists
    them; the flag says whether a row counts an address. *)
Definition _cleanup_old_postgres_counters (now : instant) (days : Z) (listing : list (bool * string)) (t : guest_counters) : guest_counters :=
  foldr delete_counter t (take 100 (List.filter (counter_expired now days t) listing)).

(** [_postgres_check_and_count]; [None] is a counter call that raises, [Some None] a charge.
    [dbnow] is [NOW()], which stamps the rows; [cut] is the application's clock, from
    which the clean-up reckons. *)
Definition _postgres_check_and_count (ip_cap global_cap : Z) (day ip_key : string) (dbnow cut : instant) (days : Z) (listing : list (bool * string))
    (t : guest_counters) : option (option cap_scope) * guest_counters :=
  match consume_in_transaction (gc_ip t) ip_key 1 (Some ip_cap) dbnow with
  | None => (None, t)
  | Some (r, ips) =>
      if negb (c_accepted r) then (Some (Some CapIp), t) else
      match consume_in_transaction (gc_global t) day 1 (Some global_cap) dbnow with
      | None => (None, t)
      | Some (r, all) =>
          if negb (c_accepted r) then (Some (Some CapGlobal), t) else
          (Some None, _cleanup_old_postgres_counters cut days listing (GuestCounters ips all))
      end
  end.

(** [_postgres_refund] of the receipt [(day, ip_key)] *)
Definition _postgres_refund (day ip_key : string) (now : instant) (t : guest_counters) : guest_counters :=
  let lowered (x : Z * instant) := (Z.max (x.1 - 1) 0, now) in
  GuestCounters (alter lowered ip_key (gc_ip t)) (alter lowered day (gc_global t)).

Definition counted (t : counters) (k : string) : Z := default 0 (fst <$> t !! k).

Lemma consume_accepted t k limit now r t' : consume_in_transaction t k 1 (Some limit) now = Some (r, t') → c_accepted r = true →
  t' !! k = Some (counted t k + 1, now) ∧ counted t k + 1 <= limit.
Proof.
  unfold consume_in_transaction, counted. destruct (_ || _ || _); [done|]. destruct (_ && _) eqn:Hfit; intros [= <- <-]; [intros _|done]. rewrite lookup_insert_eq.
  destruct (t !! k) as [[v u]|]; simpl in *; bool_prop; (split; [done|lia]).
Qed.

Lemma guest_cleanup_keeps (dbnow cut : instant) days listing t b k v : cut - days * US_PER_DAY <= dbnow → namespace t b !! k = Some (v, dbnow) →
  namespace (_cleanup_old_postgres_counters cut days listing t) b !! k = Some (v, dbnow).
Proof.
  intros Hd Hk. assert (counter_expired cut days t (b, k) = false) as He.
  { unfold counter_expired. cbn [fst snd]. unfold instant in *. rewrite Hk. by apply Z.ltb_ge. }
  unfold _cleanup_old_postgres_counters. assert (Forall (λ x, counter_expired cut days t x = true) (take 100 (List.filter (counter_expired cut days t) listing))) as Hl.
  { apply Forall_take, Forall_forall. intros x Hx. apply list_elem_of_In, filter_In in Hx. tauto. }
  induction Hl as [|[b' k'] l Hx _ IH]; [done|]. assert ((b', k') ≠ (b, k)) as Hne by congruence.
  simpl. destruct b', b; simpl in *; try done; (rewrite lookup_delete_ne; [done|congruence]).
Qed.

(** A charge raises both counters by one within their caps; otherwise nothing changes.
    The database's clock is less than the retention window behind the application's. *)
Theorem pg_guest_charge_all_or_nothing ip_cap global_cap day ip_key (dbnow cut : instant) days listing t r t' : cut - days * US_PER_DAY <= dbnow →
  _postgres_check_and_count ip_cap global_cap day ip_key dbnow cut days listing t = (r, t') →
  if bool_decide (r = Some None) then
    counted (gc_ip t') ip_key = counted (gc_ip t) ip_key + 1 ∧ counted (gc_global t') day = counted (gc_global t) day + 1 ∧
    counted (gc_ip t') ip_key <= ip_cap ∧ counted (gc_global t') day <= global_cap
  else t' = t.
Proof.
  intros Hd. unfold _postgres_check_and_count.
  destruct (consume_in_transaction (gc_ip t) _ _ _ _) as [[r1 ips]|] eqn:H1; [|by intros [= <- <-]]. destruct (c_accepted r1) eqn:A1; [|by intros [= <- <-]].
  destruct (consume_in_transaction (gc_global t) _ _ _ _) as [[r2 all]|] eqn:H2; [|by intros [= <- <-]]. destruct (c_accepted r2) eqn:A2; [|by intros [= <- <-]].
  intros [= <- <-]. apply consume_accepted in H1 as [V1 L1], H2 as [V2 L2]; [|done..]. simpl. unfold counted in *.
  pose proof (guest_cleanup_keeps dbnow cut days listing (GuestCounters ips all) true ip_key _ Hd V1) as K1. pose proof (guest_cleanup_keeps dbnow cut days listing (GuestCounters ips all) false day _ Hd V2) as K2.
  simpl in K1, K2. rewrite K1, K2. simpl. lia.
Qed.

(** Witnesses *)

Definition demo_session : string := "guest-1.1000.00ff".
Definition session_hmac (k m : string) : string := "00ff".

Lemma guest_session_sound_witness : verify_guest_session session_hmac (Some "k"%string) 0 demo_session = Some "guest-1"%string ∧
  startswith GUEST_TENANT_PREFIX "guest-1" = true.
Proof.
  split; [vm_compute; reflexivity|]. exact (proj1 (guest_session_sound session_hmac (Some "k"%string) 0 demo_session "guest-1" eq_refl)).
Defined.

Lemma guest_session_accepted_witness : verify_guest_session session_hmac (Some "k"%string) 999999999 demo_session = Some "guest-1"%string.
Proof.
  apply (guest_session_accepted session_hmac (λ _ _, eq_refl) (Some "k"%string) 999999999 "guest-1" 1000 demo_session); [reflexivity|reflexivity|lia|reflexivity].
Defined.

Lemma guest_caps_hold_witness :
  let s := (check_and_count 1 5 "d" "a" (check_and_count 1 5 "d" "a" (RateState None ∅ 0 [])).2).2 in
  net (λ _, true) (rt_log s) = 1 ∧ net (λ x, bool_decide (x = "a"%string)) (rt_log s) <= 1.
Proof.
  split; [vm_compute; reflexivity|]. apply (guest_caps_hold 1 5); [lia|lia|]. apply rate_charge; [|lia|lia]. apply rate_charge; [constructor|lia|lia].
Defined.

Lemma pg_guest_charge_all_or_nothing_witness :
  counted (gc_ip (_postgres_check_and_count 2 5 "d" "d:h1:a" 10 10 8 [] (GuestCounters ∅ ∅)).2) "d:h1:a" = 1.
Proof.
  refine (proj1 (pg_guest_charge_all_or_nothing 2 5 "d" "d:h1:a" 10 10 8 [] (GuestCounters ∅ ∅) (Some None) _ _ _)); [unfold US_PER_DAY, US_PER_S; lia|reflexivity].
Defined.
