(* ===== verification/UploadSystem.v ===== *)
(** * Uploads at the same time

    Every interleaving of uploads, extractions, status views, resets, purges
    ([GuestUploads]) and the other transactions on the drawing ([PgStore]).  The
    invariant relates the attempt's row, what can be read of the drawing and the record
    of the commits; [holding] carries it through the sections of a handler.  Concrete
    runs at the end, among them those where bytes on the disk do not follow the rows. *)

From S2P Require Import Prelude PyText Json IsoTime TenantIds StoreKeys Concurrent AgentCalls IntakeCache PgStore GuestUploads.
From stdpp Require Import sorting.
From Stdlib Require Import Ascii.
Local Open Scope Z_scope.
Import IdFacts.

Section uploads.
Context `{!Runtime, !Drawing}.

(** ** The run so far *)

Definition begun (l : list upload_event) : list (string * option instant) :=
  omap (λ e, match e with EvBegun a ret => Some (a, ret) | _ => None end) l.
Definition ended (l : list upload_event) : list (string * upload_status) :=
  omap (λ e, match e with EvEnded a st _ _ => Some (a, st) | _ => None end) l.
Definition claimed (l : list upload_event) : list Z :=
  omap (λ e, match e with EvClaimed _ _ f _ _ => Some f | _ => None end) l.
Definition purge_claims (l : list upload_event) : list Z :=
  omap (λ e, match e with EvPurging _ f _ _ _ | EvResetting _ f => Some f | _ => None end) l.

(** The extraction lease in force: attempt, owner, fence, expiry. *)
Fixpoint lease_of (l : list upload_event) : option (string * string * Z * instant) :=
  match l with
  | EvClaimed a o f e _ :: _ => Some (a, o, f, e)
  | EvReleased _ _ :: _ | EvEnded _ _ _ _ :: _ | EvBegun _ _ :: _ => None
  | _ :: l' => lease_of l'
  | [] => None
  end.

(** The purge or reset under way: attempt, fence, whether it is a reset. *)
Fixpoint purge_of (l : list upload_event) : option (string * Z * bool) :=
  match l with
  | EvPurging a f _ _ _ :: _ => Some (a, f, false)
  | EvResetting a f :: _ => Some (a, f, true)
  | EvReset _ _ :: _ | EvReceipt _ _ _ :: _ => None
  | _ :: l' => purge_of l'
  | [] => None
  end.

Definition lease_free (l : list upload_event) (t : instant) : Prop := ∀ a o f e, lease_of l = Some (a, o, f, e) → e <= t.

(** What an event may follow. *)
Definition event_ok (e : upload_event) (l : list upload_event) : Prop :=
  match e with
  | EvBegun a _ => a ∉ (begun l).*1
  | EvClaimed a o f e now => a ∈ (begun l).*1 ∧ (a ∉ (ended l).*1) ∧ lease_free l now ∧ Forall (λ g, g < f) (claimed l)
  | EvReleased a f => ∃ o e, lease_of l = Some (a, o, f, e)
  | EvEnded a st (Some (o, f)) clk => (st = Shown ∨ st = Failed) ∧ a ∈ (begun l).*1 ∧ (a ∉ (ended l).*1) ∧ ∃ e, lease_of l = Some (a, o, f, e) ∧ clk < e
  | EvEnded a st None now => st = Failed ∧ a ∈ (begun l).*1 ∧ (a ∉ (ended l).*1) ∧ lease_free l now
  | EvPurging a f ret now clk =>
      (a, Some ret) ∈ begun l ∧ ret <= now ∧ (a ∈ (ended l).*1 ∨ lease_free l clk ∨ is_Some (purge_of l)) ∧ Forall (λ g, g < f) (purge_claims l)
  | EvResetting a f => (a, Failed) ∈ ended l ∧ Forall (λ g, g < f) (purge_claims l)
  | EvReset a f => purge_of l = Some (a, f, true)
  | EvReceipt a f _ => purge_of l = Some (a, f, false)
  end.

Fixpoint log_ok (l : list upload_event) : Prop :=
  match l with [] => True | e :: l' => event_ok e l' ∧ log_ok l' end.

(** ** The row against the run *)

Record row_ok (r : attempt_row) (l : list upload_event) : Prop := RowOk {
  ro_attempt : um_attempt (ar_marker r) = ar_attempt r;
  ro_begun : (ar_attempt r, ar_retention r) ∈ begun l;
  ro_settled : um_status (ar_marker r) = Extracting ∨ um_status (ar_marker r) = Shown ∨ um_status (ar_marker r) = Failed;
  ro_status : ar_status r = um_status (ar_marker r) ∨ ar_status r = Purging ∨ ar_status r = Purged;
  ro_ended : ∀ st, (ar_attempt r, st) ∈ ended l ↔ st = um_status (ar_marker r) ∧ st ≠ Extracting;
  ro_lease : (o ← ar_owner r; e ← ar_expires r; Some (ar_attempt r, o, ar_fence r, e)) = lease_of l;
  ro_owned : is_Some (ar_expires r) ↔ is_Some (ar_owner r);
  ro_fence : Forall (λ g, g <= ar_fence r) (claimed l);
  ro_purge : ar_status r = Purging ↔ ∃ b, purge_of l = Some (ar_attempt r, ar_purge_fence r, b);
  ro_quiet : ar_status r ≠ Purging → purge_of l = None;
  ro_purge_fence : Forall (λ g, g <= ar_purge_fence r) (purge_claims l) }.

(** The manifest row of the drawing has a head.  Whether the bytes of the version are
    stored is another matter: [late_reset_deletes_ready_bytes]. *)
Definition has_head (p : pg) : Prop := ∃ m h, pg_row p = Some m ∧ mr_head m = Some h.

(** The row of the attempt and the rows of the drawing agree. *)
Record shown_ok (r : attempt_row) (s : updb) : Prop := ShownOk {
  so_head : has_head (ud_pg s) ↔ um_status (ar_marker r) = Shown ∧ ar_status r ≠ Purged;
  so_version : has_head (ud_pg s) → ∃ v, pg_versions (ud_pg s) !! 1 = Some v ∧ vr_state v = Ready ∧
    um_intake (ar_marker r) = ud_intake s !! 1 ∧ is_Some (um_intake (ar_marker r));
  so_hidden : ¬ has_head (ud_pg s) → ∀ n v, pg_versions (ud_pg s) !! n = Some v → vr_state v ≠ Ready;
  so_purged : ar_status r = Purged → ud_pg s = pg_empty ∧ ud_intake s = ∅ ∧
    ∃ x, ud_receipts s !! (ar_attempt r, ar_purge_fence r) = Some x ∧ pr_deleted x = true }.

Record upload_inv (s : updb) : Prop := UploadInv {
  ui_log : log_ok (ud_log s);
  ui_row : ∀ r, ud_row s = Some r → row_ok r (ud_log s);
  ui_shown : ∀ r, ud_row s = Some r → shown_ok r s;
  ui_none : ud_row s = None → ud_log s = [] ∧ ud_pg s = pg_empty;
  ui_receipts : ∀ a f x, ud_receipts s !! (a, f) = Some x → EvReceipt a f (pr_deleted x) ∈ ud_log s }.

(** ** Facts of the run *)

Lemma ended_begun l a : log_ok l → a ∈ (ended l).*1 → a ∈ (begun l).*1.
Proof.
  induction l as [|e l IH]; [by intros _ ?%elem_of_nil|]. intros [He Hl]. specialize (IH Hl).
  destruct e as [| | |a' st lease clk| | | |]; csimpl; rewrite ?elem_of_cons; auto.
  intros [->|Ha]; [|auto]. destruct lease as [[o f]|]; simpl in He; tauto.
Qed.

Lemma purge_of_claimed l a f b : purge_of l = Some (a, f, b) → f ∈ purge_claims l.
Proof. induction l as [|[] l IH]; intros Hp; csimpl in *; rewrite ?elem_of_cons; naive_solver. Qed.

Lemma receipt_claimed l a f d : log_ok l → EvReceipt a f d ∈ l → f ∈ purge_claims l.
Proof.
  induction l as [|e l IH]; [by intros _ ?%elem_of_nil|]. intros [He Hl] [<-|Hin]%elem_of_cons.
  - simpl in He. csimpl. by eapply purge_of_claimed.
  - specialize (IH Hl Hin). destruct e; csimpl; rewrite ?elem_of_cons; auto.
Qed.

(** A receipt is of an earlier lease than the one in force. *)
Lemma receipts_past l a f b a' d : log_ok l → purge_of l = Some (a, f, b) → EvReceipt a' f d ∉ l.
Proof.
  induction l as [|e l IH]; [done|]. intros [He Hl] Hp [<-|Hin]%elem_of_cons; [done|].
  destruct e as [| | | | a1 f1 ret now clk|a1 f1| |]; simpl in *; try (by apply (IH Hl Hp)); try done;
    injection Hp as -> -> <-; pose proof (receipt_claimed _ _ _ _ Hl Hin) as Hc.
  - destruct He as (_ & _ & _ & Hf). rewrite Forall_forall in Hf. specialize (Hf _ Hc). lia.
  - destruct He as (_ & Hf). rewrite Forall_forall in Hf. specialize (Hf _ Hc). lia.
Qed.

(** The fence of the lease in force belongs to one claim. *)
Lemma purge_of_unique l a f b : log_ok l → purge_of l = Some (a, f, b) →
  (∀ a' ret now clk, EvPurging a' f ret now clk ∈ l → a' = a ∧ b = false) ∧ (∀ a', EvResetting a' f ∈ l → a' = a ∧ b = true).
Proof.
  assert (∀ l' a' f' ret now clk, EvPurging a' f' ret now clk ∈ l' → f' ∈ purge_claims l') as C1.
  { intros l' a' f' ret now clk Hin. apply list_elem_of_omap. by exists (EvPurging a' f' ret now clk). }
  assert (∀ l' a' f', EvResetting a' f' ∈ l' → f' ∈ purge_claims l') as C2.
  { intros l' a' f' Hin. apply list_elem_of_omap. by exists (EvResetting a' f'). }
  induction l as [|e l IH]; [done|]. intros [He Hl] Hp.
  assert (f ∉ purge_claims l → (∀ a' ret now clk, EvPurging a' f ret now clk ∉ l) ∧ (∀ a', EvResetting a' f ∉ l)) as Hno by (split; intros; naive_solver).
  assert (Forall (λ g, g < f) (purge_claims l) → f ∉ purge_claims l) as Hlt.
  { rewrite Forall_forall. intros Hf Hin. specialize (Hf _ Hin). lia. }
  destruct e as [| | | |a1 f1 ret1 now1 clk1|a1 f1| |]; simpl in *; try done;
    try (destruct (IH Hl Hp) as [I1 I2]; split; intros *; rewrite elem_of_cons; intros [[=]|Hin]; [by eapply I1|by apply I2]);
    injection Hp as -> -> <-; (destruct Hno as [N1 N2]; [apply Hlt; tauto|]); split; intros *; rewrite elem_of_cons;
    (intros [Heq|Hin]; [by simplify_eq|]); by (destruct (N1 _ _ _ _ Hin) || destruct (N2 _ Hin)).
Qed.

Lemma lease_free_row r l t : row_ok r l → free_at (ar_expires r) t = true → lease_free l t.
Proof.
  intros Hr Hf a o f e Hl. rewrite <- (ro_lease _ _ Hr) in Hl. destruct (ar_owner r); [|done]. destruct (ar_expires r); simpl in *; [|done].
  injection Hl as <- <- <- <-. lia.
Qed.

Lemma not_ended r l : row_ok r l → um_status (ar_marker r) = Extracting → ar_attempt r ∉ (ended l).*1.
Proof. intros Hr Hs ([a st] & Ha & Hin)%list_elem_of_fmap. simpl in Ha. subst a. apply (ro_ended _ _ Hr) in Hin. naive_solver. Qed.

Lemma row_begun r l : row_ok r l → ar_attempt r ∈ (begun l).*1.
Proof. intros Hr. apply list_elem_of_fmap. eexists (_, _). split; [done|apply (ro_begun _ _ Hr)]. Qed.

(** ** The transactions keep the invariant *)

(** [s'] is [s] with other files. *)
Definition same_rows (s s' : updb) : Prop :=
  ud_row s' = ud_row s ∧ ud_pg s' = ud_pg s ∧ ud_intake s' = ud_intake s ∧ ud_receipts s' = ud_receipts s ∧ ud_log s' = ud_log s.

Lemma same_rows_inv s s' : same_rows s s' → upload_inv s → upload_inv s'.
Proof.
  intros (E1 & E2 & E3 & E4 & E5) [I1 I2 I3 I4 I5]. split; rewrite ?E1, ?E2, ?E4, ?E5; auto.
  intros r Hr. destruct (I3 r Hr) as [S1 S2 S3 S4]. split; rewrite ?E2, ?E3, ?E4; auto.
Qed.

(** The row moves to [r'] by the event [e]. *)
Lemma moved_row s s' r' e : upload_inv s → ud_row s' = Some r' → ud_log s' = e :: ud_log s → event_ok e (ud_log s) →
  row_ok r' (e :: ud_log s) → shown_ok r' s' → ud_receipts s' = ud_receipts s → upload_inv s'.
Proof.
  intros [I1 I2 I3 I4 I5] Hr Hl He Hok Hs Hc. split; rewrite ?Hr, ?Hl, ?Hc.
  - by split.
  - by intros r [= <-].
  - by intros r [= <-].
  - done.
  - intros a f x Hx. apply elem_of_cons. right. by apply (I5 a f).
Qed.

Lemma write_marker_inv m s r s' : write_marker m s = (r, s') → um_status m = Extracting → um_attempt m ∉ (begun (ud_log s)).*1 →
  upload_inv s → upload_inv s' ∧ (s' = s ∨ ud_log s' = EvBegun (um_attempt m) (um_retention m) :: ud_log s).
Proof.
  intros Hw Hm Hnew Hinv. assert (um_attempt m ∉ (ended (ud_log s)).*1) as Hne by (intros ?%ended_begun; [done|apply (ui_log _ Hinv)]).
  assert (∀ st, (um_attempt m, st) ∈ ended (ud_log s) ↔ st = um_status m ∧ st ≠ Extracting) as Hend.
  { intros st. rewrite Hm. split; [|naive_solver]. intros Hin. destruct Hne. apply list_elem_of_fmap. by exists (um_attempt m, st). }
  unfold write_marker in Hw. destruct (ud_row s) as [r0|] eqn:Hr0.
  - destruct (_ || _) eqn:Hc; injection Hw as <- <-; [|by auto]. split; [|by right]. pose proof (ui_row _ Hinv _ Hr0) as Ho. pose proof (ui_shown _ Hinv _ Hr0) as Hs.
    assert (ar_attempt r0 ≠ um_attempt m) as Hdiff by (intros E; destruct Hnew; rewrite <- E; by apply row_begun).
    rewrite !orb_true_iff, !bool_decide_eq_true in Hc.
    assert (ar_status r0 ≠ Purging ∧ ¬ has_head (ud_pg s)) as [Hq Hv].
    { rewrite (so_head _ _ Hs). destruct Hc as [[Hc|Hc]|Hc]; [done| |split; [congruence|by intros [_ []]]].
      split; [congruence|]. intros [Hx _]. destruct (ro_status _ _ Ho) as [E|[E|E]]; congruence. }
    eapply moved_row; simpl; [done|reflexivity|reflexivity|done| |split; simpl|done].
    + split; simpl; csimpl; [done|by left|by left|by left|done|done|by split; intros [? ?]|apply (ro_fence _ _ Ho)| | |apply (ro_purge_fence _ _ Ho)].
      * rewrite Hm, (ro_quiet _ _ Ho) by done. split; [done|]. by intros [b ?].
      * intros _. by apply (ro_quiet _ _ Ho).
    + rewrite Hm. split; [done|]. by intros [? _].
    + done.
    + by apply (so_hidden _ _ Hs).
    + by rewrite Hm.
  - injection Hw as <- <-. split; [|by right]. destruct (ui_none _ Hinv Hr0) as [Hlog Hpg].
    eapply moved_row; simpl; [done|reflexivity|reflexivity|done| |split; simpl; rewrite ?Hpg|done].
    + rewrite Hlog. rewrite Hlog in Hend. split; simpl; csimpl; [done|by left|by left|by left|done|done|by split; intros [? ?]|done| |done|done].
      rewrite Hm. split; [done|]. by intros [b ?].
    + rewrite Hm. split; [by intros (? & ? & ? & _)|by intros [? _]].
    + by intros (? & ? & ? & _).
    + intros _ n v. simpl. by rewrite lookup_empty.
    + by rewrite Hm.
Qed.

(** [s'] follows [s] and begins no attempt. *)
Definition quiet (s s' : updb) : Prop := ∃ ev, ud_log s' = ev ++ ud_log s ∧ begun ev = [].

Lemma quiet_one e s s' : ud_log s' = e :: ud_log s → begun [e] = [] → quiet s s'.
Proof. intros. by exists [e]. Qed.

#[local] Instance quiet_preorder : PreOrder quiet.
Proof.
  split; [by exists []|]. intros s1 s2 s3 (e1 & E1 & B1) (e2 & E2 & B2). exists (e2 ++ e1). rewrite E2, E1, (assoc_L (++)). split; [done|].
  unfold begun in *. by rewrite omap_app, B1, B2.
Qed.

Lemma live_marker r l : row_ok r l → ar_status r = Extracting → um_status (ar_marker r) = Extracting.
Proof. intros Hr Hs. destruct (ro_status _ _ Hr) as [E|[E|E]]; congruence. Qed.

Lemma claim_inv owner ttl now s c s' : _claim_extraction owner ttl now s = (c, s') → upload_inv s →
  upload_inv s' ∧ quiet s s'.
Proof.
  intros Hc Hinv. unfold _claim_extraction in Hc. destruct (ud_row s) as [r|] eqn:Hr; [|by injection Hc as <- <-].
  destruct (_ && _) eqn:Hb; injection Hc as <- <-; [|done]. split; [|by apply (quiet_one (EvClaimed (ar_attempt r) owner (ar_fence r + 1) (now + ttl) now))].
  apply andb_true_iff in Hb as [Hst Hfree]. apply bool_decide_eq_true in Hst. pose proof (ui_row _ Hinv _ Hr) as Ho. pose proof (live_marker _ _ Ho Hst) as Hm.
  assert (ar_status r ≠ Purging) as Hq by congruence.
  eapply moved_row; simpl; [done|reflexivity|reflexivity| | |by destruct (ui_shown _ Hinv _ Hr); split|done].
  - split_and!; [by eapply row_begun|by eapply not_ended|by eapply lease_free_row|]. eapply Forall_impl; [apply (ro_fence _ _ Ho)|]. simpl. lia.
  - destruct Ho as [O1 O2 O3 O4 O5 O6 O7 O8 O9 O10 O11]. split; simpl; csimpl; [done|done|done|done|done|done|by split|..|done].
    + constructor; [done|]. eapply Forall_impl; [done|]. simpl. lia.
    + done.
    + done.
Qed.

Lemma release_inv attempt owner fence clk s b s' : _release_pg_extraction_lease attempt owner fence clk s = (b, s') → upload_inv s →
  upload_inv s' ∧ quiet s s'.
Proof.
  intros Hc Hinv. unfold _release_pg_extraction_lease in Hc. destruct (ud_row s) as [r|] eqn:Hr; [|by injection Hc as <- <-].
  destruct (holds_extraction _ _ _ _) eqn:Hb; injection Hc as <- <-; [|done]. split; [|by apply (quiet_one (EvReleased attempt fence))].
  unfold holds_extraction in Hb. rewrite !andb_true_iff, !bool_decide_eq_true, Z.eqb_eq in Hb. destruct Hb as (((<- & Hst) & Hown) & <-).
  pose proof (ui_row _ Hinv _ Hr) as Ho.
  eapply moved_row; simpl; [done|reflexivity|reflexivity| | |by destruct (ui_shown _ Hinv _ Hr); split|done]; destruct Ho as [O1 O2 O3 O4 O5 O6 O7 O8 O9 O10 O11].
  - destruct O7 as [_ O7]. destruct O7 as [e He]; [by rewrite Hown|]. rewrite Hown, He in O6. by exists owner, e.
  - split; simpl; csimpl; [done|done|done|done|done|done|by split; intros [? ?]|done|done|done|done].
Qed.

(** An attempt that ends under its lease, or unclaimed, as failed. *)
Lemma fail_row_inv s r m lease clk : upload_inv s → ud_row s = Some r → um_attempt m = ar_attempt r → um_status m = Failed →
  ar_status r = Extracting → event_ok (EvEnded (um_attempt m) Failed lease clk) (ud_log s) →
  upload_inv (set_upload_row (ended_row m Failed r) [EvEnded (um_attempt m) Failed lease clk] s).
Proof.
  intros Hinv Hr Ha Hm Hst He. pose proof (ui_row _ Hinv _ Hr) as Ho. pose proof (ui_shown _ Hinv _ Hr) as Hs. pose proof (live_marker _ _ Ho Hst) as Hl.
  pose proof (not_ended _ _ Ho Hl) as Hne.
  assert (¬ has_head (ud_pg s)) as Hv by (rewrite (so_head _ _ Hs); intros [? _]; congruence).
  eapply moved_row; simpl; [done|reflexivity|reflexivity|done| |split; simpl|done].
  - destruct Ho as [O1 O2 O3 O4 O5 O6 O7 O8 O9 O10 O11].
    split; simpl; csimpl; [done|done|by auto|by auto| |done|by split; intros [? ?]|done| |by intros; apply O10; rewrite Hst|done].
    + intros st. rewrite elem_of_cons, O5, Ha, Hl, Hm. split; [|intros [-> _]; by left]. intros [[= ->]|[-> []]]; done.
    + rewrite O10 by (by rewrite Hst). split; [done|]. by intros [b ?].
  - rewrite Hm. split; [done|]. by intros [? _].
  - done.
  - by apply (so_hidden _ _ Hs).
  - done.
Qed.

Lemma leases_extraction_inv s r a o f clk : upload_inv s → ud_row s = Some r → leases_extraction a o f clk r = true →
  ar_attempt r = a ∧ ar_status r = Extracting ∧ ∃ e, lease_of (ud_log s) = Some (a, o, f, e) ∧ clk < e.
Proof.
  intros Hinv Hr Hb. unfold leases_extraction, holds_extraction in Hb. rewrite !andb_true_iff, !bool_decide_eq_true, Z.eqb_eq in Hb.
  destruct Hb as ((((<- & Hst) & Hown) & <-) & Hx). split_and!; [done|done|]. pose proof (ro_lease _ _ (ui_row _ Hinv _ Hr)) as Hl. rewrite Hown in Hl.
  destruct (ar_expires r) as [e|]; [|done]. simpl in *. exists e. split; [done|lia].
Qed.

Lemma finish_inv m owner fence clk s b s' : _finish_pg_attempt m owner fence clk s = (b, s') → um_status m = Failed → upload_inv s →
  upload_inv s' ∧ quiet s s'.
Proof.
  intros Hc Hm Hinv. unfold _finish_pg_attempt in Hc. destruct (ud_row s) as [r|] eqn:Hr; [|by injection Hc as <- <-].
  destruct (leases_extraction _ _ _ _ _) eqn:Hb; injection Hc as <- <-; [|done]. rewrite Hm.
  split; [|by apply (quiet_one (EvEnded (um_attempt m) Failed (Some (owner, fence)) clk))]. pose proof (ui_row _ Hinv _ Hr) as Ho.
  destruct (leases_extraction_inv _ _ _ _ _ _ Hinv Hr Hb) as (Ha & Hst & Hl). pose proof (live_marker _ _ Ho Hst) as Hx.
  apply fail_row_inv; try done. rewrite <- Ha in *. simpl. split_and!; [by right|by eapply row_begun|by eapply not_ended|done].
Qed.

Lemma mark_failed_inv refused m e lease now clk s b s' : _mark_failed refused m e lease now clk s = (b, s') → upload_inv s →
  upload_inv s' ∧ quiet s s'.
Proof.
  intros Hc Hinv. unfold _mark_failed in Hc. destruct refused; [by injection Hc as <- <-|].
  destruct lease as [[o f]|]; [by eapply finish_inv|]. destruct (ud_row s) as [r|] eqn:Hr; [|by injection Hc as <- <-].
  destruct (_ && _) eqn:Hb; injection Hc as <- <-; [|done]. rewrite !andb_true_iff, !bool_decide_eq_true in Hb. destruct Hb as [[Ha Hst] Hf].
  split; [|by apply (quiet_one (EvEnded (um_attempt m) Failed None now))]. pose proof (ui_row _ Hinv _ Hr) as Ho. pose proof (live_marker _ _ Ho Hst) as Hx.
  apply (fail_row_inv s r (failed_marker e m) None now); try done. simpl. rewrite <- Ha. split_and!; [done|by eapply row_begun|by eapply not_ended|by eapply lease_free_row].
Qed.

(** Steps on the disk *)
Lemma same_rows_quiet s s' : same_rows s s' → quiet s s'.
Proof. intros (_ & _ & _ & _ & E). by exists []. Qed.

Lemma put_if_absent_rows k data s r s' : put_if_absent k data s = (r, s') → same_rows s s'.
Proof. unfold put_if_absent. destruct (_ !! _); by intros [= <- <-]. Qed.

Lemma check_file_rows same k s r s' : check_file same k s = (r, s') → s' = s.
Proof. unfold check_file. destruct (_ !! _); by intros [= <- <-]. Qed.

Lemma put_and_check_rows k data same s r s' : (put_if_absent k data;; check_file same k) s = (r, s') → same_rows s s'.
Proof.
  unfold mbind, io_mbind. destruct (put_if_absent k data s) as [[[]|e] s1] eqn:Hp.
  - intros ->%check_file_rows. by eapply put_if_absent_rows.
  - intros [= <- <-]. by eapply put_if_absent_rows.
Qed.

Lemma preserve_rows m raw s r s' : _preserve_original_dxf m raw s = (r, s') → same_rows s s'.
Proof. unfold _preserve_original_dxf. destruct (_ || _); [by intros [= <- <-]|]. apply put_and_check_rows. Qed.

(** A transaction that keeps the invariant keeps it whatever happens to it. *)
Lemma may_fail_inv {A} x (op : upload_io A) s r s' :
  (∀ r s', op s = (r, s') → upload_inv s' ∧ quiet s s') → upload_inv s → may_fail x op s = (r, s') → upload_inv s' ∧ quiet s s'.
Proof.
  intros Hop Hinv. destruct x; simpl; [apply Hop|by intros [= <- <-]|]. unfold final. destruct (op s) as [r0 s0]. intros [= <- <-]. by eapply Hop.
Qed.

(** A reserved version of a drawing that cannot be read yet. *)
Lemma reserve_inv s r p : upload_inv s → ud_row s = Some r → ar_status r = Extracting → ¬ has_head p →
  (∀ n v, pg_versions p !! n = Some v → vr_state v ≠ Ready) → upload_inv (set_upload_pg p s) ∧ quiet s (set_upload_pg p s).
Proof.
  intros [I1 I2 I3 I4 I5] Hr Hst Hv Hn. split; [|by exists []]. pose proof (live_marker _ _ (I2 _ Hr) Hst) as Hm.
  split; simpl; [done|done| |by rewrite Hr|done]. rewrite Hr. intros r' [= <-]. destruct (I3 _ Hr) as [S1 S2 S3 S4]. split; simpl.
  - split; [done|]. intros [? _]. congruence.
  - done.
  - done.
  - by rewrite Hst.
Qed.

Lemma extracting_hidden s r : upload_inv s → ud_row s = Some r → ar_status r = Extracting → ¬ has_head (ud_pg s).
Proof.
  intros Hinv Hr Hst. rewrite (so_head _ _ (ui_shown _ Hinv _ Hr)). intros [Hm _]. rewrite (live_marker _ _ (ui_row _ Hinv _ Hr) Hst) in Hm. done.
Qed.

Lemma ingest_inv data attempt owner fence clk1 clk2 s x s' : _pg_ingest_guarded data attempt owner fence clk1 clk2 s = (x, s') → upload_inv s →
  upload_inv s' ∧ quiet s s'.
Proof.
  intros Hc Hinv. unfold _pg_ingest_guarded in Hc. destruct (ud_row s) as [r|] eqn:Hr; [|by injection Hc as <- <-].
  destruct (leases_extraction _ _ _ _ _) eqn:Hb; simpl in Hc; [|by injection Hc as <- <-].
  destruct (leases_extraction_inv _ _ _ _ _ _ Hinv Hr Hb) as (Ha & Hst & _). pose proof (extracting_hidden _ _ Hinv Hr Hst) as Hv.
  pose proof (so_hidden _ _ (ui_shown _ Hinv _ Hr) Hv) as Hn. destruct (pg_row (ud_pg s)) as [m|] eqn:Hm.
  - destruct (mr_head m) as [h|] eqn:Hh; destruct (pg_versions (ud_pg s) !! 1) as [v|] eqn:Hv1; try (by injection Hc as <- <-);
      (destruct (_ && _) eqn:Hchk; [|by injection Hc as <- <-]); [by injection Hc as <- <-|].
    destruct (leases_extraction _ _ _ clk2 _); injection Hc as <- <-; [|done]. eapply reserve_inv; try done; simpl.
    + intros (m' & h & [= <-] & ?). congruence.
    + intros n w. rewrite lookup_insert_Some. intros [[<- <-]|[_ Hw]]; [|by eapply Hn]. simpl. by apply (Hn 1).
  - unfold insert_version in Hc. simpl in Hc. destruct (pg_versions (ud_pg s) !! 1) eqn:Hv1; [by injection Hc as <- <-|].
    destruct (leases_extraction _ _ _ clk2 _); injection Hc as <- <-; [|done]. eapply reserve_inv; try done; simpl.
    + by intros (m' & h & [= <-] & ?).
    + intros n w. rewrite lookup_insert_Some. intros [[<- <-]|[_ Hw]]; [done|by eapply Hn].
Qed.

Lemma finalize_inv m owner fence k digest original clk1 clk2 s x s' : finalize_commit m owner fence k digest original clk1 clk2 s = (x, s') →
  um_status m = Shown → um_intake m = Some (k, digest) → upload_inv s → upload_inv s' ∧ quiet s s'.
Proof.
  intros Hc Hm Hi Hinv. unfold finalize_commit in Hc. destruct (ud_row s) as [r|] eqn:Hr; [|by injection Hc as <- <-].
  destruct (leases_extraction _ _ _ clk1 _); simpl in Hc; [|by injection Hc as <- <-].
  destruct (match original with Some _ => _ | None => _ end) as [r1 s1] eqn:Hp.
  assert (same_rows s s1) as Hs1 by (destruct original; [by eapply preserve_rows|by injection Hp as <- <-]). clear Hp.
  pose proof (same_rows_inv _ _ Hs1 Hinv) as Hinv1. assert (quiet s s1) as Hq1 by by apply same_rows_quiet.
  assert (ud_row s1 = Some r) as Hr1 by (destruct Hs1 as [-> _]; done).
  destruct r1 as [[]|e]; [|by injection Hc as <- <-].
  destruct (pg_versions _ !! 1) as [v|] eqn:Hv; [|by injection Hc as <- <-]. destruct (pg_row _) as [mf|] eqn:Hmf; [|by injection Hc as <- <-].
  destruct (_ && _) eqn:Hb; injection Hc as <- <-; [|done]. rewrite !andb_true_iff, !bool_decide_eq_true in Hb. destruct Hb as (((Hres & _) & _) & Hb).
  destruct (leases_extraction_inv _ _ _ _ _ _ Hinv1 Hr1 Hb) as (Ha & Hst & Hl). rewrite Hm.
  pose proof (ui_row _ Hinv1 _ Hr1) as Ho. pose proof (live_marker _ _ Ho Hst) as Hx. pose proof (not_ended _ _ Ho Hx) as Hne.
  split; [|etransitivity; [exact Hq1|by apply (quiet_one (EvEnded (um_attempt m) Shown (Some (owner, fence)) clk2))]].
  eapply moved_row; simpl; [exact Hinv1|reflexivity|reflexivity| | |split; simpl|done].
  - rewrite <- Ha in *. split_and!; [by left|by eapply row_begun|done|done].
  - destruct Ho as [O1 O2 O3 O4 O5 O6 O7 O8 O9 O10 O11].
    split; simpl; csimpl; [done|done|by auto|by auto| |done|by split; intros [? ?]|done| |by intros; apply O10; rewrite Hst|done].
    + intros st. rewrite elem_of_cons, O5, Ha, Hx, Hm. split; [|intros [-> _]; by left]. intros [[= ->]|[-> []]]; done.
    + rewrite O10 by (by rewrite Hst). split; [done|]. by intros [b ?].
  - rewrite Hm. split; [done|]. intros _. by eexists _, 1.
  - intros _. eexists. rewrite !lookup_insert_eq, Hi. by repeat split.
  - intros []. by eexists _, 1.
  - done.
Qed.

Lemma and_join (P Q R : Prop) : P ∧ Q → R → P ∧ Q ∧ R.
Proof. tauto. Qed.

(** Taking a purge or reset lease *)
Lemma purging_inv s r owner clk e b : upload_inv s → ud_row s = Some r → ar_status r ≠ Purged →
  purge_of (e :: ud_log s) = Some (ar_attempt r, ar_purge_fence r + 1, b) → purge_claims (e :: ud_log s) = (ar_purge_fence r + 1) :: purge_claims (ud_log s) →
  lease_of (e :: ud_log s) = lease_of (ud_log s) → begun [e] = [] → ended [e] = [] → claimed [e] = [] →
  (Forall (λ g, g < ar_purge_fence r + 1) (purge_claims (ud_log s)) → event_ok e (ud_log s)) →
  upload_inv (set_upload_row (purging_row owner clk r) [e] s) ∧ quiet s (set_upload_row (purging_row owner clk r) [e] s).
Proof.
  intros Hinv Hr Hst Hp Hc Hl Hb He Hcl Hok. split; [|by eapply quiet_one]. pose proof (ui_row _ Hinv _ Hr) as Ho. pose proof (ui_shown _ Hinv _ Hr) as Hs.
  assert (Forall (λ g, g < ar_purge_fence r + 1) (purge_claims (ud_log s))) as Hf by (eapply Forall_impl; [apply (ro_purge_fence _ _ Ho)|simpl; lia]).
  assert (∀ l, begun (e :: l) = begun l ∧ ended (e :: l) = ended l ∧ claimed (e :: l) = claimed l) as Hsame by (intros l; destruct e; done).
  eapply moved_row; simpl; [done|reflexivity|reflexivity|by apply Hok| |split; simpl|done].
  - destruct Ho as [O1 O2 O3 O4 O5 O6 O7 O8 O9 O10 O11]. destruct (Hsame (ud_log s)) as (E1 & E2 & E3).
    split; rewrite ?E1, ?E2, ?E3, ?Hc, ?Hl, ?Hp; simpl; [done|done|done|by auto|done|done|done|done| |done|].
    + split; [|done]. intros _. by exists b.
    + constructor; [lia|]. eapply Forall_impl; [exact Hf|simpl; lia].
  - rewrite (so_head _ _ Hs). split; intros [? _]; done.
  - apply (so_version _ _ Hs).
  - apply (so_hidden _ _ Hs).
  - done.
Qed.

Lemma purge_claim_inv owner now clk1 clk2 s c s' : purge_claim owner now clk1 clk2 s = (c, s') → upload_inv s →
  upload_inv s' ∧ quiet s s' ∧ ∀ a f, c = Some (a, f) → ∃ ret, EvPurging a f ret now clk1 ∈ ud_log s'.
Proof.
  intros Hc Hinv. unfold purge_claim in Hc. destruct (ud_row s) as [r|] eqn:Hr; [|by injection Hc as <- <-].
  destruct (_ || _) eqn:Hb; [by injection Hc as <- <-|]. rewrite !orb_false_iff, !andb_false_iff, !negb_false_iff, !bool_decide_eq_false in Hb.
  destruct Hb as [[[Hst Hdue] Hpurge] Hext]. destruct (ar_retention r) as [ret|] eqn:Hret; [|done]. simpl in *. injection Hc as <- <-.
  apply and_join; [|intros a f [= <- <-]; exists ret; simpl; by left]. pose proof (ui_row _ Hinv _ Hr) as Ho.
  apply (purging_inv s r owner clk2 _ false); try done. intros Hf. simpl. split_and!; [|lia| |done].
  - rewrite <- Hret. apply (ro_begun _ _ Ho).
  - destruct (decide (ar_status r = Purging)) as [E|E]; [right; right; apply (ro_purge _ _ Ho) in E as [b ->]; done|].
    destruct (ro_status _ _ Ho) as [E1|[E1|E1]]; [|done|done]. destruct Hext as [Hext|Hext]; [|right; left; by eapply lease_free_row].
    left. apply list_elem_of_fmap. exists (ar_attempt r, ar_status r). split; [done|]. apply (ro_ended _ _ Ho). by split.
Qed.

Lemma wipe_claim_inv attempt owner clk s c s' : wipe_claim attempt owner clk s = (c, s') → (attempt, Failed) ∈ ended (ud_log s) → upload_inv s →
  upload_inv s' ∧ quiet s s' ∧ ∀ f, c = Some f → EvResetting attempt f ∈ ud_log s'.
Proof.
  intros Hc Hend Hinv. unfold wipe_claim in Hc. destruct (ud_row s) as [r|] eqn:Hr; [|by injection Hc as <- <-].
  destruct (_ && _) eqn:Hb; [|by injection Hc as <- <-]. rewrite andb_true_iff, orb_true_iff, andb_true_iff, !bool_decide_eq_true in Hb.
  destruct Hb as [<- Hst]. injection Hc as <- <-. apply and_join; [|intros f [= <-]; simpl; by left].
  apply (purging_inv s r owner clk _ true); try done. destruct Hst as [?|[? _]]; congruence.
Qed.

(** What holds the purge lease is the purge or reset that took it. *)
Lemma holds_purge_inv s r owner fence : upload_inv s → ud_row s = Some r → holds_purge owner fence r = true →
  ar_status r = Purging ∧ ar_purge_fence r = fence ∧ ∃ b, purge_of (ud_log s) = Some (ar_attempt r, fence, b).
Proof.
  intros Hinv Hr Hb. unfold holds_purge in Hb. rewrite !andb_true_iff, !bool_decide_eq_true, Z.eqb_eq in Hb. destruct Hb as ((Hst & _) & <-).
  split_and!; [done|done|]. by apply (ro_purge _ _ (ui_row _ Hinv _ Hr)).
Qed.

Lemma purge_ended_row r l e st : row_ok r l → begun [e] = [] → ended [e] = [] → claimed [e] = [] → purge_claims [e] = [] → purge_of (e :: l) = None →
  lease_of (e :: l) = lease_of l → st = um_status (ar_marker r) ∨ st = Purged → row_ok (purge_ended st r) (e :: l).
Proof.
  intros [O1 O2 O3 O4 O5 O6 O7 O8 O9 O10 O11] Hb He Hcl Hpc Hp Hl Hst.
  assert (begun (e :: l) = begun l ∧ ended (e :: l) = ended l ∧ claimed (e :: l) = claimed l ∧ purge_claims (e :: l) = purge_claims l) as (E1 & E2 & E3 & E4) by (destruct e; done).
  split; rewrite ?E1, ?E2, ?E3, ?E4, ?Hl, ?Hp; simpl; try done; [tauto|]. split; [|by intros [b ?]]. intros ->. destruct Hst as [Hst|?]; [|done]. rewrite <- Hst in O3. by destruct O3 as [?|[?|?]].
Qed.

Lemma wipe_finish_inv attempt owner fence ok s b s' : wipe_finish attempt owner fence ok s = (b, s') → EvResetting attempt fence ∈ ud_log s →
  (attempt, Failed) ∈ ended (ud_log s) → upload_inv s → upload_inv s' ∧ quiet s s'.
Proof.
  intros Hc Hre Hend Hinv. unfold wipe_finish in Hc. destruct (ud_row s) as [r|] eqn:Hr; [|by injection Hc as <- <-].
  destruct (_ && _) eqn:Hb; injection Hc as <- <-; [|done]. apply andb_true_iff in Hb as [<-%bool_decide_eq_true Hb].
  destruct (holds_purge_inv _ _ _ _ Hinv Hr Hb) as (Hst & <- & b & Hp). pose proof (ui_row _ Hinv _ Hr) as Ho. pose proof (ui_shown _ Hinv _ Hr) as Hs.
  destruct (proj2 (purge_of_unique _ _ _ _ (ui_log _ Hinv) Hp) _ Hre) as [_ ->]. apply (ro_ended _ _ Ho) in Hend as [Hm _].
  assert (¬ has_head (ud_pg s)) as Hv by (rewrite (so_head _ _ Hs); intros [? _]; congruence).
  split; [|eapply (quiet_one (EvReset _ _)); [by destruct ok|done]].
  eapply (moved_row s _ (purge_ended Failed r) (EvReset (ar_attempt r) (ar_purge_fence r))); simpl; [done|by destruct ok|by destruct ok|done| | |by destruct ok].
  - apply purge_ended_row; try done. by left.
  - assert (¬ has_head pg_empty) as He by (by intros (? & ? & ? & _)). destruct ok; split; simpl; try (by intros ?%He || by intros ?%Hv); try done.
    + split; [done|]. intros [? _]. congruence.
    + split; [done|]. intros [? _]. congruence.
    + apply (so_hidden _ _ Hs).
Qed.

Lemma purge_finish_inv owner attempt fence deleted freed ret now clk s b s' : purge_finish owner attempt fence deleted freed s = (b, s') →
  EvPurging attempt fence ret now clk ∈ ud_log s → upload_inv s → upload_inv s' ∧ quiet s s'.
Proof.
  intros Hc Hpu Hinv. unfold purge_finish in Hc. destruct (ud_row s) as [r|] eqn:Hr; [|by injection Hc as <- <-].
  destruct (holds_purge _ _ _) eqn:Hb; injection Hc as <- <-; [|done].
  destruct (holds_purge_inv _ _ _ _ Hinv Hr Hb) as (Hst & <- & b & Hp). pose proof (ui_row _ Hinv _ Hr) as Ho. pose proof (ui_shown _ Hinv _ Hr) as Hs.
  destruct (proj1 (purge_of_unique _ _ _ _ (ui_log _ Hinv) Hp) _ _ _ _ Hpu) as [-> ->].
  assert (ud_receipts s !! (ar_attempt r, ar_purge_fence r) = None) as Hfree.
  { apply eq_None_not_Some. intros [x Hx]. apply (receipts_past _ _ _ _ (ar_attempt r) (pr_deleted x) (ui_log _ Hinv) Hp). by apply (ui_receipts _ Hinv). }
  unfold add_receipt. rewrite Hfree.
  assert (∀ d, row_ok (purge_ended (if d : bool then Purged else um_status (ar_marker r)) r) (EvReceipt (ar_attempt r) (ar_purge_fence r) d :: ud_log s)) as Hrow.
  { intros d. apply purge_ended_row; try done. destruct d; auto. }
  split; [|eapply (quiet_one (EvReceipt _ _ deleted)); [by destruct deleted|done]].
  destruct Hinv as [I1 I2 I3 I4 I5]. specialize (Hrow deleted). destruct deleted; split; simpl; try done.
  - intros r' [= <-]. done.
  - intros r' [= <-]. split; simpl.
    + split; [by intros (? & ? & ? & _)|by intros [_ []]].
    + by intros (? & ? & ? & _).
    + intros _ n v. by rewrite lookup_empty.
    + intros _. split_and!; [done|done|]. rewrite lookup_insert_eq. by eexists.
  - intros a f x. rewrite lookup_insert_Some. intros [[Heq <-]|[_ Hx]]; [injection Heq as <- <-; by left|]. right. by apply I5.
  - intros r' [= <-]. done.
  - intros r' [= <-]. assert (um_status (ar_marker r) ≠ Purged) as Hm by (destruct (ro_settled _ _ Ho) as [E|[E|E]]; rewrite E; done).
    split; simpl; [|apply (so_version _ _ Hs)|apply (so_hidden _ _ Hs)|done]. rewrite (so_head _ _ Hs). split; intros [E _]; (split; [done|congruence]).
  - intros a f x. rewrite lookup_insert_Some. intros [[Heq <-]|[_ Hx]]; [injection Heq as <- <-; by left|]. right. by apply I5.
Qed.

(** ** Requests at the same time *)

(** [secrets.token_hex(8)], drawn by request [i] for its attempt *)
Context (attempt_of : nat → string) `{!Inj (=) (=) attempt_of}.

(** Another transaction on the drawing's rows: it neither shows nor hides the drawing, makes
    nothing of no rows, keeps a first version that is ready, and readies none of a drawing
    that cannot be read.  [store_transactions] has those of [PgStore]. *)
Record store_call (f : pg → pg) : Prop := StoreCall {
  sc_head : ∀ p, has_head (f p) ↔ has_head p;
  sc_empty : f pg_empty = pg_empty;
  sc_ready : ∀ p v, pg_versions p !! 1 = Some v → vr_state v = Ready → ∃ v', pg_versions (f p) !! 1 = Some v' ∧ vr_state v' = Ready;
  sc_hidden : ∀ p, ¬ has_head p → (∀ n v, pg_versions p !! n = Some v → vr_state v ≠ Ready) → ∀ n v, pg_versions (f p) !! n = Some v → vr_state v ≠ Ready }.

Inductive upload_request : upload_handler → Prop :=
| rq_extraction x : upload_request (_run_extraction x)
| rq_status stale refused now clk : upload_request (status_view stale refused now clk)
| rq_guest u : upload_request (upload_guest attempt_of u)
| rq_account u : upload_request (upload_account attempt_of u)
| rq_purge x : upload_request (_purge_expired_postgres x)
| rq_store f : store_call f → upload_request (Act (λ _ s, (tt, set_upload_pg (f (ud_pg s)) s)) (λ _, Ret Stopped)).

Definition no_upload : updb := Updb None pg_empty ∅ ∅ ∅ ∅ [].
Definition uploads_reached (w : pool updb upload_reply) : Prop := star (pool_step upload_request) (Pool no_upload ∅) w.

Definition upload_rely (i : nat) (s s' : updb) : Prop := ∃ ev, ud_log s' = ev ++ ud_log s ∧ attempt_of i ∉ (begun ev).*1.
Definition unbegun (i : nat) (s : updb) : Prop := attempt_of i ∉ (begun (ud_log s)).*1.

#[local] Instance upload_rely_preorder i : PreOrder (upload_rely i).
Proof.
  split; [intros s; exists []; split; [done|apply not_elem_of_nil]|]. intros s1 s2 s3 (e1 & E1 & B1) (e2 & E2 & B2). exists (e2 ++ e1).
  rewrite E2, E1, (assoc_L (++)). split; [done|]. unfold begun in *. rewrite omap_app, fmap_app, elem_of_app. tauto.
Qed.

Lemma quiet_rely i s s' : quiet s s' → upload_rely i s s'.
Proof. intros (ev & E & B). exists ev. split; [done|]. rewrite B. apply not_elem_of_nil. Qed.

Lemma unbegun_stable i s s' : upload_rely i s s' → unbegun i s → unbegun i s'.
Proof. intros (ev & E & B) Hn. unfold unbegun, begun in *. rewrite E, omap_app, fmap_app, elem_of_app. tauto. Qed.

(** What the others do cannot undo [P]. *)
Definition lasting (i : nat) (P : updb → Prop) : Prop := ∀ s s', upload_rely i s s' → P s → P s'.

Lemma lasting_event i e : lasting i (λ s, e ∈ ud_log s).
Proof. intros s s' (ev & E & _) He. rewrite E, elem_of_app. by right. Qed.

Lemma lasting_ended i a st : lasting i (λ s, (a, st) ∈ ended (ud_log s)).
Proof. intros s s' (ev & E & _) He. unfold ended in *. rewrite E, omap_app, elem_of_app. by right. Qed.

Lemma lasting_and i P Q : lasting i P → lasting i Q → lasting i (λ s, P s ∧ Q s).
Proof. intros HP HQ s s' Hr [H1 H2]. eauto. Qed.

Lemma lasting_true i : lasting i (λ _, True).
Proof. by intros s s'. Qed.

Abbreviation ugd := (guarded upload_inv upload_rely (λ _ (_ : upload_reply) (_ : updb), True)).

(** [p] is safe from every state where [P] holds. *)
Definition holding (i : nat) (P : updb → Prop) (p : upload_handler) : Prop := ∀ s, P s → ugd i p s.

Lemma holding_ret i P r : holding i P (Ret r).
Proof. by intros s _ s' _ _. Qed.

Lemma holding_act {A} i P (P' : A → updb → Prop) (op : nat → updb → A * updb) k : lasting i P →
  (∀ s a s', op i s = (a, s') → upload_inv s → P s → upload_inv s' ∧ quiet s s' ∧ P' a s') →
  (∀ a, holding i (P' a) (k a)) → holding i P (Act op k).
Proof.
  intros Hlast Hop Hk s HP s' Hinv Hrely. destruct (op i s') as [a s2] eqn:Ho. destruct (Hop _ _ _ Ho Hinv (Hlast _ _ Hrely HP)) as (Hi & Hq & HP').
  split_and!; [done| |by apply Hk]. intros j _. by apply quiet_rely.
Qed.

(** The section changes nothing [P] speaks of. *)
Lemma holding_step {A} i P (op : nat → updb → A * updb) k : lasting i P →
  (∀ s a s', op i s = (a, s') → upload_inv s → upload_inv s' ∧ quiet s s') → (∀ a, holding i P (k a)) → holding i P (Act op k).
Proof.
  intros Hlast Hop Hk. apply (holding_act i P (λ _, P)); [done| |done]. intros s a s' Ho Hinv HP. destruct (Hop _ _ _ Ho Hinv) as [H1 H2]. split_and!; [done|done|].
  eapply Hlast; [by apply quiet_rely|done].
Qed.

Lemma holding_disk {A} i P (op : nat → updb → A * updb) k : lasting i P →
  (∀ s a s', op i s = (a, s') → same_rows s s') → (∀ a, holding i P (k a)) → holding i P (Act op k).
Proof.
  intros Hlast Hop. apply holding_step; [done|]. intros s a s' Ho Hinv. pose proof (Hop _ _ _ Ho). split; [by eapply same_rows_inv|by apply same_rows_quiet].
Qed.

Lemma holding_weaken i P Q p : (∀ s, P s → Q s) → holding i Q p → holding i P p.
Proof. intros HPQ Hp s HP. by apply Hp, HPQ. Qed.

(** ** The other transactions of the store *)

Definition applied {A} (op : tx A) (p : pg) : pg := match op p with Ok (_, p') => p' | Err _ => p end.

(** Rows that were there, with a head where there was one, what is ready kept, and nothing
    readied without a head *)
Definition row_step (p p' : pg) : Prop := ∃ m m', pg_row p = Some m ∧ pg_row p' = Some m' ∧ (is_Some (mr_head m') ↔ is_Some (mr_head m)) ∧
  (∀ v, pg_versions p !! 1 = Some v → vr_state v = Ready → pg_versions p' !! 1 = Some v) ∧
  (mr_head m = None → ∀ n v, pg_versions p' !! n = Some v → vr_state v = Ready → pg_versions p !! n = Some v).

Lemma store_call_applied {A} (op : tx A) : (∀ p a p', op p = Ok (a, p') → p' = p ∨ row_step p p') → store_call (applied op).
Proof.
  intros Hop. assert (∀ p, applied op p = p ∨ row_step p (applied op p)) as Happ.
  { intros p. unfold applied. destruct (op p) as [[a p']|e] eqn:E; [by eapply Hop|by left]. }
  split.
  - intros p. destruct (Happ p) as [->|(m & m' & Hm & Hm' & Hh & _)]; [done|]. unfold has_head. rewrite Hm, Hm'. split; intros (x & h & [= <-] & Hx).
    + destruct (proj1 Hh (ex_intro _ h Hx)) as [h' ?]. by exists m, h'.
    + destruct (proj2 Hh (ex_intro _ h Hx)) as [h' ?]. by exists m', h'.
  - by destruct (Happ pg_empty) as [->|(m & m' & ? & _)].
  - intros p v Hv Hr. exists v. destruct (Happ p) as [->|(m & m' & _ & _ & _ & Hk & _)]; auto.
  - intros p Hv Hn n v. destruct (Happ p) as [->|(m & m' & Hm & _ & _ & _ & Hk)]; [by apply Hn|]. intros Hv' Hr.
    destruct (mr_head m) as [h|] eqn:Hh; [destruct Hv; by exists m, h|]. by apply (Hn n v); [apply Hk|].
Qed.

Lemma with_row_step p m m' : pg_row p = Some m → (is_Some (mr_head m') ↔ is_Some (mr_head m)) → row_step p (with_row p m').
Proof. intros Hm Hh. by exists m, m'. Qed.

Lemma update_reserved_step p m m' n f : pg_row p = Some m → (is_Some (mr_head m') ↔ is_Some (mr_head m)) →
  (mr_head m = None → ∀ v, vr_state (f v) ≠ Ready) → row_step p (update_reserved (with_row p m') n f).
Proof.
  intros Hm Hh Hf. unfold update_reserved. simpl. destruct (pg_versions p !! n) as [v|] eqn:Hn; [|by apply with_row_step with m].
  case_bool_decide as Hr; [|by apply with_row_step with m]. exists m, m'. split_and!; [done|done|done| |]; simpl.
  - intros w Hw Hst. rewrite lookup_insert_ne; [done|]. intros E. subst n. congruence.
  - intros Hno k w. rewrite lookup_insert_Some. intros [[<- <-]|[_ Hw]]; [|done]. intros Hst. by destruct (Hf Hno v).
Qed.

(** [reserve] of [_pg_put] once it has passed its checks *)
Lemma reserve_new_step p m h v parent (k : result Backend.store_error string) (row : string → vrow) (rs : string → reservation) (r : put_reserved) p' :
  pg_row p = Some m → mr_head m = Some h →
  (if negb (bool_decide (parent = Some h)) then Err Backend.EStaleParent else
   k' ← k; p1 ← insert_version (with_row p (MRow (mr_head m) v (mr_checkout m) (mr_fence m))) v (row k'); Ok (PNew (rs k'), p1)) = Ok (r, p') → row_step p p'.
Proof.
  intros Hm Hh. case_bool_decide; simpl; [|done]. intros (k' & _ & E)%result_bind_Ok. apply result_bind_Ok in E as (p1 & Hi & E). injection E as <- <-.
  unfold insert_version in Hi. simpl in Hi. destruct (pg_versions p !! v) eqn:Hfree; [done|]. injection Hi as <-. eexists m, _. split_and!; [done|reflexivity|done| |]; simpl.
  - intros w Hw _. rewrite lookup_insert_ne; [done|]. intros E. subst v. congruence.
  - by rewrite Hh.
Qed.

Lemma store_transactions :
  (∀ holder ttl expected strict now dbnow, store_call (applied (pg_acquire holder ttl expected strict now dbnow))) ∧
  (∀ holder expected now, store_call (applied (pg_release holder expected now))) ∧
  (∀ bundle holder fence now, store_call (applied (pg_undo bundle holder fence now))) ∧
  (∀ bundle holder fence now, store_call (applied (pg_redo bundle holder fence now))) ∧
  (∀ t d bytes digest parent meta holder fence is_bundle now now' dbnow,
     store_call (applied (pg_put_reserve t d bytes digest parent meta holder fence is_bundle now now' dbnow))) ∧
  (∀ rs note dbnow, store_call (applied (pg_put_finalize rs note dbnow))).
Proof.
  split_and!; intros *; apply store_call_applied; intros p a p' E.
  - unfold pg_acquire in E. do 2 (case_match; [done|]). apply result_bind_Ok in E as (m & Hm%from_opt_Ok & E).
    destruct (if pg_active _ _ then _ else true); injection E as <- <-; [right; by apply with_row_step with m|by left].
  - apply result_bind_Ok in E as (m & Hm%from_opt_Ok & E). destruct (mr_checkout m); [|injection E as <- <-; by left].
    destruct (if now <? _ then _ else false); injection E as <- <-; [by left|right; by apply with_row_step with m].
  - apply result_bind_Ok in E as (m & Hm%from_opt_Ok & E). apply result_bind_Ok in E as (h & Hh%from_opt_Ok & E). repeat (apply result_bind_Ok in E as (? & _ & E)).
    injection E as <- <-. right. apply with_row_step with m; [done|]. rewrite Hh. by split.
  - apply result_bind_Ok in E as (m & Hm%from_opt_Ok & E). apply result_bind_Ok in E as (h & Hh%from_opt_Ok & E). apply result_bind_Ok in E as (? & _ & E).
    cbv zeta in E. destruct (h =? _); [done|]. destruct (DrawingStore.redo_walk _ _ _ _ _) as [[target|]|]; [|done|done]. apply result_bind_Ok in E as (? & _ & E). injection E as <- <-. right. apply with_row_step with m; [done|]. rewrite Hh. by split.
  - apply result_bind_Ok in E as (m & Hm%from_opt_Ok & E). apply result_bind_Ok in E as (h & Hh%from_opt_Ok & E). apply result_bind_Ok in E as (l & Hl%from_opt_Ok & E).
    destruct (pl_expires l <=? now); [done|]. apply result_bind_Ok in E as (? & _ & E). cbv zeta in E.
    destruct is_bundle; [|right; exact (reserve_new_step p m h (mr_latest m + 1) parent _ _ _ a p' Hm Hh E)]. destruct (find_apply _ _) as [[v row]|]; [|right; exact (reserve_new_step p m h (mr_latest m + 1) parent _ _ _ a p' Hm Hh E)].
    case_bool_decide; [|done]. injection E as <- <-. by left.
  - unfold pg_put_finalize in E. destruct (pg_row p) as [m|] eqn:Hm; [|injection E as <- <-; by left]. right. destruct (_ && _) eqn:Hb; injection E as <- <-.
    + rewrite !andb_true_iff, bool_decide_eq_true in Hb. destruct Hb as [[[Hh _] _] _]. apply update_reserved_step with m; [done|by rewrite Hh; split|]. rewrite Hh. done.
    + assert (update_reserved p (rs_version rs) (λ row, set_state row Orphaned (vr_note row)) = update_reserved (with_row p m) (rs_version rs) (λ row, set_state row Orphaned (vr_note row))) as ->.
      { by destruct p; simpl in *; subst. }
      by apply update_reserved_step with m.
Qed.

(** ** The handlers are safe *)

Create HintDb uploads.
#[local] Hint Resolve holding_ret lasting_true lasting_event lasting_ended lasting_and unbegun_stable : uploads.
#[local] Hint Extern 1 (lasting _ (unbegun _)) => exact (unbegun_stable _) : uploads.

(** A section that reads, or that writes files only *)
Ltac reading :=
  apply holding_disk; [by auto with uploads|intros ? ? ? [= <- <-]; by repeat split|intros ?].

Lemma fail_with_holding i P x m lease e : lasting i P → holding i P (fail_with x m lease e).
Proof. intros HP. apply holding_step; [done| |auto with uploads]. intros *. apply mark_failed_inv. Qed.

Lemma commit_failed_holding i P x m owner fence e : lasting i P → holding i P (commit_failed x m owner fence e).
Proof.
  intros HP. destruct e; simpl; try by apply fail_with_holding. reading. case_bool_decide; [by auto with uploads|].
  apply holding_step; [done| |auto with uploads]. intros *. apply release_inv.
Qed.

Lemma may_fail_holding {A} i P z (op : upload_io A) k : lasting i P →
  (∀ s r s', op s = (r, s') → upload_inv s → upload_inv s' ∧ quiet s s') → (∀ r, holding i P (k r)) → holding i P (Act (λ _, may_fail z op) k).
Proof. intros HP Hop Hk. apply holding_step; [done| |done]. intros s a s' Ho Hinv. eapply may_fail_inv; [|done|exact Ho]. intros r s1 H1. by eapply Hop. Qed.

Lemma rows_op {A} (op : upload_io A) : (∀ s r s', op s = (r, s') → same_rows s s') → ∀ s r s', op s = (r, s') → upload_inv s → upload_inv s' ∧ quiet s s'.
Proof. intros Hop s r s' Ho Hinv. pose proof (Hop _ _ _ Ho). split; [by eapply same_rows_inv|by apply same_rows_quiet]. Qed.

Lemma finalize_holding i P x m owner fence k data original failed : lasting i P → (∀ e, holding i P (failed e)) →
  holding i P (_finalize_pg_ready_attempt x m owner fence k data original failed).
Proof.
  intros HP Hf. unfold _finalize_pg_ready_attempt. destruct (_ && _) eqn:Hb; simpl; [|by apply Hf]. rewrite andb_true_iff, !bool_decide_eq_true in Hb. destruct Hb as [Hm Hi].
  apply may_fail_holding; [done|apply rows_op, put_if_absent_rows|intros [[]|e]; [|apply Hf]].
  apply may_fail_holding; [done| |intros [[]|e]; [|apply Hf]].
  { apply rows_op. by intros ? ? ? ->%check_file_rows. }
  apply may_fail_holding; [done| |intros [[]|e]; [|apply Hf]].
  { intros s r s' Ho. by eapply finalize_inv. }
  reading. auto with uploads.
Qed.

Lemma ingest_holding i P x m owner fence intake data : lasting i P → holding i P (ingest_and_finalize x m owner fence intake data).
Proof.
  intros HP. pose proof (λ e, commit_failed_holding i P x m owner fence e HP) as Hf. unfold ingest_and_finalize.
  apply may_fail_holding; [done|intros *; apply ingest_inv|intros [[]|e]; [|done]].
  apply may_fail_holding; [done|apply rows_op; intros *; apply put_and_check_rows|intros [[]|e]; [|done]].
  destruct (_ && _); [|by apply finalize_holding]. reading. destruct a as [_|e]; [|done].
  reading. destruct a as [raw|]; [by apply finalize_holding|done].
Qed.

Lemma commit_holding i P x m owner fence intake : lasting i P → holding i P (extraction_commit x m owner fence intake).
Proof.
  intros HP. unfold extraction_commit. case_bool_decide; [|by apply ingest_holding]. reading.
  destruct a as [data|]; [by apply ingest_holding|by apply commit_failed_holding].
Qed.

Lemma extraction_holding i x : holding i (λ _, True) (_run_extraction x).
Proof.
  unfold _run_extraction. destruct (xr_refused x 0); [auto with uploads|]. apply holding_step; [auto with uploads|intros *; apply claim_inv|].
  intros [[[m owner] fence]|]; [|auto with uploads]. reading. destruct a as [data|e]; [|apply fail_with_holding; auto with uploads].
  destruct (xr_extract x m data); [|apply fail_with_holding; auto with uploads]. destruct (xr_refused x 1); [auto with uploads|]. reading.
  destruct a0 as [cur|]; [|auto with uploads]. destruct (_ && _); [|auto with uploads]. apply commit_holding. auto with uploads.
Qed.

Lemma status_holding i stale refused now clk : holding i (λ _, True) (status_view stale refused now clk).
Proof.
  unfold status_view. reading. destruct a as [m|]; [|auto with uploads]. destruct (_ && _); [|auto with uploads].
  apply holding_step; [auto with uploads|intros *; apply mark_failed_inv|]. intros []; [auto with uploads|]. reading. auto with uploads.
Qed.

Lemma wipe_holding i P x attempt k : lasting i P → (∀ b, holding i P (k b)) →
  holding i (λ s, P s ∧ (attempt, Failed) ∈ ended (ud_log s)) (wipe_failed_attempt_residue x attempt k).
Proof.
  intros HP Hk. assert (∀ b, holding i (λ s, P s ∧ (attempt, Failed) ∈ ended (ud_log s)) (k b)) as Hk' by (intros b; by eapply holding_weaken; [|apply Hk]; intros s [? _]).
  unfold wipe_failed_attempt_residue. destruct (_ || _); [by apply Hk'|].
  apply (holding_act i _ (λ c s, (P s ∧ (attempt, Failed) ∈ ended (ud_log s)) ∧ ∀ f, c = Some f → EvResetting attempt f ∈ ud_log s)); [auto with uploads| |].
  - intros s c s' Hc Hinv [HPs He]. destruct (wipe_claim_inv _ _ _ _ _ _ Hc He Hinv) as (H1 & H2 & H3). pose proof (quiet_rely i _ _ H2) as Hr.
    split_and!; [done|done|by eapply HP|by eapply lasting_ended|done].
  - intros [fence|]; [|eapply holding_weaken; [|apply Hk']; by intros s [? _]].
    eapply (holding_weaken i _ (λ s, (P s ∧ (attempt, Failed) ∈ ended (ud_log s)) ∧ EvResetting attempt fence ∈ ud_log s)); [naive_solver|].
    do 2 reading. apply (holding_act i _ (λ _, P)); [auto with uploads| |done]. intros s b s' Hc Hinv [[HPs He] Hre].
    destruct (wipe_finish_inv _ _ _ _ _ _ _ Hc Hre He Hinv) as [H1 H2]. split_and!; [done|done|]. eapply HP; [by apply quiet_rely|done].
Qed.

Lemma unbegun_lasting i : lasting i (unbegun i).
Proof. intros s s'. apply unbegun_stable. Qed.
#[local] Hint Resolve unbegun_lasting : uploads.

(** The one section that begins an attempt: its own. *)
Lemma reserve_holding i kind u lost : holding i (λ _, True) lost → holding i (unbegun i) (reserve_upload attempt_of kind u lost).
Proof.
  intros Hlost s Hs s' Hinv Hrely. pose proof (unbegun_stable _ _ _ Hrely Hs) as Hs'.
  destruct (write_marker _ s') as [r s2] eqn:Hw. destruct (write_marker_inv _ _ _ _ Hw eq_refl Hs' Hinv) as [Hi Hl]. split_and!; [done| |].
  - intros j Hj. destruct Hl as [->|Hl]; [reflexivity|]. eexists [_]. split; [exact Hl|]. simpl. intros Hin%list_elem_of_singleton. by apply (inj attempt_of) in Hin.
  - destruct r as [[]|e]; [|by apply Hlost]. assert (holding i (λ _, True)
      (Act (λ _ s, (tt, put_file marker_object sentinel s)) (λ _ : unit, Act (λ _ s, (tt, stage (ur_ext u) (ur_data u) s)) (λ _ : unit, Ret Accepted)))) as Hk.
    { do 2 reading. apply holding_ret. }
    by apply Hk.
Qed.

Lemma lost_holding i : holding i (λ _, True) (Act (λ _ s, (read_marker s, s)) (λ w, Ret (match w with Some m => Receipt m | None => TryAgain end))).
Proof. reading. apply holding_ret. Qed.

Lemma read_failed s m : upload_inv s → read_marker s = Some m → um_status m = Failed → (um_attempt m, Failed) ∈ ended (ud_log s).
Proof.
  intros Hinv (r & Hr & Hm)%bind_Some Hst. case_bool_decide; [done|]. injection Hm as <-. pose proof (ui_row _ Hinv _ Hr) as Ho.
  rewrite (ro_attempt _ _ Ho). apply (ro_ended _ _ Ho). by rewrite Hst.
Qed.

Lemma guest_holding i u : holding i (unbegun i) (upload_guest attempt_of u).
Proof.
  assert (holding i (unbegun i) (Act (λ _ s, (has_manifest s, s)) (λ there, if there : bool then Ret Elsewhere else
    reserve_upload attempt_of "guest" u (Act (λ _ s, (read_marker s, s)) (λ w, Ret (match w with Some m => Receipt m | None => TryAgain end)))))) as Hres.
  { reading. destruct a; [apply holding_ret|]. apply reserve_holding, lost_holding. }
  apply (holding_act i _ (λ e s, unbegun i s ∧ ∀ m, e = Some m → um_status m = Failed → (um_attempt m, Failed) ∈ ended (ud_log s))); [auto with uploads| |].
  - intros s e s' [= <- <-] Hinv Hs. split_and!; [done|done|done|]. intros m Hm. by apply read_failed.
  - intros [m|].
    + case_bool_decide as Hm; [|apply holding_ret].
      apply (holding_weaken i _ (λ s, unbegun i s ∧ (um_attempt m, Failed) ∈ ended (ud_log s))); [naive_solver|]. reading.
      destruct a; [destruct (ur_over_cap u); [apply holding_ret|]|]; apply wipe_holding; auto with uploads; intros []; auto with uploads.
      destruct (ur_over_cap u); auto with uploads.
    + apply (holding_weaken i _ (unbegun i)); [by intros s [? _]|]. destruct (ur_over_cap u); [apply holding_ret|apply Hres].
Qed.

Lemma account_holding i u : holding i (unbegun i) (upload_account attempt_of u).
Proof.
  unfold upload_account. reading. destruct a; [apply holding_ret|]. reading. destruct a as [m|]; [apply holding_ret|]. apply reserve_holding, holding_ret.
Qed.

Lemma purge_holding i x : holding i (λ _, True) (_purge_expired_postgres x).
Proof.
  unfold _purge_expired_postgres. reading. destruct a; simpl; [|apply holding_ret].
  apply (holding_act i _ (λ c s, ∀ a f, c = Some (a, f) → ∃ ret, EvPurging a f ret (pu_now x) (pu_clk x 1) ∈ ud_log s)); [auto with uploads| |].
  - intros s c s' Hc Hinv _. by eapply purge_claim_inv.
  - intros [[a f]|]; [|apply holding_ret].
    assert (lasting i (λ s, ∃ ret, EvPurging a f ret (pu_now x) (pu_clk x 1) ∈ ud_log s)) as Hl by (intros s s' Hr [ret He]; exists ret; by eapply lasting_event).
    apply (holding_weaken i _ (λ s, ∃ ret, EvPurging a f ret (pu_now x) (pu_clk x 1) ∈ ud_log s)); [naive_solver|].
    do 2 reading. apply holding_disk; [done|intros s z s' [= <- <-]; by destruct (_ && _)|intros _]. reading.
    apply (holding_act i _ (λ _ _, True)); [done| |intros; apply holding_ret]. intros s b s' Hc Hinv [ret He].
    destruct (purge_finish_inv _ _ _ _ _ _ _ _ _ _ _ Hc He Hinv). done.
Qed.

Lemma store_call_inv f s : store_call f → upload_inv s → upload_inv (set_upload_pg (f (ud_pg s)) s).
Proof.
  intros [F1 F2 F3 F4] [I1 I2 I3 I4 I5]. split; simpl; [done|done| | |done].
  - intros r Hr. destruct (I3 r Hr) as [S1 S2 S3 S4]. split; simpl; rewrite ?F1.
    + done.
    + intros Hv. destruct (S2 Hv) as (v & Hv1 & Hst & Hrest). destruct (F3 _ _ Hv1 Hst) as (v' & ? & ?). by exists v'.
    + intros Hv. by apply F4, S3.
    + intros Hp. destruct (S4 Hp) as (-> & ? & ?). by rewrite F2.
  - intros Hr. destruct (I4 Hr) as [-> ->]. by rewrite F2.
Qed.

Lemma request_guarded i p s : upload_request p → upload_inv s → unbegun i s → ugd i p s.
Proof.
  intros [x|stale refused now clk|u|u|x|f Hf] _ Hn.
  - by apply extraction_holding.
  - by apply status_holding.
  - by apply guest_holding.
  - by apply account_holding.
  - by apply purge_holding.
  - apply (holding_step i (λ _, True)); [done| |intros; apply holding_ret|done]. intros s1 a s2 [= <- <-] Hinv. split; [by apply store_call_inv|by exists []].
Qed.

Lemma no_upload_inv : upload_inv no_upload.
Proof. by split. Qed.

Lemma uploads_ok w : uploads_reached w → upload_inv (shared w).
Proof.
  intros Hw. refine (proj1 (guarded_sound upload_inv upload_rely _ unbegun (λ _ _ _, True) _ upload_request _ w _ Hw _)).
  - intros i s s'. apply unbegun_stable.
  - intros i p s. apply request_guarded.
  - split_and!; [apply no_upload_inv|done|]. intros i _. apply not_elem_of_nil.
Qed.

(** ** What holds of every run *)

(** (C29) Whatever interleaves and fails, the manifest row of the drawing has a head exactly
    when the marker that is served says ready; then the row of its first version is ready
    and carries the intake proof of the marker.  This is about the rows of the database:
    the stored bytes can be gone ([late_reset_deletes_ready_bytes], or a purge under way
    that has deleted the files and not yet its rows). *)
Theorem upload_has_head_iff_ready w : uploads_reached w →
  (has_head (ud_pg (shared w)) ↔ ∃ m, read_marker (shared w) = Some m ∧ um_status m = Shown) ∧
  ∀ m, read_marker (shared w) = Some m → um_status m = Shown →
    ∃ v proof, pg_versions (ud_pg (shared w)) !! 1 = Some v ∧ vr_state v = Ready ∧ um_intake m = Some proof ∧ ud_intake (shared w) !! 1 = Some proof.
Proof.
  intros Hinv%uploads_ok. unfold read_marker. destruct (ud_row (shared w)) as [r|] eqn:Hr; simpl.
  - destruct (ui_shown _ Hinv _ Hr) as [S1 S2 _ _]. rewrite S1. case_bool_decide as Hp.
    + split; [|done]. split; [by intros [_ []]|by intros (m & ? & _)].
    + split; [naive_solver|]. intros m [= <-] Hm. destruct S2 as (v & Hv & Hst & Hi & proof & Hproof); [by apply S1|]. exists v, proof. split_and!; congruence.
  - split; [|done]. destruct (ui_none _ Hinv Hr) as [_ ->]. split; [by intros (? & ? & ? & _)|by intros (m & ? & _)].
Qed.

Lemma log_ok_split l1 e l2 : log_ok (l1 ++ e :: l2) → event_ok e l2 ∧ log_ok l2.
Proof. induction l1 as [|e1 l1 IH]; simpl; [done|]. intros [_ Hl]. auto. Qed.

Lemma ended_once l : log_ok l → NoDup (ended l).*1.
Proof.
  induction l as [|e l IH]; [constructor|]. intros [He Hl]. destruct e as [| | |a st [[o f]|] clk| | | |]; csimpl; auto; constructor; auto; simpl in He; tauto.
Qed.

(** (C38) An attempt ends once: as ready or failed, and nothing else, by the worker that claimed
    it last, while its lease runs, or as failed when nobody holds a lease that runs. *)
Theorem upload_ends_once w : uploads_reached w → NoDup (ended (ud_log (shared w))).*1 ∧
  ∀ l1 a st lease clk l2, ud_log (shared w) = l1 ++ EvEnded a st lease clk :: l2 →
    match lease with
    | Some (o, f) => (st = Shown ∨ st = Failed) ∧ ∃ e, lease_of l2 = Some (a, o, f, e) ∧ clk < e
    | None => st = Failed ∧ lease_free l2 clk
    end.
Proof.
  intros Hinv%uploads_ok. pose proof (ui_log _ Hinv) as Hl. split; [by apply ended_once|]. intros l1 a st lease clk l2 E. rewrite E in Hl.
  apply log_ok_split in Hl as [He _]. destruct lease as [[o f]|]; simpl in He; tauto.
Qed.

Lemma purge_of_event l a f : log_ok l → purge_of l = Some (a, f, false) → ∃ ret now clk l1 l2, l = l1 ++ EvPurging a f ret now clk :: l2.
Proof.
  induction l as [|e l IH]; [done|]. intros [He Hl] Hp.
  destruct e; simpl in Hp; try done; try (destruct (IH Hl Hp) as (ret' & now' & clk' & l1 & l2 & ->); by eexists _, _, _, (_ :: l1), l2).
  injection Hp as -> ->. by eexists _, _, _, [], l.
Qed.

(** A receipt was written under a purge lease, which was taken when the retention stamped
    at the upload was due, and no extraction of the attempt held a lease that ran (or an
    earlier purge was under way). *)
Theorem purged_only_when_due w a f x : uploads_reached w → ud_receipts (shared w) !! (a, f) = Some x →
  ∃ ret now clk l1 l2, ud_log (shared w) = l1 ++ EvPurging a f ret now clk :: l2 ∧ (a, Some ret) ∈ begun l2 ∧ ret <= now ∧
    (a ∈ (ended l2).*1 ∨ lease_free l2 clk ∨ is_Some (purge_of l2)).
Proof.
  intros Hinv%uploads_ok (l1 & l2 & E)%(ui_receipts _ Hinv)%list_elem_of_split. pose proof (ui_log _ Hinv) as Hl. rewrite E in Hl |- *.
  apply log_ok_split in Hl as [He Hl]. destruct (purge_of_event _ _ _ Hl He) as (ret & now & clk & l3 & l4 & ->). apply log_ok_split in Hl as [(H1 & H2 & H3 & _) _].
  exists ret, now, clk, (l1 ++ EvReceipt a f (pr_deleted x) :: l3), l4. split_and!; [by rewrite <- (assoc_L (++))|done|done|done].
Qed.

(** A purged upload has a receipt that it was deleted, no rows of the drawing are left,
    and no marker is served. *)
Theorem purged_upload_is_gone w r : uploads_reached w → ud_row (shared w) = Some r → ar_status r = Purged →
  ud_pg (shared w) = pg_empty ∧ ud_intake (shared w) = ∅ ∧ read_marker (shared w) = None ∧
  ∃ x, ud_receipts (shared w) !! (ar_attempt r, ar_purge_fence r) = Some x ∧ pr_deleted x = true.
Proof.
  intros Hinv%uploads_ok Hr Hp. destruct (so_purged _ _ (ui_shown _ Hinv _ Hr) Hp) as (H1 & H2 & H3). split_and!; [done|done| |done].
  unfold read_marker. rewrite Hr. simpl. by rewrite bool_decide_eq_true_2.
Qed.

(** The fences of extraction leases, and those of purge leases, strictly increase. *)
Theorem upload_fences_increase w : uploads_reached w →
  StronglySorted Z.gt (claimed (ud_log (shared w))) ∧ StronglySorted Z.gt (purge_claims (ud_log (shared w))).
Proof.
  intros Hinv%uploads_ok. pose proof (ui_log _ Hinv) as Hl. induction (ud_log (shared w)) as [|e l IH]; [split; constructor|]. destruct Hl as [He Hl]. destruct (IH Hl) as [S1 S2].
  destruct e; csimpl; split; auto; constructor; auto; simpl in He; (eapply Forall_impl; [apply He|simpl; lia]).
Qed.

End uploads.

(** ** Runs *)

#[local] Instance upload_runtime : Runtime :=
  {| sha256_hex := λ s, s; repr := λ _, EmptyString; token_hex := λ n, of_chars (replicate (S n) "a"%char); token_supply := 0 |}.
#[local] Instance upload_drawing : Drawing := {| tid := "guest-1"; did := "u-1" |}.

Definition demo_attempt (i : nat) : string := of_chars (replicate (S i) "a"%char).

#[local] Instance demo_attempt_inj : Inj (=) (=) demo_attempt.
Proof. intros i j H%(f_equal chars). unfold demo_attempt in H. rewrite !chars_of_chars in H. apply (f_equal length) in H. rewrite !length_replicate in H. lia. Qed.

Definition demo_wipe (clk : instant) : wipe_run := WipeRun "resetter" clk false (λ _, false) false.
Definition demo_upload (now : instant) (clk : instant) : upload_handler :=
  upload_guest demo_attempt (UploadRun now (100 * minute) "plan.dxf" ".dxf" None "DXF" false (demo_wipe clk)).
(** An extraction leased for ten minutes *)
Definition demo_extract (now : instant) (ok : bool) : upload_handler :=
  _run_extraction (ExtractionRun "worker" ".dxf" (10 * minute) now (λ _, now + minute)
    (λ _ _, if ok then Ok "INTAKE"%string else Err (UploadFailure "BAD_PARAMS" "not a drawing" false)) (λ x, x) "" (λ _, false) (λ _, Fine)).
Definition demo_purge (now : instant) : upload_handler := _purge_expired_postgres (PurgeRun "sweeper" now (λ _, now) (λ _, false) false false).

Definition uploads_empty : pool updb upload_reply := Pool no_upload ∅.

(** An upload is extracted and, when its window is over, purged. *)
Definition shown_run := serve_all 0 [demo_upload 0 0; demo_extract 0 true] uploads_empty.
Definition purged_run := serve_all 2 [demo_purge (100 * minute)] shown_run.

Lemma shown_run_reached : uploads_reached demo_attempt shown_run.
Proof. apply serve_all_reaches. repeat constructor. Qed.

Lemma purged_run_reached : uploads_reached demo_attempt purged_run.
Proof. eapply star_trans; [apply shown_run_reached|]. apply serve_all_reaches. repeat constructor. Qed.

Lemma shown_run_marker : um_status <$> read_marker (shared shown_run) = Some Shown.
Proof. vm_compute. reflexivity. Qed.

Lemma upload_has_head_iff_ready_witness :
  has_head (ud_pg (shared shown_run)) ↔ ∃ m, read_marker (shared shown_run) = Some m ∧ um_status m = Shown.
Proof. exact (proj1 (upload_has_head_iff_ready demo_attempt shown_run shown_run_reached)). Defined.

Lemma upload_ends_once_witness : ended (ud_log (shared purged_run)) = [(demo_attempt 0, Shown)] ∧ NoDup (ended (ud_log (shared purged_run))).*1.
Proof. split; [vm_compute; reflexivity|]. exact (proj1 (upload_ends_once demo_attempt purged_run purged_run_reached)). Defined.

Lemma purged_only_when_due_witness : ∃ ret now clk l1 l2, ud_log (shared purged_run) = l1 ++ EvPurging (demo_attempt 0) 1 ret now clk :: l2 ∧
  (demo_attempt 0, Some ret) ∈ begun l2 ∧ ret <= now ∧ (demo_attempt 0 ∈ (ended l2).*1 ∨ lease_free l2 clk ∨ is_Some (purge_of l2)).
Proof. apply (purged_only_when_due demo_attempt purged_run _ _ (PurgeReceipt true 39) purged_run_reached). vm_compute. reflexivity. Defined.

Lemma purged_upload_is_gone_witness : ud_pg (shared purged_run) = pg_empty ∧ ud_intake (shared purged_run) = ∅ ∧ read_marker (shared purged_run) = None ∧
  ∃ x, ud_receipts (shared purged_run) !! (demo_attempt 0, 1) = Some x ∧ pr_deleted x = true.
Proof.
  destruct (ud_row (shared purged_run)) as [r|] eqn:Hr; [|exfalso; vm_compute in Hr; discriminate]. assert (ar_attempt r = demo_attempt 0 ∧ ar_purge_fence r = 1 ∧ ar_status r = Purged) as (<- & <- & Hp).
  { vm_compute in Hr. injection Hr as <-. vm_compute. repeat split; reflexivity. }
  exact (purged_upload_is_gone demo_attempt purged_run r purged_run_reached Hr Hp).
Defined.

Lemma upload_fences_increase_witness : claimed (ud_log (shared purged_run)) = [1] ∧ StronglySorted Z.gt (claimed (ud_log (shared purged_run))).
Proof. split; [vm_compute; reflexivity|]. exact (proj1 (upload_fences_increase demo_attempt purged_run purged_run_reached)). Defined.

(** A worker stalls between its reservation and the version's bytes; the upload is purged
    and receipted; the worker wakes. *)
Definition resurrected : pool updb upload_reply :=
  run_section 1 (serve 2 (demo_purge (100 * minute)) (Nat.iter 4 (run_section 1) (arrive 1 (demo_extract (85 * minute) true) (serve 0 (demo_upload 0 0) uploads_empty)))).

Lemma resurrected_reached : uploads_reached demo_attempt resurrected.
Proof.
  unfold resurrected. eapply star_trans; [|apply run_section_reaches]. eapply star_trans; [|by apply serve_reaches; constructor].
  eapply star_trans; [|apply (sections_reach _ 4)]. eapply star_trans; [|by apply arrive_reaches; constructor]. by apply serve_reaches; constructor.
Qed.

(** The drawing's bytes are back on the disk behind a receipt that says they were deleted,
    and no later sweep selects the drawing. *)
Theorem purged_bytes_return : uploads_reached demo_attempt resurrected ∧ ud_files (shared resurrected) !! version_object = Some "INTAKE"%string ∧
  pr_deleted <$> ud_receipts (shared resurrected) !! (demo_attempt 0, 1) = Some true ∧ ∀ now clk, purge_candidate now clk (shared resurrected) = false.
Proof. split_and!; [apply resurrected_reached|vm_compute; reflexivity|vm_compute; reflexivity|]. intros now clk. vm_compute. reflexivity. Qed.

(** An upload failed.  Its retry stalls before it deletes the residue, for longer than its
    lease; another retry resets, uploads and is extracted; the first retry wakes. *)
Definition two_retries : pool updb upload_reply :=
  run_section 2 (serve 4 (demo_extract (10 * minute) true) (Nat.iter 10 (run_section 3) (arrive 3 (demo_upload (10 * minute) (10 * minute))
    (Nat.iter 3 (run_section 2) (arrive 2 (demo_upload 0 0) (serve_all 0 [demo_upload 0 0; demo_extract 0 false] uploads_empty)))))).

Lemma two_retries_reached : uploads_reached demo_attempt two_retries.
Proof.
  unfold two_retries. eapply star_trans; [|apply run_section_reaches]. eapply star_trans; [|by apply serve_reaches; constructor].
  eapply star_trans; [|apply (sections_reach _ 10)]. eapply star_trans; [|by apply arrive_reaches; constructor].
  eapply star_trans; [|apply (sections_reach _ 3)]. eapply star_trans; [|by apply arrive_reaches; constructor]. apply serve_all_reaches. by repeat constructor.
Qed.

(** The upload is served as ready, and the bytes of its version and of its intake are gone. *)
Theorem late_reset_deletes_ready_bytes : uploads_reached demo_attempt two_retries ∧ um_status <$> read_marker (shared two_retries) = Some Shown ∧
  has_head (ud_pg (shared two_retries)) ∧ ud_files (shared two_retries) !! version_object = None ∧ ud_files (shared two_retries) !! intake_object = None.
Proof.
  split_and!; [apply two_retries_reached|vm_compute; reflexivity| |vm_compute; reflexivity|vm_compute; reflexivity].
  eexists _, 1. vm_compute. by split.
Qed.
